(* ===== verification/_CoqProject ===== *)
-Q . S2P
Prelude.v
Machine.v
Ordering.v
BTree.v
Floats.v
Values.v
Components.v
Messages.v
MessageSpec.v
Imagination.v
ImaginationSpec.v
Ecs.v
WorldTypes.v
Hierarchy.v
Affected.v
Render.v
World.v
Codec.v
Compilation.v
SceneSpec.v
CommitRefine.v
PreflightRefine.v
TransformRefine.v
WorldInvariant.v
WorldApply.v
Extraction.v
WorldTheorems.v
Hash.v
Compiler.v
CompilerPlans.v
CompilerCycles.v
CompilerPasses.v
CompilerPatch.v
CompilerReport.v
CompilerOutcome.v
CompilerMeaning.v
CompilerApply.v
Sha256.v
CompilerTheorems.v
Replay.v
ReplayCodec.v
ReplayLogs.v
Recorded.v
RecordedReplay.v
ReplayWitness.v
AssetTypes.v
RenderScene.v
Recovery.v
Engine.v
EngineSync.v
EngineTheorems.v
Procedural.v
Query.v
Gateway.v
GatewayInvariant.v
GatewayTheorems.v
Observation.v
Frame.v
ScenePrepare.v
Sums.v
AssetStore.v
RendererAssets.v
LocalAssets.v
Glb.v
GlbMesh.v
GlbAsset.v
ObservationQueue.v
ObservationTheorems.v
Transport.v
SessionLimits.v
Session.v
Executor.v
ExecutorFrames.v
ExecutorInvariant.v
ExecutorSteps.v
ExecutorTheorems.v
Service.v
ServiceTheorems.v
ServiceRevert.v
ExecutorWitness.v
