(* ===== verification/Prelude.v ===== *)
(** * Cogniform: a verification development

    Cogniform is a deterministic, headless scene engine.  Clients describe
    changes as protocol messages; an authoritative world applies them
    atomically; every accepted change is recorded in a hash-chained log; a
    compiler turns imaginations (entities with relations and preconditions)
    into patches for the world; a gateway queues and orders commands; a renderer
    keeps a copy of the scene, prepares frames from it and reads them back; an
    asset store decodes sources that the renderer uploads; a service joins the
    gateway to the assets and to a queue of observations; an executor serves one
    client session over framed messages.  This library models that core from
    the Rust sources under src/crates and proves what makes it correct.

    ** Conventions

    A Rust function is a Rocq function with the same name where possible.
    [Result] is [outcome] ([Ok], [Err]); [Panic] stands for a failed [expect],
    [assert!] or index, so "never panics" is a theorem about the modelled code;
    what the model leaves to an interface (the classes below and the graphics
    backend) is assumed to return.  The asset store's theorems assume that of
    its GLB decoder too; [GlbAsset] shows when the modelled decoder returns, and
    one kind of source for which it panics.
    A method with [&mut self] that can fail after a change returns the state it
    leaves beside its result ([mut_bind] and its notation), so that "nothing
    changed" on an error is a theorem too.  [OutOfFuel] is returned only by a
    loop with explicit fuel, and
    every loop has a theorem that its fuel is enough (a climb visits each edge
    once, a cycle walk each entity once, a chain of anchors each plan once, a
    log has at least one byte per entry).  Unsigned integers are [N] with the
    width's checked or saturating operation written out; [f32] and [f64] values
    are bit patterns with IEEE arithmetic through [SpecFloat]; [BTreeMap] and
    [BTreeSet] are [gmap] and [gset] iterated in ascending key order ([BTree]);
    [sort_by], [dedup] and [Ord] are in [Ordering].  Code outside the
    repository is a class with its documented laws: the entity store of the ECS
    ([EntityStore], with a concrete slot store), the serde serialisers
    ([JsonCodec], [ResultJson], [SessionJson]) and the digest ([Digest], with an
    executable SHA-256 in [Sha256]).  A [usize] is 64 bits wide.  Clocks, the
    graphics backend and the device's buffers are arguments.  A thread is a step
    relation: the observation worker takes a job, completes it or dies, and the
    owner's calls interleave with these steps.

    ** Parts and files

    - Values and messages (cogniform-protocol: id.rs, asset.rs, component.rs,
      message.rs, limits.rs, error.rs, render.rs): [Values], [Components],
      [Messages], [Render]; [MessageSpec] states which patches are admissible.
      Canonical text of identifiers and hashes, normal form of float newtypes,
      and that validation accepts exactly the admissible patches.
    - Canonical JSON (protocol codec.rs): [Codec].  The nesting guard is exact
      and encode/decode round-trip.
    - World (cogniform-world): [Ecs], [WorldTypes], [Hierarchy], [Affected],
      [World] hold the definitions.  [SceneSpec] is the abstract specification
      (a map of rows and a parent map, operations one after the other);
      [CommitRefine], [PreflightRefine], [TransformRefine], [WorldInvariant]
      and [WorldApply] prove that preflight and commit implement it;
      [Extraction] does the same for render extraction; [WorldTheorems] states
      refinement, safety, the reachable invariant, exact failures and
      acceptance, idempotency, exact transforms, complete extraction and
      canonical snapshots.
    - Hash and replay (world hash.rs, cogniform-replay): [Hash] and [Sha256]
      for the logical hash, [Replay] for the definitions, [ReplayCodec] and
      [ReplayLogs] for framing, chaining and loading, [Recorded] and
      [RecordedReplay] for recorded worlds, [ReplayWitness] for concrete runs
      and one recorded world that replay refuses.
    - Imaginations (protocol imagination.rs): [Imagination]; [ImaginationSpec]
      proves that validation accepts exactly the admissible ones.
    - Compilation reports (cogniform-compilation): [Compilation].
    - Compiler (cogniform-compiler): [Compiler] holds the definitions;
      [CompilerPlans], [CompilerCycles] and [CompilerPasses] follow the passes;
      [CompilerPatch] and
      [CompilerReport] show that what it outputs is valid; [CompilerMeaning]
      and [CompilerApply] relate a compiled patch to the imagination and to the
      world; [CompilerOutcome] and [CompilerTheorems] state the results.
    - Renderer (cogniform-renderer scene.rs, frame.rs, config.rs, renderer.rs):
      [RenderScene] is the renderer's copy of the scene with its compact
      identities, and consumes a packet atomically and exactly.
      [ScenePrepare] prepares a frame: camera, lights, geometry, imported
      materials and draws; every visible entity is drawn once, within bounds.
      [Frame] reads a frame back: every pixel is decoded from its own bytes.  Of
      the headless renderer itself [Engine] keeps configuration, readback layout
      and frame identities.
    - Assets (cogniform-assets types.rs, error.rs, store.rs; cogniform-renderer
      asset.rs; the asset calls of cogniform-engine service.rs): [AssetTypes] is
      the data with its limits, the material builders and that accessors read
      back what they set; [AssetStore] the store with its proxy asset, over the
      interface [GlbDecoder] of the GLB decoder; [RendererAssets] the uploads
      and the resident meshes and textures, both with their exact counters and
      the effect of each call (the sums are in [Sums]); [LocalAssets] joins the
      two as the service does and states that device and store agree in every
      order of calls, that all totals are exact and bounded, exact eviction and
      that imports drain, and runs one asset through.
    - GLB decoding (cogniform-assets glb.rs): [Glb] is the container, the
      document and the accessors: which bytes are a container, and that every
      read of an accepted accessor stays in its view.  [GlbMesh] decodes one
      mesh with its material and generated tangents, [GlbAsset] images,
      textures and the whole source.  Decoding ends, what it returns is well
      shaped, exactly sized and within the limits, and the one class of
      documents for which it panics is exhibited; [store_decoder] puts it
      behind the interface [GlbDecoder].  The png and tangent crates, sine and
      cosine, and the reading of the JSON chunk with its extension preflight
      ([GlbJson]) are parameters.
    - Procedures (cogniform-procedural): [Procedural].  A grid is exactly its
      cells, in order, in a valid patch.
    - Recovery envelope (cogniform-engine recovery.rs): [Recovery].  Decoding
      accepts exactly the envelopes that encoding writes.
    - Engine (cogniform-engine engine.rs): [Engine] holds the definitions;
      [EngineSync] shows that world, log and renderer copy stay in step;
      [EngineTheorems] states atomicity across the three, the reachable
      invariant and recovery.
    - Queries (protocol query.rs): [Query].
    - Gateway (cogniform-engine gateway.rs): [Gateway] holds the definitions;
      [GatewayInvariant] the bounds and uniqueness invariant;
      [GatewayTheorems] states it for every reachable gateway, with the effect
      of every submission, draining of the queue, at-most-once execution of an
      idempotency key and exact queries.
    - Observations (cogniform-observation, cogniform-engine observation.rs):
      [Observation] is the payload envelope, which decodes exactly what it
      encodes; [ObservationQueue] the permits, channels and worker;
      [ObservationTheorems] shows that they refine a bounded first-in first-out
      queue whose requests are all answered, each exactly.
    - Transport and session messages (cogniform-local-transport,
      cogniform-local-session): [Transport] frames bytes, whole or from a
      stream; [SessionLimits] negotiates limits; [Session] is the message codec.
    - Executor (cogniform-local-executor): [Executor] holds the definitions over
      the class [SessionService]; [ExecutorInvariant] the promises a service
      makes ([SessionServiceLaws]) and the invariant of the bookkeeping;
      [ExecutorFrames] which answers always fit; [ExecutorSteps] the effect of
      every call; [ExecutorTheorems] states that every frame is answered, every
      command drained, and how a session opens and closes.
    - Service (cogniform-engine service.rs, the adapter in the executor crate):
      [Service] holds the definitions; [ServiceTheorems] proves the promises of
      [SessionServiceLaws] for it, so that the executor's theorems hold of the
      executor over the service; [ServiceRevert] covers start, restoration,
      reachable services, asset calls and procedures included, and the revert to
      an earlier revision.
      [ExecutorWitness] runs a session over a sample service.

    ** Bounds

    Theorems about validation assume limits strictly below the maximum of their
    integer type ([roomy], [compilable], [sound_config]), so that saturation
    cannot hide an excess; the defaults satisfy them.  Texts are assumed
    shorter than 4 GiB ([typed_text]).

    ** Not modelled

    Allocation failure and logging everywhere; [Display] and [Error]
    implementations.  Not modelled at all: process and file input and output
    (cogniform-storage, cogniform-mcp, the command line), pipelines and shaders
    of the renderer, the JSON reader and extension preflight of the GLB decoder
    (cogniform-assets glb.rs, an interface of [GlbAsset]), observation
    presentation,
    and the timing statistics and scripted scenarios of the engine crate. *)

From Stdlib Require Export Strings.Byte NArith Lia.
From stdpp Require Export sorting base gmap sets list strings numbers.
Export stdpp.list_basics.list stdpp.list_relations.list stdpp.list_monad.list
  stdpp.list_misc.list.

(** ** Outcomes of Rust functions

    [Ok] and [Err] are Rust's [Result]; [Panic] is an unwinding panic (a failed
    [expect], [assert!], index or arithmetic check); [OutOfFuel] is only ever
    returned by a fuelled loop whose fuel ran out, and the termination theorems
    show it is unreachable. *)
Inductive outcome (E A : Type) : Type :=
| Ok (a : A)
| Err (e : E)
| Panic
| OutOfFuel.
Arguments Ok {E A} a.
Arguments Err {E A} e.
Arguments Panic {E A}.
Arguments OutOfFuel {E A}.

Definition out_bind {E A B} (m : outcome E A) (f : A → outcome E B) : outcome E B :=
  match m with
  | Ok a => f a
  | Err e => Err e
  | Panic => Panic
  | OutOfFuel => OutOfFuel
  end.

Definition map_err {E F A} (f : E → F) (m : outcome E A) : outcome F A :=
  match m with
  | Ok a => Ok a
  | Err e => Err (f e)
  | Panic => Panic
  | OutOfFuel => OutOfFuel
  end.

(** [Option::ok_or]. *)
Definition ok_or {E A} (o : option A) (e : E) : outcome E A :=
  match o with Some a => Ok a | None => Err e end.

(** [Option::expect]. *)
Definition expect {E A} (o : option A) : outcome E A :=
  match o with Some a => Ok a | None => Panic end.

(** An early [return Err(e)] under a condition. *)
Definition guard_err {E} (b : bool) (e : E) : outcome E unit :=
  if b then Err e else Ok tt.

(** [Result::ok]. *)
Definition out_ok {E A} (m : outcome E A) : option A :=
  match m with Ok a => Some a | _ => None end.

Definition is_ok {E A} (m : outcome E A) : bool :=
  match m with Ok _ => true | _ => false end.

Declare Scope outcome_scope.
Delimit Scope outcome_scope with out.
Notation "'let!' x ':=' m 'in' k" := (out_bind m (λ x, k))
  (at level 10, x pattern, m at level 100, k at level 200) : outcome_scope.
Notation "'do!' m 'then' k" := (out_bind m (λ _, k))
  (at level 10, m at level 100, k at level 200) : outcome_scope.
Open Scope outcome_scope.

(** ** Methods that mutate

    A method with [&mut self] is a function from the state to the state it
    leaves and its outcome: what was changed before a failure stays changed. *)
Section mutation.
Context {St E : Type}.

Definition mut_bind {A B} (m : St → St * outcome E A) (k : A → St → St * outcome E B) (s : St) : St * outcome E B :=
  match m s with
  | (s, Ok a) => k a s
  | (s, Err e) => (s, Err e)
  | (s, Panic) => (s, Panic)
  | (s, OutOfFuel) => (s, OutOfFuel)
  end.

(** A step that only reads the state, and one that only writes it. *)
Definition mut_read {A} (f : St → outcome E A) (s : St) : St * outcome E A := (s, f s).
Definition mut_write (f : St → St) (s : St) : St * outcome E unit := (f s, Ok tt).
Definition mut_ret {A} (a : A) (s : St) : St * outcome E A := (s, Ok a).

(** A method of a part of the state. *)
Definition mut_in {T A} (get : St → T) (put : T → St → St) (m : T → T * outcome E A) (s : St) : St * outcome E A :=
  let '(t, r) := m (get s) in (put t s, r).

(** A method whose last failing step comes before its first change. *)
Definition mut_last {A} (m : St → outcome E (A * St)) (s : St) : St * outcome E A :=
  match m s with
  | Ok (a, s') => (s', Ok a)
  | Err e => (s, Err e)
  | Panic => (s, Panic)
  | OutOfFuel => (s, OutOfFuel)
  end.

End mutation.

Definition mut_err {St E F A} (f : E → F) (m : St → St * outcome E A) (s : St) : St * outcome F A :=
  let '(s', r) := m s in (s', map_err f r).

Notation "'mut!' x ':=' m 'in' k" := (mut_bind m (λ x, k))
  (at level 10, x pattern, m at level 100, k at level 200) : outcome_scope.

(** A fold whose step may fail: the body of a [for] loop with early returns. *)
Fixpoint out_fold {E S A} (f : S → A → outcome E S) (s : S) (l : list A) : outcome E S :=
  match l with
  | [] => Ok s
  | a :: l => let! s := f s a in out_fold f s l
  end.

(** [normal m]: the call returned, with a value or a typed error. *)
Definition normal {E A} (m : outcome E A) : Prop :=
  match m with Ok _ | Err _ => True | _ => False end.

Lemma Ok_inj {E A} (a b : A) : @Ok E A a = Ok b → a = b.
Proof. congruence. Qed.

Lemma out_bind_ok {E A B} (m : outcome E A) (f : A → outcome E B) b :
  out_bind m f = Ok b ↔ ∃ a, m = Ok a ∧ f a = Ok b.
Proof. destruct m; naive_solver. Qed.

Lemma out_bind_normal {E A B} (m : outcome E A) (f : A → outcome E B) :
  normal m → (∀ a, m = Ok a → normal (f a)) → normal (out_bind m f).
Proof. destruct m; naive_solver. Qed.

Lemma ok_or_ok {E A} (o : option A) (e : E) a : ok_or o e = Ok a ↔ o = Some a.
Proof. destruct o; naive_solver. Qed.

Lemma expect_ok {E A} (o : option A) a : expect (E:=E) o = Ok a ↔ o = Some a.
Proof. destruct o; naive_solver. Qed.

Lemma guard_err_ok {E} b (e : E) u : guard_err b e = Ok u ↔ b = false.
Proof. destruct b, u; naive_solver. Qed.

Lemma guard_err_err {E} b (e e' : E) : guard_err b e = Err e' ↔ b = true ∧ e = e'.
Proof. destruct b; naive_solver. Qed.

Lemma map_err_ok {E F A} (f : E → F) (m : outcome E A) a :
  map_err f m = Ok a ↔ m = Ok a.
Proof. destruct m; naive_solver. Qed.

Lemma map_err_normal {E F A} (f : E → F) (m : outcome E A) :
  normal (map_err f m) ↔ normal m.
Proof. by destruct m. Qed.

(** A reading step runs where it is, and fails without a change. *)
Lemma mut_read_bind {St E A B} (f : St → outcome E A) (k : A → St → St * outcome E B) s :
  mut_bind (mut_read f) k s =
  match f s with Ok a => k a s | Err e => (s, Err e) | Panic => (s, Panic) | OutOfFuel => (s, OutOfFuel) end.
Proof. done. Qed.

Lemma mut_step {St E A B} (m : St → St * outcome E A) (k : A → St → St * outcome E B) s s' a :
  m s = (s', Ok a) → mut_bind m k s = k a s'.
Proof. unfold mut_bind. by intros ->. Qed.

(** A relation that every step keeps. *)
Lemma mut_bind_keeps {St E A B} (R : St → St → Prop) (m : St → St * outcome E A) (k : A → St → St * outcome E B) s :
  (∀ x y z, R x y → R y z → R x z) → R s (m s).1 → (∀ a s', m s = (s', Ok a) → R s' (k a s').1) → R s (mut_bind m k s).1.
Proof. intros Ht Hm Hk. unfold mut_bind. destruct (m s) as [s' [a|e| |]]; try done. eapply Ht; [exact Hm|]. by apply Hk. Qed.

Lemma guard_err_normal {E} b (e : E) : normal (guard_err b e).
Proof. by destruct b. Qed.

Lemma ok_or_normal {E A} (o : option A) (e : E) : normal (ok_or o e).
Proof. by destruct o. Qed.

Lemma out_fold_app {E S A} (f : S → A → outcome E S) s l1 l2 :
  out_fold f s (l1 ++ l2) = let! s' := out_fold f s l1 in out_fold f s' l2.
Proof. revert s. induction l1; intros; simpl; [done|]. destruct (f s a); simpl; auto. Qed.

(** Invariant rule for failing folds. *)
Lemma out_fold_inv {E S A} (f : S → A → outcome E S) (P : S → Prop) l s s' :
  (∀ a s s', a ∈ l → P s → f s a = Ok s' → P s') →
  P s → out_fold f s l = Ok s' → P s'.
Proof.
  revert s. induction l as [|a l IH]; intros s Hstep HP; simpl; [naive_solver|].
  rewrite out_bind_ok. intros (s1 & H1 & H2).
  apply (IH s1); [|eapply Hstep; eauto; set_solver|done].
  intros b t t' Hb. apply Hstep. set_solver.
Qed.

Lemma out_fold_normal {E S A} (f : S → A → outcome E S) (P : S → Prop) l s :
  (∀ a s, a ∈ l → P s → normal (f s a)) →
  (∀ a s s', a ∈ l → P s → f s a = Ok s' → P s') →
  P s → normal (out_fold f s l).
Proof.
  revert s. induction l as [|a l IH]; intros s Hn Hstep HP; simpl; [done|].
  apply out_bind_normal; [apply Hn; set_solver|].
  intros s1 H1. apply IH.
  - intros b t Hb. apply Hn. set_solver.
  - intros b t t' Hb. apply Hstep. set_solver.
  - eapply Hstep; eauto. set_solver.
Qed.

(** [follows R impl spec]: [impl] succeeds with a value related to the one of
    [spec], or fails with the same error. *)
Definition follows {E A B} (R : A → B → Prop) (impl : outcome E A) (spec : outcome E B) : Prop :=
  match spec with
  | Ok b => ∃ a, impl = Ok a ∧ R a b
  | Err e => impl = Err e
  | Panic | OutOfFuel => False
  end.

Lemma follows_bind {E A B A' B'} (R : A → B → Prop) (R' : A' → B' → Prop) (m : outcome E A)
    (m' : outcome E B) (k : A → outcome E A') (k' : B → outcome E B') :
  follows R m m' → (∀ a b, R a b → follows R' (k a) (k' b)) →
  follows R' (out_bind m k) (out_bind m' k').
Proof. destruct m'; simpl; [intros (x & -> & Hx) Hk; by apply Hk|by intros ->|done..]. Qed.

Create HintDb outcome.
#[export] Hint Resolve guard_err_normal ok_or_normal : outcome.

(** [solve_normal]: a call returns when each of its steps does; calls of other
    functions are closed by the lemmas of the hint database. *)
Ltac solve_normal :=
  repeat match goal with
  | |- normal (Ok _) => exact I
  | |- normal (Err _) => exact I
  | |- normal (out_bind _ _) => apply out_bind_normal; [|intros ? _]
  | |- normal (guard_err _ _) => apply guard_err_normal
  | |- normal (ok_or _ _) => apply ok_or_normal
  | |- normal (map_err _ _) => apply map_err_normal
  | |- normal (if ?b then _ else _) => destruct b
  | |- normal (match ?o with _ => _ end) => destruct o
  end; auto with outcome.

(** [inv_ok]: decompose a successful run into the successes of its steps. *)
Ltac inv_ok :=
  repeat match goal with
  | H : out_bind ?m ?f = Ok _ |- _ =>
      apply out_bind_ok in H; destruct H as (? & ? & H); cbn beta in H
  | H : ok_or _ _ = Ok _ |- _ => apply ok_or_ok in H
  | H : expect _ = Ok _ |- _ => apply expect_ok in H
  | H : guard_err _ _ = Ok _ |- _ => apply guard_err_ok in H
  | H : map_err _ _ = Ok _ |- _ => apply map_err_ok in H
  | H : Ok _ = Ok _ |- _ => apply Ok_inj in H
  | H : Err _ = Ok _ |- _ => discriminate H
  | H : Panic = Ok _ |- _ => discriminate H
  | H : OutOfFuel = Ok _ |- _ => discriminate H
  end.
