(* ===== verification/Machine.v ===== *)
(** * Machine integers, bytes and big-endian encodings

    Rust's unsigned integers are kept as [N] together with the width that
    bounds them: [checked_add], [sat_add], [wrap] and the length conversions
    write the behaviour at the width out.  Bytes are [Byte.byte]; a [Vec<u8>]
    is a [list byte].  The big-endian codec is shared by the scene hash, the
    replay log and the frame header. *)

From S2P Require Import Prelude.

Open Scope N_scope.

Abbreviation bytes := (list byte).

Definition u8_max : N := 255.
Definition u16_max : N := 65535.
Definition u32_max : N := 4294967295.
Definition u64_max : N := 18446744073709551615.
Definition u128_max : N := 340282366920938463463374607431768211455.

(** [uN::checked_add] for the width whose maximum is [max]. *)
Definition checked_add (max a b : N) : option N :=
  if a + b <=? max then Some (a + b) else None.

(** [uN::checked_sub]. *)
Definition checked_sub (a b : N) : option N :=
  if b <=? a then Some (a - b) else None.

(** [uN::saturating_add]; [saturating_sub] is [N.sub]. *)
Definition sat_add (max a b : N) : N := N.min max (a + b).

Definition sat_add64 : N → N → N := sat_add u64_max.

(** [uN::try_from(len)] of a collection length. *)
Definition try_from_len (max : N) (len : nat) : option N :=
  let v := N.of_nat len in if v <=? max then Some v else None.

(** [uN::try_from(len).unwrap_or(uN::MAX)]. *)
Definition len_or_max (max : N) (len : nat) : N := default max (try_from_len max len).

(** [NonZeroUN::new]. *)
Definition non_zero (v : N) : option N := if v =? 0 then None else Some v.

(** Case analysis on the boolean comparisons of [N] in the goal. *)
Ltac leb_cases :=
  repeat match goal with
  | |- context [N.leb ?a ?b] => destruct (N.leb_spec a b)
  | |- context [N.ltb ?a ?b] => destruct (N.ltb_spec a b)
  | |- context [N.eqb ?a ?b] => destruct (N.eqb_spec a b)
  end.

(** [Option::is_some] and [u64::from(o.is_some())]. *)
Definition is_some {A} (o : option A) : bool := match o with Some _ => true | None => false end.
Definition is_some_u64 {A} (o : option A) : N := if is_some o then 1 else 0.

Lemma checked_add_Some max a b c :
  checked_add max a b = Some c ↔ c = a + b ∧ a + b ≤ max.
Proof. unfold checked_add. leb_cases; split; intros; destruct_and?; simplify_eq; auto; lia. Qed.

Lemma checked_add_None max a b : checked_add max a b = None ↔ max < a + b.
Proof. unfold checked_add. leb_cases; split; intros; destruct_and?; simplify_eq; auto; lia. Qed.

Lemma checked_sub_Some a b c : checked_sub a b = Some c ↔ a = c + b.
Proof. unfold checked_sub. leb_cases; split; intros; simplify_eq; try f_equal; lia. Qed.

Lemma try_from_len_Some max n v : try_from_len max n = Some v ↔ v = N.of_nat n ∧ N.of_nat n ≤ max.
Proof. unfold try_from_len. leb_cases; split; intros; destruct_and?; simplify_eq; auto; lia. Qed.

(** Saturating conversion of a length is [min]. *)
Lemma len_or_max_min max n : len_or_max max n = N.min max (N.of_nat n).
Proof.
  unfold len_or_max, try_from_len. cbv zeta. leb_cases; simpl; lia.
Qed.

Lemma sat_add_assoc max a b c : sat_add max (sat_add max a b) c = sat_add max a (sat_add max b c).
Proof. unfold sat_add. lia. Qed.

Lemma sat_add_le max a b : sat_add max a b ≤ max.
Proof. unfold sat_add. lia. Qed.

(** A saturating sum that stays strictly below the maximum is exact. *)
Lemma sat_add_exact max a b : sat_add max a b < max → sat_add max a b = a + b.
Proof. unfold sat_add. lia. Qed.

(** Exact sums, and the saturating folds that approximate them. *)
Definition sumN {A} (f : A → N) (l : list A) : N := foldr (λ x t, f x + t) 0 l.

Lemma sat_fold_sum {A} (max : N) (f g : A → N) (l : list A) (a : N) :
  (∀ x, f x = N.min max (g x)) →
  foldl (λ t x, sat_add max t (f x)) (N.min max a) l = N.min max (a + sumN g l).
Proof.
  intros Hfg. revert a. induction l as [|x l IH]; intros a; simpl; [f_equal; lia|].
  replace (sat_add max (N.min max a) (f x)) with (N.min max (a + g x));
    [rewrite IH; f_equal; lia|].
  rewrite Hfg. unfold sat_add. lia.
Qed.

Lemma sumN_app {A} (f : A → N) l1 l2 : sumN f (l1 ++ l2) = sumN f l1 + sumN f l2.
Proof. induction l1; simpl; lia. Qed.

(** ** Bytes *)

#[export] Instance byte_eq_decision : EqDecision byte := Byte.byte_eq_dec.

Definition byte_of_N (v : N) : byte := default x00 (Byte.of_N v).

Lemma to_N_byte_of_N v : v < 256 → Byte.to_N (byte_of_N v) = v.
Proof.
  intros Hv. unfold byte_of_N. destruct (Byte.of_N v) as [b|] eqn:E; simpl.
  - by apply Byte.to_of_N.
  - apply Byte.of_N_None_iff in E. lia.
Qed.

Lemma byte_of_N_to_N b : byte_of_N (Byte.to_N b) = b.
Proof. unfold byte_of_N. by rewrite Byte.of_to_N. Qed.

Lemma to_N_lt b : Byte.to_N b < 256.
Proof. pose proof (Byte.to_N_bounded b). lia. Qed.

Lemma to_N_inj b1 b2 : Byte.to_N b1 = Byte.to_N b2 → b1 = b2.
Proof. intros H. by rewrite <-(byte_of_N_to_N b1), H, byte_of_N_to_N. Qed.

(** [uN::to_be_bytes], [n] bytes, and [uN::from_be_bytes]. *)
Fixpoint to_be_bytes (n : nat) (v : N) : bytes :=
  match n with
  | O => []
  | S n => to_be_bytes n (v / 256) ++ [byte_of_N (v mod 256)]
  end.

Definition from_be_bytes (l : bytes) : N :=
  foldl (λ acc b, acc * 256 + Byte.to_N b) 0 l.

Lemma length_to_be_bytes n v : length (to_be_bytes n v) = n.
Proof. revert v. induction n; intros; simpl; [done|]. rewrite length_app, IHn. simpl. lia. Qed.

Lemma from_be_bytes_snoc l b : from_be_bytes (l ++ [b]) = from_be_bytes l * 256 + Byte.to_N b.
Proof. unfold from_be_bytes. by rewrite foldl_app. Qed.

Lemma from_to_be_bytes n v : v < 256 ^ N.of_nat n → from_be_bytes (to_be_bytes n v) = v.
Proof.
  revert v. induction n as [|n IH]; intros v Hv; simpl.
  - rewrite N.pow_0_r in Hv. unfold from_be_bytes. simpl. lia.
  - rewrite from_be_bytes_snoc, IH, to_N_byte_of_N.
    + pose proof (N.div_mod v 256). lia.
    + apply N.mod_lt. lia.
    + rewrite Nat2N.inj_succ, N.pow_succ_r' in Hv. apply N.Div0.div_lt_upper_bound. lia.
Qed.

Lemma to_from_be_bytes l : to_be_bytes (length l) (from_be_bytes l) = l.
Proof.
  induction l as [|b l IH] using rev_ind; [done|].
  rewrite length_app. simpl. rewrite Nat.add_1_r. simpl.
  rewrite from_be_bytes_snoc. pose proof (to_N_lt b).
  rewrite (N.add_comm (_ * 256)), N.div_add, (N.div_small (Byte.to_N b)), N.add_0_l by lia.
  rewrite N.Div0.mod_add, N.mod_small by lia.
  by rewrite IH, byte_of_N_to_N.
Qed.

Lemma from_be_bytes_lt l : from_be_bytes l < 256 ^ N.of_nat (length l).
Proof.
  induction l as [|b l IH] using rev_ind; [unfold from_be_bytes; simpl; lia|].
  rewrite from_be_bytes_snoc, length_app. simpl.
  rewrite Nat.add_1_r, Nat2N.inj_succ, N.pow_succ_r'. pose proof (to_N_lt b). lia.
Qed.

Lemma to_be_bytes_inj n v w :
  v < 256 ^ N.of_nat n → w < 256 ^ N.of_nat n → to_be_bytes n v = to_be_bytes n w → v = w.
Proof. intros Hv Hw H. by rewrite <-(from_to_be_bytes n v), H, from_to_be_bytes. Qed.

(** [slice.get(start..start+len)]: [None] when the range leaves the slice. *)
Definition slice_get (l : bytes) (start len : nat) : option bytes :=
  if decide (start + len ≤ length l)%nat then Some (take len (drop start l)) else None.

Lemma slice_get_app_mid l1 l2 l3 n k :
  n = length l1 → k = length l2 → slice_get (l1 ++ l2 ++ l3) n k = Some l2.
Proof.
  intros -> ->. unfold slice_get.
  rewrite decide_True by (rewrite !length_app; lia).
  by rewrite drop_app_length, take_app_length.
Qed.

(** Splitting equal concatenations at a known length. *)
(** [encoded[start..start + len]]. *)
Definition index_slice {F} (encoded : bytes) (start len : nat) : outcome F bytes :=
  expect (slice_get encoded start len).

Lemma slice_get_at l pre v rest n k :
  l = pre ++ v ++ rest → n = length pre → k = length v → slice_get l n k = Some v.
Proof. intros -> -> ->. by rewrite slice_get_app_mid. Qed.

Lemma index_slice_at {F} l pre v rest n k :
  l = pre ++ v ++ rest → n = length pre → k = length v → index_slice (F:=F) l n k = Ok v.
Proof. intros Hl Hn Hk. unfold index_slice. by rewrite (slice_get_at l pre v rest). Qed.

(** A slice that succeeds splits the rest of the bytes. *)
Lemma slice_get_split l start len v :
  slice_get l start len = Some v → drop start l = v ++ drop (start + len) l ∧ length v = len.
Proof.
  unfold slice_get. case_decide as Hb; [|done]. intros [= <-]. rewrite <-drop_drop, take_drop. split; [done|].
  rewrite length_take, length_drop. lia.
Qed.

Lemma index_slice_split {F} l start len v :
  index_slice (F:=F) l start len = Ok v → drop start l = v ++ drop (start + len) l ∧ length v = len.
Proof. unfold index_slice. rewrite expect_ok. apply slice_get_split. Qed.

Lemma index_slice_normal {F} (l : bytes) start len : (start + len ≤ length l)%nat → normal (index_slice (F:=F) l start len).
Proof. intros Hb. unfold index_slice, slice_get. by rewrite decide_True. Qed.

Lemma be_bytes_back n l : length l = n → to_be_bytes n (from_be_bytes l) = l.
Proof. intros <-. apply to_from_be_bytes. Qed.

Lemma app_split_length {A} (l1 l2 k1 k2 : list A) :
  length l1 = length k1 → l1 ++ l2 = k1 ++ k2 → l1 = k1 ∧ l2 = k2.
Proof. intros Hl H. by apply app_inj_1. Qed.

(** ASCII text of a Rust byte-string literal. *)
Definition bytes_of_string (s : string) : bytes := String.list_byte_of_string s.

Create HintDb machine.
#[export] Hint Resolve length_to_be_bytes to_N_lt sat_add_le : machine.
