(* ===== verification/Ordering.v ===== *)
(** * Orderings, sorting and deduplication

    [Ord::cmp] as a three-way comparison with its laws, the combinators the
    canonical orders are built from ([Ordering::then_with], [Option] and
    [String] comparison), [slice::sort_by] as a stable sort and [Vec::dedup]. *)

From S2P Require Import Prelude Machine.

Open Scope N_scope.

(** ** Comparisons *)

(** The contract of [Ord]. *)
Class OrdLaws {A} (cmp : A → A → comparison) : Prop := {
  ord_sym a b : cmp b a = CompOpp (cmp a b);
  ord_eq_l a b c : cmp a b = Eq → cmp a c = cmp b c;
  ord_lt_trans a b c : cmp a b = Lt → cmp b c = Lt → cmp a c = Lt;
}.

(** [Ordering::then_with]. *)
Definition then_with (c1 c2 : comparison) : comparison := match c1 with Eq => c2 | _ => c1 end.

(** [Ord] for [String]: bytewise lexicographic. *)
Fixpoint text_cmp (a b : bytes) : comparison :=
  match a, b with
  | [], [] => Eq
  | [], _ :: _ => Lt
  | _ :: _, [] => Gt
  | x :: a, y :: b => then_with (N.compare (Byte.to_N x) (Byte.to_N y)) (text_cmp a b)
  end.

(** The derived [Ord] for [Option]: [None] first. *)
Definition option_cmp {A} (cmp : A → A → comparison) (a b : option A) : comparison :=
  match a, b with
  | None, None => Eq
  | None, Some _ => Lt
  | Some _, None => Gt
  | Some a, Some b => cmp a b
  end.

#[export] Instance N_compare_ord : OrdLaws N.compare.
Proof.
  split.
  - intros a b. apply N.compare_antisym.
  - intros a b c ->%N.compare_eq. done.
  - intros a b c. rewrite !N.compare_lt_iff. lia.
Qed.

#[export] Instance contramap_ord {A B} (f : A → B) cmp :
  OrdLaws cmp → OrdLaws (λ a b, cmp (f a) (f b)).
Proof.
  intros [Hs He Ht]. split; intros; [apply Hs|by apply He|by eapply Ht].
Qed.

#[export] Instance then_with_ord {A} (c1 c2 : A → A → comparison) :
  OrdLaws c1 → OrdLaws c2 → OrdLaws (λ a b, then_with (c1 a b) (c2 a b)).
Proof.
  intros [S1 E1 T1] [S2 E2 T2]. split.
  - intros a b. rewrite S1, S2. by destruct (c1 a b), (c2 a b).
  - intros a b c. destruct (c1 a b) eqn:H1; try done. cbn [then_with]. intros H2.
    by rewrite (E1 _ _ _ H1), (E2 _ _ _ H2).
  - intros a b c. destruct (c1 a b) eqn:H1, (c1 b c) eqn:H2; try done; cbn [then_with]; intros Ha Hb.
    + rewrite (E1 _ _ _ H1), H2. by eapply T2.
    + by rewrite (E1 _ _ _ H1), H2.
    + assert (c1 a c = Lt) as ->; [|done].
      assert (c1 c a = Gt) as Hca; [|by rewrite S1, Hca].
      rewrite (E1 c b a); [by rewrite S1, H1|by rewrite S1, H2].
    + by rewrite (T1 _ _ _ H1 H2).
Qed.

#[export] Instance option_cmp_ord {A} (cmp : A → A → comparison) : OrdLaws cmp → OrdLaws (option_cmp cmp).
Proof.
  intros [Hs He Ht]. split.
  - intros [a|] [b|]; cbn; auto.
  - intros [a|] [b|] [c|]; cbn; auto; discriminate.
  - intros [a|] [b|] [c|]; cbn; try discriminate; eauto.
Qed.

Lemma text_cmp_eq a b : text_cmp a b = Eq ↔ a = b.
Proof.
  split; [|intros ->; induction b as [|y b IH]; cbn; [done|by rewrite N.compare_refl]].
  revert b. induction a as [|x a IH]; intros [|y b]; cbn; try done.
  destruct (N.compare_spec (Byte.to_N x) (Byte.to_N y)) as [Hxy| |]; try done. cbn. intros Hab.
  by rewrite (to_N_inj _ _ Hxy), (IH _ Hab).
Qed.

#[export] Instance text_cmp_ord : OrdLaws text_cmp.
Proof.
  assert (∀ a b, text_cmp b a = CompOpp (text_cmp a b)) as Hs.
  { induction a as [|x a IH]; intros [|y b]; cbn; try done.
    rewrite N.compare_antisym, IH. by destruct (_ ?= _), (text_cmp a b). }
  split; [done|by intros a b c ->%text_cmp_eq|].
  induction a as [|x a IH]; intros [|y b] [|z c]; cbn; try done.
  destruct (N.compare_spec (Byte.to_N x) (Byte.to_N y)) as [Hxy|Hxy|Hxy],
    (N.compare_spec (Byte.to_N y) (Byte.to_N z)) as [Hyz|Hyz|Hyz]; cbn; try done; intros Ha Hb.
  - rewrite Hxy, Hyz, N.compare_refl. cbn. by eapply IH.
  - by rewrite Hxy, (proj2 (N.compare_lt_iff _ _) Hyz).
  - by rewrite <-Hyz, (proj2 (N.compare_lt_iff _ _) Hxy).
  - by rewrite (proj2 (N.compare_lt_iff (Byte.to_N x) (Byte.to_N z))) by lia.
Qed.

Lemma option_cmp_eq {A} (cmp : A → A → comparison) a b :
  (∀ x y, cmp x y = Eq ↔ x = y) → option_cmp cmp a b = Eq ↔ a = b.
Proof.
  intros Hc. destruct a, b; cbn; rewrite ?Hc; split; intros; simplify_eq; done.
Qed.

Lemma then_with_eq c1 c2 : then_with c1 c2 = Eq ↔ c1 = Eq ∧ c2 = Eq.
Proof. destruct c1; cbn; naive_solver. Qed.

(** ** Sorting *)

Section sort.
Context {A : Type} (cmp : A → A → comparison).

Fixpoint insert_by (x : A) (l : list A) : list A :=
  match l with
  | [] => [x]
  | y :: l => match cmp x y with Gt => y :: insert_by x l | _ => x :: y :: l end
  end.

(** [slice::sort_by], the stable sort. *)
Definition sort_by (l : list A) : list A := foldr insert_by [] l.

Lemma insert_by_perm x l : insert_by x l ≡ₚ x :: l.
Proof.
  induction l as [|y l IH]; cbn; [done|]. destruct (cmp x y); [done..|]. rewrite IH. constructor.
Qed.

Lemma sort_by_perm l : sort_by l ≡ₚ l.
Proof. induction l as [|x l IH]; cbn; [done|]. by rewrite insert_by_perm, IH. Qed.

Context `{!OrdLaws cmp}.

Definition cmp_le (a b : A) : Prop := cmp a b ≠ Gt.
Definition cmp_lt (a b : A) : Prop := cmp a b = Lt.

Lemma cmp_refl a : cmp a a = Eq.
Proof. pose proof (ord_sym a a) as H. by destruct (cmp a a). Qed.

Lemma cmp_le_trans a b c : cmp_le a b → cmp_le b c → cmp_le a c.
Proof.
  unfold cmp_le. intros Hab Hbc. destruct (cmp a b) eqn:E1; [by rewrite (ord_eq_l _ _ _ E1)| |done].
  destruct (cmp b c) eqn:E2; [|by rewrite (ord_lt_trans _ _ _ E1 E2)|done].
  assert (cmp c a = Gt) as E3.
  { rewrite (ord_eq_l c b a); [|by rewrite ord_sym, E2]. by rewrite ord_sym, E1. }
  rewrite ord_sym, E3. done.
Qed.

Lemma insert_by_sorted x l : StronglySorted cmp_le l → StronglySorted cmp_le (insert_by x l).
Proof.
  induction 1 as [|y l Hl IH Hy]; cbn; [by repeat constructor|].
  destruct (cmp x y) eqn:E.
  1,2: constructor; [by constructor|]; constructor; [by unfold cmp_le; rewrite E|].
  1,2: eapply Forall_impl; [done|]; intros z Hz; apply (cmp_le_trans x y); [by unfold cmp_le; rewrite E|done].
  constructor; [done|]. rewrite insert_by_perm. constructor; [|done].
  unfold cmp_le. by rewrite ord_sym, E.
Qed.

Lemma sort_by_sorted l : StronglySorted cmp_le (sort_by l).
Proof. induction l as [|x l IH]; cbn; [constructor|by apply insert_by_sorted]. Qed.

(** Sorting elements with pairwise distinct keys is strict. *)
Lemma sorted_strict l :
  StronglySorted cmp_le l → (∀ i j a b, l !! i = Some a → l !! j = Some b → cmp a b = Eq → i = j) →
  StronglySorted cmp_lt l.
Proof.
  induction 1 as [|x l Hl IH Hx]; intros Hd; [constructor|]. constructor.
  - apply IH. intros i j a b Ha Hb Hab. by specialize (Hd (S i) (S j) a b Ha Hb Hab) as [=].
  - rewrite Forall_forall in *. intros y Hy. specialize (Hx y Hy). unfold cmp_le, cmp_lt in *.
    destruct (cmp x y) eqn:E; try done. apply list_elem_of_lookup in Hy as [j Hj].
    by specialize (Hd 0%nat (S j) x y eq_refl Hj E).
Qed.

(** Strictly sorted permutations are equal. *)
Lemma strict_unique l1 l2 : StronglySorted cmp_lt l1 → StronglySorted cmp_lt l2 → l1 ≡ₚ l2 → l1 = l2.
Proof.
  intros H1. revert l2. induction H1 as [|x l1 Hl1 IH Hx]; intros l2 H2 Hp.
  { symmetry in Hp. by apply Permutation_nil_r in Hp. }
  destruct H2 as [|y l2 Hl2 Hy]; [by apply Permutation_nil_r in Hp|].
  rewrite Forall_forall in Hx, Hy.
  assert (x = y) as ->.
  { assert (x ∈ y :: l2) as Hin by (rewrite <-Hp; set_solver).
    assert (y ∈ x :: l1) as Hin' by (rewrite Hp; set_solver).
    apply elem_of_cons in Hin as [->|Hin]; [done|]. apply elem_of_cons in Hin' as [->|Hin']; [done|].
    specialize (Hy _ Hin). specialize (Hx _ Hin'). unfold cmp_lt in *. rewrite ord_sym, Hx in Hy. done. }
  f_equal. apply IH; [done|]. by eapply Permutation_cons_inv.
Qed.

End sort.

(** ** Deduplication *)

(** [Vec::dedup]: of consecutive equal elements the first stays. *)
Fixpoint dedup {A} `{EqDecision A} (l : list A) : list A :=
  match l with
  | x :: (y :: _) as l => if decide (x = y) then dedup l else x :: dedup l
  | _ => l
  end.

Lemma elem_of_dedup {A} `{EqDecision A} (x : A) l : x ∈ dedup l ↔ x ∈ l.
Proof.
  induction l as [|a [|b l] IH]; [done..|]. cbn [dedup]. case_decide; subst; rewrite ?elem_of_cons in *; naive_solver.
Qed.

Lemma dedup_strict {A} `{EqDecision A} (cmp : A → A → comparison) `{!OrdLaws cmp} l :
  (∀ a b, cmp a b = Eq → a = b) → StronglySorted (cmp_le cmp) l → StronglySorted (cmp_lt cmp) (dedup l).
Proof.
  intros Heq. induction l as [|a [|b l] IH]; intros Hs; [constructor|by repeat constructor|].
  apply StronglySorted_inv in Hs as [Hs Ha]. cbn [dedup]. case_decide as Hab; [by apply IH|].
  constructor; [by apply IH|]. rewrite Forall_forall in *. intros x Hx. change (x ∈ dedup (b :: l)) in Hx.
  rewrite elem_of_dedup in Hx. assert (cmp_le cmp b x) as Hbx.
  { apply elem_of_cons in Hx as [->|Hx]; [unfold cmp_le; by rewrite cmp_refl|].
    apply StronglySorted_inv in Hs as [_ Hb]. rewrite Forall_forall in Hb. by apply Hb. }
  assert (cmp a b = Lt) as Hlt.
  { specialize (Ha b ltac:(set_solver)). unfold cmp_le in Ha. destruct (cmp a b) eqn:E; try done. by apply Heq in E. }
  unfold cmp_lt, cmp_le in *. destruct (cmp b x) eqn:E; [|by eapply ord_lt_trans|done].
  apply Heq in E as <-. done.
Qed.

Lemma dedup_strict_id {A} `{EqDecision A} (R : A → A → Prop) l :
  (∀ a, ¬ R a a) → StronglySorted R l → dedup l = l.
Proof.
  intros Hirr. induction l as [|a [|b l] IH]; intros Hs; [done..|]. cbn [dedup].
  apply StronglySorted_inv in Hs as [Hs Ha]. case_decide as Hab.
  - subst. apply Forall_inv in Ha. by apply Hirr in Ha.
  - f_equal. by apply IH.
Qed.
