(* ===== verification/BTree.v ===== *)
(** * Ordered maps and sets

    Rust's [BTreeMap<K, V>] and [BTreeSet<K>] with integer-ordered keys are
    stdpp's [gmap N V] and [gset N]; what the tree adds is the order of
    iteration.  [btree_keys], [btree_iter] and [bset_iter] are the ascending
    iterations the source relies on for determinism. *)

From S2P Require Import Prelude.

Open Scope N_scope.

(** [BTreeSet::iter]. *)
Definition bset_iter (s : gset N) : list N := merge_sort N.le (elements s).

(** [BTreeMap::keys]. *)
Definition btree_keys {V} (m : gmap N V) : list N := bset_iter (dom m).

(** [BTreeMap::iter]. *)
Definition btree_iter {V} (m : gmap N V) : list (N * V) :=
  omap (λ k, (λ v, (k, v)) <$> m !! k) (btree_keys m).

(** [BTreeSet::insert]: the flag says whether the value was new. *)
Definition bset_insert (x : N) (s : gset N) : bool * gset N :=
  (negb (bool_decide (x ∈ s)), {[x]} ∪ s).

#[export] Instance N_le_total : Total N.le.
Proof. intros x y. lia. Qed.

#[export] Instance N_le_trans' : Transitive N.le.
Proof. intros x y z. lia. Qed.

Lemma elem_of_bset_iter s x : x ∈ bset_iter s ↔ x ∈ s.
Proof. unfold bset_iter. by rewrite merge_sort_Permutation, elem_of_elements. Qed.

Lemma NoDup_bset_iter s : NoDup (bset_iter s).
Proof. unfold bset_iter. rewrite merge_sort_Permutation. apply NoDup_elements. Qed.

Lemma length_bset_iter s : length (bset_iter s) = size s.
Proof. unfold bset_iter. by rewrite merge_sort_Permutation. Qed.

Lemma StronglySorted_lt (l : list N) :
  StronglySorted N.le l → NoDup l → StronglySorted N.lt l.
Proof.
  induction 1 as [|x l Hl IH Hx]; intros Hnd; [constructor|].
  apply NoDup_cons in Hnd as [Hnin Hnd]. constructor; [auto|].
  rewrite Forall_forall in Hx |- *. intros y Hy.
  specialize (Hx _ Hy). assert (x ≠ y) by (intros ->; set_solver). lia.
Qed.

(** Iteration is strictly ascending. *)
Lemma bset_iter_sorted s : StronglySorted N.lt (bset_iter s).
Proof.
  apply StronglySorted_lt; [|apply NoDup_bset_iter].
  unfold bset_iter. apply (StronglySorted_merge_sort N.le).
Qed.

Lemma elem_of_btree_keys {V} (m : gmap N V) k : k ∈ btree_keys m ↔ is_Some (m !! k).
Proof. unfold btree_keys. by rewrite elem_of_bset_iter, elem_of_dom. Qed.

Lemma NoDup_btree_keys {V} (m : gmap N V) : NoDup (btree_keys m).
Proof. apply NoDup_bset_iter. Qed.

Lemma btree_keys_sorted {V} (m : gmap N V) : StronglySorted N.lt (btree_keys m).
Proof. apply bset_iter_sorted. Qed.

Lemma elem_of_btree_iter {V} (m : gmap N V) k v : (k, v) ∈ btree_iter m ↔ m !! k = Some v.
Proof.
  unfold btree_iter. rewrite list_elem_of_omap. split.
  - intros (k' & _ & H). destruct (m !! k') eqn:E; naive_solver.
  - intros H. exists k. rewrite elem_of_btree_keys, H. eauto.
Qed.

Lemma btree_iter_keys {V} (m : gmap N V) : (btree_iter m).*1 = btree_keys m.
Proof.
  unfold btree_iter.
  assert (Forall (λ k, is_Some (m !! k)) (btree_keys m)) as H.
  { apply Forall_forall. intros k. by rewrite elem_of_btree_keys. }
  induction H as [|k l [v Hv] _ IH]; simpl; [done|]. rewrite Hv. simpl. f_equal. exact IH.
Qed.

Lemma length_btree_iter {V} (m : gmap N V) : length (btree_iter m) = size m.
Proof.
  rewrite <-(length_fmap fst), btree_iter_keys. unfold btree_keys.
  by rewrite length_bset_iter, size_dom.
Qed.

Lemma NoDup_btree_iter {V} (m : gmap N V) : NoDup (btree_iter m).*1.
Proof. rewrite btree_iter_keys. apply NoDup_btree_keys. Qed.

(** A map is determined by its iteration. *)
Lemma btree_iter_inj {V} (m1 m2 : gmap N V) : btree_iter m1 = btree_iter m2 → m1 = m2.
Proof.
  intros H. apply map_eq. intros k. apply option_eq. intros v.
  by rewrite <-!elem_of_btree_iter, H.
Qed.

(** Two strictly ascending lists with the same members are equal. *)
Lemma sorted_ext (l1 l2 : list N) :
  StronglySorted N.lt l1 → StronglySorted N.lt l2 → (∀ x, x ∈ l1 ↔ x ∈ l2) → l1 = l2.
Proof.
  intros H1. revert l2. induction H1 as [|x l1 H1 IH Hx]; intros l2 H2 Hext.
  - destruct l2 as [|y l2]; [done|]. exfalso. specialize (Hext y). set_solver.
  - rewrite Forall_forall in Hx.
    destruct H2 as [|y l2 H2 Hy]; [specialize (Hext x); set_solver|].
    rewrite Forall_forall in Hy.
    assert (x = y) as ->.
    { pose proof (proj1 (Hext x)) as Ha. pose proof (proj2 (Hext y)) as Hb.
      rewrite !elem_of_cons in Ha, Hb.
      destruct Ha as [->|Ha]; auto. destruct Hb as [->|Hb]; auto.
      specialize (Hx _ Hb). specialize (Hy _ Ha). lia. }
    f_equal. apply IH; [done|]. intros z. specialize (Hext z).
    rewrite !elem_of_cons in Hext.
    split; intros Hz; [specialize (Hx _ Hz)|specialize (Hy _ Hz)]; naive_solver lia.
Qed.

Lemma bset_iter_empty : bset_iter ∅ = [].
Proof. done. Qed.

Create HintDb btree.
#[export] Hint Resolve NoDup_bset_iter bset_iter_sorted NoDup_btree_keys
  btree_keys_sorted NoDup_btree_iter : btree.
