(* ===== verification/Floats.v ===== *)
(** * IEEE-754 values as Rust uses them

    An [f32] is its 32-bit pattern, so [to_bits] is the identity and the
    derived structural comparisons are comparisons of bits; [f32_spec] is the
    number it denotes.  An [f64] is a binary64 number of the Standard Library's
    executable specification [SpecFloat] (precision 53, maximal exponent 1024),
    whose operations round to nearest, ties to even, exactly as the hardware
    operations behind Rust's [f64] arithmetic. *)

From Stdlib Require Export ZArith Floats.SpecFloat.
From S2P Require Import Prelude Machine.

Open Scope N_scope.

Abbreviation f32 := N (only parsing).
Abbreviation f64 := spec_float (only parsing).

Definition f32_exponent (b : f32) : N := (N.shiftr b 23) mod 256.
Definition f32_mantissa (b : f32) : N := b mod 8388608.
Definition f32_sign (b : f32) : bool := N.testbit b 31.

(** The number of a sign, exponent field and mantissa field. *)
Definition f32_fields_spec (s : bool) (e m : N) : spec_float :=
  if e =? 255 then if m =? 0 then S754_infinity s else S754_nan
  else if e =? 0 then
    match m with N0 => S754_zero s | Npos p => S754_finite s p (-149) end
  else
    match m + 8388608 with
    | N0 => S754_nan
    | Npos p => S754_finite s p (Z.of_N e - 150)
    end.

(** The number a bit pattern denotes. *)
Definition f32_spec (b : f32) : spec_float :=
  f32_fields_spec (f32_sign b) (f32_exponent b) (f32_mantissa b).

(** [f32::is_finite]: the exponent field is not all ones. *)
Definition f32_is_finite (b : f32) : bool := negb (f32_exponent b =? 255).

(** [PartialOrd] and [PartialEq] on [f32]: unordered when a side is NaN. *)
Definition f32_compare (a b : f32) : option comparison := SFcompare (f32_spec a) (f32_spec b).
Definition f32_eqb (a b : f32) : bool :=
  match f32_compare a b with Some Eq => true | _ => false end.
Definition f32_ltb (a b : f32) : bool :=
  match f32_compare a b with Some Lt => true | _ => false end.
Definition f32_leb (a b : f32) : bool :=
  match f32_compare a b with Some Lt | Some Eq => true | _ => false end.

(** [0.0_f32], [1.0_f32] and [core::f32::consts::PI]. *)
Definition f32_zero : f32 := 0.
Definition f32_neg_zero : f32 := 2147483648.
Definition f32_one : f32 := 1065353216.
Definition f32_pi : f32 := 1078530011.

(** ** Binary64 *)

Definition f64_prec : Z := 53.
Definition f64_emax : Z := 1024.

(** [f64::from(f32)], exact. *)
Definition f64_of_f32 (b : f32) : f64 :=
  match f32_spec b with
  | S754_finite s m e => binary_normalize f64_prec f64_emax (cond_Zopp s (Zpos m)) e s
  | v => v
  end.

Definition f64_add : f64 → f64 → f64 := SFadd f64_prec f64_emax.
Definition f64_sub : f64 → f64 → f64 := SFsub f64_prec f64_emax.
Definition f64_mul : f64 → f64 → f64 := SFmul f64_prec f64_emax.
Definition f64_div : f64 → f64 → f64 := SFdiv f64_prec f64_emax.
Definition f64_sqrt : f64 → f64 := SFsqrt f64_prec f64_emax.

Definition f64_zero : f64 := S754_zero false.
Definition f64_one : f64 := S754_finite false 4503599627370496 (-52).
Definition f64_two : f64 := S754_finite false 4503599627370496 (-51).

(** [f64::recip]. *)
Definition f64_recip (x : f64) : f64 := f64_div f64_one x.

(** [f64::is_finite]. *)
Definition f64_is_finite (x : f64) : bool :=
  match x with S754_zero _ | S754_finite _ _ _ => true | _ => false end.

(** [x > 0.0] on [f64]. *)
Definition f64_gt_zero (x : f64) : bool :=
  match SFcompare f64_zero x with Some Lt => true | _ => false end.

(** ** Binary32 arithmetic

    The pattern of a binary32 number, its fields packed at their widths, and
    the operations on patterns. *)
Definition f32_of_spec (v : spec_float) : f32 :=
  let sign (s : bool) : N := if s then 2147483648 else 0 in
  match v with
  | S754_zero s => sign s
  | S754_infinity s => sign s + 2139095040
  | S754_nan => 2143289344
  | S754_finite s m e =>
      if Npos m <? 8388608 then sign s + Npos m
      else sign s + (Z.to_N (e + 150) mod 256) * 8388608 + Npos m mod 8388608
  end.

Definition f32_add (a b : f32) : f32 := f32_of_spec (SFadd 24 128 (f32_spec a) (f32_spec b)).
Definition f32_mul (a b : f32) : f32 := f32_of_spec (SFmul 24 128 (f32_spec a) (f32_spec b)).

Definition f32_sub (a b : f32) : f32 := f32_of_spec (SFsub 24 128 (f32_spec a) (f32_spec b)).

Definition f32_div (a b : f32) : f32 := f32_of_spec (SFdiv 24 128 (f32_spec a) (f32_spec b)).
Definition f32_sqrt (a : f32) : f32 := f32_of_spec (SFsqrt 24 128 (f32_spec a)).
Definition f32_recip (a : f32) : f32 := f32_div f32_one a.

(** [f32::from(u8)], exact. *)
Definition f32_of_u8 (n : N) : f32 := f32_of_spec (binary_normalize 24 128 (Z.of_N n) 0 false).

(** [f32::abs]: the sign bit cleared. *)
Definition f32_abs (a : f32) : f32 := a mod 2147483648.

(** [f32::mul_add]: the exact product and sum, rounded once. *)
Definition SF_exact (v : spec_float) : Z * Z :=
  match v with S754_finite s m e => (cond_Zopp s (Zpos m), e) | _ => (0%Z, 0%Z) end.

Definition SF_sign (v : spec_float) : bool :=
  match v with S754_zero s | S754_infinity s | S754_finite s _ _ => s | S754_nan => false end.

Definition SF_fma (prec emax : Z) (x y z : spec_float) : spec_float :=
  let ps := xorb (SF_sign x) (SF_sign y) in
  match x, y, z with
  | S754_nan, _, _ | _, S754_nan, _ | _, _, S754_nan => S754_nan
  | S754_infinity _, S754_zero _, _ | S754_zero _, S754_infinity _, _ => S754_nan
  | S754_infinity _, _, S754_infinity s | _, S754_infinity _, S754_infinity s =>
      if Bool.eqb ps s then S754_infinity s else S754_nan
  | S754_infinity _, _, _ | _, S754_infinity _, _ => S754_infinity ps
  | _, _, S754_infinity s => S754_infinity s
  | _, _, _ =>
      let '(mx, ex) := SF_exact x in
      let '(my, ey) := SF_exact y in
      let '(mz, ez) := SF_exact z in
      let e := Z.min (ex + ey) ez in
      binary_normalize prec emax
        (mx * my * 2 ^ (ex + ey - e) + mz * 2 ^ (ez - e)) e (ps && SF_sign z)
  end.

Definition f32_mul_add (a b c : f32) : f32 :=
  f32_of_spec (SF_fma 24 128 (f32_spec a) (f32_spec b) (f32_spec c)).

(** [0.5_f32]. *)
Definition f32_half : f32 := 1056964608.

Example f32_arithmetic :
  f32_add f32_one f32_half = 1069547520 ∧ f32_mul f32_half f32_half = 1048576000 ∧
  f32_add 2139095039 2139095039 = 2139095040 ∧ f32_mul f32_half 1 = 0 ∧ f32_mul f32_half 3 = 2.
Proof. vm_compute. split_and!; reflexivity. Qed.

(** A fused product keeps the bits a rounded product loses: [0.1 * 10 - 1]. *)
Example f32_fused :
  f32_mul_add 1036831949 1092616192 3212836864 = 847249408 ∧
  f32_add (f32_mul 1036831949 1092616192) 3212836864 = 0 ∧
  f32_abs (f32_sub f32_half f32_one) = f32_half.
Proof. vm_compute. split_and!; reflexivity. Qed.

(** A 32-bit pattern. *)
Definition f32_bits (b : f32) : Prop := b < 4294967296.

Lemma f32_of_spec_bits v : f32_bits (f32_of_spec v).
Proof.
  unfold f32_bits, f32_of_spec. destruct v as [[]|[]| |s m e]; [lia..|].
  destruct (N.ltb_spec (Npos m) 8388608); [destruct s; lia|].
  pose proof (N.mod_lt (Z.to_N (e + 150)) 256 ltac:(lia)).
  pose proof (N.mod_lt (Npos m) 8388608 ltac:(lia)). destruct s; lia.
Qed.

(** ** Fields determine the pattern *)

Lemma f32_fields b :
  f32_bits b →
  b = (if f32_sign b then 2147483648 else 0) + f32_exponent b * 8388608 + f32_mantissa b.
Proof.
  unfold f32_bits, f32_sign, f32_exponent, f32_mantissa. intros Hb.
  rewrite N.testbit_odd, !N.shiftr_div_pow2.
  change (2 ^ 31) with 2147483648. change (2 ^ 23) with 8388608.
  pose proof (N.div_mod b 8388608 ltac:(lia)) as E1.
  pose proof (N.div_mod (b / 8388608) 256 ltac:(lia)) as E2.
  rewrite N.Div0.div_div in E2. change (8388608 * 256) with 2147483648 in E2.
  assert (b / 2147483648 < 2) as Hq by (apply N.Div0.div_lt_upper_bound; lia).
  revert E1 E2 Hq.
  generalize (b / 2147483648) (b / 8388608) (b mod 8388608) (b / 8388608 mod 256).
  intros q d m x E1 E2 Hq.
  assert (q = 0 ∨ q = 1) as [-> | ->] by lia;
    [change (N.odd 0) with false|change (N.odd 1) with true]; cbv iota; lia.
Qed.

(** Validated [f32] newtypes hold finite patterns other than negative zero. *)
Definition f32_normal_form (b : f32) : Prop :=
  f32_bits b ∧ f32_is_finite b = true ∧ b ≠ f32_neg_zero.

Lemma f32_mantissa_lt b : f32_mantissa b < 8388608.
Proof. apply N.mod_lt. lia. Qed.

(** The comparison of numbers is [Eq] exactly on equal numbers and on zeros. *)
Lemma SFcompare_Eq x y :
  SFcompare x y = Some Eq ↔
  (x = y ∧ x ≠ S754_nan) ∨ (∃ s s', x = S754_zero s ∧ y = S754_zero s').
Proof.
  split.
  - destruct x as [[]|[]| |[] m e], y as [[]|[]| |[] m' e']; cbn [SFcompare];
      intros H; try discriminate H; try (right; eauto; fail); try (left; done).
    all: left; destruct (Z.compare_spec e e') as [->| |]; try discriminate H;
      change (Pos.compare_cont Eq m m') with (Pos.compare m m') in H;
      destruct (Pos.compare_spec m m') as [->| |]; try discriminate H; done.
  - intros [[-> Hn]|(s & s' & -> & ->)]; [|done].
    destruct y as [s|s| |s m e]; [done|by destruct s|done|].
    cbn [SFcompare]. destruct s; rewrite Z.compare_refl; unfold Pcompare; rewrite ?Pos.compare_refl; done.
Qed.

(** The fields can be read back from the number of a finite pattern. *)
Lemma f32_fields_spec_inj sa ea ma sb eb mb :
  ma < 8388608 → mb < 8388608 → ea ≠ 255 → eb ≠ 255 →
  f32_fields_spec sa ea ma = f32_fields_spec sb eb mb → sa = sb ∧ ea = eb ∧ ma = mb.
Proof.
  intros La Lb Fa Fb. unfold f32_fields_spec.
  rewrite (proj2 (N.eqb_neq _ _) Fa), (proj2 (N.eqb_neq _ _) Fb).
  destruct (N.eqb_spec ea 0) as [Xa|Xa], (N.eqb_spec eb 0) as [Xb|Xb].
  - destruct ma, mb; intros H; try discriminate H; injection H; intros; subst; auto.
  - destruct (mb + 8388608) as [|xb] eqn:Pb; [lia|].
    destruct ma; intros H; try discriminate H. injection H. intros. lia.
  - destruct (ma + 8388608) as [|xa] eqn:Pa; [lia|].
    destruct mb; intros H; try discriminate H. injection H. intros. lia.
  - destruct (ma + 8388608) as [|xa] eqn:Pa; [lia|].
    destruct (mb + 8388608) as [|xb] eqn:Pb; [lia|].
    intros H. injection H. intros. split_and!; [done|lia..].
Qed.

Lemma f32_fields_spec_zero s s' e m :
  e ≠ 255 → f32_fields_spec s e m = S754_zero s' → e = 0 ∧ m = 0.
Proof.
  intros F. unfold f32_fields_spec. rewrite (proj2 (N.eqb_neq _ _) F).
  destruct (N.eqb_spec e 0); [by destruct m|by destruct (m + 8388608)].
Qed.

Lemma f32_fields_spec_nan s e m : e ≠ 255 → f32_fields_spec s e m ≠ S754_nan.
Proof.
  intros F. unfold f32_fields_spec. rewrite (proj2 (N.eqb_neq _ _) F).
  destruct (N.eqb_spec e 0); [by destruct m|]. destruct (m + 8388608) eqn:E; [lia|done].
Qed.

Lemma f32_finite_exponent b : f32_is_finite b = true → f32_exponent b ≠ 255.
Proof. unfold f32_is_finite. by rewrite negb_true_iff, N.eqb_neq. Qed.

(** The number of a normalised finite pattern determines the pattern. *)
Lemma f32_spec_inj a b :
  f32_normal_form a → f32_normal_form b → f32_spec a = f32_spec b → a = b.
Proof.
  intros (Ha & Fa & _) (Hb & Fb & _) H.
  apply f32_fields_spec_inj in H as (Es & Ee & Em);
    auto using f32_mantissa_lt, f32_finite_exponent.
  by rewrite (f32_fields a Ha), (f32_fields b Hb), Es, Ee, Em.
Qed.

Lemma f32_spec_zero a s : f32_normal_form a → f32_spec a = S754_zero s → a = f32_zero.
Proof.
  intros (Ha & Fa & Na) H.
  apply f32_fields_spec_zero in H as [E M]; [|by apply f32_finite_exponent].
  pose proof (f32_fields a Ha) as Ea. rewrite E, M in Ea.
  unfold f32_neg_zero, f32_zero in *. destruct (f32_sign a); lia.
Qed.

(** On normalised finite values, Rust's [==] is equality of bit patterns: the
    canonical hash, which writes [to_bits], separates exactly the values that
    compare unequal. *)
Lemma f32_eqb_bits a b :
  f32_normal_form a → f32_normal_form b → (f32_eqb a b = true ↔ a = b).
Proof.
  intros Ha Hb. unfold f32_eqb, f32_compare.
  transitivity (SFcompare (f32_spec a) (f32_spec b) = Some Eq).
  { generalize (SFcompare (f32_spec a) (f32_spec b)). intros [[]|]; split; done. }
  rewrite SFcompare_Eq. split.
  - intros [[H _]|(s & s' & H1 & H2)]; [by apply f32_spec_inj|].
    by rewrite (f32_spec_zero a s), (f32_spec_zero b s').
  - intros ->. left. split; [done|]. destruct Hb as (_ & Fb & _).
    by apply f32_fields_spec_nan, f32_finite_exponent.
Qed.
