(* ===== verification/Values.v ===== *)
(** * Scalar protocol values

    [cogniform-protocol/src/id.rs], [error.rs] and the content hash of
    [asset.rs]: opaque identifiers with their 32-digit lowercase hexadecimal
    form, revisions, frames, schema versions, scene text and the four validated
    [f32] newtypes.  A newtype is represented by the value it wraps; the [new]
    constructor of each is the definition that admits a value. *)

From S2P Require Import Prelude Machine Floats.

Open Scope N_scope.

Inductive ValueErrorKind : Type :=
| ZeroIdentifier
| InvalidIdentifierEncoding
| EmptyText
| TextContainsNul
| NonFiniteNumber
| OutsideUnitInterval
| NegativeNumber
| NonPositiveNumber
| ZeroNumericIdentifier
| RevisionOverflow
| ZeroSchemaVersion.

#[export] Instance ValueErrorKind_eq_dec : EqDecision ValueErrorKind.
Proof. solve_decision. Defined.

(** ** Lowercase hexadecimal text *)

(** [b.is_ascii_digit() || (b'a'..=b'f').contains(&b)]. *)
Definition is_lower_hex (b : byte) : bool :=
  let v := Byte.to_N b in
  ((48 <=? v) && (v <=? 57)) || ((97 <=? v) && (v <=? 102)).

(** [char::to_digit(16)]. *)
Definition to_digit16 (b : byte) : option N :=
  let v := Byte.to_N b in
  if (48 <=? v) && (v <=? 57) then Some (v - 48)
  else if (97 <=? v) && (v <=? 102) then Some (v - 87)
  else if (65 <=? v) && (v <=? 70) then Some (v - 55)
  else None.

(** The digits of [uN::from_str_radix(_, 16)], with its overflow checks. *)
Fixpoint radix16_digits (max acc : N) (s : bytes) : option N :=
  match s with
  | [] => Some acc
  | b :: s =>
      d ← to_digit16 b;
      if acc * 16 <=? max then
        acc' ← checked_add max (acc * 16) d;
        radix16_digits max acc' s
      else None
  end.

(** [uN::from_str_radix(_, 16)]: empty input and a lone sign are rejected and
    one leading plus is skipped. *)
Definition from_str_radix16 (max : N) (s : bytes) : option N :=
  match s with
  | [] => None
  | [x2b] | [x2d] => None
  | x2b :: s => radix16_digits max 0 s
  | s => radix16_digits max 0 s
  end.

Definition hex_digit (d : N) : byte := byte_of_N (if d <? 10 then 48 + d else 87 + d).

(** [format!("{:0nx}", v)] for a value of at most [n] hexadecimal digits. *)
Fixpoint hex_pad (n : nat) (v : N) : bytes :=
  match n with
  | O => []
  | S n => hex_pad n (v / 16) ++ [hex_digit (v mod 16)]
  end.

(** ** Opaque identifiers

    The [opaque_id!] macro: [StableEntityId], [TransactionId],
    [IdempotencyKey], [ObservationId], [ImaginationId] and [ProcedureId] are
    non-zero [u128] values. *)

Abbreviation StableEntityId := N (only parsing).
Abbreviation TransactionId := N (only parsing).
Abbreviation IdempotencyKey := N (only parsing).
Abbreviation ObservationId := N (only parsing).
Abbreviation ImaginationId := N (only parsing).
Abbreviation ProcedureId := N (only parsing).

Definition opaque_id_new (value : N) : outcome ValueErrorKind N :=
  if value =? 0 then Err ZeroIdentifier else Ok value.

Definition opaque_id_fmt (id : N) : bytes := hex_pad 32 id.

Definition opaque_id_from_str (value : bytes) : outcome ValueErrorKind N :=
  if negb (Nat.eqb (length value) 32) || negb (forallb is_lower_hex value)
  then Err InvalidIdentifierEncoding
  else
    let! parsed := ok_or (from_str_radix16 u128_max value) InvalidIdentifierEncoding in
    opaque_id_new parsed.

(** ** Revisions, frames and schema versions *)

Abbreviation SceneRevision := N (only parsing).
Abbreviation FrameId := N (only parsing).
Abbreviation SchemaVersion := N (only parsing).

Definition revision_initial : SceneRevision := 0.

Definition checked_next (r : SceneRevision) : outcome ValueErrorKind SceneRevision :=
  match checked_add u64_max r 1 with
  | Some v => Ok v
  | None => Err RevisionOverflow
  end.

Definition frame_id_new (value : N) : outcome ValueErrorKind FrameId :=
  match non_zero value with
  | Some v => Ok v
  | None => Err ZeroNumericIdentifier
  end.

Definition schema_v1 : SchemaVersion := 1.

Definition schema_version_new (value : N) : outcome ValueErrorKind SchemaVersion :=
  if value =? 0 then Err ZeroSchemaVersion else Ok value.

(** ** Scene text: UTF-8 bytes, non-empty, without NUL *)

Abbreviation SceneText := bytes (only parsing).

Definition scene_text_try_from (value : bytes) : outcome ValueErrorKind SceneText :=
  if Nat.eqb (length value) 0 then Err EmptyText
  else if existsb (λ b, bool_decide (b = x00)) value then Err TextContainsNul
  else Ok value.

(** ** Validated floating-point newtypes: the [float_value!] macro *)

Definition float_value_new (validate : f32 → bool) (error : ValueErrorKind) (value : f32)
    : outcome ValueErrorKind f32 :=
  if negb (f32_is_finite value) then Err NonFiniteNumber
  else if negb (validate value) then Err error
  else Ok (if f32_eqb value f32_zero then f32_zero else value).

Definition finite_f32_new : f32 → outcome ValueErrorKind f32 :=
  float_value_new (λ _, true) NonFiniteNumber.
Definition positive_f32_new : f32 → outcome ValueErrorKind f32 :=
  float_value_new (λ v, f32_ltb f32_zero v) NonPositiveNumber.
Definition non_negative_f32_new : f32 → outcome ValueErrorKind f32 :=
  float_value_new (λ v, f32_leb f32_zero v) NegativeNumber.
Definition unit_f32_new : f32 → outcome ValueErrorKind f32 :=
  float_value_new (λ v, f32_leb f32_zero v && f32_leb v f32_one) OutsideUnitInterval.

(** ** Content hashes: 32 digest bytes and their 64-digit text *)

Abbreviation ContentHash := bytes (only parsing).

Definition content_hash_fmt (hash : ContentHash) : bytes :=
  mjoin ((λ b, hex_pad 2 (Byte.to_N b)) <$> hash).

(** [chunks_exact(2)] zipped with the 32 target bytes. *)
Fixpoint content_hash_pairs (n : nat) (s : bytes) : option bytes :=
  match n, s with
  | O, _ => Some []
  | S n, a :: b :: s =>
      v ← from_str_radix16 u8_max [a; b];
      rest ← content_hash_pairs n s;
      Some (byte_of_N v :: rest)
  | S n, _ => Some (repeat x00 (S n))
  end.

Definition content_hash_from_str (value : bytes) : outcome ValueErrorKind ContentHash :=
  if negb (Nat.eqb (length value) 64) || negb (forallb is_lower_hex value)
  then Err InvalidIdentifierEncoding
  else ok_or (content_hash_pairs 32 value) InvalidIdentifierEncoding.

(** ** Hexadecimal lemmas *)

Lemma length_hex_pad n v : length (hex_pad n v) = n.
Proof. revert v. induction n; intros; simpl; [done|]. rewrite length_app, IHn. simpl. lia. Qed.

Lemma hex_pad_nonempty n v : hex_pad (S n) v ≠ [].
Proof. intros H. apply (f_equal length) in H. by rewrite length_hex_pad in H. Qed.

(** One step of reasoning per possible byte or nibble. *)
Lemma hex_digit_spec d : d < 16 →
  is_lower_hex (hex_digit d) = true ∧ to_digit16 (hex_digit d) = Some d.
Proof.
  intros Hd. unfold hex_digit, is_lower_hex, to_digit16. cbv zeta.
  rewrite to_N_byte_of_N by (leb_cases; lia).
  leb_cases; simpl; split; try done; try lia; f_equal; lia.
Qed.

Lemma lower_hex_digit b d :
  is_lower_hex b = true → to_digit16 b = Some d → d < 16 ∧ hex_digit d = b.
Proof.
  unfold is_lower_hex, to_digit16, hex_digit. cbv zeta. pose proof (to_N_lt b) as Hb.
  revert Hb. generalize (eq_refl (Byte.to_N b)). generalize (Byte.to_N b) at 1 3 4 5 6 7 8 9 10 11 12 13 14.
  intros v Ev Hb. leb_cases; simpl; intros X Y; try discriminate X; try discriminate Y;
    injection Y as <-; (split; [lia|]); apply to_N_inj; rewrite <-Ev;
    rewrite to_N_byte_of_N; leb_cases; lia.
Qed.

Lemma lower_hex_to_digit b : is_lower_hex b = true → is_Some (to_digit16 b).
Proof.
  unfold is_lower_hex, to_digit16. cbv zeta. leb_cases; simpl; intros; try done; eauto.
Qed.

Lemma lower_hex_not_sign b s max : is_lower_hex b = true →
  from_str_radix16 max (b :: s) = radix16_digits max 0 (b :: s).
Proof. intros H. destruct s; by destruct b. Qed.

Lemma from_str_radix16_lower max s :
  s ≠ [] → forallb is_lower_hex s = true → from_str_radix16 max s = radix16_digits max 0 s.
Proof.
  destruct s as [|b s]; [done|]. intros _ [Hb _]%andb_true_iff.
  by apply lower_hex_not_sign.
Qed.

Lemma hex_pad_lower n v : forallb is_lower_hex (hex_pad n v) = true.
Proof.
  revert v. induction n as [|n IH]; intros v; simpl; [done|].
  rewrite forallb_app, IH. simpl. rewrite (proj1 (hex_digit_spec _ (N.mod_lt v 16 ltac:(lia)))). done.
Qed.

Lemma radix16_digits_app max acc s1 s2 :
  radix16_digits max acc (s1 ++ s2)
  = radix16_digits max acc s1 ≫= (λ acc, radix16_digits max acc s2).
Proof.
  revert acc. induction s1 as [|b s1 IH]; intros acc; simpl; [done|].
  destruct (to_digit16 b); simpl; [|done]. case_match; [|done].
  destruct (checked_add _ _ _); simpl; auto.
Qed.

(** Parsing the padded text of [v] after an accumulator. *)
Lemma radix16_hex_pad max n acc v :
  v < 16 ^ N.of_nat n → acc * 16 ^ N.of_nat n + v ≤ max →
  radix16_digits max acc (hex_pad n v) = Some (acc * 16 ^ N.of_nat n + v).
Proof.
  revert v. induction n as [|n IH]; intros v Hv Hmax; simpl.
  - rewrite N.pow_0_r in *. f_equal. lia.
  - rewrite Nat2N.inj_succ, N.pow_succ_r' in *.
    pose proof (N.div_mod v 16 ltac:(lia)) as E. pose proof (N.mod_lt v 16 ltac:(lia)) as L.
    assert (acc * 16 ^ N.of_nat n + v / 16 ≤ max ∧
      (acc * 16 ^ N.of_nat n + v / 16) * 16 + v mod 16 = acc * (16 * 16 ^ N.of_nat n) + v)
      as [Hm Hsum].
    { clear IH Hv. revert Hmax E L. generalize (v / 16) (v mod 16) (16 ^ N.of_nat n).
      intros q r P Hmax -> L. split; [|ring].
      rewrite (N.mul_assoc acc 16 P), (N.mul_comm acc 16), <-(N.mul_assoc 16 acc P) in Hmax.
      lia. }
    rewrite radix16_digits_app, IH; [|apply N.Div0.div_lt_upper_bound; lia|done].
    simpl. rewrite (proj2 (hex_digit_spec _ L)). simpl.
    rewrite <-Hsum in *. revert Hmax. generalize ((acc * 16 ^ N.of_nat n + v / 16) * 16).
    intros x Hx. rewrite (proj2 (N.leb_le x max)) by (etrans; [apply N.le_add_r|exact Hx]).
    by rewrite (proj2 (checked_add_Some max x (v mod 16) (x + v mod 16))).
Qed.

(** Reformatting the parsed value restores the text. *)
Lemma radix16_digits_hex max acc s v :
  forallb is_lower_hex s = true → radix16_digits max acc s = Some v →
  v / 16 ^ N.of_nat (length s) = acc ∧ hex_pad (length s) v = s.
Proof.
  revert v. induction s as [|b s IH] using rev_ind; intros v Hs Hv.
  - simpl in *. simplify_eq. rewrite N.pow_0_r, N.div_1_r. done.
  - rewrite forallb_app in Hs. apply andb_true_iff in Hs as [Hs Hb].
    simpl in Hb. rewrite andb_true_r in Hb.
    rewrite radix16_digits_app in Hv. apply bind_Some in Hv as (w & Hw & Hv).
    specialize (IH _ Hs Hw) as [Hacc Hpad].
    simpl in Hv. apply bind_Some in Hv as (d & Hd & Hv). case_match; [|done].
    apply bind_Some in Hv as (v' & Hv' & ?). simplify_eq.
    apply checked_add_Some in Hv' as [-> _].
    apply lower_hex_digit in Hd as [Ld Ed]; [|done].
    rewrite length_app, Nat.add_1_r, Nat2N.inj_succ, N.pow_succ_r'. simpl.
    assert ((w * 16 + d) / 16 = w) as Ediv.
    { rewrite N.add_comm, N.div_add, N.div_small by lia. lia. }
    rewrite <-N.Div0.div_div, Ediv. split; [done|].
    rewrite Hpad, <-Ed. f_equal. f_equal. f_equal.
    by rewrite N.add_comm, N.Div0.mod_add, N.mod_small by lia.
Qed.

Lemma radix16_digits_le max acc s v : acc ≤ max → radix16_digits max acc s = Some v → v ≤ max.
Proof.
  revert acc. induction s as [|b s IH]; intros acc Ha; simpl; [naive_solver|].
  intros (d & _ & H)%bind_Some. case_match; [|done].
  apply bind_Some in H as (a & E & H). apply checked_add_Some in E as [-> ?]. eauto.
Qed.

(** ** Properties *)

(** An opaque identifier parses from exactly one text. *)
Lemma opaque_id_text (s : bytes) (id : N) :
  opaque_id_from_str s = Ok id ↔ (0 < id ∧ id ≤ u128_max) ∧ s = opaque_id_fmt id.
Proof.
  unfold opaque_id_from_str, opaque_id_fmt. split.
  - destruct (Nat.eqb_spec (length s) 32) as [L|]; simpl; [|done].
    destruct (forallb is_lower_hex s) eqn:F; simpl; [|done].
    rewrite from_str_radix16_lower by (destruct s; done).
    intros H. inv_ok. unfold opaque_id_new in H. case_match eqn:Z; [done|]. inv_ok. subst.
    apply N.eqb_neq in Z. pose proof (radix16_digits_le u128_max 0 s id ltac:(done) H0).
    destruct (radix16_digits_hex _ _ _ _ F H0) as [_ E]. rewrite L in E. split; [lia|done].
  - intros [Hid ->]. rewrite length_hex_pad, hex_pad_lower.
    change (negb (32 =? 32)%nat || negb true) with false. cbv iota.
    rewrite from_str_radix16_lower, radix16_hex_pad;
      rewrite ?N.mul_0_l, ?N.add_0_l; auto using hex_pad_lower, hex_pad_nonempty.
    + unfold opaque_id_new, ok_or, out_bind. rewrite (proj2 (N.eqb_neq _ _)); [done|lia].
    + unfold u128_max in Hid.
      change (16 ^ N.of_nat 32) with 340282366920938463463374607431768211456. lia.
    + lia.
Qed.

Lemma content_hash_pairs_step n b s :
  content_hash_pairs (S n) (hex_pad 2 (Byte.to_N b) ++ s)
  = rest ← content_hash_pairs n s; Some (b :: rest).
Proof. by destruct b. Qed.

Lemma content_hash_fmt_cons b h :
  content_hash_fmt (b :: h) = hex_pad 2 (Byte.to_N b) ++ content_hash_fmt h.
Proof. done. Qed.

Lemma hex_pair_lower a b v :
  is_lower_hex a = true → is_lower_hex b = true → from_str_radix16 u8_max [a; b] = Some v →
  hex_pad 2 (Byte.to_N (byte_of_N v)) = [a; b].
Proof.
  intros Ha Hb H. assert (forallb is_lower_hex [a; b] = true) as F by (simpl; by rewrite Ha, Hb).
  rewrite from_str_radix16_lower in H by done.
  pose proof (radix16_digits_le u8_max 0 [a; b] v ltac:(done) H) as L. unfold u8_max in L.
  apply radix16_digits_hex in H as [_ E]; [|done].
  rewrite to_N_byte_of_N by lia. exact E.
Qed.

Lemma content_hash_pairs_fmt h : content_hash_pairs (length h) (content_hash_fmt h) = Some h.
Proof.
  induction h as [|b h IH]; [done|]. rewrite content_hash_fmt_cons. cbn [length].
  by rewrite content_hash_pairs_step, IH.
Qed.

Lemma content_hash_pairs_inv n s h :
  length s = (2 * n)%nat → forallb is_lower_hex s = true → content_hash_pairs n s = Some h →
  length h = n ∧ content_hash_fmt h = s.
Proof.
  revert s h. induction n as [|n IH]; intros s h L F H.
  - simpl in H. simplify_eq. by destruct s.
  - destruct s as [|a [|b s]]; [simpl in L; lia..|].
    cbn [content_hash_pairs] in H. apply bind_Some in H as (v & Hv & H).
    apply bind_Some in H as (r & Hr & H). simplify_eq.
    simpl in F. rewrite !andb_true_iff in F. destruct F as (Fa & Fb & F).
    destruct (IH s r) as [L' E]; [simpl in L; lia|done..|].
    split; [simpl; lia|]. pose proof (hex_pair_lower _ _ _ Fa Fb Hv) as P.
    by rewrite content_hash_fmt_cons, P, E.
Qed.

Lemma length_content_hash_fmt h : length (content_hash_fmt h) = (2 * length h)%nat.
Proof.
  induction h as [|b h IH]; [done|].
  rewrite content_hash_fmt_cons, length_app, length_hex_pad, IH. simpl. lia.
Qed.

Lemma content_hash_fmt_lower h : forallb is_lower_hex (content_hash_fmt h) = true.
Proof.
  induction h as [|b h IH]; [done|].
  by rewrite content_hash_fmt_cons, forallb_app, IH, hex_pad_lower.
Qed.

(** A content hash parses from exactly one text. *)
Lemma content_hash_text (s h : bytes) :
  content_hash_from_str s = Ok h ↔ length h = 32%nat ∧ s = content_hash_fmt h.
Proof.
  unfold content_hash_from_str. split.
  - destruct (Nat.eqb_spec (length s) 64) as [L|]; simpl; [|done].
    destruct (forallb is_lower_hex s) eqn:F; simpl; [|done].
    intros H. inv_ok. by destruct (content_hash_pairs_inv 32 s h L F H).
  - intros [L ->]. rewrite length_content_hash_fmt, content_hash_fmt_lower, L.
    change (negb (2 * 32 =? 64)%nat || negb true) with false. cbv iota.
    pose proof (content_hash_pairs_fmt h) as E. rewrite L in E. by rewrite E.
Qed.

(** Identities and hashes have exactly one text: [s] parses to [id] if and
    only if [id] is a non-zero 128-bit value and [s] its 32-digit lowercase
    hexadecimal form, and [s] parses to the digest [h] if and only if [h] has 32
    bytes and [s] is their 64-digit lowercase form.  So printing and parsing are
    inverse, and every other spelling (upper case, a sign, another width, the
    zero identifier) is refused. *)
Theorem identity_text_canonical (s h : bytes) (id : N) :
  (opaque_id_from_str s = Ok id ↔ (0 < id ∧ id ≤ u128_max) ∧ s = opaque_id_fmt id) ∧
  (content_hash_from_str s = Ok h ↔ length h = 32%nat ∧ s = content_hash_fmt h).
Proof. split; [apply opaque_id_text|apply content_hash_text]. Qed.

Lemma f32_neg_zero_eqb : f32_eqb f32_neg_zero f32_zero = true.
Proof. reflexivity. Qed.

Lemma f32_eqb_refl v : f32_is_finite v = true → f32_eqb v v = true.
Proof.
  intros Hv. unfold f32_eqb, f32_compare.
  rewrite (proj2 (SFcompare_Eq _ _)); [done|]. left. split; [done|].
  by apply f32_fields_spec_nan, f32_finite_exponent.
Qed.

Lemma float_value_new_ok (validate : f32 → bool) (error : ValueErrorKind) (v w : f32) :
  f32_bits v → float_value_new validate error v = Ok w →
  f32_normal_form w ∧ f32_eqb w v = true ∧ validate v = true.
Proof.
  intros Hb. unfold float_value_new.
  destruct (f32_is_finite v) eqn:F; cbn [negb]; [|discriminate].
  destruct (validate v); cbn [negb]; [|discriminate]. intros H. inv_ok. subst w.
  destruct (f32_eqb v f32_zero) eqn:Z.
  - split_and!; [by vm_compute| |done].
    unfold f32_eqb, f32_compare in *.
    destruct (SFcompare (f32_spec v) (f32_spec f32_zero)) as [[]|] eqn:C; try discriminate.
    apply SFcompare_Eq in C as [[-> _]|(s & s' & -> & _)]; reflexivity.
  - split_and!; [|by apply f32_eqb_refl|done].
    split_and!; [done..|]. intros ->. by rewrite f32_neg_zero_eqb in Z.
Qed.

(** Every validated [f32] newtype ([FiniteF32], [PositiveF32],
    [NonNegativeF32], [UnitF32], all built by [float_value_new]) holds a finite
    value with negative zero normalised away that still compares equal to the
    accepted input, so equality of stored values, equality of their bit
    patterns and Rust's [==] agree. *)
Theorem float_value_normal_form (validate : f32 → bool) (error : ValueErrorKind) (v w : f32) :
  f32_bits v → float_value_new validate error v = Ok w →
  f32_normal_form w ∧ f32_eqb w v = true ∧ validate v = true.
Proof. apply float_value_new_ok. Qed.

Lemma float_value_normal_form_witness :
  f32_normal_form f32_zero ∧ f32_eqb f32_zero f32_neg_zero = true ∧ true = true.
Proof.
  apply (float_value_normal_form (λ _, true) NonFiniteNumber f32_neg_zero f32_zero).
  - vm_compute. reflexivity.
  - vm_compute. reflexivity.
Defined.
