(* ===== verification/Components.v ===== *)
(** * Scene components

    [cogniform-protocol/src/component.rs] and the mesh reference of
    [asset.rs]: the seven component records, their kinds, sizes and domain
    validation, with the diagnostic codes of [error.rs]. *)

From S2P Require Import Prelude Machine Floats Values.

Open Scope N_scope.

Inductive DiagnosticCode : Type :=
| UnsupportedSchema
| EmptyPatch
| OperationLimitExceeded
| ComponentLimitExceeded
| TextLimitExceeded
| DecodedSizeLimitExceeded
| DiagnosticLimitExceeded
| QueueCapacityExceeded
| EmptyImagination
| ImaginationEntityLimitExceeded
| ImaginationRelationLimitExceeded
| ImaginationConstraintLimitExceeded
| DuplicateImaginationEntity
| DuplicateQueryFilter
| QueryEntityLimitExceeded
| NonCanonicalQueryResult
| InvalidComponentValue
| DuplicateComponent
| SelfParent
| InvalidReceiptRevision
| InvalidReceiptOperationCount
| InvalidObservationDimensions
| ObservationPixelLimitExceeded
| InvalidObservationStaleness.

#[export] Instance DiagnosticCode_eq_dec : EqDecision DiagnosticCode.
Proof. solve_decision. Defined.

(** A stable code and the schema field it concerns. *)
Record ValidationError := mkValidationError {
  ve_code : DiagnosticCode;
  ve_field : string;
}.

#[export] Instance ValidationError_eq_dec : EqDecision ValidationError.
Proof. solve_decision. Defined.

Record Vec3 := mkVec3 { v3_x : f32; v3_y : f32; v3_z : f32 }.
Record PositiveVec3 := mkPositiveVec3 { pv3_x : f32; pv3_y : f32; pv3_z : f32 }.
Record Quaternion := mkQuaternion { q_x : f32; q_y : f32; q_z : f32; q_w : f32 }.
Record ColorRgb := mkColorRgb { rgb_r : f32; rgb_g : f32; rgb_b : f32 }.
Record ColorRgba := mkColorRgba { rgba_r : f32; rgba_g : f32; rgba_b : f32; rgba_a : f32 }.

Record NameComponent := mkName { name_value : SceneText }.

Record LocalTransform := mkLocalTransform {
  lt_translation : Vec3;
  lt_rotation : Quaternion;
  lt_scale : PositiveVec3;
}.

Inductive PrimitiveShape : Type := Cuboid | Plane | Sphere.

Record PrimitiveComponent := mkPrimitive {
  prim_shape : PrimitiveShape;
  prim_dimensions : PositiveVec3;
}.

Record MaterialComponent := mkMaterial {
  mat_base_color : ColorRgba;
  mat_metallic : f32;
  mat_roughness : f32;
}.

Record CameraComponent := mkCamera {
  cam_vertical_fov_radians : f32;
  cam_near : f32;
  cam_far : f32;
}.

Inductive LightKind : Type := Directional | Point.

Record LightComponent := mkLight {
  light_kind : LightKind;
  light_color : ColorRgb;
  light_intensity : f32;
}.

Record AssetMeshComponent := mkAssetMesh {
  am_content_hash : ContentHash;
  am_mesh_index : N;
}.

Inductive ComponentKind : Type :=
| KName | KLocalTransform | KPrimitive | KMaterial | KCamera | KLight | KAssetMesh.

Inductive ComponentValue : Type :=
| CName (value : NameComponent)
| CLocalTransform (value : LocalTransform)
| CPrimitive (value : PrimitiveComponent)
| CMaterial (value : MaterialComponent)
| CCamera (value : CameraComponent)
| CLight (value : LightComponent)
| CAssetMesh (value : AssetMeshComponent).

#[export] Instance Vec3_eq_dec : EqDecision Vec3.
Proof. solve_decision. Defined.
#[export] Instance PositiveVec3_eq_dec : EqDecision PositiveVec3.
Proof. solve_decision. Defined.
#[export] Instance Quaternion_eq_dec : EqDecision Quaternion.
Proof. solve_decision. Defined.
#[export] Instance ColorRgb_eq_dec : EqDecision ColorRgb.
Proof. solve_decision. Defined.
#[export] Instance ColorRgba_eq_dec : EqDecision ColorRgba.
Proof. solve_decision. Defined.
#[export] Instance NameComponent_eq_dec : EqDecision NameComponent.
Proof. solve_decision. Defined.
#[export] Instance LocalTransform_eq_dec : EqDecision LocalTransform.
Proof. solve_decision. Defined.
#[export] Instance PrimitiveShape_eq_dec : EqDecision PrimitiveShape.
Proof. solve_decision. Defined.
#[export] Instance PrimitiveComponent_eq_dec : EqDecision PrimitiveComponent.
Proof. solve_decision. Defined.
#[export] Instance MaterialComponent_eq_dec : EqDecision MaterialComponent.
Proof. solve_decision. Defined.
#[export] Instance CameraComponent_eq_dec : EqDecision CameraComponent.
Proof. solve_decision. Defined.
#[export] Instance LightKind_eq_dec : EqDecision LightKind.
Proof. solve_decision. Defined.
#[export] Instance LightComponent_eq_dec : EqDecision LightComponent.
Proof. solve_decision. Defined.
#[export] Instance AssetMeshComponent_eq_dec : EqDecision AssetMeshComponent.
Proof. solve_decision. Defined.
#[export] Instance ComponentKind_eq_dec : EqDecision ComponentKind.
Proof. solve_decision. Defined.
#[export] Instance ComponentValue_eq_dec : EqDecision ComponentValue.
Proof. solve_decision. Defined.

(** The derived [Ord] of [ComponentKind]: declaration order. *)
Definition kind_index (k : ComponentKind) : N :=
  match k with
  | KName => 0 | KLocalTransform => 1 | KPrimitive => 2 | KMaterial => 3
  | KCamera => 4 | KLight => 5 | KAssetMesh => 6
  end.

(** Every kind, in [Ord] order. *)
Definition all_kinds : list ComponentKind :=
  [KName; KLocalTransform; KPrimitive; KMaterial; KCamera; KLight; KAssetMesh].

(** [ComponentValue::kind]. *)
Definition component_kind (c : ComponentValue) : ComponentKind :=
  match c with
  | CName _ => KName
  | CLocalTransform _ => KLocalTransform
  | CPrimitive _ => KPrimitive
  | CMaterial _ => KMaterial
  | CCamera _ => KCamera
  | CLight _ => KLight
  | CAssetMesh _ => KAssetMesh
  end.

(** [ComponentValue::text_bytes]. *)
Definition component_text_bytes (c : ComponentValue) : nat :=
  match c with
  | CName name => length (name_value name)
  | _ => 0%nat
  end.

(** [ComponentValue::logical_size_bytes]. *)
Definition component_logical_size_bytes (c : ComponentValue) : N :=
  let TAG_BYTES := 1 in
  match c with
  | CName name =>
      sat_add64 (sat_add64 TAG_BYTES 4) (len_or_max u64_max (length (name_value name)))
  | CLocalTransform _ => TAG_BYTES + (10 * 4)
  | CPrimitive _ => TAG_BYTES + 1 + (3 * 4)
  | CMaterial _ => TAG_BYTES + (6 * 4)
  | CCamera _ => TAG_BYTES + (3 * 4)
  | CLight _ => TAG_BYTES + 1 + (4 * 4)
  | CAssetMesh _ => TAG_BYTES + 32 + 4
  end.

(** [Quaternion::is_non_zero]: the [f64] sum of squares, from [-0.0] as
    [Iterator::sum] folds it, exceeds zero. *)
Definition quaternion_is_non_zero (q : Quaternion) : bool :=
  let values := [q_x q; q_y q; q_z q; q_w q] in
  let squares := (λ v, let v := f64_of_f32 v in f64_mul v v) <$> values in
  f64_gt_zero (foldl f64_add (S754_zero true) squares).

(** [ComponentValue::validate]. *)
Definition component_validate (c : ComponentValue) : outcome ValidationError unit :=
  match c with
  | CLocalTransform transform =>
      if negb (quaternion_is_non_zero (lt_rotation transform))
      then Err (mkValidationError InvalidComponentValue "component.rotation")
      else Ok tt
  | CCamera camera =>
      if f32_leb f32_pi (cam_vertical_fov_radians camera)
         || f32_leb (cam_far camera) (cam_near camera)
      then Err (mkValidationError InvalidComponentValue "component.camera")
      else Ok tt
  | _ => Ok tt
  end.

(** The derived [PartialEq] of [LocalTransform], which compares [f32] fields
    with [==]. *)
Definition local_transform_eqb (a b : LocalTransform) : bool :=
  f32_eqb (v3_x (lt_translation a)) (v3_x (lt_translation b))
  && f32_eqb (v3_y (lt_translation a)) (v3_y (lt_translation b))
  && f32_eqb (v3_z (lt_translation a)) (v3_z (lt_translation b))
  && f32_eqb (q_x (lt_rotation a)) (q_x (lt_rotation b))
  && f32_eqb (q_y (lt_rotation a)) (q_y (lt_rotation b))
  && f32_eqb (q_z (lt_rotation a)) (q_z (lt_rotation b))
  && f32_eqb (q_w (lt_rotation a)) (q_w (lt_rotation b))
  && f32_eqb (pv3_x (lt_scale a)) (pv3_x (lt_scale b))
  && f32_eqb (pv3_y (lt_scale a)) (pv3_y (lt_scale b))
  && f32_eqb (pv3_z (lt_scale a)) (pv3_z (lt_scale b)).

(** ** Type invariants

    What the private fields of the Rust newtypes guarantee of any value of
    these types. *)

Definition typed_id (id : N) : Prop := 0 < id ∧ id ≤ u128_max.
Definition typed_hash (h : bytes) : Prop := length h = 32%nat.
(** Texts shorter than 4 GiB, as any text limit that fits [u32] ensures. *)
Definition typed_text (t : bytes) : Prop :=
  t ≠ [] ∧ (x00 ∉ t) ∧ N.of_nat (length t) ≤ u32_max.

Definition component_f32s (c : ComponentValue) : list f32 :=
  match c with
  | CName _ => []
  | CLocalTransform (mkLocalTransform t r s) =>
      [v3_x t; v3_y t; v3_z t; q_x r; q_y r; q_z r; q_w r; pv3_x s; pv3_y s; pv3_z s]
  | CPrimitive (mkPrimitive _ d) => [pv3_x d; pv3_y d; pv3_z d]
  | CMaterial (mkMaterial c m r) => [rgba_r c; rgba_g c; rgba_b c; rgba_a c; m; r]
  | CCamera (mkCamera v n f) => [v; n; f]
  | CLight (mkLight _ c i) => [rgb_r c; rgb_g c; rgb_b c; i]
  | CAssetMesh _ => []
  end.

Definition typed_component (c : ComponentValue) : Prop :=
  Forall f32_normal_form (component_f32s c) ∧
  match c with
  | CName n => typed_text (name_value n)
  | CAssetMesh a => typed_hash (am_content_hash a) ∧ am_mesh_index a ≤ u32_max
  | _ => True
  end.

(** On typed transforms the [f32]-wise comparison is equality. *)
Lemma local_transform_eqb_eq a b :
  typed_component (CLocalTransform a) → typed_component (CLocalTransform b) →
  local_transform_eqb a b = true ↔ a = b.
Proof.
  destruct a as [[ax ay az] [aq ar as_ at_] [au av aw]], b as [[bx by_ bz] [bq br bs bt] [bu bv bw]].
  intros [Ha _] [Hb _]. cbn in Ha, Hb.
  repeat match goal with
  | H : Forall _ (_ :: _) |- _ => apply Forall_cons in H as [? H]
  end.
  unfold local_transform_eqb; cbn.
  rewrite !andb_true_iff, !f32_eqb_bits by done. naive_solver.
Qed.

Lemma kind_index_inj k1 k2 : kind_index k1 = kind_index k2 → k1 = k2.
Proof. by destruct k1, k2. Qed.

Lemma elem_of_all_kinds k : k ∈ all_kinds.
Proof. destruct k; set_solver. Qed.
