(* ===== verification/Messages.v ===== *)
(** * Protocol messages

    [cogniform-protocol/src/limits.rs] and [message.rs]: runtime limits and
    patch budgets, scene operations and patches, apply receipts, observation
    requests and metadata, and the validation each message passes before it is
    admitted. *)

From S2P Require Import Prelude Machine Floats Values Components.

Open Scope N_scope.

(** ** Limits *)

Record RuntimeLimits := mkRuntimeLimits {
  max_encoded_bytes : N;
  max_decoded_bytes : N;
  max_json_nesting_depth : N;
  max_operations : N;
  max_components : N;
  max_components_per_entity : N;
  max_text_bytes : N;
  max_diagnostics : N;
  max_queue_capacity : N;
  max_imagination_entities : N;
  max_imagination_relations : N;
  max_imagination_constraints : N;
  max_query_entities : N;
  max_observation_width : N;
  max_observation_height : N;
  max_observation_pixels : N;
}.

Definition runtime_limits_default : RuntimeLimits := {|
  max_encoded_bytes := 1048576;
  max_decoded_bytes := 4194304;
  max_json_nesting_depth := 32;
  max_operations := 1024;
  max_components := 8192;
  max_components_per_entity := 64;
  max_text_bytes := 65536;
  max_diagnostics := 128;
  max_queue_capacity := 1024;
  max_imagination_entities := 256;
  max_imagination_relations := 512;
  max_imagination_constraints := 256;
  max_query_entities := 1024;
  max_observation_width := 4096;
  max_observation_height := 4096;
  max_observation_pixels := 16777216;
|}.

(** The fields are [NonZeroU16], [NonZeroU32] and [NonZeroU64]. *)
Definition typed_limits (l : RuntimeLimits) : Prop :=
  (0 < max_encoded_bytes l ≤ u64_max) ∧
  (0 < max_decoded_bytes l ≤ u64_max) ∧
  (0 < max_json_nesting_depth l ≤ u16_max) ∧
  (0 < max_operations l ≤ u32_max) ∧
  (0 < max_components l ≤ u32_max) ∧
  (0 < max_components_per_entity l ≤ u32_max) ∧
  (0 < max_text_bytes l ≤ u64_max) ∧
  (0 < max_diagnostics l ≤ u32_max).

Record PatchBudget := mkPatchBudget {
  pb_max_operations : N;
  pb_max_components : N;
  pb_max_text_bytes : N;
  pb_max_decoded_bytes : N;
}.

Definition patch_budget_default : PatchBudget := {|
  pb_max_operations := 256;
  pb_max_components := 2048;
  pb_max_text_bytes := 16384;
  pb_max_decoded_bytes := 262144;
|}.

#[export] Instance PatchBudget_eq_dec : EqDecision PatchBudget.
Proof. solve_decision. Defined.

(** ** Delivery and queues *)

Inductive ConflictPolicy : Type := RequireExactBase.

Inductive DeliverySemantic : Type :=
| MustApply
| LatestWins (supersession_key : SceneText)
| BestEffort.

#[export] Instance ConflictPolicy_eq_dec : EqDecision ConflictPolicy.
Proof. solve_decision. Defined.
#[export] Instance DeliverySemantic_eq_dec : EqDecision DeliverySemantic.
Proof. solve_decision. Defined.

Definition delivery_text_bytes (d : DeliverySemantic) : nat :=
  match d with
  | LatestWins key => length key
  | MustApply | BestEffort => 0%nat
  end.

Definition delivery_logical_size_bytes (d : DeliverySemantic) : N :=
  match d with
  | LatestWins key => sat_add64 (sat_add64 1 4) (len_or_max u64_max (length key))
  | MustApply | BestEffort => 1
  end.

Record QueueConfig := mkQueueConfig {
  queue_capacity : N;
  queue_delivery : DeliverySemantic;
}.

Definition queue_config_validate (q : QueueConfig) (limits : RuntimeLimits)
    : outcome ValidationError unit :=
  do! guard_err (max_queue_capacity limits <? queue_capacity q)
    (mkValidationError QueueCapacityExceeded "queue.capacity") then
  do! guard_err (max_text_bytes limits <? len_or_max u64_max (delivery_text_bytes (queue_delivery q)))
    (mkValidationError TextLimitExceeded "queue.delivery.supersession_key") then
  guard_err (max_decoded_bytes limits <? sat_add64 4 (delivery_logical_size_bytes (queue_delivery q)))
    (mkValidationError DecodedSizeLimitExceeded "queue").

(** ** Scene operations *)

Record CreateEntity := mkCreate { create_id : StableEntityId; create_components : list ComponentValue }.
Record DeleteEntity := mkDelete { delete_id : StableEntityId }.
Record SetComponent := mkSet { set_id : StableEntityId; set_value : ComponentValue }.
Record RemoveComponent := mkRemove { remove_id : StableEntityId; remove_kind : ComponentKind }.
Record ReparentEntity := mkReparent { reparent_id : StableEntityId; reparent_parent : option StableEntityId }.

Inductive SceneOperation : Type :=
| OpCreate (create : CreateEntity)
| OpDelete (delete : DeleteEntity)
| OpSetComponent (set : SetComponent)
| OpRemoveComponent (remove : RemoveComponent)
| OpReparent (reparent : ReparentEntity).

#[export] Instance SceneOperation_eq_dec : EqDecision SceneOperation.
Proof.
  assert (EqDecision CreateEntity) by solve_decision.
  assert (EqDecision DeleteEntity) by solve_decision.
  assert (EqDecision SetComponent) by solve_decision.
  assert (EqDecision RemoveComponent) by solve_decision.
  assert (EqDecision ReparentEntity) by solve_decision.
  solve_decision.
Defined.

(** The component loop of [SceneOperation::validate] for a create; [kinds] is
    the [BTreeSet] of kinds already seen. *)
Fixpoint validate_create_components (kinds : list ComponentKind) (cs : list ComponentValue)
    : outcome ValidationError unit :=
  match cs with
  | [] => Ok tt
  | c :: cs =>
      do! component_validate c then
      if bool_decide (component_kind c ∈ kinds)
      then Err (mkValidationError DuplicateComponent "operations[].create.components")
      else validate_create_components (component_kind c :: kinds) cs
  end.

(** [SceneOperation::validate]. *)
Definition operation_validate (op : SceneOperation) : outcome ValidationError unit :=
  match op with
  | OpCreate create => validate_create_components [] (create_components create)
  | OpSetComponent set => component_validate (set_value set)
  | OpReparent reparent =>
      guard_err (bool_decide (reparent_parent reparent = Some (reparent_id reparent)))
        (mkValidationError SelfParent "operations[].reparent.parent_id")
  | OpDelete _ | OpRemoveComponent _ => Ok tt
  end.

Definition operation_component_count (op : SceneOperation) : nat :=
  match op with
  | OpCreate create => length (create_components create)
  | OpSetComponent _ => 1%nat
  | OpDelete _ | OpRemoveComponent _ | OpReparent _ => 0%nat
  end.

Definition operation_text_bytes (op : SceneOperation) : N :=
  match op with
  | OpCreate create =>
      foldl (λ total c, sat_add64 total (len_or_max u64_max (component_text_bytes c))) 0
        (create_components create)
  | OpSetComponent set => len_or_max u64_max (component_text_bytes (set_value set))
  | OpDelete _ | OpRemoveComponent _ | OpReparent _ => 0
  end.

Definition operation_logical_size_bytes (op : SceneOperation) : N :=
  let TAG_BYTES := 1 in
  let ENTITY_ID_BYTES := 16 in
  match op with
  | OpCreate create =>
      foldl (λ total c, sat_add64 total (component_logical_size_bytes c))
        (TAG_BYTES + ENTITY_ID_BYTES + 4) (create_components create)
  | OpDelete _ => TAG_BYTES + ENTITY_ID_BYTES
  | OpSetComponent set =>
      sat_add64 (sat_add64 TAG_BYTES ENTITY_ID_BYTES) (component_logical_size_bytes (set_value set))
  | OpRemoveComponent _ => TAG_BYTES + ENTITY_ID_BYTES + 1
  | OpReparent reparent =>
      TAG_BYTES + ENTITY_ID_BYTES + 1
        + is_some_u64 (reparent_parent reparent) * 16
  end.

(** ** Scene patches *)

Record ScenePatch := mkPatch {
  patch_schema_version : SchemaVersion;
  patch_transaction_id : TransactionId;
  patch_idempotency_key : IdempotencyKey;
  patch_base_revision : SceneRevision;
  patch_conflict_policy : ConflictPolicy;
  patch_delivery : DeliverySemantic;
  patch_declared_budget : PatchBudget;
  patch_operations : list SceneOperation;
}.

#[export] Instance ScenePatch_eq_dec : EqDecision ScenePatch.
Proof. solve_decision. Defined.

Definition validate_schema (schema_version : SchemaVersion) : outcome ValidationError unit :=
  guard_err (negb (schema_version =? schema_v1))
    (mkValidationError UnsupportedSchema "schema_version").

(** [ScenePatch::text_bytes]. *)
Definition patch_text_bytes (p : ScenePatch) : N :=
  foldl (λ total op, sat_add64 total (operation_text_bytes op))
    (len_or_max u64_max (delivery_text_bytes (patch_delivery p))) (patch_operations p).

(** [ScenePatch::logical_size_bytes]. *)
Definition patch_logical_size_bytes (p : ScenePatch) : N :=
  foldl (λ total op, sat_add64 total (operation_logical_size_bytes op))
    (sat_add64 (sat_add64 (sat_add64 (sat_add64 (sat_add64 (sat_add64 (sat_add64 2 16) 16) 8) 1)
       (delivery_logical_size_bytes (patch_delivery p))) 24) 4)
    (patch_operations p).

(** One turn of the operation loop of [ScenePatch::validate]; the state is
    [(component_count, text_bytes)]. *)
Definition validate_patch_operation (limits : RuntimeLimits) (acc : N * N) (op : SceneOperation)
    : outcome ValidationError (N * N) :=
  let '(component_count, text_bytes) := acc in
  do! operation_validate op then
  do! match op with
      | OpCreate create =>
          guard_err (max_components_per_entity limits
                       <? len_or_max u32_max (length (create_components create)))
            (mkValidationError ComponentLimitExceeded "operations[].create.components")
      | _ => Ok tt
      end then
  Ok (sat_add64 component_count (len_or_max u64_max (operation_component_count op)),
      sat_add64 text_bytes (operation_text_bytes op)).

(** [<ScenePatch as Validate>::validate]. *)
Definition patch_validate (p : ScenePatch) (limits : RuntimeLimits) : outcome ValidationError unit :=
  let budget := patch_declared_budget p in
  do! validate_schema (patch_schema_version p) then
  let operation_count := len_or_max u32_max (length (patch_operations p)) in
  do! guard_err (operation_count =? 0) (mkValidationError EmptyPatch "operations") then
  do! guard_err ((pb_max_operations budget <? operation_count)
                 || (max_operations limits <? operation_count)
                 || (max_operations limits <? pb_max_operations budget))
    (mkValidationError OperationLimitExceeded "operations") then
  let! acc := out_fold (validate_patch_operation limits)
    (0, len_or_max u64_max (delivery_text_bytes (patch_delivery p))) (patch_operations p) in
  let '(component_count, text_bytes) := acc in
  do! guard_err ((pb_max_components budget <? component_count)
                 || (max_components limits <? component_count)
                 || (max_components limits <? pb_max_components budget))
    (mkValidationError ComponentLimitExceeded "operations[].components") then
  do! guard_err ((pb_max_text_bytes budget <? text_bytes)
                 || (max_text_bytes limits <? text_bytes)
                 || (max_text_bytes limits <? pb_max_text_bytes budget))
    (mkValidationError TextLimitExceeded "operations[].text") then
  let logical_size := patch_logical_size_bytes p in
  guard_err ((pb_max_decoded_bytes budget <? logical_size)
             || (max_decoded_bytes limits <? logical_size)
             || (max_decoded_bytes limits <? pb_max_decoded_bytes budget))
    (mkValidationError DecodedSizeLimitExceeded "declared_budget.max_decoded_bytes").

(** ** Receipts *)

Inductive ApplyStatus : Type := Applied | IdempotentReplay.

#[export] Instance ApplyStatus_eq_dec : EqDecision ApplyStatus.
Proof. solve_decision. Defined.

Record ApplyTiming := mkTiming {
  decode_micros : N;
  validate_micros : N;
  commit_micros : N;
}.

Inductive DiagnosticSeverity : Type := Info | Warning | Error.

Record Diagnostic := mkDiagnostic {
  diag_code : DiagnosticCode;
  diag_severity : DiagnosticSeverity;
  diag_message : SceneText;
  diag_operation_index : option N;
  diag_entity_id : option StableEntityId;
}.

Record ApplyReceipt := mkReceipt {
  receipt_schema_version : SchemaVersion;
  receipt_transaction_id : TransactionId;
  receipt_idempotency_key : IdempotencyKey;
  receipt_status : ApplyStatus;
  receipt_previous_revision : SceneRevision;
  receipt_new_revision : SceneRevision;
  receipt_operation_count : N;
  receipt_diagnostics : list Diagnostic;
  receipt_timing : ApplyTiming;
  receipt_estimated_visible_frame : FrameId;
}.

(** [ApplyReceipt::logical_size_bytes]. *)
Definition receipt_logical_size_bytes (r : ApplyReceipt) : N :=
  foldl (λ total d,
      sat_add64 (sat_add64 (sat_add64 (sat_add64 (sat_add64 (sat_add64 total 2) 1) 4)
        (len_or_max u64_max (length (diag_message d))))
        (1 + is_some_u64 (diag_operation_index d) * 4))
        (1 + is_some_u64 (diag_entity_id d) * 16))
    (2 + 16 + 16 + 1 + 8 + 8 + 4 + 4 + 24 + 8) (receipt_diagnostics r).

(** [<ApplyReceipt as Validate>::validate]. *)
Definition receipt_validate (r : ApplyReceipt) (limits : RuntimeLimits) : outcome ValidationError unit :=
  do! validate_schema (receipt_schema_version r) then
  do! guard_err (negb (bool_decide
        (out_ok (checked_next (receipt_previous_revision r)) = Some (receipt_new_revision r))))
    (mkValidationError InvalidReceiptRevision "new_revision") then
  do! guard_err (max_operations limits <? receipt_operation_count r)
    (mkValidationError InvalidReceiptOperationCount "operation_count") then
  do! guard_err (max_diagnostics limits <? len_or_max u32_max (length (receipt_diagnostics r)))
    (mkValidationError DiagnosticLimitExceeded "diagnostics") then
  let text_bytes :=
    foldl (λ total d, sat_add64 total (len_or_max u64_max (length (diag_message d)))) 0
      (receipt_diagnostics r) in
  do! guard_err (max_text_bytes limits <? text_bytes)
    (mkValidationError TextLimitExceeded "diagnostics[].message") then
  guard_err (max_decoded_bytes limits <? receipt_logical_size_bytes r)
    (mkValidationError DecodedSizeLimitExceeded "receipt").

(** ** Observations *)

Inductive ObservationKind : Type := Color | Depth | Normal | EntityId | Visibility.
Inductive ObservationQuality : Type := Low | Medium | High.

#[export] Instance ObservationKind_eq_dec : EqDecision ObservationKind.
Proof. solve_decision. Defined.
#[export] Instance ObservationQuality_eq_dec : EqDecision ObservationQuality.
Proof. solve_decision. Defined.

Record ObservationRequest := mkObservationRequest {
  or_schema_version : SchemaVersion;
  or_observation_id : ObservationId;
  or_scene_revision : SceneRevision;
  or_camera_id : StableEntityId;
  or_kind : ObservationKind;
  or_quality : ObservationQuality;
}.

Definition OBSERVATION_REQUEST_LOGICAL_BYTES : N := 44.

Definition observation_request_validate (r : ObservationRequest) (limits : RuntimeLimits)
    : outcome ValidationError unit :=
  do! validate_schema (or_schema_version r) then
  guard_err (max_decoded_bytes limits <? OBSERVATION_REQUEST_LOGICAL_BYTES)
    (mkValidationError DecodedSizeLimitExceeded "observation_request").

Record ImageDimensions := mkDimensions { dim_width : N; dim_height : N }.

#[export] Instance ImageDimensions_eq_dec : EqDecision ImageDimensions.
Proof. solve_decision. Defined.

(** [ImageDimensions::pixel_count]: a [u64] product of two [u32] values. *)
Definition pixel_count (d : ImageDimensions) : N := dim_width d * dim_height d.

Record ObservationStaleness := mkStaleness {
  latest_known_revision : SceneRevision;
  revisions_behind : N;
}.

#[export] Instance ObservationStaleness_eq_dec : EqDecision ObservationStaleness.
Proof. solve_decision. Defined.

Record ObservationMetadata := mkMetadata {
  om_schema_version : SchemaVersion;
  om_observation_id : ObservationId;
  om_scene_revision : SceneRevision;
  om_frame_id : FrameId;
  om_camera_id : StableEntityId;
  om_kind : ObservationKind;
  om_dimensions : option ImageDimensions;
  om_quality : ObservationQuality;
  om_observed_at_unix_micros : N;
  om_production_latency_micros : N;
  om_staleness : ObservationStaleness;
}.

#[export] Instance ObservationMetadata_eq_dec : EqDecision ObservationMetadata.
Proof. solve_decision. Defined.

Definition metadata_logical_size_bytes (m : ObservationMetadata) : N :=
  sat_add64 (sat_add64 (sat_add64 (sat_add64 (sat_add64 (sat_add64 (sat_add64 (sat_add64
    (sat_add64 (sat_add64 2 16) 8) 8) 16) 1)
    (1 + is_some_u64 (om_dimensions m) * 8)) 1) 8) 8) 16.

(** [<ObservationMetadata as Validate>::validate]. *)
Definition metadata_validate (m : ObservationMetadata) (limits : RuntimeLimits)
    : outcome ValidationError unit :=
  do! validate_schema (om_schema_version m) then
  let expects_dimensions := negb (bool_decide (om_kind m = Visibility)) in
  do! guard_err (negb (Bool.eqb expects_dimensions (is_some (om_dimensions m))))
    (mkValidationError InvalidObservationDimensions "dimensions") then
  do! match om_dimensions m with
      | Some d =>
          guard_err ((max_observation_width limits <? dim_width d)
                     || (max_observation_height limits <? dim_height d)
                     || (max_observation_pixels limits <? pixel_count d))
            (mkValidationError ObservationPixelLimitExceeded "dimensions")
      | None => Ok tt
      end then
  let latest := latest_known_revision (om_staleness m) in
  let observed := om_scene_revision m in
  do! guard_err (negb (bool_decide
        (checked_sub latest observed = Some (revisions_behind (om_staleness m)))))
    (mkValidationError InvalidObservationStaleness "staleness") then
  guard_err (max_decoded_bytes limits <? metadata_logical_size_bytes m)
    (mkValidationError DecodedSizeLimitExceeded "observation").

(** ** Type invariants of messages *)

Definition typed_operation (op : SceneOperation) : Prop :=
  match op with
  | OpCreate c => typed_id (create_id c) ∧ Forall typed_component (create_components c)
  | OpDelete d => typed_id (delete_id d)
  | OpSetComponent s => typed_id (set_id s) ∧ typed_component (set_value s)
  | OpRemoveComponent r => typed_id (remove_id r)
  | OpReparent r => typed_id (reparent_id r) ∧ from_option typed_id True (reparent_parent r)
  end.

Definition typed_patch (p : ScenePatch) : Prop :=
  Forall typed_operation (patch_operations p).
