(* ===== verification/MessageSpec.v ===== *)
(** * What message validation admits

    The validators of [Messages] accumulate saturating [u64] counters while
    they scan a message.  Here the admitted messages are described directly,
    with exact sums, and each validator is proved to accept exactly those. *)

From S2P Require Import Prelude Machine Floats Values Components Messages.

Open Scope N_scope.

(** ** Exact sizes *)

Definition component_text (c : ComponentValue) : N := N.of_nat (component_text_bytes c).

Definition component_size (c : ComponentValue) : N :=
  match c with
  | CName n => 5 + N.of_nat (length (name_value n))
  | CLocalTransform _ => 41
  | CPrimitive _ => 14
  | CMaterial _ => 25
  | CCamera _ => 13
  | CLight _ => 18
  | CAssetMesh _ => 37
  end.

Definition operation_text (op : SceneOperation) : N :=
  match op with
  | OpCreate c => sumN component_text (create_components c)
  | OpSetComponent s => component_text (set_value s)
  | _ => 0
  end.

Definition operation_size (op : SceneOperation) : N :=
  match op with
  | OpCreate c => 21 + sumN component_size (create_components c)
  | OpDelete _ => 17
  | OpSetComponent s => 17 + component_size (set_value s)
  | OpRemoveComponent _ => 18
  | OpReparent r => if reparent_parent r is Some _ then 34 else 18
  end.

Definition delivery_size (d : DeliverySemantic) : N :=
  match d with LatestWins k => 5 + N.of_nat (length k) | _ => 1 end.

Definition patch_components (p : ScenePatch) : N :=
  sumN (λ op, N.of_nat (operation_component_count op)) (patch_operations p).

Definition patch_text (p : ScenePatch) : N :=
  N.of_nat (delivery_text_bytes (patch_delivery p)) + sumN operation_text (patch_operations p).

Definition patch_size (p : ScenePatch) : N :=
  71 + delivery_size (patch_delivery p) + sumN operation_size (patch_operations p).

(** ** The admitted patches *)

Definition component_admissible (c : ComponentValue) : Prop :=
  match c with
  | CLocalTransform t => quaternion_is_non_zero (lt_rotation t) = true
  | CCamera c =>
      f32_leb f32_pi (cam_vertical_fov_radians c) = false ∧ f32_leb (cam_far c) (cam_near c) = false
  | _ => True
  end.

Definition operation_admissible (limits : RuntimeLimits) (op : SceneOperation) : Prop :=
  match op with
  | OpCreate c =>
      Forall component_admissible (create_components c) ∧
      NoDup (component_kind <$> create_components c) ∧
      N.of_nat (length (create_components c)) ≤ max_components_per_entity limits
  | OpSetComponent s => component_admissible (set_value s)
  | OpReparent r => reparent_parent r ≠ Some (reparent_id r)
  | OpDelete _ | OpRemoveComponent _ => True
  end.

(** [within used budget limit]: used within the declared budget, and the budget
    within the runtime limit. *)
Definition within (used budget limit : N) : Prop := used ≤ budget ∧ budget ≤ limit.

Definition patch_admissible (p : ScenePatch) (limits : RuntimeLimits) : Prop :=
  let b := patch_declared_budget p in
  patch_schema_version p = schema_v1 ∧
  patch_operations p ≠ [] ∧
  within (N.of_nat (length (patch_operations p))) (pb_max_operations b) (max_operations limits) ∧
  Forall (operation_admissible limits) (patch_operations p) ∧
  within (patch_components p) (pb_max_components b) (max_components limits) ∧
  within (patch_text p) (pb_max_text_bytes b) (max_text_bytes limits) ∧
  within (patch_size p) (pb_max_decoded_bytes b) (max_decoded_bytes limits).

(** ** Saturated sizes are the exact ones cut at the maximum *)

Lemma component_size_sat c : component_logical_size_bytes c = N.min u64_max (component_size c).
Proof.
  destruct c; simpl; try done. unfold sat_add64, sat_add. rewrite len_or_max_min.
  unfold u64_max. lia.
Qed.

Lemma component_text_sat c :
  len_or_max u64_max (component_text_bytes c) = N.min u64_max (component_text c).
Proof. by rewrite len_or_max_min. Qed.

Lemma operation_text_sat op : operation_text_bytes op = N.min u64_max (operation_text op).
Proof.
  destruct op; try done; simpl.
  - rewrite <-(N.add_0_l (sumN _ _)).
    apply (sat_fold_sum u64_max _ component_text _ 0). intros c. apply component_text_sat.
  - apply component_text_sat.
Qed.

Lemma operation_size_sat op : operation_logical_size_bytes op = N.min u64_max (operation_size op).
Proof.
  destruct op as [c|d|s|r|r]; try done; simpl.
  - apply (sat_fold_sum u64_max _ component_size _ 21). apply component_size_sat.
  - rewrite component_size_sat. unfold sat_add64, sat_add, u64_max. lia.
  - by destruct (reparent_parent r).
Qed.

Lemma delivery_size_sat d : delivery_logical_size_bytes d = N.min u64_max (delivery_size d).
Proof. destruct d; simpl; try done. rewrite len_or_max_min. unfold sat_add64, sat_add, u64_max. lia. Qed.

Lemma patch_text_sat p : patch_text_bytes p = N.min u64_max (patch_text p).
Proof.
  unfold patch_text_bytes, patch_text. rewrite len_or_max_min.
  apply sat_fold_sum. apply operation_text_sat.
Qed.

Lemma patch_size_sat p : patch_logical_size_bytes p = N.min u64_max (patch_size p).
Proof.
  unfold patch_logical_size_bytes, patch_size.
  rewrite <-(sat_fold_sum u64_max operation_logical_size_bytes operation_size)
    by apply operation_size_sat.
  f_equal. rewrite delivery_size_sat. unfold sat_add64, sat_add, u64_max. lia.
Qed.

(** ** The scans *)

Lemma component_validate_ok c : component_validate c = Ok tt ↔ component_admissible c.
Proof.
  destruct c as [| |c|c|c| |]; try done; unfold component_validate, component_admissible.
  - destruct (quaternion_is_non_zero _); simpl; split; done.
  - destruct (f32_leb f32_pi _), (f32_leb (cam_far _) _); simpl; naive_solver.
Qed.

Lemma component_validate_normal c : normal (component_validate c).
Proof. unfold component_validate. repeat case_match; done. Qed.

Lemma validate_create_components_ok kinds cs :
  validate_create_components kinds cs = Ok tt ↔
  Forall component_admissible cs ∧ NoDup (component_kind <$> cs) ∧
  (∀ k, k ∈ component_kind <$> cs → k ∉ kinds).
Proof.
  revert kinds. induction cs as [|c cs IH]; intros kinds; cbn [validate_create_components].
  - split; [|done]. intros _. split_and!; [constructor..|set_solver].
  - rewrite out_bind_ok, Forall_cons, fmap_cons, NoDup_cons.
    setoid_rewrite elem_of_cons. split.
    + intros ([] & Hc%component_validate_ok & H). case_bool_decide as Hk; [done|].
      apply IH in H as (? & ? & Hd). setoid_rewrite elem_of_cons in Hd. naive_solver.
    + intros ([Hc Hcs] & [Hn Hnd] & Hk). exists tt. rewrite component_validate_ok.
      split; [done|]. rewrite bool_decide_false by naive_solver.
      apply IH. setoid_rewrite elem_of_cons. naive_solver.
Qed.

Lemma operation_step_ok limits acc op acc' :
  max_components_per_entity limits < u32_max →
  validate_patch_operation limits acc op = Ok acc' ↔
  operation_admissible limits op ∧
  acc' = (sat_add64 acc.1 (len_or_max u64_max (operation_component_count op)),
          sat_add64 acc.2 (operation_text_bytes op)).
Proof.
  intros Hl. destruct acc as [n t]. unfold validate_patch_operation.
  rewrite out_bind_ok. setoid_rewrite out_bind_ok. cbn [fst snd].
  destruct op as [c|d|s|r|r]; cbn [operation_validate operation_admissible].
  - setoid_rewrite guard_err_ok. setoid_rewrite N.ltb_ge. rewrite len_or_max_min. split.
    + intros ([] & H%validate_create_components_ok & [] & Hn & E). inv_ok.
      split; [|done]. split_and!; [naive_solver..|lia].
    + intros ((? & ? & ?) & ->). exists tt. rewrite validate_create_components_ok.
      split; [set_solver|]. exists tt. split; [lia|done].
  - naive_solver.
  - split.
    + intros ([] & H%component_validate_ok & [] & _ & E). inv_ok. done.
    + intros (H & ->). exists tt. rewrite component_validate_ok. eauto.
  - naive_solver.
  - setoid_rewrite guard_err_ok. setoid_rewrite bool_decide_eq_false. split.
    + intros ([] & H & [] & _ & E). inv_ok. done.
    + intros (H & ->). exists tt. eauto.
Qed.

Lemma operation_scan_ok limits acc ops acc' :
  max_components_per_entity limits < u32_max →
  out_fold (validate_patch_operation limits) acc ops = Ok acc' ↔
  Forall (operation_admissible limits) ops ∧
  acc' = (foldl (λ n op, sat_add64 n (len_or_max u64_max (operation_component_count op))) acc.1 ops,
          foldl (λ t op, sat_add64 t (operation_text_bytes op)) acc.2 ops).
Proof.
  intros Hl. revert acc. induction ops as [|op ops IH]; intros acc; simpl.
  - destruct acc. naive_solver.
  - rewrite out_bind_ok, Forall_cons. setoid_rewrite (operation_step_ok limits _ _ _ Hl).
    setoid_rewrite IH. naive_solver.
Qed.

Lemma within_guard used used' budget limit max :
  limit < max → used' = N.min max used →
  ((budget <? used') || (limit <? used') || (limit <? budget)) = false ↔ within used budget limit.
Proof.
  intros Hl ->. unfold within. rewrite !orb_false_iff, !N.ltb_ge. lia.
Qed.

Lemma patch_scan_ok p limits acc :
  max_components_per_entity limits < u32_max →
  out_fold (validate_patch_operation limits)
    (0, len_or_max u64_max (delivery_text_bytes (patch_delivery p))) (patch_operations p) = Ok acc ↔
  Forall (operation_admissible limits) (patch_operations p) ∧
  acc = (N.min u64_max (patch_components p), N.min u64_max (patch_text p)).
Proof.
  intros Hl. rewrite operation_scan_ok by done. cbn [fst snd].
  rewrite <-patch_text_sat. unfold patch_components.
  rewrite <-(N.add_0_l (sumN _ (patch_operations p))).
  rewrite <-(sat_fold_sum u64_max (λ op, len_or_max u64_max (operation_component_count op)));
    [done|]. intros op. apply len_or_max_min.
Qed.

Lemma validate_schema_ok v u : validate_schema v = Ok u ↔ v = schema_v1.
Proof. unfold validate_schema. rewrite guard_err_ok, negb_false_iff. apply N.eqb_eq. Qed.

Lemma operations_non_empty (ops : list SceneOperation) :
  (len_or_max u32_max (length ops) =? 0) = false ↔ ops ≠ [].
Proof.
  rewrite len_or_max_min, N.eqb_neq. unfold u32_max.
  destruct ops; simpl; [naive_solver|]. split; [done|lia].
Qed.

(** ** Validators always return *)

Lemma patch_validate_normal p limits : normal (patch_validate p limits).
Proof.
  unfold patch_validate, validate_schema.
  repeat (apply out_bind_normal; [apply guard_err_normal|intros _ _]).
  apply out_bind_normal.
  - apply (out_fold_normal _ (λ _, True)); [|done..]. intros op [n t] _ _.
    unfold validate_patch_operation. apply out_bind_normal.
    + destruct op; cbn [operation_validate]; try done; [|apply component_validate_normal|apply guard_err_normal].
      generalize (@nil ComponentKind). induction (create_components create) as [|c cs IH]; intros kinds; [done|].
      cbn [validate_create_components]. apply out_bind_normal; [apply component_validate_normal|].
      intros _ _. case_bool_decide; [done|apply IH].
    + intros _ _. apply out_bind_normal; [destruct op; try done; apply guard_err_normal|done].
  - intros [n t] _. repeat (apply out_bind_normal; [apply guard_err_normal|intros _ _]).
    apply guard_err_normal.
Qed.

Lemma receipt_validate_normal r limits : normal (receipt_validate r limits).
Proof.
  unfold receipt_validate, validate_schema.
  repeat (apply out_bind_normal; [apply guard_err_normal|intros _ _]). apply guard_err_normal.
Qed.

Lemma observation_request_validate_normal r limits : normal (observation_request_validate r limits).
Proof.
  unfold observation_request_validate, validate_schema.
  apply out_bind_normal; [apply guard_err_normal|intros _ _]. apply guard_err_normal.
Qed.

Lemma metadata_validate_normal m limits : normal (metadata_validate m limits).
Proof.
  unfold metadata_validate, validate_schema.
  repeat (apply out_bind_normal; [first [apply guard_err_normal | by destruct (om_dimensions m); [apply guard_err_normal|]]|intros _ _]).
  apply guard_err_normal.
Qed.

(** Sequencing a unit step before a check. *)
Lemma seq_ok {E} (m : outcome E unit) (k : outcome E unit) (P Q : Prop) :
  (m = Ok tt ↔ P) → (k = Ok tt ↔ Q) → (out_bind m (λ _, k) = Ok tt ↔ P ∧ Q).
Proof. intros <- <-. rewrite out_bind_ok. split; [intros ([] & ? & ?); done|naive_solver]. Qed.

Lemma guard_ok {E} b (e : E) (P : Prop) : (b = false ↔ P) → (guard_err b e = Ok tt ↔ P).
Proof. intros <-. apply guard_err_ok. Qed.

Lemma patch_validate_iff (p : ScenePatch) (limits : RuntimeLimits) :
  max_operations limits < u32_max → max_components_per_entity limits < u32_max →
  max_components limits ≤ u32_max → max_text_bytes limits < u64_max →
  max_decoded_bytes limits < u64_max →
  patch_validate p limits = Ok tt ↔ patch_admissible p limits.
Proof.
  intros Hop Hpe Hc Ht Hd. unfold patch_validate, patch_admissible. cbv zeta.
  apply seq_ok; [apply validate_schema_ok|].
  apply seq_ok; [apply guard_ok, operations_non_empty|].
  apply seq_ok; [apply guard_ok, (within_guard _ _ _ _ u32_max); [done|apply len_or_max_min]|].
  rewrite out_bind_ok. setoid_rewrite (patch_scan_ok p limits _ Hpe).
  transitivity (Forall (operation_admissible limits) (patch_operations p) ∧
    (let '(n, t) := (N.min u64_max (patch_components p), N.min u64_max (patch_text p)) in
     do! guard_err ((pb_max_components (patch_declared_budget p) <? n) || (max_components limits <? n)
           || (max_components limits <? pb_max_components (patch_declared_budget p)))
         (mkValidationError ComponentLimitExceeded "operations[].components") then
     do! guard_err ((pb_max_text_bytes (patch_declared_budget p) <? t) || (max_text_bytes limits <? t)
           || (max_text_bytes limits <? pb_max_text_bytes (patch_declared_budget p)))
         (mkValidationError TextLimitExceeded "operations[].text") then
     guard_err ((pb_max_decoded_bytes (patch_declared_budget p) <? patch_logical_size_bytes p)
           || (max_decoded_bytes limits <? patch_logical_size_bytes p)
           || (max_decoded_bytes limits <? pb_max_decoded_bytes (patch_declared_budget p)))
         (mkValidationError DecodedSizeLimitExceeded "declared_budget.max_decoded_bytes")) = Ok tt).
  { split; [intros (? & (? & ->) & ?); done|intros [? ?]; eexists; done]. }
  apply and_iff_compat_l. cbv beta iota.
  apply seq_ok; [apply guard_ok, (within_guard _ _ _ _ u64_max);
    [unfold u32_max, u64_max in *; lia|done]|].
  apply seq_ok; [by apply guard_ok, (within_guard _ _ _ _ u64_max)|].
  apply guard_ok, (within_guard _ _ _ _ u64_max); [done|apply patch_size_sat].
Qed.

(** C28. Patch validation accepts exactly the admissible patches: the schema is
    version one, there is at least one operation, every component value and
    operation satisfies its domain rule (non-zero rotation, camera field of
    view and clip range, no component kind twice in one create, no
    self-parent), and the exact operation, component, text-byte and
    logical-size totals are within the declared budget, which is itself within
    the runtime limits.  The saturating counters of the scan therefore never
    hide an excess. *)
Theorem patch_validate_spec (p : ScenePatch) (limits : RuntimeLimits) :
  max_operations limits < u32_max → max_components_per_entity limits < u32_max →
  max_components limits ≤ u32_max → max_text_bytes limits < u64_max →
  max_decoded_bytes limits < u64_max →
  patch_validate p limits = Ok tt ↔ patch_admissible p limits.
Proof. apply patch_validate_iff. Qed.

(** ** A concrete patch for the witnesses of the development

    A root entity with a name, the identity transform and a unit cuboid, and a
    child beneath it. *)

Definition sample_vec3 : Vec3 := mkVec3 0 0 0.
Definition sample_unit3 : PositiveVec3 := mkPositiveVec3 f32_one f32_one f32_one.
Definition sample_transform : LocalTransform :=
  mkLocalTransform sample_vec3 (mkQuaternion 0 0 0 f32_one) sample_unit3.
Definition sample_name : bytes := bytes_of_string "room".

Definition sample_operations : list SceneOperation :=
  [ OpCreate (mkCreate 1 [CName (mkName sample_name); CLocalTransform sample_transform]);
    OpCreate (mkCreate 2 [CPrimitive (mkPrimitive Cuboid sample_unit3)]);
    OpReparent (mkReparent 2 (Some 1)) ].

Definition sample_patch : ScenePatch :=
  mkPatch schema_v1 7 8 0 RequireExactBase MustApply patch_budget_default sample_operations.

Lemma patch_validate_spec_witness : patch_admissible sample_patch runtime_limits_default.
Proof.
  apply (patch_validate_spec sample_patch runtime_limits_default);
    [reflexivity|reflexivity|discriminate|reflexivity|reflexivity|vm_compute; reflexivity].
Defined.

Lemma sample_patch_typed : typed_patch sample_patch.
Proof.
  assert (∀ b, (b <? 4294967296) && f32_is_finite b && negb (b =? f32_neg_zero) = true →
    f32_normal_form b) as Hf.
  { intros b. rewrite !andb_true_iff, negb_true_iff, N.eqb_neq, N.ltb_lt.
    intros [[? ?] ?]. split_and!; done. }
  assert (∀ t, forallb (λ b, negb (bool_decide (b = x00))) t = true → x00 ∉ t) as Ht.
  { intros t. rewrite forallb_forall. intros H Hin. apply list_elem_of_In in Hin.
    specialize (H _ Hin). by rewrite bool_decide_true in H. }
  unfold typed_patch, sample_patch. cbn.
  repeat first [ apply Forall_cons; split | apply Forall_nil; done | split
    | by apply Hf | by apply Ht | done | (unfold u128_max; lia) ].
Qed.
