(* ===== verification/Imagination.v ===== *)
(** * Imaginations

    [cogniform-protocol/src/imagination.rs]: the semantic request the compiler
    turns into one scene patch, with its declared budget, relations,
    preconditions and validation. *)

From S2P Require Import Prelude Machine Ordering Floats Values Components Messages.

Open Scope N_scope.

Record ImaginationBudget := mkImaginationBudget {
  ib_max_entities : N;
  ib_max_relations : N;
  ib_max_constraints : N;
  ib_patch : PatchBudget;
}.

Definition imagination_budget_default : ImaginationBudget := {|
  ib_max_entities := 64;
  ib_max_relations := 128;
  ib_max_constraints := 64;
  ib_patch := patch_budget_default;
|}.

Record ImaginedEntity := mkImagined {
  ie_key : SceneText;
  ie_preferred_id : option StableEntityId;
  ie_name : option SceneText;
  ie_primitive : PrimitiveComponent;
  ie_transform : option LocalTransform;
  ie_material : option MaterialComponent;
}.

Inductive ImaginationRelation : Type :=
| RelParent (child parent : SceneText)
| RelAbove (subject anchor : SceneText) (clearance : f32)
| RelRightOf (subject anchor : SceneText) (gap : f32).

Inductive ImaginationConstraint : Type :=
| EntityExists (entity_id : StableEntityId)
| EntityAbsent (entity_id : StableEntityId).

Record ImaginationEnvelope := mkImagination {
  im_schema_version : SchemaVersion;
  im_imagination_id : ImaginationId;
  im_transaction_id : TransactionId;
  im_idempotency_key : IdempotencyKey;
  im_base_revision : SceneRevision;
  im_delivery : DeliverySemantic;
  im_seed : N;
  im_declared_budget : ImaginationBudget;
  im_entities : list ImaginedEntity;
  im_relations : list ImaginationRelation;
  im_constraints : list ImaginationConstraint;
}.

(** [count] and [text_len]. *)
Definition count (length_ : nat) : N := len_or_max u32_max length_.
Definition text_len (t : SceneText) : N := len_or_max u64_max (length t).

(** [u32::saturating_mul] and [u64::saturating_mul], by width. *)
Definition sat_mul (max a b : N) : N := N.min max (a * b).

(** The two keys of a relation. *)
Definition relation_keys (r : ImaginationRelation) : SceneText * SceneText :=
  match r with
  | RelParent child parent => (child, parent)
  | RelAbove subject anchor _ | RelRightOf subject anchor _ => (subject, anchor)
  end.

(** [ImaginationRelation::text_bytes]. *)
Definition relation_text_bytes (r : ImaginationRelation) : N :=
  sat_add64 (text_len (relation_keys r).1) (text_len (relation_keys r).2).

(** [ImaginationRelation::logical_size_bytes]. *)
Definition relation_logical_size_bytes (r : ImaginationRelation) : N :=
  let scalar := match r with RelParent _ _ => 0 | RelAbove _ _ _ | RelRightOf _ _ _ => 4 end in
  sat_add64 (sat_add64 (sat_add64 1 8) (relation_text_bytes r)) scalar.

(** [ImaginationRelation::adds_patch_operation]. *)
Definition adds_patch_operation (r : ImaginationRelation) : bool :=
  match r with RelParent _ _ => true | _ => false end.

(** [ImaginationEnvelope::validate_collection_limits]. *)
Definition validate_collection_limits (im : ImaginationEnvelope) (limits : RuntimeLimits)
    : outcome ValidationError unit :=
  let budget := im_declared_budget im in
  let entity_count := count (length (im_entities im)) in
  do! guard_err (entity_count =? 0) (mkValidationError EmptyImagination "entities") then
  do! guard_err ((ib_max_entities budget <? entity_count)
                 || (max_imagination_entities limits <? entity_count)
                 || (max_imagination_entities limits <? ib_max_entities budget))
    (mkValidationError ImaginationEntityLimitExceeded "entities") then
  let relation_count := count (length (im_relations im)) in
  do! guard_err ((ib_max_relations budget <? relation_count)
                 || (max_imagination_relations limits <? relation_count)
                 || (max_imagination_relations limits <? ib_max_relations budget))
    (mkValidationError ImaginationRelationLimitExceeded "relations") then
  let constraint_count := count (length (im_constraints im)) in
  guard_err ((ib_max_constraints budget <? constraint_count)
             || (max_imagination_constraints limits <? constraint_count)
             || (max_imagination_constraints limits <? ib_max_constraints budget))
    (mkValidationError ImaginationConstraintLimitExceeded "constraints").

(** [validate_patch_budget]. *)
Definition validate_patch_budget (budget : PatchBudget) (limits : RuntimeLimits)
    : outcome ValidationError unit :=
  do! guard_err (max_operations limits <? pb_max_operations budget)
    (mkValidationError OperationLimitExceeded "declared_budget.patch.max_operations") then
  do! guard_err (max_components limits <? pb_max_components budget)
    (mkValidationError ComponentLimitExceeded "declared_budget.patch.max_components") then
  do! guard_err (max_text_bytes limits <? pb_max_text_bytes budget)
    (mkValidationError TextLimitExceeded "declared_budget.patch.max_text_bytes") then
  guard_err (max_decoded_bytes limits <? pb_max_decoded_bytes budget)
    (mkValidationError DecodedSizeLimitExceeded "declared_budget.patch.max_decoded_bytes").

(** [ImaginationEnvelope::normalized_patch_size_bytes]. *)
Definition normalized_patch_size_bytes (im : ImaginationEnvelope) : N :=
  let PATCH_FIXED_BYTES := 2 + 16 + 16 + 8 + 1 + 24 + 4 in
  let CREATE_FIXED_BYTES := 1 + 16 + 4 in
  let TRANSFORM_COMPONENT_BYTES := 1 + (10 * 4) in
  let PRIMITIVE_COMPONENT_BYTES := 1 + 1 + (3 * 4) in
  let MATERIAL_COMPONENT_BYTES := 1 + (6 * 4) in
  let REPARENT_OPERATION_BYTES := 1 + 16 + 1 + 16 in
  let creates := foldl (λ total e,
      let name := default (ie_key e) (ie_name e) in
      sat_add64 (sat_add64 (sat_add64 (sat_add64 (sat_add64 total CREATE_FIXED_BYTES)
        (1 + 4 + text_len name)) TRANSFORM_COMPONENT_BYTES) PRIMITIVE_COMPONENT_BYTES)
        MATERIAL_COMPONENT_BYTES) 0 (im_entities im) in
  let reparents := sat_mul u64_max (count (length (filter adds_patch_operation (im_relations im))))
    REPARENT_OPERATION_BYTES in
  sat_add64 (sat_add64 (sat_add64 PATCH_FIXED_BYTES (delivery_logical_size_bytes (im_delivery im))) creates)
    reparents.

(** One turn of the entity loop of [validate_entities_and_output]; the state is
    [(keys, text_bytes, output_text_bytes)]. *)
Definition validate_imagined_entity (acc : list SceneText * N * N) (e : ImaginedEntity)
    : outcome ValidationError (list SceneText * N * N) :=
  let '(keys, text_bytes, output_text_bytes) := acc in
  do! guard_err (bool_decide (ie_key e ∈ keys))
    (mkValidationError DuplicateImaginationEntity "entities[].key") then
  do! component_validate (CPrimitive (ie_primitive e)) then
  do! match ie_transform e with Some t => component_validate (CLocalTransform t) | None => Ok tt end then
  do! match ie_material e with Some m => component_validate (CMaterial m) | None => Ok tt end then
  let text_bytes := sat_add64 text_bytes (text_len (ie_key e)) in
  Ok match ie_name e with
     | Some name =>
         (ie_key e :: keys, sat_add64 text_bytes (text_len name), sat_add64 output_text_bytes (text_len name))
     | None => (ie_key e :: keys, text_bytes, sat_add64 output_text_bytes (text_len (ie_key e)))
     end.

(** [ImaginationEnvelope::validate_entities_and_output]. *)
Definition validate_entities_and_output (im : ImaginationEnvelope) (limits : RuntimeLimits)
    : outcome ValidationError unit :=
  let budget := ib_patch (im_declared_budget im) in
  let entity_count := count (length (im_entities im)) in
  let text_bytes := len_or_max u64_max (delivery_text_bytes (im_delivery im)) in
  let! (keys, text_bytes, output_text_bytes) :=
    out_fold validate_imagined_entity ([], text_bytes, text_bytes) (im_entities im) in
  let text_bytes := foldl (λ total r, sat_add64 total (relation_text_bytes r)) text_bytes (im_relations im) in
  do! guard_err (max_text_bytes limits <? text_bytes)
    (mkValidationError TextLimitExceeded "imagination.text") then
  do! guard_err (pb_max_text_bytes budget <? output_text_bytes)
    (mkValidationError TextLimitExceeded "declared_budget.patch.max_text_bytes") then
  let output_operations := sat_add u32_max entity_count
    (count (length (filter adds_patch_operation (im_relations im)))) in
  do! guard_err ((pb_max_operations budget <? output_operations)
                 || (max_operations limits <? output_operations))
    (mkValidationError OperationLimitExceeded "declared_budget.patch.max_operations") then
  let output_components := sat_mul u32_max entity_count 4 in
  do! guard_err ((max_components_per_entity limits <? 4)
                 || (pb_max_components budget <? output_components)
                 || (max_components limits <? output_components))
    (mkValidationError ComponentLimitExceeded "declared_budget.patch.max_components") then
  guard_err (pb_max_decoded_bytes budget <? normalized_patch_size_bytes im)
    (mkValidationError DecodedSizeLimitExceeded "declared_budget.patch.max_decoded_bytes").

(** [ImaginationEnvelope::logical_size_bytes]. *)
Definition imagination_logical_size_bytes (im : ImaginationEnvelope) : N :=
  let entities := foldl (λ total e,
      sat_add64 (sat_add64 (sat_add64 (sat_add64 (sat_add64 (sat_add64 (sat_add64 total 16)
        (text_len (ie_key e))) (default 0 (text_len <$> ie_name e)))
        (1 + is_some_u64 (ie_preferred_id e) * 16)) (1 + (3 * 4)))
        (1 + is_some_u64 (ie_transform e) * (10 * 4))) (1 + is_some_u64 (ie_material e) * (6 * 4)))
    0 (im_entities im) in
  let relations := foldl (λ total r, sat_add64 total (relation_logical_size_bytes r)) 0 (im_relations im) in
  sat_add64 (sat_add64 (sat_add64 (sat_add64 (sat_add64 (sat_add64 (sat_add64 (sat_add64 2 (16 * 3)) (8 * 2))
    (delivery_logical_size_bytes (im_delivery im))) 40) (4 * 3)) entities) relations)
    (count (length (im_constraints im)) * 17).

(** [<ImaginationEnvelope as Validate>::validate]. *)
Definition imagination_validate (im : ImaginationEnvelope) (limits : RuntimeLimits)
    : outcome ValidationError unit :=
  do! validate_schema (im_schema_version im) then
  do! validate_collection_limits im limits then
  do! validate_patch_budget (ib_patch (im_declared_budget im)) limits then
  do! validate_entities_and_output im limits then
  guard_err (max_decoded_bytes limits <? imagination_logical_size_bytes im)
    (mkValidationError DecodedSizeLimitExceeded "imagination").
