(* ===== verification/ImaginationSpec.v ===== *)
(** * What imagination validation admits

    The admitted imaginations described with exact sums, and the proof that
    validation accepts exactly those. *)

From S2P Require Import Prelude Machine Ordering Floats Values Components Messages MessageSpec Imagination.

Open Scope N_scope.

Definition text_size (t : SceneText) : N := N.of_nat (length t).

Definition imagined_text (e : ImaginedEntity) : N :=
  text_size (ie_key e) + default 0 (text_size <$> ie_name e).

Definition imagined_name (e : ImaginedEntity) : SceneText := default (ie_key e) (ie_name e).

Definition relation_text (r : ImaginationRelation) : N :=
  text_size (relation_keys r).1 + text_size (relation_keys r).2.

Definition relation_size (r : ImaginationRelation) : N :=
  9 + relation_text r + match r with RelParent _ _ => 0 | _ => 4 end.

Definition imagined_size (e : ImaginedEntity) : N :=
  32 + text_size (ie_key e) + default 0 (text_size <$> ie_name e) + is_some_u64 (ie_preferred_id e) * 16
  + is_some_u64 (ie_transform e) * 40 + is_some_u64 (ie_material e) * 24.

Definition delivery_text (d : DeliverySemantic) : N := N.of_nat (delivery_text_bytes d).

Definition imagination_text (im : ImaginationEnvelope) : N :=
  delivery_text (im_delivery im) + sumN imagined_text (im_entities im) + sumN relation_text (im_relations im).

Definition output_text (im : ImaginationEnvelope) : N :=
  delivery_text (im_delivery im) + sumN (λ e, text_size (imagined_name e)) (im_entities im).

Definition parent_count (im : ImaginationEnvelope) : nat := length (filter adds_patch_operation (im_relations im)).

(** The logical size of the patch an imagination normalises to. *)
Definition output_size (im : ImaginationEnvelope) : N :=
  71 + delivery_size (im_delivery im) + sumN (λ e, 106 + text_size (imagined_name e)) (im_entities im)
  + 34 * N.of_nat (parent_count im).

Definition imagination_size (im : ImaginationEnvelope) : N :=
  118 + delivery_size (im_delivery im) + sumN imagined_size (im_entities im) + sumN relation_size (im_relations im)
  + 17 * N.of_nat (length (im_constraints im)).

Definition imagined_admissible (e : ImaginedEntity) : Prop :=
  match ie_transform e with Some t => component_admissible (CLocalTransform t) | None => True end.

Record imagination_admissible (im : ImaginationEnvelope) (limits : RuntimeLimits) : Prop := {
  ia_schema : im_schema_version im = schema_v1;
  ia_entities : im_entities im ≠ [];
  ia_entity_count : within (N.of_nat (length (im_entities im)))
    (ib_max_entities (im_declared_budget im)) (max_imagination_entities limits);
  ia_relation_count : within (N.of_nat (length (im_relations im)))
    (ib_max_relations (im_declared_budget im)) (max_imagination_relations limits);
  ia_constraint_count : within (N.of_nat (length (im_constraints im)))
    (ib_max_constraints (im_declared_budget im)) (max_imagination_constraints limits);
  ia_keys : NoDup (ie_key <$> im_entities im);
  ia_valid : Forall imagined_admissible (im_entities im);
  ia_text : imagination_text im ≤ max_text_bytes limits;
  ia_operations : within (N.of_nat (length (im_entities im) + parent_count im))
    (pb_max_operations (ib_patch (im_declared_budget im))) (max_operations limits);
  ia_per_entity : 4 ≤ max_components_per_entity limits;
  ia_components : within (4 * N.of_nat (length (im_entities im)))
    (pb_max_components (ib_patch (im_declared_budget im))) (max_components limits);
  ia_output_text : within (output_text im)
    (pb_max_text_bytes (ib_patch (im_declared_budget im))) (max_text_bytes limits);
  ia_output_size : within (output_size im)
    (pb_max_decoded_bytes (ib_patch (im_declared_budget im))) (max_decoded_bytes limits);
  ia_size : imagination_size im ≤ max_decoded_bytes limits;
}.

(** Limits below the maximum of their type, where saturation cannot hide an
    excess. *)
Record roomy (limits : RuntimeLimits) : Prop := {
  rm_operations : max_operations limits < u32_max;
  rm_components : max_components limits < u32_max;
  rm_per_entity : max_components_per_entity limits < u32_max;
  rm_text : max_text_bytes limits < u64_max;
  rm_decoded : max_decoded_bytes limits < u64_max;
  rm_entities : max_imagination_entities limits < u32_max;
  rm_relations : max_imagination_relations limits < u32_max;
  rm_constraints : max_imagination_constraints limits < u32_max;
}.

(** ** Saturated sizes *)

Lemma text_len_sat t : text_len t = N.min u64_max (text_size t).
Proof. apply len_or_max_min. Qed.

Lemma count_sat n : count n = N.min u32_max (N.of_nat n).
Proof. apply len_or_max_min. Qed.

Lemma relation_text_sat r : relation_text_bytes r = N.min u64_max (relation_text r).
Proof. unfold relation_text_bytes, relation_text. rewrite !text_len_sat. unfold sat_add64, sat_add. lia. Qed.

Lemma relation_size_sat r : relation_logical_size_bytes r = N.min u64_max (relation_size r).
Proof.
  unfold relation_logical_size_bytes, relation_size. rewrite relation_text_sat. unfold sat_add64, sat_add, u64_max.
  destruct r; lia.
Qed.

(** A fold that adds a term per element, written with several additions. *)
Lemma sat_fold_step {A} (step : N → A → N) (g : A → N) (l : list A) a :
  (∀ t x, step (N.min u64_max t) x = N.min u64_max (t + g x)) →
  foldl step (N.min u64_max a) l = N.min u64_max (a + sumN g l).
Proof.
  intros Hs. revert a. induction l as [|x l IH]; intros a; cbn [foldl sumN foldr]; [f_equal; lia|].
  rewrite Hs, IH. f_equal. unfold sumN. lia.
Qed.

Lemma normalized_size_sat im : N.of_nat (parent_count im) ≤ u32_max → normalized_patch_size_bytes im = N.min u64_max (output_size im).
Proof.
  intros Hn. unfold normalized_patch_size_bytes. cbv zeta.
  rewrite (sat_fold_step _ (λ e, 106 + text_size (imagined_name e)) (im_entities im) 0).
  2:{ intros t e. fold (imagined_name e). rewrite text_len_sat. unfold sat_add64, sat_add, u64_max. lia. }
  unfold output_size. fold (parent_count im). rewrite delivery_size_sat, count_sat. unfold sat_add64, sat_add, sat_mul.
  unfold u64_max, u32_max in *. lia.
Qed.

Lemma imagination_size_sat im : N.of_nat (length (im_constraints im)) ≤ u32_max → imagination_logical_size_bytes im = N.min u64_max (imagination_size im).
Proof.
  intros Hn. unfold imagination_logical_size_bytes. cbv zeta.
  rewrite (sat_fold_step _ imagined_size (im_entities im) 0).
  2:{ intros t e. unfold imagined_size. rewrite text_len_sat.
      assert (default 0 (text_len <$> ie_name e) = N.min u64_max (default 0 (text_size <$> ie_name e))) as ->
        by (destruct (ie_name e); cbn; [apply text_len_sat|done]).
      change (10 * 4) with 40. change (6 * 4) with 24. change (1 + 3 * 4) with 13.
      unfold sat_add64, sat_add. generalize (is_some_u64 (ie_preferred_id e) * 16), (is_some_u64 (ie_transform e) * 40),
        (is_some_u64 (ie_material e) * 24). unfold u64_max. lia. }
  rewrite (sat_fold_step _ relation_size (im_relations im) 0).
  2:{ intros t r. rewrite relation_size_sat. unfold sat_add64, sat_add. lia. }
  unfold imagination_size. rewrite delivery_size_sat, count_sat. unfold sat_add64, sat_add, u64_max, u32_max in *. lia.
Qed.

(** ** The entity scan *)

Lemma entity_scan_ok (es : list ImaginedEntity) keys t o acc :
  out_fold validate_imagined_entity (keys, N.min u64_max t, N.min u64_max o) es = Ok acc ↔
  (NoDup (ie_key <$> es) ∧ (∀ k, k ∈ ie_key <$> es → k ∉ keys) ∧ Forall imagined_admissible es) ∧
  acc = (rev (ie_key <$> es) ++ keys, N.min u64_max (t + sumN imagined_text es),
         N.min u64_max (o + sumN (λ e, text_size (imagined_name e)) es)).
Proof.
  revert keys t o. induction es as [|e es IH]; intros keys t o.
  { cbn [out_fold]. unfold sumN. cbn. rewrite !N.add_0_r. split.
    - intros <-%Ok_inj. split; [|done]. split_and!; [constructor|set_solver|constructor].
    - by intros [_ ->]. }
  cbn [out_fold]. rewrite out_bind_ok.
  transitivity ((ie_key e ∉ keys) ∧ imagined_admissible e ∧
    out_fold validate_imagined_entity (ie_key e :: keys, N.min u64_max (t + imagined_text e),
      N.min u64_max (o + text_size (imagined_name e))) es = Ok acc).
  - assert (∀ r, validate_imagined_entity (keys, N.min u64_max t, N.min u64_max o) e = Ok r ↔
      (ie_key e ∉ keys) ∧ imagined_admissible e ∧
      r = (ie_key e :: keys, N.min u64_max (t + imagined_text e), N.min u64_max (o + text_size (imagined_name e)))) as Hstep.
    { intros r. unfold validate_imagined_entity, imagined_admissible.
      case_bool_decide as Hk; cbn [guard_err out_bind]; [naive_solver|].
      change (component_validate (CPrimitive (ie_primitive e))) with (@Ok ValidationError unit tt). cbn [out_bind].
      assert (∀ x, match ie_material e with Some m => component_validate (CMaterial m) | None => Ok tt end = x → x = Ok tt)
        as Hm by (intros x <-; by destruct (ie_material e)).
      rewrite (Hm _ eq_refl).
      assert ((match ie_name e with
         | Some name => (ie_key e :: keys, sat_add64 (sat_add64 (N.min u64_max t) (text_len (ie_key e))) (text_len name),
             sat_add64 (N.min u64_max o) (text_len name))
         | None => (ie_key e :: keys, sat_add64 (N.min u64_max t) (text_len (ie_key e)),
             sat_add64 (N.min u64_max o) (text_len (ie_key e)))
         end) = (ie_key e :: keys, N.min u64_max (t + imagined_text e), N.min u64_max (o + text_size (imagined_name e)))) as Hr.
      { unfold imagined_text, imagined_name. destruct (ie_name e); cbn; rewrite !text_len_sat; unfold sat_add64, sat_add;
          apply pair_eq; (split; [apply pair_eq; split; [done|lia]|lia]). }
      destruct (ie_transform e) as [tr|].
      - cbv zeta. rewrite out_bind_ok. split.
        + intros ([] & Hv%component_validate_ok & Hok). cbn [out_bind] in Hok. apply Ok_inj in Hok. rewrite <-Hok. auto.
        + intros (_ & Hv%component_validate_ok & ->). exists tt. split; [done|]. cbn [out_bind]. by rewrite Hr.
      - cbn [out_bind]. cbv zeta. rewrite Hr. split; [intros <-%Ok_inj; done|by intros (_ & _ & ->)]. }
    split.
    + intros (r & Hr%Hstep & Hrest). by destruct Hr as (? & ? & ->).
    + intros (? & ? & Hrest). eexists. split; [by apply Hstep|done].
  - rewrite IH. rewrite !fmap_cons, NoDup_cons, Forall_cons. cbn [rev].
    assert (∀ f : ImaginedEntity → N, sumN f (e :: es) = f e + sumN f es) as Hsum by done.
    rewrite !Hsum, <-!app_assoc, !N.add_assoc. cbn [app]. setoid_rewrite elem_of_cons.
    split; [intros (? & ? & (? & Hd & ?) & ->)|intros [((? & ?) & Hd & ? & ?) ->]]; naive_solver.
Qed.

(** ** Validation *)

Lemma count_guard n b l e :
  l < u32_max →
  guard_err ((b <? count n) || (l <? count n) || (l <? b)) e = @Ok ValidationError _ tt ↔ within (N.of_nat n) b l.
Proof. intros Hl. apply guard_ok, (within_guard _ _ _ _ u32_max); [done|apply count_sat]. Qed.

Lemma collection_limits_ok im limits : roomy limits →
  validate_collection_limits im limits = Ok tt ↔
  im_entities im ≠ [] ∧
  within (N.of_nat (length (im_entities im))) (ib_max_entities (im_declared_budget im)) (max_imagination_entities limits) ∧
  within (N.of_nat (length (im_relations im))) (ib_max_relations (im_declared_budget im)) (max_imagination_relations limits) ∧
  within (N.of_nat (length (im_constraints im))) (ib_max_constraints (im_declared_budget im)) (max_imagination_constraints limits).
Proof.
  intros Hr. unfold validate_collection_limits. cbv zeta. apply seq_ok.
  { apply guard_ok. rewrite count_sat. destruct (im_entities im); cbn [length].
    - split; [done|by intros []].
    - split; [done|intros _]. apply N.eqb_neq. unfold u32_max. lia. }
  apply seq_ok; [apply count_guard, Hr|]. apply seq_ok; [apply count_guard, Hr|apply count_guard, Hr].
Qed.

Lemma patch_budget_ok b limits :
  validate_patch_budget b limits = Ok tt ↔
  pb_max_operations b ≤ max_operations limits ∧ pb_max_components b ≤ max_components limits ∧
  pb_max_text_bytes b ≤ max_text_bytes limits ∧ pb_max_decoded_bytes b ≤ max_decoded_bytes limits.
Proof.
  unfold validate_patch_budget.
  repeat (apply seq_ok; [apply guard_ok, N.ltb_ge|]). apply guard_ok, N.ltb_ge.
Qed.

Lemma entities_and_output_ok im limits :
  roomy limits → N.of_nat (length (im_entities im)) ≤ max_imagination_entities limits →
  N.of_nat (parent_count im) ≤ max_imagination_relations limits →
  validate_patch_budget (ib_patch (im_declared_budget im)) limits = Ok tt →
  validate_entities_and_output im limits = Ok tt ↔
  (NoDup (ie_key <$> im_entities im) ∧ Forall imagined_admissible (im_entities im)) ∧
  imagination_text im ≤ max_text_bytes limits ∧
  output_text im ≤ pb_max_text_bytes (ib_patch (im_declared_budget im)) ∧
  N.of_nat (length (im_entities im) + parent_count im) ≤ pb_max_operations (ib_patch (im_declared_budget im)) ∧
  (4 ≤ max_components_per_entity limits ∧
   4 * N.of_nat (length (im_entities im)) ≤ pb_max_components (ib_patch (im_declared_budget im))) ∧
  output_size im ≤ pb_max_decoded_bytes (ib_patch (im_declared_budget im)).
Proof.
  intros Hr He Hp (Ho & Hc & Ht & Hd)%patch_budget_ok. unfold validate_entities_and_output. cbv zeta.
  rewrite out_bind_ok, len_or_max_min. setoid_rewrite (entity_scan_ok (im_entities im) []).
  set (budget := ib_patch (im_declared_budget im)) in *.
  destruct Hr as [R1 R2 R3 R4 R5 R6 R7 R8].
  transitivity ((NoDup (ie_key <$> im_entities im) ∧ Forall imagined_admissible (im_entities im)) ∧
    (do! guard_err (max_text_bytes limits <? N.min u64_max (imagination_text im))
       (mkValidationError TextLimitExceeded "imagination.text") then
     do! guard_err (pb_max_text_bytes budget <? N.min u64_max (output_text im))
       (mkValidationError TextLimitExceeded "declared_budget.patch.max_text_bytes") then
     do! guard_err ((pb_max_operations budget <? sat_add u32_max (count (length (im_entities im))) (count (parent_count im)))
                    || (max_operations limits <? sat_add u32_max (count (length (im_entities im))) (count (parent_count im))))
       (mkValidationError OperationLimitExceeded "declared_budget.patch.max_operations") then
     do! guard_err ((max_components_per_entity limits <? 4)
                    || (pb_max_components budget <? sat_mul u32_max (count (length (im_entities im))) 4)
                    || (max_components limits <? sat_mul u32_max (count (length (im_entities im))) 4))
       (mkValidationError ComponentLimitExceeded "declared_budget.patch.max_components") then
     guard_err (pb_max_decoded_bytes budget <? normalized_patch_size_bytes im)
       (mkValidationError DecodedSizeLimitExceeded "declared_budget.patch.max_decoded_bytes")) = Ok tt).
  { unfold parent_count. split.
    - intros ([[ks t] o] & [(Hnd & _ & Hf) E] & Hrest). injection E as -> -> ->.
      rewrite (sat_fold_sum u64_max relation_text_bytes relation_text) in Hrest by apply relation_text_sat.
      unfold output_text, imagination_text, delivery_text. auto.
    - intros ((Hnd & Hf) & Hrest). eexists. split; [split; [split_and!; [done|set_solver|done]|reflexivity]|].
      cbn beta iota. rewrite (sat_fold_sum u64_max relation_text_bytes relation_text) by apply relation_text_sat.
      exact Hrest. }
  apply and_iff_compat_l. rewrite normalized_size_sat by lia. rewrite !count_sat. unfold sat_add, sat_mul.
  apply seq_ok; [apply guard_ok; rewrite N.ltb_ge; lia|].
  apply seq_ok; [apply guard_ok; rewrite N.ltb_ge; lia|].
  apply seq_ok; [apply guard_ok; rewrite orb_false_iff, !N.ltb_ge; lia|].
  apply seq_ok; [apply guard_ok; rewrite !orb_false_iff, !N.ltb_ge; lia|].
  apply guard_ok. rewrite N.ltb_ge. lia.
Qed.

(** Validation accepts exactly the admissible imaginations. *)
Lemma imagination_validate_iff im limits :
  roomy limits → imagination_validate im limits = Ok tt ↔ imagination_admissible im limits.
Proof.
  intros Hr. unfold imagination_validate.
  assert (N.of_nat (parent_count im) ≤ N.of_nat (length (im_relations im))) as Hpc.
  { pose proof (length_filter adds_patch_operation (im_relations im)) as Hf. unfold parent_count. lia. }
  split.
  - intros ([] & Hs%validate_schema_ok & Hv)%out_bind_ok.
    apply out_bind_ok in Hv as ([] & (Hne & He & Hrel & Hc)%collection_limits_ok & Hv); [|done].
    apply out_bind_ok in Hv as ([] & Hb & Hv). pose proof Hb as (B1 & B2 & B3 & B4)%patch_budget_ok.
    apply out_bind_ok in Hv as ([] & Ho & Hv). destruct He as [? ?], Hrel as [? ?], Hc as [? ?].
    apply entities_and_output_ok in Ho as ((? & ?) & ? & ? & ? & (? & ?) & ?); [|done|lia|lia|done].
    apply guard_err_ok, N.ltb_ge in Hv. rewrite imagination_size_sat in Hv by (pose proof (rm_constraints _ Hr); lia).
    pose proof (rm_decoded _ Hr). split; unfold within; try done; lia.
  - intros [Hs Hne [? ?] [? ?] [? ?] Hk Hv Ht [? ?] Hpe [? ?] [? ?] [? ?] Hz].
    apply out_bind_ok. exists tt. split; [by apply validate_schema_ok|].
    apply out_bind_ok. exists tt. split; [apply collection_limits_ok; unfold within; done|].
    assert (validate_patch_budget (ib_patch (im_declared_budget im)) limits = Ok tt) as Hb by by apply patch_budget_ok.
    apply out_bind_ok. exists tt. split; [done|].
    apply out_bind_ok. exists tt. split; [apply entities_and_output_ok; try done; lia|].
    apply guard_err_ok, N.ltb_ge. rewrite imagination_size_sat by (pose proof (rm_constraints _ Hr); lia). lia.
Qed.

Lemma imagination_validate_normal im limits : normal (imagination_validate im limits).
Proof.
  unfold imagination_validate, validate_schema, validate_collection_limits, validate_patch_budget, validate_entities_and_output.
  assert (∀ acc es, normal (out_fold validate_imagined_entity acc es)) as Hscan.
  { intros acc es. apply (out_fold_normal _ (λ _, True)); [|done..]. intros e [[ks t] o] _ _. unfold validate_imagined_entity.
    apply out_bind_normal; [apply guard_err_normal|]. intros _ _.
    apply out_bind_normal; [apply component_validate_normal|]. intros _ _.
    apply out_bind_normal; [destruct (ie_transform e); [apply component_validate_normal|done]|]. intros _ _.
    apply out_bind_normal; [destruct (ie_material e); [apply component_validate_normal|done]|done]. }
  cbv zeta. repeat (apply out_bind_normal; [|intros ? _]).
  all: try apply guard_err_normal; try apply Hscan.
  all: repeat (apply out_bind_normal; [apply guard_err_normal|intros _ _]); try apply guard_err_normal.
  destruct a2 as [[ks t] o].
  repeat (apply out_bind_normal; [apply guard_err_normal|intros _ _]); apply guard_err_normal.
Qed.
