(* ===== verification/Ecs.v ===== *)
(** * The entity store behind the world

    [AuthoritativeWorld] keeps component values in a [hecs::World], a
    third-party entity store that this development does not model in detail.
    [EntityStore] states the documented behaviour the source relies on, the
    world's theorems are proved against it, and [SlotStore] is a concrete store
    (slots with generations and a free list, as [hecs] hands out handles) that
    satisfies it. *)

From S2P Require Import Prelude Machine Floats Values Components.

Open Scope N_scope.

(** ** Rows: the typed columns of one entity

    One optional column per Rust component type: the private [StoredStableId]
    marker and the seven public components. *)
Record Row := mkRow {
  row_stable_id : option StableEntityId;
  row_name : option NameComponent;
  row_local_transform : option LocalTransform;
  row_primitive : option PrimitiveComponent;
  row_material : option MaterialComponent;
  row_camera : option CameraComponent;
  row_light : option LightComponent;
  row_asset_mesh : option AssetMeshComponent;
}.

Definition row_empty : Row := mkRow None None None None None None None None.

(** [EntityBuilder::add(StoredStableId(id))]. *)
Definition row_add_marker (r : Row) (id : StableEntityId) : Row :=
  mkRow (Some id) (row_name r) (row_local_transform r) (row_primitive r) (row_material r)
    (row_camera r) (row_light r) (row_asset_mesh r).

(** Writing one component column, replacing any previous value. *)
Definition row_insert (r : Row) (c : ComponentValue) : Row :=
  match r with
  | mkRow i n t p m ca l a =>
      match c with
      | CName v => mkRow i (Some v) t p m ca l a
      | CLocalTransform v => mkRow i n (Some v) p m ca l a
      | CPrimitive v => mkRow i n t (Some v) m ca l a
      | CMaterial v => mkRow i n t p (Some v) ca l a
      | CCamera v => mkRow i n t p m (Some v) l a
      | CLight v => mkRow i n t p m ca (Some v) a
      | CAssetMesh v => mkRow i n t p m ca l (Some v)
      end
  end.

(** Reading one component column. *)
Definition row_get (r : Row) (k : ComponentKind) : option ComponentValue :=
  match k with
  | KName => CName <$> row_name r
  | KLocalTransform => CLocalTransform <$> row_local_transform r
  | KPrimitive => CPrimitive <$> row_primitive r
  | KMaterial => CMaterial <$> row_material r
  | KCamera => CCamera <$> row_camera r
  | KLight => CLight <$> row_light r
  | KAssetMesh => CAssetMesh <$> row_asset_mesh r
  end.

(** Clearing one component column. *)
Definition row_remove (r : Row) (k : ComponentKind) : Row :=
  match r with
  | mkRow i n t p m ca l a =>
      match k with
      | KName => mkRow i None t p m ca l a
      | KLocalTransform => mkRow i n None p m ca l a
      | KPrimitive => mkRow i n t None m ca l a
      | KMaterial => mkRow i n t p None ca l a
      | KCamera => mkRow i n t p m None l a
      | KLight => mkRow i n t p m ca None a
      | KAssetMesh => mkRow i n t p m ca l None
      end
  end.

Lemma row_get_insert r c k :
  row_get (row_insert r c) k = if decide (k = component_kind c) then Some c else row_get r k.
Proof. by destruct r, c, k. Qed.

Lemma row_get_remove r k' k :
  row_get (row_remove r k') k = if decide (k = k') then None else row_get r k.
Proof. by destruct r, k', k. Qed.

Lemma row_stable_id_insert r c : row_stable_id (row_insert r c) = row_stable_id r.
Proof. by destruct r, c. Qed.

Lemma row_stable_id_remove r k : row_stable_id (row_remove r k) = row_stable_id r.
Proof. by destruct r, k. Qed.

Lemma row_get_kind r k c : row_get r k = Some c → component_kind c = k.
Proof. destruct r, k; simpl; intros H; apply fmap_Some in H as (v & _ & ->); done. Qed.

(** ** The interface *)

(** Operations of the store.  [es_row] gathers what the store's [get],
    [contains] and [satisfies] observe of one handle: [None] is a handle that
    is not live.  [spawn] returns the new handle; [None] from the others is
    their [Err(NoSuchEntity)] or [Err(ComponentError)]. *)
Class EntityStore (W E : Type) := {
  es_empty : W;
  es_len : W → N;
  es_row : W → E → option Row;
  es_spawn : W → Row → E * W;
  es_despawn : W → E → option W;
  es_insert_one : W → E → ComponentValue → option W;
  es_remove_one : W → E → ComponentKind → option W;
}.

(** The documented behaviour of the store. *)
Class EntityStoreLaws (W E : Type) `{EqDecision E} `{EntityStore W E} := {
  es_row_empty : ∀ e, es_row es_empty e = None;
  es_len_empty : es_len es_empty = 0;
  es_spawn_fresh : ∀ w r e w', es_spawn w r = (e, w') → es_row w e = None;
  es_spawn_row : ∀ w r e w', es_spawn w r = (e, w') →
    ∀ e', es_row w' e' = if decide (e = e') then Some r else es_row w e';
  es_spawn_len : ∀ w r e w', es_spawn w r = (e, w') → es_len w' = es_len w + 1;
  es_despawn_live : ∀ w e r, es_row w e = Some r →
    ∃ w', es_despawn w e = Some w' ∧ es_len w = es_len w' + 1 ∧
      ∀ e', es_row w' e' = if decide (e = e') then None else es_row w e';
  es_insert_live : ∀ w e r c, es_row w e = Some r →
    ∃ w', es_insert_one w e c = Some w' ∧ es_len w' = es_len w ∧
      ∀ e', es_row w' e' = if decide (e = e') then Some (row_insert r c) else es_row w e';
  es_remove_live : ∀ w e r k, es_row w e = Some r → is_Some (row_get r k) →
    ∃ w', es_remove_one w e k = Some w' ∧ es_len w' = es_len w ∧
      ∀ e', es_row w' e' = if decide (e = e') then Some (row_remove r k) else es_row w e';
}.

(** ** A concrete store

    A handle pairs a slot with the generation of its slot.  Despawning bumps the
    slot's generation and spawning takes a slot that is not live, so a recycled
    slot gets a handle different from the despawned one. *)
Module SlotStore.

Record store := mkStore {
  rows : gmap (N * N) Row;
  generations : gmap N N;
}.

Definition empty : store := mkStore ∅ ∅.

Definition live_slots (s : store) : gset N := set_map fst (dom (rows s)).

Definition spawn (s : store) (r : Row) : (N * N) * store :=
  let slot := fresh (live_slots s) in
  let handle := (slot, default 0 (generations s !! slot)) in
  (handle, mkStore (<[handle := r]> (rows s)) (generations s)).

Definition despawn (s : store) (h : N * N) : option store :=
  match rows s !! h with
  | Some _ => Some (mkStore (delete h (rows s)) (<[h.1 := h.2 + 1]> (generations s)))
  | None => None
  end.

Definition insert_one (s : store) (h : N * N) (c : ComponentValue) : option store :=
  r ← rows s !! h; Some (mkStore (<[h := row_insert r c]> (rows s)) (generations s)).

Definition remove_one (s : store) (h : N * N) (k : ComponentKind) : option store :=
  r ← rows s !! h;
  _ ← row_get r k;
  Some (mkStore (<[h := row_remove r k]> (rows s)) (generations s)).

#[export] Instance slot_store : EntityStore store (N * N) := {
  es_empty := empty;
  es_len s := N.of_nat (size (rows s));
  es_row s h := rows s !! h;
  es_spawn := spawn;
  es_despawn := despawn;
  es_insert_one := insert_one;
  es_remove_one := remove_one;
}.

Lemma spawn_fresh s g : rows s !! (fresh (live_slots s), g) = None.
Proof.
  apply not_elem_of_dom. intros H.
  apply (is_fresh (live_slots s)). unfold live_slots at 2. apply elem_of_map.
  exists (fresh (live_slots s), g). done.
Qed.

Lemma lookup_update (m : gmap (N * N) Row) h h' (o : option Row) :
  (partial_alter (λ _, o) h m) !! h' = if decide (h = h') then o else m !! h'.
Proof. rewrite lookup_partial_alter. by repeat case_decide. Qed.

#[export] Instance slot_store_laws : EntityStoreLaws store (N * N).
Proof.
  split; simpl.
  - done.
  - done.
  - intros s r e s' [= <- <-]. apply spawn_fresh.
  - intros s r e s' [= <- <-] e'. apply (lookup_update _ _ _ (Some r)).
  - intros s r e s' [= <- <-]. simpl. rewrite map_size_insert_None by apply spawn_fresh. lia.
  - intros s h r Hr. unfold despawn. rewrite Hr. eexists. split; [done|]. simpl. split.
    + rewrite map_size_delete_Some by eauto.
      assert (size (rows s) ≠ 0%nat); [|lia].
      intros Hz%map_size_empty_inv. by rewrite Hz in Hr.
    + intros h'. apply (lookup_update _ _ _ None).
  - intros s h r c Hr. unfold insert_one. rewrite Hr. eexists. split; [done|]. simpl. split.
    + by rewrite map_size_insert_Some by eauto.
    + intros h'. apply (lookup_update _ _ _ (Some _)).
  - intros s h r k Hr [c Hc]. unfold remove_one. rewrite Hr. simpl. rewrite Hc. eexists.
    split; [done|]. simpl. split.
    + by rewrite map_size_insert_Some by eauto.
    + intros h'. apply (lookup_update _ _ _ (Some _)).
Qed.

End SlotStore.
