(* ===== verification/WorldTypes.v ===== *)
(** * Types of the authoritative world

    [cogniform-world/src/error.rs], the configuration of [world.rs] and the
    derived transforms of [transform.rs]. *)

From S2P Require Import Prelude Machine Floats Values Components Messages.

Open Scope N_scope.

(** ** Configuration *)

Record WorldConfig := mkWorldConfig {
  runtime_limits : RuntimeLimits;
  max_entities : N;
  max_idempotency_records : N;
  max_pending_render_changes : N;
  max_hierarchy_depth : N;
}.

Definition world_config_default : WorldConfig := {|
  runtime_limits := runtime_limits_default;
  max_entities := 65536;
  max_idempotency_records := 4096;
  max_pending_render_changes := 65536;
  max_hierarchy_depth := 256;
|}.

(** The four capacities are [NonZeroU32]. *)
Definition typed_config (c : WorldConfig) : Prop :=
  typed_limits (runtime_limits c) ∧
  0 < max_entities c ≤ u32_max ∧ 0 < max_idempotency_records c ≤ u32_max ∧
  0 < max_pending_render_changes c ≤ u32_max ∧ 0 < max_hierarchy_depth c ≤ u32_max.

(** ** Errors *)

Inductive WorldInvariantErrorKind : Type :=
| EntityCountMismatch
| MissingStorageEntity
| StableIdMismatch
| WorldTransformMissing
| WorldTransformOrphan
| HierarchyEntityMissing
| HierarchyIndexMismatch
| HierarchyTopologyInvalid.

Record WorldInvariantError := mkInvariantError {
  wie_kind : WorldInvariantErrorKind;
  wie_entity : option StableEntityId;
}.

Inductive WorldApplyError : Type :=
| InvalidPatch (error : ValidationError)
| BaseRevisionMismatch (current supplied : SceneRevision)
| WorldRevisionOverflow
| IdempotencyKeyConflict (idempotency_key : IdempotencyKey)
    (recorded_transaction supplied_transaction : TransactionId)
| IdempotencyCapacityExceeded (limit : N)
| EntityCapacityExceeded (operation_index : N) (entity_id : StableEntityId) (limit : N)
| EntityAlreadyExists (operation_index : N) (entity_id : StableEntityId)
| EntityNotFound (operation_index : N) (entity_id : StableEntityId)
| ComponentNotFound (operation_index : N) (entity_id : StableEntityId) (component : ComponentKind)
| HierarchyParentNotFound (entity_id parent_id : StableEntityId)
| HierarchyCycle (entity_id : StableEntityId)
| HierarchyDepthExceeded (entity_id : StableEntityId) (depth limit : N)
| TransformOverflow (entity_id : StableEntityId)
| TransformGenerationOverflow
| RenderExtractionCapacityExceeded (limit : N)
| RenderExtractionGenerationOverflow
| UnsupportedOperation (operation_index : N) (entity_id : StableEntityId)
| InvariantViolation (error : WorldInvariantError).

(** ** Derived transforms *)

(** A column-major matrix of sixteen [f64] values and the propagation
    generation that computed it. *)
Record WorldTransform := mkWorldTransform {
  wt_matrix : list f64;
  wt_generation : N;
}.

Definition identity_matrix : list f64 :=
  [ f64_one; f64_zero; f64_zero; f64_zero;
    f64_zero; f64_one; f64_zero; f64_zero;
    f64_zero; f64_zero; f64_one; f64_zero;
    f64_zero; f64_zero; f64_zero; f64_one ].

Definition transform_identity (generation : N) : WorldTransform :=
  mkWorldTransform identity_matrix generation.

(** The rotation-scale-translation matrix of a local transform whose
    quaternion has been scaled by [inverse_norm]. *)
Definition local_matrix (local : LocalTransform) (inverse_norm : f64) : list f64 :=
  let x := f64_mul (f64_of_f32 (q_x (lt_rotation local))) inverse_norm in
  let y := f64_mul (f64_of_f32 (q_y (lt_rotation local))) inverse_norm in
  let z := f64_mul (f64_of_f32 (q_z (lt_rotation local))) inverse_norm in
  let w := f64_mul (f64_of_f32 (q_w (lt_rotation local))) inverse_norm in
  let sx := f64_of_f32 (pv3_x (lt_scale local)) in
  let sy := f64_of_f32 (pv3_y (lt_scale local)) in
  let sz := f64_of_f32 (pv3_z (lt_scale local)) in
  let mul := f64_mul in let add := f64_add in let sub := f64_sub in
  [ mul (sub f64_one (mul f64_two (add (mul y y) (mul z z)))) sx;
    mul (mul f64_two (add (mul x y) (mul z w))) sx;
    mul (mul f64_two (sub (mul x z) (mul y w))) sx;
    f64_zero;
    mul (mul f64_two (sub (mul x y) (mul z w))) sy;
    mul (sub f64_one (mul f64_two (add (mul x x) (mul z z)))) sy;
    mul (mul f64_two (add (mul y z) (mul x w))) sy;
    f64_zero;
    mul (mul f64_two (add (mul x z) (mul y w))) sz;
    mul (mul f64_two (sub (mul y z) (mul x w))) sz;
    mul (sub f64_one (mul f64_two (add (mul x x) (mul y y)))) sz;
    f64_zero;
    f64_of_f32 (v3_x (lt_translation local));
    f64_of_f32 (v3_y (lt_translation local));
    f64_of_f32 (v3_z (lt_translation local));
    f64_one ].

(** [(x * x + y * y + z * z + w * w).sqrt().recip()]. *)
Definition quaternion_inverse_norm (q : Quaternion) : f64 :=
  let x := f64_of_f32 (q_x q) in let y := f64_of_f32 (q_y q) in
  let z := f64_of_f32 (q_z q) in let w := f64_of_f32 (q_w q) in
  f64_recip (f64_sqrt (f64_add (f64_add (f64_add (f64_mul x x) (f64_mul y y)) (f64_mul z z)) (f64_mul w w))).

(** [WorldTransform::from_local]. *)
Definition from_local (local : option LocalTransform) (generation : N) : option WorldTransform :=
  match local with
  | None => Some (transform_identity generation)
  | Some local =>
      let inverse_norm := quaternion_inverse_norm (lt_rotation local) in
      if negb (f64_is_finite inverse_norm) then None
      else
        let matrix := local_matrix local inverse_norm in
        if forallb f64_is_finite matrix then Some (mkWorldTransform matrix generation) else None
  end.

Definition matrix_at (m : list f64) (i : nat) : f64 := nth i m f64_zero.

(** Element [row] of column [column] of a matrix product. *)
Definition product_entry (a b : list f64) (column row : nat) : f64 :=
  foldl (λ sum index, f64_add sum (f64_mul (matrix_at a (index * 4 + row)) (matrix_at b (column * 4 + index))))
    f64_zero [0; 1; 2; 3]%nat.

Definition matrix_indices : list (nat * nat) :=
  column ← [0; 1; 2; 3]%nat; row ← [0; 1; 2; 3]%nat; [(column, row)].

(** [WorldTransform::compose]: the first non-finite element ends the loops. *)
Definition compose (self local : WorldTransform) (generation : N) : option WorldTransform :=
  matrix ← mapM (λ ix, let value := product_entry (wt_matrix self) (wt_matrix local) ix.1 ix.2 in
                       if negb (f64_is_finite value) then None else Some value) matrix_indices;
  Some (mkWorldTransform matrix generation).

(** ** Finite matrices *)

Definition finite_matrix (m : list f64) : Prop :=
  length m = 16%nat ∧ forallb f64_is_finite m = true.

Lemma from_local_finite local g t : from_local local g = Some t → finite_matrix (wt_matrix t).
Proof.
  unfold from_local. destruct local as [l|]; [|by intros [= <-]].
  case_match; [done|]. case_match eqn:F; [|done]. intros [= <-]. split; [done|exact F].
Qed.

Lemma compose_finite a b g t : compose a b g = Some t → finite_matrix (wt_matrix t).
Proof.
  unfold compose. intros (m & Hm & [= <-])%bind_Some. apply mapM_Some in Hm.
  cbn [wt_matrix]. split.
  - by apply Forall2_length in Hm as <-.
  - apply forallb_forall. intros v Hv%list_elem_of_In.
    apply list_elem_of_lookup in Hv as [i Hi].
    destruct (Forall2_lookup_r _ _ _ _ _ Hm Hi) as (ix & _ & E). simpl in E.
    destruct (f64_is_finite _) eqn:F; simpl in E; by simplify_eq.
Qed.

(** The computed matrices do not depend on the generation they are stamped
    with. *)
Lemma from_local_matrix local g g' :
  wt_matrix <$> from_local local g = wt_matrix <$> from_local local g'.
Proof. unfold from_local. destruct local; [|done]. by repeat case_match. Qed.

Lemma from_local_generation local g t : from_local local g = Some t → wt_generation t = g.
Proof.
  unfold from_local. destruct local; [|by intros [= <-]].
  case_match; [done|]. case_match; [|done]. by intros [= <-].
Qed.

Lemma compose_matrix a b a' b' g g' :
  wt_matrix a = wt_matrix a' → wt_matrix b = wt_matrix b' →
  wt_matrix <$> compose a b g = wt_matrix <$> compose a' b' g'.
Proof.
  intros Ha Hb. unfold compose. rewrite Ha, Hb.
  by destruct (mapM _ matrix_indices).
Qed.
