(* ===== verification/Hierarchy.v ===== *)
(** * Parent hierarchies

    The free functions at the end of [cogniform-world/src/world.rs]:
    [hierarchy_depths] validates a parent map and measures every entity,
    [affected_entities] lists the entities below a set of dirty ones with
    parents before children.  Both loop over caller-supplied graphs, so each
    has a fuel bound and a proof that the bound is never reached. *)

From S2P Require Import Prelude Machine BTree Values Components Messages WorldTypes.

Open Scope N_scope.

Abbreviation parent_map := (gmap N N).
Abbreviation child_map := (gmap N (gset N)).

(** ** Operations *)

(** [assign_path_depths]; [path] lists the last pushed entity first, which is
    the order of [path.iter().rev()]. *)
Definition assign_path_depths (depths : gmap N N) (path : list N) (base_depth max_depth : N)
    : outcome WorldApplyError (gmap N N) :=
  let! acc := out_fold (λ acc entity_id,
      let '(depths, depth) := acc in
      let! depth := ok_or (checked_add u32_max depth 1)
        (HierarchyDepthExceeded entity_id u32_max max_depth) in
      do! guard_err (max_depth <? depth) (HierarchyDepthExceeded entity_id depth max_depth) then
      Ok (<[entity_id := depth]> depths, depth))
    (depths, base_depth) path in
  Ok acc.1.

(** The inner [loop] of [hierarchy_depths]. *)
Fixpoint climb (fuel : nat) (parents : parent_map) (max_depth : N) (depths : gmap N N)
    (path : list N) (visiting : gset N) (current : N) : outcome WorldApplyError (gmap N N) :=
  match fuel with
  | O => OutOfFuel
  | S fuel =>
      match depths !! current with
      | Some known_depth => assign_path_depths depths path known_depth max_depth
      | None =>
          let '(inserted, visiting) := bset_insert current visiting in
          if negb inserted then Err (HierarchyCycle current)
          else
            let path := current :: path in
            match parents !! current with
            | Some parent_id => climb fuel parents max_depth depths path visiting parent_id
            | None =>
                match path with
                | [] => Panic
                | root :: path => assign_path_depths (<[root := 0]> depths) path 0 max_depth
                end
            end
      end
  end.

(** Distinct entities on one upward path, plus the repeat that reveals a cycle. *)
Definition climb_fuel (parents : parent_map) : nat := S (S (size parents)).

(** [hierarchy_depths]. *)
Definition hierarchy_depths (live_ids : gset N) (parents : parent_map) (max_depth : N)
    : outcome WorldApplyError (gmap N N) :=
  do! out_fold (λ _ edge,
        guard_err (negb (bool_decide (edge.1 ∈ live_ids)) || negb (bool_decide (edge.2 ∈ live_ids)))
          (HierarchyParentNotFound edge.1 edge.2))
      tt (btree_iter parents) then
  out_fold (λ depths start,
      match depths !! start with
      | Some _ => Ok depths
      | None => climb (climb_fuel parents) parents max_depth depths [] ∅ start
      end) ∅ (bset_iter live_ids).

(** The filter of [affected_entities]: no proper ancestor is dirty. *)
Fixpoint is_topmost (fuel : nat) (parents : parent_map) (dirty_roots : gset N) (current : N)
    : outcome WorldApplyError bool :=
  match fuel with
  | O => OutOfFuel
  | S fuel =>
      match parents !! current with
      | Some parent_id =>
          if bool_decide (parent_id ∈ dirty_roots) then Ok false
          else is_topmost fuel parents dirty_roots parent_id
      | None => Ok true
      end
  end.

(** [dirty_roots.iter().filter(..)]. *)
Fixpoint filter_topmost (parents : parent_map) (dirty_roots : gset N) (ids : list N)
    : outcome WorldApplyError (list N) :=
  match ids with
  | [] => Ok []
  | id :: ids =>
      let! keep := is_topmost (S (size parents)) parents dirty_roots id in
      let! rest := filter_topmost parents dirty_roots ids in
      Ok (if keep then id :: rest else rest)
  end.

(** The depth-first worklist; [pending] lists the top of the stack first, so
    extending with [descendants.iter().rev()] puts the smallest child on top. *)
Fixpoint collect_affected (fuel : nat) (children : child_map) (seen : gset N)
    (pending affected : list N) : outcome WorldApplyError (list N) :=
  match fuel with
  | O => OutOfFuel
  | S fuel =>
      match pending with
      | [] => Ok affected
      | entity_id :: pending =>
          let '(inserted, seen) := bset_insert entity_id seen in
          if negb inserted then collect_affected fuel children seen pending affected
          else
            let affected := affected ++ [entity_id] in
            match children !! entity_id with
            | Some descendants =>
                collect_affected fuel children seen (bset_iter descendants ++ pending) affected
            | None => collect_affected fuel children seen pending affected
            end
      end
  end.

Definition child_count (children : child_map) : nat :=
  map_fold (λ _ s n, size s + n)%nat 0%nat children.

(** [affected_entities]. *)
Definition affected_entities (parents : parent_map) (children : child_map) (dirty_roots : gset N)
    : outcome WorldApplyError (list N) :=
  let! roots := filter_topmost parents dirty_roots (bset_iter dirty_roots) in
  collect_affected (S (length roots + child_count children)) children ∅ roots [].

(** The child index rebuilt from a parent map in [complete_preflight]. *)
Definition rebuild_children (parents : parent_map) : child_map :=
  foldl (λ children edge, <[edge.2 := {[edge.1]} ∪ default ∅ (children !! edge.2)]> children)
    ∅ (btree_iter parents).

(** ** Depths *)

(** [has_depth parents x d]: following parents from [x] reaches a root after
    exactly [d] edges. *)
Inductive has_depth (parents : parent_map) : N → N → Prop :=
| depth_root x : parents !! x = None → has_depth parents x 0
| depth_child x p d : parents !! x = Some p → has_depth parents p d → has_depth parents x (d + 1).

Lemma has_depth_unique parents x d d' : has_depth parents x d → has_depth parents x d' → d = d'.
Proof.
  intros H. revert d'. induction H as [x E|x p d E _ IH]; intros d' H'; inversion H' as [|? p' ? E']; subst;
    [done|congruence|congruence|].
  rewrite E in E'. simplify_eq. f_equal. by apply IH.
Qed.

Lemma has_depth_parent parents x p d :
  parents !! x = Some p → has_depth parents x d → ∃ d', d = d' + 1 ∧ has_depth parents p d'.
Proof. intros E H. inversion H as [|? p' d' E']; subst; [congruence|]. rewrite E in E'. simplify_eq. eauto. Qed.

Lemma has_depth_no_self parents x d : has_depth parents x d → parents !! x ≠ Some x.
Proof.
  intros H E. destruct (has_depth_parent _ _ _ _ E H) as (d' & -> & H').
  pose proof (has_depth_unique _ _ _ _ H H'). lia.
Qed.

(** An entity's depth is at most the number of edges. *)
Lemma has_depth_size parents x d : has_depth parents x d → (N.to_nat d ≤ size parents)%nat.
Proof.
  intros H.
  cut (∃ S : gset N, S ⊆ dom parents ∧ size S = N.to_nat d ∧
    ∀ y, y ∈ S → ∃ dy, dy ≤ d ∧ has_depth parents y dy).
  { intros (S & HS & <- & _). apply subseteq_size in HS. by rewrite size_dom in HS. }
  induction H as [x E|x p d E Hp (S & HS & Hsz & Hd)].
  - exists ∅. split_and!; set_solver.
  - exists ({[x]} ∪ S). assert (has_depth parents x (d + 1)) as Hx by (econstructor; eauto).
    assert (x ∉ S).
    { intros Hin. destruct (Hd _ Hin) as (dy & Hle & Hy).
      pose proof (has_depth_unique _ _ _ _ Hx Hy). lia. }
    split_and!.
    + apply union_subseteq. split; [|done]. apply singleton_subseteq_l, elem_of_dom. eauto.
    + rewrite size_union, size_singleton by set_solver. lia.
    + intros y [->%elem_of_singleton|Hy]%elem_of_union; [exists (d + 1); split; [lia|done]|].
      destruct (Hd _ Hy) as (dy & ? & ?). exists dy. split; [lia|done].
Qed.

(** ** Correctness of [hierarchy_depths] *)

(** A valid hierarchy: edges join live entities and every live entity reaches a
    root within [max_depth] edges. *)
Definition valid_hierarchy (live_ids : gset N) (parents : parent_map) (max_depth : N) : Prop :=
  (∀ c p, parents !! c = Some p → c ∈ live_ids ∧ p ∈ live_ids) ∧
  (∀ x, x ∈ live_ids → ∃ d, d ≤ max_depth ∧ has_depth parents x d).

Section depths.
Context (parents : parent_map) (max_depth : N) (Hmax : max_depth ≤ u32_max).

(** Recorded depths are right and within the bound. *)
Definition sound (depths : gmap N N) : Prop :=
  ∀ x d, depths !! x = Some d → has_depth parents x d ∧ d ≤ max_depth.

(** [path] climbs to [current] one parent at a time. *)
Fixpoint chain (path : list N) (current : N) : Prop :=
  match path with
  | [] => True
  | x :: path => parents !! x = Some current ∧ chain path x
  end.

Lemma assign_path_ok depths path base current depths' :
  sound depths → chain path current → has_depth parents current base → base ≤ max_depth →
  assign_path_depths depths path base max_depth = Ok depths' →
  sound depths' ∧ dom depths' = list_to_set path ∪ dom depths.
Proof.
  revert depths base current. induction path as [|x path IH]; intros depths base current Hs Hc Hd Hb.
  - intros H. unfold assign_path_depths in H. simpl in H. inv_ok. subst. set_solver.
  - destruct Hc as [Hx Hc]. unfold assign_path_depths. cbn [out_fold]. intros H. inv_ok.
    rename select (checked_add _ _ _ = _) into Ha. rename select ((_ <? _) = _) into Hlt. subst.
    apply checked_add_Some in Ha as [-> Ha]. apply N.ltb_ge in Hlt.
    assert (has_depth parents x (base + 1)) as Hdx by (econstructor; eauto).
    destruct (IH (<[x := base + 1]> depths) (base + 1) x) as [Hs' Hdom]; [|done..| |].
    + intros y d. rewrite lookup_insert_Some.
      intros [[<- <-]|[_ ?]]; [done|by apply Hs].
    + unfold assign_path_depths. rename select (out_fold _ _ _ = _) into Hf. rewrite Hf. done.
    + split; [done|]. rewrite Hdom, dom_insert_L. set_solver.
Qed.

Lemma assign_path_total depths path base current :
  chain path current → has_depth parents current base → base ≤ max_depth →
  (∀ x, x ∈ path → ∃ d, d ≤ max_depth ∧ has_depth parents x d) →
  is_ok (assign_path_depths depths path base max_depth) = true.
Proof.
  revert depths base current. induction path as [|x path IH]; intros depths base current Hc Hd Hb Hp; [done|].
  destruct Hc as [Hx Hc]. assert (has_depth parents x (base + 1)) as Hdx by (econstructor; eauto).
  destruct (Hp x ltac:(set_solver)) as (d & Hle & Hd').
  pose proof (has_depth_unique _ _ _ _ Hdx Hd') as <-.
  unfold assign_path_depths. cbn [out_fold].
  rewrite (proj2 (checked_add_Some u32_max base 1 (base + 1))) by lia. simpl.
  rewrite (proj2 (N.ltb_ge max_depth (base + 1))) by done. simpl.
  eapply (IH (<[x := base + 1]> depths)); eauto. intros y Hy. apply Hp. set_solver.
Qed.

Lemma assign_path_normal depths path base : normal (assign_path_depths depths path base max_depth).
Proof.
  unfold assign_path_depths. apply out_bind_normal; [|done].
  apply (out_fold_normal _ (λ _, True)); [|done..].
  intros x [? ?] _ _. apply out_bind_normal; [apply ok_or_normal|]. intros.
  apply out_bind_normal; [apply guard_err_normal|done].
Qed.

Lemma climb_ok fuel depths path visiting current depths' :
  sound depths → chain path current →
  climb fuel parents max_depth depths path visiting current = Ok depths' →
  sound depths' ∧ dom depths ⊆ dom depths' ∧ current ∈ dom depths' ∧
  (∀ x, x ∈ path → x ∈ dom depths').
Proof.
  revert path visiting current. induction fuel as [|fuel IH]; intros path visiting current Hs Hc; [done|].
  cbn [climb]. destruct (depths !! current) as [known|] eqn:Ek.
  - intros H. destruct (Hs _ _ Ek) as [Hd Hle].
    destruct (assign_path_ok _ _ _ _ _ Hs Hc Hd Hle H) as [Hs' Hdom].
    assert (current ∈ dom depths) by (apply elem_of_dom; eauto). set_solver.
  - unfold bset_insert. cbv beta iota zeta. case_bool_decide as Hin0; cbn [negb]; [done|].
    destruct (parents !! current) as [p|] eqn:Ep.
    + intros H. destruct (IH (current :: path) ({[current]} ∪ visiting) p) as (? & ? & ? & Hin);
        [done|done|done|]. split_and!; [done..|apply Hin; set_solver|]. intros x Hx. apply Hin. set_solver.
    + intros H. assert (has_depth parents current 0) as Hd by (by constructor).
      assert (sound (<[current := 0]> depths)) as Hs0.
      { intros y d. rewrite lookup_insert_Some. intros [[<- <-]|[_ ?]]; [split; [done|lia]|by apply Hs]. }
      destruct (assign_path_ok _ _ _ _ _ Hs0 Hc Hd (N.le_0_l _) H) as [Hs' Hdom].
      rewrite dom_insert_L in Hdom. set_solver.
Qed.

(** Only the path and ancestors of [current] gain an entry. *)
Lemma climb_dom fuel depths path visiting current depths' (P : gset N) :
  sound depths → chain path current →
  (∀ c p, parents !! c = Some p → p ∈ P) → current ∈ P → list_to_set path ⊆ P → dom depths ⊆ P →
  climb fuel parents max_depth depths path visiting current = Ok depths' → dom depths' ⊆ P.
Proof.
  intros Hs. revert path visiting current.
  induction fuel as [|fuel IH]; intros path visiting current Hc Hp Hcur Hpath Hdom; [done|].
  cbn [climb]. destruct (depths !! current) as [known|] eqn:Ek.
  { intros H. destruct (Hs _ _ Ek) as [Hd Hle].
    destruct (assign_path_ok _ _ _ _ _ Hs Hc Hd Hle H) as [_ ->]. set_solver. }
  unfold bset_insert. cbv beta iota zeta. case_bool_decide as Hin0; cbn [negb]; [done|].
  destruct (parents !! current) as [p|] eqn:Ep.
  - apply IH; [done|done|eauto|set_solver|done].
  - intros H. assert (sound (<[current := 0]> depths)) as Hs0.
    { intros y d. rewrite lookup_insert_Some.
      intros [[<- <-]|[_ ?]]; [split; [by constructor|lia]|by apply Hs]. }
    destruct (assign_path_ok _ _ _ _ _ Hs0 Hc ltac:(by constructor) (N.le_0_l _) H) as [_ ->].
    rewrite dom_insert_L. set_solver.
Qed.

(** The loop ends: each continuing turn visits a new child. *)
Lemma climb_normal fuel depths path visiting current :
  (size (dom parents ∖ visiting) + 2 ≤ fuel)%nat →
  normal (climb fuel parents max_depth depths path visiting current).
Proof.
  revert path visiting current. induction fuel as [|fuel IH]; intros path visiting current Hf; [lia|].
  cbn [climb]. destruct (depths !! current); [apply assign_path_normal|].
  unfold bset_insert. cbv beta iota zeta. case_bool_decide as Hin; cbn [negb]; [done|].
  destruct (parents !! current) as [p|] eqn:Ep; [|apply assign_path_normal].
  apply IH.
  assert (size (dom parents ∖ visiting) = S (size (dom parents ∖ ({[current]} ∪ visiting)))) as Hsz; [|lia].
  assert (current ∈ dom parents) by (apply elem_of_dom; eauto).
  replace (dom parents ∖ visiting) with ({[current]} ∪ (dom parents ∖ ({[current]} ∪ visiting))).
  - rewrite size_union, size_singleton by set_solver. done.
  - apply set_eq. intros y. destruct (decide (y = current)); set_solver.
Qed.

(** On a valid hierarchy the climb never reports an error. *)
Lemma climb_total fuel depths path visiting current d :
  sound depths → chain path current → has_depth parents current d → d ≤ max_depth →
  (∀ x, x ∈ path → ∃ d, d ≤ max_depth ∧ has_depth parents x d) →
  (∀ y dy, y ∈ visiting → has_depth parents y dy → d < dy) →
  (N.to_nat d < fuel)%nat →
  is_ok (climb fuel parents max_depth depths path visiting current) = true.
Proof.
  revert path visiting current d.
  induction fuel as [|fuel IH]; intros path visiting current d Hs Hc Hd Hle Hp Hv Hf; [lia|].
  cbn [climb]. destruct (depths !! current) as [known|] eqn:Ek.
  { destruct (Hs _ _ Ek). by eapply assign_path_total. }
  unfold bset_insert. cbv beta iota zeta. case_bool_decide as Hin; cbn [negb].
  { specialize (Hv _ _ Hin Hd). lia. }
  destruct (parents !! current) as [p|] eqn:Ep.
  - destruct (has_depth_parent _ _ _ _ Ep Hd) as (d' & -> & Hd').
    apply (IH _ _ _ d'); [done|done|done|lia| | |lia].
    + intros x [->|Hx]%elem_of_cons; [exists (d' + 1); done|auto].
    + intros y dy [->%elem_of_singleton|Hy]%elem_of_union Hdy.
      * pose proof (has_depth_unique _ _ _ _ Hd Hdy). lia.
      * specialize (Hv _ _ Hy Hdy). lia.
  - eapply assign_path_total; [done|by constructor|lia|done].
Qed.

End depths.

Lemma sound_empty parents max_depth : sound parents max_depth ∅.
Proof. intros x d. by rewrite lookup_empty. Qed.

Lemma edges_checked_ok (live_ids : gset N) (parents : parent_map) u :
  out_fold (λ _ edge,
      guard_err (negb (bool_decide (edge.1 ∈ live_ids)) || negb (bool_decide (edge.2 ∈ live_ids)))
        (HierarchyParentNotFound edge.1 edge.2))
    tt (btree_iter parents) = Ok u ↔
  ∀ c p, parents !! c = Some p → c ∈ live_ids ∧ p ∈ live_ids.
Proof.
  transitivity (Forall (λ edge : N * N, edge.1 ∈ live_ids ∧ edge.2 ∈ live_ids) (btree_iter parents)).
  - destruct u. induction (btree_iter parents) as [|[c p] l IH]; [by repeat constructor|].
    cbn [out_fold]. rewrite Forall_cons, <-IH. cbn [fst snd].
    repeat case_bool_decide; cbn; naive_solver.
  - rewrite Forall_forall. split.
    + intros H c p Hc. apply (H (c, p)). by apply elem_of_btree_iter.
    + intros H [c p] Hc%elem_of_btree_iter. by apply H.
Qed.

Lemma depths_scan_ok parents max_depth ids depths depths' :
  max_depth ≤ u32_max → sound parents max_depth depths →
  out_fold (λ depths start,
      match depths !! start with
      | Some _ => Ok depths
      | None => climb (climb_fuel parents) parents max_depth depths [] ∅ start
      end) depths ids = Ok depths' →
  sound parents max_depth depths' ∧ dom depths ⊆ dom depths' ∧ (∀ x, x ∈ ids → x ∈ dom depths') ∧
  (∀ P : gset N, (∀ c p, parents !! c = Some p → p ∈ P) → list_to_set ids ⊆ P → dom depths ⊆ P →
    dom depths' ⊆ P).
Proof.
  intros Hmax. revert depths. induction ids as [|x ids IH]; intros depths Hs; cbn [out_fold].
  { intros H. inv_ok. subst. set_solver. }
  intros H. apply out_bind_ok in H as (depths1 & H1 & H).
  assert (sound parents max_depth depths1 ∧ dom depths ⊆ dom depths1 ∧ x ∈ dom depths1 ∧
    (∀ P : gset N, (∀ c p, parents !! c = Some p → p ∈ P) → x ∈ P → dom depths ⊆ P → dom depths1 ⊆ P))
    as (? & ? & ? & HP).
  { destruct (depths !! x) as [d|] eqn:E.
    - inv_ok. subst. split_and!; [done..| |set_solver]. apply elem_of_dom. eauto.
    - destruct (climb_ok parents max_depth Hmax _ depths [] ∅ x depths1 Hs I H1) as (? & ? & ? & _). split_and!; [done..|].
      intros P ? ? ?. eapply (climb_dom parents max_depth Hmax _ depths []); eauto; set_solver. }
  destruct (IH depths1 ltac:(done) H) as (? & ? & Hin & HP').
  split_and!; [done|set_solver| |].
  - intros y [->|Hy]%elem_of_cons; [set_solver|auto].
  - intros P Hc Hids Hdom. apply HP'; [done|set_solver|]. apply HP; set_solver.
Qed.

Lemma depths_scan_total parents max_depth ids depths :
  max_depth ≤ u32_max → sound parents max_depth depths →
  (∀ x, x ∈ ids → ∃ d, d ≤ max_depth ∧ has_depth parents x d) →
  is_ok (out_fold (λ depths start,
      match depths !! start with
      | Some _ => Ok depths
      | None => climb (climb_fuel parents) parents max_depth depths [] ∅ start
      end) depths ids) = true.
Proof.
  intros Hmax. revert depths. induction ids as [|x ids IH]; intros depths Hs Hp; [done|].
  cbn [out_fold].
  destruct (match depths !! x with Some _ => Ok depths | None => _ end) as [depths1|e| |] eqn:E; cbn.
  { apply IH; [|set_solver]. destruct (depths !! x); [by inv_ok; subst|].
    by eapply climb_ok in E as (? & _). }
  all: exfalso; destruct (depths !! x); [done|].
  all: destruct (Hp x ltac:(set_solver)) as (d & Hle & Hd).
  all: assert (is_ok (climb (climb_fuel parents) parents max_depth depths [] ∅ x) = true) as Hok;
    [|by rewrite E in Hok].
  all: eapply climb_total; eauto; try set_solver;
    pose proof (has_depth_size _ _ _ Hd); unfold climb_fuel; lia.
Qed.

(** Totality and the exact domain of success, for use by the world. *)
Lemma hierarchy_depths_normal live_ids parents max_depth :
  max_depth ≤ u32_max → normal (hierarchy_depths live_ids parents max_depth).
Proof.
  intros Hmax. unfold hierarchy_depths. apply out_bind_normal.
  - apply (out_fold_normal _ (λ _, True)); [|done..]. intros. apply guard_err_normal.
  - intros _ _. apply (out_fold_normal _ (λ _, True)); [|done..]. intros x depths _ _.
    destruct (depths !! x); [done|]. apply climb_normal; [done|]. unfold climb_fuel.
    pose proof (subseteq_size (dom parents ∖ (∅ : gset N)) (dom parents) ltac:(set_solver)) as Hz.
    rewrite size_dom in Hz. lia.
Qed.

Lemma hierarchy_depths_ok_iff live_ids parents max_depth :
  max_depth ≤ u32_max →
  is_ok (hierarchy_depths live_ids parents max_depth) = true ↔
  valid_hierarchy live_ids parents max_depth.
Proof.
  intros Hmax. unfold hierarchy_depths. split.
  - destruct (out_bind _ _) as [depths|e| |] eqn:H; [intros _|done..].
    apply out_bind_ok in H as ([] & He & H). rewrite edges_checked_ok in He.
    destruct (depths_scan_ok _ _ _ _ _ Hmax (sound_empty _ _) H) as (Hs & _ & Hin).
    split; [done|]. intros x Hx%elem_of_bset_iter%Hin%elem_of_dom.
    destruct Hx as [d Hd]. destruct (Hs _ _ Hd). eauto.
  - intros [He Hd]. destruct (out_fold _ tt _) as [[]|e| |] eqn:H;
      [|exfalso; rewrite <-(edges_checked_ok _ _ tt) in He; congruence..].
    apply depths_scan_total; [done|apply sound_empty|]. intros x. rewrite elem_of_bset_iter. apply Hd.
Qed.

(** Over live edges without cycles only the depth bound is ever exceeded. *)
Lemma assign_path_error depths path base max_depth e :
  assign_path_depths depths path base max_depth = Err e → ∃ x d, e = HierarchyDepthExceeded x d max_depth.
Proof.
  unfold assign_path_depths. revert depths base. induction path as [|x path IH]; intros depths base; cbn [out_fold]; [done|].
  destruct (checked_add u32_max base 1) as [d|]; cbn [ok_or out_bind]; [|intros [= <-]; eauto].
  destruct (max_depth <? d); cbn [guard_err out_bind]; [intros [= <-]; eauto|apply IH].
Qed.

Lemma climb_error fuel parents max_depth depths path visiting current d e :
  has_depth parents current d → (∀ y dy, y ∈ visiting → has_depth parents y dy → d < dy) →
  climb fuel parents max_depth depths path visiting current = Err e → ∃ x dx, e = HierarchyDepthExceeded x dx max_depth.
Proof.
  revert path visiting current d. induction fuel as [|fuel IH]; intros path visiting current d Hd Hv; [done|].
  cbn [climb]. destruct (depths !! current); [apply assign_path_error|].
  unfold bset_insert. cbv beta iota zeta. case_bool_decide as Hin; cbn [negb].
  { specialize (Hv _ _ Hin Hd). lia. }
  destruct (parents !! current) as [p|] eqn:Ep; [|apply assign_path_error].
  destruct (has_depth_parent _ _ _ _ Ep Hd) as (d' & -> & Hd'). apply (IH _ _ _ d' Hd').
  intros y dy [->%elem_of_singleton|Hy]%elem_of_union Hdy.
  - pose proof (has_depth_unique _ _ _ _ Hd Hdy). lia.
  - specialize (Hv _ _ Hy Hdy). lia.
Qed.

Lemma hierarchy_depths_error live_ids parents max_depth e :
  (∀ c p, parents !! c = Some p → c ∈ live_ids ∧ p ∈ live_ids) → (∀ x, ∃ d, has_depth parents x d) →
  hierarchy_depths live_ids parents max_depth = Err e → ∃ x d, e = HierarchyDepthExceeded x d max_depth.
Proof.
  intros He Hd. unfold hierarchy_depths. rewrite (proj2 (edges_checked_ok live_ids parents tt) He). cbn [out_bind].
  generalize (∅ : gmap N N) as depths. induction (bset_iter live_ids) as [|x ids IH]; intros depths; cbn [out_fold]; [done|].
  destruct (depths !! x); cbn [out_bind]; [apply IH|].
  destruct (climb _ _ _ _ _ _ _) as [depths'|e'| |] eqn:Hc; cbn [out_bind]; [apply IH| |done..].
  intros [= <-]. destruct (Hd x) as [d Hx]. eapply climb_error; [exact Hx| |exact Hc]. intros y dy Hy. by apply elem_of_empty in Hy.
Qed.

(** The depths returned are the lengths of the parent chains. *)
Lemma hierarchy_depths_measure (live_ids : gset N) (parents : parent_map) (max_depth : N) depths :
  max_depth ≤ u32_max → hierarchy_depths live_ids parents max_depth = Ok depths →
  ∀ x d, depths !! x = Some d ↔ x ∈ live_ids ∧ has_depth parents x d.
Proof.
  intros Hmax H. unfold hierarchy_depths in H.
  apply out_bind_ok in H as (u & He & H). rewrite edges_checked_ok in He.
  destruct (depths_scan_ok _ _ _ _ _ Hmax (sound_empty _ _) H) as (Hs & _ & Hin & HP).
  intros x d. split.
  - intros Hx. destruct (Hs _ _ Hx). split; [|done].
    assert (dom depths ⊆ live_ids) as Hsub; [|apply Hsub, elem_of_dom; eauto].
    apply HP; [by intros ? ? []%He| |set_solver].
    intros y Hy%elem_of_list_to_set%elem_of_bset_iter. done.
  - intros [Hx%elem_of_bset_iter%Hin%elem_of_dom Hd]. destruct Hx as [d' Hx].
    rewrite Hx. f_equal. destruct (Hs _ _ Hx). by eapply has_depth_unique.
Qed.

(** C27. [hierarchy_depths] terminates without a panic on every parent map,
    cyclic or not, and succeeds exactly on the valid hierarchies (every edge
    joins live entities, and every live entity reaches a root within the depth
    bound, hence no cycles); the depths it returns map each live entity to the
    length of its parent chain, and nothing else. *)
Theorem hierarchy_depths_exact (live_ids : gset N) (parents : parent_map) (max_depth : N) :
  max_depth ≤ u32_max →
  normal (hierarchy_depths live_ids parents max_depth) ∧
  (is_ok (hierarchy_depths live_ids parents max_depth) = true ↔ valid_hierarchy live_ids parents max_depth) ∧
  ∀ depths, hierarchy_depths live_ids parents max_depth = Ok depths →
    ∀ x d, depths !! x = Some d ↔ x ∈ live_ids ∧ has_depth parents x d.
Proof.
  intros Hmax. split_and!; [by apply hierarchy_depths_normal|by apply hierarchy_depths_ok_iff|].
  intros depths Hd. by eapply hierarchy_depths_measure.
Qed.

Lemma hierarchy_depths_exact_witness :
  valid_hierarchy {[1; 2]} {[2 := 1]} 256 ∧ 2 ∈ ({[1; 2]} : gset N) ∧ has_depth {[2 := 1]} 2 1.
Proof.
  destruct (hierarchy_depths_exact {[1; 2]} {[2 := 1]} 256) as (_ & Hok & Hm); [discriminate|]. split.
  - apply Hok. vm_compute. reflexivity.
  - apply (Hm {[1 := 0; 2 := 1]}); vm_compute; reflexivity.
Defined.

(** ** The rebuilt child index *)

Definition child_of (children : child_map) (p c : N) : Prop :=
  ∃ s, children !! p = Some s ∧ c ∈ s.

Lemma rebuild_children_fold l children p c :
  child_of (foldl (λ children edge,
      <[edge.2 := {[edge.1]} ∪ default ∅ (children !! edge.2)]> children) children l) p c ↔
  child_of children p c ∨ (c, p) ∈ l.
Proof.
  revert children. induction l as [|[c' p'] l IH]; intros children; simpl; [set_solver|].
  rewrite IH, elem_of_cons.
  assert (child_of (<[p' := {[c']} ∪ default ∅ (children !! p')]> children) p c ↔
    child_of children p c ∨ (c, p) = (c', p')) as ->; [|naive_solver].
  unfold child_of. destruct (decide (p = p')) as [->|Hne].
  - rewrite lookup_insert_eq. split.
    + intros (s & [= <-] & [->%elem_of_singleton|Hc]%elem_of_union); [by right|].
      left. destruct (children !! p'); [eauto|set_solver].
    + intros [(s & -> & Hc)|[= ->]]; eexists; (split; [done|]); set_solver.
  - rewrite lookup_insert_ne by done. naive_solver.
Qed.

(** The rebuilt index lists exactly the inverse of the parent map. *)
Lemma rebuild_children_spec parents p c :
  child_of (rebuild_children parents) p c ↔ parents !! c = Some p.
Proof.
  unfold rebuild_children. rewrite rebuild_children_fold, elem_of_btree_iter.
  split; [intros [(s & Hs & _)|?]; [by rewrite lookup_empty in Hs|done]|by right].
Qed.
