(* ===== verification/Affected.v ===== *)
(** * The entities a change affects

    Correctness of [affected_entities] from [cogniform-world/src/world.rs]: on
    an acyclic hierarchy it terminates and lists exactly the entities with a
    dirty ancestor or self, once each, every parent before its children. *)

From S2P Require Import Prelude Machine BTree Values Components Messages WorldTypes Hierarchy.

Open Scope N_scope.

(** [ancestor parents x a]: [a] is [x] or an ancestor of [x]. *)
Inductive ancestor (parents : parent_map) : N → N → Prop :=
| ancestor_self x : ancestor parents x x
| ancestor_up x p a : parents !! x = Some p → ancestor parents p a → ancestor parents x a.

Lemma ancestor_trans parents x y z : ancestor parents x y → ancestor parents y z → ancestor parents x z.
Proof. induction 1; eauto using ancestor. Qed.

(** [acyclic]: every entity reaches a root. *)
Definition acyclic (parents : parent_map) : Prop := ∀ x, ∃ d, has_depth parents x d.

Lemma valid_hierarchy_acyclic live_ids parents max_depth :
  valid_hierarchy live_ids parents max_depth → acyclic parents.
Proof.
  intros [He Hd] x. destruct (parents !! x) as [p|] eqn:E; [|exists 0; by constructor].
  destruct (He _ _ E) as [Hx _]. destruct (Hd x Hx) as (d & _ & ?). eauto.
Qed.

(** Entities with no dirty proper ancestor. *)
Definition topmost (parents : parent_map) (dirty : gset N) (x : N) : Prop :=
  ∀ p a, parents !! x = Some p → ancestor parents p a → a ∉ dirty.

Lemma is_topmost_spec parents dirty x d fuel :
  has_depth parents x d → (N.to_nat d < fuel)%nat →
  ∃ b, is_topmost fuel parents dirty x = Ok b ∧ (b = true ↔ topmost parents dirty x).
Proof.
  intros H. revert fuel. induction H as [x E|x p d E _ IH]; intros fuel Hf;
    (destruct fuel as [|fuel]; [lia|]); cbn [is_topmost]; rewrite E.
  - exists true. split; [done|]. split; [|done]. intros _ p a E'. congruence.
  - case_bool_decide as Hp.
    + exists false. split; [done|]. split; [done|]. intros Ht. exfalso.
      by apply (Ht p p E); [constructor|].
    + destruct (IH fuel ltac:(lia)) as (b & Hb & Hiff). exists b. split; [done|].
      rewrite Hiff. split.
      * intros Ht q a E' Ha. rewrite E in E'. simplify_eq.
        inversion Ha as [|? q' ? Eq Ha']; subst; [done|]. by eapply Ht.
      * intros Ht q a Eq Ha. apply (Ht p a E). by econstructor.
Qed.

Lemma filter_topmost_spec parents dirty ids :
  acyclic parents →
  ∃ roots, filter_topmost parents dirty ids = Ok roots ∧ (length roots ≤ length ids)%nat ∧
    (NoDup ids → NoDup roots) ∧ ∀ x, x ∈ roots ↔ x ∈ ids ∧ topmost parents dirty x.
Proof.
  intros Hac. induction ids as [|x ids (roots & IH & Hlen & Hnd & Hin)]; cbn [filter_topmost].
  { exists []. split_and!; [done..|set_solver]. }
  destruct (Hac x) as [d Hd].
  destruct (is_topmost_spec parents dirty x d (S (size parents)) Hd) as (b & -> & Hb).
  { pose proof (has_depth_size _ _ _ Hd). lia. }
  cbn [out_bind]. rewrite IH. cbn [out_bind].
  eexists. split; [done|]. split; [destruct b; simpl; lia|]. split.
  - rewrite NoDup_cons. intros [Hx Hids]. destruct b; [|auto].
    rewrite NoDup_cons. split; [|auto]. rewrite Hin. naive_solver.
  - intros y. destruct b; rewrite ?elem_of_cons, Hin; naive_solver.
Qed.

Lemma ancestor_depth parents x a d :
  ancestor parents x a → has_depth parents x d → ∃ da, has_depth parents a da ∧ da ≤ d.
Proof.
  intros Ha. revert d. induction Ha as [x|x p a E _ IH]; intros d Hd; [exists d; split; [done|lia]|].
  destruct (has_depth_parent _ _ _ _ E Hd) as (d' & -> & Hp).
  destruct (IH _ Hp) as (da & ? & ?). exists da. split; [done|lia].
Qed.

(** Some ancestor of a dirty entity is dirty and topmost. *)
Lemma topmost_exists parents dirty x :
  acyclic parents → x ∈ dirty → ∃ r, r ∈ dirty ∧ topmost parents dirty r ∧ ancestor parents x r.
Proof.
  intros Hac. destruct (Hac x) as [d Hd]. revert x Hd.
  induction (N.lt_wf_0 d) as [d _ IH]. intros x Hd Hx.
  destruct (is_topmost_spec parents dirty x d (S (N.to_nat d)) Hd ltac:(lia)) as (b & Hb & Hiff).
  destruct b; [exists x; split_and!; [done|by apply Hiff|constructor]|].
  assert (∃ p a, parents !! x = Some p ∧ ancestor parents p a ∧ a ∈ dirty) as (p & a & E & Hanc & Ha).
  { clear -Hb. revert x Hb. generalize (S (N.to_nat d)). intros fuel.
    induction fuel as [|fuel IH]; intros x Hb; [done|]. cbn [is_topmost] in Hb.
    destruct (parents !! x) as [p|] eqn:E; [|done]. case_bool_decide.
    - exists p, p. split_and!; [done|constructor|done].
    - destruct (IH _ Hb) as (q & a & Eq & Hq & ?). exists p, a.
      split_and!; [done|by econstructor|done]. }
  destruct (has_depth_parent _ _ _ _ E Hd) as (d' & -> & Hp).
  destruct (ancestor_depth _ _ _ _ Hanc Hp) as (da & Hda & Hle).
  destruct (IH da ltac:(lia) a Hda Ha) as (r & Hr & Ht & Har). exists r. split_and!; [done..|].
  eapply ancestor_up; [done|]. by eapply ancestor_trans.
Qed.

(** ** The worklist *)

Section worklist.
Context (parents : parent_map) (children : child_map).
Context (Hchildren : ∀ p c, child_of children p c ↔ parents !! c = Some p).

(** Children of entities not yet seen: what the worklist can still push. *)
Definition unseen_children (seen : gset N) : nat :=
  map_fold (λ p s n, (if bool_decide (p ∈ seen) then 0 else size s) + n)%nat 0%nat children.

Lemma unseen_children_step seen p s :
  p ∉ seen → children !! p = Some s →
  unseen_children seen = (size s + unseen_children ({[p]} ∪ seen))%nat.
Proof.
  intros Hp Hs. unfold unseen_children.
  rewrite <-(insert_delete_id children p s Hs).
  rewrite !map_fold_insert_L by (try apply lookup_delete_eq; intros; lia).
  rewrite bool_decide_false by done. rewrite bool_decide_true by set_solver.
  assert (∀ m : child_map, m !! p = None →
    map_fold (λ q s n, (if bool_decide (q ∈ seen) then 0 else size s) + n)%nat 0%nat m
    = map_fold (λ q s n, (if bool_decide (q ∈ {[p]} ∪ seen) then 0 else size s) + n)%nat 0%nat m) as Hext.
  { intros m. induction m as [|q t m Hq IH] using map_ind; [done|]. intros Hm.
    apply lookup_insert_None in Hm as [Hm Hne].
    rewrite !map_fold_insert_L by (try done; intros; lia). rewrite IH by done. f_equal.
    rewrite (bool_decide_ext (q ∈ seen) (q ∈ {[p]} ∪ seen)); [done|set_solver]. }
  rewrite (Hext (delete p children)) by apply lookup_delete_eq. lia.
Qed.

Lemma unseen_children_mono seen p : (unseen_children ({[p]} ∪ seen) ≤ unseen_children seen)%nat.
Proof.
  clear Hchildren. unfold unseen_children. induction children as [|q t m Hq IH] using map_ind; [done|].
  rewrite !map_fold_insert_L by (try done; intros; lia).
  repeat case_bool_decide; try lia. set_solver.
Qed.

Lemma unseen_children_empty : unseen_children ∅ = child_count children.
Proof.
  clear Hchildren. unfold unseen_children, child_count. induction children as [|q t m Hq IH] using map_ind; [done|].
  rewrite !map_fold_insert_L by (try done; intros; lia). rewrite IH.
  by rewrite bool_decide_false by set_solver.
Qed.

(** The worklist terminates within its fuel. *)
Lemma collect_ok fuel seen pending affected :
  (length pending + unseen_children seen < fuel)%nat →
  ∃ out, collect_affected fuel children seen pending affected = Ok out.
Proof.
  revert seen pending affected. induction fuel as [|fuel IH]; intros seen pending affected Hf; [lia|].
  cbn [collect_affected]. destruct pending as [|x pending]; [eauto|].
  unfold bset_insert. cbv beta iota zeta. simpl in Hf.
  pose proof (unseen_children_mono seen x).
  case_bool_decide as Hx; cbn [negb]; [apply IH; lia|].
  destruct (children !! x) as [s|] eqn:E; apply IH; [|lia].
  rewrite length_app, length_bset_iter. pose proof (unseen_children_step seen x s Hx E). lia.
Qed.

(** What holds of the worklist at every turn. *)
Record worklist_inv (roots : list N) (seen : gset N) (pending affected : list N) : Prop := {
  wl_seen : ∀ x, x ∈ seen ↔ x ∈ affected;
  wl_nodup : NoDup affected;
  wl_pending : ∀ x, x ∈ pending → x ∈ roots ∨ ∃ p, parents !! x = Some p ∧ p ∈ affected;
  wl_order : ∀ pre x post, affected = pre ++ x :: post →
    x ∈ roots ∨ ∃ p, parents !! x = Some p ∧ p ∈ pre;
  wl_closed : ∀ p c, p ∈ affected → parents !! c = Some p → c ∈ affected ∨ c ∈ pending;
  wl_roots : ∀ x, x ∈ roots → x ∈ affected ∨ x ∈ pending;
}.

Lemma snoc_split {A} (pre post l : list A) x y :
  l ++ [y] = pre ++ x :: post →
  (post = [] ∧ pre = l ∧ x = y) ∨ (∃ post', post = post' ++ [y] ∧ l = pre ++ x :: post').
Proof.
  destruct post as [|z post _] using rev_ind.
  - intros [-> [= ->]]%app_inj_tail. auto.
  - intros H. right. exists post. rewrite app_comm_cons, app_assoc in H.
    apply app_inj_tail in H as [-> ->]. done.
Qed.

Lemma collect_inv fuel roots seen pending affected out :
  worklist_inv roots seen pending affected →
  collect_affected fuel children seen pending affected = Ok out →
  ∃ seen', worklist_inv roots seen' [] out.
Proof.
  revert seen pending affected. induction fuel as [|fuel IH]; intros seen pending affected Hinv; [done|].
  cbn [collect_affected]. destruct pending as [|x pending]; [intros H; inv_ok; subst; eauto|].
  destruct Hinv as [Hseen Hnd Hpend Hord Hcl Hroots].
  unfold bset_insert. cbv beta iota zeta. case_bool_decide as Hx; cbn [negb].
  - apply IH. split; [set_solver|done|set_solver|done| |].
    + intros p c Hp Hc. destruct (Hcl _ _ Hp Hc) as [?|[->|?]%elem_of_cons]; [by left|set_solver|by right].
    + intros y Hy. destruct (Hroots _ Hy) as [?|[->|?]%elem_of_cons]; [by left|set_solver|by right].
  - assert (∀ cs, (∀ c, c ∈ cs ↔ parents !! c = Some x) →
      worklist_inv roots ({[x]} ∪ seen) (cs ++ pending) (affected ++ [x])) as Hnext.
    { intros cs Hcs. split.
      - set_solver.
      - apply NoDup_app. split_and!; [done|set_solver|apply NoDup_singleton].
      - intros y [Hy|Hy]%elem_of_app; [right; exists x; set_solver|].
        destruct (Hpend y) as [?|(p & ? & ?)]; [set_solver|by left|right; exists p; set_solver].
      - intros pre y post [(-> & -> & ->)|(post' & -> & ->)]%snoc_split; [apply Hpend; set_solver|eauto].
      - intros p c [Hp| ->%list_elem_of_singleton]%elem_of_app Hc; [|right; set_solver].
        destruct (Hcl _ _ Hp Hc) as [?|[->|?]%elem_of_cons]; set_solver.
      - intros y Hy. destruct (Hroots _ Hy) as [?|[->|?]%elem_of_cons]; set_solver. }
    destruct (children !! x) as [s|] eqn:E.
    + apply IH, Hnext. intros c. rewrite elem_of_bset_iter, <-Hchildren. unfold child_of.
      rewrite E. naive_solver.
    + apply IH, (Hnext []). intros c. rewrite <-Hchildren. unfold child_of. rewrite E.
      split; [set_solver|by intros (? & ? & _)].
Qed.

(** The result of [affected_entities]. *)
Lemma affected_entities_spec dirty :
  acyclic parents →
  ∃ out, affected_entities parents children dirty = Ok out ∧ NoDup out ∧
    (∀ x, x ∈ out ↔ ∃ r, r ∈ dirty ∧ ancestor parents x r) ∧
    (∀ pre x post p, out = pre ++ x :: post → parents !! x = Some p → p ∈ out → p ∈ pre).
Proof.
  intros Hac. unfold affected_entities.
  destruct (filter_topmost_spec parents dirty (bset_iter dirty) Hac) as (roots & -> & _ & Hnd & Hroots).
  cbn [out_bind].
  destruct (collect_ok (S (length roots + child_count children)) ∅ roots []) as [out Hout].
  { rewrite unseen_children_empty. lia. }
  assert (worklist_inv roots ∅ roots []) as Hstart.
  { clear. split; [set_solver|constructor|by left| |set_solver|by right].
    intros pre x post E. by destruct pre. }
  destruct (collect_inv _ roots ∅ roots [] out Hstart Hout) as (seen & [_ Hout_nd _ Hord Hcl Hr]).
  exists out. split; [done|]. split; [done|].
  assert (∀ x, x ∈ out ↔ ∃ r, r ∈ dirty ∧ ancestor parents x r) as Hmem.
  { intros x. split.
    - intros Hx. apply list_elem_of_split in Hx as (pre & post & E).
      remember (length pre) as n eqn:Hn. revert pre x post E Hn.
      induction (lt_wf n) as [n _ IH]. intros pre x post E ->.
      destruct (Hord _ _ _ E) as [Hx|(p & Ep & Hp)].
      + apply Hroots in Hx as [Hx%elem_of_bset_iter _]. exists x. split; [done|constructor].
      + apply list_elem_of_split in Hp as (pre' & post' & ->).
        destruct (IH (length pre') ltac:(rewrite length_app; simpl; lia) pre' p (post' ++ x :: post))
          as (r & Hr' & Ha); [rewrite E, <-app_assoc; done|done|].
        exists r. split; [done|]. by econstructor.
    - intros (r & Hr' & Ha). destruct (topmost_exists parents dirty r Hac Hr') as (t & Ht & Htop & Hrt).
      assert (ancestor parents x t) as Hxt by (by eapply ancestor_trans).
      assert (t ∈ out) as Hin.
      { destruct (Hr t) as [?|?]; [|done|set_solver]. apply Hroots. by rewrite elem_of_bset_iter. }
      clear -Hxt Hin Hcl. induction Hxt as [x|x p a E _ IH]; [done|].
      destruct (Hcl p x (IH Hin) E); [done|set_solver]. }
  split; [done|]. intros pre x post p E Ep Hp.
  destruct (Hord _ _ _ E) as [Hx|(q & Eq & Hq)]; [|by simplify_eq].
  exfalso. apply Hroots in Hx as [_ Htop]. apply Hmem in Hp as (r & Hr' & Ha). by eapply Htop.
Qed.

End worklist.

(** On an acyclic hierarchy [affected_entities] terminates and returns
    exactly the entities that are dirty or have a dirty ancestor, each once,
    with every listed parent ahead of its children: the order transform
    propagation needs. *)
Theorem affected_entities_correct (parents : parent_map) (dirty : gset N) :
  acyclic parents →
  ∃ out, affected_entities parents (rebuild_children parents) dirty = Ok out ∧ NoDup out ∧
    (∀ x, x ∈ out ↔ ∃ r, r ∈ dirty ∧ ancestor parents x r) ∧
    (∀ pre x post p, out = pre ++ x :: post → parents !! x = Some p → p ∈ out → p ∈ pre).
Proof. intros Hac. apply affected_entities_spec; [apply rebuild_children_spec|done]. Qed.

Lemma affected_entities_correct_witness :
  ∃ out, affected_entities {[2 := 1]} (rebuild_children {[2 := 1]}) {[1]} = Ok out ∧ NoDup out ∧
    (∀ x, x ∈ out ↔ ∃ r, r ∈ ({[1]} : gset N) ∧ ancestor {[2 := 1]} x r) ∧
    (∀ pre x post p, out = pre ++ x :: post →
      ({[2 := 1]} : parent_map) !! x = Some p → p ∈ out → p ∈ pre).
Proof.
  apply (affected_entities_correct {[2 := 1]} {[1]}). intros x.
  destruct (decide (x = 2)) as [->|Hx].
  - exists (0 + 1). apply (depth_child _ _ 1); [reflexivity|]. constructor. reflexivity.
  - exists 0. constructor. by rewrite lookup_singleton_ne.
Defined.
