(* ===== verification/Render.v ===== *)
(** * Render records and extraction packets

    [cogniform-protocol/src/render.rs]: the backend-neutral records the world
    hands to the renderer and the contract of one extraction packet. *)

From S2P Require Import Prelude Machine Floats Values Components.

Open Scope N_scope.

Record RenderComponents := mkRenderComponents {
  rc_primitive : option PrimitiveComponent;
  rc_material : option MaterialComponent;
  rc_camera : option CameraComponent;
  rc_light : option LightComponent;
  rc_asset_mesh : option AssetMeshComponent;
}.

Record RenderEntity := mkRenderEntity {
  re_entity_id : StableEntityId;
  re_world_transform : list f64;
  re_world_transform_generation : N;
  re_components : RenderComponents;
}.

Inductive RenderContractError : Type :=
| NonFiniteWorldTransform (entity_id : StableEntityId)
| EmptyRenderEntity (entity_id : StableEntityId)
| RevisionRegressed (base_revision scene_revision : SceneRevision)
| ChangesNotStrictlyOrdered (previous current : StableEntityId).

(** No render-domain component is present. *)
Definition render_components_empty (c : RenderComponents) : bool :=
  negb (is_some (rc_primitive c)) && negb (is_some (rc_material c))
  && negb (is_some (rc_camera c)) && negb (is_some (rc_light c))
  && negb (is_some (rc_asset_mesh c)).

(** [RenderEntity::new]. *)
Definition render_entity_new (entity_id : StableEntityId) (world_transform : list f64)
    (generation : N) (components : RenderComponents) : outcome RenderContractError RenderEntity :=
  do! guard_err (negb (forallb f64_is_finite world_transform)) (NonFiniteWorldTransform entity_id) then
  do! guard_err (render_components_empty components) (EmptyRenderEntity entity_id) then
  Ok (mkRenderEntity entity_id world_transform generation components).

Inductive RenderChange : Type :=
| Upsert (entity : RenderEntity)
| Remove (entity_id : StableEntityId).

(** [RenderChange::entity_id]. *)
Definition change_id (c : RenderChange) : StableEntityId :=
  match c with Upsert e => re_entity_id e | Remove id => id end.

Record RenderExtraction := mkExtraction {
  rx_generation : N;
  rx_base_revision : SceneRevision;
  rx_scene_revision : SceneRevision;
  rx_changes : list RenderChange;
}.

(** The [windows(2)] loop of [RenderExtraction::new]. *)
Fixpoint changes_ordered (changes : list RenderChange) : outcome RenderContractError unit :=
  match changes with
  | a :: (b :: _) as rest =>
      do! guard_err (change_id b <=? change_id a) (ChangesNotStrictlyOrdered (change_id a) (change_id b)) then
      changes_ordered rest
  | _ => Ok tt
  end.

(** [RenderExtraction::new]. *)
Definition extraction_new (generation : N) (base_revision scene_revision : SceneRevision)
    (changes : list RenderChange) : outcome RenderContractError RenderExtraction :=
  do! guard_err (scene_revision <? base_revision) (RevisionRegressed base_revision scene_revision) then
  do! changes_ordered changes then
  Ok (mkExtraction generation base_revision scene_revision changes).

(** What a consumer of packets keeps: the current record of each entity. *)
Definition apply_change (mirror : gmap N RenderEntity) (c : RenderChange) : gmap N RenderEntity :=
  match c with
  | Upsert e => <[re_entity_id e := e]> mirror
  | Remove id => delete id mirror
  end.

Lemma changes_ordered_ok changes :
  StronglySorted N.lt (change_id <$> changes) → changes_ordered changes = Ok tt.
Proof.
  induction changes as [|a [|b rest] IH]; intros Hs; [done..|].
  cbn [changes_ordered]. simpl in Hs. apply StronglySorted_inv in Hs as [Hs Ha].
  apply Forall_cons in Ha as [Hab _]. rewrite (proj2 (N.leb_gt _ _)) by done. cbn [guard_err out_bind].
  apply IH, Hs.
Qed.
