(* ===== verification/World.v ===== *)
(** * The authoritative world

    [cogniform-world/src/world.rs] and [snapshot.rs]: the single owner of the
    entity store, the stable-identity index, the hierarchy, the cached world
    transforms, the scene revision, the idempotency records and the pending
    render changes.  [apply_patch] validates a whole patch against an overlay
    ([preflight]) before it mutates anything ([commit]); an [Err] leaves the
    world as it was, and a failed [expect], [assert!] or [debug_assert!] is
    [Panic].  Clock readings enter [apply_patch] as arguments. *)

From S2P Require Import Prelude Machine BTree Floats Values Components Messages Ecs WorldTypes Hierarchy Render.

Open Scope N_scope.

(** ** Component masks: one bit of a [u8] per kind *)

Definition mask_empty : N := 0.

Definition mask_bit (k : ComponentKind) : N :=
  match k with
  | KName => N.shiftl 1 0
  | KLocalTransform => N.shiftl 1 1
  | KPrimitive => N.shiftl 1 2
  | KMaterial => N.shiftl 1 3
  | KCamera => N.shiftl 1 4
  | KLight => N.shiftl 1 5
  | KAssetMesh => N.shiftl 1 6
  end.

Definition mask_contains (mask : N) (k : ComponentKind) : bool :=
  negb (N.land mask (mask_bit k) =? 0).

Definition mask_insert (mask : N) (k : ComponentKind) : N := N.lor mask (mask_bit k).

(** [mask &= !bit] on [u8]. *)
Definition mask_remove (mask : N) (k : ComponentKind) : N :=
  N.land mask (N.lxor u8_max (mask_bit k)).

Definition mask_from_values (values : list ComponentValue) : N :=
  foldl (λ mask value, mask_insert mask (component_kind value)) mask_empty values.

Record EntityState := mkEntityState {
  es_exists : bool;
  es_components : N;
}.

Definition entity_missing : EntityState := mkEntityState false mask_empty.

(** [Cow<'_, BTreeMap<..>>]. *)
Inductive Cow (A : Type) : Type := Borrowed (a : A) | Owned (a : A).
Arguments Borrowed {A} a.
Arguments Owned {A} a.

Definition cow_get {A} (c : Cow A) : A := match c with Borrowed a | Owned a => a end.
(** [Cow::to_mut] followed by an update. *)
Definition cow_update {A} (f : A → A) (c : Cow A) : Cow A := Owned (f (cow_get c)).
(** The [match] of [complete_preflight]: only an owned map is committed. *)
Definition cow_owned {A} (c : Cow A) : option A :=
  match c with Borrowed _ => None | Owned a => Some a end.

Record RecordedApply := mkRecordedApply {
  ra_transaction_id : TransactionId;
  ra_receipt : ApplyReceipt;
}.

Record CommitPlan := mkCommitPlan {
  cp_previous_revision : SceneRevision;
  cp_new_revision : SceneRevision;
  cp_operations : list SceneOperation;
  cp_parents : option parent_map;
  cp_children : option child_map;
  cp_transform_updates : gmap N WorldTransform;
  cp_transform_generation : N;
  cp_render_changed_ids : gset N;
}.

Record PreflightState := mkPreflight {
  pf_overlay : gmap N EntityState;
  pf_parents : Cow parent_map;
  pf_local_overrides : gmap N (option LocalTransform);
  pf_dirty_roots : gset N;
  pf_render_changed_ids : gset N;
  pf_hierarchy_changed : bool;
  pf_live_entities : N;
  pf_operations : list SceneOperation;
}.

Record EntitySnapshot := mkEntitySnapshot {
  snap_entity_id : StableEntityId;
  snap_parent_id : option StableEntityId;
  snap_components : list ComponentValue;
}.

Record WorldSnapshot := mkWorldSnapshot {
  ws_revision : SceneRevision;
  ws_entities : list EntitySnapshot;
}.

Inductive WorldExtractionError : Type :=
| GenerationOverflow
| ExtractionInvariantViolation (error : WorldInvariantError)
| InvalidRenderData (error : RenderContractError).

(** [debug_assert!]. *)
Definition debug_assert {F} (b : bool) : outcome F unit := if b then Ok tt else Panic.

Section world.
Context {W E : Type} `{EntityStore W E}.

Record AuthoritativeWorld := mkWorld {
  storage : W;
  stable_index : gmap N E;
  parents : parent_map;
  children : child_map;
  world_transforms : gmap N WorldTransform;
  transform_generation : N;
  revision : SceneRevision;
  pending_render_changes : gset N;
  last_extracted_revision : SceneRevision;
  render_extraction_generation : N;
  idempotency_records : gmap N RecordedApply;
  config : WorldConfig;
}.

(** [AuthoritativeWorld::new]. *)
Definition world_new (config : WorldConfig) : AuthoritativeWorld := {|
  storage := es_empty;
  stable_index := ∅;
  parents := ∅;
  children := ∅;
  world_transforms := ∅;
  transform_generation := 0;
  revision := revision_initial;
  pending_render_changes := ∅;
  last_extracted_revision := revision_initial;
  render_extraction_generation := 0;
  idempotency_records := ∅;
  config := config;
|}.

(** ** Read access *)

Definition contains (w : AuthoritativeWorld) (id : StableEntityId) : bool :=
  is_some (stable_index w !! id).

Definition recorded_transaction (w : AuthoritativeWorld) (key : IdempotencyKey) : option TransactionId :=
  ra_transaction_id <$> idempotency_records w !! key.

(** [self.storage.get::<&T>(entity)] for the component of kind [k]. *)
Definition storage_get (w : AuthoritativeWorld) (entity : E) (k : ComponentKind) : option ComponentValue :=
  r ← es_row (storage w) entity; row_get r k.

Definition storage_local (w : AuthoritativeWorld) (entity : E) : option LocalTransform :=
  r ← es_row (storage w) entity; row_local_transform r.

(** [self.storage.get::<&StoredStableId>(entity)] agrees with [id]. *)
Definition marker_matches (w : AuthoritativeWorld) (entity : E) (id : StableEntityId) : bool :=
  bool_decide ((es_row (storage w) entity ≫= row_stable_id) = Some id).

Definition invariant_error (kind : WorldInvariantErrorKind) (id : option StableEntityId)
    : WorldInvariantError := mkInvariantError kind id.

(** [AuthoritativeWorld::validate_invariants]. *)
Definition validate_invariants (w : AuthoritativeWorld) : outcome WorldInvariantError unit :=
  do! guard_err (negb (es_len (storage w) =? N.of_nat (size (stable_index w))))
    (invariant_error EntityCountMismatch None) then
  do! out_fold (λ _ entry,
        let '(stable_id, entity) := entry in
        do! guard_err (negb (is_some (es_row (storage w) entity)))
          (invariant_error MissingStorageEntity (Some stable_id)) then
        do! guard_err (negb (marker_matches w entity stable_id))
          (invariant_error StableIdMismatch (Some stable_id)) then
        guard_err (negb (is_some (world_transforms w !! stable_id)))
          (invariant_error WorldTransformMissing (Some stable_id)))
      tt (btree_iter (stable_index w)) then
  do! out_fold (λ _ entity_id,
        guard_err (negb (contains w entity_id)) (invariant_error WorldTransformOrphan (Some entity_id)))
      tt (btree_keys (world_transforms w)) then
  do! out_fold (λ _ edge,
        let '(child_id, parent_id) := edge in
        do! guard_err (negb (contains w child_id) || negb (contains w parent_id))
          (invariant_error HierarchyEntityMissing (Some child_id)) then
        guard_err (negb (match children w !! parent_id with
                         | Some cs => bool_decide (child_id ∈ cs)
                         | None => false
                         end))
          (invariant_error HierarchyIndexMismatch (Some child_id)))
      tt (btree_iter (parents w)) then
  let indexed_children := foldl (λ n entry, (n + size entry.2)%nat) 0%nat (btree_iter (children w)) in
  do! guard_err (negb (Nat.eqb indexed_children (size (parents w))))
    (invariant_error HierarchyIndexMismatch None) then
  match hierarchy_depths (dom (stable_index w)) (parents w) (max_hierarchy_depth (config w)) with
  | Ok _ => Ok tt
  | Err _ => Err (invariant_error HierarchyTopologyInvalid None)
  | Panic => Panic
  | OutOfFuel => OutOfFuel
  end.

(** [component_mask]. *)
Definition component_mask (w : AuthoritativeWorld) (entity : E) : N :=
  foldl (λ mask k, if is_some (storage_get w entity k) then mask_insert mask k else mask)
    mask_empty all_kinds.

(** [snapshot_components]: present components in kind order. *)
Definition snapshot_components (w : AuthoritativeWorld) (entity : E) : list ComponentValue :=
  omap (storage_get w entity) all_kinds.

(** [AuthoritativeWorld::snapshot]. *)
Definition snapshot (w : AuthoritativeWorld) : outcome WorldInvariantError WorldSnapshot :=
  do! validate_invariants w then
  Ok (mkWorldSnapshot (revision w)
    ((λ entry, mkEntitySnapshot entry.1 (parents w !! entry.1) (snapshot_components w entry.2))
       <$> btree_iter (stable_index w))).

(** ** Preflight *)

(** [stored_entity_state]. *)
Definition stored_entity_state (w : AuthoritativeWorld) (id : StableEntityId)
    : outcome WorldApplyError EntityState :=
  match stable_index w !! id with
  | None => Ok entity_missing
  | Some entity =>
      do! guard_err (negb (is_some (es_row (storage w) entity)))
        (InvariantViolation (invariant_error MissingStorageEntity (Some id))) then
      do! guard_err (negb (marker_matches w entity id))
        (InvariantViolation (invariant_error StableIdMismatch (Some id))) then
      Ok (mkEntityState true (component_mask w entity))
  end.

(** [overlay_state]. *)
Definition overlay_state (w : AuthoritativeWorld) (overlay : gmap N EntityState) (id : StableEntityId)
    : outcome WorldApplyError EntityState :=
  match overlay !! id with
  | Some state => Ok state
  | None => stored_entity_state w id
  end.

(** [effective_local_transform]. *)
Definition effective_local_transform (w : AuthoritativeWorld)
    (overrides : gmap N (option LocalTransform)) (id : StableEntityId) : option LocalTransform :=
  match overrides !! id with
  | Some value => value
  | None => entity ← stable_index w !! id; storage_local w entity
  end.

(** [find_map] over the components of a create. *)
Definition find_local_transform (cs : list ComponentValue) : option LocalTransform :=
  head (omap (λ c, match c with CLocalTransform v => Some v | _ => None end) cs).

(** [preflight_create]. *)
Definition preflight_create (w : AuthoritativeWorld) (s : PreflightState) (create : CreateEntity)
    (operation_index : N) : outcome WorldApplyError PreflightState :=
  let id := create_id create in
  let limit := max_entities (config w) in
  let! state := overlay_state w (pf_overlay s) id in
  do! guard_err (es_exists state) (EntityAlreadyExists operation_index id) then
  let! live_entities := ok_or (checked_add u32_max (pf_live_entities s) 1)
    (EntityCapacityExceeded operation_index id limit) in
  do! guard_err (limit <? live_entities) (EntityCapacityExceeded operation_index id limit) then
  Ok {|
    pf_overlay := <[id := mkEntityState true (mask_from_values (create_components create))]> (pf_overlay s);
    pf_parents := pf_parents s;
    pf_local_overrides :=
      <[id := find_local_transform (create_components create)]> (pf_local_overrides s);
    pf_dirty_roots := {[id]} ∪ pf_dirty_roots s;
    pf_render_changed_ids := {[id]} ∪ pf_render_changed_ids s;
    pf_hierarchy_changed := true;
    pf_live_entities := live_entities;
    pf_operations := pf_operations s;
  |}.

(** [preflight_delete]. *)
Definition preflight_delete (w : AuthoritativeWorld) (s : PreflightState) (del : DeleteEntity)
    (operation_index : N) : outcome WorldApplyError PreflightState :=
  let id := delete_id del in
  let! state := overlay_state w (pf_overlay s) id in
  do! guard_err (negb (es_exists state)) (EntityNotFound operation_index id) then
  let! live_entities := expect (checked_sub (pf_live_entities s) 1) in
  Ok {|
    pf_overlay := <[id := entity_missing]> (pf_overlay s);
    pf_parents :=
      if is_some (cow_get (pf_parents s) !! id)
      then cow_update (delete id) (pf_parents s) else pf_parents s;
    pf_local_overrides := delete id (pf_local_overrides s);
    pf_dirty_roots := pf_dirty_roots s ∖ {[id]};
    pf_render_changed_ids := {[id]} ∪ pf_render_changed_ids s;
    pf_hierarchy_changed := true;
    pf_live_entities := live_entities;
    pf_operations := pf_operations s;
  |}.

(** [effective != Some(value)] with the derived comparison. *)
Definition local_differs (effective : option LocalTransform) (value : LocalTransform) : bool :=
  match effective with
  | Some current => negb (local_transform_eqb current value)
  | None => true
  end.

(** [preflight_set]. *)
Definition preflight_set (w : AuthoritativeWorld) (s : PreflightState) (set : SetComponent)
    (operation_index : N) : outcome WorldApplyError PreflightState :=
  let id := set_id set in
  let! state := overlay_state w (pf_overlay s) id in
  do! guard_err (negb (es_exists state)) (EntityNotFound operation_index id) then
  let '(dirty, overrides) :=
    match set_value set with
    | CLocalTransform value =>
        (if local_differs (effective_local_transform w (pf_local_overrides s) id) value
         then {[id]} ∪ pf_dirty_roots s else pf_dirty_roots s,
         <[id := Some value]> (pf_local_overrides s))
    | _ => (pf_dirty_roots s, pf_local_overrides s)
    end in
  let kind := component_kind (set_value set) in
  Ok {|
    pf_overlay := <[id := mkEntityState (es_exists state) (mask_insert (es_components state) kind)]> (pf_overlay s);
    pf_parents := pf_parents s;
    pf_local_overrides := overrides;
    pf_dirty_roots := dirty;
    pf_render_changed_ids :=
      if bool_decide (kind = KName) then pf_render_changed_ids s else {[id]} ∪ pf_render_changed_ids s;
    pf_hierarchy_changed := pf_hierarchy_changed s;
    pf_live_entities := pf_live_entities s;
    pf_operations := pf_operations s;
  |}.

(** [preflight_remove]. *)
Definition preflight_remove (w : AuthoritativeWorld) (s : PreflightState) (remove : RemoveComponent)
    (operation_index : N) : outcome WorldApplyError PreflightState :=
  let id := remove_id remove in
  let kind := remove_kind remove in
  let! state := overlay_state w (pf_overlay s) id in
  do! guard_err (negb (es_exists state)) (EntityNotFound operation_index id) then
  do! guard_err (negb (mask_contains (es_components state) kind))
    (ComponentNotFound operation_index id kind) then
  let is_transform := bool_decide (kind = KLocalTransform) in
  Ok {|
    pf_overlay := <[id := mkEntityState (es_exists state) (mask_remove (es_components state) kind)]> (pf_overlay s);
    pf_parents := pf_parents s;
    pf_local_overrides :=
      if is_transform then <[id := None]> (pf_local_overrides s) else pf_local_overrides s;
    pf_dirty_roots := if is_transform then {[id]} ∪ pf_dirty_roots s else pf_dirty_roots s;
    pf_render_changed_ids :=
      if bool_decide (kind = KName) then pf_render_changed_ids s else {[id]} ∪ pf_render_changed_ids s;
    pf_hierarchy_changed := pf_hierarchy_changed s;
    pf_live_entities := pf_live_entities s;
    pf_operations := pf_operations s;
  |}.

(** [preflight_reparent]. *)
Definition preflight_reparent (w : AuthoritativeWorld) (s : PreflightState) (reparent : ReparentEntity)
    (operation_index : N) : outcome WorldApplyError PreflightState :=
  let id := reparent_id reparent in
  let! state := overlay_state w (pf_overlay s) id in
  do! guard_err (negb (es_exists state)) (EntityNotFound operation_index id) then
  do! match reparent_parent reparent with
      | Some parent_id =>
          let! state := overlay_state w (pf_overlay s) parent_id in
          guard_err (negb (es_exists state)) (EntityNotFound operation_index parent_id)
      | None => Ok tt
      end then
  let previous := cow_get (pf_parents s) !! id in
  if bool_decide (previous = reparent_parent reparent) then Ok s
  else Ok {|
    pf_overlay := pf_overlay s;
    pf_parents :=
      match reparent_parent reparent with
      | Some parent_id => cow_update (insert id parent_id) (pf_parents s)
      | None => cow_update (delete id) (pf_parents s)
      end;
    pf_local_overrides := pf_local_overrides s;
    pf_dirty_roots := {[id]} ∪ pf_dirty_roots s;
    pf_render_changed_ids := pf_render_changed_ids s;
    pf_hierarchy_changed := true;
    pf_live_entities := pf_live_entities s;
    pf_operations := pf_operations s;
  |}.

(** The [match operation] of [preflight]. *)
Definition preflight_operation (w : AuthoritativeWorld) (s : PreflightState) (index : N)
    (op : SceneOperation) : outcome WorldApplyError PreflightState :=
  match op with
  | OpCreate create => preflight_create w s create index
  | OpDelete del => preflight_delete w s del index
  | OpSetComponent set => preflight_set w s set index
  | OpRemoveComponent remove => preflight_remove w s remove index
  | OpReparent reparent => preflight_reparent w s reparent index
  end.

(** [state.operations.push(operation.clone())]. *)
Definition pf_push (s : PreflightState) (op : SceneOperation) : PreflightState := {|
  pf_overlay := pf_overlay s;
  pf_parents := pf_parents s;
  pf_local_overrides := pf_local_overrides s;
  pf_dirty_roots := pf_dirty_roots s;
  pf_render_changed_ids := pf_render_changed_ids s;
  pf_hierarchy_changed := pf_hierarchy_changed s;
  pf_live_entities := pf_live_entities s;
  pf_operations := pf_operations s ++ [op];
|}.

(** The operation loop of [preflight], from position [index]. *)
Fixpoint preflight_loop (w : AuthoritativeWorld) (s : PreflightState) (index : nat)
    (ops : list SceneOperation) : outcome WorldApplyError PreflightState :=
  match ops with
  | [] => Ok s
  | op :: ops =>
      let! operation_index := expect (try_from_len u32_max index) in
      let! s := preflight_operation w s operation_index op in
      preflight_loop w (pf_push s op) (S index) ops
  end.

(** [compose_world_transform]. *)
Definition compose_world_transform (w : AuthoritativeWorld) (id : StableEntityId)
    (local : WorldTransform) (generation : N) (parents : parent_map)
    (updates : gmap N WorldTransform) : outcome WorldApplyError WorldTransform :=
  match parents !! id with
  | None => Ok local
  | Some parent_id =>
      let! parent := ok_or
        (match updates !! parent_id with
         | Some t => Some t
         | None => world_transforms w !! parent_id
         end)
        (InvariantViolation (invariant_error WorldTransformMissing (Some parent_id))) in
      ok_or (compose parent local generation) (TransformOverflow id)
  end.

(** [plan_transform_updates]. *)
Definition plan_transform_updates (w : AuthoritativeWorld) (parents : parent_map)
    (children : child_map) (overrides : gmap N (option LocalTransform)) (dirty_roots : gset N)
    : outcome WorldApplyError (gmap N WorldTransform * N) :=
  let! ordered := affected_entities parents children dirty_roots in
  let! generation :=
    match ordered with
    | [] => Ok (transform_generation w)
    | _ => ok_or (checked_add u64_max (transform_generation w) 1) TransformGenerationOverflow
    end in
  let! updates := out_fold (λ updates id,
      let! local := ok_or (from_local (effective_local_transform w overrides id) generation)
        (TransformOverflow id) in
      let! world := compose_world_transform w id local generation parents updates in
      Ok (<[id := world]> updates)) ∅ ordered in
  Ok (updates, generation).

(** The live identities after the overlay. *)
Definition overlay_live (w : AuthoritativeWorld) (overlay : gmap N EntityState) : gset N :=
  foldl (λ live entry, if es_exists entry.2 then {[entry.1]} ∪ live else live ∖ {[entry.1]})
    (dom (stable_index w)) (btree_iter overlay).

(** [complete_preflight]. *)
Definition complete_preflight (w : AuthoritativeWorld) (s : PreflightState) (new_revision : SceneRevision)
    : outcome WorldApplyError CommitPlan :=
  let final_parents := cow_get (pf_parents s) in
  let! rebuilt_children :=
    if pf_hierarchy_changed s then
      do! hierarchy_depths (overlay_live w (pf_overlay s)) final_parents (max_hierarchy_depth (config w)) then
      Ok (Some (rebuild_children final_parents))
    else Ok None in
  let! plan := plan_transform_updates w final_parents (default (children w) rebuilt_children)
    (pf_local_overrides s) (pf_dirty_roots s) in
  let '(transform_updates, generation) := plan in
  let render_changed_ids := pf_render_changed_ids s ∪ dom transform_updates in
  let limit := max_pending_render_changes (config w) in
  do! guard_err (limit <? N.of_nat (size (pending_render_changes w ∪ render_changed_ids)))
    (RenderExtractionCapacityExceeded limit) then
  Ok {|
    cp_previous_revision := revision w;
    cp_new_revision := new_revision;
    cp_operations := pf_operations s;
    cp_parents := cow_owned (pf_parents s);
    cp_children := rebuilt_children;
    cp_transform_updates := transform_updates;
    cp_transform_generation := generation;
    cp_render_changed_ids := render_changed_ids;
  |}.

(** [preflight]. *)
Definition preflight (w : AuthoritativeWorld) (patch : ScenePatch) (new_revision : SceneRevision)
    : outcome WorldApplyError CommitPlan :=
  let! live := ok_or (try_from_len u32_max (size (stable_index w)))
    (InvariantViolation (invariant_error EntityCountMismatch None)) in
  let! s := preflight_loop w
    (mkPreflight ∅ (Borrowed (parents w)) ∅ ∅ ∅ false live []) 0 (patch_operations patch) in
  complete_preflight w s new_revision.

(** ** Commit *)

(** The bundle built by [EntityBuilder] for a create. *)
Definition create_row (create : CreateEntity) : Row :=
  foldl row_insert (row_add_marker row_empty (create_id create)) (create_components create).

(** The body of the loop of [commit] on the store and the index. *)
Definition commit_operation (st : W * gmap N E) (op : SceneOperation)
    : outcome WorldApplyError (W * gmap N E) :=
  let '(storage, index) := st in
  match op with
  | OpCreate create =>
      let '(entity, storage) := es_spawn storage (create_row create) in
      match index !! create_id create with
      | Some _ => Panic
      | None => Ok (storage, <[create_id create := entity]> index)
      end
  | OpDelete del =>
      let! entity := expect (index !! delete_id del) in
      let! storage := expect (es_despawn storage entity) in
      Ok (storage, delete (delete_id del) index)
  | OpSetComponent set =>
      let! entity := expect (index !! set_id set) in
      let! storage := expect (es_insert_one storage entity (set_value set)) in
      Ok (storage, index)
  | OpRemoveComponent remove =>
      let! entity := expect (index !! remove_id remove) in
      let! storage := expect (es_remove_one storage entity (remove_kind remove)) in
      Ok (storage, index)
  | OpReparent _ => Ok (storage, index)
  end.

(** [commit]. *)
Definition commit (w : AuthoritativeWorld) (plan : CommitPlan)
    : outcome WorldApplyError AuthoritativeWorld :=
  let! st := out_fold commit_operation (storage w, stable_index w) (cp_operations plan) in
  let '(storage', index') := st in
  let w' := {|
    storage := storage';
    stable_index := index';
    parents := default (parents w) (cp_parents plan);
    children := default (children w) (cp_children plan);
    world_transforms :=
      cp_transform_updates plan ∪ filter (λ kv, is_Some (index' !! kv.1)) (world_transforms w);
    transform_generation := cp_transform_generation plan;
    revision := cp_new_revision plan;
    pending_render_changes := pending_render_changes w ∪ cp_render_changed_ids plan;
    last_extracted_revision := last_extracted_revision w;
    render_extraction_generation := render_extraction_generation w;
    idempotency_records := idempotency_records w;
    config := config w;
  |} in
  do! debug_assert (is_ok (validate_invariants w')) then
  Ok w'.

(** Insertion of an accepted record. *)
Definition record_apply (w : AuthoritativeWorld) (key : IdempotencyKey) (r : RecordedApply)
    : AuthoritativeWorld := {|
  storage := storage w;
  stable_index := stable_index w;
  parents := parents w;
  children := children w;
  world_transforms := world_transforms w;
  transform_generation := transform_generation w;
  revision := revision w;
  pending_render_changes := pending_render_changes w;
  last_extracted_revision := last_extracted_revision w;
  render_extraction_generation := render_extraction_generation w;
  idempotency_records := <[key := r]> (idempotency_records w);
  config := config w;
|}.

(** [receipt.status = ApplyStatus::IdempotentReplay]. *)
Definition replayed (r : ApplyReceipt) : ApplyReceipt := {|
  receipt_schema_version := receipt_schema_version r;
  receipt_transaction_id := receipt_transaction_id r;
  receipt_idempotency_key := receipt_idempotency_key r;
  receipt_status := IdempotentReplay;
  receipt_previous_revision := receipt_previous_revision r;
  receipt_new_revision := receipt_new_revision r;
  receipt_operation_count := receipt_operation_count r;
  receipt_diagnostics := receipt_diagnostics r;
  receipt_timing := receipt_timing r;
  receipt_estimated_visible_frame := receipt_estimated_visible_frame r;
|}.

(** [AuthoritativeWorld::apply_patch]; [clock] holds the measured validation
    and commit microseconds. *)
Definition apply_patch (w : AuthoritativeWorld) (patch : ScenePatch) (estimated_visible_frame : FrameId)
    (clock : N * N) : outcome WorldApplyError (ApplyReceipt * AuthoritativeWorld) :=
  do! map_err InvalidPatch (patch_validate patch (runtime_limits (config w))) then
  let key := patch_idempotency_key patch in
  match idempotency_records w !! key with
  | Some recorded =>
      do! guard_err (negb (ra_transaction_id recorded =? patch_transaction_id patch))
        (IdempotencyKeyConflict key (ra_transaction_id recorded) (patch_transaction_id patch)) then
      Ok (replayed (ra_receipt recorded), w)
  | None =>
      do! guard_err (render_extraction_generation w =? u64_max) RenderExtractionGenerationOverflow then
      let limit := max_idempotency_records (config w) in
      do! guard_err (limit <=? N.of_nat (size (idempotency_records w)))
        (IdempotencyCapacityExceeded limit) then
      do! guard_err (bool_decide (patch_conflict_policy patch = RequireExactBase)
                     && negb (patch_base_revision patch =? revision w))
        (BaseRevisionMismatch (revision w) (patch_base_revision patch)) then
      let! new_revision := map_err (λ _, WorldRevisionOverflow) (checked_next (revision w)) in
      let! plan := preflight w patch new_revision in
      let! operation_count :=
        expect (try_from_len u32_max (length (cp_operations plan)) ≫= non_zero) in
      let! w' := commit w plan in
      let receipt := {|
        receipt_schema_version := patch_schema_version patch;
        receipt_transaction_id := patch_transaction_id patch;
        receipt_idempotency_key := key;
        receipt_status := Applied;
        receipt_previous_revision := cp_previous_revision plan;
        receipt_new_revision := new_revision;
        receipt_operation_count := operation_count;
        receipt_diagnostics := [];
        receipt_timing := mkTiming 0 clock.1 clock.2;
        receipt_estimated_visible_frame := estimated_visible_frame;
      |} in
      do! debug_assert (is_ok (receipt_validate receipt (runtime_limits (config w')))) then
      Ok (receipt, record_apply w' key (mkRecordedApply (patch_transaction_id patch) receipt))
  end.

(** ** Render extraction *)

(** [render_entity]. *)
Definition render_entity (w : AuthoritativeWorld) (id : StableEntityId)
    : outcome WorldExtractionError (option RenderEntity) :=
  match stable_index w !! id with
  | None => Ok None
  | Some entity =>
      let! transform := ok_or (world_transforms w !! id)
        (ExtractionInvariantViolation (invariant_error WorldTransformMissing (Some id))) in
      let components := {|
        rc_primitive := es_row (storage w) entity ≫= row_primitive;
        rc_material := es_row (storage w) entity ≫= row_material;
        rc_camera := es_row (storage w) entity ≫= row_camera;
        rc_light := es_row (storage w) entity ≫= row_light;
        rc_asset_mesh := es_row (storage w) entity ≫= row_asset_mesh;
      |} in
      if render_components_empty components then Ok None
      else
        let! e := map_err InvalidRenderData
          (render_entity_new id (wt_matrix transform) (wt_generation transform) components) in
        Ok (Some e)
  end.

(** The loop of [take_render_extraction] over pending identities. *)
Fixpoint extraction_changes (w : AuthoritativeWorld) (ids : list N)
    : outcome WorldExtractionError (list RenderChange) :=
  match ids with
  | [] => Ok []
  | id :: ids =>
      let! r := render_entity w id in
      let! rest := extraction_changes w ids in
      Ok (match r with Some e => Upsert e | None => Remove id end :: rest)
  end.

(** The state left by a successful [take_render_extraction]. *)
Definition mark_extracted (w : AuthoritativeWorld) (generation : N) : AuthoritativeWorld := {|
  storage := storage w;
  stable_index := stable_index w;
  parents := parents w;
  children := children w;
  world_transforms := world_transforms w;
  transform_generation := transform_generation w;
  revision := revision w;
  pending_render_changes := ∅;
  last_extracted_revision := revision w;
  render_extraction_generation := generation;
  idempotency_records := idempotency_records w;
  config := config w;
|}.

(** [AuthoritativeWorld::take_render_extraction]. *)
Definition take_render_extraction (w : AuthoritativeWorld)
    : outcome WorldExtractionError (RenderExtraction * AuthoritativeWorld) :=
  do! map_err ExtractionInvariantViolation (validate_invariants w) then
  let! generation := ok_or (checked_add u64_max (render_extraction_generation w) 1 ≫= non_zero)
    GenerationOverflow in
  let! changes := extraction_changes w (bset_iter (pending_render_changes w)) in
  let! extraction := map_err InvalidRenderData
    (extraction_new generation (last_extracted_revision w) (revision w) changes) in
  Ok (extraction, mark_extracted w generation).

End world.

Arguments AuthoritativeWorld : clear implicits.
