(* ===== verification/Codec.v ===== *)
(** * The bounded JSON codec of protocol messages

    [cogniform-protocol/src/codec.rs]: [encode] validates, serialises and
    bounds a message; [decode] bounds the bytes and their nesting before the
    JSON parser runs, then validates.  The serde/serde_json serialiser of a
    message type is a parameter ([JsonCodec]); the nesting scanner is the
    repository's own and is verified here. *)

From S2P Require Import Prelude Machine Floats Values Components Messages MessageSpec.

Open Scope N_scope.

Inductive JsonErrorCategory : Type := JIo | JSyntax | JData | JEndOfFile.

Inductive CodecError : Type :=
| EncodedSizeExceeded (actual limit : N)
| NestingLimitExceeded (actual limit : N)
| SerializationFailed
| MalformedJson (category : JsonErrorCategory) (line column : N)
| InvalidMessage (error : ValidationError).

(** [serde_json]'s error as the codec reads it. *)
Record JsonError := mkJsonError { je_category : JsonErrorCategory; je_line : N; je_column : N }.

(** The [Validate] trait: a validator that always returns. *)
Class Validate (T : Type) := {
  validate : T → RuntimeLimits → outcome ValidationError unit;
  validate_normal : ∀ v limits, normal (validate v limits);
}.

#[export] Instance patch_Validate : Validate ScenePatch :=
  {| validate := patch_validate; validate_normal := patch_validate_normal |}.
#[export] Instance receipt_Validate : Validate ApplyReceipt :=
  {| validate := receipt_validate; validate_normal := receipt_validate_normal |}.
#[export] Instance observation_request_Validate : Validate ObservationRequest :=
  {| validate := observation_request_validate; validate_normal := observation_request_validate_normal |}.
#[export] Instance metadata_Validate : Validate ObservationMetadata :=
  {| validate := metadata_validate; validate_normal := metadata_validate_normal |}.

(** [serde_json::to_vec] and [from_slice] for one message type. *)
Class JsonCodec (T : Type) := {
  json_to_vec : T → option bytes;
  json_from_slice : bytes → outcome JsonError T;
}.

(** [enforce_encoded_size]. *)
Definition enforce_encoded_size (encoded_len : nat) (limits : RuntimeLimits) : outcome CodecError unit :=
  let actual := len_or_max u64_max encoded_len in
  let limit := max_encoded_bytes limits in
  guard_err (limit <? actual) (EncodedSizeExceeded actual limit).

(** The state of the scanner: depth, inside a string, after a backslash. *)
Record scan := mkScan { sc_depth : N; sc_in_string : bool; sc_escaped : bool }.

(** ASCII bytes the scanner distinguishes. *)
Definition b_quote : byte := x22.
Definition b_backslash : byte := x5c.
Definition is_open (b : byte) : bool := bool_decide (b = x7b) || bool_decide (b = x5b).
Definition is_close (b : byte) : bool := bool_decide (b = x7d) || bool_decide (b = x5d).

(** One turn of the loop of [enforce_nesting]. *)
Definition nesting_step (limit : N) (s : scan) (b : byte) : outcome CodecError scan :=
  if sc_in_string s then
    if sc_escaped s then Ok (mkScan (sc_depth s) true false)
    else if bool_decide (b = b_backslash) then Ok (mkScan (sc_depth s) true true)
    else if bool_decide (b = b_quote) then Ok (mkScan (sc_depth s) false false)
    else Ok s
  else if bool_decide (b = b_quote) then Ok (mkScan (sc_depth s) true (sc_escaped s))
  else if is_open b then
    let depth := sat_add u16_max (sc_depth s) 1 in
    do! guard_err (limit <? depth) (NestingLimitExceeded depth limit) then
    Ok (mkScan depth false (sc_escaped s))
  else if is_close b then Ok (mkScan (sc_depth s - 1) false (sc_escaped s))
  else Ok s.

(** [enforce_nesting]. *)
Definition enforce_nesting (encoded : bytes) (limits : RuntimeLimits) : outcome CodecError unit :=
  do! out_fold (nesting_step (max_json_nesting_depth limits)) (mkScan 0 false false) encoded then
  Ok tt.

Section codec.
Context {T : Type} `{Validate T} `{JsonCodec T}.

(** [encode]. *)
Definition encode (value : T) (limits : RuntimeLimits) : outcome CodecError bytes :=
  do! map_err InvalidMessage (validate value limits) then
  let! encoded := ok_or (json_to_vec value) SerializationFailed in
  let encoded := encoded ++ [x0a] in
  do! enforce_encoded_size (length encoded) limits then
  Ok encoded.

(** [decode]. *)
Definition decode (encoded : bytes) (limits : RuntimeLimits) : outcome CodecError T :=
  do! enforce_encoded_size (length encoded) limits then
  do! enforce_nesting encoded limits then
  let! value := map_err (λ e, MalformedJson (je_category e) (je_line e) (je_column e))
    (json_from_slice encoded) in
  do! map_err InvalidMessage (validate value limits) then
  Ok value.

End codec.

(** ** Nesting, without machine width or early exit *)

(** Whether the byte after a prefix is inside a string, and escaped. *)
Definition string_step (st : bool * bool) (b : byte) : bool * bool :=
  match st with
  | (true, true) => (true, false)
  | (true, false) =>
      if bool_decide (b = b_backslash) then (true, true)
      else (negb (bool_decide (b = b_quote)), false)
  | (false, e) => if bool_decide (b = b_quote) then (true, e) else (false, e)
  end.

Definition depth_step (st : bool * bool) (d : N) (b : byte) : N :=
  if st.1 then d
  else if bool_decide (b = b_quote) then d
  else if is_open b then d + 1 else if is_close b then d - 1 else d.

(** The deepest bracket nesting reached, from depth [d] and string state [st]. *)
Fixpoint max_nesting (st : bool * bool) (d : N) (l : bytes) : N :=
  match l with
  | [] => d
  | b :: l => N.max d (max_nesting (string_step st b) (depth_step st d b) l)
  end.

Lemma max_nesting_ge st d l : d ≤ max_nesting st d l.
Proof. destruct l; simpl; lia. Qed.

Lemma nesting_step_spec limit s b :
  limit < u16_max → sc_depth s ≤ limit → (sc_in_string s = true ∨ sc_escaped s = false) →
  let d := depth_step (sc_in_string s, sc_escaped s) (sc_depth s) b in
  let st := string_step (sc_in_string s, sc_escaped s) b in
  nesting_step limit s b =
    if limit <? d then Err (NestingLimitExceeded (limit + 1) limit)
    else Ok (mkScan d st.1 st.2).
Proof.
  intros Hl Hd Hesc. destruct s as [d ins esc]. cbn in Hd, Hesc |- *. unfold nesting_step, string_step, depth_step.
  cbn [sc_in_string sc_escaped sc_depth fst snd].
  assert ((limit <? d) = false) as Hlt by (apply N.ltb_ge; done).
  destruct ins.
  - rewrite Hlt. destruct esc; [done|]. case_bool_decide; [done|]. by case_bool_decide.
  - destruct Hesc as [?|He]; [done|]. subst esc. case_bool_decide; [by rewrite Hlt|].
    destruct (is_open b).
    + unfold sat_add. rewrite N.min_r by lia.
      destruct (N.ltb_spec limit (d + 1)); cbn [guard_err out_bind]; [|done]. do 2 f_equal. lia.
    + destruct (is_close b); [|by rewrite Hlt].
      by rewrite (proj2 (N.ltb_ge _ _)) by lia.
Qed.

Lemma string_step_escaped st b :
  st.1 = true ∨ st.2 = false → (string_step st b).1 = true ∨ (string_step st b).2 = false.
Proof. destruct st as [[] []]; simpl; intros; repeat case_bool_decide; simpl; naive_solver. Qed.

Lemma nesting_scan_spec limit s l :
  limit < u16_max → sc_depth s ≤ limit → (sc_in_string s = true ∨ sc_escaped s = false) →
  match out_fold (nesting_step limit) s l with
  | Ok _ => max_nesting (sc_in_string s, sc_escaped s) (sc_depth s) l ≤ limit
  | Err e => e = NestingLimitExceeded (limit + 1) limit ∧
      limit < max_nesting (sc_in_string s, sc_escaped s) (sc_depth s) l
  | Panic | OutOfFuel => False
  end.
Proof.
  intros Hl. revert s. induction l as [|b l IH]; intros s Hd Hesc; [done|].
  cbn [out_fold max_nesting]. rewrite nesting_step_spec by done. cbv zeta.
  pose proof (string_step_escaped (sc_in_string s, sc_escaped s) b Hesc) as Hst.
  destruct (string_step _ _) as [ins esc]. set (d := depth_step _ _ _).
  pose proof (max_nesting_ge (ins, esc) d l) as Hge.
  destruct (N.ltb_spec limit d) as [Hlt|Hle]; cbn [out_bind]; [split; [done|lia]|].
  specialize (IH (mkScan d ins esc) Hle Hst). cbn [sc_depth sc_in_string sc_escaped] in IH.
  cbn [fst snd]. destruct (out_fold _ _ l); [lia|destruct IH; split; [done|lia]|done..].
Qed.

(** [enforce_nesting] against the exact nesting. *)
Lemma enforce_nesting_exact encoded limits :
  max_json_nesting_depth limits < u16_max →
  enforce_nesting encoded limits =
    if max_nesting (false, false) 0 encoded <=? max_json_nesting_depth limits then Ok tt
    else Err (NestingLimitExceeded (max_json_nesting_depth limits + 1) (max_json_nesting_depth limits)).
Proof.
  intros Hl. unfold enforce_nesting.
  pose proof (nesting_scan_spec (max_json_nesting_depth limits) (mkScan 0 false false) encoded Hl
    (N.le_0_l _) (or_intror eq_refl)) as Hs. cbn in Hs.
  destruct (out_fold _ _ encoded) as [s|e| |]; cbn [out_bind]; [|destruct Hs as [-> Hs]|done..].
  - by rewrite (proj2 (N.leb_le _ _)).
  - by rewrite (proj2 (N.leb_gt _ _)).
Qed.

(** The nesting guard measures JSON nesting exactly: it accepts a message
    when the deepest nesting of brackets and braces outside string literals is
    within the limit and otherwise reports the first excess, whatever the rest
    of the bytes (unbalanced closers, escapes, unterminated strings). *)
Theorem enforce_nesting_spec (encoded : bytes) (limits : RuntimeLimits) :
  max_json_nesting_depth limits < u16_max →
  enforce_nesting encoded limits =
    if max_nesting (false, false) 0 encoded <=? max_json_nesting_depth limits then Ok tt
    else Err (NestingLimitExceeded (max_json_nesting_depth limits + 1) (max_json_nesting_depth limits)).
Proof. apply enforce_nesting_exact. Qed.

Lemma enforce_nesting_spec_witness :
  enforce_nesting (bytes_of_string "{a:[1,{b:2}]}") runtime_limits_default = Ok tt.
Proof. rewrite (enforce_nesting_spec (bytes_of_string "{a:[1,{b:2}]}") runtime_limits_default); reflexivity. Defined.

(** ** Laws of the serialiser *)

(** The documented behaviour the codec relies on: a serialised value followed
    by a newline parses back to itself, and values of the type serialise with
    at most [json_depth] levels of nesting. *)
Class JsonCodecLaws (T : Type) `{JsonCodec T} := {
  json_depth : N;
  json_round_trip : ∀ v b, json_to_vec v = Some b → json_from_slice (b ++ [x0a]) = Ok v;
  json_nesting : ∀ v b, json_to_vec v = Some b → max_nesting (false, false) 0 (b ++ [x0a]) ≤ json_depth;
  json_parse_normal : ∀ b, normal (json_from_slice b);
}.
Arguments json_depth T {_ _}.

(** Limits under which every serialised value passes the nesting guard. *)
Definition nesting_room (T : Type) `{JsonCodecLaws T} (limits : RuntimeLimits) : Prop :=
  json_depth T ≤ max_json_nesting_depth limits ∧ max_json_nesting_depth limits < u16_max.

Section laws.
Context {T : Type} `{Validate T} `{JsonCodecLaws T}.

Lemma encode_ok (v : T) limits b :
  encode v limits = Ok b ↔
  validate v limits = Ok tt ∧ ∃ b0, json_to_vec v = Some b0 ∧ b = b0 ++ [x0a] ∧
    len_or_max u64_max (length b) ≤ max_encoded_bytes limits.
Proof.
  unfold encode, enforce_encoded_size. split.
  - intros He. inv_ok. match goal with x : () |- _ => destruct x end. subst b.
    rename select ((_ <? _) = false) into Hlt. apply N.ltb_ge in Hlt.
    split; [by destruct x|]. eauto.
  - intros (-> & b0 & -> & -> & Hlen). cbn [map_err ok_or out_bind].
    by rewrite (proj2 (N.ltb_ge _ _) Hlen).
Qed.

Lemma decode_encode (v : T) limits b :
  nesting_room T limits → encode v limits = Ok b → decode b limits = Ok v.
Proof.
  intros [Hd Hl] (Hv & b0 & Hb0 & -> & Hlen)%encode_ok. unfold decode, enforce_encoded_size.
  rewrite (proj2 (N.ltb_ge _ _) Hlen). cbn [guard_err out_bind].
  rewrite enforce_nesting_exact by done.
  pose proof (json_nesting v b0 Hb0). rewrite (proj2 (N.leb_le _ _)) by lia. cbn [out_bind].
  rewrite (json_round_trip v b0 Hb0). cbn [map_err out_bind]. by rewrite Hv.
Qed.

Lemma encode_normal (v : T) limits : normal (encode v limits).
Proof.
  unfold encode. apply out_bind_normal; [apply map_err_normal, validate_normal|]. intros _ _.
  apply out_bind_normal; [apply ok_or_normal|]. intros b _.
  apply out_bind_normal; [apply guard_err_normal|done].
Qed.

Lemma nesting_fold_normal limit s l : normal (out_fold (nesting_step limit) s l).
Proof.
  apply (out_fold_normal _ (λ _, True)); [|done..]. intros b [d i e] _ _. unfold nesting_step.
  repeat case_match; try done. apply out_bind_normal; [apply guard_err_normal|done].
Qed.

Lemma decode_normal b limits : normal (decode (T:=T) b limits).
Proof.
  unfold decode, enforce_nesting. apply out_bind_normal; [apply guard_err_normal|]. intros _ _.
  apply out_bind_normal; [apply out_bind_normal; [apply nesting_fold_normal|done]|]. intros _ _.
  apply out_bind_normal; [apply map_err_normal, json_parse_normal|]. intros v _.
  apply out_bind_normal; [apply map_err_normal, validate_normal|done].
Qed.

(** What [encode] produces, [decode] accepts and returns unchanged, under
    limits whose nesting bound admits the message type. *)
Theorem codec_round_trip (v : T) (limits : RuntimeLimits) (b : bytes) :
  nesting_room T limits → encode v limits = Ok b →
  decode b limits = Ok v ∧
  (max_encoded_bytes limits < u64_max → N.of_nat (length b) ≤ max_encoded_bytes limits).
Proof.
  intros Hn He. split; [by apply decode_encode|]. intros Hmax.
  apply encode_ok in He as (_ & b0 & _ & -> & Hlen). rewrite len_or_max_min in Hlen. lia.
Qed.

End laws.

(** ** A serialiser for witnesses

    A finite table of values and their bytes; every other value fails to
    serialise and every other input fails to parse. *)
Module Table.
Section table.
Context {T : Type} `{EqDecision T} (table : list (T * bytes)).

Definition to_vec (v : T) : option bytes := snd <$> find (λ e, bool_decide (e.1 = v)) table.

Definition from_slice (b : bytes) : outcome JsonError T :=
  match find (λ e, bool_decide (e.2 ++ [x0a] = b)) table with
  | Some e => Ok e.1
  | None => Err (mkJsonError JSyntax 1 1)
  end.

Definition codec : JsonCodec T := {| json_to_vec := to_vec; json_from_slice := from_slice |}.

Definition depth : N := foldr N.max 0 ((λ e, max_nesting (false, false) 0 (e.2 ++ [x0a])) <$> table).

Lemma depth_ge e : e ∈ table → max_nesting (false, false) 0 (e.2 ++ [x0a]) ≤ depth.
Proof.
  unfold depth. induction table as [|x l IH]; [set_solver|]. rewrite fmap_cons. cbn [foldr].
  intros [->|Hin]%elem_of_cons; [lia|]. specialize (IH Hin). lia.
Qed.

Lemma laws : NoDup table.*2 → JsonCodecLaws T (H := codec).
Proof.
  intros Hnd. refine {| json_depth := depth |}; cbn.
  - intros v b Hv. unfold to_vec in Hv. apply fmap_Some in Hv as ([v' b'] & Hf & ->). cbn.
    apply find_some in Hf as [Hin Hv]. apply bool_decide_eq_true in Hv. cbn in Hv. subst v'.
    unfold from_slice. destruct (find _ table) as [[v2 b2]|] eqn:Hf2.
    + apply find_some in Hf2 as [Hin2 Hb2]. apply bool_decide_eq_true in Hb2. cbn in *.
      apply app_inv_tail in Hb2 as ->. f_equal.
      apply list_elem_of_In, list_elem_of_lookup in Hin as [i Hi], Hin2 as [j Hj].
      assert (i = j) as <-; [|congruence].
      eapply NoDup_lookup; [done|..]; rewrite list_lookup_fmap; [by rewrite Hi|by rewrite Hj].
    + eapply find_none in Hf2; [|done]. cbn in Hf2. by rewrite bool_decide_true in Hf2.
  - intros v b Hv. unfold to_vec in Hv. apply fmap_Some in Hv as ([v' b'] & Hf & ->).
    apply find_some in Hf as [Hin _]. apply list_elem_of_In in Hin. by apply (depth_ge (v', b')).
  - intros b. unfold from_slice. by destruct (find _ table).
Defined.

End table.
End Table.

Definition sample_json : bytes := bytes_of_string "{ops:[{create:[{}]}]}".
Definition sample_codec : JsonCodec ScenePatch := Table.codec [(sample_patch, sample_json)].
#[local] Existing Instance sample_codec.
Definition sample_codec_laws : JsonCodecLaws ScenePatch := Table.laws [(sample_patch, sample_json)] (NoDup_singleton _).
#[local] Existing Instance sample_codec_laws.

Lemma codec_round_trip_witness :
  decode (sample_json ++ [x0a]) runtime_limits_default = Ok sample_patch.
Proof.
  refine (proj1 (codec_round_trip sample_patch runtime_limits_default (sample_json ++ [x0a]) _ _)).
  - split; [vm_compute; discriminate|reflexivity].
  - vm_compute. reflexivity.
Defined.
