(* ===== verification/Compilation.v ===== *)
(** * Compilation results

    [cogniform-compilation/src]: the bounded report of one compilation, its
    derived limits, canonical orders, validation, and the canonical JSON codec
    with its bounded writer.  The serde serialiser of a report is a parameter:
    the sequence of writes it makes, and the parser of a slice. *)

From S2P Require Import Prelude Machine Ordering Floats Values Components Messages MessageSpec Imagination Codec.

Open Scope N_scope.

(** ** Limits *)

Record CompilationLimits := mkCompilationLimits {
  cl_max_encoded_bytes : N;
  cl_max_decoded_bytes : N;
  cl_max_json_nesting_depth : N;
  cl_max_text_bytes : N;
  cl_max_decisions : N;
  cl_max_unresolved_constraints : N;
  cl_patch_limits : RuntimeLimits;
}.

Definition MAX_DECISIONS_PER_ENTITY : N := 4.
Definition RESULT_TEXT_MULTIPLIER : N := 6.
Definition DECISION_LOGICAL_OVERHEAD : N := 27.
Definition UNRESOLVED_LOGICAL_OVERHEAD : N := 38.
Definition RESULT_LOGICAL_OVERHEAD : N := 35.
Definition MAX_ESCAPED_BYTES_PER_TEXT_BYTE : N := 6.
Definition DECISION_ENCODED_OVERHEAD : N := 192.
Definition UNRESOLVED_ENCODED_OVERHEAD : N := 256.
Definition RESULT_ENCODED_OVERHEAD : N := 1024.
Definition COMPILATION_JSON_NESTING_DEPTH : N := 9.

(** [CompilationLimits::for_runtime_limits]; each derived limit is a sum or
    product with a non-zero term, so the [NonZero] conversions never fail. *)
Definition for_runtime_limits (patch_limits : RuntimeLimits) : CompilationLimits :=
  let decisions := sat_add u32_max
    (sat_mul u32_max (max_imagination_entities patch_limits) MAX_DECISIONS_PER_ENTITY)
    (max_imagination_relations patch_limits) in
  let unresolved := sat_add u32_max (max_imagination_relations patch_limits)
    (max_imagination_constraints patch_limits) in
  let text := sat_mul u64_max (max_text_bytes patch_limits) RESULT_TEXT_MULTIPLIER in
  let decoded := sat_add64 (sat_add64 (sat_add64 (sat_add64 (max_decoded_bytes patch_limits) text)
    (sat_mul u64_max decisions DECISION_LOGICAL_OVERHEAD))
    (sat_mul u64_max unresolved UNRESOLVED_LOGICAL_OVERHEAD)) RESULT_LOGICAL_OVERHEAD in
  let encoded := sat_add64 (sat_add64 (sat_add64 (sat_add64 (max_encoded_bytes patch_limits)
    (sat_mul u64_max text MAX_ESCAPED_BYTES_PER_TEXT_BYTE))
    (sat_mul u64_max decisions DECISION_ENCODED_OVERHEAD))
    (sat_mul u64_max unresolved UNRESOLVED_ENCODED_OVERHEAD)) RESULT_ENCODED_OVERHEAD in
  let nested_patch := sat_add u16_max (max_json_nesting_depth patch_limits) 1 in
  let nesting := if nested_patch <? COMPILATION_JSON_NESTING_DEPTH then COMPILATION_JSON_NESTING_DEPTH
                 else nested_patch in
  {|
    cl_max_encoded_bytes := encoded;
    cl_max_decoded_bytes := decoded;
    cl_max_json_nesting_depth := nesting;
    cl_max_text_bytes := text;
    cl_max_decisions := decisions;
    cl_max_unresolved_constraints := unresolved;
    cl_patch_limits := patch_limits;
  |}.

(** [runtime_limits_fit] and [compilation_limits_fit], the same in the gateway and
    in the session messages. *)
Definition runtime_limits_fit (proposed available : RuntimeLimits) : bool :=
  (max_encoded_bytes proposed <=? max_encoded_bytes available)
  && (max_decoded_bytes proposed <=? max_decoded_bytes available)
  && (max_json_nesting_depth proposed <=? max_json_nesting_depth available)
  && (max_operations proposed <=? max_operations available)
  && (max_components proposed <=? max_components available)
  && (max_components_per_entity proposed <=? max_components_per_entity available)
  && (max_text_bytes proposed <=? max_text_bytes available)
  && (max_diagnostics proposed <=? max_diagnostics available)
  && (max_queue_capacity proposed <=? max_queue_capacity available)
  && (max_imagination_entities proposed <=? max_imagination_entities available)
  && (max_imagination_relations proposed <=? max_imagination_relations available)
  && (max_imagination_constraints proposed <=? max_imagination_constraints available)
  && (max_query_entities proposed <=? max_query_entities available)
  && (max_observation_width proposed <=? max_observation_width available)
  && (max_observation_height proposed <=? max_observation_height available)
  && (max_observation_pixels proposed <=? max_observation_pixels available).

Definition compilation_limits_fit (proposed available : CompilationLimits) : bool :=
  (cl_max_encoded_bytes proposed <=? cl_max_encoded_bytes available)
  && (cl_max_decoded_bytes proposed <=? cl_max_decoded_bytes available)
  && (cl_max_json_nesting_depth proposed <=? cl_max_json_nesting_depth available)
  && (cl_max_text_bytes proposed <=? cl_max_text_bytes available)
  && (cl_max_decisions proposed <=? cl_max_decisions available)
  && (cl_max_unresolved_constraints proposed <=? cl_max_unresolved_constraints available)
  && runtime_limits_fit (cl_patch_limits proposed) (cl_patch_limits available).

(** ** Reports *)

Definition COMPILATION_SCHEMA_VERSION : SchemaVersion := schema_v1.

Inductive CompilationDecisionCode : Type :=
| GeneratedEntityId
| PreferredEntityIdSubstituted
| DefaultName
| DefaultTransform
| DefaultMaterial
| ParentRelationApplied
| AboveRelationApplied
| RightOfRelationApplied.

(** [CompilationDecisionCode::canonical_rank]. *)
Definition decision_rank (c : CompilationDecisionCode) : N :=
  match c with
  | GeneratedEntityId => 0 | PreferredEntityIdSubstituted => 1 | DefaultName => 2
  | DefaultTransform => 3 | DefaultMaterial => 4 | ParentRelationApplied => 5
  | AboveRelationApplied => 6 | RightOfRelationApplied => 7
  end.

Record CompilationDecision := mkDecision {
  cd_code : CompilationDecisionCode;
  cd_entity_key : SceneText;
  cd_relation_index : option N;
  cd_entity_id : option StableEntityId;
}.

(** [CompilationDecision::canonical_cmp]. *)
Definition decision_cmp (a b : CompilationDecision) : comparison :=
  then_with (then_with (text_cmp (cd_entity_key a) (cd_entity_key b))
    (N.compare (decision_rank (cd_code a)) (decision_rank (cd_code b))))
    (option_cmp N.compare (cd_relation_index a) (cd_relation_index b)).

Inductive UnresolvedConstraintCode : Type :=
| UnknownEntityReference
| SelfRelation
| ConflictingRelation
| UrHierarchyCycle
| UrPlacementCycle
| RequiredEntityMissing
| RequiredEntityPresent
| NonFinitePlacement
| UnsupportedSpatialRotation.

(** [UnresolvedConstraintCode::canonical_rank]. *)
Definition unresolved_rank (c : UnresolvedConstraintCode) : N :=
  match c with
  | UnknownEntityReference => 0 | SelfRelation => 1 | ConflictingRelation => 2
  | UrHierarchyCycle => 3 | UrPlacementCycle => 4 | RequiredEntityMissing => 5
  | RequiredEntityPresent => 6 | NonFinitePlacement => 7 | UnsupportedSpatialRotation => 8
  end.

Record UnresolvedConstraint := mkUnresolved {
  uc_code : UnresolvedConstraintCode;
  uc_relation_index : option N;
  uc_constraint_index : option N;
  uc_entity_key : option SceneText;
  uc_related_key : option SceneText;
  uc_entity_id : option StableEntityId;
}.

(** [UnresolvedConstraint::canonical_cmp]. *)
Definition unresolved_cmp (a b : UnresolvedConstraint) : comparison :=
  then_with (then_with (then_with (then_with (then_with
    (option_cmp N.compare (uc_relation_index a) (uc_relation_index b))
    (option_cmp N.compare (uc_constraint_index a) (uc_constraint_index b)))
    (N.compare (unresolved_rank (uc_code a)) (unresolved_rank (uc_code b))))
    (option_cmp text_cmp (uc_entity_key a) (uc_entity_key b)))
    (option_cmp text_cmp (uc_related_key a) (uc_related_key b)))
    (option_cmp N.compare (uc_entity_id a) (uc_entity_id b)).

Record CompilationResult := mkResult {
  cr_schema_version : SchemaVersion;
  cr_imagination_id : ImaginationId;
  cr_scene_revision : SceneRevision;
  cr_patch : option ScenePatch;
  cr_decisions : list CompilationDecision;
  cr_unresolved : list UnresolvedConstraint;
}.

#[export] Instance CompilationDecisionCode_eq_dec : EqDecision CompilationDecisionCode.
Proof. solve_decision. Defined.
#[export] Instance UnresolvedConstraintCode_eq_dec : EqDecision UnresolvedConstraintCode.
Proof. solve_decision. Defined.
#[export] Instance CompilationDecision_eq_dec : EqDecision CompilationDecision.
Proof. solve_decision. Defined.
#[export] Instance UnresolvedConstraint_eq_dec : EqDecision UnresolvedConstraint.
Proof. solve_decision. Defined.
#[export] Instance CompilationResult_eq_dec : EqDecision CompilationResult.
Proof. solve_decision. Defined.

(** [CompilationResult::is_compiled]. *)
Definition is_compiled (r : CompilationResult) : bool :=
  is_some (cr_patch r) && match cr_unresolved r with [] => true | _ => false end.

(** ** Errors *)

Inductive CompilationValidationKind : Type :=
| CvUnsupportedSchema
| CvDecisionLimitExceeded
| CvUnresolvedLimitExceeded
| CvTextLimitExceeded
| CvDecodedSizeLimitExceeded
| CvInvalidPatch
| CvInvalidOutcome
| CvPatchSchemaMismatch
| CvPatchRevisionMismatch
| CvInvalidDecisionShape
| CvInvalidUnresolvedShape
| CvNonCanonicalDecisionOrder
| CvDuplicateDecision
| CvNonCanonicalUnresolvedOrder
| CvDuplicateUnresolved.

Record CompilationValidationError := mkCvError {
  cve_kind : CompilationValidationKind;
  cve_field : string;
  cve_protocol_error : option ValidationError;
}.

(** [CompilationValidationError::new] and [protocol]. *)
Definition cv_error (kind : CompilationValidationKind) (field : string) : CompilationValidationError :=
  mkCvError kind field None.
Definition cv_protocol (field : string) (error : ValidationError) : CompilationValidationError :=
  mkCvError CvInvalidPatch field (Some error).

Inductive CompilationCodecError : Type :=
| CompEncodedSizeExceeded (actual limit : N)
| CompNestingLimitExceeded (actual limit : N)
| CompMalformedJson (category : JsonErrorCategory) (line column : N)
| CompInvalidResult (error : CompilationValidationError)
| CompNonCanonicalResult
| CompSerializationFailed
| CompAllocationFailed.

(** ** Validation *)

(** The [match] of [validate_decisions] on one decision. *)
Definition decision_shape (d : CompilationDecision) : bool :=
  match cd_code d with
  | GeneratedEntityId | PreferredEntityIdSubstituted =>
      negb (is_some (cd_relation_index d)) && is_some (cd_entity_id d)
  | DefaultName | DefaultTransform | DefaultMaterial =>
      negb (is_some (cd_relation_index d)) && negb (is_some (cd_entity_id d))
  | ParentRelationApplied | AboveRelationApplied | RightOfRelationApplied =>
      is_some (cd_relation_index d) && negb (is_some (cd_entity_id d))
  end.

(** The [match] of [validate_unresolved] on one entry. *)
Definition unresolved_shape (u : UnresolvedConstraint) : bool :=
  match uc_code u with
  | RequiredEntityMissing | RequiredEntityPresent =>
      negb (is_some (uc_relation_index u)) && is_some (uc_constraint_index u)
      && negb (is_some (uc_entity_key u)) && negb (is_some (uc_related_key u)) && is_some (uc_entity_id u)
  | _ =>
      is_some (uc_relation_index u) && negb (is_some (uc_constraint_index u))
      && is_some (uc_entity_key u) && is_some (uc_related_key u) && negb (is_some (uc_entity_id u))
  end.

(** The loop over [windows(2)]. *)
Fixpoint validate_order {A} (cmp : A → A → comparison) (duplicate unordered : CompilationValidationError)
    (l : list A) : outcome CompilationValidationError unit :=
  match l with
  | a :: (b :: _) as l =>
      match cmp a b with
      | Lt => validate_order cmp duplicate unordered l
      | Eq => Err duplicate
      | Gt => Err unordered
      end
  | _ => Ok tt
  end.

(** [validate_decisions]. *)
Definition validate_decisions (l : list CompilationDecision) : outcome CompilationValidationError unit :=
  do! out_fold (λ _ d, guard_err (negb (decision_shape d)) (cv_error CvInvalidDecisionShape "decisions[]")) tt l then
  validate_order decision_cmp (cv_error CvDuplicateDecision "decisions")
    (cv_error CvNonCanonicalDecisionOrder "decisions") l.

(** [validate_unresolved]. *)
Definition validate_unresolved (l : list UnresolvedConstraint) : outcome CompilationValidationError unit :=
  do! out_fold (λ _ u, guard_err (negb (unresolved_shape u)) (cv_error CvInvalidUnresolvedShape "unresolved[]")) tt l then
  validate_order unresolved_cmp (cv_error CvDuplicateUnresolved "unresolved")
    (cv_error CvNonCanonicalUnresolvedOrder "unresolved") l.

(** [optional_text_bytes]. *)
Definition optional_text_bytes (value : option SceneText) : N := default 0 (text_len <$> value).

(** [CompilationResult::text_bytes]. *)
Definition result_text_bytes (r : CompilationResult) : N :=
  let patch := default 0 (patch_text_bytes <$> cr_patch r) in
  let decisions := foldl (λ total d, sat_add64 total (text_len (cd_entity_key d))) 0 (cr_decisions r) in
  foldl (λ total u, sat_add64 (sat_add64 total (optional_text_bytes (uc_entity_key u)))
                      (optional_text_bytes (uc_related_key u)))
    (sat_add64 patch decisions) (cr_unresolved r).

(** [decision_logical_size]. *)
Definition decision_logical_size (d : CompilationDecision) : N :=
  sat_add64 (sat_add64 (sat_add64 8 (text_len (cd_entity_key d))) (is_some_u64 (cd_relation_index d) * 4))
    (is_some_u64 (cd_entity_id d) * 16).

(** [unresolved_logical_size]. *)
Definition unresolved_logical_size (u : UnresolvedConstraint) : N :=
  sat_add64 (sat_add64 (sat_add64 (sat_add64 (sat_add64 14 (is_some_u64 (uc_relation_index u) * 4))
    (is_some_u64 (uc_constraint_index u) * 4)) (optional_text_bytes (uc_entity_key u)))
    (optional_text_bytes (uc_related_key u))) (is_some_u64 (uc_entity_id u) * 16).

(** [CompilationResult::logical_size_bytes]. *)
Definition result_logical_size_bytes (r : CompilationResult) : N :=
  let patch := default 0 (patch_logical_size_bytes <$> cr_patch r) in
  let decisions := foldl (λ total d, sat_add64 total (decision_logical_size d)) 0 (cr_decisions r) in
  foldl (λ total u, sat_add64 total (unresolved_logical_size u))
    (sat_add64 (sat_add64 35 patch) decisions) (cr_unresolved r).

(** [CompilationResult::validate]. *)
Definition result_validate (r : CompilationResult) (limits : CompilationLimits)
    : outcome CompilationValidationError unit :=
  do! guard_err (negb (cr_schema_version r =? COMPILATION_SCHEMA_VERSION))
    (cv_error CvUnsupportedSchema "schema_version") then
  do! guard_err (cl_max_decisions limits <? count (length (cr_decisions r)))
    (cv_error CvDecisionLimitExceeded "decisions") then
  do! guard_err (cl_max_unresolved_constraints limits <? count (length (cr_unresolved r)))
    (cv_error CvUnresolvedLimitExceeded "unresolved") then
  do! match cr_patch r, cr_unresolved r with
      | Some patch, [] =>
          do! guard_err (negb (patch_schema_version patch =? cr_schema_version r))
            (cv_error CvPatchSchemaMismatch "patch.schema_version") then
          do! guard_err (negb (patch_base_revision patch =? cr_scene_revision r))
            (cv_error CvPatchRevisionMismatch "patch.base_revision") then
          map_err (cv_protocol "patch") (patch_validate patch (cl_patch_limits limits))
      | None, _ :: _ => Ok tt
      | Some _, _ :: _ | None, [] => Err (cv_error CvInvalidOutcome "patch")
      end then
  do! validate_decisions (cr_decisions r) then
  do! validate_unresolved (cr_unresolved r) then
  do! guard_err (cl_max_text_bytes limits <? result_text_bytes r) (cv_error CvTextLimitExceeded "result") then
  guard_err (cl_max_decoded_bytes limits <? result_logical_size_bytes r)
    (cv_error CvDecodedSizeLimitExceeded "result").

(** ** The codec *)

(** [serde_json::to_writer] makes a sequence of complete writes and may then
    fail by itself; [from_slice] parses a slice. *)
Class ResultJson := {
  json_writes : CompilationResult → list bytes;
  json_fails : CompilationResult → bool;
  json_parse : bytes → outcome JsonError CompilationResult;
}.

(** [enforce_size]. *)
Definition enforce_size (actual : nat) (limit : N) : outcome CompilationCodecError unit :=
  let actual := len_or_max u64_max actual in
  guard_err (limit <? actual) (CompEncodedSizeExceeded actual limit).

(** [enforce_nesting] of this crate, the same scanner with its own error. *)
Definition comp_enforce_nesting (encoded : bytes) (limit : N) : outcome CompilationCodecError unit :=
  match out_fold (nesting_step limit) (mkScan 0 false false) encoded with
  | Ok _ => Ok tt
  | Err (NestingLimitExceeded actual limit) => Err (CompNestingLimitExceeded actual limit)
  | Err _ | Panic => Panic
  | OutOfFuel => OutOfFuel
  end.

(** [<BoundedWriter as Write>::write]; allocation succeeds. *)
Definition bounded_write (limit : N) (written : bytes) (chunk : bytes) : outcome CompilationCodecError bytes :=
  let actual := sat_add64 (len_or_max u64_max (length written)) (len_or_max u64_max (length chunk)) in
  do! guard_err (limit <? actual) (CompEncodedSizeExceeded (sat_add64 actual 1) (sat_add64 limit 1)) then
  Ok (written ++ chunk).

(** [BoundedWriter::push_lf]. *)
Definition push_lf (written : bytes) (complete_limit : N) : outcome CompilationCodecError bytes :=
  do! enforce_size (length written + 1) complete_limit then
  Ok (written ++ [x0a]).

Section codec.
Context `{ResultJson}.

(** [encode_validated]. *)
Definition encode_validated (value : CompilationResult) (limits : CompilationLimits)
    : outcome CompilationCodecError bytes :=
  let limit := cl_max_encoded_bytes limits in
  let! written := out_fold (bounded_write (limit - 1)) [] (json_writes value) in
  do! guard_err (json_fails value) CompSerializationFailed then
  let! written := push_lf written limit in
  do! comp_enforce_nesting written (cl_max_json_nesting_depth limits) then
  Ok written.

(** [codec::encode], behind [to_canonical_json]. *)
Definition result_encode (value : CompilationResult) (limits : CompilationLimits)
    : outcome CompilationCodecError bytes :=
  do! map_err CompInvalidResult (result_validate value limits) then
  encode_validated value limits.

(** [codec::decode], behind [from_canonical_json]. *)
Definition result_decode (encoded : bytes) (limits : CompilationLimits)
    : outcome CompilationCodecError CompilationResult :=
  do! enforce_size (length encoded) (cl_max_encoded_bytes limits) then
  do! comp_enforce_nesting encoded (cl_max_json_nesting_depth limits) then
  let! value := map_err (λ e, CompMalformedJson (je_category e) (je_line e) (je_column e)) (json_parse encoded) in
  do! map_err CompInvalidResult (result_validate value limits) then
  let! canonical := encode_validated value limits in
  do! guard_err (negb (bool_decide (canonical = encoded))) CompNonCanonicalResult then
  Ok value.

End codec.
