(* ===== verification/SceneSpec.v ===== *)
(** * Abstract specification of scene mutation

    What a patch means, without stores, handles, overlays or caches: a scene is
    a finite map from stable identities to component rows together with a
    parent map, operations act on it one after the other, and each failure is
    the error the caller sees.  [CommitRefine],
    [PreflightRefine], [TransformRefine] and [WorldApply] prove that the world's
    preflight and commit implement this specification. *)

From S2P Require Import Prelude Machine BTree Floats Values Components Messages Ecs WorldTypes Hierarchy World.

Open Scope N_scope.

Record scene := mkScene {
  sc_rows : gmap N Row;
  sc_parents : parent_map;
}.

Definition scene_empty : scene := mkScene ∅ ∅.

(** One operation at position [index] of a patch, with at most [capacity]
    entities. *)
Definition spec_operation (capacity : N) (sc : scene) (index : N) (op : SceneOperation)
    : outcome WorldApplyError scene :=
  match op with
  | OpCreate c =>
      let id := create_id c in
      match sc_rows sc !! id with
      | Some _ => Err (EntityAlreadyExists index id)
      | None =>
          if capacity <? N.of_nat (size (sc_rows sc)) + 1
          then Err (EntityCapacityExceeded index id capacity)
          else Ok (mkScene (<[id := create_row c]> (sc_rows sc)) (sc_parents sc))
      end
  | OpDelete d =>
      let id := delete_id d in
      match sc_rows sc !! id with
      | Some _ => Ok (mkScene (delete id (sc_rows sc)) (delete id (sc_parents sc)))
      | None => Err (EntityNotFound index id)
      end
  | OpSetComponent s =>
      let id := set_id s in
      match sc_rows sc !! id with
      | Some r => Ok (mkScene (<[id := row_insert r (set_value s)]> (sc_rows sc)) (sc_parents sc))
      | None => Err (EntityNotFound index id)
      end
  | OpRemoveComponent rm =>
      let id := remove_id rm in
      match sc_rows sc !! id with
      | Some r =>
          match row_get r (remove_kind rm) with
          | Some _ => Ok (mkScene (<[id := row_remove r (remove_kind rm)]> (sc_rows sc)) (sc_parents sc))
          | None => Err (ComponentNotFound index id (remove_kind rm))
          end
      | None => Err (EntityNotFound index id)
      end
  | OpReparent rp =>
      let id := reparent_id rp in
      match sc_rows sc !! id with
      | None => Err (EntityNotFound index id)
      | Some _ =>
          match reparent_parent rp with
          | None => Ok (mkScene (sc_rows sc) (delete id (sc_parents sc)))
          | Some p =>
              match sc_rows sc !! p with
              | None => Err (EntityNotFound index p)
              | Some _ => Ok (mkScene (sc_rows sc) (<[id := p]> (sc_parents sc)))
              end
          end
      end
  end.

(** The operations of a patch in order, from position [index]. *)
Fixpoint spec_operations (capacity : N) (sc : scene) (index : nat) (ops : list SceneOperation)
    : outcome WorldApplyError scene :=
  match ops with
  | [] => Ok sc
  | op :: ops =>
      let! sc := spec_operation capacity sc (N.of_nat index) op in
      spec_operations capacity sc (S index) ops
  end.

(** The entity an operation names, and those a patch names. *)
Definition operation_target (op : SceneOperation) : StableEntityId :=
  match op with
  | OpCreate c => create_id c
  | OpDelete d => delete_id d
  | OpSetComponent s => set_id s
  | OpRemoveComponent r => remove_id r
  | OpReparent r => reparent_id r
  end.

Definition targets (ops : list SceneOperation) : gset N := list_to_set (operation_target <$> ops).

(** ** Derived transforms from scratch

    [world_matrix sc x m]: [m] is the world matrix of [x], obtained by
    composing local transforms from the root down. *)
Inductive world_matrix (sc : scene) : N → list f64 → Prop :=
| wm_root x r t :
    sc_rows sc !! x = Some r → sc_parents sc !! x = None →
    from_local (row_local_transform r) 0 = Some t →
    world_matrix sc x (wt_matrix t)
| wm_child x p r mp l t :
    sc_rows sc !! x = Some r → sc_parents sc !! x = Some p → world_matrix sc p mp →
    from_local (row_local_transform r) 0 = Some l →
    compose (mkWorldTransform mp 0) l 0 = Some t →
    world_matrix sc x (wt_matrix t).

Lemma world_matrix_unique sc x m m' : world_matrix sc x m → world_matrix sc x m' → m = m'.
Proof.
  intros Hm. revert m'. induction Hm as [x r t Hr Hp Hl|x p r mp l t Hr Hp _ IH Hl Hc];
    intros m' Hm'; inversion Hm' as [? r' t' Hr' Hp' Hl'|? p' r' mp' l' t' Hr' Hp' Hm0 Hl' Hc']; simplify_eq;
    [done|]. apply IH in Hm0 as <-. congruence.
Qed.

(** ** Rows of creates *)

Lemma foldl_row_insert_get r cs k :
  NoDup (component_kind <$> cs) →
  row_get (foldl row_insert r cs) k
  = match find (λ c, bool_decide (component_kind c = k)) cs with
    | Some c => Some c
    | None => row_get r k
    end.
Proof.
  revert r. induction cs as [|c cs IH]; intros r; [done|].
  rewrite fmap_cons, NoDup_cons. intros [Hc Hnd]. cbn [foldl find]. rewrite IH by done.
  case_bool_decide as Hk.
  - assert (find (λ c, bool_decide (component_kind c = k)) cs = None) as ->.
    { destruct (find _ cs) as [c'|] eqn:E; [|done]. apply find_some in E as [Hin E].
      apply bool_decide_eq_true in E. exfalso. apply Hc. rewrite Hk, <-E.
      apply list_elem_of_fmap. exists c'. split; [done|]. by apply list_elem_of_In. }
    rewrite row_get_insert, decide_True by done. done.
  - destruct (find _ cs); [done|]. rewrite row_get_insert, decide_False by done. done.
Qed.

Lemma foldl_row_insert_some r cs k :
  is_some (row_get (foldl row_insert r cs) k)
  = is_some (row_get r k) || bool_decide (k ∈ component_kind <$> cs).
Proof.
  revert r. induction cs as [|c cs IH]; intros r.
  - rewrite bool_decide_false by set_solver. by rewrite orb_false_r.
  - cbn [foldl]. rewrite IH, row_get_insert, fmap_cons.
    destruct (decide (k = component_kind c)) as [->|Hne].
    + rewrite (bool_decide_true (component_kind c ∈ _ :: _)) by set_solver. simpl.
      by rewrite orb_true_r.
    + f_equal. apply bool_decide_ext. set_solver.
Qed.

Lemma row_stable_id_foldl r cs : row_stable_id (foldl row_insert r cs) = row_stable_id r.
Proof.
  revert r. induction cs as [|c cs IH]; intros r; [done|]. cbn [foldl].
  by rewrite IH, row_stable_id_insert.
Qed.

Lemma create_row_marker c : row_stable_id (create_row c) = Some (create_id c).
Proof. unfold create_row. by rewrite row_stable_id_foldl. Qed.

Lemma create_row_some c k :
  is_some (row_get (create_row c) k) = bool_decide (k ∈ component_kind <$> create_components c).
Proof. unfold create_row. rewrite foldl_row_insert_some. by destruct k. Qed.

(** The transform a create records for propagation is the one it stores. *)
Lemma create_row_local c :
  NoDup (component_kind <$> create_components c) →
  row_local_transform (create_row c) = find_local_transform (create_components c).
Proof.
  intros Hnd. pose proof (foldl_row_insert_get (row_add_marker row_empty (create_id c))
    (create_components c) KLocalTransform Hnd) as Hg.
  fold (create_row c) in Hg. cbn [row_get] in Hg. unfold find_local_transform.
  clear Hnd. revert Hg. generalize (row_local_transform (create_row c)). intros o Hg.
  assert (head (omap (λ c, match c with CLocalTransform v => Some v | _ => None end) (create_components c))
    = match find (λ c, bool_decide (component_kind c = KLocalTransform)) (create_components c) with
      | Some (CLocalTransform v) => Some v | _ => None end) as ->.
  { clear Hg. induction (create_components c) as [|x cs IH]; [done|].
    destruct x; cbn; solve [exact IH | reflexivity]. }
  destruct (find _ (create_components c)) as [x|] eqn:E.
  - apply find_some in E as [_ E]. apply bool_decide_eq_true in E.
    destruct x; try discriminate E. destruct o; simpl in Hg; congruence.
  - destruct o; simpl in Hg; congruence.
Qed.

(** ** Typed rows *)

Definition typed_row (r : Row) : Prop := ∀ k c, row_get r k = Some c → typed_component c.

Lemma typed_row_insert r c : typed_row r → typed_component c → typed_row (row_insert r c).
Proof. intros Hr Hc k c'. rewrite row_get_insert. case_decide; naive_solver. Qed.

Lemma typed_row_remove r k : typed_row r → typed_row (row_remove r k).
Proof. intros Hr k' c. rewrite row_get_remove. case_decide; naive_solver. Qed.

Lemma typed_create_row c : Forall typed_component (create_components c) → typed_row (create_row c).
Proof.
  unfold create_row. intros Hc.
  assert (typed_row (row_add_marker row_empty (create_id c))) as Hr by (intros k c'; by destruct k).
  revert Hr. generalize (row_add_marker row_empty (create_id c)).
  induction Hc as [|x l Hx _ IH]; intros r Hr; [done|]. apply IH. by apply typed_row_insert.
Qed.

Lemma typed_row_local r t : typed_row r → row_local_transform r = Some t → typed_component (CLocalTransform t).
Proof. intros Hr Ht. apply (Hr KLocalTransform). simpl. by rewrite Ht. Qed.

(** ** Masks mirror rows *)

Lemma mask_contains_insert m k k' :
  mask_contains (mask_insert m k') k = mask_contains m k || bool_decide (k = k').
Proof.
  unfold mask_contains, mask_insert. rewrite N.land_lor_distr_l.
  destruct (decide (k = k')) as [->|Hne].
  - rewrite bool_decide_true, orb_true_r by done.
    rewrite N.land_diag. apply negb_true_iff, N.eqb_neq. intros [_ Hz]%N.lor_eq_0_iff. by destruct k'.
  - rewrite bool_decide_false, orb_false_r by done.
    replace (N.land (mask_bit k') (mask_bit k)) with 0 by (by destruct k, k').
    by rewrite N.lor_0_r.
Qed.

Lemma mask_contains_remove m k k' :
  mask_contains (mask_remove m k') k = mask_contains m k && negb (bool_decide (k = k')).
Proof.
  unfold mask_contains, mask_remove. rewrite <-N.land_assoc.
  destruct (decide (k = k')) as [->|Hne].
  - rewrite bool_decide_true, andb_false_r by done.
    replace (N.land (N.lxor u8_max (mask_bit k')) (mask_bit k')) with 0 by (by destruct k').
    by rewrite N.land_0_r.
  - rewrite bool_decide_false, andb_true_r by done.
    by replace (N.land (N.lxor u8_max (mask_bit k')) (mask_bit k)) with (mask_bit k) by (by destruct k, k').
Qed.

Lemma mask_contains_empty k : mask_contains mask_empty k = false.
Proof. by destruct k. Qed.

Lemma mask_from_values_contains cs k :
  mask_contains (mask_from_values cs) k = bool_decide (k ∈ component_kind <$> cs).
Proof.
  unfold mask_from_values.
  assert (∀ m, mask_contains (foldl (λ m c, mask_insert m (component_kind c)) m cs) k
    = mask_contains m k || bool_decide (k ∈ component_kind <$> cs)) as ->;
    [|by rewrite mask_contains_empty].
  induction cs as [|c cs IH]; intros m.
  - rewrite bool_decide_false by set_solver. by rewrite orb_false_r.
  - cbn [foldl]. rewrite IH, mask_contains_insert, fmap_cons, <-orb_assoc. f_equal.
    rewrite <-bool_decide_or. apply bool_decide_ext. set_solver.
Qed.
