(* ===== verification/CommitRefine.v ===== *)
(** * Commit implements the scene specification

    The store and index mutated by [commit] represent a map from stable
    identities to rows; every operation the specification accepts is carried
    out on them without a panic and lands on the specified scene. *)

From S2P Require Import Prelude Machine BTree Floats Values Components Messages Ecs WorldTypes Hierarchy Render World SceneSpec.

Open Scope N_scope.

Section commit.
Context {W E : Type} `{EqDecision E} `{!EntityStore W E} `{!EntityStoreLaws W E}.

(** The rows behind an index. *)
Definition abs_rows (st : W) (idx : gmap N E) : gmap N Row := omap (es_row st) idx.

(** The scene a world represents. *)
Definition abs_scene (w : AuthoritativeWorld W E) : scene :=
  mkScene (abs_rows (storage w) (stable_index w)) (parents w).

(** Every indexed handle is live and carries its own identity, and the store
    holds nothing else. *)
Record store_ok (st : W) (idx : gmap N E) : Prop := {
  so_len : es_len st = N.of_nat (size idx);
  so_rows : ∀ id e, idx !! id = Some e → ∃ r, es_row st e = Some r ∧ row_stable_id r = Some id;
}.

Lemma lookup_abs_rows st idx id : abs_rows st idx !! id = idx !! id ≫= es_row st.
Proof. unfold abs_rows. apply lookup_omap. Qed.

Lemma store_ok_dom st idx : store_ok st idx → dom (abs_rows st idx) = dom idx.
Proof.
  intros [_ Hr]. apply set_eq. intros id. rewrite !elem_of_dom, lookup_abs_rows.
  split; intros [x Hx].
  - apply bind_Some in Hx as (e & ? & _). eauto.
  - rewrite Hx. simpl. destruct (Hr _ _ Hx) as (r & ? & _). eauto.
Qed.

Lemma store_ok_size st idx : store_ok st idx → size (abs_rows st idx) = size idx.
Proof. intros H. rewrite <-!(size_dom (D:=gset N)). by rewrite store_ok_dom. Qed.

Lemma store_ok_inj st idx a b e : store_ok st idx → idx !! a = Some e → idx !! b = Some e → a = b.
Proof.
  intros [_ Hr] Ha Hb. destruct (Hr _ _ Ha) as (r & Hr1 & ?), (Hr _ _ Hb) as (r' & Hr2 & ?).
  congruence.
Qed.

Lemma store_ok_live st idx id r :
  store_ok st idx → abs_rows st idx !! id = Some r →
  ∃ e, idx !! id = Some e ∧ es_row st e = Some r ∧ row_stable_id r = Some id.
Proof.
  intros Hs Ha. rewrite lookup_abs_rows in Ha. apply bind_Some in Ha as (e & He & Hr).
  exists e. split_and!; [done..|]. destruct (so_rows _ _ Hs _ _ He) as (r' & ? & ?). congruence.
Qed.

Lemma store_ok_empty : store_ok es_empty ∅.
Proof. split; [apply es_len_empty|]. intros id e. by rewrite lookup_empty. Qed.

Lemma spawn_sim st idx id r e st' :
  store_ok st idx → idx !! id = None → row_stable_id r = Some id → es_spawn st r = (e, st') →
  store_ok st' (<[id := e]> idx) ∧ abs_rows st' (<[id := e]> idx) = <[id := r]> (abs_rows st idx).
Proof.
  intros Hs Hid Hr Hsp.
  pose proof (es_spawn_fresh _ _ _ _ Hsp) as Hfresh.
  pose proof (es_spawn_row _ _ _ _ Hsp) as Hrow.
  assert (∀ id' e', idx !! id' = Some e' → e ≠ e') as Hne.
  { intros id' e' He' ->. destruct (so_rows _ _ Hs _ _ He') as (? & ? & _). congruence. }
  split.
  - split.
    + rewrite (es_spawn_len _ _ _ _ Hsp), (so_len _ _ Hs), map_size_insert_None by done. lia.
    + intros id' e'. rewrite lookup_insert_Some. intros [[<- <-]|[_ He']].
      * exists r. by rewrite Hrow, decide_True.
      * rewrite Hrow, decide_False by eauto. by apply (so_rows _ _ Hs).
  - apply map_eq. intros id'. rewrite lookup_abs_rows. destruct (decide (id = id')) as [<-|Hne'].
    + rewrite !lookup_insert_eq. simpl. by rewrite Hrow, decide_True.
    + rewrite !lookup_insert_ne, lookup_abs_rows by done.
      destruct (idx !! id') as [e'|] eqn:He'; [|done]. simpl. rewrite Hrow, decide_False by eauto. done.
Qed.

Lemma despawn_sim st idx id e :
  store_ok st idx → idx !! id = Some e →
  ∃ st', es_despawn st e = Some st' ∧ store_ok st' (delete id idx) ∧
    abs_rows st' (delete id idx) = delete id (abs_rows st idx).
Proof.
  intros Hs He. destruct (so_rows _ _ Hs _ _ He) as (r & Hr & _).
  destruct (es_despawn_live _ _ _ Hr) as (st' & Hd & Hlen & Hrow). exists st'. split; [done|].
  assert (∀ id' e', delete id idx !! id' = Some e' → e ≠ e' ∧ idx !! id' = Some e') as Hne.
  { intros id' e'. rewrite lookup_delete_Some. intros [Hne He']. split; [|done].
    intros ->. by apply Hne, (store_ok_inj st idx id id' e'). }
  split.
  - split.
    + rewrite (so_len _ _ Hs) in Hlen. rewrite map_size_delete_Some by eauto.
      assert (size idx ≠ 0%nat); [|lia]. intros Hz%map_size_empty_inv. by rewrite Hz in He.
    + intros id' e' [Hne' He']%Hne. rewrite Hrow, decide_False by done. by apply (so_rows _ _ Hs).
  - apply map_eq. intros id'. rewrite lookup_abs_rows.
    destruct (decide (id = id')) as [<-|Hne']; [by rewrite !lookup_delete_eq|].
    destruct (delete id idx !! id') as [e'|] eqn:He'.
    + destruct (Hne _ _ He') as [? He'']. simpl.
      by rewrite Hrow, decide_False, lookup_delete_ne, lookup_abs_rows, He'' by done.
    + rewrite lookup_delete_ne in He' by done. by rewrite lookup_delete_ne, lookup_abs_rows, He' by done.
Qed.

(** An update of one live row. *)
Lemma update_sim st st' idx id e r r' :
  store_ok st idx → idx !! id = Some e → es_row st e = Some r →
  row_stable_id r' = row_stable_id r → es_len st' = es_len st →
  (∀ e', es_row st' e' = if decide (e = e') then Some r' else es_row st e') →
  store_ok st' idx ∧ abs_rows st' idx = <[id := r']> (abs_rows st idx).
Proof.
  intros Hs He Hr Hid Hlen Hrow. split.
  - split; [by rewrite Hlen, (so_len _ _ Hs)|]. intros id' e' He'.
    destruct (so_rows _ _ Hs _ _ He') as (r0 & Hr0 & Hid0). rewrite Hrow.
    case_decide; [|eauto]. exists r'. split; [done|]. congruence.
  - apply map_eq. intros id'. rewrite lookup_abs_rows.
    destruct (decide (id = id')) as [<-|Hne].
    + rewrite lookup_insert_eq, He. simpl. by rewrite Hrow, decide_True.
    + rewrite lookup_insert_ne, lookup_abs_rows by done.
      destruct (idx !! id') as [e'|] eqn:He'; [|done]. simpl. rewrite Hrow, decide_False; [done|].
      intros ->. by apply Hne, (store_ok_inj st idx id id' e').
Qed.

(** One operation. *)
Lemma commit_operation_sim st idx ps capacity i op sc :
  store_ok st idx → spec_operation capacity (mkScene (abs_rows st idx) ps) i op = Ok sc →
  ∃ st' idx', commit_operation (st, idx) op = Ok (st', idx') ∧ store_ok st' idx' ∧
    sc_rows sc = abs_rows st' idx'.
Proof.
  intros Hs. destruct op as [c|d|s|rm|rp]; cbn [spec_operation sc_rows sc_parents commit_operation].
  - destruct (abs_rows st idx !! create_id c) eqn:E1; [done|]. case_match; [done|]. intros Hok. inv_ok. subst.
    assert (idx !! create_id c = None) as Hid.
    { apply not_elem_of_dom. rewrite <-(store_ok_dom st) by done. by apply not_elem_of_dom. }
    destruct (es_spawn st (create_row c)) as [e st'] eqn:Hsp. rewrite Hid.
    destruct (spawn_sim st idx (create_id c) (create_row c) e st' Hs Hid (create_row_marker c) Hsp).
    eauto.
  - destruct (abs_rows st idx !! delete_id d) as [r|] eqn:E1; [|done]. intros H. inv_ok. subst.
    destruct (store_ok_live _ _ _ _ Hs E1) as (e & He & Hr & _).
    destruct (despawn_sim st idx (delete_id d) e Hs He) as (st' & Hd & ? & ?).
    rewrite He. cbn [expect out_bind]. rewrite Hd. cbn [expect out_bind]. eauto.
  - destruct (abs_rows st idx !! set_id s) as [r|] eqn:E1; [|done]. intros H. inv_ok. subst.
    destruct (store_ok_live _ _ _ _ Hs E1) as (e & He & Hr & _).
    destruct (es_insert_live _ _ _ (set_value s) Hr) as (st' & Hi & Hlen & Hrow).
    rewrite He. cbn [expect out_bind]. rewrite Hi. cbn [expect out_bind].
    destruct (update_sim st st' idx (set_id s) e r _ Hs He Hr (row_stable_id_insert _ _) Hlen Hrow). eauto.
  - destruct (abs_rows st idx !! remove_id rm) as [r|] eqn:E1; [|done].
    destruct (row_get r (remove_kind rm)) as [v|] eqn:Ek; [|done]. intros H. inv_ok. subst.
    destruct (store_ok_live _ _ _ _ Hs E1) as (e & He & Hr & _).
    destruct (es_remove_live _ _ _ (remove_kind rm) Hr (mk_is_Some _ _ Ek)) as (st' & Hi & Hlen & Hrow).
    rewrite He. cbn [expect out_bind]. rewrite Hi. cbn [expect out_bind].
    destruct (update_sim st st' idx (remove_id rm) e r _ Hs He Hr (row_stable_id_remove _ _) Hlen Hrow). eauto.
  - intros H. exists st, idx. split; [done|]. split; [done|].
    destruct (abs_rows st idx !! reparent_id rp); [|done].
    destruct (reparent_parent rp) as [p|]; [destruct (abs_rows st idx !! p); [|done]|]; inv_ok; by subst.
Qed.

Lemma scene_eta sc : mkScene (sc_rows sc) (sc_parents sc) = sc.
Proof. by destruct sc. Qed.

(** The commit loop. *)
Lemma commit_fold_sim st idx ps capacity i ops sc :
  store_ok st idx → spec_operations capacity (mkScene (abs_rows st idx) ps) i ops = Ok sc →
  ∃ st' idx', out_fold commit_operation (st, idx) ops = Ok (st', idx') ∧ store_ok st' idx' ∧
    sc_rows sc = abs_rows st' idx'.
Proof.
  revert st idx ps i. induction ops as [|op ops IH]; intros st idx ps i Hs; cbn [spec_operations out_fold].
  - intros H. inv_ok. subst. eauto.
  - intros (sc1 & H1 & H)%out_bind_ok.
    destruct (commit_operation_sim st idx ps capacity (N.of_nat i) op sc1 Hs H1) as (st' & idx' & -> & Hs' & E1).
    cbn [out_bind]. apply (IH _ _ (sc_parents sc1) (S i) Hs'). rewrite <-E1, scene_eta. done.
Qed.

End commit.
