(* ===== verification/PreflightRefine.v ===== *)
(** * Preflight implements the scene specification

    [preflight] never touches the store: it keeps an overlay of existence and
    component masks, copy-on-write parents, transform overrides and three
    change sets.  [pf_sim] relates that overlay to the scene obtained by
    carrying the operations out, and each preflight step is proved to follow
    the specification, error for error. *)

From S2P Require Import Prelude Machine BTree Floats Values Components Messages MessageSpec Ecs WorldTypes Hierarchy Render World SceneSpec CommitRefine.

Open Scope N_scope.

(** The render-domain columns of a row. *)
Definition render_columns (r : Row) : RenderComponents := {|
  rc_primitive := row_primitive r;
  rc_material := row_material r;
  rc_camera := row_camera r;
  rc_light := row_light r;
  rc_asset_mesh := row_asset_mesh r;
|}.

Lemma render_columns_set_name r c :
  component_kind c = KName → render_columns (row_insert r c) = render_columns r.
Proof. by destruct r, c. Qed.

Lemma render_columns_remove_name r : render_columns (row_remove r KName) = render_columns r.
Proof. by destruct r. Qed.

Lemma row_local_insert r c :
  row_local_transform (row_insert r c)
  = match c with CLocalTransform v => Some v | _ => row_local_transform r end.
Proof. by destruct r, c. Qed.

Lemma row_local_remove r k :
  row_local_transform (row_remove r k)
  = if decide (k = KLocalTransform) then None else row_local_transform r.
Proof. by destruct r, k. Qed.

(** [local_differs] compares typed transforms exactly. *)
Lemma local_differs_spec o v :
  from_option (λ t, typed_component (CLocalTransform t)) True o → typed_component (CLocalTransform v) →
  local_differs o v = negb (bool_decide (o = Some v)).
Proof.
  destruct o as [t|]; cbn [local_differs from_option]; intros Ht Hv.
  - f_equal. pose proof (local_transform_eqb_eq t v Ht Hv) as Heq.
    case_bool_decide as Hd.
    + apply Heq. congruence.
    + apply not_true_iff_false. intros ?. apply Hd. f_equal. by apply Heq.
  - by rewrite bool_decide_false.
Qed.

Section preflight.
Context {W E : Type} `{EqDecision E} `{!EntityStore W E} `{!EntityStoreLaws W E}.
Context (w : AuthoritativeWorld W E).
Context (Hstore : store_ok (storage w) (stable_index w)).

Lemma lookup_abs_scene id :
  sc_rows (abs_scene w) !! id = stable_index w !! id ≫= es_row (storage w).
Proof. apply lookup_abs_rows. Qed.

Lemma component_mask_contains e r k :
  es_row (storage w) e = Some r → mask_contains (component_mask w e) k = is_some (row_get r k).
Proof.
  intros Hr. unfold component_mask, storage_get. rewrite Hr. cbn [mbind option_bind].
  assert (∀ l m, mask_contains (foldl (λ mask k, if is_some (row_get r k) then mask_insert mask k else mask) m l) k
    = mask_contains m k || (bool_decide (k ∈ l) && is_some (row_get r k))) as ->.
  - intros l. induction l as [|k' l IH]; intros m; cbn [foldl].
    + rewrite bool_decide_false by set_solver. by rewrite orb_false_r.
    + rewrite IH. destruct (decide (k = k')) as [<-|Hne].
      * rewrite (bool_decide_true (k ∈ k :: l)) by set_solver.
        destruct (is_some (row_get r k)); [|by rewrite !andb_false_r].
        rewrite mask_contains_insert, bool_decide_true by done. by rewrite !orb_true_r.
      * rewrite (bool_decide_ext (k ∈ k' :: l) (k ∈ l)) by set_solver. f_equal.
        destruct (is_some (row_get r k')); [|done].
        by rewrite mask_contains_insert, (bool_decide_false (k = k')), orb_false_r.
  - rewrite mask_contains_empty, bool_decide_true by apply elem_of_all_kinds. done.
Qed.

(** What the overlay says of one entity. *)
Definition state_of (o : option Row) (st : EntityState) : Prop :=
  es_exists st = is_some o ∧ ∀ k, mask_contains (es_components st) k = is_some (o ≫= λ r, row_get r k).

Lemma stored_entity_state_of id :
  ∃ st, stored_entity_state w id = Ok st ∧ state_of (sc_rows (abs_scene w) !! id) st.
Proof.
  rewrite lookup_abs_scene. unfold stored_entity_state.
  destruct (stable_index w !! id) as [e|] eqn:He; [|eexists; split; [done|]; split; [done|apply mask_contains_empty]].
  destruct (so_rows _ _ Hstore _ _ He) as (r & Hr & Hid). simpl. rewrite Hr. cbn [is_some negb guard_err out_bind].
  unfold marker_matches. rewrite Hr. simpl. rewrite bool_decide_true by done. simpl.
  eexists. split; [done|]. split; [done|]. intros k. by rewrite (component_mask_contains e r).
Qed.

(** [pf_sim s sc]: the preflight state [s] describes the scene [sc]. *)
Record pf_sim (s : PreflightState) (sc : scene) : Prop := {
  ps_state : ∀ id, ∃ st, overlay_state w (pf_overlay s) id = Ok st ∧ state_of (sc_rows sc !! id) st;
  ps_local : ∀ id r, sc_rows sc !! id = Some r →
    effective_local_transform w (pf_local_overrides s) id = row_local_transform r;
  ps_parents : cow_get (pf_parents s) = sc_parents sc;
  ps_live : pf_live_entities s = N.of_nat (size (sc_rows sc));
  ps_dirty : ∀ id, id ∈ pf_dirty_roots s → is_Some (sc_rows sc !! id);
  ps_clean : ∀ id r, sc_rows sc !! id = Some r → id ∉ pf_dirty_roots s →
    ∃ r0, sc_rows (abs_scene w) !! id = Some r0 ∧ row_local_transform r0 = row_local_transform r ∧
      parents w !! id = sc_parents sc !! id;
  ps_render : ∀ id, id ∉ pf_render_changed_ids s →
    render_columns <$> sc_rows sc !! id = render_columns <$> sc_rows (abs_scene w) !! id;
  ps_hierarchy : pf_hierarchy_changed s = false →
    dom (sc_rows sc) = dom (sc_rows (abs_scene w)) ∧ sc_parents sc = parents w;
  ps_borrowed : ∀ m, pf_parents s = Borrowed m → m = parents w;
  ps_typed : ∀ id r, sc_rows sc !! id = Some r → typed_id id ∧ typed_row r;
}.

Definition preflight_start (live : N) : PreflightState :=
  mkPreflight ∅ (Borrowed (parents w)) ∅ ∅ ∅ false live [].

Context (Htyped : ∀ id r, sc_rows (abs_scene w) !! id = Some r → typed_id id ∧ typed_row r).

Lemma pf_sim_start : pf_sim (preflight_start (N.of_nat (size (stable_index w)))) (abs_scene w).
Proof.
  split; simpl; try done.
  - intros id. unfold overlay_state. rewrite lookup_empty. apply stored_entity_state_of.
  - intros id r Hr. unfold effective_local_transform. rewrite lookup_empty.
    destruct (store_ok_live _ _ _ _ Hstore Hr) as (e & -> & He & _). simpl. unfold storage_local.
    by rewrite He.
  - by rewrite store_ok_size.
  - intros id r Hr _. eauto.
  - by intros m [= <-].
Qed.

Lemma pf_sim_push s sc op : pf_sim s sc → pf_sim (pf_push s op) sc.
Proof. intros []. by split. Qed.

Lemma overlay_state_insert overlay id st id' :
  overlay_state w (<[id := st]> overlay) id'
  = if decide (id = id') then Ok st else overlay_state w overlay id'.
Proof.
  unfold overlay_state. case_decide as Hid; [subst; by rewrite lookup_insert_eq|].
  by rewrite lookup_insert_ne.
Qed.

(** Updating one entity of the overlay along with the scene. *)
Lemma state_update s (sc : scene) id st (rows : gmap N Row) :
  pf_sim s sc → state_of (rows !! id) st → (∀ id', id ≠ id' → rows !! id' = sc_rows sc !! id') →
  ∀ id', ∃ st', overlay_state w (<[id := st]> (pf_overlay s)) id' = Ok st' ∧ state_of (rows !! id') st'.
Proof.
  intros Hs Hst Hrows id'. rewrite overlay_state_insert. case_decide as Hid.
  - subst. eauto.
  - rewrite Hrows by done. apply (ps_state _ _ Hs).
Qed.

Lemma effective_insert overrides id v id' :
  effective_local_transform w (<[id := v]> overrides) id'
  = if decide (id = id') then v else effective_local_transform w overrides id'.
Proof.
  unfold effective_local_transform. case_decide; [subst; by rewrite lookup_insert_eq|].
  by rewrite lookup_insert_ne.
Qed.

Context (Hcapacity : max_entities (config w) ≤ u32_max).

(** The specification at the capacity of this world. *)
Abbreviation spec_op := (spec_operation (max_entities (config w))).

Lemma preflight_create_sim s sc c i :
  pf_sim s sc → typed_operation (OpCreate c) → NoDup (component_kind <$> create_components c) →
  follows pf_sim (preflight_create w s c i) (spec_op sc i (OpCreate c)).
Proof.
  intros Hs [Hcid Hc] Hnd. unfold preflight_create. cbn [spec_operation].
  destruct (ps_state _ _ Hs (create_id c)) as (st & -> & Hex & _). cbn [out_bind]. rewrite Hex.
  destruct (sc_rows sc !! create_id c) as [r|] eqn:Er; [done|]. cbn [is_some guard_err out_bind].
  rewrite (ps_live _ _ Hs). unfold checked_add.
  destruct (N.ltb_spec (max_entities (config w)) (N.of_nat (size (sc_rows sc)) + 1)) as [Hlt|Hge].
  { destruct (N.leb_spec (N.of_nat (size (sc_rows sc)) + 1) u32_max); [|done]. simpl.
    by rewrite (proj2 (N.ltb_lt _ _) Hlt). }
  rewrite (proj2 (N.leb_le _ _)) by lia. cbn [ok_or out_bind].
  rewrite (proj2 (N.ltb_ge _ _)) by done. cbn [guard_err out_bind].
  eexists. split; [done|]. split; cbn.
  - apply (state_update s sc); [done| |intros; by rewrite lookup_insert_ne].
    rewrite lookup_insert_eq. split; [done|]. intros k. simpl.
    by rewrite mask_from_values_contains, create_row_some.
  - intros id r. rewrite effective_insert, lookup_insert_Some. intros [[-> <-]|[Hne Hr]].
    + rewrite decide_True by done. symmetry. by apply create_row_local.
    + rewrite decide_False by done. by apply (ps_local _ _ Hs).
  - apply (ps_parents _ _ Hs).
  - rewrite map_size_insert_None by done. lia.
  - intros id [->%elem_of_singleton|Hid]%elem_of_union; [by rewrite lookup_insert_eq|].
    apply lookup_insert_is_Some'. right. by apply (ps_dirty _ _ Hs).
  - intros id r Hr Hid. apply not_elem_of_union in Hid as [Hne Hid].
    rewrite lookup_insert_ne in Hr by set_solver. by apply (ps_clean _ _ Hs).
  - intros id Hid. apply not_elem_of_union in Hid as [Hne Hid].
    rewrite lookup_insert_ne by set_solver. by apply (ps_render _ _ Hs).
  - done.
  - apply (ps_borrowed _ _ Hs).
  - intros id r. rewrite lookup_insert_Some. intros [[<- <-]|[_ Hr]]; [split; [done|by apply typed_create_row]|].
    by apply (ps_typed _ _ Hs _ _ Hr).
Qed.

Lemma cow_delete_get s id :
  cow_get (if is_some (cow_get (pf_parents s) !! id) then cow_update (delete id) (pf_parents s)
           else pf_parents s) = delete id (cow_get (pf_parents s)).
Proof.
  destruct (cow_get (pf_parents s) !! id) eqn:Hid; simpl; [done|]. by rewrite fin_maps.delete_id.
Qed.

Lemma preflight_delete_sim s sc d i :
  pf_sim s sc → follows pf_sim (preflight_delete w s d i) (spec_op sc i (OpDelete d)).
Proof.
  intros Hs. unfold preflight_delete. cbn [spec_operation].
  destruct (ps_state _ _ Hs (delete_id d)) as (st & -> & Hex & _). cbn [out_bind]. rewrite Hex.
  destruct (sc_rows sc !! delete_id d) as [r|] eqn:Er; [|done]. cbn [is_some negb guard_err out_bind].
  assert (size (sc_rows sc) ≠ 0%nat) as Hsz.
  { intros Hz%map_size_empty_inv. by rewrite Hz in Er. }
  rewrite (ps_live _ _ Hs). unfold checked_sub. rewrite (proj2 (N.leb_le _ _)) by lia.
  cbn [expect out_bind]. eexists. split; [done|]. split; cbn.
  - apply (state_update s sc); [done| |intros; by rewrite lookup_delete_ne].
    rewrite lookup_delete_eq. split; [done|apply mask_contains_empty].
  - intros id r'. rewrite lookup_delete_Some. intros [Hne Hr]. unfold effective_local_transform.
    rewrite lookup_delete_ne by done. by apply (ps_local _ _ Hs).
  - by rewrite cow_delete_get, (ps_parents _ _ Hs).
  - rewrite map_size_delete_Some by eauto. lia.
  - intros id [Hid Hne]%elem_of_difference. rewrite lookup_delete_ne by set_solver.
    by apply (ps_dirty _ _ Hs).
  - intros id r'. rewrite lookup_delete_Some. intros [Hne Hr] Hid.
    rewrite lookup_delete_ne by done. apply (ps_clean _ _ Hs); [done|set_solver].
  - intros id Hid. apply not_elem_of_union in Hid as [Hne Hid].
    rewrite lookup_delete_ne by set_solver. by apply (ps_render _ _ Hs).
  - done.
  - intros m. destruct (cow_get (pf_parents s) !! delete_id d); cbn; [done|]. apply (ps_borrowed _ _ Hs).
  - intros id r'. rewrite lookup_delete_Some. intros [_ Hr]. by apply (ps_typed _ _ Hs _ _ Hr).
Qed.

Lemma preflight_reparent_sim s sc rp i :
  pf_sim s sc → follows pf_sim (preflight_reparent w s rp i) (spec_op sc i (OpReparent rp)).
Proof.
  intros Hs. unfold preflight_reparent. cbn [spec_operation].
  destruct (ps_state _ _ Hs (reparent_id rp)) as (st & -> & Hex & _). cbn [out_bind]. rewrite Hex.
  destruct (sc_rows sc !! reparent_id rp) as [r|] eqn:Er; [|done]. cbn [is_some negb guard_err out_bind].
  rewrite (ps_parents _ _ Hs).
  assert (∀ ps pcow, cow_get pcow = ps → (∀ m, pcow ≠ Borrowed m) →
    (∀ id, reparent_id rp ≠ id → ps !! id = sc_parents sc !! id) →
    pf_sim {| pf_overlay := pf_overlay s; pf_parents := pcow; pf_local_overrides := pf_local_overrides s;
              pf_dirty_roots := {[reparent_id rp]} ∪ pf_dirty_roots s;
              pf_render_changed_ids := pf_render_changed_ids s; pf_hierarchy_changed := true;
              pf_live_entities := pf_live_entities s; pf_operations := pf_operations s |}
      (mkScene (sc_rows sc) ps)) as Hnew.
  { intros ps pcow Hps Hown Hother. destruct Hs as [? ? ? ? Hdirty Hclean ? ? ? ?]. split; cbn; try done.
    - intros id [->%elem_of_singleton|Hid]%elem_of_union; [by rewrite Er|auto].
    - intros id r' Hr Hid. apply not_elem_of_union in Hid as [Hne Hid].
      rewrite Hother by set_solver. by apply Hclean.
    - intros m Hm. by destruct (Hown m). }
  destruct (reparent_parent rp) as [p|].
  - destruct (ps_state _ _ Hs p) as (st' & -> & Hex' & _). cbn [out_bind]. rewrite Hex'.
    destruct (sc_rows sc !! p) as [rp'|]; [|done]. cbn [is_some negb guard_err out_bind].
    case_bool_decide as Hprev; eexists; (split; [done|]).
    + rewrite insert_id by done. by rewrite scene_eta.
    + apply Hnew; [cbn; by rewrite (ps_parents _ _ Hs)|done|]. intros. by rewrite lookup_insert_ne.
  - cbn [out_bind]. case_bool_decide as Hprev; eexists; (split; [done|]).
    + rewrite fin_maps.delete_id by done. by rewrite scene_eta.
    + apply Hnew; [cbn; by rewrite (ps_parents _ _ Hs)|done|]. intros. by rewrite lookup_delete_ne.
Qed.

(** What set and remove share: the row of a live entity changes in place. *)
Lemma pf_sim_row s sc id r r' st overrides dirty changed :
  pf_sim s sc → sc_rows sc !! id = Some r → typed_row r' → state_of (Some r') st →
  (∀ id', effective_local_transform w overrides id'
     = if decide (id = id') then row_local_transform r'
       else effective_local_transform w (pf_local_overrides s) id') →
  (∀ id', id' ∈ dirty → id' = id ∨ id' ∈ pf_dirty_roots s) → pf_dirty_roots s ⊆ dirty →
  (id ∉ dirty → row_local_transform r' = row_local_transform r) →
  pf_render_changed_ids s ⊆ changed → (id ∉ changed → render_columns r' = render_columns r) →
  pf_sim {| pf_overlay := <[id := st]> (pf_overlay s); pf_parents := pf_parents s;
            pf_local_overrides := overrides; pf_dirty_roots := dirty; pf_render_changed_ids := changed;
            pf_hierarchy_changed := pf_hierarchy_changed s; pf_live_entities := pf_live_entities s;
            pf_operations := pf_operations s |}
    (mkScene (<[id := r']> (sc_rows sc)) (sc_parents sc)).
Proof.
  intros Hs Hr Ht Hst Hov Hd1 Hd2 Hloc Hc1 Hcol. split; cbn.
  - apply (state_update s sc); [done| |intros; by rewrite lookup_insert_ne].
    by rewrite lookup_insert_eq.
  - intros id' r0. rewrite Hov, lookup_insert_Some. intros [[-> <-]|[Hne Hr0]].
    + by rewrite decide_True.
    + rewrite decide_False by done. by apply (ps_local _ _ Hs).
  - apply (ps_parents _ _ Hs).
  - rewrite map_size_insert_Some by eauto. apply (ps_live _ _ Hs).
  - intros id' [->|Hid]%Hd1; apply lookup_insert_is_Some'; [by left|right].
    by apply (ps_dirty _ _ Hs).
  - intros id' r0. rewrite lookup_insert_Some. intros [[-> <-]|[Hne Hr0]] Hid.
    + destruct (ps_clean _ _ Hs _ _ Hr) as (r1 & ? & ? & ?); [set_solver|].
      exists r1. split_and!; [done| |done]. by rewrite Hloc.
    + apply (ps_clean _ _ Hs); [done|set_solver].
  - intros id' Hid. destruct (decide (id = id')) as [<-|Hne].
    + rewrite lookup_insert_eq. simpl. rewrite Hcol by done.
      rewrite <-(ps_render _ _ Hs) by set_solver. by rewrite Hr.
    + rewrite lookup_insert_ne by done. apply (ps_render _ _ Hs). set_solver.
  - intros Hh. rewrite dom_insert_lookup_L by eauto. by apply (ps_hierarchy _ _ Hs).
  - apply (ps_borrowed _ _ Hs).
  - intros id' r0. rewrite lookup_insert_Some. intros [[<- <-]|[_ Hr0]].
    { split; [|done]. by apply (ps_typed _ _ Hs _ _ Hr). }
    by apply (ps_typed _ _ Hs _ _ Hr0).
Qed.

Lemma preflight_set_sim s sc st i :
  pf_sim s sc → typed_operation (OpSetComponent st) →
  follows pf_sim (preflight_set w s st i) (spec_op sc i (OpSetComponent st)).
Proof.
  intros Hs [_ Hc]. unfold preflight_set. cbn [spec_operation].
  destruct (ps_state _ _ Hs (set_id st)) as (es & -> & Hex & Hmask). cbn [out_bind]. rewrite Hex.
  destruct (sc_rows sc !! set_id st) as [r|] eqn:Er; [|done]. cbn [is_some negb guard_err out_bind].
  pose proof (ps_local _ _ Hs _ _ Er) as Hloc. pose proof (ps_typed _ _ Hs _ _ Er) as [_ Htr].
  set (v := set_value st) in *.
  assert (state_of (Some (row_insert r v))
    (mkEntityState true (mask_insert (es_components es) (component_kind v)))) as Hst.
  { split; [done|]. intros k. cbn. rewrite mask_contains_insert, Hmask, row_get_insert. cbn.
    case_decide as Hk; [by rewrite bool_decide_true, orb_true_r|].
    by rewrite bool_decide_false, orb_false_r. }
  assert (∀ changed, changed = (if bool_decide (component_kind v = KName) then pf_render_changed_ids s
      else {[set_id st]} ∪ pf_render_changed_ids s) →
    pf_render_changed_ids s ⊆ changed ∧
    (set_id st ∉ changed → render_columns (row_insert r v) = render_columns r)) as Hcol.
  { intros changed ->. case_bool_decide; [|set_solver]. split; [done|].
    intros _. by apply render_columns_set_name. }
  destruct (Hcol _ eq_refl) as [Hc1 Hc2]. clear Hcol.
  assert (typed_row (row_insert r v)) by (by apply typed_row_insert).
  destruct v as [n|t|pr|m|ca|l|a] eqn:Ev; cbv beta iota zeta; eexists; (split; [done|]);
    (eapply pf_sim_row; [done|done|done|done| | | | |done|done]).
  all: try (intros id'; rewrite ?effective_insert, row_local_insert;
    by destruct (decide (set_id st = id')) as [<-|]).
  all: try (intros id' Hin; by right).
  all: try reflexivity.
  all: try (intros _; apply row_local_insert).
  - intros id'. destruct (local_differs _ _); [|by right].
    intros [->%elem_of_singleton|Hin]%elem_of_union; [by left|by right].
  - destruct (local_differs _ _); [apply union_subseteq_r|done].
  - rewrite local_differs_spec, Hloc, row_local_insert; [| |done].
    + destruct (bool_decide_reflect (row_local_transform r = Some t)) as [->|_]; [done|].
      intros Hn. destruct Hn. by apply elem_of_union_l, elem_of_singleton.
    + rewrite Hloc. destruct (row_local_transform r) eqn:El; [|done].
      exact (typed_row_local _ _ Htr El).
Qed.

Lemma preflight_remove_sim s sc rm i :
  pf_sim s sc → follows pf_sim (preflight_remove w s rm i) (spec_op sc i (OpRemoveComponent rm)).
Proof.
  intros Hs. unfold preflight_remove. cbn [spec_operation].
  destruct (ps_state _ _ Hs (remove_id rm)) as (es & -> & Hex & Hmask). cbn [out_bind]. rewrite Hex, Hmask.
  destruct (sc_rows sc !! remove_id rm) as [r|] eqn:Er; [|done]. cbn [is_some negb guard_err out_bind mbind option_bind].
  destruct (row_get r (remove_kind rm)) as [v|] eqn:Eg; [|done]. cbn [is_some negb guard_err out_bind].
  pose proof (ps_local _ _ Hs _ _ Er) as Hloc. pose proof (ps_typed _ _ Hs _ _ Er) as [_ Htr].
  eexists. split; [done|]. eapply (pf_sim_row s sc); [done|done|by apply typed_row_remove| | | | | | |].
  - split; [done|]. intros k. cbn. rewrite mask_contains_remove, Hmask, row_get_remove. cbn.
    case_decide as Hk; [by rewrite bool_decide_true, andb_false_r|].
    by rewrite bool_decide_false, andb_true_r.
  - intros id'. rewrite row_local_remove. case_bool_decide as Hk.
    + rewrite effective_insert, (decide_True (P:=remove_kind rm = KLocalTransform)) by done. done.
    + rewrite (decide_False (P:=remove_kind rm = KLocalTransform)) by done. case_decide; by subst.
  - intros id'. case_bool_decide; set_solver.
  - case_bool_decide; set_solver.
  - rewrite row_local_remove. case_bool_decide; [set_solver|]. by rewrite decide_False.
  - case_bool_decide; set_solver.
  - case_bool_decide as Hk; [|set_solver]. intros _. rewrite Hk. apply render_columns_remove_name.
Qed.

(** Any operation admitted by patch validation. *)
Lemma preflight_operation_sim s sc op i :
  pf_sim s sc → typed_operation op → operation_validate op = Ok tt →
  follows pf_sim (preflight_operation w s i op) (spec_op sc i op).
Proof.
  intros Hs Ht Hv. destruct op as [c|d|st|rm|rp]; cbn [preflight_operation].
  - apply preflight_create_sim; [done..|]. by apply validate_create_components_ok in Hv as (_ & ? & _).
  - by apply preflight_delete_sim.
  - by apply preflight_set_sim.
  - by apply preflight_remove_sim.
  - by apply preflight_reparent_sim.
Qed.

Lemma preflight_operation_frame s i op s' :
  preflight_operation w s i op = Ok s' →
  pf_operations s' = pf_operations s ∧
  pf_render_changed_ids s' ⊆ {[operation_target op]} ∪ pf_render_changed_ids s.
Proof.
  destruct op; cbn [preflight_operation];
    unfold preflight_create, preflight_delete, preflight_set, preflight_remove, preflight_reparent;
    intros Hok; inv_ok; repeat case_match; inv_ok; subst; cbn;
    (split; [done|]); try done; apply union_subseteq_r.
Qed.

(** The whole loop; the pushed operations are the ones of the patch. *)
Lemma preflight_loop_sim s sc ops i :
  pf_sim s sc → Forall typed_operation ops → Forall (λ op, operation_validate op = Ok tt) ops →
  N.of_nat (i + length ops) ≤ u32_max →
  follows (λ s' sc', pf_sim s' sc' ∧ pf_operations s' = pf_operations s ++ ops ∧
      pf_render_changed_ids s' ⊆ targets ops ∪ pf_render_changed_ids s)
    (preflight_loop w s i ops) (spec_operations (max_entities (config w)) sc i ops).
Proof.
  revert s sc i. induction ops as [|op ops IH]; intros s sc i Hs Ht Hv Hi; cbn [preflight_loop spec_operations].
  { exists s. rewrite app_nil_r. split_and!; [done..|apply union_subseteq_r]. }
  apply Forall_cons in Ht as [Ht Hts]. apply Forall_cons in Hv as [Hv Hvs]. simpl in Hi.
  rewrite (proj2 (try_from_len_Some u32_max i (N.of_nat i))) by (split; [done|lia]). cbn [expect out_bind].
  apply (follows_bind (λ s' sc', pf_sim s' sc' ∧ pf_operations s' = pf_operations s ∧
    pf_render_changed_ids s' ⊆ {[operation_target op]} ∪ pf_render_changed_ids s)).
  { pose proof (preflight_operation_sim s sc op (N.of_nat i) Hs Ht Hv) as Hop.
    destruct (spec_op sc (N.of_nat i) op); [|done..].
    destruct Hop as (s1 & Hs1 & ?). exists s1. split; [done|]. split; [done|].
    by eapply preflight_operation_frame. }
  intros s1 sc1 (Hs1 & Hops & Hch). pose proof (IH (pf_push s1 op) sc1 (S i)) as Hrest.
  destruct (spec_operations _ sc1 (S i) ops); [|apply Hrest; [by apply pf_sim_push|done|done|lia]..].
  destruct Hrest as (s2 & -> & Hs2 & Hops2 & Hch2); [by apply pf_sim_push|done|done|lia|].
  exists s2. split_and!; [done..| |].
  - rewrite Hops2. cbn. by rewrite Hops, <-app_assoc.
  - unfold targets in *. cbn in *. set_solver.
Qed.

End preflight.
