(* ===== verification/TransformRefine.v ===== *)
(** * Incremental transform propagation

    [plan_transform_updates] recomputes only the entities below a dirty one and
    reads the cached transform of everything else.  The cached matrices agree
    with the composition from scratch ([world_matrix]) before a patch; here
    the planned updates and the caches that are kept agree with it after the
    patch, and a planned failure means that some entity has no finite world
    matrix at all. *)

From S2P Require Import Prelude Machine BTree Floats Values Components Messages MessageSpec Ecs WorldTypes Hierarchy Affected Render World SceneSpec CommitRefine PreflightRefine.

Open Scope N_scope.

Lemma world_matrix_finite sc x m : world_matrix sc x m → finite_matrix m.
Proof. destruct 1; [by eapply from_local_finite|by eapply compose_finite]. Qed.

(** The generation stamp is irrelevant to the matrix. *)
Lemma from_local_regenerate local g t :
  from_local local g = Some t → ∃ t0, from_local local 0 = Some t0 ∧ wt_matrix t0 = wt_matrix t.
Proof.
  intros Ht. pose proof (from_local_matrix local g 0) as Hm. rewrite Ht in Hm.
  destruct (from_local local 0) as [t0|]; [|done]. cbn in Hm. exists t0. split; congruence.
Qed.

Lemma from_local_regenerate_none local g : from_local local g = None → from_local local 0 = None.
Proof.
  intros Ht. pose proof (from_local_matrix local g 0) as Hm. rewrite Ht in Hm.
  by destruct (from_local local 0).
Qed.

Lemma compose_generation a b g t : compose a b g = Some t → wt_generation t = g.
Proof. unfold compose. by intros (m & _ & [= <-])%bind_Some. Qed.

Lemma compose_regenerate a b b0 g t :
  wt_matrix b = wt_matrix b0 → compose a b g = Some t →
  ∃ t0, compose (mkWorldTransform (wt_matrix a) 0) b0 0 = Some t0 ∧ wt_matrix t0 = wt_matrix t.
Proof.
  intros Hb Ht. pose proof (compose_matrix a b (mkWorldTransform (wt_matrix a) 0) b0 g 0 eq_refl Hb) as Hm.
  rewrite Ht in Hm. destruct (compose (mkWorldTransform _ 0) b0 0) as [t0|]; [|done].
  cbn in Hm. exists t0. split; congruence.
Qed.

Section plan.
Context {W E : Type} `{EqDecision E} `{!EntityStore W E} `{!EntityStoreLaws W E}.
Context (w : AuthoritativeWorld W E) (sc : scene) (overrides : gmap N (option LocalTransform))
  (dirty : gset N) (max_depth : N).
Context (Hdom : dom (world_transforms w) = dom (sc_rows (abs_scene w))).
Context (Hcoherent : ∀ id t, world_transforms w !! id = Some t →
  world_matrix (abs_scene w) id (wt_matrix t)).
Context (Hlocal : ∀ id r, sc_rows sc !! id = Some r →
  effective_local_transform w overrides id = row_local_transform r).
Context (Hdirty : ∀ id, id ∈ dirty → is_Some (sc_rows sc !! id)).
Context (Hclean : ∀ id r, sc_rows sc !! id = Some r → id ∉ dirty →
  ∃ r0, sc_rows (abs_scene w) !! id = Some r0 ∧ row_local_transform r0 = row_local_transform r ∧
    parents w !! id = sc_parents sc !! id).
Context (Hvalid : valid_hierarchy (dom (sc_rows sc)) (sc_parents sc) max_depth).

Definition affected (x : N) : Prop := ∃ r, r ∈ dirty ∧ ancestor (sc_parents sc) x r.

Lemma parent_live x p : sc_parents sc !! x = Some p → is_Some (sc_rows sc !! x) ∧ is_Some (sc_rows sc !! p).
Proof. intros [?%elem_of_dom ?%elem_of_dom]%(proj1 Hvalid). done. Qed.

Lemma affected_live x : affected x → is_Some (sc_rows sc !! x).
Proof.
  intros (r & Hr & Ha). destruct Ha as [x|x p a Hp _]; [by apply Hdirty|].
  by apply parent_live in Hp as [? _].
Qed.

(** An entity with no dirty ancestor keeps its world matrix. *)
Lemma unaffected_matrix x m :
  world_matrix (abs_scene w) x m → is_Some (sc_rows sc !! x) → ¬ affected x → world_matrix sc x m.
Proof.
  induction 1 as [x r0 t Hr0 Hp Hl|x p r0 mp l t Hr0 Hp _ IH Hl Hc]; intros [r Hr] Hna.
  - destruct (Hclean _ _ Hr) as (r1 & Hr1 & El & Ep).
    { intros Hd. apply Hna. exists x. split; [done|constructor]. }
    simplify_eq. eapply wm_root; [done| |by rewrite <-El]. by rewrite <-Ep.
  - destruct (Hclean _ _ Hr) as (r1 & Hr1 & El & Ep).
    { intros Hd. apply Hna. exists x. split; [done|constructor]. }
    simplify_eq. cbn in Hp. rewrite Ep in Hp. eapply wm_child; [done|done| |by rewrite <-El|done].
    apply IH; [by apply parent_live in Hp as [_ ?]|].
    intros (y & Hy & Ha). apply Hna. exists y. split; [done|]. by econstructor.
Qed.

(** The cached transform of a live unaffected entity. *)
Lemma unaffected_cached x :
  is_Some (sc_rows sc !! x) → ¬ affected x →
  ∃ t, world_transforms w !! x = Some t ∧ world_matrix sc x (wt_matrix t).
Proof.
  intros [r Hr] Hna. destruct (Hclean _ _ Hr) as (r0 & Hr0 & _).
  { intros Hd. apply Hna. exists x. split; [done|constructor]. }
  assert (x ∈ dom (world_transforms w)) as [t Ht]%elem_of_dom by (rewrite Hdom; apply elem_of_dom; eauto).
  exists t. split; [done|]. apply unaffected_matrix; eauto.
Qed.

(** Planned updates that agree with the composition from scratch. *)
Definition updates_ok (g : N) (ids : list N) (updates : gmap N WorldTransform) : Prop :=
  dom updates = list_to_set ids ∧
  ∀ x t, updates !! x = Some t → world_matrix sc x (wt_matrix t) ∧ wt_generation t = g.

(** The body of the loop of [plan_transform_updates]. *)
Definition plan_step (g : N) (updates : gmap N WorldTransform) (id : N)
    : outcome WorldApplyError (gmap N WorldTransform) :=
  let! local := ok_or (from_local (effective_local_transform w overrides id) g) (TransformOverflow id) in
  let! world := compose_world_transform w id local g (sc_parents sc) updates in
  Ok (<[id := world]> updates).

Lemma updates_ok_insert g ids updates x t :
  updates_ok g ids updates → world_matrix sc x (wt_matrix t) → wt_generation t = g →
  updates_ok g (ids ++ [x]) (<[x := t]> updates).
Proof.
  intros [Hd Hu] Hm Hg. split.
  - rewrite dom_insert_L, Hd, list_to_set_app_L. simpl. set_solver.
  - intros y ty. rewrite lookup_insert_Some. intros [[<- <-]|[_ Hy]]; [done|by apply Hu].
Qed.

(** The parent's transform read by the step. *)
Lemma plan_parent g pre updates x p :
  updates_ok g pre updates → sc_parents sc !! x = Some p → (affected p → p ∈ pre) →
  (p ∈ pre → affected p) →
  ∃ t, match updates !! p with Some t => Some t | None => world_transforms w !! p end = Some t ∧
    world_matrix sc p (wt_matrix t).
Proof.
  intros [Hd Hu] Hp Hpre Haff. destruct (updates !! p) as [t|] eqn:Et.
  - exists t. split; [done|]. by apply Hu.
  - apply unaffected_cached; [by apply parent_live in Hp as [_ ?]|]. intros Ha%Hpre.
    apply (not_elem_of_dom (D:=gset N)) in Et. rewrite Hd in Et. set_solver.
Qed.

Lemma plan_step_ok g pre updates x :
  updates_ok g pre updates → affected x →
  (∀ p, sc_parents sc !! x = Some p → p ∈ pre ↔ affected p) →
  match plan_step g updates x with
  | Ok updates' => updates_ok g (pre ++ [x]) updates'
  | Err e => e = TransformOverflow x ∧ ¬ ∃ m, world_matrix sc x m
  | Panic | OutOfFuel => False
  end.
Proof.
  intros Hu Hx Hpar. destruct (affected_live _ Hx) as [r Hr]. unfold plan_step.
  rewrite (Hlocal _ _ Hr).
  destruct (from_local (row_local_transform r) g) as [l|] eqn:El; cbn [ok_or out_bind].
  2:{ apply from_local_regenerate_none in El. split; [done|]. intros (m & Hm).
      inversion Hm; simplify_eq; congruence. }
  destruct (from_local_regenerate _ _ _ El) as (l0 & El0 & Hl0).
  pose proof (from_local_generation _ _ _ El) as Hg.
  unfold compose_world_transform. destruct (sc_parents sc !! x) as [p|] eqn:Ep; cbn [out_bind].
  2:{ apply updates_ok_insert; [done| |done]. rewrite <-Hl0. by eapply wm_root. }
  destruct (plan_parent g pre updates x p Hu Ep) as (tp & -> & Hmp); [by apply Hpar..|].
  cbn [ok_or out_bind]. destruct (compose tp l g) as [t|] eqn:Ec; cbn [ok_or out_bind].
  - destruct (compose_regenerate tp l l0 g t) as (t0 & Et0 & Hm0); [done|done|].
    apply updates_ok_insert; [done| |by eapply compose_generation]. rewrite <-Hm0.
    by eapply wm_child.
  - split; [done|]. intros (m & Hm).
    inversion Hm as [|? p' ? mp l' t Hr' Ep' Hmp' El' Ec']; simplify_eq.
    pose proof (world_matrix_unique _ _ _ _ Hmp Hmp') as <-.
    pose proof (compose_matrix tp l (mkWorldTransform (wt_matrix tp) 0) l0 (wt_generation l) 0 eq_refl (eq_sym Hl0)) as Hcm.
    rewrite Ec, Ec' in Hcm. done.
Qed.

(** The loop over a list in which parents come first. *)
Lemma plan_fold_ok g ordered pre post updates :
  ordered = pre ++ post → (∀ x, x ∈ ordered ↔ affected x) → 
  (∀ pre x post p, ordered = pre ++ x :: post → sc_parents sc !! x = Some p → p ∈ ordered → p ∈ pre) →
  updates_ok g pre updates →
  match out_fold (plan_step g) updates post with
  | Ok updates' => updates_ok g ordered updates'
  | Err e => ∃ x, e = TransformOverflow x ∧ affected x ∧ ¬ ∃ m, world_matrix sc x m
  | Panic | OutOfFuel => False
  end.
Proof.
  intros -> Hmem Hord. revert pre updates Hmem Hord.
  induction post as [|x post IH]; intros pre updates Hmem Hord Hu; cbn [out_fold].
  { by rewrite app_nil_r. }
  assert (affected x) as Hx by (apply Hmem; set_solver).
  pose proof (plan_step_ok g pre updates x Hu Hx) as Hstep.
  destruct (plan_step g updates x) as [updates'|e| |]; cbn [out_bind].
  - specialize (IH (pre ++ [x]) updates'). rewrite <-app_assoc in IH. apply IH; [done|done|].
    apply Hstep. intros p Ep. rewrite <-Hmem. split; [set_solver|]. by apply (Hord pre x post).
  - destruct Hstep as [-> Hno]; [|eauto]. intros p Ep. rewrite <-Hmem. split; [set_solver|].
    by apply (Hord pre x post).
  - apply Hstep. intros p Ep. rewrite <-Hmem. split; [set_solver|]. by apply (Hord pre x post).
  - apply Hstep. intros p Ep. rewrite <-Hmem. split; [set_solver|]. by apply (Hord pre x post).
Qed.

(** [plan_transform_updates] as a whole. *)
Lemma plan_transform_updates_ok (children : child_map) :
  (∀ p c, child_of children p c ↔ sc_parents sc !! c = Some p) →
  match plan_transform_updates w (sc_parents sc) children overrides dirty with
  | Ok (updates, g) =>
      (∀ x, is_Some (updates !! x) ↔ affected x) ∧
      (∀ x t, updates !! x = Some t → world_matrix sc x (wt_matrix t) ∧ wt_generation t = g) ∧
      transform_generation w ≤ g ≤ transform_generation w + 1
  | Err e =>
      (e = TransformGenerationOverflow ∧ u64_max < transform_generation w + 1) ∨
      ∃ x, e = TransformOverflow x ∧ affected x ∧ ¬ ∃ m, world_matrix sc x m
  | Panic | OutOfFuel => False
  end.
Proof.
  intros Hch. unfold plan_transform_updates.
  destruct (affected_entities_spec _ _ Hch dirty (valid_hierarchy_acyclic _ _ _ Hvalid))
    as (ordered & -> & _ & Hmem & Hord). cbn [out_bind].
  assert (∀ g, transform_generation w ≤ g ≤ transform_generation w + 1 →
    match (let! updates := out_fold (plan_step g) ∅ ordered in Ok (updates, g)) with
    | Ok (updates, g) =>
        (∀ x, is_Some (updates !! x) ↔ affected x) ∧
        (∀ x t, updates !! x = Some t → world_matrix sc x (wt_matrix t) ∧ wt_generation t = g) ∧
        transform_generation w ≤ g ≤ transform_generation w + 1
    | Err e => ∃ x, e = TransformOverflow x ∧ affected x ∧ ¬ ∃ m, world_matrix sc x m
    | Panic | OutOfFuel => False
    end) as Hgen.
  { intros g Hg. pose proof (plan_fold_ok g ordered [] ordered ∅ eq_refl Hmem Hord) as Hf.
    destruct (out_fold (plan_step g) ∅ ordered) as [updates|e| |]; cbn [out_bind].
    - destruct Hf as [Hd Hu]; [by split|]. split; [|done]. intros x.
      by rewrite <-(elem_of_dom (D:=gset N)), Hd, elem_of_list_to_set, Hmem.
    - apply Hf. by split.
    - apply Hf. by split.
    - apply Hf. by split. }
  destruct (match ordered with [] => _ | _ => _ end) as [g|e| |] eqn:Eg; cbn [out_bind].
  - assert (transform_generation w ≤ g ≤ transform_generation w + 1) as Hg.
    { destruct ordered; inv_ok; [subst; lia|].
      rename select (checked_add _ _ _ = _) into Ha. apply checked_add_Some in Ha as [-> ?]. lia. }
    specialize (Hgen g Hg). unfold plan_step in Hgen.
    destruct (out_bind _ _) as [[updates g']|e| |]; [exact Hgen|by right|done|done].
  - left. destruct ordered; [done|].
    destruct (checked_add u64_max (transform_generation w) 1) eqn:Ea; simplify_eq/=.
    split; [done|]. by apply checked_add_None.
  - destruct ordered; [done|]. by destruct (checked_add u64_max (transform_generation w) 1).
  - destruct ordered; [done|]. by destruct (checked_add u64_max (transform_generation w) 1).
Qed.

End plan.
