(* ===== verification/WorldInvariant.v ===== *)
(** * The invariant of the authoritative world

    [winv] is what holds between calls: index and store agree, rows are typed,
    the child index inverts an acyclic bounded hierarchy, every cached
    transform is the one composed from scratch, and counters and capacities
    are within bounds.  It implies that [validate_invariants], the world's own
    check, succeeds. *)

From S2P Require Import Prelude Machine BTree Floats Values Components Messages MessageSpec Ecs WorldTypes Hierarchy Affected Render World SceneSpec CommitRefine PreflightRefine TransformRefine.

Open Scope N_scope.

(** ** Iteration and counting *)

Lemma btree_iter_perm {V} (m : gmap N V) : btree_iter m ≡ₚ map_to_list m.
Proof.
  apply NoDup_Permutation.
  - eapply NoDup_fmap_1, NoDup_btree_iter.
  - apply NoDup_map_to_list.
  - intros [k v]. by rewrite elem_of_btree_iter, elem_of_map_to_list.
Qed.

Lemma foldl_sum_list {A} (f : A → nat) n l :
  foldl (λ n a, (n + f a)%nat) n l = (n + sum_list_with f l)%nat.
Proof. revert n. induction l as [|a l IH]; intros n; simpl; [lia|]. rewrite IH. lia. Qed.

Lemma child_count_iter (m : child_map) :
  foldl (λ n entry, (n + size entry.2)%nat) 0%nat (btree_iter m) = child_count m.
Proof.
  rewrite (foldl_sum_list (λ e : N * gset N, size e.2)), btree_iter_perm.
  unfold child_count. rewrite map_fold_foldr. simpl.
  induction (map_to_list m) as [|[k s] l IH]; simpl; [done|]. by rewrite IH.
Qed.

Lemma child_count_insert (m : child_map) p c :
  ¬ child_of m p c →
  child_count (<[p := {[c]} ∪ default ∅ (m !! p)]> m) = S (child_count m).
Proof.
  intros Hc. unfold child_count. rewrite <-insert_delete_eq.
  rewrite map_fold_insert_L by (try apply lookup_delete_eq; intros; lia).
  destruct (m !! p) as [s|] eqn:Ep.
  - change (default ∅ (Some s)) with s. rewrite <-(insert_delete_id m p s Ep) at 2.
    rewrite map_fold_insert_L by (try apply lookup_delete_eq; intros; lia).
    rewrite size_union, size_singleton; [lia|]. apply disjoint_singleton_l. intros Hin. apply Hc.
    exists s. done.
  - rewrite fin_maps.delete_id by done. change (default ∅ None) with (∅ : gset N).
    by rewrite union_empty_r_L, size_singleton.
Qed.

(** The rebuilt index has one entry per edge. *)
Lemma child_count_rebuild parents : child_count (rebuild_children parents) = size parents.
Proof.
  unfold rebuild_children. rewrite <-length_btree_iter.
  assert (∀ l (m : child_map), NoDup l.*1 → (∀ c p, c ∈ l.*1 → ¬ child_of m p c) →
    child_count (foldl (λ children edge,
      <[edge.2 := {[edge.1]} ∪ default ∅ (children !! edge.2)]> children) m l)
    = (child_count m + length l)%nat) as Hfold.
  { intros l. induction l as [|[c p] l IH]; intros m Hnd Hfresh; simpl; [lia|].
    apply NoDup_cons in Hnd as [Hc Hnd]. simpl in Hc.
    rewrite IH; [|done|].
    - rewrite child_count_insert; [lia|]. apply Hfresh. simpl. set_solver.
    - intros c' p' Hc' (s & Hs & Hin). apply lookup_insert_Some in Hs as [[<- <-]|[Hne Hs]].
      + apply elem_of_union in Hin as [->%elem_of_singleton|Hin]; [done|].
        apply (Hfresh c' p); [simpl; set_solver|]. destruct (m !! p) as [s|] eqn:Es; [|set_solver].
        exists s. done.
      + apply (Hfresh c' p'); [simpl; set_solver|]. exists s. done. }
  rewrite Hfold; [done|apply NoDup_btree_iter|].
  intros c p _ (s & Hs & _). by rewrite lookup_empty in Hs.
Qed.

Lemma is_some_spec {A} (o : option A) : is_some o = true ↔ is_Some o.
Proof. destruct o; split; naive_solver. Qed.

Lemma out_fold_unit_ok {F A} (f : unit → A → outcome F unit) l :
  (∀ a, a ∈ l → f tt a = Ok tt) → out_fold f tt l = Ok tt.
Proof.
  induction l as [|a l IH]; intros Hf; [done|]. cbn [out_fold].
  rewrite Hf by set_solver. cbn [out_bind]. apply IH. intros b Hb. apply Hf. set_solver.
Qed.

Section invariant.
Context {W E : Type} `{EqDecision E} `{!EntityStore W E} `{!EntityStoreLaws W E}.

(** Configurations for which operation positions fit their [u32]. *)
Definition sound_config (c : WorldConfig) : Prop :=
  typed_config c ∧ max_operations (runtime_limits c) < u32_max.

(** The structural part, which [validate_invariants] checks. *)
Record wcore (w : AuthoritativeWorld W E) : Prop := {
  wc_config : sound_config (config w);
  wc_store : store_ok (storage w) (stable_index w);
  wc_transforms : dom (world_transforms w) = dom (stable_index w);
  wc_children : children w = rebuild_children (parents w);
  wc_hierarchy : valid_hierarchy (dom (stable_index w)) (parents w) (max_hierarchy_depth (config w));
}.

(** A recorded receipt describes one accepted patch. *)
Definition record_ok (w : AuthoritativeWorld W E) (key : N) (ra : RecordedApply) : Prop :=
  receipt_transaction_id (ra_receipt ra) = ra_transaction_id ra ∧
  receipt_idempotency_key (ra_receipt ra) = key ∧
  receipt_status (ra_receipt ra) = Applied ∧
  receipt_new_revision (ra_receipt ra) = receipt_previous_revision (ra_receipt ra) + 1 ∧
  receipt_new_revision (ra_receipt ra) ≤ revision w.

Record winv (w : AuthoritativeWorld W E) : Prop := {
  wi_core : wcore w;
  wi_typed : ∀ id r, sc_rows (abs_scene w) !! id = Some r → typed_id id ∧ typed_row r;
  wi_coherent : ∀ id t, world_transforms w !! id = Some t →
    world_matrix (abs_scene w) id (wt_matrix t) ∧ wt_generation t ≤ transform_generation w;
  wi_entities : N.of_nat (size (stable_index w)) ≤ max_entities (config w);
  wi_pending : N.of_nat (size (pending_render_changes w)) ≤ max_pending_render_changes (config w);
  wi_records_size : N.of_nat (size (idempotency_records w)) ≤ max_idempotency_records (config w);
  wi_records : map_Forall (record_ok w) (idempotency_records w);
  wi_revision : revision w ≤ u64_max;
  wi_generation : transform_generation w ≤ revision w;
  wi_extracted : last_extracted_revision w ≤ revision w;
  wi_extraction : render_extraction_generation w ≤ u64_max;
  wi_receipt_room : stable_index w ≠ ∅ → 91 ≤ max_decoded_bytes (runtime_limits (config w));
}.

Lemma wcore_depth w : wcore w → max_hierarchy_depth (config w) ≤ u32_max.
Proof. by intros [[(_ & _ & _ & _ & _ & ?) _] _ _ _ _]. Qed.

(** The world's own check accepts every world that satisfies the invariant. *)
Lemma validate_invariants_ok w : wcore w → validate_invariants w = Ok tt.
Proof.
  intros Hw. pose proof Hw as [Hcfg Hst Htr Hch Hh]. unfold validate_invariants.
  rewrite (so_len _ _ Hst), N.eqb_refl. cbn [negb guard_err out_bind].
  rewrite out_fold_unit_ok.
  2:{ intros [id e] He%elem_of_btree_iter. destruct (so_rows _ _ Hst _ _ He) as (r & Hr & Hid).
      unfold marker_matches. rewrite Hr. cbn [is_some negb guard_err out_bind mbind option_bind].
      rewrite bool_decide_true by done. cbn [negb guard_err out_bind].
      assert (id ∈ dom (world_transforms w)) as [t Ht]%elem_of_dom by (rewrite Htr; apply elem_of_dom; eauto).
      by rewrite Ht. }
  cbn [out_bind]. rewrite out_fold_unit_ok.
  2:{ intros id Hid%elem_of_btree_keys. unfold contains.
      assert (id ∈ dom (stable_index w)) as [e He]%elem_of_dom by (rewrite <-Htr; by apply elem_of_dom).
      by rewrite He. }
  cbn [out_bind]. rewrite out_fold_unit_ok.
  2:{ intros [c p] Hc%elem_of_btree_iter. destruct Hh as [Hedge _].
      destruct (Hedge _ _ Hc) as [[ec Hec]%elem_of_dom [ep Hep]%elem_of_dom]. unfold contains.
      rewrite Hec, Hep. cbn [is_some negb orb guard_err out_bind].
      apply rebuild_children_spec in Hc as (s & Hs & Hin). rewrite Hch, Hs.
      by rewrite bool_decide_true. }
  cbn [out_bind]. rewrite child_count_iter, Hch, child_count_rebuild, Nat.eqb_refl.
  cbn [negb guard_err out_bind].
  pose proof (proj2 (hierarchy_depths_ok_iff _ _ _ (wcore_depth w Hw)) Hh) as Hok.
  by destruct (hierarchy_depths _ _ _).
Qed.

(** A new world satisfies the invariant. *)
Lemma world_new_inv cfg : sound_config cfg → winv (world_new cfg).
Proof.
  intros Hc. split; cbn; try done.
  - split; [done|apply store_ok_empty|done|done|].
    split; [by intros c p Hp|set_solver].
  - rewrite map_size_empty. lia.
  - rewrite size_empty. lia.
  - rewrite map_size_empty. lia.
Qed.

(** The live identities computed for the hierarchy check. *)
Lemma overlay_live_spec (w : AuthoritativeWorld W E) overlay id :
  id ∈ overlay_live w overlay ↔
  match overlay !! id with Some st => es_exists st = true | None => id ∈ dom (stable_index w) end.
Proof.
  unfold overlay_live.
  assert (∀ l (S : gset N), NoDup l.*1 →
    (id ∈ foldl (λ live entry, if es_exists entry.2 then ({[entry.1]} ∪ live) else (live ∖ {[entry.1]})) S l) ↔
    ((∃ st, (id, st) ∈ l ∧ es_exists st = true) ∨ ((id ∉ l.*1) ∧ id ∈ S))) as Hfold.
  { intros l. induction l as [|[k st] l IH]; intros S Hnd; simpl; [set_solver|].
    apply NoDup_cons in Hnd as [Hk Hnd]. simpl in Hk. rewrite IH by done.
    assert (∀ st', (k, st') ∉ l) as Hk'.
    { intros st' Hin. apply Hk. apply list_elem_of_fmap. by exists (k, st'). }
    setoid_rewrite elem_of_cons. destruct (decide (id = k)) as [->|Hne].
    - split.
      + intros [(st' & Hin & _)|[_ Hin]]; [by destruct (Hk' st')|].
        destruct (es_exists st) eqn:Ee; [left; exists st; auto|set_solver].
      + intros [(st' & [[= <-]|Hin] & Ex)|[Hn _]]; [|by destruct (Hk' st')|naive_solver].
        right. split; [done|]. rewrite Ex. set_solver.
    - assert (id ∈ (if es_exists st then {[k]} ∪ S else S ∖ {[k]}) ↔ id ∈ S) as ->
        by (destruct (es_exists st); set_solver).
      naive_solver. }
  rewrite Hfold by apply NoDup_btree_iter. rewrite btree_iter_keys, elem_of_btree_keys.
  destruct (overlay !! id) as [st|] eqn:Ho.
  - split; [intros [(st' & Hin%elem_of_btree_iter & Ex)|[Hn _]]; [congruence|by destruct Hn]|].
    intros Ex. left. exists st. by rewrite elem_of_btree_iter.
  - split; [intros [(st' & Hin%elem_of_btree_iter & Ex)|[_ ?]]; [congruence|done]|].
    intros Hid. right. split; [by intros []|done].
Qed.

Lemma overlay_live_sim (w : AuthoritativeWorld W E) s sc :
  store_ok (storage w) (stable_index w) → pf_sim w s sc → overlay_live w (pf_overlay s) = dom (sc_rows sc).
Proof.
  intros Hst Hs. apply set_eq. intros id.
  etransitivity; [apply overlay_live_spec|]. etransitivity; [|symmetry; apply elem_of_dom].
  destruct (ps_state _ _ _ Hs id) as (st & Hov & Hex & _). unfold overlay_state in Hov.
  rewrite <-is_some_spec, <-Hex.
  destruct (pf_overlay s !! id) as [st'|]; [by inv_ok; subst|].
  destruct (stored_entity_state_of w Hst id) as (st' & Hst' & Hex' & _).
  rewrite Hst' in Hov. inv_ok. subst. rewrite Hex', is_some_spec, <-(elem_of_dom (D:=gset N)).
  unfold abs_scene. cbn. by rewrite store_ok_dom.
Qed.

End invariant.
