(* ===== verification/WorldApply.v ===== *)
(** * Patch application preserves the invariant and implements the specification

    The completion of preflight, the commit and [apply_patch] itself, put
    together from the simulation lemmas. *)

From S2P Require Import Prelude Machine BTree Floats Values Components Messages MessageSpec Ecs WorldTypes Hierarchy Affected Render World SceneSpec CommitRefine PreflightRefine TransformRefine WorldInvariant.

Open Scope N_scope.

Section apply.
Context {W E : Type} `{EqDecision E} `{!EntityStore W E} `{!EntityStoreLaws W E}.
Implicit Types w : AuthoritativeWorld W E.

(** What a completed plan says of the scene it was made for. *)
Record plan_ok w (s : PreflightState) (sc : scene) (new_revision : N) (plan : CommitPlan) : Prop := {
  po_hierarchy : valid_hierarchy (dom (sc_rows sc)) (sc_parents sc) (max_hierarchy_depth (config w));
  po_previous : cp_previous_revision plan = revision w;
  po_new : cp_new_revision plan = new_revision;
  po_operations : cp_operations plan = pf_operations s;
  po_parents : default (parents w) (cp_parents plan) = sc_parents sc;
  po_children : default (children w) (cp_children plan) = rebuild_children (sc_parents sc);
  po_affected : ∀ x, is_Some (cp_transform_updates plan !! x) ↔ affected sc (pf_dirty_roots s) x;
  po_updates : ∀ x t, cp_transform_updates plan !! x = Some t →
    world_matrix sc x (wt_matrix t) ∧ wt_generation t = cp_transform_generation plan;
  po_generation : transform_generation w ≤ cp_transform_generation plan ≤ transform_generation w + 1;
  po_changed : cp_render_changed_ids plan = pf_render_changed_ids s ∪ dom (cp_transform_updates plan);
  po_pending : N.of_nat (size (pending_render_changes w ∪ cp_render_changed_ids plan))
    ≤ max_pending_render_changes (config w);
}.

(** Why completion can fail. *)
Inductive completion_failure w (sc : scene) (changed : gset N) : WorldApplyError → Prop :=
| cf_hierarchy e :
    hierarchy_depths (dom (sc_rows sc)) (sc_parents sc) (max_hierarchy_depth (config w)) = Err e →
    completion_failure w sc changed e
| cf_transform x :
    is_Some (sc_rows sc !! x) → (¬ ∃ m, world_matrix sc x m) →
    completion_failure w sc changed (TransformOverflow x)
| cf_pending :
    max_pending_render_changes (config w)
      < N.of_nat (size (pending_render_changes w ∪ changed ∪ dom (sc_rows sc))) →
    completion_failure w sc changed
      (RenderExtractionCapacityExceeded (max_pending_render_changes (config w))).

(** The hierarchy step: checked when something changed, else inherited. *)
Lemma complete_hierarchy w s sc :
  winv w → pf_sim w s sc →
  match (if pf_hierarchy_changed s then
      do! hierarchy_depths (overlay_live w (pf_overlay s)) (cow_get (pf_parents s))
            (max_hierarchy_depth (config w)) then
      Ok (Some (rebuild_children (cow_get (pf_parents s))))
    else Ok None) with
  | Ok rebuilt =>
      valid_hierarchy (dom (sc_rows sc)) (sc_parents sc) (max_hierarchy_depth (config w)) ∧
      default (children w) rebuilt = rebuild_children (sc_parents sc)
  | Err e => hierarchy_depths (dom (sc_rows sc)) (sc_parents sc) (max_hierarchy_depth (config w)) = Err e
  | Panic | OutOfFuel => False
  end.
Proof.
  intros Hw Hs. pose proof (wcore_depth w (wi_core _ Hw)) as Hmax.
  pose proof (wc_store _ (wi_core _ Hw)) as Hst.
  destruct (pf_hierarchy_changed s) eqn:Hch.
  - rewrite (overlay_live_sim w s sc Hst Hs), (ps_parents _ _ _ Hs).
    pose proof (hierarchy_depths_normal (dom (sc_rows sc)) (sc_parents sc) _ Hmax) as Hn.
    pose proof (hierarchy_depths_ok_iff (dom (sc_rows sc)) (sc_parents sc) _ Hmax) as Hiff.
    destruct (hierarchy_depths _ _ _); cbn [out_bind]; [|done..]. split; [by apply Hiff|done].
  - destruct (ps_hierarchy _ _ _ Hs Hch) as [Hd Hp]. rewrite Hd, Hp. cbn.
    rewrite (store_ok_dom _ _ Hst). split; [apply (wc_hierarchy _ (wi_core _ Hw))|].
    apply (wc_children _ (wi_core _ Hw)).
Qed.

Lemma complete_preflight_sim w s sc new_revision :
  winv w → pf_sim w s sc → revision w < u64_max →
  match complete_preflight w s new_revision with
  | Ok plan => plan_ok w s sc new_revision plan
  | Err e => completion_failure w sc (pf_render_changed_ids s) e
  | Panic | OutOfFuel => False
  end.
Proof.
  intros Hw Hs Hrev. unfold complete_preflight.
  pose proof (complete_hierarchy w s sc Hw Hs) as Hh.
  destruct (if pf_hierarchy_changed s then _ else _) as [rebuilt|e| |]; cbn [out_bind];
    [|by apply cf_hierarchy|done..].
  destruct Hh as [Hvalid Hchildren]. rewrite Hchildren, (ps_parents _ _ _ Hs).
  pose proof (wc_store _ (wi_core _ Hw)) as Hst.
  pose proof (plan_transform_updates_ok w sc (pf_local_overrides s) (pf_dirty_roots s)
    (max_hierarchy_depth (config w))) as Hplan.
  specialize (Hplan ltac:(rewrite (wc_transforms _ (wi_core _ Hw)); cbn; by rewrite store_ok_dom)).
  specialize (Hplan ltac:(intros id t Ht; by apply (wi_coherent _ Hw))).
  specialize (Hplan (ps_local _ _ _ Hs) (ps_dirty _ _ _ Hs) (ps_clean _ _ _ Hs) Hvalid).
  specialize (Hplan (rebuild_children (sc_parents sc)) (rebuild_children_spec _)).
  assert (∀ x, affected sc (pf_dirty_roots s) x → is_Some (sc_rows sc !! x)) as Haff.
  { intros x. by eapply affected_live; [apply (ps_dirty _ _ _ Hs)|]. }
  destruct (plan_transform_updates _ _ _ _ _) as [[updates g]|e| |]; cbn [out_bind]; [| |done..].
  2:{ destruct Hplan as [[-> ?]|(x & -> & Hx & Hno)]; [|by apply cf_transform; auto].
      pose proof (wi_generation _ Hw). lia. }
  destruct Hplan as (Hu1 & Hu2 & Hg).
  assert (dom updates ⊆ dom (sc_rows sc)) as Hsub.
  { intros x Hx%elem_of_dom%Hu1%Haff. by apply elem_of_dom. }
  destruct (N.ltb_spec (max_pending_render_changes (config w))
    (N.of_nat (size (pending_render_changes w ∪ (pf_render_changed_ids s ∪ dom updates)))))
    as [Hlt|Hge]; cbn [guard_err out_bind].
  - apply cf_pending. eapply N.lt_le_trans; [exact Hlt|].
    pose proof (subseteq_size (pending_render_changes w ∪ (pf_render_changed_ids s ∪ dom updates))
      (pending_render_changes w ∪ pf_render_changed_ids s ∪ dom (sc_rows sc)) ltac:(set_solver)). lia.
  - split; cbn; try done.
    + destruct (pf_parents s) as [m|m] eqn:Em; cbn.
      * rewrite <-(ps_parents _ _ _ Hs), Em. cbn. symmetry. by apply (ps_borrowed _ _ _ Hs).
      * by rewrite <-(ps_parents _ _ _ Hs), Em.
Qed.

(** ** Commit *)

(** Operations touch only their targets. *)
Lemma spec_operations_dom capacity sc i ops sc' :
  spec_operations capacity sc i ops = Ok sc' → dom (sc_rows sc') ⊆ dom (sc_rows sc) ∪ targets ops.
Proof.
  revert sc i. induction ops as [|op ops IH]; intros sc i; cbn [spec_operations].
  { intros Hok. inv_ok. subst. set_solver. }
  intros (sc1 & H1 & Hok)%out_bind_ok. specialize (IH _ _ Hok).
  assert (dom (sc_rows sc1) ⊆ dom (sc_rows sc) ∪ {[operation_target op]}) as Hsub.
  { destruct op as [c|d|st|rm|rp]; cbn [spec_operation] in H1; repeat case_match; inv_ok; subst;
      cbn [sc_rows operation_target]; rewrite ?dom_insert_L, ?dom_delete_L; set_solver. }
  unfold targets in *. cbn. set_solver.
Qed.

(** The specification respects the capacity. *)
Lemma spec_operations_capacity capacity sc i ops sc' :
  spec_operations capacity sc i ops = Ok sc' → N.of_nat (size (sc_rows sc)) ≤ capacity →
  N.of_nat (size (sc_rows sc')) ≤ capacity.
Proof.
  revert sc i. induction ops as [|op ops IH]; intros sc i; cbn [spec_operations].
  { intros Hok. inv_ok. by subst. }
  intros (sc1 & H1 & Hok)%out_bind_ok Hsz. apply (IH sc1 (S i)); [done|].
  destruct op as [c|d|st|rm|rp]; cbn [spec_operation] in H1; repeat case_match; inv_ok; subst; cbn [sc_rows];
    try done.
  - rewrite map_size_insert_None by done. rename select ((_ <? _) = false) into Hlt.
    apply N.ltb_ge in Hlt. lia.
  - rewrite map_size_delete_Some by eauto. lia.
  - rewrite map_size_insert_Some by eauto. done.
  - rewrite map_size_insert_Some by eauto. done.
Qed.

(** The world [commit] builds from the mutated store and index. *)
Definition commit_result w (plan : CommitPlan) (st : W) (idx : gmap N E) : AuthoritativeWorld W E := {|
  storage := st;
  stable_index := idx;
  parents := default (parents w) (cp_parents plan);
  children := default (children w) (cp_children plan);
  world_transforms :=
    cp_transform_updates plan ∪ filter (λ kv, is_Some (idx !! kv.1)) (world_transforms w);
  transform_generation := cp_transform_generation plan;
  revision := cp_new_revision plan;
  pending_render_changes := pending_render_changes w ∪ cp_render_changed_ids plan;
  last_extracted_revision := last_extracted_revision w;
  render_extraction_generation := render_extraction_generation w;
  idempotency_records := idempotency_records w;
  config := config w;
|}.

Section committed.
Context w (s : PreflightState) (sc : scene) (new_revision : N) (plan : CommitPlan) (st : W) (idx : gmap N E).
Context (Hw : winv w) (Hs : pf_sim w s sc) (Hplan : plan_ok w s sc new_revision plan).
Context (Hst : store_ok st idx) (Hrows : sc_rows sc = abs_rows st idx).

Lemma committed_live x : is_Some (idx !! x) ↔ is_Some (sc_rows sc !! x).
Proof. rewrite <-!(elem_of_dom (D:=gset N)), Hrows. by rewrite store_ok_dom. Qed.

(** A cached transform is either planned or was cached before. *)
Lemma committed_transform x t :
  world_transforms (commit_result w plan st idx) !! x = Some t ↔
  cp_transform_updates plan !! x = Some t ∨
  (¬ affected sc (pf_dirty_roots s) x ∧ is_Some (sc_rows sc !! x) ∧ world_transforms w !! x = Some t).
Proof.
  cbn. rewrite lookup_union_Some_raw, map_lookup_filter_Some. cbn. rewrite committed_live.
  rewrite eq_None_not_Some, (po_affected _ _ _ _ _ Hplan). naive_solver.
Qed.

Lemma committed_coherent x t :
  world_transforms (commit_result w plan st idx) !! x = Some t →
  world_matrix sc x (wt_matrix t) ∧ wt_generation t ≤ cp_transform_generation plan.
Proof.
  rewrite committed_transform. intros [Hu|(Hna & Hlive & Hold)].
  - apply (po_updates _ _ _ _ _ Hplan) in Hu as [? ->]. done.
  - destruct (wi_coherent _ Hw _ _ Hold) as [Hm Hg]. split.
    + eapply (unaffected_matrix w); [apply (ps_clean _ _ _ Hs)|apply (po_hierarchy _ _ _ _ _ Hplan)|done..].
    + pose proof (po_generation _ _ _ _ _ Hplan). lia.
Qed.

Lemma committed_dom : dom (world_transforms (commit_result w plan st idx)) = dom idx.
Proof.
  apply set_eq. intros x. rewrite !elem_of_dom, committed_live. split.
  - intros [t Ht]. apply committed_transform in Ht as [Hu|(_ & ? & _)]; [|done].
    eapply affected_live; [apply (ps_dirty _ _ _ Hs)|apply (po_hierarchy _ _ _ _ _ Hplan)|].
    by apply (po_affected _ _ _ _ _ Hplan).
  - intros Hlive. destruct (cp_transform_updates plan !! x) as [t|] eqn:Hu.
    + exists t. apply committed_transform. by left.
    + assert (¬ affected sc (pf_dirty_roots s) x) as Hna.
      { intros [t Ht]%(po_affected _ _ _ _ _ Hplan). congruence. }
      destruct (unaffected_cached w sc (pf_dirty_roots s) (max_hierarchy_depth (config w))) with (x := x)
        as (t & Ht & _); [| |apply (ps_clean _ _ _ Hs)|apply (po_hierarchy _ _ _ _ _ Hplan)|done|done|].
      * rewrite (wc_transforms _ (wi_core _ Hw)). cbn. by rewrite store_ok_dom by apply (wc_store _ (wi_core _ Hw)).
      * intros id t Ht. by apply (wi_coherent _ Hw).
      * exists t. apply committed_transform. by right.
Qed.

Lemma committed_scene : abs_scene (commit_result w plan st idx) = sc.
Proof.
  unfold abs_scene. cbn [commit_result storage stable_index parents].
  rewrite <-Hrows, (po_parents _ _ _ _ _ Hplan). apply scene_eta.
Qed.

Lemma committed_core : wcore (commit_result w plan st idx).
Proof.
  split; [apply (wc_config _ (wi_core _ Hw))|done|apply committed_dom| |].
  - cbn. by rewrite (po_children _ _ _ _ _ Hplan), (po_parents _ _ _ _ _ Hplan).
  - cbn. rewrite (po_parents _ _ _ _ _ Hplan), <-(store_ok_dom st) by done. rewrite <-Hrows.
    apply (po_hierarchy _ _ _ _ _ Hplan).
Qed.

Lemma committed_inv :
  new_revision = revision w + 1 → new_revision ≤ u64_max →
  N.of_nat (size (sc_rows sc)) ≤ max_entities (config w) →
  91 ≤ max_decoded_bytes (runtime_limits (config w)) → winv (commit_result w plan st idx).
Proof.
  intros Hrev Hmax Hcap Hroom. split; try apply Hw.
  - apply committed_core.
  - rewrite committed_scene. apply (ps_typed _ _ _ Hs).
  - rewrite committed_scene. apply committed_coherent.
  - cbn. by rewrite <-(store_ok_size st), <-Hrows.
  - apply (po_pending _ _ _ _ _ Hplan).
  - intros key ra Hra. destruct (wi_records _ Hw _ _ Hra) as (? & ? & ? & ? & Hle).
    split_and!; [done..|]. cbn. rewrite (po_new _ _ _ _ _ Hplan). lia.
  - cbn. by rewrite (po_new _ _ _ _ _ Hplan).
  - cbn. rewrite (po_new _ _ _ _ _ Hplan). pose proof (po_generation _ _ _ _ _ Hplan).
    pose proof (wi_generation _ Hw). lia.
  - cbn. rewrite (po_new _ _ _ _ _ Hplan). pose proof (wi_extracted _ Hw). lia.
  - done.
Qed.

End committed.

(** Commit carries the plan out without a panic. *)
Lemma commit_sim w s sc new_revision plan i :
  winv w → pf_sim w s sc → plan_ok w s sc new_revision plan →
  spec_operations (max_entities (config w)) (abs_scene w) i (pf_operations s) = Ok sc →
  ∃ st idx, commit w plan = Ok (commit_result w plan st idx) ∧ store_ok st idx ∧ sc_rows sc = abs_rows st idx.
Proof.
  intros Hw Hs Hplan Hspec.
  destruct (commit_fold_sim _ _ _ _ _ _ _ (wc_store _ (wi_core _ Hw)) Hspec) as (st & idx & Hf & Hst & Hrows).
  exists st, idx. split; [|done]. unfold commit. rewrite (po_operations _ _ _ _ _ Hplan), Hf. cbn [out_bind].
  change (mkWorld _ _ _ _ _ _ _ _ _ _ _ _) with (commit_result w plan st idx).
  rewrite validate_invariants_ok by by eapply committed_core. done.
Qed.

(** ** Facts from patch validation *)

Lemma patch_validate_facts p limits :
  max_operations limits < u32_max → patch_validate p limits = Ok tt →
  patch_schema_version p = schema_v1 ∧ patch_operations p ≠ [] ∧
  N.of_nat (length (patch_operations p)) ≤ max_operations limits ∧
  Forall (λ op, operation_validate op = Ok tt) (patch_operations p) ∧
  patch_logical_size_bytes p ≤ max_decoded_bytes limits.
Proof.
  intros Hlim Hv. unfold patch_validate in Hv. inv_ok.
  rename select (validate_schema _ = _) into Hschema. rename select (out_fold _ _ _ = _) into Hscan.
  match type of Hscan with _ = Ok ?a => destruct a as [n t] end. inv_ok.
  rename select ((_ =? 0) = false) into Hne.
  repeat match goal with Hor : (_ || _) = false |- _ => apply orb_false_iff in Hor as [? ?] end.
  rewrite N.ltb_ge in *. split_and!.
  - by eapply validate_schema_ok.
  - by apply operations_non_empty.
  - rename select (len_or_max u32_max _ ≤ max_operations _) into Hle.
    rewrite len_or_max_min in Hle. lia.
  - clear -Hscan. revert Hscan. generalize (0, len_or_max u64_max (delivery_text_bytes (patch_delivery p))).
    induction (patch_operations p) as [|op ops IH]; intros acc Hscan; [constructor|].
    cbn [out_fold] in Hscan. apply out_bind_ok in Hscan as (acc' & Hop & Hscan).
    constructor; [|by eapply IH]. destruct acc as [a b]. unfold validate_patch_operation in Hop.
    apply out_bind_ok in Hop as ([] & Hop & _). done.
  - done.
Qed.

(** A patch accepted by an empty scene starts with a create, so its logical
    size exceeds that of a receipt. *)
Lemma first_create_size p capacity sc sc' :
  sc_rows sc = ∅ → patch_operations p ≠ [] →
  spec_operations capacity sc 0 (patch_operations p) = Ok sc' → 91 ≤ patch_logical_size_bytes p.
Proof.
  intros He Hne Hsp. rewrite patch_size_sat. unfold patch_size.
  destruct (patch_operations p) as [|op ops]; [done|]. cbn [spec_operations] in Hsp.
  apply out_bind_ok in Hsp as (sc1 & H1 & _).
  assert (21 ≤ operation_size op) as Hop.
  { destruct op; cbn [spec_operation] in H1; rewrite He, lookup_empty in H1; try done.
    cbn [operation_size]. lia. }
  cbn [sumN]. assert (1 ≤ delivery_size (patch_delivery p)) by (destruct (patch_delivery p); cbn; lia).
  unfold u64_max. cbn. lia.
Qed.

(** ** [apply_patch] *)

Section apply_patch.
Context w (p : ScenePatch) (f : FrameId) (clock : N * N).
Context (Hw : winv w) (Hp : typed_patch p).

Abbreviation limits := (runtime_limits (config w)).
Abbreviation key := (patch_idempotency_key p).

(** The receipt of an accepted patch. *)
Definition applied_receipt : ApplyReceipt := {|
  receipt_schema_version := patch_schema_version p;
  receipt_transaction_id := patch_transaction_id p;
  receipt_idempotency_key := key;
  receipt_status := Applied;
  receipt_previous_revision := revision w;
  receipt_new_revision := revision w + 1;
  receipt_operation_count := N.of_nat (length (patch_operations p));
  receipt_diagnostics := [];
  receipt_timing := mkTiming 0 clock.1 clock.2;
  receipt_estimated_visible_frame := f;
|}.

(** Every way [apply_patch] refuses a patch. *)
Inductive apply_failure : WorldApplyError → Prop :=
| af_invalid e : patch_validate p limits = Err e → apply_failure (InvalidPatch e)
| af_conflict ra :
    idempotency_records w !! key = Some ra → ra_transaction_id ra ≠ patch_transaction_id p →
    apply_failure (IdempotencyKeyConflict key (ra_transaction_id ra) (patch_transaction_id p))
| af_extraction :
    idempotency_records w !! key = None → render_extraction_generation w = u64_max →
    apply_failure RenderExtractionGenerationOverflow
| af_records :
    idempotency_records w !! key = None →
    N.of_nat (size (idempotency_records w)) = max_idempotency_records (config w) →
    apply_failure (IdempotencyCapacityExceeded (max_idempotency_records (config w)))
| af_base :
    idempotency_records w !! key = None → patch_base_revision p ≠ revision w →
    apply_failure (BaseRevisionMismatch (revision w) (patch_base_revision p))
| af_revision :
    idempotency_records w !! key = None → revision w = u64_max → apply_failure WorldRevisionOverflow
| af_operation e :
    idempotency_records w !! key = None →
    spec_operations (max_entities (config w)) (abs_scene w) 0 (patch_operations p) = Err e →
    apply_failure e
| af_completion sc e :
    idempotency_records w !! key = None →
    spec_operations (max_entities (config w)) (abs_scene w) 0 (patch_operations p) = Ok sc →
    completion_failure w sc (targets (patch_operations p)) e → apply_failure e.

(** A commit of the patch. *)
Record applied (sc : scene) (receipt : ApplyReceipt) (w' : AuthoritativeWorld W E) : Prop := {
  ap_fresh : idempotency_records w !! key = None;
  ap_base : patch_base_revision p = revision w;
  ap_spec : spec_operations (max_entities (config w)) (abs_scene w) 0 (patch_operations p) = Ok sc;
  ap_receipt : receipt = applied_receipt;
  ap_inv : winv w';
  ap_scene : abs_scene w' = sc;
  ap_revision : revision w' = revision w + 1;
  ap_config : config w' = config w;
  ap_records : idempotency_records w'
    = <[key := mkRecordedApply (patch_transaction_id p) receipt]> (idempotency_records w);
  ap_extracted : last_extracted_revision w' = last_extracted_revision w;
  ap_extraction : render_extraction_generation w' = render_extraction_generation w;
  ap_pending : pending_render_changes w ⊆ pending_render_changes w';
  ap_pending_bound : pending_render_changes w'
    ⊆ pending_render_changes w ∪ targets (patch_operations p) ∪ dom (sc_rows sc);
  ap_columns : ∀ id, id ∉ pending_render_changes w' →
    render_columns <$> sc_rows sc !! id = render_columns <$> sc_rows (abs_scene w) !! id;
  ap_transforms : ∀ id, id ∉ pending_render_changes w' → is_Some (sc_rows sc !! id) →
    world_transforms w' !! id = world_transforms w !! id;
}.

Lemma completion_failure_mono sc changed changed' e :
  changed ⊆ changed' → completion_failure w sc changed e → completion_failure w sc changed' e.
Proof.
  intros Hsub []; [by apply cf_hierarchy|by apply cf_transform|].
  apply cf_pending. pose proof (subseteq_size (pending_render_changes w ∪ changed ∪ dom (sc_rows sc))
    (pending_render_changes w ∪ changed' ∪ dom (sc_rows sc)) ltac:(set_solver)). lia.
Qed.

Lemma receipt_applied_ok :
  patch_validate p limits = Ok tt → revision w + 1 ≤ u64_max → 91 ≤ max_decoded_bytes limits →
  receipt_validate applied_receipt limits = Ok tt.
Proof.
  intros Hv Hrev Hroom. destruct (wc_config _ (wi_core _ Hw)) as [[Hlim _] Hops].
  apply patch_validate_facts in Hv as (Hschema & _ & Hlen & _); [|done].
  unfold receipt_validate. cbn [applied_receipt receipt_schema_version receipt_previous_revision
    receipt_new_revision receipt_operation_count receipt_diagnostics length foldl].
  rewrite Hschema. change (validate_schema schema_v1) with (@Ok ValidationError unit tt). cbn [out_bind].
  unfold checked_next. rewrite (proj2 (checked_add_Some u64_max (revision w) 1 (revision w + 1))) by done.
  cbn [out_ok]. rewrite bool_decide_true by done. cbn [negb guard_err out_bind].
  rewrite (proj2 (N.ltb_ge _ _) Hlen). cbn [guard_err out_bind].
  change (len_or_max u32_max 0) with 0. rewrite (proj2 (N.ltb_ge _ _) (N.le_0_l _)). cbn [guard_err out_bind].
  rewrite (proj2 (N.ltb_ge _ _) (N.le_0_l _)). cbn [guard_err out_bind].
  change (receipt_logical_size_bytes applied_receipt) with 91. by rewrite (proj2 (N.ltb_ge _ _) Hroom).
Qed.

(** Recording the receipt keeps the invariant. *)
Lemma record_apply_inv w1 receipt :
  winv w1 → idempotency_records w1 !! key = None →
  N.of_nat (size (idempotency_records w1)) < max_idempotency_records (config w1) →
  record_ok w1 key (mkRecordedApply (patch_transaction_id p) receipt) →
  winv (record_apply w1 key (mkRecordedApply (patch_transaction_id p) receipt)).
Proof.
  clear Hw Hp w. intros Hw Hfresh Hcap Hrec. split; cbn; try apply Hw.
  - destruct (wi_core _ Hw) as [? ? ? ? ?]. by split.
  - rewrite map_size_insert_None by done. lia.
  - intros k ra. rewrite lookup_insert_Some. intros [[<- <-]|[_ Hra]]; [done|].
    by apply (wi_records _ Hw).
Qed.

(** Preflight of the operations, from the state the code starts with. *)
Lemma preflight_sim :
  patch_validate p limits = Ok tt → revision w < u64_max →
  match preflight w p (revision w + 1) with
  | Ok plan => ∃ s sc, pf_sim w s sc ∧ pf_operations s = patch_operations p ∧
      pf_render_changed_ids s ⊆ targets (patch_operations p) ∧
      spec_operations (max_entities (config w)) (abs_scene w) 0 (patch_operations p) = Ok sc ∧
      plan_ok w s sc (revision w + 1) plan
  | Err e =>
      spec_operations (max_entities (config w)) (abs_scene w) 0 (patch_operations p) = Err e ∨
      ∃ sc, spec_operations (max_entities (config w)) (abs_scene w) 0 (patch_operations p) = Ok sc ∧
        completion_failure w sc (targets (patch_operations p)) e
  | Panic | OutOfFuel => False
  end.
Proof.
  intros Hv Hrev. destruct (wc_config _ (wi_core _ Hw)) as [(_ & [_ Hent] & _) Hops].
  apply patch_validate_facts in Hv as (_ & _ & Hlen & Hval & _); [|done].
  pose proof (wi_entities _ Hw) as Hsz. unfold preflight.
  rewrite (proj2 (try_from_len_Some u32_max (size (stable_index w)) (N.of_nat (size (stable_index w)))))
    by (split; [done|lia]). cbn [ok_or out_bind].
  pose proof (preflight_loop_sim w (wc_store _ (wi_core _ Hw)) (wi_typed _ Hw) Hent (preflight_start w (N.of_nat (size (stable_index w)))) (abs_scene w)
    (patch_operations p) 0) as Hloop.
  specialize (Hloop (pf_sim_start w (wc_store _ (wi_core _ Hw)) (wi_typed _ Hw)) Hp Hval ltac:(lia)).
  unfold preflight_start in Hloop.
  destruct (spec_operations _ _ _ _) as [sc|e| |]; cbn [follows] in Hloop; [|rewrite Hloop; by left|done..].
  destruct Hloop as (s & -> & Hs & Hso & Hch). cbn [out_bind].
  pose proof (complete_preflight_sim w s sc (revision w + 1) Hw Hs Hrev) as Hc.
  assert (pf_render_changed_ids s ⊆ targets (patch_operations p)) as Hsub by set_solver.
  destruct (complete_preflight _ _ _) as [plan|e| |]; [by exists s, sc|right|done..].
  exists sc. split; [done|]. by eapply completion_failure_mono.
Qed.

(** The commit of a planned patch and its receipt. *)
Lemma applied_commit s sc plan st idx :
  patch_validate p limits = Ok tt → idempotency_records w !! key = None →
  N.of_nat (size (idempotency_records w)) < max_idempotency_records (config w) →
  patch_base_revision p = revision w → revision w + 1 ≤ u64_max →
  91 ≤ max_decoded_bytes limits → pf_sim w s sc → pf_render_changed_ids s ⊆ targets (patch_operations p) →
  spec_operations (max_entities (config w)) (abs_scene w) 0 (patch_operations p) = Ok sc →
  plan_ok w s sc (revision w + 1) plan → store_ok st idx → sc_rows sc = abs_rows st idx →
  applied sc applied_receipt (record_apply (commit_result w plan st idx) key
    (mkRecordedApply (patch_transaction_id p) applied_receipt)).
Proof.
  intros Hv Hfresh Hcap Hbase Hrev Hroom Hs Htgt Hspec Hplan Hst Hrows.
  assert (N.of_nat (size (sc_rows sc)) ≤ max_entities (config w)) as Hsize.
  { eapply spec_operations_capacity; [done|]. cbn. rewrite store_ok_size by apply (wc_store _ (wi_core _ Hw)).
    apply (wi_entities _ Hw). }
  assert (winv (commit_result w plan st idx)) as Hinv by by eapply (committed_inv w s sc (revision w + 1)).
  split; try done.
  - apply record_apply_inv; [done..|]. split_and!; try done. cbn. by rewrite (po_new _ _ _ _ _ Hplan).
  - by eapply (committed_scene w s sc (revision w + 1)).
  - apply (po_new _ _ _ _ _ Hplan).
  - cbn. apply union_subseteq_l.
  - cbn. rewrite (po_changed _ _ _ _ _ Hplan).
    assert (dom (cp_transform_updates plan) ⊆ dom (sc_rows sc)) as Hsub; [|set_solver].
    intros x Hx%elem_of_dom%(po_affected _ _ _ _ _ Hplan). apply elem_of_dom.
    eapply affected_live; [apply (ps_dirty _ _ _ Hs)|apply (po_hierarchy _ _ _ _ _ Hplan)|done].
  - cbn. intros id Hid. apply (ps_render _ _ _ Hs). rewrite (po_changed _ _ _ _ _ Hplan) in Hid. set_solver.
  - intros id Hid Hlive. cbn [record_apply pending_render_changes commit_result] in Hid.
    rewrite (po_changed _ _ _ _ _ Hplan) in Hid.
    assert (cp_transform_updates plan !! id = None) as Hu.
    { apply (not_elem_of_dom (D:=gset N)). set_solver. }
    cbn. rewrite lookup_union_r by done. apply option_eq. intros t. rewrite map_lookup_filter_Some.
    cbn. split; [by intros []|]. intros Ht. split; [done|]. by apply (committed_live sc st idx).
Qed.

(** Every outcome of [apply_patch]. *)
Lemma apply_patch_sim :
  match apply_patch w p f clock with
  | Ok (receipt, w') =>
      patch_validate p limits = Ok tt ∧
      ((∃ ra, idempotency_records w !! key = Some ra ∧ ra_transaction_id ra = patch_transaction_id p ∧
          receipt = replayed (ra_receipt ra) ∧ w' = w) ∨
       ∃ sc, applied sc receipt w')
  | Err e => apply_failure e
  | Panic | OutOfFuel => False
  end.
Proof.
  unfold apply_patch. pose proof (patch_validate_normal p limits) as Hn.
  destruct (patch_validate p limits) as [[]|e| |] eqn:Hv; [|by apply af_invalid|done..].
  cbn [map_err out_bind]. clear Hn.
  destruct (idempotency_records w !! key) as [ra|] eqn:Hkey.
  { destruct (N.eqb_spec (ra_transaction_id ra) (patch_transaction_id p)) as [Htx|Htx];
      cbn [negb guard_err out_bind]; [|by apply af_conflict]. split; [done|]. left. eauto. }
  destruct (N.eqb_spec (render_extraction_generation w) u64_max); cbn [guard_err out_bind];
    [by apply af_extraction|].
  pose proof (wi_records_size _ Hw) as Hrec.
  destruct (N.leb_spec (max_idempotency_records (config w)) (N.of_nat (size (idempotency_records w)))) as [Hle|Hcap];
    cbn [guard_err out_bind]; [apply af_records; [done|lia]|].
  rewrite bool_decide_true by (by destruct (patch_conflict_policy p)). cbn [andb].
  destruct (N.eqb_spec (patch_base_revision p) (revision w)) as [Hbase|Hbase]; cbn [negb guard_err out_bind];
    [|by apply af_base].
  unfold checked_next. destruct (checked_add u64_max (revision w) 1) as [rev|] eqn:Hrev; cbn [map_err out_bind].
  2:{ apply checked_add_None in Hrev. apply af_revision; [done|]. pose proof (wi_revision _ Hw). lia. }
  apply checked_add_Some in Hrev as [-> Hrev].
  pose proof (preflight_sim Hv ltac:(lia)) as Hpre.
  destruct (preflight w p (revision w + 1)) as [plan|e| |]; cbn [out_bind]; [| |done..].
  2:{ destruct Hpre as [He|(sc & Hsc & Hf)]; [by apply af_operation|by eapply af_completion]. }
  destruct Hpre as (s & sc & Hs & Hso & Htgt & Hspec & Hplan).
  destruct (wc_config _ (wi_core _ Hw)) as [_ Hops].
  destruct (patch_validate_facts _ _ Hops Hv) as (_ & Hne & Hlen & _ & Hsize).
  rewrite (po_operations _ _ _ _ _ Hplan), Hso.
  rewrite (proj2 (try_from_len_Some u32_max (length (patch_operations p)) (N.of_nat (length (patch_operations p)))))
    by (split; [done|lia]). cbn [mbind option_bind].
  unfold non_zero. rewrite (proj2 (N.eqb_neq _ _)) by (destruct (patch_operations p); [done|cbn; lia]).
  cbn [expect out_bind]. rewrite <-Hso in Hspec.
  destruct (commit_sim w s sc (revision w + 1) plan 0 Hw Hs Hplan Hspec) as (st & idx & -> & Hst & Hrows).
  cbn [out_bind]. rewrite Hso in Hspec.
  assert (91 ≤ max_decoded_bytes limits) as Hroom.
  { destruct (decide (stable_index w = ∅)) as [He|He]; [|by apply (wi_receipt_room _ Hw)].
    assert (91 ≤ patch_logical_size_bytes p); [|lia].
    eapply (first_create_size p _ (abs_scene w)); [|done|done]. cbn. unfold abs_rows. by rewrite He. }
  rewrite (po_previous _ _ _ _ _ Hplan).
  change (mkReceipt _ _ _ _ _ _ _ _ _ _) with applied_receipt.
  change (config (commit_result w plan st idx)) with (config w).
  rewrite receipt_applied_ok by done. cbn [debug_assert is_ok out_bind].
  split; [done|]. right. exists sc. by eapply applied_commit.
Qed.

End apply_patch.

End apply.
