(* ===== verification/Extraction.v ===== *)
(** * Render extraction and snapshots

    [take_render_extraction] hands the renderer only the entities that changed
    since the last packet.  [render_view] is what a renderer should see of an
    entity; a mirror that applies every packet is shown to agree with it. *)

From S2P Require Import Prelude Machine BTree Floats Values Components Messages MessageSpec Ecs WorldTypes Hierarchy Affected Render World SceneSpec CommitRefine PreflightRefine TransformRefine WorldInvariant WorldApply.

Open Scope N_scope.

(** What a renderer should hold for one entity. *)
Definition render_view (sc : scene) (transforms : gmap N WorldTransform) (id : N) : option RenderEntity :=
  r ← sc_rows sc !! id;
  t ← transforms !! id;
  if render_components_empty (render_columns r) then None
  else Some (mkRenderEntity id (wt_matrix t) (wt_generation t) (render_columns r)).

Definition view_change (view : N → option RenderEntity) (id : N) : RenderChange :=
  match view id with Some e => Upsert e | None => Remove id end.

Lemma render_view_id sc ts id e : render_view sc ts id = Some e → re_entity_id e = id.
Proof.
  unfold render_view. intros (r & _ & (t & _ & He)%bind_Some)%bind_Some.
  case_match; [done|]. by injection He as <-.
Qed.

Lemma view_change_id sc ts id : change_id (view_change (render_view sc ts) id) = id.
Proof.
  unfold view_change. destruct (render_view sc ts id) eqn:E; [|done]. by apply render_view_id in E.
Qed.

(** Applying a packet overwrites exactly the listed entities. *)
Lemma apply_changes_lookup sc ts mirror ids id :
  foldl apply_change mirror (view_change (render_view sc ts) <$> ids) !! id
  = if decide (id ∈ ids) then render_view sc ts id else mirror !! id.
Proof.
  revert mirror. induction ids as [|x ids IH]; intros mirror; cbn [foldl fmap list_fmap].
  { by rewrite decide_False by set_solver. }
  rewrite IH. destruct (decide (id ∈ ids)) as [Hin|Hin].
  { by rewrite decide_True by set_solver. }
  unfold view_change. destruct (decide (id = x)) as [->|Hne].
  - rewrite (decide_True (P:=x ∈ x :: ids)) by set_solver.
    destruct (render_view sc ts x) as [e|] eqn:Ev; cbn [apply_change].
    + rewrite (render_view_id _ _ _ _ Ev). by rewrite lookup_insert_eq.
    + by rewrite lookup_delete_eq.
  - rewrite (decide_False (P:=id ∈ x :: ids)) by set_solver.
    destruct (render_view sc ts x) as [e|] eqn:Ev; cbn [apply_change].
    + rewrite (render_view_id _ _ _ _ Ev). by rewrite lookup_insert_ne.
    + by rewrite lookup_delete_ne.
Qed.

Section extraction.
Context {W E : Type} `{EqDecision E} `{!EntityStore W E} `{!EntityStoreLaws W E}.
Implicit Types w : AuthoritativeWorld W E.

Abbreviation view w := (render_view (abs_scene w) (world_transforms w)).

Lemma render_entity_view w id : winv w → render_entity w id = Ok (view w id).
Proof.
  intros Hw. unfold render_entity, render_view. cbn [abs_scene sc_rows]. rewrite lookup_abs_rows.
  destruct (stable_index w !! id) as [e|] eqn:He; [|done]. cbn [mbind option_bind].
  destruct (so_rows _ _ (wc_store _ (wi_core _ Hw)) _ _ He) as (r & Hr & _). rewrite Hr.
  assert (id ∈ dom (world_transforms w)) as [t Ht]%elem_of_dom.
  { rewrite (wc_transforms _ (wi_core _ Hw)). apply elem_of_dom. eauto. }
  rewrite Ht. cbn [ok_or out_bind mbind option_bind].
  change (mkRenderComponents (row_primitive r) (row_material r) (row_camera r) (row_light r)
    (row_asset_mesh r)) with (render_columns r).
  destruct (render_components_empty (render_columns r)) eqn:Hempty; [done|].
  unfold render_entity_new. destruct (wi_coherent _ Hw _ _ Ht) as [Hm _].
  apply world_matrix_finite in Hm as [_ ->]. cbn [negb guard_err out_bind]. by rewrite Hempty.
Qed.

Lemma extraction_changes_view w ids :
  winv w → extraction_changes w ids = Ok (view_change (view w) <$> ids).
Proof.
  intros Hw. induction ids as [|id ids IH]; [done|]. cbn [extraction_changes].
  rewrite render_entity_view by done. cbn [out_bind]. rewrite IH. done.
Qed.

Lemma mark_extracted_inv w g : winv w → g ≤ u64_max → winv (mark_extracted w g).
Proof.
  intros Hw Hg. split; cbn; try apply Hw; try done.
  - destruct (wi_core _ Hw). by split.
  - rewrite size_empty. lia.
Qed.

(** Every outcome of [take_render_extraction]. *)
Lemma take_render_extraction_sim w :
  winv w →
  take_render_extraction w =
    if render_extraction_generation w =? u64_max then Err GenerationOverflow
    else Ok (mkExtraction (render_extraction_generation w + 1) (last_extracted_revision w) (revision w)
               (view_change (view w) <$> bset_iter (pending_render_changes w)),
             mark_extracted w (render_extraction_generation w + 1)).
Proof.
  intros Hw. unfold take_render_extraction.
  rewrite validate_invariants_ok by apply (wi_core _ Hw). cbn [map_err out_bind].
  pose proof (wi_extraction _ Hw) as Hgen. unfold checked_add.
  destruct (N.eqb_spec (render_extraction_generation w) u64_max) as [->|Hne]; [done|].
  rewrite (proj2 (N.leb_le _ _)) by lia. cbn [mbind option_bind]. unfold non_zero.
  rewrite (proj2 (N.eqb_neq _ _)) by lia. cbn [ok_or out_bind].
  rewrite extraction_changes_view by done. cbn [out_bind]. unfold extraction_new.
  rewrite (proj2 (N.ltb_ge _ _) (wi_extracted _ Hw)). cbn [guard_err out_bind].
  rewrite changes_ordered_ok; [done|]. rewrite <-list_fmap_compose.
  rewrite (list_fmap_ext _ id); [rewrite list_fmap_id; apply bset_iter_sorted|].
  intros i x _. apply view_change_id.
Qed.

(** ** Mirrors *)

(** A mirror fed with every packet so far. *)
Definition in_sync w (mirror : gmap N RenderEntity) : Prop :=
  ∀ id, id ∉ pending_render_changes w → mirror !! id = view w id.

Lemma applied_in_sync w p f clock sc receipt w' mirror :
  applied w p f clock sc receipt w' → in_sync w mirror → in_sync w' mirror.
Proof.
  intros Ha Hsync id Hid. rewrite Hsync by (intros Hin; apply Hid, (ap_pending _ _ _ _ _ _ _ Ha), Hin).
  unfold render_view. rewrite (ap_scene _ _ _ _ _ _ _ Ha).
  pose proof (ap_columns _ _ _ _ _ _ _ Ha id Hid) as Hcol.
  pose proof (ap_transforms _ _ _ _ _ _ _ Ha id Hid) as Htr.
  destruct (sc_rows sc !! id) as [r|] eqn:Er, (sc_rows (abs_scene w) !! id) as [r0|] eqn:Er0;
    cbn in Hcol; simplify_eq; [|done].
  cbn [mbind option_bind]. rewrite Htr by eauto.
  assert (render_columns r = render_columns r0) as -> by (unfold render_columns; congruence). done.
Qed.

Lemma extracted_in_sync w mirror g :
  in_sync w mirror →
  ∀ id, foldl apply_change mirror (view_change (view w) <$> bset_iter (pending_render_changes w)) !! id
    = view (mark_extracted w g) id.
Proof.
  intros Hsync id. rewrite apply_changes_lookup.
  change (view (mark_extracted w g) id) with (view w id).
  case_decide as Hin; [done|]. apply Hsync. by rewrite <-elem_of_bset_iter.
Qed.

(** ** Runs of a world and its mirror *)

Inductive runs (cfg : WorldConfig) : AuthoritativeWorld W E → gmap N RenderEntity → Prop :=
| run_new : runs cfg (world_new cfg) ∅
| run_apply w mirror p f clock receipt w' :
    runs cfg w mirror → typed_patch p → apply_patch w p f clock = Ok (receipt, w') → runs cfg w' mirror
| run_extract w mirror x w' :
    runs cfg w mirror → take_render_extraction w = Ok (x, w') →
    runs cfg w' (foldl apply_change mirror (rx_changes x)).

Lemma runs_inv cfg w mirror : sound_config cfg → runs cfg w mirror → winv w ∧ in_sync w mirror.
Proof.
  intros Hc. induction 1 as [|w mirror p f clock receipt w' _ [Hw Hs] Hp Ha|w mirror x w' _ [Hw Hs] Hx].
  - split; [by apply world_new_inv|]. intros id _. done.
  - pose proof (apply_patch_sim w p f clock Hw Hp) as Hsim. rewrite Ha in Hsim.
    destruct Hsim as [_ [(ra & _ & _ & _ & ->)|(sc & Hap)]]; [done|].
    split; [apply (ap_inv _ _ _ _ _ _ _ Hap)|by eapply applied_in_sync].
  - rewrite take_render_extraction_sim in Hx by done.
    destruct (N.eqb_spec (render_extraction_generation w) u64_max) as [|Hne]; [done|].
    inv_ok. simplify_eq. split.
    + apply mark_extracted_inv; [done|]. pose proof (wi_extraction _ Hw). lia.
    + intros id _. by apply extracted_in_sync.
Qed.

(** ** Snapshots *)

(** The components of a row, in kind order. *)
Definition row_components (r : Row) : list ComponentValue := omap (row_get r) all_kinds.

(** The snapshot of a scene. *)
Definition scene_snapshot (revision : N) (sc : scene) : WorldSnapshot :=
  mkWorldSnapshot revision
    ((λ entry, mkEntitySnapshot entry.1 (sc_parents sc !! entry.1) (row_components entry.2))
       <$> btree_iter (sc_rows sc)).

Lemma snapshot_sim w : winv w → snapshot w = Ok (scene_snapshot (revision w) (abs_scene w)).
Proof.
  intros Hw. unfold snapshot. rewrite validate_invariants_ok by apply (wi_core _ Hw). cbn [out_bind].
  unfold scene_snapshot. do 2 f_equal. cbn [abs_scene sc_rows sc_parents].
  pose proof (wc_store _ (wi_core _ Hw)) as Hst.
  unfold btree_iter. assert (btree_keys (abs_rows (storage w) (stable_index w)) = btree_keys (stable_index w)) as ->.
  { unfold btree_keys. by rewrite store_ok_dom. }
  assert (Forall (λ k, is_Some (stable_index w !! k)) (btree_keys (stable_index w))) as Hk.
  { apply Forall_forall. intros k. by rewrite elem_of_btree_keys. }
  induction Hk as [|k l [e He] _ IH]; [done|]. cbn [omap list_omap].
  rewrite lookup_abs_rows, He. cbn [mbind option_bind fmap option_fmap option_map].
  destruct (so_rows _ _ Hst _ _ He) as (r & Hr & _). rewrite Hr. cbn. f_equal; [|exact IH].
  f_equal. unfold snapshot_components, storage_get. by rewrite Hr.
Qed.

End extraction.
