(* ===== verification/WorldTheorems.v ===== *)
(** * What the authoritative world guarantees

    The properties of [cogniform-world] as theorems over any entity store that
    satisfies [EntityStoreLaws], with witnesses on the concrete [SlotStore]. *)

From S2P Require Import Prelude Machine BTree Floats Values Components Messages MessageSpec Ecs WorldTypes Hierarchy Affected Render World SceneSpec CommitRefine PreflightRefine TransformRefine WorldInvariant WorldApply Extraction.

Open Scope N_scope.

Section theorems.
Context {W E : Type} `{EqDecision E} `{!EntityStore W E} `{!EntityStoreLaws W E}.
Implicit Types w : AuthoritativeWorld W E.

Abbreviation limits w := (runtime_limits (config w)).

(** ** Reachable worlds *)

(** [later w w2]: [w2] is reached from [w] by accepted patches and
    extractions. *)
Inductive later : AuthoritativeWorld W E → AuthoritativeWorld W E → Prop :=
| later_refl w : later w w
| later_apply w w1 p f clock receipt w2 :
    later w w1 → typed_patch p → apply_patch w1 p f clock = Ok (receipt, w2) → later w w2
| later_extract w w1 x w2 :
    later w w1 → take_render_extraction w1 = Ok (x, w2) → later w w2.

Lemma later_step_inv w p f clock receipt w' :
  winv w → typed_patch p → apply_patch w p f clock = Ok (receipt, w') →
  winv w' ∧ config w' = config w ∧ revision w ≤ revision w' ∧
  (∀ k r, idempotency_records w !! k = Some r → idempotency_records w' !! k = Some r) ∧
  ∃ r, idempotency_records w' !! patch_idempotency_key p = Some r ∧
    ra_transaction_id r = patch_transaction_id p ∧
    replayed (ra_receipt r) = replayed receipt.
Proof.
  intros Hw Hp Ha. pose proof (apply_patch_sim w p f clock Hw Hp) as Hsim. rewrite Ha in Hsim.
  destruct Hsim as [_ [(ra & Hra & Htx & -> & ->)|(sc & Hap)]].
  - split_and!; [done..|]. exists ra. done.
  - split_and!.
    + apply (ap_inv _ _ _ _ _ _ _ Hap).
    + apply (ap_config _ _ _ _ _ _ _ Hap).
    + rewrite (ap_revision _ _ _ _ _ _ _ Hap). lia.
    + intros k r Hr. rewrite (ap_records _ _ _ _ _ _ _ Hap), lookup_insert_ne; [done|].
      intros <-. by rewrite (ap_fresh _ _ _ _ _ _ _ Hap) in Hr.
    + rewrite (ap_records _ _ _ _ _ _ _ Hap), lookup_insert_eq. eexists. split; [done|]. done.
Qed.

Lemma later_inv w w2 :
  winv w → later w w2 →
  winv w2 ∧ config w2 = config w ∧ revision w ≤ revision w2 ∧
  ∀ k r, idempotency_records w !! k = Some r → idempotency_records w2 !! k = Some r.
Proof.
  intros Hw. induction 1 as [w|w w1 p f clock receipt w2 _ IH Hp Ha|w w1 x w2 _ IH Hx]; [done|..].
  - destruct (IH Hw) as (Hw1 & <- & Hrev & Hrec).
    destruct (later_step_inv w1 p f clock receipt w2 Hw1 Hp Ha) as (? & ? & ? & ? & _).
    split_and!; [done..|lia|auto].
  - destruct (IH Hw) as (Hw1 & <- & Hrev & Hrec).
    rewrite take_render_extraction_sim in Hx by done.
    destruct (N.eqb_spec (render_extraction_generation w1) u64_max) as [|Hne]; [done|].
    inv_ok. simplify_eq. split_and!; [|done..]. apply mark_extracted_inv; [done|].
    pose proof (wi_extraction _ Hw1). lia.
Qed.

(** C11. Every world reached from an empty one by accepted patches and render
    extractions satisfies the full invariant: index, store and row markers
    agree, rows hold normalised values, the child index inverts a bounded
    acyclic hierarchy over live entities, every entity has exactly one cached
    transform, capacities hold, and the world's own [validate_invariants]
    accepts it. *)
Theorem world_reachable_inv cfg w mirror :
  sound_config cfg → runs cfg w mirror → winv w ∧ validate_invariants w = Ok tt.
Proof.
  intros Hc Hr. destruct (runs_inv cfg w mirror Hc Hr) as [Hw _].
  split; [done|]. apply validate_invariants_ok, wi_core, Hw.
Qed.

(** C10. [apply_patch] never panics and always returns: on a world satisfying
    the invariant, none of its [expect], [assert!] and [debug_assert!] calls
    fails and no loop runs out of fuel, for any typed patch; and when it
    succeeds the new world satisfies the invariant again. *)
Theorem apply_patch_safe w p f clock :
  winv w → typed_patch p →
  normal (apply_patch w p f clock) ∧
  ∀ receipt w', apply_patch w p f clock = Ok (receipt, w') → winv w'.
Proof.
  intros Hw Hp. split.
  - pose proof (apply_patch_sim w p f clock Hw Hp) as Hsim.
    by destruct (apply_patch w p f clock) as [[]| | |].
  - intros receipt w' Ha. by apply (later_step_inv w p f clock receipt w').
Qed.

(** C1. An accepted patch with a fresh idempotency key implements the scene
    specification: the scene the new world represents is the result of carrying
    the operations out one after the other on the old scene, the revision
    advances by one, and the receipt reports that transition. *)
Theorem apply_patch_refines w p f clock receipt w' :
  winv w → typed_patch p → idempotency_records w !! patch_idempotency_key p = None →
  apply_patch w p f clock = Ok (receipt, w') →
  spec_operations (max_entities (config w)) (abs_scene w) 0 (patch_operations p) = Ok (abs_scene w') ∧
  patch_base_revision p = revision w ∧ revision w' = revision w + 1 ∧
  receipt = applied_receipt w p f clock ∧ config w' = config w.
Proof.
  intros Hw Hp Hfresh Ha. pose proof (apply_patch_sim w p f clock Hw Hp) as Hsim. rewrite Ha in Hsim.
  destruct Hsim as [_ [(ra & Hra & _)|(sc & [])]]; [congruence|]. by subst.
Qed.

(** C25. Every refusal has its stated cause: an error value is produced only when
    the patch is invalid, its key was used by another transaction, a counter or
    capacity is exhausted, the base revision is stale, the specification
    refuses an operation with that same error, or the resulting scene has an
    invalid hierarchy, an entity without a finite world matrix or too many
    pending render changes. *)
Theorem apply_patch_failures w p f clock e :
  winv w → typed_patch p → apply_patch w p f clock = Err e → apply_failure w p e.
Proof.
  intros Hw Hp Ha. pose proof (apply_patch_sim w p f clock Hw Hp) as Hsim. by rewrite Ha in Hsim.
Qed.

(** Acceptance, with everything the acceptance entails. *)
Lemma apply_patch_applied w p f clock sc :
  winv w → typed_patch p → patch_validate p (limits w) = Ok tt →
  idempotency_records w !! patch_idempotency_key p = None →
  N.of_nat (size (idempotency_records w)) < max_idempotency_records (config w) →
  render_extraction_generation w < u64_max →
  patch_base_revision p = revision w → revision w < u64_max →
  spec_operations (max_entities (config w)) (abs_scene w) 0 (patch_operations p) = Ok sc →
  valid_hierarchy (dom (sc_rows sc)) (sc_parents sc) (max_hierarchy_depth (config w)) →
  (∀ x, is_Some (sc_rows sc !! x) → ∃ m, world_matrix sc x m) →
  N.of_nat (size (pending_render_changes w ∪ targets (patch_operations p) ∪ dom (sc_rows sc)))
    ≤ max_pending_render_changes (config w) →
  ∃ receipt w', apply_patch w p f clock = Ok (receipt, w') ∧ applied w p f clock sc receipt w'.
Proof.
  intros Hw Hp Hv Hfresh Hcap Hx Hbase Hrev Hspec Hh Hm Hpend.
  pose proof (apply_patch_sim w p f clock Hw Hp) as Hsim.
  destruct (apply_patch w p f clock) as [[receipt w']|e| |]; [|exfalso|done..].
  - destruct Hsim as [_ [(ra & Hra & _)|(sc' & Hap)]]; [congruence|]. exists receipt, w'.
    split; [done|].
    pose proof (ap_spec _ _ _ _ _ _ _ Hap) as Hsp. rewrite Hspec in Hsp. by apply Ok_inj in Hsp as ->.
  - destruct Hsim as [? ?|? ?|? ?|? ?|? ?|? ?|? ? ?|sc' ? ? Hsp Hf]; try congruence; try lia.
    rewrite Hspec in Hsp. apply Ok_inj in Hsp as <-.
    destruct Hf as [e He|x Hx' Hno|]; [|by apply Hno, Hm|lia].
    apply hierarchy_depths_ok_iff in Hh; [by rewrite He in Hh|]. apply wcore_depth, Hw.
Qed.

(** C24. Conversely a patch is accepted whenever the specification accepts it:
    a valid patch with a fresh key and the current base revision, whose
    operations succeed on the scene, whose resulting hierarchy is valid, whose
    entities all have finite world matrices, and for which the counters and
    the record and pending-change capacities have room. *)
Theorem apply_patch_accepts w p f clock sc :
  winv w → typed_patch p → patch_validate p (limits w) = Ok tt →
  idempotency_records w !! patch_idempotency_key p = None →
  N.of_nat (size (idempotency_records w)) < max_idempotency_records (config w) →
  render_extraction_generation w < u64_max →
  patch_base_revision p = revision w → revision w < u64_max →
  spec_operations (max_entities (config w)) (abs_scene w) 0 (patch_operations p) = Ok sc →
  valid_hierarchy (dom (sc_rows sc)) (sc_parents sc) (max_hierarchy_depth (config w)) →
  (∀ x, is_Some (sc_rows sc !! x) → ∃ m, world_matrix sc x m) →
  N.of_nat (size (pending_render_changes w ∪ targets (patch_operations p) ∪ dom (sc_rows sc)))
    ≤ max_pending_render_changes (config w) →
  ∃ receipt w', apply_patch w p f clock = Ok (receipt, w') ∧ abs_scene w' = sc.
Proof.
  intros Hw Hp Hv Hfresh Hcap Hx Hbase Hrev Hspec Hh Hm Hpend.
  destruct (apply_patch_applied w p f clock sc) as (receipt & w' & Ha & Hap); [done..|].
  exists receipt, w'. split; [done|]. apply (ap_scene _ _ _ _ _ _ _ Hap).
Qed.

(** C12. Incremental propagation is exact: in every reachable world the cached
    transform of each live entity is the composition of local transforms from
    its root, recomputed from scratch, and only live entities have one. *)
Theorem world_transforms_exact cfg w mirror :
  sound_config cfg → runs cfg w mirror →
  ∀ id m, (∃ t, world_transforms w !! id = Some t ∧ wt_matrix t = m) ↔ world_matrix (abs_scene w) id m.
Proof.
  intros Hc Hr. destruct (runs_inv cfg w mirror Hc Hr) as [Hw _]. intros id m. split.
  - intros (t & Ht & <-). by apply (wi_coherent _ Hw).
  - intros Hm. assert (id ∈ dom (stable_index w)) as Hid.
    { rewrite <-(store_ok_dom (storage w)) by apply Hw. apply elem_of_dom. destruct Hm; eauto. }
    rewrite <-(wc_transforms _ (wi_core _ Hw)) in Hid. apply elem_of_dom in Hid as [t Ht].
    exists t. split; [done|]. destruct (wi_coherent _ Hw _ _ Ht) as [Hm' _].
    by eapply world_matrix_unique.
Qed.

(** C26. Idempotency: once a patch was accepted, any later submission with its
    key, in any world reached since, changes nothing; it returns the receipt of
    the first application marked as a replay if the transaction is the same,
    and is refused as a conflict otherwise. *)
Theorem apply_patch_idempotent w p f clock receipt w' w2 p2 f2 clock2 :
  winv w → typed_patch p → apply_patch w p f clock = Ok (receipt, w') → later w' w2 →
  patch_validate p2 (limits w) = Ok tt → patch_idempotency_key p2 = patch_idempotency_key p →
  apply_patch w2 p2 f2 clock2 =
    if patch_transaction_id p2 =? patch_transaction_id p then Ok (replayed receipt, w2)
    else Err (IdempotencyKeyConflict (patch_idempotency_key p) (patch_transaction_id p)
                (patch_transaction_id p2)).
Proof.
  intros Hw Hp Ha Hl Hv Hk.
  destruct (later_step_inv w p f clock receipt w' Hw Hp Ha) as (Hw' & Hc & _ & _ & ra & Hra & Htx & Hrep).
  destruct (later_inv w' w2 Hw' Hl) as (_ & Hc2 & _ & Hrec). apply Hrec in Hra.
  unfold apply_patch. rewrite Hc2, Hc, Hv. cbn [map_err out_bind]. rewrite Hk, Hra, Htx, (N.eqb_sym (patch_transaction_id p2)).
  destruct (N.eqb_spec (patch_transaction_id p) (patch_transaction_id p2)); cbn [negb guard_err out_bind]; [|done].
  by rewrite Hrep.
Qed.

(** C13. Render extraction succeeds in every reachable world unless its
    generation counter is exhausted, reports strictly ascending changes from
    the last extracted revision to the current one, and is complete: a mirror
    that applied every packet so far holds, after this one, exactly the
    render record of every entity of the world. *)
Theorem render_extraction_complete cfg w mirror :
  sound_config cfg → runs cfg w mirror → render_extraction_generation w < u64_max →
  ∃ x w', take_render_extraction w = Ok (x, w') ∧
    StronglySorted N.lt (change_id <$> rx_changes x) ∧
    rx_base_revision x = last_extracted_revision w ∧ rx_scene_revision x = revision w ∧
    ∀ id, render_entity w' id = Ok (foldl apply_change mirror (rx_changes x) !! id).
Proof.
  intros Hc Hr Hg. destruct (runs_inv cfg w mirror Hc Hr) as [Hw Hs].
  rewrite take_render_extraction_sim by done. rewrite (proj2 (N.eqb_neq _ _)) by lia.
  eexists _, _. split; [done|]. cbn [rx_changes rx_base_revision rx_scene_revision]. split_and!; [|done..|].
  - rewrite <-list_fmap_compose.
    rewrite (list_fmap_ext _ id); [rewrite list_fmap_id; apply bset_iter_sorted|].
    intros i x _. apply view_change_id.
  - intros id. rewrite render_entity_view by (apply mark_extracted_inv; [done|lia]).
    by rewrite (extracted_in_sync w mirror (render_extraction_generation w + 1)).
Qed.

End theorems.

(** Snapshots determine scenes. *)
Lemma row_get_all_inj r r' :
  row_stable_id r = row_stable_id r' → (∀ k, row_get r k = row_get r' k) → r = r'.
Proof.
  destruct r as [i n t p m ca l a], r' as [i' n' t' p' m' ca' l' a']. simpl. intros -> Hk.
  pose proof (Hk KName) as H1. pose proof (Hk KLocalTransform) as H2. pose proof (Hk KPrimitive) as H3.
  pose proof (Hk KMaterial) as H4. pose proof (Hk KCamera) as H5. pose proof (Hk KLight) as H6.
  pose proof (Hk KAssetMesh) as H7. cbn in *. clear Hk.
  f_equal; match goal with
  | H : ?f <$> ?x = ?f <$> ?y |- ?x = ?y => destruct x, y; cbn in H; congruence
  end.
Qed.

Lemma row_components_inj r r' :
  row_components r = row_components r' → ∀ k, row_get r k = row_get r' k.
Proof.
  assert (∀ r k c, row_get r k = Some c ↔ c ∈ row_components r ∧ component_kind c = k) as Hin.
  { intros r0 k c. unfold row_components. rewrite list_elem_of_omap. split.
    - intros Hc. split; [|by eapply row_get_kind]. exists k. split; [apply elem_of_all_kinds|done].
    - intros [(k' & _ & Hc) <-]. by rewrite (row_get_kind _ _ _ Hc). }
  intros He k. apply option_eq. intros c. by rewrite !Hin, He.
Qed.

(** Only live entities have a parent. *)
Lemma parents_dead {W E} `{EqDecision E} `{!EntityStore W E} `{!EntityStoreLaws W E}
    (w : AuthoritativeWorld W E) id :
  winv w → ¬ is_Some (sc_rows (abs_scene w) !! id) → parents w !! id = None.
Proof.
  intros Hw Hn. destruct (parents w !! id) as [p|] eqn:Hp; [|done]. destruct Hn.
  apply (elem_of_dom (D:=gset N)). cbn. rewrite store_ok_dom by apply Hw.
  by apply (wc_hierarchy _ (wi_core _ Hw)) in Hp as [? _].
Qed.

Section snapshots.
Context {W1 E1 W2 E2 : Type} `{EqDecision E1} `{EqDecision E2}.
Context `{!EntityStore W1 E1} `{!EntityStoreLaws W1 E1} `{!EntityStore W2 E2} `{!EntityStoreLaws W2 E2}.

Lemma scene_snapshot_rows rev1 rev2 sc1 sc2 id r1 :
  ws_entities (scene_snapshot rev1 sc1) = ws_entities (scene_snapshot rev2 sc2) →
  sc_rows sc1 !! id = Some r1 →
  ∃ r2, sc_rows sc2 !! id = Some r2 ∧ (∀ k, row_get r1 k = row_get r2 k) ∧
    sc_parents sc1 !! id = sc_parents sc2 !! id.
Proof.
  intros He Hr. cbn [scene_snapshot ws_entities] in He.
  assert (mkEntitySnapshot id (sc_parents sc1 !! id) (row_components r1)
    ∈ (λ entry, mkEntitySnapshot entry.1 (sc_parents sc1 !! entry.1) (row_components entry.2))
      <$> btree_iter (sc_rows sc1)) as Hin.
  { apply list_elem_of_fmap. exists (id, r1). split; [done|]. by apply elem_of_btree_iter. }
  rewrite He in Hin. apply list_elem_of_fmap in Hin as ([id2 r2] & Heq & Hin%elem_of_btree_iter).
  cbn [fst snd] in Heq. pose proof (f_equal snap_entity_id Heq) as Hid. cbn in Hid. subst id2.
  exists r2. split; [done|]. split.
  - apply row_components_inj. exact (f_equal snap_components Heq).
  - exact (f_equal snap_parent_id Heq).
Qed.

(** Snapshot entities determine the scene. *)
Lemma scene_entities_inj (w1 : AuthoritativeWorld W1 E1) (w2 : AuthoritativeWorld W2 E2) rev1 rev2 :
  winv w1 → winv w2 →
  ws_entities (scene_snapshot rev1 (abs_scene w1)) = ws_entities (scene_snapshot rev2 (abs_scene w2)) →
  abs_scene w1 = abs_scene w2.
Proof.
  intros Hw1 Hw2 Hs.
  assert (∀ id, sc_rows (abs_scene w1) !! id = sc_rows (abs_scene w2) !! id ∧
    (is_Some (sc_rows (abs_scene w1) !! id) → parents w1 !! id = parents w2 !! id)) as Hrows.
  { intros id. destruct (sc_rows (abs_scene w1) !! id) as [r1|] eqn:Hr1.
    - destruct (scene_snapshot_rows _ _ _ _ _ _ Hs Hr1) as (r2 & Hr2 & Hk & Hp). rewrite Hr2.
      split; [|done]. f_equal.
      destruct (store_ok_live _ _ _ _ (wc_store _ (wi_core _ Hw1)) Hr1) as (_ & _ & _ & Hm1).
      destruct (store_ok_live _ _ _ _ (wc_store _ (wi_core _ Hw2)) Hr2) as (_ & _ & _ & Hm2).
      apply row_get_all_inj; congruence.
    - split; [|by intros []]. destruct (sc_rows (abs_scene w2) !! id) as [r2|] eqn:Hr2; [|done].
      destruct (scene_snapshot_rows _ _ _ _ _ _ (eq_sym Hs) Hr2) as (r1 & Hr1' & _). congruence. }
  assert (sc_rows (abs_scene w1) = sc_rows (abs_scene w2)) as Hr by (apply map_eq; apply Hrows).
  unfold abs_scene in *. f_equal; [done|]. apply map_eq. intros id.
  destruct (decide (is_Some (abs_rows (storage w1) (stable_index w1) !! id))) as [Hl|Hl]; [by apply Hrows|].
  rewrite (parents_dead w1) by done. symmetry. apply parents_dead; [done|].
  cbn [abs_scene sc_rows] in Hr |- *. by rewrite <-Hr.
Qed.

(** Snapshots are canonical: two worlds, whatever stores they use and
    whatever handles those assigned, have the same snapshot exactly when they
    have the same revision and represent the same scene. *)
Theorem snapshot_canonical (w1 : AuthoritativeWorld W1 E1) (w2 : AuthoritativeWorld W2 E2) :
  winv w1 → winv w2 →
  snapshot w1 = snapshot w2 ↔ revision w1 = revision w2 ∧ abs_scene w1 = abs_scene w2.
Proof.
  intros Hw1 Hw2. rewrite !snapshot_sim by done. split; [|by intros [-> ->]].
  intros Hs%Ok_inj. split; [exact (f_equal ws_revision Hs)|].
  eapply scene_entities_inj; [done..|exact (f_equal ws_entities Hs)].
Qed.

End snapshots.

(** ** Witnesses on a concrete world *)

#[export] Existing Instances SlotStore.slot_store SlotStore.slot_store_laws.

Definition sample_world : AuthoritativeWorld SlotStore.store (N * N) := world_new world_config_default.

Definition sample_world1 : AuthoritativeWorld SlotStore.store (N * N) :=
  match apply_patch sample_world sample_patch 1 (5, 6) with
  | Ok (_, w) => w
  | _ => sample_world
  end.

Definition sample_receipt : ApplyReceipt := applied_receipt sample_world sample_patch 1 (5, 6).

Lemma sample_config_sound : sound_config world_config_default.
Proof. unfold sound_config, typed_config, typed_limits. cbn. unfold u64_max, u32_max, u16_max. lia. Qed.

Lemma sample_world_inv : winv sample_world.
Proof. apply world_new_inv, sample_config_sound. Qed.

Lemma sample_apply : apply_patch sample_world sample_patch 1 (5, 6) = Ok (sample_receipt, sample_world1).
Proof.
  assert (is_ok (apply_patch sample_world sample_patch 1 (5, 6)) = true) as Hok by (vm_compute; reflexivity).
  pose proof (apply_patch_sim sample_world sample_patch 1 (5, 6) sample_world_inv sample_patch_typed) as Hsim.
  unfold sample_world1. destruct (apply_patch _ _ _ _) as [[r w]|e| |]; [|done..].
  destruct Hsim as [_ [(ra & Hra & _)|(sc & Hap)]]; [done|].
  by rewrite (ap_receipt _ _ _ _ _ _ _ Hap).
Qed.

Lemma sample_runs : runs world_config_default sample_world1 ∅.
Proof. eapply run_apply; [apply run_new|apply sample_patch_typed|apply sample_apply]. Qed.

Lemma sample_world1_inv : winv sample_world1.
Proof. by destruct (runs_inv _ _ _ sample_config_sound sample_runs). Qed.

Lemma world_reachable_inv_witness :
  winv sample_world1 ∧ validate_invariants sample_world1 = Ok tt.
Proof. exact (world_reachable_inv _ _ _ sample_config_sound sample_runs). Defined.

Lemma apply_patch_safe_witness :
  normal (apply_patch sample_world sample_patch 1 (5, 6)) ∧ winv sample_world1.
Proof.
  destruct (apply_patch_safe sample_world sample_patch 1 (5, 6) sample_world_inv sample_patch_typed) as [Hn Hi].
  exact (conj Hn (Hi _ _ sample_apply)).
Defined.

Lemma apply_patch_refines_witness :
  spec_operations 65536 (abs_scene sample_world) 0 sample_operations = Ok (abs_scene sample_world1).
Proof.
  exact (proj1 (apply_patch_refines sample_world sample_patch 1 (5, 6) sample_receipt sample_world1
    sample_world_inv sample_patch_typed eq_refl sample_apply)).
Defined.

(** The sample patch again, with a stale base revision and a fresh key. *)
Definition stale_patch : ScenePatch :=
  mkPatch schema_v1 9 10 7 RequireExactBase MustApply patch_budget_default sample_operations.

Lemma apply_patch_failures_witness : apply_failure sample_world stale_patch (BaseRevisionMismatch 0 7).
Proof.
  apply (apply_patch_failures sample_world stale_patch 1 (5, 6)).
  - exact sample_world_inv.
  - exact sample_patch_typed.
  - vm_compute. reflexivity.
Defined.

Lemma apply_patch_accepts_witness :
  ∃ receipt w', apply_patch sample_world sample_patch 1 (5, 6) = Ok (receipt, w') ∧
    abs_scene w' = abs_scene sample_world1.
Proof.
  apply (apply_patch_accepts sample_world sample_patch 1 (5, 6) (abs_scene sample_world1)).
  - exact sample_world_inv.
  - exact sample_patch_typed.
  - vm_compute; reflexivity.
  - reflexivity.
  - reflexivity.
  - reflexivity.
  - reflexivity.
  - reflexivity.
  - pose proof (apply_patch_sim sample_world sample_patch 1 (5, 6) sample_world_inv sample_patch_typed) as Hsim.
    rewrite sample_apply in Hsim. destruct Hsim as [_ [(ra & Hra & _)|(sc & Hap)]]; [done|].
    rewrite (ap_scene _ _ _ _ _ _ _ Hap). apply (ap_spec _ _ _ _ _ _ _ Hap).
  - pose proof (wc_hierarchy _ (wi_core _ sample_world1_inv)) as Hh.
    rewrite <-(store_ok_dom (storage sample_world1)) in Hh by apply sample_world1_inv. exact Hh.
  - intros x Hx. assert (x ∈ dom (world_transforms sample_world1)) as [t Ht]%elem_of_dom.
    { rewrite (wc_transforms _ (wi_core _ sample_world1_inv)).
      rewrite <-(store_ok_dom (storage sample_world1)) by apply sample_world1_inv. by apply elem_of_dom. }
    exists (wt_matrix t). by apply (wi_coherent _ sample_world1_inv).
  - vm_compute. discriminate.
Defined.

Lemma world_transforms_exact_witness :
  (∃ t, world_transforms sample_world1 !! 2 = Some t ∧ wt_matrix t = identity_matrix) ∧
  world_matrix (abs_scene sample_world1) 2 identity_matrix.
Proof.
  assert (∃ t, world_transforms sample_world1 !! 2 = Some t ∧ wt_matrix t = identity_matrix) as Ht.
  { eexists. split; vm_compute; reflexivity. }
  exact (conj Ht (proj1 (world_transforms_exact _ _ _ sample_config_sound sample_runs 2 identity_matrix) Ht)).
Defined.

Lemma apply_patch_idempotent_witness :
  apply_patch sample_world1 sample_patch 3 (1, 1) = Ok (replayed sample_receipt, sample_world1).
Proof.
  apply (apply_patch_idempotent sample_world sample_patch 1 (5, 6) sample_receipt sample_world1
    sample_world1 sample_patch 3 (1, 1)).
  - exact sample_world_inv.
  - exact sample_patch_typed.
  - exact sample_apply.
  - apply later_refl.
  - vm_compute; reflexivity.
  - reflexivity.
Defined.

Lemma render_extraction_complete_witness :
  ∃ x w', take_render_extraction sample_world1 = Ok (x, w') ∧
    StronglySorted N.lt (change_id <$> rx_changes x) ∧
    rx_base_revision x = last_extracted_revision sample_world1 ∧
    rx_scene_revision x = revision sample_world1 ∧
    ∀ id, render_entity w' id = Ok (foldl apply_change ∅ (rx_changes x) !! id).
Proof.
  apply (render_extraction_complete world_config_default sample_world1 ∅ sample_config_sound sample_runs).
  vm_compute. reflexivity.
Defined.

Lemma snapshot_canonical_witness :
  snapshot sample_world1 = snapshot sample_world ↔
    revision sample_world1 = revision sample_world ∧ abs_scene sample_world1 = abs_scene sample_world.
Proof. exact (snapshot_canonical sample_world1 sample_world sample_world1_inv sample_world_inv). Defined.
