(* ===== verification/Hash.v ===== *)
(** * Canonical scene hashes

    [cogniform-world/src/hash.rs]: the logical hash of a world is the SHA-256
    digest of a canonical encoding of its snapshot.  The digest is a parameter
    ([Digest], third-party code); the encoding is modelled byte for byte and
    proved injective, so equal hashes mean equal scenes unless the digest
    collides. *)

From S2P Require Import Prelude Machine BTree Floats Values Components Messages Ecs WorldTypes Hierarchy Render World SceneSpec CommitRefine WorldInvariant Extraction WorldTheorems.

Open Scope N_scope.

(** SHA-256: a total function to 32 bytes.  Feeding a hasher in pieces digests
    the concatenation of the pieces. *)
Class Digest := {
  sha256 : bytes → bytes;
  sha256_length : ∀ b, length (sha256 b) = 32%nat;
}.

(** Two given inputs are different and have the same digest. *)
Definition collides `{Digest} (a b : bytes) : Prop := a ≠ b ∧ sha256 a = sha256 b.

Lemma sha256_inj `{Digest} a b : sha256 a = sha256 b → a = b ∨ collides a b.
Proof. intros Heq. destruct (decide (a = b)); [by left|by right]. Qed.

(** ** The encoding *)

Definition LOGICAL_HASH_DOMAIN : bytes := bytes_of_string "cogniform.logical-scene" ++ [x00].
Definition LOGICAL_HASH_FORMAT_VERSION : N := 1.

Definition update_entity_id (id : StableEntityId) : bytes := to_be_bytes 16 id.
Definition update_u32 (v : N) : bytes := to_be_bytes 4 v.
Definition update_f32 (v : f32) : bytes := to_be_bytes 4 v.

Definition shape_byte (s : PrimitiveShape) : byte :=
  match s with Cuboid => x01 | Plane => x02 | Sphere => x03 end.
Definition light_byte (k : LightKind) : byte :=
  match k with Directional => x01 | Point => x02 end.

(** [update_component]: the bytes fed for one component. *)
Definition update_component {F} (c : ComponentValue) : outcome F bytes :=
  match c with
  | CName v =>
      let! len := expect (try_from_len u32_max (length (name_value v))) in
      Ok (x01 :: update_u32 len ++ name_value v)
  | CLocalTransform v =>
      Ok (x02 :: mjoin (update_f32 <$>
        [ v3_x (lt_translation v); v3_y (lt_translation v); v3_z (lt_translation v);
          q_x (lt_rotation v); q_y (lt_rotation v); q_z (lt_rotation v); q_w (lt_rotation v);
          pv3_x (lt_scale v); pv3_y (lt_scale v); pv3_z (lt_scale v) ]))
  | CPrimitive v =>
      Ok (x03 :: shape_byte (prim_shape v) :: mjoin (update_f32 <$>
        [ pv3_x (prim_dimensions v); pv3_y (prim_dimensions v); pv3_z (prim_dimensions v) ]))
  | CMaterial v =>
      Ok (x04 :: mjoin (update_f32 <$>
        [ rgba_r (mat_base_color v); rgba_g (mat_base_color v); rgba_b (mat_base_color v);
          rgba_a (mat_base_color v); mat_metallic v; mat_roughness v ]))
  | CCamera v =>
      Ok (x05 :: mjoin (update_f32 <$> [ cam_vertical_fov_radians v; cam_near v; cam_far v ]))
  | CLight v =>
      Ok (x06 :: light_byte (light_kind v) :: mjoin (update_f32 <$>
        [ rgb_r (light_color v); rgb_g (light_color v); rgb_b (light_color v); light_intensity v ]))
  | CAssetMesh v => Ok (x07 :: am_content_hash v ++ update_u32 (am_mesh_index v))
  end.

(** The bytes fed for one entity. *)
Definition update_entity {F} (e : EntitySnapshot) : outcome F bytes :=
  let! count := expect (try_from_len u32_max (length (snap_components e))) in
  let! components := out_fold (λ acc c, let! b := update_component c in Ok (acc ++ b)) []
    (snap_components e) in
  Ok (update_entity_id (snap_entity_id e)
      ++ match snap_parent_id e with
         | Some parent_id => x01 :: update_entity_id parent_id
         | None => [x00]
         end
      ++ update_u32 count ++ components).

(** The whole input of the hasher. *)
Definition snapshot_input {F} (s : WorldSnapshot) : outcome F bytes :=
  let! count := expect (try_from_len u32_max (length (ws_entities s))) in
  let! entities := out_fold (λ acc e, let! b := update_entity e in Ok (acc ++ b)) []
    (ws_entities s) in
  Ok (LOGICAL_HASH_DOMAIN ++ to_be_bytes 2 LOGICAL_HASH_FORMAT_VERSION ++ update_u32 count ++ entities).

Section logical_hash.
Context `{Digest}.

(** [WorldSnapshot::logical_hash]. *)
Definition snapshot_logical_hash {F} (s : WorldSnapshot) : outcome F bytes :=
  let! input := snapshot_input s in Ok (sha256 input).

(** [AuthoritativeWorld::logical_hash]. *)
Definition logical_hash {W E} `{EntityStore W E} (w : AuthoritativeWorld W E)
    : outcome WorldInvariantError bytes :=
  let! s := snapshot w in snapshot_logical_hash s.

End logical_hash.

(** ** Encodings read back *)

(** [parses enc P]: the encoding of values satisfying [P] is injective and
    self-delimiting. *)
Definition parses {A} (P : A → Prop) (enc : A → bytes) : Prop :=
  ∀ a b r s, P a → P b → enc a ++ r = enc b ++ s → a = b ∧ r = s.

Lemma cons_eq_inv {A} (x y : A) l k : x :: l = y :: k → x = y ∧ l = k.
Proof. by intros [= -> ->]. Qed.

Lemma parses_be n : parses (λ v, v < 256 ^ N.of_nat n) (to_be_bytes n).
Proof.
  intros a b r s Ha Hb He.
  apply app_inj_1 in He as [He ->]; [|by rewrite !length_to_be_bytes].
  split; [|done]. by eapply to_be_bytes_inj.
Qed.

Lemma f32_fits v : f32_normal_form v → v < 256 ^ N.of_nat 4.
Proof. intros (Hb & _). exact Hb. Qed.

(** Encodings of lists of values, one after the other. *)
Lemma parses_list {A} (P : A → Prop) (enc : A → bytes) n :
  parses P enc → parses (λ l, length l = n ∧ Forall P l) (λ l, mjoin (enc <$> l)).
Proof.
  intros Hp. induction n as [|n IH]; intros l1 l2 r s [Hl1 Hf1] [Hl2 Hf2] He.
  - apply nil_length_inv in Hl1, Hl2. by subst.
  - destruct l1 as [|x l1], l2 as [|y l2]; try done.
    apply Forall_cons in Hf1 as [Hx Hf1], Hf2 as [Hy Hf2]. rewrite !fmap_cons in He. cbn [mjoin list_join] in He. rewrite <-!app_assoc in He.
    apply Hp in He as [-> He]; [|done..].
    simpl in Hl1, Hl2. apply IH in He as [-> ->]; [done|split; [lia|done]..].
Qed.

Lemma parses_f32s n : parses (λ l, length l = n ∧ Forall f32_normal_form l) (λ l, mjoin (update_f32 <$> l)).
Proof.
  apply (parses_list f32_normal_form). intros a b r s Ha Hb. apply (parses_be 4); by apply f32_fits.
Qed.

(** ** The encoding as a pure function

    On typed values no [expect] fails, and the bytes are these. *)

Definition component_bytes (c : ComponentValue) : bytes :=
  match c with
  | CName v => x01 :: update_u32 (N.of_nat (length (name_value v))) ++ name_value v
  | CAssetMesh v => x07 :: am_content_hash v ++ update_u32 (am_mesh_index v)
  | CLocalTransform _ => x02 :: mjoin (update_f32 <$> component_f32s c)
  | CPrimitive v => x03 :: shape_byte (prim_shape v) :: mjoin (update_f32 <$> component_f32s c)
  | CMaterial _ => x04 :: mjoin (update_f32 <$> component_f32s c)
  | CCamera _ => x05 :: mjoin (update_f32 <$> component_f32s c)
  | CLight v => x06 :: light_byte (light_kind v) :: mjoin (update_f32 <$> component_f32s c)
  end.

Lemma update_component_ok {F} c : typed_component c → update_component (F:=F) c = Ok (component_bytes c).
Proof.
  destruct c as [v|[]|[]|[]|[]|[]|v]; try done. intros [_ (_ & _ & Hlen)]. cbn [update_component].
  by rewrite (proj2 (try_from_len_Some u32_max _ _) (conj eq_refl Hlen)).
Qed.

Lemma u32_fits v : v ≤ u32_max → v < 256 ^ N.of_nat 4.
Proof. unfold u32_max. intros Hv. change (256 ^ N.of_nat 4) with 4294967296. lia. Qed.

Lemma component_f32s_inj c1 c2 :
  component_kind c1 = component_kind c2 → component_f32s c1 = component_f32s c2 →
  match c1, c2 with
  | CLocalTransform _, CLocalTransform _ | CMaterial _, CMaterial _ | CCamera _, CCamera _ => c1 = c2
  | CPrimitive a, CPrimitive b => prim_shape a = prim_shape b → c1 = c2
  | CLight a, CLight b => light_kind a = light_kind b → c1 = c2
  | _, _ => True
  end.
Proof.
  destruct c1 as [|[[] [] []]|[? []]|[[] ? ?]|[]|[? [] ?]|], c2 as [|[[] [] []]|[? []]|[[] ? ?]|[]|[? [] ?]|];
    try done; cbn; intros _ Hf; simplify_eq; try done; by intros ->.
Qed.

Lemma component_f32s_length c1 c2 :
  component_kind c1 = component_kind c2 → length (component_f32s c2) = length (component_f32s c1).
Proof. by destruct c1 as [|[]|[]|[]|[]|[]|], c2 as [|[]|[]|[]|[]|[]|]. Qed.

Lemma parses_component : parses typed_component component_bytes.
Proof.
  assert (∀ c1 c2 r s, component_kind c1 = component_kind c2 →
    typed_component c1 → typed_component c2 →
    mjoin (update_f32 <$> component_f32s c1) ++ r = mjoin (update_f32 <$> component_f32s c2) ++ s →
    component_f32s c1 = component_f32s c2 ∧ r = s) as Hfs.
  { intros c1 c2 r s Hk [Ht1 _] [Ht2 _]. apply (parses_f32s (length (component_f32s c1))); [done|].
    split; [by apply component_f32s_length|done]. }
  intros c1 c2 r s Ht1 Ht2 He.
  assert (component_kind c1 = component_kind c2) as Hk.
  { destruct c1, c2; try done; discriminate He. }
  pose proof (component_f32s_inj c1 c2 Hk) as Hinj.
  destruct c1 as [v1|v1|v1|v1|v1|v1|v1], c2 as [v2|v2|v2|v2|v2|v2|v2]; try done;
    cbn [component_bytes] in He; rewrite <-?app_comm_cons, <-?app_assoc in He;
    apply cons_eq_inv in He as [_ He].
  2,4,5: destruct (Hfs _ _ _ _ Hk Ht1 Ht2 He) as [Hf ->];
    split; [by apply Hinj|done].
  - destruct Ht1 as [_ (_ & _ & H1)], Ht2 as [_ (_ & _ & H2)].
    apply (parses_be 4) in He as [Hl He]; [|by apply u32_fits..].
    apply app_inj_1 in He as [He ->]; [|lia]. destruct v1, v2. cbn in *. by subst.
  - apply cons_eq_inv in He as [Hsh He].
    destruct (Hfs _ _ _ _ Hk Ht1 Ht2 He) as [Hf ->].
    split; [|done]. apply Hinj; [done|]. by destruct (prim_shape v1), (prim_shape v2).
  - apply cons_eq_inv in He as [Hk' He].
    destruct (Hfs _ _ _ _ Hk Ht1 Ht2 He) as [Hf ->].
    split; [|done]. apply Hinj; [done|]. by destruct (light_kind v1), (light_kind v2).
  - destruct Ht1 as [_ [Hh1 Hm1]], Ht2 as [_ [Hh2 Hm2]].
    apply app_inj_1 in He as [Hh He]; [|by rewrite Hh1, Hh2].
    apply (parses_be 4) in He as [Hl ->]; [|by apply u32_fits..]. destruct v1, v2. cbn in *. by subst.
Qed.

(** ** Entities and snapshots *)

Definition parent_bytes (p : option StableEntityId) : bytes :=
  match p with Some id => x01 :: update_entity_id id | None => [x00] end.

Definition entity_bytes (e : EntitySnapshot) : bytes :=
  update_entity_id (snap_entity_id e) ++ parent_bytes (snap_parent_id e)
    ++ update_u32 (N.of_nat (length (snap_components e))) ++ mjoin (component_bytes <$> snap_components e).

Definition snapshot_bytes (s : WorldSnapshot) : bytes :=
  LOGICAL_HASH_DOMAIN ++ to_be_bytes 2 LOGICAL_HASH_FORMAT_VERSION
    ++ update_u32 (N.of_nat (length (ws_entities s))) ++ mjoin (entity_bytes <$> ws_entities s).

(** What typed worlds produce. *)
Definition typed_entity (e : EntitySnapshot) : Prop :=
  typed_id (snap_entity_id e) ∧ from_option typed_id True (snap_parent_id e) ∧
  N.of_nat (length (snap_components e)) ≤ u32_max ∧ Forall typed_component (snap_components e).

Definition typed_snapshot (s : WorldSnapshot) : Prop :=
  N.of_nat (length (ws_entities s)) ≤ u32_max ∧ Forall typed_entity (ws_entities s).

(** A fold that appends the encoding of each item. *)
Lemma append_fold_ok {F A} (f : A → outcome F bytes) (g : A → bytes) l acc :
  (∀ a, a ∈ l → f a = Ok (g a)) →
  out_fold (λ acc a, let! b := f a in Ok (acc ++ b)) acc l = Ok (acc ++ mjoin (g <$> l)).
Proof.
  revert acc. induction l as [|a l IH]; intros acc Hf; cbn [out_fold].
  - by rewrite app_nil_r.
  - rewrite Hf by set_solver. cbn [out_bind]. rewrite IH by (intros b Hb; apply Hf; set_solver).
    rewrite fmap_cons. cbn [mjoin list_join]. by rewrite <-app_assoc.
Qed.

Lemma update_entity_ok {F} e : typed_entity e → update_entity (F:=F) e = Ok (entity_bytes e).
Proof.
  intros (_ & _ & Hlen & Hc). unfold update_entity.
  rewrite (proj2 (try_from_len_Some u32_max _ _) (conj eq_refl Hlen)). cbn [expect out_bind].
  rewrite (append_fold_ok update_component component_bytes); [done|].
  intros c Hin. apply update_component_ok. rewrite Forall_forall in Hc. by apply Hc.
Qed.

Lemma snapshot_input_ok {F} s : typed_snapshot s → snapshot_input (F:=F) s = Ok (snapshot_bytes s).
Proof.
  intros (Hlen & He). unfold snapshot_input.
  rewrite (proj2 (try_from_len_Some u32_max _ _) (conj eq_refl Hlen)). cbn [expect out_bind].
  rewrite (append_fold_ok update_entity entity_bytes); [done|].
  intros e Hin. apply update_entity_ok. rewrite Forall_forall in He. by apply He.
Qed.

Lemma id_fits id : typed_id id → id < 256 ^ N.of_nat 16.
Proof.
  intros [_ Hid]. change (256 ^ N.of_nat 16) with 340282366920938463463374607431768211456.
  unfold u128_max in Hid. lia.
Qed.

Lemma parses_parent : parses (from_option typed_id True) parent_bytes.
Proof.
  intros [a|] [b|] r s Ha Hb He; try done; cbn [parent_bytes] in He; rewrite <-?app_comm_cons in He;
    apply cons_eq_inv in He as [? He]; try done.
  apply (parses_be 16) in He as [-> ->]; [done|by apply id_fits..].
Qed.

Lemma parses_entity : parses typed_entity entity_bytes.
Proof.
  intros [i1 p1 c1] [i2 p2 c2] r s (Hi1 & Hp1 & Hl1 & Hc1) (Hi2 & Hp2 & Hl2 & Hc2) He.
  cbn [snap_entity_id snap_parent_id snap_components] in *.
  unfold entity_bytes in He. cbn [snap_entity_id snap_parent_id snap_components] in He.
  rewrite <-!app_assoc in He. apply (parses_be 16) in He as [-> He]; [|by apply id_fits..].
  apply parses_parent in He as [-> He]; [|done..].
  apply (parses_be 4) in He as [Hl He]; [|by apply u32_fits..]. apply Nat2N.inj in Hl.
  apply (parses_list typed_component _ (length c2) parses_component) in He as [-> ->]; done.
Qed.

(** The encoding determines the entities. *)
Lemma snapshot_bytes_inj s1 s2 :
  typed_snapshot s1 → typed_snapshot s2 → snapshot_bytes s1 = snapshot_bytes s2 →
  ws_entities s1 = ws_entities s2.
Proof.
  intros [Hl1 He1] [Hl2 He2] He. unfold snapshot_bytes in He.
  apply app_inv_head in He. apply app_inv_head in He.
  apply (parses_be 4) in He as [Hl He]; [|by apply u32_fits..]. apply Nat2N.inj in Hl.
  rewrite <-(app_nil_r (mjoin (entity_bytes <$> ws_entities s1))),
    <-(app_nil_r (mjoin (entity_bytes <$> ws_entities s2))) in He.
  by apply (parses_list typed_entity _ (length (ws_entities s2)) parses_entity) in He as [-> _].
Qed.

Lemma omap_length_le {A B} (f : A → option B) l : (length (omap f l) ≤ length l)%nat.
Proof. induction l as [|a l IH]; cbn; [done|]. destruct (f a); cbn; lia. Qed.

Section worlds.
Context `{Digest}.
Context {W E : Type} `{EqDecision E} `{!EntityStore W E} `{!EntityStoreLaws W E}.
Implicit Types w : AuthoritativeWorld W E.

Lemma scene_snapshot_typed w : winv w → typed_snapshot (scene_snapshot (revision w) (abs_scene w)).
Proof.
  intros Hw. pose proof (wc_store _ (wi_core _ Hw)) as Hst. split; cbn [ws_entities scene_snapshot].
  - rewrite length_fmap, length_btree_iter. cbn [abs_scene sc_rows]. rewrite store_ok_size by done.
    pose proof (wi_entities _ Hw). destruct (wc_config _ (wi_core _ Hw)) as [(_ & [_ ?] & _) _]. lia.
  - apply Forall_forall. intros e ([id r] & -> & Hin%elem_of_btree_iter)%list_elem_of_fmap. cbn [fst snd].
    destruct (wi_typed _ Hw _ _ Hin) as [Hid Hr].
    split_and!; cbn [snap_entity_id snap_parent_id snap_components]; [done|..].
    + destruct (sc_parents (abs_scene w) !! id) as [p|] eqn:Hp; [|done]. cbn.
      apply (wc_hierarchy _ (wi_core _ Hw)) in Hp as [_ Hp].
      rewrite <-(store_ok_dom (storage w)) in Hp by done. apply elem_of_dom in Hp as [rp Hp].
      by apply (wi_typed _ Hw) in Hp as [? _].
    + unfold row_components. transitivity 7; [|done].
      pose proof (omap_length_le (row_get r) all_kinds) as Hle.
      change (length all_kinds) with 7%nat in Hle. lia.
    + apply Forall_forall. intros c (k & _ & Hk)%list_elem_of_omap. by eapply Hr.
Qed.

(** The hash of a world is the digest of the encoding of its scene. *)
Lemma logical_hash_sim w :
  winv w → logical_hash w = Ok (sha256 (snapshot_bytes (scene_snapshot (revision w) (abs_scene w)))).
Proof.
  intros Hw. unfold logical_hash, snapshot_logical_hash. rewrite snapshot_sim by done. cbn [out_bind].
  by rewrite snapshot_input_ok by by apply scene_snapshot_typed.
Qed.

(** Hashes ignore the revision. *)
Lemma snapshot_bytes_revision r1 r2 sc :
  snapshot_bytes (scene_snapshot r1 sc) = snapshot_bytes (scene_snapshot r2 sc).
Proof. done. Qed.

End worlds.

Section canonical.
Context `{Digest} {W1 E1 W2 E2 : Type} `{EqDecision E1} `{EqDecision E2}.
Context `{!EntityStore W1 E1} `{!EntityStoreLaws W1 E1} `{!EntityStore W2 E2} `{!EntityStoreLaws W2 E2}.

(** C30. Logical hashes identify scenes: two worlds that represent the same scene
    have the same hash, whatever their revisions, stores and caches, and two
    worlds with the same hash represent the same scene unless their own, different
    canonical encodings have one digest. *)
Theorem logical_hash_canonical (w1 : AuthoritativeWorld W1 E1) (w2 : AuthoritativeWorld W2 E2) :
  winv w1 → winv w2 →
  (abs_scene w1 = abs_scene w2 → logical_hash w1 = logical_hash w2) ∧
  (logical_hash w1 = logical_hash w2 → abs_scene w1 = abs_scene w2 ∨
     collides (snapshot_bytes (scene_snapshot (revision w1) (abs_scene w1)))
              (snapshot_bytes (scene_snapshot (revision w2) (abs_scene w2)))) ∧
  is_ok (logical_hash w1) = true.
Proof.
  intros Hw1 Hw2. rewrite !logical_hash_sim by done. split_and!; [by intros ->| |done].
  intros [He|Hc]%Ok_inj%sha256_inj; [left|by right].
  eapply scene_entities_inj; [done..|].
  apply snapshot_bytes_inj in He; [exact He|by apply scene_snapshot_typed..].
Qed.

End canonical.
