(* ===== verification/Compiler.v ===== *)
(** * The deterministic compiler

    [cogniform-compiler/src/compiler.rs]: one imagination and an immutable view
    of the scene's identities become one scene patch, or a list of unresolved
    relations and preconditions.  Indexing, [expect] and the unbounded
    recursion of [resolve_placement] are kept, so that panics and divergence
    are outcomes of the model. *)

From S2P Require Import Prelude Machine Ordering Floats Values Components Messages MessageSpec Imagination Codec Compilation Hash.

Open Scope N_scope.

#[export] Instance byte_countable : Countable byte.
Proof.
  refine (inj_countable Byte.to_N Byte.of_N _). intros b. apply Byte.of_to_N.
Defined.

Definition ENTITY_ID_DOMAIN : bytes := bytes_of_string "cogniform.imagination.entity.v1" ++ [x00].

Record CompilationSceneView := mkSceneView {
  sv_revision : SceneRevision;
  sv_entity_ids : gset N;
}.

Definition sv_contains (scene : CompilationSceneView) (id : StableEntityId) : bool :=
  bool_decide (id ∈ sv_entity_ids scene).

Record CompilerConfig := mkCompilerConfig {
  cc_runtime_limits : RuntimeLimits;
  cc_compilation_limits : CompilationLimits;
  cc_max_entity_id_attempts : N;
}.

(** [CompilerConfig::new]. *)
Definition compiler_config_new (runtime_limits : RuntimeLimits) : CompilerConfig := {|
  cc_runtime_limits := runtime_limits;
  cc_compilation_limits := for_runtime_limits runtime_limits;
  cc_max_entity_id_attempts := 32;
|}.

Inductive CompileError : Type :=
| InvalidImagination (error : ValidationError)
| SceneRevisionMismatch (requested actual : SceneRevision)
| EntityIdDerivationExhausted (entity_index attempts : N)
| InvalidNormalizedPatch (error : ValidationError)
| InvalidCompilationResult (error : CompilationValidationError)
| InvalidCompilationEncoding (error : CompilationCodecError).

Inductive PlacementKind : Type := Above (clearance : f32) | RightOf (gap : f32).

Record Placement := mkPlacement {
  pl_relation_index : N;
  pl_anchor : SceneText;
  pl_kind : PlacementKind;
}.

Record EntityPlan := mkPlan {
  ep_key : SceneText;
  ep_entity_id : StableEntityId;
  ep_name : SceneText;
  ep_primitive : PrimitiveComponent;
  ep_transform : LocalTransform;
  ep_material : MaterialComponent;
  ep_parent : option SceneText;
  ep_parent_relation : option N;
  ep_placement : option Placement;
}.

(** ** Planning entities *)

(** [identity_transform] and [neutral_material]; the literals are in range. *)
Definition identity_transform : LocalTransform :=
  mkLocalTransform (mkVec3 f32_zero f32_zero f32_zero)
    (mkQuaternion f32_zero f32_zero f32_zero f32_one) (mkPositiveVec3 f32_one f32_one f32_one).

Definition f32_0_7 : f32 := 1060320051.
Definition f32_0_8 : f32 := 1061997773.

Definition neutral_material : MaterialComponent :=
  mkMaterial (mkColorRgba f32_0_7 f32_0_7 f32_0_7 f32_one) f32_zero f32_0_8.

Definition default_decision (code : CompilationDecisionCode) (key : SceneText) : CompilationDecision :=
  mkDecision code key None None.

(** [plan_entity]; the decisions it pushes come second. *)
Definition plan_entity (e : ImaginedEntity) (entity_id : StableEntityId)
    : EntityPlan * list CompilationDecision :=
  let key := ie_key e in
  (mkPlan key entity_id (default key (ie_name e)) (ie_primitive e)
     (default identity_transform (ie_transform e)) (default neutral_material (ie_material e)) None None None,
   (if is_some (ie_name e) then [] else [default_decision DefaultName key])
   ++ (if is_some (ie_transform e) then [] else [default_decision DefaultTransform key])
   ++ (if is_some (ie_material e) then [] else [default_decision DefaultMaterial key])).

Abbreviation key_map := (gmap bytes nat).
Abbreviation next_relation := (EntityPlan → outcome CompileError (option (SceneText * N))).
Abbreviation placement_state := (list EntityPlan * list bool)%type.

Section compiler.
Context `{Digest} `{ResultJson}.

(** The identity tried at one attempt of [derive_entity_id]. *)
Definition entity_id_candidate (im : ImaginationEnvelope) (key : SceneText) (attempt : N)
    : outcome ValueErrorKind StableEntityId :=
  let digest := sha256 (ENTITY_ID_DOMAIN ++ to_be_bytes 16 (im_imagination_id im)
    ++ to_be_bytes 8 (im_seed im) ++ to_be_bytes 8 (text_len key) ++ key ++ to_be_bytes 4 attempt) in
  opaque_id_new (from_be_bytes (take 16 digest)).

(** The attempts remaining in [derive_entity_id]. *)
Fixpoint derive_attempts (remaining : nat) (attempt : N) (im : ImaginationEnvelope) (key : SceneText)
    (scene : CompilationSceneView) (used_ids : gset N) : option StableEntityId :=
  match remaining with
  | O => None
  | S remaining =>
      match entity_id_candidate im key attempt with
      | Ok candidate =>
          if negb (sv_contains scene candidate) && negb (bool_decide (candidate ∈ used_ids))
          then Some candidate
          else derive_attempts remaining (attempt + 1) im key scene used_ids
      | _ => derive_attempts remaining (attempt + 1) im key scene used_ids
      end
  end.

(** [derive_entity_id]. *)
Definition derive_entity_id (config : CompilerConfig) (im : ImaginationEnvelope) (key : SceneText)
    (entity_index : N) (scene : CompilationSceneView) (used_ids : gset N)
    : outcome CompileError StableEntityId :=
  ok_or (derive_attempts (N.to_nat (cc_max_entity_id_attempts config)) 0 im key scene used_ids)
    (EntityIdDerivationExhausted entity_index (cc_max_entity_id_attempts config)).

(** The loop of [plan_entities] from position [index]. *)
Fixpoint plan_loop (config : CompilerConfig) (im : ImaginationEnvelope) (scene : CompilationSceneView)
    (index : nat) (used_ids : gset N) (entities : list ImaginedEntity)
    : outcome CompileError (list EntityPlan * list CompilationDecision) :=
  match entities with
  | [] => Ok ([], [])
  | e :: entities =>
      let preferred_unavailable :=
        match ie_preferred_id e with
        | Some id => sv_contains scene id || bool_decide (id ∈ used_ids)
        | None => false
        end in
      let! (entity_id, id_decisions) :=
        match (if preferred_unavailable then None else ie_preferred_id e) with
        | Some preferred => Ok (preferred, [])
        | None =>
            let! derived := derive_entity_id config im (ie_key e) (count index) scene used_ids in
            Ok (derived, [mkDecision
              (if preferred_unavailable then PreferredEntityIdSubstituted else GeneratedEntityId)
              (ie_key e) None (Some derived)])
        end in
      let '(plan, decisions) := plan_entity e entity_id in
      let! (plans, rest) := plan_loop config im scene (S index) ({[entity_id]} ∪ used_ids) entities in
      Ok (plan :: plans, id_decisions ++ decisions ++ rest)
  end.

(** [plan_entities]. *)
Definition plan_entities (config : CompilerConfig) (im : ImaginationEnvelope) (scene : CompilationSceneView)
    : outcome CompileError (list EntityPlan * list CompilationDecision) :=
  plan_loop config im scene 0 ∅ (sort_by (λ a b, text_cmp (ie_key a) (ie_key b)) (im_entities im)).

(** ** Preconditions and relations *)

(** [check_scene_constraints] from position [index]. *)
Fixpoint check_scene_constraints (scene : CompilationSceneView) (index : nat)
    (constraints : list ImaginationConstraint) : list UnresolvedConstraint :=
  match constraints with
  | [] => []
  | c :: constraints =>
      match c with
      | EntityExists id =>
          if negb (sv_contains scene id)
          then [mkUnresolved RequiredEntityMissing None (Some (count index)) None None (Some id)] else []
      | EntityAbsent id =>
          if sv_contains scene id
          then [mkUnresolved RequiredEntityPresent None (Some (count index)) None None (Some id)] else []
      end ++ check_scene_constraints scene (S index) constraints
  end.

Definition relation_issue (code : UnresolvedConstraintCode) (relation_index : N) (entity related : SceneText)
    : UnresolvedConstraint :=
  mkUnresolved code (Some relation_index) None (Some entity) (Some related) None.

Definition unknown_reference (relation_index : N) (entity related : SceneText) : UnresolvedConstraint :=
  relation_issue UnknownEntityReference relation_index entity related.

(** The index of keys, built from the enumerated plans. *)
Definition key_index (entities : list EntityPlan) : key_map :=
  foldl (λ m p, <[ep_key p.2 := p.1]> m) ∅ (imap pair entities).

Definition with_parent (p : EntityPlan) (parent : SceneText) (relation_index : N) : EntityPlan :=
  mkPlan (ep_key p) (ep_entity_id p) (ep_name p) (ep_primitive p) (ep_transform p) (ep_material p)
    (Some parent) (Some relation_index) (ep_placement p).

Definition with_placement (p : EntityPlan) (placement : Placement) : EntityPlan :=
  mkPlan (ep_key p) (ep_entity_id p) (ep_name p) (ep_primitive p) (ep_transform p) (ep_material p)
    (ep_parent p) (ep_parent_relation p) (Some placement).

(** The checks the parent branch of [assign_relations] and [assign_placement]
    share: both keys known, distinct, and the first entity free; then [update]
    that entity. *)
Definition assign_checked (entities : list EntityPlan) (keys : key_map)
    (unresolved : list UnresolvedConstraint) (relation_index : N) (subject anchor : SceneText)
    (update : EntityPlan → EntityPlan)
    : outcome CompileError (list EntityPlan * list UnresolvedConstraint) :=
  match keys !! subject with
  | None => Ok (entities, unresolved ++ [unknown_reference relation_index subject anchor])
  | Some subject_index =>
      if negb (is_some (keys !! anchor))
      then Ok (entities, unresolved ++ [unknown_reference relation_index subject anchor])
      else if bool_decide (subject = anchor)
      then Ok (entities, unresolved ++ [relation_issue SelfRelation relation_index subject anchor])
      else
        let! plan := expect (entities !! subject_index) in
        if is_some (ep_parent plan) || is_some (ep_placement plan)
        then Ok (entities, unresolved ++ [relation_issue ConflictingRelation relation_index subject anchor])
        else Ok (<[subject_index := update plan]> entities, unresolved)
  end.

(** [assign_placement]. *)
Definition assign_placement (entities : list EntityPlan) (keys : key_map)
    (unresolved : list UnresolvedConstraint) (relation_index : N) (subject anchor : SceneText)
    (kind : PlacementKind) : outcome CompileError (list EntityPlan * list UnresolvedConstraint) :=
  assign_checked entities keys unresolved relation_index subject anchor
    (λ p, with_placement p (mkPlacement relation_index anchor kind)).

(** One turn of [assign_relations]. *)
Definition assign_relation (entities : list EntityPlan) (keys : key_map)
    (unresolved : list UnresolvedConstraint) (relation_index : N) (r : ImaginationRelation)
    : outcome CompileError (list EntityPlan * list UnresolvedConstraint) :=
  match r with
  | RelParent child parent =>
      assign_checked entities keys unresolved relation_index child parent
        (λ p, with_parent p parent relation_index)
  | RelAbove subject anchor clearance =>
      assign_placement entities keys unresolved relation_index subject anchor (Above clearance)
  | RelRightOf subject anchor gap =>
      assign_placement entities keys unresolved relation_index subject anchor (RightOf gap)
  end.

(** [assign_relations] from position [index]. *)
Fixpoint assign_relations (keys : key_map) (index : nat) (relations : list ImaginationRelation)
    (entities : list EntityPlan) (unresolved : list UnresolvedConstraint)
    : outcome CompileError (list EntityPlan * list UnresolvedConstraint) :=
  match relations with
  | [] => Ok (entities, unresolved)
  | r :: relations =>
      let! (entities, unresolved) := assign_relation entities keys unresolved (count index) r in
      assign_relations keys (S index) relations entities unresolved
  end.

(** [reject_parented_placement_anchors]. *)
Definition reject_parented_placement_anchors (entities : list EntityPlan) (keys : key_map)
    (unresolved : list UnresolvedConstraint) : outcome CompileError (list UnresolvedConstraint) :=
  out_fold (λ unresolved e,
      match ep_placement e with
      | None => Ok unresolved
      | Some placement =>
          let! anchor_index := expect (keys !! pl_anchor placement) in
          let! anchor := expect (entities !! anchor_index) in
          Ok (if is_some (ep_parent anchor)
              then unresolved ++ [relation_issue ConflictingRelation (pl_relation_index placement)
                                    (ep_key e) (pl_anchor placement)]
              else unresolved)
      end) unresolved entities.

(** ** Cycles *)

(** The two successors of [mark_cycles]. *)
Definition next_parent : next_relation := λ e,
  match ep_parent e with
  | None => Ok None
  | Some parent => let! relation := expect (ep_parent_relation e) in Ok (Some (parent, relation))
  end.

Definition next_anchor : next_relation := λ e,
  Ok ((λ p, (pl_anchor p, pl_relation_index p)) <$> ep_placement e).

(** The report of one cycle; the state is [(reported, unresolved)]. *)
Definition report_cycle (entities : list EntityPlan) (next : next_relation) (code : UnresolvedConstraintCode)
    (acc : gset N * list UnresolvedConstraint) (cycle_index : nat)
    : outcome CompileError (gset N * list UnresolvedConstraint) :=
  let '(reported, unresolved) := acc in
  let! e := expect (entities !! cycle_index) in
  let! r := next e in
  Ok match r with
     | Some (related, relation_index) =>
         if bool_decide (relation_index ∈ reported) then (reported, unresolved)
         else ({[relation_index]} ∪ reported,
               unresolved ++ [relation_issue code relation_index (ep_key e) related])
     | None => (reported, unresolved)
     end.

(** The inner [loop] of [mark_relation_cycles]. *)
Fixpoint cycle_walk (fuel : nat) (entities : list EntityPlan) (keys : key_map) (next : next_relation)
    (code : UnresolvedConstraintCode) (path : list nat) (positions : gmap nat nat) (current : nat)
    (acc : gset N * list UnresolvedConstraint) : outcome CompileError (gset N * list UnresolvedConstraint) :=
  match fuel with
  | O => OutOfFuel
  | S fuel =>
      match positions !! current with
      | Some cycle_start => out_fold (report_cycle entities next code) acc (drop cycle_start path)
      | None =>
          let positions := <[current := length path]> positions in
          let path := path ++ [current] in
          let! e := expect (entities !! current) in
          let! r := next e in
          match r with
          | None => Ok acc
          | Some (related, _) =>
              let! current := expect (keys !! related) in
              cycle_walk fuel entities keys next code path positions current acc
          end
      end
  end.

(** [mark_relation_cycles]; a walk visits each entity once and then repeats. *)
Definition mark_relation_cycles (entities : list EntityPlan) (keys : key_map) (next : next_relation)
    (code : UnresolvedConstraintCode) (unresolved : list UnresolvedConstraint)
    : outcome CompileError (list UnresolvedConstraint) :=
  let! acc := out_fold (λ acc start,
      cycle_walk (S (S (length entities))) entities keys next code [] ∅ start acc)
    (∅, unresolved) (seq 0 (length entities)) in
  Ok acc.2.

(** [mark_cycles]. *)
Definition mark_cycles (entities : list EntityPlan) (keys : key_map) (unresolved : list UnresolvedConstraint)
    : outcome CompileError (list UnresolvedConstraint) :=
  let! unresolved := mark_relation_cycles entities keys next_parent UrHierarchyCycle unresolved in
  mark_relation_cycles entities keys next_anchor UrPlacementCycle unresolved.

(** ** Placements *)

Record PlacementResolutionFailure := mkFailure {
  prf_code : UnresolvedConstraintCode;
  prf_relation_index : N;
  prf_subject : SceneText;
  prf_anchor : SceneText;
}.

Definition placement_failure (code : UnresolvedConstraintCode) (subject : EntityPlan) (placement : Placement)
    : PlacementResolutionFailure :=
  mkFailure code (pl_relation_index placement) (ep_key subject) (pl_anchor placement).

Definition is_unrotated (t : LocalTransform) : bool :=
  f32_eqb (q_x (lt_rotation t)) f32_zero && f32_eqb (q_y (lt_rotation t)) f32_zero
  && f32_eqb (q_z (lt_rotation t)) f32_zero.

(** The offset expression of both placement kinds along one axis. *)
Definition placement_value (anchor_translation anchor_dimension anchor_scale gap subject_dimension subject_scale : f32)
    : f32 :=
  f32_add (f32_add (f32_add anchor_translation
    (f32_mul (f32_mul anchor_dimension anchor_scale) f32_half)) gap)
    (f32_mul (f32_mul subject_dimension subject_scale) f32_half).

(** The translation a placement gives its subject. *)
Definition placed_translation (subject anchor : EntityPlan) (kind : PlacementKind) : option Vec3 :=
  let st := ep_transform subject in
  let sd := prim_dimensions (ep_primitive subject) in
  let t := ep_transform anchor in
  let d := prim_dimensions (ep_primitive anchor) in
  match kind with
  | Above clearance =>
      match finite_f32_new (placement_value (v3_y (lt_translation t)) (pv3_y d) (pv3_y (lt_scale t)) clearance
                              (pv3_y sd) (pv3_y (lt_scale st))) with
      | Ok y => Some (mkVec3 (v3_x (lt_translation t)) y (v3_z (lt_translation t)))
      | _ => None
      end
  | RightOf gap =>
      match finite_f32_new (placement_value (v3_x (lt_translation t)) (pv3_x d) (pv3_x (lt_scale t)) gap
                              (pv3_x sd) (pv3_x (lt_scale st))) with
      | Ok x => Some (mkVec3 x (v3_y (lt_translation t)) (v3_z (lt_translation t)))
      | _ => None
      end
  end.

Definition with_translation (p : EntityPlan) (v : Vec3) : EntityPlan :=
  mkPlan (ep_key p) (ep_entity_id p) (ep_name p) (ep_primitive p)
    (mkLocalTransform v (lt_rotation (ep_transform p)) (lt_scale (ep_transform p))) (ep_material p)
    (ep_parent p) (ep_parent_relation p) (ep_placement p).

(** [resolve_placement]: the plans and flags it leaves, and its failure. *)
Fixpoint resolve_placement (fuel : nat) (keys : key_map) (st : placement_state) (index : nat)
    : outcome CompileError (placement_state * option PlacementResolutionFailure) :=
  match fuel with
  | O => OutOfFuel
  | S fuel =>
      let! done := expect (st.2 !! index) in
      if (done : bool) then Ok (st, None)
      else
        let! plan := expect (st.1 !! index) in
        match ep_placement plan with
        | None => Ok ((st.1, <[index := true]> st.2), None)
        | Some placement =>
            let! anchor_index := expect (keys !! pl_anchor placement) in
            let! (st, failure) := resolve_placement fuel keys st anchor_index in
            match failure with
            | Some f => Ok (st, Some f)
            | None =>
                let! subject := expect (st.1 !! index) in
                let! anchor := expect (st.1 !! anchor_index) in
                if negb (is_unrotated (ep_transform subject)) || negb (is_unrotated (ep_transform anchor))
                then Ok (st, Some (placement_failure UnsupportedSpatialRotation subject placement))
                else
                  match placed_translation subject anchor (pl_kind placement) with
                  | None => Ok (st, Some (placement_failure NonFinitePlacement subject placement))
                  | Some v => Ok ((<[index := with_translation subject v]> st.1, <[index := true]> st.2), None)
                  end
            end
        end
  end.

(** [resolve_placements]; a chain of anchors visits each entity at most once. *)
Definition resolve_placements (entities : list EntityPlan) (keys : key_map)
    (unresolved : list UnresolvedConstraint)
    : outcome CompileError (list EntityPlan * list UnresolvedConstraint) :=
  let! (st, unresolved) := out_fold (λ acc index,
      let '(st, unresolved) := acc in
      let! (st, failure) := resolve_placement (S (length entities)) keys st index in
      Ok (st, match failure with
              | None => unresolved
              | Some f => unresolved ++ [mkUnresolved (prf_code f) (Some (prf_relation_index f)) None
                                           (Some (prf_subject f)) (Some (prf_anchor f)) None]
              end))
    ((entities, replicate (length entities) false), unresolved) (seq 0 (length entities)) in
  Ok (st.1, unresolved).

(** ** Output *)

(** [append_relation_decisions]. *)
Definition relation_decisions (entities : list EntityPlan) : list CompilationDecision :=
  mjoin ((λ e,
    (match ep_parent_relation e with
     | Some r => [mkDecision ParentRelationApplied (ep_key e) (Some r) None]
     | None => []
     end)
    ++ (match ep_placement e with
        | Some p => [mkDecision (match pl_kind p with Above _ => AboveRelationApplied | RightOf _ => RightOfRelationApplied end)
                       (ep_key e) (Some (pl_relation_index p)) None]
        | None => []
        end)) <$> entities).

Definition create_operation (e : EntityPlan) : SceneOperation :=
  OpCreate (mkCreate (ep_entity_id e)
    [CName (mkName (ep_name e)); CLocalTransform (ep_transform e); CPrimitive (ep_primitive e);
     CMaterial (ep_material e)]).

(** The second loop of [build_patch]. *)
Fixpoint reparent_operations (entities : list EntityPlan) (rest : list EntityPlan)
    : outcome CompileError (list SceneOperation) :=
  match rest with
  | [] => Ok []
  | e :: rest =>
      match ep_parent e with
      | None => reparent_operations entities rest
      | Some parent =>
          let! parent_id := expect (ep_entity_id <$> find (λ c, bool_decide (ep_key c = parent)) entities) in
          let! ops := reparent_operations entities rest in
          Ok (OpReparent (mkReparent (ep_entity_id e) (Some parent_id)) :: ops)
      end
  end.

(** [build_patch]. *)
Definition build_patch (im : ImaginationEnvelope) (entities : list EntityPlan) : outcome CompileError ScenePatch :=
  let! reparents := reparent_operations entities entities in
  Ok {|
    patch_schema_version := im_schema_version im;
    patch_transaction_id := im_transaction_id im;
    patch_idempotency_key := im_idempotency_key im;
    patch_base_revision := im_base_revision im;
    patch_conflict_policy := RequireExactBase;
    patch_delivery := im_delivery im;
    patch_declared_budget := ib_patch (im_declared_budget im);
    patch_operations := (create_operation <$> entities) ++ reparents;
  |}.

(** [validate_completed_result]. *)
Definition validate_completed_result (r : CompilationResult) (limits : CompilationLimits)
    : outcome CompileError unit :=
  do! map_err (λ e, match e with
                    | CompInvalidResult v => InvalidCompilationResult v
                    | e => InvalidCompilationEncoding e
                    end) (result_encode r limits) then
  Ok tt.

(** [DeterministicCompiler::compile]. *)
Definition compile (config : CompilerConfig) (im : ImaginationEnvelope) (scene : CompilationSceneView)
    : outcome CompileError CompilationResult :=
  do! map_err InvalidImagination (imagination_validate im (cc_runtime_limits config)) then
  do! guard_err (negb (im_base_revision im =? sv_revision scene))
    (SceneRevisionMismatch (im_base_revision im) (sv_revision scene)) then
  let! (entities, decisions) := plan_entities config im scene in
  let unresolved := check_scene_constraints scene 0 (im_constraints im) in
  let keys := key_index entities in
  let! (entities, unresolved) := assign_relations keys 0 (im_relations im) entities unresolved in
  let! unresolved := reject_parented_placement_anchors entities keys unresolved in
  let! unresolved := mark_cycles entities keys unresolved in
  let! (entities, unresolved) :=
    match unresolved with
    | [] => resolve_placements entities keys unresolved
    | _ => Ok (entities, unresolved)
    end in
  match unresolved with
  | _ :: _ =>
      let result := mkResult COMPILATION_SCHEMA_VERSION (im_imagination_id im) (sv_revision scene) None
        (sort_by decision_cmp decisions) (dedup (sort_by unresolved_cmp unresolved)) in
      do! validate_completed_result result (cc_compilation_limits config) then
      Ok result
  | [] =>
      let decisions := sort_by decision_cmp (decisions ++ relation_decisions entities) in
      let! patch := build_patch im entities in
      do! map_err InvalidNormalizedPatch (patch_validate patch (cc_runtime_limits config)) then
      let result := mkResult COMPILATION_SCHEMA_VERSION (im_imagination_id im) (sv_revision scene) (Some patch)
        decisions [] in
      do! validate_completed_result result (cc_compilation_limits config) then
      Ok result
  end.

End compiler.
