(* ===== verification/CompilerPlans.v ===== *)
(** * Planning and relations of the compiler

    What [plan_entities] produces, the key index, and the effect of
    [assign_relations]: the shape every later pass relies on. *)

From S2P Require Import Prelude Machine Ordering Floats Values Components Messages MessageSpec Imagination Codec Compilation Hash Compiler.

Open Scope N_scope.

(** ** Planned entities *)

(** The decisions recorded for an entity planned under the identity [id]. *)
Definition entity_decisions (e : ImaginedEntity) (id : N) : list CompilationDecision :=
  (match ie_preferred_id e with
   | Some preferred =>
       if decide (preferred = id) then []
       else [mkDecision PreferredEntityIdSubstituted (ie_key e) None (Some id)]
   | None => [mkDecision GeneratedEntityId (ie_key e) None (Some id)]
   end) ++ (plan_entity e id).2.

Definition plans_of (es : list ImaginedEntity) (ids : list N) : list EntityPlan :=
  zip_with (λ e id, (plan_entity e id).1) es ids.

Definition decisions_of (es : list ImaginedEntity) (ids : list N) : list CompilationDecision :=
  mjoin (zip_with entity_decisions es ids).

Section plans.
Context `{Digest} `{ResultJson}.

Lemma opaque_id_new_ok v w : opaque_id_new v = Ok w → w = v ∧ v ≠ 0.
Proof. unfold opaque_id_new. destruct (N.eqb_spec v 0); [done|]. by intros <-%Ok_inj. Qed.

Lemma derive_attempts_fresh n a im key scene used id :
  derive_attempts n a im key scene used = Some id → id ≠ 0 ∧ (id ∉ sv_entity_ids scene) ∧ (id ∉ used).
Proof.
  revert a. induction n as [|n IH]; intros a; cbn [derive_attempts]; [done|].
  destruct (entity_id_candidate im key a) as [c| | |] eqn:Hc; [|by intros ?%IH..].
  unfold sv_contains. case_bool_decide as H1; cbn [negb andb]; [by intros ?%IH|].
  case_bool_decide as H2; cbn [negb]; [by intros ?%IH|]. intros [= <-]. split_and!; [|done..].
  intros ->. unfold entity_id_candidate in Hc. by apply opaque_id_new_ok in Hc as [<- ?].
Qed.

(** The result of planning: identities that are fresh for the scene and for
    each other, one per entity in key order, and exactly their decisions. *)
Lemma plan_loop_ok config im scene i used es plans ds :
  plan_loop config im scene i used es = Ok (plans, ds) →
  ∃ ids, length ids = length es ∧ plans = plans_of es ids ∧ ds = decisions_of es ids ∧ NoDup ids ∧
    ∀ id, id ∈ ids → (id ∉ sv_entity_ids scene) ∧ (id ∉ used).
Proof.
  revert i used plans ds. induction es as [|e es IH]; intros i used plans ds; cbn [plan_loop].
  { intros Hp. apply Ok_inj in Hp. injection Hp as <- <-. exists []. split_and!; try done; [constructor|set_solver]. }
  set (unavailable := match ie_preferred_id e with Some id => _ | None => false end).
  intros ([id idd] & Hid & Hp)%out_bind_ok. destruct (plan_entity e id) as [plan pd] eqn:Hplan.
  apply out_bind_ok in Hp as ([plans' rest] & Hrest & Hp). apply Ok_inj in Hp. injection Hp as <- <-.
  apply IH in Hrest as (ids & Hlen & -> & -> & Hnd & Hfresh).
  assert ((id ∉ sv_entity_ids scene) ∧ (id ∉ used) ∧ idd ++ pd = entity_decisions e id) as (Hs & Hu & Hd).
  { unfold entity_decisions. rewrite Hplan. cbn [snd].
    unfold unavailable in Hid. destruct (ie_preferred_id e) as [pref|] eqn:Hpref.
    - unfold sv_contains in Hid. case_bool_decide as H1; cbn [orb] in Hid;
        [|case_bool_decide as H2; cbn [orb] in Hid].
      3: { apply Ok_inj in Hid. injection Hid as <- <-. by rewrite decide_True. }
      all: apply out_bind_ok in Hid as (d & Hd & Hid); apply Ok_inj in Hid; injection Hid as <- <-;
        apply ok_or_ok, derive_attempts_fresh in Hd as (_ & Hs & Hu); split_and!; try done;
        rewrite decide_False; [done|by intros ->].
    - apply out_bind_ok in Hid as (d & Hd & Hid). apply Ok_inj in Hid. injection Hid as <- <-.
      by apply ok_or_ok, derive_attempts_fresh in Hd as (_ & Hs & Hu). }
  exists (id :: ids). split_and!.
  - cbn. by rewrite Hlen.
  - unfold plans_of. cbn [zip_with]. by rewrite Hplan.
  - unfold decisions_of. cbn [zip_with mjoin list_join]. by rewrite <-Hd, <-app_assoc.
  - constructor; [|done]. intros Hin%Hfresh. set_solver.
  - intros x [->|Hx]%elem_of_cons; [done|]. apply Hfresh in Hx. set_solver.
Qed.

Lemma plan_loop_normal config im scene i used es : normal (plan_loop config im scene i used es).
Proof.
  revert i used. induction es as [|e es IH]; intros i used; cbn [plan_loop]; [done|].
  apply out_bind_normal.
  - destruct (if _ : bool then None else ie_preferred_id e); [done|].
    apply out_bind_normal; [apply ok_or_normal|done].
  - intros [id idd] _. destruct (plan_entity e id). apply out_bind_normal; [apply IH|by intros []].
Qed.

End plans.

(** ** The key index *)

Definition keys_of (entities : list EntityPlan) : list SceneText := ep_key <$> entities.

Lemma key_index_snoc l p : key_index (l ++ [p]) = <[ep_key p := length l]> (key_index l).
Proof. unfold key_index. rewrite imap_app, foldl_app. cbn. by rewrite Nat.add_0_r. Qed.

Lemma key_index_lookup l k i :
  NoDup (keys_of l) → key_index l !! k = Some i ↔ ∃ p, l !! i = Some p ∧ ep_key p = k.
Proof.
  induction l as [|p l IH] using rev_ind; intros Hnd.
  { unfold key_index. cbn. rewrite lookup_empty. split; [done|]. intros (p & Hp & _). done. }
  unfold keys_of in Hnd. rewrite fmap_app in Hnd. apply NoDup_app in Hnd as (Hnd & Hdis & _).
  rewrite key_index_snoc. destruct (decide (ep_key p = k)) as [<-|Hne].
  - rewrite lookup_insert_eq. split.
    + intros [= <-]. exists p. split; [|done]. by apply list_lookup_middle.
    + intros (q & Hq & Hk). f_equal. apply lookup_app_Some in Hq as [Hq|[Hi Hq]].
      * exfalso. apply (Hdis (ep_key p)); [|cbn; set_solver]. rewrite <-Hk.
        apply list_elem_of_fmap. exists q. split; [done|]. by eapply list_elem_of_lookup_2.
      * destruct (i - length l)%nat as [|n] eqn:E; [lia|by rewrite lookup_nil in Hq || done].
  - rewrite lookup_insert_ne, IH by done. split; intros (q & Hq & Hk); exists q; split; try done.
    + by apply lookup_app_l_Some.
    + apply lookup_app_Some in Hq as [Hq|[Hi Hq]]; [done|].
      destruct (i - length l)%nat eqn:E; cbn in Hq; [by simplify_eq|done].
Qed.

Lemma key_index_elem l k : NoDup (keys_of l) → is_Some (key_index l !! k) ↔ k ∈ keys_of l.
Proof.
  intros Hnd. unfold keys_of. rewrite list_elem_of_fmap. split.
  - intros [i (p & Hp & <-)%key_index_lookup]; [|done]. exists p. split; [done|]. by eapply list_elem_of_lookup_2.
  - intros (p & -> & [i Hi]%list_elem_of_lookup). exists i. apply key_index_lookup; [done|]. eauto.
Qed.

(** The index depends on the keys only. *)
Lemma key_index_keys l1 l2 : keys_of l1 = keys_of l2 → key_index l1 = key_index l2.
Proof.
  revert l2. induction l1 as [|p l1 IH] using rev_ind; intros l2 Hk.
  { destruct l2; [done|done]. }
  destruct l2 as [|q l2 _] using rev_ind; [by destruct l1|].
  unfold keys_of in Hk. rewrite !fmap_app in Hk. apply app_inj_2 in Hk as [Hk Hpq]; [|done].
  rewrite !key_index_snoc, (IH _ Hk). cbn in Hpq. injection Hpq as ->.
  f_equal. apply (f_equal length) in Hk. by rewrite !length_fmap in Hk.
Qed.

(** ** Assigned relations *)

(** The part of a plan that relations do not touch. *)
Definition core (p : EntityPlan) : EntityPlan :=
  mkPlan (ep_key p) (ep_entity_id p) (ep_name p) (ep_primitive p) (ep_transform p) (ep_material p) None None None.

Lemma keys_of_core l : keys_of (core <$> l) = keys_of l.
Proof. unfold keys_of. rewrite <-list_fmap_compose. by apply list_fmap_ext. Qed.

(** The relation a placement stands for. *)
Definition placement_relation (key : SceneText) (pl : Placement) : ImaginationRelation :=
  match pl_kind pl with
  | Above clearance => RelAbove key (pl_anchor pl) clearance
  | RightOf gap => RelRightOf key (pl_anchor pl) gap
  end.

(** What a plan holds of the relations: nothing, or exactly one of them. *)
Inductive plan_holds (rels : list ImaginationRelation) (keys : list SceneText) (p : EntityPlan) : Prop :=
| holds_nothing :
    ep_parent p = None → ep_parent_relation p = None → ep_placement p = None → plan_holds rels keys p
| holds_parent k r :
    ep_parent p = Some k → ep_parent_relation p = Some (N.of_nat r) → ep_placement p = None →
    rels !! r = Some (RelParent (ep_key p) k) → k ∈ keys → k ≠ ep_key p → plan_holds rels keys p
| holds_placement pl r :
    ep_parent p = None → ep_parent_relation p = None → ep_placement p = Some pl →
    pl_relation_index pl = N.of_nat r → rels !! r = Some (placement_relation (ep_key p) pl) →
    pl_anchor pl ∈ keys → pl_anchor pl ≠ ep_key p → plan_holds rels keys p.

(** The index of the relation a plan holds. *)
Definition plan_relation (p : EntityPlan) : option N :=
  match ep_placement p with Some pl => Some (pl_relation_index pl) | None => ep_parent_relation p end.

Definition has_parent (p : EntityPlan) : bool := is_some (ep_parent p).

(** An issue about one relation. *)
Definition issue_about (rels : list ImaginationRelation) (codes : list UnresolvedConstraintCode) (r : nat)
    (u : UnresolvedConstraint) : Prop :=
  ∃ rel code, rels !! r = Some rel ∧ code ∈ codes ∧
    u = relation_issue code (N.of_nat r) (relation_keys rel).1 (relation_keys rel).2.

Definition assign_codes : list UnresolvedConstraintCode := [UnknownEntityReference; SelfRelation; ConflictingRelation].

Lemma plan_holds_mono rels rel keys p : plan_holds rels keys p → plan_holds (rels ++ [rel]) keys p.
Proof.
  intros [|k r ? ? ? ? ? ?|pl r ? ? ? ? ? ? ?]; [by apply holds_nothing|eapply holds_parent|eapply holds_placement];
    try done; by apply lookup_app_l_Some.
Qed.

Lemma plan_relation_bound rels keys p r :
  plan_holds rels keys p → plan_relation p = Some r → r < N.of_nat (length rels).
Proof.
  unfold plan_relation. intros [? -> ->|k r' ? -> -> Hl%lookup_lt_Some|pl r' ? ? -> -> Hl%lookup_lt_Some]; [done|..].
  all: intros [= <-]; lia.
Qed.

(** The state of [assign_relations] after the relations [rels]. *)
Record assigned (base : list EntityPlan) (rels : list ImaginationRelation) (entities : list EntityPlan)
    (issues : list UnresolvedConstraint) : Prop := {
  as_core : core <$> entities = base;
  as_holds : Forall (plan_holds rels (keys_of base)) entities;
  as_issue u : u ∈ issues → ∃ r, issue_about rels assign_codes r u;
  as_function u v : u ∈ issues → v ∈ issues → uc_relation_index u = uc_relation_index v → u = v;
  as_disjoint u p : u ∈ issues → p ∈ entities → uc_relation_index u ≠ plan_relation p;
  as_parents : (length (filter has_parent entities) ≤ length (filter adds_patch_operation rels))%nat;
  as_complete : issues = [] → ∀ r, (r < length rels)%nat → ∃ p, p ∈ entities ∧ plan_relation p = Some (N.of_nat r);
}.

Lemma issue_about_mono rels rel codes r u : issue_about rels codes r u → issue_about (rels ++ [rel]) codes r u.
Proof. intros (x & c & Hr & ? & ->). exists x, c. split; [by apply lookup_app_l_Some|done]. Qed.

Lemma issue_about_lt rels codes r u : issue_about rels codes r u → (r < length rels)%nat.
Proof. by intros (x & c & Hr%lookup_lt_Some & _). Qed.

Lemma issue_about_index rels codes r u : issue_about rels codes r u → uc_relation_index u = Some (N.of_nat r).
Proof. by intros (x & c & _ & _ & ->). Qed.

(** A relation that is not assigned leaves one issue. *)
Lemma assigned_issue base rels entities issues rel code :
  assigned base rels entities issues → code ∈ assign_codes →
  assigned base (rels ++ [rel]) entities
    (issues ++ [relation_issue code (N.of_nat (length rels)) (relation_keys rel).1 (relation_keys rel).2]).
Proof.
  intros [Hc Hh Hi Hf Hd Hp _] Hcode.
  set (u0 := relation_issue code (N.of_nat (length rels)) (relation_keys rel).1 (relation_keys rel).2).
  assert (∀ u, u ∈ issues → uc_relation_index u ≠ uc_relation_index u0) as Hne.
  { intros u Hu Heq. destruct (Hi u Hu) as (r & Hr). rewrite (issue_about_index _ _ _ _ Hr) in Heq.
    apply issue_about_lt in Hr. injection Heq as Heq. lia. }
  split.
  - done.
  - eapply Forall_impl; [done|]. intros p. apply plan_holds_mono.
  - intros u [Hu|Hu]%elem_of_app.
    + destruct (Hi u Hu) as [r Hr]. exists r. by apply issue_about_mono.
    + apply list_elem_of_singleton in Hu as ->. exists (length rels), rel, code.
      split; [by apply list_lookup_middle|done].
  - intros u v [Hu|Hu]%elem_of_app [Hv|Hv]%elem_of_app Heq; rewrite ?list_elem_of_singleton in *; subst.
    + by apply Hf.
    + by apply Hne in Heq.
    + symmetry in Heq. by apply Hne in Heq.
    + done.
  - intros u p [Hu|Hu]%elem_of_app Hpin; [by apply Hd|]. apply list_elem_of_singleton in Hu as ->.
    intros Heq. rewrite Forall_forall in Hh. symmetry in Heq.
    apply (plan_relation_bound rels (keys_of base) p _ (Hh p Hpin)) in Heq. lia.
  - rewrite filter_app, length_app. lia.
  - intros Hnil. by apply app_nil in Hnil as [_ Hnil].
Qed.

Lemma length_filter_update {A} (P : A → bool) l i x y :
  l !! i = Some x → P x = false → length (filter P (<[i := y]> l)) = (length (filter P l) + if P y then 1 else 0)%nat.
Proof.
  revert i. induction l as [|a l IH]; intros [|i]; cbn [lookup list_lookup]; try done.
  - intros [= ->] Hx. cbn [insert list_insert]. rewrite !filter_cons, (decide_False (P := P x)) by (rewrite Hx; auto).
    destruct (P y); [rewrite decide_True by done|rewrite decide_False by auto]; cbn [length]; lia.
  - intros Hi Hx. specialize (IH i Hi Hx). cbn [insert list_insert] in *.
    rewrite !filter_cons. destruct (decide (P a)); [exact (f_equal S IH)|exact IH].
Qed.

(** A relation that is assigned is held by its first entity. *)
Lemma assigned_update base rels entities issues rel i p q :
  assigned base rels entities issues → entities !! i = Some p → ep_parent p = None → ep_placement p = None →
  core q = core p → plan_holds (rels ++ [rel]) (keys_of base) q →
  plan_relation q = Some (N.of_nat (length rels)) → has_parent q = adds_patch_operation rel →
  assigned base (rels ++ [rel]) (<[i := q]> entities) issues.
Proof.
  intros [Hc Hh Hi Hf Hd Hp Hcomp] Hip Hpar Hpl Hcore Hq Hrel Hhas.
  assert (ep_parent_relation p = None) as Hpr.
  { rewrite Forall_forall in Hh. destruct (Hh p) as [|k r Hk|pl r ? ? Hpl']; [by eapply list_elem_of_lookup_2|done|..];
      congruence. }
  split.
  - rewrite list_fmap_insert, Hcore, <-Hc. apply list_insert_id. by rewrite list_lookup_fmap, Hip.
  - apply Forall_insert; [|done]. eapply Forall_impl; [done|]. intros x. apply plan_holds_mono.
  - intros u Hu. destruct (Hi u Hu) as [r Hr]. exists r. by apply issue_about_mono.
  - done.
  - intros u x Hu Hx. apply list_elem_of_lookup in Hx as [j Hj]. destruct (decide (i = j)) as [<-|Hne].
    + rewrite list_lookup_insert_eq in Hj by by eapply lookup_lt_Some. injection Hj as <-. rewrite Hrel.
      destruct (Hi u Hu) as (r & Hr). rewrite (issue_about_index _ _ _ _ Hr). apply issue_about_lt in Hr.
      intros [= Heq]. lia.
    + rewrite list_lookup_insert_ne in Hj by done. apply Hd; [done|]. by eapply list_elem_of_lookup_2.
  - rewrite (length_filter_update _ _ _ p) by (try done; unfold has_parent; by rewrite Hpar).
    rewrite filter_app, length_app, filter_cons, Hhas.
    destruct (adds_patch_operation rel); [rewrite decide_True by done|rewrite decide_False by auto];
      cbn [length filter list_filter]; lia.
  - intros Hnil r Hr. rewrite length_app in Hr. cbn in Hr.
    assert (r = length rels ∨ (r < length rels)%nat) as [->|Hlt] by lia.
    + exists q. split; [|done]. apply (list_elem_of_lookup_2 _ i). apply list_lookup_insert_eq. by eapply lookup_lt_Some.
    + destruct (Hcomp Hnil r Hlt) as (x & Hx & Hxr). exists x. split; [|done].
      apply list_elem_of_lookup in Hx as [j Hj]. apply (list_elem_of_lookup_2 _ j).
      rewrite list_lookup_insert_ne; [done|]. intros ->. rewrite Hip in Hj. injection Hj as <-.
      unfold plan_relation in Hxr. by rewrite Hpl, Hpr in Hxr.
Qed.

Lemma count_small n : N.of_nat n ≤ u32_max → count n = N.of_nat n.
Proof. intros Hn. unfold count. rewrite len_or_max_min. lia. Qed.

Section assign.
Context (base : list EntityPlan) (Hnd : NoDup (keys_of base)).

Lemma assigned_keys rels entities issues : assigned base rels entities issues → keys_of entities = keys_of base.
Proof. intros [<- _ _ _ _ _ _]. by rewrite keys_of_core. Qed.

(** One relation, whatever its kind. *)
Lemma assign_checked_ok rels entities pre issues rel update :
  assigned base rels entities issues → N.of_nat (length rels) ≤ u32_max →
  (∀ p, core (update p) = core p) →
  (∀ p, ep_key p = (relation_keys rel).1 → ep_parent p = None → ep_parent_relation p = None → ep_placement p = None →
    (relation_keys rel).2 ∈ keys_of base → (relation_keys rel).2 ≠ ep_key p →
    plan_holds (rels ++ [rel]) (keys_of base) (update p) ∧
    plan_relation (update p) = Some (N.of_nat (length rels)) ∧ has_parent (update p) = adds_patch_operation rel) →
  ∃ entities' issues', assign_checked entities (key_index base) (pre ++ issues) (count (length rels))
      (relation_keys rel).1 (relation_keys rel).2 update = Ok (entities', pre ++ issues') ∧
    assigned base (rels ++ [rel]) entities' issues'.
Proof.
  intros Has Hlen Hcore Hup. destruct (relation_keys rel) as [s a] eqn:Hk. cbn [fst snd] in *.
  pose proof (assigned_keys _ _ _ Has) as Hkeys. unfold assign_checked. rewrite count_small by done.
  assert (∀ code, code ∈ assign_codes → ∃ entities' issues',
    Ok (entities, (pre ++ issues) ++ [relation_issue code (N.of_nat (length rels)) s a])
    = @Ok CompileError _ (entities', pre ++ issues') ∧
    assigned base (rels ++ [rel]) entities' issues') as Hissue.
  { intros code Hcode. eexists _, _. split; [by rewrite <-app_assoc|].
    pose proof (assigned_issue _ _ _ _ rel code Has Hcode) as Hi. by rewrite Hk in Hi. }
  destruct (key_index base !! s) as [i|] eqn:Hs; [|apply Hissue; set_solver].
  destruct (key_index base !! a) as [j|] eqn:Ha; cbn [is_some negb]; [|apply Hissue; set_solver].
  case_bool_decide as Hsa; [apply Hissue; set_solver|].
  apply (key_index_lookup base s i Hnd) in Hs as (b & Hb & Hbs).
  assert (∃ p, entities !! i = Some p ∧ core p = b) as (p & Hp & <-).
  { rewrite <-(as_core _ _ _ _ Has), list_lookup_fmap in Hb. apply fmap_Some in Hb as (p & Hp & ->). eauto. }
  rewrite Hp. cbn [expect out_bind].
  destruct (ep_parent p) as [?|] eqn:Hpar; cbn [is_some orb]; [apply Hissue; set_solver|].
  destruct (ep_placement p) as [?|] eqn:Hpl; cbn [is_some]; [apply Hissue; set_solver|].
  assert (ep_parent_relation p = None) as Hpr.
  { pose proof (as_holds _ _ _ _ Has) as Hh. rewrite Forall_forall in Hh.
    destruct (Hh p) as [|k r Hk'|pl r ? ? Hpl']; [by eapply list_elem_of_lookup_2|done|..]; congruence. }
  destruct (Hup p Hbs Hpar Hpr Hpl) as (Hh & Hr & Hc).
  { apply key_index_elem; [done|]. by rewrite Ha. }
  { intros ->. by apply Hsa. }
  eexists _, issues. split; [done|]. by eapply assigned_update.
Qed.

Lemma assign_relation_ok rels entities pre issues rel :
  assigned base rels entities issues → N.of_nat (length rels) ≤ u32_max →
  ∃ entities' issues', assign_relation entities (key_index base) (pre ++ issues) (count (length rels)) rel
      = Ok (entities', pre ++ issues') ∧ assigned base (rels ++ [rel]) entities' issues'.
Proof.
  intros Has Hlen. destruct rel as [c p|s a x|s a x]; cbn [assign_relation].
  - apply (assign_checked_ok rels entities pre issues (RelParent c p)); [done..|].
    intros e He ? ? ? Hin Hne. cbn in *. rewrite count_small by done. split_and!; [|unfold plan_relation; cbn; by rewrite H1|done].
    eapply holds_parent; cbn; try done. rewrite list_lookup_middle by done. by rewrite He.
  - apply (assign_checked_ok rels entities pre issues (RelAbove s a x)); [done..|].
    intros e He Hp ? ? Hin Hne. cbn in *. rewrite count_small by done.
    split_and!; [|done|unfold has_parent; cbn; by rewrite Hp].
    eapply holds_placement; cbn; try done. rewrite list_lookup_middle by done. by rewrite He.
  - apply (assign_checked_ok rels entities pre issues (RelRightOf s a x)); [done..|].
    intros e He Hp ? ? Hin Hne. cbn in *. rewrite count_small by done.
    split_and!; [|done|unfold has_parent; cbn; by rewrite Hp].
    eapply holds_placement; cbn; try done. rewrite list_lookup_middle by done. by rewrite He.
Qed.

(** [assign_relations] always returns, and leaves the assigned state. *)
Lemma assign_relations_ok done_ rels entities pre issues :
  assigned base done_ entities issues → N.of_nat (length (done_ ++ rels)) ≤ u32_max →
  ∃ entities' issues', assign_relations (key_index base) (length done_) rels entities (pre ++ issues)
      = Ok (entities', pre ++ issues') ∧ assigned base (done_ ++ rels) entities' issues'.
Proof.
  revert done_ entities issues. induction rels as [|r rels IH]; intros done_ entities issues Has Hlen.
  { exists entities, issues. by rewrite app_nil_r. }
  rewrite length_app in Hlen. cbn [length] in Hlen.
  destruct (assign_relation_ok done_ entities pre issues r Has) as (e1 & i1 & He & Has1); [lia|].
  cbn [assign_relations]. rewrite He. cbn [out_bind].
  destruct (IH (done_ ++ [r]) e1 i1 Has1) as (e2 & i2 & He2 & Has2).
  { rewrite !length_app. cbn [length]. lia. }
  rewrite length_app, Nat.add_comm in He2. exists e2, i2. split; [done|]. by rewrite <-app_assoc in Has2.
Qed.

End assign.

(** The initial state. *)
Lemma assigned_nil base : core <$> base = base → Forall (λ p, ep_parent p = None ∧ ep_parent_relation p = None ∧ ep_placement p = None) base →
  assigned base [] base [].
Proof.
  intros Hc Hn. split; try done; try set_solver.
  - eapply Forall_impl; [done|]. intros p (? & ? & ?). by apply holds_nothing.
  - assert (filter has_parent base = []) as ->; [|done]. clear Hc. induction Hn as [|p l (Hp & _) _ IH]; [done|].
    rewrite filter_cons, decide_False; [done|]. unfold has_parent. rewrite Hp. auto.
  - intros _ r Hr. cbn in Hr. lia.
Qed.
