(* ===== verification/CompilerCycles.v ===== *)
(** * Relation cycles

    [mark_relation_cycles] walks the successor of every entity.  It always
    returns, reports only relations whose target has a successor itself, and
    reports nothing exactly when every chain of successors ends. *)

From S2P Require Import Prelude Machine Ordering Floats Values Components Messages MessageSpec Imagination Codec Compilation Hash Compiler CompilerPlans.

Open Scope N_scope.

Section cycles.
Context (entities : list EntityPlan) (Hnd : NoDup (keys_of entities)).
Context (succ : EntityPlan → option (SceneText * N)).
Context (Hsucc : ∀ e k r, e ∈ entities → succ e = Some (k, r) → k ∈ keys_of entities).
Context (next : next_relation) (Hnext : ∀ e, e ∈ entities → next e = Ok (succ e)).
Context (code : UnresolvedConstraintCode).

Abbreviation keys := (key_index entities).

(** The position reached in one step. *)
Definition step (i : nat) : option nat := e ← entities !! i; '(k, _) ← succ e; keys !! k.

(** [ends n i]: the chain from [i] stops after [n] steps. *)
Inductive ends : nat → nat → Prop :=
| ends_stop i e : entities !! i = Some e → succ e = None → ends 0 i
| ends_step n i j : step i = Some j → ends n j → ends (S n) i.

(** Entities whose successor has a successor. *)
Definition continues (i : nat) : Prop := ∃ j, step i = Some j ∧ is_Some (step j).

Definition cycle_issue (e : EntityPlan) (related : SceneText) (r : N) : UnresolvedConstraint :=
  relation_issue code r (ep_key e) related.

(** An issue this pass may report. *)
Definition reportable (u : UnresolvedConstraint) : Prop :=
  ∃ i e k r, entities !! i = Some e ∧ succ e = Some (k, r) ∧ continues i ∧ u = cycle_issue e k r.

Lemma step_total i e : entities !! i = Some e → (step i = None ↔ succ e = None).
Proof.
  intros Hi. unfold step. rewrite Hi. cbn. destruct (succ e) as [[k r]|] eqn:Hs; cbn; [|done].
  split; [|done]. intros Hk. exfalso.
  assert (is_Some (keys !! k)) as [x Hx]; [|congruence]. apply key_index_elem; [done|].
  eapply Hsucc; [|done]. by eapply list_elem_of_lookup_2.
Qed.

Lemma step_inv i j : step i = Some j →
  ∃ e k r, entities !! i = Some e ∧ succ e = Some (k, r) ∧ keys !! k = Some j ∧ (j < length entities)%nat.
Proof.
  unfold step. intros Hs. destruct (entities !! i) as [e|]; [|done]. cbn in Hs.
  destruct (succ e) as [[k r]|] eqn:He; [|done]. cbn in Hs. exists e, k, r. split_and!; try done.
  apply key_index_lookup in Hs as (p & Hp & _); [|done]. by eapply lookup_lt_Some.
Qed.

(** The accumulator of the pass over [pre]. *)
Definition acc_ok (pre : list UnresolvedConstraint) (acc : gset N * list UnresolvedConstraint) : Prop :=
  ∃ new, acc.2 = pre ++ new ∧ Forall reportable new ∧
    (∀ r, r ∈ acc.1 → ∃ u, u ∈ new ∧ uc_relation_index u = Some r).

Lemma report_cycle_ok pre acc i :
  acc_ok pre acc → continues i →
  ∃ acc', report_cycle entities next code acc i = Ok acc' ∧ acc_ok pre acc' ∧ acc'.1 ≠ ∅ ∧ acc.1 ⊆ acc'.1.
Proof.
  intros (new & Hnew & Hrep & Hset) Hc. pose proof Hc as (j & Hj & _).
  apply step_inv in Hj as (e & k & r & He & Hs & _). destruct acc as [reported unresolved]. cbn [fst snd] in *.
  unfold report_cycle. rewrite He. cbn [expect out_bind].
  rewrite Hnext by by eapply list_elem_of_lookup_2. cbn [out_bind]. rewrite Hs.
  case_bool_decide as Hin.
  - eexists. split; [done|]. split; [by exists new|]. cbn. set_solver.
  - eexists. split; [done|]. split; [|cbn; set_solver]. exists (new ++ [cycle_issue e k r]). cbn. split_and!.
    + by rewrite Hnew, <-app_assoc.
    + apply Forall_app. split; [done|]. constructor; [|done]. by exists i, e, k, r.
    + intros x [->%elem_of_singleton|Hx]%elem_of_union; [exists (cycle_issue e k r); set_solver|].
      destruct (Hset x Hx) as (u & Hu & ?). exists u. set_solver.
Qed.

Lemma report_cycles_ok pre acc l :
  acc_ok pre acc → Forall continues l →
  ∃ acc', out_fold (report_cycle entities next code) acc l = Ok acc' ∧ acc_ok pre acc' ∧
    (l ≠ [] → acc'.1 ≠ ∅) ∧ acc.1 ⊆ acc'.1.
Proof.
  intros Hacc Hl. revert acc Hacc. induction Hl as [|i l Hi _ IH]; intros acc Hacc.
  { exists acc. split; [done|]. split; [done|]. split; [done|set_solver]. }
  destruct (report_cycle_ok pre acc i Hacc Hi) as (a1 & H1 & Ha1 & Hn1 & Hs1).
  destruct (IH a1 Ha1) as (a2 & H2 & Ha2 & _ & Hs2). exists a2. cbn [out_fold]. rewrite H1. cbn [out_bind].
  split; [done|]. split; [done|]. split; set_solver.
Qed.

(** The path of one walk, whose last element steps to [current]. *)
Record walking (path : list nat) (positions : gmap nat nat) (current : nat) : Prop := {
  wk_positions i k : positions !! i = Some k ↔ path !! k = Some i;
  wk_current : (current < length entities)%nat;
  wk_bound i : i ∈ path → (i < length entities)%nat;
  wk_step k i : path !! k = Some i →
    ∃ j, step i = Some j ∧ (path !! S k = Some j ∨ S k = length path ∧ j = current);
}.

Lemma walking_length path positions current :
  walking path positions current → NoDup path ∧ (length path ≤ length entities)%nat.
Proof.
  intros Hw. assert (NoDup path) as Hp.
  { apply NoDup_alt. intros i j x Hi Hj. apply (wk_positions _ _ _ Hw) in Hi, Hj. congruence. }
  split; [done|]. rewrite <-(length_seq (length entities) 0). apply submseteq_length, NoDup_submseteq; [done|].
  intros x Hx%(wk_bound _ _ _ Hw). apply elem_of_seq. lia.
Qed.

(** Extending the path by a new position. *)
Lemma walking_extend path positions current j :
  walking path positions current → positions !! current = None → step current = Some j →
  walking (path ++ [current]) (<[current := length path]> positions) j.
Proof.
  intros Hw Hnew Hj. split.
  - intros i k. destruct (decide (current = i)) as [<-|Hne].
    + rewrite lookup_insert_eq. split; [intros [= <-]; by apply list_lookup_middle|].
      intros Hk. f_equal. apply lookup_app_Some in Hk as [Hk|[Hk Hx]].
      * apply (wk_positions _ _ _ Hw) in Hk. congruence.
      * destruct (k - length path)%nat eqn:E; cbn in Hx; [lia|done].
    + rewrite lookup_insert_ne, (wk_positions _ _ _ Hw) by done. split; intros Hk.
      * by apply lookup_app_l_Some.
      * apply lookup_app_Some in Hk as [Hk|[Hk Hx]]; [done|].
        destruct (k - length path)%nat eqn:E; cbn in Hx; [by simplify_eq|done].
  - apply step_inv in Hj as (e & k & r & _ & _ & _ & Hl). done.
  - intros i [Hi|Hi]%elem_of_app; [by apply (wk_bound _ _ _ Hw)|].
    apply list_elem_of_singleton in Hi as ->. apply (wk_current _ _ _ Hw).
  - intros k i [Hk|[Hk Hx]]%lookup_app_Some.
    + destruct (wk_step _ _ _ Hw k i Hk) as (y & Hy & [Hs|[Hs Heq]]); exists y; split; try done; left.
      * by apply lookup_app_l_Some.
      * rewrite Hs, Heq. by apply list_lookup_middle.
    + destruct (k - length path)%nat eqn:E; cbn in Hx; [|done]. injection Hx as <-. exists j. split; [done|].
      right. rewrite length_app. cbn. split; [lia|done].
Qed.

(** A repeated position closes a cycle of continuing entities. *)
Lemma walking_cycle path positions current k :
  walking path positions current → positions !! current = Some k →
  Forall continues (drop k path) ∧ drop k path ≠ [].
Proof.
  intros Hw Hk. pose proof (proj1 (wk_positions _ _ _ Hw current k) Hk) as Hkp.
  assert (is_Some (step current)) as Hcur.
  { destruct (wk_step _ _ _ Hw k current Hkp) as (j & -> & _). eauto. }
  split.
  - apply Forall_forall. intros i Hi. apply list_elem_of_lookup in Hi as [m Hm]. rewrite lookup_drop in Hm.
    destruct (wk_step _ _ _ Hw _ i Hm) as (j & Hj & [Hs|[_ Heq]]); exists j; split; try done; [|by rewrite Heq].
    destruct (wk_step _ _ _ Hw _ j Hs) as (j' & -> & _). eauto.
  - intros Hnil. apply lookup_lt_Some in Hkp. apply (f_equal length) in Hnil. rewrite length_drop in Hnil. cbn in Hnil. lia.
Qed.

(** One walk. *)
Lemma cycle_walk_ok fuel pre acc path positions current :
  walking path positions current → acc_ok pre acc → (length entities < fuel + length path)%nat →
  ∃ acc', cycle_walk fuel entities keys next code path positions current acc = Ok acc' ∧ acc_ok pre acc' ∧
    acc.1 ⊆ acc'.1 ∧
    (acc'.1 = ∅ → ∃ n, ends n current ∧ (n + length path < length entities)%nat).
Proof.
  revert path positions current. induction fuel as [|fuel IH]; intros path positions current Hw Hacc Hfuel.
  { pose proof (proj2 (walking_length _ _ _ Hw)). lia. }
  cbn [cycle_walk]. destruct (positions !! current) as [k|] eqn:Hk.
  { destruct (walking_cycle _ _ _ _ Hw Hk) as [Hc Hne].
    destruct (report_cycles_ok pre acc (drop k path) Hacc Hc) as (a & Ha & Hok & Hn & Hs).
    exists a. split_and!; try done. intros Hempty. by specialize (Hn Hne). }
  destruct (lookup_lt_is_Some_2 entities current (wk_current _ _ _ Hw)) as [e He]. rewrite He. cbn [expect out_bind].
  rewrite Hnext by by eapply list_elem_of_lookup_2. cbn [out_bind].
  assert (length path < length entities)%nat as Hlt.
  { destruct (walking_length _ _ _ Hw) as [Hp _].
    assert (NoDup (current :: path)) as Hp'.
    { constructor; [|done]. intros [k Hin]%list_elem_of_lookup. apply (wk_positions _ _ _ Hw) in Hin. congruence. }
    rewrite <-(length_seq (length entities) 0). apply (submseteq_length (current :: path)), NoDup_submseteq; [done|].
    intros x [->|Hx]%elem_of_cons; apply elem_of_seq;
      [pose proof (wk_current _ _ _ Hw)|apply (wk_bound _ _ _ Hw) in Hx]; lia. }
  destruct (succ e) as [[related r]|] eqn:Hs.
  - assert (∃ j, step current = Some j) as [j Hj].
    { destruct (step current) as [j|] eqn:Hst; [eauto|]. apply (step_total _ _ He) in Hst. congruence. }
    pose proof Hj as Hj'. unfold step in Hj'. rewrite He in Hj'. cbn in Hj'. rewrite Hs in Hj'. cbn in Hj'.
    rewrite Hj'. cbn [expect out_bind].
    destruct (IH (path ++ [current]) (<[current := length path]> positions) j) as (a & Ha & Hok & Hsub & Hend).
    { by apply walking_extend. }
    { done. }
    { rewrite length_app. cbn. lia. }
    exists a. split_and!; try done. intros Hempty. destruct (Hend Hempty) as (n & Hn & Hbound).
    exists (S n). split; [by eapply ends_step|]. rewrite length_app in Hbound. cbn in Hbound. lia.
  - exists acc. split; [done|]. split; [done|]. split; [done|]. intros _. exists 0%nat.
    split; [by eapply ends_stop|]. lia.
Qed.

Lemma walking_start i : (i < length entities)%nat → walking [] ∅ i.
Proof.
  intros Hi. split; [|done|intros x Hx; by apply not_elem_of_nil in Hx|intros k x; by rewrite lookup_nil].
  intros x k. by rewrite lookup_empty, lookup_nil.
Qed.

(** The whole pass. *)
Lemma mark_relation_cycles_ok pre :
  ∃ new, mark_relation_cycles entities keys next code pre = Ok (pre ++ new) ∧ Forall reportable new ∧
    (new = [] → ∀ i, (i < length entities)%nat → ∃ n, ends n i ∧ (n < length entities)%nat).
Proof.
  unfold mark_relation_cycles.
  assert (∀ l acc, (∀ i, i ∈ l → (i < length entities)%nat) → acc_ok pre acc →
    ∃ acc', out_fold (λ acc start, cycle_walk (S (S (length entities))) entities keys next code [] ∅ start acc) acc l = Ok acc' ∧
      acc_ok pre acc' ∧ acc.1 ⊆ acc'.1 ∧
      (acc'.1 = ∅ → ∀ i, i ∈ l → ∃ n, ends n i ∧ (n < length entities)%nat)) as Hloop.
  { induction l as [|i l IH]; intros acc Hl Hacc.
    { exists acc. split; [done|]. split; [done|]. split; [done|set_solver]. }
    destruct (cycle_walk_ok (S (S (length entities))) pre acc [] ∅ i) as (a1 & H1 & Hok1 & Hs1 & He1).
    { apply walking_start, Hl. set_solver. }
    { done. }
    { cbn. lia. }
    destruct (IH a1) as (a2 & H2 & Hok2 & Hs2 & He2); [set_solver|done|].
    exists a2. cbn [out_fold]. rewrite H1. cbn [out_bind]. split; [done|]. split; [done|]. split; [set_solver|].
    intros Hempty x [->|Hx]%elem_of_cons; [|by apply He2]. destruct He1 as (n & Hn & Hb); [set_solver|].
    exists n. split; [done|]. cbn in Hb. lia. }
  destruct (Hloop (seq 0 (length entities)) (∅, pre)) as (acc & -> & (new & Hnew & Hrep & Hset) & _ & Hend).
  { intros i Hi%elem_of_seq. lia. }
  { exists []. cbn. split; [by rewrite app_nil_r|]. split; [constructor|set_solver]. }
  cbn [out_bind]. exists new. rewrite Hnew. split; [done|]. split; [done|]. intros -> i Hi. apply Hend.
  - apply set_eq. intros r. split; [|set_solver]. intros Hr. destruct (Hset r Hr) as (u & Hu & _). set_solver.
  - apply elem_of_seq. lia.
Qed.

End cycles.

(** * Placements

    [resolve_placements] implements a recursive specification of placement:
    a plan without placement stands where it is, a placed plan stands relative
    to its placed anchor.  On chains that end, the pass returns, computes the
    specification for every plan, and reports exactly its failures. *)

Definition succ_anchor (e : EntityPlan) : option (SceneText * N) :=
  (λ p, (pl_anchor p, pl_relation_index p)) <$> ep_placement e.

Definition failure_issue (f : PlacementResolutionFailure) : UnresolvedConstraint :=
  mkUnresolved (prf_code f) (Some (prf_relation_index f)) None (Some (prf_subject f)) (Some (prf_anchor f)) None.

Definition unrotated_pair (subject anchor : EntityPlan) : bool :=
  is_unrotated (ep_transform subject) && is_unrotated (ep_transform anchor).

Section placement.
Context (entities : list EntityPlan).

Abbreviation keys := (key_index entities).
Abbreviation step := (step entities succ_anchor).
Abbreviation ends := (ends entities succ_anchor).

(** ** Specification *)

Inductive placed : nat → EntityPlan + PlacementResolutionFailure → Prop :=
| placed_free i e : entities !! i = Some e → ep_placement e = None → placed i (inl e)
| placed_failed i e pl j f :
    entities !! i = Some e → ep_placement e = Some pl → keys !! pl_anchor pl = Some j →
    placed j (inr f) → placed i (inr f)
| placed_rotated i e pl j a :
    entities !! i = Some e → ep_placement e = Some pl → keys !! pl_anchor pl = Some j →
    placed j (inl a) → unrotated_pair e a = false →
    placed i (inr (placement_failure UnsupportedSpatialRotation e pl))
| placed_nonfinite i e pl j a :
    entities !! i = Some e → ep_placement e = Some pl → keys !! pl_anchor pl = Some j →
    placed j (inl a) → unrotated_pair e a = true → placed_translation e a (pl_kind pl) = None →
    placed i (inr (placement_failure NonFinitePlacement e pl))
| placed_at i e pl j a v :
    entities !! i = Some e → ep_placement e = Some pl → keys !! pl_anchor pl = Some j →
    placed j (inl a) → unrotated_pair e a = true → placed_translation e a (pl_kind pl) = Some v →
    placed i (inl (with_translation e v)).

Lemma placed_det i r1 r2 : placed i r1 → placed i r2 → r1 = r2.
Proof.
  intros H1. revert r2. induction H1 as [i e He Hp|i e pl j f He Hp Hj _ IH|i e pl j a He Hp Hj _ IH Hr|
    i e pl j a He Hp Hj _ IH Hr Hv|i e pl j a v He Hp Hj _ IH Hr Hv]; intros r2 H2; destruct H2; simplify_eq; try done;
    match goal with Hpl : placed j ?r |- _ => specialize (IH _ Hpl) end; simplify_eq; try congruence; done.
Qed.

(** A failure belongs to one placed plan, whichever plan reports it. *)
Lemma placed_failure i f : placed i (inr f) →
  ∃ q e pl code, entities !! q = Some e ∧ ep_placement e = Some pl ∧ f = placement_failure code e pl ∧
    code ∈ [UnsupportedSpatialRotation; NonFinitePlacement] ∧ placed q (inr f).
Proof.
  intros H. remember (inr f) as r eqn:Hr. revert f Hr. induction H; intros ? [= <-]; eauto.
  - exists i, e, pl, UnsupportedSpatialRotation. split_and!; try done; [set_solver|]. by eapply placed_rotated.
  - exists i, e, pl, NonFinitePlacement. split_and!; try done; [set_solver|]. by eapply placed_nonfinite.
Qed.

(** Placing moves a plan and nothing else. *)
Lemma placed_moves i p : placed i (inl p) →
  ∃ e, entities !! i = Some e ∧ (p = e ∨ ∃ v, p = with_translation e v).
Proof. inversion 1; subst; eauto. Qed.

(** ** The pass *)

Context (Hnd : NoDup (keys_of entities)).
Context (Hsucc : ∀ e k r, e ∈ entities → succ_anchor e = Some (k, r) → k ∈ keys_of entities).

Record resolving (st : placement_state) : Prop := {
  rv_length : length st.1 = length entities;
  rv_flags : length st.2 = length entities;
  rv_done i : st.2 !! i = Some true → ∃ p, st.1 !! i = Some p ∧ placed i (inl p);
  rv_todo i : st.2 !! i = Some false → st.1 !! i = entities !! i;
}.

Lemma resolving_set st i p :
  resolving st → (i < length entities)%nat → placed i (inl p) →
  resolving (<[i := p]> st.1, <[i := true]> st.2).
Proof.
  intros [Hl Hf Hd Ht] Hi Hp. split; cbn [fst snd]; rewrite ?length_insert; try done.
  - intros k Hk. destruct (decide (i = k)) as [<-|Hne].
    + exists p. rewrite list_lookup_insert_eq by lia. done.
    + rewrite list_lookup_insert_ne in Hk by done. destruct (Hd k Hk) as (q & Hq & ?). exists q.
      by rewrite list_lookup_insert_ne.
  - intros k Hk. destruct (decide (i = k)) as [<-|Hne].
    + rewrite list_lookup_insert_eq in Hk by lia. done.
    + rewrite list_lookup_insert_ne in Hk by done. rewrite list_lookup_insert_ne by done. by apply Ht.
Qed.

Lemma ends_det n m i : ends n i → ends m i → n = m.
Proof.
  intros H1. revert m. induction H1 as [i e He Hs|n i j Hj _ IH]; intros m H2; destruct H2 as [i e' He' Hs'|m i j' Hj' Hm'].
  - done.
  - apply (step_total entities Hnd succ_anchor Hsucc _ _ He) in Hs. congruence.
  - apply (step_total entities Hnd succ_anchor Hsucc _ _ He') in Hs'. congruence.
  - f_equal. apply IH. by simplify_eq.
Qed.

Lemma ends_plan n i : ends n i → ∃ e, entities !! i = Some e ∧
  match n with
  | O => ep_placement e = None
  | S m => ∃ pl j, ep_placement e = Some pl ∧ keys !! pl_anchor pl = Some j ∧ ends m j
  end.
Proof.
  intros [i' e He Hs|m i' j Hj Hm].
  - exists e. split; [done|]. unfold succ_anchor in Hs. by apply fmap_None in Hs.
  - pose proof Hj as (e & k & r & He & Hs & Hk & _)%step_inv; [|done]. exists e. split; [done|].
    unfold succ_anchor in Hs. apply fmap_Some in Hs as (pl & Hpl & [= -> ->]). by exists pl, j.
Qed.

(** The step of a placed plan after its anchor is resolved. *)
Lemma place_subject st1 i e pl j a :
  resolving st1 → entities !! i = Some e → ep_placement e = Some pl → keys !! pl_anchor pl = Some j →
  st1.2 !! i = Some false → st1.1 !! j = Some a → placed j (inl a) →
  ∃ st' f,
    (let! subject := expect (st1.1 !! i) in
     let! anchor := expect (st1.1 !! j) in
     if negb (is_unrotated (ep_transform subject)) || negb (is_unrotated (ep_transform anchor))
     then Ok (st1, Some (placement_failure UnsupportedSpatialRotation subject pl))
     else
       match placed_translation subject anchor (pl_kind pl) with
       | None => Ok (st1, Some (placement_failure NonFinitePlacement subject pl))
       | Some v => Ok ((<[i := with_translation subject v]> st1.1, <[i := true]> st1.2), None)
       end) = @Ok CompileError _ (st', f) ∧ resolving st' ∧
    (∀ k, k ≠ i → st'.2 !! k = st1.2 !! k) ∧
    match f with None => st'.2 !! i = Some true | Some f => placed i (inr f) end.
Proof.
  intros Hst He Hpl Hkj Hb Ha Hpa. pose proof (lookup_lt_Some _ _ _ He) as Hi.
  rewrite (rv_todo _ Hst _ Hb), He, Ha. cbn [expect out_bind]. rewrite <-negb_andb. fold (unrotated_pair e a).
  destruct (unrotated_pair e a) eqn:Hrot; cbn [negb].
  2:{ eexists st1, (Some _). split; [done|]. split; [done|]. split; [done|]. by eapply placed_rotated. }
  destruct (placed_translation e a (pl_kind pl)) as [v|] eqn:Hv.
  - eexists _, None. split; [done|]. split; [|split; cbn].
    + apply resolving_set; [done..|]. by eapply placed_at.
    + intros k Hk. by rewrite list_lookup_insert_ne.
    + apply list_lookup_insert_eq. by rewrite (rv_flags _ Hst).
  - eexists st1, (Some _). split; [done|]. split; [done|]. split; [done|]. by eapply placed_nonfinite.
Qed.

(** Flags are only ever raised. *)
Lemma resolve_keeps fuel st i st' f :
  resolve_placement fuel keys st i = Ok (st', f) → ∀ k, st.2 !! k = Some true → st'.2 !! k = Some true.
Proof.
  assert (∀ (l : list bool) i k, l !! k = Some true → <[i := true]> l !! k = Some true) as Hins.
  { intros l x k Hk. destruct (decide (x = k)) as [<-|Hne]; [|by rewrite list_lookup_insert_ne].
    apply list_lookup_insert_eq. by eapply lookup_lt_Some. }
  revert st i st' f. induction fuel as [|fuel IH]; intros st i st' f; cbn [resolve_placement]; [done|].
  intros (b & _ & Hr)%out_bind_ok k Hk. destruct b; [apply Ok_inj in Hr; by injection Hr as <- <-|].
  apply out_bind_ok in Hr as (p & _ & Hr). destruct (ep_placement p) as [pl|].
  2:{ apply Ok_inj in Hr. injection Hr as <- <-. by apply Hins. }
  apply out_bind_ok in Hr as (j & _ & Hr). apply out_bind_ok in Hr as ([st1 f1] & Hr1 & Hr).
  specialize (IH _ _ _ _ Hr1 k Hk). destruct f1; [apply Ok_inj in Hr; by injection Hr as <- <-|].
  apply out_bind_ok in Hr as (s & _ & Hr). apply out_bind_ok in Hr as (a & _ & Hr).
  destruct (_ || _); [apply Ok_inj in Hr; by injection Hr as <- <-|].
  destruct (placed_translation s a _); apply Ok_inj in Hr; injection Hr as <- <-; [by apply Hins|done].
Qed.

Lemma resolve_placement_ok fuel n st i :
  ends n i → (n < fuel)%nat → resolving st →
  ∃ st' f, resolve_placement fuel keys st i = Ok (st', f) ∧ resolving st' ∧
    (∀ k, st'.2 !! k = st.2 !! k ∨ (∃ m, (m ≤ n)%nat ∧ ends m k)) ∧
    match f with None => st'.2 !! i = Some true | Some f => placed i (inr f) end.
Proof.
  revert n i st. induction fuel as [|fuel IH]; intros n i st Hends Hn Hst; [lia|].
  destruct (ends_plan n i Hends) as (e & He & Hnext).
  pose proof (lookup_lt_Some _ _ _ He) as Hi. cbn [resolve_placement].
  destruct (lookup_lt_is_Some_2 st.2 i) as [b Hb]; [by rewrite (rv_flags _ Hst)|]. rewrite Hb. cbn [expect out_bind].
  destruct b; [exists st, None; split_and!; try done; by left|].
  rewrite (rv_todo _ Hst _ Hb), He. cbn [expect out_bind]. destruct n as [|n].
  - rewrite Hnext. assert (placed i (inl e)) as Hp by by apply placed_free.
    pose proof (resolving_set st i e Hst Hi Hp) as Hst'.
    rewrite list_insert_id in Hst' by by rewrite (rv_todo _ Hst _ Hb).
    eexists _, None. split; [done|]. split; [done|]. cbn. split.
    + intros k. destruct (decide (i = k)) as [<-|Hne]; [right; eauto|]. left. by rewrite list_lookup_insert_ne.
    + apply list_lookup_insert_eq. by rewrite (rv_flags _ Hst).
  - destruct Hnext as (pl & j & Hpl & Hkj & Hm). rewrite Hpl, Hkj. cbn [expect out_bind].
    destruct (IH n j st Hm ltac:(lia) Hst) as (st1 & f1 & Hr & Hst1 & Hframe & Hf1). rewrite Hr. cbn [out_bind].
    assert (∀ k, st1.2 !! k = st.2 !! k ∨ (∃ m, (m ≤ S n)%nat ∧ ends m k)) as Hframe'.
    { intros k. destruct (Hframe k) as [Hk|(m & ? & ?)]; [by left|right]. exists m. split; [lia|done]. }
    destruct f1 as [f|].
    { exists st1, (Some f). split; [done|]. split; [done|]. split; [done|]. by eapply placed_failed. }
    destruct (rv_done _ Hst1 _ Hf1) as (a & Ha & Hpa).
    assert (st1.2 !! i = Some false) as Hb1.
    { destruct (Hframe i) as [->|(m & ? & Hm')]; [done|]. pose proof (ends_det _ _ _ Hends Hm'). lia. }
    destruct (place_subject st1 i e pl j a Hst1 He Hpl Hkj Hb1 Ha Hpa) as (st' & f & Hres & Hst' & Hkeep & Hf).
    exists st', f. split; [exact Hres|]. split; [done|]. split; [|done].
    intros k. destruct (decide (k = i)) as [->|Hne]; [right; eauto|]. rewrite (Hkeep k Hne). apply Hframe'.
Qed.

(** ** The whole pass *)

Lemma resolve_placements_ok pre :
  (∀ i, (i < length entities)%nat → ∃ n, ends n i ∧ (n < length entities)%nat) →
  ∃ entities' new, resolve_placements entities keys pre = Ok (entities', pre ++ new) ∧
    length entities' = length entities ∧
    Forall (λ u, ∃ i f, placed i (inr f) ∧ u = failure_issue f) new ∧
    (new = [] → ∀ i p, entities' !! i = Some p → placed i (inl p)).
Proof.
  intros Hends. unfold resolve_placements.
  assert (∀ l st pre, (∀ i, i ∈ l → (i < length entities)%nat) → resolving st →
    ∃ st' new, out_fold (λ acc index,
        let '(st, unresolved) := acc in
        let! (st, failure) := resolve_placement (S (length entities)) keys st index in
        Ok (st, match failure with
                | None => unresolved
                | Some f => unresolved ++ [failure_issue f]
                end)) (st, pre) l = Ok (st', pre ++ new) ∧ resolving st' ∧
      (∀ k, st.2 !! k = Some true → st'.2 !! k = Some true) ∧
      Forall (λ u, ∃ i f, placed i (inr f) ∧ u = failure_issue f) new ∧
      (new = [] → ∀ i, i ∈ l → st'.2 !! i = Some true)) as Hloop.
  { induction l as [|i l IH]; intros st pre' Hl Hst.
    { exists st, []. rewrite app_nil_r. split_and!; try done. intros _ i Hi. by apply not_elem_of_nil in Hi. }
    destruct (Hends i) as (n & Hn & Hlt); [by apply Hl, elem_of_cons; left|].
    destruct (resolve_placement_ok (S (length entities)) n st i Hn ltac:(lia) Hst) as (st1 & f & Hr & Hst1 & Hframe & Hf).
    assert (∀ k, st.2 !! k = Some true → st1.2 !! k = Some true) as Hmono by exact (resolve_keeps _ _ _ _ _ Hr).
    destruct (IH st1 (match f with None => pre' | Some f => pre' ++ [failure_issue f] end)) as
      (st2 & new & Hrun & Hst2 & Hmono2 & Hnew & Hall);
      [intros k Hk; by apply Hl, elem_of_cons; right|exact Hst1|].
    exists st2, (match f with None => new | Some f => failure_issue f :: new end).
    cbn [out_fold]. rewrite Hr. cbn [out_bind]. rewrite Hrun.
    split; [destruct f as [f|]; [rewrite <-app_assoc|]; reflexivity|]. split; [exact Hst2|].
    split; [intros k Hk; by apply Hmono2, Hmono|]. destruct f as [f|]; [split; [constructor; eauto|done]|].
    split; [done|]. intros -> k [->|Hk]%elem_of_cons; [by apply Hmono2|by apply Hall]. }
  destruct (Hloop (seq 0 (length entities)) (entities, replicate (length entities) false) pre)
    as (st & new & Hrun & Hst & _ & Hnew & Hall).
  { intros i Hi%elem_of_seq. lia. }
  { split; cbn; rewrite ?length_replicate; try done. intros i [Hi _]%lookup_replicate. done. }
  unfold failure_issue in Hrun. rewrite Hrun. cbn [out_bind]. exists st.1, new. split; [done|].
  split; [apply Hst|]. split; [done|]. intros Hnil i p Hp.
  destruct (rv_done _ Hst i) as (q & Hq & Hpq); [|congruence]. apply Hall; [done|]. apply elem_of_seq.
  apply lookup_lt_Some in Hp. rewrite (rv_length _ Hst) in Hp. lia.
Qed.

End placement.
