(* ===== verification/CompilerPasses.v ===== *)
(** * The passes between assignment and output

    After [assign_relations], three passes look for relations that cannot be
    carried out.  Each reports at most one issue per relation, and when none is
    reported both the parent and the anchor chains end. *)

From S2P Require Import Prelude Machine Ordering Floats Values Components Messages MessageSpec Imagination Codec Compilation Hash Compiler CompilerPlans CompilerCycles.

Open Scope N_scope.

Definition succ_parent (e : EntityPlan) : option (SceneText * N) :=
  match ep_parent e, ep_parent_relation e with Some k, Some r => Some (k, r) | _, _ => None end.

(** The issues of the passes, each about the relation one plan holds. *)
Inductive late (entities : list EntityPlan) (e : EntityPlan) : UnresolvedConstraint → Prop :=
| late_hierarchy k r :
    ep_parent e = Some k → ep_parent_relation e = Some r →
    late entities e (relation_issue UrHierarchyCycle r (ep_key e) k)
| late_conflict pl a :
    ep_placement e = Some pl → a ∈ entities → ep_key a = pl_anchor pl → is_Some (ep_parent a) →
    late entities e (relation_issue ConflictingRelation (pl_relation_index pl) (ep_key e) (pl_anchor pl))
| late_cycle pl a :
    ep_placement e = Some pl → a ∈ entities → ep_key a = pl_anchor pl → is_Some (ep_placement a) →
    late entities e (relation_issue UrPlacementCycle (pl_relation_index pl) (ep_key e) (pl_anchor pl)).

Section passes.
Context (base entities : list EntityPlan) (rels : list ImaginationRelation).
Context (Hnd : NoDup (keys_of entities)) (Hbase : keys_of entities = keys_of base).
Context (Hholds : Forall (plan_holds rels (keys_of base)) entities).

Abbreviation keys := (key_index entities).

Lemma holds_of e : e ∈ entities → plan_holds rels (keys_of base) e.
Proof. intros He. rewrite Forall_forall in Hholds. by apply Hholds. Qed.

Lemma anchor_known e pl : e ∈ entities → ep_placement e = Some pl →
  ∃ i a, keys !! pl_anchor pl = Some i ∧ entities !! i = Some a ∧ ep_key a = pl_anchor pl ∧ a ∈ entities.
Proof.
  intros He Hpl. destruct (holds_of e He) as [| |pl' r ? ? Hpl' ? ? Hin _]; [congruence..|]. simplify_eq.
  rewrite <-Hbase in Hin. apply key_index_elem in Hin as [i Hi]; [|done].
  pose proof Hi as (a & Ha & Hk)%key_index_lookup; [|done]. exists i, a. split_and!; try done. by eapply list_elem_of_lookup_2.
Qed.

Lemma succ_anchor_known e k r : e ∈ entities → succ_anchor e = Some (k, r) → k ∈ keys_of entities.
Proof.
  intros He Hs. unfold succ_anchor in Hs. apply fmap_Some in Hs as (pl & Hpl & [= -> ->]).
  destruct (anchor_known e pl He Hpl) as (i & a & Hi & _). apply key_index_elem; [done|]. eauto.
Qed.

Lemma succ_parent_known e k r : e ∈ entities → succ_parent e = Some (k, r) → k ∈ keys_of entities.
Proof.
  intros He Hs. unfold succ_parent in Hs. rewrite Hbase.
  destruct (holds_of e He) as [Hp Hr _|k' r' Hp Hr _ _ Hin _|pl r' Hp Hr _ _ _ _ _]; rewrite Hp, ?Hr in Hs; by simplify_eq.
Qed.

Lemma next_parent_ok e : e ∈ entities → next_parent e = Ok (succ_parent e).
Proof.
  intros He. unfold next_parent, succ_parent.
  destruct (holds_of e He) as [Hp Hr _|k' r' Hp Hr _ _ _ _|pl r' Hp Hr _ _ _ _ _]; by rewrite Hp, ?Hr.
Qed.

(** Two plans do not hold the same relation. *)
Lemma plan_relation_inj e1 e2 r : e1 ∈ entities → e2 ∈ entities →
  plan_relation e1 = Some r → plan_relation e2 = Some r → e1 = e2.
Proof.
  intros H1 H2 R1 R2.
  assert (∀ e, e ∈ entities → plan_relation e = Some r → ∃ n rel, r = N.of_nat n ∧ rels !! n = Some rel ∧
    (relation_keys rel).1 = ep_key e) as Hsubj.
  { intros e He Hr. unfold plan_relation in Hr.
    destruct (holds_of e He) as [_ Hpr Hpl|k n _ Hpr Hpl Hn _ _|pl n _ Hpr Hpl Hi Hn _ _]; rewrite Hpl, ?Hpr in Hr; [done|..].
    - injection Hr as <-. by eexists _, _.
    - injection Hr as <-. eexists _, _. split; [done|]. split; [done|]. unfold placement_relation. by destruct (pl_kind pl). }
  destruct (Hsubj e1 H1 R1) as (n1 & rel1 & -> & Hn1 & Hk1), (Hsubj e2 H2 R2) as (n2 & rel2 & Heq & Hn2 & Hk2).
  assert (n1 = n2) as -> by lia. rewrite Hn1 in Hn2. injection Hn2 as ->.
  apply list_elem_of_lookup in H1 as [i Hi], H2 as [j Hj].
  assert (i = j) as ->; [|congruence].
  eapply (NoDup_lookup (keys_of entities)); [done|unfold keys_of; rewrite list_lookup_fmap, Hi; done|].
  unfold keys_of. rewrite list_lookup_fmap, Hj. cbn. by rewrite <-Hk1, <-Hk2.
Qed.

Lemma late_relation e u : e ∈ entities → late entities e u → uc_relation_index u = plan_relation e.
Proof.
  intros He Hl. unfold plan_relation. destruct Hl as [k r Hp Hr|pl a Hpl|pl a Hpl]; cbn; [|by rewrite Hpl..].
  destruct (holds_of e He) as [| |]; simplify_eq; try congruence.
  match goal with Hq : ep_placement e = None |- _ => by rewrite Hq, Hr end.
Qed.

(** A plan gives rise to one issue only. *)
Lemma late_function e u v : e ∈ entities → late entities e u → late entities e v → u = v.
Proof.
  intros He Hu Hv.
  assert (∀ a b, a ∈ entities → b ∈ entities → ep_key a = ep_key b → is_Some (ep_parent a) → is_Some (ep_placement b) → False) as Hexcl.
  { intros a b Ha Hb Hk Hpa Hpb. assert (a = b) as <-.
    { apply list_elem_of_lookup in Ha as [i Hi], Hb as [j Hj]. assert (i = j) as ->; [|congruence].
      eapply (NoDup_lookup (keys_of entities)); [done|unfold keys_of; rewrite list_lookup_fmap, Hi; done|].
      unfold keys_of. rewrite list_lookup_fmap, Hj. cbn. by rewrite Hk. }
    destruct (holds_of a Ha) as [Hp _ _|? ? _ _ Hp _ _ _|? ? Hp _ _ _ _ _ _]; rewrite Hp in *;
      [by destruct Hpa|by destruct Hpb|by destruct Hpa]. }
  destruct Hu as [k r Hp Hr|pl a Hpl Ha Hk Hpa|pl a Hpl Ha Hk Hpa],
    Hv as [k' r' Hp' Hr'|pl' a' Hpl' Ha' Hk' Hpa'|pl' a' Hpl' Ha' Hk' Hpa']; simplify_eq; try done.
  1-3,5: exfalso; destruct (holds_of e He); congruence.
  - exfalso. eapply (Hexcl a a'); try done. congruence.
  - exfalso. eapply (Hexcl a' a); try done. congruence.
Qed.

(** ** The passes *)

Lemma reject_ok pre :
  ∃ new, reject_parented_placement_anchors entities keys pre = Ok (pre ++ new) ∧
    Forall (λ u, ∃ e, e ∈ entities ∧ late entities e u) new ∧
    (new = [] → ∀ e pl a, e ∈ entities → ep_placement e = Some pl → a ∈ entities → ep_key a = pl_anchor pl →
      ep_parent a = None).
Proof.
  unfold reject_parented_placement_anchors.
  assert (∀ l pre, (∀ e, e ∈ l → e ∈ entities) → ∃ new, out_fold (λ unresolved e,
      match ep_placement e with
      | None => Ok unresolved
      | Some placement =>
          let! anchor_index := expect (keys !! pl_anchor placement) in
          let! anchor := expect (entities !! anchor_index) in
          Ok (if is_some (ep_parent anchor)
              then unresolved ++ [relation_issue ConflictingRelation (pl_relation_index placement)
                                    (ep_key e) (pl_anchor placement)]
              else unresolved)
      end) pre l = @Ok CompileError _ (pre ++ new) ∧
    Forall (λ u, ∃ e, e ∈ entities ∧ late entities e u) new ∧
    (new = [] → ∀ e pl a, e ∈ l → ep_placement e = Some pl → a ∈ entities → ep_key a = pl_anchor pl →
      ep_parent a = None)) as Hloop.
  { induction l as [|e l IH]; intros pre' Hl; [exists []; rewrite app_nil_r; split_and!; [done|done|set_solver]|].
    assert (e ∈ entities) as He by by apply Hl, elem_of_cons; left.
    assert (∀ x, x ∈ l → x ∈ entities) as Hl' by by intros x Hx; apply Hl, elem_of_cons; right.
    cbn [out_fold]. destruct (ep_placement e) as [pl|] eqn:Hpl.
    2:{ cbn [out_bind]. destruct (IH pre' Hl') as (new & -> & Hnew & Hnone). exists new. split_and!; [done|done|].
        intros Hnil x pl a [->|Hx]%elem_of_cons; [congruence|by apply Hnone]. }
    destruct (anchor_known e pl He Hpl) as (i & a & Hi & Ha & Hk & Hin). rewrite Hi. cbn [expect out_bind].
    rewrite Ha. cbn [expect out_bind].
    assert (∀ b, b ∈ entities → ep_key b = pl_anchor pl → b = a) as Huniq.
    { intros b [j Hj]%list_elem_of_lookup Hkb. assert (keys !! pl_anchor pl = Some j) as Hj'.
      { apply key_index_lookup; [done|]. eauto. } congruence. }
    destruct (ep_parent a) as [q|] eqn:Hq; cbn [is_some].
    - destruct (IH (pre' ++ [relation_issue ConflictingRelation (pl_relation_index pl) (ep_key e) (pl_anchor pl)]) Hl')
        as (new & -> & Hnew & _). eexists (_ :: new). rewrite <-app_assoc. split; [done|]. split; [|done].
      constructor; [|done]. exists e. split; [done|]. by eapply late_conflict; try done; rewrite Hq.
    - destruct (IH pre' Hl') as (new & -> & Hnew & Hnone). exists new. split_and!; [done|done|].
      intros Hnil x pl' b [->|Hx]%elem_of_cons Hplx Hb Hkb; [|by eapply Hnone].
      simplify_eq. by rewrite (Huniq b Hb Hkb). }
  apply Hloop. done.
Qed.

Lemma reportable_parent u : reportable entities succ_parent UrHierarchyCycle u → ∃ e, e ∈ entities ∧ late entities e u.
Proof.
  intros (i & e & k & r & Hi & Hs & _ & ->). exists e. split; [by eapply list_elem_of_lookup_2|].
  unfold succ_parent in Hs. destruct (ep_parent e) eqn:Hp, (ep_parent_relation e) eqn:Hr; simplify_eq.
  by apply late_hierarchy.
Qed.

Lemma reportable_anchor u : reportable entities succ_anchor UrPlacementCycle u → ∃ e, e ∈ entities ∧ late entities e u.
Proof.
  intros (i & e & k & r & Hi & Hs & (j & Hj & Hcont) & ->). exists e. split; [by eapply list_elem_of_lookup_2|].
  apply step_inv in Hj as (e' & k' & r' & He' & Hs' & Hk & _); [|done]. simplify_eq.
  unfold succ_anchor in Hs. apply fmap_Some in Hs as (pl & Hpl & [= -> ->]).
  apply key_index_lookup in Hk as (a & Ha & Hka); [|done].
  eapply late_cycle; try done; [by eapply list_elem_of_lookup_2|].
  destruct Hcont as [j' Hj']. apply step_inv in Hj' as (a' & k'' & r'' & Ha' & Hs'' & _); [|done].
  simplify_eq. unfold succ_anchor in Hs''. apply fmap_Some in Hs'' as (pl' & -> & _). eauto.
Qed.

Lemma mark_cycles_ok pre :
  ∃ new, mark_cycles entities keys pre = Ok (pre ++ new) ∧
    Forall (λ u, ∃ e, e ∈ entities ∧ late entities e u) new ∧
    (new = [] → ∀ i, (i < length entities)%nat →
      (∃ n, ends entities succ_parent n i ∧ (n < length entities)%nat) ∧
      (∃ n, ends entities succ_anchor n i ∧ (n < length entities)%nat)).
Proof.
  unfold mark_cycles.
  destruct (mark_relation_cycles_ok entities Hnd succ_parent succ_parent_known next_parent next_parent_ok
    UrHierarchyCycle pre) as (n1 & -> & Hn1 & He1). cbn [out_bind].
  destruct (mark_relation_cycles_ok entities Hnd succ_anchor succ_anchor_known next_anchor (λ _ _, eq_refl)
    UrPlacementCycle (pre ++ n1)) as (n2 & -> & Hn2 & He2).
  exists (n1 ++ n2). split; [by rewrite app_assoc|]. split.
  - apply Forall_app. split; [eapply Forall_impl; [exact Hn1|apply reportable_parent]|].
    eapply Forall_impl; [exact Hn2|apply reportable_anchor].
  - intros Hnil. apply app_nil in Hnil as [-> ->]. intros i Hi. split; [by apply He1|by apply He2].
Qed.

End passes.

(** * The two ways a compilation ends

    [compile_cases] follows [compile] from a planned imagination to its two
    outputs: a non-empty list of issues, at most one per relation and per
    precondition, or plans in which every relation is held and every placement
    is carried out. *)

Definition relation_codes : list UnresolvedConstraintCode :=
  [UnknownEntityReference; SelfRelation; ConflictingRelation; UrHierarchyCycle; UrPlacementCycle;
   NonFinitePlacement; UnsupportedSpatialRotation].

Definition sorted_entities (im : ImaginationEnvelope) : list ImaginedEntity :=
  sort_by (λ a b, text_cmp (ie_key a) (ie_key b)) (im_entities im).

(** An issue about one precondition. *)
Definition constraint_issue (constraints : list ImaginationConstraint) (scene : CompilationSceneView) (i : nat)
    (u : UnresolvedConstraint) : Prop :=
  match constraints !! i with
  | Some (EntityExists id) => (id ∉ sv_entity_ids scene) ∧
      u = mkUnresolved RequiredEntityMissing None (Some (N.of_nat i)) None None (Some id)
  | Some (EntityAbsent id) => id ∈ sv_entity_ids scene ∧
      u = mkUnresolved RequiredEntityPresent None (Some (N.of_nat i)) None None (Some id)
  | None => False
  end.

(** What holds of the issues of one compilation. *)
Record issues_ok (im : ImaginationEnvelope) (scene : CompilationSceneView) (l : list UnresolvedConstraint) : Prop := {
  io_about u : u ∈ l →
    (∃ r, issue_about (im_relations im) relation_codes r u) ∨ (∃ i, constraint_issue (im_constraints im) scene i u);
  io_function u v : u ∈ l → v ∈ l → uc_relation_index u = uc_relation_index v →
    uc_constraint_index u = uc_constraint_index v → u = v;
}.

(** Plans in which everything asked for is carried out. *)
Record resolved (base : list EntityPlan) (rels : list ImaginationRelation) (held plans : list EntityPlan) : Prop := {
  rs_holds : assigned base rels held [];
  rs_length : length plans = length held;
  rs_placed i p : plans !! i = Some p → placed held i (inl p);
  rs_anchors e pl a : e ∈ held → ep_placement e = Some pl → a ∈ held → ep_key a = pl_anchor pl → ep_parent a = None;
  rs_parents i : (i < length held)%nat → ∃ n, ends held succ_parent n i ∧ (n < length held)%nat;
}.

(** ** Preconditions *)

Lemma check_scene_constraints_ok scene done_ constraints :
  N.of_nat (length (done_ ++ constraints)) ≤ u32_max →
  ∀ u, u ∈ check_scene_constraints scene (length done_) constraints →
    ∃ i, constraint_issue (done_ ++ constraints) scene i u.
Proof.
  revert done_. induction constraints as [|c cs IH]; intros done_ Hlen u; cbn [check_scene_constraints].
  { intros Hu. by apply not_elem_of_nil in Hu. }
  assert ((done_ ++ c :: cs) !! length done_ = Some c) as Hc by by apply list_lookup_middle.
  rewrite count_small by (rewrite length_app in Hlen; lia).
  intros [Hu|Hu]%elem_of_app.
  - exists (length done_). unfold constraint_issue. rewrite Hc. unfold sv_contains in Hu.
    destruct c as [id|id]; case_bool_decide; cbn [negb] in Hu; apply list_elem_of_singleton in Hu || apply not_elem_of_nil in Hu; done.
  - rewrite (cons_middle c), app_assoc in *. apply (IH (done_ ++ [c])); [done|].
    rewrite length_app, Nat.add_comm. exact Hu.
Qed.

Lemma constraint_issue_index constraints scene i u : constraint_issue constraints scene i u →
  uc_relation_index u = None ∧ uc_constraint_index u = Some (N.of_nat i).
Proof. unfold constraint_issue. destruct (constraints !! i) as [[]|]; [by intros [_ ->]..|done]. Qed.

Lemma constraint_issue_function constraints scene i u v :
  constraint_issue constraints scene i u → constraint_issue constraints scene i v → u = v.
Proof. unfold constraint_issue. destruct (constraints !! i) as [[]|]; [intros [_ ->] [_ ->]; done..|done]. Qed.

(** ** Issues of assignment and of the passes *)

Section issues.
Context (base entities : list EntityPlan) (rels : list ImaginationRelation) (issues : list UnresolvedConstraint).
Context (Hnd : NoDup (keys_of base)) (Has : assigned base rels entities issues).

Lemma as_keys : keys_of entities = keys_of base.
Proof. by eapply assigned_keys. Qed.

Lemma as_nodup : NoDup (keys_of entities).
Proof. rewrite as_keys. done. Qed.

Lemma issue_about_weaken codes codes' r u : (∀ c, c ∈ codes → c ∈ codes') → issue_about rels codes r u → issue_about rels codes' r u.
Proof. intros Hsub (rel & c & Hr & Hc & ->). exists rel, c. auto. Qed.

Lemma held_relation e : e ∈ entities → plan_relation e = None ∨
  ∃ r rel k, plan_relation e = Some (N.of_nat r) ∧ rels !! r = Some rel ∧ relation_keys rel = (ep_key e, k) ∧
    (ep_parent e = Some k ∨ ∃ pl, ep_placement e = Some pl ∧ pl_anchor pl = k).
Proof.
  intros He. unfold plan_relation. destruct (holds_of base entities rels (as_holds _ _ _ _ Has) e He)
    as [? Hr Hp|k r Hk Hr Hp Hrel _ _|pl r ? Hr Hp Hi Hrel _ _]; rewrite Hp, ?Hr, ?Hi.
  - by left.
  - right. exists r, (RelParent (ep_key e) k), k. split_and!; try done. by left.
  - right. eexists r, _, (pl_anchor pl). split_and!; try done; [unfold placement_relation; by destruct (pl_kind pl)|].
    right. eauto.
Qed.

Lemma late_about e u : e ∈ entities → late entities e u → ∃ r, issue_about rels relation_codes r u.
Proof.
  intros He Hl. pose proof (late_relation base entities rels (as_holds _ _ _ _ Has) e u He Hl) as Hidx.
  destruct (held_relation e He) as [Hn|(r & rel & k & Hr & Hrel & Hk & Hheld)].
  { rewrite Hn in Hidx. by destruct Hl. }
  rewrite Hr in Hidx. exists r, rel, (uc_code u). split; [done|]. rewrite Hk. cbn [fst snd].
  pose proof (holds_of base entities rels (as_holds _ _ _ _ Has) e He) as Hh.
  destruct Hl as [k' r' Hp Hr'|pl a Hpl _ _ _|pl a Hpl _ _ _]; cbn in *; injection Hidx as ->; (split; [set_solver|]); f_equal.
  all: destruct Hh; destruct Hheld as [?|(? & ? & ?)]; simplify_eq; congruence.
Qed.

Lemma passes_issues_function new u v :
  Forall (λ u, ∃ e, e ∈ entities ∧ late entities e u) new →
  u ∈ issues ++ new → v ∈ issues ++ new → uc_relation_index u = uc_relation_index v → u = v.
Proof.
  intros Hnew Hu Hv Heq. rewrite Forall_forall in Hnew.
  pose proof (as_holds _ _ _ _ Has) as Hholds.
  assert (∀ x y, x ∈ issues → y ∈ new → uc_relation_index x ≠ uc_relation_index y) as Hcross.
  { intros x y Hx Hy. destruct (Hnew y Hy) as (e & He & Hl).
    rewrite (late_relation base entities rels Hholds e y He Hl). by apply (as_disjoint _ _ _ _ Has). }
  apply elem_of_app in Hu as [Hu|Hu], Hv as [Hv|Hv].
  - by apply (as_function _ _ _ _ Has).
  - by apply Hcross in Heq.
  - symmetry in Heq. by apply Hcross in Heq.
  - destruct (Hnew u Hu) as (e1 & He1 & Hl1), (Hnew v Hv) as (e2 & He2 & Hl2).
    rewrite (late_relation base entities rels Hholds e1 u He1 Hl1), (late_relation base entities rels Hholds e2 v He2 Hl2) in Heq.
    destruct (plan_relation e1) as [r|] eqn:Hr1.
    + assert (e1 = e2) as <-.
      { eapply (plan_relation_inj base entities rels as_nodup Hholds); try done. }
      by eapply (late_function base entities rels as_nodup Hholds e1).
    + rewrite <-(late_relation base entities rels Hholds e1 u He1 Hl1) in Hr1. by destruct Hl1.
Qed.

(** Failures of placement. *)
Lemma failure_about i f : placed entities i (inr f) → ∃ r, issue_about rels relation_codes r (failure_issue f).
Proof.
  intros (q & e & pl & code & Hq & Hpl & -> & Hcode & _)%placed_failure.
  pose proof (list_elem_of_lookup_2 _ _ _ Hq) as He.
  destruct (holds_of base entities rels (as_holds _ _ _ _ Has) e He) as [| |pl' r _ _ Hpl' Hr Hrel _ _]; [congruence..|].
  assert (pl' = pl) as -> by congruence. exists r, (placement_relation (ep_key e) pl), code. split; [done|]. split; [set_solver|].
  unfold failure_issue. cbn. rewrite Hr. unfold relation_issue, placement_relation. by destruct (pl_kind pl).
Qed.

Lemma failure_function i j f g : placed entities i (inr f) → placed entities j (inr g) →
  prf_relation_index f = prf_relation_index g → f = g.
Proof.
  intros (q1 & e1 & pl1 & c1 & Hq1 & Hpl1 & Hf & _ & Hp1)%placed_failure (q2 & e2 & pl2 & c2 & Hq2 & Hpl2 & Hg & _ & Hp2)%placed_failure Heq.
  assert (e1 = e2) as <-.
  { apply (plan_relation_inj base entities rels as_nodup (as_holds _ _ _ _ Has) e1 e2 (prf_relation_index f)).
    - by eapply list_elem_of_lookup_2.
    - by eapply list_elem_of_lookup_2.
    - unfold plan_relation. by rewrite Hpl1, Hf.
    - unfold plan_relation. by rewrite Hpl2, Heq, Hg. }
  assert (q1 = q2) as <-.
  { eapply (NoDup_lookup (keys_of entities)); [apply as_nodup|..]; unfold keys_of; rewrite list_lookup_fmap;
      [by rewrite Hq1|by rewrite Hq2]. }
  pose proof (placed_det entities _ _ _ Hp1 Hp2). congruence.
Qed.

End issues.

(** ** From plans to the two outputs *)

Section cases.
Context `{Digest} `{ResultJson}.

(** The body of [compile] after planning. *)
Definition compile_planned (config : CompilerConfig) (im : ImaginationEnvelope) (scene : CompilationSceneView)
    (base : list EntityPlan) (decisions : list CompilationDecision) : outcome CompileError CompilationResult :=
  let! (entities, unresolved) := assign_relations (key_index base) 0 (im_relations im) base
    (check_scene_constraints scene 0 (im_constraints im)) in
  let! unresolved := reject_parented_placement_anchors entities (key_index base) unresolved in
  let! unresolved := mark_cycles entities (key_index base) unresolved in
  let! (entities, unresolved) :=
    match unresolved with
    | [] => resolve_placements entities (key_index base) unresolved
    | _ => Ok (entities, unresolved)
    end in
  match unresolved with
  | _ :: _ =>
      let result := mkResult COMPILATION_SCHEMA_VERSION (im_imagination_id im) (sv_revision scene) None
        (sort_by decision_cmp decisions) (dedup (sort_by unresolved_cmp unresolved)) in
      do! validate_completed_result result (cc_compilation_limits config) then
      Ok result
  | [] =>
      let decisions := sort_by decision_cmp (decisions ++ relation_decisions entities) in
      let! patch := build_patch im entities in
      do! map_err InvalidNormalizedPatch (patch_validate patch (cc_runtime_limits config)) then
      let result := mkResult COMPILATION_SCHEMA_VERSION (im_imagination_id im) (sv_revision scene) (Some patch)
        decisions [] in
      do! validate_completed_result result (cc_compilation_limits config) then
      Ok result
  end.

Lemma compile_unfold config im scene :
  compile config im scene =
  (do! map_err InvalidImagination (imagination_validate im (cc_runtime_limits config)) then
   do! guard_err (negb (im_base_revision im =? sv_revision scene))
     (SceneRevisionMismatch (im_base_revision im) (sv_revision scene)) then
   let! (base, decisions) := plan_entities config im scene in
   compile_planned config im scene base decisions).
Proof. reflexivity. Qed.

Definition report_unresolved (im : ImaginationEnvelope) (scene : CompilationSceneView)
    (decisions : list CompilationDecision) (issues : list UnresolvedConstraint) : CompilationResult :=
  mkResult COMPILATION_SCHEMA_VERSION (im_imagination_id im) (sv_revision scene) None
    (sort_by decision_cmp decisions) (dedup (sort_by unresolved_cmp issues)).

Definition report_compiled (im : ImaginationEnvelope) (scene : CompilationSceneView)
    (decisions : list CompilationDecision) (plans : list EntityPlan) (patch : ScenePatch) : CompilationResult :=
  mkResult COMPILATION_SCHEMA_VERSION (im_imagination_id im) (sv_revision scene) (Some patch)
    (sort_by decision_cmp (decisions ++ relation_decisions plans)) [].

Context (config : CompilerConfig) (im : ImaginationEnvelope) (scene : CompilationSceneView).
Context (base : list EntityPlan) (decisions : list CompilationDecision).
Context (Hnd : NoDup (keys_of base)) (Hfresh : assigned base [] base []).
Context (Hrels : N.of_nat (length (im_relations im)) ≤ u32_max).
Context (Hcons : N.of_nat (length (im_constraints im)) ≤ u32_max).

Abbreviation preconditions := (check_scene_constraints scene 0 (im_constraints im)).

(** The passes before placement. *)
Lemma compile_passes :
  ∃ entities issues l1 l2,
    assign_relations (key_index base) 0 (im_relations im) base preconditions = Ok (entities, preconditions ++ issues) ∧
    reject_parented_placement_anchors entities (key_index base) (preconditions ++ issues)
      = Ok ((preconditions ++ issues) ++ l1) ∧
    mark_cycles entities (key_index base) ((preconditions ++ issues) ++ l1) = Ok (((preconditions ++ issues) ++ l1) ++ l2) ∧
    assigned base (im_relations im) entities issues ∧
    Forall (λ u, ∃ e, e ∈ entities ∧ late entities e u) (l1 ++ l2) ∧
    (l1 = [] → ∀ e pl a, e ∈ entities → ep_placement e = Some pl → a ∈ entities → ep_key a = pl_anchor pl →
      ep_parent a = None) ∧
    (l2 = [] → ∀ i, (i < length entities)%nat →
      (∃ n, ends entities succ_parent n i ∧ (n < length entities)%nat) ∧
      (∃ n, ends entities succ_anchor n i ∧ (n < length entities)%nat)).
Proof.
  destruct (assign_relations_ok base Hnd [] (im_relations im) base preconditions [] Hfresh Hrels)
    as (entities & issues & Hassign & Has).
  rewrite app_nil_r in Hassign. cbn [app] in Has.
  pose proof (as_keys base entities _ issues Hnd Has) as Hk.
  pose proof (as_nodup base entities _ issues Hnd Has) as Hnd'.
  rewrite <-(key_index_keys _ _ Hk) in Hassign |- *.
  destruct (reject_ok base entities _ Hnd' Hk (as_holds _ _ _ _ Has) (preconditions ++ issues)) as (l1 & H1 & Hl1 & Ha1).
  destruct (mark_cycles_ok base entities _ Hnd' Hk (as_holds _ _ _ _ Has) ((preconditions ++ issues) ++ l1))
    as (l2 & H2 & Hl2 & He2).
  exists entities, issues, l1, l2. split_and!; try done. by apply Forall_app.
Qed.

Lemma issues_all_ok entities issues new :
  assigned base (im_relations im) entities issues →
  Forall (λ u, ∃ e, e ∈ entities ∧ late entities e u) new → issues_ok im scene (preconditions ++ issues ++ new).
Proof.
  intros Has Hnew.
  assert (∀ u, u ∈ issues ++ new → ∃ r, issue_about (im_relations im) relation_codes r u) as Habout.
  { intros u [Hu|Hu]%elem_of_app.
    - destruct (as_issue _ _ _ _ Has u Hu) as [r Hr]. exists r.
      eapply issue_about_weaken; [|exact Hr]. unfold assign_codes, relation_codes. set_solver.
    - rewrite Forall_forall in Hnew. destruct (Hnew u Hu) as (e & He & Hl).
      by eapply (late_about base entities (im_relations im) issues Hnd Has e). }
  assert (∀ u, u ∈ preconditions → ∃ i, constraint_issue (im_constraints im) scene i u) as Hpre.
  { intros u Hu. by apply (check_scene_constraints_ok scene [] (im_constraints im) Hcons). }
  split.
  - intros u [Hu|Hu]%elem_of_app; [right; by apply Hpre|left; by apply Habout].
  - intros u v [Hu|Hu]%elem_of_app [Hv|Hv]%elem_of_app Hr Hc.
    + destruct (Hpre u Hu) as [i Hi], (Hpre v Hv) as [j Hj].
      rewrite (proj2 (constraint_issue_index _ _ _ _ Hi)), (proj2 (constraint_issue_index _ _ _ _ Hj)) in Hc.
      assert (i = j) as <- by (injection Hc as Hc; lia). by eapply constraint_issue_function.
    + destruct (Hpre u Hu) as [i Hi], (Habout v Hv) as [r Hr'].
      rewrite (proj1 (constraint_issue_index _ _ _ _ Hi)), (issue_about_index _ _ _ _ Hr') in Hr. done.
    + destruct (Hpre v Hv) as [i Hi], (Habout u Hu) as [r Hr'].
      rewrite (proj1 (constraint_issue_index _ _ _ _ Hi)), (issue_about_index _ _ _ _ Hr') in Hr. done.
    + by eapply (passes_issues_function base entities (im_relations im) issues Hnd Has new).
Qed.

Lemma failures_ok entities issues new :
  assigned base (im_relations im) entities issues →
  Forall (λ u, ∃ i f, placed entities i (inr f) ∧ u = failure_issue f) new → issues_ok im scene new.
Proof.
  intros Has Hnew. rewrite Forall_forall in Hnew. split.
  - intros u Hu. left. destruct (Hnew u Hu) as (i & f & Hf & ->). by eapply failure_about.
  - intros u v Hu Hv Hr _. destruct (Hnew u Hu) as (i & f & Hf & ->), (Hnew v Hv) as (j & g & Hg & ->).
    cbn in Hr. f_equal. eapply (failure_function base entities (im_relations im) issues Hnd Has); try done. congruence.
Qed.

(** The two outputs. *)
Lemma compile_cases :
  (∃ issues, issues ≠ [] ∧ issues_ok im scene issues ∧
    compile_planned config im scene base decisions =
      (do! validate_completed_result (report_unresolved im scene decisions issues) (cc_compilation_limits config) then
       Ok (report_unresolved im scene decisions issues))) ∨
  (preconditions = [] ∧ ∃ held plans, resolved base (im_relations im) held plans ∧
    compile_planned config im scene base decisions =
      (let! patch := build_patch im plans in
       do! map_err InvalidNormalizedPatch (patch_validate patch (cc_runtime_limits config)) then
       do! validate_completed_result (report_compiled im scene decisions plans patch) (cc_compilation_limits config) then
       Ok (report_compiled im scene decisions plans patch))).
Proof.
  destruct compile_passes as (entities & issues & l1 & l2 & Hassign & Hreject & Hmark & Has & Hlate & Hanchors & Hends).
  unfold compile_planned. rewrite Hassign. cbn [out_bind]. rewrite Hreject. cbn [out_bind]. rewrite Hmark. cbn [out_bind].
  rewrite <-!app_assoc. destruct (preconditions ++ issues ++ l1 ++ l2) as [|u U] eqn:Hall.
  - apply app_nil in Hall as [Hpre Hall]. apply app_nil in Hall as [-> Hall]. apply app_nil in Hall as [-> ->].
    pose proof (as_keys base entities _ _ Hnd Has) as Hk. pose proof (as_nodup base entities _ _ Hnd Has) as Hnd'.
    rewrite <-(key_index_keys _ _ Hk).
    destruct (resolve_placements_ok entities Hnd' (succ_anchor_known base entities _ Hnd' Hk (as_holds _ _ _ _ Has)) [])
      as (plans & new & Hres & Hlen & Hnew & Hplaced).
    { intros i Hi. by destruct (Hends eq_refl i Hi) as [_ ?]. }
    rewrite Hres. cbn [out_bind app]. destruct new as [|v new].
    + right. split; [done|]. exists entities, plans. split; [|done]. split; try done.
      * by apply Hplaced.
      * by apply Hanchors.
      * intros i Hi. by destruct (Hends eq_refl i Hi) as [? _].
    + left. exists (v :: new). split; [done|]. split; [by eapply failures_ok|done].
  - left. exists (u :: U). split; [done|]. split; [|done]. rewrite <-Hall. by apply (issues_all_ok entities).
Qed.

End cases.
