(* ===== verification/CompilerPatch.v ===== *)
(** * The normalised patch

    The patch built from resolved plans: what it creates and reparents, and
    that it passes protocol validation within the budget the imagination
    declared. *)

From S2P Require Import Prelude Machine Ordering Floats Values Components Messages MessageSpec Imagination ImaginationSpec Codec Compilation Hash Compiler CompilerPlans CompilerCycles CompilerPasses.

Open Scope N_scope.

Lemma sumN_perm {A} (f : A → N) l1 l2 : l1 ≡ₚ l2 → sumN f l1 = sumN f l2.
Proof. induction 1; cbn; [done|unfold sumN in *; lia|lia|congruence]. Qed.

Lemma sumN_fmap {A B} (f : B → N) (g : A → B) l : sumN f (g <$> l) = sumN (λ x, f (g x)) l.
Proof. induction l as [|x l IH]; [done|]. rewrite fmap_cons. unfold sumN in *. cbn [foldr]. by rewrite IH. Qed.

Lemma sumN_ext {A} (f g : A → N) l : (∀ x, x ∈ l → f x = g x) → sumN f l = sumN g l.
Proof.
  induction l as [|x l IH]; intros Hfg; [done|]. unfold sumN in *. cbn [foldr].
  rewrite (Hfg x), IH; [done| |]; set_solver.
Qed.

Lemma sumN_const {A} (c : N) (l : list A) : sumN (λ _, c) l = c * N.of_nat (length l).
Proof. induction l as [|x l IH]; unfold sumN in *; cbn [foldr length]; lia. Qed.

(** ** Planned entities *)

Lemma sorted_entities_perm im : sorted_entities im ≡ₚ im_entities im.
Proof. apply sort_by_perm. Qed.

Section plans.
Context (es : list ImaginedEntity) (ids : list N) (Hlen : length ids = length es).

Lemma plans_of_lookup i p : plans_of es ids !! i = Some p ↔
  ∃ e id, es !! i = Some e ∧ ids !! i = Some id ∧ p = (plan_entity e id).1.
Proof.
  unfold plans_of. rewrite lookup_zip_with_Some. split; intros (e & id & H); exists e, id; naive_solver.
Qed.

Lemma plans_of_keys : keys_of (plans_of es ids) = ie_key <$> es.
Proof.
  apply list_eq. intros i. unfold keys_of. rewrite !list_lookup_fmap.
  destruct (es !! i) as [e|] eqn:He.
  - destruct (lookup_lt_is_Some_2 ids i) as [id Hid]; [rewrite Hlen; by eapply lookup_lt_Some|].
    by rewrite (proj2 (plans_of_lookup i (plan_entity e id).1)) by eauto.
  - destruct (plans_of es ids !! i) as [p|] eqn:Hp; [|done].
    apply plans_of_lookup in Hp as (e & id & He' & _). congruence.
Qed.

Lemma plans_of_ids : ep_entity_id <$> plans_of es ids = ids.
Proof.
  apply list_eq. intros i. rewrite !list_lookup_fmap.
  destruct (ids !! i) as [id|] eqn:Hid.
  - destruct (lookup_lt_is_Some_2 es i) as [e He]; [rewrite <-Hlen; by eapply lookup_lt_Some|].
    by rewrite (proj2 (plans_of_lookup i (plan_entity e id).1)) by eauto.
  - destruct (plans_of es ids !! i) as [p|] eqn:Hp; [|done].
    apply plans_of_lookup in Hp as (e & id & _ & Hid' & _). congruence.
Qed.

Lemma plans_of_core : core <$> plans_of es ids = plans_of es ids.
Proof.
  apply list_eq. intros i. rewrite list_lookup_fmap. destruct (plans_of es ids !! i) as [p|] eqn:Hp; [|done].
  apply plans_of_lookup in Hp as (e & id & _ & _ & ->). done.
Qed.

Lemma plans_of_assigned : assigned (plans_of es ids) [] (plans_of es ids) [].
Proof.
  apply assigned_nil; [apply plans_of_core|]. apply Forall_forall. intros p [i Hi]%list_elem_of_lookup.
  apply plans_of_lookup in Hi as (e & id & _ & _ & ->). done.
Qed.

(** What stays of an imagined entity in its resolved plan. *)
Record realises (e : ImaginedEntity) (id : N) (h p : EntityPlan) : Prop := {
  re_key : ep_key p = ie_key e;
  re_id : ep_entity_id p = id;
  re_name : ep_name p = imagined_name e;
  re_primitive : ep_primitive p = ie_primitive e;
  re_material : ep_material p = default neutral_material (ie_material e);
  re_rotation : lt_rotation (ep_transform p) = lt_rotation (default identity_transform (ie_transform e));
  re_scale : lt_scale (ep_transform p) = lt_scale (default identity_transform (ie_transform e));
  re_parent : ep_parent p = ep_parent h;
  re_parent_relation : ep_parent_relation p = ep_parent_relation h;
  re_placement : ep_placement p = ep_placement h;
  re_held_key : ep_key h = ie_key e;
}.

Lemma resolved_realises rels held plans i p :
  resolved (plans_of es ids) rels held plans → plans !! i = Some p →
  ∃ e id h, es !! i = Some e ∧ ids !! i = Some id ∧ held !! i = Some h ∧ realises e id h p.
Proof.
  intros Hr Hp. apply (rs_placed _ _ _ _ Hr), placed_moves in Hp as (h & Hh & Hmove).
  assert (plans_of es ids !! i = Some (core h)) as Hb.
  { rewrite <-(as_core _ _ _ _ (rs_holds _ _ _ _ Hr)), list_lookup_fmap, Hh. done. }
  apply plans_of_lookup in Hb as (e & id & He & Hid & Hc). exists e, id, h.
  destruct h, e. unfold core, plan_entity in Hc. cbn in Hc. injection Hc as -> -> -> -> -> ->.
  split; [done|]. split; [done|]. split; [done|].
  destruct Hmove as [->|[v ->]]; split; done.
Qed.

Lemma resolved_length rels held plans : resolved (plans_of es ids) rels held plans → length plans = length es.
Proof.
  intros Hr. rewrite (rs_length _ _ _ _ Hr), <-(length_fmap core), (as_core _ _ _ _ (rs_holds _ _ _ _ Hr)).
  by rewrite <-(length_fmap ep_entity_id), plans_of_ids.
Qed.

(** A field of the plans, from the imagined entities. *)
Lemma resolved_fmap {A} rels held plans (f : EntityPlan → A) (g : ImaginedEntity → A) :
  resolved (plans_of es ids) rels held plans → (∀ e id h p, realises e id h p → f p = g e) → f <$> plans = g <$> es.
Proof.
  intros Hr Hfg. apply list_eq. intros i. rewrite !list_lookup_fmap.
  destruct (plans !! i) as [p|] eqn:Hp.
  - destruct (resolved_realises _ _ _ _ _ Hr Hp) as (e & id & h & -> & _ & _ & Hre). cbn. f_equal. by eapply Hfg.
  - apply lookup_ge_None in Hp. rewrite (resolved_length _ _ _ Hr) in Hp. by rewrite (lookup_ge_None_2 es i).
Qed.

Lemma resolved_keys rels held plans : resolved (plans_of es ids) rels held plans → keys_of plans = ie_key <$> es.
Proof. intros Hr. apply (resolved_fmap _ _ _ _ _ Hr). by intros e id h p []. Qed.

Lemma resolved_ids rels held plans : resolved (plans_of es ids) rels held plans → ep_entity_id <$> plans = ids.
Proof.
  intros Hr. apply list_eq. intros i. rewrite list_lookup_fmap. destruct (plans !! i) as [p|] eqn:Hp.
  - destruct (resolved_realises _ _ _ _ _ Hr Hp) as (e & id & h & _ & -> & _ & Hre). cbn. by rewrite (re_id _ _ _ _ Hre).
  - apply lookup_ge_None in Hp. rewrite (resolved_length _ _ _ Hr), <-Hlen in Hp. by rewrite (lookup_ge_None_2 ids i).
Qed.

Lemma resolved_parents rels held plans : resolved (plans_of es ids) rels held plans →
  ep_parent <$> plans = ep_parent <$> held.
Proof.
  intros Hr. apply list_eq. intros i. rewrite !list_lookup_fmap. destruct (plans !! i) as [p|] eqn:Hp.
  - destruct (resolved_realises _ _ _ _ _ Hr Hp) as (e & id & h & _ & _ & -> & Hre). cbn. by rewrite (re_parent _ _ _ _ Hre).
  - apply lookup_ge_None in Hp. rewrite (rs_length _ _ _ _ Hr) in Hp. by rewrite (lookup_ge_None_2 held i).
Qed.

End plans.

(** ** Reparent operations *)

(** The identity of the plan with a key. *)
Definition plan_id (plans : list EntityPlan) (k : SceneText) : N :=
  default 0 (ep_entity_id <$> find (λ c, bool_decide (ep_key c = k)) plans).

Definition reparents (plans rest : list EntityPlan) : list SceneOperation :=
  omap (λ e, (λ k, OpReparent (mkReparent (ep_entity_id e) (Some (plan_id plans k)))) <$> ep_parent e) rest.

Lemma find_key plans k : k ∈ keys_of plans →
  ∃ c, find (λ c, bool_decide (ep_key c = k)) plans = Some c ∧ c ∈ plans ∧ ep_key c = k.
Proof.
  intros (c & -> & Hc)%list_elem_of_fmap.
  destruct (find (λ c', bool_decide (ep_key c' = ep_key c)) plans) as [c'|] eqn:Hf.
  - exists c'. split; [done|]. apply find_some in Hf as [Hin Hk]. apply bool_decide_eq_true in Hk.
    split; [by apply list_elem_of_In|done].
  - eapply find_none in Hf; [|by apply list_elem_of_In]. by rewrite bool_decide_true in Hf.
Qed.

Lemma reparent_operations_ok plans rest :
  (∀ e k, e ∈ rest → ep_parent e = Some k → k ∈ keys_of plans) →
  reparent_operations plans rest = Ok (reparents plans rest).
Proof.
  induction rest as [|e rest IH]; intros Hk; [done|]. cbn [reparent_operations].
  assert (∀ x k, x ∈ rest → ep_parent x = Some k → k ∈ keys_of plans) as Hk'.
  { intros x k Hx. apply Hk. by apply elem_of_cons; right. }
  unfold reparents. cbn [omap list_omap]. destruct (ep_parent e) as [k|] eqn:Hp; cbn [fmap option_fmap option_map]; [|by apply IH].
  destruct (find_key plans k) as (c & Hf & _); [eapply Hk; [by apply elem_of_cons; left|done]|].
  unfold plan_id. rewrite Hf. cbn [fmap option_fmap option_map expect out_bind default].
  rewrite IH by done. done.
Qed.

(** ** The patch *)

Definition patch_of (im : ImaginationEnvelope) (plans : list EntityPlan) : ScenePatch := {|
  patch_schema_version := im_schema_version im;
  patch_transaction_id := im_transaction_id im;
  patch_idempotency_key := im_idempotency_key im;
  patch_base_revision := im_base_revision im;
  patch_conflict_policy := RequireExactBase;
  patch_delivery := im_delivery im;
  patch_declared_budget := ib_patch (im_declared_budget im);
  patch_operations := (create_operation <$> plans) ++ reparents plans plans;
|}.

Section patch.
Context (im : ImaginationEnvelope) (limits : RuntimeLimits) (ids : list N) (held plans : list EntityPlan).
Context (Him : imagination_admissible im limits) (Hroom : roomy limits).
Context (Hlen : length ids = length (sorted_entities im)) (Hids : NoDup ids).
Context (Hres : resolved (plans_of (sorted_entities im) ids) (im_relations im) held plans).

Lemma patch_keys : keys_of plans = ie_key <$> sorted_entities im.
Proof. by eapply resolved_keys. Qed.

Lemma patch_keys_nodup : NoDup (keys_of plans).
Proof. rewrite patch_keys, (sorted_entities_perm im). apply Him. Qed.

Lemma held_keys : keys_of held = keys_of plans.
Proof.
  rewrite patch_keys, <-(plans_of_keys (sorted_entities im) ids) by done.
  rewrite <-(as_core _ _ _ _ (rs_holds _ _ _ _ Hres)). by rewrite keys_of_core.
Qed.

(** A parent is another plan. *)
Lemma plan_parent_known p k : p ∈ plans → ep_parent p = Some k → k ∈ keys_of plans ∧ k ≠ ep_key p.
Proof.
  intros [i Hi]%list_elem_of_lookup Hk. destruct (resolved_realises _ _ _ _ _ _ _ Hres Hi) as (e & id & h & _ & _ & Hh & Hre).
  pose proof (as_holds _ _ _ _ (rs_holds _ _ _ _ Hres)) as Hholds. rewrite Forall_forall in Hholds.
  rewrite (re_parent _ _ _ _ Hre) in Hk. rewrite (re_key _ _ _ _ Hre), <-(re_held_key _ _ _ _ Hre).
  destruct (Hholds h) as [|k' r Hp ? ? ? Hin ?|]; [by eapply list_elem_of_lookup_2|congruence| |congruence].
  assert (k' = k) as -> by congruence. split; [|done].
  rewrite plans_of_keys in Hin by done. by rewrite patch_keys.
Qed.

Lemma build_patch_ok : build_patch im plans = Ok (patch_of im plans).
Proof.
  unfold build_patch. rewrite reparent_operations_ok; [done|]. intros e k He Hk. by eapply plan_parent_known.
Qed.

Lemma plan_id_spec k c : c ∈ plans → ep_key c = k → plan_id plans k = ep_entity_id c.
Proof.
  intros Hc Hk. destruct (find_key plans k) as (c' & Hf & Hc' & Hk').
  { apply list_elem_of_fmap. eauto. }
  unfold plan_id. rewrite Hf. cbn. f_equal.
  apply list_elem_of_lookup in Hc as [i Hi], Hc' as [j Hj]. assert (i = j) as ->; [|congruence].
  eapply (NoDup_lookup (keys_of plans)); [apply patch_keys_nodup|..]; unfold keys_of; rewrite list_lookup_fmap;
    [rewrite Hi; by cbn; rewrite Hk|rewrite Hj; by cbn; rewrite Hk'].
Qed.

Lemma plan_id_ne p k : p ∈ plans → ep_parent p = Some k → plan_id plans k ≠ ep_entity_id p.
Proof.
  intros Hp Hk. destruct (plan_parent_known p k Hp Hk) as [(c & -> & Hc)%list_elem_of_fmap Hne].
  rewrite (plan_id_spec _ c) by done. intros Heq. apply Hne.
  apply list_elem_of_lookup in Hp as [i Hi], Hc as [j Hj]. assert (i = j) as ->; [|congruence].
  eapply (NoDup_lookup ids); [done|..]; rewrite <-(resolved_ids _ _ Hlen _ _ _ Hres), list_lookup_fmap;
    [by rewrite Hi|rewrite Hj; cbn; by rewrite Heq].
Qed.

Lemma length_plans : length plans = length (im_entities im).
Proof. rewrite (resolved_length _ _ Hlen _ _ _ Hres). by rewrite (sorted_entities_perm im). Qed.

Lemma length_reparents : (length (reparents plans plans) ≤ parent_count im)%nat.
Proof.
  assert (∀ l, length (reparents plans l) = length (omap id (ep_parent <$> l))) as Hl.
  { induction l as [|x l IH]; [done|]. unfold reparents in *. rewrite fmap_cons. cbn [omap list_omap].
    destruct (ep_parent x); cbn; [by rewrite IH|done]. }
  assert (∀ l, length (omap id (ep_parent <$> l)) = length (filter has_parent l)) as Hf.
  { induction l as [|x l IH]; [done|]. rewrite fmap_cons, filter_cons. cbn [omap list_omap].
    destruct (ep_parent x) as [k|] eqn:E; cbn [id].
    - rewrite decide_True by (unfold has_parent; by rewrite E). exact (f_equal S IH).
    - rewrite decide_False by (unfold has_parent; rewrite E; by intros [? [=]] || auto). exact IH. }
  rewrite Hl, (resolved_parents _ _ _ _ _ Hres), Hf. apply (as_parents _ _ _ _ (rs_holds _ _ _ _ Hres)).
Qed.

Lemma patch_totals :
  patch_components (patch_of im plans) = 4 * N.of_nat (length (im_entities im)) ∧
  patch_text (patch_of im plans) = output_text im ∧
  patch_size (patch_of im plans) = 71 + delivery_size (im_delivery im)
    + sumN (λ e, 106 + text_size (imagined_name e)) (im_entities im) + 34 * N.of_nat (length (reparents plans plans)).
Proof.
  assert (∀ f : SceneOperation → N, ∀ c, (∀ e k, f (OpReparent (mkReparent e (Some k))) = c) →
    sumN f (reparents plans plans) = c * N.of_nat (length (reparents plans plans))) as Hrep.
  { intros f c Hc. rewrite <-sumN_const. apply sumN_ext. intros op Hop. unfold reparents in Hop.
    apply list_elem_of_omap in Hop as (x & _ & Hx). apply fmap_Some in Hx as (k & _ & ->). apply Hc. }
  assert (∀ (f : SceneOperation → N) (g : ImaginedEntity → N),
    (∀ e id h p, realises e id h p → f (create_operation p) = g e) →
    sumN f (create_operation <$> plans) = sumN g (im_entities im)) as Hcre.
  { intros f g Hfg. rewrite <-(sumN_perm g _ _ (sorted_entities_perm im)), sumN_fmap.
    rewrite <-(sumN_fmap (λ x : N, x) (λ p, f (create_operation p))), <-(sumN_fmap (λ x : N, x) g).
    f_equal. eapply (resolved_fmap _ _ Hlen); [exact Hres|]. done. }
  unfold patch_components, patch_text, patch_size. cbn [patch_operations patch_of patch_delivery].
  rewrite !sumN_app. split_and!.
  - rewrite (Hrep _ 0), (Hcre _ (λ _, 4)) by done. rewrite sumN_const. lia.
  - rewrite (Hrep _ 0), (Hcre _ (λ e, text_size (imagined_name e))); [|intros e id h p Hre|done].
    + unfold output_text, delivery_text. lia.
    + cbn. rewrite (re_name _ _ _ _ Hre). unfold component_text, text_size. cbn. lia.
  - rewrite (Hrep _ 34), (Hcre _ (λ e, 106 + text_size (imagined_name e))); [|intros e id h p Hre|done].
    + lia.
    + cbn. rewrite (re_name _ _ _ _ Hre). unfold component_size, text_size. lia.
Qed.

Lemma patch_operations_admissible : Forall (operation_admissible limits) (patch_operations (patch_of im plans)).
Proof.
  apply Forall_forall. intros op [Hop|Hop]%elem_of_app.
  - apply list_elem_of_fmap in Hop as (p & -> & [i Hi]%list_elem_of_lookup).
    destruct (resolved_realises _ _ _ _ _ _ _ Hres Hi) as (e & id & h & He & _ & _ & Hre). cbn.
    split_and!; [|repeat constructor; set_solver|apply Him].
    repeat apply Forall_cons_2; try done. cbn. rewrite (re_rotation _ _ _ _ Hre).
    destruct (ie_transform e) as [t|] eqn:Ht; [|vm_compute; reflexivity]. cbn.
    pose proof (ia_valid _ _ Him) as Hv. rewrite Forall_forall in Hv.
    specialize (Hv e). unfold imagined_admissible in Hv. rewrite Ht in Hv. apply Hv.
    rewrite <-(sorted_entities_perm im). by eapply list_elem_of_lookup_2.
  - apply list_elem_of_omap in Hop as (p & Hp & Hx). apply fmap_Some in Hx as (k & Hk & ->). cbn.
    intros [= Heq]. by apply (plan_id_ne p k).
Qed.

(** The built patch passes protocol validation. *)
Lemma patch_of_valid : patch_validate (patch_of im plans) limits = Ok tt.
Proof.
  destruct patch_totals as (Hc & Ht & Hs). pose proof length_reparents as Hrep.
  destruct (ia_operations _ _ Him) as [? ?], (ia_components _ _ Him), (ia_output_text _ _ Him), (ia_output_size _ _ Him).
  apply patch_validate_iff; [apply Hroom|apply Hroom| |apply Hroom|apply Hroom|].
  { pose proof (rm_components _ Hroom). lia. }
  unfold patch_admissible, within. cbv zeta. rewrite Hc, Ht, Hs. cbn [patch_of patch_schema_version patch_declared_budget].
  split_and!; try done.
  - apply Him.
  - cbn. pose proof length_plans as Hl. pose proof (ia_entities _ _ Him). destruct plans, (im_entities im); done.
  - cbn [patch_operations patch_of]. rewrite length_app, length_fmap, length_plans. lia.
  - apply patch_operations_admissible.
  - unfold output_size in *. lia.
Qed.

End patch.
