(* ===== verification/CompilerReport.v ===== *)
(** * Reports are valid

    Both reports a compilation may end with satisfy [result_validate] under
    the limits derived from the runtime limits: their lists are strictly
    ordered, their counts, text and logical size stay within the derived
    limits. *)

From S2P Require Import Prelude Machine Ordering Floats Values Components Messages MessageSpec Imagination ImaginationSpec Codec Compilation Hash Compiler CompilerPlans CompilerCycles CompilerPasses CompilerPatch.

Open Scope N_scope.

(** ** Counting by slots *)

Lemma sumN_mono {A} (f g : A → N) l : (∀ x, x ∈ l → f x ≤ g x) → sumN f l ≤ sumN g l.
Proof.
  induction l as [|x l IH]; intros Hfg; [done|]. unfold sumN in *. cbn [foldr].
  assert (f x ≤ g x) by (apply Hfg; by apply elem_of_cons; left).
  assert (foldr (λ x t, f x + t) 0 l ≤ foldr (λ x t, g x + t) 0 l); [|lia].
  apply IH. intros y Hy. apply Hfg. by apply elem_of_cons; right.
Qed.

Lemma sumN_seq {A} (h : A → N) (l : list A) :
  sumN (λ r, default 0 (h <$> l !! r)) (seq 0 (length l)) = sumN h l.
Proof.
  induction l as [|x l IH] using rev_ind; [done|].
  rewrite length_app, Nat.add_1_r, seq_S, !sumN_app. cbn [plus]. rewrite <-IH. f_equal.
  - apply sumN_ext. intros r [_ Hr]%elem_of_seq. rewrite lookup_app_l by lia. done.
  - cbn [sumN foldr]. by rewrite list_lookup_middle.
Qed.

Lemma sumN_submseteq {A} (f : A → N) l k : l ⊆+ k → sumN f l ≤ sumN f k.
Proof. intros [k' Hk]%submseteq_Permutation. rewrite (sumN_perm f _ _ Hk), sumN_app. lia. Qed.

(** Elements that occupy distinct slots weigh at most what the slots weigh. *)
Lemma sumN_slots {A B} (g : A → N) (h : B → N) (slot : A → nat) (l : list A) (slots : list B) :
  NoDup (slot <$> l) → (∀ x, x ∈ l → ∃ b, slots !! slot x = Some b ∧ g x ≤ h b) → sumN g l ≤ sumN h slots.
Proof.
  intros Hnd Hl. rewrite <-(sumN_seq h slots). transitivity (sumN (λ r, default 0 (h <$> slots !! r)) (slot <$> l)).
  - rewrite sumN_fmap. apply sumN_mono. intros x Hx. destruct (Hl x Hx) as (b & -> & Hb). done.
  - apply sumN_submseteq, NoDup_submseteq; [done|]. intros r (x & -> & Hx)%list_elem_of_fmap.
    destruct (Hl x Hx) as (b & Hb%lookup_lt_Some & _). apply elem_of_seq. lia.
Qed.

Lemma length_slots {A B} (slot : A → nat) (l : list A) (slots : list B) :
  NoDup (slot <$> l) → (∀ x, x ∈ l → is_Some (slots !! slot x)) → (length l ≤ length slots)%nat.
Proof.
  intros Hnd Hl. pose proof (sumN_slots (λ _, 1) (λ _, 1) slot l slots Hnd) as Hs. rewrite !sumN_const in Hs.
  enough (1 * N.of_nat (length l) ≤ 1 * N.of_nat (length slots)) by lia. apply Hs.
  intros x Hx. destruct (Hl x Hx) as [b Hb]. by exists b.
Qed.

Lemma NoDup_fmap_on {A B} (f : A → B) (l : list A) :
  NoDup l → (∀ x y, x ∈ l → y ∈ l → f x = f y → x = y) → NoDup (f <$> l).
Proof.
  induction 1 as [|x l Hx Hl IH]; intros Hinj; [constructor|]. rewrite fmap_cons. constructor.
  - intros (y & Hxy & Hy)%list_elem_of_fmap. apply Hx.
    rewrite (Hinj x y); [done|by apply elem_of_cons; left|by apply elem_of_cons; right|done].
  - apply IH. intros y z Hy Hz. apply Hinj; by apply elem_of_cons; right.
Qed.

(** ** Canonical orders *)

#[export] Instance decision_cmp_ord : OrdLaws decision_cmp.
Proof.
  unfold decision_cmp. apply then_with_ord; [apply then_with_ord|].
  - apply (contramap_ord cd_entity_key), text_cmp_ord.
  - apply (contramap_ord (λ a, decision_rank (cd_code a))), N_compare_ord.
  - apply (contramap_ord cd_relation_index), option_cmp_ord, N_compare_ord.
Qed.

#[export] Instance unresolved_cmp_ord : OrdLaws unresolved_cmp.
Proof.
  unfold unresolved_cmp. repeat apply then_with_ord.
  - apply (contramap_ord uc_relation_index), option_cmp_ord, N_compare_ord.
  - apply (contramap_ord uc_constraint_index), option_cmp_ord, N_compare_ord.
  - apply (contramap_ord (λ a, unresolved_rank (uc_code a))), N_compare_ord.
  - apply (contramap_ord uc_entity_key), option_cmp_ord, text_cmp_ord.
  - apply (contramap_ord uc_related_key), option_cmp_ord, text_cmp_ord.
  - apply (contramap_ord uc_entity_id), option_cmp_ord, N_compare_ord.
Qed.

Lemma unresolved_cmp_eq a b : unresolved_cmp a b = Eq → a = b.
Proof.
  unfold unresolved_cmp. rewrite !then_with_eq, !N.compare_eq_iff.
  rewrite !(option_cmp_eq N.compare) by apply N.compare_eq_iff. rewrite !(option_cmp_eq text_cmp) by apply text_cmp_eq.
  intros (((((? & ?) & Hr) & ?) & ?) & ?). destruct a as [ca], b as [cb]. cbn in *. subst.
  f_equal. destruct ca, cb; done.
Qed.

Definition decision_mark (d : CompilationDecision) : SceneText * CompilationDecisionCode := (cd_entity_key d, cd_code d).

Lemma decision_cmp_mark a b : decision_cmp a b = Eq → decision_mark a = decision_mark b.
Proof.
  unfold decision_cmp, decision_mark. rewrite !then_with_eq, text_cmp_eq, N.compare_eq_iff.
  intros ((-> & Hr) & _). f_equal. destruct (cd_code a), (cd_code b); done.
Qed.

Lemma validate_order_sorted {A} (cmp : A → A → comparison) dup unord l :
  StronglySorted (cmp_lt cmp) l → validate_order cmp dup unord l = Ok tt.
Proof.
  induction 1 as [|x l Hl IH Hx]; [done|]. destruct l as [|y l]; [done|].
  apply Forall_inv in Hx. unfold cmp_lt in Hx. cbn [validate_order]. rewrite Hx. exact IH.
Qed.

Lemma sorted_decisions l :
  NoDup (decision_mark <$> l) → StronglySorted (cmp_lt decision_cmp) (sort_by decision_cmp l).
Proof.
  intros Hnd. apply (sorted_strict decision_cmp); [apply (sort_by_sorted decision_cmp)|].
  intros i j a b Ha Hb Heq%decision_cmp_mark.
  eapply (NoDup_lookup (decision_mark <$> sort_by decision_cmp l)).
  - by rewrite (sort_by_perm decision_cmp l).
  - by rewrite list_lookup_fmap, Ha.
  - by rewrite list_lookup_fmap, Hb, Heq.
Qed.

Lemma shapes_ok {A} (shape : A → bool) e (l : list A) :
  (∀ x, x ∈ l → shape x = true) →
  out_fold (λ _ d, guard_err (negb (shape d)) e) tt l = @Ok CompilationValidationError unit tt.
Proof.
  induction l as [|x l IH]; intros Hs; [done|]. cbn [out_fold]. rewrite Hs by by apply elem_of_cons; left.
  cbn. apply IH. intros y Hy. apply Hs. by apply elem_of_cons; right.
Qed.

(** ** Decisions *)

Definition entity_codes : list CompilationDecisionCode :=
  [GeneratedEntityId; PreferredEntityIdSubstituted; DefaultName; DefaultTransform; DefaultMaterial].
Definition applied_codes : list CompilationDecisionCode :=
  [ParentRelationApplied; AboveRelationApplied; RightOfRelationApplied].

(** Decisions about one entity: at most [n], of distinct codes. *)
Record decision_group (n : nat) (codes : list CompilationDecisionCode) (k : SceneText)
    (g : list CompilationDecision) : Prop := {
  dg_about d : d ∈ g → cd_entity_key d = k ∧ cd_code d ∈ codes ∧ decision_shape d = true;
  dg_codes : NoDup (cd_code <$> g);
  dg_length : (length g ≤ n)%nat;
}.

Section groups.
Context (n : nat) (codes : list CompilationDecisionCode) (ks : list SceneText) (gs : list (list CompilationDecision)).

Abbreviation grouped := (Forall2 (decision_group n codes) ks gs).

Lemma groups_about d : grouped → d ∈ mjoin gs → cd_entity_key d ∈ ks ∧ cd_code d ∈ codes ∧ decision_shape d = true.
Proof.
  induction 1 as [|k g ks' gs' Hg _ IH]; cbn [mjoin list_join]; [by intros ?%not_elem_of_nil|].
  intros [Hd|Hd]%elem_of_app; rewrite elem_of_cons.
  - apply (dg_about _ _ _ _ Hg) in Hd as (-> & ? & ?). auto.
  - apply IH in Hd as (? & ? & ?). auto.
Qed.

Lemma groups_marks : grouped → NoDup ks → NoDup (decision_mark <$> mjoin gs).
Proof.
  induction 1 as [|k g ks' gs' Hg Hrest IH]; cbn [mjoin list_join]; [constructor|].
  intros [Hk Hnd]%NoDup_cons. rewrite fmap_app. apply NoDup_app. split_and!.
  - apply (NoDup_fmap_1 snd). rewrite <-list_fmap_compose. apply Hg.
  - intros m (d & -> & Hd)%list_elem_of_fmap (d' & Hm & Hd')%list_elem_of_fmap.
    apply (dg_about _ _ _ _ Hg) in Hd as [Hd _]. injection Hm as Hm _.
    assert (cd_entity_key d' ∈ ks') as Hin; [|congruence].
    clear -Hrest Hd'. induction Hrest as [|k' g' ks' gs' Hg' _ IH]; cbn [mjoin list_join] in Hd'; [by apply not_elem_of_nil in Hd'|].
    apply elem_of_app in Hd' as [Hd'|Hd']; rewrite elem_of_cons; [left; by eapply dg_about|right; by apply IH].
  - by apply IH.
Qed.

Lemma groups_length : grouped → (length (mjoin gs) ≤ n * length ks)%nat.
Proof.
  induction 1 as [|k g ks' gs' Hg _ IH]; cbn [mjoin list_join]; [cbn; lia|].
  rewrite length_app. cbn [length]. pose proof (dg_length _ _ _ _ Hg). rewrite Nat.mul_succ_r, Nat.add_comm. by apply Nat.add_le_mono.
Qed.

Lemma groups_text : grouped → sumN (λ d, text_size (cd_entity_key d)) (mjoin gs) ≤ N.of_nat n * sumN text_size ks.
Proof.
  induction 1 as [|k g ks' gs' Hg _ IH]; cbn [mjoin list_join]; [cbn; lia|].
  rewrite sumN_app. assert (sumN text_size (k :: ks') = text_size k + sumN text_size ks') as -> by done.
  rewrite (sumN_ext _ (λ _, text_size k) g); [|by intros d [-> _]%(dg_about _ _ _ _ Hg)].
  rewrite sumN_const, N.mul_add_distr_l. apply N.add_le_mono; [|done].
  rewrite N.mul_comm. apply N.mul_le_mono_r. pose proof (dg_length _ _ _ _ Hg). lia.
Qed.

End groups.

Lemma entity_decisions_group e id : decision_group 4 entity_codes (ie_key e) (entity_decisions e id).
Proof.
  assert (∃ i nm t m, entity_decisions e id = i ++ nm ++ t ++ m ∧
    (i = [] ∨ i = [mkDecision PreferredEntityIdSubstituted (ie_key e) None (Some id)] ∨
     i = [mkDecision GeneratedEntityId (ie_key e) None (Some id)]) ∧
    (nm = [] ∨ nm = [default_decision DefaultName (ie_key e)]) ∧
    (t = [] ∨ t = [default_decision DefaultTransform (ie_key e)]) ∧
    (m = [] ∨ m = [default_decision DefaultMaterial (ie_key e)])) as (i & nm & t & m & -> & Hi & Hn & Ht & Hm).
  { unfold entity_decisions, plan_entity. cbn [snd]. do 4 eexists. split; [reflexivity|].
    destruct (ie_preferred_id e); [case_decide|]; destruct (ie_name e), (ie_transform e), (ie_material e); cbn [is_some]; auto 10. }
  assert (∀ d, d ∈ i ++ nm ++ t ++ m → cd_entity_key d = ie_key e ∧ cd_code d ∈ entity_codes ∧ decision_shape d = true) as Habout.
  { intros d. destruct Hi as [->|[->| ->]], Hn as [->| ->], Ht as [->| ->], Hm as [->| ->]; cbn [app];
      rewrite ?elem_of_cons, ?elem_of_nil; intros Hd; repeat destruct Hd as [->|Hd]; try done;
      (split; [done|]); (split; [|done]); unfold entity_codes; cbn; rewrite ?elem_of_cons; auto 10. }
  split; [done|..].
  - destruct Hi as [->|[->| ->]], Hn as [->| ->], Ht as [->| ->], Hm as [->| ->]; cbn;
      apply (bool_decide_unpack _); vm_compute; exact I.
  - destruct Hi as [->|[->| ->]], Hn as [->| ->], Ht as [->| ->], Hm as [->| ->]; cbn; lia.
Qed.

Lemma decisions_of_groups es ids : length ids = length es →
  Forall2 (decision_group 4 entity_codes) (ie_key <$> es) (zip_with entity_decisions es ids).
Proof.
  intros Hlen. apply Forall2_same_length_lookup. split; [rewrite length_fmap, length_zip_with; lia|].
  intros i k g Hk Hg. apply list_lookup_fmap_Some in Hk as (e & -> & He). apply lookup_zip_with_Some in Hg as (e' & id & -> & He' & _).
  assert (e' = e) as -> by congruence. apply entity_decisions_group.
Qed.

(** The decision a plan's relation leaves. *)
Definition relation_decision (e : EntityPlan) : list CompilationDecision :=
  (match ep_parent_relation e with
   | Some r => [mkDecision ParentRelationApplied (ep_key e) (Some r) None]
   | None => []
   end)
  ++ (match ep_placement e with
      | Some p => [mkDecision (match pl_kind p with Above _ => AboveRelationApplied | RightOf _ => RightOfRelationApplied end)
                     (ep_key e) (Some (pl_relation_index p)) None]
      | None => []
      end).

Lemma relation_decisions_join plans : relation_decisions plans = mjoin (relation_decision <$> plans).
Proof. reflexivity. Qed.

Lemma relation_decisions_held base rels held plans : resolved base rels held plans →
  relation_decisions plans = relation_decisions held.
Proof.
  intros Hr. rewrite !relation_decisions_join. f_equal. apply list_eq. intros i. rewrite !list_lookup_fmap.
  destruct (plans !! i) as [p|] eqn:Hp.
  - apply (rs_placed _ _ _ _ Hr), placed_moves in Hp as (h & -> & Hmove). cbn. f_equal. by destruct Hmove as [->|[v ->]].
  - apply lookup_ge_None in Hp. rewrite (rs_length _ _ _ _ Hr) in Hp. by rewrite (lookup_ge_None_2 held i).
Qed.

Lemma relation_decision_holds rels keys e : plan_holds rels keys e →
  decision_group 1 applied_codes (ep_key e) (relation_decision e) ∧
  ∀ d, d ∈ relation_decision e → cd_relation_index d = plan_relation e.
Proof.
  unfold relation_decision, plan_relation.
  intros [? Hr Hp|k r ? Hr Hp ? ? ?|pl r ? Hr Hp ? ? ? ?]; rewrite Hr, Hp; cbn [app].
  - split; [split; [by intros d ?%not_elem_of_nil|constructor|cbn; lia]|by intros d ?%not_elem_of_nil].
  - split; [split; [intros d ->%list_elem_of_singleton; cbn; unfold applied_codes; set_solver|apply NoDup_singleton|done]|].
    by intros d ->%list_elem_of_singleton.
  - split; [split; [intros d ->%list_elem_of_singleton|apply NoDup_singleton|done]|by intros d ->%list_elem_of_singleton].
    split; [done|]. unfold applied_codes. destruct (pl_kind pl); cbn; (split; [set_solver|done]).
Qed.

Lemma relation_decisions_groups rels keys held : Forall (plan_holds rels keys) held →
  Forall2 (decision_group 1 applied_codes) (keys_of held) (relation_decision <$> held).
Proof.
  induction 1 as [|e held He _ IH]; [constructor|]. unfold keys_of in *. rewrite !fmap_cons. constructor; [|done].
  by eapply relation_decision_holds.
Qed.

(** One decision per relation at most. *)
Lemma relation_decisions_length rels base held : NoDup (keys_of held) → Forall (plan_holds rels (keys_of base)) held →
  (length (relation_decisions held) ≤ length rels)%nat.
Proof.
  intros Hnd Hh. rewrite relation_decisions_join. pose proof (relation_decisions_groups _ _ _ Hh) as Hg.
  assert (∀ d, d ∈ mjoin (relation_decision <$> held) → ∃ e r, e ∈ held ∧ ep_key e = cd_entity_key d ∧ d ∈ relation_decision e ∧
    (r < length rels)%nat ∧ plan_relation e = Some (N.of_nat r) ∧ cd_relation_index d = Some (N.of_nat r)) as Hd.
  { intros d (g & Hd & (e & -> & He)%list_elem_of_fmap)%list_elem_of_join. rewrite Forall_forall in Hh.
    destruct (relation_decision_holds _ _ _ (Hh e He)) as [Hgr Hidx]. specialize (Hidx d Hd).
    assert (is_Some (plan_relation e)) as [r Hr].
    { apply (dg_about _ _ _ _ Hgr) in Hd as (_ & Hc & Hs). rewrite <-Hidx. unfold applied_codes in Hc. unfold decision_shape in Hs.
      destruct (cd_code d); try (destruct (cd_relation_index d); by eauto); exfalso; clear -Hc; set_solver. }
    pose proof (plan_relation_bound _ _ _ _ (Hh e He) Hr) as Hlt. exists e, (N.to_nat r). rewrite N2Nat.id, Hidx.
    split_and!; try done; [symmetry; by eapply dg_about|lia]. }
  apply (length_slots (λ d, N.to_nat (default 0 (cd_relation_index d)))).
  - apply NoDup_fmap_on; [by eapply (NoDup_fmap_1 decision_mark), groups_marks|].
    intros d1 d2 (e1 & r1 & He1 & Hk1 & Hd1 & _ & Hp1 & Hi1)%Hd (e2 & r2 & He2 & Hk2 & Hd2 & _ & Hp2 & Hi2)%Hd Heq.
    rewrite Hi1, Hi2 in Heq. cbn in Heq. assert (r1 = r2) as <- by lia.
    assert (e1 = e2) as <- by (by eapply (plan_relation_inj base held rels)).
    rewrite Forall_forall in Hh. destruct (relation_decision_holds _ _ _ (Hh e1 He1)) as [Hgr _].
    pose proof (dg_length _ _ _ _ Hgr) as Hl. destruct (relation_decision e1) as [|x [|y l]]; [by apply not_elem_of_nil in Hd1| |cbn in Hl; lia].
    apply list_elem_of_singleton in Hd1 as ->, Hd2 as ->. done.
  - intros d (e & r & _ & _ & _ & Hr & _ & ->)%Hd. cbn. rewrite Nat2N.id. by apply lookup_lt_is_Some.
Qed.

(** ** Issues *)

Section issues.
Context (im : ImaginationEnvelope) (scene : CompilationSceneView) (l : list UnresolvedConstraint).
Context (Hl : issues_ok im scene l).

Abbreviation reported := (dedup (sort_by unresolved_cmp l)).

Lemma reported_elem u : u ∈ reported ↔ u ∈ l.
Proof. by rewrite elem_of_dedup, (sort_by_perm unresolved_cmp l). Qed.

Lemma reported_sorted : StronglySorted (cmp_lt unresolved_cmp) reported.
Proof. apply (dedup_strict unresolved_cmp); [apply unresolved_cmp_eq|apply (sort_by_sorted unresolved_cmp)]. Qed.

Lemma reported_nodup : NoDup reported.
Proof.
  pose proof reported_sorted as Hs. induction Hs as [|x k Hk IH Hx]; constructor; [|done].
  rewrite Forall_forall in Hx. intros Hin%Hx. unfold cmp_lt in Hin. by rewrite (cmp_refl unresolved_cmp) in Hin.
Qed.

Lemma reported_shape u : u ∈ reported → unresolved_shape u = true.
Proof.
  rewrite reported_elem. intros [(r & rel & c & _ & Hc & ->)|(i & Hi)]%(io_about _ _ _ Hl).
  - unfold relation_codes in Hc. destruct c; try done; exfalso; clear -Hc; set_solver.
  - unfold constraint_issue in Hi. destruct (_ !! _) as [[]|]; [by destruct Hi as [_ ->]..|done].
Qed.

(** Each issue occupies the slot of its relation or precondition. *)
Definition issue_slots : list (ImaginationRelation + ImaginationConstraint) :=
  (inl <$> im_relations im) ++ (inr <$> im_constraints im).

Definition issue_slot (u : UnresolvedConstraint) : nat :=
  match uc_relation_index u with
  | Some r => N.to_nat r
  | None => length (im_relations im) + N.to_nat (default 0 (uc_constraint_index u))
  end.

Definition issue_text (u : UnresolvedConstraint) : N :=
  default 0 (text_size <$> uc_entity_key u) + default 0 (text_size <$> uc_related_key u).

Definition slot_text (s : ImaginationRelation + ImaginationConstraint) : N :=
  match s with inl r => relation_text r | inr _ => 0 end.

Lemma issue_slot_about u : u ∈ l →
  (∃ r rel, uc_relation_index u = Some (N.of_nat r) ∧ uc_constraint_index u = None ∧ issue_slot u = r ∧
    issue_slots !! r = Some (inl rel) ∧ (r < length (im_relations im))%nat ∧ issue_text u = relation_text rel) ∨
  (∃ i c, uc_relation_index u = None ∧ uc_constraint_index u = Some (N.of_nat i) ∧
    issue_slot u = (length (im_relations im) + i)%nat ∧
    issue_slots !! (length (im_relations im) + i)%nat = Some (inr c) ∧ issue_text u = 0).
Proof.
  intros [(r & rel & c & Hr & _ & ->)|(i & Hi)]%(io_about _ _ _ Hl).
  - left. exists r, rel. unfold issue_slot, issue_slots. cbn. rewrite Nat2N.id. split_and!; try done.
    + rewrite lookup_app_l by (rewrite length_fmap; by eapply lookup_lt_Some). by rewrite list_lookup_fmap, Hr.
    + by eapply lookup_lt_Some.
  - right. pose proof (constraint_issue_index _ _ _ _ Hi) as [H1 H2]. unfold constraint_issue in Hi.
    destruct (im_constraints im !! i) as [c|] eqn:Hc; [|done]. exists i, c. unfold issue_slot, issue_slots. rewrite H1, H2.
    cbn. rewrite Nat2N.id. split_and!; try done; [|by destruct c; destruct Hi as [_ ->]].
    rewrite lookup_app_r by (rewrite length_fmap; lia). rewrite length_fmap, Nat.add_comm, Nat.add_sub.
    by rewrite list_lookup_fmap, Hc.
Qed.

Lemma issue_slots_nodup : NoDup (issue_slot <$> reported).
Proof.
  apply NoDup_fmap_on; [apply reported_nodup|]. intros u v. rewrite !reported_elem. intros Hu Hv Heq.
  apply (io_function _ _ _ Hl u v Hu Hv);
  destruct (issue_slot_about u Hu) as [(r1 & rel1 & R1 & C1 & S1 & _ & B1 & _)|(i1 & c1 & R1 & C1 & S1 & _)],
    (issue_slot_about v Hv) as [(r2 & rel2 & R2 & C2 & S2 & _ & B2 & _)|(i2 & c2 & R2 & C2 & S2 & _)];
  rewrite ?R1, ?R2, ?C1, ?C2; try done; repeat f_equal; lia.
Qed.

Lemma reported_length : (length reported ≤ length (im_relations im) + length (im_constraints im))%nat.
Proof.
  transitivity (length issue_slots); [|unfold issue_slots; by rewrite length_app, !length_fmap].
  apply (length_slots issue_slot); [apply issue_slots_nodup|]. intros u Hu%reported_elem.
  destruct (issue_slot_about u Hu) as [(r & rel & _ & _ & -> & Hs & _)|(i & c & _ & _ & -> & Hs & _)]; rewrite Hs; eauto.
Qed.

Lemma reported_text : sumN issue_text reported ≤ sumN relation_text (im_relations im).
Proof.
  transitivity (sumN slot_text issue_slots).
  - apply (sumN_slots _ _ issue_slot); [apply issue_slots_nodup|]. intros u Hu%reported_elem.
    destruct (issue_slot_about u Hu) as [(r & rel & _ & _ & -> & Hs & _ & ->)|(i & c & _ & _ & -> & Hs & ->)]; rewrite Hs;
      (eexists; split; [reflexivity|]); reflexivity.
  - unfold issue_slots. rewrite sumN_app, !sumN_fmap. cbn [slot_text].
    rewrite (sumN_const 0). change (sumN (λ x, relation_text x) (im_relations im)) with (sumN relation_text (im_relations im)). lia.
Qed.

End issues.

(** ** Sizes of a report *)

Definition decision_text (d : CompilationDecision) : N := text_size (cd_entity_key d).
Definition decision_size (d : CompilationDecision) : N :=
  8 + decision_text d + is_some_u64 (cd_relation_index d) * 4 + is_some_u64 (cd_entity_id d) * 16.
Definition issue_size (u : UnresolvedConstraint) : N :=
  14 + issue_text u + is_some_u64 (uc_relation_index u) * 4 + is_some_u64 (uc_constraint_index u) * 4
  + is_some_u64 (uc_entity_id u) * 16.

Definition report_text (r : CompilationResult) : N :=
  default 0 (patch_text <$> cr_patch r) + sumN decision_text (cr_decisions r) + sumN issue_text (cr_unresolved r).
Definition report_size (r : CompilationResult) : N :=
  35 + default 0 (patch_size <$> cr_patch r) + sumN decision_size (cr_decisions r) + sumN issue_size (cr_unresolved r).

Lemma optional_text_sat o : optional_text_bytes o = N.min u64_max (default 0 (text_size <$> o)).
Proof. unfold optional_text_bytes. destruct o; cbn; [apply text_len_sat|done]. Qed.

Lemma result_text_sat r : result_text_bytes r = N.min u64_max (report_text r).
Proof.
  unfold result_text_bytes, report_text. cbv zeta.
  rewrite (sat_fold_step _ decision_text (cr_decisions r) 0).
  2:{ intros t d. rewrite text_len_sat. unfold sat_add64, sat_add, decision_text. lia. }
  assert (default 0 (patch_text_bytes <$> cr_patch r) = N.min u64_max (default 0 (patch_text <$> cr_patch r))) as ->.
  { destruct (cr_patch r); cbn; [apply patch_text_sat|done]. }
  rewrite N.add_0_l.
  assert (∀ a b, sat_add64 (N.min u64_max a) (N.min u64_max b) = N.min u64_max (a + b)) as Hs.
  { intros a b. unfold sat_add64, sat_add. lia. }
  rewrite Hs. apply sat_fold_step. intros t u. rewrite !optional_text_sat, !Hs. unfold issue_text. f_equal. lia.
Qed.

Lemma result_size_sat r : result_logical_size_bytes r = N.min u64_max (report_size r).
Proof.
  unfold result_logical_size_bytes, report_size. cbv zeta.
  rewrite (sat_fold_step _ decision_size (cr_decisions r) 0).
  2:{ intros t d. unfold decision_logical_size. rewrite text_len_sat. unfold sat_add64, sat_add, decision_size, decision_text, is_some_u64.
      destruct (is_some (cd_relation_index d)), (is_some (cd_entity_id d)); unfold u64_max; lia. }
  assert (default 0 (patch_logical_size_bytes <$> cr_patch r) = N.min u64_max (default 0 (patch_size <$> cr_patch r))) as ->.
  { destruct (cr_patch r); cbn; [apply patch_size_sat|done]. }
  rewrite N.add_0_l. set (p := default 0 (patch_size <$> cr_patch r)). set (ds := sumN decision_size _).
  assert (sat_add64 (sat_add64 35 (N.min u64_max p)) (N.min u64_max ds) = N.min u64_max (35 + p + ds)) as ->.
  { unfold sat_add64, sat_add. unfold u64_max. lia. }
  apply sat_fold_step. intros t u. unfold unresolved_logical_size. rewrite !optional_text_sat.
  unfold sat_add64, sat_add, issue_size, issue_text, is_some_u64.
  destruct (is_some (uc_relation_index u)), (is_some (uc_constraint_index u)), (is_some (uc_entity_id u)); unfold u64_max; lia.
Qed.

(** ** Validity *)

(** Limits whose derived counts do not saturate. *)
Record compilable (limits : RuntimeLimits) : Prop := {
  cb_roomy : roomy limits;
  cb_decisions : 4 * max_imagination_entities limits + max_imagination_relations limits ≤ u32_max;
  cb_unresolved : max_imagination_relations limits + max_imagination_constraints limits ≤ u32_max;
}.

Lemma sum_sizes {A} (size text : A → N) (c : N) l :
  (∀ x, x ∈ l → size x ≤ c + text x) → sumN size l ≤ c * N.of_nat (length l) + sumN text l.
Proof.
  intros Hs. rewrite <-(sumN_const c l). transitivity (sumN (λ x, c + text x) l); [by apply sumN_mono|].
  clear Hs. induction l as [|x l IH]; [done|]. unfold sumN in *. cbn [foldr]. lia.
Qed.

(** A report that is ordered, well shaped and bounded is valid. *)
Lemma result_validate_ok r limits :
  compilable limits → cr_schema_version r = COMPILATION_SCHEMA_VERSION →
  N.of_nat (length (cr_decisions r)) ≤ 4 * max_imagination_entities limits + max_imagination_relations limits →
  N.of_nat (length (cr_unresolved r)) ≤ max_imagination_relations limits + max_imagination_constraints limits →
  match cr_patch r, cr_unresolved r with
  | Some patch, [] => patch_schema_version patch = cr_schema_version r ∧ patch_base_revision patch = cr_scene_revision r ∧
      patch_validate patch limits = Ok tt
  | None, _ :: _ => True
  | _, _ => False
  end →
  (∀ d, d ∈ cr_decisions r → decision_shape d = true) → StronglySorted (cmp_lt decision_cmp) (cr_decisions r) →
  (∀ u, u ∈ cr_unresolved r → unresolved_shape u = true) → StronglySorted (cmp_lt unresolved_cmp) (cr_unresolved r) →
  report_text r ≤ 6 * max_text_bytes limits → default 0 (patch_size <$> cr_patch r) ≤ max_decoded_bytes limits →
  result_validate r (for_runtime_limits limits) = Ok tt.
Proof.
  intros [Hroom Hcd Hcu] Hv Hds Hus Hp Hdsh Hdso Hush Huso Ht Hd.
  assert (cl_max_decisions (for_runtime_limits limits) = 4 * max_imagination_entities limits + max_imagination_relations limits) as Hld.
  { cbn. unfold sat_add, sat_mul, MAX_DECISIONS_PER_ENTITY. lia. }
  assert (cl_max_unresolved_constraints (for_runtime_limits limits) = max_imagination_relations limits + max_imagination_constraints limits) as Hlu.
  { cbn. unfold sat_add. lia. }
  assert (report_size r ≤ 35 + max_decoded_bytes limits + 27 * cl_max_decisions (for_runtime_limits limits)
    + 38 * cl_max_unresolved_constraints (for_runtime_limits limits) + report_text r) as Hsize.
  { rewrite Hld, Hlu. unfold report_size, report_text.
    pose proof (sum_sizes decision_size decision_text 27 (cr_decisions r)) as S1.
    pose proof (sum_sizes issue_size issue_text 38 (cr_unresolved r)) as S2.
    specialize (S1 ltac:(intros d Hdin; apply Hdsh in Hdin; unfold decision_shape in Hdin; unfold decision_size, is_some_u64;
      destruct (cd_code d), (cd_relation_index d), (cd_entity_id d); cbn in *; (lia || done))).
    specialize (S2 ltac:(intros u _; unfold issue_size, is_some_u64;
      destruct (uc_relation_index u), (uc_constraint_index u), (uc_entity_id u); cbn; lia)).
    lia. }
  unfold result_validate. rewrite Hv. cbn [guard_err out_bind negb N.eqb].
  rewrite Hld, Hlu, !count_sat.
  rewrite (proj2 (N.ltb_ge _ (N.min u32_max (N.of_nat (length (cr_decisions r)))))) by lia. cbn [guard_err out_bind].
  rewrite (proj2 (N.ltb_ge _ (N.min u32_max (N.of_nat (length (cr_unresolved r)))))) by lia. cbn [guard_err out_bind].
  assert (∀ x : outcome CompilationValidationError unit, match cr_patch r, cr_unresolved r with
      | Some patch, [] =>
          do! guard_err (negb (patch_schema_version patch =? COMPILATION_SCHEMA_VERSION)) (cv_error CvPatchSchemaMismatch "patch.schema_version") then
          do! guard_err (negb (patch_base_revision patch =? cr_scene_revision r)) (cv_error CvPatchRevisionMismatch "patch.base_revision") then
          map_err (cv_protocol "patch") (patch_validate patch (cl_patch_limits (for_runtime_limits limits)))
      | None, _ :: _ => Ok tt
      | Some _, _ :: _ | None, [] => Err (cv_error CvInvalidOutcome "patch")
      end = x → x = Ok tt) as Hpatch.
  { intros x <-. destruct (cr_patch r) as [patch|], (cr_unresolved r); try done. destruct Hp as (H1 & H2 & H3).
    rewrite H1, H2, Hv, !N.eqb_refl. cbn [negb guard_err out_bind]. change (cl_patch_limits (for_runtime_limits limits)) with limits.
    by rewrite H3. }
  rewrite (Hpatch _ eq_refl). cbn [out_bind]. unfold validate_decisions, validate_unresolved.
  rewrite shapes_ok by done. cbn [out_bind]. rewrite validate_order_sorted by done. cbn [out_bind].
  rewrite shapes_ok by done. cbn [out_bind]. rewrite validate_order_sorted by done. cbn [out_bind].
  rewrite result_text_sat, result_size_sat.
  rewrite (proj2 (N.ltb_ge _ (N.min u64_max (report_text r)))) by (cbn; unfold sat_mul, RESULT_TEXT_MULTIPLIER; lia).
  cbn [guard_err out_bind]. rewrite (proj2 (N.ltb_ge _ _)); [done|].
  unfold for_runtime_limits at 1. cbn [cl_max_decoded_bytes].
  change (sat_add u32_max (sat_mul u32_max (max_imagination_entities limits) MAX_DECISIONS_PER_ENTITY) (max_imagination_relations limits))
    with (cl_max_decisions (for_runtime_limits limits)).
  change (sat_add u32_max (max_imagination_relations limits) (max_imagination_constraints limits))
    with (cl_max_unresolved_constraints (for_runtime_limits limits)).
  unfold sat_add64, sat_add, sat_mul, RESULT_TEXT_MULTIPLIER, DECISION_LOGICAL_OVERHEAD, UNRESOLVED_LOGICAL_OVERHEAD, RESULT_LOGICAL_OVERHEAD.
  rewrite Hld, Hlu in *. lia.
Qed.

Section reports.
Context (im : ImaginationEnvelope) (limits : RuntimeLimits) (scene : CompilationSceneView) (ids : list N).
Context (Him : imagination_admissible im limits) (Hc : compilable limits).
Context (Hlen : length ids = length (sorted_entities im)).

Abbreviation planned := (decisions_of (sorted_entities im) ids).

Lemma planned_groups : Forall2 (decision_group 4 entity_codes) (ie_key <$> sorted_entities im)
  (zip_with entity_decisions (sorted_entities im) ids).
Proof. by apply decisions_of_groups. Qed.

Lemma sorted_keys_nodup : NoDup (ie_key <$> sorted_entities im).
Proof. rewrite (sorted_entities_perm im). apply Him. Qed.

Lemma planned_length : (length planned ≤ 4 * length (im_entities im))%nat.
Proof.
  pose proof (groups_length _ _ _ _ planned_groups) as Hl. rewrite length_fmap in Hl.
  by rewrite <-(Permutation_length (sorted_entities_perm im)).
Qed.

Lemma key_text_sum : sumN text_size (ie_key <$> sorted_entities im) + sumN relation_text (im_relations im) ≤ imagination_text im.
Proof.
  rewrite (sumN_perm _ _ (ie_key <$> im_entities im)) by by rewrite (sorted_entities_perm im).
  rewrite sumN_fmap. unfold imagination_text.
  assert (sumN (λ x, text_size (ie_key x)) (im_entities im) ≤ sumN imagined_text (im_entities im)); [|lia].
  apply sumN_mono. intros x _. unfold imagined_text. lia.
Qed.

Lemma planned_text : sumN decision_text planned ≤ 4 * sumN text_size (ie_key <$> sorted_entities im).
Proof. exact (groups_text _ _ _ _ planned_groups). Qed.

Lemma planned_shape d : d ∈ planned → decision_shape d = true.
Proof. intros Hd. by apply (groups_about _ _ _ _ d planned_groups) in Hd as (_ & _ & ?). Qed.

(** The report of unresolved issues is valid. *)
Lemma report_unresolved_valid issues : issues ≠ [] → issues_ok im scene issues →
  result_validate (report_unresolved im scene planned issues) (for_runtime_limits limits) = Ok tt.
Proof.
  intros Hne Hio. pose proof (sort_by_perm decision_cmp planned) as Hperm.
  pose proof (reported_length im scene issues Hio) as Hul. pose proof (reported_text im scene issues Hio) as Hut.
  pose proof planned_length as Hdl. pose proof planned_text as Hdt. pose proof key_text_sum as Hk.
  destruct (ia_entity_count _ _ Him), (ia_relation_count _ _ Him), (ia_constraint_count _ _ Him). pose proof (ia_text _ _ Him).
  apply result_validate_ok; unfold report_unresolved; cbn [cr_schema_version cr_decisions cr_unresolved cr_patch]; try done.
  - rewrite Hperm. lia.
  - lia.
  - destruct (dedup (sort_by unresolved_cmp issues)) as [|u us] eqn:E; [|done].
    apply Hne. destruct issues as [|u us]; [done|]. exfalso.
    apply (not_elem_of_nil u). rewrite <-E, reported_elem. by apply elem_of_cons; left.
  - intros d. rewrite Hperm. apply planned_shape.
  - apply sorted_decisions. apply (groups_marks _ _ _ _ planned_groups), sorted_keys_nodup.
  - intros u. by eapply reported_shape.
  - apply reported_sorted.
  - unfold report_text. cbn [cr_patch cr_decisions cr_unresolved]. rewrite (sumN_perm decision_text _ _ Hperm).
    assert (default 0 (patch_text <$> None) = 0) as -> by done. lia.
  - apply N.le_0_l.
Qed.

(** The report of a compiled patch is valid. *)
Lemma report_compiled_valid held plans : NoDup ids →
  resolved (plans_of (sorted_entities im) ids) (im_relations im) held plans → im_base_revision im = sv_revision scene →
  result_validate (report_compiled im scene planned plans (patch_of im plans)) (for_runtime_limits limits) = Ok tt.
Proof.
  intros Hnd Hr Hrev. set (all := planned ++ relation_decisions plans).
  pose proof (sort_by_perm decision_cmp all) as Hperm.
  assert (keys_of held = ie_key <$> sorted_entities im) as Hkeys.
  { rewrite (held_keys im ids held plans Hlen Hr). by eapply patch_keys. }
  pose proof (as_holds _ _ _ _ (rs_holds _ _ _ _ Hr)) as Hholds.
  pose proof (relation_decisions_groups _ _ _ Hholds) as Hg. rewrite Hkeys in Hg.
  pose proof (relation_decisions_length _ _ _ ltac:(rewrite Hkeys; apply sorted_keys_nodup) Hholds) as Hrl.
  rewrite <-(relation_decisions_held _ _ _ _ Hr) in Hrl.
  assert (relation_decisions plans = mjoin (relation_decision <$> held)) as Hrd.
  { by rewrite (relation_decisions_held _ _ _ _ Hr), relation_decisions_join. }
  assert (sumN decision_text (relation_decisions plans) ≤ sumN text_size (ie_key <$> sorted_entities im)) as Hrt.
  { rewrite Hrd. pose proof (groups_text _ _ _ _ Hg) as Ht. unfold decision_text. lia. }
  pose proof planned_length as Hdl. pose proof planned_text as Hdt. pose proof key_text_sum as Hk.
  destruct (ia_entity_count _ _ Him), (ia_relation_count _ _ Him). pose proof (ia_text _ _ Him).
  destruct (patch_totals im ids held plans Hlen Hr) as (_ & Htext & Hsize).
  pose proof (length_reparents im ids held plans Hr).
  destruct (ia_output_text _ _ Him), (ia_output_size _ _ Him).
  apply result_validate_ok; unfold report_compiled; cbn [cr_schema_version cr_decisions cr_unresolved cr_patch]; fold all; try done.
  - rewrite Hperm. unfold all. rewrite length_app. lia.
  - apply N.le_0_l.
  - split_and!; [apply Him|done|]. eapply patch_of_valid; [done|apply Hc|done..].
  - intros d. rewrite Hperm. intros [Hd|Hd]%elem_of_app; [by apply planned_shape|].
    rewrite Hrd in Hd. by apply (groups_about _ _ _ _ d Hg) in Hd as (_ & _ & ?).
  - apply sorted_decisions. unfold all. rewrite fmap_app. apply NoDup_app. split_and!.
    + apply (groups_marks _ _ _ _ planned_groups), sorted_keys_nodup.
    + intros m (d & -> & Hd)%list_elem_of_fmap (d' & Hm & Hd')%list_elem_of_fmap. rewrite Hrd in Hd'.
      apply (groups_about _ _ _ _ d planned_groups) in Hd as (_ & Hd & _).
      apply (groups_about _ _ _ _ d' Hg) in Hd' as (_ & Hd' & _). injection Hm as _ Hm. rewrite Hm in Hd.
      unfold entity_codes, applied_codes in *. destruct (cd_code d'); clear -Hd Hd'; set_solver.
    + rewrite Hrd. apply (groups_marks _ _ _ _ Hg), sorted_keys_nodup.
  - by intros u ?%not_elem_of_nil.
  - constructor.
  - unfold report_text. cbn [cr_patch cr_decisions cr_unresolved]. rewrite (sumN_perm decision_text _ _ Hperm). unfold all.
    rewrite sumN_app. assert (sumN issue_text [] = 0) as -> by done.
    assert (default 0 (patch_text <$> Some (patch_of im plans)) = output_text im) as -> by done. lia.
  - assert (default 0 (patch_size <$> Some (patch_of im plans)) = patch_size (patch_of im plans)) as -> by done.
    unfold output_size in *. lia.
Qed.

End reports.
