(* ===== verification/CompilerOutcome.v ===== *)
(** * How a compilation ends

    [compile_ended]: from an admissible imagination at the scene's revision a
    compilation that could plan its entities ends with one of two valid
    reports, and only the encoding of that report can still be refused.  The
    module also recovers what a successful run went through. *)

From S2P Require Import Prelude Machine Ordering Floats Values Components Messages MessageSpec Imagination ImaginationSpec Codec Compilation Hash Compiler CompilerPlans CompilerCycles CompilerPasses CompilerPatch CompilerReport.

Open Scope N_scope.

(** ** Encoding *)

Lemma nesting_scan_errors limit s l e :
  out_fold (nesting_step limit) s l = Err e → ∃ a b, e = NestingLimitExceeded a b.
Proof.
  revert s. induction l as [|x l IH]; intros s; cbn [out_fold]; [done|].
  destruct (nesting_step limit s x) as [s'|e'| |] eqn:Hs; cbn [out_bind]; try done; [apply IH|].
  intros [= ->]. unfold nesting_step in Hs. repeat case_match; try done; unfold guard_err in *; cbn in *;
    repeat case_match; cbn in *; simplify_eq; eauto.
Qed.

Lemma nesting_scan_normal limit s l : normal (out_fold (nesting_step limit) s l).
Proof.
  apply (out_fold_normal _ (λ _, True)); [|done..]. intros b s' _ _. unfold nesting_step.
  repeat case_match; try done; unfold guard_err; cbn; by repeat case_match.
Qed.

Lemma comp_enforce_nesting_normal encoded limit : normal (comp_enforce_nesting encoded limit).
Proof.
  unfold comp_enforce_nesting. pose proof (nesting_scan_normal limit (mkScan 0 false false) encoded) as Hn.
  destruct (out_fold _ _ _) as [|e| |] eqn:He; try done.
  apply nesting_scan_errors in He as (a & b & ->). done.
Qed.

Section outcome.
Context `{Digest} `{ResultJson}.

Lemma validate_order_normal {A} cmp (d u : CompilationValidationError) (l : list A) : normal (validate_order cmp d u l).
Proof. induction l as [|a [|b l] IH]; try done. cbn [validate_order]. by destruct (cmp a b). Qed.

Lemma result_validate_normal r limits : normal (result_validate r limits).
Proof.
  assert (∀ A (f : A → outcome CompilationValidationError unit) l, (∀ x, normal (f x)) → normal (out_fold (λ _ x, f x) tt l)) as Hfold.
  { intros A f l Hf. apply (out_fold_normal _ (λ _, True)); done. }
  unfold result_validate, validate_decisions, validate_unresolved.
  repeat match goal with
  | |- normal (out_bind _ _) => apply out_bind_normal; [|intros ? _]
  | |- normal (guard_err _ _) => apply guard_err_normal
  | |- normal (map_err _ _) => apply map_err_normal
  | |- normal (patch_validate _ _) => apply patch_validate_normal
  | |- normal (validate_order _ _ _ _) => apply validate_order_normal
  | |- normal (out_fold _ _ _) => apply (Hfold _ (λ x, guard_err _ _)); intros
  | |- normal (match ?o with Some _ => _ | None => _ end) => destruct o
  | |- normal (match ?l with [] => _ | _ :: _ => _ end) => destruct l
  end; try exact I.
Qed.

Lemma encode_validated_normal r limits : normal (encode_validated r limits).
Proof.
  unfold encode_validated. apply out_bind_normal.
  { apply (out_fold_normal _ (λ _, True)); [|done..]. intros c w _ _. unfold bounded_write.
    apply out_bind_normal; [apply guard_err_normal|done]. }
  intros w _. apply out_bind_normal; [apply guard_err_normal|]. intros [] _.
  apply out_bind_normal.
  { unfold push_lf, enforce_size. apply out_bind_normal; [apply guard_err_normal|done]. }
  intros w' _. apply out_bind_normal; [apply comp_enforce_nesting_normal|done].
Qed.

Lemma validate_completed_valid r limits : result_validate r limits = Ok tt →
  validate_completed_result r limits =
    match encode_validated r limits with
    | Ok _ => Ok tt
    | Err (CompInvalidResult v) => Err (InvalidCompilationResult v)
    | Err e => Err (InvalidCompilationEncoding e)
    | Panic => Panic
    | OutOfFuel => OutOfFuel
    end.
Proof.
  intros Hv. unfold validate_completed_result, result_encode. rewrite Hv. cbn [map_err out_bind].
  destruct (encode_validated r limits) as [|[]| |]; done.
Qed.

(** The encoder itself never reports an invalid result. *)
Lemma encode_validated_errors r limits v : encode_validated r limits ≠ Err (CompInvalidResult v).
Proof.
  unfold encode_validated. intros He.
  assert (∀ l w, out_fold (bounded_write (cl_max_encoded_bytes limits - 1)) w l ≠ Err (CompInvalidResult v)) as Hw.
  { induction l as [|c l IH]; intros w; cbn [out_fold]; [done|]. unfold bounded_write at 1. cbv zeta.
    unfold guard_err. case_match; cbn [out_bind]; [done|apply IH]. }
  destruct (out_fold _ _ _) as [w|e| |] eqn:Hf; cbn [out_bind] in He; try done; [|by apply (Hw (json_writes r) []); rewrite Hf].
  destruct (json_fails r); cbn [guard_err out_bind] in He; [done|].
  unfold push_lf, enforce_size, guard_err in He. case_match; cbn [out_bind] in He; [done|].
  unfold comp_enforce_nesting in He.
  destruct (out_fold (nesting_step _) _ _) as [|e| |] eqn:Hn; cbn [out_bind] in He; try done.
  apply nesting_scan_errors in Hn as (a & b & ->). done.
Qed.

(** ** Planning *)

(** All attempts of a derivation are taken. *)
Definition exhausted (attempts : N) (im : ImaginationEnvelope) (key : SceneText) (taken : gset N) : Prop :=
  ∀ attempt c, attempt < attempts → entity_id_candidate im key attempt = Ok c → c ∈ taken.

Lemma derive_attempts_none n a im key scene used :
  derive_attempts n a im key scene used = None →
  ∀ attempt c, a ≤ attempt < a + N.of_nat n → entity_id_candidate im key attempt = Ok c → c ∈ sv_entity_ids scene ∪ used.
Proof.
  revert a. induction n as [|n IH]; intros a Hd attempt c Hr Hc; [lia|]. cbn [derive_attempts] in Hd.
  destruct (decide (attempt = a)) as [->|Hne].
  - rewrite Hc in Hd. unfold sv_contains in Hd. apply elem_of_union.
    case_bool_decide as H1; cbn in Hd; [by left|]. case_bool_decide as H2; cbn in Hd; [by right|done].
  - apply (IH (a + 1)) with attempt; [|lia|done].
    destruct (entity_id_candidate im key a) as [c'| | |]; try done.
    by destruct (negb _ && negb _).
Qed.

Lemma plan_loop_err config im scene i used es e :
  plan_loop config im scene i used es = Err e →
  ∃ j x taken, es !! j = Some x ∧
    e = EntityIdDerivationExhausted (count (i + j)) (cc_max_entity_id_attempts config) ∧
    exhausted (cc_max_entity_id_attempts config) im (ie_key x) (sv_entity_ids scene ∪ used ∪ taken) ∧ (size taken ≤ j)%nat.
Proof.
  revert i used e. induction es as [|x es IH]; intros i used e; cbn [plan_loop]; [done|].
  set (unavailable := match ie_preferred_id x with Some id => _ | None => false end).
  assert (∀ e', derive_entity_id config im (ie_key x) (count i) scene used = Err e' →
    e' = EntityIdDerivationExhausted (count i) (cc_max_entity_id_attempts config) ∧
    exhausted (cc_max_entity_id_attempts config) im (ie_key x) (sv_entity_ids scene ∪ used ∪ ∅)) as Hderive.
  { intros e'. unfold derive_entity_id. destruct (derive_attempts _ _ _ _ _ _) eqn:Hd; cbn [ok_or]; [done|].
    intros [= <-]. split; [done|]. intros a c Ha Hc. rewrite union_empty_r_L.
    eapply derive_attempts_none; [done| |done]. rewrite N2Nat.id. lia. }
  assert (∀ e', derive_entity_id config im (ie_key x) (count i) scene used = Err e' →
    ∃ j x' taken, (x :: es) !! j = Some x' ∧ e' = EntityIdDerivationExhausted (count (i + j)) (cc_max_entity_id_attempts config) ∧
      exhausted (cc_max_entity_id_attempts config) im (ie_key x') (sv_entity_ids scene ∪ used ∪ taken) ∧ (size taken ≤ j)%nat) as Hhere.
  { intros e' [-> Hex]%Hderive. exists 0%nat, x, ∅. rewrite Nat.add_0_r. split_and!; done. }
  assert (∀ id e', plan_loop config im scene (S i) ({[id]} ∪ used) es = Err e' →
    ∃ j x' taken, (x :: es) !! j = Some x' ∧ e' = EntityIdDerivationExhausted (count (i + j)) (cc_max_entity_id_attempts config) ∧
      exhausted (cc_max_entity_id_attempts config) im (ie_key x') (sv_entity_ids scene ∪ used ∪ taken) ∧ (size taken ≤ j)%nat) as Hlater.
  { intros id e' (j & x' & taken & Hj & -> & Hex & Hsz)%IH. exists (S j), x', ({[id]} ∪ taken).
    rewrite Nat.add_succ_r. split_and!; try done.
    - intros a c Ha Hc. specialize (Hex a c Ha Hc). set_solver.
    - rewrite size_union_alt, size_singleton.
      pose proof (subseteq_size (taken ∖ {[id]}) taken ltac:(set_solver)). lia. }
  destruct (if unavailable then None else ie_preferred_id x) as [pref|]; cbn [out_bind].
  - destruct (plan_entity x pref). destruct (plan_loop _ _ _ (S i) _ es) as [[]|e'| |] eqn:Hl; cbn [out_bind]; try done.
    intros [= <-]. by eapply Hlater.
  - destruct (derive_entity_id _ _ _ _ _ _) as [id|e'| |] eqn:Hd; cbn [out_bind]; try done; [|intros [= <-]; by apply Hhere].
    destruct (plan_entity x id). destruct (plan_loop _ _ _ (S i) _ es) as [[]|e'| |] eqn:Hl; cbn [out_bind]; try done.
    intros [= <-]. by eapply Hlater.
Qed.

(** ** Ends *)

(** The two reports. *)
Inductive ended (im : ImaginationEnvelope) (scene : CompilationSceneView) (ids : list N) : CompilationResult → Prop :=
| ended_unresolved issues :
    issues ≠ [] → issues_ok im scene issues →
    ended im scene ids (report_unresolved im scene (decisions_of (sorted_entities im) ids) issues)
| ended_compiled held plans :
    check_scene_constraints scene 0 (im_constraints im) = [] →
    resolved (plans_of (sorted_entities im) ids) (im_relations im) held plans →
    ended im scene ids (report_compiled im scene (decisions_of (sorted_entities im) ids) plans (patch_of im plans)).

(** Identities for the entities in key order. *)
Record fresh_ids (im : ImaginationEnvelope) (scene : CompilationSceneView) (ids : list N) : Prop := {
  fi_length : length ids = length (sorted_entities im);
  fi_nodup : NoDup ids;
  fi_scene id : id ∈ ids → id ∉ sv_entity_ids scene;
}.

Context (limits : RuntimeLimits) (Hlimits : compilable limits).

Lemma ended_valid im scene ids r : imagination_admissible im limits → fresh_ids im scene ids →
  im_base_revision im = sv_revision scene → ended im scene ids r → result_validate r (for_runtime_limits limits) = Ok tt.
Proof.
  intros Him Hids Hrev [issues Hne Hio|held plans _ Hr].
  - eapply report_unresolved_valid; try done; apply Hids.
  - eapply report_compiled_valid; try done; apply Hids.
Qed.

Context (cfg : CompilerConfig) (Hcfg : cc_runtime_limits cfg = limits).

Lemma planned_ended im scene ids : imagination_admissible im limits → fresh_ids im scene ids →
  im_base_revision im = sv_revision scene →
  ∃ r, ended im scene ids r ∧
    compile_planned cfg im scene (plans_of (sorted_entities im) ids) (decisions_of (sorted_entities im) ids)
    = (do! validate_completed_result r (cc_compilation_limits cfg) then Ok r).
Proof.
  intros Him Hids Hrev. pose proof (fi_length _ _ _ Hids) as Hlen. pose proof (cb_roomy _ Hlimits) as Hroom.
  destruct (compile_cases cfg im scene (plans_of (sorted_entities im) ids) (decisions_of (sorted_entities im) ids))
    as [(issues & Hne & Hio & Hc)|(Hpre & held & plans & Hr & Hc)].
  - rewrite plans_of_keys by done. rewrite (sorted_entities_perm im). apply Him.
  - by apply plans_of_assigned.
  - destruct (ia_relation_count _ _ Him). pose proof (rm_relations _ Hroom). lia.
  - destruct (ia_constraint_count _ _ Him). pose proof (rm_constraints _ Hroom). lia.
  - eexists. split; [by apply ended_unresolved|done].
  - eexists. split; [by eapply ended_compiled|]. rewrite Hc.
    rewrite (build_patch_ok im ids held plans Hlen Hr). cbn [out_bind].
    rewrite Hcfg.
    rewrite (patch_of_valid im limits ids held plans Him Hroom Hlen (fi_nodup _ _ _ Hids) Hr). done.
Qed.

(** From the start to an end. *)
Lemma compile_ended im scene : imagination_admissible im limits → im_base_revision im = sv_revision scene →
  (∃ ids r, fresh_ids im scene ids ∧ ended im scene ids r ∧
    plan_entities cfg im scene = Ok (plans_of (sorted_entities im) ids, decisions_of (sorted_entities im) ids) ∧
    compile cfg im scene = (do! validate_completed_result r (cc_compilation_limits cfg) then Ok r)) ∨
  (∃ e, plan_entities cfg im scene = Err e ∧ compile cfg im scene = Err e).
Proof.
  intros Him Hrev. rewrite compile_unfold. rewrite Hcfg.
  rewrite (proj2 (imagination_validate_iff im limits (cb_roomy _ Hlimits)) Him). cbn [map_err out_bind].
  rewrite Hrev, N.eqb_refl. cbn [negb guard_err out_bind].
  pose proof (plan_loop_normal cfg im scene 0 ∅ (sorted_entities im)) as Hn. change (normal (plan_entities cfg im scene)) in Hn.
  destruct (plan_entities cfg im scene) as [[base ds]|e| |] eqn:Hp; cbn [out_bind]; [|right; eauto|done..].
  left. apply plan_loop_ok in Hp as (ids & Hlen & -> & -> & Hnd & Hfresh).
  assert (fresh_ids im scene ids) as Hids by (split; [done|done|intros id Hid; by apply Hfresh]).
  destruct (planned_ended im scene ids Him Hids Hrev) as (r & Hr & Hc). eauto 10.
Qed.

(** What a successful compilation went through. *)
Lemma compile_inv im scene r : compile cfg im scene = Ok r →
  imagination_admissible im limits ∧ im_base_revision im = sv_revision scene ∧
  ∃ ids, fresh_ids im scene ids ∧ ended im scene ids r ∧
    plan_entities cfg im scene = Ok (plans_of (sorted_entities im) ids, decisions_of (sorted_entities im) ids).
Proof.
  intros Hc. assert (imagination_admissible im limits) as Him.
  { rewrite compile_unfold, Hcfg in Hc. inv_ok. destruct x. by apply (imagination_validate_iff im limits (cb_roomy _ Hlimits)). }
  assert (im_base_revision im = sv_revision scene) as Hrev.
  { rewrite compile_unfold in Hc. inv_ok. apply N.eqb_eq. by apply negb_false_iff. }
  split; [done|]. split; [done|].
  destruct (compile_ended im scene Him Hrev) as [(ids & r' & Hids & Hr & Hp & Hc')|(e & _ & Hc')]; rewrite Hc' in Hc; [|done].
  apply out_bind_ok in Hc as (u & _ & [= ->]). eauto.
Qed.

End outcome.
