(* ===== verification/CompilerMeaning.v ===== *)
(** * What a compiled patch means

    [realisation]: the patch creates every imagined entity once, under fresh
    identities and with its components, links exactly the parent relations,
    moves exactly the placed entities and moves them where their relation
    says.  [resolved_realisation] obtains it from resolved plans. *)

From S2P Require Import Prelude Machine Ordering Floats Values Components Messages MessageSpec Imagination ImaginationSpec Codec Compilation Hash Compiler CompilerPlans CompilerCycles CompilerPasses CompilerPatch CompilerReport CompilerOutcome.

Open Scope N_scope.

(** An imagined entity with the identity and transform it received. *)
Record realised := mkRealised {
  rz_entity : ImaginedEntity;
  rz_id : StableEntityId;
  rz_transform : LocalTransform;
}.

Definition rz_key (r : realised) : SceneText := ie_key (rz_entity r).

Definition realised_create (r : realised) : SceneOperation :=
  OpCreate (mkCreate (rz_id r)
    [CName (mkName (imagined_name (rz_entity r))); CLocalTransform (rz_transform r);
     CPrimitive (ie_primitive (rz_entity r)); CMaterial (default neutral_material (ie_material (rz_entity r)))]).

Definition requested_transform (e : ImaginedEntity) : LocalTransform := default identity_transform (ie_transform e).

(** The imagination places the entity with this key. *)
Definition is_placed (rels : list ImaginationRelation) (k : SceneText) : Prop :=
  ∃ a g, RelAbove k a g ∈ rels ∨ RelRightOf k a g ∈ rels.

(** The translation component an axis of placement computes. *)
Definition placed_coordinate (axis : Vec3 → f32) (size : PositiveVec3 → f32) (subject anchor : realised) (gap : f32) : f32 :=
  placement_value (axis (lt_translation (rz_transform anchor))) (size (prim_dimensions (ie_primitive (rz_entity anchor))))
    (size (lt_scale (rz_transform anchor))) gap
    (size (prim_dimensions (ie_primitive (rz_entity subject)))) (size (lt_scale (rz_transform subject))).

Definition constraint_holds (scene : CompilationSceneView) (c : ImaginationConstraint) : Prop :=
  match c with
  | EntityExists id => id ∈ sv_entity_ids scene
  | EntityAbsent id => id ∉ sv_entity_ids scene
  end.

(** Following parent relations from a key ends. *)
Inductive rooted (rels : list ImaginationRelation) : SceneText → Prop :=
| rooted_root k : (∀ q, RelParent k q ∉ rels) → rooted rels k
| rooted_child k q : RelParent k q ∈ rels → rooted rels q → rooted rels k.

Record realisation (im : ImaginationEnvelope) (scene : CompilationSceneView) (p : ScenePatch) (rows : list realised) : Prop := {
  rz_entities : rz_entity <$> rows ≡ₚ im_entities im;
  rz_ids : NoDup (rz_id <$> rows);
  rz_fresh r : r ∈ rows → rz_id r ∉ sv_entity_ids scene;
  rz_links : ∃ links, patch_operations p = (realised_create <$> rows) ++ links ∧
    ∀ op, op ∈ links ↔ ∃ c q, c ∈ rows ∧ q ∈ rows ∧ RelParent (rz_key c) (rz_key q) ∈ im_relations im ∧
      op = OpReparent (mkReparent (rz_id c) (Some (rz_id q)));
  rz_keys rel : rel ∈ im_relations im → ∃ s a, s ∈ rows ∧ a ∈ rows ∧ s ≠ a ∧ relation_keys rel = (rz_key s, rz_key a);
  rz_subjects : NoDup ((λ rel, (relation_keys rel).1) <$> im_relations im);
  rz_rooted r : r ∈ rows → rooted (im_relations im) (rz_key r);
  rz_frames rel q : rel ∈ im_relations im → adds_patch_operation rel = false →
    RelParent (relation_keys rel).2 q ∉ im_relations im;
  rz_kept r : r ∈ rows →
    lt_rotation (rz_transform r) = lt_rotation (requested_transform (rz_entity r)) ∧
    lt_scale (rz_transform r) = lt_scale (requested_transform (rz_entity r));
  rz_still r : r ∈ rows → ¬ is_placed (im_relations im) (rz_key r) → rz_transform r = requested_transform (rz_entity r);
  rz_above s a g : s ∈ rows → a ∈ rows → RelAbove (rz_key s) (rz_key a) g ∈ im_relations im →
    ∃ y, finite_f32_new (placed_coordinate v3_y pv3_y s a g) = Ok y ∧
      lt_translation (rz_transform s)
      = mkVec3 (v3_x (lt_translation (rz_transform a))) y (v3_z (lt_translation (rz_transform a)));
  rz_right_of s a g : s ∈ rows → a ∈ rows → RelRightOf (rz_key s) (rz_key a) g ∈ im_relations im →
    ∃ x, finite_f32_new (placed_coordinate v3_x pv3_x s a g) = Ok x ∧
      lt_translation (rz_transform s)
      = mkVec3 x (v3_y (lt_translation (rz_transform a))) (v3_z (lt_translation (rz_transform a)));
  rz_constraints c : c ∈ im_constraints im → constraint_holds scene c;
}.

Lemma check_scene_constraints_nil scene i cs :
  check_scene_constraints scene i cs = [] → ∀ c, c ∈ cs → constraint_holds scene c.
Proof.
  revert i. induction cs as [|c cs IH]; intros i Hn x Hx; [by apply not_elem_of_nil in Hx|].
  cbn [check_scene_constraints] in Hn. apply app_nil in Hn as [Hc Hn].
  apply elem_of_cons in Hx as [->|Hx]; [|by eapply IH].
  unfold sv_contains in Hc. destruct c; case_bool_decide; done.
Qed.

Lemma placed_above h a g v : placed_translation h a (Above g) = Some v →
  ∃ y, finite_f32_new (placement_value (v3_y (lt_translation (ep_transform a))) (pv3_y (prim_dimensions (ep_primitive a)))
      (pv3_y (lt_scale (ep_transform a))) g (pv3_y (prim_dimensions (ep_primitive h))) (pv3_y (lt_scale (ep_transform h)))) = Ok y ∧
    v = mkVec3 (v3_x (lt_translation (ep_transform a))) y (v3_z (lt_translation (ep_transform a))).
Proof.
  unfold placed_translation. cbv zeta. generalize (placement_value (v3_y (lt_translation (ep_transform a)))
    (pv3_y (prim_dimensions (ep_primitive a))) (pv3_y (lt_scale (ep_transform a))) g
    (pv3_y (prim_dimensions (ep_primitive h))) (pv3_y (lt_scale (ep_transform h)))). intros value.
  destruct (finite_f32_new value) as [y| | |]; intros [= <-]. eauto.
Qed.

Lemma placed_right_of h a g v : placed_translation h a (RightOf g) = Some v →
  ∃ x, finite_f32_new (placement_value (v3_x (lt_translation (ep_transform a))) (pv3_x (prim_dimensions (ep_primitive a)))
      (pv3_x (lt_scale (ep_transform a))) g (pv3_x (prim_dimensions (ep_primitive h))) (pv3_x (lt_scale (ep_transform h)))) = Ok x ∧
    v = mkVec3 x (v3_y (lt_translation (ep_transform a))) (v3_z (lt_translation (ep_transform a))).
Proof.
  unfold placed_translation. cbv zeta. generalize (placement_value (v3_x (lt_translation (ep_transform a)))
    (pv3_x (prim_dimensions (ep_primitive a))) (pv3_x (lt_scale (ep_transform a))) g
    (pv3_x (prim_dimensions (ep_primitive h))) (pv3_x (lt_scale (ep_transform h)))). intros value.
  destruct (finite_f32_new value) as [x| | |]; intros [= <-]. eauto.
Qed.

Section realise.
Context (im : ImaginationEnvelope) (limits : RuntimeLimits) (scene : CompilationSceneView) (ids : list N).
Context (held plans : list EntityPlan).
Context (Him : imagination_admissible im limits) (Hids : fresh_ids im scene ids).
Context (Hr : resolved (plans_of (sorted_entities im) ids) (im_relations im) held plans).

Definition realised_rows : list realised :=
  zip_with (λ e p, mkRealised e (ep_entity_id p) (ep_transform p)) (sorted_entities im) plans.

Abbreviation rows := realised_rows.

(** Position [i] of the entities, the held plans and the resolved plans. *)
Definition at_position (i : nat) (e : ImaginedEntity) (h p : EntityPlan) : Prop :=
  sorted_entities im !! i = Some e ∧ held !! i = Some h ∧ plans !! i = Some p ∧
  realises e (ep_entity_id p) h p ∧ rows !! i = Some (mkRealised e (ep_entity_id p) (ep_transform p)).

Lemma at_plan i p : plans !! i = Some p → ∃ e h, at_position i e h p.
Proof.
  intros Hp. destruct (resolved_realises _ _ _ _ _ _ _ Hr Hp) as (e & id & h & He & _ & Hh & Hre).
  exists e, h. split_and!; try done; [by destruct Hre; split|].
  unfold realised_rows. by rewrite lookup_zip_with, He; cbn; rewrite Hp.
Qed.

Lemma at_row r : r ∈ rows → ∃ i e h p, at_position i e h p ∧ r = mkRealised e (ep_entity_id p) (ep_transform p).
Proof.
  intros [i Hi]%list_elem_of_lookup. pose proof Hi as Hi'. unfold realised_rows in Hi'.
  apply lookup_zip_with_Some in Hi' as (e & p & -> & He & Hp).
  destruct (at_plan i p Hp) as (e' & h & Hat). assert (e' = e) as -> by (destruct Hat; congruence). eauto 10.
Qed.

Lemma at_held i h : held !! i = Some h → ∃ e p, at_position i e h p.
Proof.
  intros Hh. destruct (lookup_lt_is_Some_2 plans i) as [p Hp].
  { rewrite (rs_length _ _ _ _ Hr). by eapply lookup_lt_Some. }
  destruct (at_plan i p Hp) as (e & h' & Hat). assert (h' = h) as -> by (destruct Hat as (_ & ? & _); congruence). eauto.
Qed.

Lemma at_key i e h p : at_position i e h p → ep_key h = ie_key e ∧ ep_key p = ie_key e.
Proof. intros (_ & _ & _ & Hre & _). split; apply Hre. Qed.

Lemma at_inj i j e h p e' h' p' : at_position i e h p → at_position j e' h' p' → ie_key e = ie_key e' → i = j.
Proof.
  intros (He & _) (He' & _) Hk. eapply (NoDup_lookup (ie_key <$> sorted_entities im)).
  - rewrite (sorted_entities_perm im). apply Him.
  - by rewrite list_lookup_fmap, He.
  - by rewrite list_lookup_fmap, He', Hk.
Qed.

(** The plan that holds a relation. *)
Lemma relation_holder rel : rel ∈ im_relations im →
  ∃ i e h p, at_position i e h p ∧
    ((∃ k, rel = RelParent (ie_key e) k ∧ ep_parent h = Some k ∧ k ≠ ie_key e ∧ k ∈ keys_of plans) ∨
     (∃ pl, rel = placement_relation (ie_key e) pl ∧ ep_placement h = Some pl ∧ pl_anchor pl ≠ ie_key e ∧ pl_anchor pl ∈ keys_of plans)).
Proof.
  intros [r Hrel]%list_elem_of_lookup. pose proof (rs_holds _ _ _ _ Hr) as Has.
  destruct (as_complete _ _ _ _ Has eq_refl r) as (h & Hh & Hpr); [by eapply lookup_lt_Some|].
  pose proof (as_holds _ _ _ _ Has) as Hholds. rewrite Forall_forall in Hholds. specialize (Hholds h Hh).
  apply list_elem_of_lookup in Hh as [i Hi]. destruct (at_held i h Hi) as (e & p & Hat).
  exists i, e, h, p. split; [done|]. destruct (at_key _ _ _ _ Hat) as [<- _].
  assert (keys_of plans = keys_of (plans_of (sorted_entities im) ids)) as ->.
  { rewrite plans_of_keys by apply Hids. apply (resolved_keys _ _ (fi_length _ _ _ Hids) _ _ _ Hr). }
  unfold plan_relation in Hpr. destruct Hholds as [? Hn Hp|k r' Hk Hn Hp Hrel' Hin Hne|pl r' ? Hn Hp Hidx Hrel' Hin Hne].
  - by rewrite Hp, Hn in Hpr.
  - rewrite Hp, Hn in Hpr. injection Hpr as Hpr. assert (r' = r) as -> by lia. left. exists k. split_and!; try done. congruence.
  - rewrite Hp, Hidx in Hpr. injection Hpr as Hpr. assert (r' = r) as -> by lia. right. exists pl. split_and!; try done. congruence.
Qed.

Lemma key_row k : k ∈ keys_of plans → ∃ i e h p, at_position i e h p ∧ ie_key e = k.
Proof.
  intros (p & -> & [i Hi]%list_elem_of_lookup)%list_elem_of_fmap. destruct (at_plan i p Hi) as (e & h & Hat).
  exists i, e, h, p. split; [done|]. symmetry. by eapply at_key.
Qed.

Lemma at_in_rows i e h p : at_position i e h p → mkRealised e (ep_entity_id p) (ep_transform p) ∈ rows.
Proof. intros (_ & _ & _ & _ & Hrow). by eapply list_elem_of_lookup_2. Qed.

Lemma plan_id_at i e h p : at_position i e h p → plan_id plans (ie_key e) = ep_entity_id p.
Proof.
  intros Hat. eapply (plan_id_spec im limits ids held plans Him (fi_length _ _ _ Hids) Hr).
  - destruct Hat as (_ & _ & Hp & _). by eapply list_elem_of_lookup_2.
  - by eapply at_key.
Qed.

(** The two relations of a placed plan to its anchor. *)
Lemma placed_anchor i e h p pl : at_position i e h p → ep_placement h = Some pl →
  ∃ j ea ha pa v, at_position j ea ha pa ∧ ie_key ea = pl_anchor pl ∧
    placed_translation h pa (pl_kind pl) = Some v ∧ p = with_translation h v.
Proof.
  intros Hat Hpl. destruct Hat as (He & Hh & Hp & _). pose proof (rs_placed _ _ _ _ Hr i p Hp) as Hplaced.
  inversion Hplaced as [? e' He' Hn| | | |? e' pl' j a v He' Hpl' Hj Ha Hrot Hv]; subst; [congruence|].
  assert (e' = h) as -> by congruence. assert (pl' = pl) as -> by congruence.
  assert (NoDup (keys_of held)) as Hnd.
  { rewrite (held_keys im ids held plans (fi_length _ _ _ Hids) Hr).
    by apply (patch_keys_nodup im limits ids held plans Him (fi_length _ _ _ Hids) Hr). }
  apply key_index_lookup in Hj as (q & Hq & Hqk); [|done].
  destruct (at_held j q Hq) as (ea & pa & Hat). exists j, ea, q, pa, v.
  assert (pa = a) as -> by (destruct Hat as (_ & _ & Hpa & _); apply (rs_placed _ _ _ _ Hr) in Hpa;
    pose proof (placed_det held _ _ _ Hpa Ha); congruence).
  split_and!; try done. by rewrite <-(proj1 (at_key _ _ _ _ Hat)).
Qed.

Lemma placement_at s a pl : s ∈ rows → a ∈ rows →
  placement_relation (rz_key s) pl ∈ im_relations im → pl_anchor pl = rz_key a →
  ∃ h pa v, placed_translation h pa (pl_kind pl) = Some v ∧ lt_translation (rz_transform s) = v ∧
    rz_transform a = ep_transform pa ∧ ie_primitive (rz_entity a) = ep_primitive pa ∧
    ie_primitive (rz_entity s) = ep_primitive h ∧ lt_scale (rz_transform s) = lt_scale (ep_transform h).
Proof.
  intros (i & e & h & p & Hat & ->)%at_row (j & ea & ha & pa & Hata & ->)%at_row Hrel Hanchor.
  unfold rz_key in *. cbn [rz_entity rz_transform] in *.
  destruct (relation_holder _ Hrel) as (i' & e' & h' & p' & Hat' & [(k & Hk & _)|(pl' & Hk & Hpl & _)]).
  { unfold placement_relation in Hk. by destruct (pl_kind pl). }
  assert (ie_key e = ie_key e' ∧ pl_anchor pl = pl_anchor pl' ∧ pl_kind pl = pl_kind pl') as (Hke & Hka & Hkk).
  { unfold placement_relation in Hk. destruct (pl_kind pl), (pl_kind pl'); by simplify_eq. }
  assert (i = i') as <- by (by eapply at_inj).
  assert (h' = h) as -> by (destruct Hat as (_ & ? & _), Hat' as (_ & ? & _); congruence).
  destruct (placed_anchor _ _ _ _ _ Hat Hpl) as (j' & ea' & ha' & pa' & v & Hata' & Hkey & Hv & Hp).
  assert (j = j') as <-.
  { eapply at_inj; [exact Hata|exact Hata'|]. rewrite Hkey, <-Hka. by symmetry. }
  assert (pa' = pa) as -> by (destruct Hata as (_ & _ & ? & _), Hata' as (_ & _ & ? & _); congruence).
  exists h, pa, v. rewrite Hkk. destruct Hata as (_ & _ & _ & Hra & _), Hat as (_ & _ & _ & Hre & _).
  split_and!; try done; [by rewrite Hp|symmetry; apply Hra|symmetry; rewrite Hp in Hre; apply (re_primitive _ _ _ _ Hre)|by rewrite Hp].
Qed.

(** An entity is the subject of one relation at most. *)
Lemma relation_subjects : NoDup ((λ rel, (relation_keys rel).1) <$> im_relations im).
Proof.
  apply NoDup_alt. intros r1 r2 k H1 H2. rewrite list_lookup_fmap in H1, H2.
  apply fmap_Some in H1 as (rel1 & H1 & ->), H2 as (rel2 & H2 & Hk).
  pose proof (rs_holds _ _ _ _ Hr) as Has.
  assert (∀ r rel, im_relations im !! r = Some rel → ∃ h, h ∈ held ∧ ep_key h = (relation_keys rel).1 ∧
    plan_relation h = Some (N.of_nat r)) as Hholder.
  { intros r rel Hrel. destruct (as_complete _ _ _ _ Has eq_refl r) as (h & Hh & Hpr); [by eapply lookup_lt_Some|].
    exists h. split_and!; [done| |done]. pose proof (as_holds _ _ _ _ Has) as Hholds. rewrite Forall_forall in Hholds.
    unfold plan_relation in Hpr. destruct (Hholds h Hh) as [? Hn Hp|k r' Hkk Hn Hp Hrel' ? ?|pl r' ? Hn Hp Hidx Hrel' ? ?];
      rewrite Hp, ?Hn, ?Hidx in Hpr; [done|..]; injection Hpr as Hpr; assert (r' = r) as -> by lia; rewrite Hrel in Hrel';
      injection Hrel' as ->; [done|]. unfold placement_relation. by destruct (pl_kind pl). }
  destruct (Hholder _ _ H1) as (h1 & Hh1 & K1 & P1), (Hholder _ _ H2) as (h2 & Hh2 & K2 & P2).
  apply list_elem_of_lookup in Hh1 as [i1 I1], Hh2 as [i2 I2].
  destruct (at_held _ _ I1) as (e1 & p1 & A1), (at_held _ _ I2) as (e2 & p2 & A2).
  assert (i1 = i2) as <-.
  { eapply at_inj; [exact A1|exact A2|]. rewrite <-(proj1 (at_key _ _ _ _ A1)), <-(proj1 (at_key _ _ _ _ A2)). congruence. }
  assert (h1 = h2) as <- by congruence. rewrite P1 in P2. injection P2 as P2. lia.
Qed.

Lemma held_parent i e h p k : at_position i e h p → ep_parent h = Some k ↔ RelParent (ie_key e) k ∈ im_relations im.
Proof.
  intros Hat. split.
  - intros Hk. pose proof (as_holds _ _ _ _ (rs_holds _ _ _ _ Hr)) as Hholds. rewrite Forall_forall in Hholds.
    rewrite <-(proj1 (at_key _ _ _ _ Hat)). destruct Hat as (_ & Hh & _).
    destruct (Hholds h) as [|k' r Hk' ? ? Hrel|]; [by eapply list_elem_of_lookup_2|congruence| |congruence].
    assert (k' = k) as -> by congruence. by eapply list_elem_of_lookup_2.
  - intros Hrel. destruct (relation_holder _ Hrel) as (i' & e' & h' & p' & Hat' & [(k' & [= Hke <-] & Hk & _)|(pl & Hk & _)]).
    2:{ unfold placement_relation in Hk. by destruct (pl_kind pl). }
    assert (i = i') as <- by (by eapply at_inj). destruct Hat as (_ & Hh & _), Hat' as (_ & Hh' & _). congruence.
Qed.

Lemma rows_rooted r : r ∈ rows → rooted (im_relations im) (rz_key r).
Proof.
  intros (i & e & h & p & Hat & ->)%at_row. unfold rz_key. cbn [rz_entity].
  destruct (rs_parents _ _ _ _ Hr i) as (n & Hends & _).
  { destruct Hat as (_ & Hh & _). by eapply lookup_lt_Some. }
  revert e h p Hat. induction Hends as [i q Hq Hs|n i j Hstep _ IH]; intros e h p Hat.
  - apply rooted_root. intros k Hk%(held_parent _ _ _ _ _ Hat). destruct Hat as (_ & Hh & _).
    assert (q = h) as -> by congruence. unfold succ_parent in Hs. rewrite Hk in Hs.
    pose proof (as_holds _ _ _ _ (rs_holds _ _ _ _ Hr)) as Hholds. rewrite Forall_forall in Hholds.
    destruct (Hholds h) as [|k' r' ? Hpr|]; [by eapply list_elem_of_lookup_2|congruence| |congruence]. by rewrite Hpr in Hs.
  - unfold step in Hstep. destruct (held !! i) as [q|] eqn:Hq; [|done]. cbn in Hstep.
    assert (q = h) as -> by (destruct Hat as (_ & ? & _); congruence).
    unfold succ_parent in Hstep. destruct (ep_parent h) as [k|] eqn:Hk; [|done].
    assert (key_index held !! k = Some j) as Hj by (cbn in Hstep; by destruct (ep_parent_relation h)).
    apply key_index_lookup in Hj as (a & Ha & Hak).
    2:{ rewrite (held_keys im ids held plans (fi_length _ _ _ Hids) Hr).
        by apply (patch_keys_nodup im limits ids held plans Him (fi_length _ _ _ Hids) Hr). }
    destruct (at_held _ _ Ha) as (ea & pa & Hata). eapply rooted_child; [by eapply held_parent|].
    rewrite <-Hak, (proj1 (at_key _ _ _ _ Hata)). by eapply IH.
Qed.

Lemma anchors_free rel q : rel ∈ im_relations im → adds_patch_operation rel = false →
  RelParent (relation_keys rel).2 q ∉ im_relations im.
Proof.
  intros Hrel Hadd Hq. destruct (relation_holder _ Hrel) as (i & e & h & p & Hat & [(k & -> & _)|(pl & -> & Hpl & _ & Hin)]); [done|].
  assert ((relation_keys (placement_relation (ie_key e) pl)).2 = pl_anchor pl) as Hk.
  { unfold placement_relation. by destruct (pl_kind pl). }
  rewrite Hk in Hq. destruct (key_row _ Hin) as (j & ea & ha & pa & Hata & Hka). rewrite <-Hka in Hq.
  apply (held_parent _ _ _ _ _ Hata) in Hq.
  enough (ep_parent ha = None) by congruence.
  eapply (rs_anchors _ _ _ _ Hr h pl).
  - destruct Hat as (_ & Hh & _). by eapply list_elem_of_lookup_2.
  - done.
  - destruct Hata as (_ & Hh & _). by eapply list_elem_of_lookup_2.
  - by rewrite (proj1 (at_key _ _ _ _ Hata)).
Qed.

(** Links are exactly the parent relations. *)
Lemma links_spec op : op ∈ reparents plans plans ↔
  ∃ c q, c ∈ rows ∧ q ∈ rows ∧ RelParent (rz_key c) (rz_key q) ∈ im_relations im ∧
    op = OpReparent (mkReparent (rz_id c) (Some (rz_id q))).
Proof.
  split.
  - intros (p & Hp & (k & Hk & ->)%fmap_Some)%list_elem_of_omap. apply list_elem_of_lookup in Hp as [i Hi].
    destruct (at_plan i p Hi) as (e & h & Hat).
    destruct (plan_parent_known im ids held plans (fi_length _ _ _ Hids) Hr p k) as [Hin _]; [by eapply list_elem_of_lookup_2|done|].
    destruct (key_row k Hin) as (j & ea & ha & pa & Hata & <-). rewrite (plan_id_at _ _ _ _ Hata).
    exists (mkRealised e (ep_entity_id p) (ep_transform p)), (mkRealised ea (ep_entity_id pa) (ep_transform pa)).
    split_and!; [by eapply at_in_rows..| |done]. unfold rz_key. cbn [rz_entity].
    pose proof (as_holds _ _ _ _ (rs_holds _ _ _ _ Hr)) as Hholds. rewrite Forall_forall in Hholds.
    pose proof Hat as (_ & Hh & _ & Hre & _). rewrite (re_parent _ _ _ _ Hre) in Hk. rewrite <-(re_held_key _ _ _ _ Hre).
    destruct (Hholds h) as [|k' r Hk' ? ? Hrel|]; [by eapply list_elem_of_lookup_2|congruence| |congruence].
    assert (k' = ie_key ea) as -> by congruence. by eapply list_elem_of_lookup_2.
  - intros (c & q & (i & e & h & p & Hat & ->)%at_row & (j & ea & ha & pa & Hata & ->)%at_row & Hrel & ->).
    unfold rz_key in Hrel. cbn [rz_entity rz_id] in *.
    destruct (relation_holder _ Hrel) as (i' & e' & h' & p' & Hat' & [(k & [= Hke <-] & Hk & _)|(pl & Hk & _)]).
    2:{ unfold placement_relation in Hk. by destruct (pl_kind pl). }
    assert (i = i') as <- by (by eapply at_inj).
    apply list_elem_of_omap. exists p. destruct Hat as (_ & Hh & Hp & Hre & _), Hat' as (_ & Hh' & _ & _ & _).
    split; [by eapply list_elem_of_lookup_2|]. assert (h' = h) as -> by congruence.
    rewrite (re_parent _ _ _ _ Hre), Hk. cbn. by rewrite (plan_id_at _ _ _ _ Hata).
Qed.

Lemma rows_entities : rz_entity <$> rows = sorted_entities im.
Proof.
  apply list_eq. intros i. rewrite list_lookup_fmap. unfold realised_rows. rewrite lookup_zip_with.
  destruct (sorted_entities im !! i) as [e|] eqn:He; [|done].
  destruct (lookup_lt_is_Some_2 plans i) as [p Hp]; [|cbn; by rewrite Hp].
  rewrite (resolved_length _ _ (fi_length _ _ _ Hids) _ _ _ Hr). by eapply lookup_lt_Some.
Qed.

(** A field of the rows, from the plans. *)
Lemma rows_fmap {A} (f : realised → A) (g : EntityPlan → A) :
  (∀ i e h p, at_position i e h p → f (mkRealised e (ep_entity_id p) (ep_transform p)) = g p) → f <$> rows = g <$> plans.
Proof.
  intros Hfg. apply list_eq. intros i. rewrite !list_lookup_fmap. destruct (plans !! i) as [p|] eqn:Hp.
  - destruct (at_plan i p Hp) as (e & h & Hat). pose proof (Hfg _ _ _ _ Hat) as Hf.
    destruct Hat as (_ & _ & _ & _ & ->). cbn. by rewrite Hf.
  - unfold realised_rows. rewrite lookup_zip_with, Hp. by destruct (sorted_entities im !! i).
Qed.

Lemma rows_creates : realised_create <$> rows = create_operation <$> plans.
Proof.
  apply rows_fmap. intros i e h p (_ & _ & _ & Hre & _). unfold realised_create, create_operation. cbn [rz_id rz_entity rz_transform].
  by rewrite (re_name _ _ _ _ Hre), (re_primitive _ _ _ _ Hre), (re_material _ _ _ _ Hre).
Qed.

Lemma rows_ids : rz_id <$> rows = ids.
Proof.
  rewrite <-(resolved_ids _ _ (fi_length _ _ _ Hids) _ _ _ Hr). by apply rows_fmap.
Qed.

Lemma rows_still r : r ∈ rows → ¬ is_placed (im_relations im) (rz_key r) → rz_transform r = requested_transform (rz_entity r).
Proof.
  intros (i & e & h & p & Hat & ->)%at_row Hn. unfold rz_key in Hn. cbn [rz_transform rz_entity] in *.
  destruct (ep_placement h) as [pl|] eqn:Hpl.
  - exfalso. apply Hn. pose proof (as_holds _ _ _ _ (rs_holds _ _ _ _ Hr)) as Hholds. rewrite Forall_forall in Hholds.
    rewrite <-(proj1 (at_key _ _ _ _ Hat)). destruct Hat as (_ & Hh & _).
    destruct (Hholds h) as [| |pl' r _ _ Hpl' _ Hrel _ _]; [by eapply list_elem_of_lookup_2|congruence..|].
    apply list_elem_of_lookup_2 in Hrel. unfold placement_relation in Hrel. unfold is_placed.
    destruct (pl_kind pl'); eauto.
  - destruct Hat as (He & Hh & Hp & Hre & _). pose proof (rs_placed _ _ _ _ Hr i p Hp) as Hplaced.
    inversion Hplaced as [? e' He' _| | | |? e' pl j a v He' Hpl' _ _ _ _]; subst; [|congruence].
    assert (p = h) as -> by congruence.
    assert (plans_of (sorted_entities im) ids !! i = Some (core h)) as Hb.
    { rewrite <-(as_core _ _ _ _ (rs_holds _ _ _ _ Hr)), list_lookup_fmap, Hh. done. }
    apply plans_of_lookup in Hb as (e2 & id & He2 & _ & Hc). assert (e2 = e) as -> by congruence.
    exact (f_equal ep_transform Hc).
Qed.

Lemma rows_above s a g : s ∈ rows → a ∈ rows → RelAbove (rz_key s) (rz_key a) g ∈ im_relations im →
  ∃ y, finite_f32_new (placed_coordinate v3_y pv3_y s a g) = Ok y ∧
    lt_translation (rz_transform s)
    = mkVec3 (v3_x (lt_translation (rz_transform a))) y (v3_z (lt_translation (rz_transform a))).
Proof.
  intros Hs Ha Hrel. destruct (placement_at s a (mkPlacement 0 (rz_key a) (Above g)) Hs Ha Hrel eq_refl)
    as (h & pa & v & Hv & -> & Ha' & Hda & Hds & Hsc).
  apply placed_above in Hv as (y & Hy & ->). unfold placed_coordinate. rewrite Ha', Hda, Hds, Hsc. eauto.
Qed.

Lemma rows_right_of s a g : s ∈ rows → a ∈ rows → RelRightOf (rz_key s) (rz_key a) g ∈ im_relations im →
  ∃ x, finite_f32_new (placed_coordinate v3_x pv3_x s a g) = Ok x ∧
    lt_translation (rz_transform s)
    = mkVec3 x (v3_y (lt_translation (rz_transform a))) (v3_z (lt_translation (rz_transform a))).
Proof.
  intros Hs Ha Hrel. destruct (placement_at s a (mkPlacement 0 (rz_key a) (RightOf g)) Hs Ha Hrel eq_refl)
    as (h & pa & v & Hv & -> & Ha' & Hda & Hds & Hsc).
  apply placed_right_of in Hv as (x & Hx & ->). unfold placed_coordinate. rewrite Ha', Hda, Hds, Hsc. eauto.
Qed.

(** Resolved plans realise the imagination. *)
Lemma resolved_realisation : check_scene_constraints scene 0 (im_constraints im) = [] →
  realisation im scene (patch_of im plans) rows.
Proof.
  intros Hpre. split.
  - by rewrite rows_entities, (sorted_entities_perm im).
  - rewrite rows_ids. apply Hids.
  - intros r Hin. apply (fi_scene _ _ _ Hids). rewrite <-rows_ids. by apply list_elem_of_fmap_2.
  - exists (reparents plans plans). split; [by rewrite rows_creates|apply links_spec].
  - intros rel (i & e & h & p & Hat & Hrel)%relation_holder.
    assert (∃ k, relation_keys rel = (ie_key e, k) ∧ k ≠ ie_key e ∧ k ∈ keys_of plans) as (k & Hk & Hne & Hin).
    { destruct Hrel as [(k & -> & _ & ? & ?)|(pl & -> & _ & ? & ?)]; [by exists k|exists (pl_anchor pl)].
      unfold placement_relation. by destruct (pl_kind pl). }
    destruct (key_row k Hin) as (j & ea & ha & pa & Hata & <-).
    exists (mkRealised e (ep_entity_id p) (ep_transform p)), (mkRealised ea (ep_entity_id pa) (ep_transform pa)).
    split_and!; [by eapply at_in_rows|by eapply at_in_rows| |exact Hk].
    intros [= -> _ _]. done.
  - apply relation_subjects.
  - apply rows_rooted.
  - apply anchors_free.
  - intros r (i & e & h & p & (_ & _ & _ & Hre & _) & ->)%at_row. split; apply Hre.
  - apply rows_still.
  - apply rows_above.
  - apply rows_right_of.
  - by eapply check_scene_constraints_nil.
Qed.

End realise.
