(* ===== verification/CompilerApply.v ===== *)
(** * Compiled patches apply

    The composition of the compiler with the world: a compiled patch is typed,
    its operations succeed on the scene it was compiled for unless the entity
    capacity is reached, and the hierarchy it produces has no cycle and no
    dangling parent. *)

From S2P Require Import Prelude Machine Ordering BTree Floats Values Components Messages MessageSpec Imagination ImaginationSpec Ecs WorldTypes Hierarchy Affected World Codec Compilation SceneSpec CommitRefine WorldInvariant WorldApply Hash Compiler CompilerPlans CompilerCycles CompilerPasses CompilerPatch CompilerReport CompilerOutcome CompilerMeaning.

Open Scope N_scope.

(** ** Typed imaginations *)

(** What the protocol types guarantee of an imagined entity. *)
Record typed_imagined (e : ImaginedEntity) : Prop := {
  te_key : typed_text (ie_key e);
  te_name : from_option typed_text True (ie_name e);
  te_transform : from_option (λ t, typed_component (CLocalTransform t)) True (ie_transform e);
  te_primitive : typed_component (CPrimitive (ie_primitive e));
  te_material : from_option (λ m, typed_component (CMaterial m)) True (ie_material e);
  te_preferred : from_option typed_id True (ie_preferred_id e);
}.

Lemma f32_normal_form_check b :
  (b <? 4294967296) && f32_is_finite b && negb (b =? f32_neg_zero) = true → f32_normal_form b.
Proof. rewrite !andb_true_iff, negb_true_iff, N.eqb_neq, N.ltb_lt. intros [[? ?] ?]. split_and!; done. Qed.

Lemma identity_transform_typed : typed_component (CLocalTransform identity_transform).
Proof. split; [|done]. cbn. repeat apply Forall_cons_2; try apply Forall_nil_2; by apply f32_normal_form_check. Qed.

Lemma neutral_material_typed : typed_component (CMaterial neutral_material).
Proof. split; [|done]. cbn. repeat apply Forall_cons_2; try apply Forall_nil_2; by apply f32_normal_form_check. Qed.

Lemma requested_typed e : typed_imagined e → typed_component (CLocalTransform (requested_transform e)).
Proof.
  intros He. unfold requested_transform. pose proof (te_transform _ He) as Ht.
  destruct (ie_transform e); [exact Ht|apply identity_transform_typed].
Qed.

Lemma typed_translation t v :
  typed_component (CLocalTransform t) → f32_normal_form (v3_x v) → f32_normal_form (v3_y v) → f32_normal_form (v3_z v) →
  typed_component (CLocalTransform (mkLocalTransform v (lt_rotation t) (lt_scale t))).
Proof.
  destruct t as [u r s]. intros [Hf _] Hx Hy Hz. split; [|done]. cbn [component_f32s lt_rotation lt_scale] in *.
  do 3 apply Forall_cons_1 in Hf as [_ Hf]. do 3 (apply Forall_cons_2; [done|]). exact Hf.
Qed.

Lemma translation_typed t : typed_component (CLocalTransform t) →
  f32_normal_form (v3_x (lt_translation t)) ∧ f32_normal_form (v3_y (lt_translation t)) ∧ f32_normal_form (v3_z (lt_translation t)).
Proof. destruct t as [u r s]. intros [Hf _]. cbn [component_f32s lt_translation] in *. rewrite !Forall_cons in Hf. naive_solver. Qed.

Lemma placement_value_bits a b c d e f : f32_bits (placement_value a b c d e f).
Proof. apply f32_of_spec_bits. Qed.

Lemma finite_f32_normal v w : f32_bits v → finite_f32_new v = Ok w → f32_normal_form w.
Proof. intros Hv Hw. by destruct (float_value_new_ok _ _ v w Hv Hw). Qed.

Lemma placed_translation_typed h a k v :
  typed_component (CLocalTransform (ep_transform a)) → placed_translation h a k = Some v →
  f32_normal_form (v3_x v) ∧ f32_normal_form (v3_y v) ∧ f32_normal_form (v3_z v).
Proof.
  intros (Hx & Hy & Hz)%translation_typed. destruct k as [g|g].
  - intros (y & Hn & ->)%placed_above. apply finite_f32_normal in Hn; [done|apply placement_value_bits].
  - intros (x & Hn & ->)%placed_right_of. apply finite_f32_normal in Hn; [done|apply placement_value_bits].
Qed.

Lemma placed_typed held i p :
  Forall (λ h, typed_component (CLocalTransform (ep_transform h))) held → placed held i (inl p) →
  typed_component (CLocalTransform (ep_transform p)).
Proof.
  intros Hh Hp. remember (inl p) as r eqn:Hr. revert p Hr. rewrite Forall_forall in Hh.
  induction Hp as [i e He _| | | |i e pl j a v He Hpl Hj Ha IH Hrot Hv]; intros p [= <-].
  - apply Hh. by eapply list_elem_of_lookup_2.
  - destruct (placed_translation_typed _ _ _ _ (IH a eq_refl) Hv) as (? & ? & ?).
    apply typed_translation; try done. apply Hh. by eapply list_elem_of_lookup_2.
Qed.

(** ** The operations on a scene *)

Definition realised_row (r : realised) : Row :=
  match realised_create r with OpCreate c => create_row c | _ => row_empty end.

Definition add_rows (rows : list realised) (m : gmap N Row) : gmap N Row :=
  foldl (λ m r, <[rz_id r := realised_row r]> m) m rows.

Lemma add_rows_lookup_ne rows m x : (∀ r, r ∈ rows → rz_id r ≠ x) → add_rows rows m !! x = m !! x.
Proof.
  revert m. induction rows as [|r rows IH]; intros m Hx; [done|]. cbn [add_rows foldl]. unfold add_rows in IH.
  rewrite IH by (intros r' Hr'; apply Hx; by apply elem_of_cons; right).
  apply lookup_insert_ne, Hx. by apply elem_of_cons; left.
Qed.

Lemma add_rows_lookup rows m r : NoDup (rz_id <$> rows) → r ∈ rows → add_rows rows m !! rz_id r = Some (realised_row r).
Proof.
  revert m. induction rows as [|x rows IH]; intros m; [by intros _ ?%not_elem_of_nil|].
  rewrite fmap_cons. intros [Hx Hnd]%NoDup_cons. cbn [add_rows foldl]. intros [->|Hr]%elem_of_cons; [|by apply IH].
  fold (add_rows rows (<[rz_id x := realised_row x]> m)). rewrite add_rows_lookup_ne; [apply lookup_insert_eq|].
  intros r Hr Heq. apply Hx. rewrite <-Heq. by apply list_elem_of_fmap_2.
Qed.

Lemma add_rows_is_Some rows m x : is_Some (m !! x) → is_Some (add_rows rows m !! x).
Proof.
  revert m. induction rows as [|r rows IH]; intros m Hm; [done|]. cbn [add_rows foldl]. apply IH.
  destruct (decide (rz_id r = x)) as [<-|Hne]; [rewrite lookup_insert_eq; eauto|by rewrite lookup_insert_ne].
Qed.

Lemma spec_creates capacity parents rows m index rest :
  NoDup (rz_id <$> rows) → (∀ r, r ∈ rows → m !! rz_id r = None) →
  spec_operations capacity (mkScene m parents) index ((realised_create <$> rows) ++ rest)
  = spec_operations capacity (mkScene (add_rows rows m) parents) (index + length rows) rest ∨
  ∃ i x, spec_operations capacity (mkScene m parents) index ((realised_create <$> rows) ++ rest)
    = Err (EntityCapacityExceeded i x capacity).
Proof.
  revert m index. induction rows as [|r rows IH]; intros m index; [intros _ _; left; by rewrite Nat.add_0_r|].
  rewrite fmap_cons. intros [Hx Hnd]%NoDup_cons Hm. cbn [app spec_operations spec_operation realised_create create_id sc_rows sc_parents fmap list_fmap].
  rewrite Hm by by apply elem_of_cons; left. destruct (capacity <? _); cbn [out_bind]; [right; eauto|].
  destruct (IH (<[rz_id r := realised_row r]> m) (S index) Hnd) as [Heq|(i & x & Heq)].
  - intros r' Hr'. rewrite lookup_insert_ne; [apply Hm; by apply elem_of_cons; right|].
    intros Heq. apply Hx. rewrite Heq. by apply list_elem_of_fmap_2.
  - left. cbn [length]. rewrite Nat.add_succ_r. exact Heq.
  - right. eauto.
Qed.

(** A reparent to a new parent. *)
Definition is_link (op : SceneOperation) (c q : N) : Prop := op = OpReparent (mkReparent c (Some q)).

Definition link (m : parent_map) (op : SceneOperation) : parent_map :=
  match op with OpReparent (mkReparent c (Some q)) => <[c := q]> m | _ => m end.

Lemma spec_links capacity m parents index links :
  (∀ op, op ∈ links → ∃ c q, is_link op c q ∧ is_Some (m !! c) ∧ is_Some (m !! q)) →
  spec_operations capacity (mkScene m parents) index links = Ok (mkScene m (foldl link parents links)).
Proof.
  revert parents index. induction links as [|op links IH]; intros parents index Hl; [done|].
  destruct (Hl op) as (c & q & -> & [rc Hc] & [rq Hq]); [by apply elem_of_cons; left|].
  cbn [spec_operations spec_operation reparent_id reparent_parent sc_rows sc_parents foldl link]. rewrite Hc, Hq. cbn [out_bind].
  apply IH. intros op Hop. apply Hl. by apply elem_of_cons; right.
Qed.

Lemma links_lookup_ne links parents x :
  (∀ op c q, op ∈ links → is_link op c q → c ≠ x) → foldl link parents links !! x = parents !! x.
Proof.
  revert parents. induction links as [|op links IH]; intros parents Hl; [done|]. cbn [foldl].
  rewrite IH by (intros o c q Ho; apply Hl; by apply elem_of_cons; right).
  unfold link. destruct op as [| | | |[c [q|]]]; try done. apply lookup_insert_ne.
  eapply Hl; [by apply elem_of_cons; left|done].
Qed.

Lemma links_lookup links parents c q :
  (∀ op q', op ∈ links → is_link op c q' → q' = q) → (∃ op, op ∈ links ∧ is_link op c q) →
  foldl link parents links !! c = Some q.
Proof.
  induction links as [|op links IH] using rev_ind; intros Hf (o & Ho & Hq); [by apply not_elem_of_nil in Ho|].
  rewrite foldl_app. cbn [foldl].
  assert (is_link op c q ∨ ∃ o', o' ∈ links ∧ is_link o' c q) as Hcase.
  { apply elem_of_app in Ho as [Ho|Ho%list_elem_of_singleton]; [right; eauto|left; congruence]. }
  assert ((∃ q', is_link op c q') ∨ ¬ ∃ q', is_link op c q') as [[q' Hop]|Hn].
  { unfold is_link. destruct op as [| | | |[c' [q'|]]]; [by right; intros [? [=]]..| |by right; intros [? [=]]].
    destruct (decide (c' = c)) as [->|Hne]; [left; eauto|right; intros [? [=]]; done]. }
  - assert (q' = q) as -> by (eapply Hf; [apply elem_of_app; right; by apply list_elem_of_singleton|done]).
    rewrite Hop. cbn. apply lookup_insert_eq.
  - destruct Hcase as [Hop|Hin]; [by exfalso; eauto|].
    assert (foldl link parents links !! c = Some q) as Hl.
    { apply IH; [|done]. intros o' q' Ho'. apply Hf. apply elem_of_app. by left. }
    unfold link. destruct op as [| | | |[c' [q'|]]]; try done.
    rewrite lookup_insert_ne; [done|]. intros ->. apply Hn. by exists q'.
Qed.

(** What the patch makes of a scene. *)
Record extended (im : ImaginationEnvelope) (rows : list realised) (sc sc' : scene) : Prop := {
  ex_created r : r ∈ rows → sc_rows sc' !! rz_id r = Some (realised_row r);
  ex_kept x : x ∉ rz_id <$> rows → sc_rows sc' !! x = sc_rows sc !! x ∧ sc_parents sc' !! x = sc_parents sc !! x;
  ex_linked c q : c ∈ rows → q ∈ rows → RelParent (rz_key c) (rz_key q) ∈ im_relations im →
    sc_parents sc' !! rz_id c = Some (rz_id q);
  ex_root r : r ∈ rows → (∀ k, RelParent (rz_key r) k ∉ im_relations im) → sc_parents sc' !! rz_id r = None;
}.

Section extend.
Context (im : ImaginationEnvelope) (view : CompilationSceneView) (p : ScenePatch) (rows : list realised) (sc : scene).
Context (Hreal : realisation im view p rows) (Hkeys : NoDup (ie_key <$> im_entities im)).
Context (Hview : sv_entity_ids view = dom (sc_rows sc)).
Context (Hlive : ∀ c q, sc_parents sc !! c = Some q → c ∈ dom (sc_rows sc) ∧ q ∈ dom (sc_rows sc)).

Lemma row_by {A} (f : realised → A) r1 r2 : NoDup (f <$> rows) → r1 ∈ rows → r2 ∈ rows → f r1 = f r2 → r1 = r2.
Proof.
  intros Hnd [i Hi]%list_elem_of_lookup [j Hj]%list_elem_of_lookup Heq.
  assert (i = j) as ->; [|congruence]. eapply (NoDup_lookup (f <$> rows)); [done|..]; rewrite list_lookup_fmap;
    [by rewrite Hi|by rewrite Hj; cbn; rewrite Heq].
Qed.

Lemma row_keys_nodup : NoDup (rz_key <$> rows).
Proof.
  change (NoDup (ie_key ∘ rz_entity <$> rows)). by rewrite list_fmap_compose, (rz_entities _ _ _ _ Hreal).
Qed.

Lemma row_fresh r : r ∈ rows → sc_rows sc !! rz_id r = None.
Proof. intros Hr. apply not_elem_of_dom. rewrite <-Hview. by apply (rz_fresh _ _ _ _ Hreal). Qed.

Lemma subject_unique rel1 rel2 : rel1 ∈ im_relations im → rel2 ∈ im_relations im →
  (relation_keys rel1).1 = (relation_keys rel2).1 → rel1 = rel2.
Proof.
  intros [i Hi]%list_elem_of_lookup [j Hj]%list_elem_of_lookup Heq.
  assert (i = j) as ->; [|congruence]. eapply NoDup_lookup; [apply (rz_subjects _ _ _ _ Hreal)|..]; rewrite list_lookup_fmap;
    [by rewrite Hi|by rewrite Hj; cbn; rewrite Heq].
Qed.

(** The operations succeed unless the entity capacity is reached. *)
Lemma extend_spec capacity :
  (∃ sc', spec_operations capacity sc 0 (patch_operations p) = Ok sc' ∧ extended im rows sc sc') ∨
  (∃ i x, spec_operations capacity sc 0 (patch_operations p) = Err (EntityCapacityExceeded i x capacity)).
Proof.
  destruct (rz_links _ _ _ _ Hreal) as (links & Hops & Hlinks). rewrite Hops.
  pose proof (rz_ids _ _ _ _ Hreal) as Hids. pose proof row_keys_nodup as Hnk.
  pose proof (spec_creates capacity (sc_parents sc) rows (sc_rows sc) 0 links Hids row_fresh) as Hcre.
  rewrite scene_eta in Hcre. destruct Hcre as [->|Herr]; [left|by right].
  eexists. split; [apply spec_links|].
  { intros op (c & q & Hc & Hq & _ & ->)%Hlinks. exists (rz_id c), (rz_id q).
    split; [done|]. rewrite !add_rows_lookup by done. eauto. }
  assert (∀ op c q, op ∈ links → is_link op c q → ∃ rc rq, rc ∈ rows ∧ rq ∈ rows ∧ c = rz_id rc ∧ q = rz_id rq ∧
    RelParent (rz_key rc) (rz_key rq) ∈ im_relations im) as Hl.
  { intros op c q (rc & rq & Hc & Hq & Hrel & ->)%Hlinks [= <- <-]. eauto 10. }
  split; cbn [sc_rows sc_parents].
  - intros r Hr. by apply add_rows_lookup.
  - intros x Hx. split.
    + apply add_rows_lookup_ne. intros r Hr <-. apply Hx. by apply list_elem_of_fmap_2.
    + apply links_lookup_ne. intros op c q Hop Hop2 ->. destruct (Hl _ _ _ Hop Hop2) as (rc & rq & Hrc & _ & -> & _).
      apply Hx. by apply list_elem_of_fmap_2.
  - intros c q Hc Hq Hrel. apply links_lookup.
    + intros op q' Hop Hop2. destruct (Hl _ _ _ Hop Hop2) as (rc & rq & Hrc & Hrq & Heq & -> & Hrel').
      assert (c = rc) as <- by (by eapply (row_by rz_id)).
      assert (RelParent (rz_key c) (rz_key rq) = RelParent (rz_key c) (rz_key q)) as [= Hk] by (by apply subject_unique).
      f_equal. by eapply (row_by rz_key).
    + eexists. split; [apply Hlinks; eauto 10|done].
  - intros r Hr Hn. rewrite links_lookup_ne.
    + destruct (sc_parents sc !! rz_id r) as [q|] eqn:Hq; [|done]. destruct (Hlive _ _ Hq) as [Hd _].
      apply elem_of_dom in Hd as [? Hd]. pose proof (row_fresh r Hr) as Hf. congruence.
    + intros op c q Hop Hop2 ->. destruct (Hl _ _ _ Hop Hop2) as (rc & rq & Hrc & _ & Heq & _ & Hrel).
      assert (r = rc) as <- by (by eapply (row_by rz_id)). by eapply Hn.
Qed.

Lemma extended_parent sc' x q : extended im rows sc sc' → sc_parents sc' !! x = Some q →
  (sc_parents sc !! x = Some q ∧ x ∉ rz_id <$> rows) ∨
  (∃ rc rq, rc ∈ rows ∧ rq ∈ rows ∧ x = rz_id rc ∧ q = rz_id rq ∧ RelParent (rz_key rc) (rz_key rq) ∈ im_relations im).
Proof.
  intros Hex Hx. destruct (decide (x ∈ rz_id <$> rows)) as [Hin|Hn].
  - right. apply list_elem_of_fmap in Hin as (r & -> & Hr).
    assert ((∃ k, RelParent (rz_key r) k ∈ im_relations im) ∨ ∀ k, RelParent (rz_key r) k ∉ im_relations im) as [[k Hk]|Hno].
    { destruct (decide (Exists (λ rel, adds_patch_operation rel = true ∧ (relation_keys rel).1 = rz_key r) (im_relations im)))
        as [He|He].
      - apply Exists_exists in He as (rel & Hrel & Ha & Hk). left. destruct rel as [c q'| |]; try done. cbn in Hk. subst. eauto.
      - right. intros k Hk. apply He, Exists_exists. eexists. split; [exact Hk|done]. }
    + destruct (rz_keys _ _ _ _ Hreal _ Hk) as (s & a & Hs & Ha & _ & [= Hks ->]).
      rewrite (ex_linked _ _ _ _ Hex r a Hr Ha Hk) in Hx. injection Hx as <-. eauto 10.
    + rewrite (ex_root _ _ _ _ Hex r Hr Hno) in Hx. done.
  - left. by rewrite <-(proj2 (ex_kept _ _ _ _ Hex x Hn)).
Qed.

Lemma kept_live sc' x : extended im rows sc sc' → x ∈ dom (sc_rows sc) → x ∈ dom (sc_rows sc') ∧ x ∉ rz_id <$> rows.
Proof.
  intros Hex Hx. assert (x ∉ rz_id <$> rows) as Hn.
  { intros (r & -> & Hr)%list_elem_of_fmap. apply row_fresh in Hr. apply elem_of_dom in Hx as [? Hx]. congruence. }
  split; [|done]. apply elem_of_dom. rewrite (proj1 (ex_kept _ _ _ _ Hex x Hn)). by apply elem_of_dom.
Qed.

Lemma extended_live sc' c q : extended im rows sc sc' → sc_parents sc' !! c = Some q →
  c ∈ dom (sc_rows sc') ∧ q ∈ dom (sc_rows sc').
Proof.
  intros Hex [[Hold _]|(rc & rq & Hrc & Hrq & -> & -> & _)]%(extended_parent _ _ _ Hex).
  - apply Hlive in Hold as [? ?]. split; by apply kept_live.
  - split; apply elem_of_dom; rewrite (ex_created _ _ _ _ Hex) by done; eauto.
Qed.

Lemma extended_acyclic sc' : extended im rows sc sc' → acyclic (sc_parents sc) → acyclic (sc_parents sc').
Proof.
  intros Hex Hac x. destruct (decide (x ∈ rz_id <$> rows)) as [Hin|Hn].
  - apply list_elem_of_fmap in Hin as (r & -> & Hr). pose proof (rz_rooted _ _ _ _ Hreal r Hr) as Hroot.
    remember (rz_key r) as k eqn:Hk. revert r Hr Hk. induction Hroot as [k Hno|k q Hkq _ IH]; intros r Hr ->.
    + exists 0. constructor. by apply (ex_root _ _ _ _ Hex).
    + destruct (rz_keys _ _ _ _ Hreal _ Hkq) as (s & a & Hs & Ha & _ & [= Hks Hka]).
      destruct (IH a Ha Hka) as [d Hd]. exists (d + 1). econstructor; [|exact Hd].
      apply (ex_linked _ _ _ _ Hex); [done..|]. by rewrite <-Hka.
  - destruct (Hac x) as [d Hd]. exists d. induction Hd as [x Hx|x q d Hx _ IH].
    + constructor. by rewrite (proj2 (ex_kept _ _ _ _ Hex x Hn)).
    + econstructor; [by rewrite (proj2 (ex_kept _ _ _ _ Hex x Hn))|]. apply IH.
      apply Hlive in Hx as [_ Hq]. by eapply kept_live.
Qed.

End extend.

(** ** Compiled patches are typed *)

Section typed.
Context `{Digest} `{ResultJson}.

Lemma entity_id_candidate_typed im key a c : entity_id_candidate im key a = Ok c → typed_id c.
Proof.
  unfold entity_id_candidate. intros [-> Hne]%opaque_id_new_ok. split; [lia|].
  pose proof (from_be_bytes_lt (take 16 (sha256 (ENTITY_ID_DOMAIN ++ to_be_bytes 16 (im_imagination_id im)
    ++ to_be_bytes 8 (im_seed im) ++ to_be_bytes 8 (text_len key) ++ key ++ to_be_bytes 4 a)))) as Hlt.
  assert (256 ^ N.of_nat (length (take 16 (sha256 (ENTITY_ID_DOMAIN ++ to_be_bytes 16 (im_imagination_id im)
    ++ to_be_bytes 8 (im_seed im) ++ to_be_bytes 8 (text_len key) ++ key ++ to_be_bytes 4 a)))) ≤ 256 ^ 16) as Hle.
  { apply N.pow_le_mono_r; [lia|]. rewrite length_take. lia. }
  change (256 ^ 16) with (u128_max + 1) in Hle. lia.
Qed.

Lemma derive_attempts_typed n a im key scene used id :
  derive_attempts n a im key scene used = Some id → typed_id id.
Proof.
  revert a. induction n as [|n IH]; intros a; cbn [derive_attempts]; [done|].
  destruct (entity_id_candidate im key a) as [c| | |] eqn:Hc; [|apply IH..].
  destruct (negb _ && negb _); [|apply IH]. intros [= <-]. by eapply entity_id_candidate_typed.
Qed.

Lemma plan_loop_typed config im scene i used es plans ds :
  Forall typed_imagined es → plan_loop config im scene i used es = Ok (plans, ds) →
  Forall (λ p, typed_id (ep_entity_id p)) plans.
Proof.
  intros Hes. revert i used plans ds. induction Hes as [|e es He _ IH]; intros i used plans ds; cbn [plan_loop].
  { intros Hp. apply Ok_inj in Hp. injection Hp as <- _. constructor. }
  set (unavailable := match ie_preferred_id e with Some id => _ | None => false end).
  intros ([id idd] & Hid & Hp)%out_bind_ok. destruct (plan_entity e id) as [plan pd] eqn:Hplan.
  apply out_bind_ok in Hp as ([plans' rest] & Hrest & Hp). apply Ok_inj in Hp. injection Hp as <- _.
  constructor; [|by eapply IH]. injection Hplan as <- _. cbn [ep_entity_id].
  pose proof (te_preferred _ He) as Hpref. destruct unavailable, (ie_preferred_id e) as [pref|]; cbn in Hid.
  2: { apply out_bind_ok in Hid as (d & Hd & Hid). apply Ok_inj in Hid. injection Hid as <- _.
       by apply ok_or_ok, derive_attempts_typed in Hd. }
  2: { apply Ok_inj in Hid. by injection Hid as <- _. }
  all: apply out_bind_ok in Hid as (d & Hd & Hid); apply Ok_inj in Hid; injection Hid as <- _;
    by apply ok_or_ok, derive_attempts_typed in Hd.
Qed.

End typed.

Lemma patch_of_typed im limits scene ids held plans :
  imagination_admissible im limits → fresh_ids im scene ids → Forall typed_imagined (im_entities im) → Forall typed_id ids →
  resolved (plans_of (sorted_entities im) ids) (im_relations im) held plans → typed_patch (patch_of im plans).
Proof.
  intros Him Hids Hes Htid Hr. unfold typed_patch. apply Forall_forall.
  assert (∀ p, p ∈ plans → typed_id (ep_entity_id p)) as Hpid.
  { intros p Hp. rewrite Forall_forall in Htid. apply Htid.
    rewrite <-(resolved_ids _ _ (fi_length _ _ _ Hids) _ _ _ Hr). by apply list_elem_of_fmap_2. }
  assert (∀ e, e ∈ sorted_entities im → typed_imagined e) as Hes'.
  { intros e. rewrite (sorted_entities_perm im). rewrite Forall_forall in Hes. apply Hes. }
  assert (Forall (λ h, typed_component (CLocalTransform (ep_transform h))) held) as Hheld.
  { apply Forall_forall. intros h [i Hh]%list_elem_of_lookup.
    assert (plans_of (sorted_entities im) ids !! i = Some (core h)) as Hb.
    { rewrite <-(as_core _ _ _ _ (rs_holds _ _ _ _ Hr)), list_lookup_fmap, Hh. done. }
    apply plans_of_lookup in Hb as (e & id & He & _ & Hc). apply list_elem_of_lookup_2, Hes', requested_typed in He.
    change (ep_transform h) with (ep_transform (core h)). rewrite Hc. exact He. }
  intros op [Hop|Hop]%elem_of_app.
  - apply list_elem_of_fmap in Hop as (p & -> & Hp). split; [by apply Hpid|].
    apply list_elem_of_lookup in Hp as [i Hi].
    destruct (resolved_realises _ _ _ _ _ _ _ Hr Hi) as (e & id & h & He & _ & Hh & Hre).
    apply list_elem_of_lookup_2, Hes' in He. cbn [create_operation create_components].
    rewrite (re_name _ _ _ _ Hre), (re_primitive _ _ _ _ Hre), (re_material _ _ _ _ Hre).
    repeat apply Forall_cons_2; try apply Forall_nil_2.
    + split; [constructor|]. cbn. unfold imagined_name. pose proof (te_name _ He) as Hn.
      destruct (ie_name e); [exact Hn|apply He].
    + by eapply placed_typed; [|apply (rs_placed _ _ _ _ Hr)].
    + apply He.
    + pose proof (te_material _ He) as Hm. destruct (ie_material e); [exact Hm|apply neutral_material_typed].
  - apply list_elem_of_omap in Hop as (p & Hp & Hx). apply fmap_Some in Hx as (k & Hk & ->). split; [by apply Hpid|]. cbn.
    destruct (plan_parent_known im ids held plans (fi_length _ _ _ Hids) Hr p k Hp Hk) as [(c & -> & Hc)%list_elem_of_fmap _].
    rewrite (plan_id_spec im limits ids held plans Him (fi_length _ _ _ Hids) Hr (ep_key c) c Hc eq_refl). by apply Hpid.
Qed.

(** The patch of a report is typed and carries the imagination's key. *)
Lemma compiled_patch_typed `{Digest} `{ResultJson} limits cfg im scene r p :
  compilable limits → cc_runtime_limits cfg = limits → compile cfg im scene = Ok r → cr_patch r = Some p →
  Forall typed_imagined (im_entities im) → typed_patch p ∧ patch_idempotency_key p = im_idempotency_key im.
Proof.
  intros Hl Hcfg Hc Hp Htyped. destruct (compile_inv limits Hl cfg Hcfg im scene r Hc) as (Him & _ & ids & Hids & Hr & Hplan).
  destruct Hr as [issues _ _|held plans Hpre Hr]; [done|]. injection Hp as <-. split; [|done].
  eapply patch_of_typed; try done. apply plan_loop_typed in Hplan.
  - rewrite <-(plans_of_ids (sorted_entities im) ids (fi_length _ _ _ Hids)). by apply Forall_fmap.
  - change (Forall typed_imagined (sorted_entities im)). by rewrite (sorted_entities_perm im).
Qed.

(** Compilation always returns, under any output bounds. *)
Lemma compile_normal `{Digest} `{ResultJson} limits cfg im scene :
  compilable limits → cc_runtime_limits cfg = limits → normal (compile cfg im scene).
Proof.
  intros Hl Hcfg. pose proof (imagination_validate_normal im limits) as Hn.
  destruct (imagination_validate im limits) as [[]|e| |] eqn:Hv; [|by rewrite compile_unfold, Hcfg, Hv|done..].
  destruct (decide (im_base_revision im = sv_revision scene)) as [Hrev|Hrev].
  2:{ rewrite compile_unfold, Hcfg, Hv. cbn. by rewrite (proj2 (N.eqb_neq _ _) Hrev). }
  apply (imagination_validate_iff im limits (cb_roomy _ Hl)) in Hv.
  destruct (compile_ended limits Hl cfg Hcfg im scene Hv Hrev) as [(ids & r & _ & _ & _ & ->)|(e & _ & ->)]; [|done].
  apply out_bind_normal; [|done]. unfold validate_completed_result, result_encode.
  apply out_bind_normal; [|done]. apply map_err_normal.
  apply out_bind_normal; [apply map_err_normal, result_validate_normal|]. intros _ _. apply encode_validated_normal.
Qed.
