(* ===== verification/Sha256.v ===== *)
(** * SHA-256

    A concrete [Digest]: the FIPS 180-4 compression function on 32-bit words.
    The repository takes SHA-256 from a third-party crate, so no theorem depends
    on this file; it instantiates the digest in the witnesses, and its values
    can be compared with those recorded in the repository's tests. *)

From S2P Require Import Prelude Machine Floats Values Components Messages MessageSpec Ecs WorldTypes Hierarchy Render World SceneSpec CommitRefine WorldInvariant WorldApply Extraction WorldTheorems Hash.

Open Scope N_scope.

Definition w32 (x : N) : N := x mod 4294967296.
Definition add32 (a b : N) : N := w32 (a + b).
Definition rotr (x n : N) : N := N.lor (N.shiftr x n) (w32 (N.shiftl x (32 - n))).

Definition big_sigma0 (x : N) : N := N.lxor (N.lxor (rotr x 2) (rotr x 13)) (rotr x 22).
Definition big_sigma1 (x : N) : N := N.lxor (N.lxor (rotr x 6) (rotr x 11)) (rotr x 25).
Definition small_sigma0 (x : N) : N := N.lxor (N.lxor (rotr x 7) (rotr x 18)) (N.shiftr x 3).
Definition small_sigma1 (x : N) : N := N.lxor (N.lxor (rotr x 17) (rotr x 19)) (N.shiftr x 10).
Definition choose (x y z : N) : N := N.lxor (N.land x y) (N.land (N.lxor x 4294967295) z).
Definition majority (x y z : N) : N := N.lxor (N.lxor (N.land x y) (N.land x z)) (N.land y z).

Definition round_constants : list N := [
    1116352408; 1899447441; 3049323471; 3921009573; 961987163; 1508970993; 2453635748;
    2870763221; 3624381080; 310598401; 607225278; 1426881987; 1925078388; 2162078206;
    2614888103; 3248222580; 3835390401; 4022224774; 264347078; 604807628; 770255983; 1249150122;
    1555081692; 1996064986; 2554220882; 2821834349; 2952996808; 3210313671; 3336571891;
    3584528711; 113926993; 338241895; 666307205; 773529912; 1294757372; 1396182291; 1695183700;
    1986661051; 2177026350; 2456956037; 2730485921; 2820302411; 3259730800; 3345764771;
    3516065817; 3600352804; 4094571909; 275423344; 430227734; 506948616; 659060556; 883997877;
    958139571; 1322822218; 1537002063; 1747873779; 1955562222; 2024104815; 2227730452;
    2361852424; 2428436474; 2756734187; 3204031479; 3329325298 ].

Record chain := mkChain { ch_a : N; ch_b : N; ch_c : N; ch_d : N; ch_e : N; ch_f : N; ch_g : N; ch_h : N }.

Definition initial_chain : chain := mkChain
  1779033703 3144134277 1013904242 2773480762
  1359893119 2600822924 528734635 1541459225.

(** One round; the window holds the next sixteen schedule words. *)
Definition sha_round (st : chain * list N) (k : N) : chain * list N :=
  let '(v, window) := st in
  let w := nth 0 window 0 in
  let next := add32 (add32 (small_sigma1 (nth 14 window 0)) (nth 9 window 0))
                (add32 (small_sigma0 (nth 1 window 0)) w) in
  let t1 := add32 (add32 (add32 (ch_h v) (big_sigma1 (ch_e v))) (choose (ch_e v) (ch_f v) (ch_g v)))
              (add32 k w) in
  let t2 := add32 (big_sigma0 (ch_a v)) (majority (ch_a v) (ch_b v) (ch_c v)) in
  (mkChain (add32 t1 t2) (ch_a v) (ch_b v) (ch_c v) (add32 (ch_d v) t1) (ch_e v) (ch_f v) (ch_g v),
   tail window ++ [next]).

Definition compress (v : chain) (block : list N) : chain :=
  let v' := (foldl sha_round (v, block) round_constants).1 in
  mkChain (add32 (ch_a v) (ch_a v')) (add32 (ch_b v) (ch_b v')) (add32 (ch_c v) (ch_c v'))
    (add32 (ch_d v) (ch_d v')) (add32 (ch_e v) (ch_e v')) (add32 (ch_f v) (ch_f v'))
    (add32 (ch_g v) (ch_g v')) (add32 (ch_h v) (ch_h v')).

(** Message padding to a multiple of 64 bytes. *)
Definition sha_pad (m : bytes) : bytes :=
  let zeros := ((119 - length m mod 64) mod 64)%nat in
  m ++ [x80] ++ replicate zeros x00 ++ to_be_bytes 8 (8 * N.of_nat (length m)).

Fixpoint words (n : nat) (l : bytes) : list N :=
  match n with
  | O => []
  | S n => from_be_bytes (take 4 l) :: words n (drop 4 l)
  end.

Fixpoint sha_blocks (n : nat) (v : chain) (l : bytes) : chain :=
  match n with
  | O => v
  | S n => sha_blocks n (compress v (words 16 l)) (drop 64 l)
  end.

Definition sha256_digest (m : bytes) : bytes :=
  let padded := sha_pad m in
  let v := sha_blocks (length padded / 64) initial_chain padded in
  to_be_bytes 4 (ch_a v) ++ to_be_bytes 4 (ch_b v) ++ to_be_bytes 4 (ch_c v) ++ to_be_bytes 4 (ch_d v)
  ++ to_be_bytes 4 (ch_e v) ++ to_be_bytes 4 (ch_f v) ++ to_be_bytes 4 (ch_g v) ++ to_be_bytes 4 (ch_h v).

Lemma sha256_digest_length m : length (sha256_digest m) = 32%nat.
Proof. unfold sha256_digest. by rewrite !length_app, !length_to_be_bytes. Qed.

Definition sha256_instance : Digest := {| sha256 := sha256_digest; sha256_length := sha256_digest_length |}.
#[local] Existing Instance sha256_instance.

(** The FIPS 180-4 example digest of the three bytes of abc. *)
Example sha256_abc :
  content_hash_fmt (sha256_digest (bytes_of_string "abc"))
  = bytes_of_string "ba7816bf8f01cfea414140de5dae2223b00361a396177a9cb410ff61f20015ad".
Proof. vm_compute. reflexivity. Qed.

(** The hash of the empty default world recorded in
    [cogniform-world/tests/hierarchy_hash.rs]. *)
Example empty_world_hash :
  content_hash_fmt <$> out_ok (logical_hash sample_world)
  = Some (bytes_of_string "85d3bc72c8357ea5fcf8aaf9b6569c1c202825e270ad3e7c4bfd44314751612f").
Proof. vm_compute. reflexivity. Qed.

Lemma logical_hash_canonical_witness :
  (abs_scene sample_world1 = abs_scene sample_world → logical_hash sample_world1 = logical_hash sample_world) ∧
  (logical_hash sample_world1 = logical_hash sample_world → abs_scene sample_world1 = abs_scene sample_world ∨
     collides (snapshot_bytes (scene_snapshot (revision sample_world1) (abs_scene sample_world1)))
              (snapshot_bytes (scene_snapshot (revision sample_world) (abs_scene sample_world)))) ∧
  is_ok (logical_hash sample_world1) = true.
Proof. exact (logical_hash_canonical sample_world1 sample_world sample_world1_inv sample_world_inv). Defined.
