(* ===== verification/CompilerTheorems.v ===== *)
(** * The compiler: theorems

    What the deterministic compiler promises: it always ends, with a valid
    report or a justified error; a compiled patch means what was imagined; the
    world accepts it; the order of entities does not matter; and reports have
    one canonical encoding. *)

From S2P Require Import Prelude Machine Ordering BTree Floats Values Components Messages MessageSpec Imagination ImaginationSpec Ecs WorldTypes Hierarchy Affected World Codec Compilation SceneSpec CommitRefine WorldInvariant WorldApply WorldTheorems Hash Compiler CompilerPlans CompilerCycles CompilerPasses CompilerPatch CompilerReport CompilerOutcome CompilerMeaning CompilerApply Sha256.

Open Scope N_scope.

(** Errors for want of room, none of them about what the patch says. *)
Definition resource_error (e : WorldApplyError) : Prop :=
  match e with
  | WorldRevisionOverflow | IdempotencyCapacityExceeded _ | EntityCapacityExceeded _ _ _ | HierarchyDepthExceeded _ _ _
  | TransformOverflow _ | RenderExtractionCapacityExceeded _ | RenderExtractionGenerationOverflow => True
  | _ => False
  end.

Definition with_entities (im : ImaginationEnvelope) (es : list ImaginedEntity) : ImaginationEnvelope :=
  mkImagination (im_schema_version im) (im_imagination_id im) (im_transaction_id im) (im_idempotency_key im)
    (im_base_revision im) (im_delivery im) (im_seed im) (im_declared_budget im) es (im_relations im) (im_constraints im).

(** ** Order of entities *)

Section order.
Context (im : ImaginationEnvelope) (es : list ImaginedEntity) (Hperm : es ≡ₚ im_entities im).

Lemma with_entities_admissible limits : imagination_admissible im limits → imagination_admissible (with_entities im es) limits.
Proof.
  assert (∀ f : ImaginedEntity → N, sumN f es = sumN f (im_entities im)) as Hsum by (intros f; by apply sumN_perm).
  assert (length es = length (im_entities im)) as Hlen by by rewrite Hperm.
  intros [H1 H2 H3 H4 H5 H6 H7 H8 H9 H10 H11 H12 H13 H14]. split; cbn [with_entities im_schema_version im_entities im_declared_budget
    im_relations im_constraints]; unfold imagination_text, output_text, output_size, imagination_size, parent_count in *;
    cbn [with_entities im_delivery im_entities im_relations im_constraints]; rewrite ?Hsum, ?Hlen; try done.
  - intros ->. apply H2. by apply Permutation_nil_l in Hperm.
  - by rewrite Hperm.
  - by rewrite Hperm.
Qed.

Lemma sorted_keys_unique limits : imagination_admissible im limits → sorted_entities (with_entities im es) = sorted_entities im.
Proof.
  intros Him. pose proof (contramap_ord ie_key text_cmp text_cmp_ord) as Hord.
  apply (strict_unique (λ a b, text_cmp (ie_key a) (ie_key b))).
  1,2: apply (sorted_strict (λ a b, text_cmp (ie_key a) (ie_key b)));
    [apply (sort_by_sorted (λ a b, text_cmp (ie_key a) (ie_key b)))|];
    intros i j a b Ha Hb Heq%text_cmp_eq.
  - eapply (NoDup_lookup (ie_key <$> sorted_entities (with_entities im es)));
      [rewrite (sorted_entities_perm (with_entities im es)); cbn; rewrite Hperm; apply Him|..]; rewrite list_lookup_fmap;
      [by setoid_rewrite Ha|setoid_rewrite Hb; cbn; by rewrite Heq].
  - eapply (NoDup_lookup (ie_key <$> sorted_entities im)); [rewrite (sorted_entities_perm im); apply Him|..]; rewrite list_lookup_fmap;
      [by setoid_rewrite Ha|setoid_rewrite Hb; cbn; by rewrite Heq].
  - rewrite (sorted_entities_perm im), (sorted_entities_perm (with_entities im es)). done.
Qed.

End order.

Lemma derive_attempts_entities `{Digest} n a im es key scene used :
  derive_attempts n a (with_entities im es) key scene used = derive_attempts n a im key scene used.
Proof. revert a. induction n as [|n IH]; intros a; cbn [derive_attempts]; [done|]. by rewrite !IH. Qed.

Lemma plan_loop_entities `{Digest} config im es scene i used l :
  plan_loop config (with_entities im es) scene i used l = plan_loop config im scene i used l.
Proof.
  revert i used. induction l as [|e l IH]; intros i used; cbn [plan_loop]; [done|].
  unfold derive_entity_id. rewrite derive_attempts_entities.
  match goal with |- out_bind ?m _ = _ => destruct m as [[id ds]| | |]; cbn [out_bind]; [|done..] end.
  destruct (plan_entity e id). by rewrite IH.
Qed.

Section theorems.
Context `{Digest} `{ResultJson}.

(** The limit that a report valid in every other respect exceeds. *)
Inductive report_exceeds (r : CompilationResult) (l : CompilationLimits) : CompilationValidationError → Prop :=
| re_decisions : cl_max_decisions l < count (length (cr_decisions r)) →
    report_exceeds r l (cv_error CvDecisionLimitExceeded "decisions")
| re_unresolved : cl_max_unresolved_constraints l < count (length (cr_unresolved r)) →
    report_exceeds r l (cv_error CvUnresolvedLimitExceeded "unresolved")
| re_patch p v : cr_patch r = Some p → patch_validate p (cl_patch_limits l) = Err v → report_exceeds r l (cv_protocol "patch" v)
| re_text : cl_max_text_bytes l < result_text_bytes r → report_exceeds r l (cv_error CvTextLimitExceeded "result")
| re_size : cl_max_decoded_bytes l < result_logical_size_bytes r → report_exceeds r l (cv_error CvDecodedSizeLimitExceeded "result").

Lemma report_exceeds_limits r l l' e : result_validate r l = Ok tt → result_validate r l' = Err e → report_exceeds r l' e.
Proof.
  intros Hv He. unfold result_validate in Hv, He.
  destruct (negb (cr_schema_version r =? COMPILATION_SCHEMA_VERSION)); [done|]. cbn [guard_err out_bind] in Hv, He.
  apply out_bind_ok in Hv as ([] & _ & Hv). apply out_bind_ok in Hv as ([] & _ & Hv).
  apply out_bind_ok in Hv as ([] & Hp & Hv). apply out_bind_ok in Hv as ([] & Hd & Hv). apply out_bind_ok in Hv as ([] & Hu & _).
  destruct (N.ltb_spec (cl_max_decisions l') (count (length (cr_decisions r)))); cbn [guard_err out_bind] in He;
    [injection He as <-; by apply re_decisions|].
  destruct (N.ltb_spec (cl_max_unresolved_constraints l') (count (length (cr_unresolved r)))); cbn [guard_err out_bind] in He;
    [injection He as <-; by apply re_unresolved|].
  match type of He with (out_bind ?m _) = _ => assert (m = Ok tt ∨ ∃ p v, cr_patch r = Some p ∧
    patch_validate p (cl_patch_limits l') = Err v ∧ m = Err (cv_protocol "patch" v)) as [Hm|(p & v & Hr & Hpv & Hm)] end.
  { destruct (cr_patch r) as [p|], (cr_unresolved r); try done; [|by left].
    apply out_bind_ok in Hp as ([] & -> & Hp). cbn [out_bind]. apply out_bind_ok in Hp as ([] & -> & Hp). cbn [out_bind].
    pose proof (patch_validate_normal p (cl_patch_limits l')) as Hn.
    destruct (patch_validate p (cl_patch_limits l')) as [[]|v| |] eqn:Hpv; [by left| |done..]. right. by exists p, v. }
  2: { rewrite Hm in He. injection He as <-. by apply (re_patch r l' p). }
  rewrite Hm, Hd, Hu in He. cbn [out_bind] in He.
  destruct (N.ltb_spec (cl_max_text_bytes l') (result_text_bytes r)); cbn [guard_err out_bind] in He;
    [injection He as <-; by apply re_text|].
  destruct (N.ltb_spec (cl_max_decoded_bytes l') (result_logical_size_bytes r)); [injection He as <-; by apply re_size|done].
Qed.

(** C21. A compilation always returns, whatever report limits the compiler was
    configured with, and its outcome is justified: a returned report is valid
    under the configured limits and has an encoding; an invalid imagination and
    a stale revision are reported as such; identity derivation gives up only
    when every allowed candidate of an entity is taken by the scene or by
    earlier entities; a report is found invalid only when it is valid under the
    limits derived from the runtime limits and exceeds a limit that was
    configured smaller, which the error names, hence never under derived
    limits; the only other error is a refusal by the encoder of a valid report.
    The patch it built is never found invalid. *)
Theorem compile_total cfg im scene : compilable (cc_runtime_limits cfg) →
  let limits := cc_runtime_limits cfg in
  let reports := cc_compilation_limits cfg in
  match compile cfg im scene with
  | Ok r => imagination_validate im limits = Ok tt ∧ im_base_revision im = sv_revision scene ∧
      result_validate r reports = Ok tt ∧ is_ok (result_encode r reports) = true
  | Err (InvalidImagination e) => imagination_validate im limits = Err e
  | Err (SceneRevisionMismatch requested actual) =>
      requested = im_base_revision im ∧ actual = sv_revision scene ∧ requested ≠ actual
  | Err (EntityIdDerivationExhausted i attempts) => attempts = cc_max_entity_id_attempts cfg ∧
      ∃ j e taken, i = count j ∧ sorted_entities im !! j = Some e ∧ (size taken ≤ j)%nat ∧
        exhausted attempts im (ie_key e) (sv_entity_ids scene ∪ taken)
  | Err (InvalidCompilationResult e) => reports ≠ for_runtime_limits limits ∧
      ∃ ids r, fresh_ids im scene ids ∧ ended im scene ids r ∧ result_validate r (for_runtime_limits limits) = Ok tt ∧
        report_exceeds r reports e
  | Err (InvalidCompilationEncoding e) => ∃ ids r, fresh_ids im scene ids ∧ ended im scene ids r ∧
      result_validate r reports = Ok tt ∧ encode_validated r reports = Err e
  | Err (InvalidNormalizedPatch _) | Panic | OutOfFuel => False
  end.
Proof.
  intros Hl limits reports. pose proof (cb_roomy _ Hl) as Hroom. pose proof (imagination_validate_normal im limits) as Hn.
  destruct (imagination_validate im limits) as [[]|e| |] eqn:Hv; [|by rewrite compile_unfold; fold limits; rewrite Hv|done..].
  destruct (decide (im_base_revision im = sv_revision scene)) as [Hrev|Hrev].
  2:{ rewrite compile_unfold. fold limits. rewrite Hv. cbn. rewrite (proj2 (N.eqb_neq _ _) Hrev). done. }
  apply (imagination_validate_iff im limits Hroom) in Hv.
  destruct (compile_ended limits Hl cfg eq_refl im scene Hv Hrev) as [(ids & r & Hids & Hr & Hp & ->)|(e & Hp & ->)].
  - pose proof (ended_valid limits Hl im scene ids r Hv Hids Hrev Hr) as Hvalid. fold reports.
    pose proof (result_validate_normal r reports) as Hrn. destruct (result_validate r reports) as [[]|e| |] eqn:Hreports; [| |done..].
    + rewrite (validate_completed_valid r _ Hreports). pose proof (encode_validated_normal r reports) as He.
      pose proof (encode_validated_errors r reports) as Hee.
      destruct (encode_validated r reports) as [b|e| |] eqn:Henc; [|..|done|done].
      * cbn [out_bind]. split_and!; try done. unfold result_encode. by rewrite Hreports; cbn; rewrite Henc.
      * destruct e as [| | |v| | |]; cbn [out_bind]; eauto 8. by specialize (Hee v).
    + unfold validate_completed_result, result_encode. rewrite Hreports. cbn [map_err out_bind].
      split; [congruence|]. exists ids, r. split_and!; try done. by eapply report_exceeds_limits.
  - apply plan_loop_err in Hp as (j & x & taken & Hj & -> & Hex & Hsz). split; [done|].
    exists j, x, taken. split_and!; try done. by rewrite union_empty_r_L in Hex.
Qed.

(** C6. A compiled patch means what was imagined: it creates each imagined
    entity once with its name, primitive and material under fresh distinct
    identities, its links are exactly the parent relations, every relation has
    known distinct ends, no entity is the subject of two relations, parents form
    no cycle, rotation and scale are kept, an entity that is not placed keeps
    its transform, a placed one stands at the computed offset from its
    unparented anchor, and every precondition holds in the scene. *)
Theorem compile_meaning limits im scene r p : compilable limits →
  compile (compiler_config_new limits) im scene = Ok r → cr_patch r = Some p →
  ∃ rows, realisation im scene p rows.
Proof.
  intros Hl Hc Hp. destruct (compile_inv limits Hl (compiler_config_new limits) eq_refl im scene r Hc) as (Him & Hrev & ids & Hids & Hr & _).
  destruct Hr as [issues _ _|held plans Hpre Hr]; [done|]. injection Hp as <-.
  exists (realised_rows im plans). by eapply resolved_realisation.
Qed.

(** C20. The world accepts compiled patches: a patch compiled for the world's
    current revision and entities, under a fresh idempotency key, is refused by
    [apply_patch] only for want of room (a counter, a capacity, the depth bound
    or a transform that overflows), never as invalid, stale, conflicting,
    cyclic or dangling; when it is applied the scene gains exactly the
    imagined entities and links and keeps everything else. *)
Theorem compiled_patch_applies {W E : Type} `{EqDecision E} `{!EntityStore W E} `{!EntityStoreLaws W E}
    limits (w : AuthoritativeWorld W E) im scene r p f clock :
  compilable limits → compile (compiler_config_new limits) im scene = Ok r → cr_patch r = Some p →
  winv w → runtime_limits (config w) = limits → sv_revision scene = revision w →
  sv_entity_ids scene = dom (sc_rows (abs_scene w)) → Forall typed_imagined (im_entities im) →
  idempotency_records w !! im_idempotency_key im = None →
  match apply_patch w p f clock with
  | Ok (_, w') => revision w' = revision w + 1 ∧
      ∃ rows, realisation im scene p rows ∧ extended im rows (abs_scene w) (abs_scene w')
  | Err e => resource_error e
  | Panic | OutOfFuel => False
  end.
Proof.
  intros Hl Hc Hp Hw Hlim Hrev Hview Htyped Hkey.
  destruct (compile_inv limits Hl (compiler_config_new limits) eq_refl im scene r Hc) as (Him & Hbase & ids & Hids & Hr & Hplan).
  destruct Hr as [issues _ _|held plans Hpre Hr]; [done|]. injection Hp as <-.
  pose proof (resolved_realisation im limits scene ids held plans Him Hids Hr Hpre) as Hreal.
  assert (typed_patch (patch_of im plans)) as Htp.
  { eapply patch_of_typed; try done. apply plan_loop_typed in Hplan.
    - rewrite <-(plans_of_ids (sorted_entities im) ids (fi_length _ _ _ Hids)). by apply Forall_fmap.
    - change (Forall typed_imagined (sorted_entities im)). by rewrite (sorted_entities_perm im). }
  pose proof (wc_hierarchy _ (wi_core _ Hw)) as Hh.
  rewrite <-(store_ok_dom (storage w)) in Hh by apply Hw.
  pose proof (extend_spec im scene _ _ (abs_scene w) Hreal (ia_keys _ _ Him) Hview (proj1 Hh)) as Hspec.
  pose proof (apply_patch_sim w (patch_of im plans) f clock Hw Htp) as Hsim.
  destruct (apply_patch w (patch_of im plans) f clock) as [[receipt w']|e| |]; [| |done..].
  - destruct Hsim as [_ [(ra & Hra & _)|(sc & Hap)]]; [cbn in Hra; congruence|].
    split; [apply Hap|]. exists (realised_rows im plans). split; [done|].
    destruct (Hspec (max_entities (config w))) as [(sc' & Hsc & Hex)|(i & x & Hsc)];
      rewrite (ap_spec _ _ _ _ _ _ _ Hap) in Hsc; [|done].
    apply Ok_inj in Hsc as <-. by rewrite (ap_scene _ _ _ _ _ _ _ Hap).
  - destruct Hsim as [e Hv|ra Hra _| | |_ Hb| |e _ Hop|sc e _ Hop Hf]; try done.
    + rewrite Hlim in Hv. rewrite (patch_of_valid im limits ids held plans Him (cb_roomy _ Hl) (fi_length _ _ _ Hids) (fi_nodup _ _ _ Hids) Hr) in Hv. done.
    + cbn in Hra. congruence.
    + exfalso. apply Hb. cbn. congruence.
    + destruct (Hspec (max_entities (config w))) as [(sc' & Hsc & _)|(i & x & Hsc)]; rewrite Hop in Hsc; [done|].
      by injection Hsc as ->.
    + destruct (Hspec (max_entities (config w))) as [(sc' & Hsc & Hex)|(i & x & Hsc)]; rewrite Hop in Hsc; [|done].
      apply Ok_inj in Hsc as <-. destruct Hf as [e Hd| |]; try done.
      apply hierarchy_depths_error in Hd as (x & d & ->); [done|..].
      * intros c q. by apply (extended_live _ _ _ _ _ Hreal Hview (proj1 Hh)).
      * apply (extended_acyclic _ _ _ _ _ Hreal Hview (proj1 Hh) _ Hex). by eapply valid_hierarchy_acyclic.
Qed.

(** The order in which an imagination lists its entities does not matter: a
    permutation compiles to the same report. *)
Theorem compile_order_independent limits im es scene : roomy limits → es ≡ₚ im_entities im →
  imagination_validate im limits = Ok tt →
  compile (compiler_config_new limits) (with_entities im es) scene = compile (compiler_config_new limits) im scene.
Proof.
  intros Hroom Hperm Hv. pose proof Hv as Him. apply (imagination_validate_iff im limits Hroom) in Him.
  pose proof (with_entities_admissible im es Hperm limits Him) as Him'.
  apply (imagination_validate_iff _ limits Hroom) in Him'.
  unfold compile. change (cc_runtime_limits (compiler_config_new limits)) with limits. rewrite Hv, Him'.
  cbn [map_err out_bind]. unfold plan_entities.
  change (sort_by (λ a b, text_cmp (ie_key a) (ie_key b)) (im_entities (with_entities im es)))
    with (sorted_entities (with_entities im es)).
  apply (imagination_validate_iff im limits Hroom) in Hv. rewrite (sorted_keys_unique im es Hperm limits Hv), plan_loop_entities.
  reflexivity.
Qed.

(** Reports have one canonical encoding: when the serialiser's output for a
    report, followed by a newline, parses back to it, decoding accepts exactly
    the bytes that encoding produces. *)
Theorem compilation_codec_canonical (v : CompilationResult) (b : bytes) limits :
  json_parse (mjoin (json_writes v) ++ [x0a]) = Ok v →
  result_decode b limits = Ok v ↔ result_encode v limits = Ok b.
Proof.
  intros Hlaw. split.
  - unfold result_decode, result_encode. intros Hd. inv_ok. subst. rename select (result_validate _ _ = _) into Hv.
    destruct x2. rewrite Hv. cbn [map_err out_bind]. rename select (negb _ = false) into Hb.
    apply negb_false_iff, bool_decide_eq_true in Hb. by subst.
  - intros Hd. unfold result_encode in Hd. apply out_bind_ok in Hd as ([] & Hv & He). pose proof He as He0.
    unfold encode_validated in He. cbv zeta in He. apply out_bind_ok in He as (w & Hw & He).
    apply out_bind_ok in He as ([] & Hf & He). unfold push_lf in He.
    apply out_bind_ok in He as (b' & Hp & He). apply out_bind_ok in Hp as ([] & Hs & [= <-]).
    apply out_bind_ok in He as ([] & Hn & [= <-]).
    assert (∀ l w0 w1, out_fold (bounded_write (cl_max_encoded_bytes limits - 1)) w0 l = Ok w1 → w1 = w0 ++ mjoin l) as Hwrites.
    { induction l as [|c l IH]; intros w0 w1; cbn [out_fold]; [intros <-%Ok_inj; by rewrite app_nil_r|].
      unfold bounded_write at 1. cbv zeta. intros (w2 & Hw2 & Hrest)%out_bind_ok.
      apply out_bind_ok in Hw2 as ([] & _ & [= <-]). apply IH in Hrest as ->. cbn [mjoin list_join]. by rewrite <-app_assoc. }
    apply Hwrites in Hw as ->. cbn [app] in *. unfold result_decode.
    rewrite length_app. cbn [length]. rewrite Hs. cbn [out_bind]. rewrite Hn. cbn [out_bind]. rewrite Hlaw. cbn [map_err out_bind].
    rewrite Hv. cbn [map_err out_bind]. rewrite He0. cbn [out_bind]. by rewrite bool_decide_true.
Qed.

End theorems.

(** ** A concrete compilation

    A table, a lamp above it and a shade under the lamp, compiled for the scene
    of [sample_world1]; the serialiser writes a fixed object. *)

#[local] Existing Instance sha256_instance.

Definition empty_report : CompilationResult := mkResult COMPILATION_SCHEMA_VERSION 1 0 None [] [].

Definition sample_json (v : CompilationResult) : ResultJson :=
  {| json_writes _ := [bytes_of_string "{}"]; json_fails _ := false; json_parse _ := Ok v |}.

#[local] Instance sample_result_json : ResultJson := sample_json empty_report.

Definition sample_entity (key : string) (preferred : option N) : ImaginedEntity :=
  mkImagined (bytes_of_string key) preferred None (mkPrimitive Cuboid sample_unit3) None None.

Definition sample_imagination : ImaginationEnvelope :=
  mkImagination schema_v1 7 8 9 1 MustApply 42 imagination_budget_default
    [sample_entity "table" (Some 5); sample_entity "lamp" None; sample_entity "shade" (Some 1)]
    [RelAbove (bytes_of_string "lamp") (bytes_of_string "table") f32_half;
     RelParent (bytes_of_string "shade") (bytes_of_string "lamp")]
    [EntityExists 1; EntityAbsent 99].

Definition sample_view : CompilationSceneView := mkSceneView 1 {[1; 2]}.

Definition sample_result : CompilationResult :=
  match compile (compiler_config_new runtime_limits_default) sample_imagination sample_view with
  | Ok r => r
  | _ => empty_report
  end.

Definition sample_compiled_patch : ScenePatch := default sample_patch (cr_patch sample_result).

Lemma default_limits_compilable : compilable runtime_limits_default.
Proof. split; [split|..]; vm_compute; done. Qed.

Lemma sample_compiles :
  compile (compiler_config_new runtime_limits_default) sample_imagination sample_view = Ok sample_result ∧
  cr_patch sample_result = Some sample_compiled_patch.
Proof.
  assert (match compile (compiler_config_new runtime_limits_default) sample_imagination sample_view with
    | Ok r => is_some (cr_patch r) | _ => false end = true) as Hc by (vm_compute; reflexivity).
  unfold sample_compiled_patch, sample_result. destruct (compile _ _ _) as [r| | |]; [|done..].
  split; [done|]. by destruct (cr_patch r).
Qed.

Lemma sample_entity_typed key preferred :
  forallb (λ b, negb (bool_decide (b = x00))) (bytes_of_string key) = true → (0 < length (bytes_of_string key) < 1000)%nat →
  from_option typed_id True preferred → typed_imagined (sample_entity key preferred).
Proof.
  intros Ht Hl Hp. split; cbn; try done.
  - split_and!.
    + intros Hn. rewrite Hn in Hl. cbn in Hl. lia.
    + rewrite forallb_forall in Ht. intros Hin. apply list_elem_of_In, Ht in Hin. by rewrite bool_decide_true in Hin.
    + unfold u32_max. lia.
  - split; [|done]. cbn. repeat apply Forall_cons_2; try apply Forall_nil_2; by apply f32_normal_form_check.
Qed.

Lemma sample_imagination_typed : Forall typed_imagined (im_entities sample_imagination).
Proof.
  repeat apply Forall_cons_2; try apply Forall_nil_2; apply sample_entity_typed; try (vm_compute; reflexivity); try (cbn; lia);
    cbn; unfold typed_id, u128_max; (done || lia).
Qed.

(** The compiler of the source's test whose report limits allow one decision. *)
Definition narrow_config : CompilerConfig :=
  let l := for_runtime_limits runtime_limits_default in
  mkCompilerConfig runtime_limits_default
    (mkCompilationLimits (cl_max_encoded_bytes l) (cl_max_decoded_bytes l) (cl_max_json_nesting_depth l) (cl_max_text_bytes l)
       1 (cl_max_unresolved_constraints l) (cl_patch_limits l)) 32.

Lemma compile_total_witness :
  result_validate sample_result (for_runtime_limits runtime_limits_default) = Ok tt ∧
  ∃ e r, compile narrow_config sample_imagination sample_view = Err (InvalidCompilationResult e) ∧
    report_exceeds r (cc_compilation_limits narrow_config) e.
Proof.
  split.
  - pose proof (compile_total (compiler_config_new runtime_limits_default) sample_imagination sample_view default_limits_compilable) as Ht.
    rewrite (proj1 sample_compiles) in Ht. apply Ht.
  - pose proof (compile_total narrow_config sample_imagination sample_view default_limits_compilable) as Ht.
    assert (match compile narrow_config sample_imagination sample_view with Err (InvalidCompilationResult _) => true | _ => false end = true)
      as Hc by (vm_compute; reflexivity).
    destruct (compile narrow_config sample_imagination sample_view) as [?|[]| |]; try discriminate Hc.
    destruct Ht as (_ & ids & r & _ & _ & _ & He). eexists _, r. by split.
Defined.

Lemma compile_meaning_witness : ∃ rows, realisation sample_imagination sample_view sample_compiled_patch rows.
Proof.
  exact (compile_meaning runtime_limits_default sample_imagination sample_view sample_result sample_compiled_patch
    default_limits_compilable (proj1 sample_compiles) (proj2 sample_compiles)).
Defined.

Lemma compiled_patch_applies_witness :
  match apply_patch sample_world1 sample_compiled_patch 2 (7, 8) with
  | Ok (_, w') => revision w' = 2 ∧ ∃ rows, realisation sample_imagination sample_view sample_compiled_patch rows ∧
      extended sample_imagination rows (abs_scene sample_world1) (abs_scene w')
  | _ => False
  end.
Proof.
  assert (is_ok (apply_patch sample_world1 sample_compiled_patch 2 (7, 8)) = true) as Hok by (vm_compute; reflexivity).
  assert (sv_entity_ids sample_view = dom (sc_rows (abs_scene sample_world1))) as Hview.
  { cbn [abs_scene sc_rows]. rewrite store_ok_dom by apply sample_world1_inv. vm_compute. reflexivity. }
  pose proof (compiled_patch_applies runtime_limits_default sample_world1 sample_imagination sample_view sample_result
    sample_compiled_patch 2 (7, 8) default_limits_compilable (proj1 sample_compiles) (proj2 sample_compiles)
    sample_world1_inv ltac:(vm_compute; reflexivity) ltac:(vm_compute; reflexivity) Hview sample_imagination_typed
    ltac:(vm_compute; reflexivity)) as Ha.
  destruct (apply_patch sample_world1 sample_compiled_patch 2 (7, 8)) as [[receipt w']| | |]; [exact Ha|discriminate Hok..].
Defined.

Lemma compile_order_independent_witness :
  compile (compiler_config_new runtime_limits_default)
    (with_entities sample_imagination (reverse (im_entities sample_imagination))) sample_view = Ok sample_result.
Proof.
  rewrite (compile_order_independent runtime_limits_default sample_imagination (reverse (im_entities sample_imagination)) sample_view
    (cb_roomy _ default_limits_compilable) (reverse_Permutation _) ltac:(vm_compute; reflexivity)).
  exact (proj1 sample_compiles).
Defined.

Lemma compilation_codec_canonical_witness :
  @result_decode (sample_json sample_result) (bytes_of_string "{}" ++ [x0a]) (for_runtime_limits runtime_limits_default) = Ok sample_result.
Proof.
  apply (@compilation_codec_canonical (sample_json sample_result) sample_result (bytes_of_string "{}" ++ [x0a])
    (for_runtime_limits runtime_limits_default)); vm_compute; reflexivity.
Defined.
