(* ===== verification/Replay.v ===== *)
(** * Replay logs and recorded worlds

    [cogniform-replay/src/log.rs], [recorded.rs] and [error.rs]: hash-chained
    append-only entries, their byte stream, its verified loading, replay into a
    fresh world, and the world wrapper that records every accepted patch. *)

From S2P Require Import Prelude Machine BTree Floats Values Components Messages MessageSpec Codec Ecs WorldTypes Hierarchy Render World SceneSpec CommitRefine WorldInvariant Extraction Hash.

Open Scope N_scope.

(** ** Types *)

Definition REPLAY_HEADER : bytes := bytes_of_string "CNFRPL1" ++ [x0a].
Definition REPLAY_HEADER_BYTES : N := 8.
Definition ENTRY_HASH_DOMAIN : bytes := bytes_of_string "cogniform.replay-entry" ++ [x00].
Definition ENTRY_FORMAT_VERSION : N := 1.
Definition FRAME_LENGTH_BYTES : N := 4.
Definition FIXED_ENTRY_BODY_BYTES : N := 166.
Definition ENTRY_ENVELOPE_BYTES : N := FRAME_LENGTH_BYTES + FIXED_ENTRY_BODY_BYTES.

Record ReplayConfig := mkReplayConfig {
  max_entries : N;
  max_entry_bytes : N;
  max_log_bytes : N;
}.

Record ReplayConfigError := mkConfigError { rce_actual : N; rce_minimum : N }.

(** [ReplayConfig::validate]. *)
Definition replay_config_validate (c : ReplayConfig) : outcome ReplayConfigError unit :=
  guard_err (max_log_bytes c <? REPLAY_HEADER_BYTES)
    (mkConfigError (max_log_bytes c) REPLAY_HEADER_BYTES).

Definition replay_config_default : ReplayConfig := mkReplayConfig 4096 1049000 67108864.

Abbreviation LogicalSceneHash := bytes (only parsing).
Abbreviation ReplayEntryHash := bytes (only parsing).

Definition entry_hash_zero : ReplayEntryHash := replicate 32 x00.

Record ReplayEntry := mkEntry {
  en_sequence : N;
  en_patch : ScenePatch;
  en_patch_bytes : bytes;
  en_estimated_visible_frame : FrameId;
  en_previous_revision : SceneRevision;
  en_new_revision : SceneRevision;
  en_previous_scene_hash : LogicalSceneHash;
  en_new_scene_hash : LogicalSceneHash;
  en_previous_entry_hash : ReplayEntryHash;
  en_entry_hash : ReplayEntryHash;
}.

Record ReplayEntryMetadata := mkEntryMetadata {
  md_sequence : N;
  md_estimated_visible_frame : FrameId;
  md_previous_revision : SceneRevision;
  md_new_revision : SceneRevision;
  md_previous_scene_hash : LogicalSceneHash;
  md_new_scene_hash : LogicalSceneHash;
  md_previous_entry_hash : ReplayEntryHash;
}.

Record ReplayVerification := mkVerification {
  rv_entry_count : N;
  rv_final_revision : SceneRevision;
  rv_final_scene_hash : option LogicalSceneHash;
  rv_final_entry_hash : ReplayEntryHash;
}.

Record ReplayLog := mkLog {
  log_config : ReplayConfig;
  log_entries : list ReplayEntry;
  log_encoded_bytes : N;
}.

Record ReplayRevisionError := mkRevisionError { rre_requested : SceneRevision; rre_latest : SceneRevision }.

Inductive ReplayIntegrityErrorKind : Type :=
| SequenceGap
| RevisionGap
| PreviousEntryHashMismatch
| PreviousSceneHashMismatch
| EntryHashMismatch.

Record ReplayIntegrityError := mkIntegrityError {
  rie_entry_index : N;
  rie_kind : ReplayIntegrityErrorKind;
}.

Inductive ReplayTailErrorKind : Type :=
| InvalidConfig (error : ReplayConfigError)
| InvalidHeader
| Truncated
| TailLogSizeExceeded
| TailEntrySizeExceeded
| TailEntryCapacityExceeded
| MalformedEntry
| TailInvalidPatch (error : CodecError)
| NonCanonicalPatch
| Integrity (kind : ReplayIntegrityErrorKind).

Record ReplayTailError := mkTailError {
  rte_verified_entries : N;
  rte_offset : N;
  rte_kind : ReplayTailErrorKind;
}.

Record ReplayLoad := mkLoad { load_log : ReplayLog; load_tail : option ReplayTailError }.

Inductive RecordedApplyError : Type :=
| RecordedCodec (error : CodecError)
| EntryCapacityFull (limit : N)
| EntrySizeExceeded (actual limit : N)
| LogSizeExceeded (actual limit : N)
| RecordedWorldError (error : WorldApplyError)
| RecordedInvariant (error : WorldInvariantError).

Inductive ReplayError : Type :=
| ReplayTail (error : ReplayTailError)
| ReplayIntegrity (error : ReplayIntegrityError)
| ReplayWorld (entry_index : N) (source : WorldApplyError)
| ReplayInvariant (entry_index : N) (source : WorldInvariantError)
| RevisionMismatch (entry_index : N)
| SceneHashMismatch (entry_index : N).

(** ** Entries *)

(** [ReplayEntry::encoded_bytes]. *)
Definition entry_encoded_bytes (e : ReplayEntry) : N :=
  ENTRY_ENVELOPE_BYTES + N.of_nat (length (en_patch_bytes e)).

(** [ReplayEntry::update_hash_fields]: the bytes fed to the hasher. *)
Definition update_hash_fields {F} (e : ReplayEntry) : outcome F bytes :=
  let! patch_len := expect (try_from_len u32_max (length (en_patch_bytes e))) in
  Ok (to_be_bytes 2 ENTRY_FORMAT_VERSION
      ++ to_be_bytes 8 (en_sequence e)
      ++ to_be_bytes 8 (en_estimated_visible_frame e)
      ++ to_be_bytes 8 (en_previous_revision e)
      ++ to_be_bytes 8 (en_new_revision e)
      ++ en_previous_scene_hash e
      ++ en_new_scene_hash e
      ++ en_previous_entry_hash e
      ++ to_be_bytes 4 patch_len
      ++ en_patch_bytes e).

(** [ReplayEntry::encode_into]: the bytes appended. *)
Definition encode_into {F} (encoded : bytes) (e : ReplayEntry) : outcome F bytes :=
  let body_len := FIXED_ENTRY_BODY_BYTES + N.of_nat (length (en_patch_bytes e)) in
  let! body_len := expect (if body_len <=? u32_max then Some body_len else None) in
  let! patch_len := expect (try_from_len u32_max (length (en_patch_bytes e))) in
  Ok (encoded
      ++ to_be_bytes 4 body_len
      ++ to_be_bytes 2 ENTRY_FORMAT_VERSION
      ++ to_be_bytes 8 (en_sequence e)
      ++ to_be_bytes 8 (en_estimated_visible_frame e)
      ++ to_be_bytes 8 (en_previous_revision e)
      ++ to_be_bytes 8 (en_new_revision e)
      ++ en_previous_scene_hash e
      ++ en_new_scene_hash e
      ++ en_previous_entry_hash e
      ++ to_be_bytes 4 patch_len
      ++ en_patch_bytes e
      ++ en_entry_hash e).

(** ** Reading entries

    The state of [EntryReader] is the unread suffix [encoded[position..]]. *)

(** [EntryReader::read_bytes] and [read_array]. *)
Definition read_bytes (unread : bytes) (length_ : nat) : outcome ReplayTailErrorKind (bytes * bytes) :=
  if decide (length_ ≤ length unread)%nat then Ok (take length_ unread, drop length_ unread)
  else Err MalformedEntry.

(** [read_u16], [read_u32] and [read_u64], by width. *)
Definition read_uint (width : nat) (unread : bytes) : outcome ReplayTailErrorKind (N * bytes) :=
  let! r := read_bytes unread width in
  Ok (from_be_bytes r.1, r.2).

Section replay.
Context `{Digest} `{JsonCodec ScenePatch}.

(** [ReplayEntry::compute_hash]. *)
Definition compute_hash {F} (e : ReplayEntry) : outcome F ReplayEntryHash :=
  let! fields := update_hash_fields e in
  Ok (sha256 (ENTRY_HASH_DOMAIN ++ fields)).

(** [ReplayEntry::new]. *)
Definition entry_new {F} (patch : ScenePatch) (patch_bytes : bytes) (m : ReplayEntryMetadata)
    : outcome F ReplayEntry :=
  let entry := mkEntry (md_sequence m) patch patch_bytes (md_estimated_visible_frame m)
    (md_previous_revision m) (md_new_revision m) (md_previous_scene_hash m) (md_new_scene_hash m)
    (md_previous_entry_hash m) entry_hash_zero in
  let! hash := compute_hash entry in
  Ok (mkEntry (md_sequence m) patch patch_bytes (md_estimated_visible_frame m)
    (md_previous_revision m) (md_new_revision m) (md_previous_scene_hash m) (md_new_scene_hash m)
    (md_previous_entry_hash m) hash).

(** [decode_entry]. *)
Definition decode_entry (encoded : bytes) (limits : RuntimeLimits)
    : outcome ReplayTailErrorKind ReplayEntry :=
  do! guard_err (N.of_nat (length encoded) <? FIXED_ENTRY_BODY_BYTES) MalformedEntry then
  let! (version, r) := read_uint 2 encoded in
  do! guard_err (negb (version =? ENTRY_FORMAT_VERSION)) MalformedEntry then
  let! (sequence, r) := read_uint 8 r in
  let! (frame, r) := read_uint 8 r in
  let! estimated_visible_frame := map_err (λ _, MalformedEntry) (frame_id_new frame) in
  let! (previous_revision, r) := read_uint 8 r in
  let! (new_revision, r) := read_uint 8 r in
  let! (previous_scene_hash, r) := read_bytes r 32 in
  let! (new_scene_hash, r) := read_bytes r 32 in
  let! (previous_entry_hash, r) := read_bytes r 32 in
  let! (patch_len, r) := read_uint 4 r in
  do! guard_err (negb (N.of_nat (length r) =? patch_len + 32)) MalformedEntry then
  let! (patch_bytes, r) := read_bytes r (N.to_nat patch_len) in
  let! (entry_hash, r) := read_bytes r 32 in
  let! patch := map_err TailInvalidPatch (decode patch_bytes limits) in
  let! canonical := map_err TailInvalidPatch (encode patch limits) in
  do! guard_err (negb (bool_decide (canonical = patch_bytes))) NonCanonicalPatch then
  Ok (mkEntry sequence patch patch_bytes estimated_visible_frame previous_revision new_revision
    previous_scene_hash new_scene_hash previous_entry_hash entry_hash).

(** ** Logs *)

(** [ReplayLog::new]. *)
Definition log_new (config : ReplayConfig) : ReplayLog :=
  mkLog config [] (N.of_nat (length REPLAY_HEADER)).

(** [ReplayLog::last_entry_hash]. *)
Definition last_entry_hash (log : ReplayLog) : ReplayEntryHash :=
  match last (log_entries log) with Some e => en_entry_hash e | None => entry_hash_zero end.

(** [entries.last().map_or(INITIAL, new_revision)]. *)
Definition last_revision (log : ReplayLog) : SceneRevision :=
  match last (log_entries log) with Some e => en_new_revision e | None => revision_initial end.

(** [ReplayLog::append]. *)
Definition log_append (log : ReplayLog) (e : ReplayEntry) : ReplayLog :=
  mkLog (log_config log) (log_entries log ++ [e]) (sat_add64 (log_encoded_bytes log) (entry_encoded_bytes e)).

Definition revision_gap (e : ReplayEntry) (previous_revision : SceneRevision) : bool :=
  negb (en_previous_revision e =? previous_revision)
  || negb (bool_decide (out_ok (checked_next (en_previous_revision e)) = Some (en_new_revision e))).

(** The loop of [ReplayLog::verify] from position [index]; the state is the
    previous entry hash, scene hash and revision. *)
Fixpoint verify_loop (index : nat) (previous_entry_hash : ReplayEntryHash)
    (previous_scene_hash : option LogicalSceneHash) (previous_revision : SceneRevision)
    (entries : list ReplayEntry)
    : outcome ReplayIntegrityError (ReplayEntryHash * option LogicalSceneHash * SceneRevision) :=
  match entries with
  | [] => Ok (previous_entry_hash, previous_scene_hash, previous_revision)
  | entry :: entries =>
      let! entry_index := expect (try_from_len u32_max index) in
      do! guard_err (negb (en_sequence entry =? entry_index + 1)) (mkIntegrityError entry_index SequenceGap) then
      do! guard_err (revision_gap entry previous_revision) (mkIntegrityError entry_index RevisionGap) then
      do! guard_err (negb (bool_decide (en_previous_entry_hash entry = previous_entry_hash)))
        (mkIntegrityError entry_index PreviousEntryHashMismatch) then
      do! guard_err (match previous_scene_hash with
                     | Some hash => negb (bool_decide (hash = en_previous_scene_hash entry))
                     | None => false
                     end)
        (mkIntegrityError entry_index PreviousSceneHashMismatch) then
      let! computed := compute_hash entry in
      do! guard_err (negb (bool_decide (en_entry_hash entry = computed)))
        (mkIntegrityError entry_index EntryHashMismatch) then
      verify_loop (S index) (en_entry_hash entry) (Some (en_new_scene_hash entry)) (en_new_revision entry)
        entries
  end.

(** [ReplayLog::verify]. *)
Definition verify (log : ReplayLog) : outcome ReplayIntegrityError ReplayVerification :=
  let! (entry_hash, scene_hash, revision) :=
    verify_loop 0 entry_hash_zero None revision_initial (log_entries log) in
  let! entry_count := expect (try_from_len u32_max (length (log_entries log))) in
  Ok (mkVerification entry_count revision scene_hash entry_hash).

(** [ReplayLog::verify_next]. *)
Definition verify_next (log : ReplayLog) (entry : ReplayEntry) : outcome ReplayIntegrityError unit :=
  let! entry_index := expect (try_from_len u32_max (length (log_entries log))) in
  do! guard_err (negb (en_sequence entry =? entry_index + 1)) (mkIntegrityError entry_index SequenceGap) then
  do! guard_err (revision_gap entry (last_revision log)) (mkIntegrityError entry_index RevisionGap) then
  do! guard_err (negb (bool_decide (en_previous_entry_hash entry = last_entry_hash log)))
    (mkIntegrityError entry_index PreviousEntryHashMismatch) then
  do! guard_err (match last (log_entries log) with
                 | Some previous => negb (bool_decide (en_new_scene_hash previous = en_previous_scene_hash entry))
                 | None => false
                 end)
    (mkIntegrityError entry_index PreviousSceneHashMismatch) then
  let! computed := compute_hash entry in
  guard_err (negb (bool_decide (en_entry_hash entry = computed)))
    (mkIntegrityError entry_index EntryHashMismatch).

(** [ReplayLog::to_bytes]. *)
Definition to_bytes {F} (log : ReplayLog) : outcome F bytes :=
  out_fold encode_into REPLAY_HEADER (log_entries log).

(** [ReplayLog::to_bytes_through_revision]. *)
Definition to_bytes_through_revision (log : ReplayLog) (revision : SceneRevision)
    : outcome ReplayRevisionError bytes :=
  let latest := last_revision log in
  do! guard_err (latest <? revision) (mkRevisionError revision latest) then
  let entry_count := N.to_nat revision in
  let! entries := expect (if decide (entry_count ≤ length (log_entries log))%nat
                          then Some (take entry_count (log_entries log)) else None) in
  do! out_fold (λ total entry, expect (checked_add u64_max total (entry_encoded_bytes entry)))
    (N.of_nat (length REPLAY_HEADER)) entries then
  out_fold encode_into REPLAY_HEADER entries.

(** [ReplayLoad::with_tail]. *)
Definition with_tail {F} (log : ReplayLog) (offset : nat) (kind : ReplayTailErrorKind) : outcome F ReplayLoad :=
  let! verified_entries := expect (try_from_len u32_max (length (log_entries log))) in
  Ok (mkLoad log (Some (mkTailError verified_entries (N.of_nat offset) kind))).

(** The [while] loop of [ReplayLog::load_prefix]. *)
Fixpoint load_loop (fuel : nat) (encoded : bytes) (config : ReplayConfig) (limits : RuntimeLimits)
    (log : ReplayLog) (offset : nat) : outcome Empty_set ReplayLoad :=
  match fuel with
  | O => OutOfFuel
  | S fuel =>
      if decide (offset < length encoded)%nat then
        match slice_get encoded offset 4 with
        | None => with_tail log offset Truncated
        | Some length_bytes =>
            let body_len := from_be_bytes length_bytes in
            let framed_len := body_len + FRAME_LENGTH_BYTES in
            if max_entry_bytes config <? framed_len then with_tail log offset TailEntrySizeExceeded
            else if max_entries config <=? N.of_nat (length (log_entries log))
            then with_tail log offset TailEntryCapacityExceeded
            else
              match slice_get encoded (offset + 4) (N.to_nat body_len) with
              | None => with_tail log offset Truncated
              | Some body =>
                  match decode_entry body limits with
                  | Err kind => with_tail log offset kind
                  | Panic => Panic
                  | OutOfFuel => OutOfFuel
                  | Ok entry =>
                      match verify_next log entry with
                      | Err error => with_tail log offset (Integrity (rie_kind error))
                      | Panic => Panic
                      | OutOfFuel => OutOfFuel
                      | Ok _ =>
                          load_loop fuel encoded config limits
                            (mkLog (log_config log) (log_entries log ++ [entry])
                               (sat_add64 (log_encoded_bytes log) framed_len))
                            (offset + 4 + N.to_nat body_len)
                      end
                  end
              end
        end
      else Ok (mkLoad log None)
  end.

(** [ReplayLog::load_prefix]. *)
Definition load_prefix (encoded : bytes) (config : ReplayConfig) (limits : RuntimeLimits)
    : outcome Empty_set ReplayLoad :=
  let log := log_new config in
  match replay_config_validate config with
  | Err error => with_tail log 0 (InvalidConfig error)
  | _ =>
      if max_log_bytes config <? N.of_nat (length encoded) then with_tail log 0 TailLogSizeExceeded
      else if negb (bool_decide (slice_get encoded 0 (length REPLAY_HEADER) = Some REPLAY_HEADER))
      then with_tail log 0 InvalidHeader
      else load_loop (S (length encoded)) encoded config limits log (length REPLAY_HEADER)
  end.

(** ** Replay into a world *)

Context {W E : Type} `{EntityStore W E}.

(** The loop of [ReplayLog::replay] from position [index]; [clocks] gives the
    clock readings of each application. *)
Fixpoint replay_loop (clocks : nat → N * N) (index : nat) (world : AuthoritativeWorld W E)
    (entries : list ReplayEntry) : outcome ReplayError (AuthoritativeWorld W E) :=
  match entries with
  | [] => Ok world
  | entry :: entries =>
      let! entry_index := expect (try_from_len u32_max index) in
      let! previous_hash := map_err (ReplayInvariant entry_index) (logical_hash world) in
      do! guard_err (negb (revision world =? en_previous_revision entry)
                     || negb (bool_decide (previous_hash = en_previous_scene_hash entry)))
        (SceneHashMismatch entry_index) then
      let! (receipt, world) := map_err (ReplayWorld entry_index)
        (apply_patch world (en_patch entry) (en_estimated_visible_frame entry) (clocks index)) in
      do! guard_err (negb (bool_decide (receipt_status receipt = Applied))
                     || negb (receipt_previous_revision receipt =? en_previous_revision entry)
                     || negb (receipt_new_revision receipt =? en_new_revision entry))
        (RevisionMismatch entry_index) then
      let! new_hash := map_err (ReplayInvariant entry_index) (logical_hash world) in
      do! guard_err (negb (bool_decide (new_hash = en_new_scene_hash entry))) (SceneHashMismatch entry_index) then
      replay_loop clocks (S index) world entries
  end.

(** [ReplayLog::replay]. *)
Definition replay (log : ReplayLog) (world_config : WorldConfig) (clocks : nat → N * N)
    : outcome ReplayError (AuthoritativeWorld W E) :=
  do! map_err ReplayIntegrity (verify log) then
  replay_loop clocks 0 (world_new world_config) (log_entries log).

(** ** Recorded worlds *)

Record RecordedWorld := mkRecorded {
  rw_world : AuthoritativeWorld W E;
  rw_world_config : WorldConfig;
  rw_log : ReplayLog;
}.

(** [RecordedWorld::new]. *)
Definition recorded_new (world_config : WorldConfig) (replay_config : ReplayConfig)
    : outcome ReplayConfigError RecordedWorld :=
  do! replay_config_validate replay_config then
  Ok (mkRecorded (world_new world_config) world_config (log_new replay_config)).

(** [RecordedWorld::restore]. *)
Definition recorded_restore (world_config : WorldConfig) (log : ReplayLog) (clocks : nat → N * N)
    : outcome ReplayError RecordedWorld :=
  let! world := replay log world_config clocks in
  Ok (mkRecorded world world_config log).

(** [RecordedWorld::take_render_extraction]. *)
Definition recorded_take_render_extraction (rw : RecordedWorld)
    : outcome WorldExtractionError (RenderExtraction * RecordedWorld) :=
  let! (x, world) := take_render_extraction (rw_world rw) in
  Ok (x, mkRecorded world (rw_world_config rw) (rw_log rw)).

(** [RecordedWorld::replay]. *)
Definition recorded_replay (rw : RecordedWorld) (clocks : nat → N * N)
    : outcome ReplayError (AuthoritativeWorld W E) :=
  replay (rw_log rw) (rw_world_config rw) clocks.

(** The world inside a recorded world.  [AuthoritativeWorld::apply_patch] and
    [take_render_extraction] change the world only after their last check. *)
Definition put_world (world : AuthoritativeWorld W E) (rw : RecordedWorld) : RecordedWorld :=
  mkRecorded world (rw_world_config rw) (rw_log rw).
Definition put_log (log : ReplayLog) (rw : RecordedWorld) : RecordedWorld := mkRecorded (rw_world rw) (rw_world_config rw) log.

Definition world_apply (patch : ScenePatch) (frame : FrameId) (clock : N * N)
    : RecordedWorld → RecordedWorld * outcome RecordedApplyError ApplyReceipt :=
  mut_in rw_world put_world (mut_last (λ w, map_err RecordedWorldError (apply_patch w patch frame clock))).

(** [RecordedWorld::apply_patch]: the recorded world it leaves and its result. *)
Definition recorded_apply_patch (rw : RecordedWorld) (patch : ScenePatch) (frame : FrameId) (clock : N * N)
    : RecordedWorld * outcome RecordedApplyError ApplyReceipt :=
  if is_some (recorded_transaction (rw_world rw) (patch_idempotency_key patch)) then world_apply patch frame clock rw
  else
    (mut! patch_bytes := mut_read (λ rw, map_err RecordedCodec (encode patch (runtime_limits (rw_world_config rw)))) in
     let entry_bytes := sat_add64 ENTRY_ENVELOPE_BYTES (N.of_nat (length patch_bytes)) in
     mut! _ := mut_read (λ rw, guard_err (max_entries (log_config (rw_log rw)) <=? N.of_nat (length (log_entries (rw_log rw))))
       (EntryCapacityFull (max_entries (log_config (rw_log rw))))) in
     mut! _ := mut_read (λ rw, guard_err (max_entry_bytes (log_config (rw_log rw)) <? entry_bytes)
       (EntrySizeExceeded entry_bytes (max_entry_bytes (log_config (rw_log rw))))) in
     mut! _ := mut_read (λ rw, let new_log_bytes := sat_add64 (log_encoded_bytes (rw_log rw)) entry_bytes in
       guard_err (max_log_bytes (log_config (rw_log rw)) <? new_log_bytes)
         (LogSizeExceeded new_log_bytes (max_log_bytes (log_config (rw_log rw))))) in
     mut! previous_revision := mut_read (λ rw, Ok (revision (rw_world rw))) in
     mut! previous_scene_hash := mut_read (λ rw, map_err RecordedInvariant (logical_hash (rw_world rw))) in
     mut! receipt := world_apply patch frame clock in
     mut! new_scene_hash := mut_read (λ rw, map_err RecordedInvariant (logical_hash (rw_world rw))) in
     mut! sequence := mut_read (λ rw, expect (checked_add u64_max (N.of_nat (length (log_entries (rw_log rw)))) 1)) in
     mut! entry := mut_read (λ rw, entry_new patch patch_bytes
       (mkEntryMetadata sequence frame previous_revision (receipt_new_revision receipt)
          previous_scene_hash new_scene_hash (last_entry_hash (rw_log rw)))) in
     mut! _ := mut_read (λ _, debug_assert (entry_encoded_bytes entry =? entry_bytes)) in
     mut! _ := mut_write (λ rw, put_log (log_append (rw_log rw) entry) rw) in
     mut_ret receipt) rw.

End replay.

Arguments RecordedWorld : clear implicits.
