(* ===== verification/ReplayCodec.v ===== *)
(** * The replay stream: entries, chains and loading

    Entry encoding and decoding are inverse, verification accepts exactly the
    chained logs, and loading a stream recovers the verified log that produced
    it or the longest verified prefix. *)

From S2P Require Import Prelude Machine BTree Floats Values Components Messages MessageSpec Codec Ecs WorldTypes Hierarchy Render World SceneSpec CommitRefine WorldInvariant Extraction Hash Replay.

Open Scope N_scope.

(** ** Entries as bytes *)

Definition entry_fields (e : ReplayEntry) : bytes :=
  to_be_bytes 2 ENTRY_FORMAT_VERSION ++ to_be_bytes 8 (en_sequence e)
  ++ to_be_bytes 8 (en_estimated_visible_frame e) ++ to_be_bytes 8 (en_previous_revision e)
  ++ to_be_bytes 8 (en_new_revision e) ++ en_previous_scene_hash e ++ en_new_scene_hash e
  ++ en_previous_entry_hash e ++ to_be_bytes 4 (N.of_nat (length (en_patch_bytes e))) ++ en_patch_bytes e.

Definition entry_body (e : ReplayEntry) : bytes := entry_fields e ++ en_entry_hash e.

Definition entry_frame (e : ReplayEntry) : bytes :=
  to_be_bytes 4 (N.of_nat (length (entry_body e))) ++ entry_body e.

(** What the fields of an entry can hold, with a patch that fits its frame. *)
Record typed_entry (e : ReplayEntry) : Prop := {
  te_sequence : en_sequence e ≤ u64_max;
  te_frame : 0 < en_estimated_visible_frame e ≤ u64_max;
  te_previous : en_previous_revision e ≤ u64_max;
  te_new : en_new_revision e ≤ u64_max;
  te_previous_scene : length (en_previous_scene_hash e) = 32%nat;
  te_new_scene : length (en_new_scene_hash e) = 32%nat;
  te_previous_entry : length (en_previous_entry_hash e) = 32%nat;
  te_entry : length (en_entry_hash e) = 32%nat;
  te_patch : 166 + N.of_nat (length (en_patch_bytes e)) ≤ u32_max;
}.

Lemma entry_body_length e : typed_entry e → N.of_nat (length (entry_body e)) = 166 + N.of_nat (length (en_patch_bytes e)).
Proof.
  intros []. unfold entry_body, entry_fields. rewrite !length_app, !length_to_be_bytes. lia.
Qed.

Lemma entry_frame_length e : typed_entry e → N.of_nat (length (entry_frame e)) = entry_encoded_bytes e.
Proof.
  intros He. unfold entry_frame. rewrite length_app, length_to_be_bytes, Nat2N.inj_add, entry_body_length by done.
  unfold entry_encoded_bytes, ENTRY_ENVELOPE_BYTES, FRAME_LENGTH_BYTES, FIXED_ENTRY_BODY_BYTES. lia.
Qed.

Lemma patch_len_ok e :
  typed_entry e →
  try_from_len u32_max (length (en_patch_bytes e)) = Some (N.of_nat (length (en_patch_bytes e))).
Proof. intros He. pose proof (te_patch _ He). apply try_from_len_Some. split; [done|lia]. Qed.

Lemma update_hash_fields_ok {F} e : typed_entry e → update_hash_fields (F:=F) e = Ok (entry_fields e).
Proof.
  intros He. unfold update_hash_fields. by rewrite patch_len_ok.
Qed.

Lemma encode_into_ok {F} b e : typed_entry e → encode_into (F:=F) b e = Ok (b ++ entry_frame e).
Proof.
  intros He. pose proof (te_patch _ He) as Hp. unfold encode_into, FIXED_ENTRY_BODY_BYTES.
  rewrite (proj2 (N.leb_le _ _) Hp). cbn [expect out_bind].
  rewrite patch_len_ok by done. cbn [expect out_bind]. unfold entry_frame. rewrite entry_body_length by done.
  unfold entry_body, entry_fields. by rewrite <-!app_assoc.
Qed.

Lemma encode_fold_ok {F} b l :
  Forall typed_entry l → out_fold (encode_into (F:=F)) b l = Ok (b ++ mjoin (entry_frame <$> l)).
Proof.
  intros Hl. revert b. induction Hl as [|e l He _ IH]; intros b; [by rewrite app_nil_r|].
  cbn [out_fold]. rewrite encode_into_ok by done. cbn [out_bind]. rewrite IH, fmap_cons.
  cbn [mjoin list_join]. by rewrite <-app_assoc.
Qed.

(** ** Reading back *)

Lemma read_bytes_app v rest n : length v = n → read_bytes (v ++ rest) n = Ok (v, rest).
Proof.
  intros <-. unfold read_bytes. rewrite decide_True by (rewrite length_app; lia).
  by rewrite take_app_length, drop_app_length.
Qed.

Lemma read_bytes_inv b n v rest : read_bytes b n = Ok (v, rest) → b = v ++ rest ∧ length v = n.
Proof.
  unfold read_bytes. case_decide; [|done]. intros [= <- <-]. rewrite take_drop, length_take. split; [done|lia].
Qed.

Lemma read_uint_be n v rest : v < 256 ^ N.of_nat n → read_uint n (to_be_bytes n v ++ rest) = Ok (v, rest).
Proof.
  intros Hv. unfold read_uint. rewrite read_bytes_app by apply length_to_be_bytes.
  cbn [out_bind fst snd]. by rewrite from_to_be_bytes.
Qed.

Lemma read_uint_inv n b v rest :
  read_uint n b = Ok (v, rest) → b = to_be_bytes n v ++ rest ∧ v < 256 ^ N.of_nat n.
Proof.
  unfold read_uint. intros ([u r] & Hr & He)%out_bind_ok. cbn [fst snd] in He. injection He as <- <-.
  apply read_bytes_inv in Hr as [-> <-]. rewrite to_from_be_bytes. split; [done|apply from_be_bytes_lt].
Qed.

Lemma u64_fits v : v ≤ u64_max → v < 256 ^ N.of_nat 8.
Proof. unfold u64_max. intros Hv. change (256 ^ N.of_nat 8) with 18446744073709551616. lia. Qed.

Lemma u64_bound v : v < 256 ^ N.of_nat 8 → v ≤ u64_max.
Proof. unfold u64_max. change (256 ^ N.of_nat 8) with 18446744073709551616. lia. Qed.

Section entries.
Context `{Digest} `{JsonCodec ScenePatch}.

(** An entry whose patch bytes are the canonical encoding of its patch. *)
Definition canonical_entry (limits : RuntimeLimits) (e : ReplayEntry) : Prop :=
  decode (en_patch_bytes e) limits = Ok (en_patch e) ∧ encode (en_patch e) limits = Ok (en_patch_bytes e).

Lemma decode_entry_body e limits :
  typed_entry e → canonical_entry limits e → decode_entry (entry_body e) limits = Ok e.
Proof.
  intros He [Hdec Henc]. unfold decode_entry. rewrite entry_body_length by done.
  rewrite (proj2 (N.ltb_ge _ _)) by (unfold FIXED_ENTRY_BODY_BYTES; lia). cbn [guard_err out_bind].
  unfold entry_body, entry_fields. rewrite <-!app_assoc. destruct He.
  rewrite (read_uint_be 2) by reflexivity. cbn [out_bind]. rewrite N.eqb_refl. cbn [negb guard_err out_bind].
  rewrite (read_uint_be 8) by (apply u64_fits; lia). cbn [out_bind].
  rewrite (read_uint_be 8) by (apply u64_fits; lia). cbn [out_bind].
  unfold frame_id_new, non_zero. rewrite (proj2 (N.eqb_neq _ _)) by lia. cbn [map_err out_bind].
  rewrite (read_uint_be 8) by (apply u64_fits; lia). cbn [out_bind].
  rewrite (read_uint_be 8) by (apply u64_fits; lia). cbn [out_bind].
  do 3 (rewrite read_bytes_app by done; cbn [out_bind]).
  rewrite (read_uint_be 4) by (apply u32_fits; lia). cbn [out_bind].
  rewrite length_app, te_entry0, Nat2N.inj_add, N.eqb_refl. cbn [negb guard_err out_bind].
  rewrite Nat2N.id, read_bytes_app by done. cbn [out_bind].
  rewrite <-(app_nil_r (en_entry_hash e)), read_bytes_app by done. cbn [out_bind].
  rewrite Hdec. cbn [map_err out_bind]. rewrite Henc. cbn [map_err out_bind].
  rewrite bool_decide_true by done. cbn [negb guard_err out_bind]. by destruct e.
Qed.

Lemma decode_entry_inv b limits e :
  N.of_nat (length b) ≤ u32_max → decode_entry b limits = Ok e →
  b = entry_body e ∧ typed_entry e ∧ canonical_entry limits e.
Proof.
  intros Hlen Hd. unfold decode_entry in Hd.
  repeat (inv_ok; repeat match goal with p : (_ * _)%type |- _ => destruct p end; cbv beta iota in Hd).
  repeat match goal with
  | Hr : read_uint _ _ = Ok _ |- _ => apply read_uint_inv in Hr as [-> ?]
  | Hr : read_bytes _ _ = Ok _ |- _ => apply read_bytes_inv in Hr as [-> ?]
  end.
  repeat match goal with Hn : negb _ = false |- _ => apply negb_false_iff in Hn end.
  repeat match goal with He : (_ =? _) = true |- _ => apply N.eqb_eq in He end.
  rename select (bool_decide _ = true) into Hcan. apply bool_decide_eq_true in Hcan.
  rename select (frame_id_new _ = Ok _) into Hf. unfold frame_id_new, non_zero in Hf.
  case_match; [|done]. case_match; [done|]. simplify_eq.
  rename select ((_ =? 0) = false) into Hnz. apply N.eqb_neq in Hnz.
  rename select (N.of_nat (length (_ ++ _)) = _ + 32) into Hrest. rewrite !length_app in Hrest.
  rename select (length _ = N.to_nat _) into Hpl.
  match type of Hrest with context [(_ + (_ + length ?t))%nat] =>
    assert (t = []) as -> by (apply nil_length_inv; lia) end.
  rewrite !length_app, !length_to_be_bytes in Hlen. split_and!.
  - unfold entry_body, entry_fields. cbn. rewrite <-!app_assoc, app_nil_r, Hpl, N2Nat.id. done.
  - split; cbn; try done; try (by apply u64_bound); [split; [lia|by apply u64_bound]|]. lia.
  - done.
Qed.

End entries.

(** ** Chains *)

Section chains.
Context `{Digest}.

Definition last_hash (l : list ReplayEntry) : bytes :=
  match last l with Some e => en_entry_hash e | None => entry_hash_zero end.
Definition last_rev (l : list ReplayEntry) : N :=
  match last l with Some e => en_new_revision e | None => revision_initial end.
Definition last_scene (l : list ReplayEntry) : option bytes := en_new_scene_hash <$> last l.

(** [link pre e]: [e] continues the entries [pre]. *)
Record link (pre : list ReplayEntry) (e : ReplayEntry) : Prop := {
  li_sequence : en_sequence e = N.of_nat (length pre) + 1;
  li_previous : en_previous_revision e = last_rev pre;
  li_new : en_new_revision e = last_rev pre + 1 ∧ last_rev pre + 1 ≤ u64_max;
  li_entry : en_previous_entry_hash e = last_hash pre;
  li_scene : ∀ h, last_scene pre = Some h → h = en_previous_scene_hash e;
  li_hash : compute_hash (F:=ReplayIntegrityError) e = Ok (en_entry_hash e);
}.

Inductive chained : list ReplayEntry → Prop :=
| chained_nil : chained []
| chained_snoc pre e : chained pre → link pre e → chained (pre ++ [e]).

Lemma revision_gap_false e r :
  revision_gap e r = false ↔ en_previous_revision e = r ∧ en_new_revision e = r + 1 ∧ r + 1 ≤ u64_max.
Proof.
  unfold revision_gap. rewrite orb_false_iff, !negb_false_iff, N.eqb_eq, bool_decide_eq_true.
  unfold checked_next. destruct (checked_add u64_max (en_previous_revision e) 1) as [v|] eqn:Ec; cbn [out_ok].
  - apply checked_add_Some in Ec as [-> Hle]. split.
    + intros [Hr [= Hn]]. subst r. done.
    + intros (-> & -> & _). done.
  - apply checked_add_None in Ec. split; [by intros []|]. intros (Hr & _ & ?). rewrite Hr in Ec. lia.
Qed.

(** The checks of one turn of [verify], against the state after [pre]. *)
Definition link_check (pre : list ReplayEntry) (e : ReplayEntry) : outcome ReplayIntegrityError unit :=
  let n := N.of_nat (length pre) in
  do! guard_err (negb (en_sequence e =? n + 1)) (mkIntegrityError n SequenceGap) then
  do! guard_err (revision_gap e (last_rev pre)) (mkIntegrityError n RevisionGap) then
  do! guard_err (negb (bool_decide (en_previous_entry_hash e = last_hash pre)))
    (mkIntegrityError n PreviousEntryHashMismatch) then
  do! guard_err (match last_scene pre with
                 | Some hash => negb (bool_decide (hash = en_previous_scene_hash e)) | None => false end)
    (mkIntegrityError n PreviousSceneHashMismatch) then
  let! computed := compute_hash e in
  guard_err (negb (bool_decide (en_entry_hash e = computed))) (mkIntegrityError n EntryHashMismatch).

Lemma link_checks pre e : link_check pre e = Ok tt ↔ link pre e.
Proof.
  unfold link_check. cbv zeta. split.
  - intros Hok. inv_ok. repeat match goal with Hn : negb _ = false |- _ => apply negb_false_iff in Hn end.
    repeat match goal with Hb : bool_decide _ = true |- _ => apply bool_decide_eq_true in Hb end.
    rename select ((_ =? _) = true) into Hs. apply N.eqb_eq in Hs.
    rename select (revision_gap _ _ = false) into Hr. apply revision_gap_false in Hr as (? & ? & ?).
    split; try done; [|congruence]. intros h Hh. rewrite Hh in *.
    rename select (negb _ = false) into Hsc. by apply negb_false_iff, bool_decide_eq_true in Hsc.
  - intros [-> Hp [Hn Hm] -> Hsc Hh]. rewrite N.eqb_refl. cbn [negb guard_err out_bind].
    rewrite (proj2 (revision_gap_false _ _)) by done. cbn [guard_err out_bind].
    rewrite bool_decide_true by done. cbn [negb guard_err out_bind].
    destruct (last_scene pre) as [h|].
    + rewrite (bool_decide_true (h = _)) by by apply Hsc. cbn [negb guard_err out_bind].
      rewrite Hh. cbn [out_bind]. by rewrite bool_decide_true.
    + cbn [guard_err out_bind]. rewrite Hh. cbn [out_bind]. by rewrite bool_decide_true.
Qed.

(** [verify_next] accepts exactly the continuing entries. *)
Lemma verify_next_link log e :
  N.of_nat (length (log_entries log)) ≤ u32_max →
  verify_next log e = Ok tt ↔ link (log_entries log) e.
Proof.
  intros Hlen. rewrite <-link_checks. unfold verify_next, link_check.
  rewrite (proj2 (try_from_len_Some u32_max _ _) (conj eq_refl Hlen)). cbn [expect out_bind].
  change (last_revision log) with (last_rev (log_entries log)).
  change (last_entry_hash log) with (last_hash (log_entries log)).
  unfold last_scene. by destruct (last (log_entries log)).
Qed.

Lemma last_hash_snoc pre e : last_hash (pre ++ [e]) = en_entry_hash e.
Proof. unfold last_hash. by rewrite last_snoc. Qed.
Lemma last_rev_snoc pre e : last_rev (pre ++ [e]) = en_new_revision e.
Proof. unfold last_rev. by rewrite last_snoc. Qed.
Lemma last_scene_snoc pre e : last_scene (pre ++ [e]) = Some (en_new_scene_hash e).
Proof. unfold last_scene. by rewrite last_snoc. Qed.

Lemma chained_inv pre e : chained (pre ++ [e]) → chained pre ∧ link pre e.
Proof.
  inversion 1 as [Hn|pre' e' Hc Hl Heq]; [by destruct pre|].
  by apply app_inj_tail in Heq as [-> ->].
Qed.

Lemma chained_prefix a b : chained (a ++ b) → chained a.
Proof.
  induction b as [|e b IH] using rev_ind; [by rewrite app_nil_r|].
  rewrite app_assoc. intros [Hc _]%chained_inv. by apply IH.
Qed.

Lemma verify_loop_step pre e l :
  N.of_nat (length pre) ≤ u32_max →
  verify_loop (length pre) (last_hash pre) (last_scene pre) (last_rev pre) (e :: l)
  = do! link_check pre e then
    verify_loop (length (pre ++ [e])) (last_hash (pre ++ [e])) (last_scene (pre ++ [e]))
      (last_rev (pre ++ [e])) l.
Proof.
  intros Hlen. cbn [verify_loop]. unfold link_check. cbv zeta.
  rewrite (proj2 (try_from_len_Some u32_max _ _) (conj eq_refl Hlen)). cbn [expect out_bind].
  rewrite last_hash_snoc, last_scene_snoc, last_rev_snoc, length_app. cbn [length]. rewrite Nat.add_1_r.
  repeat match goal with |- context [guard_err ?b _] => destruct b; cbn [guard_err out_bind]; [done|] end.
  destruct (compute_hash e); cbn [out_bind]; [|done..]. by destruct (negb _).
Qed.

(** The loop of [verify] accepts exactly the chained entries. *)
Lemma verify_loop_ok pre l st :
  chained pre → N.of_nat (length (pre ++ l)) ≤ u32_max →
  verify_loop (length pre) (last_hash pre) (last_scene pre) (last_rev pre) l = Ok st ↔
  chained (pre ++ l) ∧ st = (last_hash (pre ++ l), last_scene (pre ++ l), last_rev (pre ++ l)).
Proof.
  revert pre. induction l as [|e l IH]; intros pre Hc Hlen.
  { rewrite app_nil_r. cbn. split; [intros [= <-]; done|by intros [_ ->]]. }
  rewrite length_app in Hlen. cbn in Hlen. rewrite verify_loop_step by lia. rewrite out_bind_ok.
  assert (pre ++ e :: l = (pre ++ [e]) ++ l) as Happ by by rewrite <-app_assoc.
  rewrite Happ. split.
  - intros ([] & Hl%link_checks & Hv). apply IH in Hv; [done|by constructor|]. rewrite !length_app. cbn. lia.
  - intros [Hch ->]. pose proof (chained_prefix _ _ Hch) as Hch1.
    destruct (chained_inv _ _ Hch1) as [_ Hl]. exists tt. split; [by apply link_checks|].
    apply IH; [done| |done]. rewrite !length_app. cbn. lia.
Qed.

Lemma verify_ok log v :
  N.of_nat (length (log_entries log)) ≤ u32_max →
  verify log = Ok v ↔ chained (log_entries log) ∧
    v = mkVerification (N.of_nat (length (log_entries log))) (last_rev (log_entries log))
          (last_scene (log_entries log)) (last_hash (log_entries log)).
Proof.
  intros Hlen. unfold verify. rewrite out_bind_ok.
  setoid_rewrite (verify_loop_ok [] (log_entries log)); [|constructor|done]. cbn [app].
  rewrite (proj2 (try_from_len_Some u32_max _ _) (conj eq_refl Hlen)). split.
  - intros (st & [Hc ->] & Hv). cbn in Hv. by injection Hv as <-.
  - intros [Hc ->]. by eexists.
Qed.

(** A chained log counts revisions. *)
Lemma chained_last_rev l : chained l → last_rev l = N.of_nat (length l) ∧ N.of_nat (length l) ≤ u64_max.
Proof.
  induction 1 as [|pre e _ [IH _] Hl]; [done|]. rewrite last_rev_snoc, length_app. cbn.
  destruct (li_new _ _ Hl) as [-> Hle]. rewrite IH in *. lia.
Qed.

End chains.
