(* ===== verification/ReplayLogs.v ===== *)
(** * Replay streams: round trip, verified prefixes and tamper evidence *)

From S2P Require Import Prelude Machine BTree Floats Values Components Messages MessageSpec Codec Ecs WorldTypes Hierarchy Render World SceneSpec CommitRefine WorldInvariant Extraction Hash Replay ReplayCodec.

Open Scope N_scope.

Definition typed_replay_config (c : ReplayConfig) : Prop :=
  0 < max_entries c ≤ u32_max ∧ 0 < max_entry_bytes c ≤ u32_max ∧ 0 < max_log_bytes c ≤ u32_max.

(** The byte stream of a list of entries. *)
Definition stream (l : list ReplayEntry) : bytes := REPLAY_HEADER ++ mjoin (entry_frame <$> l).

Lemma frames_cons e l : mjoin (entry_frame <$> e :: l) = entry_frame e ++ mjoin (entry_frame <$> l).
Proof. done. Qed.

Lemma stream_snoc l e : stream (l ++ [e]) = stream l ++ entry_frame e.
Proof. unfold stream. rewrite fmap_app, join_app. cbn. by rewrite app_nil_r, app_assoc. Qed.

Lemma slice_get_suffix (a b : bytes) n :
  slice_get (a ++ b) (length a) n = if decide (n ≤ length b)%nat then Some (take n b) else None.
Proof.
  unfold slice_get. rewrite length_app, drop_app_length. by repeat case_decide; try lia.
Qed.

Lemma take_take_drop_app {A} (l : list A) n m : take n l ++ take m (drop n l) = take (n + m) l.
Proof.
  revert l. induction n as [|n IH]; intros l; [done|]. destruct l as [|x l]; cbn; [by rewrite take_nil|].
  by rewrite IH.
Qed.

Section logs.
Context `{Digest} `{JsonCodecLaws ScenePatch}.

(** A log as loading and recording build it. *)
Record log_ok (limits : RuntimeLimits) (log : ReplayLog) : Prop := {
  lo_chained : chained (log_entries log);
  lo_typed : Forall typed_entry (log_entries log);
  lo_canonical : Forall (canonical_entry limits) (log_entries log);
  lo_count : N.of_nat (length (log_entries log)) ≤ max_entries (log_config log);
  lo_entry : Forall (λ e, entry_encoded_bytes e ≤ max_entry_bytes (log_config log)) (log_entries log);
  lo_bytes : log_encoded_bytes log = N.of_nat (length (stream (log_entries log)));
  lo_size : log_encoded_bytes log ≤ max_log_bytes (log_config log);
}.

Lemma log_new_ok limits config : replay_config_validate config = Ok tt → log_ok limits (log_new config).
Proof.
  unfold replay_config_validate. intros Hv. apply guard_err_ok, N.ltb_ge in Hv.
  split; cbn; try done; [constructor|lia].
Qed.

(** Appending a continuing entry. *)
Lemma log_ok_snoc limits log e n :
  typed_replay_config (log_config log) → log_ok limits log → link (log_entries log) e → typed_entry e →
  canonical_entry limits e → N.of_nat (length (log_entries log)) < max_entries (log_config log) →
  n = entry_encoded_bytes e → n ≤ max_entry_bytes (log_config log) →
  log_encoded_bytes log + n ≤ max_log_bytes (log_config log) →
  log_ok limits (mkLog (log_config log) (log_entries log ++ [e]) (sat_add64 (log_encoded_bytes log) n)).
Proof.
  intros (_ & _ & [_ Hmax]) [Hc Ht Hcan Hn Hs Hb Hz] Hl He Hce Hcount -> Hentry Hsize.
  assert (sat_add64 (log_encoded_bytes log) (entry_encoded_bytes e)
    = log_encoded_bytes log + entry_encoded_bytes e) as Hsat.
  { unfold sat_add64, sat_add. unfold u64_max, u32_max in *. lia. }
  split; cbn [log_config log_entries log_encoded_bytes].
  - by constructor.
  - apply Forall_app. by split; [|constructor].
  - apply Forall_app. by split; [|constructor].
  - rewrite length_app. cbn. lia.
  - apply Forall_app. by split; [|constructor].
  - rewrite Hsat, stream_snoc, length_app, Nat2N.inj_add, entry_frame_length by done. by rewrite Hb.
  - by rewrite Hsat.
Qed.

(** Serialising a well-formed log. *)
Lemma to_bytes_ok {F} limits log : log_ok limits log → to_bytes (F:=F) log = Ok (stream (log_entries log)).
Proof. intros Hl. apply encode_fold_ok, (lo_typed _ _ Hl). Qed.

(** ** Loading *)

Lemma compute_hash_ok {F} e : typed_entry e → compute_hash (F:=F) e = Ok (sha256 (ENTRY_HASH_DOMAIN ++ entry_fields e)).
Proof. intros He. unfold compute_hash. by rewrite update_hash_fields_ok. Qed.

Lemma verify_next_normal log e :
  N.of_nat (length (log_entries log)) ≤ u32_max → typed_entry e → normal (verify_next log e).
Proof.
  intros Hlen He. unfold verify_next.
  rewrite (proj2 (try_from_len_Some u32_max _ _) (conj eq_refl Hlen)). cbn [expect out_bind].
  repeat (apply out_bind_normal; [apply guard_err_normal|intros _ _]).
  rewrite compute_hash_ok by done. cbn [out_bind]. apply guard_err_normal.
Qed.

Lemma decode_entry_normal b limits : normal (decode_entry b limits).
Proof.
  assert (∀ u n, normal (read_bytes u n)) as Hrb by (intros u n; unfold read_bytes; by case_decide).
  assert (∀ n u, normal (read_uint n u)) as Hru.
  { intros n u. unfold read_uint. apply out_bind_normal; [apply Hrb|done]. }
  unfold decode_entry.
  repeat first
    [ apply out_bind_normal; [first [apply guard_err_normal | apply Hru | apply Hrb]|intros ? _; try match goal with p : (_ * _)%type |- _ => destruct p end; cbv beta iota]
    | apply out_bind_normal; [apply map_err_normal; unfold frame_id_new, non_zero; by repeat case_match|intros ? _]
    | apply out_bind_normal; [apply map_err_normal, decode_normal|intros ? _]
    | apply out_bind_normal; [apply map_err_normal, encode_normal|intros ? _]
    | done ].
Qed.

Lemma with_tail_ok {F} log offset kind :
  N.of_nat (length (log_entries log)) ≤ u32_max →
  with_tail (F:=F) log offset kind
  = Ok (mkLoad log (Some (mkTailError (N.of_nat (length (log_entries log))) (N.of_nat offset) kind))).
Proof. intros Hlen. unfold with_tail. by rewrite (proj2 (try_from_len_Some u32_max _ _) (conj eq_refl Hlen)). Qed.

(** What a load says of the bytes it was given. *)
Definition load_result (limits : RuntimeLimits) (config : ReplayConfig) (encoded : bytes) (r : ReplayLoad) : Prop :=
  log_ok limits (load_log r) ∧ log_config (load_log r) = config ∧
  ∃ rest, encoded = stream (log_entries (load_log r)) ++ rest ∧
    match load_tail r with
    | None => rest = []
    | Some t => rest ≠ [] ∧ rte_offset t = log_encoded_bytes (load_log r) ∧
        rte_verified_entries t = N.of_nat (length (log_entries (load_log r)))
    end.

Lemma load_loop_ok fuel encoded config limits log rest :
  typed_replay_config config → log_ok limits log → log_config log = config →
  encoded = stream (log_entries log) ++ rest → (length rest < fuel)%nat →
  N.of_nat (length encoded) ≤ max_log_bytes config →
  ∃ r, load_loop fuel encoded config limits log (length (stream (log_entries log))) = Ok r ∧
    load_result limits config encoded r ∧ ∃ more, log_entries (load_log r) = log_entries log ++ more.
Proof.
  intros Hconf. revert log rest. induction fuel as [|fuel IH]; intros log rest Hlog Hcfg Henc Hfuel Hsize; [lia|].
  pose proof Hconf as ([_ Hme] & [_ Hmb] & [_ Hml]).
  assert (N.of_nat (length (log_entries log)) ≤ u32_max) as Hcount.
  { pose proof (lo_count _ _ Hlog). rewrite Hcfg in *. lia. }
  assert (∀ kind, rest ≠ [] → ∃ r, with_tail (F:=Empty_set) log (length (stream (log_entries log))) kind = Ok r ∧
    load_result limits config encoded r ∧ ∃ more, log_entries (load_log r) = log_entries log ++ more) as Htail.
  { intros kind Hne. rewrite with_tail_ok by done. eexists. split; [done|]. split; [|exists []; by rewrite app_nil_r].
    split_and!; [done..|]. exists rest. cbn. by rewrite (lo_bytes _ _ Hlog). }
  cbn [load_loop]. case_decide as Hoff.
  2:{ eexists. split; [done|]. split; [|exists []; by rewrite app_nil_r].
      split_and!; [done..|]. exists rest. cbn. split; [done|].
      rewrite Henc, length_app in Hoff. apply nil_length_inv. lia. }
  assert (rest ≠ []) as Hne by (intros ->; rewrite Henc, app_nil_r in Hoff; lia).
  rewrite Henc, slice_get_suffix. case_decide as H4; [|rewrite <-Henc; by apply Htail].
  set (body_len := from_be_bytes (take 4 rest)).
  destruct (N.ltb_spec (max_entry_bytes config) (body_len + FRAME_LENGTH_BYTES)) as [?|Hentry];
    [rewrite <-Henc; by apply Htail|].
  destruct (N.leb_spec (max_entries config) (N.of_nat (length (log_entries log)))) as [?|Hroom];
    [rewrite <-Henc; by apply Htail|].
  assert (stream (log_entries log) ++ rest = (stream (log_entries log) ++ take 4 rest) ++ drop 4 rest) as Hsplit
    by by rewrite <-app_assoc, take_drop.
  assert ((length (stream (log_entries log)) + 4)%nat = length (stream (log_entries log) ++ take 4 rest)) as Hoff4
    by (rewrite length_app, length_take; lia).
  rewrite Hsplit, Hoff4, slice_get_suffix, <-Hsplit, <-Hoff4.
  case_decide as Hbody; [|rewrite <-Henc; by apply Htail].
  set (body := take (N.to_nat body_len) (drop 4 rest)).
  assert (length body = N.to_nat body_len) as Hblen by (unfold body; rewrite length_take; lia).
  pose proof (decode_entry_normal body limits) as Hdn.
  destruct (decode_entry body limits) as [e|kind| |] eqn:Hdec; [|rewrite <-Henc; by apply Htail|done..].
  assert (body_len ≤ u32_max) as Hbl by (unfold FRAME_LENGTH_BYTES in Hentry; lia).
  destruct (decode_entry_inv body limits e) as (Hbe & Hte & Hce); [lia|done|].
  pose proof (verify_next_normal log e Hcount Hte) as Hvn.
  destruct (verify_next log e) as [[]|err| |] eqn:Hver; [|rewrite <-Henc; by apply Htail|done..].
  apply verify_next_link in Hver; [|done].
  assert (entry_frame e = take (4 + N.to_nat body_len) rest) as Hframe.
  { unfold entry_frame. rewrite <-Hbe, Hblen, N2Nat.id.
    assert (to_be_bytes 4 body_len = take 4 rest) as ->.
    { pose proof (to_from_be_bytes (take 4 rest)) as Hb4. rewrite length_take in Hb4.
      by rewrite Nat.min_l in Hb4 by done. }
    unfold body. clear. apply take_take_drop_app. }
  assert (entry_encoded_bytes e = body_len + FRAME_LENGTH_BYTES) as Hebytes.
  { rewrite <-entry_frame_length by done. rewrite Hframe, length_take. unfold FRAME_LENGTH_BYTES.
    rewrite length_drop in Hbody. lia. }
  set (log' := mkLog _ _ _).
  assert (stream (log_entries log') = stream (log_entries log) ++ take (4 + N.to_nat body_len) rest) as Hstream.
  { cbn [log' log_entries]. by rewrite stream_snoc, Hframe. }
  specialize (IH log' (drop (4 + N.to_nat body_len) rest)).
  assert ((length (stream (log_entries log)) + 4 + N.to_nat body_len)%nat = length (stream (log_entries log'))) as ->.
  { rewrite Hstream, length_app, length_take. rewrite length_drop in Hbody. lia. }
  rewrite <-Henc. destruct IH as (r & Hr & Hres & more & Hmore).
  - apply log_ok_snoc; [by rewrite Hcfg|done..|by rewrite Hcfg|done|by rewrite Hcfg|].
    rewrite (lo_bytes _ _ Hlog), <-Hebytes, <-entry_frame_length by done. rewrite Hframe, Hcfg.
    rewrite Henc, length_app in Hsize. rewrite length_take. lia.
  - done.
  - rewrite Hstream, <-app_assoc, take_drop. done.
  - rewrite length_drop. lia.
  - done.
  - exists r. split; [done|]. split; [done|]. exists (e :: more). rewrite Hmore. cbn [log' log_entries].
    by rewrite <-app_assoc.
Qed.

Lemma log_ok_eq limits log1 log2 :
  log_ok limits log1 → log_ok limits log2 → log_config log1 = log_config log2 →
  log_entries log1 = log_entries log2 → log1 = log2.
Proof.
  intros Ho1 Ho2 Hc He. pose proof (lo_bytes _ _ Ho1) as Hb1. pose proof (lo_bytes _ _ Ho2) as Hb2.
  destruct log1, log2. cbn in *. congruence.
Qed.

(** Every prefix of a well-formed log is well formed. *)
Definition log_prefix (log : ReplayLog) (l : list ReplayEntry) : ReplayLog :=
  mkLog (log_config log) l (N.of_nat (length (stream l))).

Lemma log_prefix_ok limits log l1 l2 :
  log_ok limits log → log_entries log = l1 ++ l2 → log_ok limits (log_prefix log l1).
Proof.
  intros [Hc Ht Hcan Hn Hs Hb Hz] He. rewrite He in *.
  apply Forall_app in Ht as [? _], Hcan as [? _], Hs as [? _].
  split; cbn [log_prefix log_config log_entries log_encoded_bytes]; try done.
  - by eapply chained_prefix.
  - rewrite length_app in Hn. lia.
  - rewrite Hb in Hz. unfold stream in *. rewrite fmap_app, join_app, !length_app in Hz.
    rewrite length_app. lia.
Qed.

(** One entry of a well-formed log is read and accepted. *)
Lemma load_loop_step fuel encoded config limits log pre e post rest :
  typed_replay_config config → log_ok limits log → log_config log = config →
  log_entries log = pre ++ e :: post → encoded = stream pre ++ entry_frame e ++ rest →
  load_loop (S fuel) encoded config limits (log_prefix log pre) (length (stream pre))
  = load_loop fuel encoded config limits (log_prefix log (pre ++ [e])) (length (stream (pre ++ [e]))).
Proof.
  intros Hconf Hlog Hcfg He Henc. pose proof Hconf as ([_ Hme] & [_ Hmb] & [_ Hml]).
  assert (log_ok limits (log_prefix log pre)) as Hpre by by eapply log_prefix_ok.
  assert (log_ok limits (log_prefix log (pre ++ [e]))) as Hpre1.
  { eapply (log_prefix_ok _ _ _ post); [done|]. by rewrite <-app_assoc. }
  pose proof (lo_typed _ _ Hpre1) as Ht. pose proof (lo_canonical _ _ Hpre1) as Hcan.
  pose proof (lo_entry _ _ Hpre1) as Hen. pose proof (lo_count _ _ Hpre1) as Hcount.
  pose proof (lo_chained _ _ Hpre1) as Hch. cbn [log_prefix log_entries log_config] in *.
  rewrite Forall_app, Forall_singleton in Ht, Hcan, Hen. destruct Ht as [_ Ht], Hcan as [_ Hcan], Hen as [_ Hen].
  apply chained_inv in Hch as [_ Hlink]. rewrite length_app in Hcount. cbn in Hcount. rewrite Hcfg in *.
  pose proof (entry_frame_length e Ht) as Hfl. pose proof (entry_body_length e Ht) as Hbl.
  pose proof (te_patch _ Ht) as Hpl.
  cbn [load_loop]. rewrite decide_True.
  2:{ rewrite Henc, !length_app. unfold entry_encoded_bytes, ENTRY_ENVELOPE_BYTES, FRAME_LENGTH_BYTES in Hfl. lia. }
  rewrite Henc at 1. unfold entry_frame at 1. rewrite <-app_assoc, slice_get_suffix.
  rewrite decide_True by (rewrite length_app, length_to_be_bytes; lia).
  rewrite take_app_length' by (by rewrite length_to_be_bytes). cbv zeta.
  rewrite from_to_be_bytes by (apply u32_fits; lia).
  unfold entry_encoded_bytes, ENTRY_ENVELOPE_BYTES, FIXED_ENTRY_BODY_BYTES in Hen, Hfl.
  rewrite (proj2 (N.ltb_ge _ _)) by lia. cbn [log_prefix log_entries log_config log_encoded_bytes].
  rewrite (proj2 (N.leb_gt _ _)) by lia. rewrite Nat2N.id.
  rewrite Henc at 1. unfold entry_frame at 1. rewrite <-app_assoc, app_assoc.
  replace (length (stream pre) + 4)%nat
    with (length (stream pre ++ to_be_bytes 4 (N.of_nat (length (entry_body e)))))
    by (by rewrite length_app, length_to_be_bytes).
  rewrite slice_get_suffix, decide_True by (rewrite length_app; lia).
  rewrite take_app_length, decode_entry_body by done.
  assert (verify_next (log_prefix log pre) e = Ok tt) as Hv.
  { apply verify_next_link; cbn [log_prefix log_entries]; [lia|done]. }
  unfold log_prefix in Hv |- *. cbn [log_entries log_config log_encoded_bytes]. rewrite Hv.
  replace (length (stream pre ++ to_be_bytes 4 (N.of_nat (length (entry_body e)))) + length (entry_body e))%nat
    with (length (stream (pre ++ [e])))
    by (rewrite stream_snoc; unfold entry_frame; rewrite !length_app; lia).
  f_equal. f_equal.
  pose proof (lo_size _ _ Hpre1) as Hsz. cbn [log_prefix log_encoded_bytes log_config] in Hsz.
  rewrite stream_snoc in *. unfold sat_add64, sat_add. rewrite length_app in *.
  rewrite Hcfg in Hsz. unfold u64_max, u32_max in *. lia.
Qed.

Lemma load_loop_steps fuel encoded config limits log pre post rest :
  typed_replay_config config → log_ok limits log → log_config log = config →
  log_entries log = pre ++ post → encoded = stream (pre ++ post) ++ rest →
  load_loop (length post + fuel) encoded config limits (log_prefix log pre) (length (stream pre))
  = load_loop fuel encoded config limits (log_prefix log (pre ++ post)) (length (stream (pre ++ post))).
Proof.
  intros Hconf Hlog Hcfg. revert pre. induction post as [|e post IH]; intros pre He Henc; cbn [length Nat.add].
  { by rewrite app_nil_r. }
  assert (pre ++ e :: post = (pre ++ [e]) ++ post) as Happ by by rewrite <-app_assoc.
  rewrite (load_loop_step _ _ _ _ _ _ e post (mjoin (entry_frame <$> post) ++ rest)); [|done..|].
  - rewrite Happ. apply IH; by rewrite <-Happ.
  - rewrite Henc. unfold stream. rewrite fmap_app, join_app, fmap_cons. cbn [mjoin list_join].
    by rewrite <-!app_assoc.
Qed.

(** ** Loading a stream *)

Lemma frames_length (l : list ReplayEntry) : (length l ≤ length (mjoin (entry_frame <$> l)))%nat.
Proof.
  induction l as [|e l IH]; [done|].
  rewrite frames_cons. cbn [length]. rewrite length_app. unfold entry_frame at 1. rewrite length_app, length_to_be_bytes. lia.
Qed.

Lemma stream_length (l : list ReplayEntry) :
  length (stream l) = (8 + length (mjoin (entry_frame <$> l)))%nat.
Proof. unfold stream. by rewrite length_app. Qed.

Lemma log_ok_config limits log : log_ok limits log → replay_config_validate (log_config log) = Ok tt.
Proof.
  intros Hl. pose proof (lo_size _ _ Hl) as Hs. rewrite (lo_bytes _ _ Hl), stream_length in Hs.
  unfold replay_config_validate, REPLAY_HEADER_BYTES. by rewrite (proj2 (N.ltb_ge _ _)) by lia.
Qed.

(** Loading reaches every well-formed log whose stream the bytes start with. *)
Lemma load_prefix_reaches limits log encoded rest :
  typed_replay_config (log_config log) → log_ok limits log →
  encoded = stream (log_entries log) ++ rest →
  N.of_nat (length encoded) ≤ max_log_bytes (log_config log) →
  ∃ fuel, (length rest < fuel)%nat ∧
    load_prefix encoded (log_config log) limits
    = load_loop fuel encoded (log_config log) limits log (length (stream (log_entries log))).
Proof.
  intros Hconf Hlog Henc Hsize. unfold load_prefix. rewrite (log_ok_config limits log Hlog).
  rewrite (proj2 (N.ltb_ge _ _)) by done.
  assert (slice_get encoded 0 (length REPLAY_HEADER) = Some REPLAY_HEADER) as ->.
  { rewrite Henc. unfold stream. rewrite <-app_assoc. exact (slice_get_suffix [] (REPLAY_HEADER ++ _) (length REPLAY_HEADER)). }
  rewrite bool_decide_true by done. cbn [negb].
  assert (S (length encoded) = length (log_entries log) + (S (length encoded) - length (log_entries log)))%nat as Hf.
  { pose proof (frames_length (log_entries log)). rewrite Henc, length_app, stream_length. lia. }
  exists (S (length encoded) - length (log_entries log))%nat. split.
  - pose proof (frames_length (log_entries log)). rewrite Henc, length_app, stream_length. lia.
  - rewrite Hf. change (log_new (log_config log)) with (log_prefix log []).
    change (length REPLAY_HEADER) with (length (stream [])).
    rewrite (load_loop_steps _ _ _ _ log [] (log_entries log) rest); [|done..]. cbn [app].
    assert (log_prefix log (log_entries log) = log) as ->; [|f_equal; lia].
    unfold log_prefix. rewrite <-(lo_bytes _ _ Hlog). by destruct log.
Qed.

Lemma load_prefix_stream limits log :
  typed_replay_config (log_config log) → log_ok limits log →
  load_prefix (stream (log_entries log)) (log_config log) limits = Ok (mkLoad log None).
Proof.
  intros Hconf Hlog.
  destruct (load_prefix_reaches limits log (stream (log_entries log)) []) as (fuel & Hf & ->);
    [done|done|by rewrite app_nil_r| |].
  - rewrite <-(lo_bytes _ _ Hlog). apply (lo_size _ _ Hlog).
  - destruct fuel as [|fuel]; [lia|]. cbn [load_loop]. by rewrite decide_False by lia.
Qed.

(** Loading returns a verified log. *)
Lemma load_prefix_loads (encoded : bytes) (config : ReplayConfig) (limits : RuntimeLimits) :
  typed_replay_config config →
  ∃ r, load_prefix encoded config limits = Ok r ∧
    ((log_entries (load_log r) = [] ∧ is_Some (load_tail r)) ∨
     (is_ok (verify (load_log r)) = true ∧ load_result limits config encoded r)).
Proof.
  intros Hconf. pose proof Hconf as ([_ Hme] & _ & [_ Hml]).
  assert (∀ kind, ∃ r, with_tail (F:=Empty_set) (log_new config) 0 kind = Ok r ∧
    ((log_entries (load_log r) = [] ∧ is_Some (load_tail r)) ∨
     (is_ok (verify (load_log r)) = true ∧ load_result limits config encoded r))) as Hempty.
  { intros kind. eexists. split; [done|]. left. by split; [|eexists]. }
  unfold load_prefix. destruct (replay_config_validate config) as [[]|e| |] eqn:Hv; [|apply Hempty|..].
  2,3: unfold replay_config_validate in Hv; by destruct (max_log_bytes config <? _).
  destruct (N.ltb_spec (max_log_bytes config) (N.of_nat (length encoded))) as [|Hsize]; [apply Hempty|].
  case_bool_decide as Hh; cbn [negb]; [|apply Hempty].
  assert (encoded = stream [] ++ drop 8 encoded) as Henc.
  { unfold slice_get in Hh. case_decide; [|done]. injection Hh as Hh. rewrite drop_0 in Hh.
    rewrite <-(take_drop 8 encoded) at 1. f_equal. exact Hh. }
  destruct (load_loop_ok (S (length encoded)) encoded config limits (log_new config) (drop 8 encoded))
    as (r & Hr & Hres & _); [done|by apply log_new_ok|done|done|rewrite length_drop; lia|done|].
  exists r. split; [exact Hr|]. right. split; [|done]. destruct Hres as (Hlog & Hcfg & _).
  rewrite (proj2 (verify_ok (load_log r) _ ltac:(pose proof (lo_count _ _ Hlog); rewrite Hcfg in *; lia))
    (conj (lo_chained _ _ Hlog) eq_refl)). done.
Qed.

(** ** Theorems *)

(** C29. Loading arbitrary bytes always returns, and returns a verified log
    within its bounds: every entry is canonical and chained, the bytes start
    with the log's own stream, nothing is left over exactly when no tail error
    is reported, and a reported tail error gives the offset at which the
    verified stream ends. *)
Theorem load_prefix_sound (encoded : bytes) (config : ReplayConfig) (limits : RuntimeLimits) :
  typed_replay_config config →
  ∃ r, load_prefix encoded config limits = Ok r ∧
    ((log_entries (load_log r) = [] ∧ is_Some (load_tail r)) ∨
     (is_ok (verify (load_log r)) = true ∧ load_result limits config encoded r)).
Proof. apply load_prefix_loads. Qed.

(** Loading finds the longest verified prefix: if the bytes start with the
    stream of some well-formed log, the loaded log extends that log. *)
Theorem load_prefix_maximal (limits : RuntimeLimits) (log : ReplayLog) (rest : bytes) :
  typed_replay_config (log_config log) → log_ok limits log →
  N.of_nat (length (stream (log_entries log) ++ rest)) ≤ max_log_bytes (log_config log) →
  ∃ r more, load_prefix (stream (log_entries log) ++ rest) (log_config log) limits = Ok r ∧
    log_entries (load_log r) = log_entries log ++ more.
Proof.
  intros Hconf Hlog Hsize.
  destruct (load_prefix_reaches limits log (stream (log_entries log) ++ rest) rest) as (fuel & Hf & ->);
    [done..|].
  destruct (load_loop_ok fuel (stream (log_entries log) ++ rest) (log_config log) limits log rest)
    as (r & -> & _ & more & Hmore); [done..|]. by exists r, more.
Qed.

(** The retained prefix through a revision is an independently loadable
    stream holding exactly that many entries; a revision newer than the log is
    refused. *)
Theorem to_bytes_through_revision_ok (limits : RuntimeLimits) (log : ReplayLog) (r : SceneRevision) :
  typed_replay_config (log_config log) → log_ok limits log →
  if last_revision log <? r
  then to_bytes_through_revision log r = Err (mkRevisionError r (last_revision log))
  else (N.to_nat r ≤ length (log_entries log))%nat ∧
    to_bytes_through_revision log r = Ok (stream (take (N.to_nat r) (log_entries log))) ∧
    load_prefix (stream (take (N.to_nat r) (log_entries log))) (log_config log) limits
    = Ok (mkLoad (log_prefix log (take (N.to_nat r) (log_entries log))) None).
Proof.
  intros Hconf Hlog. pose proof Hconf as (_ & _ & [_ Hml]). unfold to_bytes_through_revision.
  destruct (N.ltb_spec (last_revision log) r) as [?|Hr]; [done|]. cbn [guard_err out_bind].
  destruct (chained_last_rev _ (lo_chained _ _ Hlog)) as [Hlast _].
  change (last_rev (log_entries log)) with (last_revision log) in Hlast.
  rewrite decide_True by lia. cbn [expect out_bind]. set (l := take (N.to_nat r) (log_entries log)).
  assert (log_ok limits (log_prefix log l)) as Hpre.
  { apply (log_prefix_ok _ _ _ (drop (N.to_nat r) (log_entries log))); [done|].
    unfold l. by rewrite take_drop. }
  split; [lia|]. split; [|exact (load_prefix_stream limits (log_prefix log l) Hconf Hpre)].
  pose proof (lo_typed _ _ Hpre) as Ht. pose proof (lo_size _ _ Hpre) as Hs.
  cbn [log_prefix log_entries log_encoded_bytes log_config] in Ht, Hs.
  assert (∀ (l : list ReplayEntry) t, Forall typed_entry l →
    t + N.of_nat (length (mjoin (entry_frame <$> l))) ≤ u32_max →
    is_ok (out_fold (λ total entry, expect (E:=ReplayRevisionError)
      (checked_add u64_max total (entry_encoded_bytes entry))) t l) = true) as Hfold.
  { intros l0 t Ht0. revert t. induction Ht0 as [|e l0 He _ IH]; intros t Hle; [done|]. cbn [out_fold].
    rewrite frames_cons, length_app, Nat2N.inj_add, entry_frame_length in Hle by done.
    rewrite (proj2 (checked_add_Some u64_max t _ (t + entry_encoded_bytes e)))
      by (split; [done|unfold u32_max, u64_max in *; lia]).
    cbn [expect out_bind]. apply IH. lia. }
  specialize (Hfold l (N.of_nat (length REPLAY_HEADER)) Ht).
  rewrite stream_length in Hs. specialize (Hfold ltac:(change (length REPLAY_HEADER) with 8%nat; lia)).
  destruct (out_fold _ _ l); [|done..].
  cbn [out_bind]. by apply encode_fold_ok.
Qed.

(** ** Tamper evidence *)

Lemma entry_fields_inj e1 e2 :
  typed_entry e1 → typed_entry e2 → entry_fields e1 = entry_fields e2 →
  en_sequence e1 = en_sequence e2 ∧ en_estimated_visible_frame e1 = en_estimated_visible_frame e2 ∧
  en_previous_revision e1 = en_previous_revision e2 ∧ en_new_revision e1 = en_new_revision e2 ∧
  en_previous_scene_hash e1 = en_previous_scene_hash e2 ∧ en_new_scene_hash e1 = en_new_scene_hash e2 ∧
  en_previous_entry_hash e1 = en_previous_entry_hash e2 ∧ en_patch_bytes e1 = en_patch_bytes e2.
Proof.
  intros [] []. unfold entry_fields. intros He%app_inv_head.
  do 4 (apply (parses_be 8) in He as [? He]; [|apply u64_fits; lia..]).
  do 3 (apply app_inj_1 in He as [? He]; [|congruence]).
  apply (parses_be 4) in He as [? ?]; [|apply u32_fits; lia..]. done.
Qed.

(** An entry of each log whose different encodings have the same digest. *)
Definition entries_collide (l1 l2 : list ReplayEntry) : Prop :=
  ∃ e1 e2, e1 ∈ l1 ∧ e2 ∈ l2 ∧ collides (ENTRY_HASH_DOMAIN ++ entry_fields e1) (ENTRY_HASH_DOMAIN ++ entry_fields e2).

(** Logs of the same length with the same final hash. *)
Lemma log_pinned limits l1 l2 :
  chained l1 → chained l2 → Forall typed_entry l1 → Forall typed_entry l2 →
  Forall (canonical_entry limits) l1 → Forall (canonical_entry limits) l2 →
  length l1 = length l2 → last_hash l1 = last_hash l2 → l1 = l2 ∨ entries_collide l1 l2.
Proof.
  intros Hc1. revert l2. induction Hc1 as [|pre1 e1 Hc1 IH Hl1]; intros l2 Hc2 Ht1 Ht2 Hk1 Hk2 Hlen Hh.
  { destruct l2; [by left|done]. }
  destruct Hc2 as [|pre2 e2 Hc2 Hl2]; [rewrite length_app in Hlen; cbn in Hlen; lia|].
  rewrite !length_app in Hlen. cbn in Hlen. rewrite !last_hash_snoc in Hh.
  rewrite Forall_app, Forall_singleton in Ht1, Ht2, Hk1, Hk2.
  destruct Ht1 as [Ht1 He1], Ht2 as [Ht2 He2], Hk1 as [Hk1 Hc1'], Hk2 as [Hk2 Hc2'].
  pose proof (li_hash _ _ Hl1) as Hh1. pose proof (li_hash _ _ Hl2) as Hh2.
  rewrite compute_hash_ok in Hh1, Hh2 by done. apply Ok_inj in Hh1, Hh2.
  destruct (sha256_inj (ENTRY_HASH_DOMAIN ++ entry_fields e1) (ENTRY_HASH_DOMAIN ++ entry_fields e2))
    as [Heq|Hx]; [congruence| |right; exists e1, e2; split_and!; [apply elem_of_app; right; apply list_elem_of_singleton; done..|exact Hx]].
  apply app_inv_head in Heq. destruct (entry_fields_inj e1 e2 He1 He2 Heq) as (? & ? & ? & ? & ? & ? & Hp & Hb).
  destruct (IH pre2) as [->|(a & b & Ha & Hb' & Hx)]; [done..|lia| |left|
    right; exists a, b; split_and!; [apply elem_of_app; by left..|exact Hx]].
  { rewrite <-(li_entry _ _ Hl1), <-(li_entry _ _ Hl2). done. }
  destruct Hc1' as [Hd1 _], Hc2' as [Hd2 _]. rewrite Hb, Hd2 in Hd1. apply Ok_inj in Hd1.
  f_equal. f_equal. destruct e1, e2. cbn in *. congruence.
Qed.

(** The final entry hash pins the whole history: two well-formed non-empty
    logs with the same final entry hash have identical entries (sequence,
    frames, revisions, scene hashes, patches), unless two different entries of
    these logs have the same SHA-256 digest. *)
Theorem replay_log_pinned (limits : RuntimeLimits) (log1 log2 : ReplayLog) :
  log_ok limits log1 → log_ok limits log2 → log_entries log1 ≠ [] → log_entries log2 ≠ [] →
  last_entry_hash log1 = last_entry_hash log2 → 
  log_entries log1 = log_entries log2 ∨ entries_collide (log_entries log1) (log_entries log2).
Proof.
  intros Ho1 Ho2 Hn1 Hn2 Hh.
  destruct (exists_last Hn1) as (p1 & e1 & E1), (exists_last Hn2) as (p2 & e2 & E2).
  pose proof (lo_chained _ _ Ho1) as Hc1. pose proof (lo_chained _ _ Ho2) as Hc2.
  pose proof (lo_typed _ _ Ho1) as Ht1. pose proof (lo_typed _ _ Ho2) as Ht2.
  change (last_entry_hash log1) with (last_hash (log_entries log1)) in Hh.
  change (last_entry_hash log2) with (last_hash (log_entries log2)) in Hh.
  rewrite E1 in Hc1, Ht1. rewrite E2 in Hc2, Ht2.
  apply chained_inv in Hc1 as [_ Hl1], Hc2 as [_ Hl2].
  rewrite Forall_app, Forall_singleton in Ht1, Ht2. destruct Ht1 as [_ He1], Ht2 as [_ He2].
  pose proof (li_hash _ _ Hl1) as Hh1. pose proof (li_hash _ _ Hl2) as Hh2.
  rewrite compute_hash_ok in Hh1, Hh2 by done. apply Ok_inj in Hh1, Hh2.
  assert (en_entry_hash e1 = en_entry_hash e2) as Heh by (by rewrite E1, E2, !last_hash_snoc in Hh).
  destruct (sha256_inj (ENTRY_HASH_DOMAIN ++ entry_fields e1) (ENTRY_HASH_DOMAIN ++ entry_fields e2))
    as [Heq|Hx]; [congruence| |right; exists e1, e2; rewrite E1, E2; split_and!;
      [apply elem_of_app; right; apply list_elem_of_singleton; done..|exact Hx]].
  apply app_inv_head in Heq. destruct (entry_fields_inj e1 e2 He1 He2 Heq) as (Hs & _).
  rewrite (li_sequence _ _ Hl1), (li_sequence _ _ Hl2) in Hs.
  apply (log_pinned limits); try apply Ho1; try apply Ho2; try done.
  rewrite E1, E2, !length_app. cbn. lia.
Qed.

End logs.
