(* ===== verification/Recorded.v ===== *)
(** * Recorded worlds

    [RecordedWorld] keeps an authoritative world and the replay log of its
    accepted patches in step.  [rwinv] ties the two together; every operation
    preserves it, and replaying the log reproduces the scene. *)

From S2P Require Import Prelude Machine BTree Floats Values Components Messages MessageSpec Codec Ecs WorldTypes Hierarchy Render World SceneSpec CommitRefine PreflightRefine WorldInvariant WorldApply Extraction WorldTheorems Hash Replay ReplayCodec ReplayLogs.

Open Scope N_scope.

(** A typed frame identity. *)
Definition typed_frame (f : FrameId) : Prop := 0 < f ≤ u64_max.

Section recorded.
Context `{Digest} `{JsonCodecLaws ScenePatch}.
Context {W E : Type} `{EqDecision E} `{!EntityStore W E} `{!EntityStoreLaws W E}.
Implicit Types w : AuthoritativeWorld W E.

(** [records w p f w' e]: the entry [e] records the step from [w] to [w']. *)
Record records w (p : ScenePatch) (f : FrameId) w' (e : ReplayEntry) : Prop := {
  rc_patch : en_patch e = p;
  rc_frame : en_estimated_visible_frame e = f;
  rc_previous : en_previous_revision e = revision w;
  rc_new : en_new_revision e = revision w';
  rc_previous_hash : logical_hash w = Ok (en_previous_scene_hash e);
  rc_new_hash : logical_hash w' = Ok (en_new_scene_hash e);
}.

(** The worlds a log is the record of: accepted patches in order, with render
    extractions in between. *)
Inductive history (wc : WorldConfig) : list ReplayEntry → AuthoritativeWorld W E → Prop :=
| history_new : history wc [] (world_new wc)
| history_apply l w p f clock receipt w' e :
    history wc l w → typed_patch p → idempotency_records w !! patch_idempotency_key p = None →
    apply_patch w p f clock = Ok (receipt, w') → records w p f w' e → history wc (l ++ [e]) w'
| history_extract l w x w' :
    history wc l w → take_render_extraction w = Ok (x, w') → history wc l w'.

(** The hash of a world, from its scene. *)
Definition scene_hash (sc : scene) : bytes := sha256 (snapshot_bytes (scene_snapshot 0 sc)).

Lemma logical_hash_scene w : winv w → logical_hash w = Ok (scene_hash (abs_scene w)).
Proof. intros Hw. by rewrite logical_hash_sim. Qed.

Lemma extract_frame w x w' :
  winv w → take_render_extraction w = Ok (x, w') →
  winv w' ∧ abs_scene w' = abs_scene w ∧ revision w' = revision w ∧ config w' = config w ∧
  idempotency_records w' = idempotency_records w.
Proof.
  intros Hw Hx. rewrite take_render_extraction_sim in Hx by done.
  destruct (N.eqb_spec (render_extraction_generation w) u64_max); [done|].
  apply Ok_inj in Hx. injection Hx as _ <-. split; [|done].
  apply mark_extracted_inv; [done|]. pose proof (wi_extraction _ Hw). lia.
Qed.

Lemma history_inv wc l w :
  sound_config wc → history wc l w →
  winv w ∧ config w = wc ∧ revision w = N.of_nat (length l) ∧
  (∀ e, last l = Some e → en_new_scene_hash e = scene_hash (abs_scene w)).
Proof.
  intros Hwc. induction 1 as [|l w p f clock receipt w' e _ (Hw & Hc & Hr & _) Hp Hfresh Ha He|
    l w x w' _ (Hw & Hc & Hr & Hs) Hx].
  - split_and!; [by apply world_new_inv|done..].
  - pose proof (apply_patch_sim w p f clock Hw Hp) as Hsim. rewrite Ha in Hsim.
    destruct Hsim as [_ [(ra & Hra & _)|(sc & Hap)]]; [congruence|].
    pose proof (ap_inv _ _ _ _ _ _ _ Hap) as Hw'. split_and!.
    + done.
    + by rewrite (ap_config _ _ _ _ _ _ _ Hap).
    + rewrite (ap_revision _ _ _ _ _ _ _ Hap), length_app. cbn. lia.
    + intros e'. rewrite last_snoc. intros [= <-]. pose proof (rc_new_hash _ _ _ _ _ He) as Hh.
      rewrite logical_hash_scene in Hh by done. by apply Ok_inj in Hh.
  - destruct (extract_frame w x w' Hw Hx) as (Hw' & Hsc & Hrv & Hcf & _).
    rewrite Hsc, Hrv, Hcf. done.
Qed.

(** ** The invariant *)

Record rwinv (rw : RecordedWorld W E) : Prop := {
  ri_config : sound_config (rw_world_config rw);
  ri_replay_config : typed_replay_config (log_config (rw_log rw));
  ri_log : log_ok (runtime_limits (rw_world_config rw)) (rw_log rw);
  ri_history : history (rw_world_config rw) (log_entries (rw_log rw)) (rw_world rw);
}.

Lemma ri_world rw :
  rwinv rw → winv (rw_world rw) ∧ config (rw_world rw) = rw_world_config rw.
Proof. intros [Hc _ _ Hh]. by destruct (history_inv _ _ _ Hc Hh) as (? & ? & _). Qed.

Lemma recorded_new_inv wc rc rw :
  sound_config wc → typed_replay_config rc → recorded_new wc rc = Ok rw → rwinv rw.
Proof.
  intros Hwc Hrc Hn. unfold recorded_new in Hn. inv_ok. subst rw.
  match goal with u : () |- _ => destruct u end.
  split; cbn; [done|done|by apply log_new_ok|constructor].
Qed.

Lemma recorded_extract_inv rw x rw' :
  rwinv rw → recorded_take_render_extraction rw = Ok (x, rw') → rwinv rw' ∧ rw_log rw' = rw_log rw.
Proof.
  intros Hrw Hx. unfold recorded_take_render_extraction in Hx.
  apply out_bind_ok in Hx as ([x' w'] & Hx & He). injection He as <- <-.
  destruct Hrw. split; [|done]. split; cbn; try done. by eapply history_extract.
Qed.

Lemma applied_new_revision w p f clock sc receipt w' :
  applied w p f clock sc receipt w' → receipt_new_revision receipt = revision w'.
Proof. intros Hap. rewrite (ap_receipt _ _ _ _ _ _ _ Hap), (ap_revision _ _ _ _ _ _ _ Hap). done. Qed.

Lemma last_entry_hash_length limits log : log_ok limits log → length (last_entry_hash log) = 32%nat.
Proof.
  intros Hlog. unfold last_entry_hash. destruct (last (log_entries log)) as [e|] eqn:El; [|done].
  pose proof (lo_typed _ _ Hlog) as Ht. rewrite Forall_forall in Ht. apply te_entry, Ht.
  apply last_Some in El as [l ->]. set_solver.
Qed.

(** The entry built for an accepted patch continues the log. *)
Lemma recorded_entry {F} rw p f clock receipt w' sc patch_bytes :
  let log := rw_log rw in let limits := runtime_limits (rw_world_config rw) in
  rwinv rw → typed_frame f → applied (rw_world rw) p f clock sc receipt w' →
  encode p limits = Ok patch_bytes → nesting_room ScenePatch limits →
  N.of_nat (length (log_entries log)) < max_entries (log_config log) →
  ENTRY_ENVELOPE_BYTES + N.of_nat (length patch_bytes) ≤ max_entry_bytes (log_config log) →
  ∃ e,
    entry_new (F:=F) p patch_bytes (mkEntryMetadata (N.of_nat (length (log_entries log)) + 1) f
      (revision (rw_world rw)) (revision w') (scene_hash (abs_scene (rw_world rw)))
      (scene_hash (abs_scene w')) (last_entry_hash log)) = Ok e ∧
    en_patch_bytes e = patch_bytes ∧ typed_entry e ∧ canonical_entry limits e ∧
    link (log_entries log) e ∧ records (rw_world rw) p f w' e.
Proof.
  intros log limits Hrw Hf Hap Henc Hroom Hcount Hsize.
  destruct (history_inv _ _ _ (ri_config _ Hrw) (ri_history _ Hrw)) as (Hw & Hcfg & Hrev & Hscene).
  pose proof (ap_inv _ _ _ _ _ _ _ Hap) as Hw'. pose proof (ap_revision _ _ _ _ _ _ _ Hap) as Hrev'.
  pose proof (wi_revision _ Hw') as Hmax. pose proof (ri_log _ Hrw) as Hlog.
  destruct (ri_replay_config _ Hrw) as ([_ Hme] & [_ Hmb] & _).
  pose (entry := mkEntry (N.of_nat (length (log_entries log)) + 1) p patch_bytes f (revision (rw_world rw))
    (revision w') (scene_hash (abs_scene (rw_world rw))) (scene_hash (abs_scene w')) (last_entry_hash log)).
  assert (∀ h, length h = 32%nat → typed_entry (entry h)) as Hte.
  { intros h Hh. pose proof (last_entry_hash_length _ _ Hlog) as Hlh.
    unfold typed_frame, ENTRY_ENVELOPE_BYTES, FRAME_LENGTH_BYTES, FIXED_ENTRY_BODY_BYTES, u32_max, u64_max in *.
    subst entry log.
    split; cbn -[N.add]; try apply sha256_length; try done; unfold u64_max, u32_max; lia. }
  assert (last_rev (log_entries log) = revision (rw_world rw)) as Hlr.
  { rewrite Hrev. by apply chained_last_rev, (lo_chained _ _ Hlog). }
  exists (entry (sha256 (ENTRY_HASH_DOMAIN ++ entry_fields (entry entry_hash_zero)))).
  split_and!.
  - unfold entry_new. cbn [md_sequence md_estimated_visible_frame md_previous_revision md_new_revision
      md_previous_scene_hash md_new_scene_hash md_previous_entry_hash].
    change (mkEntry _ _ _ _ _ _ _ _ _ entry_hash_zero) with (entry entry_hash_zero).
    by rewrite compute_hash_ok by by apply Hte.
  - done.
  - apply Hte, sha256_length.
  - split; [by apply decode_encode|done].
  - split; try done.
    + cbn. split; [by rewrite Hlr|lia].
    + intros h Hh. unfold last_scene in Hh. apply fmap_Some in Hh as (e' & Hl & ->). by rewrite (Hscene _ Hl).
    + rewrite compute_hash_ok; [done|apply Hte, sha256_length].
  - split; try done; by apply logical_hash_scene.
Qed.

(** What an accepted application does to a recorded world. *)
Inductive recorded_step (rw : RecordedWorld W E) (p : ScenePatch) (f : FrameId) (clock : N * N)
    (receipt : ApplyReceipt) (rw' : RecordedWorld W E) : Prop :=
| rs_replayed ra :
    idempotency_records (rw_world rw) !! patch_idempotency_key p = Some ra →
    receipt = replayed (ra_receipt ra) → rw' = rw → recorded_step rw p f clock receipt rw'
| rs_recorded sc e :
    applied (rw_world rw) p f clock sc receipt (rw_world rw') →
    records (rw_world rw) p f (rw_world rw') e →
    log_entries (rw_log rw') = log_entries (rw_log rw) ++ [e] →
    rw_world_config rw' = rw_world_config rw → recorded_step rw p f clock receipt rw'.

(** Why a recorded world refuses a patch: the world itself refuses it, or it
    is new and cannot be encoded, or its entry does not fit the log. *)
Definition recorded_refuses (rw : RecordedWorld W E) (p : ScenePatch) (f : FrameId) (clock : N * N) (error : RecordedApplyError) : Prop :=
  let config := log_config (rw_log rw) in
  let fresh := idempotency_records (rw_world rw) !! patch_idempotency_key p = None in
  let entry b := sat_add64 ENTRY_ENVELOPE_BYTES (N.of_nat (length b)) in
  match error with
  | RecordedWorldError e => apply_patch (rw_world rw) p f clock = Err e
  | RecordedCodec e => fresh ∧ encode p (runtime_limits (rw_world_config rw)) = Err e
  | EntryCapacityFull limit => fresh ∧ limit = max_entries config ∧ limit ≤ N.of_nat (length (log_entries (rw_log rw)))
  | EntrySizeExceeded actual limit =>
      fresh ∧ limit = max_entry_bytes config ∧ limit < actual ∧
      ∃ b, encode p (runtime_limits (rw_world_config rw)) = Ok b ∧ actual = entry b
  | LogSizeExceeded actual limit =>
      fresh ∧ limit = max_log_bytes config ∧ limit < actual ∧
      ∃ b, encode p (runtime_limits (rw_world_config rw)) = Ok b ∧ actual = sat_add64 (log_encoded_bytes (rw_log rw)) (entry b)
  | RecordedInvariant _ => False
  end.

(** The world's part of an application. *)
Lemma world_apply_eq rw p f clock :
  world_apply p f clock rw =
  match apply_patch (rw_world rw) p f clock with
  | Ok (receipt, w) => (put_world w rw, Ok receipt)
  | Err e => (rw, Err (RecordedWorldError e)) | Panic => (rw, Panic) | OutOfFuel => (rw, OutOfFuel)
  end.
Proof.
  unfold world_apply, mut_in, mut_last. destruct (apply_patch (rw_world rw) p f clock) as [[receipt w]| | |]; [done|by destruct rw..].
Qed.

Lemma recorded_apply_fresh rw p f clock :
  rwinv rw → typed_patch p → typed_frame f →
  nesting_room ScenePatch (runtime_limits (rw_world_config rw)) →
  idempotency_records (rw_world rw) !! patch_idempotency_key p = None →
  match recorded_apply_patch rw p f clock with
  | (rw', Ok receipt) => rwinv rw' ∧ recorded_step rw p f clock receipt rw'
  | (rw', Err error) => rw' = rw ∧ recorded_refuses rw p f clock error
  | (_, Panic) | (_, OutOfFuel) => False
  end.
Proof.
  intros Hrw Hp Hf Hroom Hfresh. destruct (ri_world _ Hrw) as [Hw Hcfg].
  destruct (ri_replay_config _ Hrw) as ([_ Hme] & [_ Hmb] & [_ Hml]).
  pose proof (ri_log _ Hrw) as Hlog. pose proof (lo_size _ _ Hlog) as Hlb.
  unfold recorded_apply_patch, recorded_refuses. unfold recorded_transaction.
  rewrite Hfresh. cbn [fmap option_fmap option_map is_some]. rewrite mut_read_bind.
  pose proof (encode_normal p (runtime_limits (rw_world_config rw))) as Hen.
  destruct (encode p _) as [pb| | |] eqn:Henc; [|done..]. cbn [map_err]. rewrite mut_read_bind.
  destruct (N.leb_spec (max_entries (log_config (rw_log rw))) (N.of_nat (length (log_entries (rw_log rw)))))
    as [|Hcount]; [done|]. cbn [guard_err]. rewrite mut_read_bind.
  destruct (N.ltb_spec (max_entry_bytes (log_config (rw_log rw)))
    (sat_add64 ENTRY_ENVELOPE_BYTES (N.of_nat (length pb)))) as [|Hsize]; [split_and!; eauto|]. cbn [guard_err]. rewrite mut_read_bind.
  assert (sat_add64 ENTRY_ENVELOPE_BYTES (N.of_nat (length pb)) = ENTRY_ENVELOPE_BYTES + N.of_nat (length pb)) as Hsat.
  { unfold sat_add64, sat_add in *. unfold u64_max, u32_max in *. lia. }
  destruct (N.ltb_spec (max_log_bytes (log_config (rw_log rw)))
    (sat_add64 (log_encoded_bytes (rw_log rw)) (sat_add64 ENTRY_ENVELOPE_BYTES (N.of_nat (length pb))))) as [|Hlsize];
    [split_and!; eauto|]. rewrite Hsat in *. cbn [guard_err]. rewrite !mut_read_bind.
  rewrite logical_hash_scene by done. cbn [map_err].
  pose proof (apply_patch_sim (rw_world rw) p f clock Hw Hp) as Hsim. unfold mut_bind at 1. rewrite world_apply_eq.
  destruct (apply_patch (rw_world rw) p f clock) as [[receipt w']|e| |] eqn:Ha; [|done..].
  destruct Hsim as [_ [(ra & Hra & _)|(sc & Hap)]]; [congruence|]. rewrite mut_read_bind. cbn [put_world rw_world rw_log].
  rewrite logical_hash_scene by apply Hap. cbn [map_err]. rewrite mut_read_bind. cbn [put_world rw_log].
  unfold checked_add. rewrite (proj2 (N.leb_le _ _)) by (unfold u64_max, u32_max in *; lia).
  cbn [expect]. rewrite mut_read_bind. cbn [put_world rw_log].
  destruct (recorded_entry (F:=RecordedApplyError) rw p f clock receipt w' sc pb)
    as (e & Hnew & Hpb & Hte & Hcan & Hl & Hrec); [done..|].
  rewrite (applied_new_revision _ _ _ _ _ _ _ Hap), Hnew. rewrite mut_read_bind.
  assert (entry_encoded_bytes e = ENTRY_ENVELOPE_BYTES + N.of_nat (length pb)) as Hbytes.
  { unfold entry_encoded_bytes. by rewrite Hpb. }
  rewrite (proj2 (N.eqb_eq _ _) Hbytes). cbn [debug_assert mut_bind mut_write mut_ret put_log put_world rw_world rw_world_config rw_log]. split.
  - destruct Hrw. split; cbn [rw_world_config rw_log rw_world]; [done|done| |by eapply history_apply].
    apply log_ok_snoc; try done; [by rewrite Hbytes|]. rewrite Hbytes.
    unfold sat_add64, sat_add in Hlsize. unfold u64_max, u32_max in *. lia.
  - by eapply rs_recorded.
Qed.

Lemma recorded_apply_sim rw p f clock :
  rwinv rw → typed_patch p → typed_frame f →
  nesting_room ScenePatch (runtime_limits (rw_world_config rw)) →
  match recorded_apply_patch rw p f clock with
  | (rw', Ok receipt) => rwinv rw' ∧ recorded_step rw p f clock receipt rw'
  | (rw', Err error) => rw' = rw ∧ recorded_refuses rw p f clock error
  | (_, Panic) | (_, OutOfFuel) => False
  end.
Proof.
  intros Hrw Hp Hf Hroom.
  destruct (idempotency_records (rw_world rw) !! patch_idempotency_key p) as [ra|] eqn:Hkey;
    [|by apply recorded_apply_fresh].
  destruct (ri_world _ Hrw) as [Hw Hcfg]. unfold recorded_apply_patch, recorded_transaction, recorded_refuses.
  rewrite Hkey. cbn [fmap option_fmap option_map is_some]. rewrite world_apply_eq.
  pose proof (apply_patch_sim (rw_world rw) p f clock Hw Hp) as Hsim.
  destruct (apply_patch (rw_world rw) p f clock) as [[receipt w']|e| |]; [|done..].
  destruct Hsim as [_ [(ra' & Hra & _ & Hr & ->)|(sc & Hap)]].
  - destruct rw. split; [done|]. cbn in *. by eapply rs_replayed.
  - rewrite (ap_fresh _ _ _ _ _ _ _ Hap) in Hkey. done.
Qed.

End recorded.
