(* ===== verification/RecordedReplay.v ===== *)
(** * Replaying recorded worlds

    Replay applies the logged patches to an empty world.  It reproduces the
    recorded scene whenever the pending render changes of the whole history fit
    at once, and a world it produces satisfies the recorded-world invariant. *)

From S2P Require Import Prelude Machine BTree Floats Values Components Messages MessageSpec Codec Ecs WorldTypes Hierarchy Render World SceneSpec CommitRefine PreflightRefine WorldInvariant WorldApply Extraction WorldTheorems Hash Replay ReplayCodec ReplayLogs Recorded.

Open Scope N_scope.

(** The entities the patches of a log touch. *)
Definition touched (l : list ReplayEntry) : gset N :=
  ⋃ ((λ e, targets (patch_operations (en_patch e))) <$> l).

Lemma touched_snoc l e : touched (l ++ [e]) = touched l ∪ targets (patch_operations (en_patch e)).
Proof. unfold touched. rewrite fmap_app, union_list_app_L. cbn. set_solver. Qed.

Section replay.
Context `{Digest} `{JsonCodecLaws ScenePatch}.
Context {W E : Type} `{EqDecision E} `{!EntityStore W E} `{!EntityStoreLaws W E}.
Implicit Types v w : AuthoritativeWorld W E.

(** ** The loop *)

Lemma replay_loop_app clocks i v l1 l2 :
  replay_loop clocks i v (l1 ++ l2)
  = (let! v' := replay_loop clocks i v l1 in replay_loop clocks (i + length l1) v' l2).
Proof.
  revert i v. induction l1 as [|e l1 IH]; intros i v.
  { cbn. by rewrite Nat.add_0_r. }
  cbn [app replay_loop length]. rewrite <-Nat.add_succ_comm.
  repeat (match goal with |- out_bind ?m _ = out_bind (out_bind ?m _) _ => destruct m; [|done..] end;
    repeat match goal with p : _ * _ |- _ => destruct p end; cbn [out_bind]).
  apply IH.
Qed.

(** One step on a world that agrees with the recorded one. *)
Lemma replay_step clocks i v e receipt v' sc l :
  winv v → N.of_nat i ≤ u32_max → revision v = en_previous_revision e →
  en_previous_scene_hash e = scene_hash (abs_scene v) →
  apply_patch v (en_patch e) (en_estimated_visible_frame e) (clocks i) = Ok (receipt, v') →
  applied v (en_patch e) (en_estimated_visible_frame e) (clocks i) sc receipt v' →
  en_new_revision e = revision v' → en_new_scene_hash e = scene_hash (abs_scene v') →
  replay_loop clocks i v (e :: l) = replay_loop clocks (S i) v' l.
Proof.
  intros Hv Hi Hrev Hhash Ha Hap Hrev' Hhash'. cbn [replay_loop].
  rewrite (proj2 (try_from_len_Some u32_max _ _) (conj eq_refl Hi)). cbn [expect out_bind].
  rewrite logical_hash_scene by done. cbn [map_err out_bind].
  rewrite Hrev, N.eqb_refl, bool_decide_true by done. cbn [negb orb guard_err out_bind].
  rewrite Ha. cbn [map_err out_bind].
  rewrite (applied_new_revision _ _ _ _ _ _ _ Hap), Hrev', N.eqb_refl, (ap_receipt _ _ _ _ _ _ _ Hap).
  cbn [receipt_status receipt_previous_revision applied_receipt].
  rewrite Hrev, N.eqb_refl. cbn [negb orb guard_err out_bind].
  rewrite logical_hash_scene by apply Hap. cbn [map_err out_bind].
  rewrite !bool_decide_true by done. done.
Qed.

(** ** Completeness *)

(** A replayed world and the recorded one: the same scene, revision and
    accepted transactions. *)
Record twin v w : Prop := {
  tw_inv : winv v;
  tw_scene : abs_scene v = abs_scene w;
  tw_revision : revision v = revision w;
  tw_config : config v = config w;
  tw_records : ra_transaction_id <$> idempotency_records v = ra_transaction_id <$> idempotency_records w;
}.

Lemma tw_transactions v w : twin v w → ∀ key, recorded_transaction v key = recorded_transaction w key.
Proof.
  intros Ht key. unfold recorded_transaction.
  by rewrite <-(lookup_fmap _ (idempotency_records v)), (tw_records _ _ Ht), lookup_fmap.
Qed.

Lemma live_dom w : winv w → dom (sc_rows (abs_scene w)) = dom (stable_index w).
Proof. intros Hw. apply (store_ok_dom (storage w)), Hw. Qed.

(** A patch accepted by the recorded world is accepted by its twin. *)
Lemma twin_apply v w p f clock receipt w' clock' :
  twin v w → winv w → typed_patch p → idempotency_records w !! patch_idempotency_key p = None →
  apply_patch w p f clock = Ok (receipt, w') → render_extraction_generation v < u64_max →
  N.of_nat (size (pending_render_changes v ∪ targets (patch_operations p) ∪ dom (sc_rows (abs_scene w'))))
    ≤ max_pending_render_changes (config v) →
  ∃ receipt' v', apply_patch v p f clock' = Ok (receipt', v') ∧
    applied v p f clock' (abs_scene w') receipt' v' ∧ twin v' w'.
Proof.
  intros Ht Hw Hp Hfresh Ha Hgen Hpend.
  pose proof (apply_patch_sim w p f clock Hw Hp) as Hsim. rewrite Ha in Hsim.
  destruct Hsim as [Hval [(ra & Hra & _)|(sc & Hap)]]; [congruence|].
  pose proof (ap_inv _ _ _ _ _ _ _ Hap) as Hw'. pose proof (ap_scene _ _ _ _ _ _ _ Hap) as <-.
  destruct Ht as [Hv Hsc Hrv Hcf Hrc].
  assert (idempotency_records v !! patch_idempotency_key p = None) as Hvfresh.
  { apply (f_equal (.!! patch_idempotency_key p)) in Hrc. rewrite !lookup_fmap, Hfresh in Hrc.
    by apply fmap_None in Hrc. }
  destruct (apply_patch_applied v p f clock' (abs_scene w')) as (receipt' & v' & Hav & Hapv); try done.
  - by rewrite Hcf.
  - apply (f_equal size) in Hrc. rewrite !map_size_fmap in Hrc. rewrite Hrc, Hcf.
    pose proof (wi_records_size _ Hw') as Hs. rewrite (ap_records _ _ _ _ _ _ _ Hap), (ap_config _ _ _ _ _ _ _ Hap) in Hs.
    rewrite map_size_insert_None in Hs by done. lia.
  - by rewrite Hrv, (ap_base _ _ _ _ _ _ _ Hap).
  - pose proof (wi_revision _ Hw'). rewrite Hrv. rewrite (ap_revision _ _ _ _ _ _ _ Hap) in *. lia.
  - rewrite Hcf, Hsc. apply Hap.
  - rewrite Hcf, <-(ap_config _ _ _ _ _ _ _ Hap). rewrite (live_dom w') by done.
    apply Hw'.
  - intros x Hx. assert (x ∈ dom (world_transforms w')) as [t Htr]%elem_of_dom.
    { rewrite (wc_transforms _ (wi_core _ Hw')), <-(live_dom w') by done. by apply elem_of_dom. }
    exists (wt_matrix t). by apply (wi_coherent _ Hw').
  - exists receipt', v'. split; [done|]. split; [done|]. split.
    + apply Hapv.
    + by rewrite (ap_scene _ _ _ _ _ _ _ Hapv).
    + by rewrite (ap_revision _ _ _ _ _ _ _ Hapv), (ap_revision _ _ _ _ _ _ _ Hap), Hrv.
    + by rewrite (ap_config _ _ _ _ _ _ _ Hapv), (ap_config _ _ _ _ _ _ _ Hap).
    + by rewrite (ap_records _ _ _ _ _ _ _ Hapv), (ap_records _ _ _ _ _ _ _ Hap), !fmap_insert, Hrc.
Qed.

(** The replayed step of a recorded one passes every comparison. *)
Lemma replay_records clocks i v w p f e w' receipt v' l :
  twin v w → winv w → winv w' → records w p f w' e → N.of_nat i ≤ u32_max →
  apply_patch v p f (clocks i) = Ok (receipt, v') →
  applied v p f (clocks i) (abs_scene w') receipt v' → twin v' w' →
  replay_loop clocks i v (e :: l) = replay_loop clocks (S i) v' l.
Proof.
  intros Ht Hw Hw' [<- <- Hprev Hnew Hph Hnh] Hi Ha Hap Ht'.
  rewrite logical_hash_scene in Hph, Hnh by done. apply Ok_inj in Hph, Hnh.
  eapply replay_step; try done.
  - apply Ht.
  - by rewrite (tw_revision _ _ Ht).
  - by rewrite <-Hph, (tw_scene _ _ Ht).
  - by rewrite (tw_revision _ _ Ht').
  - by rewrite <-Hnh, (tw_scene _ _ Ht').
Qed.

Lemma history_replays wc l w clocks :
  sound_config wc → history wc l w → N.of_nat (length l) ≤ u32_max →
  N.of_nat (size (touched l)) ≤ max_pending_render_changes wc →
  ∃ v, replay_loop clocks 0 (world_new wc) l = Ok v ∧ twin v w ∧ pending_render_changes v ⊆ touched l ∧
    dom (sc_rows (abs_scene v)) ⊆ touched l ∧ render_extraction_generation v = 0.
Proof.
  intros Hwc. induction 1 as [|l w p f clock receipt w' e Hh IH Hp Hfresh Ha He|l w x w' Hh IH Hx]; intros Hlen Hsize.
  - exists (world_new wc). cbn. split; [done|]. split; [by split; [apply world_new_inv|..]|].
    split_and!; [set_solver| |done].
    rewrite (live_dom (world_new wc)) by by apply world_new_inv. cbn. set_solver.
  - destruct (history_inv _ _ _ Hwc Hh) as (Hw & Hcf & _).
    rewrite length_app in Hlen. cbn [length] in Hlen.
    rewrite touched_snoc, (rc_patch _ _ _ _ _ He) in Hsize.
    pose proof (subseteq_size (touched l) (touched l ∪ targets (patch_operations p)) ltac:(set_solver)) as Hsub.
    destruct IH as (v & Hrun & Ht & Hpv & Hdv & Hgv); [lia..|].
    assert (dom (sc_rows (abs_scene w')) ⊆ touched l ∪ targets (patch_operations p)) as Hdom'.
    { pose proof (apply_patch_sim w p f clock Hw Hp) as Hsim. rewrite Ha in Hsim.
      destruct Hsim as [_ [(ra & Hra & _)|(sc & Hap)]]; [congruence|].
      pose proof (spec_operations_dom _ _ _ _ _ (ap_spec _ _ _ _ _ _ _ Hap)) as Hd.
      rewrite (ap_scene _ _ _ _ _ _ _ Hap). rewrite <-(tw_scene _ _ Ht) in Hd. set_solver. }
    destruct (twin_apply v w p f clock receipt w' (clocks (length l))) as (receipt' & v' & Hav & Hap & Ht'); try done.
    { rewrite Hgv. done. }
    { rewrite (tw_config _ _ Ht), Hcf. etrans; [|exact Hsize].
      assert (∀ a b : nat, (a ≤ b)%nat → N.of_nat a ≤ N.of_nat b) as Hle by (intros; lia).
      apply Hle, subseteq_size. set_solver. }
    exists v'. pose proof (ap_scene _ _ _ _ _ _ _ Hap) as Hsc. split; [|split; [done|]].
    + rewrite replay_loop_app, Hrun. cbn [out_bind]. rewrite Nat.add_0_l.
      rewrite (replay_records clocks (length l) v w p f e w' receipt' v'); try done; [|lia].
      by apply (later_step_inv w p f clock receipt w').
    + rewrite touched_snoc, (rc_patch _ _ _ _ _ He), Hsc. split_and!; [|done|].
      * pose proof (ap_pending_bound _ _ _ _ _ _ _ Hap). set_solver.
      * by rewrite (ap_extraction _ _ _ _ _ _ _ Hap).
  - destruct (history_inv _ _ _ Hwc Hh) as (Hw & _).
    destruct (IH Hlen Hsize) as (v & Hrun & [Hv Hsc Hrv Hcf Hrc] & Hrest). exists v. split; [done|]. split; [|done].
    destruct (extract_frame w x w' Hw Hx) as (_ & Hs' & Hr' & Hc' & Hi').
    split; [done|by rewrite Hs'|by rewrite Hr'|by rewrite Hc'|by rewrite Hi'].
Qed.

(** ** Soundness *)

Lemma history_typed wc l w : history wc l w → Forall (λ e, typed_patch (en_patch e)) l.
Proof.
  induction 1 as [|l w p f clock receipt w' e _ IH Hp _ _ He|]; [constructor| |done].
  apply Forall_app. split; [done|]. constructor; [|done]. by rewrite (rc_patch _ _ _ _ _ He).
Qed.

(** A step that replay accepts. *)
Lemma replay_step_inv clocks i v e l v' :
  winv v → typed_patch (en_patch e) → replay_loop clocks i v (e :: l) = Ok v' →
  ∃ receipt w' sc, apply_patch v (en_patch e) (en_estimated_visible_frame e) (clocks i) = Ok (receipt, w') ∧
    applied v (en_patch e) (en_estimated_visible_frame e) (clocks i) sc receipt w' ∧
    records v (en_patch e) (en_estimated_visible_frame e) w' e ∧ replay_loop clocks (S i) w' l = Ok v'.
Proof.
  intros Hv Hp Hrun. cbn [replay_loop] in Hrun.
  apply out_bind_ok in Hrun as (k & _ & Hrun). rewrite logical_hash_scene in Hrun by done.
  cbn [map_err out_bind] in Hrun. apply out_bind_ok in Hrun as ([] & Hg%guard_err_ok & Hrun).
  apply orb_false_iff in Hg as [Hr%negb_false_iff%N.eqb_eq Hs%negb_false_iff%bool_decide_eq_true].
  apply out_bind_ok in Hrun as ([receipt w'] & Ha%map_err_ok & Hrun).
  apply out_bind_ok in Hrun as ([] & Hg%guard_err_ok & Hrun).
  apply orb_false_iff in Hg as [[Hst%negb_false_iff%bool_decide_eq_true _]%orb_false_iff
    Hn%negb_false_iff%N.eqb_eq].
  pose proof (apply_patch_sim v (en_patch e) (en_estimated_visible_frame e) (clocks i) Hv Hp) as Hsim.
  rewrite Ha in Hsim. destruct Hsim as [_ [(ra & _ & _ & -> & _)|(sc & Hap)]]; [done|].
  pose proof (ap_inv _ _ _ _ _ _ _ Hap) as Hw'. rewrite logical_hash_scene in Hrun by done.
  cbn [map_err out_bind] in Hrun. apply out_bind_ok in Hrun as ([] & Hg%guard_err_ok & Hrun).
  apply negb_false_iff, bool_decide_eq_true in Hg.
  exists receipt, w', sc. split_and!; try done. split; try done.
  - by rewrite <-Hn, (applied_new_revision _ _ _ _ _ _ _ Hap).
  - by rewrite logical_hash_scene, Hs.
  - by rewrite logical_hash_scene, Hg.
Qed.

(** Replay extends the history; nothing is extracted on the way. *)
Lemma replay_loop_sound wc clocks l0 v l v' :
  sound_config wc → history wc l0 v → Forall (λ e, typed_patch (en_patch e)) l →
  replay_loop clocks (length l0) v l = Ok v' →
  history wc (l0 ++ l) v' ∧ (∀ mirror, in_sync v mirror → in_sync v' mirror) ∧
  last_extracted_revision v' = last_extracted_revision v ∧
  render_extraction_generation v' = render_extraction_generation v.
Proof.
  intros Hwc Hh Ht. revert l0 v Hh. induction Ht as [|e l Hp _ IH]; intros l0 v Hh Hrun.
  { apply Ok_inj in Hrun as <-. by rewrite app_nil_r. }
  destruct (history_inv _ _ _ Hwc Hh) as (Hv & _).
  destruct (replay_step_inv _ _ _ _ _ _ Hv Hp Hrun) as (receipt & w' & sc & Ha & Hap & Hrec & Hrest).
  destruct (IH (l0 ++ [e]) w') as (Hh' & Hsync & Hle & Hg).
  { eapply history_apply; [done|done|apply Hap|done..]. }
  { by rewrite length_app, Nat.add_comm. }
  rewrite cons_middle, app_assoc. split_and!; [done| | |].
  - intros mirror Hm. by eapply Hsync, applied_in_sync.
  - by rewrite Hle, (ap_extracted _ _ _ _ _ _ _ Hap).
  - by rewrite Hg, (ap_extraction _ _ _ _ _ _ _ Hap).
Qed.

(** Writing, loading and restoring. *)
Lemma recover_sim rw clocks :
  rwinv rw →
  N.of_nat (size (touched (log_entries (rw_log rw)))) ≤ max_pending_render_changes (rw_world_config rw) →
  ∃ b rw', to_bytes (F:=Empty_set) (rw_log rw) = Ok b ∧
    load_prefix b (log_config (rw_log rw)) (runtime_limits (rw_world_config rw)) = Ok (mkLoad (rw_log rw) None) ∧
    recorded_restore (rw_world_config rw) (rw_log rw) clocks = Ok rw' ∧ rwinv rw' ∧
    abs_scene (rw_world rw') = abs_scene (rw_world rw) ∧ revision (rw_world rw') = revision (rw_world rw) ∧
    ∀ key, recorded_transaction (rw_world rw') key = recorded_transaction (rw_world rw) key.
Proof.
  intros Hrw Hsize. pose proof (ri_log _ Hrw) as Hlog. pose proof (ri_replay_config _ Hrw) as ([_ Hme] & _).
  assert (N.of_nat (length (log_entries (rw_log rw))) ≤ u32_max) as Hlen by (pose proof (lo_count _ _ Hlog); lia).
  destruct (history_replays _ _ _ clocks (ri_config _ Hrw) (ri_history _ Hrw) Hlen Hsize)
    as (v & Hrun & Ht & _).
  exists (stream (log_entries (rw_log rw))), (mkRecorded v (rw_world_config rw) (rw_log rw)).
  split; [by eapply to_bytes_ok|]. split; [by apply load_prefix_stream; [apply Hrw|]|]. split.
  { unfold recorded_restore, replay.
    erewrite (proj2 (verify_ok (rw_log rw) _ Hlen)) by (split; [apply Hlog|done]).
    cbn [map_err out_bind]. by rewrite Hrun. }
  split; [|split_and!; [apply Ht..|by apply tw_transactions]].
  destruct Hrw as [Hc Hrc _ Hh]. split; cbn [rw_world rw_world_config rw_log]; try done.
  destruct (replay_loop_sound (rw_world_config rw) clocks [] (world_new (rw_world_config rw)) (log_entries (rw_log rw)) v)
    as (? & _); [done|constructor| |done..].
  by apply (history_typed (rw_world_config rw) (log_entries (rw_log rw)) (rw_world rw)).
Qed.

(** A restored world satisfies the invariant. *)
Lemma restore_sim wc log clocks rw :
  sound_config wc → typed_replay_config (log_config log) → log_ok (runtime_limits wc) log →
  Forall (λ e, typed_patch (en_patch e)) (log_entries log) →
  recorded_restore wc log clocks = Ok rw →
  rwinv rw ∧ rw_log rw = log ∧ rw_world_config rw = wc ∧ in_sync (rw_world rw) ∅ ∧
  last_extracted_revision (rw_world rw) = 0 ∧ render_extraction_generation (rw_world rw) = 0.
Proof.
  intros Hwc Hrc Hlog Ht Hr. unfold recorded_restore, replay in Hr.
  apply out_bind_ok in Hr as (v & Hrun & Hr). apply Ok_inj in Hr as <-.
  apply out_bind_ok in Hrun as (u & _ & Hrun).
  destruct (replay_loop_sound wc clocks [] (world_new wc) (log_entries log) v) as (Hh & Hsync & Hle & Hg); [done|constructor|done..|].
  split_and!; try done. apply Hsync. by intros id _.
Qed.

(** ** Theorems *)

(** Recording is atomic: applying a patch to a recorded world never panics,
    and a refusal leaves world and log as they were, for the stated reason.  A
    success either replays an earlier receipt and changes nothing, or commits the
    patch and appends exactly one entry that records the transition; both keep
    the log verified and in step with the world. *)
Theorem recorded_apply_atomic rw p f clock :
  rwinv rw → typed_patch p → typed_frame f →
  nesting_room ScenePatch (runtime_limits (rw_world_config rw)) →
  match recorded_apply_patch rw p f clock with
  | (rw', Ok receipt) => rwinv rw' ∧ recorded_step rw p f clock receipt rw'
  | (rw', Err error) => rw' = rw ∧ recorded_refuses rw p f clock error
  | (_, Panic) | (_, OutOfFuel) => False
  end.
Proof. apply recorded_apply_sim. Qed.

(** Recovery round trip: the log of a recorded world, written to bytes and
    loaded back, is the same log, and restoring it gives a recorded world with
    the same scene, revision and accepted transactions, provided the entities
    touched by the whole log fit the pending render change capacity. *)
Theorem recorded_recovery rw clocks :
  rwinv rw →
  N.of_nat (size (touched (log_entries (rw_log rw)))) ≤ max_pending_render_changes (rw_world_config rw) →
  ∃ b rw', to_bytes (F:=Empty_set) (rw_log rw) = Ok b ∧
    load_prefix b (log_config (rw_log rw)) (runtime_limits (rw_world_config rw)) = Ok (mkLoad (rw_log rw) None) ∧
    recorded_restore (rw_world_config rw) (rw_log rw) clocks = Ok rw' ∧ rwinv rw' ∧
    abs_scene (rw_world rw') = abs_scene (rw_world rw) ∧ revision (rw_world rw') = revision (rw_world rw) ∧
    ∀ key, recorded_transaction (rw_world rw') key = recorded_transaction (rw_world rw) key.
Proof. apply recover_sim. Qed.

(** Restoring is sound: whatever well-formed log of typed patches
    [RecordedWorld::restore] accepts, the recorded world it returns satisfies
    the invariant, so its entries are exactly the transitions that lead from
    the empty world to the restored one. *)
Theorem recorded_restore_sound wc log clocks rw :
  sound_config wc → typed_replay_config (log_config log) → log_ok (runtime_limits wc) log →
  Forall (λ e, typed_patch (en_patch e)) (log_entries log) →
  recorded_restore wc log clocks = Ok rw → rwinv rw ∧ rw_log rw = log.
Proof. intros Hwc Hrc Hlog Ht Hr. by destruct (restore_sim wc log clocks rw) as (? & ? & _). Qed.

End replay.
