(* ===== verification/ReplayWitness.v ===== *)
(** * Concrete replay logs

    A recorded world with one accepted patch, built with the SHA-256 and slot
    store instances, on which the replay theorems are applied; and a recorded
    world whose verified log cannot be replayed. *)

From S2P Require Import Prelude Machine BTree Floats Values Components Messages MessageSpec Codec Ecs WorldTypes Hierarchy Render World SceneSpec CommitRefine PreflightRefine WorldInvariant WorldApply Extraction WorldTheorems Hash Sha256 Replay ReplayCodec ReplayLogs Recorded RecordedReplay.

Open Scope N_scope.

#[local] Existing Instances sha256_instance sample_codec sample_codec_laws.

Abbreviation slot_recorded := (RecordedWorld SlotStore.store (N * N)).

Definition sample_recorded0 : slot_recorded :=
  mkRecorded sample_world world_config_default (log_new replay_config_default).

Definition sample_recorded : slot_recorded :=
  (recorded_apply_patch sample_recorded0 sample_patch 1 (5, 6)).1.

Lemma sample_replay_config : typed_replay_config replay_config_default.
Proof. unfold typed_replay_config, u32_max. cbn. lia. Qed.

Lemma sample_frame : typed_frame 1.
Proof. unfold typed_frame, u64_max. lia. Qed.

Lemma sample_room : nesting_room ScenePatch (runtime_limits world_config_default).
Proof. split; [vm_compute; discriminate|reflexivity]. Qed.

Lemma sample_recorded0_inv : rwinv sample_recorded0.
Proof. by apply (recorded_new_inv world_config_default replay_config_default);
  [apply sample_config_sound|apply sample_replay_config|]. Qed.

Lemma sample_recorded_inv : rwinv sample_recorded.
Proof.
  pose proof (recorded_apply_sim sample_recorded0 sample_patch 1 (5, 6) sample_recorded0_inv
    sample_patch_typed sample_frame sample_room) as Hsim.
  unfold sample_recorded. destruct (recorded_apply_patch _ _ _ _) as [rw [r|error| |]]; [apply Hsim| |done..].
  destruct Hsim as [-> _]. apply sample_recorded0_inv.
Qed.

Lemma sample_log_ok : log_ok runtime_limits_default (rw_log sample_recorded).
Proof. apply sample_recorded_inv. Qed.

Lemma sample_log_config : log_config (rw_log sample_recorded) = replay_config_default.
Proof. vm_compute. reflexivity. Qed.

Lemma load_prefix_sound_witness :
  ∃ r, load_prefix (REPLAY_HEADER ++ [x00]) replay_config_default runtime_limits_default = Ok r ∧
    ((log_entries (load_log r) = [] ∧ is_Some (load_tail r)) ∨
     (is_ok (verify (load_log r)) = true ∧
      load_result runtime_limits_default replay_config_default (REPLAY_HEADER ++ [x00]) r)).
Proof.
  exact (load_prefix_sound (REPLAY_HEADER ++ [x00]) replay_config_default runtime_limits_default
    sample_replay_config).
Defined.

Lemma load_prefix_maximal_witness :
  ∃ r more, load_prefix (stream (log_entries (rw_log sample_recorded)) ++ [x00; x00])
      (log_config (rw_log sample_recorded)) runtime_limits_default = Ok r ∧
    log_entries (load_log r) = log_entries (rw_log sample_recorded) ++ more.
Proof.
  apply (load_prefix_maximal runtime_limits_default (rw_log sample_recorded) [x00; x00]).
  - rewrite sample_log_config. exact sample_replay_config.
  - exact sample_log_ok.
  - vm_compute. discriminate.
Defined.

Lemma to_bytes_through_revision_ok_witness :
  to_bytes_through_revision (rw_log sample_recorded) 5
  = Err (mkRevisionError 5 (last_revision (rw_log sample_recorded))).
Proof.
  assert ((last_revision (rw_log sample_recorded) <? 5) = true) as Hlt by (vm_compute; reflexivity).
  pose proof (to_bytes_through_revision_ok runtime_limits_default (rw_log sample_recorded) 5
    (eq_ind_r typed_replay_config sample_replay_config sample_log_config) sample_log_ok) as Hr.
  rewrite Hlt in Hr. exact Hr.
Defined.

Lemma replay_log_pinned_witness :
  log_entries (rw_log sample_recorded) = log_entries (rw_log sample_recorded) ∨
  entries_collide (log_entries (rw_log sample_recorded)) (log_entries (rw_log sample_recorded)).
Proof.
  apply (replay_log_pinned runtime_limits_default (rw_log sample_recorded) (rw_log sample_recorded)).
  - exact sample_log_ok.
  - exact sample_log_ok.
  - vm_compute. discriminate.
  - vm_compute. discriminate.
  - reflexivity.
Defined.

Lemma recorded_apply_atomic_witness :
  match recorded_apply_patch sample_recorded0 sample_patch 1 (5, 6) with
  | (rw', Ok receipt) => rwinv rw' ∧ recorded_step sample_recorded0 sample_patch 1 (5, 6) receipt rw'
  | (rw', Err error) => rw' = sample_recorded0 ∧ recorded_refuses sample_recorded0 sample_patch 1 (5, 6) error
  | (_, Panic) | (_, OutOfFuel) => False
  end.
Proof.
  exact (recorded_apply_atomic sample_recorded0 sample_patch 1 (5, 6) sample_recorded0_inv
    sample_patch_typed sample_frame sample_room).
Defined.

Lemma recorded_recovery_witness :
  ∃ b rw', to_bytes (F:=Empty_set) (rw_log sample_recorded) = Ok b ∧
    load_prefix b (log_config (rw_log sample_recorded)) (runtime_limits (rw_world_config sample_recorded))
    = Ok (mkLoad (rw_log sample_recorded) None) ∧
    recorded_restore (rw_world_config sample_recorded) (rw_log sample_recorded) (λ _, (0, 0)) = Ok rw' ∧ rwinv rw' ∧
    abs_scene (rw_world rw') = abs_scene (rw_world sample_recorded) ∧
    revision (rw_world rw') = revision (rw_world sample_recorded) ∧
    ∀ key, recorded_transaction (rw_world rw') key = recorded_transaction (rw_world sample_recorded) key.
Proof.
  apply (recorded_recovery sample_recorded (λ _, (0, 0)) sample_recorded_inv).
  vm_compute. discriminate.
Defined.

Lemma recorded_restore_sound_witness :
  rwinv (mkRecorded sample_world world_config_default (log_new replay_config_default))
  ∧ rw_log sample_recorded0 = log_new replay_config_default.
Proof.
  apply (recorded_restore_sound world_config_default (log_new replay_config_default) (λ _, (0, 0)) sample_recorded0).
  - exact sample_config_sound.
  - exact sample_replay_config.
  - apply log_new_ok. reflexivity.
  - apply Forall_nil. exact I.
  - reflexivity.
Defined.

(** ** A log that cannot be replayed *)

Module RenderCapacity.

Definition gap_config : WorldConfig := {|
  runtime_limits := runtime_limits_default;
  max_entities := 1;
  max_idempotency_records := 8;
  max_pending_render_changes := 1;
  max_hierarchy_depth := 8;
|}.

Definition gap_patch (n base : N) (op : SceneOperation) : ScenePatch :=
  mkPatch schema_v1 n n base RequireExactBase MustApply patch_budget_default [op].

Definition create_first := gap_patch 1 0 (OpCreate (mkCreate 1 [])).
Definition delete_first := gap_patch 2 1 (OpDelete (mkDelete 1)).
Definition create_second := gap_patch 3 2 (OpCreate (mkCreate 2 [])).

Definition gap_codec : JsonCodec ScenePatch := Table.codec
  [(create_first, bytes_of_string "[1]"); (delete_first, bytes_of_string "[2]");
   (create_second, bytes_of_string "[3]")].
#[local] Existing Instance gap_codec.

(** The state after an accepted patch. *)
Definition accepted {St E A} (r : St * outcome E A) : option St := if is_ok r.2 then Some r.1 else None.

(** Create, extract, delete, extract, create: never more than one live entity
    and never more than one pending render change. *)
Definition gap_session : option slot_recorded :=
  rw ← out_ok (recorded_new gap_config replay_config_default);
  rw ← accepted (recorded_apply_patch rw create_first 1 (0, 0));
  '(_, rw) ← out_ok (recorded_take_render_extraction rw);
  rw ← accepted (recorded_apply_patch rw delete_first 2 (0, 0));
  '(_, rw) ← out_ok (recorded_take_render_extraction rw);
  rw ← accepted (recorded_apply_patch rw create_second 3 (0, 0));
  Some rw.

(** A recorded world can hold a log that its own replay refuses: replay
    takes no render extractions in between, so the pending render changes of
    the whole log accumulate and exceed a capacity that the recorded world
    never exceeded. *)
Theorem replay_render_capacity_gap :
  match gap_session with
  | Some rw =>
      is_ok (verify (rw_log rw)) = true ∧
      recorded_replay rw (λ _, (0, 0)) = Err (ReplayWorld 2 (RenderExtractionCapacityExceeded 1))
  | None => False
  end.
Proof. vm_compute. split; reflexivity. Qed.

End RenderCapacity.
