(* ===== verification/AssetTypes.v ===== *)
(** * Values of the asset pipeline

    [cogniform-assets] (types.rs, error.rs): limits, diagnostics, vertices,
    materials with their twelve texture roles, textures, upload jobs and the
    records of the store.  The twelve texture fields of a decoded asset and of
    an upload job are a function of the role; the fixed arrays of samplers and
    transforms of a material are functions of the role's number.  An array of
    numbers is a list. *)

From S2P Require Import Prelude Machine Ordering Floats Values Components Messages Imagination World Codec Compilation Hash Compiler.

Open Scope N_scope.

(** ** Limits and configuration *)

Record AssetLimits := mkAssetLimits {
  al_max_source_bytes : N;
  al_max_pending_source_bytes : N;
  al_max_json_bytes : N;
  al_max_bin_bytes : N;
  al_max_assets : N;
  al_max_pending_imports : N;
  al_max_meshes : N;
  al_max_buffer_views : N;
  al_max_accessors : N;
  al_max_materials : N;
  al_max_texture_dimension_2d : N;
  al_max_texture_pixels : N;
  al_max_texture_decoded_bytes : N;
  al_max_texture_decoder_bytes : N;
  al_max_primitives_per_mesh : N;
  al_max_vertices_per_mesh : N;
  al_max_indices_per_mesh : N;
  al_max_asset_decoded_bytes : N;
  al_max_resident_cpu_bytes : N;
}.

Definition asset_limits_default : AssetLimits := {|
  al_max_source_bytes := 16 * 1024 * 1024;
  al_max_pending_source_bytes := 32 * 1024 * 1024;
  al_max_json_bytes := 1024 * 1024;
  al_max_bin_bytes := 16 * 1024 * 1024;
  al_max_assets := 256;
  al_max_pending_imports := 64;
  al_max_meshes := 64;
  al_max_buffer_views := 256;
  al_max_accessors := 256;
  al_max_materials := 256;
  al_max_texture_dimension_2d := 2048;
  al_max_texture_pixels := 4194304;
  al_max_texture_decoded_bytes := 16 * 1024 * 1024;
  al_max_texture_decoder_bytes := 4 * 1024 * 1024;
  al_max_primitives_per_mesh := 1;
  al_max_vertices_per_mesh := 262144;
  al_max_indices_per_mesh := 786432;
  al_max_asset_decoded_bytes := 16 * 1024 * 1024;
  al_max_resident_cpu_bytes := 64 * 1024 * 1024;
|}.

Inductive UnsupportedAssetPolicy : Type := Reject | ProxyCuboid.

Record AssetStoreConfig := mkAssetStoreConfig {
  asc_limits : AssetLimits;
  asc_unsupported_policy : UnsupportedAssetPolicy;
}.
Definition asset_store_config_default : AssetStoreConfig := mkAssetStoreConfig asset_limits_default Reject.

Inductive AssetState : Type := AsQueued | AsReady | AsProxyReady | AsRejected.
#[export] Instance AssetState_eq : EqDecision AssetState.
Proof. solve_decision. Defined.

(** ** Diagnostics and errors *)

Inductive AssetDiagnosticCode : Type :=
| AdInvalidGlb | AdInvalidLength | AdInvalidJson | AdUnsupportedExtension | AdUnsupportedFeature | AdInvalidBufferRange
| AdUnsupportedAccessor | AdUnsupportedPrimitiveMode | AdNonFiniteVertex | AdInvalidNormal | AdInvalidTangent
| AdInvalidTexcoord | AdInvalidColor | AdInvalidImage | AdInvalidIndex | AdCollectionLimitExceeded | AdByteLimitExceeded.

(** [AssetDiagnosticCode::permits_proxy]. *)
Definition permits_proxy (code : AssetDiagnosticCode) : bool :=
  match code with
  | AdUnsupportedExtension | AdUnsupportedFeature | AdUnsupportedAccessor | AdUnsupportedPrimitiveMode => true
  | _ => false
  end.

Record AssetDiagnostic := mkDiagnostic {
  ad_code : AssetDiagnosticCode;
  ad_location : string;
  ad_index : option N;
}.

Inductive AssetError : Type :=
| AeSourceSizeExceeded (actual limit : N)
| AeContentHashMismatch (expected actual : ContentHash)
| AeRecordCapacityExceeded (capacity : N)
| AeImportCapacityExceeded (capacity : N)
| AePendingSourceBytesExceeded (actual limit : N)
| AeAssetNotFound (content_hash : ContentHash)
| AeAssetNotReady (content_hash : ContentHash)
| AeMeshNotFound (content_hash : ContentHash) (mesh_index : N).

(** ** Geometry *)

Definition ASSET_VERTEX_BYTES : N := 72.

Record AssetVertex := mkAssetVertex {
  vx_position : list f32;
  vx_normal : list f32;
  vx_tangent : list f32;
  vx_texcoord_0 : list f32;
  vx_color_0 : list f32;
  vx_texcoord_1 : list f32;
}.

Record AssetMeshKey := mkMeshKey {
  mk_content_hash : ContentHash;
  mk_mesh_index : N;
}.
#[export] Instance AssetMeshKey_eq : EqDecision AssetMeshKey.
Proof. solve_decision. Defined.
#[export] Instance AssetMeshKey_countable : Countable AssetMeshKey.
Proof.
  refine (inj_countable' (λ k, (mk_content_hash k, mk_mesh_index k)) (λ p, mkMeshKey p.1 p.2) _). by intros [].
Defined.

(** ** Texture roles *)

Inductive AssetTextureRole : Type :=
| RoleBaseColor | RoleEmissive | RoleMetallicRoughness | RoleNormal | RoleSpecular | RoleSpecularColor | RoleClearcoat
| RoleClearcoatRoughness | RoleClearcoatNormal | RoleSheenColor | RoleSheenRoughness | RoleAnisotropy.

(** The roles in the order of their bits, of their samplers and of the arrays
    that list them. *)
Definition asset_roles : list AssetTextureRole :=
  [RoleBaseColor; RoleEmissive; RoleMetallicRoughness; RoleNormal; RoleSpecular; RoleSpecularColor; RoleClearcoat;
   RoleClearcoatRoughness; RoleClearcoatNormal; RoleSheenColor; RoleSheenRoughness; RoleAnisotropy].

Definition role_index (role : AssetTextureRole) : nat :=
  match role with
  | RoleBaseColor => 0 | RoleEmissive => 1 | RoleMetallicRoughness => 2 | RoleNormal => 3 | RoleSpecular => 4
  | RoleSpecularColor => 5 | RoleClearcoat => 6 | RoleClearcoatRoughness => 7 | RoleClearcoatNormal => 8
  | RoleSheenColor => 9 | RoleSheenRoughness => 10 | RoleAnisotropy => 11
  end.

#[export] Instance AssetTextureRole_eq : EqDecision AssetTextureRole.
Proof. solve_decision. Defined.
#[export] Instance AssetTextureRole_countable : Countable AssetTextureRole.
Proof. refine (inj_countable role_index (λ n, asset_roles !! n) _). by intros []. Defined.

Lemma elem_of_asset_roles role : role ∈ asset_roles.
Proof. apply list_elem_of_lookup. exists (role_index role). by destruct role. Qed.

Lemma asset_roles_NoDup : NoDup asset_roles.
Proof. apply (bool_decide_unpack (NoDup asset_roles)). by vm_compute. Qed.

(** ** Samplers and transforms *)

Inductive AssetSamplerFilter : Type := FilterNearest | FilterLinear.
Inductive AssetSamplerMinFilter : Type :=
| MinNearest | MinLinear | MinNearestMipmapNearest | MinLinearMipmapNearest | MinNearestMipmapLinear | MinLinearMipmapLinear.

(** [AssetSamplerMinFilter::effective_filter]. *)
Definition effective_filter (f : AssetSamplerMinFilter) : AssetSamplerFilter :=
  match f with
  | MinNearest | MinNearestMipmapNearest | MinNearestMipmapLinear => FilterNearest
  | MinLinear | MinLinearMipmapNearest | MinLinearMipmapLinear => FilterLinear
  end.

Inductive AssetSamplerWrap : Type := ClampToEdge | MirroredRepeat | Repeat.

Record AssetSampler := mkSampler {
  sa_mag_filter : AssetSamplerFilter;
  sa_min_filter : AssetSamplerMinFilter;
  sa_wrap_s : AssetSamplerWrap;
  sa_wrap_t : AssetSamplerWrap;
}.
Definition LINEAR_REPEAT : AssetSampler := mkSampler FilterLinear MinLinear Repeat Repeat.

(** The affine rows of a texture transform, and the identity. *)
Definition AssetTextureTransform : Type := list f32 * list f32.
Definition texture_transform_identity : AssetTextureTransform :=
  ([f32_one; f32_zero; f32_zero; f32_zero], [f32_zero; f32_one; f32_zero; f32_zero]).

(** [-x] on [f32]: the sign bit is flipped. *)
Definition f32_neg (x : f32) : f32 := N.lxor x 2147483648.

(** [AssetTextureTransform::new]; sine and cosine are platform functions. *)
Definition texture_transform_new (sin_cos : f32 → f32 * f32) (offset : f32 * f32) (rotation : f32) (scale : f32 * f32)
    : AssetTextureTransform :=
  let '(sin, cos) := sin_cos rotation in
  ([f32_mul cos scale.1; f32_mul (f32_neg sin) scale.2; offset.1; f32_zero],
   [f32_mul sin scale.1; f32_mul cos scale.2; offset.2; f32_zero]).

(** [AssetTextureTransform::transform]. *)
Definition transform_row (row : list f32) (coordinate : f32 * f32) : option f32 :=
  let u := f32_mul (nth 0 row f32_zero) coordinate.1 in
  let v := f32_mul (nth 1 row f32_zero) coordinate.2 in
  let value := f32_add (f32_add u v) (nth 2 row f32_zero) in
  if f32_is_finite u && f32_is_finite v && f32_is_finite value then Some value else None.

Definition apply_texture_transform (t : AssetTextureTransform) (coordinate : f32 * f32) : option (f32 * f32) :=
  x ← transform_row t.1 coordinate;
  y ← transform_row t.2 coordinate;
  Some (x, y).

(** ** Materials *)

Inductive AssetAlphaMode : Type := AlphaOpaque | AlphaMask.
Inductive AssetShadingModel : Type := AssetMetallicRoughness | AssetUnlit.

Record AssetMaterial := mkAssetMaterial {
  mt_base_color : ColorRgba;
  mt_metallic : f32;
  mt_roughness : f32;
  mt_emissive : list f32;
  mt_emissive_strength : f32;
  mt_ior : f32;
  mt_dielectric_f0 : f32;
  mt_specular_factor : f32;
  mt_specular_color_factor : list f32;
  mt_clearcoat_factor : f32;
  mt_clearcoat_roughness_factor : f32;
  mt_sheen_color_factor : list f32;
  mt_sheen_roughness_factor : f32;
  mt_anisotropy_present : bool;
  mt_anisotropy_strength : f32;
  mt_anisotropy_rotation : f32;
  mt_anisotropy_rotation_cos_sin : list f32;
  mt_texture_roles : N;
  mt_texture_coordinate_sets : N;
  mt_texture_samplers : nat → AssetSampler;
  mt_texture_transforms : nat → AssetTextureTransform;
  mt_normal_scale : f32;
  mt_clearcoat_normal_scale : f32;
  mt_alpha_mode : AssetAlphaMode;
  mt_alpha_cutoff : f32;
  mt_double_sided : bool;
  mt_shading_model : AssetShadingModel;
}.

(** [1.5], [0.04] and [0.5] as [f32]. *)
Definition f32_ior_default : f32 := 1069547520.
Definition f32_dielectric_default : f32 := 1025758986.

(** [AssetMaterial::new]. *)
Definition asset_material_new (base_color : ColorRgba) (metallic roughness : f32) : AssetMaterial := {|
  mt_base_color := base_color;
  mt_metallic := metallic;
  mt_roughness := roughness;
  mt_emissive := [f32_zero; f32_zero; f32_zero];
  mt_emissive_strength := f32_one;
  mt_ior := f32_ior_default;
  mt_dielectric_f0 := f32_dielectric_default;
  mt_specular_factor := f32_one;
  mt_specular_color_factor := [f32_one; f32_one; f32_one];
  mt_clearcoat_factor := f32_zero;
  mt_clearcoat_roughness_factor := f32_zero;
  mt_sheen_color_factor := [f32_zero; f32_zero; f32_zero];
  mt_sheen_roughness_factor := f32_zero;
  mt_anisotropy_present := false;
  mt_anisotropy_strength := f32_zero;
  mt_anisotropy_rotation := f32_zero;
  mt_anisotropy_rotation_cos_sin := [f32_one; f32_zero];
  mt_texture_roles := 0;
  mt_texture_coordinate_sets := 0;
  mt_texture_samplers := λ _, LINEAR_REPEAT;
  mt_texture_transforms := λ _, texture_transform_identity;
  mt_normal_scale := f32_one;
  mt_clearcoat_normal_scale := f32_one;
  mt_alpha_mode := AlphaOpaque;
  mt_alpha_cutoff := f32_half;
  mt_double_sided := false;
  mt_shading_model := AssetMetallicRoughness;
|}.

(** The bit of a role. *)
Definition role_bit (role : nat) : N := N.shiftl 1 (N.of_nat role).

(** [has_base_color_texture] and the other tests of a role; the same test reads
    an [ImportedTextureRoles] value. *)
Definition has_role (roles : N) (role : nat) : bool := negb (N.land roles (role_bit role) =? 0).

(** [texture_coordinate_set], and the accessors of samplers and transforms. *)
Definition texture_coordinate_set (m : AssetMaterial) (role : nat) : option N :=
  if N.land (mt_texture_roles m) (role_bit role) =? 0 then None
  else if N.land (mt_texture_coordinate_sets m) (role_bit role) =? 0 then Some 0 else Some 1.

Definition texture_sampler (m : AssetMaterial) (role : nat) : option AssetSampler :=
  if has_role (mt_texture_roles m) role then Some (mt_texture_samplers m role) else None.

Definition texture_transform (m : AssetMaterial) (role : nat) : option AssetTextureTransform :=
  if has_role (mt_texture_roles m) role then Some (mt_texture_transforms m role) else None.

(** [alpha_cutoff]. *)
Definition alpha_cutoff (m : AssetMaterial) : option f32 :=
  match mt_alpha_mode m with AlphaOpaque => None | AlphaMask => Some (mt_alpha_cutoff m) end.

(** ** Textures and jobs *)

Record AssetTexture := mkTexture {
  tx_width : N;
  tx_height : N;
  tx_rgba8 : bytes;
}.
Definition texture_byte_len (t : AssetTexture) : N := len_or_max u64_max (length (tx_rgba8 t)).

Record DecodedMesh := mkDecodedMesh {
  dm_vertices : list AssetVertex;
  dm_material : AssetMaterial;
}.

Record DecodedAsset := mkDecodedAsset {
  da_meshes : list DecodedMesh;
  da_texture : AssetTextureRole → option AssetTexture;
  da_byte_len : N;
}.

(** [DecodedAsset::texture_count]. *)
Definition texture_count (d : DecodedAsset) : N :=
  foldl (λ total role, total + is_some_u64 (da_texture d role)) 0 asset_roles.

Record AssetUploadJob := mkUploadJob {
  uj_key : AssetMeshKey;
  uj_vertices : list AssetVertex;
  uj_material : AssetMaterial;
  uj_texture : AssetTextureRole → option AssetTexture;
}.

(** [u64::saturating_mul], and [AssetUploadJob::byte_len]. *)
Definition job_byte_len (j : AssetUploadJob) : N :=
  N.min u64_max (len_or_max u64_max (length (uj_vertices j)) * ASSET_VERTEX_BYTES).

(** ** Records of the store *)

Inductive AssetAdmission : Type :=
| AaQueued (content_hash : ContentHash)
| AaAlreadyKnown (content_hash : ContentHash) (state : AssetState).

Record AssetProcessOutcome := mkProcessOutcome {
  po_content_hash : ContentHash;
  po_state : AssetState;
  po_mesh_count : N;
}.

Record AssetRecord := mkAssetRecord {
  ar_content_hash : ContentHash;
  ar_state : AssetState;
  ar_source_bytes : N;
  ar_decoded_bytes : N;
  ar_mesh_count : N;
  ar_diagnostics : list AssetDiagnostic;
}.

Record AssetStoreStats := mkAssetStoreStats {
  ast_records : N;
  ast_pending_imports : N;
  ast_oldest_pending_import_age_micros : option N;
  ast_pending_source_bytes : N;
  ast_resident_cpu_bytes : N;
}.

Record AssetStoreEviction := mkStoreEviction {
  se_content_hash : ContentHash;
  se_previous_state : option AssetState;
  se_removed_pending_imports : N;
  se_released_pending_source_bytes : N;
  se_released_resident_cpu_bytes : N;
  se_removed_meshes : N;
  se_removed_textures : N;
}.

(** [AssetStoreEviction::is_already_absent]. *)
Definition store_already_absent (e : AssetStoreEviction) : bool := negb (is_some (se_previous_state e)).

(** * Building an imported material

    The [with_*] builders of cogniform-assets/src/types.rs, and that what a
    builder puts in is what the accessors of the role read back. *)

(** The texture of a role: its bit in the roles, its coordinate set, its sampler
    and its transform. *)
Definition set_role_texture (role : nat) (sampler : AssetSampler) (transform : AssetTextureTransform) (set : N)
    (m : AssetMaterial) : AssetMaterial :=
  mkAssetMaterial (mt_base_color m) (mt_metallic m) (mt_roughness m) (mt_emissive m) (mt_emissive_strength m) (mt_ior m)
    (mt_dielectric_f0 m) (mt_specular_factor m) (mt_specular_color_factor m) (mt_clearcoat_factor m)
    (mt_clearcoat_roughness_factor m) (mt_sheen_color_factor m) (mt_sheen_roughness_factor m) (mt_anisotropy_present m)
    (mt_anisotropy_strength m) (mt_anisotropy_rotation m) (mt_anisotropy_rotation_cos_sin m)
    (N.lor (mt_texture_roles m) (role_bit role)) (N.lor (mt_texture_coordinate_sets m) (set * role_bit role))
    (λ i, if Nat.eqb i role then sampler else mt_texture_samplers m i)
    (λ i, if Nat.eqb i role then transform else mt_texture_transforms m i) (mt_normal_scale m) (mt_clearcoat_normal_scale m)
    (mt_alpha_mode m) (mt_alpha_cutoff m) (mt_double_sided m) (mt_shading_model m).

(** The common body of the texture builders. *)
Definition with_role_texture (role : nat) (sampler : AssetSampler) (transform : AssetTextureTransform) (set : N) (m : AssetMaterial)
    : outcome AssetDiagnostic AssetMaterial :=
  do! debug_assert (set <=? 1) then Ok (set_role_texture role sampler transform set m).

Definition with_base_color_texture := with_role_texture (role_index RoleBaseColor).
Definition with_metallic_roughness_texture := with_role_texture (role_index RoleMetallicRoughness).
Definition with_emissive_texture := with_role_texture (role_index RoleEmissive).
Definition with_specular_texture := with_role_texture (role_index RoleSpecular).
Definition with_specular_color_texture := with_role_texture (role_index RoleSpecularColor).
Definition with_clearcoat_texture := with_role_texture (role_index RoleClearcoat).
Definition with_clearcoat_roughness_texture := with_role_texture (role_index RoleClearcoatRoughness).
Definition with_sheen_color_texture := with_role_texture (role_index RoleSheenColor).
Definition with_sheen_roughness_texture := with_role_texture (role_index RoleSheenRoughness).
Definition with_anisotropy_texture := with_role_texture (role_index RoleAnisotropy).

Definition set_normal_scale (scale : f32) (m : AssetMaterial) : AssetMaterial :=
  mkAssetMaterial (mt_base_color m) (mt_metallic m) (mt_roughness m) (mt_emissive m) (mt_emissive_strength m) (mt_ior m)
    (mt_dielectric_f0 m) (mt_specular_factor m) (mt_specular_color_factor m) (mt_clearcoat_factor m)
    (mt_clearcoat_roughness_factor m) (mt_sheen_color_factor m) (mt_sheen_roughness_factor m) (mt_anisotropy_present m)
    (mt_anisotropy_strength m) (mt_anisotropy_rotation m) (mt_anisotropy_rotation_cos_sin m) (mt_texture_roles m)
    (mt_texture_coordinate_sets m) (mt_texture_samplers m) (mt_texture_transforms m) scale (mt_clearcoat_normal_scale m)
    (mt_alpha_mode m) (mt_alpha_cutoff m) (mt_double_sided m) (mt_shading_model m).
Definition set_clearcoat_normal_scale (scale : f32) (m : AssetMaterial) : AssetMaterial :=
  mkAssetMaterial (mt_base_color m) (mt_metallic m) (mt_roughness m) (mt_emissive m) (mt_emissive_strength m) (mt_ior m)
    (mt_dielectric_f0 m) (mt_specular_factor m) (mt_specular_color_factor m) (mt_clearcoat_factor m)
    (mt_clearcoat_roughness_factor m) (mt_sheen_color_factor m) (mt_sheen_roughness_factor m) (mt_anisotropy_present m)
    (mt_anisotropy_strength m) (mt_anisotropy_rotation m) (mt_anisotropy_rotation_cos_sin m) (mt_texture_roles m)
    (mt_texture_coordinate_sets m) (mt_texture_samplers m) (mt_texture_transforms m) (mt_normal_scale m) scale
    (mt_alpha_mode m) (mt_alpha_cutoff m) (mt_double_sided m) (mt_shading_model m).

Definition with_normal_texture (scale : f32) (sampler : AssetSampler) (transform : AssetTextureTransform) (set : N) (m : AssetMaterial)
    : outcome AssetDiagnostic AssetMaterial :=
  let! m := with_role_texture (role_index RoleNormal) sampler transform set m in Ok (set_normal_scale scale m).
Definition with_clearcoat_normal_texture (scale : f32) (sampler : AssetSampler) (transform : AssetTextureTransform) (set : N)
    (m : AssetMaterial) : outcome AssetDiagnostic AssetMaterial :=
  let! m := with_role_texture (role_index RoleClearcoatNormal) sampler transform set m in Ok (set_clearcoat_normal_scale scale m).

(** The builders of factors and modes. *)
Definition with_emissive (emissive : list f32) (m : AssetMaterial) : AssetMaterial :=
  mkAssetMaterial (mt_base_color m) (mt_metallic m) (mt_roughness m) emissive (mt_emissive_strength m) (mt_ior m)
    (mt_dielectric_f0 m) (mt_specular_factor m) (mt_specular_color_factor m) (mt_clearcoat_factor m)
    (mt_clearcoat_roughness_factor m) (mt_sheen_color_factor m) (mt_sheen_roughness_factor m) (mt_anisotropy_present m)
    (mt_anisotropy_strength m) (mt_anisotropy_rotation m) (mt_anisotropy_rotation_cos_sin m) (mt_texture_roles m)
    (mt_texture_coordinate_sets m) (mt_texture_samplers m) (mt_texture_transforms m) (mt_normal_scale m)
    (mt_clearcoat_normal_scale m) (mt_alpha_mode m) (mt_alpha_cutoff m) (mt_double_sided m) (mt_shading_model m).
Definition with_emissive_strength (strength : f32) (m : AssetMaterial) : AssetMaterial :=
  mkAssetMaterial (mt_base_color m) (mt_metallic m) (mt_roughness m) (mt_emissive m) strength (mt_ior m) (mt_dielectric_f0 m)
    (mt_specular_factor m) (mt_specular_color_factor m) (mt_clearcoat_factor m) (mt_clearcoat_roughness_factor m)
    (mt_sheen_color_factor m) (mt_sheen_roughness_factor m) (mt_anisotropy_present m) (mt_anisotropy_strength m)
    (mt_anisotropy_rotation m) (mt_anisotropy_rotation_cos_sin m) (mt_texture_roles m) (mt_texture_coordinate_sets m)
    (mt_texture_samplers m) (mt_texture_transforms m) (mt_normal_scale m) (mt_clearcoat_normal_scale m) (mt_alpha_mode m)
    (mt_alpha_cutoff m) (mt_double_sided m) (mt_shading_model m).
Definition with_ior (ior dielectric_f0 : f32) (m : AssetMaterial) : AssetMaterial :=
  mkAssetMaterial (mt_base_color m) (mt_metallic m) (mt_roughness m) (mt_emissive m) (mt_emissive_strength m) ior
    dielectric_f0 (mt_specular_factor m) (mt_specular_color_factor m) (mt_clearcoat_factor m)
    (mt_clearcoat_roughness_factor m) (mt_sheen_color_factor m) (mt_sheen_roughness_factor m) (mt_anisotropy_present m)
    (mt_anisotropy_strength m) (mt_anisotropy_rotation m) (mt_anisotropy_rotation_cos_sin m) (mt_texture_roles m)
    (mt_texture_coordinate_sets m) (mt_texture_samplers m) (mt_texture_transforms m) (mt_normal_scale m)
    (mt_clearcoat_normal_scale m) (mt_alpha_mode m) (mt_alpha_cutoff m) (mt_double_sided m) (mt_shading_model m).
Definition with_specular (factor : f32) (color_factor : list f32) (m : AssetMaterial) : AssetMaterial :=
  mkAssetMaterial (mt_base_color m) (mt_metallic m) (mt_roughness m) (mt_emissive m) (mt_emissive_strength m) (mt_ior m)
    (mt_dielectric_f0 m) factor color_factor (mt_clearcoat_factor m) (mt_clearcoat_roughness_factor m)
    (mt_sheen_color_factor m) (mt_sheen_roughness_factor m) (mt_anisotropy_present m) (mt_anisotropy_strength m)
    (mt_anisotropy_rotation m) (mt_anisotropy_rotation_cos_sin m) (mt_texture_roles m) (mt_texture_coordinate_sets m)
    (mt_texture_samplers m) (mt_texture_transforms m) (mt_normal_scale m) (mt_clearcoat_normal_scale m) (mt_alpha_mode m)
    (mt_alpha_cutoff m) (mt_double_sided m) (mt_shading_model m).
Definition with_clearcoat (factor roughness_factor : f32) (m : AssetMaterial) : AssetMaterial :=
  mkAssetMaterial (mt_base_color m) (mt_metallic m) (mt_roughness m) (mt_emissive m) (mt_emissive_strength m) (mt_ior m)
    (mt_dielectric_f0 m) (mt_specular_factor m) (mt_specular_color_factor m) factor roughness_factor (mt_sheen_color_factor m)
    (mt_sheen_roughness_factor m) (mt_anisotropy_present m) (mt_anisotropy_strength m) (mt_anisotropy_rotation m)
    (mt_anisotropy_rotation_cos_sin m) (mt_texture_roles m) (mt_texture_coordinate_sets m) (mt_texture_samplers m)
    (mt_texture_transforms m) (mt_normal_scale m) (mt_clearcoat_normal_scale m) (mt_alpha_mode m) (mt_alpha_cutoff m)
    (mt_double_sided m) (mt_shading_model m).
Definition with_sheen (color_factor : list f32) (roughness_factor : f32) (m : AssetMaterial) : AssetMaterial :=
  mkAssetMaterial (mt_base_color m) (mt_metallic m) (mt_roughness m) (mt_emissive m) (mt_emissive_strength m) (mt_ior m)
    (mt_dielectric_f0 m) (mt_specular_factor m) (mt_specular_color_factor m) (mt_clearcoat_factor m)
    (mt_clearcoat_roughness_factor m) color_factor roughness_factor (mt_anisotropy_present m) (mt_anisotropy_strength m)
    (mt_anisotropy_rotation m) (mt_anisotropy_rotation_cos_sin m) (mt_texture_roles m) (mt_texture_coordinate_sets m)
    (mt_texture_samplers m) (mt_texture_transforms m) (mt_normal_scale m) (mt_clearcoat_normal_scale m) (mt_alpha_mode m)
    (mt_alpha_cutoff m) (mt_double_sided m) (mt_shading_model m).
Definition set_anisotropy (present : bool) (strength rotation : f32) (cos_sin : list f32) (m : AssetMaterial) : AssetMaterial :=
  mkAssetMaterial (mt_base_color m) (mt_metallic m) (mt_roughness m) (mt_emissive m) (mt_emissive_strength m) (mt_ior m)
    (mt_dielectric_f0 m) (mt_specular_factor m) (mt_specular_color_factor m) (mt_clearcoat_factor m)
    (mt_clearcoat_roughness_factor m) (mt_sheen_color_factor m) (mt_sheen_roughness_factor m) present strength rotation
    cos_sin (mt_texture_roles m) (mt_texture_coordinate_sets m) (mt_texture_samplers m) (mt_texture_transforms m)
    (mt_normal_scale m) (mt_clearcoat_normal_scale m) (mt_alpha_mode m) (mt_alpha_cutoff m) (mt_double_sided m)
    (mt_shading_model m).
(** [with_anisotropy]; sine and cosine are platform functions. *)
Definition with_anisotropy (sin_cos : f32 → f32 * f32) (present : bool) (strength rotation : f32) (m : AssetMaterial)
    : outcome AssetDiagnostic AssetMaterial :=
  let '(sin, cos) := sin_cos rotation in
  do! debug_assert (f32_is_finite sin && f32_is_finite cos) then
  Ok (set_anisotropy present strength rotation [cos; sin] m).
Definition with_alpha_mask (cutoff : f32) (m : AssetMaterial) : AssetMaterial :=
  mkAssetMaterial (mt_base_color m) (mt_metallic m) (mt_roughness m) (mt_emissive m) (mt_emissive_strength m) (mt_ior m)
    (mt_dielectric_f0 m) (mt_specular_factor m) (mt_specular_color_factor m) (mt_clearcoat_factor m)
    (mt_clearcoat_roughness_factor m) (mt_sheen_color_factor m) (mt_sheen_roughness_factor m) (mt_anisotropy_present m)
    (mt_anisotropy_strength m) (mt_anisotropy_rotation m) (mt_anisotropy_rotation_cos_sin m) (mt_texture_roles m)
    (mt_texture_coordinate_sets m) (mt_texture_samplers m) (mt_texture_transforms m) (mt_normal_scale m)
    (mt_clearcoat_normal_scale m) AlphaMask cutoff (mt_double_sided m) (mt_shading_model m).
Definition with_double_sided  (m : AssetMaterial) : AssetMaterial :=
  mkAssetMaterial (mt_base_color m) (mt_metallic m) (mt_roughness m) (mt_emissive m) (mt_emissive_strength m) (mt_ior m)
    (mt_dielectric_f0 m) (mt_specular_factor m) (mt_specular_color_factor m) (mt_clearcoat_factor m)
    (mt_clearcoat_roughness_factor m) (mt_sheen_color_factor m) (mt_sheen_roughness_factor m) (mt_anisotropy_present m)
    (mt_anisotropy_strength m) (mt_anisotropy_rotation m) (mt_anisotropy_rotation_cos_sin m) (mt_texture_roles m)
    (mt_texture_coordinate_sets m) (mt_texture_samplers m) (mt_texture_transforms m) (mt_normal_scale m)
    (mt_clearcoat_normal_scale m) (mt_alpha_mode m) (mt_alpha_cutoff m) true (mt_shading_model m).
Definition with_unlit  (m : AssetMaterial) : AssetMaterial :=
  mkAssetMaterial (mt_base_color m) (mt_metallic m) (mt_roughness m) (mt_emissive m) (mt_emissive_strength m) (mt_ior m)
    (mt_dielectric_f0 m) (mt_specular_factor m) (mt_specular_color_factor m) (mt_clearcoat_factor m)
    (mt_clearcoat_roughness_factor m) (mt_sheen_color_factor m) (mt_sheen_roughness_factor m) (mt_anisotropy_present m)
    (mt_anisotropy_strength m) (mt_anisotropy_rotation m) (mt_anisotropy_rotation_cos_sin m) (mt_texture_roles m)
    (mt_texture_coordinate_sets m) (mt_texture_samplers m) (mt_texture_transforms m) (mt_normal_scale m)
    (mt_clearcoat_normal_scale m) (mt_alpha_mode m) (mt_alpha_cutoff m) (mt_double_sided m) AssetUnlit.

(** ** What the accessors read back *)

Lemma land_role_bit v i : (N.land v (role_bit i) =? 0) = negb (N.testbit v (N.of_nat i)).
Proof.
  unfold role_bit. rewrite N.shiftl_1_l. destruct (N.eqb_spec (N.land v (2 ^ N.of_nat i)) 0) as [Hz|Hz].
  - apply (f_equal (λ x, N.testbit x (N.of_nat i))) in Hz. rewrite N.land_spec, N.pow2_bits_true, N.bits_0, andb_true_r in Hz. by rewrite Hz.
  - destruct (N.testbit v (N.of_nat i)) eqn:Hb; [done|]. destruct Hz. apply N.bits_inj. intros k.
    rewrite N.land_spec, N.pow2_bits_eqb, N.bits_0. destruct (N.eqb_spec (N.of_nat i) k) as [<-|]; [by rewrite Hb|by rewrite andb_false_r].
Qed.

Lemma has_role_testbit v i : has_role v i = N.testbit v (N.of_nat i).
Proof. unfold has_role. by rewrite land_role_bit, negb_involutive. Qed.

Lemma role_bit_testbit i j : N.testbit (role_bit j) (N.of_nat i) = Nat.eqb i j.
Proof.
  unfold role_bit. rewrite N.shiftl_1_l, N.pow2_bits_eqb. destruct (N.eqb_spec (N.of_nat j) (N.of_nat i)), (Nat.eqb_spec i j); lia || done.
Qed.

(** What the accessors of a role read. *)
Definition role_view (m : AssetMaterial) (role : nat) : option (AssetSampler * AssetTextureTransform * N) :=
  sampler ← texture_sampler m role;
  transform ← texture_transform m role;
  set ← texture_coordinate_set m role;
  Some (sampler, transform, set).

(** The texture builders and the accessors of a material agree: a role that
    was set reads back its sampler, its transform and its coordinate set, every
    other role reads as before, and the factors of the material are kept. *)
Theorem material_texture_roundtrip role sampler transform set m :
  set ≤ 1 → N.testbit (mt_texture_coordinate_sets m) (N.of_nat role) = false →
  ∃ m', with_role_texture role sampler transform set m = Ok m' ∧
    role_view m' role = Some (sampler, transform, set) ∧
    (∀ other, other ≠ role → role_view m' other = role_view m other) ∧
    mt_base_color m' = mt_base_color m ∧ alpha_cutoff m' = alpha_cutoff m.
Proof.
  intros Hset Hclear. unfold with_role_texture. rewrite (proj2 (N.leb_le _ _) Hset). cbn [debug_assert out_bind]. eexists. split; [done|].
  assert (∀ i, N.testbit (set * role_bit role) (N.of_nat i) = Nat.eqb i role && (set =? 1)) as Hbits.
  { intros i. destruct (decide (set = 0)) as [->|Hz]; [by rewrite N.mul_0_l, N.bits_0, andb_false_r|].
    assert (set = 1) as -> by lia. by rewrite N.mul_1_l, role_bit_testbit, andb_true_r. }
  assert (∀ i, role_view (set_role_texture role sampler transform set m) i
    = if Nat.eqb i role then Some (sampler, transform, set) else role_view m i) as Hview.
  { intros i. unfold role_view, texture_sampler, texture_transform, texture_coordinate_set, set_role_texture.
    cbn [mt_texture_roles mt_texture_samplers mt_texture_transforms mt_texture_coordinate_sets].
    rewrite !land_role_bit, !has_role_testbit, !N.lor_spec, Hbits, role_bit_testbit.
    destruct (Nat.eqb_spec i role) as [->|Hne]; [|by rewrite !orb_false_r].
    rewrite orb_true_r, Hclear. cbn. destruct (N.eqb_spec set 1) as [->|]; [done|]. by assert (set = 0) as -> by lia. }
  split_and!; [by rewrite Hview, Nat.eqb_refl| |done|done].
  intros other Hne. rewrite Hview. by destruct (Nat.eqb_spec other role).
Qed.

Lemma material_texture_roundtrip_witness :
  ∃ m', with_base_color_texture LINEAR_REPEAT texture_transform_identity 1
      (asset_material_new (mkColorRgba f32_one f32_one f32_one f32_one) f32_zero f32_one) = Ok m' ∧
    role_view m' 0 = Some (LINEAR_REPEAT, texture_transform_identity, 1) ∧ role_view m' 3 = None.
Proof.
  destruct (material_texture_roundtrip 0 LINEAR_REPEAT texture_transform_identity 1
    (asset_material_new (mkColorRgba f32_one f32_one f32_one f32_one) f32_zero f32_one)) as (m' & E & Hv & Ho & _);
    [lia|vm_compute; reflexivity|].
  exists m'. split; [exact E|]. split; [exact Hv|]. rewrite (Ho 3%nat); [vm_compute; reflexivity|lia].
Defined.
