(* ===== verification/RenderScene.v ===== *)
(** * The renderer's copy of the scene

    [RenderScene] of [cogniform-renderer/src/scene.rs]: the records and compact
    identities a renderer keeps, and the atomic consumption of one extraction
    packet.  The copy follows the packets exactly, compact identities stay
    unique, are kept for the life of a record and recycled, and the identity
    space is never exhausted. *)

From S2P Require Import Prelude Machine BTree Floats Values Components WorldTypes Render.

Open Scope N_scope.

Record RenderScene := mkRenderScene {
  rn_revision : SceneRevision;
  rn_generation : N;
  rn_entities : gmap N RenderEntity;
  rn_compact_ids : gmap N N;
  rn_free_compact_ids : gset N;
  rn_next_compact_id : option N;
  rn_max_entities : N;
}.

Inductive SceneUpdateError : Type :=
| GenerationMismatch (expected supplied : N)
| GenerationExhausted
| SuBaseRevisionMismatch (current supplied : SceneRevision)
| SuEntityCapacityExceeded (limit : N)
| CompactIdentityExhausted.

Record SceneUpdateSummary := mkSummary {
  su_scene_revision : SceneRevision;
  su_generation : N;
  su_upserts : N;
  su_removals : N;
}.

(** [RenderScene::new]. *)
Definition render_scene_new (max_entities : N) : RenderScene :=
  mkRenderScene 0 0 ∅ ∅ ∅ (Some 1) max_entities.

(** ** Applying a packet *)

(** The counting loop; counts of records in memory never reach [usize::MAX]. *)
Definition project_step (entities : gmap N RenderEntity) (acc : nat * nat) (c : RenderChange) : nat * nat :=
  let '(projected, new_ids) := acc in
  match c with
  | Upsert e => if is_some (entities !! re_entity_id e) then acc else (S projected, S new_ids)
  | Remove id => if is_some (entities !! id) then (pred projected, new_ids) else acc
  end.

(** The loop that returns the identities of removed records. *)
Definition release_step (compact_ids : gmap N N) (free : gset N) (c : RenderChange) : gset N :=
  match c with
  | Remove id => match compact_ids !! id with Some compact => {[compact]} ∪ free | None => free end
  | Upsert _ => free
  end.

(** [BTreeSet::pop_first]. *)
Definition pop_first (s : gset N) : option (N * gset N) :=
  match bset_iter s with
  | [] => None
  | x :: _ => Some (x, s ∖ {[x]})
  end.

(** The loop that assigns identities to new records. *)
Definition assign_step (entities : gmap N RenderEntity) (acc : gmap N N * gset N * option N) (c : RenderChange)
    : outcome SceneUpdateError (gmap N N * gset N * option N) :=
  let '(assigned, free, next) := acc in
  match c with
  | Remove _ => Ok acc
  | Upsert e =>
      if is_some (entities !! re_entity_id e) then Ok acc
      else
        match pop_first free with
        | Some (compact, free) => Ok (<[re_entity_id e := compact]> assigned, free, next)
        | None =>
            let! value := ok_or next CompactIdentityExhausted in
            Ok (<[re_entity_id e := value]> assigned, free, checked_add u32_max value 1)
        end
  end.

(** The committing loop. *)
Definition update_step (acc : gmap N RenderEntity * gmap N N * gmap N N * N * N) (c : RenderChange)
    : gmap N RenderEntity * gmap N N * gmap N N * N * N :=
  let '(entities, compact_ids, assigned, upserts, removals) := acc in
  match c with
  | Upsert e =>
      let id := re_entity_id e in
      (<[id := e]> entities,
       match assigned !! id with Some compact => <[id := compact]> compact_ids | None => compact_ids end,
       delete id assigned, sat_add u32_max upserts 1, removals)
  | Remove id => (delete id entities, delete id compact_ids, assigned, upserts, sat_add u32_max removals 1)
  end.

(** [RenderScene::apply]. *)
Definition render_scene_apply (s : RenderScene) (x : RenderExtraction)
    : outcome SceneUpdateError (SceneUpdateSummary * RenderScene) :=
  let supplied_generation := rx_generation x in
  let! expected_generation := ok_or (checked_add u64_max (rn_generation s) 1) GenerationExhausted in
  do! guard_err (negb (supplied_generation =? expected_generation))
    (GenerationMismatch expected_generation supplied_generation) then
  do! guard_err (negb (rx_base_revision x =? rn_revision s))
    (SuBaseRevisionMismatch (rn_revision s) (rx_base_revision x)) then
  let '(projected_count, new_id_count) :=
    foldl (project_step (rn_entities s)) (size (rn_entities s), 0%nat) (rx_changes x) in
  do! guard_err (rn_max_entities s <? N.of_nat projected_count) (SuEntityCapacityExceeded (rn_max_entities s)) then
  let free := foldl (release_step (rn_compact_ids s)) (rn_free_compact_ids s) (rx_changes x) in
  let! (assigned, free, next) :=
    out_fold (assign_step (rn_entities s)) (∅, free, rn_next_compact_id s) (rx_changes x) in
  do! (if Nat.eqb (size assigned) new_id_count then Ok tt else Panic) then
  let '(entities, compact_ids, _, upserts, removals) :=
    foldl update_step (rn_entities s, rn_compact_ids s, assigned, 0, 0) (rx_changes x) in
  let revision := rx_scene_revision x in
  Ok (mkSummary revision (rx_generation x) upserts removals,
      mkRenderScene revision supplied_generation entities compact_ids free next (rn_max_entities s)).

(** ** Compact identities *)

(** The first identity never handed out. *)
Definition frontier (next : option N) : N := default (u32_max + 1) next.

(** Identities below the frontier are held by one record each or free. *)
Record allocation (holders : gmap N N) (free : gset N) (next : option N) : Prop := {
  al_count : N.of_nat (size holders) + N.of_nat (size free) + 1 = frontier next;
  al_range x c : holders !! x = Some c → 1 ≤ c < frontier next ∧ c ∉ free;
  al_free c : c ∈ free → 1 ≤ c < frontier next;
  al_inj x y c : holders !! x = Some c → holders !! y = Some c → x = y;
  al_next n : next = Some n → 1 ≤ n ≤ u32_max;
}.

Lemma allocation_new : allocation ∅ ∅ (Some 1).
Proof.
  split; [done|..].
  - intros x c. by rewrite lookup_empty.
  - intros c Hc. by apply elem_of_empty in Hc.
  - intros x y c. by rewrite lookup_empty.
  - intros n [= <-]. unfold u32_max. lia.
Qed.

Lemma size_delete_Some (m : gmap N N) x c : m !! x = Some c → size m = S (size (delete x m)).
Proof. intros Hx. rewrite <-(insert_delete_id m x c Hx) at 1. by rewrite map_size_insert_None by apply lookup_delete_eq. Qed.

Lemma allocation_release holders free next x c :
  holders !! x = Some c → allocation holders free next → allocation (delete x holders) ({[c]} ∪ free) next.
Proof.
  intros Hx [Hc Hr Hf Hi Hn]. destruct (Hr _ _ Hx) as [Hb Hnf]. split.
  - rewrite (size_delete_Some _ _ _ Hx) in Hc. rewrite size_union, size_singleton by set_solver. lia.
  - intros y d [Hne Hy]%lookup_delete_Some. destruct (Hr _ _ Hy) as [? ?]. split; [done|].
    intros [->%elem_of_singleton|?]%elem_of_union; [|done]. apply Hne. by eapply Hi.
  - intros d [->%elem_of_singleton|Hd]%elem_of_union; [done|by apply Hf].
  - intros y z d [_ Hy]%lookup_delete_Some [_ Hz]%lookup_delete_Some. by eapply Hi.
  - done.
Qed.

Lemma allocation_reuse holders free next x c :
  c ∈ free → holders !! x = None → allocation holders free next → allocation (<[x := c]> holders) (free ∖ {[c]}) next.
Proof.
  intros Hin Hx [Hc Hr Hf Hi Hn]. split.
  - rewrite map_size_insert_None by done.
    assert (size free = S (size (free ∖ {[c]}))) as Hs.
    { rewrite (union_difference_singleton_L c free Hin) at 1. rewrite size_union, size_singleton by set_solver. done. }
    lia.
  - intros y d [[<- <-]|[Hne Hy]]%lookup_insert_Some; [split; [by apply Hf|set_solver]|].
    destruct (Hr _ _ Hy). split; [done|]. set_solver.
  - intros d Hd. apply Hf. set_solver.
  - intros y z d [[<- <-]|[? Hy]]%lookup_insert_Some [[<- Hcd]|[? Hz]]%lookup_insert_Some; try done.
    + by apply Hr in Hz as [_ ?].
    + subst d. by apply Hr in Hy as [_ ?].
    + by eapply Hi.
  - done.
Qed.

Lemma allocation_fresh holders next x n :
  next = Some n → holders !! x = None → allocation holders ∅ next →
  allocation (<[x := n]> holders) ∅ (checked_add u32_max n 1).
Proof.
  intros -> Hx [Hc Hr Hf Hi Hn]. specialize (Hn n eq_refl). change (frontier (Some n)) with n in *.
  assert (frontier (checked_add u32_max n 1) = n + 1) as Hfr.
  { unfold checked_add. destruct (N.leb_spec (n + 1) u32_max); cbn; lia. }
  split; rewrite ?Hfr.
  - rewrite map_size_insert_None by done. lia.
  - intros y d [[<- <-]|[_ Hy]]%lookup_insert_Some; [split; [lia|set_solver]|]. destruct (Hr _ _ Hy). split; [lia|done].
  - intros d Hd. by apply elem_of_empty in Hd.
  - intros y z d [[<- <-]|[? Hy]]%lookup_insert_Some [[<- Hcd]|[? Hz]]%lookup_insert_Some; try done.
    + apply Hr in Hz as [? _]. lia.
    + subst d. apply Hr in Hy as [? _]. lia.
    + by eapply Hi.
  - intros m [-> ?]%checked_add_Some. lia.
Qed.

Lemma pop_first_None s : pop_first s = None → s = ∅.
Proof.
  unfold pop_first. destruct (bset_iter s) as [|x l] eqn:E; [|done]. intros _. apply set_eq. intros x.
  rewrite <-elem_of_bset_iter, E. set_solver.
Qed.

Lemma pop_first_Some s x s' : pop_first s = Some (x, s') → x ∈ s ∧ s' = s ∖ {[x]}.
Proof.
  unfold pop_first. destruct (bset_iter s) as [|y l] eqn:E; [done|]. intros [= <- <-]. split; [|done].
  apply elem_of_bset_iter. rewrite E. by apply elem_of_cons; left.
Qed.

(** ** The invariant of a scene copy *)

Record scene_ok (s : RenderScene) : Prop := {
  sk_ids : dom (rn_compact_ids s) = dom (rn_entities s);
  sk_alloc : allocation (rn_compact_ids s) (rn_free_compact_ids s) (rn_next_compact_id s);
  sk_bound : N.of_nat (size (rn_entities s)) ≤ rn_max_entities s;
  sk_max : rn_max_entities s ≤ u32_max;
  sk_keys x e : rn_entities s !! x = Some e → re_entity_id e = x;
}.

(** A packet lists each entity once. *)
Definition distinct (changes : list RenderChange) : Prop := NoDup (change_id <$> changes).

(** Identities of new records. *)
Definition new_ids (entities : gmap N RenderEntity) (changes : list RenderChange) : list N :=
  omap (λ c, match c with
             | Upsert e => if is_some (entities !! re_entity_id e) then None else Some (re_entity_id e)
             | Remove _ => None
             end) changes.

(** Holders after the removals of a packet. *)
Definition survivors (holders : gmap N N) (changes : list RenderChange) : gmap N N :=
  foldl (λ m c, match c with Remove id => delete id m | Upsert _ => m end) holders changes.

Lemma project_spec entities cur k changes :
  distinct changes → (∀ c, c ∈ changes → is_some (cur !! change_id c) = is_some (entities !! change_id c)) →
  foldl (project_step entities) (size cur, k) changes
  = (size (foldl apply_change cur changes), (k + length (new_ids entities changes))%nat).
Proof.
  revert cur k. induction changes as [|c changes IH]; intros cur k; [intros _ _; cbn; by rewrite Nat.add_0_r|].
  unfold distinct. rewrite fmap_cons. intros [Hc Hnd]%NoDup_cons Hsame.
  pose proof (Hsame c ltac:(by apply elem_of_cons; left)) as Hhere.
  assert (∀ cur' : gmap N RenderEntity, (∀ x, x ≠ change_id c → cur' !! x = cur !! x) →
    ∀ d, d ∈ changes → is_some (cur' !! change_id d) = is_some (entities !! change_id d)) as Hrest.
  { intros cur' Hcur d Hd. rewrite Hcur; [apply Hsame; by apply elem_of_cons; right|].
    intros Heq. apply Hc. rewrite <-Heq. by apply list_elem_of_fmap_2. }
  destruct c as [e|id]; cbn [foldl project_step new_ids omap list_omap change_id apply_change] in *.
  - fold (new_ids entities changes). destruct (cur !! re_entity_id e) as [o|] eqn:Hcur, (entities !! re_entity_id e) as [o'|]; try done; cbn [is_some].
    + rewrite <-(map_size_insert_Some (re_entity_id e) e cur) by (rewrite Hcur; eauto). apply IH; [done|]. apply Hrest.
      intros x Hx. by apply lookup_insert_ne.
    + cbn [length]. rewrite Nat.add_succ_r, <-Nat.add_succ_l, <-(map_size_insert_None (re_entity_id e) e cur) by done.
      apply IH; [done|]. apply Hrest. intros x Hx. by apply lookup_insert_ne.
  - fold (new_ids entities changes). destruct (cur !! id) as [o|] eqn:Hcur, (entities !! id) as [o'|]; try done; cbn [is_some].
    + assert (pred (size cur) = size (delete id cur)) as ->.
      { rewrite <-(insert_delete_id cur id o Hcur) at 1. by rewrite map_size_insert_None by apply lookup_delete_eq. }
      apply IH; [done|]. apply Hrest. intros x Hx. by apply lookup_delete_ne.
    + rewrite <-(fin_maps.delete_id cur id Hcur) at 1. apply IH; [done|]. apply Hrest. intros x Hx. by apply lookup_delete_ne.
Qed.

Lemma release_spec holders free next changes m :
  distinct changes → (∀ c, c ∈ changes → m !! change_id c = holders !! change_id c) → allocation m free next →
  allocation (survivors m changes) (foldl (release_step holders) free changes) next.
Proof.
  revert m free. induction changes as [|c changes IH]; intros m free; [done|].
  unfold distinct. rewrite fmap_cons. intros [Hc Hnd]%NoDup_cons Hsame Ha.
  pose proof (Hsame c ltac:(by apply elem_of_cons; left)) as Hhere.
  assert (∀ m' : gmap N N, (∀ x, x ≠ change_id c → m' !! x = m !! x) →
    ∀ d, d ∈ changes → m' !! change_id d = holders !! change_id d) as Hrest.
  { intros m' Hm d Hd. rewrite Hm; [apply Hsame; by apply elem_of_cons; right|].
    intros Heq. apply Hc. rewrite <-Heq. by apply list_elem_of_fmap_2. }
  destruct c as [e|id]; cbn [survivors foldl release_step change_id] in *.
  - apply IH; [done| |done]. by apply Hrest.
  - rewrite <-Hhere. destruct (m !! id) as [compact|] eqn:Hm.
    + apply IH; [done| |by apply allocation_release]. apply Hrest. intros x Hx. by apply lookup_delete_ne.
    + rewrite (fin_maps.delete_id m id Hm). apply IH; [done| |done]. by apply Hrest.
Qed.

(** The packet removes [x]. *)
Definition removes (x : N) (changes : list RenderChange) : bool :=
  existsb (λ c, match c with Remove id => id =? x | Upsert _ => false end) changes.

Lemma survivors_lookup m changes x : survivors m changes !! x = if removes x changes then None else m !! x.
Proof.
  revert m. induction changes as [|c changes IH]; intros m; [done|].
  cbn [survivors foldl removes existsb]. fold (survivors (match c with Remove id => delete id m | Upsert _ => m end) changes).
  fold (removes x changes). rewrite IH. destruct c as [e|id]; [done|].
  destruct (N.eqb_spec id x) as [->|Hne]; cbn [orb].
  - rewrite lookup_delete_eq. by destruct (removes x changes).
  - by rewrite lookup_delete_ne.
Qed.

(** The assignment succeeds while there is room, and extends the holders. *)
Lemma assign_spec entities changes assigned m free next :
  distinct changes → allocation (assigned ∪ m) free next →
  (∀ x, x ∈ new_ids entities changes → (assigned ∪ m) !! x = None) →
  N.of_nat (size (assigned ∪ m) + length (new_ids entities changes)) ≤ u32_max →
  ∃ assigned' free' next', out_fold (assign_step entities) (assigned, free, next) changes = Ok (assigned', free', next') ∧
    allocation (assigned' ∪ m) free' next' ∧
    (∀ x, is_Some (assigned' !! x) ↔ is_Some (assigned !! x) ∨ x ∈ new_ids entities changes) ∧
    size (assigned' ∪ m) = (size (assigned ∪ m) + length (new_ids entities changes))%nat.
Proof.
  revert assigned free next. induction changes as [|c changes IH]; intros assigned free next Hd Ha Hn Hb.
  { exists assigned, free, next. split; [done|]. split; [done|]. split; [|by rewrite Nat.add_0_r]. intros x. split; [by left|].
    intros [?|Hx]; [done|]. by apply not_elem_of_nil in Hx. }
  unfold distinct in Hd. rewrite fmap_cons in Hd. apply NoDup_cons in Hd as [Hc Hd].
  assert (∀ x, x ∈ new_ids entities changes → x ∈ change_id <$> changes) as Hsub.
  { intros x (d & Hdin & Hx)%list_elem_of_omap. apply list_elem_of_fmap. exists d. split; [|done].
    destruct d as [e|]; [|done]. cbn. destruct (is_some _); [done|]. by injection Hx. }
  cbn [out_fold assign_step]. unfold new_ids in *. cbn [omap list_omap] in *.
  destruct c as [e|id]; cbn [out_bind change_id] in *; [|by apply IH].
  destruct (entities !! re_entity_id e) as [o|]; cbn [is_some out_bind] in *; [by apply IH|].
  set (id := re_entity_id e) in *. fold (new_ids entities changes) in *.
  assert ((assigned ∪ m) !! id = None) as Hid by (apply Hn; by apply elem_of_cons; left).
  assert (∀ compact free' next', allocation (<[id := compact]> (assigned ∪ m)) free' next' →
    ∃ assigned' free'' next'', out_fold (assign_step entities) (<[id := compact]> assigned, free', next') changes
        = Ok (assigned', free'', next'') ∧ allocation (assigned' ∪ m) free'' next'' ∧
      (∀ x, is_Some (assigned' !! x) ↔ is_Some (assigned !! x) ∨ x ∈ id :: new_ids entities changes) ∧
      size (assigned' ∪ m) = (size (assigned ∪ m) + length (id :: new_ids entities changes))%nat) as Hstep.
  { intros compact free' next' Ha'. rewrite insert_union_l in Ha'.
    assert (size (<[id := compact]> assigned ∪ m) = S (size (assigned ∪ m))) as Hsz.
    { rewrite <-insert_union_l. by rewrite map_size_insert_None. }
    destruct (IH (<[id := compact]> assigned) free' next' Hd Ha') as (a' & f' & n' & Ho & Ha2 & Hdom & Hsize).
    - intros x Hx. rewrite <-insert_union_l, lookup_insert_ne; [apply Hn; by apply elem_of_cons; right|].
      intros ->. by apply Hc, Hsub.
    - rewrite Hsz. cbn [length] in Hb. lia.
    - exists a', f', n'. split_and!; try done; [|rewrite Hsize, Hsz; cbn; lia].
      intros x. rewrite Hdom, elem_of_cons. destruct (decide (x = id)) as [->|Hne].
      + rewrite lookup_insert_eq. split; intros _; [by right; left|left; eauto].
      + rewrite lookup_insert_ne by done. naive_solver. }
  destruct (pop_first free) as [[compact free']|] eqn:Hp; cbn [out_bind].
  - apply pop_first_Some in Hp as [Hin ->]. apply Hstep. by apply allocation_reuse.
  - apply pop_first_None in Hp as ->. destruct next as [n|]; cbn [ok_or out_bind].
    + apply Hstep. by eapply allocation_fresh.
    + exfalso. pose proof (al_count _ _ _ Ha) as Hcount. rewrite size_empty in Hcount. cbn in Hcount, Hb. unfold u32_max in *. lia.
Qed.

Lemma removes_spec x changes : removes x changes = true → x ∈ change_id <$> changes.
Proof.
  unfold removes. rewrite existsb_exists. intros (c & Hc & Hx). apply list_elem_of_fmap. exists c.
  split; [|by apply list_elem_of_In]. destruct c as [e|id]; [done|]. by apply N.eqb_eq in Hx.
Qed.

Lemma update_spec entities compact_ids assigned upserts removals changes :
  distinct changes → (∀ x, is_Some (assigned !! x) → ∃ e, Upsert e ∈ changes ∧ re_entity_id e = x) →
  ∃ assigned' upserts' removals',
    foldl update_step (entities, compact_ids, assigned, upserts, removals) changes
    = (foldl apply_change entities changes, assigned ∪ survivors compact_ids changes, assigned', upserts', removals').
Proof.
  revert entities compact_ids assigned upserts removals.
  induction changes as [|c changes IH]; intros entities compact_ids assigned upserts removals.
  { intros _ Ha. cbn. assert (assigned = ∅) as ->; [|rewrite map_empty_union; eauto].
    apply map_eq. intros x. rewrite lookup_empty. destruct (assigned !! x) as [n|] eqn:Hx; [|done].
    destruct (Ha x) as (e & He & _); [eauto|]. by apply not_elem_of_nil in He. }
  unfold distinct. rewrite fmap_cons. intros [Hc Hnd]%NoDup_cons Ha.
  destruct c as [e|id]; cbn [foldl update_step apply_change survivors change_id] in *.
  - set (id := re_entity_id e) in *. fold (survivors compact_ids changes).
    assert (removes id changes = false) as Hnr.
    { destruct (removes id changes) eqn:E; [|done]. by apply removes_spec in E. }
    destruct (IH (<[id := e]> entities) (match assigned !! id with Some compact => <[id := compact]> compact_ids | None => compact_ids end)
      (delete id assigned) (sat_add u32_max upserts 1) removals Hnd) as (a' & u' & r' & ->).
    { intros x [c' [Hne Hx]%lookup_delete_Some]. destruct (Ha x) as (e' & [[= ->]|He']%elem_of_cons & Hid); [eauto|done|eauto]. }
    exists a', u', r'.
    assert (delete id assigned ∪ survivors (match assigned !! id with Some compact => <[id := compact]> compact_ids | None => compact_ids end) changes
      = assigned ∪ survivors compact_ids changes) as ->; [|done].
    apply map_eq. intros x. rewrite !lookup_union, !survivors_lookup. destruct (decide (x = id)) as [->|Hne].
    + rewrite lookup_delete_eq, Hnr. destruct (assigned !! id) as [n|]; [rewrite lookup_insert_eq|]; by destruct (compact_ids !! id).
    + rewrite lookup_delete_ne by done. f_equal. destruct (removes x changes); [done|].
      destruct (assigned !! id); [by rewrite lookup_insert_ne|done].
  - destruct (IH (delete id entities) (delete id compact_ids) assigned upserts (sat_add u32_max removals 1) Hnd) as (a' & u' & r' & ->).
    { intros x Hx. destruct (Ha x Hx) as (e' & [?|He']%elem_of_cons & Hid); [done|eauto]. }
    by exists a', u', r'.
Qed.

Lemma new_ids_spec entities changes x :
  x ∈ new_ids entities changes ↔ ∃ e, Upsert e ∈ changes ∧ re_entity_id e = x ∧ entities !! x = None.
Proof.
  unfold new_ids. rewrite list_elem_of_omap. split.
  - intros ([e|id] & Hc & Hx); [|done]. destruct (entities !! re_entity_id e) eqn:E; [done|]. cbn in Hx. injection Hx as <-. eauto.
  - intros (e & He & <- & Hn). exists (Upsert e). split; [done|]. by rewrite Hn.
Qed.

Lemma apply_changes_dom entities changes x : distinct changes →
  is_Some (foldl apply_change entities changes !! x) ↔
  x ∈ new_ids entities changes ∨ (is_Some (entities !! x) ∧ removes x changes = false).
Proof.
  revert entities. induction changes as [|c changes IH]; intros entities.
  { intros _. cbn. split; [by right|]. intros [Hx|[? _]]; [by apply not_elem_of_nil in Hx|done]. }
  unfold distinct. rewrite fmap_cons. intros [Hc Hnd]%NoDup_cons.
  cbn [foldl]. rewrite IH by done. rewrite !new_ids_spec. cbn [removes existsb]. fold (removes x changes).
  destruct c as [e|id]; cbn [apply_change change_id orb] in *.
  - destruct (decide (x = re_entity_id e)) as [->|Hne].
    + rewrite lookup_insert_eq. assert (removes (re_entity_id e) changes = false) as ->.
      { destruct (removes _ changes) eqn:E; [|done]. by apply removes_spec in E. }
      split; [intros _|intros _; right; eauto].
      destruct (entities !! re_entity_id e) eqn:E; [right; eauto|left]. exists e. split_and!; [by apply elem_of_cons; left|done..].
    + rewrite lookup_insert_ne by done. setoid_rewrite elem_of_cons. naive_solver.
  - destruct (N.eqb_spec id x) as [->|Hne]; cbn [orb].
    + rewrite lookup_delete_eq. split; [|intros [(e & [?|He]%elem_of_cons & Hid & _)|[_ ?]]; try done].
      * intros [(e & He & Hid & _)|[[? ?] _]]; [|done]. exfalso. apply Hc. apply list_elem_of_fmap. by exists (Upsert e).
      * exfalso. apply Hc. apply list_elem_of_fmap. by exists (Upsert e).
    + rewrite lookup_delete_ne by done. setoid_rewrite elem_of_cons. naive_solver.
Qed.

Lemma new_ids_nodup entities changes : distinct changes → NoDup (new_ids entities changes).
Proof.
  unfold distinct. induction changes as [|c l IH]; intros Hd; [constructor|].
  rewrite fmap_cons in Hd. apply NoDup_cons in Hd as [Hc Hd]. unfold new_ids. cbn [omap list_omap].
  destruct c as [e|]; [|by apply IH]. destruct (is_some _); [by apply IH|]. constructor; [|by apply IH].
  intros (e' & He' & Hid & _)%(new_ids_spec entities l). apply Hc. apply list_elem_of_fmap. by exists (Upsert e').
Qed.

(** The records after a packet: those that stay and the new ones. *)
Lemma final_size entities holders changes :
  distinct changes → dom holders = dom entities →
  (∀ y, is_Some (survivors holders changes !! y) ↔ is_Some (entities !! y) ∧ removes y changes = false) ∧
  (∀ y, y ∈ new_ids entities changes → survivors holders changes !! y = None) ∧
  size (foldl apply_change entities changes) = (size (survivors holders changes) + length (new_ids entities changes))%nat.
Proof.
  intros Hd Hdom. set (m := survivors holders changes).
  assert (∀ y, is_Some (m !! y) ↔ is_Some (entities !! y) ∧ removes y changes = false) as Hm.
  { intros y. unfold m. rewrite survivors_lookup. rewrite <-!elem_of_dom, <-Hdom, !elem_of_dom.
    destruct (removes y changes); [|naive_solver]. split; [by intros [? ?]|naive_solver]. }
  assert (∀ y, y ∈ new_ids entities changes → m !! y = None) as Hnew.
  { intros y (e & _ & _ & Hn)%new_ids_spec. apply eq_None_not_Some. rewrite Hm, Hn. by intros [[? ?] _]. }
  split_and!; [done..|]. rewrite <-(size_dom (D:=gset N) (foldl apply_change entities changes)).
  assert (dom (foldl apply_change entities changes) = dom m ∪ list_to_set (new_ids entities changes)) as ->.
  { apply set_eq. intros y. rewrite elem_of_union, !elem_of_dom, elem_of_list_to_set, Hm.
    rewrite (apply_changes_dom _ _ _ Hd). naive_solver. }
  rewrite size_union, size_dom, size_list_to_set; [done|by apply new_ids_nodup|].
  intros y Hy Hin%elem_of_list_to_set. apply elem_of_dom in Hy as [? Hy]. rewrite Hnew in Hy by done. done.
Qed.

(** Everything one packet does. *)
Record applied_packet (s : RenderScene) (x : RenderExtraction) (s' : RenderScene) : Prop := {
  pk_ok : scene_ok s';
  pk_entities : rn_entities s' = foldl apply_change (rn_entities s) (rx_changes x);
  pk_revision : rn_revision s' = rx_scene_revision x;
  pk_generation : rn_generation s' = rx_generation x;
  pk_kept y c : rn_compact_ids s !! y = Some c → is_Some (rn_entities s' !! y) → rn_compact_ids s' !! y = Some c;
  pk_max : rn_max_entities s' = rn_max_entities s;
}.

Lemma scene_keys_step m c : (∀ x e, m !! x = Some e → re_entity_id e = x) →
  ∀ x e, apply_change m c !! x = Some e → re_entity_id e = x.
Proof.
  intros Hm x e. destruct c as [e'|id]; cbn.
  - intros [[<- <-]|[_ Hx]]%lookup_insert_Some; [done|by apply Hm].
  - intros [_ Hx]%lookup_delete_Some. by apply Hm.
Qed.

Lemma render_scene_apply_sim s x : scene_ok s → distinct (rx_changes x) →
  match render_scene_apply s x with
  | Ok (_, s') => rx_generation x = rn_generation s + 1 ∧ rx_base_revision x = rn_revision s ∧ applied_packet s x s'
  | Err GenerationExhausted => u64_max ≤ rn_generation s
  | Err (GenerationMismatch expected supplied) =>
      expected = rn_generation s + 1 ∧ supplied = rx_generation x ∧ expected ≠ supplied
  | Err (SuBaseRevisionMismatch current supplied) => current = rn_revision s ∧ supplied = rx_base_revision x ∧ current ≠ supplied
  | Err (SuEntityCapacityExceeded limit) => limit = rn_max_entities s ∧
      limit < N.of_nat (size (foldl apply_change (rn_entities s) (rx_changes x)))
  | Err CompactIdentityExhausted | Panic | OutOfFuel => False
  end.
Proof.
  intros Hs Hd. unfold render_scene_apply.
  destruct (checked_add u64_max (rn_generation s) 1) as [g|] eqn:Hg; cbn [ok_or out_bind].
  2:{ apply checked_add_None in Hg. unfold u64_max in *. lia. }
  apply checked_add_Some in Hg as [-> Hg].
  destruct (N.eqb_spec (rx_generation x) (rn_generation s + 1)) as [Hgen|Hgen]; cbn [negb guard_err out_bind]; [|done].
  destruct (N.eqb_spec (rx_base_revision x) (rn_revision s)) as [Hbase|Hbase]; cbn [negb guard_err out_bind]; [|done].
  rewrite (project_spec (rn_entities s) (rn_entities s) 0 (rx_changes x) Hd) by done.
  set (final := foldl apply_change (rn_entities s) (rx_changes x)).
  destruct (N.ltb_spec (rn_max_entities s) (N.of_nat (size final))) as [Hlt|Hle]; cbn [guard_err out_bind]; [done|].
  pose proof (release_spec (rn_compact_ids s) (rn_free_compact_ids s) (rn_next_compact_id s) (rx_changes x) (rn_compact_ids s) Hd
    ltac:(done) (sk_alloc _ Hs)) as Hrel.
  set (m := survivors (rn_compact_ids s) (rx_changes x)) in *.
  destruct (final_size (rn_entities s) (rn_compact_ids s) (rx_changes x) Hd (sk_ids _ Hs)) as (Hm & Hnew & Hsize).
  fold m final in Hm, Hnew, Hsize.
  destruct (assign_spec (rn_entities s) (rx_changes x) ∅ m (foldl (release_step (rn_compact_ids s)) (rn_free_compact_ids s) (rx_changes x))
    (rn_next_compact_id s) Hd) as (assigned & free & next & -> & Ha & Hdom & Hasize).
  { by rewrite map_empty_union. }
  { intros y Hy. rewrite map_empty_union. by apply Hnew. }
  { rewrite map_empty_union, <-Hsize. pose proof (sk_max _ Hs). lia. }
  cbn [out_bind]. rewrite map_empty_union in Hasize.
  assert (assigned ##ₘ m) as Hdisj.
  { apply map_disjoint_spec. intros y c1 c2 H1 H2. assert (y ∈ new_ids (rn_entities s) (rx_changes x)) as Hy.
    { destruct (proj1 (Hdom y)) as [[? ?]|?]; [eauto|by rewrite lookup_empty in *|done]. }
    rewrite Hnew in H2; done. }
  assert (size assigned = length (new_ids (rn_entities s) (rx_changes x))) as Hal.
  { rewrite map_size_disj_union in Hasize by done. lia. }
  rewrite Nat.add_0_l, Hal, Nat.eqb_refl. cbn [out_bind].
  destruct (update_spec (rn_entities s) (rn_compact_ids s) assigned 0 0 (rx_changes x) Hd) as (a' & u' & r' & ->).
  { intros y Hy. apply Hdom in Hy as [[? Hy]|(e & He & <- & _)%new_ids_spec]; [by rewrite lookup_empty in Hy|eauto]. }
  fold m final. split; [done|]. split; [done|]. split; cbn; try done.
  - split; cbn; try done.
    + apply set_eq. intros y. rewrite dom_union_L, elem_of_union, !elem_of_dom. unfold final. rewrite (apply_changes_dom _ _ _ Hd), Hdom, Hm, lookup_empty.
      split; [intros [[[? ?]|?]|?]; [done|by left|by right]|intros [?|?]; [left; by right|by right]].
    + apply (sk_max _ Hs).
    + unfold final. assert (∀ l m0, (∀ y e, m0 !! y = Some e → re_entity_id e = y) →
        ∀ y e, foldl apply_change m0 l !! y = Some e → re_entity_id e = y) as Hk.
      { induction l as [|c l IH]; intros m0 H0; [done|]. apply IH. by apply scene_keys_step. }
      apply Hk, (sk_keys _ Hs).
  - intros y c Hy Hl. unfold final in Hl. apply (apply_changes_dom _ _ _ Hd) in Hl as [(e & _ & _ & Hn)%new_ids_spec|[_ Hr]].
    + assert (is_Some (rn_entities s !! y)) as [? ?]; [|congruence]. apply elem_of_dom. rewrite <-(sk_ids _ Hs). apply elem_of_dom. eauto.
    + rewrite lookup_union_r; [unfold m; by rewrite survivors_lookup, Hr|].
      apply eq_None_not_Some. intros [[? Hf]|(e & _ & _ & Hn)%new_ids_spec]%Hdom; [by rewrite lookup_empty in Hf|].
      assert (is_Some (rn_entities s !! y)) as [? ?]; [|congruence]. apply elem_of_dom. rewrite <-(sk_ids _ Hs). apply elem_of_dom. eauto.
Qed.

(** Consuming a packet is atomic and exact: it is refused exactly on a
    skipped generation, another base revision or too many records, and then
    nothing changes; otherwise the copy becomes the packet applied to the old
    copy, compact identities stay unique non-zero 32-bit values, an entity keeps
    its identity while its record lives, and freed identities are reused, so the
    identity space is never exhausted. *)
Theorem render_scene_apply_spec s x : scene_ok s → distinct (rx_changes x) →
  match render_scene_apply s x with
  | Ok (_, s') => rx_generation x = rn_generation s + 1 ∧ rx_base_revision x = rn_revision s ∧ applied_packet s x s'
  | Err GenerationExhausted => u64_max ≤ rn_generation s
  | Err (GenerationMismatch expected supplied) =>
      expected = rn_generation s + 1 ∧ supplied = rx_generation x ∧ expected ≠ supplied
  | Err (SuBaseRevisionMismatch current supplied) => current = rn_revision s ∧ supplied = rx_base_revision x ∧ current ≠ supplied
  | Err (SuEntityCapacityExceeded limit) => limit = rn_max_entities s ∧
      limit < N.of_nat (size (foldl apply_change (rn_entities s) (rx_changes x)))
  | Err CompactIdentityExhausted | Panic | OutOfFuel => False
  end.
Proof. apply render_scene_apply_sim. Qed.

Lemma render_scene_new_ok max_entities : max_entities ≤ u32_max → scene_ok (render_scene_new max_entities).
Proof.
  intros Hm. split; cbn [render_scene_new rn_compact_ids rn_entities rn_free_compact_ids rn_next_compact_id rn_max_entities].
  - by rewrite !dom_empty_L.
  - apply allocation_new.
  - rewrite map_size_empty. apply N.le_0_l.
  - done.
  - intros x e. by rewrite lookup_empty.
Qed.

Definition sample_packet : RenderExtraction :=
  mkExtraction 1 0 1 [Upsert (mkRenderEntity 3 [] 0 (mkRenderComponents None None None None None)); Remove 5].

Lemma render_scene_apply_spec_witness :
  match render_scene_apply (render_scene_new 8) sample_packet with
  | Ok (_, s') => applied_packet (render_scene_new 8) sample_packet s' ∧ rn_compact_ids s' !! 3 = Some 1
  | _ => False
  end.
Proof.
  pose proof (render_scene_apply_spec (render_scene_new 8) sample_packet) as Hs.
  specialize (Hs (render_scene_new_ok 8 ltac:(done))).
  specialize (Hs ltac:(apply (bool_decide_unpack _); vm_compute; exact I)).
  destruct (render_scene_apply (render_scene_new 8) sample_packet) as [[summary s']| | |] eqn:Ha; vm_compute in Ha; [|discriminate Ha..].
  split; [apply Hs|]. apply Ok_inj in Ha. injection Ha as _ <-. reflexivity.
Defined.
