(* ===== verification/Recovery.v ===== *)
(** * Recovery points and their envelope

    [cogniform-engine/src/recovery.rs]: the replay stream of an engine together
    with the next frame identity, and the digest-protected envelope it is
    stored in.  Decoding accepts exactly the envelopes that encoding writes. *)

From S2P Require Import Prelude Machine BTree Floats Values Components Messages MessageSpec Codec Ecs WorldTypes Hierarchy Render World SceneSpec CommitRefine WorldInvariant Extraction Hash Sha256 Replay ReplayCodec ReplayLogs Recorded.

Open Scope N_scope.

Definition RECOVERY_MAGIC : bytes := bytes_of_string "CNFRCP".
Definition RECOVERY_FORMAT_VERSION : N := 1.
Definition RECOVERY_HASH_DOMAIN : bytes := bytes_of_string "cogniform.engine-recovery-point.v1" ++ [x00].
Definition VERSION_OFFSET : nat := length RECOVERY_MAGIC.
Definition FRAME_OFFSET : nat := VERSION_OFFSET + 2.
Definition REPLAY_LENGTH_OFFSET : nat := FRAME_OFFSET + 8.
Definition REPLAY_OFFSET : nat := REPLAY_LENGTH_OFFSET + 4.
Definition DIGEST_BYTES : nat := 32.
Definition ENVELOPE_OVERHEAD_BYTES : nat := REPLAY_OFFSET + DIGEST_BYTES.

Record EngineRecoveryPoint := mkRecoveryPoint {
  rp_replay_bytes : bytes;
  rp_next_frame_id : FrameId;
}.

Inductive RecoveryPointCodecError : Type :=
| InvalidReplayConfig (error : ReplayConfigError)
| RpTruncated (actual minimum : N)
| RpInvalidHeader
| RpUnsupportedVersion (found : N)
| EnvelopeSizeExceeded (actual limit : N)
| ReplaySizeExceeded (actual limit : N)
| LengthMismatch (actual expected : N)
| InvalidFrameId
| IntegrityMismatch.

(** [validate_replay_config]. *)
Definition validate_replay_config (config : ReplayConfig) : outcome RecoveryPointCodecError unit :=
  map_err InvalidReplayConfig (replay_config_validate config).

(** [EngineRecoveryPoint::envelope_byte_limit]. *)
Definition envelope_byte_limit (config : ReplayConfig) : outcome RecoveryPointCodecError N :=
  do! validate_replay_config config then
  Ok (max_log_bytes config + N.of_nat ENVELOPE_OVERHEAD_BYTES).

Section envelope.
Context `{Digest}.

(** [recovery_digest]. *)
Definition recovery_digest (encoded_without_digest : bytes) : bytes :=
  sha256 (RECOVERY_HASH_DOMAIN ++ encoded_without_digest).

(** [EngineRecoveryPoint::to_envelope_bytes]. *)
Definition to_envelope_bytes (point : EngineRecoveryPoint) (config : ReplayConfig)
    : outcome RecoveryPointCodecError bytes :=
  do! validate_replay_config config then
  let replay_byte_count := N.of_nat (length (rp_replay_bytes point)) in
  let replay_limit := max_log_bytes config in
  do! guard_err (replay_limit <? replay_byte_count) (ReplaySizeExceeded replay_byte_count replay_limit) then
  let! replay_length := expect (try_from_len u32_max (length (rp_replay_bytes point))) in
  let encoded :=
    RECOVERY_MAGIC ++ to_be_bytes 2 RECOVERY_FORMAT_VERSION ++ to_be_bytes 8 (rp_next_frame_id point)
    ++ to_be_bytes 4 replay_length ++ rp_replay_bytes point in
  Ok (encoded ++ recovery_digest encoded).

(** [EngineRecoveryPoint::from_envelope_bytes]. *)
Definition from_envelope_bytes (encoded : bytes) (config : ReplayConfig)
    : outcome RecoveryPointCodecError EngineRecoveryPoint :=
  do! validate_replay_config config then
  let replay_limit := max_log_bytes config in
  let envelope_limit := replay_limit + N.of_nat ENVELOPE_OVERHEAD_BYTES in
  let encoded_length := N.of_nat (length encoded) in
  do! guard_err (envelope_limit <? encoded_length) (EnvelopeSizeExceeded encoded_length envelope_limit) then
  do! guard_err (length encoded <? ENVELOPE_OVERHEAD_BYTES)%nat
    (RpTruncated encoded_length (N.of_nat ENVELOPE_OVERHEAD_BYTES)) then
  do! guard_err (negb (bool_decide (slice_get encoded 0 (length RECOVERY_MAGIC) = Some RECOVERY_MAGIC)))
    RpInvalidHeader then
  let! version_bytes := index_slice encoded VERSION_OFFSET 2 in
  let version := from_be_bytes version_bytes in
  do! guard_err (negb (version =? RECOVERY_FORMAT_VERSION)) (RpUnsupportedVersion version) then
  let! frame_bytes := index_slice encoded FRAME_OFFSET 8 in
  let next_frame_value := from_be_bytes frame_bytes in
  let! length_bytes := index_slice encoded REPLAY_LENGTH_OFFSET 4 in
  let replay_length := from_be_bytes length_bytes in
  do! guard_err (replay_limit <? replay_length) (ReplaySizeExceeded replay_length replay_limit) then
  let expected_length := N.of_nat ENVELOPE_OVERHEAD_BYTES + replay_length in
  do! guard_err (negb (encoded_length =? expected_length)) (LengthMismatch encoded_length expected_length) then
  let! next_frame_id := map_err (λ _, InvalidFrameId) (frame_id_new next_frame_value) in
  let digest_offset := (REPLAY_OFFSET + N.to_nat replay_length)%nat in
  let! prefix := index_slice encoded 0 digest_offset in
  let expected_digest := recovery_digest prefix in
  let! digest := index_slice encoded digest_offset (length encoded - digest_offset) in
  do! guard_err (negb (bool_decide (digest = expected_digest))) IntegrityMismatch then
  let! replay_bytes := index_slice encoded REPLAY_OFFSET (N.to_nat replay_length) in
  Ok (mkRecoveryPoint replay_bytes next_frame_id).

(** ** The layout of an envelope *)

Definition envelope_body (point : EngineRecoveryPoint) : bytes :=
  RECOVERY_MAGIC ++ to_be_bytes 2 RECOVERY_FORMAT_VERSION ++ to_be_bytes 8 (rp_next_frame_id point)
  ++ to_be_bytes 4 (N.of_nat (length (rp_replay_bytes point))) ++ rp_replay_bytes point.

Definition envelope (point : EngineRecoveryPoint) : bytes :=
  envelope_body point ++ recovery_digest (envelope_body point).

(** A point whose replay stream fits the configuration. *)
Definition encodable (config : ReplayConfig) (point : EngineRecoveryPoint) : Prop :=
  REPLAY_HEADER_BYTES ≤ max_log_bytes config ∧
  N.of_nat (length (rp_replay_bytes point)) ≤ max_log_bytes config.

Lemma to_envelope_spec config point encoded :
  max_log_bytes config ≤ u32_max →
  to_envelope_bytes point config = Ok encoded ↔ encodable config point ∧ encoded = envelope point.
Proof.
  intros Hmax. unfold to_envelope_bytes, validate_replay_config, replay_config_validate, encodable.
  destruct (N.ltb_spec (max_log_bytes config) REPLAY_HEADER_BYTES) as [Hh|Hh]; cbn [guard_err map_err out_bind].
  { split; [done|]. intros [[? _] _]. lia. }
  destruct (N.ltb_spec (max_log_bytes config) (N.of_nat (length (rp_replay_bytes point)))) as [Hl|Hl];
    cbn [guard_err out_bind].
  { split; [done|]. intros [[_ ?] _]. lia. }
  assert (N.of_nat (length (rp_replay_bytes point)) ≤ u32_max) as Hu by lia.
  rewrite (proj2 (try_from_len_Some u32_max _ _) (conj eq_refl Hu)). cbn [expect out_bind].
  split; [intros [= <-]; done|by intros [_ ->]].
Qed.

Lemma envelope_length point :
  length (envelope point) = (ENVELOPE_OVERHEAD_BYTES + length (rp_replay_bytes point))%nat.
Proof.
  unfold envelope, envelope_body, recovery_digest, ENVELOPE_OVERHEAD_BYTES, REPLAY_OFFSET, REPLAY_LENGTH_OFFSET,
    FRAME_OFFSET, VERSION_OFFSET, DIGEST_BYTES.
  rewrite !length_app, !length_to_be_bytes, sha256_length. lia.
Qed.

(** Decoding an envelope gives its point back. *)
Lemma from_envelope_envelope config point :
  max_log_bytes config ≤ u32_max → encodable config point → typed_frame (rp_next_frame_id point) →
  from_envelope_bytes (envelope point) config = Ok point.
Proof.
  intros Hmax [Hh Hl] [Hf Hf']. unfold from_envelope_bytes, validate_replay_config, replay_config_validate.
  rewrite (proj2 (N.ltb_ge _ _) Hh). cbn [guard_err map_err out_bind]. rewrite envelope_length, Nat2N.inj_add.
  rewrite (proj2 (N.ltb_ge _ _)) by lia. cbn [guard_err out_bind].
  rewrite (proj2 (Nat.ltb_ge _ _)) by lia. cbn [guard_err out_bind].
  pose (body := envelope_body point). pose (digest := recovery_digest body).
  pose (v := to_be_bytes 2 RECOVERY_FORMAT_VERSION). pose (f := to_be_bytes 8 (rp_next_frame_id point)).
  pose (n := to_be_bytes 4 (N.of_nat (length (rp_replay_bytes point)))).
  assert (envelope point = RECOVERY_MAGIC ++ v ++ f ++ n ++ rp_replay_bytes point ++ digest) as Hb.
  { unfold envelope, envelope_body. by rewrite <-!app_assoc. }
  assert (length v = 2%nat ∧ length f = 8%nat ∧ length n = 4%nat ∧ length digest = 32%nat) as (L1 & L2 & L3 & L4).
  { split_and!; [apply length_to_be_bytes..|apply sha256_length]. }
  assert (∀ pre : bytes, pre = RECOVERY_MAGIC ++ v ++ f ++ n → length pre = REPLAY_OFFSET) as Lh.
  { intros pre ->. rewrite !length_app, L1, L2, L3. done. }
  assert (length body = (REPLAY_OFFSET + length (rp_replay_bytes point))%nat) as Lb.
  { subst body. unfold envelope_body. rewrite !length_app, !length_to_be_bytes. done. }
  rewrite (slice_get_at _ [] RECOVERY_MAGIC (v ++ f ++ n ++ rp_replay_bytes point ++ digest)) by done.
  rewrite bool_decide_true by done. cbn [negb guard_err out_bind].
  rewrite (index_slice_at _ RECOVERY_MAGIC v (f ++ n ++ rp_replay_bytes point ++ digest)) by done.
  cbn [out_bind]. unfold v at 1. rewrite from_to_be_bytes, N.eqb_refl by done. cbn [negb guard_err out_bind].
  rewrite (index_slice_at _ (RECOVERY_MAGIC ++ v) f (n ++ rp_replay_bytes point ++ digest)) by
    (rewrite ?length_app, ?L1, <-?app_assoc; done). cbn [out_bind].
  rewrite (index_slice_at _ (RECOVERY_MAGIC ++ v ++ f) n (rp_replay_bytes point ++ digest)) by
    (rewrite ?length_app, ?L1, ?L2, <-?app_assoc; done). cbn [out_bind].
  assert (from_be_bytes n = N.of_nat (length (rp_replay_bytes point))) as Hn.
  { apply from_to_be_bytes. change (256 ^ N.of_nat 4) with 4294967296. unfold u32_max in Hmax. lia. }
  rewrite !Hn.
  unfold f at 1. rewrite (from_to_be_bytes 8) by by apply u64_fits.
  rewrite (proj2 (N.ltb_ge _ _)) by lia. cbn [guard_err out_bind]. rewrite N.eqb_refl. cbn [negb guard_err out_bind].
  unfold frame_id_new, non_zero. rewrite (proj2 (N.eqb_neq _ _)) by lia. cbn [map_err out_bind].
  rewrite Nat2N.id.
  rewrite (index_slice_at _ [] body digest) by (rewrite ?Lb; done). cbn [out_bind].
  rewrite (index_slice_at _ body digest []); [|by rewrite app_nil_r|by rewrite Lb|
    rewrite L4; unfold ENVELOPE_OVERHEAD_BYTES, DIGEST_BYTES; lia]. cbn [out_bind].
  rewrite bool_decide_true by done. cbn [negb guard_err out_bind].
  rewrite (index_slice_at _ (RECOVERY_MAGIC ++ v ++ f ++ n) (rp_replay_bytes point) digest) by
    (rewrite ?(Lh _ eq_refl), <-?app_assoc; done). by destruct point.
Qed.

(** The fixed header in front of the replay bytes. *)
Lemma envelope_header_inv encoded v f n replay rest :
  slice_get encoded 0 (length RECOVERY_MAGIC) = Some RECOVERY_MAGIC →
  index_slice (F:=RecoveryPointCodecError) encoded VERSION_OFFSET 2 = Ok v →
  index_slice (F:=RecoveryPointCodecError) encoded FRAME_OFFSET 8 = Ok f →
  index_slice (F:=RecoveryPointCodecError) encoded REPLAY_LENGTH_OFFSET 4 = Ok n →
  index_slice (F:=RecoveryPointCodecError) encoded REPLAY_OFFSET (length replay) = Ok replay →
  drop (REPLAY_OFFSET + length replay) encoded = rest →
  encoded = (RECOVERY_MAGIC ++ v ++ f ++ n ++ replay) ++ rest ∧ length v = 2%nat ∧ length f = 8%nat ∧ length n = 4%nat.
Proof.
  intros [Hm _]%slice_get_split [Hv Lv]%index_slice_split [Hf Lf]%index_slice_split [Hn Ln]%index_slice_split
    [Hr _]%index_slice_split <-.
  split; [|done]. rewrite <-!app_assoc, <-Hr.
  change REPLAY_OFFSET with (REPLAY_LENGTH_OFFSET + 4)%nat. rewrite <-Hn.
  change REPLAY_LENGTH_OFFSET with (FRAME_OFFSET + 8)%nat. rewrite <-Hf.
  change FRAME_OFFSET with (VERSION_OFFSET + 2)%nat. rewrite <-Hv.
  change VERSION_OFFSET with (0 + length RECOVERY_MAGIC)%nat. by rewrite <-Hm, drop_0.
Qed.

(** Whatever decoding accepts is an envelope. *)
Lemma from_envelope_inv config encoded point :
  from_envelope_bytes encoded config = Ok point →
  encoded = envelope point ∧ encodable config point ∧ typed_frame (rp_next_frame_id point).
Proof.
  intros Hd. unfold from_envelope_bytes, validate_replay_config, replay_config_validate in Hd. inv_ok. subst point.
  cbn [rp_next_frame_id].
  match goal with H : negb (bool_decide (slice_get _ _ _ = _)) = false |- _ =>
    apply negb_false_iff, bool_decide_eq_true in H; rename H into Hmagic end.
  match goal with H : index_slice _ VERSION_OFFSET _ = Ok ?x |- _ => rename H into Hversion, x into v end.
  match goal with H : index_slice _ FRAME_OFFSET _ = Ok ?x |- _ => rename H into Hframe, x into f end.
  match goal with H : index_slice _ REPLAY_LENGTH_OFFSET _ = Ok ?x |- _ => rename H into Hlen, x into n end.
  match goal with H : index_slice _ REPLAY_OFFSET _ = Ok ?x |- _ => rename H into Hreplay, x into replay end.
  match goal with H : index_slice _ 0 _ = Ok ?x |- _ => rename H into Hprefix, x into prefix end.
  match goal with H : index_slice _ _ (_ - _) = Ok ?x |- _ => rename H into Hdigest, x into digest end.
  match goal with H : negb (_ =? RECOVERY_FORMAT_VERSION) = false |- _ =>
    apply negb_false_iff, N.eqb_eq in H; rename H into Hv1 end.
  match goal with H : negb (bool_decide (digest = _)) = false |- _ =>
    apply negb_false_iff, bool_decide_eq_true in H; rename H into Hd end.
  match goal with H : (max_log_bytes config <? REPLAY_HEADER_BYTES) = false |- _ => apply N.ltb_ge in H end.
  match goal with H : (max_log_bytes config <? from_be_bytes n) = false |- _ => apply N.ltb_ge in H end.
  match goal with H : frame_id_new (from_be_bytes f) = Ok ?x |- _ => rename H into Hfid, x into fid end.
  destruct (index_slice_split _ _ _ _ Hreplay) as [_ Lr]. destruct (index_slice_split _ _ _ _ Hdigest) as [Hrest _].
  destruct (index_slice_split _ _ _ _ Hprefix) as [Hpre Lp]. rewrite <-Lr in *.
  destruct (envelope_header_inv encoded v f n replay digest) as (He & Lv & Lf & Ln); try done.
  { rewrite Hrest. rewrite drop_ge, app_nil_r by lia. done. }
  unfold frame_id_new, non_zero in Hfid. destruct (N.eqb_spec (from_be_bytes f) 0) as [|Hf0]; [done|].
  injection Hfid as <-. split_and!.
  - assert (prefix = envelope_body (mkRecoveryPoint replay (from_be_bytes f))) as ->.
    { rewrite drop_0, Nat.add_0_l, Hrest, drop_ge, app_nil_r in Hpre by lia. rewrite He in Hpre at 1. apply app_inj_2 in Hpre as [<- _]; [|done].
      unfold envelope_body. cbn [rp_replay_bytes rp_next_frame_id].
      rewrite <-Hv1, Lr, N2Nat.id, !be_bytes_back by done. done. }
    rewrite He at 1. unfold envelope. rewrite <-Hd. f_equal. unfold envelope_body. cbn [rp_replay_bytes rp_next_frame_id].
    rewrite <-Hv1, Lr, N2Nat.id, !be_bytes_back by done. done.
  - split; [done|]. cbn [rp_replay_bytes]. lia.
  - split; [lia|]. apply u64_bound. rewrite <-Lf. apply from_be_bytes_lt.
Qed.

Lemma to_envelope_normal config point : max_log_bytes config ≤ u32_max → normal (to_envelope_bytes point config).
Proof.
  intros Hmax. unfold to_envelope_bytes, validate_replay_config, replay_config_validate.
  apply out_bind_normal; [by apply map_err_normal, guard_err_normal|]. intros _ _.
  apply out_bind_normal; [apply guard_err_normal|]. intros [] Hl%guard_err_ok%N.ltb_ge.
  assert (N.of_nat (length (rp_replay_bytes point)) ≤ u32_max) as Hu by lia.
  by rewrite (proj2 (try_from_len_Some u32_max _ _) (conj eq_refl Hu)).
Qed.

Lemma from_envelope_normal config encoded : normal (from_envelope_bytes encoded config).
Proof.
  unfold from_envelope_bytes, validate_replay_config, replay_config_validate.
  apply out_bind_normal; [by apply map_err_normal, guard_err_normal|]. intros _ _.
  apply out_bind_normal; [apply guard_err_normal|]. intros _ _.
  apply out_bind_normal; [apply guard_err_normal|]. intros [] Hmin%guard_err_ok%Nat.ltb_ge.
  apply out_bind_normal; [apply guard_err_normal|]. intros _ _.
  change ENVELOPE_OVERHEAD_BYTES with 52%nat in *. change VERSION_OFFSET with 6%nat. change FRAME_OFFSET with 8%nat.
  change REPLAY_LENGTH_OFFSET with 16%nat. change REPLAY_OFFSET with 20%nat.
  apply out_bind_normal; [apply index_slice_normal; lia|]. intros v _.
  apply out_bind_normal; [apply guard_err_normal|]. intros _ _.
  apply out_bind_normal; [apply index_slice_normal; lia|]. intros f _.
  apply out_bind_normal; [apply index_slice_normal; lia|]. intros n _.
  apply out_bind_normal; [apply guard_err_normal|]. intros _ _.
  apply out_bind_normal; [apply guard_err_normal|]. intros [] Hlen%guard_err_ok%negb_false_iff%N.eqb_eq.
  apply out_bind_normal; [apply map_err_normal; unfold frame_id_new; by destruct (non_zero _)|]. intros fid _.
  apply out_bind_normal; [apply index_slice_normal; lia|]. intros prefix _.
  apply out_bind_normal; [apply index_slice_normal; lia|]. intros digest _.
  apply out_bind_normal; [apply guard_err_normal|]. intros _ _.
  apply out_bind_normal; [apply index_slice_normal; lia|]. done.
Qed.

(** The recovery envelope: decoding accepts exactly the bytes that encoding
    writes for a point with a non-zero frame identity, and gives that point
    back; neither direction ever panics, whatever the bytes. *)
Theorem envelope_codec_exact config encoded :
  max_log_bytes config ≤ u32_max →
  (∀ point, from_envelope_bytes encoded config = Ok point ↔
     typed_frame (rp_next_frame_id point) ∧ to_envelope_bytes point config = Ok encoded) ∧
  normal (from_envelope_bytes encoded config) ∧ ∀ point, normal (to_envelope_bytes point config).
Proof.
  intros Hmax. split_and!.
  - intros point. rewrite to_envelope_spec by done. split.
    + by intros (-> & ? & ?)%from_envelope_inv.
    + intros (Hf & He & ->). by apply from_envelope_envelope.
  - by apply from_envelope_normal.
  - intros point. by apply to_envelope_normal.
Qed.

End envelope.

(** ** The fixture of the source's tests *)

#[local] Existing Instance sha256_instance.

Definition fixture_point : EngineRecoveryPoint :=
  mkRecoveryPoint (bytes_of_string "CNFRPL1" ++ [x0a] ++ bytes_of_string "replay-fixture") 17.

Definition fixture_digest : bytes :=
  [xa8; x48; x6e; x8c; x9f; xf3; x27; x8e; x5c; xe0; x6e; x86; xc2; x5f; x5a; x46;
   xd9; x08; x69; xab; x77; x96; x87; xf3; xa8; x75; xc3; xd1; x4e; xfe; x50; xb2].

(** The digest the source's test expects. *)
Example fixture_envelope :
  to_envelope_bytes fixture_point replay_config_default = Ok (envelope_body fixture_point ++ fixture_digest).
Proof. vm_compute. reflexivity. Qed.

Lemma envelope_codec_exact_witness :
  from_envelope_bytes (envelope_body fixture_point ++ fixture_digest) replay_config_default = Ok fixture_point.
Proof.
  destruct (envelope_codec_exact replay_config_default (envelope_body fixture_point ++ fixture_digest)) as [Hx _].
  { vm_compute. discriminate. }
  apply (proj2 (Hx fixture_point)). split; [split; vm_compute; [reflexivity|discriminate]|exact fixture_envelope].
Defined.
