(* ===== verification/Engine.v ===== *)
(** * The engine

    [cogniform-engine/src/engine.rs] composes a recorded world with a renderer.
    Of [HeadlessRenderer] the model keeps what the engine relies on: its
    configuration, readback layout, copy of the scene ([RenderScene]) and next
    frame identity; the backend (adapter, device, pipelines, worker threads) is a
    record of possible failures, [Backend].  Observations are not part of the state. *)

From S2P Require Import Prelude Machine BTree Floats Values Components Messages MessageSpec Codec Ecs WorldTypes Hierarchy Render World SceneSpec CommitRefine PreflightRefine WorldInvariant WorldApply Extraction Hash Replay ReplayCodec ReplayLogs Recorded AssetTypes RenderScene Recovery.

Open Scope N_scope.

(** ** Renderer configuration ([cogniform-renderer/src/config.rs]) *)

Definition MAX_TARGET_DIMENSION : N := 4096.
Definition MAX_TARGET_PIXELS : N := 4194304.
Definition MAX_READBACK_CAPACITY : N := 16.

(** Durations are in nanoseconds. *)
Definition from_secs (seconds : N) : N := seconds * 1000000000.
Definition MAX_READBACK_TIMEOUT : N := from_secs 60.

Inductive AdapterPreference : Type := HighPerformance | LowPower | Fallback.

Record RendererConfig := mkRendererConfig {
  rcf_width : N;
  rcf_height : N;
  rcf_adapter_preference : AdapterPreference;
  rcf_readback_timeout : N;
  rcf_readback_capacity : N;
  rcf_max_scene_entities : N;
  rcf_max_draws_per_frame : N;
  rcf_asset_upload_capacity : N;
  rcf_max_pending_asset_upload_bytes : N;
  rcf_max_asset_vertices : N;
  rcf_max_asset_mesh_bytes : N;
  rcf_max_resident_asset_meshes : N;
  rcf_max_resident_asset_bytes : N;
  rcf_max_asset_texture_dimension_2d : N;
  rcf_max_asset_texture_bytes : N;
  rcf_max_pending_asset_texture_bytes : N;
  rcf_max_resident_asset_textures : N;
  rcf_max_resident_asset_texture_bytes : N;
}.

(** [RendererConfig::new]. *)
Definition renderer_config_new (width height : N) : RendererConfig := {|
  rcf_width := width;
  rcf_height := height;
  rcf_adapter_preference := HighPerformance;
  rcf_readback_timeout := from_secs 10;
  rcf_readback_capacity := 2;
  rcf_max_scene_entities := 65536;
  rcf_max_draws_per_frame := 4096;
  rcf_asset_upload_capacity := 64;
  rcf_max_pending_asset_upload_bytes := 32 * 1024 * 1024;
  rcf_max_asset_vertices := 262144;
  rcf_max_asset_mesh_bytes := 16 * 1024 * 1024;
  rcf_max_resident_asset_meshes := 256;
  rcf_max_resident_asset_bytes := 64 * 1024 * 1024;
  rcf_max_asset_texture_dimension_2d := 2048;
  rcf_max_asset_texture_bytes := 16 * 1024 * 1024;
  rcf_max_pending_asset_texture_bytes := 32 * 1024 * 1024;
  rcf_max_resident_asset_textures := 256;
  rcf_max_resident_asset_texture_bytes := 64 * 1024 * 1024;
|}.

(** The errors the modelled parts raise; [BackendFailure] stands for the
    failures of adapter, device, pipeline and readback. *)
Inductive RendererError : Type :=
| InvalidTarget (width height : N) (reason : string)
| InvalidReadbackTimeout
| InvalidReadbackCapacity
| InvalidAssetConfig (reason : string)
| FrameIdOverflow
| CameraUnavailable (camera_id : StableEntityId)
| CameraTransformNotInvertible (camera_id : StableEntityId)
| GpuTransformOutOfRange (entity_id : StableEntityId)
| DirectionalLightDirectionInvalid (entity_id : StableEntityId)
| DirectionalLightCapacityExceeded (actual limit : N)
| PointLightCapacityExceeded (actual limit : N)
| DrawCapacityExceeded (limit : N)
| InvalidAssetMesh (key : AssetMeshKey) (reason : string)
| AssetVertexLimitExceeded (key : AssetMeshKey) (actual limit : N)
| AssetMeshBytesExceeded (key : AssetMeshKey) (actual limit : N)
| AssetTextureLimitExceeded (key : AssetMeshKey) (reason : string)
| AssetUploadCapacityExceeded (capacity : N)
| AssetUploadBytesExceeded (actual limit : N)
| AssetResidencyCapacityExceeded (capacity : N)
| AssetResidencyBytesExceeded (actual limit : N)
| AssetTextureUploadBytesExceeded (actual limit : N)
| AssetTextureResidencyCapacityExceeded (capacity : N)
| AssetTextureResidencyBytesExceeded (actual limit : N)
| AssetUnavailable (entity_id : StableEntityId) (key : AssetMeshComponent)
| ReadbackFailed (stage reason : string)
| InvalidDepthOutput (pixel_index : nat)
| InvalidNormalOutput (pixel_index : nat) (reason : string)
| UnknownRenderEntityId (render_entity_id : N)
| BackendFailure (reason : string).

(** [u64::checked_mul] and [u32::checked_mul]. *)
Definition checked_mul (max a b : N) : option N := if a * b <=? max then Some (a * b) else None.

(** [validate_config] of [renderer.rs]. *)
Definition renderer_validate_config (c : RendererConfig) : outcome RendererError unit :=
  let invalid reason := InvalidTarget (rcf_width c) (rcf_height c) reason in
  do! guard_err ((rcf_width c =? 0) || (rcf_height c =? 0)) (invalid "dimensions must be non-zero"%string) then
  do! guard_err ((MAX_TARGET_DIMENSION <? rcf_width c) || (MAX_TARGET_DIMENSION <? rcf_height c))
    (invalid "a dimension exceeds MAX_TARGET_DIMENSION"%string) then
  let! pixel_count := ok_or (checked_mul u64_max (rcf_width c) (rcf_height c))
    (invalid "pixel count overflowed"%string) in
  do! guard_err (MAX_TARGET_PIXELS <? pixel_count) (invalid "pixel count exceeds MAX_TARGET_PIXELS"%string) then
  do! guard_err ((rcf_readback_timeout c =? 0) || (MAX_READBACK_TIMEOUT <? rcf_readback_timeout c))
    InvalidReadbackTimeout then
  do! guard_err (MAX_READBACK_CAPACITY <? rcf_readback_capacity c) InvalidReadbackCapacity then
  do! guard_err (rcf_max_pending_asset_upload_bytes c <? rcf_max_asset_mesh_bytes c)
    (InvalidAssetConfig "pending upload bytes must admit at least one maximum-size asset mesh"%string) then
  do! guard_err (rcf_max_resident_asset_bytes c <? rcf_max_asset_mesh_bytes c)
    (InvalidAssetConfig "resident asset bytes must admit at least one maximum-size asset mesh"%string) then
  do! guard_err (rcf_max_pending_asset_texture_bytes c <? rcf_max_asset_texture_bytes c)
    (InvalidAssetConfig "pending texture bytes must admit at least one maximum-size texture"%string) then
  guard_err (rcf_max_resident_asset_texture_bytes c <? rcf_max_asset_texture_bytes c)
    (InvalidAssetConfig "resident texture bytes must admit at least one maximum-size texture"%string).

Definition BYTES_PER_PIXEL : N := 4.

Record ReadbackLayout := mkReadbackLayout {
  rl_width : N;
  rl_height : N;
  rl_unpadded_bytes_per_row : N;
  rl_padded_bytes_per_row : N;
  rl_buffer_size : N;
}.

(** [align_up]. *)
Definition align_up (value alignment : N) : option N :=
  let remainder := value mod alignment in
  if remainder =? 0 then Some value else checked_add u32_max value (alignment - remainder).

(** [ReadbackLayout::new]; the copy alignment is a constant of the backend. *)
Definition readback_layout_new (alignment width height : N) : outcome RendererError ReadbackLayout :=
  let! unpadded := ok_or (checked_mul u32_max width BYTES_PER_PIXEL)
    (InvalidTarget width height "row byte count overflowed"%string) in
  let! padded := ok_or (align_up unpadded alignment)
    (InvalidTarget width height "padded row byte count overflowed"%string) in
  let! buffer_size := ok_or (checked_mul u64_max padded height)
    (InvalidTarget width height "readback buffer size overflowed"%string) in
  Ok (mkReadbackLayout width height unpadded padded buffer_size).

(** ** The renderer ([cogniform-renderer/src/renderer.rs]) *)

Record HeadlessRenderer := mkRenderer {
  hr_config : RendererConfig;
  hr_readback_layout : ReadbackLayout;
  hr_scene : RenderScene;
  hr_next_frame_id : N;
}.

Inductive ObservationError : Type :=
| InvalidRequest (error : ValidationError)
| RequestRevisionMismatch (requested current : SceneRevision)
| CapacityExceeded (capacity : N)
| WorkerUnavailable
| WorkerStartFailed (reason : string)
| ObsRenderer (error : RendererError)
| SourceRevisionAhead (source latest : SceneRevision)
| SourceRevisionMismatch (requested rendered : SceneRevision)
| CameraMismatch (requested rendered : StableEntityId)
| InvalidMetadata (error : ValidationError).

(** What the code outside the model supplies: the copy alignment, and the
    failure, if any, of backend initialisation, of the observation worker's start
    and of the acquisition of a readback set. *)
Record Backend := mkBackend {
  be_alignment : N;
  be_init : RendererConfig → ReadbackLayout → option RendererError;
  be_worker : option ObservationError;
  be_readback : option RendererError;
}.

Definition backend_call {F} (failure : option F) : outcome F unit :=
  match failure with Some error => Err error | None => Ok tt end.

(** [HeadlessRenderer::new_with_next_frame_id]. *)
Definition renderer_new_with_next_frame_id (be : Backend) (c : RendererConfig) (next_frame_id : FrameId)
    : outcome RendererError HeadlessRenderer :=
  do! renderer_validate_config c then
  let! layout := readback_layout_new (be_alignment be) (rcf_width c) (rcf_height c) in
  do! backend_call (be_init be c layout) then
  Ok (mkRenderer c layout (render_scene_new (rcf_max_scene_entities c)) next_frame_id).

(** [HeadlessRenderer::new]. *)
Definition renderer_new (be : Backend) (c : RendererConfig) : outcome RendererError HeadlessRenderer :=
  renderer_new_with_next_frame_id be c 1.

(** [HeadlessRenderer::next_frame_id]. *)
Definition next_frame_id (r : HeadlessRenderer) : outcome RendererError FrameId :=
  map_err (λ _, FrameIdOverflow) (frame_id_new (hr_next_frame_id r)).

(** [HeadlessRenderer::apply_extraction]. *)
Definition apply_extraction (r : HeadlessRenderer) (x : RenderExtraction)
    : outcome SceneUpdateError (SceneUpdateSummary * HeadlessRenderer) :=
  let! (summary, scene) := render_scene_apply (hr_scene r) x in
  Ok (summary, mkRenderer (hr_config r) (hr_readback_layout r) scene (hr_next_frame_id r)).

(** [HeadlessRenderer::submit_prepared]: the frame identity a submission takes. *)
Definition submit_prepared (be : Backend) (r : HeadlessRenderer) : outcome RendererError (FrameId * HeadlessRenderer) :=
  do! backend_call (be_readback be) then
  let! frame_id := next_frame_id r in
  let next := default 0 (checked_add u64_max (hr_next_frame_id r) 1) in
  Ok (frame_id, mkRenderer (hr_config r) (hr_readback_layout r) (hr_scene r) next).

(** ** Engine configuration and errors *)

Record EngineConfig := mkEngineConfig {
  ec_world : WorldConfig;
  ec_renderer : RendererConfig;
  ec_replay : ReplayConfig;
  ec_observation_capacity : N;
}.

(** [EngineConfig::new]. *)
Definition engine_config_new (width height : N) : EngineConfig :=
  mkEngineConfig world_config_default (renderer_config_new width height) replay_config_default 2.

Inductive EngineError : Type :=
| EngInvalidConfig (reason : string)
| RecoveryFrameBehindReplay (next_frame_id recorded_frame_id : FrameId)
| EngReplayConfig (error : ReplayConfigError)
| EngReplayRevision (error : ReplayRevisionError)
| EngReplayRecord (error : RecordedApplyError)
| EngReplay (error : ReplayError)
| EngWorldApply (error : WorldApplyError)
| EngWorldExtraction (error : WorldExtractionError)
| EngSceneUpdate (error : SceneUpdateError)
| EngRenderer (error : RendererError)
| EngObservation (error : ObservationError)
| EngWorldInvariant (error : WorldInvariantError).

(** [validate_config]. *)
Definition engine_validate_config (c : EngineConfig) : outcome EngineError unit :=
  let limits := runtime_limits (ec_world c) in
  do! map_err EngReplayConfig (replay_config_validate (ec_replay c)) then
  do! guard_err (rcf_max_scene_entities (ec_renderer c) <? max_entities (ec_world c))
    (EngInvalidConfig "renderer entity capacity must cover the maximum live world entity count"%string) then
  do! guard_err (rcf_readback_capacity (ec_renderer c) <? ec_observation_capacity c)
    (EngInvalidConfig "observation capacity cannot exceed the fixed readback pool capacity"%string) then
  do! guard_err (max_queue_capacity limits <? ec_observation_capacity c)
    (EngInvalidConfig "observation capacity exceeds the active protocol queue limit"%string) then
  guard_err ((max_observation_width limits <? rcf_width (ec_renderer c))
             || (max_observation_height limits <? rcf_height (ec_renderer c))
             || (max_observation_pixels limits <? rcf_width (ec_renderer c) * rcf_height (ec_renderer c)))
    (EngInvalidConfig "renderer target exceeds the active protocol observation limits"%string).

(** [ObservationQueue::new]: the bound, then the worker. *)
Definition observation_queue_new (be : Backend) (capacity : N) (limits : RuntimeLimits) : outcome ObservationError unit :=
  do! guard_err (max_queue_capacity limits <? capacity) (CapacityExceeded (max_queue_capacity limits)) then
  backend_call (be_worker be).

(** [validate_recovery_frame]. *)
Definition validate_recovery_frame (log : ReplayLog) (next_frame_id : FrameId) : outcome EngineError unit :=
  match en_estimated_visible_frame <$> log_entries log with
  | [] => Ok tt
  | frame :: frames =>
      let recorded_frame_id := foldl N.max frame frames in
      guard_err (next_frame_id <? recorded_frame_id) (RecoveryFrameBehindReplay next_frame_id recorded_frame_id)
  end.

Record RecoveryInspection := mkInspection {
  ri_replay_entries : N;
  ri_replay_bytes : N;
  ri_scene_revision : SceneRevision;
  ri_next_frame_id : FrameId;
  ri_logical_hash : bytes;
  ri_final_entry_hash : bytes;
}.

(** A call that cannot fail. *)
Definition infallible {F A} (m : outcome Empty_set A) : outcome F A := map_err (λ e : Empty_set, match e with end) m.

(** ** The engine *)

Section engine.
Context `{Digest} `{JsonCodec ScenePatch}.
Context {W E : Type} `{EqDecision E} `{!EntityStore W E}.

Record CogniformEngine := mkEngine {
  eng_world : RecordedWorld W E;
  eng_renderer : HeadlessRenderer;
}.

(** [CogniformEngine::new]. *)
Definition engine_new (be : Backend) (c : EngineConfig) : outcome EngineError CogniformEngine :=
  do! engine_validate_config c then
  let limits := runtime_limits (ec_world c) in
  let! world := map_err EngReplayConfig (recorded_new (ec_world c) (ec_replay c)) in
  let! renderer := map_err EngRenderer (renderer_new be (ec_renderer c)) in
  do! map_err EngObservation (observation_queue_new be (ec_observation_capacity c) limits) then
  Ok (mkEngine world renderer).

(** [CogniformEngine::prepare_restore]. *)
Definition prepare_restore (c : EngineConfig) (recovery : EngineRecoveryPoint) (clocks : nat → N * N)
    : outcome EngineError (RecordedWorld W E) :=
  do! engine_validate_config c then
  let limits := runtime_limits (ec_world c) in
  let! loaded := infallible (load_prefix (rp_replay_bytes recovery) (ec_replay c) limits) in
  do! match load_tail loaded with Some error => Err (EngReplay (ReplayTail error)) | None => Ok tt end then
  do! validate_recovery_frame (load_log loaded) (rp_next_frame_id recovery) then
  map_err EngReplay (recorded_restore (ec_world c) (load_log loaded) clocks).

(** [CogniformEngine::restore_prepared]. *)
Definition restore_prepared (be : Backend) (c : EngineConfig) (next_frame_id : FrameId) (world : RecordedWorld W E)
    : outcome EngineError CogniformEngine :=
  let limits := runtime_limits (ec_world c) in
  let! renderer := map_err EngRenderer (renderer_new_with_next_frame_id be (ec_renderer c) next_frame_id) in
  let! (world, renderer) :=
    if negb (revision (rw_world world) =? revision_initial) then
      let! (extraction, world) := map_err EngWorldExtraction (recorded_take_render_extraction world) in
      let! (summary, renderer) := map_err EngSceneUpdate (apply_extraction renderer extraction) in
      do! debug_assert (su_scene_revision summary =? revision (rw_world world)) then
      Ok (world, renderer)
    else Ok (world, renderer) in
  do! map_err EngObservation (observation_queue_new be (ec_observation_capacity c) limits) then
  Ok (mkEngine world renderer).

(** [CogniformEngine::restore]. *)
Definition engine_restore (be : Backend) (c : EngineConfig) (recovery : EngineRecoveryPoint) (clocks : nat → N * N)
    : outcome EngineError CogniformEngine :=
  let! world := prepare_restore c recovery clocks in
  restore_prepared be c (rp_next_frame_id recovery) world.

(** [inspect_recovery_point]. *)
Definition inspect_recovery_point (c : EngineConfig) (recovery : EngineRecoveryPoint) (clocks : nat → N * N)
    : outcome EngineError RecoveryInspection :=
  let! world := prepare_restore c recovery clocks in
  let! verification := map_err (λ e, EngReplay (ReplayIntegrity e)) (verify (rw_log world)) in
  let! hash := map_err EngWorldInvariant (logical_hash (rw_world world)) in
  do! debug_assert (rv_final_revision verification =? revision (rw_world world)) then
  do! debug_assert (match rv_final_scene_hash verification with
                    | None => true
                    | Some h => bool_decide (h = hash)
                    end) then
  Ok (mkInspection (rv_entry_count verification) (N.of_nat (length (rp_replay_bytes recovery)))
        (revision (rw_world world)) (rp_next_frame_id recovery) hash (rv_final_entry_hash verification)).

(** The two parts of an engine. *)
Definition put_recorded (world : RecordedWorld W E) (e : CogniformEngine) : CogniformEngine := mkEngine world (eng_renderer e).
Definition put_renderer (renderer : HeadlessRenderer) (e : CogniformEngine) : CogniformEngine := mkEngine (eng_world e) renderer.

(** [CogniformEngine::apply_patch]: the engine it leaves and its result; the
    clock readings are those of the world. *)
Definition engine_apply_patch (e : CogniformEngine) (patch : ScenePatch) (clock : N * N)
    : CogniformEngine * outcome EngineError ApplyReceipt :=
  (mut! estimated_visible_frame := mut_read (λ e, map_err EngRenderer (next_frame_id (eng_renderer e))) in
   mut! receipt := mut_in eng_world put_recorded
     (mut_err (λ error, match error with RecordedWorldError error => EngWorldApply error | _ => EngReplayRecord error end)
        (λ rw, recorded_apply_patch rw patch estimated_visible_frame clock)) in
   if bool_decide (receipt_status receipt = IdempotentReplay) then mut_ret receipt
   else
     mut! extraction := mut_in eng_world put_recorded
       (mut_last (λ rw, map_err EngWorldExtraction (recorded_take_render_extraction rw))) in
     mut! summary := mut_in eng_renderer put_renderer (mut_last (λ r, map_err EngSceneUpdate (apply_extraction r extraction))) in
     mut! _ := mut_read (λ e, debug_assert (su_scene_revision summary =? revision (rw_world (eng_world e)))) in
     mut! _ := mut_read (λ e, debug_assert (rn_revision (hr_scene (eng_renderer e)) =? revision (rw_world (eng_world e)))) in
     mut_ret receipt) e.

(** The renderer part of [CogniformEngine::request_observation]. *)
Definition engine_submit_frame (be : Backend) (e : CogniformEngine) : outcome EngineError (FrameId * CogniformEngine) :=
  let! (frame_id, renderer) := map_err EngRenderer (submit_prepared be (eng_renderer e)) in
  Ok (frame_id, mkEngine (eng_world e) renderer).

(** [CogniformEngine::recovery_point]. *)
Definition recovery_point (e : CogniformEngine) : outcome EngineError EngineRecoveryPoint :=
  let! replay_bytes := infallible (to_bytes (rw_log (eng_world e))) in
  let! frame_id := map_err EngRenderer (next_frame_id (eng_renderer e)) in
  Ok (mkRecoveryPoint replay_bytes frame_id).

(** [CogniformEngine::recovery_point_at_revision]. *)
Definition recovery_point_at_revision (e : CogniformEngine) (revision : SceneRevision)
    : outcome EngineError EngineRecoveryPoint :=
  let! replay_bytes := map_err EngReplayRevision (to_bytes_through_revision (rw_log (eng_world e)) revision) in
  let! frame_id := map_err EngRenderer (next_frame_id (eng_renderer e)) in
  Ok (mkRecoveryPoint replay_bytes frame_id).

(** [CogniformEngine::replayed_logical_hash]. *)
Definition replayed_logical_hash (e : CogniformEngine) (clocks : nat → N * N) : outcome EngineError bytes :=
  let! world := map_err EngReplay (recorded_replay (eng_world e) clocks) in
  map_err EngWorldInvariant (logical_hash world).

(** [CogniformEngine::idempotency_record_count]. *)
Definition idempotency_record_count (e : CogniformEngine) : N :=
  len_or_max u32_max (size (idempotency_records (rw_world (eng_world e)))).

End engine.

Arguments CogniformEngine : clear implicits.
