(* ===== verification/EngineSync.v ===== *)
(** * The engine keeps its parts in step

    [engine_ok]: the log records the world's history, nothing is pending for
    the renderer, and the renderer's copy is exactly what the world shows.
    Creating, restoring, applying and submitting frames preserve it; applying
    never fails once the world has changed; a recovery point restores the
    engine it was taken from. *)

From S2P Require Import Prelude Machine BTree Floats Values Components Messages MessageSpec Codec Ecs WorldTypes Hierarchy Render World SceneSpec CommitRefine PreflightRefine WorldInvariant WorldApply Extraction Hash Replay ReplayCodec ReplayLogs Recorded RecordedReplay RenderScene Recovery Engine.

Open Scope N_scope.

(** What [EngineConfig]'s field types guarantee, with a sound world. *)
Record engine_config_ok (c : EngineConfig) : Prop := {
  cfg_world : sound_config (ec_world c);
  cfg_replay : typed_replay_config (ec_replay c);
  cfg_entities : rcf_max_scene_entities (ec_renderer c) ≤ u32_max;
}.

Lemma render_scene_apply_summary s x summary s' :
  render_scene_apply s x = Ok (summary, s') → su_scene_revision summary = rn_revision s'.
Proof.
  intros Ha. unfold render_scene_apply in Ha. inv_ok.
  destruct (foldl (project_step _) _ _) as [p n]. inv_ok.
  match goal with a : gmap N N * gset N * option N |- _ => destruct a as [[asg free] next] end. inv_ok.
  destruct (foldl update_step _ _) as [[[[? ?] ?] ?] ?]. inv_ok. by simplify_eq.
Qed.

Section sync.
Context `{Digest} `{JsonCodecLaws ScenePatch}.
Context {W E : Type} `{EqDecision E} `{!EntityStore W E} `{!EntityStoreLaws W E}.
Implicit Types w : AuthoritativeWorld W E.
Implicit Types e : CogniformEngine W E.

(** The renderer may consume the world's next packet. *)
Record consumable (rw : RecordedWorld W E) (r : HeadlessRenderer) : Prop := {
  cs_world : rwinv rw;
  cs_scene : scene_ok (hr_scene r);
  cs_sync : in_sync (rw_world rw) (rn_entities (hr_scene r));
  cs_revision : rn_revision (hr_scene r) = last_extracted_revision (rw_world rw);
  cs_generation : rn_generation (hr_scene r) = render_extraction_generation (rw_world rw);
  cs_capacity : max_entities (rw_world_config rw) ≤ rn_max_entities (hr_scene r);
}.

(** The renderer shows exactly the world. *)
Record shown (rw : RecordedWorld W E) (r : HeadlessRenderer) : Prop := {
  sh_consumable : consumable rw r;
  sh_pending : pending_render_changes (rw_world rw) = ∅;
  sh_mirror : ∀ id, rn_entities (hr_scene r) !! id
    = render_view (abs_scene (rw_world rw)) (world_transforms (rw_world rw)) id;
  sh_revision : rn_revision (hr_scene r) = revision (rw_world rw);
  sh_generation : render_extraction_generation (rw_world rw) ≤ revision (rw_world rw);
}.

Record engine_ok e : Prop := {
  eo_shown : shown (eng_world e) (eng_renderer e);
  eo_frame : hr_next_frame_id (eng_renderer e) ≤ u64_max;
  eo_frames : hr_next_frame_id (eng_renderer e) ≠ 0 →
    Forall (λ en, en_estimated_visible_frame en ≤ hr_next_frame_id (eng_renderer e)) (log_entries (rw_log (eng_world e)));
}.

Lemma pending_distinct w : distinct (view_change (render_view (abs_scene w) (world_transforms w)) <$> bset_iter (pending_render_changes w)).
Proof.
  unfold distinct. rewrite <-list_fmap_compose, (list_fmap_ext _ id); [rewrite list_fmap_id; apply NoDup_bset_iter|].
  intros i x _. apply view_change_id.
Qed.

(** What a renderer shows of a world fits in any copy that fits the world. *)
Lemma shown_size w (m : gmap N RenderEntity) :
  winv w → (∀ id, m !! id = render_view (abs_scene w) (world_transforms w) id) →
  N.of_nat (size m) ≤ max_entities (config w).
Proof.
  intros Hw Hm. etrans; [|apply (wi_entities _ Hw)].
  assert (size m ≤ size (stable_index w))%nat; [|lia]. rewrite <-!(size_dom (D:=gset N)).
  apply subseteq_size. intros id [x Hx]%elem_of_dom. rewrite Hm in Hx. unfold render_view in Hx.
  apply bind_Some in Hx as (row & Hrow & _). rewrite <-(live_dom w Hw). apply elem_of_dom. eauto.
Qed.

Lemma consume rw r :
  consumable rw r → render_extraction_generation (rw_world rw) < u64_max →
  render_extraction_generation (rw_world rw) < revision (rw_world rw) →
  ∃ x rw' summary r', recorded_take_render_extraction rw = Ok (x, rw') ∧ apply_extraction r x = Ok (summary, r') ∧
    shown rw' r' ∧ su_scene_revision summary = revision (rw_world rw') ∧ hr_next_frame_id r' = hr_next_frame_id r ∧
    rw_log rw' = rw_log rw ∧ rw_world_config rw' = rw_world_config rw ∧
    revision (rw_world rw') = revision (rw_world rw) ∧ abs_scene (rw_world rw') = abs_scene (rw_world rw) ∧
    idempotency_records (rw_world rw') = idempotency_records (rw_world rw).
Proof.
  intros [Hrw Hsc Hsync Hrev Hgen Hcap] Hlt Hle. destruct (ri_world _ Hrw) as [Hw Hcfg].
  pose proof (take_render_extraction_sim (rw_world rw) Hw) as Hx.
  rewrite (proj2 (N.eqb_neq _ _)) in Hx by lia.
  set (x := mkExtraction _ _ _ _) in Hx. set (w' := mark_extracted _ _) in Hx.
  assert (recorded_take_render_extraction rw = Ok (x, mkRecorded w' (rw_world_config rw) (rw_log rw))) as Htake.
  { unfold recorded_take_render_extraction. by rewrite Hx. }
  pose proof (recorded_extract_inv _ _ _ Hrw Htake) as [Hrw' _].
  pose proof (render_scene_apply_sim (hr_scene r) x Hsc (pending_distinct _)) as Happly.
  pose proof (extracted_in_sync (rw_world rw) (rn_entities (hr_scene r)) (render_extraction_generation (rw_world rw) + 1) Hsync) as Hmirror.
  assert (winv w') as Hw'. { apply mark_extracted_inv; [done|]. lia. }
  destruct (render_scene_apply (hr_scene r) x) as [[summary s']|[]| |] eqn:Ha; try done.
  - destruct Happly as (_ & _ & Hpk).
    assert (∀ id, rn_entities s' !! id = render_view (abs_scene w') (world_transforms w') id) as Hshow.
    { intros id. rewrite (pk_entities _ _ _ Hpk). apply Hmirror. }
    exists x, (mkRecorded w' (rw_world_config rw) (rw_log rw)), summary,
      (mkRenderer (hr_config r) (hr_readback_layout r) s' (hr_next_frame_id r)).
    split_and!; try done.
    + unfold apply_extraction. by rewrite Ha.
    + split; cbn [rw_world hr_scene]; try done.
      * split; cbn [rw_world rw_world_config hr_scene]; try done.
        -- apply Hpk.
        -- intros id _. apply Hshow.
        -- apply Hpk.
        -- apply Hpk.
        -- by rewrite (pk_max _ _ _ Hpk).
      * apply Hpk.
      * cbn. lia.
    + rewrite (render_scene_apply_summary _ _ _ _ Ha). apply Hpk.
  - destruct Happly as (-> & -> & Hne). exfalso. apply Hne. rewrite Hgen. done.
  - exfalso. rewrite Hgen in Happly. lia.
  - destruct Happly as (-> & -> & Hne). exfalso. apply Hne. by rewrite Hrev.
  - destruct Happly as [-> Hbig]. exfalso. pose proof (shown_size w' _ Hw' Hmirror) as Hs.
    change (config w') with (config (rw_world rw)) in Hs. rewrite Hcfg in Hs. cbn [rx_changes x] in Hbig. lia.
Qed.

(** ** Applying *)

(** What an accepted patch does to an engine. *)
Inductive engine_step e (p : ScenePatch) (receipt : ApplyReceipt) e' : Prop :=
| es_replayed ra :
    idempotency_records (rw_world (eng_world e)) !! patch_idempotency_key p = Some ra →
    receipt = replayed (ra_receipt ra) → e' = e → engine_step e p receipt e'
| es_applied en :
    idempotency_records (rw_world (eng_world e)) !! patch_idempotency_key p = None →
    receipt_status receipt = Applied →
    spec_operations (max_entities (rw_world_config (eng_world e))) (abs_scene (rw_world (eng_world e))) 0 (patch_operations p)
      = Ok (abs_scene (rw_world (eng_world e'))) →
    revision (rw_world (eng_world e')) = revision (rw_world (eng_world e)) + 1 →
    idempotency_records (rw_world (eng_world e'))
      = <[patch_idempotency_key p := mkRecordedApply (patch_transaction_id p) receipt]>
          (idempotency_records (rw_world (eng_world e))) →
    en_patch en = p → en_estimated_visible_frame en = hr_next_frame_id (eng_renderer e) →
    log_entries (rw_log (eng_world e')) = log_entries (rw_log (eng_world e)) ++ [en] →
    rw_world_config (eng_world e') = rw_world_config (eng_world e) →
    hr_next_frame_id (eng_renderer e') = hr_next_frame_id (eng_renderer e) →
    engine_step e p receipt e'.

Lemma recorded_step_consumable rw r p f clock receipt rw' :
  shown rw r → rwinv rw' → recorded_step rw p f clock receipt rw' → receipt_status receipt = Applied →
  consumable rw' r ∧ render_extraction_generation (rw_world rw') < revision (rw_world rw').
Proof.
  intros [Hc Hp Hm Hr Hg] Hrw' Hs Hst. destruct (ri_world _ (cs_world _ _ Hc)) as [Hw _].
  destruct Hs as [ra Hra -> ->|sc en Hap Hrec Hlog Hcfg]; [done|]. destruct Hc as [Hrw Hsc Hsync Hrev Hgen Hcap]. split.
  - split; try done.
    + by eapply applied_in_sync.
    + by rewrite (ap_extracted _ _ _ _ _ _ _ Hap).
    + by rewrite (ap_extraction _ _ _ _ _ _ _ Hap).
    + by rewrite Hcfg.
  - rewrite (ap_extraction _ _ _ _ _ _ _ Hap), (ap_revision _ _ _ _ _ _ _ Hap). lia.
Qed.

(** Why the engine refuses a patch; a refusal leaves the engine as it was. *)
Definition engine_refuses e (p : ScenePatch) (clock : N * N) (error : EngineError) : Prop :=
  match error with
  | EngRenderer FrameIdOverflow => hr_next_frame_id (eng_renderer e) = 0
  | EngWorldApply error => recorded_refuses (eng_world e) p (hr_next_frame_id (eng_renderer e)) clock (RecordedWorldError error)
  | EngReplayRecord error =>
      (∀ we, error ≠ RecordedWorldError we) ∧ recorded_refuses (eng_world e) p (hr_next_frame_id (eng_renderer e)) clock error
  | _ => False
  end.

Lemma engine_apply_sim e p clock :
  engine_ok e → typed_patch p → nesting_room ScenePatch (runtime_limits (rw_world_config (eng_world e))) →
  match engine_apply_patch e p clock with
  | (e', Ok receipt) => engine_ok e' ∧ engine_step e p receipt e'
  | (e', Err error) => e' = e ∧ engine_refuses e p clock error
  | (_, Panic) | (_, OutOfFuel) => False
  end.
Proof.
  intros He Hp Hroom. pose proof He as [Hshown Hframe Hframes]. unfold engine_apply_patch. rewrite mut_read_bind.
  unfold next_frame_id, frame_id_new, non_zero.
  destruct (N.eqb_spec (hr_next_frame_id (eng_renderer e)) 0) as [Hz|Hz]; cbn [map_err out_bind]; [done|].
  unfold engine_refuses. set (f := hr_next_frame_id (eng_renderer e)) in *.
  pose proof (cs_world _ _ (sh_consumable _ _ Hshown)) as Hrw.
  pose proof (recorded_apply_sim (eng_world e) p f clock Hrw Hp ltac:(unfold typed_frame; lia) Hroom) as Hsim.
  unfold mut_bind at 1, mut_in at 1, mut_err.
  destruct (recorded_apply_patch (eng_world e) p f clock) as [rw' [receipt|error| |]] eqn:Hra; cbn [map_err]; try done.
  2:{ destruct Hsim as [-> Hsim]. split; [by destruct e|]. by destruct error. }
  destruct Hsim as [Hrw' Hstep]. destruct (bool_decide_reflect (receipt_status receipt = IdempotentReplay)) as [Hst|Hst].
  - destruct Hstep as [ra Hkey Hr ->|sc en Hap _ _ _].
    + destruct e. split; [done|]. by eapply es_replayed.
    + rewrite (ap_receipt _ _ _ _ _ _ _ Hap) in Hst. done.
  - assert (receipt_status receipt = Applied) as Hok by by destruct (receipt_status receipt).
    destruct (recorded_step_consumable _ _ _ _ _ _ _ Hshown Hrw' Hstep Hok) as [Hcons Hlt].
    pose proof (wi_revision _ (proj1 (ri_world _ Hrw'))) as Hmax.
    destruct (consume _ _ Hcons) as (x & rw2 & summary & r2 & Hx & Happ & Hsh & Hsum & Hnf & Hlog & Hcfg & Hrev & Hsc & Hrec); [lia..|].
    rewrite (mut_step _ _ _ (mkEngine rw2 (eng_renderer e)) x)
      by (unfold mut_in, mut_last; cbn [put_recorded eng_world eng_renderer]; by rewrite Hx).
    rewrite (mut_step _ _ _ (mkEngine rw2 r2) summary)
      by (unfold mut_in, mut_last; cbn [put_renderer eng_world eng_renderer]; by rewrite Happ).
    rewrite mut_read_bind. cbn [eng_world eng_renderer]. rewrite Hsum, N.eqb_refl. cbn [debug_assert]. rewrite mut_read_bind.
    cbn [eng_world eng_renderer]. rewrite (sh_revision _ _ Hsh), N.eqb_refl. cbn [debug_assert mut_ret].
    destruct Hstep as [ra _ -> _|sc en Hap Hen Hl Hc]; [done|]. split.
    + split; cbn [eng_world eng_renderer]; [done|by rewrite Hnf|]. intros _. rewrite Hnf, Hlog, Hl.
      apply Forall_app. split; [by apply Hframes|]. constructor; [|done]. rewrite (rc_frame _ _ _ _ _ Hen). fold f. lia.
    + eapply es_applied with (en := en); cbn [eng_world eng_renderer]; try done.
      * apply Hap.
      * rewrite Hsc, (ap_scene _ _ _ _ _ _ _ Hap). rewrite <-(proj2 (ri_world _ Hrw)). apply Hap.
      * by rewrite Hrev, (ap_revision _ _ _ _ _ _ _ Hap).
      * by rewrite Hrec, (ap_records _ _ _ _ _ _ _ Hap).
      * apply Hen.
      * apply Hen.
      * by rewrite Hlog.
      * by rewrite Hcfg.
Qed.

(** ** Creation, restoration and frames *)

Lemma renderer_new_ok be c f r :
  rcf_max_scene_entities c ≤ u32_max → renderer_new_with_next_frame_id be c f = Ok r →
  scene_ok (hr_scene r) ∧ hr_next_frame_id r = f ∧ hr_scene r = render_scene_new (rcf_max_scene_entities c).
Proof.
  intros Hmax Hr. unfold renderer_new_with_next_frame_id in Hr. inv_ok. subst r.
  split_and!; [by apply render_scene_new_ok|done..].
Qed.

Lemma validated_capacity c u :
  engine_validate_config c = Ok u → max_entities (ec_world c) ≤ rcf_max_scene_entities (ec_renderer c).
Proof. intros Hv. unfold engine_validate_config in Hv. inv_ok. by apply N.ltb_ge. Qed.

(** A fresh renderer may consume the first packet of a world never extracted. *)
Lemma fresh_consumable be c f rw r :
  rcf_max_scene_entities c ≤ u32_max → renderer_new_with_next_frame_id be c f = Ok r →
  rwinv rw → in_sync (rw_world rw) ∅ → last_extracted_revision (rw_world rw) = 0 →
  render_extraction_generation (rw_world rw) = 0 → max_entities (rw_world_config rw) ≤ rcf_max_scene_entities c →
  consumable rw r.
Proof.
  intros Hmax Hr Hrw Hs Hle Hg Hcap. destruct (renderer_new_ok _ _ _ _ Hmax Hr) as (Hok & _ & Hsc).
  split; try done; rewrite Hsc; by rewrite ?Hle, ?Hg.
Qed.

Lemma engine_new_sim be c e : engine_config_ok c → engine_new be c = Ok e → engine_ok e.
Proof.
  intros [Hwc Hrc Hmax] Hn. unfold engine_new in Hn. inv_ok. subst e.
  match goal with H : recorded_new _ _ = Ok ?x |- _ => rename H into Hrn, x into rw end.
  match goal with H : renderer_new _ _ = Ok ?x |- _ => rename H into Hre, x into r end.
  match goal with H : engine_validate_config c = _ |- _ => apply validated_capacity in H; rename H into Hcap end.
  pose proof (recorded_new_inv _ _ _ Hwc Hrc Hrn) as Hrw. unfold recorded_new in Hrn. inv_ok. subst rw.
  destruct (renderer_new_ok _ _ _ _ Hmax Hre) as (_ & Hf & Hsc).
  split; cbn [eng_world eng_renderer rw_log log_new log_entries].
  - split; rewrite ?Hsc; try done. by eapply fresh_consumable.
  - by rewrite Hf.
  - constructor.
Qed.

Lemma foldl_max_le (l : list N) x y : foldl N.max x l ≤ y ↔ x ≤ y ∧ Forall (λ z, z ≤ y) l.
Proof.
  revert x. induction l as [|a l IH]; intros x; cbn [foldl].
  - split; [by split; [|constructor]|by intros [? _]].
  - rewrite IH, N.max_lub_iff, Forall_cons. tauto.
Qed.

(** The frame frontier is checked against every recorded frame. *)
Lemma recovery_frame_spec log f :
  (validate_recovery_frame log f = Ok tt ↔ Forall (λ en, en_estimated_visible_frame en ≤ f) (log_entries log)) ∧
  normal (validate_recovery_frame log f).
Proof.
  unfold validate_recovery_frame. destruct (log_entries log) as [|en l]; cbn [fmap list_fmap].
  - split; [|done]. split; [constructor|done].
  - split; [|apply guard_err_normal]. rewrite guard_err_ok, N.ltb_ge, foldl_max_le, Forall_cons, Forall_fmap. done.
Qed.

(** The log a recovery point holds. *)
Lemma prepare_restore_inv c recovery clocks rw :
  engine_config_ok c → (∀ b p, json_from_slice b = Ok p → typed_patch p) →
  prepare_restore c recovery clocks = Ok rw →
  rwinv rw ∧ rw_world_config rw = ec_world c ∧ in_sync (rw_world rw) ∅ ∧
  last_extracted_revision (rw_world rw) = 0 ∧ render_extraction_generation (rw_world rw) = 0 ∧
  max_entities (ec_world c) ≤ rcf_max_scene_entities (ec_renderer c) ∧
  Forall (λ en, en_estimated_visible_frame en ≤ rp_next_frame_id recovery) (log_entries (rw_log rw)) ∧
  rp_replay_bytes recovery = stream (log_entries (rw_log rw)) ∧ log_config (rw_log rw) = ec_replay c.
Proof.
  intros [Hwc Hrc Hmax] Htyped Hp. unfold prepare_restore in Hp.
  apply out_bind_ok in Hp as (u & Hv%validated_capacity & Hp).
  destruct (load_prefix_loads (rp_replay_bytes recovery) (ec_replay c) (runtime_limits (ec_world c)) Hrc) as (loaded & Hload & Hcases).
  rewrite Hload in Hp. cbn [infallible map_err out_bind] in Hp.
  destruct (load_tail loaded) as [error|] eqn:Htail; [done|]. cbn [out_bind] in Hp.
  destruct Hcases as [[_ [? ?]]|[_ (Hlog & Hcfg & rest & Hbytes & Hrest)]]; [done|]. rewrite Htail in Hrest. subst rest.
  rewrite app_nil_r in Hbytes.
  apply out_bind_ok in Hp as ([] & Hf & Hp%map_err_ok). apply recovery_frame_spec in Hf.
  destruct (restore_sim (ec_world c) (load_log loaded) clocks rw) as (Hrw & Hl & Hc & Hs & Hle & Hg); try done.
  - by rewrite Hcfg.
  - eapply Forall_impl; [apply (lo_canonical _ _ Hlog)|]. intros en [Hdec _]. unfold decode in Hdec. inv_ok. subst. by eapply Htyped.
  - rewrite Hl. done.
Qed.

(** A renderer for a configuration and a frame. *)
Lemma renderer_new_normal be c f : normal (renderer_new_with_next_frame_id be c f).
Proof.
  unfold renderer_new_with_next_frame_id, renderer_validate_config, readback_layout_new.
  repeat match goal with
  | |- normal (out_bind _ _) => apply out_bind_normal; [|intros ? _]
  | |- normal (backend_call ?o) => by destruct o
  | |- normal (guard_err _ _) => apply guard_err_normal
  | |- normal (ok_or _ _) => apply ok_or_normal
  | |- normal (Ok _) => exact I
  end.
Qed.

Lemma observation_queue_normal be capacity limits : normal (observation_queue_new be capacity limits).
Proof. unfold observation_queue_new. apply out_bind_normal; [apply guard_err_normal|]. intros _ _. by destruct (be_worker be). Qed.

(** A world that was never patched has nothing to show. *)
Lemma unrevised_pending wc l w : sound_config wc → history wc l w → l = [] → pending_render_changes w = ∅.
Proof.
  intros Hwc. induction 1 as [|l w p f clock receipt w' en _ _ _ _ _ _|l w x w' Hh _ Hx]; intros Hl; [done| |].
  - by destruct l.
  - destruct (history_inv _ _ _ Hwc Hh) as (Hw & _). rewrite take_render_extraction_sim in Hx by done.
    destruct (_ =? u64_max); [done|]. apply Ok_inj in Hx. by injection Hx as _ <-.
Qed.

(** What restoration keeps of the recorded world. *)
Record restored (rw : RecordedWorld W E) (f : FrameId) e : Prop := {
  rd_log : rw_log (eng_world e) = rw_log rw;
  rd_config : rw_world_config (eng_world e) = rw_world_config rw;
  rd_scene : abs_scene (rw_world (eng_world e)) = abs_scene (rw_world rw);
  rd_revision : revision (rw_world (eng_world e)) = revision (rw_world rw);
  rd_records : idempotency_records (rw_world (eng_world e)) = idempotency_records (rw_world rw);
  rd_frame : hr_next_frame_id (eng_renderer e) = f;
}.

Lemma restore_prepared_sim be c f rw :
  rcf_max_scene_entities (ec_renderer c) ≤ u32_max → typed_frame f → rwinv rw →
  max_entities (rw_world_config rw) ≤ rcf_max_scene_entities (ec_renderer c) → in_sync (rw_world rw) ∅ →
  last_extracted_revision (rw_world rw) = 0 → render_extraction_generation (rw_world rw) = 0 →
  Forall (λ en, en_estimated_visible_frame en ≤ f) (log_entries (rw_log rw)) →
  match restore_prepared be c f rw with
  | Ok e => engine_ok e ∧ restored rw f e
  | Err (EngRenderer error) => renderer_new_with_next_frame_id be (ec_renderer c) f = Err error
  | Err (EngObservation error) =>
      observation_queue_new be (ec_observation_capacity c) (runtime_limits (ec_world c)) = Err error
  | _ => False
  end.
Proof.
  intros Hmax [Hf Hf'] Hrw Hcap Hs Hle Hg Hframes. unfold restore_prepared.
  pose proof (renderer_new_normal be (ec_renderer c) f) as Hrn.
  destruct (renderer_new_with_next_frame_id be (ec_renderer c) f) as [r|error| |] eqn:Hr; cbn [map_err out_bind]; try done.
  pose proof (observation_queue_normal be (ec_observation_capacity c) (runtime_limits (ec_world c))) as Hq.
  pose proof (fresh_consumable _ _ _ _ _ Hmax Hr Hrw Hs Hle Hg Hcap) as Hcons.
  destruct (renderer_new_ok _ _ _ _ Hmax Hr) as (_ & Hrf & Hsc).
  assert (∃ rw' r', (if negb (revision (rw_world rw) =? revision_initial)
    then (let! (extraction, world) := map_err EngWorldExtraction (recorded_take_render_extraction rw) in
          let! (summary, renderer) := map_err EngSceneUpdate (apply_extraction r extraction) in
          do! debug_assert (su_scene_revision summary =? revision (rw_world world)) then Ok (world, renderer))
    else Ok (rw, r)) = Ok (rw', r') ∧ shown rw' r' ∧ restored rw f (mkEngine rw' r')) as (rw' & r' & -> & Hsh & Hrd).
  { change revision_initial with 0. destruct (N.eqb_spec (revision (rw_world rw)) 0) as [Hz|Hz]; cbn [negb].
    - exists rw, r. split; [done|]. destruct (ri_world _ Hrw) as [Hw _].
      assert (pending_render_changes (rw_world rw) = ∅) as Hpend.
      { apply (unrevised_pending _ _ _ (ri_config _ Hrw) (ri_history _ Hrw)).
        destruct (history_inv _ _ _ (ri_config _ Hrw) (ri_history _ Hrw)) as (_ & _ & Hr' & _).
        apply length_zero_iff_nil. lia. }
      split; [|by split]. split; try done.
      + intros id. apply (cs_sync _ _ Hcons). rewrite Hpend. apply not_elem_of_empty.
      + by rewrite Hsc, Hz.
      + rewrite Hg. lia.
    - destruct (consume _ _ Hcons) as (x & rw2 & summary & r2 & -> & Happ & Hsh & Hsum & Hnf & Hlog & Hcfg & Hrev & Habs & Hrec);
        [rewrite Hg; unfold u64_max; lia..|].
      cbn [map_err out_bind]. rewrite Happ. cbn [map_err out_bind]. rewrite Hsum, N.eqb_refl. cbn [debug_assert out_bind].
      exists rw2, r2. split; [done|]. split; [done|]. split; cbn [eng_world eng_renderer]; try done. by rewrite Hnf. }
  cbn [out_bind]. destruct (observation_queue_new _ _ _) as [u|error| |]; cbn [map_err out_bind]; try done.
  split; [|done]. pose proof (rd_frame _ _ _ Hrd) as Hfr. pose proof (rd_log _ _ _ Hrd) as Hl. cbn [eng_world eng_renderer] in Hfr, Hl.
  split; cbn [eng_world eng_renderer]; [done|by rewrite Hfr|]. intros _. by rewrite Hfr, Hl.
Qed.

End sync.
