(* ===== verification/EngineTheorems.v ===== *)
(** * Theorems about the engine

    Every engine reached by creation, restoration, patches and frame
    submissions keeps world, log and renderer in step; applying a patch is
    atomic across the three; a recovery point restores what it was taken from. *)

From S2P Require Import Prelude Machine BTree Floats Values Components Messages MessageSpec Codec Ecs WorldTypes Hierarchy Render World SceneSpec CommitRefine PreflightRefine WorldInvariant WorldApply Extraction WorldTheorems Hash Sha256 Replay ReplayCodec ReplayLogs Recorded RecordedReplay ReplayWitness RenderScene Recovery Engine EngineSync.

Open Scope N_scope.

Section theorems.
Context `{Digest} `{JsonCodecLaws ScenePatch}.
Context {W E : Type} `{EqDecision E} `{!EntityStore W E} `{!EntityStoreLaws W E}.
Implicit Types e : CogniformEngine W E.

(** Engines of one configuration, over any backend. *)
Inductive engine_runs (c : EngineConfig) : CogniformEngine W E → Prop :=
| er_new be e : engine_new be c = Ok e → engine_runs c e
| er_restore be recovery clocks e :
    typed_frame (rp_next_frame_id recovery) → engine_restore be c recovery clocks = Ok e → engine_runs c e
| er_apply e p clock receipt e' :
    engine_runs c e → typed_patch p → engine_apply_patch e p clock = (e', Ok receipt) → engine_runs c e'
| er_submit be e frame e' : engine_runs c e → engine_submit_frame be e = Ok (frame, e') → engine_runs c e'.

Lemma engine_step_config e p receipt e' :
  engine_step e p receipt e' → rw_world_config (eng_world e') = rw_world_config (eng_world e).
Proof. by destruct 1 as [ra _ _ ->|]. Qed.

Lemma submit_frame_sim be e frame e' :
  engine_ok e → engine_submit_frame be e = Ok (frame, e') →
  engine_ok e' ∧ frame = hr_next_frame_id (eng_renderer e) ∧ eng_world e' = eng_world e ∧
  hr_next_frame_id (eng_renderer e') = (if frame =? u64_max then 0 else frame + 1).
Proof.
  intros [Hsh Hf Hfs] Hs. unfold engine_submit_frame, submit_prepared, next_frame_id, frame_id_new, non_zero in Hs.
  apply out_bind_ok in Hs as ([frame' r] & Hs%map_err_ok & He). injection He as -> <-.
  apply out_bind_ok in Hs as (u & _ & Hs). apply out_bind_ok in Hs as (n & Hn%map_err_ok & Hs). injection Hs as <- <-.
  destruct (N.eqb_spec (hr_next_frame_id (eng_renderer e)) 0) as [|Hz]; [done|]. injection Hn as <-.
  cbn [eng_world eng_renderer hr_next_frame_id].
  assert (default 0 (checked_add u64_max (hr_next_frame_id (eng_renderer e)) 1)
    = if hr_next_frame_id (eng_renderer e) =? u64_max then 0 else hr_next_frame_id (eng_renderer e) + 1) as Hnext.
  { unfold checked_add. destruct (N.eqb_spec (hr_next_frame_id (eng_renderer e)) u64_max) as [->|Hne]; [done|].
    by rewrite (proj2 (N.leb_le _ _)) by lia. }
  split_and!; try done. split; cbn [eng_world eng_renderer hr_next_frame_id].
  - destruct Hsh as [[] ? ? ? ?]. by split.
  - rewrite Hnext. destruct (N.eqb_spec (hr_next_frame_id (eng_renderer e)) u64_max); lia.
  - rewrite Hnext. destruct (N.eqb_spec (hr_next_frame_id (eng_renderer e)) u64_max); [done|]. intros _.
    eapply Forall_impl; [by apply Hfs|]. intros en Hen. cbn beta in *. lia.
Qed.

(** C3. Applying a patch through the engine is atomic across world, log and
    renderer.  It never panics; the world's extraction and the renderer never
    refuse a change the world has made, and an error leaves world, log and
    renderer exactly as they were, for the stated reason: no frame identity left,
    a refusal by the world, a patch that cannot be encoded, or a log without room
    for its entry.  A success replays an earlier receipt and changes nothing, or
    moves the scene as the specification says, appends exactly one log entry under
    the promised frame, and leaves the renderer showing exactly the new scene. *)
Theorem engine_apply_atomic e p clock :
  engine_ok e → typed_patch p → nesting_room ScenePatch (runtime_limits (rw_world_config (eng_world e))) →
  match engine_apply_patch e p clock with
  | (e', Ok receipt) => engine_ok e' ∧ engine_step e p receipt e'
  | (e', Err error) => e' = e ∧ engine_refuses e p clock error
  | (_, Panic) | (_, OutOfFuel) => False
  end.
Proof. apply engine_apply_sim. Qed.

(** Every engine reached from creation or from any recovery point, through
    patches and frame submissions, satisfies the engine invariant: the log
    verifies and records the world's history, the renderer's copy is what the
    world shows at the same revision and generation, and no recorded frame is
    ahead of the next frame identity. *)
Theorem engine_reachable_ok c e :
  engine_config_ok c → nesting_room ScenePatch (runtime_limits (ec_world c)) →
  (∀ b p, json_from_slice b = Ok p → typed_patch p) →
  engine_runs c e → engine_ok e ∧ rw_world_config (eng_world e) = ec_world c.
Proof.
  intros Hc Hroom Htyped. induction 1 as [be e Hn|be recovery clocks e Hf Hr|e p clock receipt e' _ [IH Hcfg] Hp Ha|be e frame e' _ [IH Hcfg] Hs].
  - split; [by eapply engine_new_sim|]. unfold engine_new, recorded_new in Hn. inv_ok. by subst.
  - unfold engine_restore in Hr. apply out_bind_ok in Hr as (rw & Hp & Hr).
    destruct (prepare_restore_inv _ _ _ _ Hc Htyped Hp) as (Hrw & Hcfg & Hs & Hle & Hg & Hcap & Hfr & _).
    rewrite <-Hcfg in Hcap.
    pose proof (restore_prepared_sim be c (rp_next_frame_id recovery) rw (cfg_entities _ Hc) Hf Hrw Hcap Hs Hle Hg Hfr) as Hsim.
    rewrite Hr in Hsim. destruct Hsim as [Hok Hrd]. split; [done|]. by rewrite (rd_config _ _ _ Hrd).
  - pose proof (engine_apply_sim e p clock IH Hp ltac:(by rewrite Hcfg)) as Hsim. rewrite Ha in Hsim.
    destruct Hsim as [Hok Hst]. split; [done|]. by rewrite (engine_step_config _ _ _ _ Hst).
  - destruct (submit_frame_sim be e frame e' IH Hs) as (Hok & _ & Hw & _). by rewrite Hw.
Qed.

(** The engine's own log is a recovery point. *)
Lemma recovery_point_ok e :
  engine_ok e → hr_next_frame_id (eng_renderer e) ≠ 0 →
  recovery_point e = Ok (mkRecoveryPoint (stream (log_entries (rw_log (eng_world e)))) (hr_next_frame_id (eng_renderer e))).
Proof.
  intros He Hz. pose proof (cs_world _ _ (sh_consumable _ _ (eo_shown _ He))) as Hrw. unfold recovery_point.
  rewrite (to_bytes_ok (runtime_limits (rw_world_config (eng_world e)))) by apply (ri_log _ Hrw).
  cbn [infallible map_err out_bind]. unfold next_frame_id, frame_id_new, non_zero. by rewrite (proj2 (N.eqb_neq _ _) Hz).
Qed.

(** Preparing the restoration of a recorded world's own log. *)
Lemma prepare_restore_recorded c rw f clocks :
  rwinv rw → engine_config_ok c → engine_validate_config c = Ok tt →
  rw_world_config rw = ec_world c → log_config (rw_log rw) = ec_replay c →
  Forall (λ en, en_estimated_visible_frame en ≤ f) (log_entries (rw_log rw)) →
  N.of_nat (size (touched (log_entries (rw_log rw)))) ≤ max_pending_render_changes (ec_world c) →
  ∃ rw', prepare_restore c (mkRecoveryPoint (stream (log_entries (rw_log rw))) f) clocks = Ok rw' ∧ rwinv rw' ∧
    rw_log rw' = rw_log rw ∧ rw_world_config rw' = ec_world c ∧ in_sync (rw_world rw') ∅ ∧
    last_extracted_revision (rw_world rw') = 0 ∧ render_extraction_generation (rw_world rw') = 0 ∧
    abs_scene (rw_world rw') = abs_scene (rw_world rw) ∧ revision (rw_world rw') = revision (rw_world rw) ∧
    ∀ key, recorded_transaction (rw_world rw') key = recorded_transaction (rw_world rw) key.
Proof.
  intros Hrw Hc Hv Hwc Hrc Hframes Htouch.
  rewrite <-Hwc in Htouch. destruct (recover_sim rw clocks Hrw Htouch) as (b & rw' & Hb & Hload & Hrest & Hrw' & Hsc & Hrev & Htx).
  pose proof (ri_log _ Hrw) as Hlog. rewrite (to_bytes_ok (runtime_limits (rw_world_config rw))) in Hb by done.
  apply Ok_inj in Hb as <-. rewrite Hrc in Hload. rewrite Hwc in Hload, Hrest.
  destruct (restore_sim (ec_world c) (rw_log rw) clocks rw') as (_ & Hl & Hcfg & Hs & Hle & Hg); try done.
  { apply Hc. } { rewrite Hrc. apply Hc. } { by rewrite <-Hwc. }
  { by apply (history_typed (rw_world_config rw) (log_entries (rw_log rw)) (rw_world rw)), ri_history. }
  exists rw'. split; [|by split_and!].
  unfold prepare_restore. rewrite Hv. cbn [out_bind rp_replay_bytes rp_next_frame_id]. rewrite Hload.
  cbn [infallible map_err out_bind load_tail load_log].
  rewrite (proj2 (proj1 (recovery_frame_spec (rw_log rw) f)) Hframes). cbn [out_bind]. by rewrite Hrest.
Qed.

(** C19. Recovery round trip: an engine that has a frame identity left gives a
    recovery point whose envelope decodes to the same point, and restoring that
    point under the same configuration either fails in the backend or gives an
    engine with the same log, scene, revision, accepted transactions and next
    frame identity, in step with its renderer; provided the entities touched by
    the whole log fit the pending render change capacity. *)
Theorem engine_recovery e be c clocks :
  engine_ok e → engine_config_ok c → engine_validate_config c = Ok tt →
  rw_world_config (eng_world e) = ec_world c → log_config (rw_log (eng_world e)) = ec_replay c →
  hr_next_frame_id (eng_renderer e) ≠ 0 →
  N.of_nat (size (touched (log_entries (rw_log (eng_world e))))) ≤ max_pending_render_changes (ec_world c) →
  ∃ point b, recovery_point e = Ok point ∧ to_envelope_bytes point (ec_replay c) = Ok b ∧
    from_envelope_bytes b (ec_replay c) = Ok point ∧
    match engine_restore be c point clocks with
    | Ok e' => engine_ok e' ∧ rw_log (eng_world e') = rw_log (eng_world e) ∧
        abs_scene (rw_world (eng_world e')) = abs_scene (rw_world (eng_world e)) ∧
        revision (rw_world (eng_world e')) = revision (rw_world (eng_world e)) ∧
        (∀ key, recorded_transaction (rw_world (eng_world e')) key = recorded_transaction (rw_world (eng_world e)) key) ∧
        hr_next_frame_id (eng_renderer e') = hr_next_frame_id (eng_renderer e)
    | Err (EngRenderer _) | Err (EngObservation _) => True
    | _ => False
    end.
Proof.
  intros He Hc Hv Hwc Hrc Hz Htouch. pose proof (cs_world _ _ (sh_consumable _ _ (eo_shown _ He))) as Hrw.
  set (f := hr_next_frame_id (eng_renderer e)) in *.
  assert (typed_frame f) as Hf by (pose proof (eo_frame _ He); unfold typed_frame; lia).
  destruct (prepare_restore_recorded c (eng_world e) f clocks Hrw Hc Hv Hwc Hrc (eo_frames _ He Hz) Htouch)
    as (rw' & Hprep & Hrw' & Hl & Hcfg & Hs & Hle & Hg & Hsc & Hrev & Htx).
  pose proof (ri_log _ Hrw) as Hlog.
  pose proof (cfg_replay _ Hc) as (_ & _ & [_ Hmax]).
  set (point := mkRecoveryPoint (stream (log_entries (rw_log (eng_world e)))) f).
  assert (encodable (ec_replay c) point) as Hen.
  { split; [|cbn [point rp_replay_bytes]; rewrite <-Hrc, <-(lo_bytes _ _ Hlog); apply Hlog].
    unfold engine_validate_config, replay_config_validate in Hv. inv_ok. by apply N.ltb_ge. }
  exists point, (envelope point). split_and!; [by apply recovery_point_ok|by apply to_envelope_spec|by apply from_envelope_envelope|].
  unfold engine_restore, point. rewrite Hprep. cbn [out_bind rp_next_frame_id].
  pose proof (restore_prepared_sim be c f rw' (cfg_entities _ Hc) Hf Hrw') as Hsim. rewrite Hcfg in Hsim.
  specialize (Hsim (validated_capacity _ _ Hv) Hs Hle Hg). rewrite Hl in Hsim. specialize (Hsim (eo_frames _ He Hz)).
  destruct (restore_prepared be c f rw') as [e'|[]| |]; try done.
  destruct Hsim as [Hok [Hl' Hc' Hs' Hr' Hi' Hf']]. split_and!; try done; [congruence..|].
  intros key. unfold recorded_transaction in *. by rewrite Hi'.
Qed.

End theorems.

(** ** A concrete engine *)

#[local] Existing Instances sha256_instance sample_codec sample_codec_laws.

Definition sample_backend : Backend := mkBackend 256 (λ _ _, None) None None.
Definition sample_engine_config : EngineConfig := engine_config_new 64 64.

Definition sample_engine0 : CogniformEngine SlotStore.store (N * N) :=
  mkEngine sample_recorded0
    (mkRenderer (renderer_config_new 64 64) (mkReadbackLayout 64 64 256 256 16384) (render_scene_new 65536) 1).

Definition sample_engine : CogniformEngine SlotStore.store (N * N) :=
  (engine_apply_patch sample_engine0 sample_patch (5, 6)).1.

Lemma sample_engine_config_ok : engine_config_ok sample_engine_config.
Proof. split; [apply sample_config_sound|apply sample_replay_config|vm_compute; discriminate]. Qed.

Lemma sample_engine0_new : engine_new sample_backend sample_engine_config = Ok sample_engine0.
Proof. reflexivity. Qed.

Lemma sample_engine0_ok : engine_ok sample_engine0.
Proof. exact (engine_new_sim sample_backend sample_engine_config sample_engine0 sample_engine_config_ok sample_engine0_new). Qed.

Lemma sample_engine_ok : engine_ok sample_engine.
Proof.
  pose proof (engine_apply_sim sample_engine0 sample_patch (5, 6) sample_engine0_ok sample_patch_typed sample_room) as Hsim.
  unfold sample_engine. destruct (engine_apply_patch _ _ _) as [e [r|error| |]]; [apply Hsim| |done..].
  destruct Hsim as [-> _]. apply sample_engine0_ok.
Qed.

Lemma sample_codec_typed b p : json_from_slice (T:=ScenePatch) b = Ok p → typed_patch p.
Proof.
  cbn [json_from_slice sample_codec Table.codec]. unfold Table.from_slice. cbn [find].
  destruct (bool_decide _); [|done]. intros [= <-]. exact sample_patch_typed.
Qed.

Lemma engine_apply_atomic_witness :
  match engine_apply_patch sample_engine0 sample_patch (5, 6) with
  | (e', Ok receipt) => engine_step sample_engine0 sample_patch receipt e'
  | _ => False
  end.
Proof.
  pose proof (engine_apply_atomic sample_engine0 sample_patch (5, 6) sample_engine0_ok sample_patch_typed sample_room) as Hsim.
  assert (is_ok (engine_apply_patch sample_engine0 sample_patch (5, 6)).2 = true) as Hok by (vm_compute; reflexivity).
  destruct (engine_apply_patch sample_engine0 sample_patch (5, 6)) as [e [r| | |]]; [apply Hsim|discriminate Hok..].
Defined.

Lemma engine_reachable_ok_witness :
  engine_ok sample_engine0 ∧ rw_world_config (eng_world sample_engine0) = ec_world sample_engine_config.
Proof.
  apply (engine_reachable_ok sample_engine_config sample_engine0).
  - exact sample_engine_config_ok.
  - exact sample_room.
  - exact sample_codec_typed.
  - exact (er_new sample_engine_config sample_backend sample_engine0 sample_engine0_new).
Defined.

Lemma engine_recovery_witness :
  ∃ point b, recovery_point sample_engine = Ok point ∧
    to_envelope_bytes point replay_config_default = Ok b ∧ from_envelope_bytes b replay_config_default = Ok point.
Proof.
  destruct (engine_recovery sample_engine sample_backend sample_engine_config (λ _, (0, 0)) sample_engine_ok
    sample_engine_config_ok) as (point & b & H1 & H2 & H3 & _).
  - reflexivity.
  - vm_compute. reflexivity.
  - vm_compute. reflexivity.
  - vm_compute. discriminate.
  - vm_compute. discriminate.
  - exists point, b. exact (conj H1 (conj H2 H3)).
Defined.
