(* ===== verification/Procedural.v ===== *)
(** * Built-in procedures

    [cogniform-procedural] (grid.rs, error.rs): a request for a grid of cuboids
    becomes an ordinary patch.  The preflight of the request is exact: the patch
    it lets through is always valid, so the final validation never refuses, and
    the grid is exactly the requested one. *)

From S2P Require Import Prelude Machine Ordering BTree Floats Values Components Messages MessageSpec Imagination ImaginationSpec Ecs WorldTypes Hierarchy Affected World Codec Compilation SceneSpec CommitRefine WorldInvariant WorldApply Hash Compiler CompilerApply Sha256.

Open Scope N_scope.

Record ProcedureLimits := mkProcedureLimits {
  pl_max_entities : N;
  pl_max_id_derivation_attempts : N;
}.
Definition procedure_limits_default : ProcedureLimits := mkProcedureLimits 256 16.

Record CuboidGrid := mkGrid {
  cg_rows : N;
  cg_columns : N;
  cg_origin : Vec3;
  cg_spacing_x : f32;
  cg_spacing_z : f32;
  cg_dimensions : PositiveVec3;
  cg_material : MaterialComponent;
}.

Inductive BuiltinProcedure : Type := BuiltinGrid (grid : CuboidGrid).

Record ProcedureRequest := mkProcedureRequest {
  pr_procedure_id : N;
  pr_seed : N;
  pr_transaction_id : TransactionId;
  pr_idempotency_key : IdempotencyKey;
  pr_base_revision : SceneRevision;
  pr_delivery : DeliverySemantic;
  pr_patch_budget : PatchBudget;
  pr_procedure_limits : ProcedureLimits;
  pr_procedure : BuiltinProcedure;
}.

Record ProcedureArtifact := mkArtifact {
  art_patch : ScenePatch;
  art_entity_ids : list StableEntityId;
}.

Inductive ProcedureError : Type :=
| PeTextCapacityExceeded (actual declared runtime : N)
| PeDecodedCapacityExceeded (actual declared runtime : N)
| PeEntityLimitExceeded (actual limit : N)
| PePatchCapacityExceeded (operations components : N)
| PeNonFiniteTransform (entity_index : N)
| PeEntityIdDerivationExhausted (entity_index attempts : N)
| PeInvalidPatch (error : ValidationError).

Definition PROCEDURE_ID_DOMAIN : bytes := bytes_of_string "cogniform.builtin-procedure.entity-id" ++ [x00].
Definition PATCH_FIXED_LOGICAL_BYTES : N := 71.
Definition CUBOID_CREATE_LOGICAL_BYTES : N := 101.

(** [u64::saturating_mul]. *)
Definition sat_mul64 (a b : N) : N := N.min u64_max (a * b).

(** [validate_decoded_size]. *)
Definition validate_decoded_size (r : ProcedureRequest) (entity_count : N) (limits : RuntimeLimits)
    : outcome ProcedureError unit :=
  let delivery := match pr_delivery r with
                  | LatestWins key => sat_add64 5 (len_or_max u64_max (length key))
                  | MustApply | BestEffort => 1
                  end in
  let actual := sat_add64 (sat_add64 PATCH_FIXED_LOGICAL_BYTES delivery) (sat_mul64 entity_count CUBOID_CREATE_LOGICAL_BYTES) in
  let declared := pb_max_decoded_bytes (pr_patch_budget r) in
  let runtime := max_decoded_bytes limits in
  guard_err ((declared <? actual) || (runtime <? actual) || (runtime <? declared))
    (PeDecodedCapacityExceeded actual declared runtime).

(** [validate_delivery_text]. *)
Definition validate_delivery_text (r : ProcedureRequest) (limits : RuntimeLimits) : outcome ProcedureError unit :=
  let actual := match pr_delivery r with
                | LatestWins key => len_or_max u64_max (length key)
                | MustApply | BestEffort => 0
                end in
  let declared := pb_max_text_bytes (pr_patch_budget r) in
  let runtime := max_text_bytes limits in
  guard_err ((declared <? actual) || (runtime <? actual) || (runtime <? declared))
    (PeTextCapacityExceeded actual declared runtime).

(** The running sum of [grid_coordinate]. *)
Definition coordinate_sum (origin spacing : f32) (offset : nat) : f32 := Nat.iter offset (λ value, f32_add value spacing) origin.

(** [grid_coordinate]. *)
Definition grid_coordinate (origin spacing : f32) (offset : nat) (entity_index : N) : outcome ProcedureError f32 :=
  map_err (λ _, PeNonFiniteTransform entity_index) (finite_f32_new (coordinate_sum origin spacing offset)).

Definition identity_rotation : Quaternion := mkQuaternion f32_zero f32_zero f32_zero f32_one.
Definition unit_scale : PositiveVec3 := mkPositiveVec3 f32_one f32_one f32_one.

Section procedures.
Context `{Digest}.

(** The identity tried at one attempt of [derive_entity_id]. *)
Definition grid_id_candidate (r : ProcedureRequest) (entity_index attempt : N) : outcome ValueErrorKind StableEntityId :=
  let digest := sha256 (PROCEDURE_ID_DOMAIN ++ to_be_bytes 16 (pr_procedure_id r) ++ to_be_bytes 8 (pr_seed r)
    ++ to_be_bytes 4 entity_index ++ to_be_bytes 4 attempt) in
  opaque_id_new (from_be_bytes (take 16 digest)).

(** The attempts remaining in [derive_entity_id]. *)
Fixpoint grid_id_attempts (remaining : nat) (attempt : N) (r : ProcedureRequest) (entity_index : N) (emitted : gset N)
    : option StableEntityId :=
  match remaining with
  | O => None
  | S remaining =>
      match grid_id_candidate r entity_index attempt with
      | Ok id => if bool_decide (id ∈ emitted) then grid_id_attempts remaining (attempt + 1) r entity_index emitted else Some id
      | _ => grid_id_attempts remaining (attempt + 1) r entity_index emitted
      end
  end.

(** [derive_entity_id]; the set of emitted identities is updated by the caller. *)
Definition derive_grid_id (r : ProcedureRequest) (entity_index : N) (emitted : gset N) : outcome ProcedureError StableEntityId :=
  let attempts := pl_max_id_derivation_attempts (pr_procedure_limits r) in
  ok_or (grid_id_attempts (N.to_nat attempts) 0 r entity_index emitted) (PeEntityIdDerivationExhausted entity_index attempts).

(** One turn of the inner loop of [execute_grid]; the state is
    [(emitted, entity_ids, patch_operations)]. *)
Definition grid_cell (r : ProcedureRequest) (grid : CuboidGrid) (state : gset N * list StableEntityId * list SceneOperation)
    (cell : nat * nat) : outcome ProcedureError (gset N * list StableEntityId * list SceneOperation) :=
  let '(emitted, entity_ids, operations) := state in
  let '(row, column) := cell in
  let! entity_index := expect (product ← (if N.of_nat row * cg_columns grid <=? u32_max then Some (N.of_nat row * cg_columns grid) else None);
                               checked_add u32_max product (N.of_nat column)) in
  let! entity_id := derive_grid_id r entity_index emitted in
  let! x := grid_coordinate (v3_x (cg_origin grid)) (cg_spacing_x grid) column entity_index in
  let! z := grid_coordinate (v3_z (cg_origin grid)) (cg_spacing_z grid) row entity_index in
  let translation := mkVec3 x (v3_y (cg_origin grid)) z in
  Ok ({[entity_id]} ∪ emitted, entity_ids ++ [entity_id],
      operations ++ [OpCreate (mkCreate entity_id
        [CLocalTransform (mkLocalTransform translation identity_rotation unit_scale);
         CPrimitive (mkPrimitive Cuboid (cg_dimensions grid)); CMaterial (cg_material grid)])]).

(** The cells of the two loops, row by row. *)
Definition grid_cells (grid : CuboidGrid) : list (nat * nat) :=
  row ← seq 0 (N.to_nat (cg_rows grid)); (λ column, (row, column)) <$> seq 0 (N.to_nat (cg_columns grid)).

(** [execute_grid]. *)
Definition execute_grid (r : ProcedureRequest) (grid : CuboidGrid) (limits : RuntimeLimits)
    : outcome ProcedureError ProcedureArtifact :=
  let budget := pr_patch_budget r in
  let entity_count := sat_mul64 (cg_rows grid) (cg_columns grid) in
  do! guard_err (pl_max_entities (pr_procedure_limits r) <? entity_count)
    (PeEntityLimitExceeded entity_count (pl_max_entities (pr_procedure_limits r))) then
  let operations := entity_count in
  let components := sat_mul64 entity_count 3 in
  do! validate_delivery_text r limits then
  do! guard_err ((pb_max_operations budget <? operations) || (max_operations limits <? operations)
                 || (max_operations limits <? pb_max_operations budget)
                 || (pb_max_components budget <? components) || (max_components limits <? components)
                 || (max_components limits <? pb_max_components budget) || (max_components_per_entity limits <? 3))
    (PePatchCapacityExceeded operations components) then
  do! validate_decoded_size r entity_count limits then
  let! (state, patch_operations) := out_fold (grid_cell r grid) (∅, [], []) (grid_cells grid) in
  let patch := mkPatch schema_v1 (pr_transaction_id r) (pr_idempotency_key r) (pr_base_revision r) RequireExactBase
    (pr_delivery r) budget patch_operations in
  do! map_err PeInvalidPatch (patch_validate patch limits) then
  Ok (mkArtifact patch state.2).

(** [execute]. *)
Definition execute (r : ProcedureRequest) (limits : RuntimeLimits) : outcome ProcedureError ProcedureArtifact :=
  match pr_procedure r with BuiltinGrid grid => execute_grid r grid limits end.

End procedures.

(** * Properties of the built-in procedures

    The cells of a grid are numbered row by row, the identity of each is the
    first derived one that is neither zero nor already taken, and the request's
    preflight is exact.  [execute_exact] collects these facts. *)

(** ** The cells, row by row *)

Lemma row_major_length rows columns start :
  length (row ← seq start rows; (λ column : nat, (row, column)) <$> seq 0 columns) = (rows * columns)%nat.
Proof.
  revert start. induction rows as [|rows IH]; intros start; [done|].
  cbn [seq]. rewrite bind_cons, length_app, length_fmap, length_seq, IH. lia.
Qed.

Lemma row_major_lookup rows columns start k cell :
  (row ← seq start rows; (λ column : nat, (row, column)) <$> seq 0 columns) !! k = Some cell →
  k = ((cell.1 - start) * columns + cell.2)%nat ∧ (start ≤ cell.1 < start + rows)%nat ∧ (cell.2 < columns)%nat.
Proof.
  revert start k. induction rows as [|rows IH]; intros start k; [done|].
  cbn [seq]. rewrite bind_cons, lookup_app_Some, length_fmap, length_seq, list_lookup_fmap_Some.
  intros [(column & -> & Hc)|[Hk Hl]].
  - apply lookup_seq in Hc as [-> ?]. cbn [fst snd]. lia.
  - apply IH in Hl as (Hk' & ? & ?). split_and!; [|lia..].
    replace (cell.1 - start)%nat with (S (cell.1 - S start)) by lia. lia.
Qed.

Lemma grid_cells_length grid :
  N.of_nat (length (grid_cells grid)) = cg_rows grid * cg_columns grid.
Proof. unfold grid_cells. rewrite row_major_length. lia. Qed.

Lemma grid_cells_lookup grid k row column :
  grid_cells grid !! k = Some (row, column) →
  N.of_nat k = N.of_nat row * cg_columns grid + N.of_nat column ∧
  N.of_nat row < cg_rows grid ∧ N.of_nat column < cg_columns grid.
Proof. intros H. apply row_major_lookup in H as (-> & ? & ?). cbn [fst snd] in *. lia. Qed.

Section procedure_theorems.
Context `{Digest}.
Implicit Types (r : ProcedureRequest) (grid : CuboidGrid) (limits : RuntimeLimits).

(** ** Identity derivation *)

(** The identity of an attempt is unusable: zero, or one of [earlier]. *)
Definition attempt_taken r (index : N) (earlier : list StableEntityId) (attempt : N) : Prop :=
  ∀ id, grid_id_candidate r index attempt = Ok id → id ∈ earlier.

(** [id] comes from the first usable attempt. *)
Definition first_usable r (index : N) (earlier : list StableEntityId) (id : StableEntityId) : Prop :=
  ∃ attempt, attempt < pl_max_id_derivation_attempts (pr_procedure_limits r) ∧
    grid_id_candidate r index attempt = Ok id ∧ (id ∉ earlier) ∧
    ∀ before, before < attempt → attempt_taken r index earlier before.

Lemma grid_id_attempts_spec n attempt r index ids :
  (∀ before, before < attempt → attempt_taken r index ids before) →
  match grid_id_attempts n attempt r index (list_to_set ids) with
  | Some id => ∃ k, k < attempt + N.of_nat n ∧ grid_id_candidate r index k = Ok id ∧ (id ∉ ids) ∧
                 ∀ before, before < k → attempt_taken r index ids before
  | None => ∀ before, before < attempt + N.of_nat n → attempt_taken r index ids before
  end.
Proof.
  revert attempt. induction n as [|n IH]; intros attempt Hb; cbn [grid_id_attempts].
  - rewrite N.add_0_r. done.
  - assert (attempt_taken r index ids attempt →
      ∀ before, before < attempt + 1 → attempt_taken r index ids before) as Hnext.
    { intros Ht before Hlt. destruct (decide (before = attempt)) as [->|]; [done|apply Hb; lia]. }
    replace (attempt + N.of_nat (S n)) with (attempt + 1 + N.of_nat n) by lia.
    destruct (grid_id_candidate r index attempt) as [id|e| |] eqn:E;
      [|by apply IH, Hnext; intros id' E'; congruence..].
    case_bool_decide as Hin; rewrite elem_of_list_to_set in Hin.
    + apply IH, Hnext. intros id' E'. by rewrite E in E'; simplify_eq.
    + exists attempt. split_and!; [lia|done..].
Qed.

Lemma derive_grid_id_spec r index ids :
  match derive_grid_id r index (list_to_set ids) with
  | Ok id => first_usable r index ids id
  | Err e =>
      e = PeEntityIdDerivationExhausted index (pl_max_id_derivation_attempts (pr_procedure_limits r)) ∧
      ∀ attempt, attempt < pl_max_id_derivation_attempts (pr_procedure_limits r) → attempt_taken r index ids attempt
  | Panic | OutOfFuel => False
  end.
Proof.
  pose proof (grid_id_attempts_spec (N.to_nat (pl_max_id_derivation_attempts (pr_procedure_limits r))) 0 r index ids) as Hs.
  unfold derive_grid_id. rewrite N.add_0_l, N2Nat.id in Hs.
  destruct (grid_id_attempts _ _ _ _ _) as [id|]; cbn [ok_or].
  - destruct Hs as (k & ? & ? & ? & ?); [lia|]. exists k. done.
  - split; [done|]. apply Hs. lia.
Qed.

(** ** One cell *)

(** The operation placed at a cell. *)
Definition cell_operation grid (row column : nat) (id : StableEntityId) (op : SceneOperation) : Prop :=
  ∃ x z, finite_f32_new (coordinate_sum (v3_x (cg_origin grid)) (cg_spacing_x grid) column) = Ok x ∧
    finite_f32_new (coordinate_sum (v3_z (cg_origin grid)) (cg_spacing_z grid) row) = Ok z ∧
    op = OpCreate (mkCreate id
      [CLocalTransform (mkLocalTransform (mkVec3 x (v3_y (cg_origin grid)) z) identity_rotation unit_scale);
       CPrimitive (mkPrimitive Cuboid (cg_dimensions grid)); CMaterial (cg_material grid)]).

(** A cell whose position is not a finite number. *)
Definition cell_not_finite grid (row column : nat) : Prop :=
  f32_is_finite (coordinate_sum (v3_x (cg_origin grid)) (cg_spacing_x grid) column) = false ∨
  f32_is_finite (coordinate_sum (v3_z (cg_origin grid)) (cg_spacing_z grid) row) = false.

Lemma finite_f32_new_cases v :
  match finite_f32_new v with
  | Ok _ => f32_is_finite v = true
  | Err _ => f32_is_finite v = false
  | Panic | OutOfFuel => False
  end.
Proof. unfold finite_f32_new, float_value_new. destruct (f32_is_finite v); simpl; done. Qed.

(** A refused cell says why. *)
Definition cell_refused r grid (index : N) (row column : nat) (ids : list StableEntityId) (e : ProcedureError) : Prop :=
  (e = PeNonFiniteTransform index ∧ cell_not_finite grid row column) ∨
  (e = PeEntityIdDerivationExhausted index (pl_max_id_derivation_attempts (pr_procedure_limits r)) ∧
   ∀ attempt, attempt < pl_max_id_derivation_attempts (pr_procedure_limits r) → attempt_taken r index ids attempt).

Lemma grid_cell_spec r grid ids ops row column index :
  index = N.of_nat row * cg_columns grid + N.of_nat column → index ≤ u32_max →
  match grid_cell r grid (list_to_set ids, ids, ops) (row, column) with
  | Ok state => ∃ id op, state = (list_to_set (ids ++ [id]), ids ++ [id], ops ++ [op]) ∧
      first_usable r index ids id ∧ cell_operation grid row column id op
  | Err e => cell_refused r grid index row column ids e
  | Panic | OutOfFuel => False
  end.
Proof.
  intros -> Hu. unfold grid_cell.
  rewrite (proj2 (N.leb_le _ _)) by lia. cbn [mbind option_bind expect].
  rewrite (proj2 (checked_add_Some u32_max _ _ _) (conj eq_refl Hu)). cbn [expect out_bind].
  pose proof (derive_grid_id_spec r (N.of_nat row * cg_columns grid + N.of_nat column) ids) as Hid.
  destruct (derive_grid_id _ _ _) as [id|e| |]; cbn [out_bind]; [|by right|done..].
  unfold grid_coordinate.
  pose proof (finite_f32_new_cases (coordinate_sum (v3_x (cg_origin grid)) (cg_spacing_x grid) column)) as Hx.
  destruct (finite_f32_new _) as [x|e| |] eqn:Ex in Hx |- *; cbn [map_err out_bind]; [|by left; split; [|left]|done..].
  pose proof (finite_f32_new_cases (coordinate_sum (v3_z (cg_origin grid)) (cg_spacing_z grid) row)) as Hz.
  destruct (finite_f32_new (coordinate_sum (v3_z _) _ _)) as [z|e| |] eqn:Ez; cbn [map_err out_bind];
    [|by left; split; [|right]|done..].
  eexists id, _. split; [|split; [done|by exists x, z]].
  do 2 f_equal. rewrite list_to_set_app_L, list_to_set_singleton_L. apply (comm_L (∪)).
Qed.

(** ** The whole grid *)

(** The first [n] cells have been emitted. *)
Definition grid_prefix r grid (n : nat) (ids : list StableEntityId) (ops : list SceneOperation) : Prop :=
  length ids = n ∧ length ops = n ∧ NoDup ids ∧
  ∀ k row column, (k < n)%nat → grid_cells grid !! k = Some (row, column) →
    ∃ id op, ids !! k = Some id ∧ ops !! k = Some op ∧
      first_usable r (N.of_nat k) (take k ids) id ∧ cell_operation grid row column id op.

Lemma grid_prefix_snoc r grid n ids ops id op row column :
  grid_prefix r grid n ids ops → grid_cells grid !! n = Some (row, column) →
  first_usable r (N.of_nat n) ids id → cell_operation grid row column id op →
  grid_prefix r grid (S n) (ids ++ [id]) (ops ++ [op]).
Proof.
  intros (Hi & Ho & Hnd & Hall) Hn Hid Hop. split_and!.
  - rewrite length_app. simpl. lia.
  - rewrite length_app. simpl. lia.
  - apply NoDup_app. split_and!; [done| |apply NoDup_singleton].
    intros x Hx ->%list_elem_of_singleton. by destruct Hid as (? & _ & _ & ? & _).
  - intros k row' column' Hk Hc. destruct (decide (k = n)) as [Heq|Hne].
    + rewrite Heq, Hn in Hc. rewrite Heq. injection Hc as <- <-. exists id, op. rewrite take_app_length' by lia.
      rewrite !lookup_app_r by lia. replace (n - length ids)%nat with 0%nat by lia.
      by replace (n - length ops)%nat with 0%nat by lia.
    + destruct (Hall k row' column') as (id' & op' & ? & ? & ? & ?); [lia|done|].
      exists id', op'. rewrite take_app_le by lia.
      rewrite !lookup_app_l by lia. done.
Qed.

(** The loop stopped at the cell with this index. *)
Definition grid_stopped r grid (e : ProcedureError) : Prop :=
  ∃ k row column ids ops, grid_cells grid !! k = Some (row, column) ∧ grid_prefix r grid k ids ops ∧
    cell_refused r grid (N.of_nat k) row column ids e.

Lemma grid_loop_spec r grid (rest : list (nat * nat)) n ids ops :
  cg_rows grid * cg_columns grid ≤ u32_max →
  rest = drop n (grid_cells grid) → (n ≤ length (grid_cells grid))%nat → grid_prefix r grid n ids ops →
  match out_fold (grid_cell r grid) (list_to_set ids, ids, ops) rest with
  | Ok state => ∃ ids' ops', state = (list_to_set ids', ids', ops') ∧
      grid_prefix r grid (length (grid_cells grid)) ids' ops'
  | Err e => grid_stopped r grid e
  | Panic | OutOfFuel => False
  end.
Proof.
  intros Hu. revert n ids ops. induction rest as [|[row column] rest IH]; intros n ids ops Hrest Hn Hpre; cbn [out_fold].
  - exists ids, ops. split; [done|]. replace (length (grid_cells grid)) with n; [done|].
    apply (f_equal length) in Hrest. rewrite length_drop in Hrest. simpl in Hrest. lia.
  - assert (grid_cells grid !! n = Some (row, column)) as Hl.
    { rewrite <-(Nat.add_0_r n), <-lookup_drop, <-Hrest. done. }
    pose proof (grid_cells_lookup _ _ _ _ Hl) as (Hk & Hr & Hc).
    pose proof (grid_cells_length grid) as Hlen. pose proof (lookup_lt_Some _ _ _ Hl) as Hlt.
    pose proof (grid_cell_spec r grid ids ops row column (N.of_nat n) Hk) as Hcell.
    destruct (grid_cell _ _ _ _) as [state|e| |]; cbn [out_bind]; [|by exists n, row, column, ids, ops; auto with lia|by apply Hcell; lia..].
    destruct Hcell as (id & op & -> & Hid & Hop); [lia|].
    apply (IH (S n)); [|lia|by eapply grid_prefix_snoc].
    rewrite (drop_S _ _ _ Hl) in Hrest. by injection Hrest.
Qed.

(** ** The preflight is exact *)

Lemma sat_mul64_exact a b : a * b ≤ u64_max → sat_mul64 a b = a * b.
Proof. unfold sat_mul64. lia. Qed.

Lemma cell_operation_sizes grid row column id op :
  cell_operation grid row column id op →
  operation_size op = 101 ∧ operation_text op = 0 ∧ operation_component_count op = 3%nat.
Proof. intros (x & z & _ & _ & ->). done. Qed.

Lemma cell_operation_admissible grid row column id op limits :
  cell_operation grid row column id op → 3 ≤ max_components_per_entity limits → operation_admissible limits op.
Proof.
  intros (x & z & _ & _ & ->) Hm. cbn [operation_admissible create_components]. split_and!; [|by vm_compute; repeat constructor; set_solver|done].
  repeat apply Forall_cons_2; [|done..|by apply Forall_nil]. cbn [component_admissible lt_rotation]. by vm_compute.
Qed.

Lemma grid_prefix_operation r grid ids ops op :
  grid_prefix r grid (length (grid_cells grid)) ids ops → op ∈ ops →
  ∃ row column id, cell_operation grid row column id op.
Proof.
  intros (_ & Ho & _ & Hall) [k Hk]%list_elem_of_lookup_1.
  pose proof (lookup_lt_Some _ _ _ Hk) as Hlt.
  destruct (grid_cells grid !! k) as [[row column]|] eqn:Hc; [|apply lookup_ge_None in Hc; lia].
  destruct (Hall k row column) as (id & op' & _ & Hop & _ & Hcell); [lia|done|]. simplify_eq. eauto.
Qed.

Lemma sumN_uniform {A} (f : A → N) (c : N) l : (∀ a, a ∈ l → f a = c) → sumN f l = c * N.of_nat (length l).
Proof.
  induction l as [|a l IH]; intros Hf; [simpl; lia|].
  cbn [sumN foldr]. rewrite (Hf a) by set_solver.
  unfold sumN in IH. cbn [length]. 
  rewrite IH by set_solver. lia.
Qed.

(** The request fits the budget it declares and the runtime limits. *)
Definition grid_text r : N := N.of_nat (delivery_text_bytes (pr_delivery r)).
Definition grid_size r grid : N := 71 + delivery_size (pr_delivery r) + 101 * (cg_rows grid * cg_columns grid).

(** The header of the emitted patch is the request's. *)
Definition request_header r (p : ScenePatch) : Prop :=
  patch_schema_version p = schema_v1 ∧ patch_transaction_id p = pr_transaction_id r ∧
  patch_idempotency_key p = pr_idempotency_key r ∧ patch_base_revision p = pr_base_revision r ∧
  patch_conflict_policy p = RequireExactBase ∧ patch_delivery p = pr_delivery r ∧
  patch_declared_budget p = pr_patch_budget r.

Lemma grid_patch_admissible r grid limits ids p :
  grid_prefix r grid (length (grid_cells grid)) ids (patch_operations p) → request_header r p →
  cg_rows grid ≠ 0 → cg_columns grid ≠ 0 →
  let n := cg_rows grid * cg_columns grid in
  let b := pr_patch_budget r in
  3 ≤ max_components_per_entity limits →
  within n (pb_max_operations b) (max_operations limits) →
  within (3 * n) (pb_max_components b) (max_components limits) →
  within (grid_text r) (pb_max_text_bytes b) (max_text_bytes limits) →
  within (grid_size r grid) (pb_max_decoded_bytes b) (max_decoded_bytes limits) →
  patch_admissible p limits.
Proof.
  intros Hpre (Hv & _ & _ & _ & _ & Hd & Hb) Hr Hc n b H3 Hops Hcomp Htext Hsize.
  assert (N.of_nat (length (patch_operations p)) = n) as Hlen.
  { destruct Hpre as (_ & -> & _). apply grid_cells_length. }
  assert (∀ op, op ∈ patch_operations p → operation_size op = 101 ∧ operation_text op = 0 ∧ operation_component_count op = 3%nat) as Hsz.
  { intros op (row & column & id & Hop)%(grid_prefix_operation _ _ _ _ _ Hpre). by eapply cell_operation_sizes. }
  unfold patch_admissible, patch_components, patch_text, patch_size. rewrite Hb, Hd, Hlen, Hv.
  rewrite (sumN_uniform _ 3) by (intros op [_ [_ ->]]%Hsz; done).
  rewrite (sumN_uniform _ 0) by (intros op [_ [-> _]]%Hsz; done).
  rewrite (sumN_uniform _ 101) by (intros op [-> _]%Hsz; done).
  rewrite Hlen, N.mul_0_l, N.add_0_r. cbv zeta. split_and!; try done.
  - intros He. rewrite He in Hlen. simpl in Hlen. nia.
  - apply Forall_forall. intros op (row & column & id & Hop)%(grid_prefix_operation _ _ _ _ _ Hpre).
    by eapply cell_operation_admissible.
Qed.

(** The whole grid is emitted, in rows: the cell of a row and a column has the
    operation and the identity at index row * columns + column. *)
Definition grid_emitted r grid (a : ProcedureArtifact) : Prop :=
  N.of_nat (length (art_entity_ids a)) = cg_rows grid * cg_columns grid ∧
  N.of_nat (length (patch_operations (art_patch a))) = cg_rows grid * cg_columns grid ∧
  NoDup (art_entity_ids a) ∧
  ∀ row column : nat, N.of_nat row < cg_rows grid → N.of_nat column < cg_columns grid →
    let index := (row * N.to_nat (cg_columns grid) + column)%nat in
    ∃ id op, art_entity_ids a !! index = Some id ∧ patch_operations (art_patch a) !! index = Some op ∧
      first_usable r (N.of_nat index) (take index (art_entity_ids a)) id ∧ cell_operation grid row column id op.

Lemma grid_prefix_emitted r grid a :
  grid_prefix r grid (length (grid_cells grid)) (art_entity_ids a) (patch_operations (art_patch a)) → grid_emitted r grid a.
Proof.
  intros (Hi & Ho & Hnd & Hall). pose proof (grid_cells_length grid) as Hlen.
  split_and!; [by rewrite Hi|by rewrite Ho|done|].
  intros row column Hr Hc. cbv zeta.
  assert (row * N.to_nat (cg_columns grid) + column < length (grid_cells grid))%nat as Hlt by nia.
  destruct (lookup_lt_is_Some_2 _ _ Hlt) as [[row' column'] Hcell].
  pose proof (grid_cells_lookup _ _ _ _ Hcell) as (Hk & Hr' & Hc').
  assert (row' = row ∧ column' = column) as [-> ->].
  { destruct (Nat.lt_trichotomy row row') as [?|[->|?]]; [nia|split; [done|lia]|nia]. }
  by apply Hall.
Qed.

(** The grid could not be emitted, and the error names the first cell that failed. *)
Lemma grid_stopped_kind r grid e :
  grid_stopped r grid e →
  match e with PeNonFiniteTransform _ | PeEntityIdDerivationExhausted _ _ => True | _ => False end.
Proof. by intros (k & row & column & ids & ops & _ & _ & [[-> _]|[-> _]]). Qed.

Lemma validate_delivery_text_spec r limits :
  max_text_bytes limits < u64_max →
  let b := pr_patch_budget r in
  match validate_delivery_text r limits with
  | Ok _ => within (grid_text r) (pb_max_text_bytes b) (max_text_bytes limits)
  | Err e => e = PeTextCapacityExceeded (N.min u64_max (grid_text r)) (pb_max_text_bytes b) (max_text_bytes limits) ∧
             ¬ within (grid_text r) (pb_max_text_bytes b) (max_text_bytes limits)
  | Panic | OutOfFuel => False
  end.
Proof.
  intros Hl. cbv zeta. unfold validate_delivery_text. set (actual := match pr_delivery r with LatestWins _ => _ | _ => _ end).
  assert (actual = N.min u64_max (grid_text r)) as ->.
  { subst actual. unfold grid_text. destruct (pr_delivery r); simpl; [done| |done]. apply len_or_max_min. }
  cbv zeta. pose proof (within_guard (grid_text r) _ (pb_max_text_bytes (pr_patch_budget r)) _ u64_max Hl eq_refl) as Hw.
  destruct (_ || _); simpl; [split; [done|]; intros ?%Hw; done|by apply Hw].
Qed.

Lemma validate_decoded_size_spec r grid limits :
  max_decoded_bytes limits < u64_max → cg_rows grid * cg_columns grid ≤ u32_max →
  let b := pr_patch_budget r in
  match validate_decoded_size r (cg_rows grid * cg_columns grid) limits with
  | Ok _ => within (grid_size r grid) (pb_max_decoded_bytes b) (max_decoded_bytes limits)
  | Err e => e = PeDecodedCapacityExceeded (N.min u64_max (grid_size r grid)) (pb_max_decoded_bytes b) (max_decoded_bytes limits) ∧
             ¬ within (grid_size r grid) (pb_max_decoded_bytes b) (max_decoded_bytes limits)
  | Panic | OutOfFuel => False
  end.
Proof.
  intros Hl Hn. cbv zeta. unfold validate_decoded_size.
  set (delivery := match pr_delivery r with LatestWins _ => _ | _ => _ end).
  assert (delivery = N.min u64_max (delivery_size (pr_delivery r))) as ->.
  { subst delivery. rewrite <-delivery_size_sat. by destruct (pr_delivery r). }
  cbv zeta. set (actual := sat_add64 _ _).
  assert (actual = N.min u64_max (grid_size r grid)) as ->.
  { subst actual. unfold grid_size, sat_add64, sat_add, sat_mul64, PATCH_FIXED_LOGICAL_BYTES, CUBOID_CREATE_LOGICAL_BYTES, u64_max, u32_max in *. lia. }
  pose proof (within_guard (grid_size r grid) _ (pb_max_decoded_bytes (pr_patch_budget r)) _ u64_max Hl eq_refl) as Hw.
  destruct (_ || _); simpl; [split; [done|]; intros ?%Hw; done|by apply Hw].
Qed.

(** What the preflight checks about operations and components. *)
Definition grid_capacity r grid limits : Prop :=
  let n := cg_rows grid * cg_columns grid in
  let b := pr_patch_budget r in
  within n (pb_max_operations b) (max_operations limits) ∧
  within (3 * n) (pb_max_components b) (max_components limits) ∧
  3 ≤ max_components_per_entity limits.

(** ** The emitted patch is typed *)

(** What the protocol types guarantee of a grid. *)
Record typed_grid grid : Prop := {
  tg_x : f32_normal_form (v3_x (cg_origin grid));
  tg_y : f32_normal_form (v3_y (cg_origin grid));
  tg_z : f32_normal_form (v3_z (cg_origin grid));
  tg_primitive : typed_component (CPrimitive (mkPrimitive Cuboid (cg_dimensions grid)));
  tg_material : typed_component (CMaterial (cg_material grid));
}.

Lemma coordinate_sum_bits origin spacing offset :
  f32_normal_form origin → f32_bits (coordinate_sum origin spacing offset).
Proof. intros [Ho _]. destruct offset as [|offset]; [done|apply f32_of_spec_bits]. Qed.

Lemma grid_id_typed r index attempt id : grid_id_candidate r index attempt = Ok id → typed_id id.
Proof.
  unfold grid_id_candidate. set (digest := sha256 _). cbv zeta. unfold opaque_id_new.
  pose proof (from_be_bytes_lt (take 16 digest)) as Hb.
  assert (length (take 16 digest) = 16%nat) as Hl by (rewrite length_take; subst digest; rewrite sha256_length; done).
  rewrite Hl in Hb. destruct (N.eqb_spec (from_be_bytes (take 16 digest)) 0) as [Hz|Hz]; intros Hr; [done|].
  apply Ok_inj in Hr as <-. change (256 ^ N.of_nat 16) with (u128_max + 1) in Hb. split; lia.
Qed.

Lemma cell_operation_typed grid row column id op :
  typed_grid grid → typed_id id → cell_operation grid row column id op → typed_operation op.
Proof.
  intros Hg Hid (x & z & Hx & Hz & ->). split; [done|]. cbn [create_components].
  apply finite_f32_normal in Hx; [|apply coordinate_sum_bits, Hg].
  apply finite_f32_normal in Hz; [|apply coordinate_sum_bits, Hg].
  repeat apply Forall_cons_2; [|apply Hg..|apply Forall_nil_2].
  apply (typed_translation identity_transform); [apply identity_transform_typed|done|apply Hg|done].
Qed.

Lemma grid_prefix_typed r grid ids ops :
  typed_grid grid → grid_prefix r grid (length (grid_cells grid)) ids ops → Forall typed_operation ops.
Proof.
  intros Hg (_ & Ho & _ & Hall). apply Forall_lookup. intros k op Hk.
  pose proof (lookup_lt_Some _ _ _ Hk) as Hlt.
  destruct (grid_cells grid !! k) as [[row column]|] eqn:Hc; [|apply lookup_ge_None in Hc; lia].
  destruct (Hall k row column) as (id & op' & _ & Hop & (a & _ & Hid & _) & Hcell); [lia|done|]. simplify_eq.
  by eapply cell_operation_typed, Hcell; [|eapply grid_id_typed].
Qed.

(** What the types of a request guarantee, and the limits of a runtime. *)
Record typed_request r grid : Prop := {
  tq_procedure : pr_procedure r = BuiltinGrid grid;
  tq_rows : 0 < cg_rows grid ≤ u32_max;
  tq_columns : 0 < cg_columns grid ≤ u32_max;
  tq_entities : pl_max_entities (pr_procedure_limits r) ≤ u32_max;
  tq_grid : typed_grid grid;
}.

(** Whatever the limits, an artifact is typed. *)
Lemma execute_typed r limits grid a : typed_request r grid → execute r limits = Ok a → typed_patch (art_patch a).
Proof.
  intros [Hp Hr Hc He Hg]. unfold execute, execute_grid. rewrite Hp. cbv zeta.
  rewrite sat_mul64_exact by (unfold u32_max, u64_max in *; nia).
  destruct (N.ltb_spec (pl_max_entities (pr_procedure_limits r)) (cg_rows grid * cg_columns grid)); cbn [guard_err out_bind]; [done|].
  intros ([] & _ & ([] & _ & ([] & _ & (state & Hl & Hx)%out_bind_ok)%out_bind_ok)%out_bind_ok)%out_bind_ok.
  pose proof (grid_loop_spec r grid (grid_cells grid) 0 [] [] ltac:(lia) eq_refl ltac:(lia)
    ltac:(split_and!; [done..|apply NoDup_nil_2|lia])) as Hloop.
  change (list_to_set []) with (∅ : gset N) in Hloop. rewrite Hl in Hloop. destruct Hloop as (ids & ops & -> & Hpre).
  apply out_bind_ok in Hx as ([] & _ & Hx). apply Ok_inj in Hx as <-. by eapply (grid_prefix_typed r grid ids).
Qed.

(** C35. Running a grid procedure on a well-typed request always returns.  On
    success the grid is exactly the requested one: one create operation per
    cell, row by row, each cuboid at the repeated sum of the spacing, the
    identities pairwise distinct and each the first derived one that is usable;
    the patch carries the request's header and is valid.  Each error has
    exactly its stated cause: the entity limit, the delivery text, the
    operation and component capacity, the decoded size, or the first cell
    whose position is not finite or whose identity attempts are all taken.  The
    preflight's fixed sizes of 71 and 101 bytes are those of the validator, so
    the final validation never refuses the patch. *)
Theorem execute_exact r limits grid :
  typed_request r grid →
  max_operations limits < u32_max → max_components_per_entity limits < u32_max →
  max_components limits ≤ u32_max → max_text_bytes limits < u64_max → max_decoded_bytes limits < u64_max →
  let n := cg_rows grid * cg_columns grid in
  let b := pr_patch_budget r in
  match execute r limits with
  | Ok a => request_header r (art_patch a) ∧ grid_emitted r grid a ∧
            patch_validate (art_patch a) limits = Ok tt ∧ typed_patch (art_patch a)
  | Err (PeEntityLimitExceeded actual limit) => actual = n ∧ limit = pl_max_entities (pr_procedure_limits r) ∧ limit < n
  | Err (PeTextCapacityExceeded actual declared runtime) =>
      actual = N.min u64_max (grid_text r) ∧ ¬ within (grid_text r) (pb_max_text_bytes b) (max_text_bytes limits)
  | Err (PePatchCapacityExceeded operations components) =>
      operations = n ∧ components = 3 * n ∧ ¬ grid_capacity r grid limits
  | Err (PeDecodedCapacityExceeded actual declared runtime) =>
      actual = N.min u64_max (grid_size r grid) ∧
      ¬ within (grid_size r grid) (pb_max_decoded_bytes b) (max_decoded_bytes limits)
  | Err ((PeNonFiniteTransform _ | PeEntityIdDerivationExhausted _ _) as e) => grid_stopped r grid e
  | Err (PeInvalidPatch _) | Panic | OutOfFuel => False
  end.
Proof.
  intros [Hp Hr Hc He Hg] Hop Hpe Hco Ht Hd. cbv zeta. unfold execute, execute_grid. rewrite Hp.
  rewrite sat_mul64_exact by (unfold u32_max, u64_max in *; nia). cbv zeta.
  destruct (N.ltb_spec (pl_max_entities (pr_procedure_limits r)) (cg_rows grid * cg_columns grid)); cbn [guard_err out_bind]; [done|].
  rewrite (sat_mul64_exact _ 3) by (unfold u32_max, u64_max in *; lia).
  pose proof (validate_delivery_text_spec r limits Ht) as Htext. cbv zeta in Htext.
  destruct (validate_delivery_text r limits) as [[]|e| |]; cbn [out_bind]; [|by destruct Htext as [-> ?]|done..].
  set (capacity := _ || _).
  assert (capacity = false ↔ grid_capacity r grid limits) as Hcap.
  { subst capacity. unfold grid_capacity, within. cbv zeta. rewrite !orb_false_iff, !N.ltb_ge. lia. }
  destruct capacity; cbn [guard_err out_bind].
  { split_and!; [done|lia|]. by intros ?%Hcap. }
  destruct (proj1 Hcap eq_refl) as (Hn & H3n & H3).
  pose proof (validate_decoded_size_spec r grid limits Hd ltac:(lia)) as Hsize. cbv zeta in Hsize.
  destruct (validate_decoded_size _ _ _) as [[]|e| |]; cbn [out_bind]; [|by destruct Hsize as [-> ?]|done..].
  pose proof (grid_loop_spec r grid (grid_cells grid) 0 [] [] ltac:(lia) eq_refl ltac:(lia)) as Hloop.
  change (list_to_set []) with (∅ : gset N) in Hloop.
  destruct (out_fold _ _ _) as [state|e| |]; cbn [out_bind].
  2: { pose proof (Hloop ltac:(split_and!; [done..|apply NoDup_nil_2|lia])) as Hs.
       pose proof (grid_stopped_kind _ _ _ Hs). by destruct e. }
  2,3: by apply Hloop; split_and!; [done..|apply NoDup_nil_2|lia].
  destruct Hloop as (ids & ops & -> & Hpre); [split_and!; [done..|apply NoDup_nil_2|lia]|].
  set (p := mkPatch _ _ _ _ _ _ _ _).
  assert (patch_validate p limits = Ok tt) as Hv.
  { apply patch_validate_iff; [done..|]. apply (grid_patch_admissible r grid limits ids p); [done|done|lia|lia|done..]. }
  rewrite Hv. cbn [map_err out_bind]. split_and!; [done| |done|].
  - by apply (grid_prefix_emitted r grid (mkArtifact p ids)).
  - by eapply (grid_prefix_typed r grid ids).
Qed.

End procedure_theorems.

(** A grid of two rows and three columns. *)
Definition sample_grid : CuboidGrid :=
  mkGrid 2 3 sample_vec3 f32_one f32_one sample_unit3
    (mkMaterial (mkColorRgba f32_one f32_one f32_one f32_one) 0 f32_one).
Definition sample_procedure : ProcedureRequest :=
  mkProcedureRequest 5 9 7 8 0 MustApply patch_budget_default procedure_limits_default (BuiltinGrid sample_grid).

Lemma sample_request_typed : typed_request sample_procedure sample_grid.
Proof.
  split; [done|by vm_compute..|]. split; [by apply f32_normal_form_check..|split; [|done]|split; [|done]];
    cbn; repeat apply Forall_cons_2; try apply Forall_nil_2; by apply f32_normal_form_check.
Qed.

#[local] Existing Instance sha256_instance.

(** Six cuboids. *)
Lemma execute_exact_witness :
  ∃ a, execute sample_procedure runtime_limits_default = Ok a ∧ grid_emitted sample_procedure sample_grid a ∧
    patch_validate (art_patch a) runtime_limits_default = Ok tt ∧ length (art_entity_ids a) = 6%nat.
Proof.
  pose proof (execute_exact sample_procedure runtime_limits_default sample_grid sample_request_typed
    ltac:(done) ltac:(done) ltac:(done) ltac:(done) ltac:(done)) as Hx.
  cbv zeta in Hx. destruct (execute sample_procedure runtime_limits_default) as [a| | |] eqn:He;
    [|apply (f_equal is_ok) in He; vm_compute in He; discriminate..].
  exists a. destruct Hx as (_ & Hg & Hv & _). split_and!; [done..|].
  destruct Hg as [Hl _]. change (cg_rows sample_grid * cg_columns sample_grid) with 6 in Hl. lia.
Defined.
