(* ===== verification/Query.v ===== *)
(** * Scene queries

    [cogniform-protocol/src/query.rs]: exact-revision queries, their results
    and the validation of both. *)

From S2P Require Import Prelude Machine BTree Floats Values Components Messages MessageSpec Ecs WorldTypes Hierarchy Render World SceneSpec CommitRefine PreflightRefine WorldInvariant WorldApply Extraction Imagination.

Open Scope N_scope.

Record SceneQuery := mkQuery {
  sq_schema_version : SchemaVersion;
  sq_scene_revision : SceneRevision;
  sq_entity_ids : list StableEntityId;
  sq_component_kinds : list ComponentKind;
  sq_limit : N;
}.

Record SceneEntityView := mkView {
  sev_entity_id : StableEntityId;
  sev_parent_id : option StableEntityId;
  sev_components : list ComponentValue;
}.

Record SceneQueryResult := mkQueryResult {
  sqr_schema_version : SchemaVersion;
  sqr_scene_revision : SceneRevision;
  sqr_entities : list SceneEntityView;
}.

(** [all_unique]; [seen] is the set of values already inserted. *)
Fixpoint all_unique {T} `{EqDecision T} (seen : list T) (values : list T) : bool :=
  match values with
  | [] => true
  | value :: values => if bool_decide (value ∈ seen) then false else all_unique (value :: seen) values
  end.

(** [SceneQuery::logical_size_bytes]. *)
Definition query_logical_size_bytes (q : SceneQuery) : N :=
  sat_add64 (sat_add64 (sat_add64 (sat_add64 (sat_add64 (sat_add64 2 8) 4)
    (count (length (sq_entity_ids q)) * 16)) 4) (count (length (sq_component_kinds q)))) 4.

(** [SceneQuery::validate]. *)
Definition query_validate (q : SceneQuery) (limits : RuntimeLimits) : outcome ValidationError unit :=
  do! validate_schema (sq_schema_version q) then
  do! guard_err ((max_query_entities limits <? sq_limit q)
                 || (sq_limit q <? count (length (sq_entity_ids q)))
                 || (max_query_entities limits <? count (length (sq_entity_ids q))))
    (mkValidationError QueryEntityLimitExceeded "query.entity_ids") then
  do! guard_err (negb (all_unique [] (sq_entity_ids q)) || negb (all_unique [] (sq_component_kinds q)))
    (mkValidationError DuplicateQueryFilter "query.filters") then
  guard_err (max_decoded_bytes limits <? query_logical_size_bytes q)
    (mkValidationError DecodedSizeLimitExceeded "query").

(** The component loop of [SceneQueryResult::validate]; the state is the
    previous kind, the text bytes and the component count. *)
Definition result_component_step (acc : option ComponentKind * N * N) (c : ComponentValue)
    : outcome ValidationError (option ComponentKind * N * N) :=
  let '(previous_kind, text_bytes, component_count) := acc in
  let kind := component_kind c in
  do! guard_err (match previous_kind with Some previous => kind_index kind <=? kind_index previous | None => false end)
    (mkValidationError NonCanonicalQueryResult "query_result.entities[].components") then
  do! component_validate c then
  Ok (Some kind, sat_add64 text_bytes (len_or_max u64_max (component_text_bytes c)), sat_add64 component_count 1).

(** The entity loop; the state is the previous identity, the text bytes and the
    component count. *)
Definition result_entity_step (limits : RuntimeLimits) (acc : option StableEntityId * N * N) (e : SceneEntityView)
    : outcome ValidationError (option StableEntityId * N * N) :=
  let '(previous_id, text_bytes, component_count) := acc in
  do! guard_err (match previous_id with Some previous => sev_entity_id e <=? previous | None => false end)
    (mkValidationError NonCanonicalQueryResult "query_result.entities") then
  do! guard_err (max_components_per_entity limits <? count (length (sev_components e)))
    (mkValidationError ComponentLimitExceeded "query_result.entities[].components") then
  let! (_, text_bytes, component_count) :=
    out_fold result_component_step (None, text_bytes, component_count) (sev_components e) in
  Ok (Some (sev_entity_id e), text_bytes, component_count).

(** [SceneQueryResult::logical_size_bytes]. *)
Definition query_result_logical_size_bytes (r : SceneQueryResult) : N :=
  foldl (λ total e,
    foldl (λ component_total c, sat_add64 component_total (component_logical_size_bytes c))
      (sat_add64 (sat_add64 (sat_add64 total 16) (1 + is_some_u64 (sev_parent_id e) * 16)) 4)
      (sev_components e)) (2 + 8 + 4) (sqr_entities r).

(** [SceneQueryResult::validate]. *)
Definition query_result_validate (r : SceneQueryResult) (limits : RuntimeLimits) : outcome ValidationError unit :=
  do! validate_schema (sqr_schema_version r) then
  do! guard_err (max_query_entities limits <? count (length (sqr_entities r)))
    (mkValidationError QueryEntityLimitExceeded "query_result.entities") then
  let! (_, text_bytes, component_count) := out_fold (result_entity_step limits) (None, 0, 0) (sqr_entities r) in
  do! guard_err (max_components limits <? component_count)
    (mkValidationError ComponentLimitExceeded "query_result.entities[].components") then
  do! guard_err (max_text_bytes limits <? text_bytes)
    (mkValidationError TextLimitExceeded "query_result.entities[].components") then
  guard_err (max_decoded_bytes limits <? query_result_logical_size_bytes r)
    (mkValidationError DecodedSizeLimitExceeded "query_result").

(** ** What a query selects *)

Definition selects_entity (q : SceneQuery) (id : StableEntityId) : bool :=
  bool_decide (sq_entity_ids q = []) || bool_decide (id ∈ sq_entity_ids q).

Definition selects_kind (q : SceneQuery) (c : ComponentValue) : bool :=
  bool_decide (sq_component_kinds q = []) || bool_decide (component_kind c ∈ sq_component_kinds q).

(** The selected part of a scene, by ascending identity and kind. *)
Definition query_view (sc : scene) (q : SceneQuery) : list SceneEntityView :=
  (λ entry, mkView entry.1 (sc_parents sc !! entry.1) (filter (λ c, selects_kind q c = true) (row_components entry.2)))
    <$> filter (λ entry, selects_entity q entry.1 = true) (btree_iter (sc_rows sc)).

Lemma query_validate_normal q limits : normal (query_validate q limits).
Proof.
  unfold query_validate. apply out_bind_normal; [unfold validate_schema; by destruct (_ =? _)|]. intros _ _.
  apply out_bind_normal; [apply guard_err_normal|]. intros _ _.
  apply out_bind_normal; [apply guard_err_normal|]. intros _ _. apply guard_err_normal.
Qed.

(** ** Validation of canonical results *)

(** Components in strict kind order that are themselves admissible. *)
Definition canonical_components (cs : list ComponentValue) : Prop :=
  StronglySorted N.lt ((λ c, kind_index (component_kind c)) <$> cs) ∧ Forall component_admissible cs.

(** The totals of a result, as the [u64] counters hold them: components, text
    bytes and logical size. *)
Definition views_components (l : list SceneEntityView) : N := sumN (λ e, N.of_nat (length (sev_components e))) l.
Definition views_text (l : list SceneEntityView) : N := sumN (λ e, sumN component_text (sev_components e)) l.
Definition view_size (e : SceneEntityView) : N :=
  16 + (1 + is_some_u64 (sev_parent_id e) * 16) + 4 + sumN component_size (sev_components e).
Definition views_size (l : list SceneEntityView) : N := 14 + sumN view_size l.

Lemma component_fold_totals previous t n cs :
  canonical_components cs →
  (∀ k c, previous = Some k → c ∈ cs → kind_index k < kind_index (component_kind c)) →
  ∃ last, out_fold result_component_step (previous, N.min u64_max t, N.min u64_max n) cs
    = Ok (last, N.min u64_max (t + sumN component_text cs), N.min u64_max (n + N.of_nat (length cs))).
Proof.
  intros [Hs Ha]. revert previous t n. induction cs as [|c cs IH]; intros previous t n Hp.
  { exists previous. cbn. by rewrite !N.add_0_r. }
  rewrite fmap_cons in Hs. apply StronglySorted_inv in Hs as [Hs Hlt]. apply Forall_cons in Ha as [Hc Ha].
  cbn [out_fold result_component_step].
  assert (match previous with Some p => kind_index (component_kind c) <=? kind_index p | None => false end = false) as ->.
  { destruct previous as [k|]; [|done]. apply N.leb_gt, Hp; [done|]. by apply elem_of_cons; left. }
  cbn [guard_err out_bind]. rewrite (proj2 (component_validate_ok c) Hc). cbn [out_bind].
  rewrite component_text_sat. unfold sat_add64, sat_add.
  replace (N.min u64_max (N.min u64_max t + N.min u64_max (component_text c))) with (N.min u64_max (t + component_text c)) by lia.
  replace (N.min u64_max (N.min u64_max n + 1)) with (N.min u64_max (n + 1)) by lia.
  destruct (IH Hs Ha (Some (component_kind c)) (t + component_text c) (n + 1)) as [last ->].
  { intros k d [= <-] Hd. rewrite Forall_forall in Hlt. apply Hlt. apply list_elem_of_fmap. by exists d. }
  exists last. cbn [sumN foldr length]. fold (sumN component_text cs). do 2 f_equal; [f_equal|]; f_equal; lia.
Qed.

(** Entities in strict identity order with canonical components. *)
Definition canonical_views (l : list SceneEntityView) : Prop :=
  StronglySorted N.lt (sev_entity_id <$> l) ∧ Forall (λ e, canonical_components (sev_components e)) l.

(** Which limit a result exceeds, in the order they are examined: an entity with
    too many components or too many in all, then the text, then the size. *)
Definition components_fit (limits : RuntimeLimits) (l : list SceneEntityView) : Prop :=
  Forall (λ e, count (length (sev_components e)) ≤ max_components_per_entity limits) l ∧
  N.min u64_max (views_components l) ≤ max_components limits.
Definition text_fits (limits : RuntimeLimits) (l : list SceneEntityView) : Prop :=
  N.min u64_max (views_text l) ≤ max_text_bytes limits.
Definition size_fits (limits : RuntimeLimits) (l : list SceneEntityView) : Prop :=
  N.min u64_max (views_size l) ≤ max_decoded_bytes limits.

Inductive views_exceed (limits : RuntimeLimits) (l : list SceneEntityView) : ValidationError → Prop :=
| ve_components : ¬ components_fit limits l →
    views_exceed limits l (mkValidationError ComponentLimitExceeded "query_result.entities[].components")
| ve_text : components_fit limits l → ¬ text_fits limits l →
    views_exceed limits l (mkValidationError TextLimitExceeded "query_result.entities[].components")
| ve_size : components_fit limits l → text_fits limits l → ¬ size_fits limits l →
    views_exceed limits l (mkValidationError DecodedSizeLimitExceeded "query_result").

Lemma entity_fold_totals limits previous t n l :
  canonical_views l → (∀ k e, previous = Some k → e ∈ l → k < sev_entity_id e) →
  match out_fold (result_entity_step limits) (previous, N.min u64_max t, N.min u64_max n) l with
  | Ok (_, t', n') => Forall (λ e, count (length (sev_components e)) ≤ max_components_per_entity limits) l ∧
      t' = N.min u64_max (t + views_text l) ∧ n' = N.min u64_max (n + views_components l)
  | Err e => e = mkValidationError ComponentLimitExceeded "query_result.entities[].components" ∧
      ¬ Forall (λ e, count (length (sev_components e)) ≤ max_components_per_entity limits) l
  | Panic | OutOfFuel => False
  end.
Proof.
  intros [Hs Ha]. revert previous t n. induction l as [|e l IH]; intros previous t n Hp.
  { cbn. by rewrite !N.add_0_r. }
  rewrite fmap_cons in Hs. apply StronglySorted_inv in Hs as [Hs Hlt]. apply Forall_cons in Ha as [Hc Ha].
  cbn [out_fold result_entity_step].
  assert (match previous with Some p => sev_entity_id e <=? p | None => false end = false) as ->.
  { destruct previous as [k|]; [|done]. apply N.leb_gt, Hp; [done|]. by apply elem_of_cons; left. }
  cbn [guard_err out_bind]. destruct (N.ltb_spec (max_components_per_entity limits) (count (length (sev_components e)))) as [Hm|Hm];
    cbn [guard_err out_bind]; [split; [done|]; intros [? _]%Forall_cons_1; lia|].
  destruct (component_fold_totals None t n (sev_components e) Hc ltac:(done)) as [last ->]. cbn [out_bind].
  specialize (IH Hs Ha (Some (sev_entity_id e)) (t + sumN component_text (sev_components e)) (n + N.of_nat (length (sev_components e)))).
  assert (∀ x d, Some (sev_entity_id e) = Some x → d ∈ l → x < sev_entity_id d) as Hnext.
  { intros x d [= <-] Hd. rewrite Forall_forall in Hlt. apply Hlt. apply list_elem_of_fmap. by exists d. }
  specialize (IH Hnext). destruct (out_fold (result_entity_step limits) _ l) as [[[k t'] n']|x| |]; [| |done..].
  - destruct IH as (Hall & -> & ->). split_and!; [by constructor|f_equal; unfold views_text, views_components; cbn [sumN foldr]; unfold sumN; lia..].
  - destruct IH as [-> Hn]. split; [done|]. by intros [_ ?]%Forall_cons_1.
Qed.

Lemma view_size_step total e :
  foldl (λ component_total c, sat_add64 component_total (component_logical_size_bytes c))
    (sat_add64 (sat_add64 (sat_add64 (N.min u64_max total) 16) (1 + is_some_u64 (sev_parent_id e) * 16)) 4) (sev_components e)
  = N.min u64_max (total + view_size e).
Proof.
  replace (sat_add64 (sat_add64 (sat_add64 (N.min u64_max total) 16) (1 + is_some_u64 (sev_parent_id e) * 16)) 4)
    with (N.min u64_max (total + 16 + (1 + is_some_u64 (sev_parent_id e) * 16) + 4)) by (unfold sat_add64, sat_add; lia).
  unfold sat_add64. rewrite (sat_fold_sum u64_max component_logical_size_bytes component_size) by apply component_size_sat.
  unfold view_size. f_equal. lia.
Qed.

Lemma query_result_size_sat revision l :
  query_result_logical_size_bytes (mkQueryResult schema_v1 revision l) = N.min u64_max (views_size l).
Proof.
  unfold query_result_logical_size_bytes, views_size. cbn [sqr_entities]. change (2 + 8 + 4) with (N.min u64_max 14).
  generalize 14. induction l as [|e l IH]; intros total; cbn [foldl sumN foldr]; [by rewrite N.add_0_r|].
  rewrite view_size_step, IH. f_equal. unfold sumN. lia.
Qed.

(** A canonical result is accepted exactly when it fits, and otherwise the
    error names the first limit it exceeds. *)
Lemma canonical_result_exact revision l limits :
  canonical_views l → count (length l) ≤ max_query_entities limits →
  match query_result_validate (mkQueryResult schema_v1 revision l) limits with
  | Ok _ => components_fit limits l ∧ text_fits limits l ∧ size_fits limits l
  | Err e => views_exceed limits l e
  | Panic | OutOfFuel => False
  end.
Proof.
  intros Hl Hn. unfold query_result_validate. rewrite query_result_size_sat. cbn [sqr_schema_version sqr_entities].
  change (validate_schema schema_v1) with (@Ok ValidationError unit tt). cbn [out_bind].
  rewrite (proj2 (N.ltb_ge _ _) Hn). cbn [guard_err out_bind].
  pose proof (entity_fold_totals limits None 0 0 l Hl ltac:(done)) as Hf. change (N.min u64_max 0) with 0 in Hf.
  destruct (out_fold (result_entity_step limits) (None, 0, 0) l) as [[[k t] n]|e| |]; cbn [out_bind]; [| |done..].
  2: { destruct Hf as [-> Hf]. apply ve_components. by intros [? _]. }
  rewrite !N.add_0_l in Hf. destruct Hf as (Hall & -> & ->).
  destruct (N.ltb_spec (max_components limits) (N.min u64_max (views_components l))) as [Hc|Hc]; cbn [guard_err out_bind].
  { apply ve_components. intros [_ ?]. lia. }
  destruct (N.ltb_spec (max_text_bytes limits) (N.min u64_max (views_text l))) as [Ht|Ht]; cbn [guard_err out_bind].
  { apply ve_text; [done|]. unfold text_fits. lia. }
  destruct (N.ltb_spec (max_decoded_bytes limits) (N.min u64_max (views_size l))) as [Hz|Hz]; cbn [guard_err out_bind]; [|done].
  apply ve_size; [done..|]. unfold size_fits. lia.
Qed.

(** ** Views are canonical *)

(** Every component of the scene passes its own validation. *)
Definition admissible_scene (sc : scene) : Prop :=
  ∀ id r k c, sc_rows sc !! id = Some r → row_get r k = Some c → component_admissible c.

Lemma sorted_filter {A} (f : A → N) (P : A → Prop) `{∀ x, Decision (P x)} (l : list A) :
  StronglySorted N.lt (f <$> l) → StronglySorted N.lt (f <$> filter P l).
Proof.
  induction l as [|x l IH]; [done|]. rewrite fmap_cons. intros [Hs Hx]%StronglySorted_inv.
  rewrite filter_cons. case_decide; [|by apply IH]. rewrite fmap_cons. constructor; [by apply IH|].
  rewrite Forall_forall in Hx |- *. intros y (z & -> & [_ Hz]%list_elem_of_filter)%list_elem_of_fmap.
  apply Hx. by apply list_elem_of_fmap_2.
Qed.

Lemma row_components_sorted r : StronglySorted N.lt ((λ c, kind_index (component_kind c)) <$> row_components r).
Proof.
  unfold row_components.
  assert (StronglySorted N.lt (kind_index <$> all_kinds)) as Hs.
  { unfold all_kinds. cbn. repeat constructor. }
  revert Hs. induction all_kinds as [|k l IH]; [done|]. rewrite fmap_cons. intros [Hs Hk]%StronglySorted_inv.
  cbn [omap list_omap]. destruct (row_get r k) as [c|] eqn:Hc; [|by apply IH]. rewrite fmap_cons. constructor; [by apply IH|].
  rewrite Forall_forall in Hk |- *. intros y (d & -> & (k' & Hk' & Hd)%list_elem_of_omap)%list_elem_of_fmap.
  rewrite (row_get_kind _ _ _ Hc), (row_get_kind _ _ _ Hd). apply Hk. by apply list_elem_of_fmap_2.
Qed.

Lemma query_view_canonical sc q : admissible_scene sc → canonical_views (query_view sc q).
Proof.
  intros Ha. unfold query_view. split.
  - rewrite <-list_fmap_compose. apply (sorted_filter fst). rewrite btree_iter_keys. apply btree_keys_sorted.
  - apply Forall_fmap, Forall_forall. intros [id r] [_ Hr%elem_of_btree_iter]%list_elem_of_filter.
    cbn [sev_components fst snd]. split.
    + apply sorted_filter, row_components_sorted.
    + apply Forall_forall. intros c [_ (k & _ & Hc)%list_elem_of_omap]%list_elem_of_filter. by eapply Ha.
Qed.

(** A view shows an entity exactly when it is selected, with its parent and the
    selected components. *)
Lemma query_view_spec sc q id parent cs :
  mkView id parent cs ∈ query_view sc q ↔
  ∃ r, sc_rows sc !! id = Some r ∧ selects_entity q id = true ∧ parent = sc_parents sc !! id ∧
    cs = filter (λ c, selects_kind q c = true) (row_components r).
Proof.
  unfold query_view. rewrite list_elem_of_fmap. split.
  - intros ([id' r] & Heq & [Hs Hr%elem_of_btree_iter]%list_elem_of_filter). cbn in *. simplify_eq. eauto.
  - intros (r & Hr & Hs & -> & ->). exists (id, r). split; [done|]. apply list_elem_of_filter. split; [done|].
    by apply elem_of_btree_iter.
Qed.

Lemma all_unique_spec {T} `{EqDecision T} seen (l : list T) :
  all_unique seen l = true ↔ NoDup l ∧ ∀ x, x ∈ l → x ∉ seen.
Proof.
  revert seen. induction l as [|x l IH]; intros seen; cbn [all_unique].
  - split; [intros _; split; [constructor|]; intros x Hx; by apply not_elem_of_nil in Hx|done].
  - case_bool_decide as Hin.
    + split; [done|]. intros [_ Hx]. exfalso. apply (Hx x); [by apply elem_of_cons; left|done].
    + rewrite IH, NoDup_cons. split.
      * intros [Hnd Hx]. split_and!; [|done|].
        -- intros Hxl. apply (Hx x Hxl). by apply elem_of_cons; left.
        -- intros y [->|Hy]%elem_of_cons; [done|]. intros Hys. apply (Hx y Hy). by apply elem_of_cons; right.
      * intros [[Hxl Hnd] Hx]. split; [done|]. intros y Hy [->|Hys]%elem_of_cons; [done|].
        apply (Hx y); [by apply elem_of_cons; right|done].
Qed.

(** ** Recorded scenes are admissible *)

Lemma admissible_row_insert r c :
  (∀ k d, row_get r k = Some d → component_admissible d) → component_admissible c →
  ∀ k d, row_get (row_insert r c) k = Some d → component_admissible d.
Proof. intros Hr Hc k d. rewrite row_get_insert. case_decide; [by intros [= <-]|by apply Hr]. Qed.

Lemma admissible_create_row c :
  Forall component_admissible (create_components c) →
  ∀ k d, row_get (create_row c) k = Some d → component_admissible d.
Proof.
  unfold create_row. intros Hc.
  assert (∀ k d, row_get (row_add_marker row_empty (create_id c)) k = Some d → component_admissible d) as Hr
    by (intros k d; by destruct k).
  revert Hr. generalize (row_add_marker row_empty (create_id c)).
  induction Hc as [|x l Hx _ IH]; intros r Hr; [done|]. apply IH. by apply admissible_row_insert.
Qed.

(** The components an operation carries. *)
Definition operation_components_ok (op : SceneOperation) : Prop :=
  match op with
  | OpCreate c => Forall component_admissible (create_components c)
  | OpSetComponent s => component_admissible (set_value s)
  | _ => True
  end.

Lemma operation_validate_components op : operation_validate op = Ok tt → operation_components_ok op.
Proof.
  destruct op as [c| |s| |]; cbn [operation_validate operation_components_ok]; try done; [|by rewrite component_validate_ok].
  generalize (@nil ComponentKind). induction (create_components c) as [|x l IH]; intros kinds Hv; [constructor|].
  cbn [validate_create_components] in Hv. apply out_bind_ok in Hv as ([] & Hx%component_validate_ok & Hv).
  case_bool_decide; [done|]. constructor; [done|]. by eapply IH.
Qed.

Lemma spec_operation_admissible capacity sc index op sc' :
  admissible_scene sc → operation_components_ok op → spec_operation capacity sc index op = Ok sc' → admissible_scene sc'.
Proof.
  intros Hsc Hop Hs. destruct op as [c|d|s|rm|rp]; cbn [spec_operation operation_components_ok] in *;
    repeat case_match; inv_ok; simplify_eq; intros id row k v Hr Hv; cbn [sc_rows] in Hr.
  all: first
    [ by eapply Hsc
    | apply lookup_insert_Some in Hr as [[<- <-]|[_ Hr]]; [|by eapply Hsc]
    | apply lookup_delete_Some in Hr as [_ Hr]; by eapply Hsc ].
  - by eapply admissible_create_row.
  - eapply admissible_row_insert; [|done|done]. intros k' d' Hd. by eapply Hsc.
  - rewrite row_get_remove in Hv. case_decide; [done|]. by eapply Hsc.
Qed.

Lemma spec_operations_admissible capacity sc index ops sc' :
  admissible_scene sc → Forall operation_components_ok ops → spec_operations capacity sc index ops = Ok sc' →
  admissible_scene sc'.
Proof.
  intros Hsc Hops. revert sc index Hsc. induction Hops as [|op ops Hop _ IH]; intros sc index Hsc Hs.
  - by apply Ok_inj in Hs as <-.
  - cbn [spec_operations] in Hs. apply out_bind_ok in Hs as (sc1 & H1 & H2). eapply IH; [|done].
    by eapply spec_operation_admissible.
Qed.
