(* ===== verification/Gateway.v ===== *)
(** * The local gateway

    [cogniform-engine/src/gateway.rs]: bounded admission of patches and
    imaginations, deterministic processing in queue order, idempotent replay of
    completed commands and read-only queries.  Operations that change state even
    when they fail return the new state beside their outcome; an engine that
    refuses a patch is left as it was ([engine_apply_sim]).  [Instant]s are
    readings of a monotonic clock in nanoseconds. *)

From S2P Require Import Prelude Machine Ordering BTree Floats Values Components Messages MessageSpec Imagination ImaginationSpec Codec Compilation Ecs WorldTypes Hierarchy Render World SceneSpec CommitRefine WorldInvariant Extraction Hash Compiler Replay RenderScene Recovery Engine Query.

Open Scope N_scope.

Definition COMMAND_FINGERPRINT_DOMAIN : bytes := bytes_of_string "cogniform.gateway.command.v1" ++ [x00].

Record GatewayConfig := mkGatewayConfig {
  gc_command_capacity : N;
  gc_idempotency_capacity : N;
}.

Definition gateway_config_default : GatewayConfig := mkGatewayConfig 64 1024.

Inductive GatewayCommand : Type :=
| GPatch (patch : ScenePatch)
| GImagination (imagination : ImaginationEnvelope).

Inductive GatewayResponse : Type :=
| PatchApplied (receipt : ApplyReceipt)
| ImaginationProcessed (compilation : CompilationResult) (receipt : option ApplyReceipt).

Inductive GatewayAdmission : Type :=
| Queued (idempotency_key : IdempotencyKey)
| AlreadyQueued (idempotency_key : IdempotencyKey)
| Superseded (idempotency_key superseded_idempotency_key : IdempotencyKey)
| Dropped (idempotency_key : IdempotencyKey)
| Replayed (response : GatewayResponse).

Inductive GatewayError : Type :=
| GwInvalidConfig (reason : string)
| GwInvalidCommand (error : ValidationError)
| GwInvalidCommandEncoding (error : CodecError)
| GwCommandCapacityExceeded (capacity : N)
| GwIdempotencyCapacityExceeded
| GwIdempotencyConflict (idempotency_key : IdempotencyKey)
| GwCompiler (error : CompileError)
| GwEngine (error : EngineError)
| GwWorldView (error : WorldInvariantError)
| GwQueryRevisionMismatch (requested actual : SceneRevision)
| GwQueryResultCapacityExceeded (actual limit : N)
| GwInvalidQueryResult (error : ValidationError).

(** ** Commands *)

#[export] Instance imagination_Validate : Validate ImaginationEnvelope :=
  {| validate := imagination_validate; validate_normal := imagination_validate_normal |}.

(** [GatewayCommand::idempotency_key]. *)
Definition command_key (c : GatewayCommand) : IdempotencyKey :=
  match c with GPatch p => patch_idempotency_key p | GImagination i => im_idempotency_key i end.

(** [GatewayCommand::delivery]. *)
Definition command_delivery (c : GatewayCommand) : DeliverySemantic :=
  match c with GPatch p => patch_delivery p | GImagination i => im_delivery i end.

(** [GatewayCommand::supersession_key]. *)
Definition command_supersession_key (c : GatewayCommand) : option SceneText :=
  match command_delivery c with LatestWins key => Some key | MustApply | BestEffort => None end.

(** [GatewayResponse::as_replayed]. *)
Definition as_replayed (r : GatewayResponse) : GatewayResponse :=
  match r with
  | PatchApplied receipt => PatchApplied (replayed receipt)
  | ImaginationProcessed compilation (Some receipt) => ImaginationProcessed compilation (Some (replayed receipt))
  | ImaginationProcessed compilation None => ImaginationProcessed compilation None
  end.

Record CommandRecord := mkCommand {
  cm_command : GatewayCommand;
  cm_fingerprint : bytes;
  cm_queued_at : N;
}.

Record CompletedRecord := mkCompleted {
  cd_fingerprint : bytes;
  cd_response : GatewayResponse;
}.

Abbreviation record_key r := (command_key (cm_command r)).
Abbreviation record_supersession_key r := (command_supersession_key (cm_command r)).

(** ** The queue *)

Record CommandQueue := mkCommandQueue {
  cq_capacity : N;
  cq_entries : list CommandRecord;
  cq_admitted : N;
  cq_superseded : N;
  cq_dropped : N;
  cq_rejected : N;
}.

(** [CommandQueue::new]. *)
Definition queue_new (capacity : N) : CommandQueue := mkCommandQueue capacity [] 0 0 0 0.

(** [CommandQueue::depth]. *)
Definition queue_depth (q : CommandQueue) : N := count (length (cq_entries q)).

(** [Iterator::position] of the entry with a supersession key. *)
Fixpoint supersession_position (key : SceneText) (entries : list CommandRecord) : option nat :=
  match entries with
  | [] => None
  | e :: entries =>
      if bool_decide (record_supersession_key e = Some key) then Some 0%nat
      else S <$> supersession_position key entries
  end.

(** [CommandQueue::admit]. *)
Definition queue_admit (q : CommandQueue) (record : CommandRecord) (has_idempotency_capacity : bool)
    : CommandQueue * outcome GatewayError GatewayAdmission :=
  let key := record_key record in
  match find (λ existing, record_key existing =? key) (cq_entries q) with
  | Some existing =>
      (q, if bool_decide (cm_fingerprint existing = cm_fingerprint record)
          then Ok (AlreadyQueued key) else Err (GwIdempotencyConflict key))
  | None =>
      match (k ← record_supersession_key record; supersession_position k (cq_entries q)) with
      | Some position =>
          match cq_entries q !! position with
          | Some superseded =>
              (mkCommandQueue (cq_capacity q) (<[position := record]> (cq_entries q)) (cq_admitted q)
                 (sat_add64 (cq_superseded q) 1) (cq_dropped q) (cq_rejected q),
               Ok (Superseded key (record_key superseded)))
          | None => (q, Panic)
          end
      | None =>
          let under_pressure := (cq_capacity q <=? queue_depth q) || negb has_idempotency_capacity in
          if under_pressure && bool_decide (command_delivery (cm_command record) = BestEffort) then
            (mkCommandQueue (cq_capacity q) (cq_entries q) (cq_admitted q) (cq_superseded q)
               (sat_add64 (cq_dropped q) 1) (cq_rejected q), Ok (Dropped key))
          else if cq_capacity q <=? queue_depth q then
            (mkCommandQueue (cq_capacity q) (cq_entries q) (cq_admitted q) (cq_superseded q) (cq_dropped q)
               (sat_add64 (cq_rejected q) 1), Err (GwCommandCapacityExceeded (cq_capacity q)))
          else if negb has_idempotency_capacity then
            (mkCommandQueue (cq_capacity q) (cq_entries q) (cq_admitted q) (cq_superseded q) (cq_dropped q)
               (sat_add64 (cq_rejected q) 1), Err GwIdempotencyCapacityExceeded)
          else
            (mkCommandQueue (cq_capacity q) (cq_entries q ++ [record]) (sat_add64 (cq_admitted q) 1)
               (cq_superseded q) (cq_dropped q) (cq_rejected q), Ok (Queued key))
      end
  end.

(** [CommandQueue::pop_front]. *)
Definition queue_pop_front (q : CommandQueue) : option (CommandRecord * CommandQueue) :=
  match cq_entries q with
  | [] => None
  | e :: entries =>
      Some (e, mkCommandQueue (cq_capacity q) entries (cq_admitted q) (cq_superseded q) (cq_dropped q) (cq_rejected q))
  end.

Record GatewayQueueStats := mkQueueStats {
  gqs_depth : N;
  gqs_oldest_pending_age_micros : option N;
  gqs_admitted : N;
  gqs_superseded : N;
  gqs_dropped : N;
  gqs_rejected : N;
}.

(** [elapsed_micros] and [duration_micros]. *)
Definition elapsed_micros (sampled_at started_at : N) : N := N.min u64_max ((sampled_at - started_at) / 1000).

(** [Iterator::min]. *)
Definition iter_min (l : list N) : option N :=
  match l with [] => None | x :: l => Some (foldl N.min x l) end.

(** [CommandQueue::stats_at]. *)
Definition queue_stats_at (q : CommandQueue) (sampled_at : N) : GatewayQueueStats := {|
  gqs_depth := queue_depth q;
  gqs_oldest_pending_age_micros := elapsed_micros sampled_at <$> iter_min (cm_queued_at <$> cq_entries q);
  gqs_admitted := cq_admitted q;
  gqs_superseded := cq_superseded q;
  gqs_dropped := cq_dropped q;
  gqs_rejected := cq_rejected q;
|}.

(** ** Limits *)

(** [validate_config]. *)
Definition gateway_validate_config (c : GatewayConfig) (limits : RuntimeLimits) (available_world_records : N)
    : outcome GatewayError unit :=
  do! guard_err (max_queue_capacity limits <? gc_command_capacity c)
    (GwInvalidConfig "gateway command capacity exceeds the active protocol queue limit"%string) then
  do! guard_err (gc_idempotency_capacity c <? gc_command_capacity c)
    (GwInvalidConfig "gateway idempotency capacity must cover command capacity"%string) then
  guard_err (available_world_records <? gc_idempotency_capacity c)
    (GwInvalidConfig "gateway idempotency capacity exceeds available world result retention"%string).

(** ** Queries *)

(** [execute_query]; the selected identities and kinds are sets that are only
    tested for emptiness and membership ([selects_entity], [selects_kind]). *)
Definition execute_query (snapshot : WorldSnapshot) (q : SceneQuery) (limits : RuntimeLimits)
    : outcome GatewayError SceneQueryResult :=
  do! guard_err (negb (sq_scene_revision q =? ws_revision snapshot))
    (GwQueryRevisionMismatch (sq_scene_revision q) (ws_revision snapshot)) then
  let selected := filter (λ e, selects_entity q (snap_entity_id e) = true) (ws_entities snapshot) in
  let matches := length selected in
  do! guard_err (sq_limit q <? count matches) (GwQueryResultCapacityExceeded (count matches) (sq_limit q)) then
  let entities :=
    (λ e, mkView (snap_entity_id e) (snap_parent_id e) (filter (λ c, selects_kind q c = true) (snap_components e)))
      <$> selected in
  let result := mkQueryResult schema_v1 (ws_revision snapshot) entities in
  do! map_err GwInvalidQueryResult (query_result_validate result limits) then
  Ok result.

(** ** The gateway *)

Section gateway.
Context `{Digest} `{ResultJson} `{!JsonCodec ScenePatch} `{!JsonCodec ImaginationEnvelope}.
Context {W E : Type} `{EqDecision E} `{!EntityStore W E}.

(** [GatewayCommand::fingerprint]. *)
Definition command_fingerprint (c : GatewayCommand) (limits : RuntimeLimits) : outcome GatewayError bytes :=
  let! (kind, encoded) := map_err GwInvalidCommandEncoding
    match c with
    | GPatch p => let! b := encode p limits in Ok (x00, b)
    | GImagination i => let! b := encode i limits in Ok (x01, b)
    end in
  Ok (sha256 (COMMAND_FINGERPRINT_DOMAIN ++ [kind] ++ encoded)).

(** [CommandRecord::new], at a clock reading. *)
Definition command_record_new (c : GatewayCommand) (limits : RuntimeLimits) (now : N)
    : outcome GatewayError CommandRecord :=
  let! fingerprint := command_fingerprint c limits in
  Ok (mkCommand c fingerprint now).

Record LocalGateway := mkGateway {
  gw_engine : CogniformEngine W E;
  gw_compiler : CompilerConfig;
  gw_queue : CommandQueue;
  gw_completed : gmap N CompletedRecord;
  gw_idempotency_capacity : N;
  gw_limits : RuntimeLimits;
}.

(** [LocalGateway::new]. *)
Definition gateway_new (e : CogniformEngine W E) (c : GatewayConfig) : outcome GatewayError LocalGateway :=
  let world := rw_world (eng_world e) in
  let limits := runtime_limits (config world) in
  let available_world_records := max_idempotency_records (config world) - idempotency_record_count e in
  do! gateway_validate_config c limits available_world_records then
  Ok (mkGateway e (compiler_config_new limits) (queue_new (gc_command_capacity c)) ∅ (gc_idempotency_capacity c) limits).

(** [LocalGateway::configure_compilation_limits]. *)
Definition configure_compilation_limits (g : LocalGateway) (cl : CompilationLimits) : outcome GatewayError LocalGateway :=
  do! guard_err (negb (queue_depth (gw_queue g) =? 0))
    (GwInvalidConfig "compilation limits require an empty command queue"%string) then
  do! guard_err (negb (compilation_limits_fit cl (for_runtime_limits (gw_limits g))))
    (GwInvalidConfig "compilation limits exceed gateway runtime policy"%string) then
  let config := compiler_config_new (gw_limits g) in
  Ok (mkGateway (gw_engine g) (mkCompilerConfig (cc_runtime_limits config) cl (cc_max_entity_id_attempts config))
        (gw_queue g) (gw_completed g) (gw_idempotency_capacity g) (gw_limits g)).

(** [LocalGateway::admit]. *)
Definition gateway_admit (g : LocalGateway) (record : CommandRecord)
    : LocalGateway * outcome GatewayError GatewayAdmission :=
  let key := record_key record in
  match gw_completed g !! key with
  | Some recorded =>
      (g, if negb (bool_decide (cd_fingerprint recorded = cm_fingerprint record))
          then Err (GwIdempotencyConflict key) else Ok (Replayed (as_replayed (cd_response recorded))))
  | None =>
      let has_idempotency_capacity :=
        count (size (gw_completed g)) + queue_depth (gw_queue g) <? gw_idempotency_capacity g in
      let '(queue, result) := queue_admit (gw_queue g) record has_idempotency_capacity in
      (mkGateway (gw_engine g) (gw_compiler g) queue (gw_completed g) (gw_idempotency_capacity g) (gw_limits g), result)
  end.

(** [LocalGateway::submit_patch] and [submit_imagination]: validation, then the
    record, then admission. *)
Definition submit (g : LocalGateway) (c : GatewayCommand) (now : N)
    : LocalGateway * outcome GatewayError GatewayAdmission :=
  match
    (do! map_err GwInvalidCommand
       match c with
       | GPatch p => patch_validate p (gw_limits g)
       | GImagination i => imagination_validate i (gw_limits g)
       end then
     command_record_new c (gw_limits g) now)
  with
  | Ok record => gateway_admit g record
  | Err error => (g, Err error)
  | Panic => (g, Panic)
  | OutOfFuel => (g, OutOfFuel)
  end.

(** The command of a record on the engine: the engine it leaves and the
    response. *)
Definition run_command (compiler : CompilerConfig) (e : CogniformEngine W E) (c : GatewayCommand) (clock : N * N)
    : CogniformEngine W E * outcome GatewayError GatewayResponse :=
  match c with
  | GPatch p =>
      (mut! receipt := mut_err GwEngine (λ e, engine_apply_patch e p clock) in
       mut_ret (PatchApplied receipt)) e
  | GImagination i =>
      (mut! snapshot := mut_read (λ e, map_err GwWorldView (snapshot (rw_world (eng_world e)))) in
       let scene := mkSceneView (ws_revision snapshot) (list_to_set (snap_entity_id <$> ws_entities snapshot)) in
       mut! compilation := mut_read (λ _, map_err GwCompiler (compile compiler i scene)) in
       match cr_patch compilation with
       | Some p =>
           mut! receipt := mut_err GwEngine (λ e, engine_apply_patch e p clock) in
           mut_ret (ImaginationProcessed compilation (Some receipt))
       | None => mut_ret (ImaginationProcessed compilation None)
       end) e
  end.

(** [LocalGateway::process_next]. *)
Definition process_next (g : LocalGateway) (clock : N * N)
    : LocalGateway * outcome GatewayError (option GatewayResponse) :=
  match queue_pop_front (gw_queue g) with
  | None => (g, Ok None)
  | Some (record, queue) =>
      let '(e, result) := run_command (gw_compiler g) (gw_engine g) (cm_command record) clock in
      let ran := mkGateway e (gw_compiler g) queue (gw_completed g) (gw_idempotency_capacity g) (gw_limits g) in
      match result with
      | Ok response =>
          if count (size (gw_completed g)) + queue_depth queue <? gw_idempotency_capacity g then
            (mkGateway e (gw_compiler g) queue
               (<[record_key record := mkCompleted (cm_fingerprint record) response]> (gw_completed g))
               (gw_idempotency_capacity g) (gw_limits g), Ok (Some response))
          else (ran, Panic)
      | Err error => (ran, Err error)
      | Panic => (ran, Panic)
      | OutOfFuel => (ran, OutOfFuel)
      end
  end.

(** [LocalGateway::query]. *)
Definition gateway_query (g : LocalGateway) (q : SceneQuery) : outcome GatewayError SceneQueryResult :=
  do! map_err GwInvalidCommand (query_validate q (gw_limits g)) then
  let! snapshot := map_err GwWorldView (snapshot (rw_world (eng_world (gw_engine g)))) in
  execute_query snapshot q (gw_limits g).

End gateway.

Arguments LocalGateway : clear implicits.
