(* ===== verification/GatewayInvariant.v ===== *)
(** * Invariants of the gateway

    [gateway_ok]: the queue and the completed results stay within their
    bounds, no idempotency key is held twice, at most one queued command has a
    given supersession key, and the world keeps room for the result of every
    command the gateway may still complete.  Admission and processing preserve
    it on every path. *)

From S2P Require Import Prelude Machine Ordering BTree Floats Values Components Messages MessageSpec Imagination ImaginationSpec Codec Compilation Ecs WorldTypes Hierarchy Render World SceneSpec CommitRefine PreflightRefine WorldInvariant WorldApply Extraction Hash Compiler CompilerReport CompilerOutcome CompilerApply Replay ReplayCodec ReplayLogs Recorded RecordedReplay RenderScene Recovery Engine EngineSync Query Gateway.

Open Scope N_scope.

(** What the protocol types guarantee of a command. *)
Definition typed_command (c : GatewayCommand) : Prop :=
  match c with GPatch p => typed_patch p | GImagination i => Forall typed_imagined (im_entities i) end.

(** A typed record per key and per supersession key. *)
Record queue_ok (q : CommandQueue) : Prop := {
  qo_depth : N.of_nat (length (cq_entries q)) ≤ cq_capacity q;
  qo_capacity : cq_capacity q ≤ u32_max;
  qo_keys : NoDup ((λ r, record_key r) <$> cq_entries q);
  qo_supersession : NoDup (omap (λ r, record_supersession_key r) (cq_entries q));
  qo_typed : Forall (λ r, typed_command (cm_command r)) (cq_entries q);
}.

Lemma queue_depth_exact q : queue_ok q → queue_depth q = N.of_nat (length (cq_entries q)).
Proof.
  intros Hq. unfold queue_depth, count. rewrite len_or_max_min. pose proof (qo_depth _ Hq). pose proof (qo_capacity _ Hq). lia.
Qed.

Lemma find_key_None key (l : list CommandRecord) :
  find (λ r, record_key r =? key) l = None ↔ key ∉ (λ r, record_key r) <$> l.
Proof.
  induction l as [|r l IH]; cbn [find]; [split; [intros _; apply not_elem_of_nil|done]|].
  rewrite fmap_cons, not_elem_of_cons. destruct (N.eqb_spec (record_key r) key) as [->|Hne]; [split; [done|by intros [? _]]|].
  rewrite IH. split; [intros Hn; split; [by intros ->|done]|by intros [_ ?]].
Qed.

Lemma supersession_position_Some key l i :
  supersession_position key l = Some i → ∃ r, l !! i = Some r ∧ record_supersession_key r = Some key.
Proof.
  revert i. induction l as [|r l IH]; intros i; cbn [supersession_position]; [done|].
  case_bool_decide as Hr; [intros [= <-]; eauto|]. intros (j & Hj & ->)%fmap_Some. by apply IH.
Qed.

Lemma supersession_position_None key l :
  supersession_position key l = None ↔ key ∉ omap (λ r, record_supersession_key r) l.
Proof.
  induction l as [|r l IH]; cbn [supersession_position omap list_omap]; [split; [intros _; apply not_elem_of_nil|done]|].
  case_bool_decide as Hr.
  - rewrite Hr. split; [done|]. intros Hn. exfalso. apply Hn. by apply elem_of_cons; left.
  - rewrite fmap_None, IH. destruct (record_supersession_key r) as [k|]; [|done]. rewrite not_elem_of_cons. split; [intros Hn; split; [congruence|done]|by intros [_ ?]].
Qed.

(** Replacing one element keeps a list of optional tags free of duplicates when
    the tag stays the same. *)
Lemma omap_insert_same {A B} (f : A → option B) (l : list A) i x y :
  l !! i = Some x → f x = f y → omap f (<[i := y]> l) = omap f l.
Proof.
  revert i. induction l as [|a l IH]; intros [|i] Hi Hf; try done; cbn [list_insert insert omap list_omap] in *.
  - injection Hi as ->. by rewrite <-Hf.
  - cbn. by rewrite IH.
Qed.

Lemma NoDup_fmap_insert {A B} (f : A → B) (l : list A) i y :
  NoDup (f <$> l) → f y ∉ f <$> l → NoDup (f <$> <[i := y]> l).
Proof.
  revert i. induction l as [|a l IH]; intros i Hnd Hy; [done|]. rewrite fmap_cons in Hnd, Hy.
  apply NoDup_cons in Hnd as [Ha Hnd]. apply not_elem_of_cons in Hy as [Hne Hy].
  destruct i as [|i]; cbn [insert list_insert]; rewrite fmap_cons; apply NoDup_cons.
  - done.
  - split; [|by apply IH]. intros (x & Hx & Hin)%list_elem_of_fmap.
    apply list_elem_of_lookup in Hin as [j Hj]. apply list_lookup_insert_Some in Hj as [(_ & -> & _)|[_ Hj]]; [done|].
    apply Ha. rewrite Hx. apply list_elem_of_fmap_2. by eapply list_elem_of_lookup_2.
Qed.

(** What admission does to the entries, by result. *)
Definition admitted (q : CommandQueue) (r : CommandRecord) (room : bool) (q' : CommandQueue)
    (result : outcome GatewayError GatewayAdmission) : Prop :=
  match result with
  | Ok (Queued k) => k = record_key r ∧ cq_entries q' = cq_entries q ++ [r] ∧ room = true
  | Ok (AlreadyQueued k) => k = record_key r ∧ q' = q ∧
      ∃ e, e ∈ cq_entries q ∧ record_key e = record_key r ∧ cm_fingerprint e = cm_fingerprint r
  | Ok (Superseded k old) => k = record_key r ∧ old ≠ k ∧ ∃ i e key, cq_entries q !! i = Some e ∧ record_key e = old ∧
      record_supersession_key e = Some key ∧ record_supersession_key r = Some key ∧
      cq_entries q' = <[i := r]> (cq_entries q)
  | Ok (Dropped k) => k = record_key r ∧ cq_entries q' = cq_entries q ∧ command_delivery (cm_command r) = BestEffort ∧
      (N.of_nat (length (cq_entries q)) = cq_capacity q ∨ room = false)
  | Err (GwIdempotencyConflict k) => k = record_key r ∧ q' = q ∧
      ∃ e, e ∈ cq_entries q ∧ record_key e = record_key r ∧ cm_fingerprint e ≠ cm_fingerprint r
  | Err (GwCommandCapacityExceeded capacity) => capacity = cq_capacity q ∧
      N.of_nat (length (cq_entries q)) = capacity ∧ cq_entries q' = cq_entries q ∧
      command_delivery (cm_command r) ≠ BestEffort
  | Err GwIdempotencyCapacityExceeded => room = false ∧ cq_entries q' = cq_entries q ∧
      command_delivery (cm_command r) ≠ BestEffort
  | _ => False
  end.

Lemma queue_ok_entries q q' :
  queue_ok q → cq_capacity q' = cq_capacity q → cq_entries q' = cq_entries q → queue_ok q'.
Proof. intros [] Hc He. split; by rewrite ?Hc, ?He. Qed.

Lemma queue_admit_sim q r room :
  queue_ok q → typed_command (cm_command r) →
  let '(q', result) := queue_admit q r room in
  queue_ok q' ∧ cq_capacity q' = cq_capacity q ∧ admitted q r room q' result ∧
  (∀ x, x ∈ cq_entries q' → x ∈ cq_entries q ∨ x = r).
Proof.
  intros Hq Ht. unfold queue_admit. pose proof (qo_depth _ Hq) as Hd.
  destruct (find (λ e, record_key e =? record_key r) (cq_entries q)) as [e|] eqn:Hf.
  { apply find_some in Hf as [Hin%list_elem_of_In Hk%N.eqb_eq].
    split; [done|]. split; [done|]. split; [|by left]. case_bool_decide; cbn; eauto 10. }
  apply find_key_None in Hf.
  destruct (k ← record_supersession_key r; supersession_position k (cq_entries q)) as [i|] eqn:Hs.
  { apply bind_Some in Hs as (key & Hr & (e & He & Hek)%supersession_position_Some). rewrite He.
    split; [split; cbn [cq_entries cq_capacity]; try apply Hq|].
    - by rewrite length_insert.
    - by apply NoDup_fmap_insert; [apply Hq|].
    - rewrite (omap_insert_same _ _ i e r); [apply Hq|done|congruence].
    - apply Forall_insert; [apply Hq|done].
    - split; [done|]. split.
      { cbn. split; [done|]. split; [|by exists i, e, key]. intros Hk. apply Hf. rewrite <-Hk. apply list_elem_of_fmap. exists e.
        split; [done|]. by eapply list_elem_of_lookup_2. }
      cbn [cq_entries]. intros x (j & Hj)%list_elem_of_lookup.
      apply list_lookup_insert_Some in Hj as [(_ & -> & _)|[_ Hj]]; [by right|left]. by eapply list_elem_of_lookup_2. }
  assert (∀ key, record_supersession_key r = Some key → key ∉ omap (λ r, record_supersession_key r) (cq_entries q)) as Hfresh.
  { intros key Hkey. rewrite Hkey in Hs. cbn in Hs. by apply supersession_position_None. }
  rewrite (queue_depth_exact q Hq).
  destruct (N.leb_spec (cq_capacity q) (N.of_nat (length (cq_entries q)))) as [Hfull|Hroom]; cbn [orb].
  - destruct (bool_decide_reflect (command_delivery (cm_command r) = BestEffort)) as [Hb|Hb]; cbn [andb].
    + split; [by apply (queue_ok_entries q)|]. split; [done|]. split; [|by left]. cbn. split_and!; try done. left. lia.
    + split; [by apply (queue_ok_entries q)|]. split; [done|]. split; [|by left]. cbn. split_and!; try done. lia.
  - destruct room; cbn [negb andb].
    + split; [split; cbn [cq_entries cq_capacity]|].
      * rewrite length_app. cbn. lia.
      * apply Hq.
      * rewrite fmap_app. apply NoDup_app. split; [apply Hq|]. split; [|apply NoDup_singleton].
        intros x Hx ->%list_elem_of_singleton. done.
      * rewrite omap_app. cbn [omap list_omap]. destruct (record_supersession_key r) as [key|] eqn:Hkey.
        -- apply NoDup_app. split; [apply Hq|]. split; [|apply NoDup_singleton].
           intros x Hx ->%list_elem_of_singleton. by apply (Hfresh key).
        -- rewrite app_nil_r. apply Hq.
      * apply Forall_app. split; [apply Hq|]. by constructor.
      * split; [done|]. split; [done|]. cbn [cq_entries]. intros x [Hx| ->%list_elem_of_singleton]%elem_of_app; [by left|by right].
    + destruct (bool_decide_reflect (command_delivery (cm_command r) = BestEffort)) as [Hb|Hb]; cbn [andb].
      * split; [by apply (queue_ok_entries q)|]. split; [done|]. split; [|by left]. cbn. split_and!; try done. by right.
      * split; [by apply (queue_ok_entries q)|]. split; [done|]. split; [|by left]. done.
Qed.

Lemma queue_new_ok capacity : capacity ≤ u32_max → queue_ok (queue_new capacity).
Proof. intros Hc. split; cbn; try done; try constructor. lia. Qed.

Lemma queue_pop_ok q r q' :
  queue_ok q → queue_pop_front q = Some (r, q') →
  queue_ok q' ∧ cq_entries q = r :: cq_entries q' ∧ cq_capacity q' = cq_capacity q.
Proof.
  intros [Hd Hc Hk Hs Ht] Hp. unfold queue_pop_front in Hp. destruct (cq_entries q) as [|e l]; [done|].
  injection Hp as <- <-. split; [|done]. rewrite fmap_cons in Hk. apply NoDup_cons in Hk as [_ Hk]. apply Forall_cons in Ht as [_ Ht].
  split; cbn [cq_entries cq_capacity length] in *; try done; [lia|].
  cbn [omap list_omap] in Hs. destruct (record_supersession_key e); [by apply NoDup_cons in Hs as [_ Hs]|done].
Qed.

(** ** The gateway *)

Section gateway.
Context `{Digest} `{ResultJson} `{!JsonCodec ScenePatch} `{!JsonCodecLaws ScenePatch} `{!JsonCodec ImaginationEnvelope}.
Context {W E : Type} `{EqDecision E} `{!EntityStore W E} `{!EntityStoreLaws W E}.
Implicit Types g : LocalGateway W E.
Implicit Types e : CogniformEngine W E.

Abbreviation world_of e := (rw_world (eng_world e)).

Record gateway_ok g : Prop := {
  go_engine : engine_ok (gw_engine g);
  go_limits : gw_limits g = runtime_limits (rw_world_config (eng_world (gw_engine g)));
  go_compilable : compilable (gw_limits g);
  go_room : nesting_room ScenePatch (gw_limits g);
  go_compiler : cc_runtime_limits (gw_compiler g) = gw_limits g;
  go_queue : queue_ok (gw_queue g);
  go_capacity : gw_idempotency_capacity g ≤ u32_max;
  go_reserved : N.of_nat (size (gw_completed g) + length (cq_entries (gw_queue g))) ≤ gw_idempotency_capacity g;
  go_fresh : ∀ r, r ∈ cq_entries (gw_queue g) → gw_completed g !! record_key r = None;
  go_retention : N.of_nat (size (idempotency_records (world_of (gw_engine g))))
      + (gw_idempotency_capacity g - N.of_nat (size (gw_completed g)))
    ≤ max_idempotency_records (config (world_of (gw_engine g)));
}.

Lemma world_config_eq e : engine_ok e → config (world_of e) = rw_world_config (eng_world e).
Proof. intros He. apply ri_world, (cs_world _ _ (sh_consumable _ _ (eo_shown _ He))). Qed.

Lemma completed_count g : gateway_ok g → count (size (gw_completed g)) = N.of_nat (size (gw_completed g)).
Proof.
  intros Hg. unfold count. rewrite len_or_max_min. pose proof (go_reserved _ Hg). pose proof (go_capacity _ Hg). lia.
Qed.

Lemma gateway_new_ok e c g :
  engine_ok e → compilable (runtime_limits (rw_world_config (eng_world e))) →
  nesting_room ScenePatch (runtime_limits (rw_world_config (eng_world e))) →
  gc_idempotency_capacity c ≤ u32_max → gateway_new e c = Ok g → gateway_ok g.
Proof.
  intros He Hl Hroom Hcap Hn. unfold gateway_new, gateway_validate_config in Hn. inv_ok. subst g.
  rewrite (world_config_eq _ He) in *. repeat match goal with H : (_ <? _) = false |- _ => apply N.ltb_ge in H end.
  pose proof (proj1 (ri_world _ (cs_world _ _ (sh_consumable _ _ (eo_shown _ He))))) as Hw.
  pose proof (wi_records_size _ Hw) as Hsize. pose proof (proj1 (wc_config _ (wi_core _ Hw))) as (_ & _ & Hrec & _).
  rewrite (world_config_eq _ He) in Hsize, Hrec.
  assert (idempotency_record_count e = N.of_nat (size (idempotency_records (world_of e)))) as Hcount.
  { unfold idempotency_record_count. rewrite len_or_max_min. lia. }
  split; cbn [gw_engine gw_limits gw_compiler gw_queue gw_idempotency_capacity gw_completed]; try done.
  - apply queue_new_ok. lia.
  - rewrite map_size_empty. cbn. lia.
  - rewrite map_size_empty, (world_config_eq _ He). rewrite Hcount in *.
    lia.
Qed.

(** ** Admission *)

(** What submission of a record does, by result. *)
Definition admission g (r : CommandRecord) g' (result : outcome GatewayError GatewayAdmission) : Prop :=
  gw_engine g' = gw_engine g ∧ gw_completed g' = gw_completed g ∧
  match gw_completed g !! record_key r with
  | Some c => g' = g ∧
      result = (if decide (cd_fingerprint c = cm_fingerprint r) then Ok (Replayed (as_replayed (cd_response c)))
                else Err (GwIdempotencyConflict (record_key r)))
  | None => admitted (gw_queue g) r
      (N.of_nat (size (gw_completed g) + length (cq_entries (gw_queue g))) <? gw_idempotency_capacity g) (gw_queue g') result
  end.

(** The number of entries after an admission. *)
Lemma admitted_length q r room q' result :
  admitted q r room q' result →
  length (cq_entries q') = (length (cq_entries q) + match result with Ok (Queued _) => 1 | _ => 0 end)%nat ∧
  (length (cq_entries q') ≠ length (cq_entries q) → room = true).
Proof.
  destruct result as [[k|k|k old|k|resp]|[]| |]; cbn; try done.
  - intros (_ & -> & ->). rewrite length_app. cbn. split; [lia|done].
  - intros (_ & -> & _). split; [lia|done].
  - intros (_ & _ & i & e & key & _ & _ & _ & _ & ->). rewrite length_insert. split; [lia|done].
  - intros (_ & -> & _). split; [lia|done].
  - intros (_ & _ & -> & _). split; [lia|done].
  - intros (_ & -> & _). split; [lia|done].
  - intros (_ & -> & _). split; [lia|done].
Qed.

Lemma gateway_admit_sim g r :
  gateway_ok g → typed_command (cm_command r) →
  let '(g', result) := gateway_admit g r in gateway_ok g' ∧ admission g r g' result.
Proof.
  intros Hg Ht. unfold gateway_admit, admission. destruct (gw_completed g !! record_key r) as [c|] eqn:Hc.
  { split; [done|]. split_and!; try done. destruct (decide (cd_fingerprint c = cm_fingerprint r)) as [Hf|Hf].
    - by rewrite bool_decide_true.
    - by rewrite bool_decide_false. }
  pose proof (go_queue _ Hg) as Hq. rewrite (completed_count _ Hg), (queue_depth_exact _ Hq), <-Nat2N.inj_add.
  set (room := N.of_nat _ <? _). pose proof (queue_admit_sim (gw_queue g) r room Hq Ht) as Hsim.
  destruct (queue_admit (gw_queue g) r room) as [q' result] eqn:Ha. destruct Hsim as (Hq' & Hcap & Had & Hin).
  cbn [gw_engine gw_completed gw_queue]. split; [|done].
  destruct Hg as [Heng Hlim Hcomp Hroom Hcmp _ Hic Hres Hfr Hret].
  destruct (admitted_length _ _ _ _ _ Had) as [_ Hlen].
  split; cbn [gw_engine gw_limits gw_compiler gw_queue gw_idempotency_capacity gw_completed]; try done.
  - destruct (decide (length (cq_entries q') = length (cq_entries (gw_queue g)))) as [->|Hne]; [done|].
    specialize (Hlen Hne). apply N.ltb_lt in Hlen.
    destruct (admitted_length _ _ _ _ _ Had) as [-> _]. destruct result as [[]|[]| |]; lia.
  - intros x [Hx| ->]%Hin; [by apply Hfr|done].
Qed.

Lemma command_record_normal c limits now : normal (command_record_new c limits now).
Proof.
  unfold command_record_new, command_fingerprint. apply out_bind_normal; [|done].
  apply out_bind_normal; [|by intros [? ?] _]. apply map_err_normal.
  destruct c; (apply out_bind_normal; [apply encode_normal|done]).
Qed.

Lemma command_record_command c limits now r : command_record_new c limits now = Ok r → cm_command r = c.
Proof. intros Hr. unfold command_record_new in Hr. inv_ok. by subst r. Qed.

(** What submission of a command does. *)
Definition submission g (c : GatewayCommand) (now : N) g' (result : outcome GatewayError GatewayAdmission) : Prop :=
  match (match c with GPatch p => patch_validate p (gw_limits g) | GImagination i => imagination_validate i (gw_limits g) end) with
  | Err error => g' = g ∧ result = Err (GwInvalidCommand error)
  | _ =>
      match command_record_new c (gw_limits g) now with
      | Ok r => admission g r g' result
      | Err error => g' = g ∧ result = Err error
      | _ => False
      end
  end.

Lemma submit_sim g c now :
  gateway_ok g → typed_command c →
  let '(g', result) := submit g c now in gateway_ok g' ∧ submission g c now g' result.
Proof.
  intros Hg Ht. unfold submit, submission.
  set (v := match c with GPatch p => _ | GImagination i => _ end).
  assert (normal v) as Hv by (subst v; destruct c; [apply patch_validate_normal|apply imagination_validate_normal]).
  destruct v as [[]|error| |]; try done. cbn [map_err out_bind].
  pose proof (command_record_normal c (gw_limits g) now) as Hn.
  destruct (command_record_new c (gw_limits g) now) as [r|error| |] eqn:Hr; try done.
  apply gateway_admit_sim; [done|]. by rewrite (command_record_command _ _ _ _ Hr).
Qed.

(** ** Processing *)

(** The scene a compilation sees. *)
Definition scene_view e : CompilationSceneView := mkSceneView (revision (world_of e)) (dom (sc_rows (abs_scene (world_of e)))).

(** What a completed command did. *)
Inductive command_effect (cfg : CompilerConfig) e (c : GatewayCommand) (response : GatewayResponse) e' : Prop :=
| ce_patch p receipt :
    c = GPatch p → response = PatchApplied receipt → engine_step e p receipt e' → command_effect cfg e c response e'
| ce_compiled i r p receipt :
    c = GImagination i → compile cfg i (scene_view e) = Ok r → cr_patch r = Some p →
    response = ImaginationProcessed r (Some receipt) → engine_step e p receipt e' → command_effect cfg e c response e'
| ce_unresolved i r :
    c = GImagination i → compile cfg i (scene_view e) = Ok r → cr_patch r = None →
    response = ImaginationProcessed r None → e' = e → command_effect cfg e c response e'.

Lemma snapshot_view e : engine_ok e →
  ∃ s, snapshot (world_of e) = Ok s ∧
    mkSceneView (ws_revision s) (list_to_set (snap_entity_id <$> ws_entities s)) = scene_view e.
Proof.
  intros He. pose proof (proj1 (ri_world _ (cs_world _ _ (sh_consumable _ _ (eo_shown _ He))))) as Hw.
  rewrite (snapshot_sim _ Hw). eexists. split; [done|]. unfold scene_view, scene_snapshot. cbn [ws_revision ws_entities]. f_equal.
  rewrite <-list_fmap_compose. apply set_eq. intros id. rewrite elem_of_list_to_set, elem_of_dom, <-elem_of_btree_keys, <-btree_iter_keys.
  done.
Qed.

Lemma engine_apply_cases e p clock :
  engine_ok e → typed_patch p → nesting_room ScenePatch (runtime_limits (rw_world_config (eng_world e))) →
  match engine_apply_patch e p clock with
  | (e', Ok receipt) => engine_ok e' ∧ engine_step e p receipt e'
  | (e', Err _) => e' = e
  | (_, Panic) | (_, OutOfFuel) => False
  end.
Proof.
  intros He Hp Hroom. pose proof (engine_apply_sim e p clock He Hp Hroom) as Hsim.
  destruct (engine_apply_patch e p clock) as [e' [receipt|error| |]]; try done. by destruct Hsim.
Qed.

Lemma run_command_sim cfg e c clock :
  engine_ok e → typed_command c → compilable (runtime_limits (rw_world_config (eng_world e))) →
  nesting_room ScenePatch (runtime_limits (rw_world_config (eng_world e))) →
  cc_runtime_limits cfg = runtime_limits (rw_world_config (eng_world e)) →
  match run_command cfg e c clock with
  | (e', Ok response) => engine_ok e' ∧ command_effect cfg e c response e'
  | (e', Err _) => e' = e
  | (_, Panic) | (_, OutOfFuel) => False
  end.
Proof.
  intros He Ht Hl Hroom Hcfg. destruct c as [p|i]; cbn [run_command typed_command] in *.
  - pose proof (engine_apply_cases e p clock He Ht Hroom) as Hsim. unfold mut_bind, mut_err.
    destruct (engine_apply_patch e p clock) as [e' [receipt|error| |]]; cbn [map_err mut_ret]; try done.
    destruct Hsim. split; [done|]. by eapply ce_patch.
  - destruct (snapshot_view e He) as (s & Hs & Hview). rewrite mut_read_bind, Hs. cbn [map_err]. rewrite Hview, mut_read_bind.
    pose proof (compile_normal _ cfg i (scene_view e) Hl Hcfg) as Hn.
    destruct (compile cfg i (scene_view e)) as [r|error| |] eqn:Hc; cbn [map_err]; try done.
    destruct (cr_patch r) as [p|] eqn:Hp; [|split; [done|by eapply ce_unresolved]].
    destruct (compiled_patch_typed _ cfg i (scene_view e) r p Hl Hcfg Hc Hp Ht) as [Htp _].
    pose proof (engine_apply_cases e p clock He Htp Hroom) as Hsim. unfold mut_bind, mut_err.
    destruct (engine_apply_patch e p clock) as [e' [receipt|error| |]]; cbn [map_err mut_ret]; try done.
    destruct Hsim. split; [done|]. by eapply ce_compiled.
Qed.

(** A completed command adds at most one accepted transaction. *)
Lemma engine_step_records e p receipt e' :
  engine_step e p receipt e' →
  rw_world_config (eng_world e') = rw_world_config (eng_world e) ∧
  (size (idempotency_records (world_of e')) ≤ S (size (idempotency_records (world_of e))))%nat.
Proof.
  destruct 1 as [ra _ _ ->|en Hfresh _ _ _ -> _ _ _ Hc _]; [split; [done|lia]|]. split; [done|].
  by rewrite map_size_insert_None.
Qed.

Lemma command_effect_records cfg e c response e' :
  command_effect cfg e c response e' →
  rw_world_config (eng_world e') = rw_world_config (eng_world e) ∧
  (size (idempotency_records (world_of e')) ≤ S (size (idempotency_records (world_of e))))%nat.
Proof.
  destruct 1 as [p receipt _ _ Hs|i r p receipt _ _ _ _ Hs|i r _ _ _ _ ->]; [by eapply engine_step_records..|]. split; [done|lia].
Qed.

(** What processing does, by the head of the queue. *)
Definition processed g g' (result : outcome GatewayError (option GatewayResponse)) : Prop :=
  match cq_entries (gw_queue g) with
  | [] => g' = g ∧ result = Ok None
  | r :: rest => cq_entries (gw_queue g') = rest ∧
      match result with
      | Ok (Some response) =>
          gw_completed g' = <[record_key r := mkCompleted (cm_fingerprint r) response]> (gw_completed g) ∧
          command_effect (gw_compiler g) (gw_engine g) (cm_command r) response (gw_engine g')
      | Err _ => gw_completed g' = gw_completed g ∧ gw_engine g' = gw_engine g
      | _ => False
      end
  end.

Lemma process_sim g clock :
  gateway_ok g → let '(g', result) := process_next g clock in gateway_ok g' ∧ processed g g' result.
Proof.
  intros Hg. unfold process_next, processed. destruct (queue_pop_front (gw_queue g)) as [[r q]|] eqn:Hp.
  2:{ unfold queue_pop_front in Hp. by destruct (cq_entries (gw_queue g)). }
  destruct (queue_pop_ok _ _ _ (go_queue _ Hg) Hp) as (Hq & Hen & Hcap). rewrite Hen.
  pose proof (completed_count _ Hg) as Hcount.
  destruct Hg as [Heng Hlim Hcomp Hroom Hcmp Hq0 Hic Hres Hfr Hret].
  assert (gateway_ok (mkGateway (gw_engine g) (gw_compiler g) q (gw_completed g) (gw_idempotency_capacity g) (gw_limits g))) as Hpop.
  { split; cbn [gw_engine gw_limits gw_compiler gw_queue gw_idempotency_capacity gw_completed]; try done.
    - rewrite Hen in Hres. cbn [length] in Hres. lia.
    - intros x Hx. apply Hfr. rewrite Hen. by apply elem_of_cons; right. }
  assert (typed_command (cm_command r)) as Ht.
  { pose proof (qo_typed _ Hq0) as Hall. rewrite Hen in Hall. by apply Forall_cons in Hall as [? _]. }
  pose proof (run_command_sim (gw_compiler g) (gw_engine g) (cm_command r) clock Heng Ht) as Hrun.
  rewrite <-Hlim in Hrun. specialize (Hrun Hcomp Hroom Hcmp).
  destruct (run_command (gw_compiler g) (gw_engine g) (cm_command r) clock) as [e' [response|error| |]]; try done.
  2:{ by rewrite Hrun. }
  destruct Hrun as [Heng' Heff]. rewrite Hcount, (queue_depth_exact q Hq).
  rewrite Hen in Hres. cbn [length] in Hres. rewrite (proj2 (N.ltb_lt _ _)) by lia. split; [|done].
  destruct (command_effect_records _ _ _ _ _ Heff) as [Hcfg Hsz].
  assert (gw_completed g !! record_key r = None) as Hnew by (apply Hfr; rewrite Hen; by apply elem_of_cons; left).
  split; cbn [gw_engine gw_limits gw_compiler gw_queue gw_idempotency_capacity gw_completed]; try done.
  - by rewrite Hcfg.
  - rewrite map_size_insert_None by done. lia.
  - intros x Hx. rewrite lookup_insert_ne; [apply Hfr; rewrite Hen; by apply elem_of_cons; right|].
    pose proof (qo_keys _ Hq0) as Hk. rewrite Hen, fmap_cons in Hk. apply NoDup_cons in Hk as [Hk _].
    intros Heq. apply Hk. rewrite Heq. apply list_elem_of_fmap. by exists x.
  - rewrite map_size_insert_None by done. rewrite (world_config_eq _ Heng'), Hcfg. rewrite (world_config_eq _ Heng) in Hret. lia.
Qed.

End gateway.
