(* ===== verification/GatewayTheorems.v ===== *)
(** * Theorems about the gateway

    Bounds and uniqueness in every reachable gateway, the exact effect of every
    submission, processing of the whole queue in order, at-most-once execution
    of an idempotency key, and exact queries. *)

From S2P Require Import Prelude Machine Ordering BTree Floats Values Components Messages MessageSpec Imagination ImaginationSpec Codec Compilation Ecs WorldTypes Hierarchy Render World SceneSpec CommitRefine PreflightRefine WorldInvariant WorldApply Extraction WorldTheorems Hash Sha256 Compiler CompilerReport CompilerOutcome CompilerApply CompilerTheorems Replay ReplayCodec ReplayLogs Recorded RecordedReplay ReplayWitness RenderScene Recovery Engine EngineSync EngineTheorems Query Gateway GatewayInvariant.

Open Scope N_scope.

Section theorems.
Context `{Digest} `{ResultJson} `{!JsonCodec ScenePatch} `{!JsonCodecLaws ScenePatch} `{!JsonCodec ImaginationEnvelope}.
Context {W E : Type} `{EqDecision E} `{!EntityStore W E} `{!EntityStoreLaws W E}.
Implicit Types g : LocalGateway W E.
Implicit Types e : CogniformEngine W E.

(** One operation on a gateway. *)
Inductive gateway_step g : LocalGateway W E → Prop :=
| gs_submit c now g' result : typed_command c → submit g c now = (g', result) → gateway_step g g'
| gs_process clock g' result : process_next g clock = (g', result) → gateway_step g g'
| gs_configure cl g' : configure_compilation_limits g cl = Ok g' → gateway_step g g'
| gs_frame be frame e' :
    engine_submit_frame be (gw_engine g) = Ok (frame, e') →
    gateway_step g (mkGateway e' (gw_compiler g) (gw_queue g) (gw_completed g) (gw_idempotency_capacity g) (gw_limits g)).

Lemma gateway_step_ok g g' : gateway_ok g → gateway_step g g' → gateway_ok g'.
Proof.
  intros Hg [c now g1 result Ht Hs|clock g1 result Hp|cl g1 Hc|be frame e' Hf].
  - pose proof (submit_sim g c now Hg Ht) as Hsim. rewrite Hs in Hsim. apply Hsim.
  - pose proof (process_sim g clock Hg) as Hsim. rewrite Hp in Hsim. apply Hsim.
  - unfold configure_compilation_limits in Hc. inv_ok. subst g1. destruct Hg. by split.
  - destruct (submit_frame_sim be (gw_engine g) frame e' (go_engine _ Hg) Hf) as (He & _ & Hw & _).
    destruct Hg. split; cbn [gw_engine gw_limits gw_compiler gw_queue gw_idempotency_capacity gw_completed]; try done; by rewrite Hw.
Qed.

(** Completed results are kept. *)
Lemma gateway_step_completed g g' key c :
  gateway_ok g → gateway_step g g' → gw_completed g !! key = Some c → gw_completed g' !! key = Some c.
Proof.
  intros Hg [cmd now g1 result Ht Hs|clock g1 result Hp|cl g1 Hc|be frame e' Hf] Hk; [| | |done].
  - pose proof (submit_sim g cmd now Hg Ht) as Hsim. rewrite Hs in Hsim. destruct Hsim as [_ Hsub]. unfold submission in Hsub.
    assert (gw_completed g1 = gw_completed g) as ->; [|done].
    destruct (match cmd with GPatch p => _ | GImagination i => _ end); [|by destruct Hsub as [-> _]|..];
      (destruct (command_record_new _ _ _); [apply Hsub|by destruct Hsub as [-> _]|done..]).
  - pose proof (process_sim g clock Hg) as Hsim. rewrite Hp in Hsim. destruct Hsim as [_ Hpr]. unfold processed in Hpr.
    destruct (cq_entries (gw_queue g)) as [|r rest] eqn:Hen; [by destruct Hpr as [-> _]|]. destruct Hpr as [_ Hpr].
    destruct result as [[response|]|error| |]; [|done| |done..].
    + destruct Hpr as [-> _]. rewrite lookup_insert_ne; [done|]. intros Heq.
      rewrite <-Heq, (go_fresh _ Hg) in Hk; [done|]. rewrite Hen. by apply elem_of_cons; left.
    + by destruct Hpr as [-> _].
  - unfold configure_compilation_limits in Hc. inv_ok. by subst g1.
Qed.

(** Gateways over a sound engine. *)
Inductive gateway_runs : LocalGateway W E → Prop :=
| gr_new e c g :
    engine_ok e → compilable (runtime_limits (rw_world_config (eng_world e))) →
    nesting_room ScenePatch (runtime_limits (rw_world_config (eng_world e))) →
    gc_idempotency_capacity c ≤ u32_max → gateway_new e c = Ok g → gateway_runs g
| gr_step g g' : gateway_runs g → gateway_step g g' → gateway_runs g'.

(** Every gateway reached from a sound engine by submissions, processing,
    reconfiguration and frame submissions satisfies the gateway invariant: the
    queue never exceeds its capacity, queued plus completed commands never
    exceed the idempotency capacity, no key is held twice, each supersession
    key is queued at most once, the engine stays in step, and the world still
    has a free result record for every command that can complete. *)
Theorem gateway_reachable_ok g : gateway_runs g → gateway_ok g.
Proof.
  induction 1 as [e c g He Hl Hroom Hcap Hn|g g' _ IH Hs]; [by eapply gateway_new_ok|by eapply gateway_step_ok].
Qed.

(** A submission has exactly the effect its result names and never panics:
    an invalid command or one that cannot be encoded changes nothing; a
    completed key replays its recorded response or is a conflict; a queued key
    is reported or is a conflict; a latest-wins command replaces the queued one
    with its supersession key in place; otherwise the command is appended when
    both bounds allow it, dropped when it is best effort, and refused with the
    exhausted bound when not.  Neither the engine nor a completed result ever
    changes on submission. *)
Theorem gateway_submission g c now :
  gateway_ok g → typed_command c →
  let '(g', result) := submit g c now in gateway_ok g' ∧ submission g c now g' result.
Proof. apply submit_sim. Qed.

(** ** Draining *)

(** [process_next], [n] times. *)
Fixpoint drain (n : nat) (clocks : nat → N * N) g : LocalGateway W E * list (outcome GatewayError (option GatewayResponse)) :=
  match n with
  | O => (g, [])
  | S n =>
      let '(g, result) := process_next g (clocks O) in
      let '(g, results) := drain n (λ i, clocks (S i)) g in
      (g, result :: results)
  end.

(** The results of the entries of a queue. *)
Definition drained g' : CommandRecord → outcome GatewayError (option GatewayResponse) → Prop := λ r result,
  match result with
  | Ok (Some response) => gw_completed g' !! record_key r = Some (mkCompleted (cm_fingerprint r) response)
  | Err _ => gw_completed g' !! record_key r = None
  | _ => False
  end.

(** Processing leaves other keys alone. *)
Lemma drain_other n clocks g key :
  gateway_ok g → key ∉ (λ r, record_key r) <$> take n (cq_entries (gw_queue g)) →
  gw_completed (drain n clocks g).1 !! key = gw_completed g !! key.
Proof.
  revert clocks g. induction n as [|n IH]; intros clocks g Hg Hkey; [done|]. cbn [drain].
  pose proof (process_sim g (clocks O) Hg) as Hsim. destruct (process_next g (clocks O)) as [g1 result].
  destruct Hsim as [Hg1 Hp]. unfold processed in Hp.
  specialize (IH (λ i, clocks (S i)) g1 Hg1). destruct (drain n _ g1) as [g2 results]. cbn [fst] in *.
  destruct (cq_entries (gw_queue g)) as [|r rest] eqn:Hen.
  { destruct Hp as [-> _]. rewrite Hen, take_nil in IH. by apply IH, not_elem_of_nil. }
  destruct Hp as [Hq Hres]. rewrite Hq in IH. cbn [take] in Hkey. rewrite fmap_cons in Hkey.
  apply not_elem_of_cons in Hkey as [Hne Hkey]. rewrite IH by done.
  destruct result as [[response|]|error| |]; [|done| |done..].
  - destruct Hres as [-> _]. by rewrite lookup_insert_ne.
  - by destruct Hres as [-> _].
Qed.

(** C14. The queue drains: processing once per queued command empties the queue,
    handles every command in queue order exactly once, and gives each a
    response, recorded under its key, or a typed error that leaves no record;
    further processing then reports that nothing is left.  A failing command
    never blocks the ones behind it. *)
Theorem gateway_drains g clocks :
  gateway_ok g →
  let '(g', results) := drain (length (cq_entries (gw_queue g))) clocks g in
  gateway_ok g' ∧ cq_entries (gw_queue g') = [] ∧ Forall2 (drained g') (cq_entries (gw_queue g)) results ∧
  ∀ clock, process_next g' clock = (g', Ok None).
Proof.
  remember (cq_entries (gw_queue g)) as entries eqn:Hen. revert clocks g Hen.
  induction entries as [|r rest IH]; intros clocks g Hen Hg; cbn [length drain].
  { split_and!; try done. intros clock. unfold process_next, queue_pop_front. by rewrite <-Hen. }
  pose proof (process_sim g (clocks O) Hg) as Hsim. destruct (process_next g (clocks O)) as [g1 result].
  destruct Hsim as [Hg1 Hp]. unfold processed in Hp. rewrite <-Hen in Hp. destruct Hp as [Hq Hres].
  specialize (IH (λ i, clocks (S i)) g1 (eq_sym Hq) Hg1).
  pose proof (drain_other (length rest) (λ i, clocks (S i)) g1 (record_key r) Hg1) as Hother.
  destruct (drain (length rest) _ g1) as [g2 results]. cbn [fst] in Hother. destruct IH as (Hg2 & Hempty & Hall & Hdone).
  split_and!; try done. constructor; [|done].
  assert (record_key r ∉ (λ r, record_key r) <$> take (length rest) (cq_entries (gw_queue g1))) as Hnew.
  { rewrite Hq, take_ge by lia. pose proof (qo_keys _ (go_queue _ Hg)) as Hk. rewrite <-Hen, fmap_cons in Hk. by apply NoDup_cons in Hk as [? _]. }
  specialize (Hother Hnew). unfold drained. destruct result as [[response|]|error| |]; [|done| |done..].
  - destruct Hres as [Hc _]. by rewrite Hother, Hc, lookup_insert_eq.
  - destruct Hres as [Hc _]. rewrite Hother, Hc. apply (go_fresh _ Hg). rewrite <-Hen. by apply elem_of_cons; left.
Qed.

(** ** At most once *)

Inductive gateway_evolves g : LocalGateway W E → Prop :=
| ge_refl : gateway_evolves g g
| ge_step g1 g2 : gateway_evolves g g1 → gateway_step g1 g2 → gateway_evolves g g2.

(** C15. At most once: once a command has completed, then whatever happens to the
    gateway afterwards, submitting the same command again changes nothing and
    returns the recorded response marked as a replay, and any other valid
    command under that idempotency key is a conflict. *)
Theorem gateway_at_most_once g g' key c cmd now r :
  gateway_ok g → gw_completed g !! key = Some c → gateway_evolves g g' →
  command_key cmd = key →
  (match cmd with GPatch p => patch_validate p (gw_limits g') | GImagination i => imagination_validate i (gw_limits g') end) = Ok tt →
  command_record_new cmd (gw_limits g') now = Ok r →
  submit g' cmd now = (g', if decide (cd_fingerprint c = cm_fingerprint r)
                           then Ok (Replayed (as_replayed (cd_response c))) else Err (GwIdempotencyConflict key)).
Proof.
  intros Hg Hk Hev Hkey Hv Hr.
  assert (gateway_ok g' ∧ gw_completed g' !! key = Some c) as [Hg' Hk'].
  { clear Hv Hr. induction Hev as [|g1 g2 _ [Hg1 Hk1] Hs]; [done|]. split; [by eapply gateway_step_ok|by eapply gateway_step_completed]. }
  unfold submit. rewrite Hv. cbn [map_err out_bind]. rewrite Hr. unfold gateway_admit.
  rewrite (command_record_command _ _ _ _ Hr), Hkey, Hk'. destruct (decide (cd_fingerprint c = cm_fingerprint r)).
  - by rewrite bool_decide_true.
  - by rewrite bool_decide_false.
Qed.

(** ** Queries *)

(** Recorded worlds hold only components that pass validation. *)
Lemma history_admissible wc l (w : AuthoritativeWorld W E) : sound_config wc → history wc l w → admissible_scene (abs_scene w).
Proof.
  intros Hwc. induction 1 as [|l w p f clock receipt w' en Hh IH Hp Hfresh Ha _|l w x w' Hh IH Hx].
  - intros id r k c Hr. cbn [abs_scene sc_rows world_new] in Hr. by rewrite lookup_abs_rows in Hr.
  - destruct (history_inv _ _ _ Hwc Hh) as (Hw & _). pose proof (apply_patch_sim w p f clock Hw Hp) as Hsim. rewrite Ha in Hsim.
    destruct Hsim as [Hv [(ra & Hra & _)|(sc & Hap)]]; [congruence|]. rewrite (ap_scene _ _ _ _ _ _ _ Hap).
    destruct (wc_config _ (wi_core _ Hw)) as [_ Hops]. apply patch_validate_facts in Hv as (_ & _ & _ & Hval & _); [|done].
    eapply spec_operations_admissible; [exact IH| |apply Hap].
    eapply Forall_impl; [exact Hval|]. apply operation_validate_components.
  - destruct (history_inv _ _ _ Hwc Hh) as (Hw & _). destruct (extract_frame w x w' Hw Hx) as (_ & -> & _). done.
Qed.

Lemma filter_fmap {A B} (f : A → B) (P : B → Prop) `{∀ x, Decision (P x)} (l : list A) :
  filter P (f <$> l) = f <$> filter (λ x, P (f x)) l.
Proof.
  induction l as [|x l IH]; [done|]. rewrite fmap_cons, !filter_cons. case_decide; [by rewrite fmap_cons, IH|done].
Qed.

Lemma filter_length_le {A} (P : A → Prop) `{∀ x, Decision (P x)} (l : list A) : (length (filter P l) ≤ length l)%nat.
Proof. induction l as [|x l IH]; [done|]. rewrite filter_cons. case_decide; cbn; lia. Qed.

(** C31. Queries are exact: a result lists precisely the selected live entities of
    the queried revision in ascending identity, each with its parent and its
    selected components in kind order; the query is refused exactly when it is
    invalid, names another revision, selects more entities than it allows, or
    has a result that exceeds a runtime limit (components of an entity or in
    all, then text bytes, then logical size, the first one exceeded being
    reported); a returned result is within all of them.  The produced result is
    never found non-canonical or otherwise malformed. *)
Theorem gateway_query_exact g q :
  gateway_ok g →
  let w := rw_world (eng_world (gw_engine g)) in
  match gateway_query g q with
  | Ok r => query_validate q (gw_limits g) = Ok tt ∧ sq_scene_revision q = revision w ∧
      r = mkQueryResult schema_v1 (revision w) (query_view (abs_scene w) q) ∧
      N.of_nat (length (sqr_entities r)) ≤ sq_limit q ∧
      components_fit (gw_limits g) (sqr_entities r) ∧ text_fits (gw_limits g) (sqr_entities r) ∧ size_fits (gw_limits g) (sqr_entities r)
  | Err (GwInvalidCommand error) => query_validate q (gw_limits g) = Err error
  | Err (GwQueryRevisionMismatch requested actual) =>
      requested = sq_scene_revision q ∧ actual = revision w ∧ requested ≠ actual
  | Err (GwQueryResultCapacityExceeded actual limit) =>
      actual = N.of_nat (length (query_view (abs_scene w) q)) ∧ limit = sq_limit q ∧ limit < actual
  | Err (GwInvalidQueryResult error) => sq_scene_revision q = revision w ∧
      N.of_nat (length (query_view (abs_scene w) q)) ≤ sq_limit q ∧
      views_exceed (gw_limits g) (query_view (abs_scene w) q) error
  | _ => False
  end.
Proof.
  intros Hg w. pose proof (cs_world _ _ (sh_consumable _ _ (eo_shown _ (go_engine _ Hg)))) as Hrw.
  destruct (ri_world _ Hrw) as [Hw Hcfg]. fold w in Hw, Hcfg.
  pose proof (history_admissible _ _ _ (ri_config _ Hrw) (ri_history _ Hrw)) as Hadm. fold w in Hadm.
  unfold gateway_query. fold w. pose proof (query_validate_normal q (gw_limits g)) as Hn.
  destruct (query_validate q (gw_limits g)) as [[]|error| |] eqn:Hv; cbn [map_err out_bind]; [|done..].
  rewrite (snapshot_sim w Hw). cbn [map_err out_bind]. unfold execute_query.
  change (ws_revision (scene_snapshot (revision w) (abs_scene w))) with (revision w).
  destruct (N.eqb_spec (sq_scene_revision q) (revision w)) as [Hrev|Hrev]; cbn [negb guard_err out_bind]; [|done].
  unfold scene_snapshot. cbn [ws_entities]. rewrite filter_fmap, <-list_fmap_compose, length_fmap.
  change (_ <$> filter _ (btree_iter (sc_rows (abs_scene w)))) with (query_view (abs_scene w) q).
  assert (length (filter (λ x, selects_entity q x.1 = true) (btree_iter (sc_rows (abs_scene w)))) = length (query_view (abs_scene w) q)) as Hlen.
  { unfold query_view. by rewrite length_fmap. }
  cbn [snap_entity_id]. rewrite Hlen.
  assert (N.of_nat (length (query_view (abs_scene w) q)) ≤ u32_max) as Hbound.
  { rewrite <-Hlen. pose proof (filter_length_le (λ x, selects_entity q x.1 = true) (btree_iter (sc_rows (abs_scene w)))) as Hle.
    rewrite length_btree_iter, <-(size_dom (D:=gset N)), (live_dom w Hw), size_dom in Hle.
    pose proof (wi_entities _ Hw). destruct (wc_config _ (wi_core _ Hw)) as [(_ & Hmax & _) _]. lia. }
  assert (count (length (query_view (abs_scene w) q)) = N.of_nat (length (query_view (abs_scene w) q))) as Hcount.
  { unfold count. rewrite len_or_max_min. lia. }
  rewrite Hcount. destruct (N.ltb_spec (sq_limit q) (N.of_nat (length (query_view (abs_scene w) q)))) as [Hlt|Hle];
    cbn [guard_err out_bind]; [done|].
  assert (sq_limit q ≤ max_query_entities (gw_limits g)) as Hmq.
  { unfold query_validate in Hv. inv_ok. repeat match goal with H : (_ || _) = false |- _ => apply orb_false_iff in H as [? ?] end. by apply N.ltb_ge. }
  pose proof (canonical_result_exact (revision w) (query_view (abs_scene w) q) (gw_limits g) (query_view_canonical _ _ Hadm)) as Hcodes.
  specialize (Hcodes ltac:(rewrite Hcount; lia)).
  destruct (query_result_validate _ _) as [[]|error| |]; cbn [map_err out_bind]; done.
Qed.

End theorems.

(** ** A concrete gateway *)

#[local] Existing Instances sha256_instance sample_codec sample_codec_laws sample_result_json.

#[local] Instance sample_imagination_codec : JsonCodec ImaginationEnvelope :=
  {| json_to_vec _ := Some (bytes_of_string "{}"); json_from_slice _ := Ok sample_imagination |}.

Abbreviation slot_gateway := (LocalGateway SlotStore.store (N * N)).

Definition sample_gateway0 : slot_gateway :=
  mkGateway sample_engine0 (compiler_config_new runtime_limits_default) (queue_new 64) ∅ 1024 runtime_limits_default.
Definition sample_gateway1 : slot_gateway := (submit sample_gateway0 (GPatch sample_patch) 3).1.
Definition sample_gateway2 : slot_gateway := (process_next sample_gateway1 (5, 6)).1.

Lemma sample_gateway0_new : gateway_new sample_engine0 gateway_config_default = Ok sample_gateway0.
Proof. vm_compute. reflexivity. Qed.

Lemma sample_gateway0_ok : gateway_ok sample_gateway0.
Proof.
  apply (gateway_new_ok sample_engine0 gateway_config_default); [exact sample_engine0_ok|exact default_limits_compilable|
    exact sample_room|vm_compute; discriminate|exact sample_gateway0_new].
Qed.

Lemma sample_gateway1_ok : gateway_ok sample_gateway1.
Proof.
  pose proof (submit_sim sample_gateway0 (GPatch sample_patch) 3 sample_gateway0_ok sample_patch_typed) as Hs.
  unfold sample_gateway1. destruct (submit sample_gateway0 (GPatch sample_patch) 3) as [g' result]. exact (proj1 Hs).
Qed.

Lemma sample_gateway2_ok : gateway_ok sample_gateway2.
Proof.
  pose proof (process_sim sample_gateway1 (5, 6) sample_gateway1_ok) as Hs.
  unfold sample_gateway2. destruct (process_next sample_gateway1 (5, 6)) as [g' result]. exact (proj1 Hs).
Qed.

Lemma gateway_reachable_ok_witness : gateway_ok sample_gateway1.
Proof.
  apply (gateway_reachable_ok sample_gateway1). eapply gr_step.
  - eapply (gr_new sample_engine0 gateway_config_default sample_gateway0); [exact sample_engine0_ok|exact default_limits_compilable|
      exact sample_room|vm_compute; discriminate|exact sample_gateway0_new].
  - eapply (gs_submit sample_gateway0 (GPatch sample_patch) 3 _ _ sample_patch_typed). apply surjective_pairing.
Defined.

Lemma gateway_submission_witness :
  admission sample_gateway0 (mkCommand (GPatch sample_patch) (sha256 (COMMAND_FINGERPRINT_DOMAIN ++ [x00] ++ Codec.sample_json ++ [x0a])) 3)
    sample_gateway1 (Ok (Queued 8)).
Proof.
  pose proof (gateway_submission sample_gateway0 (GPatch sample_patch) 3 sample_gateway0_ok sample_patch_typed) as Hs.
  assert ((submit sample_gateway0 (GPatch sample_patch) 3).2 = Ok (Queued 8)) as Hr by (vm_compute; reflexivity).
  unfold sample_gateway1. destruct (submit sample_gateway0 (GPatch sample_patch) 3) as [g' result]. cbn [fst snd] in *. subst result.
  destruct Hs as [_ Hs]. unfold submission in Hs.
  assert (patch_validate sample_patch (gw_limits sample_gateway0) = Ok tt) as Hv by (vm_compute; reflexivity).
  assert (command_record_new (GPatch sample_patch) (gw_limits sample_gateway0) 3
    = Ok (mkCommand (GPatch sample_patch) (sha256 (COMMAND_FINGERPRINT_DOMAIN ++ [x00] ++ Codec.sample_json ++ [x0a])) 3)) as Hc
    by (vm_compute; reflexivity).
  rewrite Hv, Hc in Hs. exact Hs.
Defined.

Lemma gateway_drains_witness :
  let '(g', results) := drain 1 (λ _, (5, 6)) sample_gateway1 in
  cq_entries (gw_queue g') = [] ∧ length results = 1%nat ∧ ∀ clock, process_next g' clock = (g', Ok None).
Proof.
  pose proof (gateway_drains sample_gateway1 (λ _, (5, 6)) sample_gateway1_ok) as Hd.
  assert (length (cq_entries (gw_queue sample_gateway1)) = 1%nat) as Hl by (vm_compute; reflexivity). rewrite Hl in Hd.
  destruct (drain 1 (λ _, (5, 6)) sample_gateway1) as [g' results]. destruct Hd as (_ & Hq & Hf & Hp).
  split; [exact Hq|]. split; [rewrite <-(Forall2_length _ _ _ Hf); exact Hl|exact Hp].
Defined.

Lemma gateway_at_most_once_witness :
  match submit sample_gateway2 (GPatch sample_patch) 9 with
  | (g', Ok (Replayed (PatchApplied receipt))) => g' = sample_gateway2 ∧ receipt_status receipt = IdempotentReplay
  | _ => False
  end.
Proof.
  assert (is_some (gw_completed sample_gateway2 !! 8) = true) as Hk by (vm_compute; reflexivity).
  destruct (gw_completed sample_gateway2 !! 8) as [c|] eqn:Hc; [|discriminate Hk].
  assert (is_ok (command_record_new (GPatch sample_patch) (gw_limits sample_gateway2) 9) = true) as Hok by (vm_compute; reflexivity).
  destruct (command_record_new (GPatch sample_patch) (gw_limits sample_gateway2) 9) as [r| | |] eqn:Hr; [|discriminate Hok..].
  rewrite (gateway_at_most_once sample_gateway2 sample_gateway2 8 c (GPatch sample_patch) 9 r sample_gateway2_ok Hc
    (ge_refl sample_gateway2) eq_refl ltac:(vm_compute; reflexivity) Hr).
  vm_compute in Hc. injection Hc as <-. vm_compute in Hr. injection Hr as <-.
  rewrite decide_True by reflexivity. split; reflexivity.
Defined.

Lemma gateway_query_exact_witness :
  match gateway_query sample_gateway2 (mkQuery schema_v1 1 [] [KName] 10) with
  | Ok r => sqr_entities r
      = query_view (abs_scene (rw_world (eng_world (gw_engine sample_gateway2)))) (mkQuery schema_v1 1 [] [KName] 10)
  | _ => False
  end.
Proof.
  pose proof (gateway_query_exact sample_gateway2 (mkQuery schema_v1 1 [] [KName] 10) sample_gateway2_ok) as Hq.
  assert (is_ok (gateway_query sample_gateway2 (mkQuery schema_v1 1 [] [KName] 10)) = true) as Hok by (vm_compute; reflexivity).
  destruct (gateway_query sample_gateway2 (mkQuery schema_v1 1 [] [KName] 10)) as [r| | |]; [|discriminate Hok..].
  destruct Hq as (_ & _ & -> & _). reflexivity.
Defined.
