(* ===== verification/Observation.v ===== *)
(** * Observation payloads and their envelope

    [cogniform-observation] (lib.rs, codec.rs): the owned bulk data of an
    observation and the integrity-checked envelope it travels in.  The digest
    covers the header, the canonical metadata and the payload, so an envelope
    is accepted under no other metadata.  Decoding accepts exactly what encoding
    writes. *)

From S2P Require Import Prelude Machine Floats Values Components Messages MessageSpec Codec Hash Sha256.

Open Scope N_scope.

Definition OBS_MAGIC : bytes := bytes_of_string "COGOBS01".
Definition OBS_VERSION_OFFSET : nat := length OBS_MAGIC.
Definition OBS_KIND_OFFSET : nat := OBS_VERSION_OFFSET + 2.
Definition OBS_RESERVED_OFFSET : nat := OBS_KIND_OFFSET + 1.
Definition OBS_COUNT_OFFSET : nat := OBS_RESERVED_OFFSET + 1.
Definition OBS_LENGTH_OFFSET : nat := OBS_COUNT_OFFSET + 8.
Definition OBS_DIGEST_OFFSET : nat := OBS_LENGTH_OFFSET + 8.
Definition OBSERVATION_PAYLOAD_ENVELOPE_VERSION : N := 1.
Definition OBSERVATION_PAYLOAD_ENVELOPE_HEADER_BYTES : nat := OBS_DIGEST_OFFSET + 32.

(** [1.0e-3_f32]. *)
Definition OBSERVATION_NORMAL_LENGTH_SQUARED_TOLERANCE : f32 := 981668463.

(** ** Payloads *)

Record Rgba8 := mkRgba8 { px_r : byte; px_g : byte; px_b : byte; px_a : byte }.
Record Normal3 := mkNormal3 { nv_x : f32; nv_y : f32; nv_z : f32 }.
Record EntityVisibility := mkVisibility { ev_entity_id : StableEntityId; ev_visible_pixels : N }.

Inductive ObservationPayload : Type :=
| PColor (values : list Rgba8)
| PDepth (values : list f32)
| PNormal (values : list (option Normal3))
| PEntityId (values : list (option StableEntityId))
| PVisibility (values : list EntityVisibility).

(** [ObservationPayload::kind]. *)
Definition payload_kind (p : ObservationPayload) : ObservationKind :=
  match p with
  | PColor _ => Color
  | PDepth _ => Depth
  | PNormal _ => Normal
  | PEntityId _ => EntityId
  | PVisibility _ => Visibility
  end.

(** [ObservationPayload::item_count]. *)
Definition item_count (p : ObservationPayload) : N :=
  len_or_max u64_max
    match p with
    | PColor values => length values
    | PDepth values => length values
    | PNormal values => length values
    | PEntityId values => length values
    | PVisibility values => length values
    end.

Record ObservationPayloadLimits := mkPayloadLimits {
  max_envelope_bytes : N;
  max_visibility_entries : N;
}.

Definition payload_limits_default : ObservationPayloadLimits := mkPayloadLimits 4194304 4096.

Inductive ObservationEnvelopeError : Type :=
| InvalidMetadata
| KindMismatch (metadata payload : ObservationKind)
| ItemCountMismatch (expected actual : N)
| VisibilityEntryLimitExceeded (actual limit : N)
| VisibilityPixelLimitExceeded (actual limit : N)
| InvalidPayloadValue (kind : ObservationKind) (index : N)
| EnvelopeLimitExceeded (actual limit : N)
| OeSizeOverflow
| OeAllocationFailed
| OeTruncated (expected actual : N)
| OeTrailingBytes (expected actual : N)
| OeInvalidMagic
| OeUnsupportedVersion (found : N)
| OeUnsupportedKind (found : N)
| NonCanonicalEncoding
| PayloadLengthMismatch (expected actual : N)
| OeIntegrityMismatch.

(** ** Checks *)

Definition canonical_f32 (value : f32) : bool :=
  f32_is_finite value && negb (value =? f32_neg_zero).

Definition invalid_value (kind : ObservationKind) (index : nat) : ObservationEnvelopeError :=
  InvalidPayloadValue kind (len_or_max u64_max index).

(** The conditions on a depth pixel and on a normal, as both directions check them. *)
Definition depth_rejected (value : f32) : bool :=
  negb (canonical_f32 value) || negb (f32_leb f32_zero value && f32_leb value f32_one).

Definition normal_rejected (v : Normal3) : bool :=
  if negb (canonical_f32 (nv_x v)) || negb (canonical_f32 (nv_y v)) || negb (canonical_f32 (nv_z v)) then true
  else
    let length_squared :=
      f32_mul_add (nv_x v) (nv_x v) (f32_mul_add (nv_y v) (nv_y v) (f32_mul (nv_z v) (nv_z v))) in
    negb (f32_is_finite length_squared)
    || f32_ltb OBSERVATION_NORMAL_LENGTH_SQUARED_TOLERANCE (f32_abs (f32_sub length_squared f32_one)).

(** The running state of a visibility list: previous identity, total pixels. *)
Definition visibility_step (st : option StableEntityId * N) (index : nat) (v : EntityVisibility)
    : outcome ObservationEnvelopeError (option StableEntityId * N) :=
  do! guard_err ((ev_visible_pixels v =? 0)
                 || match st.1 with Some previous => ev_entity_id v <=? previous | None => false end)
    (invalid_value Visibility index) then
  let! total := ok_or (checked_add u64_max st.2 (ev_visible_pixels v)) OeSizeOverflow in
  Ok (Some (ev_entity_id v), total).

(** A [for (index, value) in values.iter().enumerate()] loop with early returns. *)
Fixpoint out_enumerate {E St A} (f : St → nat → A → outcome E St) (s : St) (index : nat) (l : list A)
    : outcome E St :=
  match l with
  | [] => Ok s
  | a :: l => let! s := f s index a in out_enumerate f s (S index) l
  end.

(** [validate_values]. *)
Definition validate_values (payload : ObservationPayload) (runtime_limits : RuntimeLimits)
    : outcome ObservationEnvelopeError unit :=
  match payload with
  | PColor _ | PEntityId _ => Ok tt
  | PDepth values =>
      out_enumerate (λ _ index value, guard_err (depth_rejected value) (invalid_value Depth index)) tt 0 values
  | PNormal values =>
      out_enumerate (λ _ index value,
        match value with
        | Some v => guard_err (normal_rejected v) (invalid_value Normal index)
        | None => Ok tt
        end) tt 0 values
  | PVisibility values =>
      let! (_, visible_pixels) := out_enumerate visibility_step (None, 0) 0 values in
      let limit := max_observation_pixels runtime_limits in
      guard_err (limit <? visible_pixels) (VisibilityPixelLimitExceeded visible_pixels limit)
  end.

(** [validate_count]. *)
Definition validate_count (metadata : ObservationMetadata) (kind : ObservationKind) (count : N)
    (runtime_limits : RuntimeLimits) (payload_limits : ObservationPayloadLimits)
    : outcome ObservationEnvelopeError unit :=
  if bool_decide (kind = Visibility) then
    let limit := max_visibility_entries payload_limits in
    guard_err (limit <? count) (VisibilityEntryLimitExceeded count limit)
  else
    let! dimensions := ok_or (om_dimensions metadata) InvalidMetadata in
    let expected := pixel_count dimensions in
    do! guard_err (negb (count =? expected)) (ItemCountMismatch expected count) then
    guard_err (max_observation_pixels runtime_limits <? count)
      (ItemCountMismatch (max_observation_pixels runtime_limits) count).

Definition item_bytes (kind : ObservationKind) : N :=
  match kind with Color | Depth => 4 | Normal => 13 | EntityId => 17 | Visibility => 24 end.

(** [checked_mul]. *)
Definition encoded_payload_bytes (kind : ObservationKind) (count : N) : outcome ObservationEnvelopeError N :=
  if count * item_bytes kind <=? u64_max then Ok (count * item_bytes kind) else Err OeSizeOverflow.

Definition total_envelope_bytes (payload_bytes : N) : outcome ObservationEnvelopeError N :=
  ok_or (checked_add u64_max (N.of_nat OBSERVATION_PAYLOAD_ENVELOPE_HEADER_BYTES) payload_bytes) OeSizeOverflow.

Definition enforce_envelope_limit (actual : N) (limits : ObservationPayloadLimits)
    : outcome ObservationEnvelopeError unit :=
  guard_err (max_envelope_bytes limits <? actual) (EnvelopeLimitExceeded actual (max_envelope_bytes limits)).

(** ** Bytes *)

Definition encode_kind (kind : ObservationKind) : byte :=
  match kind with Color => x01 | Depth => x02 | Normal => x03 | EntityId => x04 | Visibility => x05 end.

Definition decode_kind (encoded : byte) : outcome ObservationEnvelopeError ObservationKind :=
  match encoded with
  | x01 => Ok Color
  | x02 => Ok Depth
  | x03 => Ok Normal
  | x04 => Ok EntityId
  | x05 => Ok Visibility
  | found => Err (OeUnsupportedKind (Byte.to_N found))
  end.

(** [append_header_prefix]: the header up to its digest. *)
Definition header_prefix (kind : ObservationKind) (count payload_bytes : N) : bytes :=
  OBS_MAGIC ++ to_be_bytes 2 OBSERVATION_PAYLOAD_ENVELOPE_VERSION ++ [encode_kind kind] ++ [x00]
  ++ to_be_bytes 8 count ++ to_be_bytes 8 payload_bytes.

Definition color_item (v : Rgba8) : bytes := [px_r v; px_g v; px_b v; px_a v].
Definition depth_item (v : f32) : bytes := to_be_bytes 4 v.
Definition normal_item (v : option Normal3) : bytes :=
  match v with
  | None => replicate 13 x00
  | Some v => x01 :: to_be_bytes 4 (nv_x v) ++ to_be_bytes 4 (nv_y v) ++ to_be_bytes 4 (nv_z v)
  end.
Definition entity_item (v : option StableEntityId) : bytes :=
  match v with None => replicate 17 x00 | Some id => x01 :: to_be_bytes 16 id end.
Definition visibility_item (v : EntityVisibility) : bytes :=
  to_be_bytes 16 (ev_entity_id v) ++ to_be_bytes 8 (ev_visible_pixels v).

(** [append_payload]. *)
Definition append_payload (p : ObservationPayload) : bytes :=
  match p with
  | PColor values => mjoin (color_item <$> values)
  | PDepth values => mjoin (depth_item <$> values)
  | PNormal values => mjoin (normal_item <$> values)
  | PEntityId values => mjoin (entity_item <$> values)
  | PVisibility values => mjoin (visibility_item <$> values)
  end.

(** [chunks_exact]: whole chunks of [n] bytes, a shorter tail left out. *)
Fixpoint chunks_loop (fuel n : nat) (l : bytes) : list bytes :=
  match fuel with
  | O => []
  | S fuel => if decide (n ≤ length l)%nat then take n l :: chunks_loop fuel n (drop n l) else []
  end.
Definition chunks_exact (n : nat) (l : bytes) : list bytes := chunks_loop (length l) n l.

(** [uN::from_be_bytes(copy_array(&chunk[start..start + len]))]. *)
Definition be_at {E} (chunk : bytes) (start len : nat) : outcome E N :=
  let! field := index_slice chunk start len in Ok (from_be_bytes field).

(** A loop that decodes every chunk and pushes the value. *)
Definition decode_chunks {A} (f : nat → bytes → outcome ObservationEnvelopeError A) (chunks : list bytes)
    : outcome ObservationEnvelopeError (list A) :=
  out_enumerate (λ values index chunk, let! v := f index chunk in Ok (values ++ [v])) [] 0 chunks.

(** The bodies of the loops of [decode_color], [decode_depth], [decode_normals],
    [decode_entity_ids] and [decode_visibility]. *)
Definition decode_color_item (index : nat) (chunk : bytes) : outcome ObservationEnvelopeError Rgba8 :=
  match chunk with
  | r :: g :: b :: a :: _ => Ok (mkRgba8 r g b a)
  | _ => Panic
  end.

Definition decode_depth_item (index : nat) (chunk : bytes) : outcome ObservationEnvelopeError f32 :=
  let! value := be_at chunk 0 (length chunk) in
  do! guard_err (depth_rejected value) (invalid_value Depth index) then
  Ok value.

Definition decode_normal_item (index : nat) (chunk : bytes) : outcome ObservationEnvelopeError (option Normal3) :=
  let! tag := expect (chunk !! 0%nat) in
  match tag with
  | x00 =>
      do! guard_err (existsb (λ byte, negb (bool_decide (byte = x00))) (drop 1 chunk)) NonCanonicalEncoding then
      Ok None
  | x01 =>
      let! x := be_at chunk 1 4 in
      let! y := be_at chunk 5 4 in
      let! z := be_at chunk 9 4 in
      let v := mkNormal3 x y z in
      do! guard_err (normal_rejected v) (invalid_value Normal index) then
      Ok (Some v)
  | _ => Err NonCanonicalEncoding
  end.

Definition decode_entity_item (index : nat) (chunk : bytes)
    : outcome ObservationEnvelopeError (option StableEntityId) :=
  let! tag := expect (chunk !! 0%nat) in
  match tag with
  | x00 =>
      do! guard_err (existsb (λ byte, negb (bool_decide (byte = x00))) (drop 1 chunk)) NonCanonicalEncoding then
      Ok None
  | x01 =>
      let! entity_id := be_at chunk 1 16 in
      let! entity_id := map_err (λ _, invalid_value EntityId index) (opaque_id_new entity_id) in
      Ok (Some entity_id)
  | _ => Err NonCanonicalEncoding
  end.

Definition decode_visibility_step (st : (option StableEntityId * N) * list EntityVisibility) (index : nat)
    (chunk : bytes)
    : outcome ObservationEnvelopeError ((option StableEntityId * N) * list EntityVisibility) :=
  let! entity_id := be_at chunk 0 16 in
  let! entity_id := map_err (λ _, invalid_value Visibility index) (opaque_id_new entity_id) in
  let! visible_pixels := be_at chunk 16 8 in
  let v := mkVisibility entity_id visible_pixels in
  let! next := visibility_step st.1 index v in
  Ok (next, st.2 ++ [v]).

(** [decode_values] and the functions it dispatches to. *)
Definition decode_values (kind : ObservationKind) (payload : bytes) (runtime_limits : RuntimeLimits)
    : outcome ObservationEnvelopeError ObservationPayload :=
  match kind with
  | Color => let! values := decode_chunks decode_color_item (chunks_exact 4 payload) in Ok (PColor values)
  | Depth => let! values := decode_chunks decode_depth_item (chunks_exact 4 payload) in Ok (PDepth values)
  | Normal => let! values := decode_chunks decode_normal_item (chunks_exact 13 payload) in Ok (PNormal values)
  | EntityId => let! values := decode_chunks decode_entity_item (chunks_exact 17 payload) in Ok (PEntityId values)
  | Visibility =>
      let! (_, total_pixels, values) :=
        out_enumerate decode_visibility_step ((None, 0), []) 0 (chunks_exact 24 payload) in
      let limit := max_observation_pixels runtime_limits in
      do! guard_err (limit <? total_pixels) (VisibilityPixelLimitExceeded total_pixels limit) then
      Ok (PVisibility values)
  end.

Section envelope.
Context `{Digest} `{JsonCodec ObservationMetadata}.

(** [integrity_digest]. *)
Definition integrity_digest (prefix metadata payload : bytes) : bytes :=
  sha256 (prefix ++ metadata ++ payload).

(** [canonical_metadata]. *)
Definition canonical_metadata (metadata : ObservationMetadata) (runtime_limits : RuntimeLimits)
    : outcome ObservationEnvelopeError bytes :=
  map_err (λ _, InvalidMetadata) (encode metadata runtime_limits).

(** [encode_payload]. *)
Definition encode_payload (metadata : ObservationMetadata) (payload : ObservationPayload)
    (runtime_limits : RuntimeLimits) (payload_limits : ObservationPayloadLimits)
    : outcome ObservationEnvelopeError bytes :=
  let! metadata_json := canonical_metadata metadata runtime_limits in
  let kind := payload_kind payload in
  do! guard_err (negb (bool_decide (om_kind metadata = kind))) (KindMismatch (om_kind metadata) kind) then
  let count := item_count payload in
  do! validate_count metadata kind count runtime_limits payload_limits then
  do! validate_values payload runtime_limits then
  let! payload_bytes := encoded_payload_bytes kind count in
  let! envelope_bytes := total_envelope_bytes payload_bytes in
  do! enforce_envelope_limit envelope_bytes payload_limits then
  let prefix := header_prefix kind count payload_bytes in
  let body := append_payload payload in
  Ok (prefix ++ integrity_digest prefix metadata_json body ++ body).

(** [decode_payload]. *)
Definition decode_payload (metadata : ObservationMetadata) (encoded : bytes)
    (runtime_limits : RuntimeLimits) (payload_limits : ObservationPayloadLimits)
    : outcome ObservationEnvelopeError ObservationPayload :=
  let actual_bytes := len_or_max u64_max (length encoded) in
  do! enforce_envelope_limit actual_bytes payload_limits then
  let minimum := N.of_nat OBSERVATION_PAYLOAD_ENVELOPE_HEADER_BYTES in
  do! guard_err (actual_bytes <? minimum) (OeTruncated minimum actual_bytes) then
  let! magic := index_slice encoded 0 (length OBS_MAGIC) in
  do! guard_err (negb (bool_decide (magic = OBS_MAGIC))) OeInvalidMagic then
  let! version := be_at encoded OBS_VERSION_OFFSET 2 in
  do! guard_err (negb (version =? OBSERVATION_PAYLOAD_ENVELOPE_VERSION)) (OeUnsupportedVersion version) then
  let! kind_byte := expect (encoded !! OBS_KIND_OFFSET) in
  let! kind := decode_kind kind_byte in
  let! reserved := expect (encoded !! OBS_RESERVED_OFFSET) in
  do! guard_err (negb (bool_decide (reserved = x00))) NonCanonicalEncoding then
  let! count := be_at encoded OBS_COUNT_OFFSET 8 in
  let! payload_bytes := be_at encoded OBS_LENGTH_OFFSET 8 in
  let! expected_total := total_envelope_bytes payload_bytes in
  do! guard_err (actual_bytes <? expected_total) (OeTruncated expected_total actual_bytes) then
  do! guard_err (expected_total <? actual_bytes) (OeTrailingBytes expected_total actual_bytes) then
  let! required_payload_bytes := encoded_payload_bytes kind count in
  do! guard_err (negb (payload_bytes =? required_payload_bytes))
    (PayloadLengthMismatch required_payload_bytes payload_bytes) then
  let! metadata_json := canonical_metadata metadata runtime_limits in
  do! guard_err (negb (bool_decide (om_kind metadata = kind))) (KindMismatch (om_kind metadata) kind) then
  do! validate_count metadata kind count runtime_limits payload_limits then
  let payload := drop OBSERVATION_PAYLOAD_ENVELOPE_HEADER_BYTES encoded in
  let! prefix := index_slice encoded 0 OBS_DIGEST_OFFSET in
  let! digest := index_slice encoded OBS_DIGEST_OFFSET 32 in
  do! guard_err (negb (bool_decide (integrity_digest prefix metadata_json payload = digest))) OeIntegrityMismatch then
  let! decoded := decode_values kind payload runtime_limits in
  do! validate_values decoded runtime_limits then
  Ok decoded.

End envelope.

(** ** Chunks *)

Lemma chunks_loop_join fuel n (cs : list bytes) :
  (0 < n)%nat → Forall (λ c, length c = n) cs → (length cs ≤ fuel)%nat → chunks_loop fuel n (mjoin cs) = cs.
Proof.
  intros Hn Hcs. revert fuel. induction Hcs as [|c cs Hc _ IH]; intros fuel Hf; cbn in Hf |- *.
  - destruct fuel; cbn; [done|]. case_decide; [lia|done].
  - destruct fuel as [|fuel]; [lia|]. cbn [chunks_loop]. rewrite length_app, decide_True by lia.
    rewrite <-Hc, take_app_length, drop_app_length. f_equal. rewrite Hc. apply IH. lia.
Qed.

Lemma length_mjoin_chunks n (cs : list bytes) :
  Forall (λ c, length c = n) cs → length (mjoin cs) = (length cs * n)%nat.
Proof.
  induction 1 as [|c cs Hc _ IH]; [done|]. change (mjoin (c :: cs)) with (c ++ mjoin cs).
  rewrite length_app, IH. cbn. lia.
Qed.

Lemma chunks_exact_join n (cs : list bytes) :
  (0 < n)%nat → Forall (λ c, length c = n) cs → chunks_exact n (mjoin cs) = cs.
Proof.
  intros Hn Hcs. apply chunks_loop_join; [done..|]. rewrite (length_mjoin_chunks n) by done. nia.
Qed.

Lemma split_chunks n k (l : bytes) :
  length l = (k * n)%nat → ∃ cs, l = mjoin cs ∧ Forall (λ c, length c = n) cs ∧ length cs = k.
Proof.
  revert l. induction k as [|k IH]; intros l Hl.
  - exists []. by destruct l.
  - destruct (IH (drop n l)) as (cs & Hcs & Hf & Hk); [rewrite length_drop; lia|].
    exists (take n l :: cs). split_and!; [|constructor; [rewrite length_take; lia|done]|cbn; lia].
    change (mjoin (take n l :: cs)) with (take n l ++ mjoin cs). by rewrite <-Hcs, take_drop.
Qed.

(** ** Items *)

Lemma out_enumerate_pure {E A} (check : A → bool) (err : nat → E) (l : list A) i u :
  out_enumerate (λ _ index a, guard_err (check a) (err index)) tt i l = Ok u ↔ Forall (λ a, check a = false) l.
Proof.
  revert i. induction l as [|a l IH]; intros i; cbn [out_enumerate]; [by destruct u|].
  rewrite out_bind_ok, Forall_cons, <-(IH (S i)). setoid_rewrite guard_err_ok. split.
  - intros ([] & ? & ?). done.
  - intros [? ?]. by exists tt.
Qed.

(** A loop that decodes chunk by chunk inverts a loop that appends item by item. *)
Lemma decode_chunks_ok {A} (f : nat → bytes → outcome ObservationEnvelopeError A) (item : A → bytes)
    (valid : A → Prop) n cs vs :
  (∀ i c v, length c = n → f i c = Ok v ↔ valid v ∧ item v = c) →
  Forall (λ c, length c = n) cs →
  decode_chunks f cs = Ok vs ↔ Forall valid vs ∧ item <$> vs = cs.
Proof.
  intros Hf Hcs. unfold decode_chunks.
  assert (∀ acc i r, out_enumerate (λ values index chunk, let! v := f index chunk in Ok (values ++ [v])) acc i cs = Ok r ↔
    ∃ vs, r = acc ++ vs ∧ Forall valid vs ∧ item <$> vs = cs) as Hgen.
  { induction Hcs as [|c cs Hc _ IH]; intros acc i r; cbn [out_enumerate].
    - split; [intros <-%Ok_inj; exists []; by rewrite app_nil_r|].
      intros (vs' & -> & _ & Hv). apply fmap_nil_inv in Hv as ->. by rewrite app_nil_r.
    - rewrite out_bind_ok. split.
      + intros (acc' & Ha & Hr). apply out_bind_ok in Ha as (v & Hv & <-%Ok_inj). apply IH in Hr as (vs' & -> & Hvs & <-).
        apply Hf in Hv as [Hv <-]; [|done]. exists (v :: vs'). by rewrite <-app_assoc, Forall_cons.
      + intros (vs' & -> & Hvs & He). apply fmap_cons_inv in He as (v & vs2 & Hc2 & Hcs2 & Heq).
        subst vs'. apply Forall_cons in Hvs as [Hv Hvs]. exists (acc ++ [v]). split.
        * rewrite (proj2 (Hf i c v Hc)) by done. done.
        * apply IH. exists vs2. by rewrite <-app_assoc. }
  rewrite Hgen. split; [by intros (? & -> & ?)|]. intros ?. by exists vs.
Qed.

Lemma be_at_whole {E} (c : bytes) : be_at (E:=E) c 0 (length c) = Ok (from_be_bytes c).
Proof. unfold be_at. by rewrite (index_slice_at c [] c []) by (rewrite ?app_nil_r; done). Qed.

Lemma be_at_at {E} l pre v rest n k :
  l = pre ++ v ++ rest → n = length pre → k = length v → be_at (E:=E) l n k = Ok (from_be_bytes v).
Proof. intros. unfold be_at. by rewrite (index_slice_at l pre v rest). Qed.

Lemma be_at_normal {E} (l : bytes) start len : (start + len ≤ length l)%nat → normal (be_at (E:=E) l start len).
Proof. intros. unfold be_at. apply out_bind_normal; [by apply index_slice_normal|done]. Qed.

Lemma be_value_bits l : length l = 4%nat → f32_bits (from_be_bytes l).
Proof. intros Hl. pose proof (from_be_bytes_lt l) as Hb. rewrite Hl in Hb. exact Hb. Qed.

(** A pattern back to its bytes. *)
Lemma be_field n v l : v < 256 ^ N.of_nat n → length l = n → to_be_bytes n v = l ↔ v = from_be_bytes l.
Proof.
  intros Hv Hl. split; [intros <-; by rewrite from_to_be_bytes|]. intros ->. by apply be_bytes_back.
Qed.

Lemma zero_tail (l : bytes) :
  existsb (λ byte, negb (bool_decide (byte = x00))) l = false ↔ l = replicate (length l) x00.
Proof.
  induction l as [|b l IH]; [done|]. cbn. rewrite orb_false_iff, IH, negb_false_iff, bool_decide_eq_true.
  split; [intros [-> <-]; done|]. by intros [= -> ?].
Qed.

Lemma decode_color_ok i c v : length c = 4%nat → decode_color_item i c = Ok v ↔ True ∧ color_item v = c.
Proof.
  intros Hc. destruct c as [|r [|g [|b [|a [|? ?]]]]]; try done. cbn. unfold color_item.
  split; [by intros <-%Ok_inj|]. intros [_ [= <- <- <- <-]]. by destruct v.
Qed.

Lemma decode_depth_ok i c v :
  length c = 4%nat →
  decode_depth_item i c = Ok v ↔ (f32_bits v ∧ depth_rejected v = false) ∧ depth_item v = c.
Proof.
  intros Hc. unfold decode_depth_item, depth_item. rewrite be_at_whole. cbn [out_bind].
  rewrite out_bind_ok. setoid_rewrite guard_err_ok. split.
  - intros (_ & Hd & <-%Ok_inj). split; [split; [by apply be_value_bits|done]|by apply be_bytes_back].
  - intros [[Hb Hd] Hv]. apply be_field in Hv; [|done..]. subst v. by exists tt.
Qed.

Lemma cons_tail {A} (x y : A) l k : x :: l = y :: k → l = k.
Proof. congruence. Qed.

Definition typed_normal (v : Normal3) : Prop := f32_bits (nv_x v) ∧ f32_bits (nv_y v) ∧ f32_bits (nv_z v).

(** A field of a chunk as a slice of it. *)
Lemma chunk_fields n m (l : bytes) :
  length l = (n + m)%nat → ∃ a b, l = a ++ b ∧ length a = n ∧ length b = m.
Proof.
  intros Hl. exists (take n l), (drop n l). rewrite take_drop, length_take, length_drop. split_and!; lia || done.
Qed.

Lemma decode_normal_ok i c v :
  length c = 13%nat →
  decode_normal_item i c = Ok v ↔
  from_option (λ n, typed_normal n ∧ normal_rejected n = false) True v ∧ normal_item v = c.
Proof.
  intros Hc. destruct c as [|tag rest]; [done|]. cbn in Hc. injection Hc as Hc.
  unfold decode_normal_item. cbn [lookup list_lookup expect out_bind].
  assert (tag = x00 ∨ tag = x01 ∨ (tag ≠ x00 ∧ tag ≠ x01)) as [->|[->|[H0 H1]]].
  { destruct (decide (tag = x00)); [by left|]. destruct (decide (tag = x01)); [by right; left|]. by right; right. }
  - rewrite out_bind_ok. setoid_rewrite guard_err_ok. change (drop 1 (x00 :: rest)) with rest. split.
    + intros (_ & Hz & <-%Ok_inj). split; [done|]. apply zero_tail in Hz. rewrite Hc in Hz. by subst rest.
    + intros [_ Hv]. destruct v as [v|]; [done|]. cbn in Hv. injection Hv as <-. exists tt. done.
  - destruct (chunk_fields 4 8 rest) as (x & r1 & -> & Lx & L1); [lia|].
    destruct (chunk_fields 4 4 r1) as (y & z & -> & Ly & Lz); [lia|].
    rewrite (be_at_at _ [x01] x (y ++ z)) by done. cbn [out_bind].
    rewrite (be_at_at _ (x01 :: x) y z) by (cbn; rewrite ?Lx; done). cbn [out_bind].
    rewrite (be_at_at _ (x01 :: x ++ y) z []) by
      (cbn [length]; rewrite ?length_app, ?Lx, ?Ly, ?app_nil_r; cbn; rewrite <-?app_assoc; done). cbn [out_bind].
    rewrite out_bind_ok. setoid_rewrite guard_err_ok. split.
    + intros (_ & Hr & <-%Ok_inj). cbn [from_option]. split; [split; [|done]|].
      * split_and!; by apply be_value_bits.
      * unfold normal_item. cbn [nv_x nv_y nv_z]. by rewrite !be_bytes_back.
    + intros [Ht Hv]. destruct v as [[a b d]|]; [|done]. cbn [from_option] in Ht. destruct Ht as [(Ha & Hb & Hd) Hr].
      unfold normal_item in Hv. cbn [nv_x nv_y nv_z] in *. apply cons_tail in Hv.
      apply app_inj_1 in Hv as [Hx Hv]; [|by rewrite length_to_be_bytes].
      apply app_inj_1 in Hv as [Hy Hz]; [|by rewrite length_to_be_bytes].
      apply be_field in Hx, Hy, Hz; [|done..]. subst. by exists tt.
  - destruct tag; try done.
    all: split; [done|intros [_ Hv]; destruct v; by apply (f_equal head) in Hv].
Qed.

Lemma opaque_id_new_typed v w :
  v ≤ u128_max → opaque_id_new v = Ok w ↔ typed_id w ∧ w = v.
Proof.
  intros Hv. unfold opaque_id_new, typed_id. destruct (N.eqb_spec v 0) as [->|Hne]; split.
  - done.
  - intros [[? _] ->]. lia.
  - intros <-%Ok_inj. split; [split; lia|done].
  - by intros [_ ->].
Qed.

Lemma decode_entity_ok i c v :
  length c = 17%nat →
  decode_entity_item i c = Ok v ↔ from_option typed_id True v ∧ entity_item v = c.
Proof.
  intros Hc. destruct c as [|tag rest]; [done|]. cbn in Hc. injection Hc as Hc.
  unfold decode_entity_item. cbn [lookup list_lookup expect out_bind].
  assert (tag = x00 ∨ tag = x01 ∨ (tag ≠ x00 ∧ tag ≠ x01)) as [->|[->|[H0 H1]]].
  { destruct (decide (tag = x00)); [by left|]. destruct (decide (tag = x01)); [by right; left|]. by right; right. }
  - rewrite out_bind_ok. setoid_rewrite guard_err_ok. change (drop 1 (x00 :: rest)) with rest. split.
    + intros (_ & Hz & <-%Ok_inj). split; [done|]. apply zero_tail in Hz. rewrite Hc in Hz. by subst rest.
    + intros [_ Hv]. destruct v as [v|]; [done|]. cbn in Hv. injection Hv as <-. exists tt. done.
  - rewrite (be_at_at _ [x01] rest []) by (rewrite ?app_nil_r; done). cbn [out_bind].
    assert (from_be_bytes rest ≤ u128_max) as Hb.
    { pose proof (from_be_bytes_lt rest) as Hlt. rewrite Hc in Hlt.
      change (256 ^ N.of_nat 16) with (u128_max + 1) in Hlt. lia. }
    rewrite out_bind_ok. setoid_rewrite map_err_ok. split.
    + intros (w & Hw & <-%Ok_inj). apply opaque_id_new_typed in Hw as [Hw ->]; [|done].
      split; [done|]. unfold entity_item. by rewrite be_bytes_back.
    + intros [Ht Hv]. destruct v as [v|]; [|done]. cbn [from_option] in Ht. unfold entity_item in Hv. apply cons_tail in Hv.
      apply be_field in Hv; [|destruct Ht; change (256 ^ N.of_nat 16) with (u128_max + 1); lia|done].
      exists v. split; [|done]. by apply opaque_id_new_typed.
  - destruct tag; try done.
    all: split; [done|intros [_ Hv]; destruct v; by apply (f_equal head) in Hv].
Qed.

Definition typed_visibility (v : EntityVisibility) : Prop :=
  typed_id (ev_entity_id v) ∧ ev_visible_pixels v ≤ u64_max.

(** A visibility chunk, and the list state it leads to. *)
Lemma decode_visibility_step_ok st acc i c r :
  length c = 24%nat →
  decode_visibility_step (st, acc) i c = Ok r ↔
  ∃ v st', typed_visibility v ∧ visibility_item v = c ∧ visibility_step st i v = Ok st' ∧ r = (st', acc ++ [v]).
Proof.
  intros Hc. destruct (chunk_fields 16 8 c) as (a & b & -> & La & Lb); [lia|].
  unfold decode_visibility_step. cbn [fst snd].
  rewrite (be_at_at _ [] a b) by done. cbn [out_bind].
  rewrite (be_at_at _ a b []) by (rewrite ?app_nil_r; done).
  assert (from_be_bytes a ≤ u128_max) as Ha.
  { pose proof (from_be_bytes_lt a) as Hlt. rewrite La in Hlt. change (256 ^ N.of_nat 16) with (u128_max + 1) in Hlt. lia. }
  assert (from_be_bytes b ≤ u64_max) as Hb.
  { pose proof (from_be_bytes_lt b) as Hlt. rewrite Lb in Hlt. change (256 ^ N.of_nat 8) with (u64_max + 1) in Hlt. lia. }
  rewrite out_bind_ok. setoid_rewrite map_err_ok. split.
  - intros (w & Hw & Hr). apply opaque_id_new_typed in Hw as [Hw ->]; [|done]. cbn [out_bind] in Hr.
    apply out_bind_ok in Hr as (st' & Hs & <-%Ok_inj).
    exists (mkVisibility (from_be_bytes a) (from_be_bytes b)), st'. split_and!; [done..| |done|done].
    unfold visibility_item. cbn [ev_entity_id ev_visible_pixels]. by rewrite !be_bytes_back.
  - intros ([w p] & st' & [Hw Hp] & Hi & Hs & ->). unfold visibility_item in Hi. cbn [ev_entity_id ev_visible_pixels] in *.
    apply app_inj_1 in Hi as [Hx Hy]; [|by rewrite length_to_be_bytes].
    apply be_field in Hx, Hy; [|change (256 ^ N.of_nat 8) with (u64_max + 1); lia|done|
      destruct Hw; change (256 ^ N.of_nat 16) with (u128_max + 1); lia|done].
    subst w p. exists (from_be_bytes a). split; [by apply opaque_id_new_typed|]. cbn [out_bind]. by rewrite Hs.
Qed.

Lemma decode_visibility_ok cs st acc i st' r :
  Forall (λ c, length c = 24%nat) cs →
  out_enumerate decode_visibility_step (st, acc) i cs = Ok (st', r) ↔
  ∃ vs, r = acc ++ vs ∧ Forall typed_visibility vs ∧ visibility_item <$> vs = cs ∧
    out_enumerate visibility_step st i vs = Ok st'.
Proof.
  intros Hcs. revert st acc i. induction Hcs as [|c cs Hc _ IH]; intros st acc i; cbn [out_enumerate].
  - split.
    + intros [= <- <-]. exists []. by rewrite app_nil_r.
    + intros (vs & -> & _ & Hv & Hs). apply fmap_nil_inv in Hv as ->. cbn in Hs. apply Ok_inj in Hs as <-.
      by rewrite app_nil_r.
  - rewrite out_bind_ok. split.
    + intros (r1 & Hr1 & Hr). apply decode_visibility_step_ok in Hr1 as (v & st1 & Hv & Hi & Hs & ->); [|done].
      apply IH in Hr as (vs & -> & Hvs & <- & Hst). exists (v :: vs). rewrite <-app_assoc.
      split_and!; [done|by constructor|by rewrite fmap_cons, Hi|]. cbn [out_enumerate]. by rewrite Hs.
    + intros (vs & -> & Hvs & He & Hst). apply fmap_cons_inv in He as (v & vs2 & Hi & Hvs2 & ->).
      apply Forall_cons in Hvs as [Hv Hvs]. cbn [out_enumerate] in Hst. apply out_bind_ok in Hst as (st1 & Hs & Hst).
      exists (st1, acc ++ [v]). split; [|apply IH; exists vs2; by rewrite <-app_assoc].
      apply decode_visibility_step_ok; [done|]. exists v, st1. by split_and!.
Qed.

(** ** Values *)

Definition typed_payload (p : ObservationPayload) : Prop :=
  match p with
  | PColor _ => True
  | PDepth values => Forall f32_bits values
  | PNormal values => Forall (from_option typed_normal True) values
  | PEntityId values => Forall (from_option typed_id True) values
  | PVisibility values => Forall typed_visibility values
  end.

Definition payload_length (p : ObservationPayload) : nat :=
  match p with
  | PColor values => length values
  | PDepth values => length values
  | PNormal values => length values
  | PEntityId values => length values
  | PVisibility values => length values
  end.

Lemma item_count_length p : item_count p = len_or_max u64_max (payload_length p).
Proof. by destruct p. Qed.

Lemma normal_item_length v : length (normal_item v) = 13%nat.
Proof. destruct v as [v|]; [|done]. unfold normal_item. cbn [length]. by rewrite !length_app, !length_to_be_bytes. Qed.
Lemma entity_item_length v : length (entity_item v) = 17%nat.
Proof. destruct v as [v|]; [|done]. unfold entity_item. cbn [length]. by rewrite length_to_be_bytes. Qed.
Lemma visibility_item_length v : length (visibility_item v) = 24%nat.
Proof. unfold visibility_item. by rewrite length_app, !length_to_be_bytes. Qed.

Lemma items_length {A} (item : A → bytes) n (l : list A) :
  (∀ a, length (item a) = n) → length (mjoin (item <$> l)) = (length l * n)%nat.
Proof.
  intros Hi. rewrite (length_mjoin_chunks n), length_fmap; [done|]. apply Forall_fmap, Forall_true. intros. apply Hi.
Qed.

Lemma append_payload_length p :
  N.of_nat (length (append_payload p)) = N.of_nat (payload_length p) * item_bytes (payload_kind p).
Proof.
  destruct p as [l|l|l|l|l]; cbn [append_payload payload_length payload_kind item_bytes].
  - rewrite (items_length _ 4) by done. lia.
  - rewrite (items_length _ 4) by (intros; apply length_to_be_bytes). lia.
  - rewrite (items_length _ 13) by apply normal_item_length. lia.
  - rewrite (items_length _ 17) by apply entity_item_length. lia.
  - rewrite (items_length _ 24) by apply visibility_item_length. lia.
Qed.

(** Decoding a list of chunks written item by item. *)
Lemma decode_items_ok {A} (f : nat → bytes → outcome ObservationEnvelopeError A) (item : A → bytes)
    (valid : A → Prop) n k body vs :
  (0 < n)%nat → (∀ i c v, length c = n → f i c = Ok v ↔ valid v ∧ item v = c) → (∀ v, length (item v) = n) →
  length body = (k * n)%nat →
  decode_chunks f (chunks_exact n body) = Ok vs ↔ Forall valid vs ∧ mjoin (item <$> vs) = body.
Proof.
  intros Hn Hf Hi Hb. destruct (split_chunks n k body Hb) as (cs & -> & Hcs & _).
  rewrite chunks_exact_join by done. rewrite (decode_chunks_ok f item valid n) by done.
  split; [by intros [? <-]|]. intros [Hv He]. split; [done|].
  rewrite <-(chunks_exact_join n cs), <-He by done. symmetry. apply chunks_exact_join; [done|].
  apply Forall_fmap, Forall_true. intros. apply Hi.
Qed.

Lemma forall_bits_valid l rl :
  Forall (λ v, f32_bits v ∧ depth_rejected v = false) l ↔ Forall f32_bits l ∧ validate_values (PDepth l) rl = Ok tt.
Proof. cbn [validate_values]. by rewrite out_enumerate_pure, Forall_and. Qed.

Lemma forall_normal_valid l rl :
  Forall (from_option (λ n, typed_normal n ∧ normal_rejected n = false) True) l ↔
  Forall (from_option typed_normal True) l ∧ validate_values (PNormal l) rl = Ok tt.
Proof.
  cbn [validate_values]. generalize 0%nat as i. induction l as [|v l IH]; intros i; cbn [out_enumerate]; [done|].
  rewrite !Forall_cons, out_bind_ok. rewrite (IH (S i)). destruct v as [v|]; cbn [from_option].
  - setoid_rewrite guard_err_ok. split; [intros [[? ?] [? ?]]; split_and!; [done..|by exists tt]|].
    by intros [[? ?] ([] & ? & ?)].
  - split; [intros [_ [? ?]]; split_and!; [done..|by exists tt]|]. by intros [[_ ?] ([] & _ & ?)].
Qed.

(** Decoding values accepts exactly the typed payloads that validate. *)
Lemma decode_values_ok kind body rl p k :
  N.of_nat (length body) = k * item_bytes kind →
  decode_values kind body rl = Ok p ↔
  payload_kind p = kind ∧ typed_payload p ∧ validate_values p rl = Ok tt ∧ append_payload p = body.
Proof.
  intros Hb. unfold decode_values. destruct kind; rewrite out_bind_ok; cbn [item_bytes] in Hb.
  - setoid_rewrite (decode_items_ok _ _ (λ _, True) 4 (N.to_nat k)); [|lia|apply decode_color_ok|done|lia]. split.
    + by intros (vs & [_ He] & <-%Ok_inj).
    + destruct p; try (by intros [? _]). intros (_ & _ & _ & He). exists values. split; [|done]. split; [by apply Forall_true|done].
  - setoid_rewrite (decode_items_ok _ _ _ 4 (N.to_nat k)); [|lia|apply decode_depth_ok|intros; apply length_to_be_bytes|lia].
    split.
    + intros (vs & [Hv He] & <-%Ok_inj). apply (forall_bits_valid _ rl) in Hv as [? ?]. by split_and!.
    + destruct p; try (by intros [? _]). intros (_ & Ht & Hv & He). exists values. split; [|done]. split; [|done].
      by apply (forall_bits_valid _ rl).
  - setoid_rewrite (decode_items_ok _ _ _ 13 (N.to_nat k)); [|lia|apply decode_normal_ok|apply normal_item_length|lia].
    split.
    + intros (vs & [Hv He] & <-%Ok_inj). apply (forall_normal_valid _ rl) in Hv as [? ?]. by split_and!.
    + destruct p; try (by intros [? _]). intros (_ & Ht & Hv & He). exists values. split; [|done]. split; [|done].
      by apply (forall_normal_valid _ rl).
  - setoid_rewrite (decode_items_ok _ _ _ 17 (N.to_nat k)); [|lia|apply decode_entity_ok|apply entity_item_length|lia].
    split.
    + by intros (vs & [Hv He] & <-%Ok_inj).
    + destruct p; try (by intros [? _]). intros (_ & Ht & Hv & He). by exists values.
  - destruct (split_chunks 24 (N.to_nat k) body) as (cs & -> & Hcs & _); [lia|].
    rewrite chunks_exact_join by (done || lia). split.
    + intros ([st vs] & Hd & Hr). apply decode_visibility_ok in Hd as (vs' & -> & Ht & <- & Hs); [|done].
      destruct st as [pr total]. apply out_bind_ok in Hr as ([] & Hg & <-%Ok_inj).
      split_and!; [done..| |done]. cbn [validate_values app]. by rewrite Hs.
    + destruct p as [| | | |vs]; try (by intros [? _]). intros (_ & Ht & Hv & He). cbn [validate_values] in Hv.
      apply out_bind_ok in Hv as ([pr total] & Hs & Hg). exists ((pr, total), vs). split; [|by rewrite Hg].
      apply decode_visibility_ok; [done|]. exists vs. split_and!; [done..| |done].
      rewrite <-(chunks_exact_join 24 cs), <-He by (done || lia). symmetry. apply chunks_exact_join; [lia|].
      apply Forall_fmap, Forall_true. intros. apply visibility_item_length.
Qed.

(** ** Envelopes *)

(** The fixed header: magic, version, kind, reserved, count, length, digest. *)
Record obs_fields := mkObsFields {
  of_magic : bytes; of_version : bytes; of_kind : byte; of_reserved : byte;
  of_count : bytes; of_length : bytes; of_digest : bytes; of_body : bytes;
}.

Definition fields_prefix (f : obs_fields) : bytes :=
  of_magic f ++ of_version f ++ [of_kind f] ++ [of_reserved f] ++ of_count f ++ of_length f.
Definition fields_bytes (f : obs_fields) : bytes := fields_prefix f ++ of_digest f ++ of_body f.

Definition fields_sized (f : obs_fields) : Prop :=
  length (of_magic f) = 8%nat ∧ length (of_version f) = 2%nat ∧ length (of_count f) = 8%nat ∧
  length (of_length f) = 8%nat ∧ length (of_digest f) = 32%nat.

Lemma fields_split (l : bytes) : (60 ≤ length l)%nat → ∃ f, l = fields_bytes f ∧ fields_sized f.
Proof.
  intros Hl. destruct (chunk_fields 8 (length l - 8) l) as (magic & l1 & -> & ? & ?); [lia|].
  destruct (chunk_fields 2 (length l1 - 2) l1) as (v & l2 & -> & ? & ?); [lia|].
  destruct l2 as [|k [|r l3]]; [cbn in *; rewrite !length_app in *; cbn in *; lia..|].
  rewrite !length_app in *. cbn [length] in *.
  destruct (chunk_fields 8 (length l3 - 8) l3) as (c & l4 & -> & ? & ?); [lia|]. rewrite !length_app in *.
  destruct (chunk_fields 8 (length l4 - 8) l4) as (n & l5 & -> & ? & ?); [lia|]. rewrite !length_app in *.
  destruct (chunk_fields 32 (length l5 - 32) l5) as (d & body & -> & ? & ?); [lia|].
  exists (mkObsFields magic v k r c n d body). split; [|done]. unfold fields_bytes, fields_prefix.
  cbn [of_magic of_version of_kind of_reserved of_count of_length of_digest of_body]. by rewrite <-!app_assoc.
Qed.

Lemma fields_prefix_length f : fields_sized f → length (fields_prefix f) = 28%nat.
Proof. intros (? & ? & ? & ? & ?). unfold fields_prefix. rewrite !length_app. cbn. lia. Qed.

Lemma fields_bytes_length f : fields_sized f → length (fields_bytes f) = (60 + length (of_body f))%nat.
Proof.
  intros Hf. unfold fields_bytes. rewrite !length_app, fields_prefix_length by done. destruct Hf as (? & ? & ? & ? & ?). lia.
Qed.

Section exact.
Context `{Digest} `{JsonCodec ObservationMetadata}.

(** What decoding does with the fields of an envelope. *)
Definition decode_fields (metadata : ObservationMetadata) (f : obs_fields) (rl : RuntimeLimits)
    (pl : ObservationPayloadLimits) (actual : N) : outcome ObservationEnvelopeError ObservationPayload :=
  do! enforce_envelope_limit actual pl then
  do! guard_err (actual <? 60) (OeTruncated 60 actual) then
  do! guard_err (negb (bool_decide (of_magic f = OBS_MAGIC))) OeInvalidMagic then
  do! guard_err (negb (from_be_bytes (of_version f) =? 1)) (OeUnsupportedVersion (from_be_bytes (of_version f))) then
  let! kind := decode_kind (of_kind f) in
  do! guard_err (negb (bool_decide (of_reserved f = x00))) NonCanonicalEncoding then
  let count := from_be_bytes (of_count f) in
  let payload_bytes := from_be_bytes (of_length f) in
  let! expected_total := total_envelope_bytes payload_bytes in
  do! guard_err (actual <? expected_total) (OeTruncated expected_total actual) then
  do! guard_err (expected_total <? actual) (OeTrailingBytes expected_total actual) then
  let! required := encoded_payload_bytes kind count in
  do! guard_err (negb (payload_bytes =? required)) (PayloadLengthMismatch required payload_bytes) then
  let! metadata_json := canonical_metadata metadata rl in
  do! guard_err (negb (bool_decide (om_kind metadata = kind))) (KindMismatch (om_kind metadata) kind) then
  do! validate_count metadata kind count rl pl then
  do! guard_err (negb (bool_decide (integrity_digest (fields_prefix f) metadata_json (of_body f) = of_digest f)))
    OeIntegrityMismatch then
  let! decoded := decode_values kind (of_body f) rl in
  do! validate_values decoded rl then
  Ok decoded.

Lemma decode_payload_fields m f rl pl :
  fields_sized f →
  decode_payload m (fields_bytes f) rl pl = decode_fields m f rl pl (len_or_max u64_max (60 + length (of_body f))).
Proof.
  intros Hf. pose proof (fields_prefix_length f Hf) as Hp. pose proof (fields_bytes_length f Hf) as Hl.
  destruct Hf as (Lm & Lv & Lc & Ln & Ld). unfold decode_payload, decode_fields. rewrite Hl.
  change (N.of_nat OBSERVATION_PAYLOAD_ENVELOPE_HEADER_BYTES) with 60.
  change OBSERVATION_PAYLOAD_ENVELOPE_VERSION with 1. change (length OBS_MAGIC) with 8%nat.
  change OBS_VERSION_OFFSET with 8%nat. change OBS_KIND_OFFSET with 10%nat. change OBS_RESERVED_OFFSET with 11%nat.
  change OBS_COUNT_OFFSET with 12%nat. change OBS_LENGTH_OFFSET with 20%nat. change OBS_DIGEST_OFFSET with 28%nat.
  change OBSERVATION_PAYLOAD_ENVELOPE_HEADER_BYTES with 60%nat.
  set (rest := of_digest f ++ of_body f).
  assert (fields_bytes f = of_magic f ++ of_version f ++ of_kind f :: of_reserved f :: of_count f ++ of_length f ++ rest) as E.
  { unfold fields_bytes, fields_prefix. by rewrite <-!app_assoc. }
  rewrite (index_slice_at _ [] (of_magic f) (of_version f ++ of_kind f :: of_reserved f :: of_count f ++ of_length f ++ rest)) by done.
  rewrite (be_at_at _ (of_magic f) (of_version f) (of_kind f :: of_reserved f :: of_count f ++ of_length f ++ rest)) by done.
  assert (fields_bytes f !! 10%nat = Some (of_kind f) ∧ fields_bytes f !! 11%nat = Some (of_reserved f)) as [E1 E2].
  { rewrite E. rewrite !app_assoc. split; rewrite lookup_app_r; rewrite length_app, Lm, Lv; done || lia. }
  rewrite E1, E2. cbn [expect out_bind].
  rewrite (be_at_at _ (of_magic f ++ of_version f ++ [of_kind f] ++ [of_reserved f]) (of_count f) (of_length f ++ rest)) by
    (rewrite ?length_app, ?Lm, ?Lv, <-?app_assoc; done).
  rewrite (be_at_at _ (of_magic f ++ of_version f ++ [of_kind f] ++ [of_reserved f] ++ of_count f) (of_length f) rest) by
    (rewrite ?length_app, ?Lm, ?Lv, ?Lc, <-?app_assoc; done).
  rewrite (index_slice_at _ [] (fields_prefix f) rest) by done.
  rewrite (index_slice_at _ (fields_prefix f) (of_digest f) (of_body f)) by done.
  assert (drop 60 (fields_bytes f) = of_body f) as ->.
  { unfold fields_bytes. rewrite app_assoc, drop_app_length'; [done|]. rewrite length_app. lia. }
  reflexivity.
Qed.

Definition payload_bytes_of (p : ObservationPayload) : N :=
  N.of_nat (payload_length p) * item_bytes (payload_kind p).

(** The fields encoding writes for a payload under its metadata's canonical form. *)
Definition payload_fields (json : bytes) (p : ObservationPayload) : obs_fields :=
  let prefix := header_prefix (payload_kind p) (N.of_nat (payload_length p)) (payload_bytes_of p) in
  mkObsFields OBS_MAGIC (to_be_bytes 2 1) (encode_kind (payload_kind p)) x00
    (to_be_bytes 8 (N.of_nat (payload_length p))) (to_be_bytes 8 (payload_bytes_of p))
    (integrity_digest prefix json (append_payload p)) (append_payload p).

(** The payloads an envelope can carry. *)
Definition payload_admissible (m : ObservationMetadata) (p : ObservationPayload) (rl : RuntimeLimits)
    (pl : ObservationPayloadLimits) : Prop :=
  om_kind m = payload_kind p ∧
  validate_count m (payload_kind p) (N.of_nat (payload_length p)) rl pl = Ok tt ∧
  validate_values p rl = Ok tt ∧
  60 + payload_bytes_of p ≤ N.min u64_max (max_envelope_bytes pl).

Lemma payload_fields_sized json p : fields_sized (payload_fields json p).
Proof.
  unfold fields_sized, payload_fields. cbn [of_magic of_version of_count of_length of_digest].
  split_and!; [done|by rewrite length_to_be_bytes..|apply sha256_length].
Qed.

Lemma item_bytes_pos kind : 4 ≤ item_bytes kind.
Proof. by destruct kind. Qed.

Lemma encode_payload_ok m p rl pl b :
  encode_payload m p rl pl = Ok b ↔
  ∃ json, canonical_metadata m rl = Ok json ∧ payload_admissible m p rl pl ∧ b = fields_bytes (payload_fields json p).
Proof.
  unfold encode_payload, payload_admissible. rewrite item_count_length, len_or_max_min.
  pose proof (item_bytes_pos (payload_kind p)) as Hib.
  assert (∀ pb, encoded_payload_bytes (payload_kind p) (N.min u64_max (N.of_nat (payload_length p))) = Ok pb ↔
    N.min u64_max (N.of_nat (payload_length p)) = N.of_nat (payload_length p) ∧ payload_bytes_of p ≤ u64_max ∧
    pb = payload_bytes_of p) as Hpb.
  { intros pb. unfold encoded_payload_bytes, payload_bytes_of. split.
    - destruct (N.leb_spec (N.min u64_max (N.of_nat (payload_length p)) * item_bytes (payload_kind p)) u64_max) as [Hle|]; [|done].
      intros <-%Ok_inj. assert (N.of_nat (payload_length p) ≤ u64_max) as Hlt.
      { destruct (N.le_gt_cases (N.of_nat (payload_length p)) u64_max) as [|Hgt]; [done|].
        rewrite N.min_l in Hle by lia. unfold u64_max in *. nia. }
      rewrite N.min_r in * by done. done.
    - intros (-> & Hle & ->). by rewrite (proj2 (N.leb_le _ _) Hle). }
  split.
  - intros He. inv_ok. repeat match goal with x : () |- _ => destruct x end. rename select (canonical_metadata _ _ = _) into Hjson.
    rename select (encoded_payload_bytes _ _ = _) into Hp. apply Hpb in Hp as (Hmin & Hle & ->).
    rename select (negb _ = false) into Hk. apply negb_false_iff, bool_decide_eq_true in Hk.
    rename select (total_envelope_bytes _ = _) into Htot. unfold total_envelope_bytes in Htot.
    apply ok_or_ok, checked_add_Some in Htot as [-> Htot].
    rename select (enforce_envelope_limit _ _ = _) into Hlim. unfold enforce_envelope_limit in Hlim.
    apply guard_err_ok, N.ltb_ge in Hlim. change (N.of_nat OBSERVATION_PAYLOAD_ENVELOPE_HEADER_BYTES) with 60 in *.
    rewrite Hmin in *. eexists. split; [done|]. split; [split_and!; [done..|lia]|].
    by subst b.
  - intros (json & -> & (Hk & Hc & Hv & Hle) & ->). cbn [out_bind]. rewrite bool_decide_true by done.
    cbn [negb guard_err out_bind].
    assert (N.min u64_max (N.of_nat (payload_length p)) = N.of_nat (payload_length p)) as Hmin.
    { unfold payload_bytes_of in Hle. rewrite N.min_r; [done|]. nia. }
    rewrite (proj2 (Hpb (payload_bytes_of p))) by (split_and!; [done|lia|done]).
    rewrite Hmin, Hc, Hv. cbn [out_bind]. unfold total_envelope_bytes, enforce_envelope_limit.
    change (N.of_nat OBSERVATION_PAYLOAD_ENVELOPE_HEADER_BYTES) with 60.
    rewrite (proj2 (checked_add_Some u64_max 60 (payload_bytes_of p) (60 + payload_bytes_of p))) by (split; [done|lia]).
    cbn [ok_or out_bind]. rewrite (proj2 (N.ltb_ge _ _)) by lia. cbn [guard_err out_bind].
    done.
Qed.

Lemma decode_kind_ok b kind : decode_kind b = Ok kind ↔ b = encode_kind kind.
Proof. split; [destruct b; try done; by intros <-%Ok_inj|]. intros ->. by destruct kind. Qed.

Lemma u64_bytes v : v ≤ u64_max → v < 256 ^ N.of_nat 8.
Proof. change (256 ^ N.of_nat 8) with (u64_max + 1). lia. Qed.

(** Decoding the fields of an envelope of ordinary size. *)
Lemma decode_fields_ok m f rl pl p :
  fields_sized f → N.of_nat (60 + length (of_body f)) ≤ u64_max →
  decode_fields m f rl pl (N.of_nat (60 + length (of_body f))) = Ok p ↔
  typed_payload p ∧
  ∃ json, canonical_metadata m rl = Ok json ∧ payload_admissible m p rl pl ∧ f = payload_fields json p.
Proof.
  intros (Lm & Lv & Lc & Ln & Ld) Hmax. unfold decode_fields, payload_admissible, enforce_envelope_limit. split.
  - intros Hd. inv_ok. repeat match goal with x : () |- _ => destruct x end.
    match goal with H : decode_kind _ = Ok ?k |- _ => rename k into kd, H into Hkind end. apply decode_kind_ok in Hkind.
    rename select (canonical_metadata _ _ = _) into Hjson. rename select (decode_values _ _ _ = _) into Hval.
    rename select (total_envelope_bytes _ = _) into Htot. unfold total_envelope_bytes in Htot.
    apply ok_or_ok, checked_add_Some in Htot as [-> Htot]. rename select (encoded_payload_bytes _ _ = _) into Hpb.
    change (N.of_nat OBSERVATION_PAYLOAD_ENVELOPE_HEADER_BYTES) with 60 in *. unfold encoded_payload_bytes in Hpb.
    repeat match goal with
    | H : negb (bool_decide _) = false |- _ => apply negb_false_iff, bool_decide_eq_true in H
    | H : negb (_ =? _) = false |- _ => apply negb_false_iff, N.eqb_eq in H
    | H : (_ <? _) = false |- _ => apply N.ltb_ge in H
    end.
    destruct (N.leb_spec (from_be_bytes (of_count f) * item_bytes kd) u64_max) as [Hc|]; [|done]. apply Ok_inj in Hpb.
    match type of Hpb with _ = ?r => subst r end.
    assert (N.of_nat (length (of_body f)) = from_be_bytes (of_count f) * item_bytes kd) as Hbody by lia.
    subst p. apply (decode_values_ok _ _ _ _ _ Hbody) in Hval as (Hk & Ht & Hv & Hbytes). rename select ObservationPayload into p. split; [done|].
    pose proof (append_payload_length p) as Hpl. rewrite Hbytes, Hbody, Hk in Hpl.
    assert (from_be_bytes (of_count f) = N.of_nat (payload_length p)) as Hcount.
    { pose proof (item_bytes_pos kd). nia. }
    eexists. split; [done|]. unfold payload_bytes_of. rewrite Hk, <-Hcount. split; [split_and!; [done..|lia]|].
    unfold payload_fields, payload_bytes_of. rewrite Hk, Hbytes, <-Hcount.
    rename select (from_be_bytes (of_length f) = _) into Hlen. rewrite <-Hlen, !be_bytes_back by done.
    destruct f as [magic v k r c n d body]. cbn [of_magic of_version of_kind of_reserved of_count of_length of_digest of_body] in *.
    assert (to_be_bytes 2 1 = v) as Hv1.
    { rename select (from_be_bytes v = 1) into Hv1. rewrite <-Hv1. by apply be_bytes_back. }
    match goal with H : integrity_digest _ _ _ = d |- _ => rename H into Hdig end.
    unfold fields_prefix in Hdig. cbn [of_magic of_version of_kind of_reserved of_count of_length] in Hdig.
    subst k magic r d. rewrite Hv1. unfold header_prefix. change OBSERVATION_PAYLOAD_ENVELOPE_VERSION with 1.
    by rewrite Hv1, !be_bytes_back by done.
  - intros (Ht & json & Hjson & (Hk & Hc & Hv & Hle) & ->).
    unfold payload_fields in *. cbn [of_magic of_version of_kind of_reserved of_count of_length of_digest of_body] in *.
    pose proof (append_payload_length p) as Hpl. fold (payload_bytes_of p) in Hpl. pose proof (item_bytes_pos (payload_kind p)).
    assert (N.of_nat (payload_length p) ≤ payload_bytes_of p) as Hcount by (unfold payload_bytes_of; nia).
    rewrite Nat2N.inj_add, Hpl. change (N.of_nat 60) with 60.
    rewrite !from_to_be_bytes; [|apply u64_bytes; lia..|done].
    rewrite (proj2 (N.ltb_ge _ _)) by lia. cbn [guard_err out_bind].
    rewrite (proj2 (N.ltb_ge _ _)) by lia. cbn [guard_err out_bind].
    rewrite (bool_decide_true (OBS_MAGIC = OBS_MAGIC)) by done. cbn [negb guard_err out_bind N.eqb Pos.eqb].
    rewrite (proj2 (decode_kind_ok (encode_kind (payload_kind p)) (payload_kind p)) eq_refl). cbn [out_bind].
    rewrite (bool_decide_true (x00 = x00)) by done. cbn [negb guard_err out_bind].
    unfold total_envelope_bytes. change (N.of_nat OBSERVATION_PAYLOAD_ENVELOPE_HEADER_BYTES) with 60.
    rewrite (proj2 (checked_add_Some u64_max 60 (payload_bytes_of p) (60 + payload_bytes_of p))) by (split; [done|lia]).
    cbn [ok_or out_bind]. rewrite N.ltb_irrefl. cbn [guard_err out_bind].
    unfold encoded_payload_bytes. fold (payload_bytes_of p). rewrite (proj2 (N.leb_le _ _)) by lia. cbn [out_bind].
    rewrite N.eqb_refl. cbn [negb guard_err out_bind]. rewrite Hjson. cbn [out_bind].
    rewrite bool_decide_true by done. cbn [negb guard_err out_bind]. rewrite Hc. cbn [out_bind].
    rewrite bool_decide_true by done. cbn [negb guard_err out_bind].
    rewrite (proj2 (decode_values_ok (payload_kind p) (append_payload p) rl p _ Hpl)) by done.
    cbn [out_bind]. by rewrite Hv.
Qed.

Lemma decode_payload_ok m encoded rl pl p :
  N.of_nat (length encoded) ≤ u64_max →
  decode_payload m encoded rl pl = Ok p ↔ typed_payload p ∧ encode_payload m p rl pl = Ok encoded.
Proof.
  intros Hlen. rewrite encode_payload_ok.
  destruct (decide (60 ≤ length encoded)%nat) as [Hge|Hlt].
  - destruct (fields_split encoded Hge) as (f & -> & Hf). rewrite fields_bytes_length in Hlen by done.
    rewrite decode_payload_fields, len_or_max_min, N.min_r, decode_fields_ok by done. split.
    + intros (Ht & json & Hj & Ha & ->). split; [done|]. by exists json.
    + intros (Ht & json & Hj & Ha & He). split; [done|]. exists json. split_and!; [done..|].
      destruct f as [magic v k r c n d body]. pose proof (payload_fields_sized json p) as Hs.
      destruct (payload_fields json p) as [magic' v' k' r' c' n' d' body'].
      destruct Hf as (? & ? & ? & ? & ?), Hs as (? & ? & ? & ? & ?).
      unfold fields_bytes, fields_prefix in He. cbn [of_magic of_version of_kind of_reserved of_count of_length of_digest of_body] in *.
      rewrite <-!app_assoc in He. do 2 (apply app_inj_1 in He as [-> He]; [|congruence]).
      cbn [app] in He. injection He as -> -> He. do 3 (apply app_inj_1 in He as [-> He]; [|congruence]). by subst.
  - split.
    + unfold decode_payload, enforce_envelope_limit. intros Hd. inv_ok. exfalso. rename select ((_ <? _) = false) into Hb.
      rewrite len_or_max_min in *. apply N.ltb_ge in Hb.
      repeat match goal with H : (_ <? N.of_nat OBSERVATION_PAYLOAD_ENVELOPE_HEADER_BYTES) = false |- _ => apply N.ltb_ge in H end.
      change (N.of_nat OBSERVATION_PAYLOAD_ENVELOPE_HEADER_BYTES) with 60 in *. lia.
    + intros (_ & json & _ & _ & ->). rewrite fields_bytes_length in Hlt by apply payload_fields_sized. lia.
Qed.

(** ** No panics *)

Lemma out_enumerate_normal {E St A} (f : St → nat → A → outcome E St) (P : A → Prop) l s i :
  (∀ s i a, P a → normal (f s i a)) → Forall P l → normal (out_enumerate f s i l).
Proof.
  intros Hf Hl. revert s i. induction Hl as [|a l Ha _ IH]; intros s i; cbn [out_enumerate]; [done|].
  apply out_bind_normal; [by apply Hf|]. intros s' _. apply IH.
Qed.

Lemma decode_chunks_normal {A} (f : nat → bytes → outcome ObservationEnvelopeError A) n cs :
  (∀ i c, length c = n → normal (f i c)) → Forall (λ c, length c = n) cs → normal (decode_chunks f cs).
Proof.
  intros Hf Hcs. eapply out_enumerate_normal; [|done]. intros s i c Hc. cbn beta in Hc.
  apply out_bind_normal; [by apply Hf|done].
Qed.

Lemma opaque_id_new_normal v : normal (opaque_id_new v).
Proof. unfold opaque_id_new. by destruct (v =? 0). Qed.

Lemma visibility_step_normal st i v : normal (visibility_step st i v).
Proof.
  unfold visibility_step. apply out_bind_normal; [apply guard_err_normal|]. intros _ _.
  apply out_bind_normal; [apply ok_or_normal|done].
Qed.

Lemma validate_values_normal p rl : normal (validate_values p rl).
Proof.
  destruct p as [l|l|l|l|l]; cbn [validate_values]; try done.
  - apply (out_enumerate_normal _ (λ _, True)); [intros; apply guard_err_normal|by apply Forall_true].
  - apply (out_enumerate_normal _ (λ _, True)); [intros _ i [v|] _; [apply guard_err_normal|done]|by apply Forall_true].
  - apply out_bind_normal; [|intros [? ?] _; apply guard_err_normal].
    apply (out_enumerate_normal _ (λ _, True)); [intros; apply visibility_step_normal|by apply Forall_true].
Qed.

Lemma decode_values_normal kind body rl k :
  N.of_nat (length body) = k * item_bytes kind → normal (decode_values kind body rl).
Proof.
  intros Hb. unfold decode_values.
  assert (∃ n, item_bytes kind = N.of_nat n ∧ (0 < n)%nat) as (n & Hn & Hpos).
  { exists (N.to_nat (item_bytes kind)). pose proof (item_bytes_pos kind). lia. }
  destruct (split_chunks n (N.to_nat k) body) as (cs & -> & Hcs & _); [nia|].
  destruct kind; cbn [item_bytes] in Hn;
    [replace 4%nat with n by lia|replace 4%nat with n by lia|replace 13%nat with n by lia|
     replace 17%nat with n by lia|replace 24%nat with n by lia];
    rewrite chunks_exact_join by done;
    (apply out_bind_normal; [|try done]).
  - eapply decode_chunks_normal; [|done]. intros i c Hc. destruct c as [|? [|? [|? [|? ?]]]]; cbn in Hc; try lia; done.
  - eapply decode_chunks_normal; [|done]. intros i c Hc. unfold decode_depth_item. rewrite be_at_whole. cbn [out_bind].
    apply out_bind_normal; [apply guard_err_normal|done].
  - eapply decode_chunks_normal; [|done]. intros i c Hc. unfold decode_normal_item.
    destruct c as [|tag c]; [cbn in Hc; lia|]. cbn [lookup list_lookup expect out_bind].
    destruct tag; try done; [apply out_bind_normal; [apply guard_err_normal|done]|].
    do 3 (apply out_bind_normal; [apply be_at_normal; lia|intros ? _]).
    apply out_bind_normal; [apply guard_err_normal|done].
  - eapply decode_chunks_normal; [|done]. intros i c Hc. unfold decode_entity_item.
    destruct c as [|tag c]; [cbn in Hc; lia|]. cbn [lookup list_lookup expect out_bind].
    destruct tag; try done; [apply out_bind_normal; [apply guard_err_normal|done]|].
    apply out_bind_normal; [apply be_at_normal; lia|intros ? _].
    apply out_bind_normal; [apply map_err_normal, opaque_id_new_normal|done].
  - eapply out_enumerate_normal; [|done]. intros s i c Hc. cbn beta in Hc. unfold decode_visibility_step.
    apply out_bind_normal; [apply be_at_normal; lia|intros ? _].
    apply out_bind_normal; [apply map_err_normal, opaque_id_new_normal|intros ? _].
    apply out_bind_normal; [apply be_at_normal; lia|intros ? _].
    apply out_bind_normal; [apply visibility_step_normal|done].
  - intros [[? ?] ?] _. apply out_bind_normal; [apply guard_err_normal|done].
Qed.

Lemma canonical_metadata_normal m rl : normal (canonical_metadata m rl).
Proof. apply map_err_normal, encode_normal. Qed.

Lemma validate_count_normal m kind count rl pl : normal (validate_count m kind count rl pl).
Proof.
  unfold validate_count. case_bool_decide; [apply guard_err_normal|].
  apply out_bind_normal; [apply ok_or_normal|intros ? _]. apply out_bind_normal; [apply guard_err_normal|intros _ _].
  apply guard_err_normal.
Qed.

Lemma encoded_payload_bytes_normal kind count : normal (encoded_payload_bytes kind count).
Proof. unfold encoded_payload_bytes. by destruct (_ <=? _). Qed.

Lemma encode_payload_normal m p rl pl : normal (encode_payload m p rl pl).
Proof.
  unfold encode_payload. apply out_bind_normal; [apply canonical_metadata_normal|intros ? _].
  apply out_bind_normal; [apply guard_err_normal|intros _ _].
  apply out_bind_normal; [apply validate_count_normal|intros _ _].
  apply out_bind_normal; [apply validate_values_normal|intros _ _].
  apply out_bind_normal; [apply encoded_payload_bytes_normal|intros ? _].
  apply out_bind_normal; [apply ok_or_normal|intros ? _].
  apply out_bind_normal; [apply guard_err_normal|done].
Qed.

Lemma decode_payload_normal m encoded rl pl :
  N.of_nat (length encoded) ≤ u64_max → normal (decode_payload m encoded rl pl).
Proof.
  intros Hlen. destruct (decide (60 ≤ length encoded)%nat) as [Hge|Hlt].
  - destruct (fields_split encoded Hge) as (f & -> & Hf). rewrite fields_bytes_length in Hlen by done.
    rewrite decode_payload_fields, len_or_max_min, N.min_r by done. unfold decode_fields.
    do 4 (apply out_bind_normal; [apply guard_err_normal|intros _ _]).
    apply out_bind_normal; [by destruct (of_kind f)|intros kind _].
    apply out_bind_normal; [apply guard_err_normal|intros _ _].
    apply out_bind_normal; [apply ok_or_normal|]. intros total Htot.
    unfold total_envelope_bytes in Htot. apply ok_or_ok, checked_add_Some in Htot as [-> _].
    change (N.of_nat OBSERVATION_PAYLOAD_ENVELOPE_HEADER_BYTES) with 60.
    apply out_bind_normal; [apply guard_err_normal|]. intros [] H1%guard_err_ok%N.ltb_ge.
    apply out_bind_normal; [apply guard_err_normal|]. intros [] H2%guard_err_ok%N.ltb_ge.
    apply out_bind_normal; [apply encoded_payload_bytes_normal|]. intros pb Hpb.
    apply out_bind_normal; [apply guard_err_normal|]. intros [] H3%guard_err_ok%negb_false_iff%N.eqb_eq.
    unfold encoded_payload_bytes in Hpb. destruct (_ <=? _); [|done]. apply Ok_inj in Hpb. subst pb.
    apply out_bind_normal; [apply canonical_metadata_normal|intros ? _].
    apply out_bind_normal; [apply guard_err_normal|intros _ _].
    apply out_bind_normal; [apply validate_count_normal|intros _ _].
    apply out_bind_normal; [apply guard_err_normal|intros _ _].
    apply out_bind_normal; [apply (decode_values_normal _ _ _ (from_be_bytes (of_count f))); lia|intros ? _].
    apply out_bind_normal; [apply validate_values_normal|done].
  - unfold decode_payload. apply out_bind_normal; [apply guard_err_normal|intros _ _].
    rewrite len_or_max_min, N.min_r by done. rewrite (proj2 (N.ltb_lt _ _)); [done|].
    change (N.of_nat OBSERVATION_PAYLOAD_ENVELOPE_HEADER_BYTES) with 60. lia.
Qed.

End exact.

Section claims.
Context `{Digest} `{JsonCodecLaws ObservationMetadata}.

Lemma canonical_metadata_inj m m' rl json :
  canonical_metadata m rl = Ok json → canonical_metadata m' rl = Ok json → m = m'.
Proof.
  unfold canonical_metadata. rewrite !map_err_ok, !encode_ok.
  intros (_ & b & Hb & -> & _) (_ & b' & Hb' & He & _). apply app_inv_tail in He as <-.
  apply json_round_trip in Hb, Hb'. congruence.
Qed.

(** C34. The payload envelope: decoding accepts exactly the bytes encoding writes
    for the same metadata and gives the payload back; neither direction panics;
    and an envelope accepted under two metadata values has two different digest
    inputs with one SHA-256 value. *)
Theorem payload_codec_exact (m : ObservationMetadata) (encoded : bytes) (rl : RuntimeLimits)
    (pl : ObservationPayloadLimits) :
  N.of_nat (length encoded) ≤ u64_max →
  (∀ p, decode_payload m encoded rl pl = Ok p ↔ typed_payload p ∧ encode_payload m p rl pl = Ok encoded) ∧
  normal (decode_payload m encoded rl pl) ∧ (∀ p, normal (encode_payload m p rl pl)) ∧
  (∀ p m' p', decode_payload m encoded rl pl = Ok p → decode_payload m' encoded rl pl = Ok p' →
     (m' = m ∧ p' = p) ∨
     ∃ json json', canonical_metadata m rl = Ok json ∧ canonical_metadata m' rl = Ok json' ∧
       collides (take OBS_DIGEST_OFFSET encoded ++ json ++ drop OBSERVATION_PAYLOAD_ENVELOPE_HEADER_BYTES encoded)
         (take OBS_DIGEST_OFFSET encoded ++ json' ++ drop OBSERVATION_PAYLOAD_ENVELOPE_HEADER_BYTES encoded)).
Proof.
  intros Hlen. split_and!.
  - intros p. by apply decode_payload_ok.
  - by apply decode_payload_normal.
  - intros p. apply encode_payload_normal.
  - intros p m' p' Hd Hd'. pose proof Hd as He. pose proof Hd' as He'.
    apply decode_payload_ok, proj2, encode_payload_ok in He as (json & Hj & _ & He); [|done].
    apply decode_payload_ok, proj2, encode_payload_ok in He' as (json' & Hj' & _ & He'); [|done].
    destruct (decide (json = json')) as [<-|Hne].
    { left. assert (m' = m) as -> by by eapply canonical_metadata_inj. split; [done|congruence]. }
    right. exists json, json'. split_and!; [done..|]. split.
    { intros Heq. apply app_inv_head, app_inv_tail in Heq. done. }
    assert (∀ j q, encoded = fields_bytes (payload_fields j q) →
      sha256 (take OBS_DIGEST_OFFSET encoded ++ j ++ drop OBSERVATION_PAYLOAD_ENVELOPE_HEADER_BYTES encoded) =
      take 32 (drop OBS_DIGEST_OFFSET encoded)) as Hdig.
    { intros j q ->. pose proof (payload_fields_sized j q) as Hs. pose proof (fields_prefix_length _ Hs) as Hp.
      assert (length (of_digest (payload_fields j q)) = 32%nat) as Ld by apply Hs.
      change OBSERVATION_PAYLOAD_ENVELOPE_HEADER_BYTES with (OBS_DIGEST_OFFSET + 32)%nat. unfold fields_bytes.
      rewrite <-drop_drop, (drop_app_length' (fields_prefix _)), !take_app_length', drop_app_length'
        by (rewrite ?Hp, ?Ld; reflexivity). done. }
    by rewrite (Hdig _ _ He), (Hdig _ _ He').
Qed.

End claims.

(** ** The fixture of the source's tests *)

(** JSON text, with an apostrophe standing for the quotation mark. *)
Definition json_text (s : string) : bytes :=
  (λ b, if bool_decide (b = x27) then x22 else b) <$> bytes_of_string s.

Definition sample_metadata : ObservationMetadata :=
  mkMetadata schema_v1 1 3 4 5 Color (Some (mkDimensions 2 1)) Low 6 7 (mkStaleness 3 0).

Definition sample_metadata_json : bytes := json_text
  ("{'schema_version':1,'observation_id':'00000000000000000000000000000001','scene_revision':3,'frame_id':4,"
   +:+ "'camera_id':'00000000000000000000000000000005','kind':'color','dimensions':{'width':2,'height':1},"
   +:+ "'quality':'low','observed_at_unix_micros':6,'production_latency_micros':7,"
   +:+ "'staleness':{'latest_known_revision':3,'revisions_behind':0}}").

Definition metadata_codec : JsonCodec ObservationMetadata := Table.codec [(sample_metadata, sample_metadata_json)].
Definition metadata_codec_laws : JsonCodecLaws ObservationMetadata (H := metadata_codec) :=
  Table.laws [(sample_metadata, sample_metadata_json)] (NoDup_singleton _).
#[local] Existing Instance metadata_codec.
#[local] Existing Instance metadata_codec_laws.
#[local] Existing Instance sha256_instance.

Definition sample_pixels : ObservationPayload := PColor [mkRgba8 x01 x02 x03 x04; mkRgba8 x05 x06 x07 x08].

Definition sample_envelope : bytes :=
  header_prefix Color 2 8 ++
  [x61; x14; xb4; x13; xed; xa0; x20; x18; x71; x1a; xf7; xd1; x59; xf0; xcb; x38;
   xec; x7f; xbc; xc3; x03; xb5; xff; xc0; xe0; x30; xb5; x61; x2e; x54; x49; xd7] ++
  [x01; x02; x03; x04; x05; x06; x07; x08].

(** The bytes the source's test expects. *)
Example sample_envelope_bytes :
  encode_payload sample_metadata sample_pixels runtime_limits_default payload_limits_default = Ok sample_envelope.
Proof. vm_compute. reflexivity. Qed.

(** Normals: a unit vector is accepted, a negative zero or a long vector is not. *)
Example normals_checked :
  normal_rejected (mkNormal3 0 0 f32_one) = false ∧ normal_rejected (mkNormal3 f32_neg_zero 0 f32_one) = true ∧
  normal_rejected (mkNormal3 f32_half 0 f32_one) = true.
Proof. vm_compute. split_and!; reflexivity. Qed.

Lemma payload_codec_exact_witness :
  decode_payload sample_metadata sample_envelope runtime_limits_default payload_limits_default = Ok sample_pixels.
Proof.
  destruct (payload_codec_exact sample_metadata sample_envelope runtime_limits_default payload_limits_default) as [Hx _].
  { vm_compute. discriminate. }
  apply (proj2 (Hx sample_pixels)). split; [exact I|exact sample_envelope_bytes].
Defined.
