(* ===== verification/Frame.v ===== *)
(** * Rendered frames

    [cogniform-renderer/src/frame.rs]: the decoding of the four mapped readback
    buffers into the planes of a frame.  What the graphics device returns (the
    mapped bytes, or a failure of waiting or mapping) is the record
    [GpuReadback]; the adapter summary of a frame is left out. *)

From S2P Require Import Prelude Machine Floats Values Components Messages WorldTypes Render RenderScene Recovery Engine Hash Observation.

Open Scope N_scope.

(** [2.0], [-1.0], [255.0] and [f32::EPSILON]. *)
Definition f32_two : f32 := 1073741824.
Definition f32_minus_one : f32 := 3212836864.
Definition f32_255 : f32 := 1132396544.
Definition f32_epsilon : f32 := 872415232.

Record FrameMetadata := mkFrameMetadata {
  fm_frame_id : FrameId;
  fm_scene_revision : SceneRevision;
  fm_camera_id : StableEntityId;
  fm_extraction_generation : N;
}.

Record RenderedFrame := mkRenderedFrame {
  rf_width : N;
  rf_height : N;
  rf_metadata : FrameMetadata;
  rf_color : list Rgba8;
  rf_depth : list f32;
  rf_normals : list (option Normal3);
  rf_entity_ids : list N;
  rf_stable_entity_ids : list (option StableEntityId);
}.

(** [RenderedFrame::pixel_index] and the accessors of one pixel. *)
Definition pixel_index (f : RenderedFrame) (x y : N) : option nat :=
  if (rf_width f <=? x) || (rf_height f <=? y) then None
  else Some (N.to_nat y * N.to_nat (rf_width f) + N.to_nat x)%nat.

Definition color_at (f : RenderedFrame) (x y : N) : option Rgba8 := i ← pixel_index f x y; rf_color f !! i.
Definition depth_at (f : RenderedFrame) (x y : N) : option f32 := i ← pixel_index f x y; rf_depth f !! i.
Definition normal_at (f : RenderedFrame) (x y : N) : option Normal3 :=
  i ← pixel_index f x y; n ← rf_normals f !! i; n.
Definition entity_id_at (f : RenderedFrame) (x y : N) : option N := i ← pixel_index f x y; rf_entity_ids f !! i.
Definition stable_entity_id_at (f : RenderedFrame) (x y : N) : option StableEntityId :=
  i ← pixel_index f x y; n ← rf_stable_entity_ids f !! i; n.

(** ** Reading back *)

(** The device: the failure of waiting for the submission and of the mapping
    callbacks, if any, and the mapped range of each buffer. *)
Record GpuReadback := mkGpuReadback {
  gr_wait : outcome RendererError unit;
  gr_color : outcome RendererError bytes;
  gr_depth : outcome RendererError bytes;
  gr_normals : outcome RendererError bytes;
  gr_entity_ids : outcome RendererError bytes;
}.

Record PendingFrame := mkPendingFrame {
  pf_layout : ReadbackLayout;
  pf_metadata : FrameMetadata;
  pf_id_lookup : gmap N StableEntityId;
  pf_gpu : GpuReadback;
}.

(** [read_tightly_packed]: the rows without their padding. *)
Definition read_tightly_packed (mapped : bytes) (layout : ReadbackLayout) : outcome RendererError bytes :=
  if rl_padded_bytes_per_row layout =? 0 then Panic else
  out_fold (λ packed row,
    let! row := index_slice row 0 (N.to_nat (rl_unpadded_bytes_per_row layout)) in Ok (packed ++ row))
    [] (take (N.to_nat (rl_height layout)) (chunks_exact (N.to_nat (rl_padded_bytes_per_row layout)) mapped)).

(** [u32::from_le_bytes] of a chunk of four bytes. *)
Definition from_le_bytes (chunk : bytes) : N := from_be_bytes (rev chunk).

(** [decode_normal]. *)
Definition decode_normal_component (encoded : byte) : f32 :=
  f32_mul_add (f32_div (f32_of_u8 (Byte.to_N encoded)) f32_255) f32_two f32_minus_one.

Definition decode_normal (index : nat) (chunk : bytes) : outcome RendererError (option Normal3) :=
  match chunk with
  | [bx; by'; bz; alpha] =>
      match alpha with
      | x00 => Ok None
      | xff =>
          let x := decode_normal_component bx in
          let y := decode_normal_component by' in
          let z := decode_normal_component bz in
          let length_squared :=
            f32_add (f32_add (f32_add f32_neg_zero (f32_mul x x)) (f32_mul y y)) (f32_mul z z) in
          do! guard_err (negb (f32_is_finite length_squared) || f32_leb length_squared f32_epsilon)
            (InvalidNormalOutput index "direction is zero or non-finite") then
          let inverse_length := f32_recip (f32_sqrt length_squared) in
          Ok (Some (mkNormal3 (f32_mul x inverse_length) (f32_mul y inverse_length) (f32_mul z inverse_length)))
      | _ => Err (InvalidNormalOutput index "alpha marker is neither background nor geometry")
      end
  | _ => Panic
  end.

(** The loops of [PendingFrame::read] over the chunks of each plane. *)
Definition read_color (chunk : bytes) : outcome RendererError Rgba8 :=
  match chunk with [r; g; b; a] => Ok (mkRgba8 r g b a) | _ => Panic end.

Definition read_depth (index : nat) (chunk : bytes) : outcome RendererError f32 :=
  let value := from_le_bytes chunk in
  do! guard_err (negb (f32_is_finite value) || negb (f32_leb f32_zero value && f32_leb value f32_one))
    (InvalidDepthOutput index) then
  Ok value.

Definition read_stable_id (lookup : gmap N StableEntityId) (id : N) : outcome RendererError (option StableEntityId) :=
  if id =? 0 then Ok None
  else let! stable := ok_or (lookup !! id) (UnknownRenderEntityId id) in Ok (Some stable).

(** [Iterator::collect] into a [Result] of the chunks of a plane. *)
Fixpoint collect_from {A B} (f : nat → A → outcome RendererError B) (index : nat) (l : list A)
    : outcome RendererError (list B) :=
  match l with
  | [] => Ok []
  | a :: l => let! b := f index a in let! rest := collect_from f (S index) l in Ok (b :: rest)
  end.

(** [PendingFrame::read]. *)
Definition frame_read (p : PendingFrame) : outcome RendererError RenderedFrame :=
  let gpu := pf_gpu p in
  do! gr_wait gpu then
  let plane mapped := (let! mapped := mapped in read_tightly_packed mapped (pf_layout p)) in
  let! color_bytes := plane (gr_color gpu) in
  let! depth_bytes := plane (gr_depth gpu) in
  let! normal_bytes := plane (gr_normals gpu) in
  let! entity_id_bytes := plane (gr_entity_ids gpu) in
  let! color := collect_from (λ _, read_color) 0 (chunks_exact 4 color_bytes) in
  let! depth := collect_from read_depth 0 (chunks_exact 4 depth_bytes) in
  let! normals := collect_from decode_normal 0 (chunks_exact 4 normal_bytes) in
  let entity_ids := from_le_bytes <$> chunks_exact 4 entity_id_bytes in
  let! stable_entity_ids := collect_from (λ _, read_stable_id (pf_id_lookup p)) 0 entity_ids in
  Ok (mkRenderedFrame (rl_width (pf_layout p)) (rl_height (pf_layout p)) (pf_metadata p) color depth normals
        entity_ids stable_entity_ids).

(** The test of the source: background, a normal along the z axis, and a marker
    that is neither. *)
Example decode_normal_background : decode_normal 0 [x00; x00; x00; x00] = Ok None.
Proof. reflexivity. Qed.
Example decode_normal_axis :
  match decode_normal 1 [x80; x80; xff; xff] with
  | Ok (Some n) => f32_leb (f32_abs (nv_x n)) 998445679 && f32_leb 1065336439 (nv_z n) = true
  | _ => False
  end.
Proof. vm_compute. reflexivity. Qed.
Example decode_normal_marker :
  decode_normal 2 [x80; x80; xff; x01] = Err (InvalidNormalOutput 2 "alpha marker is neither background nor geometry").
Proof. reflexivity. Qed.

(** ** The planes are exact *)

Lemma chunks_loop_lookup fuel n l i : (0 < n)%nat → (length l ≤ fuel)%nat →
  chunks_loop fuel n l !! i = if decide ((i + 1) * n ≤ length l)%nat then Some (take n (drop (i * n) l)) else None.
Proof.
  intros Hn. revert l i. induction fuel as [|fuel IH]; intros l i Hf; cbn [chunks_loop].
  { rewrite decide_False by (destruct l; cbn in *; lia). done. }
  destruct (decide (n ≤ length l)%nat) as [Hl|Hl]; [|rewrite decide_False by lia; done].
  destruct i as [|i]; cbn [lookup list_lookup].
  - by rewrite decide_True by lia.
  - rewrite IH by (rewrite length_drop; lia). rewrite length_drop, drop_drop.
    destruct (decide _), (decide _); try lia; [|done]. do 3 f_equal; lia.
Qed.

Lemma chunks_exact_lookup n l i : (0 < n)%nat →
  chunks_exact n l !! i = if decide ((i + 1) * n ≤ length l)%nat then Some (take n (drop (i * n) l)) else None.
Proof. intros Hn. by apply chunks_loop_lookup. Qed.

Lemma chunks_exact_length n l k : (0 < n)%nat → length l = (k * n)%nat → length (chunks_exact n l) = k.
Proof.
  intros Hn Hl. apply Nat.le_antisymm.
  - apply lookup_ge_None_1. rewrite chunks_exact_lookup by done. rewrite decide_False by nia. done.
  - destruct k as [|k]; [lia|]. apply (lookup_lt_Some (chunks_exact n l) k (take n (drop (k * n) l))).
    rewrite chunks_exact_lookup by done. by rewrite decide_True by nia.
Qed.

(** A field of a row in the concatenation of rows of one length. *)
Lemma rows_field (rows : list bytes) m y r k row :
  Forall (λ row, length row = m) rows → rows !! y = Some row → (r + k ≤ m)%nat →
  take k (drop (y * m + r) (mjoin rows)) = take k (drop r row).
Proof.
  intros Hall. revert y. induction Hall as [|row0 rows Hlen Hall IH]; intros [|y] Hy Hr; try done.
  - injection Hy as ->. change (mjoin (row :: rows)) with (row ++ mjoin rows). cbn [Nat.mul Nat.add].
    rewrite drop_app_le by lia. rewrite take_app_le by (rewrite length_drop; lia). done.
  - change (mjoin (row0 :: rows)) with (row0 ++ mjoin rows). rewrite drop_app_ge by lia.
    replace (S y * m + r - length row0)%nat with (y * m + r)%nat by lia. by apply IH.
Qed.

Lemma rows_length (rows : list bytes) m : Forall (λ row, length row = m) rows → length (mjoin rows) = (length rows * m)%nat.
Proof.
  induction 1 as [|row rows Hlen _ IH]; [done|]. change (mjoin (row :: rows)) with (row ++ mjoin rows).
  rewrite length_app, IH. cbn [length]. lia.
Qed.

Lemma pack_rows u rows acc : Forall (λ row, u ≤ length row)%nat rows →
  out_fold (λ packed row, let! row := index_slice row 0 u in Ok (packed ++ row)) acc rows
  = (Ok (acc ++ mjoin (take u <$> rows)) : outcome RendererError bytes).
Proof.
  intros Hall. revert acc. induction Hall as [|row rows Hlen _ IH]; intros acc; cbn [out_fold fmap list_fmap]; [by rewrite app_nil_r|].
  rewrite (index_slice_at row [] (take u row) (drop u row)); [|by rewrite app_nil_l, take_drop|done|by rewrite length_take; lia].
  cbn [out_bind]. rewrite IH. change (mjoin (take u row :: (take u <$> rows))) with (take u row ++ mjoin (take u <$> rows)).
  by rewrite app_assoc.
Qed.

Lemma field_of_prefix k r m (l : bytes) : (r + k ≤ m)%nat → take k (drop r (take m l)) = take k (drop r l).
Proof. intros Hm. rewrite !take_drop_commute, take_take. by rewrite Nat.min_l by lia. Qed.

(** What a layout of a validated target guarantees. *)
Record layout_sound (l : ReadbackLayout) : Prop := {
  lay_unpadded : rl_unpadded_bytes_per_row l = 4 * rl_width l;
  lay_padded : rl_unpadded_bytes_per_row l ≤ rl_padded_bytes_per_row l;
  lay_width : 0 < rl_width l;
  lay_size : rl_buffer_size l = rl_padded_bytes_per_row l * rl_height l;
}.

Lemma readback_layout_sound alignment width height l :
  0 < alignment → 0 < width → readback_layout_new alignment width height = Ok l → layout_sound l.
Proof.
  intros Ha Hw Hl. unfold readback_layout_new in Hl. inv_ok. subst l. unfold checked_mul in *.
  repeat match goal with Hx : (if ?b then _ else _) = Some _ |- _ => destruct b; [injection Hx as <-|done] end.
  split; cbn [rl_unpadded_bytes_per_row rl_width rl_padded_bytes_per_row rl_buffer_size rl_height]; try done.
  - unfold BYTES_PER_PIXEL. lia.
  - unfold align_up in *. destruct (_ =? 0); [by simplify_eq; lia|].
    match goal with Hx : checked_add _ _ _ = Some _ |- _ => apply checked_add_Some in Hx as [-> _] end. lia.
Qed.

(** The bytes of pixel [(x, y)] in a mapped buffer. *)
Definition pixel_bytes (l : ReadbackLayout) (mapped : bytes) (x y : N) : bytes :=
  take 4 (drop (N.to_nat (y * rl_padded_bytes_per_row l + 4 * x)) mapped).

Lemma plane_exact l mapped :
  layout_sound l → N.of_nat (length mapped) = rl_buffer_size l →
  ∃ packed, read_tightly_packed mapped l = Ok packed ∧
    length (chunks_exact 4 packed) = (N.to_nat (rl_width l) * N.to_nat (rl_height l))%nat ∧
    (∀ i chunk, chunks_exact 4 packed !! i = Some chunk → length chunk = 4%nat) ∧
    ∀ x y, x < rl_width l → y < rl_height l →
      chunks_exact 4 packed !! (N.to_nat y * N.to_nat (rl_width l) + N.to_nat x)%nat = Some (pixel_bytes l mapped x y).
Proof.
  intros [Hu Hp Hw Hs] Hm. set (w := N.to_nat (rl_width l)). set (h := N.to_nat (rl_height l)).
  set (p := N.to_nat (rl_padded_bytes_per_row l)).
  assert (length mapped = (h * p)%nat) as Hlen by (subst h p; lia).
  assert (4 * w ≤ p ∧ 0 < w)%nat as [Hwp Hw0] by (subst w p; lia).
  pose proof (chunks_exact_length p mapped h ltac:(lia) Hlen) as Hrows.
  assert (Forall (λ row, length row = p) (chunks_exact p mapped)) as Hall.
  { apply Forall_lookup. intros i row. rewrite chunks_exact_lookup by lia. case_decide; [|done]. intros [= <-].
    rewrite length_take, length_drop. lia. }
  set (rows := take (4 * w) <$> chunks_exact p mapped).
  assert (Forall (λ row, length row = (4 * w)%nat) rows) as Hrl.
  { apply Forall_fmap. eapply Forall_impl; [exact Hall|]. intros row Hr. cbv beta in *. change (length (take (4 * w) row) = (4 * w)%nat). rewrite length_take, Hr. lia. }
  exists (mjoin rows). split.
  { unfold read_tightly_packed. rewrite (proj2 (N.eqb_neq _ _)) by lia. fold h p. rewrite take_ge by lia.
    replace (N.to_nat (rl_unpadded_bytes_per_row l)) with (4 * w)%nat by (subst w; lia). rewrite pack_rows; [done|].
    eapply Forall_impl; [exact Hall|]. intros row Hr. cbn in *. lia. }
  pose proof (rows_length rows (4 * w) Hrl) as Hpl. unfold rows in Hpl at 2. rewrite length_fmap, Hrows in Hpl.
  split; [apply chunks_exact_length; lia|]. split.
  { intros i chunk. rewrite chunks_exact_lookup by lia. case_decide; [|done]. intros [= <-]. rewrite length_take, length_drop. lia. }
  intros x y Hx Hy. rewrite chunks_exact_lookup by lia.
  assert (N.to_nat y < h ∧ N.to_nat x < w)%nat as [Hy' Hx'] by (subst h w; lia).
  assert (chunks_exact p mapped !! N.to_nat y = Some (take p (drop (N.to_nat y * p) mapped))) as Hrow.
  { rewrite chunks_exact_lookup by lia. by rewrite decide_True by nia. }
  rewrite decide_True by nia. f_equal.
  replace ((N.to_nat y * w + N.to_nat x) * 4)%nat with (N.to_nat y * (4 * w) + 4 * N.to_nat x)%nat by lia.
  rewrite (rows_field rows (4 * w) (N.to_nat y) (4 * N.to_nat x) 4 (take (4 * w) (take p (drop (N.to_nat y * p) mapped))));
    [|done|by unfold rows; rewrite list_lookup_fmap, Hrow|lia].
  unfold pixel_bytes. rewrite take_take, Nat.min_l by lia. rewrite field_of_prefix, drop_drop by lia. do 2 f_equal. subst p. lia.
Qed.

Lemma collect_from_ok {A B} (f : nat → A → outcome RendererError B) k l r :
  collect_from f k l = Ok r → length r = length l ∧ ∀ i a, l !! i = Some a → ∃ b, r !! i = Some b ∧ f (k + i)%nat a = Ok b.
Proof.
  revert k r. induction l as [|a l IH]; intros k r; cbn [collect_from]; [by intros <-%Ok_inj|].
  intros Hc. apply out_bind_ok in Hc as (b & Hb & Hc). apply out_bind_ok in Hc as (r' & Hr & <-%Ok_inj).
  apply IH in Hr as [Hlen Hr]. split; [cbn; lia|]. intros [|i] a'; cbn [lookup list_lookup].
  - intros [= <-]. rewrite Nat.add_0_r. eauto.
  - intros Ha. rewrite <-Nat.add_succ_comm. by apply Hr.
Qed.

Lemma collect_from_normal {A B} (f : nat → A → outcome RendererError B) k l :
  (∀ i a, l !! i = Some a → normal (f (k + i)%nat a)) → normal (collect_from f k l).
Proof.
  revert k. induction l as [|a l IH]; intros k Hf; cbn [collect_from]; [done|].
  apply out_bind_normal; [rewrite <-(Nat.add_0_r k); by apply (Hf 0%nat)|]. intros b _.
  apply out_bind_normal; [|done]. apply IH. intros i a' Ha. rewrite Nat.add_succ_comm. by apply (Hf (S i)).
Qed.

(** The mapped buffers have the size the layout reserved. *)
Record mapped_sound (l : ReadbackLayout) (g : GpuReadback) : Prop := {
  ms_color : ∀ b, gr_color g = Ok b → N.of_nat (length b) = rl_buffer_size l;
  ms_depth : ∀ b, gr_depth g = Ok b → N.of_nat (length b) = rl_buffer_size l;
  ms_normals : ∀ b, gr_normals g = Ok b → N.of_nat (length b) = rl_buffer_size l;
  ms_entity_ids : ∀ b, gr_entity_ids g = Ok b → N.of_nat (length b) = rl_buffer_size l;
}.

Record gpu_returns (g : GpuReadback) : Prop := {
  gn_wait : normal (gr_wait g);
  gn_color : normal (gr_color g);
  gn_depth : normal (gr_depth g);
  gn_normals : normal (gr_normals g);
  gn_entity_ids : normal (gr_entity_ids g);
}.

Lemma collect_from_err {A B} (f : nat → A → outcome RendererError B) k l e :
  collect_from f k l = Err e →
  ∃ i a, l !! i = Some a ∧ f (k + i)%nat a = Err e ∧
    ∀ j b, (j < i)%nat → l !! j = Some b → is_ok (f (k + j)%nat b) = true.
Proof.
  revert k. induction l as [|a l IH]; intros k; cbn [collect_from]; [done|].
  destruct (f k a) as [b|e'| |] eqn:Hf; cbn [out_bind]; try done.
  - destruct (collect_from f (S k) l) as [r|e'| |] eqn:Hc; cbn [out_bind]; try done. intros [= ->].
    apply IH in Hc as (i & a' & Hi & Ha & Hfirst). exists (S i), a'. rewrite <-Nat.add_succ_comm. split_and!; [done..|].
    intros [|j] c Hj; cbn [lookup list_lookup]; [intros [= <-]; by rewrite Nat.add_0_r, Hf|].
    intros Hc. rewrite <-Nat.add_succ_comm. apply Hfirst; [lia|done].
  - intros [= ->]. exists 0%nat, a. rewrite Nat.add_0_r. split_and!; [done..|]. intros j c Hj. lia.
Qed.

(** Every index of a plane is the index of a pixel. *)
Lemma plane_index (w h i : nat) : (i < w * h)%nat → ∃ x y, (x < w)%nat ∧ (y < h)%nat ∧ i = (y * w + x)%nat.
Proof.
  intros Hi. assert (w ≠ 0)%nat by lia. exists (i mod w)%nat, (i / w)%nat. split; [by apply Nat.mod_upper_bound|].
  split; [apply Nat.Div0.div_lt_upper_bound; lia|]. pose proof (Nat.div_mod i w ltac:(done)). lia.
Qed.

(** What one pixel of a plane holds: [decode] of its four bytes, at its row-major
    index. *)
Definition plane_decodes {B} (l : ReadbackLayout) (mapped : bytes) (decode : nat → bytes → outcome RendererError B)
    (plane : list B) : Prop :=
  length plane = (N.to_nat (rl_width l) * N.to_nat (rl_height l))%nat ∧
  ∀ x y, x < rl_width l → y < rl_height l →
    let i := (N.to_nat y * N.to_nat (rl_width l) + N.to_nat x)%nat in
    ∃ b, plane !! i = Some b ∧ decode i (pixel_bytes l mapped x y) = Ok b.

(** The first pixel in row-major order whose bytes [decode] rejects, with its
    error [e]: the pixels before it all decode. *)
Definition plane_rejects {B} (l : ReadbackLayout) (mapped : bytes) (decode : nat → bytes → outcome RendererError B)
    (e : RendererError) : Prop :=
  let index x y := (N.to_nat y * N.to_nat (rl_width l) + N.to_nat x)%nat in
  ∃ x y, x < rl_width l ∧ y < rl_height l ∧ decode (index x y) (pixel_bytes l mapped x y) = Err e ∧
    ∀ x' y', x' < rl_width l → y' < rl_height l → (index x' y' < index x y)%nat →
      is_ok (decode (index x' y') (pixel_bytes l mapped x' y')) = true.

Section planes.
Context (l : ReadbackLayout) (mapped packed : bytes).
Hypothesis Hlen : length (chunks_exact 4 packed) = (N.to_nat (rl_width l) * N.to_nat (rl_height l))%nat.
Hypothesis Hpix : ∀ x y, x < rl_width l → y < rl_height l →
  chunks_exact 4 packed !! (N.to_nat y * N.to_nat (rl_width l) + N.to_nat x)%nat = Some (pixel_bytes l mapped x y).

Lemma collect_decodes {B} (decode : nat → bytes → outcome RendererError B) plane :
  collect_from decode 0 (chunks_exact 4 packed) = Ok plane → plane_decodes l mapped decode plane.
Proof.
  intros Hc. apply collect_from_ok in Hc as [Hl Hd]. split; [congruence|]. intros x y Hx Hy i.
  apply (Hd i). by apply Hpix.
Qed.

Lemma collect_rejects {B} (decode : nat → bytes → outcome RendererError B) e :
  collect_from decode 0 (chunks_exact 4 packed) = Err e → plane_rejects l mapped decode e.
Proof.
  intros Hc. apply collect_from_err in Hc as (i & a & Hi & Ha & Hfirst). pose proof (lookup_lt_Some _ _ _ Hi) as Hlt.
  rewrite Hlen in Hlt. apply plane_index in Hlt as (x & y & Hx & Hy & ->).
  pose proof (Hpix (N.of_nat x) (N.of_nat y) ltac:(lia) ltac:(lia)) as Hp. rewrite !Nat2N.id in Hp.
  exists (N.of_nat x), (N.of_nat y). rewrite !Nat2N.id. split_and!; [lia|lia|rewrite Hi in Hp; by injection Hp as <-|].
  intros x' y' Hx' Hy' Hj. apply Hfirst; [done|]. by apply Hpix.
Qed.
End planes.

(** The decoder of the identity planes. *)
Definition read_stable_bytes (lookup : gmap N StableEntityId) (_ : nat) (chunk : bytes)
    : outcome RendererError (option StableEntityId) := read_stable_id lookup (from_le_bytes chunk).

Lemma collect_from_fmap {A B C} (f : A → B) (g : nat → B → outcome RendererError C) k l :
  collect_from g k (f <$> l) = collect_from (λ i a, g i (f a)) k l.
Proof. revert k. induction l as [|a l IH]; intros k; cbn [fmap list_fmap collect_from]; [done|]. by rewrite <-IH. Qed.

Lemma four_bytes (c : bytes) : length c = 4%nat → ∃ a b d e, c = [a; b; d; e].
Proof. destruct c as [|a [|b [|d [|e [|? ?]]]]]; cbn; intros; try lia; eauto. Qed.

Lemma decode_normal_normal i c : length c = 4%nat → normal (decode_normal i c).
Proof.
  intros (a & b & d & e & ->)%four_bytes. unfold decode_normal.
  destruct e; lazymatch goal with
  | |- normal (Ok _) => exact I
  | |- normal (Err _) => exact I
  | _ => apply out_bind_normal; [apply guard_err_normal|intros ? _; exact I]
  end.
Qed.

(** The wait and the four mappings of the device succeeded. *)
Definition gpu_mapped (p : PendingFrame) : Prop :=
  let g := pf_gpu p in
  gr_wait g = Ok tt ∧ is_ok (gr_color g) = true ∧ is_ok (gr_depth g) = true ∧ is_ok (gr_normals g) = true ∧
  is_ok (gr_entity_ids g) = true.

(** What stops a readback, in the order the device and the planes are visited:
    the device, then the first rejected pixel of the depths, of the normals, of
    the identities; everything before it went well. *)
Inductive readback_fails (p : PendingFrame) : RendererError → Prop :=
| rb_wait x : gr_wait (pf_gpu p) = Err x → readback_fails p x
| rb_map x : gr_wait (pf_gpu p) = Ok tt →
    (let g := pf_gpu p in
     gr_color g = Err x ∨ is_ok (gr_color g) = true ∧
       (gr_depth g = Err x ∨ is_ok (gr_depth g) = true ∧
         (gr_normals g = Err x ∨ is_ok (gr_normals g) = true ∧ gr_entity_ids g = Err x))) → readback_fails p x
| rb_depth d x : gpu_mapped p → gr_depth (pf_gpu p) = Ok d → plane_rejects (pf_layout p) d read_depth x → readback_fails p x
| rb_normal d depth n x : gpu_mapped p →
    gr_depth (pf_gpu p) = Ok d → plane_decodes (pf_layout p) d read_depth depth →
    gr_normals (pf_gpu p) = Ok n → plane_rejects (pf_layout p) n decode_normal x → readback_fails p x
| rb_identity d depth n normals e x : gpu_mapped p →
    gr_depth (pf_gpu p) = Ok d → plane_decodes (pf_layout p) d read_depth depth →
    gr_normals (pf_gpu p) = Ok n → plane_decodes (pf_layout p) n decode_normal normals →
    gr_entity_ids (pf_gpu p) = Ok e → plane_rejects (pf_layout p) e (read_stable_bytes (pf_id_lookup p)) x → readback_fails p x.

(** The outcome of a readback: a frame whose four planes are the decoded pixels
    of the mapped buffers, or the first error met. *)
Definition readback_outcome (p : PendingFrame) (r : outcome RendererError RenderedFrame) : Prop :=
  let l := pf_layout p in
  let g := pf_gpu p in
  match r with
  | Ok f =>
      rf_width f = rl_width l ∧ rf_height f = rl_height l ∧ rf_metadata f = pf_metadata p ∧ gpu_mapped p ∧
      ∃ c d n e, gr_color g = Ok c ∧ gr_depth g = Ok d ∧ gr_normals g = Ok n ∧ gr_entity_ids g = Ok e ∧
        plane_decodes l c (λ _, read_color) (rf_color f) ∧
        plane_decodes l d read_depth (rf_depth f) ∧
        plane_decodes l n decode_normal (rf_normals f) ∧
        plane_decodes l e (λ _ b, Ok (from_le_bytes b)) (rf_entity_ids f) ∧
        plane_decodes l e (read_stable_bytes (pf_id_lookup p)) (rf_stable_entity_ids f)
  | Err x => readback_fails p x
  | _ => False
  end.

Lemma read_color_normal c : length c = 4%nat → normal (read_color c).
Proof. by intros (a & b & d & e & ->)%four_bytes. Qed.

Lemma read_depth_normal i c : normal (read_depth i c).
Proof. unfold read_depth. solve_normal. Qed.

Lemma read_stable_normal lookup id : normal (read_stable_id lookup id).
Proof. unfold read_stable_id. solve_normal. Qed.

Lemma read_color_no_err c e : read_color c ≠ Err e.
Proof. by destruct c as [|a [|b [|d [|? [|? ?]]]]]. Qed.

(** One plane of a readback: the device's error, or a decoded or rejected plane. *)
Lemma plane_cases {B} l (m : outcome RendererError bytes) (decode : nat → bytes → outcome RendererError B) :
  layout_sound l → normal m → (∀ b, m = Ok b → N.of_nat (length b) = rl_buffer_size l) →
  (∀ i c, length c = 4%nat → normal (decode i c)) →
  (∃ e, m = Err e) ∨
  ∃ mapped packed, m = Ok mapped ∧ read_tightly_packed mapped l = Ok packed ∧
    ((∃ plane, collect_from decode 0 (chunks_exact 4 packed) = Ok plane ∧ plane_decodes l mapped decode plane) ∨
     ∃ e, collect_from decode 0 (chunks_exact 4 packed) = Err e ∧ plane_rejects l mapped decode e).
Proof.
  intros Hl Hn Hm Hd. destruct m as [mapped|e| |]; try done; [right|left; by exists e].
  destruct (plane_exact l mapped Hl (Hm _ eq_refl)) as (packed & Hp & Hlen & H4 & Hx).
  exists mapped, packed. split; [done|]. split; [done|].
  assert (normal (collect_from decode 0 (chunks_exact 4 packed))) as Hc
    by (apply collect_from_normal; intros i a Ha; eauto).
  destruct (collect_from decode 0 (chunks_exact 4 packed)) as [plane|e| |] eqn:Hcol; try done.
  - left. exists plane. split; [done|]. by eapply collect_decodes.
  - right. exists e. split; [done|]. by eapply collect_rejects.
Qed.

Lemma collect_from_pure {A B} (f : A → B) k (l : list A) :
  collect_from (λ _ a, (Ok (f a) : outcome RendererError B)) k l = Ok (f <$> l).
Proof. revert k. induction l as [|a l IH]; intros k; cbn [collect_from fmap list_fmap out_bind]; [done|]. by rewrite IH. Qed.

Lemma readback_sound p alignment width height :
  0 < alignment → 0 < width → readback_layout_new alignment width height = Ok (pf_layout p) →
  gpu_returns (pf_gpu p) → mapped_sound (pf_layout p) (pf_gpu p) →
  readback_outcome p (frame_read p).
Proof.
  intros Ha Hw Hl [Hn Hnc Hnd Hnn Hne] [Hmc Hmd Hmn Hme]. apply readback_layout_sound in Hl; [|done..].
  unfold frame_read, readback_outcome. destruct (gr_wait (pf_gpu p)) as [[]|x| |] eqn:Ew; try done; [|by apply rb_wait]. cbn [out_bind].
  destruct (plane_cases (pf_layout p) (gr_color (pf_gpu p)) (λ _, read_color)) as [[x Ec]|(c & pc & Ec & Hpc & Cc)];
    [done..|by intros; apply read_color_normal|rewrite Ec; cbn [out_bind]; apply rb_map; [done|by left]|
     rewrite Ec; cbn [out_bind]; rewrite Hpc; cbn [out_bind]].
  destruct (plane_cases (pf_layout p) (gr_depth (pf_gpu p)) read_depth) as [[x Ed]|(d & pd & Ed & Hpd & Cd)];
    [done..|by intros; apply read_depth_normal|rewrite Ed; cbn [out_bind]; apply rb_map; [done|]; cbv zeta; rewrite Ec, Ed; auto|
     rewrite Ed; cbn [out_bind]; rewrite Hpd; cbn [out_bind]].
  destruct (plane_cases (pf_layout p) (gr_normals (pf_gpu p)) decode_normal) as [[x En]|(n & pn & En & Hpn & Cn)];
    [done..|by intros; apply decode_normal_normal|rewrite En; cbn [out_bind]; apply rb_map; [done|]; cbv zeta; rewrite Ec, Ed, En; auto 6|
     rewrite En; cbn [out_bind]; rewrite Hpn; cbn [out_bind]].
  destruct (plane_cases (pf_layout p) (gr_entity_ids (pf_gpu p)) (read_stable_bytes (pf_id_lookup p))) as [[x He]|(e & pe & He & Hpe & Ce)];
    [done..|by intros; apply read_stable_normal|rewrite He; cbn [out_bind]; apply rb_map; [done|]; cbv zeta; rewrite Ec, Ed, En, He; auto 8|
     rewrite He; cbn [out_bind]; rewrite Hpe; cbn [out_bind]].
  assert (gpu_mapped p) as Hmap by (unfold gpu_mapped; by rewrite Ew, Ec, Ed, En, He).
  destruct Cc as [(fc & -> & Dc)|(x & _ & ? & ? & _ & _ & []%read_color_no_err & _)]. cbn [out_bind].
  destruct Cd as [(fd & -> & Dd)|(x & -> & Rd)]; [cbn [out_bind]|by eapply rb_depth].
  destruct Cn as [(fn & -> & Dn)|(x & -> & Rn)]; [cbn [out_bind]|by eapply rb_normal].
  rewrite collect_from_fmap. fold (read_stable_bytes (pf_id_lookup p)).
  destruct Ce as [(fe & -> & De)|(x & -> & Re)]; [cbn [out_bind]|by eapply rb_identity].
  destruct (plane_exact _ e Hl (Hme _ He)) as (pe' & Hpe' & Hlen & _ & Hx). rewrite Hpe in Hpe'. apply Ok_inj in Hpe' as <-.
  cbn [rf_width rf_height rf_metadata rf_color rf_depth rf_normals rf_entity_ids rf_stable_entity_ids].
  split_and!; [done..|]. exists c, d, n, e. split_and!; try done.
  apply (collect_decodes _ _ pe); [done..|apply collect_from_pure].
Qed.

(** C23. Reading back a frame: for a layout made from a validated target, once the
    device returned (a mapped buffer of the reserved size, or an error), the
    readback never panics; it stops at the first thing that goes wrong, in the
    order wait, mapping of the colours, depths, normals and identities, then
    the first invalid pixel in row-major order of the depths, of the normals
    and of the identities, and reports its error; or all went well and it
    returns a frame whose four planes
    have one entry per pixel, the entry of pixel (x, y) being the decoding of
    the four bytes at [y * padded_bytes_per_row + 4 * x] of the mapped buffer:
    the row padding of the device never reaches the frame. *)
Theorem frame_read_exact p alignment width height :
  0 < alignment → 0 < width → readback_layout_new alignment width height = Ok (pf_layout p) →
  gpu_returns (pf_gpu p) → mapped_sound (pf_layout p) (pf_gpu p) →
  readback_outcome p (frame_read p).
Proof. apply readback_sound. Qed.

(** A two by two target with rows padded to 256 bytes: one pixel of geometry. *)
Definition sample_plane (a b c d : bytes) : bytes := a ++ b ++ replicate 248 x2a ++ c ++ d ++ replicate 248 x2a.

Definition sample_pending : PendingFrame :=
  mkPendingFrame (mkReadbackLayout 2 2 8 256 512) (mkFrameMetadata 1 3 7 3) {[ 5 := 9 ]}
    (mkGpuReadback (Ok ())
      (Ok (sample_plane [x01; x02; x03; xff] [x00; x00; x00; x00] [x00; x00; x00; x00] [x00; x00; x00; x00]))
      (Ok (sample_plane [x00; x00; x00; x3f] [x00; x00; x80; x3f] [x00; x00; x80; x3f] [x00; x00; x80; x3f]))
      (Ok (sample_plane [x80; x80; xff; xff] [x00; x00; x00; x00] [x00; x00; x00; x00] [x00; x00; x00; x00]))
      (Ok (sample_plane [x05; x00; x00; x00] [x00; x00; x00; x00] [x00; x00; x00; x00] [x00; x00; x00; x00]))).

(** With two depths out of range the first one is reported. *)
Example frame_read_first_invalid :
  frame_read (mkPendingFrame (pf_layout sample_pending) (pf_metadata sample_pending) (pf_id_lookup sample_pending)
    (mkGpuReadback (Ok ()) (gr_color (pf_gpu sample_pending))
      (Ok (sample_plane [x00; x00; x00; x3f] [x00; x00; x00; x40] [x00; x00; x80; x3f] [x00; x00; x00; x40]))
      (gr_normals (pf_gpu sample_pending)) (gr_entity_ids (pf_gpu sample_pending))))
  = Err (InvalidDepthOutput 1).
Proof. vm_compute. reflexivity. Qed.

Lemma frame_read_exact_witness :
  readback_outcome sample_pending (frame_read sample_pending) ∧
  match frame_read sample_pending with
  | Ok f => color_at f 0 0 = Some (mkRgba8 x01 x02 x03 xff) ∧ depth_at f 0 0 = Some 1056964608 ∧
      stable_entity_id_at f 0 0 = Some 9 ∧ stable_entity_id_at f 1 1 = None ∧ color_at f 2 0 = None
  | _ => False
  end.
Proof.
  split; [|vm_compute; by split_and!].
  apply (frame_read_exact sample_pending 256 2 2); [done|done|vm_compute; reflexivity|by split|].
  split; cbn; intros b [= <-]; vm_compute; reflexivity.
Defined.
