(* ===== verification/ScenePrepare.v ===== *)
(** * Preparing a frame

    [RenderScene::prepare] of [cogniform-renderer/src/scene.rs]: the camera, the
    lights, one draw per visible entity in identity order, and the table from
    the compact identities the device writes back to the stable ones.  Resident
    asset meshes are looked up by an argument; the tangent of a field of view,
    a platform function, is an argument as well.  An array of sixteen numbers is
    a list, read with [at_]. *)

From S2P Require Import Prelude Machine BTree Floats Values Components Messages WorldTypes Render AssetTypes RenderScene Recovery Engine.

Open Scope N_scope.

Definition MAX_DIRECTIONAL_LIGHTS : nat := 4.
Definition MAX_POINT_LIGHTS : nat := 4.

(** ** Numbers *)

Definition f64_neg_zero : f64 := S754_zero true.
Definition f64_neg (x : f64) : f64 := SFopp x.
Definition f64_abs (x : f64) : f64 := SFabs x.
Definition f64_leb (x y : f64) : bool := match SFcompare x y with Some Lt | Some Eq => true | _ => false end.
Definition f64_ltb (x y : f64) : bool := match SFcompare x y with Some Lt => true | _ => false end.
Definition f64_half : f64 := S754_finite false 4503599627370496 (-53).
Definition f64_minus_one : f64 := S754_finite true 4503599627370496 (-52).

(** [f64::EPSILON] and [f64::EPSILON * 16.0]. *)
Definition f64_epsilon : f64 := S754_finite false 4503599627370496 (-104).
Definition f64_epsilon_16 : f64 := S754_finite false 4503599627370496 (-100).

(** [f64::from(u32)] and [value as f32]. *)
Definition f64_of_u32 (n : N) : f64 := binary_normalize f64_prec f64_emax (Z.of_N n) 0 false.
Definition f32_of_f64 (x : f64) : f32 :=
  match x with
  | S754_finite s m e => f32_of_spec (binary_normalize 24 128 (cond_Zopp s (Zpos m)) e s)
  | v => f32_of_spec v
  end.

(** [f64::max]: a NaN is ignored. *)
Definition f64_max (x y : f64) : f64 :=
  match x, y with
  | S754_nan, _ => y
  | _, S754_nan => x
  | _, _ => if f64_ltb x y then y else x
  end.

(** [Iterator::sum] of [f64]. *)
Definition f64_sum (l : list f64) : f64 := foldl f64_add f64_neg_zero l.

Definition at_ (m : list f64) (i : nat) : f64 := default f64_zero (m !! i).

(** [matrix_to_f32]. *)
Definition matrix_to_f32 (matrix : list f64) (entity_id : StableEntityId) : outcome RendererError (list f32) :=
  out_fold (λ result value,
    let converted := f32_of_f64 value in
    do! guard_err (negb (f32_is_finite converted)) (GpuTransformOutOfRange entity_id) then
    Ok (result ++ [converted])) [] matrix.

(** [multiply_matrices]. *)
Definition multiply_matrices (left right : list f64) : list f64 :=
  mjoin ((λ column, (λ row,
    f64_sum ((λ index, f64_mul (at_ left (index * 4 + row)) (at_ right (column * 4 + index))) <$> seq 0 4))
    <$> seq 0 4) <$> seq 0 4).

(** [invert_affine]. *)
Definition invert_affine (matrix : list f64) : option (list f64) :=
  let beyond x := f64_ltb f64_epsilon_16 (f64_abs x) in
  if beyond (at_ matrix 3) || beyond (at_ matrix 7) || beyond (at_ matrix 11) || beyond (f64_sub (at_ matrix 15) f64_one)
  then None else
  let a00 := at_ matrix 0 in let a01 := at_ matrix 4 in let a02 := at_ matrix 8 in
  let a10 := at_ matrix 1 in let a11 := at_ matrix 5 in let a12 := at_ matrix 9 in
  let a20 := at_ matrix 2 in let a21 := at_ matrix 6 in let a22 := at_ matrix 10 in
  let minor a b c d := f64_sub (f64_mul a b) (f64_mul c d) in
  let determinant := f64_add (f64_sub (f64_mul a00 (minor a11 a22 a12 a21)) (f64_mul a01 (minor a10 a22 a12 a20)))
    (f64_mul a02 (minor a10 a21 a11 a20)) in
  if negb (f64_is_finite determinant) || f64_leb (f64_abs determinant) f64_epsilon then None else
  let inverse := f64_recip determinant in
  let b00 := f64_mul (minor a11 a22 a12 a21) inverse in
  let b01 := f64_mul (minor a02 a21 a01 a22) inverse in
  let b02 := f64_mul (minor a01 a12 a02 a11) inverse in
  let b10 := f64_mul (minor a12 a20 a10 a22) inverse in
  let b11 := f64_mul (minor a00 a22 a02 a20) inverse in
  let b12 := f64_mul (minor a02 a10 a00 a12) inverse in
  let b20 := f64_mul (minor a10 a21 a11 a20) inverse in
  let b21 := f64_mul (minor a01 a20 a00 a21) inverse in
  let b22 := f64_mul (minor a00 a11 a01 a10) inverse in
  let tx := at_ matrix 12 in let ty := at_ matrix 13 in let tz := at_ matrix 14 in
  let dot x y z := f64_neg (f64_add (f64_add (f64_mul x tx) (f64_mul y ty)) (f64_mul z tz)) in
  let result := [b00; b10; b20; f64_zero; b01; b11; b21; f64_zero; b02; b12; b22; f64_zero;
    dot b00 b01 b02; dot b10 b11 b12; dot b20 b21 b22; f64_one] in
  if forallb f64_is_finite result then Some result else None.

(** [normalized_positive_z] and [point_position]. *)
Definition normalized_positive_z (e : RenderEntity) : outcome RendererError (list f32) :=
  let matrix := re_world_transform e in
  let direction := [at_ matrix 8; at_ matrix 9; at_ matrix 10] in
  let scale := foldl f64_max f64_zero (f64_abs <$> direction) in
  do! guard_err (match scale with S754_zero false => true | _ => false end)
    (DirectionalLightDirectionInvalid (re_entity_id e)) then
  let scaled := (λ value, f64_div value scale) <$> direction in
  let length := f64_sqrt (f64_sum ((λ value, f64_mul value value) <$> scaled)) in
  let normalized := (λ value, f32_of_f64 (f64_div value length)) <$> scaled in
  do! guard_err (negb (forallb f32_is_finite normalized)) (DirectionalLightDirectionInvalid (re_entity_id e)) then
  Ok normalized.

Definition point_position (e : RenderEntity) : outcome RendererError (list f32) :=
  let matrix := re_world_transform e in
  let position := f32_of_f64 <$> [at_ matrix 12; at_ matrix 13; at_ matrix 14] in
  do! guard_err (negb (forallb f32_is_finite position)) (GpuTransformOutOfRange (re_entity_id e)) then
  Ok position.

(** [camera_view_projection]. *)
Definition camera_view_projection (tan : f64 → f64) (e : RenderEntity) (camera : CameraComponent) (width height : N)
    : outcome RendererError (list f32) :=
  let! view := ok_or (invert_affine (re_world_transform e)) (CameraTransformNotInvertible (re_entity_id e)) in
  let aspect := f64_div (f64_of_u32 width) (f64_of_u32 height) in
  let f := f64_recip (tan (f64_mul (f64_of_f32 (cam_vertical_fov_radians camera)) f64_half)) in
  let near := f64_of_f32 (cam_near camera) in
  let far := f64_of_f32 (cam_far camera) in
  let projection := [f64_div f aspect; f64_zero; f64_zero; f64_zero;
    f64_zero; f; f64_zero; f64_zero;
    f64_zero; f64_zero; f64_div far (f64_sub near far); f64_minus_one;
    f64_zero; f64_zero; f64_div (f64_mul far near) (f64_sub near far); f64_zero] in
  matrix_to_f32 (multiply_matrices projection view) (re_entity_id e).

(** ** Lights *)

Record PreparedDirectionalLight := mkPreparedDirectional {
  pdl_surface_to_light : list f32;
  pdl_color : ColorRgb;
  pdl_intensity : f32;
}.

Record PreparedPointLight := mkPreparedPoint {
  ppl_position : list f32;
  ppl_color : ColorRgb;
  ppl_intensity : f32;
}.

(** The loop shared by [prepare_directional_lights] and [prepare_point_lights]:
    skip other entities and the other kind, count definitions, reject beyond the
    limit, skip lights that are off. *)
Definition light_step {A} (kind : LightKind) (limit : nat) (exceeded : N → N → RendererError)
    (prepare : RenderEntity → LightComponent → outcome RendererError A) (acc : nat * list A) (e : RenderEntity)
    : outcome RendererError (nat * list A) :=
  let '(definition_count, prepared) := acc in
  match rc_light (re_components e) with
  | None => Ok acc
  | Some light =>
      if negb (bool_decide (light_kind light = kind)) then Ok acc else
      let definition_count := S definition_count in
      do! guard_err (limit <? definition_count)%nat (exceeded (N.of_nat definition_count) (N.of_nat limit)) then
      if light_intensity light =? 0 then Ok (definition_count, prepared) else
      let! p := prepare e light in
      Ok (definition_count, prepared ++ [p])
  end.

(** [BTreeMap::values]. *)
Definition scene_values (s : RenderScene) : list RenderEntity := (btree_iter (rn_entities s)).*2.

(** [prepare_directional_lights] and [prepare_point_lights]. *)
Definition prepare_directional_lights (s : RenderScene) : outcome RendererError (list PreparedDirectionalLight) :=
  let! acc := out_fold (light_step Directional MAX_DIRECTIONAL_LIGHTS DirectionalLightCapacityExceeded
    (λ e light, let! surface_to_light := normalized_positive_z e in
       Ok (mkPreparedDirectional surface_to_light (light_color light) (light_intensity light))))
    (0%nat, []) (scene_values s) in
  Ok acc.2.

Definition prepare_point_lights (s : RenderScene) : outcome RendererError (list PreparedPointLight) :=
  let! acc := out_fold (light_step Point MAX_POINT_LIGHTS PointLightCapacityExceeded
    (λ e light, let! position := point_position e in
       Ok (mkPreparedPoint position (light_color light) (light_intensity light))))
    (0%nat, []) (scene_values s) in
  Ok acc.2.

(** ** Imported materials

    A texture role is the number of its bit: base color, emissive,
    metallic-roughness, normal, specular, specular color, clearcoat, clearcoat
    roughness, clearcoat normal, sheen color, sheen roughness, anisotropy. *)

Definition BASE_COLOR_ROLE : nat := 0.
Definition NORMAL_ROLE : nat := 3.
Definition CLEARCOAT_NORMAL_ROLE : nat := 8.
Definition TEXTURE_ROLES : list nat := seq 0 12.

Inductive ImportedShadingModel : Type := MetallicRoughness | Unlit.
Inductive ImportedFacePolicy : Type := FacesDisabled | SingleSided | DoubleSided.
Inductive ImportedAlphaCoverage : Type := CoverageDisabled | CoverageOpaque | CoverageMask (cutoff : f32).

(** [ImportedShadingModel::flags], [ImportedFacePolicy::flags] and
    [culls_back_faces], [ImportedAlphaCoverage::flags] and [cutoff]. *)
Definition shading_flags (s : ImportedShadingModel) : N := match s with MetallicRoughness => 0 | Unlit => N.shiftl 1 4 end.
Definition culls_back_faces (p : ImportedFacePolicy) : bool := match p with SingleSided => true | _ => false end.
Definition face_flags (p : ImportedFacePolicy) : N :=
  match p with FacesDisabled | SingleSided => 0 | DoubleSided => N.shiftl 1 3 end.
Definition coverage_flags (c : ImportedAlphaCoverage) : N :=
  match c with
  | CoverageDisabled => 0
  | CoverageOpaque => N.shiftl 1 1
  | CoverageMask _ => N.lor (N.shiftl 1 1) (N.shiftl 1 2)
  end.
Definition coverage_cutoff (c : ImportedAlphaCoverage) : f32 :=
  match c with CoverageDisabled | CoverageOpaque => f32_zero | CoverageMask cutoff => cutoff end.

(** What a draw takes from an imported material. *)
Record ImportedSelection := mkImportedSelection {
  is_roles : N;
  is_transforms : list AssetTextureTransform;
  is_normal_scale : f32;
  is_clearcoat_normal_scale : f32;
  is_alpha_coverage : ImportedAlphaCoverage;
  is_face_policy : ImportedFacePolicy;
  is_shading_model : ImportedShadingModel;
  is_coordinate_sets : N;
}.

(** [imported_texture_transforms]. *)
Definition imported_texture_transforms (material : option AssetMaterial) (roles : N)
    : outcome RendererError (list AssetTextureTransform) :=
  out_fold (λ transforms role,
    let! transform := if has_role roles role then expect (m ← material; texture_transform m role)
                      else Ok texture_transform_identity in
    Ok (transforms ++ [transform])) [] TEXTURE_ROLES.

(** [imported_texture_coordinate_sets]. *)
Definition imported_texture_coordinate_sets (material : option AssetMaterial) (roles : N) : N :=
  foldl (λ sets role,
    N.lor sets (N.b2n (has_role roles role && bool_decide ((m ← material; texture_coordinate_set m role) = Some 1))
                * role_bit role)) 0 TEXTURE_ROLES.

(** [imported_material_selection]. *)
Definition imported_material_selection (use_imported_material : bool) (material : option AssetMaterial)
    : outcome RendererError ImportedSelection :=
  let some_and test := match material with Some m => test m | None => false end in
  let shading_model :=
    if use_imported_material && some_and (λ m, match mt_shading_model m with AssetUnlit => true | _ => false end)
    then Unlit else MetallicRoughness in
  let use_lit_roles := match shading_model with MetallicRoughness => true | Unlit => false end in
  let uses role :=
    use_imported_material && ((role =? BASE_COLOR_ROLE)%nat || use_lit_roles)
    && some_and (λ m, has_role (mt_texture_roles m) role) in
  let normal_scale := if uses NORMAL_ROLE then match material with Some m => mt_normal_scale m | None => f32_one end else f32_one in
  let clearcoat_normal_scale :=
    if uses CLEARCOAT_NORMAL_ROLE then match material with Some m => mt_clearcoat_normal_scale m | None => f32_one end else f32_one in
  let roles := foldl (λ roles role, N.lor roles (N.b2n (uses role) * role_bit role)) 0 TEXTURE_ROLES in
  let! transforms := imported_texture_transforms material roles in
  let coordinate_sets := imported_texture_coordinate_sets material roles in
  let! alpha_coverage :=
    match (if use_imported_material then material else None) with
    | None => Ok CoverageDisabled
    | Some m =>
        match mt_alpha_mode m with
        | AlphaMask => let! cutoff := expect (alpha_cutoff m) in Ok (CoverageMask cutoff)
        | AlphaOpaque => Ok CoverageOpaque
        end
    end in
  let face_policy :=
    match (if use_imported_material then material else None) with
    | None => FacesDisabled
    | Some m => if mt_double_sided m then DoubleSided else SingleSided
    end in
  Ok (mkImportedSelection roles transforms normal_scale clearcoat_normal_scale alpha_coverage face_policy shading_model
        coordinate_sets).

Record MaterialValues := mkMaterialValues {
  mv_color : ColorRgba;
  mv_metallic : f32;
  mv_roughness : f32;
  mv_emissive : list f32;
  mv_emissive_strength : f32;
  mv_dielectric_f0 : f32;
  mv_specular_color_factor : list f32;
  mv_specular_factor : f32;
  mv_anisotropy_strength : f32;
  mv_anisotropy_rotation_cos_sin : list f32;
  mv_clearcoat_factor : f32;
  mv_clearcoat_roughness_factor : f32;
  mv_sheen_color_factor : list f32;
  mv_sheen_roughness_factor : f32;
}.

(** [0.8_f32] and [0.04_f32]. *)
Definition f32_0_8 : f32 := 1061997773.
Definition f32_0_04 : f32 := 1025758986.
Definition zeros3 : list f32 := [f32_zero; f32_zero; f32_zero].
Definition ones3 : list f32 := [f32_one; f32_one; f32_one].

(** A surface without imported features. *)
Definition plain_values (color : ColorRgba) (metallic roughness : f32) : MaterialValues :=
  mkMaterialValues color metallic roughness zeros3 f32_one f32_0_04 ones3 f32_one f32_zero [f32_one; f32_zero]
    f32_zero f32_zero zeros3 f32_zero.

(** [material_values], with [color_values]. *)
Definition material_values (scene_material : option MaterialComponent) (imported_material : option AssetMaterial)
    : MaterialValues :=
  match scene_material with
  | Some m => plain_values (mat_base_color m) (mat_metallic m) (mat_roughness m)
  | None =>
      match imported_material with
      | None => plain_values (mkColorRgba f32_0_8 f32_0_8 f32_0_8 f32_one) f32_zero f32_0_8
      | Some m => mkMaterialValues (mt_base_color m) (mt_metallic m) (mt_roughness m) (mt_emissive m)
          (mt_emissive_strength m) (mt_dielectric_f0 m) (mt_specular_color_factor m) (mt_specular_factor m)
          (mt_anisotropy_strength m) (mt_anisotropy_rotation_cos_sin m) (mt_clearcoat_factor m)
          (mt_clearcoat_roughness_factor m) (mt_sheen_color_factor m) (mt_sheen_roughness_factor m)
      end
  end.

(** ** Draws *)

Inductive PreparedGeometry : Type :=
| GeoCuboid
| GeoPlane
| GeoSphere
| GeoAsset (key : AssetMeshComponent).

(** [primitive_geometry]. *)
Definition primitive_geometry (shape : PrimitiveShape) : PreparedGeometry :=
  match shape with Cuboid => GeoCuboid | Plane => GeoPlane | Sphere => GeoSphere end.

Definition is_asset (g : PreparedGeometry) : bool := match g with GeoAsset _ => true | _ => false end.

Record PreparedDraw := mkPreparedDraw {
  pd_geometry : PreparedGeometry;
  pd_model : list f32;
  pd_view_projection : list f32;
  pd_camera_position : list f32;
  pd_values : MaterialValues;
  pd_imported : ImportedSelection;
  pd_imported_vertex_color : bool;
  pd_compact_id : N;
}.

Record PreparedScene := mkPreparedScene {
  ps_draws : list PreparedDraw;
  ps_directional_lights : list PreparedDirectionalLight;
  ps_point_lights : list PreparedPointLight;
  ps_id_lookup : gmap N StableEntityId;
}.

(** The loop that scales the first three columns of a model by the dimensions of
    its primitive. *)
Definition scale_model (model : list f32) (d : PositiveVec3) : list f32 :=
  imap (λ i v, match (i / 4)%nat with
               | 0%nat => f32_mul v (pv3_x d)
               | 1%nat => f32_mul v (pv3_y d)
               | 2%nat => f32_mul v (pv3_z d)
               | _ => v
               end) model.

(** The geometry of an entity: a resident asset, else its primitive. *)
Definition entity_geometry (resolve_asset : AssetMeshComponent → option AssetMaterial) (entity_id : StableEntityId)
    (e : RenderEntity) : outcome RendererError (option (PreparedGeometry * option AssetMaterial)) :=
  let primitive := rc_primitive (re_components e) in
  match rc_asset_mesh (re_components e) with
  | Some key =>
      match resolve_asset key with
      | Some material => Ok (Some (GeoAsset key, Some material))
      | None =>
          match primitive with
          | Some p => Ok (Some (primitive_geometry (prim_shape p), None))
          | None => Err (AssetUnavailable entity_id key)
          end
      end
  | None =>
      match primitive with
      | Some p => Ok (Some (primitive_geometry (prim_shape p), None))
      | None => Ok None
      end
  end.

(** [PreparedDraw::with_imported_material] is part of the record built here. *)
Definition draw_step (s : RenderScene) (resolve_asset : AssetMeshComponent → option AssetMaterial)
    (view_projection camera_position : list f32) (max_draws : N)
    (acc : list PreparedDraw * gmap N StableEntityId) (entry : N * RenderEntity)
    : outcome RendererError (list PreparedDraw * gmap N StableEntityId) :=
  let '(draws, id_lookup) := acc in
  let '(entity_id, e) := entry in
  let! geometry := entity_geometry resolve_asset entity_id e in
  match geometry with
  | None => Ok acc
  | Some (geometry, imported_material) =>
      do! guard_err (max_draws <=? N.of_nat (length draws)) (DrawCapacityExceeded max_draws) then
      let! compact_id := expect (rn_compact_ids s !! entity_id) in
      let! model := matrix_to_f32 (re_world_transform e) entity_id in
      let! model :=
        if is_asset geometry then Ok model
        else let! p := expect (rc_primitive (re_components e)) in Ok (scale_model model (prim_dimensions p)) in
      let material := rc_material (re_components e) in
      let values := material_values material imported_material in
      let use_imported_material := negb (is_some material) in
      let! imported := imported_material_selection use_imported_material imported_material in
      Ok (draws ++ [mkPreparedDraw geometry model view_projection camera_position values imported
                      (use_imported_material && is_asset geometry) compact_id],
          <[compact_id := entity_id]> id_lookup)
  end.

(** [RenderScene::prepare]. *)
Definition scene_prepare (tan : f64 → f64) (s : RenderScene) (camera_id : StableEntityId) (width height max_draws : N)
    (resolve_asset : AssetMeshComponent → option AssetMaterial) : outcome RendererError PreparedScene :=
  let! camera_entity := ok_or (rn_entities s !! camera_id) (CameraUnavailable camera_id) in
  let! camera := ok_or (rc_camera (re_components camera_entity)) (CameraUnavailable camera_id) in
  let! view_projection := camera_view_projection tan camera_entity camera width height in
  let! camera_position := point_position camera_entity in
  let! directional_lights := prepare_directional_lights s in
  let! point_lights := prepare_point_lights s in
  let! (draws, id_lookup) :=
    out_fold (draw_step s resolve_asset view_projection camera_position max_draws) ([], ∅) (btree_iter (rn_entities s)) in
  Ok (mkPreparedScene draws directional_lights point_lights id_lookup).

(** ** What a prepared scene holds *)

(** The entities a frame draws. *)
Definition visible (e : RenderEntity) : bool :=
  is_some (rc_asset_mesh (re_components e)) || is_some (rc_primitive (re_components e)).

(** Drawn entities with their compact identities, in the order of a list. *)
Definition drawn (s : RenderScene) (l : list (N * RenderEntity)) : list (StableEntityId * N) :=
  omap (λ p, if visible p.2 then (λ c, (p.1, c)) <$> rn_compact_ids s !! p.1 else None) l.

Lemma entity_geometry_visible resolve id e g : entity_geometry resolve id e = Ok g → is_some g = visible e.
Proof.
  unfold entity_geometry, visible. destruct (rc_asset_mesh _) as [key|]; cbn [is_some orb].
  - destruct (resolve key); [by intros <-%Ok_inj|]. by destruct (rc_primitive _); [intros <-%Ok_inj|].
  - by destruct (rc_primitive _); intros <-%Ok_inj.
Qed.

Lemma elem_of_drawn s l id c :
  (id, c) ∈ drawn s l ↔ ∃ e, (id, e) ∈ l ∧ visible e = true ∧ rn_compact_ids s !! id = Some c.
Proof.
  unfold drawn. rewrite list_elem_of_omap. split.
  - intros ([id' e] & Hin & Hp). cbn in Hp. destruct (visible e) eqn:Hv; [|done].
    apply fmap_Some in Hp as (c' & Hc & [= -> ->]). eauto.
  - intros (e & Hin & Hv & Hc). exists (id, e). cbn. by rewrite Hv, Hc.
Qed.

Lemma drawn_cons s p l : drawn s (p :: l) =
  option_list (if visible p.2 then (λ c, (p.1, c)) <$> rn_compact_ids s !! p.1 else None) ++ drawn s l.
Proof. unfold drawn. cbn [omap list_omap]. by destruct (if visible _ then _ else _). Qed.

(** A compact identity is drawn once. *)
Lemma drawn_once s l : scene_ok s → NoDup l.*1 → NoDup (drawn s l).*2.
Proof.
  intros Hs. induction l as [|[id e] l IH]; intros Hnd; [constructor|]. rewrite fmap_cons in Hnd. apply NoDup_cons in Hnd as [Hid Hnd].
  rewrite drawn_cons. cbn [fst snd]. specialize (IH Hnd). destruct (visible e); [|done].
  destruct (rn_compact_ids s !! id) as [c|] eqn:Hc; [|done]. cbn [fmap option_fmap option_map option_list app].
  change (NoDup (c :: (drawn s l).*2)). apply NoDup_cons. split; [|done].
  intros ([id' c'] & Heq & Hin)%list_elem_of_fmap. cbn [snd] in Heq. subst c'. apply elem_of_drawn in Hin as (e' & Hin & _ & Hc').
  rewrite (al_inj _ _ _ (sk_alloc _ Hs) id id' c Hc Hc') in Hid. apply Hid. apply list_elem_of_fmap. by exists (id', e').
Qed.

(** Inserting pairs with distinct second parts. *)
Lemma lookup_pairs (ps : list (StableEntityId * N)) (m : gmap N StableEntityId) c id : NoDup ps.*2 →
  (foldl (λ m p, <[p.2 := p.1]> m) m ps) !! c = Some id ↔ (id, c) ∈ ps ∨ (c ∉ ps.*2 ∧ m !! c = Some id).
Proof.
  revert m. induction ps as [|[id0 c0] ps IH]; intros m Hnd; cbn [foldl fmap list_fmap fst snd].
  { split; [intros H; right; split; [apply not_elem_of_nil|done]|intros [[]%not_elem_of_nil|[_ ?]]; done]. }
  apply NoDup_cons in Hnd as [Hc0 Hnd]. rewrite IH by done. rewrite elem_of_cons, not_elem_of_cons.
  destruct (decide (c = c0)) as [->|Hne].
  - rewrite lookup_insert_eq. split.
    + intros [Hin|[_ [= ->]]]; [|by auto]. exfalso. apply Hc0, list_elem_of_fmap. by exists (id, c0).
    + intros [[[= ->]|Hin]|[[? _] _]]; [by right|by left|done].
  - rewrite lookup_insert_ne by done. split; [intros [?|[? ?]]; auto|]. intros [[[= -> ->]|?]|[[_ ?] ?]]; auto. done.
Qed.

Lemma draw_step_ok s resolve vp cp max draws m id e draws' m' :
  draw_step s resolve vp cp max (draws, m) (id, e) = Ok (draws', m') →
  (visible e = false ∧ draws' = draws ∧ m' = m) ∨
  visible e = true ∧ ∃ c d, rn_compact_ids s !! id = Some c ∧ draws' = draws ++ [d] ∧ pd_compact_id d = c ∧
    m' = <[c := id]> m ∧ N.of_nat (length draws) < max ∧
    pd_view_projection d = vp ∧ pd_camera_position d = cp.
Proof.
  unfold draw_step. intros Hd. apply out_bind_ok in Hd as (g & Hg%entity_geometry_visible & Hd).
  destruct g as [[g material]|]; [|left; by apply Ok_inj in Hd as [= <- <-]]. right. split; [by rewrite <-Hg|].
  apply out_bind_ok in Hd as ([] & Hlt%guard_err_ok%N.leb_gt & Hd).
  apply out_bind_ok in Hd as (c & Hc & Hd). destruct (rn_compact_ids s !! id) as [c'|] eqn:Hcc; [|done]. apply Ok_inj in Hc as <-.
  apply out_bind_ok in Hd as (model & _ & Hd). apply out_bind_ok in Hd as (model' & _ & Hd).
  apply out_bind_ok in Hd as (imported & _ & Hd). apply Ok_inj in Hd as [= <- <-]. by eexists c', _.
Qed.

Lemma draw_fold s resolve vp cp max l draws m draws' m' :
  out_fold (draw_step s resolve vp cp max) (draws, m) l = Ok (draws', m') →
  (pd_compact_id <$> draws') = (pd_compact_id <$> draws) ++ (drawn s l).*2 ∧
  m' = foldl (λ m p, <[p.2 := p.1]> m) m (drawn s l) ∧
  (N.of_nat (length draws) ≤ max → N.of_nat (length draws') ≤ max).
Proof.
  revert draws m. induction l as [|[id e] l IH]; intros draws m; cbn [out_fold].
  { intros [= <- <-]%Ok_inj. by rewrite app_nil_r. }
  intros Hf. apply out_bind_ok in Hf as ([draws1 m1] & Hs & (Hd & -> & Hlen)%IH). rewrite drawn_cons. cbn [fst snd].
  apply draw_step_ok in Hs as [(Hv & -> & ->)|(Hv & c & d & Hc & -> & Hdc & -> & Hlt & _)]; rewrite Hv; [done|].
  rewrite Hc. subst c. cbn [fmap option_fmap option_map option_list app foldl fst snd]. rewrite Hd, fmap_app, <-app_assoc. split_and!; [done..|].
  intros _. apply Hlen. rewrite length_app. cbn [length]. lia.
Qed.

(** ** Preparation returns *)

Lemma matrix_to_f32_normal m id : normal (matrix_to_f32 m id).
Proof. apply (out_fold_normal _ (λ _, True)); [|done..]. intros. apply out_bind_normal; [apply guard_err_normal|done]. Qed.

Lemma selection_roles_subset (uses : nat → bool) l roles role :
  has_role (foldl (λ roles role, N.lor roles (N.b2n (uses role) * role_bit role)) roles l) role = true →
  has_role roles role = true ∨ uses role = true.
Proof.
  revert roles. induction l as [|r l IH]; intros roles; cbn [foldl]; [by left|].
  intros [Hr|?]%IH; [|by right]. unfold has_role, role_bit in *. rewrite !N.shiftl_1_l in *.
  rewrite negb_true_iff, N.eqb_neq in Hr |- *. destruct (uses r) eqn:Hu; cbn [N.b2n] in Hr.
  - destruct (decide (r = role)) as [->|Hne]; [by right|left]. intros Hz. apply Hr. rewrite N.land_lor_distr_l, Hz, N.lor_0_l, N.mul_1_l.
    apply N.bits_inj. intros i. rewrite N.land_spec, !N.pow2_bits_eqb, N.bits_0.
    destruct (N.eqb_spec (N.of_nat r) i), (N.eqb_spec (N.of_nat role) i); try done. lia.
  - left. by rewrite N.mul_0_l, N.lor_0_r in Hr.
Qed.

Lemma has_role_0 role : has_role 0 role = false.
Proof. unfold has_role. by rewrite N.land_0_l. Qed.

Lemma imported_selection_normal use material : normal (imported_material_selection use material).
Proof.
  unfold imported_material_selection. set (shading := if _ && _ then Unlit else MetallicRoughness).
  apply out_bind_normal.
  - unfold imported_texture_transforms. apply (out_fold_normal _ (λ _, True)); [|done..]. intros role acc _ _.
    apply out_bind_normal; [|done]. destruct (has_role _ role) eqn:Hr; [|done].
    apply selection_roles_subset in Hr as [Hr|Hr]; [by rewrite has_role_0 in Hr|]. cbv beta in Hr.
    apply andb_true_iff in Hr as [_ Hr]. destruct material as [m|]; [|done]. cbn [mbind option_bind]. unfold texture_transform. by rewrite Hr.
  - intros transforms _. apply out_bind_normal; [|done]. destruct (if use then material else None) as [m|]; [|done].
    unfold alpha_cutoff. by destruct (mt_alpha_mode m).
Qed.

Lemma draw_step_normal s resolve vp cp max acc id e :
  scene_ok s → rn_entities s !! id = Some e → normal (draw_step s resolve vp cp max acc (id, e)).
Proof.
  intros Hs He. destruct acc as [draws m]. unfold draw_step.
  assert (normal (entity_geometry resolve id e)) as Hn by (unfold entity_geometry; solve_normal).
  destruct (entity_geometry resolve id e) as [g|err| |] eqn:Hg; try done. cbn [out_bind].
  destruct g as [[g material]|]; [|done]. apply out_bind_normal; [apply guard_err_normal|intros _ _].
  assert (is_Some (rn_compact_ids s !! id)) as [c ->] by (apply elem_of_dom; rewrite (sk_ids _ Hs); apply elem_of_dom; by eexists).
  cbn [expect out_bind]. apply out_bind_normal; [apply matrix_to_f32_normal|intros model _].
  apply out_bind_normal.
  - destruct (is_asset g) eqn:Ha; [done|]. unfold entity_geometry in Hg.
    destruct (rc_primitive (re_components e)) as [p|]; [done|]. destruct (rc_asset_mesh _) as [key|]; [|done].
    destruct (resolve key); [|done]. by injection Hg as <- _.
  - intros model' _. apply out_bind_normal; [apply imported_selection_normal|done].
Qed.

Lemma light_fold_ok {A} kind limit exceeded (prepare : RenderEntity → LightComponent → outcome RendererError A) l n prepared n' prepared' :
  out_fold (light_step kind limit exceeded prepare) (n, prepared) l = Ok (n', prepared') →
  (length prepared ≤ n ≤ limit)%nat → (length prepared' ≤ n' ≤ limit)%nat.
Proof.
  revert n prepared. induction l as [|e l IH]; intros n prepared; cbn [out_fold]; [by intros [= <- <-]%Ok_inj|].
  intros Hf Hn. apply out_bind_ok in Hf as ([n1 p1] & Hs & Hf). apply (IH _ _ Hf). unfold light_step in Hs.
  destruct (rc_light _) as [light|]; [|by apply Ok_inj in Hs as [= <- <-]]. destruct (negb _); [by apply Ok_inj in Hs as [= <- <-]|].
  apply out_bind_ok in Hs as ([] & Hl%guard_err_ok%Nat.ltb_ge & Hs). destruct (_ =? 0); [apply Ok_inj in Hs as [= <- <-]; lia|].
  apply out_bind_ok in Hs as (p & _ & [= <- <-]%Ok_inj). rewrite length_app. cbn [length]. lia.
Qed.

Lemma light_fold_normal {A} kind limit exceeded (prepare : RenderEntity → LightComponent → outcome RendererError A) l acc :
  (∀ e light, normal (prepare e light)) → normal (out_fold (light_step kind limit exceeded prepare) acc l).
Proof.
  intros Hp. apply (out_fold_normal _ (λ _, True)); [|done..]. intros e [n prepared] _ _. unfold light_step.
  destruct (rc_light _) as [light|]; [|done]. destruct (negb _); [done|]. apply out_bind_normal; [apply guard_err_normal|intros _ _].
  destruct (_ =? 0); [done|]. apply out_bind_normal; [apply Hp|done].
Qed.

Lemma normalized_normal e : normal (normalized_positive_z e).
Proof. unfold normalized_positive_z. apply out_bind_normal; [apply guard_err_normal|intros _ _]. apply out_bind_normal; [apply guard_err_normal|done]. Qed.

Lemma point_position_normal e : normal (point_position e).
Proof. unfold point_position. apply out_bind_normal; [apply guard_err_normal|done]. Qed.

Lemma scene_prepare_normal tan s camera_id width height max_draws resolve :
  scene_ok s → normal (scene_prepare tan s camera_id width height max_draws resolve).
Proof.
  intros Hs. unfold scene_prepare. apply out_bind_normal; [apply ok_or_normal|intros ce _].
  apply out_bind_normal; [apply ok_or_normal|intros camera _]. apply out_bind_normal.
  { unfold camera_view_projection. apply out_bind_normal; [apply ok_or_normal|intros view _]. apply matrix_to_f32_normal. }
  intros vp _. apply out_bind_normal; [apply point_position_normal|intros cp _].
  apply out_bind_normal.
  { unfold prepare_directional_lights. apply out_bind_normal; [|done]. apply light_fold_normal. intros.
    apply out_bind_normal; [apply normalized_normal|done]. }
  intros dl _. apply out_bind_normal.
  { unfold prepare_point_lights. apply out_bind_normal; [|done]. apply light_fold_normal. intros.
    apply out_bind_normal; [apply point_position_normal|done]. }
  intros pl _. apply out_bind_normal; [|by intros []].
  apply (out_fold_normal _ (λ _, True)); [|done..]. intros [id e] acc Hin _. apply draw_step_normal; [done|].
  by apply elem_of_btree_iter.
Qed.

(** C22. A prepared frame draws exactly the visible entities of the extracted
    scene, each once, in ascending order of stable identity and within the
    configured draw and light limits, and its lookup table is exact: a compact
    identity resolves to an entity precisely when that entity is drawn under
    it, so no compact identity of another frame or of a hidden entity resolves.
    Preparation never panics. *)
Theorem scene_prepare_exact tan s camera_id width height max_draws resolve :
  scene_ok s →
  let r := scene_prepare tan s camera_id width height max_draws resolve in
  normal r ∧
  ∀ p, r = Ok p →
    (pd_compact_id <$> ps_draws p) = (drawn s (btree_iter (rn_entities s))).*2 ∧
    NoDup (pd_compact_id <$> ps_draws p) ∧ Forall (λ c, 1 ≤ c ≤ u32_max) (pd_compact_id <$> ps_draws p) ∧
    (∀ c id, ps_id_lookup p !! c = Some id ↔
       ∃ e, rn_entities s !! id = Some e ∧ visible e = true ∧ rn_compact_ids s !! id = Some c) ∧
    N.of_nat (length (ps_draws p)) ≤ max_draws ∧
    (length (ps_directional_lights p) ≤ MAX_DIRECTIONAL_LIGHTS)%nat ∧ (length (ps_point_lights p) ≤ MAX_POINT_LIGHTS)%nat.
Proof.
  intros Hs. split; [by apply scene_prepare_normal|]. intros p Hp. unfold scene_prepare in Hp.
  apply out_bind_ok in Hp as (ce & _ & Hp). apply out_bind_ok in Hp as (camera & _ & Hp).
  apply out_bind_ok in Hp as (vp & _ & Hp). apply out_bind_ok in Hp as (cp & _ & Hp).
  apply out_bind_ok in Hp as (dl & Hdl & Hp). apply out_bind_ok in Hp as (pl & Hpl & Hp).
  apply out_bind_ok in Hp as ([draws m] & (Hids & -> & Hlen)%draw_fold & <-%Ok_inj).
  cbn [ps_draws ps_id_lookup ps_directional_lights ps_point_lights]. rewrite fmap_nil in Hids. cbn [app] in Hids.
  pose proof (drawn_once s (btree_iter (rn_entities s)) Hs (NoDup_btree_iter _)) as Hnd.
  split; [done|]. split; [by rewrite Hids|]. split; [|split; [|split; [apply Hlen; cbn [length]; lia|split]]].
  - rewrite Hids. apply Forall_forall. intros c ([id c'] & -> & (e & _ & _ & Hc)%elem_of_drawn)%list_elem_of_fmap.
    apply (al_range _ _ _ (sk_alloc _ Hs)) in Hc as [Hr _]. cbn [snd]. unfold frontier in Hr.
    destruct (rn_next_compact_id s) as [n|] eqn:Hn; [|cbn in Hr; lia]. apply (al_next _ _ _ (sk_alloc _ Hs)) in Hn. cbn in Hr. lia.
  - intros c id. rewrite lookup_pairs by done. rewrite elem_of_drawn, lookup_empty. split.
    + intros [(e & Hin & Hv & Hc)|[_ ?]]; [|done]. exists e. by rewrite <-elem_of_btree_iter.
    + intros (e & He & Hv & Hc). left. exists e. by rewrite elem_of_btree_iter.
  - unfold prepare_directional_lights in Hdl. apply out_bind_ok in Hdl as ([n l] & Hf & <-%Ok_inj).
    apply light_fold_ok in Hf; [cbn [snd]; lia|cbn [length]; lia].
  - unfold prepare_point_lights in Hpl. apply out_bind_ok in Hpl as ([n l] & Hf & <-%Ok_inj).
    apply light_fold_ok in Hf; [cbn [snd]; lia|cbn [length]; lia].
Qed.

(** A scene with a camera at the origin and a cuboid. *)
Definition identity_transform : list f64 :=
  [f64_one; f64_zero; f64_zero; f64_zero; f64_zero; f64_one; f64_zero; f64_zero;
   f64_zero; f64_zero; f64_one; f64_zero; f64_zero; f64_zero; f64_zero; f64_one].

Definition sample_cuboid (dimension : f32) (scale : f64) : RenderEntity :=
  mkRenderEntity 9 [scale; f64_zero; f64_zero; f64_zero; f64_zero; f64_one; f64_zero; f64_zero;
    f64_zero; f64_zero; f64_one; f64_zero; f64_zero; f64_zero; f64_zero; f64_one] 1
    (mkRenderComponents (Some (mkPrimitive Cuboid (mkPositiveVec3 dimension f32_one f32_one))) None None None None).

Definition sample_view_packet (dimension : f32) (scale : f64) : RenderExtraction :=
  mkExtraction 1 0 1
    [Upsert (mkRenderEntity 4 identity_transform 1
       (mkRenderComponents None None (Some (mkCamera f32_one f32_half 1120403456)) None None));
     Upsert (sample_cuboid dimension scale)].

(** The scene after the packet. *)
Definition sample_view (dimension : f32) (scale : f64) : RenderScene :=
  match render_scene_apply (render_scene_new 8) (sample_view_packet dimension scale) with
  | Ok (_, s) => s
  | _ => render_scene_new 8
  end.

Lemma sample_view_ok dimension scale : scene_ok (sample_view dimension scale).
Proof.
  unfold sample_view.
  pose proof (render_scene_apply_sim (render_scene_new 8) (sample_view_packet dimension scale) (render_scene_new_ok 8 ltac:(done))) as Hs.
  assert (distinct (rx_changes (sample_view_packet dimension scale))) as Hd.
  { unfold distinct. cbn. repeat constructor; set_solver by lia. }
  specialize (Hs Hd). destruct (render_scene_apply _ _) as [[summary s]|e| |]; [apply Hs|by apply render_scene_new_ok..].
Qed.

Lemma scene_prepare_exact_witness :
  match scene_prepare (λ x, x) (sample_view f32_one f64_one) 4 64 64 8 (λ _, None) with
  | Ok p => (∃ e, rn_entities (sample_view f32_one f64_one) !! 9 = Some e ∧ visible e = true) ∧
      ps_id_lookup p !! 2 = Some 9 ∧ (pd_compact_id <$> ps_draws p) = [2]
  | _ => False
  end.
Proof.
  destruct (scene_prepare_exact (λ x, x) (sample_view f32_one f64_one) 4 64 64 8 (λ _, None) (sample_view_ok _ _)) as [_ Hp].
  destruct (scene_prepare _ _ _ _ _ _ _) as [p|e| |] eqn:Hr; [|vm_compute in Hr; discriminate Hr..].
  destruct (Hp p eq_refl) as (Hids & _ & _ & Hlk & _). split; [|split].
  - exists (sample_cuboid f32_one f64_one). split; vm_compute; reflexivity.
  - apply Hlk. exists (sample_cuboid f32_one f64_one). split_and!; vm_compute; reflexivity.
  - rewrite Hids. vm_compute. reflexivity.
Defined.

(** The range of a model matrix is checked before the dimensions of the primitive
    scale it: a world scale and a dimension that are both representable give an
    infinite model in a frame that is prepared without an error. *)
Example scaled_model_overflows :
  match scene_prepare (λ x, x) (sample_view 2123789977 (S754_finite false 5070602400912918 48)) 4 64 64 8 (λ _, None) with
  | Ok p => existsb (λ d, existsb (λ v, negb (f32_is_finite v)) (pd_model d)) (ps_draws p) = true
  | _ => False
  end.
Proof. vm_compute. reflexivity. Qed.
