(* ===== verification/Sums.v ===== *)
(** * Sums over finite collections

    The byte counters of the asset pipeline stand for sums over lists, maps and
    sets.  [map_sum] and [set_sum] are these sums; the lemmas say how they
    change with an insertion, a deletion or a filter, and when the checked sums
    of the code return them. *)

From S2P Require Import Prelude Machine CompilerPatch.

Open Scope N_scope.

(** ** Lists *)

Lemma sumN_filter {A} (f : A → N) (P : A → Prop) `{∀ x, Decision (P x)} l :
  sumN f l = sumN f (filter P l) + sumN f (filter (λ x, ¬ P x) l).
Proof.
  induction l as [|a l IH]; [done|]. cbn [sumN foldr]. fold (sumN f l).
  destruct (decide (P a)).
  - rewrite filter_cons_True, (filter_cons_False (λ x, ¬ P x)) by (done || by intros ?). cbn [sumN foldr].
    fold (sumN f (filter P l)). lia.
  - rewrite filter_cons_False, (filter_cons_True (λ x, ¬ P x)) by done. cbn [sumN foldr].
    fold (sumN f (filter (λ x, ¬ P x) l)). lia.
Qed.

Lemma sumN_id {A} (f : A → N) (l : list A) : sumN id (f <$> l) = sumN f l.
Proof. by rewrite sumN_fmap. Qed.

Lemma filter_kept {A} (P : A → Prop) `{∀ x, Decision (P x)} (l : list A) : (∀ x, x ∈ l → P x) → filter P l = l.
Proof.
  induction l as [|a l IH]; intros Hl; [done|]. rewrite filter_cons_True by (apply Hl; by left).
  f_equal. apply IH. intros x Hx. apply Hl. by right.
Qed.

Lemma NoDup_fmap_filter {A B} (f : A → B) (P : A → Prop) `{∀ x, Decision (P x)} (l : list A) :
  NoDup (f <$> l) → NoDup (f <$> filter P l).
Proof.
  induction l as [|a l IH]; [done|]. rewrite fmap_cons, NoDup_cons. intros [Ha Hl].
  destruct (decide (P a)); [|rewrite filter_cons_False by done; by apply IH].
  rewrite filter_cons_True, fmap_cons, NoDup_cons by done. split; [|by apply IH].
  intros (x & Hx & [_ Hin]%list_elem_of_filter)%list_elem_of_fmap. apply Ha. apply list_elem_of_fmap. eauto.
Qed.

(** ** Sums over maps *)

Definition map_sum `{Countable K} {V} (f : V → N) (m : gmap K V) : N := map_fold (λ _ v total, f v + total) 0 m.

Section map_sum.
Context `{Countable K} {V : Type} (f : V → N).
Implicit Types m : gmap K V.

Lemma map_sum_insert m k v : m !! k = None → map_sum f (<[k:=v]> m) = f v + map_sum f m.
Proof. intros Hk. unfold map_sum. rewrite map_fold_insert_L; [done| |done]. intros. lia. Qed.

Lemma map_sum_delete m k v : m !! k = Some v → map_sum f m = f v + map_sum f (delete k m).
Proof. intros Hk. unfold map_sum. rewrite (map_fold_delete_L _ _ k v); [done| |done]. intros. lia. Qed.

Lemma map_sum_update m k v v' : m !! k = Some v → f v + map_sum f (<[k:=v']> m) = f v' + map_sum f m.
Proof.
  intros Hk. rewrite (map_sum_delete m k v Hk), <-insert_delete_eq.
  rewrite map_sum_insert by apply lookup_delete_eq. lia.
Qed.

Lemma map_sum_le m k v : m !! k = Some v → f v ≤ map_sum f m.
Proof. intros Hk. rewrite (map_sum_delete m k v Hk). lia. Qed.
Lemma map_sum_list m : map_sum f m = sumN (λ e, f e.2) (map_to_list m).
Proof. unfold map_sum, sumN. rewrite map_fold_foldr. induction (map_to_list m) as [|[k v] l IH]; cbn; [done|by rewrite IH]. Qed.

Lemma map_to_list_filtered (P : K * V → Prop) `{∀ x, Decision (P x)} m :
  map_to_list (filter P m) ≡ₚ filter P (map_to_list m).
Proof.
  rewrite map_filter_alt. apply map_to_list_to_map. apply NoDup_fmap_filter, NoDup_fst_map_to_list.
Qed.

(** A filter splits the sum and the size. *)
Lemma map_sum_filter (P : K * V → Prop) `{∀ x, Decision (P x)} m :
  map_sum f m = sumN (λ e, f e.2) (filter P (map_to_list m)) + map_sum f (filter (λ e, ¬ P e) m).
Proof.
  rewrite !map_sum_list, (sumN_perm _ _ _ (map_to_list_filtered (λ e, ¬ P e) m)). apply sumN_filter.
Qed.

Lemma map_size_split (P : K * V → Prop) `{∀ x, Decision (P x)} m :
  size m = (length (filter P (map_to_list m)) + size (filter (λ e, ¬ P e) m))%nat.
Proof.
  rewrite <-!length_map_to_list, (map_to_list_filtered (λ e, ¬ P e) m).
  pose proof (sumN_filter (λ _, 1) P (map_to_list m)) as Hs. rewrite !sumN_const in Hs. lia.
Qed.
End map_sum.

(** ** Sums over sets *)

Definition set_sum `{Countable K} (f : K → N) (X : gset K) : N := sumN f (elements X).

Section set_sum.
Context `{Countable K} (f : K → N).
Implicit Types X Y : gset K.

Lemma set_sum_union X Y : X ## Y → set_sum f (X ∪ Y) = set_sum f X + set_sum f Y.
Proof. intros Hd. unfold set_sum. by rewrite (sumN_perm _ _ _ (elements_disj_union X Y Hd)), sumN_app. Qed.

Lemma set_sum_list (l : list K) : NoDup l → set_sum f (list_to_set l) = sumN f l.
Proof. intros Hl. unfold set_sum. apply sumN_perm. by apply elements_list_to_set. Qed.

Lemma set_sum_remove X x : x ∈ X → set_sum f X = f x + set_sum f (X ∖ {[x]}).
Proof.
  intros Hx. rewrite (union_difference_singleton_L x X Hx) at 1. rewrite set_sum_union by set_solver.
  unfold set_sum at 1. rewrite elements_singleton. cbn. lia.
Qed.

Lemma set_size_remove X x : x ∈ X → size X = S (size (X ∖ {[x]})).
Proof.
  clear f. intros Hx. assert (size X = size ({[x]} ∪ (X ∖ {[x]}))) as -> by (by rewrite <-union_difference_singleton_L).
  rewrite size_union by set_solver. by rewrite size_singleton.
Qed.

Lemma elements_filtered (P : K → Prop) `{∀ x, Decision (P x)} X : elements (filter P X) ≡ₚ filter P (elements X).
Proof.
  apply NoDup_Permutation; [apply NoDup_elements|apply NoDup_filter, NoDup_elements|].
  intros x. by rewrite elem_of_elements, list_elem_of_filter, elem_of_filter, elem_of_elements.
Qed.

Lemma set_sum_filter (P : K → Prop) `{∀ x, Decision (P x)} X :
  set_sum f X = sumN f (filter P (elements X)) + set_sum f (filter (λ x, ¬ P x) X).
Proof. unfold set_sum. rewrite (sumN_perm _ _ _ (elements_filtered (λ x, ¬ P x) X)). apply sumN_filter. Qed.

Lemma set_size_split (P : K → Prop) `{∀ x, Decision (P x)} X :
  size X = (length (filter P (elements X)) + size (filter (λ x, ¬ P x) X))%nat.
Proof.
  unfold size, set_size. cbn. rewrite (elements_filtered (λ x, ¬ P x) X).
  pose proof (sumN_filter (λ _, 1) P (elements X)) as Hs. rewrite !sumN_const in Hs. lia.
Qed.
End set_sum.

