(* ===== verification/AssetStore.v ===== *)
(** * The asset store

    [cogniform-assets/src/store.rs] with the proxy of [glb.rs]: admission by
    content hash, decoding on request, eviction and occupancy.  The decoder of
    GLB sources is the class [GlbDecoder], a function of the source and the
    limits; the clock is an argument.  A [BTreeMap] keyed by content hashes is a
    [gmap]: the store never iterates over it. *)

From S2P Require Import Prelude Machine Ordering BTree Floats Values Components Messages Imagination WorldTypes Render World Codec Compilation Hash Compiler CompilerPatch Sha256 AssetTypes RenderScene Recovery Engine Query Gateway ScenePrepare Sums.

Open Scope N_scope.

(** ** The proxy *)

(** [normalize_f64_vector]. *)
Definition normalize_f64_vector (code : AssetDiagnosticCode) (vector : list f64) (location : string) (index : option N)
    : outcome AssetDiagnostic (list f32) :=
  let length_squared := f64_sum ((λ value, f64_mul value value) <$> vector) in
  do! guard_err (negb (f64_is_finite length_squared) || match length_squared with S754_zero _ => true | _ => false end)
    (mkDiagnostic code location index) then
  let inverse_length := f64_recip (f64_sqrt length_squared) in
  out_fold (λ normalized value,
    let! target := map_err (λ _, mkDiagnostic code location index) (finite_f32_new (f32_of_f64 (f64_mul value inverse_length))) in
    Ok (normalized ++ [target])) [] vector.

(** [face_normal]. *)
Definition face_normal (first second third : list f32) : outcome AssetDiagnostic (list f32) :=
  let at3 (v : list f32) i := f64_of_f32 (nth i v f32_zero) in
  let edge v i := f64_sub (at3 v i) (at3 first i) in
  let a := edge second in
  let b := edge third in
  let cross i j := f64_sub (f64_mul (a i) (b j)) (f64_mul (a j) (b i)) in
  normalize_f64_vector AdInvalidNormal [cross 1 2; cross 2 0; cross 0 1]%nat "glb.decoded.triangle_normal" None.

(** [-0.5], [0.5] and [0.8] as [f32]. *)
Definition f32_minus_half : f32 := 3204448256.
Definition f32_proxy_roughness : f32 := 1061997773.

(** The corners of the proxy, by the signs of their coordinates. *)
Definition proxy_corner (x y z : bool) : list f32 :=
  (λ positive : bool, if positive then f32_half else f32_minus_half) <$> [x; y; z].

Definition PROXY_POSITIONS : list (list f32) :=
  let p := true in
  let n := false in
  [proxy_corner n n n; proxy_corner p n n; proxy_corner p p n; proxy_corner n n n; proxy_corner p p n; proxy_corner n p n;
   proxy_corner p n p; proxy_corner n n p; proxy_corner n p p; proxy_corner p n p; proxy_corner n p p; proxy_corner p p p;
   proxy_corner n n p; proxy_corner n n n; proxy_corner n p n; proxy_corner n n p; proxy_corner n p n; proxy_corner n p p;
   proxy_corner p n n; proxy_corner p n p; proxy_corner p p p; proxy_corner p n n; proxy_corner p p p; proxy_corner p p n;
   proxy_corner n p n; proxy_corner p p n; proxy_corner p p p; proxy_corner n p n; proxy_corner p p p; proxy_corner n p p;
   proxy_corner n n p; proxy_corner p n p; proxy_corner p n n; proxy_corner n n p; proxy_corner p n n; proxy_corner n n n].

(** The three vertices of a triangle of the proxy. *)
Definition proxy_triangle (first second third : list f32) : outcome AssetDiagnostic (list AssetVertex) :=
  let! normal := face_normal first second third in
  Ok ((λ position, mkAssetVertex position normal [f32_one; f32_zero; f32_zero; f32_one] [f32_zero; f32_zero]
         [f32_one; f32_one; f32_one; f32_one] [f32_zero; f32_zero]) <$> [first; second; third]).

Fixpoint proxy_vertices (positions : list (list f32)) : outcome AssetDiagnostic (list AssetVertex) :=
  match positions with
  | first :: second :: third :: rest =>
      let! triangle := proxy_triangle first second third in
      let! vertices := proxy_vertices rest in
      Ok (triangle ++ vertices)
  | _ => Ok []
  end.

Definition proxy_material : AssetMaterial :=
  asset_material_new (mkColorRgba f32_one f32_zero f32_one f32_one) f32_zero f32_proxy_roughness.

(** [proxy_asset]; a failed normal would be a panic. *)
Definition proxy_asset : option DecodedAsset :=
  match proxy_vertices PROXY_POSITIONS with
  | Ok vertices => Some (mkDecodedAsset [mkDecodedMesh vertices proxy_material] (λ _, None) (36 * ASSET_VERTEX_BYTES))
  | _ => None
  end.

(** ** The store *)

Record PendingImport := mkPendingImport {
  pi_content_hash : ContentHash;
  pi_source : bytes;
  pi_queued_at : N;
}.

Record StoredAsset := mkStoredAsset {
  sa_record : AssetRecord;
  sa_decoded : option DecodedAsset;
}.

Record AssetStore := mkAssetStore {
  as_config : AssetStoreConfig;
  as_pending : list PendingImport;
  as_records : gmap ContentHash StoredAsset;
  as_pending_source_bytes : N;
  as_resident_cpu_bytes : N;
}.

(** [AssetStore::new]. *)
Definition asset_store_new (config : AssetStoreConfig) : AssetStore := mkAssetStore config [] ∅ 0 0.

(** [decode_glb]: a function of the source and the limits that returns; the
    decoder itself is in [GlbAsset]. *)
Class GlbDecoder := decode_glb : bytes → AssetLimits → DecodedAsset + AssetDiagnostic.

(** [reject_record]. *)
Definition reject_record (stored : StoredAsset) (diagnostic : AssetDiagnostic) : StoredAsset :=
  let r := sa_record stored in
  mkStoredAsset (mkAssetRecord (ar_content_hash r) AsRejected (ar_source_bytes r) 0 0 [diagnostic]) None.

(** [AssetStore::record]. *)
Definition asset_record (s : AssetStore) (hash : ContentHash) : option AssetRecord := sa_record <$> as_records s !! hash.

(** [AssetStore::stats_at]. *)
Definition asset_store_stats (s : AssetStore) (sampled_at : N) : AssetStoreStats :=
  mkAssetStoreStats (len_or_max u32_max (size (as_records s))) (len_or_max u32_max (length (as_pending s)))
    (elapsed_micros sampled_at <$> iter_min (pi_queued_at <$> as_pending s))
    (as_pending_source_bytes s) (as_resident_cpu_bytes s).

(** [AssetStore::upload_job]. *)
Definition upload_job (s : AssetStore) (key : AssetMeshKey) : outcome AssetError AssetUploadJob :=
  let! stored := ok_or (as_records s !! mk_content_hash key) (AeAssetNotFound (mk_content_hash key)) in
  let! decoded := ok_or (sa_decoded stored) (AeAssetNotReady (mk_content_hash key)) in
  let! mesh := ok_or (da_meshes decoded !! N.to_nat (mk_mesh_index key))
                 (AeMeshNotFound (mk_content_hash key) (mk_mesh_index key)) in
  Ok (mkUploadJob key (dm_vertices mesh) (dm_material mesh)
        (λ role, if has_role (mt_texture_roles (dm_material mesh)) (role_index role) then da_texture decoded role else None)).

(** The counters of the [retain] in [evict]: one step per queued import. *)
Definition evict_count (hash : ContentHash) (acc : N * N) (p : PendingImport) : outcome AssetError (N * N) :=
  if bool_decide (pi_content_hash p = hash) then
    let! removed := expect (checked_add u32_max acc.1 1) in
    let! bytes := expect (try_from_len u64_max (length (pi_source p))) in
    let! released := expect (checked_add u64_max acc.2 bytes) in
    Ok (removed, released)
  else Ok acc.

(** [AssetStore::evict]. *)
Definition asset_evict (s : AssetStore) (hash : ContentHash) : outcome AssetError (AssetStoreEviction * AssetStore) :=
  match as_records s !! hash with
  | None =>
      do! debug_assert (negb (existsb (λ p, bool_decide (pi_content_hash p = hash)) (as_pending s))) then
      Ok (mkStoreEviction hash None 0 0 0 0 0, s)
  | Some stored =>
      let! (removed_pending_imports, released_pending_source_bytes) :=
        out_fold (evict_count hash) (0, 0) (as_pending s) in
      let pending := filter (λ p, pi_content_hash p ≠ hash) (as_pending s) in
      do! debug_assert (removed_pending_imports <=? 1) then
      let! pending_source_bytes := expect (checked_sub (as_pending_source_bytes s) released_pending_source_bytes) in
      let! resident_cpu_bytes := expect (checked_sub (as_resident_cpu_bytes s) (ar_decoded_bytes (sa_record stored))) in
      let removed_textures := match sa_decoded stored with Some d => texture_count d | None => 0 end in
      Ok (mkStoreEviction hash (Some (ar_state (sa_record stored))) removed_pending_imports released_pending_source_bytes
            (ar_decoded_bytes (sa_record stored)) (ar_mesh_count (sa_record stored)) removed_textures,
          mkAssetStore (as_config s) pending (delete hash (as_records s)) pending_source_bytes resident_cpu_bytes)
  end.

Section store.
Context `{Digest} `{GlbDecoder}.

(** [AssetStore::enqueue_with_time]. *)
Definition asset_enqueue (s : AssetStore) (expected_hash : ContentHash) (source : bytes) (queued_at : N)
    : AssetStore * outcome AssetError AssetAdmission :=
  let limits := asc_limits (as_config s) in
  let source_bytes := len_or_max u64_max (length source) in
  if al_max_source_bytes limits <? source_bytes then
    (s, Err (AeSourceSizeExceeded source_bytes (al_max_source_bytes limits))) else
  let actual_hash := sha256 source in
  if negb (bool_decide (actual_hash = expected_hash)) then (s, Err (AeContentHashMismatch expected_hash actual_hash)) else
  match as_records s !! expected_hash with
  | Some stored => (s, Ok (AaAlreadyKnown expected_hash (ar_state (sa_record stored))))
  | None =>
      if al_max_assets limits <=? N.of_nat (size (as_records s)) then
        (s, Err (AeRecordCapacityExceeded (al_max_assets limits))) else
      if al_max_pending_imports limits <=? N.of_nat (length (as_pending s)) then
        (s, Err (AeImportCapacityExceeded (al_max_pending_imports limits))) else
      let projected_pending := sat_add64 (as_pending_source_bytes s) source_bytes in
      if al_max_pending_source_bytes limits <? projected_pending then
        (s, Err (AePendingSourceBytesExceeded projected_pending (al_max_pending_source_bytes limits))) else
      (mkAssetStore (as_config s) (as_pending s ++ [mkPendingImport expected_hash source queued_at])
         (<[expected_hash := mkStoredAsset (mkAssetRecord expected_hash AsQueued source_bytes 0 0 []) None]> (as_records s))
         projected_pending (as_resident_cpu_bytes s),
       Ok (AaQueued expected_hash))
  end.

(** What the decoding of one source yields: a value to keep, with its state and
    diagnostic, or a refusal. *)
Definition decode_source (config : AssetStoreConfig) (source : bytes)
    : outcome AssetDiagnostic (AssetState * DecodedAsset * option AssetDiagnostic) :=
  match decode_glb source (asc_limits config) with
  | inl decoded => Ok (AsReady, decoded, None)
  | inr diagnostic =>
      match permits_proxy (ad_code diagnostic), asc_unsupported_policy config with
      | true, ProxyCuboid => let! proxy := expect proxy_asset in Ok (AsProxyReady, proxy, Some diagnostic)
      | _, _ => Err diagnostic
      end
  end.

(** The stored asset after processing, and the resident bytes. *)
Definition settle (config : AssetStoreConfig) (stored : StoredAsset) (resident : N) (state : AssetState)
    (decoded : DecodedAsset) (diagnostic : option AssetDiagnostic) : StoredAsset * N :=
  let limits := asc_limits config in
  if al_max_asset_decoded_bytes limits <? da_byte_len decoded then
    (reject_record stored (mkDiagnostic AdByteLimitExceeded "asset_store.asset_decoded_bytes" None), resident) else
  let projected := sat_add64 resident (da_byte_len decoded) in
  if al_max_resident_cpu_bytes limits <? projected then
    (reject_record stored (mkDiagnostic AdByteLimitExceeded "asset_store.resident_cpu_bytes" None), resident) else
  let r := sa_record stored in
  (mkStoredAsset (mkAssetRecord (ar_content_hash r) state (ar_source_bytes r) (da_byte_len decoded)
     (len_or_max u32_max (length (da_meshes decoded))) (match diagnostic with Some d => [d] | None => [] end)) (Some decoded),
   projected).

(** [AssetStore::process_next]. *)
Definition asset_process_next (s : AssetStore) : outcome AssetError (option AssetProcessOutcome * AssetStore) :=
  match as_pending s with
  | [] => Ok (None, s)
  | pending :: rest =>
      let pending_source_bytes := as_pending_source_bytes s - len_or_max u64_max (length (pi_source pending)) in
      let hash := pi_content_hash pending in
      match decode_source (as_config s) (pi_source pending) with
      | Panic => Panic
      | OutOfFuel => OutOfFuel
      | decoded =>
          let! stored := expect (as_records s !! hash) in
          let '(stored, resident) :=
            match decoded with
            | Ok (state, decoded, diagnostic) => settle (as_config s) stored (as_resident_cpu_bytes s) state decoded diagnostic
            | Err diagnostic => (reject_record stored diagnostic, as_resident_cpu_bytes s)
            | _ => (stored, as_resident_cpu_bytes s)
            end in
          Ok (Some (mkProcessOutcome hash (ar_state (sa_record stored)) (ar_mesh_count (sa_record stored))),
              mkAssetStore (as_config s) rest (<[hash := stored]> (as_records s)) pending_source_bytes resident)
      end
  end.

End store.

(** * The asset store accounts exactly

    [store_ok] is the invariant of the store: its byte counters are the sums
    over what it holds, the queue and the records agree, and every bound of the
    configuration holds.  Every operation keeps it and none panics. *)

(** ** The invariant *)

(** What the configuration must bound strictly for saturation to be visible. *)
Record store_config_ok (c : AssetStoreConfig) : Prop := {
  scc_pending : al_max_pending_source_bytes (asc_limits c) < u64_max;
  scc_resident : al_max_resident_cpu_bytes (asc_limits c) < u64_max;
  scc_imports : al_max_pending_imports (asc_limits c) ≤ u32_max;
}.

(** A record and its decoded value agree, state by state. *)
Definition stored_ok (c : AssetStoreConfig) (hash : ContentHash) (stored : StoredAsset) : Prop :=
  let r := sa_record stored in
  ar_content_hash r = hash ∧
  match ar_state r, sa_decoded stored with
  | (AsReady | AsProxyReady), Some d =>
      ar_decoded_bytes r = da_byte_len d ∧ ar_mesh_count r = N.min u32_max (N.of_nat (length (da_meshes d))) ∧
      da_byte_len d ≤ al_max_asset_decoded_bytes (asc_limits c)
  | AsQueued, None => ar_decoded_bytes r = 0 ∧ ar_mesh_count r = 0 ∧ ar_diagnostics r = []
  | AsRejected, None => ar_decoded_bytes r = 0 ∧ ar_mesh_count r = 0 ∧ ∃ d, ar_diagnostics r = [d]
  | _, _ => False
  end.

Definition source_len (p : PendingImport) : N := N.of_nat (length (pi_source p)).
Definition stored_bytes (stored : StoredAsset) : N := ar_decoded_bytes (sa_record stored).
Definition queued_hashes (s : AssetStore) : list ContentHash := pi_content_hash <$> as_pending s.

Section theorems.
Context `{Digest} `{GlbDecoder}.
Implicit Types (s : AssetStore) (hash : ContentHash).

Record store_ok s : Prop := {
  so_config : store_config_ok (as_config s);
  so_records : ∀ hash stored, as_records s !! hash = Some stored → stored_ok (as_config s) hash stored;
  so_unique : NoDup (queued_hashes s);
  so_queued : ∀ hash, hash ∈ queued_hashes s ↔
    ∃ stored, as_records s !! hash = Some stored ∧ ar_state (sa_record stored) = AsQueued;
  so_sources : Forall (λ p, sha256 (pi_source p) = pi_content_hash p) (as_pending s);
  so_pending_bytes : as_pending_source_bytes s = sumN source_len (as_pending s);
  so_pending_bound : as_pending_source_bytes s ≤ al_max_pending_source_bytes (asc_limits (as_config s));
  so_resident_bytes : as_resident_cpu_bytes s = map_sum stored_bytes (as_records s);
  so_resident_bound : as_resident_cpu_bytes s ≤ al_max_resident_cpu_bytes (asc_limits (as_config s));
  so_assets : N.of_nat (size (as_records s)) ≤ al_max_assets (asc_limits (as_config s));
  so_imports : N.of_nat (length (as_pending s)) ≤ al_max_pending_imports (asc_limits (as_config s));
}.

Lemma store_new_ok c : store_config_ok c → store_ok (asset_store_new c).
Proof.
  intros Hc. split; cbn; try done; try lia.
  - apply NoDup_nil_2.
  - intros hash. split; [by intros ?%not_elem_of_nil|]. intros (? & ? & _). done.
  - rewrite map_size_empty. lia.
Qed.

(** A queued hash has a record. *)
Lemma queued_record s hash : store_ok s → as_records s !! hash = None → hash ∉ queued_hashes s.
Proof. intros Hs Hn (stored & Hr & _)%(so_queued _ Hs). by rewrite Hn in Hr. Qed.

(** ** Admission *)

Lemma enqueue_ok s expected source now : store_ok s → store_ok (asset_enqueue s expected source now).1.
Proof.
  intros Hs. unfold asset_enqueue. cbv zeta. destruct (_ <? len_or_max _ _); [done|].
  case_bool_decide as Hh; cbn [negb]; [|done].
  destruct (as_records s !! expected) as [stored|] eqn:Hr; [done|].
  destruct (N.leb_spec (al_max_assets (asc_limits (as_config s))) (N.of_nat (size (as_records s)))); [done|].
  destruct (N.leb_spec (al_max_pending_imports (asc_limits (as_config s))) (N.of_nat (length (as_pending s)))); [done|].
  destruct (N.ltb_spec (al_max_pending_source_bytes (asc_limits (as_config s)))
    (sat_add64 (as_pending_source_bytes s) (len_or_max u64_max (length source)))) as [|Hb]; [done|].
  pose proof (queued_record s expected Hs Hr) as Hq. pose proof (scc_pending _ (so_config _ Hs)) as Hc.
  unfold sat_add64, sat_add in *. rewrite len_or_max_min in *. rewrite (so_pending_bytes _ Hs) in *.
  cbn [fst]. split; cbn [as_config as_pending as_records as_pending_source_bytes as_resident_cpu_bytes].
  - apply Hs.
  - intros hash stored. rewrite lookup_insert_Some. intros [[<- <-]|[_ Hl]]; [by split|by apply (so_records _ Hs)].
  - unfold queued_hashes. cbn [as_pending]. rewrite fmap_app, fmap_cons, fmap_nil. apply NoDup_app. split_and!; [apply Hs| |apply NoDup_singleton].
    intros x Hx Hx'. apply list_elem_of_singleton in Hx' as ->. by apply Hq.
  - intros hash. unfold queued_hashes. cbn [as_pending]. rewrite fmap_app, elem_of_app, fmap_cons, fmap_nil, list_elem_of_singleton.
    cbn [pi_content_hash]. change (pi_content_hash <$> as_pending s) with (queued_hashes s). rewrite (so_queued _ Hs).
    destruct (decide (hash = expected)) as [->|Hne].
    + split; [|by right]. intros _. rewrite lookup_insert_eq. by eexists.
    + rewrite lookup_insert_ne by done. split; [by intros [?|?]|by left].
  - apply Forall_app. split; [apply Hs|]. by apply Forall_singleton.
  - rewrite sumN_app. cbn [sumN foldr]. change (source_len (mkPendingImport expected source now)) with (N.of_nat (length source)). lia.
  - exact Hb.
  - rewrite map_sum_insert by done. cbn [stored_bytes sa_record ar_decoded_bytes]. rewrite (so_resident_bytes _ Hs). lia.
  - apply Hs.
  - rewrite map_size_insert_None by done. lia.
  - rewrite length_app. cbn [length]. lia.
Qed.

Lemma asset_enqueue_normal s expected source now : normal (asset_enqueue s expected source now).2.
Proof.
  unfold asset_enqueue. cbv zeta. destruct (_ <? len_or_max _ _); [done|]. case_bool_decide; cbn [negb]; [|done].
  destruct (as_records s !! expected); [done|]. do 2 (destruct (_ <=? _); [done|]). by destruct (_ <? _).
Qed.

(** ** Processing *)

Lemma proxy_asset_exists : ∃ d, proxy_asset = Some d ∧ da_texture d = λ _, None.
Proof.
  destruct proxy_asset as [d|] eqn:E; [|vm_compute in E; discriminate]. exists d. split; [done|].
  unfold proxy_asset in E. destruct (proxy_vertices _); [|done..]. by injection E as <-.
Qed.

Lemma decode_source_cases config source :
  match decode_source config source with
  | Ok (state, d, diagnostic) => state = AsReady ∧ decode_glb source (asc_limits config) = inl d ∧ diagnostic = None ∨
      state = AsProxyReady ∧ proxy_asset = Some d ∧ asc_unsupported_policy config = ProxyCuboid ∧
      ∃ e, decode_glb source (asc_limits config) = inr e ∧ permits_proxy (ad_code e) = true ∧ diagnostic = Some e
  | Err e => decode_glb source (asc_limits config) = inr e ∧
      (permits_proxy (ad_code e) = false ∨ asc_unsupported_policy config = Reject)
  | Panic | OutOfFuel => False
  end.
Proof.
  unfold decode_source. destruct (decode_glb source (asc_limits config)) as [d|e]; [by left|].
  destruct (permits_proxy (ad_code e)) eqn:Hp; [|by split; [|left]].
  destruct (asc_unsupported_policy config) eqn:Hc; [by split; [|right]|].
  destruct proxy_asset_exists as (d & -> & _). right. eauto 10.
Qed.

(** A settled record is ready or rejected, and counts its bytes. *)
Lemma settle_ok config hash stored resident state d diagnostic :
  al_max_resident_cpu_bytes (asc_limits config) < u64_max →
  ar_content_hash (sa_record stored) = hash → (state = AsReady ∨ state = AsProxyReady) →
  resident ≤ al_max_resident_cpu_bytes (asc_limits config) →
  let '(stored', resident') := settle config stored resident state d diagnostic in
  stored_ok config hash stored' ∧ ar_state (sa_record stored') ≠ AsQueued ∧
  resident' = stored_bytes stored' + resident ∧ resident' ≤ al_max_resident_cpu_bytes (asc_limits config).
Proof.
  intros Hc Hh Hst Hr. unfold settle. cbv zeta.
  destruct (N.ltb_spec (al_max_asset_decoded_bytes (asc_limits config)) (da_byte_len d)) as [|Hd].
  { split_and!; [split; [done|]; cbn; eauto|done|done|done]. }
  destruct (N.ltb_spec (al_max_resident_cpu_bytes (asc_limits config)) (sat_add64 resident (da_byte_len d))) as [|Hp].
  { split_and!; [split; [done|]; cbn; eauto|done|done|done]. }
  unfold sat_add64, sat_add in *. split_and!.
  - split; [done|]. cbn. rewrite len_or_max_min. by destruct Hst as [-> | ->].
  - by destruct Hst as [-> | ->].
  - cbn. lia.
  - done.
Qed.

(** The head of the queue is settled; nothing else changes. *)
Definition import_processed s (p : PendingImport) (rest : list PendingImport) (o : option AssetProcessOutcome) (s' : AssetStore) : Prop :=
  ∃ stored, as_records s' = <[pi_content_hash p := stored]> (as_records s) ∧ as_pending s' = rest ∧
    as_config s' = as_config s ∧ ar_state (sa_record stored) ≠ AsQueued ∧
    o = Some (mkProcessOutcome (pi_content_hash p) (ar_state (sa_record stored)) (ar_mesh_count (sa_record stored))) ∧
    ∀ d, sa_decoded stored = Some d → decode_glb (pi_source p) (asc_limits (as_config s)) = inl d ∨ proxy_asset = Some d.

Lemma process_next_spec s :
  store_ok s →
  ∃ o s', asset_process_next s = Ok (o, s') ∧ store_ok s' ∧
    match as_pending s with [] => o = None ∧ s' = s | p :: rest => import_processed s p rest o s' end.
Proof.
  intros Hs. unfold asset_process_next. destruct (as_pending s) as [|p rest] eqn:Hp; [by eexists _, _|].
  assert (pi_content_hash p ∈ queued_hashes s) as Hin by (unfold queued_hashes; rewrite Hp; by left).
  apply (so_queued _ Hs) in Hin as (stored & Hr & Hst). rewrite Hr.
  pose proof (so_records _ Hs _ _ Hr) as [Hh Hshape]. rewrite Hst in Hshape.
  destruct (sa_decoded stored) eqn:Hdec; [done|]. destruct Hshape as (Hb0 & Hm0 & Hd0).
  set (rec := match decode_source (as_config s) (pi_source p) with
    | Ok (state, decoded, diagnostic) => settle (as_config s) stored (as_resident_cpu_bytes s) state decoded diagnostic
    | Err diagnostic => (reject_record stored diagnostic, as_resident_cpu_bytes s)
    | _ => (stored, as_resident_cpu_bytes s) end).
  pose proof (decode_source_cases (as_config s) (pi_source p)) as Hcases.
  assert (stored_ok (as_config s) (pi_content_hash p) rec.1 ∧ ar_state (sa_record rec.1) ≠ AsQueued ∧
    rec.2 = stored_bytes rec.1 + as_resident_cpu_bytes s ∧ rec.2 ≤ al_max_resident_cpu_bytes (asc_limits (as_config s)) ∧
    ∀ d, sa_decoded rec.1 = Some d → decode_glb (pi_source p) (asc_limits (as_config s)) = inl d ∨ proxy_asset = Some d)
    as (Hok & Hne & Hres & Hbound & Hd).
  { subst rec. destruct (decode_source _ _) as [[[state d] diagnostic]|e| |]; [| |done..].
    - pose proof (settle_ok (as_config s) (pi_content_hash p) stored (as_resident_cpu_bytes s) state d diagnostic
        (scc_resident _ (so_config _ Hs)) Hh ltac:(destruct Hcases as [(-> & _)|(-> & _)]; auto) (so_resident_bound _ Hs)) as Hset.
      destruct (settle _ _ _ _ _ _) as [stored' resident'] eqn:Es. cbn [fst snd].
      destruct Hset as (? & ? & ? & ?). split_and!; try done. intros d' Hd'.
      assert (d' = d) as ->; [|destruct Hcases as [(_ & ? & _)|(_ & ? & _)]; auto].
      unfold settle in Es. cbv zeta in Es. destruct (_ <? da_byte_len _); [|destruct (_ <? sat_add64 _ _)]; apply (f_equal (λ x, sa_decoded x.1)) in Es;
        cbn in Es; rewrite Hd' in Es; by simplify_eq.
    - cbn. split_and!; [split; [done|]; cbn; eauto|done|done|apply Hs|done]. }
  set (s' := mkAssetStore (as_config s) rest (<[pi_content_hash p := rec.1]> (as_records s))
    (as_pending_source_bytes s - len_or_max u64_max (length (pi_source p))) rec.2).
  exists (Some (mkProcessOutcome (pi_content_hash p) (ar_state (sa_record rec.1)) (ar_mesh_count (sa_record rec.1)))), s'.
  split. { subst s' rec. destruct (decode_source _ _) as [[[state d] diagnostic]|e| |]; [|done..].
    cbn [expect out_bind]. by destruct (settle _ _ _ _ _ _). }
  split; [|by exists rec.1].
  pose proof (so_unique _ Hs) as Hu. unfold queued_hashes in Hu. rewrite Hp in Hu. cbn in Hu. apply NoDup_cons in Hu as [Hnin Hu].
  pose proof (so_pending_bytes _ Hs) as Hpb. pose proof (so_pending_bound _ Hs) as Hpl. rewrite Hp in Hpb. cbn [sumN foldr] in Hpb.
  pose proof (scc_pending _ (so_config _ Hs)). pose proof (so_imports _ Hs) as Hi. rewrite Hp in Hi. cbn [length] in Hi.
  fold (sumN source_len rest) in Hpb.
  subst s'. split; cbn [as_config as_pending as_records as_pending_source_bytes as_resident_cpu_bytes].
  - apply Hs.
  - intros hash x. rewrite lookup_insert_Some. intros [[<- <-]|[_ Hl]]; [done|by apply (so_records _ Hs)].
  - done.
  - intros hash. unfold queued_hashes. cbn [as_pending]. destruct (decide (hash = pi_content_hash p)) as [->|Hn].
    + rewrite lookup_insert_eq. split; [done|]. intros (? & [= <-] & ?). done.
    + rewrite lookup_insert_ne by done. rewrite <-(so_queued _ Hs). unfold queued_hashes. rewrite Hp, fmap_cons, elem_of_cons. tauto.
  - pose proof (so_sources _ Hs) as Hso. rewrite Hp in Hso. by apply Forall_cons_1 in Hso as [_ ?].
  - rewrite len_or_max_min. unfold source_len in Hpb at 1. lia.
  - lia.
  - rewrite Hres, (so_resident_bytes _ Hs). pose proof (map_sum_update stored_bytes _ _ stored rec.1 Hr) as Hm.
    unfold stored_bytes in Hm at 1. rewrite Hb0 in Hm. lia.
  - done.
  - rewrite map_size_insert_Some by done. apply Hs.
  - lia.
Qed.

(** ** Eviction *)

Lemma evict_count_spec hash l acc :
  NoDup (pi_content_hash <$> l) → acc.1 + N.of_nat (length l) ≤ u32_max → acc.2 + sumN source_len l ≤ u64_max →
  let gone := filter (λ p, pi_content_hash p = hash) l in
  out_fold (evict_count hash) acc l = Ok (acc.1 + N.of_nat (length gone), acc.2 + sumN source_len gone).
Proof.
  revert acc. induction l as [|p l IH]; intros [n b] Hnd Hn Hb; cbn [out_fold fst snd] in *.
  { rewrite filter_nil. cbn. by rewrite !N.add_0_r. }
  cbn [fmap list_fmap] in Hnd. apply NoDup_cons in Hnd as [_ Hnd].
  cbn [length sumN foldr] in Hn, Hb. fold (sumN source_len l) in Hb. unfold source_len in Hb at 1.
  unfold evict_count at 1. case_bool_decide as Hp; cbn [fst snd].
  - rewrite (proj2 (checked_add_Some u32_max n 1 (n + 1))) by lia. cbn [expect out_bind].
    rewrite (proj2 (try_from_len_Some u64_max (length (pi_source p)) (N.of_nat (length (pi_source p))))) by lia. cbn [expect out_bind].
    rewrite (proj2 (checked_add_Some u64_max b _ (b + N.of_nat (length (pi_source p))))) by lia. cbn [expect out_bind].
    rewrite IH by (cbn [fst snd]; try done; lia). cbv zeta. rewrite filter_cons_True by done. cbn [length sumN foldr fst snd].
    fold (sumN source_len (filter (λ p, pi_content_hash p = hash) l)). change (source_len p) with (N.of_nat (length (pi_source p))). f_equal. f_equal; lia.
  - cbn [out_bind]. rewrite IH by (cbn [fst snd]; try done; lia). cbv zeta. by rewrite filter_cons_False.
Qed.

Lemma filter_hash_length hash (l : list PendingImport) :
  NoDup (pi_content_hash <$> l) → (length (filter (λ p, pi_content_hash p = hash) l) ≤ 1)%nat.
Proof.
  induction l as [|p l IH]; intros Hnd; [cbn; lia|]. cbn [fmap list_fmap] in Hnd. apply NoDup_cons in Hnd as [Hp Hnd].
  destruct (decide (pi_content_hash p = hash)) as [Hh|Hh]; [|by rewrite filter_cons_False by done; apply IH].
  rewrite filter_cons_True by done. cbn [length]. destruct (filter _ l) as [|q l'] eqn:Hf; [done|]. exfalso. apply Hp.
  assert (q ∈ filter (λ p, pi_content_hash p = hash) l) as [Hq Hin]%list_elem_of_filter by (rewrite Hf; by left).
  apply list_elem_of_fmap. exists q. by rewrite Hq.
Qed.

(** The decoded value of a hash, and the meshes and textures it holds; the count
    of meshes in a record is a [u32]. *)
Definition decoded_of s hash : option DecodedAsset := as_records s !! hash ≫= sa_decoded.
Definition decoded_meshes (o : option DecodedAsset) : N :=
  N.min u32_max (N.of_nat (length (from_option da_meshes [] o))).
Definition decoded_textures (o : option DecodedAsset) : N :=
  N.of_nat (length (filter (λ role, is_Some (o ≫= λ d, da_texture d role)) asset_roles)).

Lemma texture_count_decoded d : texture_count d = decoded_textures (Some d).
Proof.
  unfold texture_count, decoded_textures. cbn [mbind option_bind].
  enough (∀ n, foldl (λ total role, total + is_some_u64 (da_texture d role)) n asset_roles
    = n + N.of_nat (length (filter (λ role, is_Some (da_texture d role)) asset_roles))) as -> by done.
  induction asset_roles as [|role roles IH]; intros n; cbn [foldl]; [rewrite filter_nil; cbn; lia|].
  rewrite IH, filter_cons. destruct (da_texture d role) as [t|] eqn:Ht; cbn [is_some_u64 is_some].
  - rewrite decide_True by eauto. change (is_some_u64 (Some t)) with 1. cbn [length]. lia.
  - rewrite decide_False by (by intros [? ?]). change (is_some_u64 None) with 0. lia.
Qed.

Lemma stored_meshes c hash stored :
  stored_ok c hash stored → ar_mesh_count (sa_record stored) = decoded_meshes (sa_decoded stored).
Proof.
  intros [_ Hshape]. unfold decoded_meshes. destruct (ar_state (sa_record stored)), (sa_decoded stored) as [d|]; try done; by destruct Hshape as (_ & ? & _).
Qed.

(** What eviction removes: the record of the hash and its queued import, with
    what the removed decoded value held. *)
Definition evicted s hash (e : AssetStoreEviction) (s' : AssetStore) : Prop :=
  as_config s' = as_config s ∧ as_records s' = delete hash (as_records s) ∧
  as_pending s' = filter (λ p, pi_content_hash p ≠ hash) (as_pending s) ∧
  se_content_hash e = hash ∧ se_previous_state e = (λ st, ar_state (sa_record st)) <$> as_records s !! hash ∧
  se_removed_pending_imports e + N.of_nat (length (as_pending s')) = N.of_nat (length (as_pending s)) ∧
  se_released_pending_source_bytes e + as_pending_source_bytes s' = as_pending_source_bytes s ∧
  se_released_resident_cpu_bytes e + as_resident_cpu_bytes s' = as_resident_cpu_bytes s ∧
  se_removed_meshes e = decoded_meshes (decoded_of s hash) ∧ se_removed_textures e = decoded_textures (decoded_of s hash).

Lemma asset_evict_absent s hash :
  store_ok s → as_records s !! hash = None → asset_evict s hash = Ok (mkStoreEviction hash None 0 0 0 0 0, s).
Proof.
  intros Hs Hr. pose proof (queued_record s hash Hs Hr) as Hq. unfold asset_evict. rewrite Hr.
  replace (existsb _ (as_pending s)) with false; [done|].
  symmetry. apply not_true_is_false. intros (p & Hp%list_elem_of_In & Hh%bool_decide_eq_true)%existsb_exists.
  apply Hq. apply list_elem_of_fmap. exists p. by rewrite Hh.
Qed.

Lemma evict_spec s hash : store_ok s → ∃ e s', asset_evict s hash = Ok (e, s') ∧ store_ok s' ∧ evicted s hash e s'.
Proof.
  intros Hs. destruct (as_records s !! hash) as [stored|] eqn:Hr.
  2: { eexists _, s. split; [by apply asset_evict_absent|]. split; [done|]. split_and!; try done.
       - symmetry. by apply fin_maps.delete_id.
       - symmetry. apply filter_kept. intros p Hp Hh. apply (queued_record s hash Hs Hr). apply list_elem_of_fmap. exists p. by rewrite Hh.
       - by rewrite Hr.
       - unfold decoded_of. by rewrite Hr.
       - unfold decoded_of. by rewrite Hr. }
  unfold asset_evict. rewrite Hr.
  pose proof (so_imports _ Hs) as Hi. pose proof (scc_imports _ (so_config _ Hs)) as Hc. pose proof (so_pending_bound _ Hs) as Hpb.
  pose proof (scc_pending _ (so_config _ Hs)) as Hpc. pose proof (so_pending_bytes _ Hs) as Hsum.
  rewrite evict_count_spec by (try apply Hs; cbn [fst snd]; lia). cbv zeta. cbn [out_bind fst snd]. rewrite !N.add_0_l.
  pose proof (filter_hash_length hash (as_pending s) (so_unique _ Hs)) as H1.
  rewrite (proj2 (N.leb_le _ 1)) by lia. cbn [debug_assert out_bind].
  pose proof (sumN_filter source_len (λ p, pi_content_hash p = hash) (as_pending s)) as Hsplit.
  pose proof (sumN_filter (λ _, 1) (λ p, pi_content_hash p = hash) (as_pending s)) as Hlen.
  rewrite !sumN_const, !N.mul_1_l in Hlen.
  set (kept := filter (λ p, pi_content_hash p ≠ hash) (as_pending s)) in *.
  set (gone := filter (λ p, pi_content_hash p = hash) (as_pending s)) in *.
  rewrite (proj2 (checked_sub_Some _ _ (sumN source_len kept))) by lia. cbn [expect out_bind].
  pose proof (map_sum_delete stored_bytes _ _ _ Hr) as Hm. rewrite <-(so_resident_bytes _ Hs) in Hm.
  unfold stored_bytes in Hm at 1.
  rewrite (proj2 (checked_sub_Some _ _ (map_sum stored_bytes (delete hash (as_records s))))) by lia. cbn [expect out_bind].
  eexists _, _. split; [done|]. split.
  - split; cbn [as_config as_pending as_records as_pending_source_bytes as_resident_cpu_bytes].
    + apply Hs.
    + intros h st. rewrite lookup_delete_Some. intros [_ ?]. by apply (so_records _ Hs).
    + unfold queued_hashes. cbn [as_pending]. subst kept. apply NoDup_fmap_filter, (so_unique _ Hs).
    + intros h. unfold queued_hashes. cbn [as_pending]. setoid_rewrite lookup_delete_Some. subst kept.
      transitivity (h ≠ hash ∧ h ∈ queued_hashes s).
      { unfold queued_hashes. rewrite !list_elem_of_fmap. setoid_rewrite list_elem_of_filter. split.
        - intros (p & -> & Hn & Hp). split; [done|]. by exists p.
        - intros (Hn & p & -> & Hp). by exists p. }
      rewrite (so_queued _ Hs). split; [intros (Hn & st & ? & ?)|intros (st & (Hn & ?) & ?)]; eauto 10.
    + subst kept. apply Forall_forall. intros p [_ Hp]%list_elem_of_filter.
      pose proof (so_sources _ Hs) as Hso. rewrite Forall_forall in Hso. by apply Hso.
    + done.
    + lia.
    + done.
    + pose proof (so_resident_bound _ Hs). lia.
    + pose proof (so_assets _ Hs). rewrite map_size_delete_Some by eauto. lia.
    + lia.
  - unfold evicted, decoded_of. rewrite Hr. cbn [mbind option_bind]. split_and!; try done; cbn; [lia..| |].
    + apply (stored_meshes _ _ _ (so_records _ Hs _ _ Hr)).
    + destruct (sa_decoded stored); [apply texture_count_decoded|done].
Qed.

(** ** Reachable stores *)

(** Any interleaving of the three operations that change a store. *)
Inductive store_runs (c : AssetStoreConfig) : AssetStore → Prop :=
| ru_new : store_runs c (asset_store_new c)
| ru_enqueue s expected source now : store_runs c s → store_runs c (asset_enqueue s expected source now).1
| ru_process s o s' : store_runs c s → asset_process_next s = Ok (o, s') → store_runs c s'
| ru_evict s hash e s' : store_runs c s → asset_evict s hash = Ok (e, s') → store_runs c s'.

Lemma store_runs_ok c s : store_config_ok c → store_runs c s → store_ok s ∧ as_config s = c.
Proof.
  intros Hc. induction 1 as [|s expected source now _ [IH Hcfg]|s o s' _ [IH Hcfg] Hp|s hash e s' _ [IH Hcfg] He].
  - split; [by apply store_new_ok|done].
  - split; [by apply enqueue_ok|]. rewrite <-Hcfg. unfold asset_enqueue. cbv zeta.
    repeat first [case_match | done | destruct (as_records s !! expected)].
  - destruct (process_next_spec s IH) as (o1 & s1 & E & Hok & Hpr). rewrite E in Hp. injection Hp as <- <-.
    split; [done|]. destruct (as_pending s); [by destruct Hpr as [_ ->]|]. by destruct Hpr as (? & _ & _ & -> & _).
  - destruct (evict_spec s hash IH) as (e1 & s1 & E & Hok & Hev). rewrite E in He. injection He as <- <-.
    split; [done|]. by destruct Hev as [-> _].
Qed.

End theorems.
