(* ===== verification/RendererAssets.v ===== *)
(** * Assets of the renderer

    [cogniform-renderer/src/asset.rs]: the queue of upload jobs with its
    reservations, the resident meshes and textures, processing and eviction.  A
    device buffer is its bytes and a device texture its size, format and
    texels.  The sums and counts that the code takes over an ordered map do not
    depend on the order, and are taken over its elements. *)

From S2P Require Import Prelude Machine Ordering BTree Floats Values Components Messages Imagination WorldTypes Render World Codec Compilation Hash Compiler CompilerPatch CompilerReport AssetTypes RenderScene Recovery Engine Query Gateway ScenePrepare Sums AssetStore.

Open Scope N_scope.

Inductive AssetUploadAdmission : Type :=
| UaQueued (key : AssetMeshKey)
| UaAlreadyQueued (key : AssetMeshKey)
| UaAlreadyResident (key : AssetMeshKey).

Record AssetUploadOutcome := mkUploadOutcome {
  uo_key : AssetMeshKey;
  uo_vertex_count : N;
  uo_byte_len : N;
  uo_texture_uploaded : bool;
  uo_texture_byte_len : N;
}.

Record RendererAssetStats := mkRendererAssetStats {
  rs_pending_uploads : N;
  rs_oldest_pending_upload_age_micros : option N;
  rs_pending_bytes : N;
  rs_resident_meshes : N;
  rs_resident_bytes : N;
  rs_pending_textures : N;
  rs_pending_texture_bytes : N;
  rs_resident_textures : N;
  rs_resident_texture_bytes : N;
}.

Record RendererAssetEviction := mkRendererEviction {
  rv_content_hash : ContentHash;
  rv_removed_pending_uploads : N;
  rv_released_pending_bytes : N;
  rv_removed_resident_meshes : N;
  rv_released_resident_bytes : N;
  rv_removed_pending_textures : N;
  rv_released_pending_texture_bytes : N;
  rv_removed_resident_textures : N;
  rv_released_resident_texture_bytes : N;
}.

(** [RendererAssetEviction::is_already_absent]. *)
Definition renderer_already_absent (e : RendererAssetEviction) : bool :=
  (rv_removed_pending_uploads e =? 0) && (rv_released_pending_bytes e =? 0) && (rv_removed_resident_meshes e =? 0)
  && (rv_released_resident_bytes e =? 0) && (rv_removed_pending_textures e =? 0)
  && (rv_released_pending_texture_bytes e =? 0) && (rv_removed_resident_textures e =? 0)
  && (rv_released_resident_texture_bytes e =? 0).

Record GpuAssetMesh := mkGpuMesh {
  gm_buffer : bytes;
  gm_vertex_count : N;
  gm_material : AssetMaterial;
  gm_byte_len : N;
}.

Inductive TextureFormat : Type := Rgba8UnormSrgb | Rgba8Unorm.

Record GpuAssetTexture := mkGpuTexture {
  gt_width : N;
  gt_height : N;
  gt_format : TextureFormat;
  gt_texels : bytes;
  gt_byte_len : N;
}.

(** [AssetTextureKey]. *)
Abbreviation AssetTextureKey := (ContentHash * AssetTextureRole)%type (only parsing).

Record PendingAssetUpload := mkPendingUpload {
  pu_job : AssetUploadJob;
  pu_queued_at : N;
}.
Definition pu_key (p : PendingAssetUpload) : AssetMeshKey := uj_key (pu_job p).
Definition pu_hash (p : PendingAssetUpload) : ContentHash := mk_content_hash (pu_key p).

Record RendererAssets := mkRendererAssets {
  ra_pending : list PendingAssetUpload;
  ra_pending_bytes : N;
  ra_pending_textures : gset AssetTextureKey;
  ra_pending_texture_bytes : N;
  ra_resident : gmap AssetMeshKey GpuAssetMesh;
  ra_resident_bytes : N;
  ra_resident_textures : gmap AssetTextureKey GpuAssetTexture;
  ra_resident_texture_bytes : N;
}.

(** [RendererAssets::new]. *)
Definition renderer_assets_new : RendererAssets := mkRendererAssets [] 0 ∅ 0 ∅ 0 ∅ 0.

(** ** Admission *)

(** The reason of an inconsistent role. *)
Definition role_reason (role : AssetTextureRole) : string :=
  match role with
  | RoleBaseColor => "textured material and immutable image must be present together"
  | RoleEmissive => "emissive-textured material and immutable image must be present together"
  | RoleMetallicRoughness => "metallic-roughness-textured material and immutable image must be present together"
  | RoleNormal => "normal-textured material and immutable image must be present together"
  | RoleSpecular => "specular-textured material and immutable image must be present together"
  | RoleSpecularColor => "specular-color-textured material and immutable image must be present together"
  | RoleClearcoat => "clearcoat-textured material and immutable image must be present together"
  | RoleClearcoatRoughness => "clearcoat-roughness-textured material and immutable image must be present together"
  | RoleClearcoatNormal => "clearcoat-normal-textured material and immutable image must be present together"
  | RoleSheenColor => "sheen-color-textured material and immutable image must be present together"
  | RoleSheenRoughness => "sheen-roughness-textured material and immutable image must be present together"
  | RoleAnisotropy => "anisotropy-textured material and immutable image must be present together"
  end.

(** [validate_texture_role_consistency]. *)
Definition validate_texture_role_consistency (j : AssetUploadJob) : outcome RendererError unit :=
  match find (λ role, negb (Bool.eqb (has_role (mt_texture_roles (uj_material j)) (role_index role)) (is_some (uj_texture j role))))
          asset_roles with
  | Some role => Err (InvalidAssetMesh (uj_key j) (role_reason role))
  | None => Ok tt
  end.

(** [validate_texture]. *)
Definition validate_texture (key : AssetMeshKey) (t : AssetTexture) (c : RendererConfig) : outcome RendererError unit :=
  do! guard_err ((rcf_max_asset_texture_dimension_2d c <? tx_width t) || (rcf_max_asset_texture_dimension_2d c <? tx_height t))
    (AssetTextureLimitExceeded key "configured dimension limit") then
  let expected := pixels ← checked_mul u64_max (tx_width t) (tx_height t); checked_mul u64_max pixels 4 in
  do! guard_err (negb (bool_decide (expected = Some (texture_byte_len t))))
    (InvalidAssetMesh key "texture must contain exact tightly packed RGBA8 rows") then
  guard_err (rcf_max_asset_texture_bytes c <? texture_byte_len t) (AssetTextureLimitExceeded key "configured byte limit").

(** One role of the loop of [reserve_textures]. *)
Definition reserve_role (a : RendererAssets) (j : AssetUploadJob) (c : RendererConfig)
    (reservations : list (AssetTextureKey * N)) (role : AssetTextureRole) : outcome RendererError (list (AssetTextureKey * N)) :=
  match uj_texture j role with
  | None => Ok reservations
  | Some t =>
      do! validate_texture (uj_key j) t c then
      let key := (mk_content_hash (uj_key j), role) in
      if is_some (ra_resident_textures a !! key) || bool_decide (key ∈ ra_pending_textures a) then Ok reservations
      else Ok (reservations ++ [(key, texture_byte_len t)])
  end.

(** [Iterator::sum] of [u64], checked. *)
Definition checked_sum (l : list N) : option N := foldl (λ total v, total ← total; checked_add u64_max total v) (Some 0) l.

(** [reserve_textures]. *)
Definition reserve_textures (a : RendererAssets) (j : AssetUploadJob) (c : RendererConfig) : outcome RendererError RendererAssets :=
  let! reservations := out_fold (reserve_role a j c) [] asset_roles in
  let! new_bytes := expect (checked_sum reservations.*2) in
  let projected_pending := sat_add64 (ra_pending_texture_bytes a) new_bytes in
  do! guard_err (rcf_max_pending_asset_texture_bytes c <? projected_pending)
    (AssetTextureUploadBytesExceeded projected_pending (rcf_max_pending_asset_texture_bytes c)) then
  let projected_textures := N.of_nat (size (ra_resident_textures a)) + N.of_nat (size (ra_pending_textures a))
    + N.of_nat (length reservations) in
  do! guard_err (rcf_max_resident_asset_textures c <? projected_textures)
    (AssetTextureResidencyCapacityExceeded (rcf_max_resident_asset_textures c)) then
  let reserved_bytes := sat_add64 (ra_resident_texture_bytes a) projected_pending in
  do! guard_err (rcf_max_resident_asset_texture_bytes c <? reserved_bytes)
    (AssetTextureResidencyBytesExceeded reserved_bytes (rcf_max_resident_asset_texture_bytes c)) then
  Ok (mkRendererAssets (ra_pending a) (ra_pending_bytes a) (ra_pending_textures a ∪ list_to_set reservations.*1) projected_pending
        (ra_resident a) (ra_resident_bytes a) (ra_resident_textures a) (ra_resident_texture_bytes a)).

(** [enqueue_with_time]: what is admitted, and the state to keep. *)
Definition assets_enqueue (a : RendererAssets) (j : AssetUploadJob) (c : RendererConfig) (queued_at : N)
    : outcome RendererError (AssetUploadAdmission * RendererAssets) :=
  let key := uj_key j in
  if is_some (ra_resident a !! key) then Ok (UaAlreadyResident key, a) else
  if existsb (λ p, bool_decide (pu_key p = key)) (ra_pending a) then Ok (UaAlreadyQueued key, a) else
  do! validate_texture_role_consistency j then
  let vertex_count := len_or_max u32_max (length (uj_vertices j)) in
  do! guard_err ((vertex_count =? 0) || negb (vertex_count mod 3 =? 0))
    (InvalidAssetMesh key "expanded triangle vertices must be non-empty and divisible by three") then
  do! guard_err (rcf_max_asset_vertices c <? vertex_count)
    (AssetVertexLimitExceeded key vertex_count (rcf_max_asset_vertices c)) then
  let byte_len := job_byte_len j in
  do! guard_err (rcf_max_asset_mesh_bytes c <? byte_len) (AssetMeshBytesExceeded key byte_len (rcf_max_asset_mesh_bytes c)) then
  do! guard_err (rcf_asset_upload_capacity c <=? N.of_nat (length (ra_pending a)))
    (AssetUploadCapacityExceeded (rcf_asset_upload_capacity c)) then
  let projected_pending := sat_add64 (ra_pending_bytes a) byte_len in
  do! guard_err (rcf_max_pending_asset_upload_bytes c <? projected_pending)
    (AssetUploadBytesExceeded projected_pending (rcf_max_pending_asset_upload_bytes c)) then
  let projected_meshes := N.of_nat (size (ra_resident a)) + N.of_nat (length (ra_pending a)) + 1 in
  do! guard_err (rcf_max_resident_asset_meshes c <? projected_meshes)
    (AssetResidencyCapacityExceeded (rcf_max_resident_asset_meshes c)) then
  let reserved_bytes := sat_add64 (ra_resident_bytes a) projected_pending in
  do! guard_err (rcf_max_resident_asset_bytes c <? reserved_bytes)
    (AssetResidencyBytesExceeded reserved_bytes (rcf_max_resident_asset_bytes c)) then
  let! a := reserve_textures a j c in
  Ok (UaQueued key,
      mkRendererAssets (ra_pending a ++ [mkPendingUpload j queued_at]) projected_pending (ra_pending_textures a)
        (ra_pending_texture_bytes a) (ra_resident a) (ra_resident_bytes a) (ra_resident_textures a) (ra_resident_texture_bytes a)).

(** ** Processing *)

(** [f32::to_le_bytes] and [encode_vertices]. *)
Definition f32_to_le_bytes (v : f32) : bytes := rev (to_be_bytes 4 v).
Definition encode_vertex (v : AssetVertex) : bytes :=
  f ← vx_position v ++ vx_normal v ++ vx_texcoord_0 v ++ vx_tangent v ++ vx_color_0 v ++ vx_texcoord_1 v; f32_to_le_bytes f.
Definition encode_vertices (vertices : list AssetVertex) : bytes := v ← vertices; encode_vertex v.

(** The format of a role in [create_texture]. *)
Definition role_format (role : AssetTextureRole) : TextureFormat :=
  match role with RoleBaseColor | RoleEmissive | RoleSpecularColor | RoleSheenColor => Rgba8UnormSrgb | _ => Rgba8Unorm end.

(** [create_texture]. *)
Definition create_texture (t : AssetTexture) (role : AssetTextureRole) : GpuAssetTexture :=
  mkGpuTexture (tx_width t) (tx_height t) (role_format role) (tx_rgba8 t) (texture_byte_len t).

(** One role of the loop of [upload_job_textures]; the state is
    [(assets, texture_uploaded, texture_byte_len)]. *)
Definition upload_role (j : AssetUploadJob) (state : RendererAssets * bool * N) (role : AssetTextureRole)
    : outcome RendererError (RendererAssets * bool * N) :=
  let '(a, texture_uploaded, texture_byte_len) := state in
  match uj_texture j role with
  | None => Ok state
  | Some t =>
      let key := (mk_content_hash (uj_key j), role) in
      if is_some (ra_resident_textures a !! key) then Ok state else
      let gpu_texture := create_texture t role in
      let uploaded_bytes := gt_byte_len gpu_texture in
      do! debug_assert (bool_decide (key ∈ ra_pending_textures a)) then
      let! pending_texture_bytes := expect (checked_sub (ra_pending_texture_bytes a) uploaded_bytes) in
      let! resident_texture_bytes := expect (checked_add u64_max (ra_resident_texture_bytes a) uploaded_bytes) in
      let! texture_byte_len := expect (checked_add u64_max texture_byte_len uploaded_bytes) in
      Ok (mkRendererAssets (ra_pending a) (ra_pending_bytes a) (ra_pending_textures a ∖ {[key]}) pending_texture_bytes
            (ra_resident a) (ra_resident_bytes a) (<[key := gpu_texture]> (ra_resident_textures a)) resident_texture_bytes,
          true, texture_byte_len)
  end.

(** [process_next]. *)
Definition assets_process_next (a : RendererAssets) : outcome RendererError (option AssetUploadOutcome * RendererAssets) :=
  match ra_pending a with
  | [] => Ok (None, a)
  | p :: rest =>
      let j := pu_job p in
      let key := uj_key j in
      let byte_len := job_byte_len j in
      let a := mkRendererAssets rest (ra_pending_bytes a - byte_len) (ra_pending_textures a) (ra_pending_texture_bytes a)
                 (ra_resident a) (ra_resident_bytes a) (ra_resident_textures a) (ra_resident_texture_bytes a) in
      let! vertex_count := expect (try_from_len u32_max (length (uj_vertices j))) in
      let encoded := encode_vertices (uj_vertices j) in
      do! debug_assert (bool_decide (try_from_len u64_max (length encoded) = Some byte_len)) then
      let! (a, texture_uploaded, texture_byte_len) := out_fold (upload_role j) (a, false, 0) asset_roles in
      do! debug_assert (negb (is_some (ra_resident a !! key))) then
      let! resident_bytes := expect (checked_add u64_max (ra_resident_bytes a) byte_len) in
      Ok (Some (mkUploadOutcome key vertex_count byte_len texture_uploaded texture_byte_len),
          mkRendererAssets (ra_pending a) (ra_pending_bytes a) (ra_pending_textures a) (ra_pending_texture_bytes a)
            (<[key := mkGpuMesh encoded vertex_count (uj_material j) byte_len]> (ra_resident a)) resident_bytes
            (ra_resident_textures a) (ra_resident_texture_bytes a))
  end.

(** ** Eviction *)

(** The counters of a [retain]: the number of removed elements and their bytes. *)
Definition count_removed (acc : N * N) (bytes : N) : outcome RendererError (N * N) :=
  let! removed := expect (checked_add u32_max acc.1 1) in
  let! released := expect (checked_add u64_max acc.2 bytes) in
  Ok (removed, released).

(** The texture behind a reservation: the first one of the queued jobs of its hash. *)
Definition reserved_texture (a : RendererAssets) (key : AssetTextureKey) : option AssetTexture :=
  head (omap (λ p, uj_texture (pu_job p) key.2) (filter (λ p, pu_hash p = key.1) (ra_pending a))).

(** [evict]. *)
Definition assets_evict (a : RendererAssets) (hash : ContentHash) : outcome RendererError (RendererAssetEviction * RendererAssets) :=
  let pending_keys := filter (λ key : AssetTextureKey, key.1 = hash) (elements (ra_pending_textures a)) in
  let! removed_pending_textures := expect (try_from_len u32_max (length pending_keys)) in
  let! lengths := out_fold (λ lengths key, let! t := expect (reserved_texture a key) in Ok (lengths ++ [texture_byte_len t])) [] pending_keys in
  let! pending_texture_bytes := expect (checked_sum lengths) in
  let! (removed_pending_uploads, released_pending_bytes) :=
    out_fold count_removed (0, 0) ((λ p, job_byte_len (pu_job p)) <$> filter (λ p, pu_hash p = hash) (ra_pending a)) in
  let! pending_bytes := expect (checked_sub (ra_pending_bytes a) released_pending_bytes) in
  let! pending_left := expect (checked_sub (ra_pending_texture_bytes a) pending_texture_bytes) in
  let gone := filter (λ e : AssetMeshKey * GpuAssetMesh, mk_content_hash e.1 = hash) (map_to_list (ra_resident a)) in
  let! (removed_resident_meshes, released_resident_bytes) := out_fold count_removed (0, 0) ((λ e, gm_byte_len e.2) <$> gone) in
  let! resident_bytes := expect (checked_sub (ra_resident_bytes a) released_resident_bytes) in
  let resident_keys := filter (λ e : AssetTextureKey * GpuAssetTexture, e.1.1 = hash) (map_to_list (ra_resident_textures a)) in
  let! removed_resident_textures := expect (try_from_len u32_max (length resident_keys)) in
  let! resident_texture_bytes := expect (checked_sum ((λ e, gt_byte_len e.2) <$> resident_keys)) in
  let! resident_left := expect (checked_sub (ra_resident_texture_bytes a) resident_texture_bytes) in
  Ok (mkRendererEviction hash removed_pending_uploads released_pending_bytes removed_resident_meshes released_resident_bytes
        removed_pending_textures pending_texture_bytes removed_resident_textures resident_texture_bytes,
      mkRendererAssets (filter (λ p, pu_hash p ≠ hash) (ra_pending a)) pending_bytes
        (filter (λ key, key.1 ≠ hash) (ra_pending_textures a)) pending_left
        (filter (λ e, mk_content_hash e.1 ≠ hash) (ra_resident a)) resident_bytes
        (filter (λ e, e.1.1 ≠ hash) (ra_resident_textures a)) resident_left).

(** [mesh]. *)
Definition assets_mesh (a : RendererAssets) (key : AssetMeshKey) : option GpuAssetMesh := ra_resident a !! key.

(** [texture_view]: the texture behind the view. *)
Definition assets_texture (a : RendererAssets) (hash : ContentHash) (role : AssetTextureRole) : option GpuAssetTexture :=
  ra_resident_textures a !! (hash, role).

(** [stats_at], with its two assertions. *)
Definition assets_stats (a : RendererAssets) (sampled_at : N) : outcome RendererError RendererAssetStats :=
  do! debug_assert (bool_decide (checked_sum ((λ e, gm_byte_len e.2) <$> map_to_list (ra_resident a)) = Some (ra_resident_bytes a))) then
  do! debug_assert (bool_decide (checked_sum ((λ e, gt_byte_len e.2) <$> map_to_list (ra_resident_textures a))
                                 = Some (ra_resident_texture_bytes a))) then
  Ok (mkRendererAssetStats (len_or_max u32_max (length (ra_pending a)))
        (elapsed_micros sampled_at <$> iter_min (pu_queued_at <$> ra_pending a)) (ra_pending_bytes a)
        (len_or_max u32_max (size (ra_resident a))) (ra_resident_bytes a)
        (len_or_max u32_max (size (ra_pending_textures a))) (ra_pending_texture_bytes a)
        (len_or_max u32_max (size (ra_resident_textures a))) (ra_resident_texture_bytes a)).

(** * The renderer's assets are accounted exactly

    [assets_ok] is the invariant of the renderer's assets: what is reserved is
    what the queued jobs need, what is resident is what was uploaded, and every
    counter is the sum it stands for.  The jobs of one content hash are taken
    from one catalogue of textures, as the asset store provides them.  Every
    operation keeps the invariant and none panics. *)

(** ** Checked sums and counts *)

Lemma checked_sum_from l start :
  start + sumN id l ≤ u64_max →
  foldl (λ total v, total ← total; checked_add u64_max total v) (Some start) l = Some (start + sumN id l).
Proof.
  revert start. induction l as [|v l IH]; intros start Hs; [cbn; by rewrite N.add_0_r|].
  cbn [sumN foldr] in Hs |- *. fold (sumN id l) in Hs |- *. change (id v) with v in Hs |- *. cbn [foldl mbind option_bind].
  rewrite (proj2 (checked_add_Some u64_max start v (start + v))) by lia. rewrite IH by lia. f_equal. lia.
Qed.

Lemma checked_sum_exact l : sumN id l ≤ u64_max → checked_sum l = Some (sumN id l).
Proof. intros Hl. unfold checked_sum. rewrite checked_sum_from by (rewrite N.add_0_l; done). by rewrite N.add_0_l. Qed.

Lemma count_removed_exact l acc :
  acc.1 + N.of_nat (length l) ≤ u32_max → acc.2 + sumN id l ≤ u64_max →
  out_fold count_removed acc l = Ok (acc.1 + N.of_nat (length l), acc.2 + sumN id l).
Proof.
  revert acc. induction l as [|v l IH]; intros [n b] Hn Hb; cbn [out_fold fst snd length sumN foldr] in *.
  { by rewrite !N.add_0_r. }
  fold (sumN id l) in Hb |- *. change (id v) with v in Hb |- *. unfold count_removed at 1. cbn [fst snd].
  rewrite (proj2 (checked_add_Some u32_max n 1 (n + 1))) by lia. cbn [expect out_bind].
  rewrite (proj2 (checked_add_Some u64_max b v (b + v))) by lia. cbn [expect out_bind].
  rewrite IH by (cbn [fst snd]; lia). cbn [fst snd]. f_equal. f_equal; lia.
Qed.

(** ** The invariant *)

(** Bounds that machine integers and saturation need. *)
Record assets_config_ok (c : RendererConfig) : Prop := {
  rc_pending : rcf_max_pending_asset_upload_bytes c < u64_max;
  rc_resident : rcf_max_resident_asset_bytes c < u64_max;
  rc_pending_textures : rcf_max_pending_asset_texture_bytes c < u64_max;
  rc_resident_textures : rcf_max_resident_asset_texture_bytes c < u64_max;
  rc_texture : 12 * rcf_max_asset_texture_bytes c ≤ u64_max;
  rc_vertices : rcf_max_asset_vertices c < u32_max;
  rc_capacity : rcf_asset_upload_capacity c ≤ u32_max;
  rc_meshes : rcf_max_resident_asset_meshes c ≤ u32_max;
  rc_textures : rcf_max_resident_asset_textures c ≤ u32_max;
}.

(** The lengths of a vertex's arrays. *)
Definition typed_vertex (v : AssetVertex) : Prop :=
  length (vx_position v) = 3%nat ∧ length (vx_normal v) = 3%nat ∧ length (vx_tangent v) = 4%nat ∧
  length (vx_texcoord_0 v) = 2%nat ∧ length (vx_color_0 v) = 4%nat ∧ length (vx_texcoord_1 v) = 2%nat.

Lemma encode_vertices_length vs : Forall typed_vertex vs → N.of_nat (length (encode_vertices vs)) = ASSET_VERTEX_BYTES * N.of_nat (length vs).
Proof.
  assert (∀ l, length (f ← l; f32_to_le_bytes f) = (4 * length l)%nat) as Hf.
  { induction l as [|f l IH]; [done|]. rewrite bind_cons, length_app, IH. unfold f32_to_le_bytes.
    rewrite length_rev, length_to_be_bytes. cbn [length]. lia. }
  induction 1 as [|v vs (H1 & H2 & H3 & H4 & H5 & H6) _ IH]; [done|].
  unfold encode_vertices in *. rewrite bind_cons, length_app. cbn [length]. unfold encode_vertex at 1.
  rewrite Hf, !length_app, H1, H2, H3, H4, H5, H6. unfold ASSET_VERTEX_BYTES in *. lia.
Qed.

Definition job_bytes (j : AssetUploadJob) : N := ASSET_VERTEX_BYTES * N.of_nat (length (uj_vertices j)).
Definition job_hash (j : AssetUploadJob) : ContentHash := mk_content_hash (uj_key j).

Section theorems.
Context (cat : ContentHash → AssetTextureRole → option AssetTexture) (c : RendererConfig) (Hc : assets_config_ok c).
Implicit Types (a : RendererAssets) (j : AssetUploadJob) (p : PendingAssetUpload) (k : AssetTextureKey).

(** The bytes a texture key stands for. *)
Definition key_bytes k : N := match cat k.1 k.2 with Some t => texture_byte_len t | None => 0 end.

(** A job made of typed vertices and of the catalogue's textures. *)
Record upload_ok j : Prop := {
  up_vertices : Forall typed_vertex (uj_vertices j);
  up_textures : ∀ role t, uj_texture j role = Some t → cat (job_hash j) role = Some t;
}.

Record assets_ok a : Prop := {
  ao_unique : NoDup (pu_key <$> ra_pending a);
  ao_fresh : ∀ p, p ∈ ra_pending a → ra_resident a !! pu_key p = None;
  ao_jobs : ∀ p, p ∈ ra_pending a → upload_ok (pu_job p);
  ao_vertices : ∀ p, p ∈ ra_pending a → N.of_nat (length (uj_vertices (pu_job p))) ≤ rcf_max_asset_vertices c;
  ao_pending_bytes : ra_pending_bytes a = sumN (λ p, job_bytes (pu_job p)) (ra_pending a);
  ao_pending_bound : ra_pending_bytes a ≤ rcf_max_pending_asset_upload_bytes c;
  ao_resident_bytes : ra_resident_bytes a = map_sum gm_byte_len (ra_resident a);
  ao_bytes_bound : ra_resident_bytes a + ra_pending_bytes a ≤ rcf_max_resident_asset_bytes c;
  ao_meshes : N.of_nat (size (ra_resident a)) + N.of_nat (length (ra_pending a)) ≤ rcf_max_resident_asset_meshes c;
  ao_capacity : N.of_nat (length (ra_pending a)) ≤ rcf_asset_upload_capacity c;
  ao_reserved : ∀ p role t, p ∈ ra_pending a → uj_texture (pu_job p) role = Some t →
    (pu_hash p, role) ∈ ra_pending_textures a ∨ is_Some (ra_resident_textures a !! (pu_hash p, role));
  ao_backed : ∀ k, k ∈ ra_pending_textures a → ra_resident_textures a !! k = None ∧
    ∃ p t, p ∈ ra_pending a ∧ pu_hash p = k.1 ∧ uj_texture (pu_job p) k.2 = Some t;
  ao_texture_bytes : ra_pending_texture_bytes a = set_sum key_bytes (ra_pending_textures a);
  ao_texture_bound : ra_pending_texture_bytes a ≤ rcf_max_pending_asset_texture_bytes c;
  ao_uploaded : ∀ k g, ra_resident_textures a !! k = Some g → ∃ t, cat k.1 k.2 = Some t ∧ g = create_texture t k.2;
  ao_resident_texture_bytes : ra_resident_texture_bytes a = map_sum gt_byte_len (ra_resident_textures a);
  ao_textures_bound : ra_resident_texture_bytes a + ra_pending_texture_bytes a ≤ rcf_max_resident_asset_texture_bytes c;
  ao_textures : N.of_nat (size (ra_resident_textures a)) + N.of_nat (size (ra_pending_textures a)) ≤ rcf_max_resident_asset_textures c;
}.

Lemma assets_new_ok : assets_ok renderer_assets_new.
Proof.
  split; cbn; try done; try lia.
  all: try by intros ? ?%not_elem_of_nil.
  - apply NoDup_nil_2.
  - rewrite map_size_empty. lia.
  - by intros ? ? ? ?%not_elem_of_nil.
  - rewrite map_size_empty, size_empty. lia.
Qed.

(** ** Admission *)

(** What one role adds to the reservations. *)
Definition role_reservation a j (role : AssetTextureRole) : option (AssetTextureKey * N) :=
  t ← uj_texture j role;
  if is_some (ra_resident_textures a !! (job_hash j, role)) || bool_decide ((job_hash j, role) ∈ ra_pending_textures a) then None
  else Some ((job_hash j, role), texture_byte_len t).

Lemma validate_texture_spec key t : normal (validate_texture key t c) ∧
  (validate_texture key t c = Ok tt → texture_byte_len t ≤ rcf_max_asset_texture_bytes c).
Proof.
  split; [unfold validate_texture; solve_normal|]. unfold validate_texture.
  intros ([] & _ & ([] & _ & Hg%guard_err_ok)%out_bind_ok)%out_bind_ok. by apply N.ltb_ge.
Qed.

Lemma reserve_roles_spec a j roles acc :
  match out_fold (reserve_role a j c) acc roles with
  | Ok res => res = acc ++ omap (role_reservation a j) roles ∧
      Forall (λ role, ∀ t, uj_texture j role = Some t → texture_byte_len t ≤ rcf_max_asset_texture_bytes c) roles
  | Err _ => True
  | Panic | OutOfFuel => False
  end.
Proof.
  revert acc. induction roles as [|role roles IH]; intros acc; cbn [out_fold]; [by rewrite app_nil_r|].
  unfold reserve_role at 1. cbn [omap list_omap]. unfold role_reservation at 1.
  destruct (uj_texture j role) as [t|] eqn:Ht; cbn [mbind option_bind out_bind].
  2: { specialize (IH acc). destruct (out_fold _ _ _); [|done..]. destruct IH as [-> Hf]. split; [done|]. constructor; [|done].
       intros t E. by rewrite Ht in E. }
  pose proof (validate_texture_spec (uj_key j) t) as [Hn Hv].
  destruct (validate_texture _ _ _) as [[]| | |]; cbn [out_bind]; [|done..].
  assert (∀ t', uj_texture j role = Some t' → texture_byte_len t' ≤ rcf_max_asset_texture_bytes c) as Hr.
  { intros t' E. rewrite Ht in E. simplify_eq. by apply Hv. }
  change (mk_content_hash (uj_key j)) with (job_hash j).
  destruct (is_some _ || _); cbn [out_bind].
  - specialize (IH acc). destruct (out_fold _ _ _); [|done..]. destruct IH as [-> Hf]. split; [done|]. by constructor.
  - specialize (IH (acc ++ [((job_hash j, role), texture_byte_len t)])). destruct (out_fold _ _ _); [|done..].
    destruct IH as [-> Hf]. split; [by rewrite <-app_assoc|]. by constructor.
Qed.

(** The reservations of a job. *)
Definition reservations a j : list (AssetTextureKey * N) := omap (role_reservation a j) asset_roles.

Lemma elem_of_reservations a j e :
  e ∈ reservations a j ↔ e.1.1 = job_hash j ∧ (∃ t, uj_texture j e.1.2 = Some t ∧ e.2 = texture_byte_len t) ∧
    ra_resident_textures a !! e.1 = None ∧ e.1 ∉ ra_pending_textures a.
Proof.
  unfold reservations. rewrite list_elem_of_omap. destruct e as [[h role] n]. cbn [fst snd]. split.
  - intros (role' & _ & (t & Ht & Hr)%bind_Some). destruct (ra_resident_textures a !! (job_hash j, role')) eqn:E; [done|].
    cbn [is_some orb] in Hr. case_bool_decide; [done|]. simplify_eq. eauto 10.
  - intros (-> & (t & Ht & ->) & Hr & Hp). exists role. split; [apply elem_of_asset_roles|]. unfold role_reservation. rewrite Ht.
    cbn [mbind option_bind]. rewrite Hr, bool_decide_false by done. done.
Qed.

Lemma reservations_NoDup a j : NoDup (reservations a j).*1.
Proof.
  unfold reservations. pose proof asset_roles_NoDup as Hr. induction asset_roles as [|role roles IH]; [apply NoDup_nil_2|].
  apply NoDup_cons in Hr as [Hn Hr]. cbn [omap list_omap]. destruct (role_reservation a j role) as [e|] eqn:E; [|by apply IH].
  rewrite fmap_cons. apply NoDup_cons. split; [|by apply IH].
  intros (e' & He & (role' & Hin & E')%list_elem_of_omap)%list_elem_of_fmap. apply Hn.
  unfold role_reservation in *. apply bind_Some in E as (t & _ & E). apply bind_Some in E' as (t' & _ & E').
  destruct (is_some _ || _); [done|]. destruct (is_some _ || _); [done|]. by simplify_eq/=.
Qed.

Lemma reservations_length a j : (length (reservations a j) ≤ 12)%nat.
Proof. unfold reservations. change 12%nat with (length asset_roles). generalize asset_roles. intros l. induction l as [|role l IH]; [done|].
  cbn [omap list_omap]. destruct (role_reservation a j role); cbn [length]; lia. Qed.

Lemma reservations_bytes a j :
  upload_ok j → sumN id (reservations a j).*2 = set_sum key_bytes (list_to_set (reservations a j).*1).
Proof.
  intros Hj. rewrite set_sum_list by apply reservations_NoDup. rewrite !sumN_fmap. apply sumN_ext.
  intros e (Hh & (t & Ht & He) & _)%elem_of_reservations. apply (up_textures _ Hj) in Ht. rewrite <-Hh in Ht.
  unfold key_bytes. destruct e as [[h role] n]. cbn in *. by rewrite Ht.
Qed.

Definition with_reservations a j : RendererAssets :=
  mkRendererAssets (ra_pending a) (ra_pending_bytes a) (ra_pending_textures a ∪ list_to_set (reservations a j).*1)
    (ra_pending_texture_bytes a + sumN id (reservations a j).*2)
    (ra_resident a) (ra_resident_bytes a) (ra_resident_textures a) (ra_resident_texture_bytes a).

Lemma reserve_textures_spec a j :
  assets_ok a →
  match reserve_textures a j c with
  | Ok a' => a' = with_reservations a j ∧
      ra_pending_texture_bytes a' ≤ rcf_max_pending_asset_texture_bytes c ∧
      ra_resident_texture_bytes a + ra_pending_texture_bytes a' ≤ rcf_max_resident_asset_texture_bytes c ∧
      N.of_nat (size (ra_resident_textures a)) + N.of_nat (size (ra_pending_textures a)) + N.of_nat (length (reservations a j))
        ≤ rcf_max_resident_asset_textures c
  | Err _ => True
  | Panic | OutOfFuel => False
  end.
Proof.
  intros Ha. unfold reserve_textures. pose proof (reserve_roles_spec a j asset_roles []) as Hr.
  destruct (out_fold _ _ _) as [res| | |]; cbn [out_bind]; [|done..]. destruct Hr as [-> Hlen]. rewrite app_nil_l.
  fold (reservations a j).
  assert (sumN id (reservations a j).*2 ≤ 12 * rcf_max_asset_texture_bytes c) as Hsum.
  { rewrite sumN_fmap. etransitivity; [apply (sumN_mono _ (λ _, rcf_max_asset_texture_bytes c))|].
    - intros e (_ & (t & Ht & ->) & _)%elem_of_reservations. rewrite Forall_forall in Hlen.
      apply (Hlen e.1.2); [apply elem_of_asset_roles|done].
    - rewrite sumN_const. pose proof (reservations_length a j). nia. }
  pose proof (rc_texture _ Hc). rewrite checked_sum_exact by lia. cbn [expect out_bind].
  pose proof (rc_pending_textures _ Hc). pose proof (rc_resident_textures _ Hc). unfold sat_add64, sat_add.
  destruct (N.ltb_spec (rcf_max_pending_asset_texture_bytes c) (N.min u64_max (ra_pending_texture_bytes a + sumN id (reservations a j).*2)));
    cbn [guard_err out_bind]; [done|].
  replace (N.min u64_max (ra_pending_texture_bytes a + sumN id (reservations a j).*2))
    with (ra_pending_texture_bytes a + sumN id (reservations a j).*2) in * by lia.
  destruct (N.ltb_spec (rcf_max_resident_asset_textures c) (N.of_nat (size (ra_resident_textures a)) + N.of_nat (size (ra_pending_textures a))
    + N.of_nat (length (reservations a j)))); cbn [guard_err out_bind]; [done|].
  destruct (N.ltb_spec (rcf_max_resident_asset_texture_bytes c) (N.min u64_max (ra_resident_texture_bytes a +
    (ra_pending_texture_bytes a + sumN id (reservations a j).*2)))); cbn [guard_err out_bind]; [done|].
  split; [done|]. cbn [with_reservations ra_pending_texture_bytes]. lia.
Qed.

(** What an admission answers. *)
Definition admitted_upload a j (now : N) (admission : AssetUploadAdmission) a' : Prop :=
  match admission with
  | UaQueued key => key = uj_key j ∧ ra_pending a' = ra_pending a ++ [mkPendingUpload j now] ∧ ra_resident a' = ra_resident a ∧
      ra_resident_textures a' = ra_resident_textures a
  | UaAlreadyQueued key => key = uj_key j ∧ a' = a ∧ key ∈ pu_key <$> ra_pending a
  | UaAlreadyResident key => key = uj_key j ∧ a' = a ∧ is_Some (ra_resident a !! key)
  end.

Lemma job_bytes_exact j :
  N.of_nat (length (uj_vertices j)) ≤ u32_max → job_byte_len j = job_bytes j.
Proof. intros Hl. unfold job_byte_len, job_bytes, ASSET_VERTEX_BYTES. rewrite len_or_max_min. unfold u32_max, u64_max in *. lia. Qed.

Lemma queued_job_bytes a p : assets_ok a → p ∈ ra_pending a → job_byte_len (pu_job p) = job_bytes (pu_job p).
Proof. intros Ha Hp. apply job_bytes_exact. pose proof (ao_vertices _ Ha p Hp). pose proof (rc_vertices _ Hc). lia. Qed.

Lemma assets_enqueue_spec a j now :
  assets_ok a → upload_ok j →
  match assets_enqueue a j c now with
  | Ok (admission, a') => assets_ok a' ∧ admitted_upload a j now admission a'
  | Err _ => True
  | Panic | OutOfFuel => False
  end.
Proof.
  intros Ha Hj. unfold assets_enqueue. destruct (ra_resident a !! uj_key j) as [m|] eqn:Hres; cbn [is_some]; [by split|].
  destruct (existsb _ (ra_pending a)) eqn:Hex.
  { split; [done|]. split_and!; [done..|]. apply existsb_exists in Hex as (p & Hp%list_elem_of_In & Hk%bool_decide_eq_true).
    apply list_elem_of_fmap. by exists p. }
  assert (uj_key j ∉ pu_key <$> ra_pending a) as Hnew.
  { intros (p & Hk & Hp)%list_elem_of_fmap. apply not_true_iff_false in Hex. apply Hex. apply existsb_exists.
    exists p. split; [by apply list_elem_of_In|]. by apply bool_decide_eq_true. }
  unfold validate_texture_role_consistency. destruct (find _ asset_roles); cbn [out_bind]; [done|].
  pose proof (rc_vertices _ Hc) as Hvc. pose proof (rc_pending _ Hc). pose proof (rc_resident _ Hc).
  rewrite len_or_max_min. destruct (_ || _); cbn [guard_err out_bind]; [done|].
  destruct (N.ltb_spec (rcf_max_asset_vertices c) (N.min u32_max (N.of_nat (length (uj_vertices j))))); cbn [guard_err out_bind]; [done|].
  rewrite job_bytes_exact by lia.
  destruct (_ <? job_bytes j); cbn [guard_err out_bind]; [done|].
  destruct (N.leb_spec (rcf_asset_upload_capacity c) (N.of_nat (length (ra_pending a)))); cbn [guard_err out_bind]; [done|].
  unfold sat_add64, sat_add. destruct (N.ltb_spec (rcf_max_pending_asset_upload_bytes c) (N.min u64_max (ra_pending_bytes a + job_bytes j)));
    cbn [guard_err out_bind]; [done|].
  destruct (N.ltb_spec (rcf_max_resident_asset_meshes c) (N.of_nat (size (ra_resident a)) + N.of_nat (length (ra_pending a)) + 1));
    cbn [guard_err out_bind]; [done|].
  replace (N.min u64_max (ra_pending_bytes a + job_bytes j)) with (ra_pending_bytes a + job_bytes j) in * by lia.
  destruct (N.ltb_spec (rcf_max_resident_asset_bytes c) (N.min u64_max (ra_resident_bytes a + (ra_pending_bytes a + job_bytes j))));
    cbn [guard_err out_bind]; [done|].
  pose proof (reserve_textures_spec a j Ha) as Hrt. destruct (reserve_textures a j c) as [a1| | |]; cbn [out_bind]; [|done..].
  destruct Hrt as (-> & Hpt & Hrb & Hct). split; [|by split_and!].
  pose proof (reservations_bytes a j Hj) as Hbytes.
  assert (ra_pending_textures a ## list_to_set (reservations a j).*1) as Hdisj.
  { intros k Hk (e & -> & (_ & _ & _ & Hn)%elem_of_reservations)%elem_of_list_to_set%list_elem_of_fmap. done. }
  cbn [with_reservations ra_pending ra_pending_bytes ra_pending_textures ra_pending_texture_bytes ra_resident ra_resident_bytes
    ra_resident_textures ra_resident_texture_bytes] in *.
  set (q := mkPendingUpload j now).
  assert (∀ p, p ∈ ra_pending a ++ [q] ↔ p ∈ ra_pending a ∨ p = q) as Hin.
  { intros p. by rewrite elem_of_app, list_elem_of_singleton. }
  split; cbn [with_reservations ra_pending ra_pending_bytes ra_pending_textures ra_pending_texture_bytes ra_resident ra_resident_bytes
    ra_resident_textures ra_resident_texture_bytes].
  - rewrite fmap_app, fmap_cons, fmap_nil. apply NoDup_app. split_and!; [apply Ha| |apply NoDup_singleton].
    intros x Hx Hx'. apply list_elem_of_singleton in Hx' as ->. by apply Hnew.
  - intros p [Hp| ->]%Hin; [by apply (ao_fresh _ Ha)|done].
  - intros p [Hp| ->]%Hin; [by apply (ao_jobs _ Ha)|done].
  - intros p [Hp| ->]%Hin; [by apply (ao_vertices _ Ha)|]. cbn. lia.
  - rewrite sumN_app, (ao_pending_bytes _ Ha). cbn. lia.
  - lia.
  - apply Ha.
  - lia.
  - rewrite length_app. cbn [length]. lia.
  - rewrite length_app. cbn [length]. lia.
  - intros p role t [Hp| ->]%Hin Ht.
    + destruct (ao_reserved _ Ha p role t Hp Ht); [left; by apply elem_of_union_l|by right].
    + destruct (ra_resident_textures a !! (pu_hash q, role)) eqn:E; [right; eauto|]. left.
      destruct (decide ((pu_hash q, role) ∈ ra_pending_textures a)); [by apply elem_of_union_l|apply elem_of_union_r].
      apply elem_of_list_to_set, list_elem_of_fmap. exists ((pu_hash q, role), texture_byte_len t). split; [done|].
      apply elem_of_reservations. cbn [fst snd]. eauto 10.
  - intros k [Hk|(e & -> & (Hh & (t & Ht & _) & Hr & _)%elem_of_reservations)%elem_of_list_to_set%list_elem_of_fmap]%elem_of_union.
    + destruct (ao_backed _ Ha k Hk) as (? & p & t & Hp & ? & ?). split; [done|]. exists p, t. split_and!; try done. apply Hin. by left.
    + split; [done|]. exists q, t. split_and!; [apply Hin; by right|by rewrite Hh|done].
  - rewrite set_sum_union by done. by rewrite (ao_texture_bytes _ Ha), Hbytes.
  - done.
  - apply Ha.
  - apply Ha.
  - done.
  - rewrite size_union by done. rewrite size_list_to_set by apply reservations_NoDup. rewrite length_fmap. lia.
Qed.

(** ** Processing *)

(** The texture part of the invariant, for the textures of given jobs. *)
Record textures_ok (jobs : list PendingAssetUpload) a : Prop := {
  to_reserved : ∀ p role t, p ∈ jobs → uj_texture (pu_job p) role = Some t →
    (pu_hash p, role) ∈ ra_pending_textures a ∨ is_Some (ra_resident_textures a !! (pu_hash p, role));
  to_backed : ∀ k, k ∈ ra_pending_textures a → ra_resident_textures a !! k = None ∧
    ∃ p t, p ∈ jobs ∧ pu_hash p = k.1 ∧ uj_texture (pu_job p) k.2 = Some t;
  to_bytes : ra_pending_texture_bytes a = set_sum key_bytes (ra_pending_textures a);
  to_uploaded : ∀ k g, ra_resident_textures a !! k = Some g → ∃ t, cat k.1 k.2 = Some t ∧ g = create_texture t k.2;
  to_resident_bytes : ra_resident_texture_bytes a = map_sum gt_byte_len (ra_resident_textures a);
}.

Lemma assets_textures_ok a : assets_ok a → textures_ok (ra_pending a) a.
Proof. by intros []. Qed.

(** What the upload of textures changes: bytes and keys move from pending to resident. *)
Record textures_moved a a' : Prop := {
  tm_pending : ra_pending a' = ra_pending a;
  tm_pending_bytes : ra_pending_bytes a' = ra_pending_bytes a;
  tm_resident : ra_resident a' = ra_resident a;
  tm_resident_bytes : ra_resident_bytes a' = ra_resident_bytes a;
  tm_bytes : ra_resident_texture_bytes a' + ra_pending_texture_bytes a' = ra_resident_texture_bytes a + ra_pending_texture_bytes a;
  tm_size : (size (ra_resident_textures a') + size (ra_pending_textures a') =
             size (ra_resident_textures a) + size (ra_pending_textures a))%nat;
  tm_grows : ra_resident_textures a ⊆ ra_resident_textures a';
}.

Lemma textures_moved_refl a : textures_moved a a.
Proof. done. Qed.

Lemma textures_moved_trans a1 a2 a3 : textures_moved a1 a2 → textures_moved a2 a3 → textures_moved a1 a3.
Proof.
  intros [? ? ? ? ? ? H12] [? ? ? ? ? ? H23]. split; try congruence. by etransitivity.
Qed.

Lemma upload_role_spec jobs p a flag n role :
  textures_ok jobs a → p ∈ jobs → upload_ok (pu_job p) →
  ra_resident_texture_bytes a + ra_pending_texture_bytes a < u64_max → n ≤ ra_resident_texture_bytes a →
  ∃ a' flag' n', upload_role (pu_job p) (a, flag, n) role = Ok (a', flag', n') ∧ textures_ok jobs a' ∧ textures_moved a a' ∧
    n' + ra_resident_texture_bytes a = n + ra_resident_texture_bytes a' ∧ n' ≤ ra_resident_texture_bytes a' ∧
    (is_Some (uj_texture (pu_job p) role) → is_Some (ra_resident_textures a' !! (pu_hash p, role))).
Proof.
  intros Ht Hp Hj Hb Hn. unfold upload_role. destruct (uj_texture (pu_job p) role) as [t|] eqn:Htex.
  2: { eexists _, _, _. split; [done|]. split_and!; [done|apply textures_moved_refl|lia|done|]. by intros []. }
  change (mk_content_hash (uj_key (pu_job p))) with (pu_hash p).
  destruct (ra_resident_textures a !! (pu_hash p, role)) as [g|] eqn:Hr; cbn [is_some].
  { eexists _, _, _. split; [done|]. split_and!; [done|apply textures_moved_refl|lia|done|]. rewrite Hr. eauto. }
  destruct (to_reserved _ _ Ht p role t Hp Htex) as [Hk|[? Hk]]; [|by rewrite Hr in Hk].
  rewrite bool_decide_true by done. cbn [debug_assert out_bind].
  pose proof (set_sum_remove key_bytes _ _ Hk) as Hsum. rewrite <-(to_bytes _ _ Ht) in Hsum.
  assert (cat (pu_hash p) role = Some t) as Hcat by (by apply (up_textures _ Hj)).
  assert (key_bytes (pu_hash p, role) = texture_byte_len t) as Hkb by (unfold key_bytes; cbn [fst snd]; by rewrite Hcat).
  rewrite Hkb in Hsum. cbn [create_texture gt_byte_len].
  rewrite (proj2 (checked_sub_Some _ _ (set_sum key_bytes (ra_pending_textures a ∖ {[(pu_hash p, role)]})))) by lia. cbn [expect out_bind].
  rewrite (proj2 (checked_add_Some u64_max _ _ (ra_resident_texture_bytes a + texture_byte_len t))) by lia. cbn [expect out_bind].
  rewrite (proj2 (checked_add_Some u64_max _ _ (n + texture_byte_len t))) by lia. cbn [expect out_bind].
  eexists _, _, _. split; [done|]. cbn [ra_resident_texture_bytes ra_pending_texture_bytes ra_resident_textures]. split_and!.
  - split; cbn [ra_pending_textures ra_pending_texture_bytes ra_resident_textures ra_resident_texture_bytes].
    + intros q role' t' Hq Ht'. destruct (decide ((pu_hash q, role') = (pu_hash p, role))) as [->|Hne].
      { right. rewrite lookup_insert_eq. eauto. }
      rewrite lookup_insert_ne by done. destruct (to_reserved _ _ Ht q role' t' Hq Ht'); [left|by right].
      apply elem_of_difference. split; [done|]. by rewrite elem_of_singleton.
    + intros k [Hk' Hne]%elem_of_difference. rewrite elem_of_singleton in Hne. rewrite lookup_insert_ne by done. by apply (to_backed _ _ Ht).
    + done.
    + intros k g. rewrite lookup_insert_Some. intros [[<- <-]|[_ Hl]]; [by exists t|by apply (to_uploaded _ _ Ht)].
    + rewrite map_sum_insert by done. rewrite (to_resident_bytes _ _ Ht). cbn. lia.
  - split; cbn; try done.
    + lia.
    + rewrite map_size_insert_None by done. pose proof (set_size_remove _ _ Hk). lia.
    + by apply insert_subseteq.
  - lia.
  - lia.
  - intros _. rewrite lookup_insert_eq. eauto.
Qed.

Lemma upload_roles_spec jobs p roles a flag n :
  textures_ok jobs a → p ∈ jobs → upload_ok (pu_job p) →
  ra_resident_texture_bytes a + ra_pending_texture_bytes a < u64_max → n ≤ ra_resident_texture_bytes a →
  ∃ a' flag' n', out_fold (upload_role (pu_job p)) (a, flag, n) roles = Ok (a', flag', n') ∧ textures_ok jobs a' ∧ textures_moved a a' ∧
    n' + ra_resident_texture_bytes a = n + ra_resident_texture_bytes a' ∧
    ∀ role, role ∈ roles → is_Some (uj_texture (pu_job p) role) → is_Some (ra_resident_textures a' !! (pu_hash p, role)).
Proof.
  revert a flag n. induction roles as [|role roles IH]; intros a flag n Ht Hp Hj Hb Hn; cbn [out_fold].
  { eexists _, _, _. split; [done|]. split_and!; [done|apply textures_moved_refl|lia|]. by intros ? ?%not_elem_of_nil. }
  destruct (upload_role_spec jobs p a flag n role Ht Hp Hj Hb Hn) as (a1 & f1 & n1 & -> & Ht1 & Hm1 & Hn1 & Hle1 & Hr1). cbn [out_bind].
  destruct (IH a1 f1 n1) as (a2 & f2 & n2 & -> & Ht2 & Hm2 & Hn2 & Hr2); try done.
  { rewrite (tm_bytes _ _ Hm1). done. }
  exists a2, f2, n2. split_and!; [done|done|by eapply textures_moved_trans|lia|].
  intros role' [->|Hin]%elem_of_cons Hs; [|by apply Hr2].
  destruct (Hr1 Hs) as [g Hg]. exists g. by eapply lookup_weaken; [|apply (tm_grows _ _ Hm2)].
Qed.

(** What processing uploads: the head of the queue, byte for byte. *)
Definition uploaded a p rest (o : option AssetUploadOutcome) a' : Prop :=
  let j := pu_job p in
  ra_pending a' = rest ∧
  ra_resident a' = <[uj_key j := mkGpuMesh (encode_vertices (uj_vertices j)) (N.of_nat (length (uj_vertices j))) (uj_material j) (job_bytes j)]>
    (ra_resident a) ∧
  (∀ role t, uj_texture j role = Some t → ra_resident_textures a' !! (job_hash j, role) = Some (create_texture t role)) ∧
  ∃ flag n, o = Some (mkUploadOutcome (uj_key j) (N.of_nat (length (uj_vertices j))) (job_bytes j) flag n) ∧
    n + ra_resident_texture_bytes a = ra_resident_texture_bytes a'.

Lemma assets_process_spec a :
  assets_ok a →
  ∃ o a', assets_process_next a = Ok (o, a') ∧ assets_ok a' ∧
    match ra_pending a with [] => o = None ∧ a' = a | p :: rest => uploaded a p rest o a' end.
Proof.
  intros Ha. unfold assets_process_next. destruct (ra_pending a) as [|p rest] eqn:Hp; [by eexists _, _|].
  assert (p ∈ ra_pending a) as Hin by (rewrite Hp; by left).
  pose proof (ao_jobs _ Ha p Hin) as Hj. pose proof (ao_vertices _ Ha p Hin) as Hv. pose proof (rc_vertices _ Hc) as Hvc.
  rewrite (queued_job_bytes a p Ha Hin).
  rewrite (proj2 (try_from_len_Some u32_max (length (uj_vertices (pu_job p))) (N.of_nat (length (uj_vertices (pu_job p)))))) by lia.
  cbn [expect out_bind]. pose proof (encode_vertices_length _ (up_vertices _ Hj)) as Hel.
  rewrite bool_decide_true.
  2: { apply try_from_len_Some. unfold job_bytes. rewrite Hel. unfold ASSET_VERTEX_BYTES, u64_max, u32_max in *. split; lia. }
  cbn [debug_assert out_bind].
  pose proof (ao_pending_bytes _ Ha) as Hpb. rewrite Hp in Hpb. cbn [sumN foldr] in Hpb. fold (sumN (λ p, job_bytes (pu_job p)) rest) in Hpb.
  set (a0 := mkRendererAssets rest _ _ _ _ _ _ _).
  pose proof (ao_textures_bound _ Ha) as Htb. pose proof (rc_resident_textures _ Hc) as Hrc.
  destruct (upload_roles_spec (p :: rest) p asset_roles a0 false 0) as (a1 & flag & n & -> & Ht1 & Hm1 & Hn1 & Hr1).
  { rewrite <-Hp. by destruct Ha. }
  { by left. }
  { done. }
  { cbn. lia. }
  { lia. }
  cbn [out_bind]. rewrite (tm_resident _ _ Hm1). cbn [a0 ra_resident]. change (uj_key (pu_job p)) with (pu_key p).
  rewrite (ao_fresh _ Ha p Hin). cbn [is_some negb debug_assert out_bind]. rewrite (tm_resident_bytes _ _ Hm1). cbn [a0 ra_resident_bytes].
  pose proof (ao_bytes_bound _ Ha) as Hbb. pose proof (rc_resident _ Hc).
  rewrite (proj2 (checked_add_Some u64_max _ _ (ra_resident_bytes a + job_bytes (pu_job p)))) by lia. cbn [expect out_bind].
  eexists _, _. split; [done|]. rewrite (tm_pending _ _ Hm1), (tm_pending_bytes _ _ Hm1). cbn [a0 ra_pending ra_pending_bytes].
  pose proof (ao_unique _ Ha) as Hu. rewrite Hp, fmap_cons in Hu. apply NoDup_cons in Hu as [Hnin Hu].
  assert (∀ q, q ∈ rest → q ∈ ra_pending a) as Hsub by (intros q Hq; rewrite Hp; by right).
  split.
  - split; cbn [ra_pending ra_pending_bytes ra_pending_textures ra_pending_texture_bytes ra_resident ra_resident_bytes
      ra_resident_textures ra_resident_texture_bytes].
    + done.
    + intros q Hq. rewrite lookup_insert_ne; [by apply (ao_fresh _ Ha), Hsub|].
      intros E. apply Hnin. rewrite E. apply list_elem_of_fmap. eauto.
    + intros q Hq. by apply (ao_jobs _ Ha), Hsub.
    + intros q Hq. by apply (ao_vertices _ Ha), Hsub.
    + lia.
    + pose proof (ao_pending_bound _ Ha). lia.
    + rewrite map_sum_insert by apply (ao_fresh _ Ha p Hin). cbn. rewrite (ao_resident_bytes _ Ha). lia.
    + lia.
    + rewrite map_size_insert_None by apply (ao_fresh _ Ha p Hin). pose proof (ao_meshes _ Ha) as Hm. rewrite Hp in Hm. cbn in Hm. lia.
    + pose proof (ao_capacity _ Ha) as Hm. rewrite Hp in Hm. cbn in Hm. lia.
    + intros q role t Hq. apply (to_reserved _ _ Ht1). by right.
    + intros k Hk. destruct (to_backed _ _ Ht1 k Hk) as (Hnone & q & t & Hq & Hh & Htex). split; [done|].
      apply elem_of_cons in Hq as [->|Hq]; [|by exists q, t]. exfalso.
      destruct k as [h r]. cbn [fst snd] in *.
      destruct (Hr1 r (elem_of_asset_roles _)) as [g Hg]; [eauto|]. by rewrite Hh, Hnone in Hg.
    + apply Ht1.
    + pose proof (tm_bytes _ _ Hm1) as Hb1. cbn in Hb1, Hn1. pose proof (ao_texture_bound _ Ha). lia.
    + apply (to_uploaded _ _ Ht1).
    + apply Ht1.
    + pose proof (tm_bytes _ _ Hm1) as Hb1. cbn in Hb1. lia.
    + pose proof (tm_size _ _ Hm1) as Hs1. cbn in Hs1. pose proof (ao_textures _ Ha). lia.
  - split_and!; [done|done| |].
    + cbn [ra_resident_textures]. intros role t Htex. destruct (Hr1 role (elem_of_asset_roles _)) as [g Hg]; [eauto|].
      change (job_hash (pu_job p)) with (pu_hash p). rewrite Hg. f_equal.
      destruct (to_uploaded _ _ Ht1 _ _ Hg) as (t' & Ht' & ->). apply (up_textures _ Hj) in Htex.
      change (job_hash (pu_job p)) with (pu_hash p) in Htex. cbn in Ht'. by simplify_eq.
    + exists flag, n. split; [done|]. cbn in *. lia.
Qed.

(** ** Eviction *)

Lemma reserved_texture_spec a k :
  assets_ok a → k ∈ ra_pending_textures a → ∃ t, reserved_texture a k = Some t ∧ key_bytes k = texture_byte_len t.
Proof.
  intros Ha Hk. destruct (ao_backed _ Ha k Hk) as (_ & p & t & Hp & Hh & Ht). unfold reserved_texture.
  destruct (omap _ _) as [|t' l] eqn:Hl.
  - exfalso. apply (not_elem_of_nil t). rewrite <-Hl. apply list_elem_of_omap. exists p. split; [|done]. by apply list_elem_of_filter.
  - exists t'. split; [done|]. assert (t' ∈ t' :: l) as Hin by (by left). rewrite <-Hl in Hin.
    apply list_elem_of_omap in Hin as (q & [Hqh Hq]%list_elem_of_filter & Hqt). apply (up_textures _ (ao_jobs _ Ha q Hq)) in Hqt.
    unfold key_bytes. change (job_hash (pu_job q)) with (pu_hash q) in Hqt. rewrite Hqh in Hqt. by rewrite Hqt.
Qed.

Lemma reserved_lengths a ks acc :
  assets_ok a → (∀ k, k ∈ ks → k ∈ ra_pending_textures a) →
  out_fold (λ lengths key, let! t := expect (reserved_texture a key) in Ok (E:=RendererError) (lengths ++ [texture_byte_len t])) acc ks
  = Ok (acc ++ (key_bytes <$> ks)).
Proof.
  intros Ha. revert acc. induction ks as [|k ks IH]; intros acc Hks; cbn [out_fold]; [by rewrite app_nil_r|].
  destruct (reserved_texture_spec a k Ha) as (t & -> & Hk); [apply Hks; by left|]. cbn [expect out_bind].
  rewrite IH by (intros k' Hk'; apply Hks; by right). rewrite <-app_assoc, fmap_cons, Hk. done.
Qed.

(** What eviction releases is exactly what it removes. *)
Record assets_evicted a (hash : ContentHash) (e : RendererAssetEviction) a' : Prop := {
  ev_hash : rv_content_hash e = hash;
  ev_pending : ra_pending a' = filter (λ p, pu_hash p ≠ hash) (ra_pending a);
  ev_resident : ra_resident a' = filter (λ x, mk_content_hash x.1 ≠ hash) (ra_resident a);
  ev_pending_textures : ra_pending_textures a' = filter (λ k, k.1 ≠ hash) (ra_pending_textures a);
  ev_resident_textures : ra_resident_textures a' = filter (λ x, x.1.1 ≠ hash) (ra_resident_textures a);
  ev_uploads : rv_removed_pending_uploads e + N.of_nat (length (ra_pending a')) = N.of_nat (length (ra_pending a));
  ev_pending_bytes : rv_released_pending_bytes e + ra_pending_bytes a' = ra_pending_bytes a;
  ev_meshes : rv_removed_resident_meshes e + N.of_nat (size (ra_resident a')) = N.of_nat (size (ra_resident a));
  ev_resident_bytes : rv_released_resident_bytes e + ra_resident_bytes a' = ra_resident_bytes a;
  ev_textures : rv_removed_pending_textures e + N.of_nat (size (ra_pending_textures a')) = N.of_nat (size (ra_pending_textures a));
  ev_texture_bytes : rv_released_pending_texture_bytes e + ra_pending_texture_bytes a' = ra_pending_texture_bytes a;
  ev_resident_texture_count :
    rv_removed_resident_textures e + N.of_nat (size (ra_resident_textures a')) = N.of_nat (size (ra_resident_textures a));
  ev_resident_texture_bytes : rv_released_resident_texture_bytes e + ra_resident_texture_bytes a' = ra_resident_texture_bytes a;
}.

(** Removing everything of one hash keeps the invariant. *)
Definition without_hash a (hash : ContentHash) : RendererAssets :=
  let pending := filter (λ p, pu_hash p ≠ hash) (ra_pending a) in
  let textures := filter (λ k, k.1 ≠ hash) (ra_pending_textures a) in
  let resident := filter (λ x, mk_content_hash x.1 ≠ hash) (ra_resident a) in
  let resident_textures := filter (λ x, x.1.1 ≠ hash) (ra_resident_textures a) in
  mkRendererAssets pending (sumN (λ p, job_bytes (pu_job p)) pending) textures (set_sum key_bytes textures) resident
    (map_sum gm_byte_len resident) resident_textures (map_sum gt_byte_len resident_textures).

Lemma without_hash_ok a hash :
  assets_ok a → ra_pending_bytes (without_hash a hash) ≤ ra_pending_bytes a →
  ra_resident_bytes (without_hash a hash) ≤ ra_resident_bytes a →
  ra_pending_texture_bytes (without_hash a hash) ≤ ra_pending_texture_bytes a →
  ra_resident_texture_bytes (without_hash a hash) ≤ ra_resident_texture_bytes a → assets_ok (without_hash a hash).
Proof.
  intros Ha H1 H2 H3 H4. pose proof (length_filter (λ p, pu_hash p ≠ hash) (ra_pending a)) as Hl.
  pose proof (map_size_filter (λ x : AssetMeshKey * GpuAssetMesh, mk_content_hash x.1 ≠ hash) (ra_resident a)) as Hm.
  pose proof (map_size_filter (λ x : AssetTextureKey * GpuAssetTexture, x.1.1 ≠ hash) (ra_resident_textures a)) as Hmt.
  pose proof (set_size_split (λ k : AssetTextureKey, k.1 = hash) (ra_pending_textures a)) as Hst.
  split; cbn [without_hash ra_pending ra_pending_bytes ra_pending_textures ra_pending_texture_bytes ra_resident ra_resident_bytes
    ra_resident_textures ra_resident_texture_bytes] in *.
  - apply NoDup_fmap_filter, Ha.
  - intros p [_ Hp]%list_elem_of_filter. apply map_lookup_filter_None. left. by apply (ao_fresh _ Ha).
  - intros p [_ Hp]%list_elem_of_filter. by apply (ao_jobs _ Ha).
  - intros p [_ Hp]%list_elem_of_filter. by apply (ao_vertices _ Ha).
  - done.
  - pose proof (ao_pending_bound _ Ha). lia.
  - done.
  - pose proof (ao_bytes_bound _ Ha). lia.
  - pose proof (ao_meshes _ Ha). lia.
  - pose proof (ao_capacity _ Ha). lia.
  - intros p role t [Hh Hp]%list_elem_of_filter Ht. destruct (ao_reserved _ Ha p role t Hp Ht) as [Hk|[g Hg]].
    + left. by apply elem_of_filter.
    + right. exists g. by apply map_lookup_filter_Some.
  - intros k [Hh Hk]%elem_of_filter. destruct (ao_backed _ Ha k Hk) as (Hn & p & t & Hp & Hph & Ht).
    split; [apply map_lookup_filter_None; by left|]. exists p, t. split_and!; try done. apply list_elem_of_filter. by rewrite Hph.
  - done.
  - pose proof (ao_texture_bound _ Ha). lia.
  - intros k g [Hg _]%map_lookup_filter_Some. by apply (ao_uploaded _ Ha).
  - done.
  - pose proof (ao_textures_bound _ Ha). lia.
  - pose proof (ao_textures _ Ha). lia.
Qed.

Lemma assets_evict_spec a hash :
  assets_ok a → ∃ e a', assets_evict a hash = Ok (e, a') ∧ assets_ok a' ∧ assets_evicted a hash e a'.
Proof.
  intros Ha. pose proof (rc_textures _ Hc). pose proof (rc_meshes _ Hc). pose proof (rc_capacity _ Hc). pose proof (rc_pending _ Hc).
  pose proof (rc_resident _ Hc). pose proof (rc_pending_textures _ Hc). pose proof (rc_resident_textures _ Hc).
  pose proof (ao_textures _ Ha). pose proof (ao_texture_bound _ Ha). pose proof (ao_textures_bound _ Ha). pose proof (ao_bytes_bound _ Ha).
  pose proof (ao_meshes _ Ha). pose proof (ao_capacity _ Ha). pose proof (ao_pending_bound _ Ha).
  pose proof (set_size_split (λ k : AssetTextureKey, k.1 = hash) (ra_pending_textures a)) as S1.
  remember (size (filter (λ k, ¬ k.1 = hash) (ra_pending_textures a))) as n1 eqn:E1 in S1.
  pose proof (set_sum_filter key_bytes (λ k : AssetTextureKey, k.1 = hash) (ra_pending_textures a)) as S2. rewrite <-(ao_texture_bytes _ Ha) in S2.
  remember (set_sum key_bytes (filter (λ k, ¬ k.1 = hash) (ra_pending_textures a))) as m2 eqn:E2 in S2.
  pose proof (sumN_filter (λ p, job_bytes (pu_job p)) (λ p, pu_hash p = hash) (ra_pending a)) as S3. rewrite <-(ao_pending_bytes _ Ha) in S3.
  remember (sumN (λ p, job_bytes (pu_job p)) (filter (λ p, ¬ pu_hash p = hash) (ra_pending a))) as m3 eqn:E3 in S3.
  pose proof (sumN_filter (λ _, 1) (λ p, pu_hash p = hash) (ra_pending a)) as S4. rewrite !sumN_const, !N.mul_1_l in S4.
  remember (length (filter (λ p, ¬ pu_hash p = hash) (ra_pending a))) as n4 eqn:E4 in S4.
  pose proof (map_size_split (λ x : AssetMeshKey * GpuAssetMesh, mk_content_hash x.1 = hash) (ra_resident a)) as S5.
  remember (size (filter (λ x, ¬ mk_content_hash x.1 = hash) (ra_resident a))) as n5 eqn:E5 in S5.
  pose proof (map_sum_filter gm_byte_len (λ x : AssetMeshKey * GpuAssetMesh, mk_content_hash x.1 = hash) (ra_resident a)) as S6.
  rewrite <-(ao_resident_bytes _ Ha) in S6.
  remember (map_sum gm_byte_len (filter (λ x, ¬ mk_content_hash x.1 = hash) (ra_resident a))) as m6 eqn:E6 in S6.
  pose proof (map_size_split (λ x : AssetTextureKey * GpuAssetTexture, x.1.1 = hash) (ra_resident_textures a)) as S7.
  remember (size (filter (λ x, ¬ x.1.1 = hash) (ra_resident_textures a))) as n7 eqn:E7 in S7.
  pose proof (map_sum_filter gt_byte_len (λ x : AssetTextureKey * GpuAssetTexture, x.1.1 = hash) (ra_resident_textures a)) as S8.
  rewrite <-(ao_resident_texture_bytes _ Ha) in S8.
  remember (map_sum gt_byte_len (filter (λ x, ¬ x.1.1 = hash) (ra_resident_textures a))) as m8 eqn:E8 in S8.
  unfold assets_evict. cbv zeta.
  rewrite (proj2 (try_from_len_Some u32_max _ (N.of_nat (length (filter (λ k : AssetTextureKey, k.1 = hash) (elements (ra_pending_textures a)))))))
    by lia. cbn [expect out_bind].
  rewrite reserved_lengths by (done || intros k [_ Hk%elem_of_elements]%list_elem_of_filter; done). cbn [out_bind app].
  rewrite checked_sum_exact by (rewrite sumN_id; lia). cbn [expect out_bind]. rewrite sumN_id.
  assert (sumN (λ p, job_byte_len (pu_job p)) (filter (λ p, pu_hash p = hash) (ra_pending a))
    = sumN (λ p, job_bytes (pu_job p)) (filter (λ p, pu_hash p = hash) (ra_pending a))) as Hjb.
  { apply sumN_ext. intros p [_ Hp]%list_elem_of_filter. by apply (queued_job_bytes a). }
  rewrite count_removed_exact; cbn [fst snd]; rewrite ?length_fmap, ?N.add_0_l, ?sumN_id; [|lia|lia].
  cbn [out_bind].
  rewrite (proj2 (checked_sub_Some _ _ m3)) by lia. cbn [expect out_bind].
  rewrite (proj2 (checked_sub_Some _ _ m2)) by lia. cbn [expect out_bind].
  rewrite count_removed_exact; cbn [fst snd]; rewrite ?length_fmap, ?N.add_0_l; [|lia|rewrite sumN_id; lia].
  cbn [out_bind]. rewrite sumN_id.
  rewrite (proj2 (checked_sub_Some _ _ m6)) by lia. cbn [expect out_bind].
  rewrite (proj2 (try_from_len_Some u32_max _ (N.of_nat (length (filter (λ x : AssetTextureKey * GpuAssetTexture, x.1.1 = hash)
    (map_to_list (ra_resident_textures a))))))) by lia. cbn [expect out_bind].
  rewrite checked_sum_exact by (rewrite sumN_id; lia). cbn [expect out_bind]. rewrite sumN_id.
  rewrite (proj2 (checked_sub_Some _ _ m8)) by lia. cbn [expect out_bind].
  eexists _, (without_hash a hash). split; [by subst|].
  split; [apply without_hash_ok; [done|cbn; rewrite <-?E2, <-?E3, <-?E6, <-?E8; lia..]|].
  split; cbn; rewrite <-?E1, <-?E2, <-?E3, <-?E4, <-?E5, <-?E6, <-?E7, <-?E8; try done; lia.
Qed.

End theorems.
