(* ===== verification/LocalAssets.v ===== *)
(** * The asset pipeline of the service

    The asset calls of [cogniform-engine/src/service.rs]: the store of decoded
    sources and the renderer's assets, driven together.  The second half proves
    that the two stay consistent whatever the order of the calls: the jobs and
    the device resources of a content hash are those of the record the store
    holds for it, every counter is exact and bounded, and no call panics. *)

From S2P Require Import Prelude Machine Ordering BTree Floats Values Components Messages Imagination WorldTypes Render World Codec Compilation Hash Compiler CompilerPatch CompilerReport Sha256 AssetTypes RenderScene Recovery Engine Query Gateway ScenePrepare Sums AssetStore RendererAssets.

Open Scope N_scope.

Record LocalAssets := mkLocalAssets {
  lx_store : AssetStore;
  lx_renderer : RendererAssets;
}.

(** The store and the renderer's assets of a new service. *)
Definition local_assets_new (config : AssetStoreConfig) : LocalAssets := mkLocalAssets (asset_store_new config) renderer_assets_new.

Inductive LocalAssetError : Type :=
| LaStore (error : AssetError)
| LaRenderer (error : RendererError).

(** Occupancy of the asset store and of the renderer's assets. *)
Record LocalAssetStatus := mkAssetStatus {
  la_store : AssetStoreStats;
  la_renderer : RendererAssetStats;
}.

Record LocalAssetEvictionOutcome := mkLocalEviction {
  le_content_hash : ContentHash;
  le_store : AssetStoreEviction;
  le_renderer : RendererAssetEviction;
}.

(** [LocalAssetEvictionOutcome::is_already_absent]. *)
Definition eviction_already_absent (e : LocalAssetEvictionOutcome) : bool :=
  store_already_absent (le_store e) && renderer_already_absent (le_renderer e).

(** [LocalService::enqueue_asset_upload], with the renderer's configuration. *)
Definition enqueue_asset_upload (c : RendererConfig) (key : AssetMeshKey) (now : N) (x : LocalAssets)
    : outcome LocalAssetError (AssetUploadAdmission * LocalAssets) :=
  let! job := map_err LaStore (upload_job (lx_store x) key) in
  let! (admission, renderer) := map_err LaRenderer (assets_enqueue (lx_renderer x) job c now) in
  Ok (admission, mkLocalAssets (lx_store x) renderer).

(** [LocalService::process_next_asset_upload]. *)
Definition process_next_asset_upload (x : LocalAssets) : outcome LocalAssetError (option AssetUploadOutcome * LocalAssets) :=
  let! (o, renderer) := map_err LaRenderer (assets_process_next (lx_renderer x)) in
  Ok (o, mkLocalAssets (lx_store x) renderer).

(** [LocalService::evict_asset]. *)
Definition evict_asset (hash : ContentHash) (x : LocalAssets) : outcome LocalAssetError (LocalAssetEvictionOutcome * LocalAssets) :=
  let! (renderer_eviction, renderer) := map_err LaRenderer (assets_evict (lx_renderer x) hash) in
  let! (store_eviction, store) := map_err LaStore (asset_evict (lx_store x) hash) in
  Ok (mkLocalEviction hash store_eviction renderer_eviction, mkLocalAssets store renderer).

(** [LocalService::asset_status]. *)
Definition asset_status (x : LocalAssets) (sampled_at : N) : outcome LocalAssetError LocalAssetStatus :=
  let! renderer := map_err LaRenderer (assets_stats (lx_renderer x) sampled_at) in
  Ok (mkAssetStatus (asset_store_stats (lx_store x) sampled_at) renderer).

(** The material of a resident mesh, as a frame resolves it. *)
Definition resolve_asset (x : LocalAssets) (component : AssetMeshComponent) : option AssetMaterial :=
  gm_material <$> assets_mesh (lx_renderer x) (mkMeshKey (am_content_hash component) (am_mesh_index component)).

Section operations.
Context `{Digest} `{GlbDecoder}.

(** [LocalService::enqueue_asset_source]. *)
Definition enqueue_asset_source (expected : ContentHash) (source : bytes) (now : N) (x : LocalAssets)
    : LocalAssets * outcome LocalAssetError AssetAdmission :=
  let '(store, r) := asset_enqueue (lx_store x) expected source now in
  (mkLocalAssets store (lx_renderer x), map_err LaStore r).

(** [LocalService::process_next_asset_import]. *)
Definition process_next_asset_import (x : LocalAssets) : outcome LocalAssetError (option AssetProcessOutcome * LocalAssets) :=
  let! (o, store) := map_err LaStore (asset_process_next (lx_store x)) in
  Ok (o, mkLocalAssets store (lx_renderer x)).

End operations.

(** ** The invariant *)

(** The textures the store holds for a hash. *)
Definition catalogue (s : AssetStore) (hash : ContentHash) (role : AssetTextureRole) : option AssetTexture :=
  stored ← as_records s !! hash;
  decoded ← sa_decoded stored;
  da_texture decoded role.

Definition typed_decoded (d : DecodedAsset) : Prop := Forall (λ m, Forall typed_vertex (dm_vertices m)) (da_meshes d).

(** The decoder returns vertices of the fixed shape. *)
Class GlbDecoderLaws `{GlbDecoder} : Prop :=
  decode_typed : ∀ source limits d, decode_glb source limits = inl d → typed_decoded d.

(** The mesh a job becomes on the device. *)
Definition mesh_of (j : AssetUploadJob) : GpuAssetMesh :=
  mkGpuMesh (encode_vertices (uj_vertices j)) (N.of_nat (length (uj_vertices j))) (uj_material j) (job_bytes j).

Section theorems.
Context `{Digest} `{GlbDecoderLaws}.
Context (c : RendererConfig) (Hc : assets_config_ok c).
Implicit Types (x : LocalAssets) (s : AssetStore) (a : RendererAssets) (hash : ContentHash).

Record local_assets_ok x : Prop := {
  lk_store : store_ok (lx_store x);
  lk_typed : ∀ hash stored d, as_records (lx_store x) !! hash = Some stored → sa_decoded stored = Some d → typed_decoded d;
  lk_renderer : assets_ok (catalogue (lx_store x)) c (lx_renderer x);
  lk_jobs : ∀ p, p ∈ ra_pending (lx_renderer x) → upload_job (lx_store x) (pu_key p) = Ok (pu_job p);
  lk_meshes : ∀ key m, ra_resident (lx_renderer x) !! key = Some m → ∃ j, upload_job (lx_store x) key = Ok j ∧ m = mesh_of j;
}.

Lemma local_assets_new_ok config : store_config_ok config → local_assets_ok (local_assets_new config).
Proof.
  intros Hs. split; cbn; try done.
  - by apply store_new_ok.
  - apply assets_new_ok.
  - by intros p ?%not_elem_of_nil.
Qed.

(** A hash that the renderer holds something of. *)
Definition hash_used a hash : Prop :=
  (∃ p, p ∈ ra_pending a ∧ pu_hash p = hash) ∨ ∃ role g, ra_resident_textures a !! (hash, role) = Some g.

(** The invariant looks at the catalogue only where it is used. *)
Lemma assets_ok_catalogue (cat cat' : ContentHash → AssetTextureRole → option AssetTexture) a :
  assets_ok cat c a → (∀ hash role t, hash_used a hash → cat hash role = Some t → cat' hash role = Some t) → assets_ok cat' c a.
Proof.
  intros Ha Hext. assert (∀ k, k ∈ ra_pending_textures a → key_bytes cat' k = key_bytes cat k) as Hk.
  { intros k Hk. destruct (ao_backed _ _ _ Ha k Hk) as (_ & p & t & Hp & Hh & Ht).
    apply (up_textures _ _ (ao_jobs _ _ _ Ha p Hp)) in Ht. change (job_hash (pu_job p)) with (pu_hash p) in Ht. rewrite Hh in Ht.
    unfold key_bytes. rewrite Ht, (Hext _ _ t); [done|left; eauto|done]. }
  destruct Ha. split; try done.
  - intros p Hp. destruct (ao_jobs p Hp) as [Hv Ht]. split; [done|]. intros role t Hr. apply Hext; [left; eauto|by apply Ht].
  - rewrite ao_texture_bytes. apply sumN_ext. intros k Hin%elem_of_elements. symmetry. by apply Hk.
  - intros k g Hg. destruct (ao_uploaded k g Hg) as (t & Ht & ->). exists t. split; [|done]. apply Hext; [right|done].
    destruct k. eauto.
Qed.

(** A job of the store carries typed vertices and textures of the catalogue. *)
Lemma upload_job_ok x key j : local_assets_ok x → upload_job (lx_store x) key = Ok j → uj_key j = key ∧ upload_ok (catalogue (lx_store x)) j.
Proof.
  intros Hx. unfold upload_job.
  intros (stored & Hr%ok_or_ok & (d & Hd%ok_or_ok & (mesh & Hm%ok_or_ok & Hj)%out_bind_ok)%out_bind_ok)%out_bind_ok.
  apply Ok_inj in Hj as <-. split; [done|]. split; cbn [uj_vertices uj_texture].
  - pose proof (lk_typed _ Hx _ _ _ Hr Hd) as Ht. unfold typed_decoded in Ht. rewrite Forall_lookup in Ht. by apply (Ht _ mesh Hm).
  - intros role t Hrole. unfold catalogue, job_hash. cbn [uj_key]. rewrite Hr. cbn [mbind option_bind]. rewrite Hd. cbn [mbind option_bind].
    by destruct (has_role _ _).
Qed.

Lemma upload_job_lookup s s' key :
  as_records s' !! mk_content_hash key = as_records s !! mk_content_hash key → upload_job s' key = upload_job s key.
Proof. intros E. unfold upload_job. by rewrite E. Qed.

Lemma upload_job_normal s key : normal (upload_job s key).
Proof. unfold upload_job. solve_normal. Qed.

(** Without a decoded record there is no job. *)
Lemma upload_job_record s key j :
  upload_job s key = Ok j → ∃ stored d, as_records s !! mk_content_hash key = Some stored ∧ sa_decoded stored = Some d.
Proof.
  unfold upload_job. intros (stored & Hr%ok_or_ok & (d & Hd%ok_or_ok & _)%out_bind_ok)%out_bind_ok. eauto.
Qed.

(** The store moves, and keeps every decoded record. *)
Lemma store_moves x s' :
  local_assets_ok x → store_ok s' →
  (∀ hash stored d, as_records s' !! hash = Some stored → sa_decoded stored = Some d → typed_decoded d) →
  (∀ hash stored d, as_records (lx_store x) !! hash = Some stored → sa_decoded stored = Some d → as_records s' !! hash = Some stored) →
  local_assets_ok (mkLocalAssets s' (lx_renderer x)).
Proof.
  intros Hx Hs Ht Hkeep. assert (∀ key j, upload_job (lx_store x) key = Ok j → upload_job s' key = Ok j) as Hjob.
  { intros key j Hj. destruct (upload_job_record _ _ _ Hj) as (stored & d & Hr & Hd). rewrite <-Hj. apply upload_job_lookup.
    by rewrite Hr, (Hkeep _ _ _ Hr Hd). }
  split; cbn [lx_store lx_renderer]; try done.
  - eapply assets_ok_catalogue; [apply (lk_renderer _ Hx)|]. intros hash role t _. unfold catalogue.
    destruct (as_records (lx_store x) !! hash) as [stored|] eqn:Hr; [|done]. cbn [mbind option_bind].
    destruct (sa_decoded stored) as [d|] eqn:Hd; [|done]. intros Htex. rewrite (Hkeep _ _ _ Hr Hd). cbn. by rewrite Hd.
  - intros p Hp. apply Hjob, (lk_jobs _ Hx p Hp).
  - intros key m Hm. destruct (lk_meshes _ Hx key m Hm) as (j & Hj & ->). eauto.
Qed.

(** ** The calls *)

Lemma enqueue_records s expected source now :
  let s' := (asset_enqueue s expected source now).1 in
  as_records s' = as_records s ∨
  ∃ stored, as_records s !! expected = None ∧ sa_decoded stored = None ∧ as_records s' = <[expected := stored]> (as_records s).
Proof.
  cbv zeta. unfold asset_enqueue. cbv zeta. destruct (_ <? len_or_max _ _); [by left|]. case_bool_decide; cbn [negb]; [|by left].
  destruct (as_records s !! expected) eqn:Hr; [by left|]. do 2 (destruct (_ <=? _); [by left|]). destruct (_ <? _); [by left|].
  right. by exists (mkStoredAsset (mkAssetRecord expected AsQueued (len_or_max u64_max (length source)) 0 0 []) None).
Qed.

Lemma enqueue_source_ok x expected source now :
  local_assets_ok x → local_assets_ok (enqueue_asset_source expected source now x).1.
Proof.
  intros Hx. unfold enqueue_asset_source. pose proof (enqueue_ok (lx_store x) expected source now (lk_store _ Hx)) as Hs.
  pose proof (enqueue_records (lx_store x) expected source now) as Hr. destruct (asset_enqueue _ _ _ _) as [s r]. cbn [fst] in *.
  apply store_moves; [done|done|..].
  - intros hash stored d. destruct Hr as [->|(new & _ & Hn & ->)]; [apply (lk_typed _ Hx)|].
    rewrite lookup_insert_Some. intros [[_ <-]|[_ Hl]]; [by rewrite Hn|by apply (lk_typed _ Hx hash stored)].
  - intros hash stored d Hl _. destruct Hr as [->|(new & Hn & _ & ->)]; [done|]. rewrite lookup_insert_ne; [done|]. by intros ->; rewrite Hn in Hl.
Qed.

Definition vertex_shape (v : AssetVertex) : bool :=
  bool_decide (length (vx_position v) = 3 ∧ length (vx_normal v) = 3 ∧ length (vx_tangent v) = 4 ∧
    length (vx_texcoord_0 v) = 2 ∧ length (vx_color_0 v) = 4 ∧ length (vx_texcoord_1 v) = 2)%nat.

Lemma proxy_typed d : proxy_asset = Some d → typed_decoded d.
Proof.
  assert (match proxy_asset with Some d => forallb (λ m, forallb vertex_shape (dm_vertices m)) (da_meshes d) | None => false end = true)
    as Hp by (vm_compute; reflexivity).
  intros E. rewrite E in Hp. apply Forall_forall. intros m Hm%list_elem_of_In. apply Forall_forall. intros v Hv%list_elem_of_In.
  rewrite forallb_forall in Hp. specialize (Hp m Hm). rewrite forallb_forall in Hp. specialize (Hp v Hv).
  by apply bool_decide_eq_true in Hp.
Qed.

Lemma process_import_ok x :
  local_assets_ok x → ∃ o x', process_next_asset_import x = Ok (o, x') ∧ local_assets_ok x' ∧ lx_renderer x' = lx_renderer x ∧
    match as_pending (lx_store x) with
    | [] => o = None ∧ x' = x
    | p :: rest => import_processed (lx_store x) p rest o (lx_store x')
    end.
Proof.
  intros Hx. unfold process_next_asset_import. pose proof (lk_store _ Hx) as Hso.
  destruct (process_next_spec (lx_store x) Hso) as (o & s' & -> & Hs & Hp). cbn [map_err out_bind].
  eexists o, _. split; [done|]. split; [|split; [done|]].
  2: { destruct (as_pending (lx_store x)); [|done]. destruct Hp as [-> ->]. by destruct x. }
  destruct (as_pending (lx_store x)) as [|p rest] eqn:Hpend; [destruct Hp as [_ ->]; by destruct x|].
  destruct Hp as (stored & Hr & _ & _ & _ & _ & Hd).
  assert (∃ old, as_records (lx_store x) !! pi_content_hash p = Some old ∧ sa_decoded old = None) as (old & Hold & Hnone).
  { destruct (proj1 (so_queued _ Hso (pi_content_hash p))) as (old & Hold & Hst).
    { unfold queued_hashes. rewrite Hpend. by left. }
    exists old. split; [done|]. destruct (so_records _ Hso _ _ Hold) as [_ Hshape]. rewrite Hst in Hshape. by destruct (sa_decoded old). }
  apply store_moves; [done|done|..]; rewrite Hr.
  - intros hash st d. rewrite lookup_insert_Some. intros [[_ <-]|[_ Hl]]; [|by apply (lk_typed _ Hx hash st)].
    intros [Hdec|Hproxy]%Hd; [by eapply decode_typed|by apply proxy_typed].
  - intros hash st d Hl Hdec. rewrite lookup_insert_ne; [done|]. intros <-. rewrite Hold in Hl. by simplify_eq.
Qed.

Lemma enqueue_upload_ok x key now :
  local_assets_ok x →
  match enqueue_asset_upload c key now x with
  | Ok (admission, x') => local_assets_ok x' ∧ lx_store x' = lx_store x ∧
      ∃ j, upload_job (lx_store x) key = Ok j ∧ admitted_upload (lx_renderer x) j now admission (lx_renderer x')
  | Err _ => True
  | Panic | OutOfFuel => False
  end.
Proof.
  intros Hx. unfold enqueue_asset_upload. destruct (upload_job (lx_store x) key) as [j|e| |] eqn:Hj; cbn [map_err out_bind]; [|done| |].
  2,3: pose proof (upload_job_normal (lx_store x) key) as Hn; by rewrite Hj in Hn.
  destruct (upload_job_ok x key j Hx Hj) as [Hk Hjok].
  pose proof (assets_enqueue_spec _ c Hc (lx_renderer x) j now (lk_renderer _ Hx) Hjok) as Hs.
  destruct (assets_enqueue _ _ _ _) as [[admission a']| | |]; cbn [map_err out_bind]; [|done..]. destruct Hs as [Ha Had].
  split; [|split; [done|by exists j]]. destruct admission as [k|k|k].
  - destruct Had as (_ & Hp & Hr & _). split; cbn [lx_store lx_renderer]; [apply Hx|apply (lk_typed _ Hx)|done| |rewrite Hr; apply (lk_meshes _ Hx)].
    intros p. rewrite Hp, elem_of_app, list_elem_of_singleton. intros [Hin| ->]; [by apply (lk_jobs _ Hx)|].
    change (pu_key (mkPendingUpload j now)) with (uj_key j). by rewrite Hk.
  - destruct Had as (_ & -> & _). by destruct x.
  - destruct Had as (_ & -> & _). by destruct x.
Qed.

Lemma process_upload_ok x :
  local_assets_ok x → ∃ o x', process_next_asset_upload x = Ok (o, x') ∧ local_assets_ok x' ∧ lx_store x' = lx_store x ∧
    match ra_pending (lx_renderer x) with
    | [] => o = None ∧ x' = x
    | p :: rest => uploaded (lx_renderer x) p rest o (lx_renderer x')
    end.
Proof.
  intros Hx. unfold process_next_asset_upload.
  destruct (assets_process_spec _ c Hc (lx_renderer x) (lk_renderer _ Hx)) as (o & a' & -> & Ha & Hp). cbn [map_err out_bind].
  eexists o, _. split; [done|]. split; [|split; [done|]].
  2: { destruct (ra_pending (lx_renderer x)); [|done]. destruct Hp as [-> ->]. by destruct x. }
  destruct (ra_pending (lx_renderer x)) as [|p rest] eqn:Hpend; [destruct Hp as [_ ->]; by destruct x|].
  destruct Hp as (Hrest & Hres & _ & _). split; cbn [lx_store lx_renderer]; [apply Hx|apply (lk_typed _ Hx)|done|..].
  - intros q Hq. rewrite Hrest in Hq. apply (lk_jobs _ Hx). rewrite Hpend. by right.
  - intros key m. rewrite Hres, lookup_insert_Some. intros [[<- <-]|[_ Hl]]; [|by apply (lk_meshes _ Hx)].
    exists (pu_job p). split; [|done]. apply (lk_jobs _ Hx). rewrite Hpend. by left.
Qed.

(** Nothing of the hash is left, and nothing else has changed. *)
Lemma evict_asset_ok x hash :
  local_assets_ok x → ∃ e x', evict_asset hash x = Ok (e, x') ∧ local_assets_ok x' ∧ le_content_hash e = hash ∧
    evicted (lx_store x) hash (le_store e) (lx_store x') ∧ assets_evicted (lx_renderer x) hash (le_renderer e) (lx_renderer x').
Proof.
  intros Hx. unfold evict_asset.
  destruct (assets_evict_spec _ c Hc (lx_renderer x) hash (lk_renderer _ Hx)) as (er & a' & -> & Ha & Her). cbn [map_err out_bind].
  destruct (evict_spec (lx_store x) hash (lk_store _ Hx)) as (es & s' & -> & Hs & Hes). cbn [map_err out_bind].
  eexists _, _. split; [done|]. split; [|done]. pose proof Hes as (_ & Hr & _).
  assert (∀ key, mk_content_hash key ≠ hash → upload_job s' key = upload_job (lx_store x) key) as Hjob.
  { intros key Hk. apply upload_job_lookup. by rewrite Hr, lookup_delete_ne. }
  split; cbn [lx_store lx_renderer].
  - done.
  - intros h stored d. rewrite Hr, lookup_delete_Some. intros [_ Hl]. by apply (lk_typed _ Hx h stored).
  - eapply assets_ok_catalogue; [exact Ha|]. intros h role t Hu.
    assert (h ≠ hash) as Hne.
    { destruct Hu as [(p & Hp & <-)|(role' & g & Hg)].
      - rewrite (ev_pending _ _ _ _ Her) in Hp. by apply list_elem_of_filter in Hp as [? _].
      - rewrite (ev_resident_textures _ _ _ _ Her) in Hg. by apply map_lookup_filter_Some in Hg as [_ ?]. }
    unfold catalogue. by rewrite Hr, lookup_delete_ne.
  - intros p. rewrite (ev_pending _ _ _ _ Her). intros [Hh Hp]%list_elem_of_filter. rewrite Hjob by exact Hh. by apply (lk_jobs _ Hx).
  - intros key m. rewrite (ev_resident _ _ _ _ Her). intros [Hm Hh]%map_lookup_filter_Some. rewrite Hjob by exact Hh. by apply (lk_meshes _ Hx).
Qed.

Lemma asset_status_ok x now :
  local_assets_ok x → asset_status x now = Ok (mkAssetStatus (asset_store_stats (lx_store x) now)
    (mkRendererAssetStats (len_or_max u32_max (length (ra_pending (lx_renderer x))))
        (elapsed_micros now <$> iter_min (pu_queued_at <$> ra_pending (lx_renderer x))) (ra_pending_bytes (lx_renderer x))
        (len_or_max u32_max (size (ra_resident (lx_renderer x)))) (ra_resident_bytes (lx_renderer x))
        (len_or_max u32_max (size (ra_pending_textures (lx_renderer x)))) (ra_pending_texture_bytes (lx_renderer x))
        (len_or_max u32_max (size (ra_resident_textures (lx_renderer x)))) (ra_resident_texture_bytes (lx_renderer x)))).
Proof.
  intros Hx. unfold asset_status, assets_stats. pose proof (lk_renderer _ Hx) as Ha.
  pose proof (ao_resident_bytes _ _ _ Ha) as Hb. pose proof (ao_resident_texture_bytes _ _ _ Ha) as Ht.
  pose proof (ao_bytes_bound _ _ _ Ha). pose proof (ao_textures_bound _ _ _ Ha). pose proof (rc_resident _ Hc). pose proof (rc_resident_textures _ Hc).
  rewrite map_sum_list in Hb. rewrite map_sum_list in Ht.
  rewrite !checked_sum_exact by (rewrite sumN_id; lia). rewrite !sumN_id, <-Hb, <-Ht. by rewrite !bool_decide_true by done.
Qed.

(** ** Every order of calls *)

Inductive pipeline_runs (config : AssetStoreConfig) : LocalAssets → Prop :=
| pr_new : pipeline_runs config (local_assets_new config)
| pr_source x expected source now : pipeline_runs config x → pipeline_runs config (enqueue_asset_source expected source now x).1
| pr_import x o x' : pipeline_runs config x → process_next_asset_import x = Ok (o, x') → pipeline_runs config x'
| pr_upload x key now admission x' : pipeline_runs config x → enqueue_asset_upload c key now x = Ok (admission, x') → pipeline_runs config x'
| pr_process x o x' : pipeline_runs config x → process_next_asset_upload x = Ok (o, x') → pipeline_runs config x'
| pr_evict x hash e x' : pipeline_runs config x → evict_asset hash x = Ok (e, x') → pipeline_runs config x'.

Lemma pipeline_runs_ok config x : store_config_ok config → pipeline_runs config x → local_assets_ok x.
Proof.
  intros Hs. induction 1 as [|x expected source now _ IH|x o x' _ IH E|x key now admission x' _ IH E|x o x' _ IH E|x hash e x' _ IH E].
  - by apply local_assets_new_ok.
  - by apply enqueue_source_ok.
  - destruct (process_import_ok x IH) as (o1 & x1 & E1 & Hok & _). rewrite E1 in E. by simplify_eq.
  - pose proof (enqueue_upload_ok x key now IH) as Hu. rewrite E in Hu. apply Hu.
  - destruct (process_upload_ok x IH) as (o1 & x1 & E1 & Hok & _). rewrite E1 in E. by simplify_eq.
  - destruct (evict_asset_ok x hash IH) as (e1 & x1 & E1 & Hok & _). rewrite E1 in E. by simplify_eq.
Qed.


(** C37. The counters of the pipeline are exact and bounded in every reachable
    state: queued source bytes, decoded bytes, queued and resident vertex bytes,
    reserved and resident texture bytes are the sums over what is held, all
    within their configured limits, resident and reserved counted together. *)
Theorem asset_accounting config x :
  store_config_ok config → pipeline_runs config x →
  let s := lx_store x in
  let a := lx_renderer x in
  let limits := asc_limits (as_config s) in
  as_pending_source_bytes s = sumN source_len (as_pending s) ∧ as_pending_source_bytes s ≤ al_max_pending_source_bytes limits ∧
  as_resident_cpu_bytes s = map_sum stored_bytes (as_records s) ∧ as_resident_cpu_bytes s ≤ al_max_resident_cpu_bytes limits ∧
  N.of_nat (size (as_records s)) ≤ al_max_assets limits ∧ N.of_nat (length (as_pending s)) ≤ al_max_pending_imports limits ∧
  ra_pending_bytes a = sumN (λ p, job_bytes (pu_job p)) (ra_pending a) ∧ ra_resident_bytes a = map_sum gm_byte_len (ra_resident a) ∧
  ra_resident_bytes a + ra_pending_bytes a ≤ rcf_max_resident_asset_bytes c ∧
  N.of_nat (size (ra_resident a)) + N.of_nat (length (ra_pending a)) ≤ rcf_max_resident_asset_meshes c ∧
  ra_pending_texture_bytes a = set_sum (key_bytes (catalogue s)) (ra_pending_textures a) ∧
  ra_resident_texture_bytes a = map_sum gt_byte_len (ra_resident_textures a) ∧
  ra_resident_texture_bytes a + ra_pending_texture_bytes a ≤ rcf_max_resident_asset_texture_bytes c ∧
  N.of_nat (size (ra_resident_textures a)) + N.of_nat (size (ra_pending_textures a)) ≤ rcf_max_resident_asset_textures c.
Proof.
  intros Hs Hr. pose proof (pipeline_runs_ok config x Hs Hr) as [Hstore _ Ha _ _]. cbv zeta.
  split_and!; first [apply Hstore|apply Ha].
Qed.

(** Evicting what is absent changes nothing and says so. *)
Lemma assets_evict_absent cat a hash :
  assets_ok cat c a → (∀ p, p ∈ ra_pending a → pu_hash p ≠ hash) →
  (∀ key m, ra_resident a !! key = Some m → mk_content_hash key ≠ hash) →
  (∀ k g, ra_resident_textures a !! k = Some g → k.1 ≠ hash) →
  ∃ e, assets_evict a hash = Ok (e, a) ∧ renderer_already_absent e = true.
Proof.
  intros Ha Hp Hr Ht. destruct (assets_evict_spec cat c Hc a hash Ha) as (e & a' & E & Ha' & Hev).
  pose proof (ev_pending _ _ _ _ Hev) as H1'. rewrite (filter_kept (λ p, pu_hash p ≠ hash)) in H1' by done.
  pose proof (ev_resident _ _ _ _ Hev) as H2'. rewrite map_filter_id in H2' by (intros key m Hm; by eapply Hr).
  pose proof (ev_resident_textures _ _ _ _ Hev) as H3'. rewrite map_filter_id in H3' by (intros k g Hg; by eapply Ht).
  assert (ra_pending_textures a' = ra_pending_textures a) as H4'.
  { rewrite (ev_pending_textures _ _ _ _ Hev). apply set_eq. intros k. rewrite elem_of_filter. split; [by intros [_ ?]|].
    intros Hk. split; [|done]. destruct (ao_backed _ _ _ Ha k Hk) as (_ & p & _ & Hin & <- & _). by apply Hp. }
  pose proof (ao_pending_bytes _ _ _ Ha') as B1. pose proof (ao_resident_bytes _ _ _ Ha') as B2. pose proof (ao_texture_bytes _ _ _ Ha') as B3.
  pose proof (ao_resident_texture_bytes _ _ _ Ha') as B4. rewrite H1', <-(ao_pending_bytes _ _ _ Ha) in B1. rewrite H2', <-(ao_resident_bytes _ _ _ Ha) in B2.
  rewrite H4', <-(ao_texture_bytes _ _ _ Ha) in B3. rewrite H3', <-(ao_resident_texture_bytes _ _ _ Ha) in B4.
  exists e. assert (a' = a) as Heq by (destruct a', a; cbn in *; congruence). split; [by rewrite E, Heq|].
  destruct Hev as [_ _ _ _ _ Z1 Z2 Z3 Z4 Z5 Z6 Z7 Z8]. rewrite Heq in *. unfold renderer_already_absent.
  rewrite !andb_true_iff, !N.eqb_eq. lia.
Qed.

(** C39. Eviction is exact: nothing of the content hash is left in the store, in
    the upload queue or on the device, everything else is as before, every
    reported byte total, import, upload and resident count is the difference it
    made, the reported meshes and textures are those of the decoded value it
    removed (none when there was none), and a second eviction of the hash
    changes nothing and reports the hash already absent. *)
Theorem evict_asset_exact config x hash :
  store_config_ok config → pipeline_runs config x →
  ∃ e x', evict_asset hash x = Ok (e, x') ∧ le_content_hash e = hash ∧
    evicted (lx_store x) hash (le_store e) (lx_store x') ∧ assets_evicted (lx_renderer x) hash (le_renderer e) (lx_renderer x') ∧
    ∃ e2, evict_asset hash x' = Ok (e2, x') ∧ eviction_already_absent e2 = true.
Proof.
  intros Hs Hr. pose proof (pipeline_runs_ok config x Hs Hr) as Hx.
  destruct (evict_asset_ok x hash Hx) as (e & x' & E & Hx' & Hh & Hst & Hev). exists e, x'. split_and!; try done.
  destruct (assets_evict_absent (catalogue (lx_store x')) (lx_renderer x') hash (lk_renderer _ Hx')) as (er & Er & Hz).
  - intros p. rewrite (ev_pending _ _ _ _ Hev). by intros [? _]%list_elem_of_filter.
  - intros key m. rewrite (ev_resident _ _ _ _ Hev). by intros [_ ?]%map_lookup_filter_Some.
  - intros k g. rewrite (ev_resident_textures _ _ _ _ Hev). by intros [_ ?]%map_lookup_filter_Some.
  - unfold evict_asset. rewrite Er. cbn [map_err out_bind].
    rewrite asset_evict_absent; [|apply Hx'|]; [|destruct Hst as (_ & -> & _); apply lookup_delete_eq]. cbn [map_err out_bind].
    eexists. split; [by destruct x'|]. by unfold eviction_already_absent.
Qed.

(** ** Imports are settled *)

(** Decoding the queued sources, one call after another. *)
Fixpoint import_all (n : nat) x : outcome LocalAssetError LocalAssets :=
  match n with
  | O => Ok x
  | S n => let! (_, x) := process_next_asset_import x in import_all n x
  end.

Lemma import_all_spec queue x :
  local_assets_ok x → queue = as_pending (lx_store x) →
  ∃ x', import_all (length queue) x = Ok x' ∧ as_pending (lx_store x') = [] ∧ lx_renderer x' = lx_renderer x ∧
    (∀ hash, hash ∉ pi_content_hash <$> queue → as_records (lx_store x') !! hash = as_records (lx_store x) !! hash) ∧
    ∀ p, p ∈ queue → ∃ stored, as_records (lx_store x') !! pi_content_hash p = Some stored ∧ ar_state (sa_record stored) ≠ AsQueued ∧
      ∀ d, sa_decoded stored = Some d → decode_glb (pi_source p) (asc_limits (as_config (lx_store x))) = inl d ∨ proxy_asset = Some d.
Proof.
  revert x. induction queue as [|p rest IH]; intros x Hx Hq; cbn [length import_all].
  { exists x. split_and!; try done. by intros p ?%not_elem_of_nil. }
  destruct (process_import_ok x Hx) as (o & x1 & -> & Hx1 & Hren & Hp). cbn [out_bind]. rewrite <-Hq in Hp.
  destruct Hp as (stored & Hrec & Hpend & Hcfg & Hst & _ & Hd).
  destruct (IH x1 Hx1 (eq_sym Hpend)) as (x' & Hall & Hempty & Hren' & Hother & Hset).
  exists x'. rewrite Hall. rewrite Hcfg in Hset. split_and!; [done|done|congruence|..].
  - intros hash. rewrite fmap_cons, not_elem_of_cons. intros [Hne Hnin]. rewrite Hother by done. by rewrite Hrec, lookup_insert_ne.
  - pose proof (so_unique _ (lk_store _ Hx)) as Hu. unfold queued_hashes in Hu. rewrite <-Hq, fmap_cons in Hu. apply NoDup_cons in Hu as [Hnin _].
    intros q [->|Hin]%elem_of_cons; [|by apply Hset]. exists stored. split_and!; [|done|done].
    rewrite Hother by done. by rewrite Hrec, lookup_insert_eq.
Qed.


End theorems.

(** * A sample asset

    A decoder that reads any source as one textured triangle, and the states of
    the pipeline as the source is queued, decoded, uploaded and evicted.  Each
    theorem about the pipeline is applied to one of these states. *)

#[local] Existing Instance sha256_instance.

(** ** The decoder *)

Definition sample_vertex (x y : f32) : AssetVertex :=
  mkAssetVertex [x; y; f32_zero] [f32_zero; f32_zero; f32_one] [f32_one; f32_zero; f32_zero; f32_one] [x; y]
    [f32_one; f32_one; f32_one; f32_one] [f32_zero; f32_zero].

Definition sample_asset_material : AssetMaterial :=
  set_role_texture (role_index RoleBaseColor) LINEAR_REPEAT texture_transform_identity 0
    (asset_material_new (mkColorRgba f32_one f32_one f32_one f32_one) f32_zero f32_one).

Definition sample_texture : AssetTexture := mkTexture 1 1 [xff; xff; xff; xff].

Definition sample_decoded : DecodedAsset :=
  mkDecodedAsset
    [mkDecodedMesh [sample_vertex f32_zero f32_zero; sample_vertex f32_one f32_zero; sample_vertex f32_zero f32_one] sample_asset_material]
    (λ role, match role with RoleBaseColor => Some sample_texture | _ => None end) (3 * ASSET_VERTEX_BYTES + 4).

(** An empty source is refused. *)
Definition sample_decoder : GlbDecoder := λ source _,
  match source with [] => inr (mkDiagnostic AdInvalidLength "glb" None) | _ => inl sample_decoded end.
#[local] Existing Instance sample_decoder.

Lemma sample_decoder_laws : GlbDecoderLaws.
Proof.
  intros source limits d. unfold decode_glb, sample_decoder. destruct source; [done|]. intros [= <-].
  repeat constructor.
Qed.
#[local] Existing Instance sample_decoder_laws.

(** ** The pipeline *)

Definition sample_renderer_config : RendererConfig := renderer_config_new 64 64.
Definition sample_source : bytes := [x67; x6c; x54; x46].
Definition sample_hash : ContentHash := sha256 sample_source.
Definition sample_key : AssetMeshKey := mkMeshKey sample_hash 0.

Lemma sample_assets_config : assets_config_ok sample_renderer_config.
Proof. split; vm_compute; done. Qed.

Lemma sample_store_config : store_config_ok asset_store_config_default.
Proof. split; vm_compute; done. Qed.

Definition assets0 : LocalAssets := local_assets_new asset_store_config_default.
Definition assets1 : LocalAssets := (enqueue_asset_source sample_hash sample_source 3 assets0).1.
Definition assets2 : LocalAssets := match process_next_asset_import assets1 with Ok (_, x) => x | _ => assets1 end.
Definition assets3 : LocalAssets :=
  match enqueue_asset_upload sample_renderer_config sample_key 4 assets2 with Ok (_, x) => x | _ => assets2 end.
Definition assets4 : LocalAssets := match process_next_asset_upload assets3 with Ok (_, x) => x | _ => assets3 end.

Lemma assets1_runs : pipeline_runs sample_renderer_config asset_store_config_default assets1.
Proof. apply pr_source, pr_new. Qed.

Lemma assets2_runs : pipeline_runs sample_renderer_config asset_store_config_default assets2.
Proof.
  assert (is_ok (process_next_asset_import assets1) = true) as Hok by (vm_compute; reflexivity). unfold assets2.
  destruct (process_next_asset_import assets1) as [[o x]| | |] eqn:E; try discriminate Hok. exact (pr_import _ _ _ _ _ assets1_runs E).
Qed.

Lemma assets3_runs : pipeline_runs sample_renderer_config asset_store_config_default assets3.
Proof.
  assert (is_ok (enqueue_asset_upload sample_renderer_config sample_key 4 assets2) = true) as Hok by (vm_compute; reflexivity). unfold assets3.
  destruct (enqueue_asset_upload _ _ _ _) as [[o x]| | |] eqn:E; try discriminate Hok. exact (pr_upload _ _ _ _ _ _ _ assets2_runs E).
Qed.

Lemma assets4_runs : pipeline_runs sample_renderer_config asset_store_config_default assets4.
Proof.
  assert (is_ok (process_next_asset_upload assets3) = true) as Hok by (vm_compute; reflexivity). unfold assets4.
  destruct (process_next_asset_upload assets3) as [[o x]| | |] eqn:E; try discriminate Hok. exact (pr_process _ _ _ _ _ assets3_runs E).
Qed.

(** ** Witnesses *)


(** Queued work counts: the bytes of the three vertices and of the texture. *)
Lemma asset_accounting_witness :
  ra_pending_bytes (lx_renderer assets3) = sumN (λ p, job_bytes (pu_job p)) (ra_pending (lx_renderer assets3)) ∧
  ra_pending_bytes (lx_renderer assets3) = 3 * ASSET_VERTEX_BYTES ∧ ra_pending_texture_bytes (lx_renderer assets3) = 4.
Proof.
  destruct (asset_accounting sample_renderer_config sample_assets_config asset_store_config_default assets3
    sample_store_config assets3_runs) as (_ & _ & _ & _ & _ & _ & Hb & _).
  split; [exact Hb|]. vm_compute. split; reflexivity.
Defined.

Lemma evict_asset_exact_witness :
  ∃ e x', evict_asset sample_hash assets4 = Ok (e, x') ∧ rv_removed_resident_meshes (le_renderer e) = 1 ∧
    ∃ e2, evict_asset sample_hash x' = Ok (e2, x') ∧ eviction_already_absent e2 = true.
Proof.
  destruct (evict_asset_exact sample_renderer_config sample_assets_config asset_store_config_default assets4 sample_hash
    sample_store_config assets4_runs) as (e & x' & E & _ & _ & _ & Hagain). exists e, x'. split; [exact E|]. split; [|exact Hagain].
  assert ((match evict_asset sample_hash assets4 with Ok (e, _) => rv_removed_resident_meshes (le_renderer e) | _ => 0 end) = 1) as Hv
    by (vm_compute; reflexivity).
  rewrite E in Hv. exact Hv.
Defined.

