(* ===== verification/Glb.v ===== *)
(** * GLB containers and accessors

    The container and the binary accessors of cogniform-assets/src/glb.rs: the
    two chunks of a source, and the layout of an accessor with the reads of its
    components.  A container splits into the chunks it was made of and nothing
    else, and every read of an accessor whose layout was accepted stays inside
    the buffer view the accessor names. *)

From S2P Require Import Prelude Machine Ordering Floats Values Components Messages Imagination Codec Compilation Hash Compiler World AssetTypes RenderScene Recovery Engine Frame ScenePrepare Sums AssetStore.

Open Scope N_scope.

(** ** Bytes *)

(** [bytes.get(start..end)]. *)
Definition get_range (b : bytes) (first last : N) : option bytes :=
  if (first <=? last) && (last <=? N.of_nat (length b)) then Some (take (N.to_nat (last - first)) (drop (N.to_nat first) b)) else None.

(** A [usize] is 64 bits wide. *)
Abbreviation usize_add := (checked_add u64_max).
Abbreviation usize_mul := (checked_mul u64_max).

(** [read_u32]. *)
Definition read_u32 (b : bytes) (offset : N) : option N :=
  last ← usize_add offset 4;
  encoded ← get_range b offset last;
  Some (from_le_bytes encoded).

(** ** The container *)

Definition GLB_MAGIC : bytes := [x67; x6c; x54; x46].
Definition GLB_VERSION : N := 2.
Definition JSON_CHUNK : N := 1313821514.
Definition BIN_CHUNK : N := 5130562.

(** [read_chunk]: the chunk, its type and the end. *)
Definition read_chunk (b : bytes) (offset : N) : outcome AssetDiagnostic (bytes * N * N) :=
  let! length := ok_or (read_u32 b offset) (mkDiagnostic AdInvalidLength "glb.chunk.length" None) in
  do! guard_err (negb (length mod 4 =? 0)) (mkDiagnostic AdInvalidLength "glb.chunk.alignment" None) then
  let! type_at := ok_or (usize_add offset 4) (mkDiagnostic AdInvalidLength "glb.chunk.type" None) in
  let! chunk_type := ok_or (read_u32 b type_at) (mkDiagnostic AdInvalidLength "glb.chunk.type" None) in
  let! first := ok_or (usize_add offset 8) (mkDiagnostic AdInvalidLength "glb.chunk.start" None) in
  let! last := ok_or (usize_add first length) (mkDiagnostic AdInvalidLength "glb.chunk.end" None) in
  let! chunk := ok_or (get_range b first last) (mkDiagnostic AdInvalidLength "glb.chunk.bytes" None) in
  Ok (chunk, chunk_type, last).

(** [split_glb]. *)
Definition split_glb (b : bytes) (limits : AssetLimits) : outcome AssetDiagnostic (bytes * bytes) :=
  do! guard_err ((N.of_nat (length b) <? 20) || negb (bool_decide (get_range b 0 4 = Some GLB_MAGIC)))
    (mkDiagnostic AdInvalidGlb "glb.header.magic" None) then
  do! guard_err (negb (bool_decide (read_u32 b 4 = Some GLB_VERSION))) (mkDiagnostic AdInvalidGlb "glb.header.version" None) then
  do! guard_err (negb (bool_decide (read_u32 b 8 = Some (N.of_nat (length b))))) (mkDiagnostic AdInvalidLength "glb.header.length" None) then
  let! (json, json_type, next) := read_chunk b 12 in
  do! guard_err (negb (json_type =? JSON_CHUNK)) (mkDiagnostic AdInvalidGlb "glb.chunks[0].type" (Some 0)) then
  do! guard_err (al_max_json_bytes limits <? len_or_max u64_max (length json))
    (mkDiagnostic AdByteLimitExceeded "glb.chunks[0].length" (Some 0)) then
  let! (binary, binary_type, last) := read_chunk b next in
  do! guard_err (negb (binary_type =? BIN_CHUNK) || negb (last =? N.of_nat (length b)))
    (mkDiagnostic AdInvalidGlb "glb.chunks[1]" (Some 1)) then
  do! guard_err (al_max_bin_bytes limits <? len_or_max u64_max (length binary))
    (mkDiagnostic AdByteLimitExceeded "glb.chunks[1].length" (Some 1)) then
  Ok (json, binary).

(** ** The document *)

Record GlbBuffer := mkGlbBuffer {
  gb_byte_length : N;
  gb_uri : option string;
}.

Record BufferView := mkBufferView {
  bv_buffer : N;
  bv_byte_offset : N;
  bv_byte_length : N;
  bv_byte_stride : option N;
}.

Record Accessor := mkAccessor {
  ac_buffer_view : N;
  ac_byte_offset : N;
  ac_component_type : N;
  ac_count : N;
  ac_kind : string;
  ac_normalized : bool;
  ac_min : option (list f64);
  ac_max : option (list f64);
}.

(** The attributes of a primitive, a map in the order of its keys. *)
Record Primitive := mkGlbPrimitive {
  pr_attributes : list (string * N);
  pr_indices : option N;
  pr_material : option N;
  pr_mode : option N;
}.

Record TextureInfo := mkTextureInfo {
  ti_index : N;
  ti_tex_coord : option N;
}.

Record NormalTextureInfo := mkNormalTextureInfo {
  ni_index : N;
  ni_tex_coord : option N;
  ni_scale : option f32;
}.

Record PbrMetallicRoughness := mkPbr {
  pbr_base_color : option (list f32);
  pbr_metallic : option f32;
  pbr_roughness : option f32;
  pbr_base_color_texture : option TextureInfo;
  pbr_metallic_roughness_texture : option TextureInfo;
}.

Record GlbMaterial := mkGlbMaterial {
  gmt_pbr_metallic_roughness : option PbrMetallicRoughness;
  gmt_normal_texture : option NormalTextureInfo;
  gmt_emissive_texture : option TextureInfo;
  gmt_emissive : option (list f32);
  gmt_alpha_mode : option string;
  gmt_alpha_cutoff : option f32;
  gmt_double_sided : option bool;
}.

Record GlbTexture := mkGlbTexture {
  tex_sampler : option N;
  tex_source : option N;
}.

Record GlbSampler := mkGlbSampler {
  smp_mag_filter : option N;
  smp_min_filter : option N;
  smp_wrap_s : option N;
  smp_wrap_t : option N;
}.

Record GlbImage := mkGlbImage {
  im_buffer_view : option N;
  im_mime_type : option string;
  im_uri : option string;
}.

(** [Root], as serde reads it; a mesh is the list of its primitives. *)
Record Root := mkRoot {
  rt_version : string;
  rt_buffers : list GlbBuffer;
  rt_buffer_views : list BufferView;
  rt_accessors : list Accessor;
  rt_meshes : list (list Primitive);
  rt_materials : list GlbMaterial;
  rt_images : list GlbImage;
  rt_samplers : list GlbSampler;
  rt_textures : list GlbTexture;
}.

(** [get]. *)
Definition get {A} (values : list A) (index : N) (location : string) : outcome AssetDiagnostic A :=
  ok_or (if index <? N.of_nat (length values) then values !! N.to_nat index else None)
    (mkDiagnostic AdInvalidBufferRange location (Some index)).

(** [stable_index]; [count] is the same conversion. *)
Definition stable_index (value : nat) : N := len_or_max u32_max value.

(** ** Formats *)

Definition BYTE : N := 5120.
Definition UNSIGNED_BYTE : N := 5121.
Definition SHORT : N := 5122.
Definition UNSIGNED_SHORT : N := 5123.
Definition UNSIGNED_INT : N := 5125.
Definition FLOAT : N := 5126.
Definition TRIANGLES : N := 4.
Definition MAX_PRIMITIVE_ATTRIBUTES : nat := 16.

Inductive AccessorExpectation : Type := ExPositions | ExNormals | ExTangents | ExTexcoords | ExColors | ExIndices.

Record AccessorBounds := mkBounds {
  bo_min : option (list f64);
  bo_max : option (list f64);
}.

Record AccessorLayout := mkLayout {
  ly_accessor_index : N;
  ly_start : N;
  ly_stride : N;
  ly_count : N;
  ly_component_type : N;
  ly_component_count : nat;
  ly_normalized : bool;
  ly_bounds : AccessorBounds;
}.

Record AccessorFormat := mkFormat {
  fm_element_bytes : N;
  fm_element_alignment : N;
  fm_explicit_stride_alignment : N;
  fm_component_count : nat;
  fm_requires_mesh_quantization : bool;
}.

(** [matches!(component_type, a | b | ...)]. *)
Definition one_of (component_type : N) (types : list N) : bool := existsb (N.eqb component_type) types.

(** [component_width]. *)
Definition component_width (component_type : N) : option N :=
  if one_of component_type [BYTE; UNSIGNED_BYTE] then Some 1
  else if one_of component_type [SHORT; UNSIGNED_SHORT] then Some 2
  else if one_of component_type [FLOAT; UNSIGNED_INT] then Some 4
  else None.

(** [attribute_format] and [core_texcoord_format]. *)
Definition attribute_format (component_type : N) (components : nat) (quantized : bool) : outcome AssetDiagnostic AccessorFormat :=
  let! width := expect (component_width component_type) in
  Ok (mkFormat (N.of_nat components * width) 4 4 components quantized).

Definition core_texcoord_format (component_type : N) : outcome AssetDiagnostic AccessorFormat :=
  let! width := expect (component_width component_type) in
  Ok (mkFormat (2 * width) width 4 2 false).

Definition some_format (m : outcome AssetDiagnostic AccessorFormat) : outcome AssetDiagnostic (option AccessorFormat) :=
  let! f := m in Ok (Some f).

(** [position_accessor_format]. *)
Definition position_accessor_format (a : Accessor) : outcome AssetDiagnostic (option AccessorFormat) :=
  let vec3 := bool_decide (ac_kind a = "VEC3") in
  if (ac_component_type a =? FLOAT) && vec3 && negb (ac_normalized a) then some_format (attribute_format FLOAT 3 false)
  else if vec3 && one_of (ac_component_type a) [BYTE; UNSIGNED_BYTE; SHORT; UNSIGNED_SHORT]
  then some_format (attribute_format (ac_component_type a) 3 true)
  else Ok None.

(** [normal_accessor_format]. *)
Definition normal_accessor_format (a : Accessor) : outcome AssetDiagnostic (option AccessorFormat) :=
  let vec3 := bool_decide (ac_kind a = "VEC3") in
  if (ac_component_type a =? FLOAT) && vec3 && negb (ac_normalized a) then some_format (attribute_format FLOAT 3 false)
  else if vec3 && ac_normalized a && one_of (ac_component_type a) [BYTE; SHORT]
  then some_format (attribute_format (ac_component_type a) 3 true)
  else Ok None.

(** [tangent_accessor_format]. *)
Definition tangent_accessor_format (a : Accessor) : outcome AssetDiagnostic (option AccessorFormat) :=
  let vec4 := bool_decide (ac_kind a = "VEC4") in
  if (ac_component_type a =? FLOAT) && vec4 && negb (ac_normalized a) then some_format (attribute_format FLOAT 4 false)
  else if vec4 && ac_normalized a && one_of (ac_component_type a) [BYTE; SHORT]
  then some_format (attribute_format (ac_component_type a) 4 true)
  else Ok None.

(** [texcoord_accessor_format]. *)
Definition texcoord_accessor_format (a : Accessor) : outcome AssetDiagnostic (option AccessorFormat) :=
  let vec2 := bool_decide (ac_kind a = "VEC2") in
  if (ac_component_type a =? FLOAT) && vec2 && negb (ac_normalized a) then some_format (attribute_format FLOAT 2 false)
  else if vec2 && ac_normalized a && one_of (ac_component_type a) [UNSIGNED_BYTE; UNSIGNED_SHORT]
  then some_format (core_texcoord_format (ac_component_type a))
  else if vec2 && (one_of (ac_component_type a) [BYTE; SHORT]
                   || (one_of (ac_component_type a) [UNSIGNED_BYTE; UNSIGNED_SHORT] && negb (ac_normalized a)))
  then some_format (attribute_format (ac_component_type a) 2 true)
  else Ok None.

(** [color_accessor_format]. *)
Definition color_accessor_format (a : Accessor) : outcome AssetDiagnostic (option AccessorFormat) :=
  let components : option nat :=
    if bool_decide (ac_kind a = "VEC3") then Some 3%nat else if bool_decide (ac_kind a = "VEC4") then Some 4%nat else None in
  match components with
  | None => Ok None
  | Some n =>
      if ((ac_component_type a =? FLOAT) && negb (ac_normalized a))
         || (one_of (ac_component_type a) [UNSIGNED_BYTE; UNSIGNED_SHORT] && ac_normalized a)
      then some_format (attribute_format (ac_component_type a) n false)
      else Ok None
  end.

(** [index_accessor_format]. *)
Definition index_accessor_format (a : Accessor) : outcome AssetDiagnostic (option AccessorFormat) :=
  if negb (bool_decide (ac_kind a = "SCALAR")) || ac_normalized a || negb (one_of (ac_component_type a) [UNSIGNED_SHORT; UNSIGNED_INT])
  then Ok None
  else
    let width := if ac_component_type a =? UNSIGNED_SHORT then 2 else 4 in
    Ok (Some (mkFormat width width width 1 false)).

(** [accessor_format]. *)
Definition accessor_format (a : Accessor) (ex : AccessorExpectation) (index : N) : outcome AssetDiagnostic AccessorFormat :=
  let! format :=
    match ex with
    | ExPositions => position_accessor_format a
    | ExNormals => normal_accessor_format a
    | ExTangents => tangent_accessor_format a
    | ExTexcoords => texcoord_accessor_format a
    | ExColors => color_accessor_format a
    | ExIndices => index_accessor_format a
    end in
  ok_or format
    match ex with
    | ExColors => mkDiagnostic AdInvalidColor "glb.json.accessors.color_0" (Some index)
    | _ => mkDiagnostic AdUnsupportedAccessor "glb.json.accessors" (Some index)
    end.

(** ** Declared bounds *)

(** [f64::from] of an integer. *)
Definition f64_of_Z (z : Z) : f64 := binary_normalize f64_prec f64_emax z 0 false.

(** [f64::fract]: what truncation takes away. *)
Definition f64_trunc (x : f64) : f64 :=
  match x with
  | S754_finite s m e =>
      if (0 <=? e)%Z then x
      else binary_normalize f64_prec f64_emax (cond_Zopp s (Z.shiftr (Zpos m) (- e))) 0 s
  | _ => x
  end.
Definition f64_fract (x : f64) : f64 := f64_sub x (f64_trunc x).

(** The range of an integer component. *)
Definition integer_range (component_type : N) : option (Z * Z) :=
  if component_type =? BYTE then Some (-128, 127)%Z
  else if component_type =? UNSIGNED_BYTE then Some (0, 255)%Z
  else if component_type =? SHORT then Some (-32768, 32767)%Z
  else if component_type =? UNSIGNED_SHORT then Some (0, 65535)%Z
  else if component_type =? UNSIGNED_INT then Some (0, 4294967295)%Z
  else None.

(** One value of a bound. *)
Definition bound_value (component_type : N) (value : f64) : option f64 :=
  if component_type =? FLOAT then
    let rounded := f32_of_f64 value in
    if negb (f64_is_finite value) || negb (f32_is_finite rounded) then None else Some (f64_of_f32 rounded)
  else
    '(minimum, maximum) ← integer_range component_type;
    if negb (f64_is_finite value) || negb (SFeqb (f64_fract value) f64_zero)
       || SFltb value (f64_of_Z minimum) || SFltb (f64_of_Z maximum) value
    then None else Some value.

(** [parse_accessor_bound]; the array of four is padded with zeros. *)
Definition parse_accessor_bound (values : list f64) (component_type : N) (components : nat) (index : N) (location : string)
    : outcome AssetDiagnostic (list f64) :=
  do! guard_err (negb (length values =? components)%nat) (mkDiagnostic AdInvalidJson location (Some index)) then
  let! parsed := out_fold (λ parsed value,
    let! v := ok_or (bound_value component_type value) (mkDiagnostic AdInvalidJson location (Some index)) in
    Ok (parsed ++ [v])) [] values in
  Ok (take 4 (parsed ++ [f64_zero; f64_zero; f64_zero; f64_zero])).

Definition parse_optional_bound (values : option (list f64)) (component_type : N) (components : nat) (index : N) (location : string)
    : outcome AssetDiagnostic (option (list f64)) :=
  match values with
  | None => Ok None
  | Some values => let! b := parse_accessor_bound values component_type components index location in Ok (Some b)
  end.

(** [accessor_bounds]. *)
Definition accessor_bounds (a : Accessor) (components : nat) (index : N) : outcome AssetDiagnostic AccessorBounds :=
  let! min := parse_optional_bound (ac_min a) (ac_component_type a) components index "glb.json.accessors.min" in
  let! max := parse_optional_bound (ac_max a) (ac_component_type a) components index "glb.json.accessors.max" in
  let inverted :=
    match min, max with
    | Some min, Some max => existsb (λ i, SFltb (nth i max f64_zero) (nth i min f64_zero)) (seq 0 components)
    | _, _ => false
    end in
  do! guard_err inverted (mkDiagnostic AdInvalidJson "glb.json.accessors.bounds" (Some index)) then
  Ok (mkBounds min max).

(** ** Layouts *)

(** [accessor_stride]; the width of an element fits a [u32]. *)
Definition accessor_stride (v : BufferView) (view_index element_bytes element_alignment explicit_stride_alignment : N)
    : outcome AssetDiagnostic N :=
  let stride := default element_bytes (bv_byte_stride v) in
  let alignment := match bv_byte_stride v with Some _ => explicit_stride_alignment | None => element_alignment end in
  do! guard_err ((stride <? element_bytes) || negb (stride mod alignment =? 0) || (252 <? stride))
    (mkDiagnostic AdUnsupportedAccessor "glb.json.bufferViews.byteStride" (Some view_index)) then
  Ok stride.

(** [accessor_occupied_bytes]; [count - 1] underflows on an empty accessor. *)
Definition accessor_occupied_bytes (elements stride element_bytes : N) : outcome AssetDiagnostic (option N) :=
  let! last := expect (checked_sub elements 1) in
  Ok (strides ← usize_mul last stride; usize_add strides element_bytes).

(** [accessor_range]. *)
Definition accessor_range (binary : bytes) (a : Accessor) (v : BufferView) (index element_bytes element_alignment explicit_stride_alignment : N)
    : outcome AssetDiagnostic AccessorLayout :=
  let! stride := accessor_stride v (ac_buffer_view a) element_bytes element_alignment explicit_stride_alignment in
  let view_start := bv_byte_offset v in
  let! view_end := ok_or (usize_add view_start (bv_byte_length v))
    (mkDiagnostic AdInvalidBufferRange "glb.json.bufferViews.range" (Some (ac_buffer_view a))) in
  do! guard_err (N.of_nat (length binary) <? view_end)
    (mkDiagnostic AdInvalidBufferRange "glb.json.bufferViews.range" (Some (ac_buffer_view a))) then
  let! start := ok_or (usize_add view_start (ac_byte_offset a))
    (mkDiagnostic AdInvalidBufferRange "glb.json.accessors.range" (Some index)) in
  do! guard_err (negb (ac_byte_offset a mod element_alignment =? 0) || negb (start mod element_alignment =? 0))
    (mkDiagnostic AdInvalidBufferRange "glb.json.accessors.alignment" (Some index)) then
  let! occupied := accessor_occupied_bytes (ac_count a) stride element_bytes in
  let! occupied := ok_or occupied (mkDiagnostic AdInvalidBufferRange "glb.json.accessors.range" (Some index)) in
  let! last := ok_or (usize_add start occupied) (mkDiagnostic AdInvalidBufferRange "glb.json.accessors.range" (Some index)) in
  do! guard_err ((start <? view_start) || (view_end <? last))
    (mkDiagnostic AdInvalidBufferRange "glb.json.accessors.range" (Some index)) then
  Ok (mkLayout index start stride (ac_count a) (ac_component_type a) 0 false (mkBounds None None)).

(** [accessor_layout]. *)
Definition accessor_layout (root : Root) (binary : bytes) (index : N) (ex : AccessorExpectation) (quantization_required : bool)
    : outcome AssetDiagnostic AccessorLayout :=
  let! a := get (rt_accessors root) index "glb.json.accessors" in
  let! v := get (rt_buffer_views root) (ac_buffer_view a) "glb.json.bufferViews" in
  do! guard_err (negb (bv_buffer v =? 0)) (mkDiagnostic AdUnsupportedAccessor "glb.json.accessors" (Some index)) then
  do! guard_err (ac_count a =? 0) (mkDiagnostic AdUnsupportedAccessor "glb.json.accessors.count" (Some index)) then
  let! format := accessor_format a ex index in
  do! guard_err (fm_requires_mesh_quantization format && negb quantization_required)
    (mkDiagnostic AdInvalidJson "glb.json.extensionsRequired.KHR_mesh_quantization" (Some index)) then
  let! bounds := accessor_bounds a (fm_component_count format) index in
  do! guard_err (match ex with ExPositions => true | _ => false end && fm_requires_mesh_quantization format
                 && (negb (is_some (bo_min bounds)) || negb (is_some (bo_max bounds))))
    (mkDiagnostic AdInvalidJson "glb.json.accessors.position.bounds" (Some index)) then
  let! layout := map_err (λ e,
      match ex, ad_code e with
      | ExColors, AdUnsupportedAccessor => mkDiagnostic AdInvalidColor "glb.json.accessors.color_0" (Some index)
      | _, _ => e
      end)
    (accessor_range binary a v index (fm_element_bytes format) (fm_element_alignment format) (fm_explicit_stride_alignment format)) in
  Ok (mkLayout (ly_accessor_index layout) (ly_start layout) (ly_stride layout) (ly_count layout) (ly_component_type layout)
        (fm_component_count format) (ac_normalized a) bounds).

(** ** Reads *)

(** [element_offset]. *)
Definition element_offset (l : AccessorLayout) (index : N) (location : string) : outcome AssetDiagnostic N :=
  ok_or (relative ← usize_mul index (ly_stride l); usize_add (ly_start l) relative)
    (mkDiagnostic AdInvalidBufferRange location (Some index)).

(** A two's complement integer of the given bytes. *)
Definition signed_of (encoded : bytes) : Z :=
  let v := Z.of_N (from_le_bytes encoded) in
  let width := (2 ^ (8 * Z.of_nat (length encoded)))%Z in
  if (v <? width / 2)%Z then v else (v - width)%Z.

(** The number that the bytes of a component stand for. *)
Definition component_number (component_type : N) (encoded : bytes) : f64 :=
  if one_of component_type [BYTE; SHORT] then f64_of_Z (signed_of encoded)
  else if component_type =? FLOAT then f64_of_f32 (from_le_bytes encoded)
  else f64_of_Z (Z.of_N (from_le_bytes encoded)).

(** [read_raw_component]. *)
Definition read_raw_component (binary : bytes) (l : AccessorLayout) (index : N) (component : nat) (location : string)
    : outcome AssetDiagnostic f64 :=
  let! width := ok_or (component_width (ly_component_type l))
    (mkDiagnostic AdUnsupportedAccessor location (Some (ly_accessor_index l))) in
  let! offset := element_offset l index location in
  let! first := ok_or (skipped ← usize_mul (N.of_nat component) width; usize_add offset skipped)
    (mkDiagnostic AdInvalidBufferRange location (Some index)) in
  let! last := ok_or (usize_add first width) (mkDiagnostic AdInvalidBufferRange location (Some index)) in
  let! encoded := ok_or (get_range binary first last) (mkDiagnostic AdInvalidBufferRange location (Some index)) in
  Ok (component_number (ly_component_type l) encoded).

(** [read_decoded_component]. *)
Definition read_decoded_component (binary : bytes) (l : AccessorLayout) (index : N) (component : nat) (location : string)
    : outcome AssetDiagnostic f64 :=
  let! raw := read_raw_component binary l index component location in
  Ok (if negb (ly_normalized l) then raw
      else if ly_component_type l =? BYTE then f64_max (f64_div raw (f64_of_Z 127)) f64_minus_one
      else if ly_component_type l =? UNSIGNED_BYTE then f64_div raw (f64_of_Z 255)
      else if ly_component_type l =? SHORT then f64_max (f64_div raw (f64_of_Z 32767)) f64_minus_one
      else if ly_component_type l =? UNSIGNED_SHORT then f64_div raw (f64_of_Z 65535)
      else raw).

(** Every component of an element, in order. *)
Definition read_components (binary : bytes) (l : AccessorLayout) (index : N) (components : nat) (location : string)
    : outcome AssetDiagnostic (list f64) :=
  out_fold (λ values component,
    let! value := read_decoded_component binary l index component location in Ok (values ++ [value])) [] (seq 0 components).

(** The loop of [read_position] and of [read_texcoord]: each value narrowed. *)
Definition read_finite (code : AssetDiagnosticCode) (binary : bytes) (l : AccessorLayout) (index : N) (components : nat) (location : string)
    : outcome AssetDiagnostic (list f32) :=
  out_fold (λ values component,
    let! value := read_decoded_component binary l index component location in
    let! value := map_err (λ _, mkDiagnostic code location (Some index)) (finite_f32_new (f32_of_f64 value)) in
    Ok (values ++ [value])) [] (seq 0 components).

Definition read_position (binary : bytes) (l : AccessorLayout) (index : N) : outcome AssetDiagnostic (list f32) :=
  read_finite AdNonFiniteVertex binary l index 3 "glb.binary.positions".

Definition read_texcoord (binary : bytes) (l : AccessorLayout) (index : N) : outcome AssetDiagnostic (list f32) :=
  read_finite AdInvalidTexcoord binary l index 2 "glb.binary.texcoord_0".

(** [read_normal]. *)
Definition read_normal (binary : bytes) (l : AccessorLayout) (index : N) : outcome AssetDiagnostic (list f32) :=
  let! normal := read_components binary l index 3 "glb.binary.normals" in
  normalize_f64_vector AdInvalidNormal normal "glb.binary.normals" (Some index).

(** [-1.0] as [f32]. *)
Definition handedness_of (value : f64) : f32 :=
  match value with S754_finite true _ _ => f32_minus_one | _ => f32_one end.

(** [read_tangent]. *)
Definition read_tangent (binary : bytes) (l : AccessorLayout) (index : N) : outcome AssetDiagnostic (list f32) :=
  let! tangent := read_components binary l index 4 "glb.binary.tangents" in
  let w := nth 3 tangent f64_zero in
  do! guard_err (negb (SFeqb w f64_minus_one || SFeqb w f64_one))
    (mkDiagnostic AdInvalidTangent "glb.binary.tangents.handedness" (Some index)) then
  let! xyz := normalize_f64_vector AdInvalidTangent (take 3 tangent) "glb.binary.tangents" (Some index) in
  Ok (xyz ++ [handedness_of w]).

(** [f32::clamp(0.0, 1.0)]. *)
Definition f32_clamp_unit (value : f32) : f32 :=
  if f32_ltb value f32_zero then f32_zero else if f32_ltb f32_one value then f32_one else value.

(** One component of [read_color]; the additions are not checked. *)
Definition color_component (binary : bytes) (l : AccessorLayout) (index offset : N) (component : nat) (width : N) : outcome AssetDiagnostic f32 :=
  let! start := expect (usize_add offset (N.of_nat component * width)) in
  let! last := if ly_component_type l =? UNSIGNED_BYTE then Ok (start + 1) else expect (usize_add start width) in
  let! encoded := ok_or (get_range binary start last) (mkDiagnostic AdInvalidBufferRange "glb.binary.color_0" (Some index)) in
  let! value :=
    if ly_component_type l =? FLOAT then
      let! value := map_err (λ _, mkDiagnostic AdInvalidColor "glb.binary.color_0" (Some index)) (finite_f32_new (from_le_bytes encoded)) in
      Ok (f32_clamp_unit value)
    else if ly_component_type l =? UNSIGNED_BYTE then Ok (f32_div (f32_of_u8 (from_le_bytes encoded)) (f32_of_u8 255))
    else Ok (f32_div (f32_of_u8 (from_le_bytes encoded)) (f32_of_u8 65535)) in
  expect (match unit_f32_new value with Ok v => Some v | _ => None end).

(** [read_color]; the alpha of three components is one. *)
Definition read_color_0 (binary : bytes) (l : AccessorLayout) (index : N) : outcome AssetDiagnostic (list f32) :=
  let! offset := element_offset l index "glb.binary.color_0" in
  let! width := ok_or (if ly_component_type l =? UNSIGNED_BYTE then Some 1 else if ly_component_type l =? UNSIGNED_SHORT then Some 2
                       else if ly_component_type l =? FLOAT then Some 4 else None)
    (mkDiagnostic AdInvalidColor "glb.binary.color_0" (Some index)) in
  let! values := out_fold (λ values component,
    let! value := color_component binary l index offset component width in Ok (values ++ [value]))
    [] (seq 0 (Nat.min 4 (ly_component_count l))) in
  Ok (take 4 (values ++ [f32_one; f32_one; f32_one; f32_one])).

(** [read_index]. *)
Definition read_index (binary : bytes) (l : AccessorLayout) (index : N) : outcome AssetDiagnostic N :=
  let! offset := element_offset l index "glb.binary.indices" in
  let! width := ok_or (if ly_component_type l =? UNSIGNED_SHORT then Some 2 else if ly_component_type l =? UNSIGNED_INT then Some 4 else None)
    (mkDiagnostic AdUnsupportedAccessor "glb.binary.indices" (Some index)) in
  let! last := expect (usize_add offset width) in
  let! encoded := ok_or (get_range binary offset last) (mkDiagnostic AdInvalidBufferRange "glb.binary.indices" (Some index)) in
  Ok (from_le_bytes encoded).

(** ** Whole accessors *)

(** The indices of an accessor, as [0..count]. *)
Definition indices_below (elements : N) : list N := N.of_nat <$> seq 0 (N.to_nat elements).

(** [validate_positions] and its siblings read every element. *)
Definition validate_each {A} (read : bytes → AccessorLayout → N → outcome AssetDiagnostic A) (binary : bytes) (l : AccessorLayout)
    : outcome AssetDiagnostic unit :=
  out_fold (λ _ index, let! _ := read binary l index in Ok tt) tt (indices_below (ly_count l)).

Definition validate_positions := validate_each read_position.
Definition validate_normals := validate_each read_normal.
Definition validate_texcoords := validate_each read_texcoord.
Definition validate_tangents := validate_each read_tangent.
Definition validate_colors := validate_each read_color_0.

(** [f64::min]: a NaN is ignored. *)
Definition f64_min (x y : f64) : f64 :=
  match x, y with
  | S754_nan, _ => y
  | _, S754_nan => x
  | _, _ => if SFltb y x then y else x
  end.

(** The extremes of the components read so far. *)
Definition extremes_step (binary : bytes) (l : AccessorLayout) (extremes : list f64 * list f64) (at_ : N * nat)
    : outcome AssetDiagnostic (list f64 * list f64) :=
  let '(index, component) := at_ in
  let '(low, high) := extremes in
  let! value := read_raw_component binary l index component "glb.binary.accessor_bounds" in
  Ok (<[component := f64_min (nth component low f64_zero) value]> low,
      <[component := f64_max (nth component high f64_zero) value]> high).

Definition bound_matches (components : nat) (expected : option (list f64)) (actual : list f64) : bool :=
  match expected with
  | None => true
  | Some expected => forallb (λ i, SFeqb (nth i expected f64_zero) (nth i actual f64_zero)) (seq 0 components)
  end.

(** [validate_accessor_bounds]. *)
Definition validate_accessor_bounds (binary : bytes) (l : AccessorLayout) : outcome AssetDiagnostic unit :=
  if negb (is_some (bo_min (ly_bounds l))) && negb (is_some (bo_max (ly_bounds l))) then Ok tt else
  let! (low, high) := out_fold (extremes_step binary l)
    (replicate 4 (S754_infinity false), replicate 4 (S754_infinity true))
    (index ← indices_below (ly_count l); (λ component, (index, component)) <$> seq 0 (ly_component_count l)) in
  guard_err (negb (bound_matches (ly_component_count l) (bo_min (ly_bounds l)) low)
             || negb (bound_matches (ly_component_count l) (bo_max (ly_bounds l)) high))
    (mkDiagnostic AdInvalidJson "glb.json.accessors.bounds" (Some (ly_accessor_index l))).

(** [validate_source_attribute_count]. *)
Definition validate_source_attribute_count (l : AccessorLayout) (limits : AssetLimits) (location : string) (index : N)
    : outcome AssetDiagnostic unit :=
  guard_err (al_max_vertices_per_mesh limits <? ly_count l) (mkDiagnostic AdCollectionLimitExceeded location (Some index)).

(** ** Ranges of bytes *)

(** [u32::to_le_bytes]. *)
Definition le_u32 (v : N) : bytes := rev (to_be_bytes 4 v).

Lemma le_u32_length v : length (le_u32 v) = 4%nat.
Proof. unfold le_u32. rewrite length_rev. apply length_to_be_bytes. Qed.

Lemma from_le_u32 v : v ≤ u32_max → from_le_bytes (le_u32 v) = v.
Proof. intros Hv. unfold from_le_bytes, le_u32. rewrite rev_involutive. apply from_to_be_bytes. unfold u32_max in Hv. lia. Qed.

Lemma le_u32_back c : length c = 4%nat → le_u32 (from_le_bytes c) = c.
Proof. intros Hc. unfold from_le_bytes, le_u32. rewrite be_bytes_back by by rewrite length_rev. apply rev_involutive. Qed.

Lemma from_le_u32_bound c : length c = 4%nat → from_le_bytes c ≤ u32_max.
Proof.
  intros Hc. unfold from_le_bytes. pose proof (from_be_bytes_lt (rev c)) as Hlt. rewrite length_rev, Hc in Hlt. unfold u32_max.
  change (256 ^ N.of_nat 4) with 4294967296 in Hlt. lia.
Qed.

Lemma get_range_Some b first last v :
  get_range b first last = Some v ↔
  first ≤ last ∧ last ≤ N.of_nat (length b) ∧ v = take (N.to_nat (last - first)) (drop (N.to_nat first) b).
Proof.
  unfold get_range. destruct (N.leb_spec first last), (N.leb_spec last (N.of_nat (length b))); cbn [andb]; try (split; [done|lia]).
  split; [by intros [= <-]|by intros (_ & _ & ->)].
Qed.

Lemma get_range_split b first last v :
  get_range b first last = Some v → drop (N.to_nat first) b = v ++ drop (N.to_nat last) b ∧ N.of_nat (length v) = last - first.
Proof.
  intros (Hle & Hlen & ->)%get_range_Some. split.
  - rewrite <-(take_drop (N.to_nat (last - first)) (drop (N.to_nat first) b)) at 1. rewrite drop_drop. do 2 f_equal. lia.
  - rewrite length_take, length_drop. lia.
Qed.

Lemma get_range_at pre v post first last :
  N.of_nat (length pre) = first → last = first + N.of_nat (length v) → get_range (pre ++ v ++ post) first last = Some v.
Proof.
  intros Hf ->. apply get_range_Some. rewrite !length_app. split_and!; [lia|lia|].
  replace (N.to_nat first) with (length pre) by lia. rewrite drop_app_length.
  replace (N.to_nat (first + N.of_nat (length v) - first)) with (length v) by lia. by rewrite take_app_length.
Qed.

Lemma read_u32_split b offset v :
  read_u32 b offset = Some v → drop (N.to_nat offset) b = le_u32 v ++ drop (N.to_nat (offset + 4)) b ∧ v ≤ u32_max ∧ offset + 4 ≤ N.of_nat (length b).
Proof.
  unfold read_u32. destruct (usize_add offset 4) as [last|] eqn:Hl; [|done]. apply checked_add_Some in Hl as [-> _]. cbn [mbind option_bind].
  destruct (get_range b offset (offset + 4)) as [c|] eqn:Hc; [|done]. intros [= <-]. pose proof Hc as (_ & Hb & _)%get_range_Some.
  apply get_range_split in Hc as [Hd Hlen]. assert (length c = 4%nat) as H4 by lia.
  split_and!; [by rewrite le_u32_back|by apply from_le_u32_bound|done].
Qed.

Lemma read_u32_at pre v post offset :
  N.of_nat (length pre) = offset → v ≤ u32_max → N.of_nat (length (pre ++ le_u32 v ++ post)) ≤ u64_max →
  read_u32 (pre ++ le_u32 v ++ post) offset = Some v.
Proof.
  intros Ho Hv Hb. rewrite !length_app, le_u32_length in Hb. unfold read_u32.
  assert (usize_add offset 4 = Some (offset + 4)) as -> by (apply checked_add_Some; split; [done|lia]). cbn [mbind option_bind].
  rewrite (get_range_at pre (le_u32 v) post) by (rewrite ?le_u32_length; lia). cbn [mbind option_bind]. by rewrite from_le_u32.
Qed.

(** ** Containers *)

(** A chunk and a container as bytes. *)
Definition chunk_bytes (chunk_type : N) (chunk : bytes) : bytes := le_u32 (N.of_nat (length chunk)) ++ le_u32 chunk_type ++ chunk.

Definition glb_container (json binary : bytes) : bytes :=
  GLB_MAGIC ++ le_u32 GLB_VERSION ++ le_u32 (N.of_nat (28 + length json + length binary))
  ++ chunk_bytes JSON_CHUNK json ++ chunk_bytes BIN_CHUNK binary.

Lemma chunk_bytes_length t c : length (chunk_bytes t c) = (8 + length c)%nat.
Proof. unfold chunk_bytes. rewrite !length_app, !le_u32_length. lia. Qed.

Lemma container_length json binary : length (glb_container json binary) = (28 + length json + length binary)%nat.
Proof. unfold glb_container. rewrite !length_app, !le_u32_length, !chunk_bytes_length. cbn [length GLB_MAGIC]. lia. Qed.

Lemma read_chunk_split b offset c t last :
  read_chunk b offset = Ok (c, t, last) →
  drop (N.to_nat offset) b = chunk_bytes t c ++ drop (N.to_nat last) b ∧ last = offset + 8 + N.of_nat (length c) ∧
  N.of_nat (length c) mod 4 = 0 ∧ last ≤ N.of_nat (length b).
Proof.
  unfold read_chunk. intros (len & Hlen%ok_or_ok & Hr)%out_bind_ok. apply out_bind_ok in Hr as ([] & Ha%guard_err_ok & Hr).
  apply out_bind_ok in Hr as (ta & Hta%ok_or_ok & Hr). apply checked_add_Some in Hta as [-> _].
  apply out_bind_ok in Hr as (ty & Hty%ok_or_ok & Hr). apply out_bind_ok in Hr as (first & Hf%ok_or_ok & Hr).
  apply checked_add_Some in Hf as [-> _]. apply out_bind_ok in Hr as (e & He%ok_or_ok & Hr). apply checked_add_Some in He as [-> _].
  apply out_bind_ok in Hr as (chunk & Hc%ok_or_ok & Hr). apply Ok_inj in Hr as [= <- <- <-].
  apply read_u32_split in Hlen as (Hd1 & _ & _). apply read_u32_split in Hty as (Hd2 & _ & _).
  pose proof Hc as (_ & Hb & _)%get_range_Some. apply get_range_split in Hc as [Hd3 Hl].
  replace (offset + 4 + 4) with (offset + 8) in Hd2 by lia. assert (N.of_nat (length chunk) = len) as Hlc by lia.
  split_and!; [|lia| |lia].
  - unfold chunk_bytes. by rewrite Hd1, Hd2, Hd3, Hlc, <-!app_assoc.
  - rewrite Hlc. apply negb_false_iff, N.eqb_eq in Ha. done.
Qed.

Lemma read_chunk_at pre t c post offset b :
  b = pre ++ chunk_bytes t c ++ post → N.of_nat (length pre) = offset → t ≤ u32_max → N.of_nat (length b) ≤ u32_max →
  N.of_nat (length c) mod 4 = 0 → read_chunk b offset = Ok (c, t, offset + 8 + N.of_nat (length c)).
Proof.
  intros Hb Ho Ht Hlen Hm. assert (N.of_nat (length pre) + 8 + N.of_nat (length c) ≤ u32_max) as Hbound.
  { rewrite Hb, !length_app, chunk_bytes_length in Hlen. lia. }
  assert (u32_max < u64_max) as Hmax by (vm_compute; done). subst b. unfold chunk_bytes in *. rewrite <-!app_assoc in *.
  unfold read_chunk. rewrite read_u32_at by lia. cbn [ok_or out_bind]. rewrite Hm. cbn [N.eqb negb guard_err out_bind].
  assert (∀ k, k ≤ 8 + N.of_nat (length c) → usize_add offset k = Some (offset + k)) as Hadd.
  { intros k Hk. apply checked_add_Some. split; [done|lia]. }
  rewrite (Hadd 4), (Hadd 8) by lia. cbn [ok_or out_bind]. rewrite app_assoc.
  rewrite read_u32_at; [|rewrite length_app, le_u32_length; lia|done|rewrite <-app_assoc; lia]. cbn [ok_or out_bind].
  assert (usize_add (offset + 8) (N.of_nat (length c)) = Some (offset + 8 + N.of_nat (length c))) as -> by (apply checked_add_Some; split; [done|lia]).
  cbn [ok_or out_bind]. rewrite (app_assoc (pre ++ _)).
  rewrite get_range_at; [done|rewrite !length_app, !le_u32_length; lia|done].
Qed.

Lemma split_glb_normal b limits : normal (split_glb b limits).
Proof. unfold split_glb, read_chunk. solve_normal. Qed.

Lemma split_glb_container b limits json binary :
  split_glb b limits = Ok (json, binary) →
  b = glb_container json binary ∧ N.of_nat (length b) ≤ u32_max ∧
  N.of_nat (length json) mod 4 = 0 ∧ N.of_nat (length binary) mod 4 = 0 ∧
  N.of_nat (length json) ≤ al_max_json_bytes limits ∧ N.of_nat (length binary) ≤ al_max_bin_bytes limits.
Proof.
  assert (u32_max < u64_max) as Hmax by (vm_compute; done).
  unfold split_glb. intros ([] & Hm%guard_err_ok & Hr)%out_bind_ok. apply orb_false_iff in Hm as [_ Hm%negb_false_iff%bool_decide_eq_true].
  apply out_bind_ok in Hr as ([] & Hv%guard_err_ok%negb_false_iff%bool_decide_eq_true & Hr).
  apply out_bind_ok in Hr as ([] & Hl%guard_err_ok%negb_false_iff%bool_decide_eq_true & Hr).
  apply out_bind_ok in Hr as ([[j jt] next] & Hj & Hr). apply out_bind_ok in Hr as ([] & Hjt%guard_err_ok%negb_false_iff%N.eqb_eq & Hr).
  apply out_bind_ok in Hr as ([] & Hjl%guard_err_ok%N.ltb_ge & Hr).
  apply out_bind_ok in Hr as ([[bin bt] last] & Hb & Hr). apply out_bind_ok in Hr as ([] & Hbt%guard_err_ok & Hr).
  apply orb_false_iff in Hbt as [Hbt%negb_false_iff%N.eqb_eq Hlast%negb_false_iff%N.eqb_eq].
  apply out_bind_ok in Hr as ([] & Hbl%guard_err_ok%N.ltb_ge & Hr). apply Ok_inj in Hr as [= -> ->]. subst jt bt.
  apply get_range_split in Hm as [Hm _]. apply read_u32_split in Hv as [Hv _]. apply read_u32_split in Hl as (Hl & Hu & _).
  apply read_chunk_split in Hj as (Hj & -> & Hjm & _). apply read_chunk_split in Hb as (Hb & -> & Hbm & _).
  rewrite Hlast, Nat2N.id, drop_all, app_nil_r in Hb. rewrite !len_or_max_min in Hjl, Hbl.
  assert (b = glb_container json binary) as Heq.
  { change b with (drop (N.to_nat 0) b) at 1. rewrite Hm. change (drop (N.to_nat 4) b) with (drop (N.to_nat 4) b).
    rewrite Hv. change (4 + 4) with 8. rewrite Hl. change (8 + 4) with 12. rewrite Hj, Hb. unfold glb_container.
    replace (N.of_nat (28 + length json + length binary)) with (N.of_nat (length b)) by lia. done. }
  split_and!; try done; lia.
Qed.

Lemma split_glb_of_container b limits json binary :
  b = glb_container json binary ∧ N.of_nat (length b) ≤ u32_max ∧
  N.of_nat (length json) mod 4 = 0 ∧ N.of_nat (length binary) mod 4 = 0 ∧
  N.of_nat (length json) ≤ al_max_json_bytes limits ∧ N.of_nat (length binary) ≤ al_max_bin_bytes limits →
  split_glb b limits = Ok (json, binary).
Proof.
  assert (u32_max < u64_max) as Hmax by (vm_compute; done).
  intros (Hb & Hlen & Hjm & Hbm & Hjl & Hbl). pose proof (container_length json binary) as Hc. rewrite <-Hb in Hc.
  unfold split_glb. rewrite Hc. assert ((N.of_nat (28 + length json + length binary) <? 20) = false) as -> by (apply N.ltb_ge; lia).
  assert (get_range b 0 4 = Some GLB_MAGIC) as -> by (rewrite Hb; by apply (get_range_at [])).
  rewrite bool_decide_true by done. cbn [orb negb guard_err out_bind].
  assert (∀ pre v post o, b = pre ++ le_u32 v ++ post → N.of_nat (length pre) = o → v ≤ u32_max → read_u32 b o = Some v) as Hread.
  { intros pre v post o E Ho Hv. rewrite E. apply read_u32_at; [done|done|]. rewrite <-E. lia. }
  rewrite (Hread GLB_MAGIC GLB_VERSION _ 4 Hb) by done. rewrite bool_decide_true by done. cbn [negb guard_err out_bind].
  assert (b = (GLB_MAGIC ++ le_u32 GLB_VERSION) ++ le_u32 (N.of_nat (28 + length json + length binary))
    ++ chunk_bytes JSON_CHUNK json ++ chunk_bytes BIN_CHUNK binary) as Hb8 by (rewrite Hb; unfold glb_container; by rewrite <-!app_assoc).
  rewrite (Hread _ _ _ 8 Hb8) by (rewrite ?length_app, ?le_u32_length; done || lia). rewrite bool_decide_true by done. cbn [negb guard_err out_bind].
  rewrite app_assoc in Hb8. rewrite (read_chunk_at _ JSON_CHUNK json _ 12 b Hb8); [|rewrite !length_app, !le_u32_length; done|by vm_compute|lia|done].
  cbn [out_bind]. rewrite N.eqb_refl. cbn [negb guard_err out_bind]. rewrite !len_or_max_min.
  assert ((al_max_json_bytes limits <? N.min u64_max (N.of_nat (length json))) = false) as -> by (apply N.ltb_ge; lia). cbn [guard_err out_bind].
  rewrite (app_assoc _ (chunk_bytes JSON_CHUNK json)) in Hb8. rewrite <-(app_nil_r (chunk_bytes BIN_CHUNK binary)) in Hb8.
  rewrite (read_chunk_at _ BIN_CHUNK binary [] (12 + 8 + N.of_nat (length json)) b Hb8);
    [|rewrite !length_app, !le_u32_length, chunk_bytes_length; cbn [length GLB_MAGIC]; lia|by vm_compute|lia|done].
  cbn [out_bind]. rewrite N.eqb_refl. assert ((12 + 8 + N.of_nat (length json) + 8 + N.of_nat (length binary)
    =? N.of_nat (28 + length json + length binary)) = true) as -> by (apply N.eqb_eq; lia). cbn [negb orb guard_err out_bind].
  rewrite len_or_max_min. assert ((al_max_bin_bytes limits <? N.min u64_max (N.of_nat (length binary))) = false) as -> by (apply N.ltb_ge; lia). done.
Qed.

(** A source splits into two chunks exactly when it is the container of
    these two chunks: magic, version, exact total length, a JSON chunk and a
    binary chunk with aligned lengths, nothing before, between or after, within
    the limits of the chunks.  Splitting never panics. *)
Theorem split_glb_exact b limits json binary :
  normal (split_glb b limits) ∧
  (split_glb b limits = Ok (json, binary) ↔
  b = glb_container json binary ∧ N.of_nat (length b) ≤ u32_max ∧
  N.of_nat (length json) mod 4 = 0 ∧ N.of_nat (length binary) mod 4 = 0 ∧
  N.of_nat (length json) ≤ al_max_json_bytes limits ∧ N.of_nat (length binary) ≤ al_max_bin_bytes limits).
Proof. split; [apply split_glb_normal|]. split; [apply split_glb_container|apply split_glb_of_container]. Qed.

Lemma split_glb_exact_witness : split_glb (glb_container [x7b; x7d; x20; x20] []) asset_limits_default = Ok ([x7b; x7d; x20; x20], []).
Proof.
  destruct (split_glb_exact (glb_container [x7b; x7d; x20; x20] []) asset_limits_default [x7b; x7d; x20; x20] []) as [_ [_ Hc]].
  apply Hc. split_and!; [reflexivity|vm_compute; discriminate|vm_compute; reflexivity|vm_compute; reflexivity|vm_compute; discriminate
    |vm_compute; discriminate].
Defined.

(** ** Accepted layouts *)

Lemma one_of_elem ct types : one_of ct types = true → ct ∈ types.
Proof. unfold one_of. intros (t & Ht & E%N.eqb_eq)%existsb_exists. subst t. by apply list_elem_of_In. Qed.

(** What an expectation says about components and their types. *)
Definition expected (ex : AccessorExpectation) (ct : N) (components : nat) : Prop :=
  match ex with
  | ExPositions | ExNormals => components = 3%nat
  | ExTangents => components = 4%nat
  | ExTexcoords => components = 2%nat
  | ExColors => (components = 3%nat ∨ components = 4%nat) ∧ ct ∈ [UNSIGNED_BYTE; UNSIGNED_SHORT; FLOAT]
  | ExIndices => components = 1%nat ∧ ct ∈ [UNSIGNED_SHORT; UNSIGNED_INT]
  end.

Definition format_fits (ex : AccessorExpectation) (ct : N) (f : AccessorFormat) : Prop :=
  expected ex ct (fm_component_count f) ∧
  ∃ width, component_width ct = Some width ∧ fm_element_bytes f = N.of_nat (fm_component_count f) * width ∧ 0 < width.

Lemma attribute_format_fits ex ct n q :
  is_some (component_width ct) = true → expected ex ct n → ∃ f, attribute_format ct n q = Ok f ∧ format_fits ex ct f.
Proof.
  intros Hw Hex. unfold attribute_format. destruct (component_width ct) as [width|] eqn:E; [|done]. cbn [expect out_bind].
  eexists. split; [done|]. split; [done|]. exists width. split_and!; [done|done|].
  unfold component_width in E. repeat case_match; simplify_eq; lia.
Qed.

Lemma typed_width ct types : ct ∈ types → Forall (λ t, is_some (component_width t) = true) types → is_some (component_width ct) = true.
Proof. intros Hin Hall. by apply (proj1 (Forall_forall _ _) Hall). Qed.

(** What a format function may return. *)
Definition format_result ex ct (m : outcome AssetDiagnostic (option AccessorFormat)) : Prop :=
  match m with Ok (Some f) => format_fits ex ct f | Ok None => True | _ => False end.

Lemma some_format_result ex ct n q :
  is_some (component_width ct) = true → expected ex ct n → format_result ex ct (some_format (attribute_format ct n q)).
Proof. intros Hw Hex. destruct (attribute_format_fits ex ct n q Hw Hex) as (f & E & Hf). unfold some_format. by rewrite E. Qed.

Lemma component_types_have_width :
  Forall (λ t, is_some (component_width t) = true) [BYTE; UNSIGNED_BYTE; SHORT; UNSIGNED_SHORT; UNSIGNED_INT; FLOAT].
Proof. repeat constructor. Qed.

Lemma known_width ct types :
  one_of ct types = true → forallb (λ t, one_of t [BYTE; UNSIGNED_BYTE; SHORT; UNSIGNED_SHORT; UNSIGNED_INT; FLOAT]) types = true →
  is_some (component_width ct) = true.
Proof.
  intros Hin%one_of_elem Hall. rewrite forallb_forall in Hall. eapply typed_width; [|apply component_types_have_width].
  apply one_of_elem, Hall. by apply list_elem_of_In.
Qed.

Ltac format_cases :=
  repeat match goal with
  | |- format_result _ _ (Ok None) => exact I
  | |- format_result _ _ (if ?b then _ else _) => destruct b eqn:?
  | H : _ && _ = true |- _ => apply andb_true_iff in H as [? ?]
  | H : (_ =? _) = true |- _ => apply N.eqb_eq in H
  end.

Ltac plain_format :=
  match goal with
  | H : ?ct = FLOAT |- format_result _ ?ct _ => rewrite H; by apply some_format_result
  | H : one_of ?ct _ = true |- format_result _ ?ct _ => apply some_format_result; [by eapply known_width|done]
  end.

Lemma accessor_format_fits a ex index :
  match accessor_format a ex index with Ok f => format_fits ex (ac_component_type a) f | Err _ => True | _ => False end.
Proof.
  assert (format_result ex (ac_component_type a)
    match ex with
    | ExPositions => position_accessor_format a | ExNormals => normal_accessor_format a | ExTangents => tangent_accessor_format a
    | ExTexcoords => texcoord_accessor_format a | ExColors => color_accessor_format a | ExIndices => index_accessor_format a
    end) as Hr; [|unfold accessor_format; destruct (match ex with ExPositions => _ | _ => _ end) as [[f|]| | |]; [exact Hr|destruct ex; done|done..]].
  destruct ex.
  1-3: unfold position_accessor_format, normal_accessor_format, tangent_accessor_format; format_cases; plain_format.
  - unfold texcoord_accessor_format. format_cases; try plain_format.
    + match goal with H : one_of _ _ = true |- _ => apply one_of_elem in H end.
      rewrite !elem_of_cons, elem_of_nil in *. destruct_or!; try done; match goal with H : ac_component_type a = _ |- _ => rewrite H end;
        (split; [done|]; eexists; split; [done|]; vm_compute; done).
    + match goal with H : _ || _ = true |- _ => apply orb_true_iff in H as [?|[? _]%andb_true_iff] end; plain_format.
  - unfold color_accessor_format. destruct (bool_decide (ac_kind a = "VEC3")); [|destruct (bool_decide (ac_kind a = "VEC4")); [|done]]; format_cases.
    all: match goal with H : _ || _ = true |- _ => apply orb_true_iff in H as [[H _]%andb_true_iff|[H _]%andb_true_iff] end.
    all: first [match goal with H : (_ =? _) = true |- _ => apply N.eqb_eq in H; rewrite H end; apply some_format_result; [done|split; [auto|set_solver]]
      |apply some_format_result; [by eapply known_width|split; [auto|]];
       match goal with H : one_of _ _ = true |- _ => apply one_of_elem in H; set_solver end].
  - unfold index_accessor_format. format_cases.
    match goal with H : _ || _ = false |- _ => apply orb_false_iff in H as [_ H%negb_false_iff%one_of_elem] end.
    rewrite !elem_of_cons, elem_of_nil in *. destruct_or!; try done; match goal with H : ac_component_type a = _ |- _ => rewrite H end;
      (split; [split; [done|set_solver]|]; eexists; split; [done|]; vm_compute; done).
Qed.

(** An accepted layout: its elements lie in the view of its accessor, and the
    view in the binary chunk. *)
Record layout_ok (root : Root) (binary : bytes) (index : N) (ex : AccessorExpectation) (l : AccessorLayout) (a : Accessor) (v : BufferView)
    (width : N) : Prop := {
  ll_accessor : rt_accessors root !! N.to_nat index = Some a;
  ll_view : rt_buffer_views root !! N.to_nat (ac_buffer_view a) = Some v;
  ll_view_end : bv_byte_offset v + bv_byte_length v ≤ N.of_nat (length binary);
  ll_view_usize : bv_byte_offset v + bv_byte_length v ≤ u64_max;
  ll_index : ly_accessor_index l = index;
  ll_start : ly_start l = bv_byte_offset v + ac_byte_offset a;
  ll_count : ly_count l = ac_count a;
  ll_positive : 0 < ly_count l;
  ll_type : ly_component_type l = ac_component_type a;
  ll_components : expected ex (ly_component_type l) (ly_component_count l);
  ll_width : component_width (ly_component_type l) = Some width;
  ll_stride : N.of_nat (ly_component_count l) * width ≤ ly_stride l ∧ ly_stride l ≤ 252;
  ll_end : ly_start l + (ly_count l - 1) * ly_stride l + N.of_nat (ly_component_count l) * width ≤ bv_byte_offset v + bv_byte_length v;
}.

Lemma get_ok {A} (values : list A) index location x : get values index location = Ok x → values !! N.to_nat index = Some x.
Proof. unfold get. intros E%ok_or_ok. by destruct (_ <? _). Qed.

Lemma checked_mul_ok a b c : usize_mul a b = Some c → c = a * b ∧ a * b ≤ u64_max.
Proof. unfold checked_mul. destruct (N.leb_spec (a * b) u64_max); [|done]. by intros [= <-]. Qed.

Lemma accessor_range_ok binary a v index eb ea esa l :
  accessor_range binary a v index eb ea esa = Ok l →
  bv_byte_offset v + bv_byte_length v ≤ N.of_nat (length binary) ∧ bv_byte_offset v + bv_byte_length v ≤ u64_max ∧
  ly_accessor_index l = index ∧ ly_start l = bv_byte_offset v + ac_byte_offset a ∧ ly_count l = ac_count a ∧ 0 < ly_count l ∧
  ly_component_type l = ac_component_type a ∧ eb ≤ ly_stride l ∧ ly_stride l ≤ 252 ∧
  ly_start l + (ly_count l - 1) * ly_stride l + eb ≤ bv_byte_offset v + bv_byte_length v.
Proof.
  unfold accessor_range. intros (stride & Hs & Hr)%out_bind_ok. unfold accessor_stride in Hs.
  apply out_bind_ok in Hs as ([] & Hg%guard_err_ok & <-%Ok_inj). rewrite !orb_false_iff, !N.ltb_ge in Hg. destruct Hg as [[Hs1 _] Hs2].
  apply out_bind_ok in Hr as (ve & Hve%ok_or_ok & Hr). apply checked_add_Some in Hve as [-> Hve].
  apply out_bind_ok in Hr as ([] & Hb%guard_err_ok%N.ltb_ge & Hr). apply out_bind_ok in Hr as (st & Hst%ok_or_ok & Hr).
  apply checked_add_Some in Hst as [-> _]. apply out_bind_ok in Hr as ([] & _ & Hr). apply out_bind_ok in Hr as (occ & Hocc & Hr).
  unfold accessor_occupied_bytes in Hocc. apply out_bind_ok in Hocc as (last & Hl%expect_ok & Hocc). apply Ok_inj in Hocc.
  unfold checked_sub in Hl. destruct (N.leb_spec 1 (ac_count a)); [|done]. injection Hl as <-.
  apply out_bind_ok in Hr as (o & Ho%ok_or_ok & Hr). subst occ.
  destruct (usize_mul (ac_count a - 1) (default eb (bv_byte_stride v))) as [m|] eqn:Hm; [|done].
  apply checked_mul_ok in Hm as [-> _]. cbn [mbind option_bind] in Ho. apply checked_add_Some in Ho as [-> _].
  apply out_bind_ok in Hr as (e & He%ok_or_ok & Hr). apply checked_add_Some in He as [-> _].
  apply out_bind_ok in Hr as ([] & Hw%guard_err_ok & <-%Ok_inj). rewrite orb_false_iff, !N.ltb_ge in Hw.
  cbn [ly_accessor_index ly_start ly_stride ly_count ly_component_type]. split_and!; try done; lia.
Qed.

Lemma accessor_layout_ok root binary index ex q l :
  accessor_layout root binary index ex q = Ok l → ∃ a v width, layout_ok root binary index ex l a v width.
Proof.
  unfold accessor_layout. intros (a & Ha%get_ok & Hr)%out_bind_ok. apply out_bind_ok in Hr as (v & Hv%get_ok & Hr).
  do 2 apply out_bind_ok in Hr as ([] & _ & Hr). apply out_bind_ok in Hr as (f & Hf & Hr). apply out_bind_ok in Hr as ([] & _ & Hr).
  apply out_bind_ok in Hr as (bounds & _ & Hr). apply out_bind_ok in Hr as ([] & _ & Hr).
  apply out_bind_ok in Hr as (l0 & Hl%map_err_ok%accessor_range_ok & <-%Ok_inj).
  destruct Hl as (H1 & H2 & H3 & H4 & H5 & H6 & H7 & H8 & H9 & H10).
  pose proof (accessor_format_fits a ex index) as Hfits. rewrite Hf in Hfits. destruct Hfits as (Hex & width & Hw & Heb & _). rewrite Heb in *.
  exists a, v, width. split; cbn [ly_accessor_index ly_start ly_stride ly_count ly_component_type ly_component_count]; try done; by rewrite H7.
Qed.

(** [accessor_layout] never panics. *)
Lemma parse_accessor_bound_normal values ct n index location : normal (parse_accessor_bound values ct n index location).
Proof.
  unfold parse_accessor_bound. apply out_bind_normal; [apply guard_err_normal|]. intros _ _. apply out_bind_normal; [|done].
  apply (out_fold_normal _ (λ _, True)); [intros; solve_normal|done|done].
Qed.

Lemma accessor_layout_normal root binary index ex q : normal (accessor_layout root binary index ex q).
Proof.
  unfold accessor_layout. apply out_bind_normal; [apply ok_or_normal|]. intros a _. apply out_bind_normal; [apply ok_or_normal|]. intros v _.
  apply out_bind_normal; [apply guard_err_normal|]. intros [] _. apply out_bind_normal; [apply guard_err_normal|]. intros [] Hc%guard_err_ok%N.eqb_neq.
  apply out_bind_normal; [pose proof (accessor_format_fits a ex index); by destruct (accessor_format a ex index)|]. intros f _.
  apply out_bind_normal; [apply guard_err_normal|]. intros [] _.
  apply out_bind_normal; [unfold accessor_bounds, parse_optional_bound; solve_normal; apply parse_accessor_bound_normal|]. intros bo _.
  apply out_bind_normal; [apply guard_err_normal|]. intros [] _. apply out_bind_normal; [|done]. apply map_err_normal.
  unfold accessor_range, accessor_stride, accessor_occupied_bytes. unfold checked_sub.
  assert ((1 <=? ac_count a) = true) as -> by (apply N.leb_le; lia). cbn [expect out_bind]. solve_normal.
Qed.

(** ** Collecting loops *)

Lemma fold_cases {E A B} (g : list B → A → outcome E (list B)) (Q : E → Prop) xs acc :
  (∀ values x, x ∈ xs → match g values x with Ok r => ∃ v, r = values ++ [v] | Err e => Q e | _ => False end) →
  match out_fold g acc xs with Ok r => ∃ new, r = acc ++ new ∧ length new = length xs | Err e => Q e | _ => False end.
Proof.
  revert acc. induction xs as [|x xs IH]; intros acc Hg; cbn [out_fold]; [exists []; by rewrite app_nil_r|].
  pose proof (Hg acc x (list_elem_of_here _ _)) as Hx. destruct (g acc x) as [r| | |]; cbn [out_bind]; [|done..]. destruct Hx as [v ->].
  specialize (IH (acc ++ [v])). destruct (out_fold g (acc ++ [v]) xs); [|apply IH; intros; apply Hg; by right..].
  destruct IH as (new & -> & Hlen); [intros; apply Hg; by right|]. exists (v :: new). rewrite <-app_assoc. split; [done|cbn; lia].
Qed.

Lemma finite_new_normal v : normal (finite_f32_new v).
Proof. unfold finite_f32_new, float_value_new. solve_normal. Qed.

Lemma normalize_shape code vector location index :
  match normalize_f64_vector code vector location index with
  | Ok r => length r = length vector | Err e => ad_code e = code | _ => False
  end.
Proof.
  unfold normalize_f64_vector. destruct (guard_err _ _) as [[]|e| |] eqn:Hg; cbn [out_bind]; [|by apply guard_err_err in Hg as [_ <-]|by destruct (_ || _)..].
  set (step := λ _ _, _). pose proof (fold_cases step (λ e, ad_code e = code) vector []) as Hf.
  destruct (out_fold step [] vector) as [r| | |].
  1: destruct Hf as (new & -> & Hlen); [|done].
  2-4: apply Hf.
  all: intros values x _; unfold step; pose proof (finite_new_normal (f32_of_f64 (f64_mul x (f64_recip (f64_sqrt (f64_sum ((λ value, f64_mul value value) <$> vector)))))));
    destruct (finite_f32_new _); cbn [map_err out_bind]; [by eexists|done|done|done].
Qed.

(** ** Reads of an accepted layout *)

(** The first byte of a component. *)
Definition component_start (l : AccessorLayout) (width index : N) (component : nat) : N :=
  ly_start l + index * ly_stride l + N.of_nat component * width.

(** What a read needs: every component of every element is in the binary. *)
Record readable (binary : bytes) (ex : AccessorExpectation) (l : AccessorLayout) (width : N) : Prop := {
  rd_width : component_width (ly_component_type l) = Some width;
  rd_expected : expected ex (ly_component_type l) (ly_component_count l);
  rd_inside : ∀ index component, index < ly_count l → (component < ly_component_count l)%nat →
    component_start l width index component + width ≤ N.of_nat (length binary) ∧ component_start l width index component + width ≤ u64_max;
}.

Lemma component_inside root binary i ex l a v width index component :
  layout_ok root binary i ex l a v width → index < ly_count l → (component < ly_component_count l)%nat →
  bv_byte_offset v ≤ component_start l width index component ∧
  component_start l width index component + width ≤ bv_byte_offset v + bv_byte_length v.
Proof.
  intros Hl Hi Hc. unfold component_start. pose proof (ll_end _ _ _ _ _ _ _ _ Hl) as He. pose proof (ll_start _ _ _ _ _ _ _ _ Hl) as Hs.
  assert (index * ly_stride l ≤ (ly_count l - 1) * ly_stride l) by (apply N.mul_le_mono_r; lia).
  assert ((N.of_nat component + 1) * width ≤ N.of_nat (ly_component_count l) * width) by (apply N.mul_le_mono_r; lia). lia.
Qed.

Lemma layout_readable root binary i ex l a v width : layout_ok root binary i ex l a v width → readable binary ex l width.
Proof.
  intros Hl. split; [apply Hl|apply Hl|]. intros index component Hi Hc.
  pose proof (component_inside _ _ _ _ _ _ _ _ _ _ Hl Hi Hc). pose proof (ll_view_end _ _ _ _ _ _ _ _ Hl).
  pose proof (ll_view_usize _ _ _ _ _ _ _ _ Hl). lia.
Qed.

Section reads.
Context (binary : bytes) (ex : AccessorExpectation) (l : AccessorLayout) (width : N) (Hl : readable binary ex l width).

(** The bytes of a component. *)
Definition component_slice (index : N) (component : nat) : bytes :=
  take (N.to_nat width) (drop (N.to_nat (component_start l width index component)) binary).

Lemma component_range index component :
  index < ly_count l → (component < ly_component_count l)%nat →
  get_range binary (component_start l width index component) (component_start l width index component + width)
  = Some (component_slice index component).
Proof.
  intros Hi Hc. destruct (rd_inside _ _ _ _ Hl index component Hi Hc) as [Hb _]. apply get_range_Some. split_and!; [lia|done|].
  unfold component_slice. by replace (component_start l width index component + width - component_start l width index component) with width by lia.
Qed.

Lemma some_component : (0 < ly_component_count l)%nat.
Proof.
  pose proof (rd_expected _ _ _ _ Hl) as He. destruct ex; cbn in He; try lia; destruct He; lia.
Qed.

Lemma element_offset_ok index location :
  index < ly_count l → element_offset l index location = Ok (component_start l width index 0).
Proof.
  intros Hi. destruct (rd_inside _ _ _ _ Hl index 0 Hi some_component) as [_ Hu]. unfold component_start in *.
  unfold element_offset, checked_mul. assert ((index * ly_stride l <=? u64_max) = true) as -> by (apply N.leb_le; lia). cbn [mbind option_bind].
  unfold checked_add. assert ((ly_start l + index * ly_stride l <=? u64_max) = true) as -> by (apply N.leb_le; lia).
  cbn [ok_or]. f_equal. lia.
Qed.

Lemma component_start_step index component :
  component_start l width index component = component_start l width index 0 + N.of_nat component * width.
Proof. unfold component_start. lia. Qed.

Lemma read_raw_component_ok index component location :
  index < ly_count l → (component < ly_component_count l)%nat →
  read_raw_component binary l index component location
  = Ok (component_number (ly_component_type l) (component_slice index component)).
Proof.
  intros Hi Hc. destruct (rd_inside _ _ _ _ Hl index component Hi Hc) as [_ Hu].
  unfold read_raw_component. rewrite (rd_width _ _ _ _ Hl). cbn [ok_or out_bind]. rewrite element_offset_ok by done. cbn [out_bind].
  rewrite component_start_step in Hu. unfold checked_mul.
  assert ((N.of_nat component * width <=? u64_max) = true) as -> by (apply N.leb_le; lia). cbn [mbind option_bind].
  unfold checked_add at 1. rewrite <-component_start_step in *.
  assert ((component_start l width index component <=? u64_max) = true) as -> by (apply N.leb_le; lia). cbn [ok_or out_bind].
  unfold checked_add. assert ((component_start l width index component + width <=? u64_max) = true) as -> by (apply N.leb_le; lia).
  cbn [ok_or out_bind]. by rewrite component_range.
Qed.

Lemma read_decoded_component_ok index component location :
  index < ly_count l → (component < ly_component_count l)%nat → ∃ v, read_decoded_component binary l index component location = Ok v.
Proof. intros Hi Hc. unfold read_decoded_component. rewrite read_raw_component_ok by done. by eexists. Qed.

(** Loops that collect one value per turn. *)
Lemma read_components_ok index n location :
  index < ly_count l → (n ≤ ly_component_count l)%nat → ∃ vs, read_components binary l index n location = Ok vs ∧ length vs = n.
Proof.
  intros Hi Hn. unfold read_components. set (step := λ _ _, _). pose proof (fold_cases step (λ _, False) (seq 0 n) []) as Hf.
  assert (∀ values c, c ∈ seq 0 n → match step values c with Ok r => ∃ v, r = values ++ [v] | Err _ => False | _ => False end) as Hstep.
  { intros values c Hc%list_elem_of_In%in_seq. unfold step. destruct (read_decoded_component_ok index c location) as [v ->]; [done|lia|]. by eexists. }
  specialize (Hf Hstep). destruct (out_fold step [] (seq 0 n)) as [vs| | |]; [|done..]. destruct Hf as (new & -> & Hlen).
  eexists. split; [done|]. by rewrite app_nil_l, Hlen, length_seq.
Qed.

Lemma read_finite_shape code index n location :
  index < ly_count l → (n ≤ ly_component_count l)%nat →
  match read_finite code binary l index n location with Ok vs => length vs = n | Err e => ad_code e = code | _ => False end.
Proof.
  intros Hi Hn. unfold read_finite. set (step := λ _ _, _).
  assert (∀ values c, c ∈ seq 0 n → match step values c with Ok r => ∃ v, r = values ++ [v] | Err e => ad_code e = code | _ => False end) as Hstep.
  { intros values c Hc%list_elem_of_In%in_seq. unfold step. destruct (read_decoded_component_ok index c location) as [v ->]; [done|lia|].
    cbn [out_bind]. pose proof (finite_new_normal (f32_of_f64 v)) as Hn'. destruct (finite_f32_new _); cbn [map_err out_bind]; [by eexists|done|done|done]. }
  pose proof (fold_cases step (λ e, ad_code e = code) (seq 0 n) [] Hstep) as Hf.
  destruct (out_fold _ _ _) as [vs| | |]; [|done..]. destruct Hf as (new & -> & Hlen). by rewrite app_nil_l, Hlen, length_seq.
Qed.

Lemma read_normal_shape index :
  index < ly_count l → (3 ≤ ly_component_count l)%nat →
  match read_normal binary l index with Ok vs => length vs = 3%nat | Err e => ad_code e = AdInvalidNormal | _ => False end.
Proof.
  intros Hi Hn. unfold read_normal. destruct (read_components_ok index 3 "glb.binary.normals" Hi Hn) as (vs & -> & Hlen). cbn [out_bind].
  rewrite <-Hlen. apply normalize_shape.
Qed.

Lemma read_tangent_shape index :
  index < ly_count l → (4 ≤ ly_component_count l)%nat →
  match read_tangent binary l index with Ok vs => length vs = 4%nat | Err e => ad_code e = AdInvalidTangent | _ => False end.
Proof.
  intros Hi Hn. unfold read_tangent. destruct (read_components_ok index 4 "glb.binary.tangents" Hi Hn) as (vs & -> & Hlen). cbn [out_bind].
  destruct (guard_err _ _) as [[]|e| |] eqn:Hg; cbn [out_bind]; [|by apply guard_err_err in Hg as [_ <-]|by destruct (negb _)..].
  pose proof (normalize_shape AdInvalidTangent (take 3 vs) "glb.binary.tangents" (Some index)) as Hs.
  destruct (normalize_f64_vector _ _ _ _) as [xyz| | |]; cbn [out_bind]; [|done..]. rewrite length_app, Hs, length_take. cbn [length]. lia.
Qed.

Lemma read_index_ok index :
  ex = ExIndices → index < ly_count l → ∃ v, read_index binary l index = Ok v.
Proof.
  intros Hex Hi. pose proof (rd_expected _ _ _ _ Hl) as He. rewrite Hex in He. destruct He as [Hn Ht]. pose proof (rd_width _ _ _ _ Hl) as Hw.
  unfold read_index. rewrite element_offset_ok by done. cbn [out_bind].
  assert ((if ly_component_type l =? UNSIGNED_SHORT then Some 2 else if ly_component_type l =? UNSIGNED_INT then Some 4 else None) = Some width) as ->.
  { rewrite !elem_of_cons, elem_of_nil in Ht. destruct Ht as [E|[E|[]]]; rewrite E in *; exact Hw. }
  cbn [ok_or out_bind]. destruct (rd_inside _ _ _ _ Hl index 0 Hi ltac:(lia)) as [_ Hu].
  unfold checked_add. assert ((component_start l width index 0 + width <=? u64_max) = true) as -> by (apply N.leb_le; lia). cbn [expect out_bind].
  rewrite component_range by (done || lia). by eexists.
Qed.

End reads.

(** ** Quotients of small integers

    [f32] division of integers below 2^16: the quotient by a larger one is
    rounded to a number that is not above one. *)

Section quotients.
Open Scope Z_scope.

Lemma digits2_bounds m : 2 ^ (Zpos (digits2_pos m) - 1) ≤ Zpos m < 2 ^ Zpos (digits2_pos m).
Proof.
  induction m as [m IH|m IH|]; cbn [digits2_pos]; [| |done]; rewrite Pos2Z.inj_succ;
    replace (Z.succ (Zpos (digits2_pos m)) - 1) with (Z.succ (Zpos (digits2_pos m) - 1)) by lia; rewrite !Z.pow_succ_r by lia; lia.
Qed.

Lemma digits2_unique m d : 0 < d → 2 ^ (d - 1) ≤ Zpos m < 2 ^ d → Zpos (digits2_pos m) = d.
Proof.
  intros Hd Hm. pose proof (digits2_bounds m) as Hb. set (k := Zpos (digits2_pos m)) in *. assert (0 < k) by (subst k; lia).
  destruct (Z.lt_trichotomy k d) as [Hlt|[->|Hgt]]; [|done|].
  - assert (2 ^ k ≤ 2 ^ (d - 1)) by (apply Z.pow_le_mono_r; lia). lia.
  - assert (2 ^ d ≤ 2 ^ (k - 1)) by (apply Z.pow_le_mono_r; lia). lia.
Qed.

Definition mantissa24 (m : positive) : Prop := 8388608 ≤ Zpos m < 16777216.

Lemma mantissa24_digits m : mantissa24 m → Zpos (digits2_pos m) = 24.
Proof. intros Hm. by apply digits2_unique. Qed.

Lemma fexp_mantissa24 m e : mantissa24 m → -149 ≤ e → fexp 24 128 (Zdigits2 (Zpos m) + e) = e.
Proof. intros Hm He. cbn [Zdigits2]. rewrite mantissa24_digits by done. unfold fexp, emin. lia. Qed.

Lemma shr_fexp_mantissa24 m e l : mantissa24 m → -149 ≤ e → shr_fexp 24 128 (Zpos m) e l = (shr_record_of_loc (Zpos m) l, e).
Proof. intros Hm He. unfold shr_fexp. rewrite fexp_mantissa24 by done. by rewrite Z.sub_diag. Qed.

(** A mantissa of 24 digits is kept. *)
Lemma round_exact m e s : mantissa24 m → -149 ≤ e ≤ 104 → binary_round_aux 24 128 s (Zpos m) e loc_Exact = S754_finite s m e.
Proof.
  intros Hm He. unfold binary_round_aux. rewrite shr_fexp_mantissa24 by (done || lia). cbn [shr_record_of_loc shr_m loc_of_shr_record round_nearest_even].
  rewrite shr_fexp_mantissa24 by (done || lia). cbn [shr_record_of_loc shr_m]. by rewrite (proj2 (Z.leb_le _ _)) by lia.
Qed.

(** Rounding up a mantissa of 24 digits. *)
Lemma round_up m e s : mantissa24 m → -149 ≤ e ≤ 103 →
  ∀ mx, mx = Zpos m ∨ mx = Zpos m + 1 →
  ∃ m' e', (let '(mrs, e') := shr_fexp 24 128 mx e loc_Exact in
    match shr_m mrs with Z0 => S754_zero s | Zpos m => if (e' <=? 128 - 24) then S754_finite s m e' else S754_infinity s | _ => S754_nan end)
    = S754_finite s m' e' ∧ mantissa24 m' ∧ (e' = e ∧ Zpos m' = mx ∨ e' = e + 1 ∧ m' = 8388608%positive ∧ mx = 16777216).
Proof.
  intros Hm He mx Hmx. destruct (Z.eq_dec mx 16777216) as [->|Hne].
  - exists 8388608%positive, (e + 1). unfold shr_fexp. change (Zdigits2 16777216) with 25.
    replace (fexp 24 128 (25 + e) - e) with 1 by (unfold fexp, emin; lia). cbn [shr iter_pos shr_record_of_loc shr_1 shr_m].
    rewrite (proj2 (Z.leb_le _ _)) by lia. split; [done|]. split; [by vm_compute|auto].
  - destruct mx as [|m'|]; try (unfold mantissa24 in Hm; lia). assert (mantissa24 m') as Hm' by (unfold mantissa24 in *; lia).
    exists m', e. rewrite shr_fexp_mantissa24 by (done || lia). cbn [shr_record_of_loc shr_m]. rewrite (proj2 (Z.leb_le _ _)) by lia. auto.
Qed.

(** The last step of rounding, as [round_up] sees it. *)
Lemma round_nearest_cases mx l : round_nearest_even mx l = mx ∨ round_nearest_even mx l = mx + 1.
Proof. destruct l as [|[]]; cbn; auto. destruct (Z.even mx); auto. Qed.

Lemma record_of_loc_m m l : shr_m (shr_record_of_loc m l) = m.
Proof. by destruct l as [|[]]. Qed.

(** Rounding a quotient of 24 or 25 digits. *)
Lemma round_quotient s q e l :
  8388608 ≤ q < 33554432 → -149 ≤ e ≤ 100 →
  ∃ m' e', binary_round_aux 24 128 s q e l = S754_finite s m' e' ∧ mantissa24 m' ∧
    (q < 16777216 ∧ e' = e ∨ e' = e + 1 ∧ (q < 16777216 → m' = 8388608%positive) ∨ 16777216 ≤ q ∧ e' = e + 2 ∧ m' = 8388608%positive) ∧
    (q = 16777216 → l = loc_Exact → e' = e + 1 ∧ m' = 8388608%positive).
Proof.
  intros Hq He. unfold binary_round_aux. destruct q as [|q|q]; [lia| |lia]. destruct (Z.lt_ge_cases (Zpos q) 16777216) as [Hlt|Hge].
  - assert (mantissa24 q) as Hm by (unfold mantissa24; lia). rewrite shr_fexp_mantissa24 by (done || lia).
    rewrite record_of_loc_m. pose proof (round_nearest_cases (Zpos q) (loc_of_shr_record (shr_record_of_loc (Zpos q) l))) as Hr.
    destruct (round_up q e s Hm ltac:(lia) _ Hr) as (m' & e' & E & Hm' & Hc). exists m', e'. split; [exact E|]. split; [done|].
    split; [|intros; lia]. destruct Hc as [[-> _]|(-> & -> & _)]; auto.
  - assert (Zpos (digits2_pos q) = 25) as Hd by (apply digits2_unique; [done|change (2 ^ (25 - 1)) with 16777216; change (2 ^ 25) with 33554432; lia]). unfold shr_fexp at 1. cbn [Zdigits2]. rewrite Hd.
    replace (fexp 24 128 (25 + e) - e) with 1 by (unfold fexp, emin; lia). cbn [shr iter_pos].
    assert (∃ h r s', shr_1 (shr_record_of_loc (Zpos q) l) = Build_shr_record (Zpos h) r s' ∧ mantissa24 h ∧
      (Zpos q = 16777216 → l = loc_Exact → h = 8388608%positive ∧ r = false ∧ s' = false)) as (h & r & s' & Eh & Hh & Hex).
    { destruct q as [q|q|]; [| |lia]; destruct l as [|[]]; cbn [shr_record_of_loc shr_1 orb]; do 3 eexists; (split; [reflexivity|]);
        (split; [unfold mantissa24; lia|]); intros Hq' Hl; try done; split; (lia || done). }
    rewrite Eh. cbn [shr_m]. pose proof (round_nearest_cases (Zpos h) (loc_of_shr_record {| shr_m := Zpos h; shr_r := r; shr_s := s' |})) as Hr.
    destruct (round_up h (e + 1) s Hh ltac:(lia) _ Hr) as (m' & e' & E & Hm' & Hc). exists m', e'. split; [exact E|]. split; [done|]. split.
    + destruct Hc as [[-> _]|(-> & -> & _)]; [right; left; split; [done|lia]|right; right; split; [lia|split; [lia|done]]].
    + intros Hq' Hl. destruct (Hex Hq' Hl) as (-> & -> & ->). cbn in Hc. destruct Hc as [[-> Hc]|(_ & _ & Hc)]; [split; [done|lia]|lia].
Qed.

(** A quotient that is not above one is rounded to a number not above one. *)
Lemma quotient_not_above_one m1 e1 m2 e2 :
  mantissa24 m1 → mantissa24 m2 → e2 - 100 ≤ e1 ≤ e2 → (e1 = e2 → Zpos m1 ≤ Zpos m2) →
  ∃ m e, SFdiv 24 128 (S754_finite false m1 e1) (S754_finite false m2 e2) = S754_finite false m e ∧
    mantissa24 m ∧ -149 ≤ e ∧ (e < -23 ∨ e = -23 ∧ m = 8388608%positive).
Proof.
  intros H1 H2 He Hle. pose proof H1 as H1'. pose proof H2 as H2'. unfold mantissa24 in H1', H2'.
  unfold SFdiv, SFdiv_core_binary. cbn [Zdigits2 xorb]. rewrite !mantissa24_digits by done.
  replace (Z.min (fexp 24 128 (24 + e1 - (24 + e2))) (e1 - e2)) with (e1 - e2 - 24) by (unfold fexp, emin; lia).
  replace (e1 - e2 - (e1 - e2 - 24)) with 24 by lia. rewrite Z.shiftl_mul_pow2 by lia. change (2 ^ 24) with 16777216.
  destruct (Z.div_eucl (Zpos m1 * 16777216) (Zpos m2)) as [q r] eqn:Eq.
  pose proof (Z_div_mod (Zpos m1 * 16777216) (Zpos m2) ltac:(lia)) as Hd. rewrite Eq in Hd. destruct Hd as [Hqr Hr].
  assert (8388608 ≤ q < 33554432) as Hq by nia.
  destruct (round_quotient false q (e1 - e2 - 24) (new_location (Zpos m2) r) Hq ltac:(lia)) as (m & e & -> & Hm & Hc & Hex).
  exists m, e. split; [done|]. split; [done|]. split; [lia|]. destruct (Z.eq_dec e1 e2) as [Heq|Hne].
  - specialize (Hle Heq). assert (q ≤ 16777216) as Hq' by nia. destruct (Z.eq_dec q 16777216) as [->|Hlt]; [|lia].
    assert (r = 0) as -> by nia. destruct Hex as [-> ->]; [done| |right; lia].
    unfold new_location, new_location_even, new_location_odd. by case_match.
  - lia.
Qed.

Lemma f32_spec_of_normal m e : mantissa24 m → -149 ≤ e ≤ 104 → f32_spec (f32_of_spec (S754_finite false m e)) = S754_finite false m e.
Proof.
  intros Hm He. unfold mantissa24 in Hm. unfold f32_of_spec. rewrite (proj2 (N.ltb_ge _ _)) by lia.
  rewrite (N.mod_small (Z.to_N (e + 150))) by lia. set (mf := (Npos m mod 8388608)%N).
  assert (mf = Npos m - 8388608)%N as Hmf. { symmetry. subst mf. apply (N.mod_unique _ _ 1); lia. }
  clearbody mf. set (ef := Z.to_N (e + 150)). assert (1 ≤ ef ≤ 254)%N as Hef by lia.
  assert (0 + ef * 8388608 + mf = ef * 8388608 + mf)%N as -> by lia.
  assert ((ef * 8388608 + mf) / 8388608 = ef)%N as Hdiv by (symmetry; apply (N.div_unique _ _ _ mf); lia).
  unfold f32_spec. assert (f32_sign (ef * 8388608 + mf) = false) as ->.
  { unfold f32_sign. apply N.bits_above_log2. destruct (N.eq_dec (ef * 8388608 + mf) 0) as [->|]; [done|]. apply N.log2_lt_pow2; lia. }
  unfold f32_exponent, f32_mantissa. rewrite N.shiftr_div_pow2. change (2 ^ 23)%N with 8388608%N. rewrite Hdiv, (N.mod_small ef) by lia.
  assert ((ef * 8388608 + mf) mod 8388608 = mf)%N as -> by (symmetry; apply (N.mod_unique _ _ ef); lia).
  unfold f32_fields_spec. rewrite (proj2 (N.eqb_neq _ _)) by lia. rewrite (proj2 (N.eqb_neq _ _)) by lia.
  replace (mf + 8388608)%N with (Npos m) by lia. f_equal. lia.
Qed.

Lemma pos_iter_xO n k : Zpos (Pos.iter xO n k) = Zpos n * 2 ^ Zpos k.
Proof.
  revert n. induction k as [|k IH] using Pos.peano_ind; intros n; [cbn; lia|].
  rewrite Pos.iter_succ, Pos2Z.inj_xO, IH, Pos2Z.inj_succ, Z.pow_succ_r by lia. lia.
Qed.

(** An integer of at most 16 digits, as an [f32]. *)
Lemma f32_of_integer n :
  (0 < n < 65536)%N →
  ∃ m e, f32_spec (f32_of_u8 n) = S754_finite false m e ∧ mantissa24 m ∧ -23 ≤ e ≤ -8 ∧ Zpos m = Z.of_N n * 2 ^ (- e) ∧
    2 ^ (e + 23) ≤ Z.of_N n < 2 ^ (e + 24).
Proof.
  intros Hn. destruct n as [|n]; [lia|]. pose proof (digits2_bounds n) as Hb. set (d := Zpos (digits2_pos n)) in *.
  assert (1 ≤ d) as Hd1 by (subst d; lia). assert (d ≤ 16) as Hd16.
  { destruct (Z.le_gt_cases d 16); [done|]. assert (2 ^ 16 ≤ 2 ^ (d - 1)) by (apply Z.pow_le_mono_r; lia). change (2 ^ 16) with 65536 in *. lia. }
  assert (Zpos (Pos.iter xO n (Z.to_pos (24 - d))) = Zpos n * 2 ^ (24 - d)) as Hi by (rewrite pos_iter_xO, Z2Pos.id by lia; done).
  assert (mantissa24 (Pos.iter xO n (Z.to_pos (24 - d)))) as Hm.
  { unfold mantissa24. rewrite Hi. assert (8388608 = 2 ^ (d - 1) * 2 ^ (24 - d)) as -> by (rewrite <-Z.pow_add_r by lia; replace (d - 1 + (24 - d)) with 23 by lia; done).
    assert (16777216 = 2 ^ d * 2 ^ (24 - d)) as -> by (rewrite <-Z.pow_add_r by lia; replace (d + (24 - d)) with 24 by lia; done).
    assert (0 < 2 ^ (24 - d)) by (apply Z.pow_pos_nonneg; lia). nia. }
  exists (Pos.iter xO n (Z.to_pos (24 - d))), (d - 24). unfold f32_of_u8, binary_normalize. cbn [Z.of_N]. unfold binary_round. fold d.
  assert (shl_align n 0 (fexp 24 128 (d + 0)) = (Pos.iter xO n (Z.to_pos (24 - d)), d - 24)) as ->.
  { unfold shl_align. replace (fexp 24 128 (d + 0)) with (d - 24) by (unfold fexp, emin; lia).
    destruct (d - 24 - 0) as [| |k] eqn:Ek; try lia. replace (Z.to_pos (24 - d)) with k by lia. done. }
  rewrite round_exact by (done || lia). rewrite f32_spec_of_normal by (done || lia). split; [done|]. split; [done|]. split; [lia|].
  split; [rewrite Hi; do 2 f_equal; lia|]. replace (d - 24 + 23) with (d - 1) by lia. by replace (d - 24 + 24) with d by lia.
Qed.

(** A number not above one is a unit value. *)
Lemma small_unit v m e :
  f32_spec v = S754_finite false m e → e < -23 ∨ e = -23 ∧ m = 8388608%positive → is_ok (unit_f32_new v) = true.
Proof.
  intros Hs Hone. unfold unit_f32_new, float_value_new. assert (f32_is_finite v = true) as ->.
  { unfold f32_is_finite. destruct (N.eqb_spec (f32_exponent v) 255) as [Hx|]; [|done]. exfalso. unfold f32_spec, f32_fields_spec in Hs. rewrite Hx in Hs.
    change (255 =? 255)%N with true in Hs. by destruct (f32_mantissa v =? 0)%N. }
  assert (f32_leb f32_zero v = true) as ->. { unfold f32_leb, f32_compare. by rewrite Hs. }
  assert (f32_leb v f32_one = true) as ->.
  { unfold f32_leb, f32_compare. rewrite Hs. assert (f32_spec f32_one = S754_finite false 8388608 (-23)) as -> by (vm_compute; reflexivity). cbn [SFcompare].
    destruct Hone as [Hlt|[-> ->]]; [|done]. by rewrite (proj2 (Z.compare_lt_iff _ _) Hlt). }
  reflexivity.
Qed.

Lemma zero_quotient m e : is_ok (unit_f32_new (f32_of_spec (SFdiv 24 128 (f32_spec (f32_of_u8 0)) (S754_finite false m e)))) = true.
Proof. vm_compute. reflexivity. Qed.

(** The quotient of two small integers, the divisor the larger. *)
Lemma integer_quotient_unit n d :
  (n ≤ d)%N → (0 < d < 65536)%N → is_ok (unit_f32_new (f32_div (f32_of_u8 n) (f32_of_u8 d))) = true.
Proof.
  intros Hnd Hd. destruct (f32_of_integer d Hd) as (m2 & e2 & E2 & Hm2 & He2 & Hv2 & Hb2). unfold f32_div. rewrite E2.
  destruct (N.eq_dec n 0) as [->|Hn0]; [apply zero_quotient|].
  destruct (f32_of_integer n ltac:(lia)) as (m1 & e1 & E1 & Hm1 & He1 & Hv1 & Hb1). rewrite E1.
  assert (e1 ≤ e2) as Hle. { destruct (Z.le_gt_cases e1 e2); [done|]. assert (2 ^ (e2 + 24) ≤ 2 ^ (e1 + 23)) by (apply Z.pow_le_mono_r; lia). lia. }
  destruct (quotient_not_above_one m1 e1 m2 e2 Hm1 Hm2 ltac:(lia)) as (m & e & E & Hm & Hel & Hone).
  { intros ->. rewrite Hv1, Hv2. apply Z.mul_le_mono_nonneg_r; [apply Z.pow_nonneg; lia|lia]. }
  rewrite E. eapply small_unit; [apply f32_spec_of_normal; [done|lia]|done].
Qed.

End quotients.

(** ** Colours *)

Lemma SFcompare_swap x y :
  SFcompare y x = match SFcompare x y with Some c => Some (CompOpp c) | None => None end.
Proof.
  destruct x as [[]|[]| |[] m e], y as [[]|[]| |[] m' e']; cbn [SFcompare CompOpp]; try done;
    rewrite (Z.compare_antisym e e'); destruct (e ?= e')%Z; cbn [CompOpp]; try done.
  all: change (Pcompare m' m Eq) with (Pos.compare m' m); change (Pcompare m m' Eq) with (Pos.compare m m');
    rewrite (Pos.compare_antisym m m'); by destruct (m ?= m')%positive.
Qed.

Lemma SFcompare_total x y : x ≠ S754_nan → y ≠ S754_nan → SFcompare x y ≠ None.
Proof. destruct x as [[]|[]| |[] m e], y as [[]|[]| |[] m' e']; cbn [SFcompare]; intros; try done; by destruct (e ?= e')%Z. Qed.

Lemma finite_not_nan v : f32_is_finite v = true → f32_spec v ≠ S754_nan.
Proof.
  unfold f32_is_finite, f32_spec, f32_fields_spec. destruct (f32_exponent v =? 255); [done|]. intros _.
  destruct (f32_exponent v =? 0); [by destruct (f32_mantissa v)|]. destruct (f32_mantissa v + 8388608) eqn:E; [lia|done].
Qed.

(** A clamped value is in the unit interval. *)
Lemma clamped_unit v : f32_is_finite v = true → is_ok (unit_f32_new (f32_clamp_unit v)) = true.
Proof.
  intros Hf. unfold f32_clamp_unit. destruct (f32_ltb v f32_zero) eqn:H0; [by vm_compute|]. destruct (f32_ltb f32_one v) eqn:H1; [by vm_compute|].
  assert (f32_leb f32_zero v = true) as Hlo.
  { unfold f32_ltb, f32_leb, f32_compare in *. rewrite SFcompare_swap. pose proof (SFcompare_total (f32_spec v) (f32_spec f32_zero) (finite_not_nan v Hf)).
    destruct (SFcompare (f32_spec v) (f32_spec f32_zero)) as [[]|]; try done. by destruct H. }
  assert (f32_leb v f32_one = true) as Hhi.
  { unfold f32_ltb, f32_leb, f32_compare in *. rewrite SFcompare_swap. pose proof (SFcompare_total (f32_spec f32_one) (f32_spec v) ltac:(done) (finite_not_nan v Hf)).
    destruct (SFcompare (f32_spec f32_one) (f32_spec v)) as [[]|]; done. }
  unfold unit_f32_new, float_value_new. by rewrite Hf, Hlo, Hhi.
Qed.

Lemma normalized_unit n top : n < 2 ^ 8 ∧ top = 255 ∨ n < 2 ^ 16 ∧ top = 65535 → is_ok (unit_f32_new (f32_div (f32_of_u8 n) (f32_of_u8 top))) = true.
Proof. intros [[Hn ->]|[Hn ->]]; apply integer_quotient_unit; change (2 ^ 8) with 256 in *; change (2 ^ 16) with 65536 in *; lia. Qed.

Section colors.
Context (binary : bytes) (l : AccessorLayout) (width : N) (Hl : readable binary ExColors l width).

(** A colour component is a unit value or not finite. *)
Lemma color_component_cases index component :
  index < ly_count l → (component < ly_component_count l)%nat →
  match color_component binary l index (component_start l width index 0) component width with
  | Ok _ => True | Err e => ad_code e = AdInvalidColor | _ => False
  end.
Proof.
  intros Hi Hc. destruct (rd_inside _ _ _ _ Hl index component Hi Hc) as [_ Hu]. unfold color_component. unfold checked_add at 1.
  rewrite <-component_start_step. assert ((component_start l width index component <=? u64_max) = true) as -> by (apply N.leb_le; lia).
  cbn [expect out_bind]. pose proof (rd_expected _ _ _ _ Hl) as [_ Ht]. cbn in Ht. pose proof (rd_width _ _ _ _ Hl) as Hw.
  assert ((if ly_component_type l =? UNSIGNED_BYTE then Ok (component_start l width index component + 1)
    else expect (usize_add (component_start l width index component) width)) = (Ok (component_start l width index component + width) : outcome AssetDiagnostic N)) as ->.
  { destruct (N.eqb_spec (ly_component_type l) UNSIGNED_BYTE) as [E|_]; [rewrite E in Hw; by injection Hw as <-|].
    unfold checked_add. by assert ((component_start l width index component + width <=? u64_max) = true) as -> by (apply N.leb_le; lia). }
  cbn [out_bind]. rewrite (component_range _ _ _ _ Hl) by done. cbn [ok_or out_bind].
  destruct (N.eqb_spec (ly_component_type l) FLOAT) as [Hfl|Hnf].
  - unfold finite_f32_new, float_value_new. destruct (f32_is_finite _) eqn:Hfin; cbn [negb map_err out_bind]; [|done].
    set (value := if f32_eqb _ _ then _ else _). assert (f32_is_finite value = true) as Hv by (subst value; by destruct (f32_eqb _ _)).
    pose proof (clamped_unit value Hv) as Hok. by destruct (unit_f32_new _).
  - assert (from_le_bytes (component_slice binary l width index component) < 256 ^ width) as Hlt.
    { unfold from_le_bytes. eapply N.lt_le_trans; [apply from_be_bytes_lt|]. rewrite length_rev. unfold component_slice.
      apply N.pow_le_mono_r; [done|]. rewrite length_take. lia. }
    destruct (N.eqb_spec (ly_component_type l) UNSIGNED_BYTE) as [Hb|Hnb]; cbn [out_bind].
    + rewrite Hb in Hw. injection Hw as <-. pose proof (normalized_unit _ 255 (or_introl (conj Hlt eq_refl))) as Hok. by destruct (unit_f32_new _).
    + rewrite !elem_of_cons, elem_of_nil in Ht. destruct Ht as [Hct|[Hct|[Hct|[]]]]; [by destruct Hnb| |by destruct Hnf].
      rewrite Hct in Hw. injection Hw as <-. pose proof (normalized_unit _ 65535 (or_intror (conj Hlt eq_refl))) as Hok. by destruct (unit_f32_new _).
Qed.

Lemma read_color_0_shape index :
  index < ly_count l →
  match read_color_0 binary l index with
  | Ok vs => length vs = 4%nat | Err e => ad_code e = AdInvalidColor | _ => False
  end.
Proof.
  intros Hi. pose proof (rd_expected _ _ _ _ Hl) as [Hn Ht]. pose proof (rd_width _ _ _ _ Hl) as Hw. unfold read_color_0.
  rewrite (element_offset_ok _ _ _ _ Hl) by done. cbn [out_bind].
  assert ((if ly_component_type l =? UNSIGNED_BYTE then Some 1 else if ly_component_type l =? UNSIGNED_SHORT then Some 2
           else if ly_component_type l =? FLOAT then Some 4 else None) = Some width) as ->.
  { rewrite !elem_of_cons, elem_of_nil in Ht. destruct Ht as [E|[E|[E|[]]]]; rewrite E in *; exact Hw. }
  cbn [ok_or out_bind].
  assert (∀ components acc, (components ≤ ly_component_count l)%nat →
    match out_fold (λ values component, let! value := color_component binary l index (component_start l width index 0) component width in
      Ok (values ++ [value])) acc (seq 0 components) with
    | Ok _ => True | Err e => ad_code e = AdInvalidColor | _ => False end) as Hf.
  { intros components acc Hle. assert (∀ c, c ∈ seq 0 components → (c < ly_component_count l)%nat) as Hall by (intros c Hc%list_elem_of_In%in_seq; lia).
    revert acc Hall. generalize (seq 0 components). intros cs. induction cs as [|c cs IH]; intros acc Hall; cbn [out_fold]; [done|].
    pose proof (color_component_cases index c Hi (Hall c (list_elem_of_here _ _))) as Hc.
    destruct (color_component _ _ _ _ _ _); cbn [out_bind]; [|done..]. apply IH. intros. apply Hall. by right. }
  specialize (Hf (Nat.min 4 (ly_component_count l)) [] ltac:(lia)). destruct (out_fold _ _ _) as [vs| | |]; cbn [out_bind]; [|done..].
  rewrite length_take, length_app. cbn [length]. lia.
Qed.

End colors.

(** Accessors read inside their view: laying out an accessor never panics,
    and in an accepted layout component [c] of element [i] is the number of exactly [width] bytes at
    the view's offset plus the accessor's offset plus [i] strides plus [c]
    widths, all inside the view and inside the binary chunk. *)
Theorem accessor_reads_in_view root binary index ex quantization :
  normal (accessor_layout root binary index ex quantization) ∧
  ∀ l, accessor_layout root binary index ex quantization = Ok l →
  ∃ a v width, layout_ok root binary index ex l a v width ∧
    ∀ i c location, i < ac_count a → (c < ly_component_count l)%nat →
      let first := bv_byte_offset v + ac_byte_offset a + i * ly_stride l + N.of_nat c * width in
      bv_byte_offset v ≤ first ∧ first + width ≤ bv_byte_offset v + bv_byte_length v ∧ first + width ≤ N.of_nat (length binary) ∧
      read_raw_component binary l i c location
      = Ok (component_number (ac_component_type a) (take (N.to_nat width) (drop (N.to_nat first) binary))).
Proof.
  split; [apply accessor_layout_normal|]. intros l (a & v & width & Hl)%accessor_layout_ok. exists a, v, width. split; [done|]. intros i c location Hi Hc first.
  rewrite <-(ll_count _ _ _ _ _ _ _ _ Hl) in Hi. destruct (component_inside _ _ _ _ _ _ _ _ _ _ Hl Hi Hc) as [H1 H2].
  assert (first = component_start l width i c) as Hfirst by (unfold component_start; by rewrite (ll_start _ _ _ _ _ _ _ _ Hl)).
  rewrite Hfirst. pose proof (ll_view_end _ _ _ _ _ _ _ _ Hl). split_and!; [done|done|lia|].
  rewrite (read_raw_component_ok _ _ _ _ (layout_readable _ _ _ _ _ _ _ _ Hl)) by done. by rewrite (ll_type _ _ _ _ _ _ _ _ Hl).
Qed.

(** A view of two positions after four bytes of indices. *)
Definition sample_root : Root :=
  mkRoot "2.0" [mkGlbBuffer 28 None] [mkBufferView 0 4 24 None] [mkAccessor 0 0 FLOAT 2 "VEC3" false None None] [] [] [] [] [].
Definition sample_binary : bytes := repeat x00 8 ++ [x00; x00; x80; x3f] ++ repeat x00 16.

Lemma accessor_reads_in_view_witness :
  ∃ l, accessor_layout sample_root sample_binary 0 ExPositions false = Ok l ∧
    read_raw_component sample_binary l 0 1 "position" = Ok (component_number FLOAT [x00; x00; x80; x3f]).
Proof.
  assert (is_ok (accessor_layout sample_root sample_binary 0 ExPositions false) = true) as Hok by (vm_compute; reflexivity).
  destruct (accessor_layout sample_root sample_binary 0 ExPositions false) as [l| | |] eqn:E; try discriminate Hok.
  exists l. split; [reflexivity|]. destruct (proj2 (accessor_reads_in_view sample_root sample_binary 0 ExPositions false) l E) as (a & v & width & Hl & Hread).
  pose proof (ll_accessor _ _ _ _ _ _ _ _ Hl) as Ha. pose proof (ll_view _ _ _ _ _ _ _ _ Hl) as Hv. pose proof (ll_width _ _ _ _ _ _ _ _ Hl) as Hw.
  pose proof (ll_type _ _ _ _ _ _ _ _ Hl) as Ht. pose proof (ll_components _ _ _ _ _ _ _ _ Hl) as Hc. cbn in Hc.
  injection Ha as <-. injection Hv as <-. rewrite Ht in Hw. injection Hw as <-.
  destruct (Hread 0 1%nat "position") as (_ & _ & _ & ->); [vm_compute; reflexivity|rewrite Hc; lia|]. reflexivity.
Defined.
