(* ===== verification/GlbMesh.v ===== *)
(** * GLB meshes

    Decoding one mesh of cogniform-assets/src/glb.rs: the primitive and the
    layouts of its attributes, the vertices in the order of the indices, the
    material with its textures, and the tangents that are generated when a normal
    texture needs them.  The tangent generator is the bevy_mikktspace crate, and
    sine and cosine are platform functions: both are parameters. *)

From S2P Require Import Prelude Machine Ordering BTree Floats Values Components Messages Imagination Codec Compilation Hash Compiler World AssetTypes RenderScene Recovery Engine Frame ScenePrepare Sums AssetStore RendererAssets Glb.

Open Scope N_scope.

(** ** Material extensions *)

Record MaterialOptics := mkOptics {
  op_ior : f32;
  op_dielectric_f0 : f32;
}.

Record PendingTextureInfo := mkPendingTexture {
  pt_index : N;
  pt_texture_coordinate_set : N;
  pt_transform : AssetTextureTransform;
  pt_scale : f32;
}.

Record MaterialSpecular := mkSpecular {
  sp_factor : f32;
  sp_color_factor : list f32;
  sp_texture : option PendingTextureInfo;
  sp_color_texture : option PendingTextureInfo;
}.

Record MaterialAnisotropy := mkAnisotropy {
  an_present : bool;
  an_strength : f32;
  an_rotation : f32;
  an_texture : option PendingTextureInfo;
}.

Record MaterialClearcoat := mkClearcoat {
  cc_factor : f32;
  cc_roughness_factor : f32;
  cc_texture : option PendingTextureInfo;
  cc_roughness_texture : option PendingTextureInfo;
  cc_normal_texture : option PendingTextureInfo;
}.

Record MaterialSheen := mkSheen {
  sh_color_factor : list f32;
  sh_roughness_factor : f32;
  sh_color_texture : option PendingTextureInfo;
  sh_roughness_texture : option PendingTextureInfo;
}.

Record MaterialTextureTransform := mkMaterialTransform {
  tt_transform : AssetTextureTransform;
  tt_texture_coordinate_set : option N;
}.

Record MaterialTextureTransforms := mkMaterialTransforms {
  tr_base_color : option MaterialTextureTransform;
  tr_emissive : option MaterialTextureTransform;
  tr_metallic_roughness : option MaterialTextureTransform;
  tr_normal : option MaterialTextureTransform;
}.
Definition no_transforms : MaterialTextureTransforms := mkMaterialTransforms None None None None.

Record ExtensionPreflight := mkPreflight {
  ep_unsupported : option AssetDiagnostic;
  ep_mesh_quantization_required : bool;
  ep_unlit_materials : list bool;
  ep_emissive_strengths : list f32;
  ep_material_optics : list MaterialOptics;
  ep_material_specular : list MaterialSpecular;
  ep_material_anisotropy : list MaterialAnisotropy;
  ep_material_clearcoat : list MaterialClearcoat;
  ep_material_sheen : list MaterialSheen;
  ep_texture_transforms : list MaterialTextureTransforms;
}.

(** [material_optics]. *)
Definition material_optics (value : f32) : option MaterialOptics :=
  match finite_f32_new value with
  | Ok ior =>
      if negb (f32_eqb ior f32_zero) && f32_ltb ior f32_one then None else
      let dielectric_f0 :=
        if f32_eqb ior f32_zero then f32_one
        else
          let ior := f64_of_f32 ior in
          let ratio := f64_div (f64_sub ior f64_one) (f64_add ior f64_one) in
          f32_of_f64 (f64_mul ratio ratio) in
      match unit_f32_new dielectric_f0 with Ok f0 => Some (mkOptics ior f0) | _ => None end
  | _ => None
  end.

Definition default_material_specular : MaterialSpecular := mkSpecular f32_one [f32_one; f32_one; f32_one] None None.
Definition default_material_anisotropy : MaterialAnisotropy := mkAnisotropy false f32_zero f32_zero None.
Definition default_material_clearcoat : MaterialClearcoat := mkClearcoat f32_zero f32_zero None None None.
Definition default_material_sheen : MaterialSheen := mkSheen [f32_zero; f32_zero; f32_zero] f32_zero None None.

(** The entry of a material in a list of the preflight. *)
Definition entry {A} (material_index : option N) (l : list A) : option A :=
  index ← material_index; if index <? N.of_nat (length l) then l !! N.to_nat index else None.

(** ** Primitives and attributes *)

Definition attribute (attributes : list (string * N)) (name : string) : option N :=
  snd <$> find (λ a, bool_decide (a.1 = name)) attributes.

(** [validated_primitive]. *)
Definition validated_primitive (mesh : list Primitive) (limits : AssetLimits) (mesh_index : N) : outcome AssetDiagnostic Primitive :=
  do! guard_err (length mesh =? 0)%nat (mkDiagnostic AdInvalidJson "glb.json.meshes[].primitives" (Some mesh_index)) then
  do! guard_err (negb (length mesh =? 1)%nat || (al_max_primitives_per_mesh limits <? count (length mesh)))
    (mkDiagnostic AdCollectionLimitExceeded "glb.json.meshes[].primitives" (Some mesh_index)) then
  let! p := expect (head mesh) in
  do! guard_err (MAX_PRIMITIVE_ATTRIBUTES <? length (pr_attributes p))%nat
    (mkDiagnostic AdCollectionLimitExceeded "glb.json.meshes[].primitives[].attributes" (Some mesh_index)) then
  do! guard_err (negb (is_some (attribute (pr_attributes p) "POSITION")))
    (mkDiagnostic AdInvalidJson "glb.json.meshes[].primitives[].attributes.POSITION" (Some mesh_index)) then
  Ok p.

Record VertexLayouts := mkLayouts {
  vl_position_index : N;
  vl_positions : AccessorLayout;
  vl_normals : option AccessorLayout;
  vl_tangents : option AccessorLayout;
  vl_texcoords : option AccessorLayout * option AccessorLayout;
  vl_texcoord_set_count : nat;
  vl_colors : option AccessorLayout;
  vl_has_unsupported_attributes : bool;
}.

(** [str::strip_prefix]. *)
Fixpoint strip_prefix (prefix s : string) : option string :=
  match prefix, s with
  | EmptyString, s => Some s
  | String a prefix, String b s => if Ascii.eqb a b then strip_prefix prefix s else None
  | String _ _, EmptyString => None
  end.

Definition ascii_digit (a : Ascii.ascii) : option N :=
  let n := Ascii.N_of_ascii a in if (48 <=? n) && (n <=? 57) then Some (n - 48) else None.

(** The value of a text of digits. *)
Fixpoint decimal (acc : N) (s : string) : option N :=
  match s with
  | EmptyString => Some acc
  | String a s => digit ← ascii_digit a; decimal (10 * acc + digit) s
  end.

(** The set index of a suffix: digits without a leading zero, within [u32]. *)
Definition set_index_of (suffix : string) : option N :=
  if (String.length suffix =? 0)%nat || ((1 <? String.length suffix)%nat && is_some (strip_prefix "0" suffix)) then None
  else v ← decimal 0 suffix; if v <=? u32_max then Some v else None.

(** The sets of a semantic, from the attributes in key order. *)
Definition semantic_sets (prefix : string) (code : AssetDiagnosticCode) (location : string) (attributes : list (string * N))
    : outcome AssetDiagnostic (gmap N N) :=
  out_fold (λ sets a,
    match strip_prefix prefix a.1 with
    | None => Ok sets
    | Some suffix => let! set := ok_or (set_index_of suffix) (mkDiagnostic code location (Some a.2)) in Ok (<[set := a.2]> sets)
    end) ∅ attributes.

Section layouts.
Context (root : Root) (binary : bytes) (limits : AssetLimits).

(** The layout of one set, checked once per accessor. *)
Definition set_layout (lay : N → outcome AssetDiagnostic AccessorLayout) (validate : AccessorLayout → outcome AssetDiagnostic unit)
    (count_location : string) (validated : gmap N AccessorLayout) (index : N) : outcome AssetDiagnostic (AccessorLayout * gmap N AccessorLayout) :=
  match validated !! index with
  | Some l => Ok (l, validated)
  | None =>
      let! l := lay index in
      do! validate_source_attribute_count l limits count_location index then
      do! validate l then
      do! validate_accessor_bounds binary l then
      Ok (l, <[index := l]> validated)
  end.

(** One turn of the loop over the sets; the state is the expected set, the
    checked accessors and the retained layouts. *)
Definition sets_step (lay : N → outcome AssetDiagnostic AccessorLayout) (validate : AccessorLayout → outcome AssetDiagnostic unit)
    (code : AssetDiagnosticCode) (location count_location : string) (positions : AccessorLayout)
    (state : N * gmap N AccessorLayout * gmap N AccessorLayout) (set : N * N)
    : outcome AssetDiagnostic (N * gmap N AccessorLayout * gmap N AccessorLayout) :=
  let '(expected_set, validated, retained) := state in
  let '(set_index, index) := set in
  do! guard_err (negb (set_index =? expected_set)) (mkDiagnostic code location (Some index)) then
  let! (l, validated) := set_layout lay validate count_location validated index in
  do! guard_err (negb (ly_count l =? ly_count positions)) (mkDiagnostic code count_location (Some index)) then
  Ok (expected_set + 1, validated, <[set_index := l]> retained).

(** [texcoord_layouts]: the first two sets, how many there are, and whether
    there are more. *)
Definition texcoord_layouts (p : Primitive) (positions : AccessorLayout) (quantization : bool)
    : outcome AssetDiagnostic (option AccessorLayout * option AccessorLayout * nat * bool) :=
  let location := "glb.json.meshes[].primitives[].attributes.TEXCOORD_n" in
  let! sets := semantic_sets "TEXCOORD_" AdInvalidTexcoord location (pr_attributes p) in
  let! (_, _, retained) := out_fold
    (sets_step (λ index, accessor_layout root binary index ExTexcoords quantization) (validate_texcoords binary)
       AdInvalidTexcoord location "glb.json.accessors.texcoord_n.count" positions) (0, ∅, ∅) (btree_iter sets) in
  Ok (retained !! 0, retained !! 1, size sets, (2 <? size sets)%nat).

(** [color_layouts]. *)
Definition color_layouts (p : Primitive) (positions : AccessorLayout) : outcome AssetDiagnostic (option AccessorLayout * bool) :=
  let location := "glb.json.meshes[].primitives[].attributes.COLOR_n" in
  let! sets := semantic_sets "COLOR_" AdInvalidColor location (pr_attributes p) in
  let lay index := map_err (λ e,
    match ad_code e with AdUnsupportedAccessor => mkDiagnostic AdInvalidColor "glb.json.accessors.color_0" (Some index) | _ => e end)
    (accessor_layout root binary index ExColors false) in
  let! (_, _, retained) := out_fold
    (sets_step lay (validate_colors binary) AdInvalidColor location "glb.json.accessors.color_0.count" positions) (0, ∅, ∅) (btree_iter sets) in
  Ok (retained !! 0, (1 <? size sets)%nat).

(** [optional_attribute_layout]. *)
Definition optional_attribute_layout (p : Primitive) (ex : AccessorExpectation) (quantization : bool)
    : outcome AssetDiagnostic (option AccessorLayout) :=
  let! (semantic, count_location) :=
    match ex with
    | ExNormals => Ok ("NORMAL", "glb.json.accessors.normal.count")
    | ExTangents => Ok ("TANGENT", "glb.json.accessors.tangent.count")
    | _ => Panic
    end in
  match attribute (pr_attributes p) semantic with
  | None => Ok None
  | Some index =>
      let! l := accessor_layout root binary index ex quantization in
      do! validate_source_attribute_count l limits count_location index then
      Ok (Some l)
  end.

Definition is_supported_attribute (name : string) : bool :=
  bool_decide (name ∈ ["POSITION"; "NORMAL"; "TANGENT"]) || is_some (strip_prefix "COLOR_" name) || is_some (strip_prefix "TEXCOORD_" name).

(** The count of an optional attribute is that of the positions. *)
Definition same_count (l : option AccessorLayout) (positions : AccessorLayout) (code : AssetDiagnosticCode) (location : string)
    : outcome AssetDiagnostic unit :=
  match l with
  | Some l => guard_err (negb (ly_count l =? ly_count positions)) (mkDiagnostic code location (Some (ly_accessor_index l)))
  | None => Ok tt
  end.

(** [vertex_layouts]. *)
Definition vertex_layouts (p : Primitive) (quantization : bool) : outcome AssetDiagnostic VertexLayouts :=
  let! position_index := expect (attribute (pr_attributes p) "POSITION") in
  let! positions := accessor_layout root binary position_index ExPositions quantization in
  do! validate_source_attribute_count positions limits "glb.json.accessors.position.count" position_index then
  let! normals := optional_attribute_layout p ExNormals quantization in
  do! same_count normals positions AdInvalidNormal "glb.json.accessors.normal.count" then
  let! tangents := optional_attribute_layout p ExTangents quantization in
  do! same_count tangents positions AdInvalidTangent "glb.json.accessors.tangent.count" then
  let! (texcoord_0, texcoord_1, sets, wider_texcoords) := texcoord_layouts p positions quantization in
  let! (colors, wider_colors) := color_layouts p positions in
  Ok (mkLayouts position_index positions normals tangents (texcoord_0, texcoord_1) sets colors
        (wider_colors || wider_texcoords || existsb (λ a, negb (is_supported_attribute a.1)) (pr_attributes p))).

(** [output_layout]. *)
Definition output_layout (p : Primitive) (positions : AccessorLayout) (position_index : N)
    : outcome AssetDiagnostic (option AccessorLayout * N) :=
  match pr_indices p with
  | Some index =>
      let! l := accessor_layout root binary index ExIndices false in
      do! guard_err ((al_max_indices_per_mesh limits <? ly_count l) || negb (ly_count l mod 3 =? 0))
        (mkDiagnostic AdCollectionLimitExceeded "glb.json.accessors.indices.count" (Some index)) then
      Ok (Some l, ly_count l)
  | None =>
      do! guard_err (negb (ly_count positions mod 3 =? 0))
        (mkDiagnostic AdUnsupportedPrimitiveMode "glb.json.accessors.position.count" (Some position_index)) then
      Ok (None, ly_count positions)
  end.

End layouts.

(** ** Vertices *)

Definition zeros (n : nat) : list f32 := replicate n f32_zero.
Definition default_tangent : list f32 := [f32_one; f32_zero; f32_zero; f32_one].

(** An optional attribute, read or defaulted. *)
Definition read_or (read : AccessorLayout → outcome AssetDiagnostic (list f32)) (default : list f32) (l : option AccessorLayout)
    : outcome AssetDiagnostic (list f32) :=
  match l with Some l => read l | None => Ok default end.

(** One vertex of the loop of [decode_vertices]. *)
Definition decode_vertex (binary : bytes) (ls : VertexLayouts) (indices : option AccessorLayout) (output_index : N)
    : outcome AssetDiagnostic AssetVertex :=
  let! at_ := match indices with Some l => read_index binary l output_index | None => Ok output_index end in
  do! guard_err (ly_count (vl_positions ls) <=? at_) (mkDiagnostic AdInvalidIndex "glb.binary.indices" (Some output_index)) then
  let! position := read_position binary (vl_positions ls) at_ in
  let! normal := read_or (λ l, read_normal binary l at_) (zeros 3) (vl_normals ls) in
  let! tangent := read_or (λ l, read_tangent binary l at_) default_tangent (vl_tangents ls) in
  let! texcoord_0 := read_or (λ l, read_texcoord binary l at_) (zeros 2) (vl_texcoords ls).1 in
  let! texcoord_1 := read_or (λ l, read_texcoord binary l at_) (zeros 2) (vl_texcoords ls).2 in
  let! color_0 := read_or (λ l, read_color_0 binary l at_) (replicate 4 f32_one) (vl_colors ls) in
  Ok (mkAssetVertex position normal tangent texcoord_0 color_0 texcoord_1).

Definition set_normal (normal : list f32) (v : AssetVertex) : AssetVertex :=
  mkAssetVertex (vx_position v) normal (vx_tangent v) (vx_texcoord_0 v) (vx_color_0 v) (vx_texcoord_1 v).
Definition set_tangent (tangent : list f32) (v : AssetVertex) : AssetVertex :=
  mkAssetVertex (vx_position v) (vx_normal v) tangent (vx_texcoord_0 v) (vx_color_0 v) (vx_texcoord_1 v).

(** The normals of the faces, triangle by triangle. *)
Fixpoint with_face_normals (vertices : list AssetVertex) : outcome AssetDiagnostic (list AssetVertex) :=
  match vertices with
  | a :: b :: c :: rest =>
      let! normal := face_normal (vx_position a) (vx_position b) (vx_position c) in
      let! rest := with_face_normals rest in
      Ok (set_normal normal a :: set_normal normal b :: set_normal normal c :: rest)
  | rest => Ok rest
  end.

Definition handedness (v : AssetVertex) : f32 := nth 3 (vx_tangent v) f32_zero.

(** [validate_triangle_tangent_handedness] from a triangle on. *)
Fixpoint validate_handedness_from (triangle : nat) (vertices : list AssetVertex) (location : string) : outcome AssetDiagnostic unit :=
  match vertices with
  | a :: b :: c :: rest =>
      do! guard_err (negb (handedness b =? handedness a) || negb (handedness c =? handedness a))
        (mkDiagnostic AdInvalidTangent location (Some (stable_index triangle))) then
      validate_handedness_from (S triangle) rest location
  | _ => Ok tt
  end.
Definition validate_triangle_tangent_handedness := validate_handedness_from 0.

(** [decode_vertices]. *)
Definition decode_vertices (binary : bytes) (ls : VertexLayouts) (indices : option AccessorLayout) (output_count : N)
    : outcome AssetDiagnostic (list AssetVertex) :=
  let! vertices := out_fold (λ vertices output_index,
    let! v := decode_vertex binary ls indices output_index in Ok (vertices ++ [v])) [] (indices_below output_count) in
  let! vertices := match vl_normals ls with None => with_face_normals vertices | Some _ => Ok vertices end in
  do! match vl_tangents ls with
      | Some _ => validate_triangle_tangent_handedness vertices "glb.decoded.triangle_tangent_handedness"
      | None => Ok tt
      end then
  Ok vertices.

(** [validate_vertex_sources]. *)
Definition validate_optional (validate : bytes → AccessorLayout → outcome AssetDiagnostic unit) (binary : bytes) (l : option AccessorLayout)
    : outcome AssetDiagnostic unit :=
  match l with Some l => do! validate binary l then validate_accessor_bounds binary l | None => Ok tt end.

Definition validate_vertex_sources (binary : bytes) (ls : VertexLayouts) : outcome AssetDiagnostic unit :=
  do! validate_optional validate_positions binary (Some (vl_positions ls)) then
  do! validate_optional validate_normals binary (vl_normals ls) then
  validate_optional validate_tangents binary (vl_tangents ls).

(** ** Texture coordinates *)

(** [vertex_texture_coordinate]; other sets are unreachable. *)
Definition vertex_texture_coordinate (v : AssetVertex) (set : N) : outcome AssetDiagnostic (f32 * f32) :=
  let pair (l : list f32) := (nth 0 l f32_zero, nth 1 l f32_zero) in
  if set =? 0 then Ok (pair (vx_texcoord_0 v)) else if set =? 1 then Ok (pair (vx_texcoord_1 v)) else Panic.

(** The roles that [validate_transformed_texture_coordinates] checks before the
    anisotropy texture. *)
Definition transformed_roles : list AssetTextureRole :=
  [RoleBaseColor; RoleEmissive; RoleMetallicRoughness; RoleNormal; RoleSpecular; RoleSpecularColor; RoleClearcoat; RoleClearcoatRoughness;
   RoleClearcoatNormal].

Definition role_transform (m : AssetMaterial) (role : AssetTextureRole) : option (AssetTextureTransform * N) :=
  t ← texture_transform m (role_index role); set ← texture_coordinate_set m (role_index role); Some (t, set).

Definition validate_transformed (vertices : list AssetVertex) (mesh_index : N) (source : option (AssetTextureTransform * N))
    : outcome AssetDiagnostic unit :=
  match source with
  | None => Ok tt
  | Some (t, set) =>
      out_fold (λ _ v,
        let! coordinate := vertex_texture_coordinate v set in
        guard_err (negb (is_some (apply_texture_transform t coordinate)))
          (mkDiagnostic AdInvalidTexcoord "glb.decoded.texture_transform" (Some mesh_index))) tt vertices
  end.

(** [validate_transformed_texture_coordinates]. *)
Definition validate_transformed_texture_coordinates (vertices : list AssetVertex) (m : AssetMaterial)
    (anisotropy_texture : option PendingTextureInfo) (mesh_index : N) : outcome AssetDiagnostic unit :=
  out_fold (λ _ source, validate_transformed vertices mesh_index source) tt
    ((role_transform m <$> transformed_roles)
     ++ [(λ info, (pt_transform info, pt_texture_coordinate_set info)) <$> anisotropy_texture]).

(** [validate_selected_texture_coordinates]. *)
Definition validate_selected_texture_coordinates (selected : list (option N)) (available : nat) (mesh_index : N)
    : outcome AssetDiagnostic unit :=
  out_fold (λ _ set, guard_err (N.of_nat available <=? set)
    (mkDiagnostic AdInvalidTexcoord "glb.json.meshes[].primitives[].attributes.TEXCOORD_n" (Some mesh_index))) tt (omap id selected).

(** [effective_texture_coordinate_set] and [retained_texture_coordinate_set]. *)
Definition effective_texture_coordinate_set (core : option N) (transform : option MaterialTextureTransform) : N :=
  match transform ≫= tt_texture_coordinate_set with Some set => set | None => default 0 core end.
Definition retained_texture_coordinate_set (set : N) : N := if set =? 1 then 1 else 0.

(** The textures of the core material. *)
Definition base_color_info (m : GlbMaterial) : option TextureInfo := gmt_pbr_metallic_roughness m ≫= pbr_base_color_texture.
Definition metallic_roughness_info (m : GlbMaterial) : option TextureInfo := gmt_pbr_metallic_roughness m ≫= pbr_metallic_roughness_texture.

(** [material_texture_coordinate_sets]. *)
Definition material_texture_coordinate_sets (root : Root) (material_index : option N) (t : MaterialTextureTransforms) : list (option N) :=
  let source := entry material_index (rt_materials root) in
  [(λ info, effective_texture_coordinate_set (ti_tex_coord info) (tr_base_color t)) <$> (source ≫= base_color_info);
   (λ info, effective_texture_coordinate_set (ti_tex_coord info) (tr_emissive t)) <$> (source ≫= gmt_emissive_texture);
   (λ info, effective_texture_coordinate_set (ti_tex_coord info) (tr_metallic_roughness t)) <$> (source ≫= metallic_roughness_info);
   (λ info, effective_texture_coordinate_set (ni_tex_coord info) (tr_normal t)) <$> (source ≫= gmt_normal_texture)].

(** [validate_material_texture_coordinate_sets]. *)
Definition validate_material_texture_coordinate_sets (root : Root) (p : Primitive) (x : ExtensionPreflight) (available : nat) (mesh_index : N)
    : outcome AssetDiagnostic unit :=
  let pending {A} (l : list A) (f : A → option PendingTextureInfo) := pt_texture_coordinate_set <$> (entry (pr_material p) l ≫= f) in
  let transforms := default no_transforms (entry (pr_material p) (ep_texture_transforms x)) in
  do! validate_selected_texture_coordinates (material_texture_coordinate_sets root (pr_material p) transforms) available mesh_index then
  do! validate_selected_texture_coordinates [pending (ep_material_specular x) sp_texture; pending (ep_material_specular x) sp_color_texture]
    available mesh_index then
  do! validate_selected_texture_coordinates [pending (ep_material_anisotropy x) an_texture] available mesh_index then
  do! validate_selected_texture_coordinates
    [pending (ep_material_clearcoat x) cc_texture; pending (ep_material_clearcoat x) cc_roughness_texture;
     pending (ep_material_clearcoat x) cc_normal_texture] available mesh_index then
  validate_selected_texture_coordinates [pending (ep_material_sheen x) sh_color_texture; pending (ep_material_sheen x) sh_roughness_texture]
    available mesh_index.

(** ** Samplers *)

(** A numeric enumeration with a default. *)
Definition enum_of {A} (table : list (N * A)) (default_ : N) (value : option N) : option A :=
  snd <$> find (λ e, e.1 =? default default_ value) table.

(** [decode_sampler]. *)
Definition decode_sampler (index : N) (s : GlbSampler) : outcome AssetDiagnostic AssetSampler :=
  let invalid location := mkDiagnostic AdInvalidJson location (Some index) in
  let wraps := [(33071, ClampToEdge); (33648, MirroredRepeat); (10497, Repeat)] in
  let! mag_filter := ok_or (enum_of [(9728, FilterNearest); (9729, FilterLinear)] 9729 (smp_mag_filter s))
    (invalid "glb.json.samplers[].magFilter") in
  let! min_filter := ok_or (enum_of [(9728, MinNearest); (9729, MinLinear); (9984, MinNearestMipmapNearest); (9985, MinLinearMipmapNearest);
      (9986, MinNearestMipmapLinear); (9987, MinLinearMipmapLinear)] 9729 (smp_min_filter s))
    (invalid "glb.json.samplers[].minFilter") in
  let! wrap_s := ok_or (enum_of wraps 10497 (smp_wrap_s s)) (invalid "glb.json.samplers[].wrapS") in
  let! wrap_t := ok_or (enum_of wraps 10497 (smp_wrap_t s)) (invalid "glb.json.samplers[].wrapT") in
  Ok (mkSampler mag_filter min_filter wrap_s wrap_t).

(** [texture_sampler]. *)
Definition root_texture_sampler (root : Root) (texture_index : N) : outcome AssetDiagnostic AssetSampler :=
  let! t := get (rt_textures root) texture_index "glb.json.materials.texture.index" in
  match tex_sampler t with
  | None => Ok LINEAR_REPEAT
  | Some sampler_index =>
      let! s := get (rt_samplers root) sampler_index "glb.json.textures[].sampler" in
      decode_sampler sampler_index s
  end.

(** ** Materials *)

(** The texture builders share their signature. *)
Abbreviation Builder := (AssetSampler → AssetTextureTransform → N → AssetMaterial → outcome AssetDiagnostic AssetMaterial).

Section materials.
Context (sin_cos : f32 → f32 * f32).

(** Each of the values is in the unit interval. *)
Definition unit_values (values : list f32) (location : string) (index : option N) : outcome AssetDiagnostic (list f32) :=
  out_fold (λ targets value,
    let! v := map_err (λ _, mkDiagnostic AdInvalidJson location index) (unit_f32_new value) in Ok (targets ++ [v])) [] values.

Definition unit_value (value : f32) (location : string) (index : option N) : outcome AssetDiagnostic f32 :=
  map_err (λ _, mkDiagnostic AdInvalidJson location index) (unit_f32_new value).

(** [selected_material_extensions]. *)
Definition selected_material_extensions (material_index : option N) (x : ExtensionPreflight)
    : outcome AssetDiagnostic (MaterialOptics * MaterialSpecular * MaterialAnisotropy * MaterialClearcoat * MaterialSheen) :=
  let! optics := match entry material_index (ep_material_optics x) with
                 | Some o => Ok o | None => expect (material_optics f32_ior_default) end in
  Ok (optics, default default_material_specular (entry material_index (ep_material_specular x)),
      default default_material_anisotropy (entry material_index (ep_material_anisotropy x)),
      default default_material_clearcoat (entry material_index (ep_material_clearcoat x)),
      default default_material_sheen (entry material_index (ep_material_sheen x))).

(** [selected_anisotropy_texture]. *)
Definition selected_anisotropy_texture (material_index : option N) (x : ExtensionPreflight) : option PendingTextureInfo :=
  entry material_index (ep_material_anisotropy x) ≫= an_texture.

(** [apply_unlit], [apply_double_sided] and [apply_alpha_coverage]. *)
Definition apply_unlit (material_index : option N) (unlit : list bool) (m : AssetMaterial) : AssetMaterial :=
  if default false (entry material_index unlit) then with_unlit m else m.

Definition apply_double_sided (root : Root) (material_index : option N) (m : AssetMaterial) : AssetMaterial :=
  if default false (entry material_index (rt_materials root) ≫= gmt_double_sided) then with_double_sided m else m.

Definition apply_alpha_coverage (root : Root) (material_index : option N) (m : AssetMaterial) : outcome AssetDiagnostic AssetMaterial :=
  match entry material_index (rt_materials root) with
  | Some source =>
      if bool_decide (gmt_alpha_mode source = Some "MASK") then
        let! cutoff := map_err (λ _, mkDiagnostic AdInvalidJson "glb.json.materials.alphaCutoff" material_index)
          (finite_f32_new (default f32_half (gmt_alpha_cutoff source))) in
        Ok (with_alpha_mask cutoff m)
      else Ok m
  | None => Ok m
  end.

(** A core texture: sampler, transform and coordinate set. *)
Definition apply_core_texture (root : Root) (build : Builder) (info : option (N * option N)) (t : option MaterialTextureTransform) (m : AssetMaterial)
    : outcome AssetDiagnostic AssetMaterial :=
  match info with
  | None => Ok m
  | Some (index, tex_coord) =>
      let! sampler := root_texture_sampler root index in
      build sampler (match t with Some t => tt_transform t | None => texture_transform_identity end)
        (retained_texture_coordinate_set (effective_texture_coordinate_set tex_coord t)) m
  end.

(** A texture of an extension. *)
Definition apply_pending_texture (root : Root) (build : Builder) (info : option PendingTextureInfo) (m : AssetMaterial)
    : outcome AssetDiagnostic AssetMaterial :=
  match info with
  | None => Ok m
  | Some info =>
      let! sampler := root_texture_sampler root (pt_index info) in
      build sampler (pt_transform info) (retained_texture_coordinate_set (pt_texture_coordinate_set info)) m
  end.

Definition info_pair (info : TextureInfo) : N * option N := (ti_index info, ti_tex_coord info).

(** [apply_clearcoat_textures], [apply_sheen_textures] and
    [apply_anisotropy_texture]. *)
Definition apply_clearcoat_textures (root : Root) (c : MaterialClearcoat) (m : AssetMaterial) : outcome AssetDiagnostic AssetMaterial :=
  let! m := apply_pending_texture root with_clearcoat_texture (cc_texture c) m in
  let! m := apply_pending_texture root with_clearcoat_roughness_texture (cc_roughness_texture c) m in
  apply_pending_texture root (with_clearcoat_normal_texture (match cc_normal_texture c with Some info => pt_scale info | None => f32_one end))
    (cc_normal_texture c) m.

Definition apply_sheen_textures (root : Root) (s : MaterialSheen) (m : AssetMaterial) : outcome AssetDiagnostic AssetMaterial :=
  let! m := apply_pending_texture root with_sheen_color_texture (sh_color_texture s) m in
  apply_pending_texture root with_sheen_roughness_texture (sh_roughness_texture s) m.

Definition apply_anisotropy_texture (root : Root) (a : MaterialAnisotropy) (m : AssetMaterial) : outcome AssetDiagnostic AssetMaterial :=
  apply_pending_texture root with_anisotropy_texture (an_texture a) m.

(** [apply_material_textures]. *)
Definition apply_material_textures (root : Root) (material_index : option N) (t : MaterialTextureTransforms) (specular : MaterialSpecular)
    (anisotropy : MaterialAnisotropy) (clearcoat : MaterialClearcoat) (sheen : MaterialSheen) (m : AssetMaterial)
    : outcome AssetDiagnostic AssetMaterial :=
  let source := entry material_index (rt_materials root) in
  let! m := apply_core_texture root with_base_color_texture (info_pair <$> (source ≫= base_color_info)) (tr_base_color t) m in
  let! m := apply_core_texture root with_emissive_texture (info_pair <$> (source ≫= gmt_emissive_texture)) (tr_emissive t) m in
  let! m := apply_core_texture root with_metallic_roughness_texture (info_pair <$> (source ≫= metallic_roughness_info))
    (tr_metallic_roughness t) m in
  let! m := match source ≫= gmt_normal_texture with
    | None => Ok m
    | Some info =>
        let! scale := map_err (λ _, mkDiagnostic AdInvalidJson "glb.json.materials.normalTexture.scale" material_index)
          (finite_f32_new (default f32_one (ni_scale info))) in
        apply_core_texture root (with_normal_texture scale) (Some (ni_index info, ni_tex_coord info)) (tr_normal t) m
    end in
  let! m := apply_pending_texture root with_specular_texture (sp_texture specular) m in
  let! m := apply_pending_texture root with_specular_color_texture (sp_color_texture specular) m in
  let! m := apply_clearcoat_textures root clearcoat m in
  let! m := apply_sheen_textures root sheen m in
  apply_anisotropy_texture root anisotropy m.

(** [0.8] is [f32_proxy_roughness]. *)
Definition material_factors (root : Root) (material_index : option N) : outcome AssetDiagnostic (list f32 * f32 * f32 * list f32) :=
  match material_index with
  | Some index =>
      let! m := get (rt_materials root) index "glb.json.materials" in
      let pbr := gmt_pbr_metallic_roughness m in
      Ok (default [f32_one; f32_one; f32_one; f32_one] (pbr ≫= pbr_base_color), default f32_one (pbr ≫= pbr_metallic),
          default f32_one (pbr ≫= pbr_roughness), default [f32_zero; f32_zero; f32_zero] (gmt_emissive m))
  | None => Ok ([f32_proxy_roughness; f32_proxy_roughness; f32_proxy_roughness; f32_one], f32_zero, f32_proxy_roughness,
                [f32_zero; f32_zero; f32_zero])
  end.

Definition color_of (values : list f32) : ColorRgba :=
  mkColorRgba (nth 0 values f32_zero) (nth 1 values f32_zero) (nth 2 values f32_zero) (nth 3 values f32_zero).

(** [decode_material]. *)
Definition decode_material (root : Root) (material_index : option N) (x : ExtensionPreflight) : outcome AssetDiagnostic AssetMaterial :=
  let! (color_values, metallic_value, roughness_value, emissive_values) := material_factors root material_index in
  let! color := unit_values color_values "glb.json.materials.baseColorFactor" material_index in
  let! emissive := unit_values emissive_values "glb.json.materials.emissiveFactor" material_index in
  let strength := default f32_one (entry material_index (ep_emissive_strengths x)) in
  let! (optics, specular, anisotropy, clearcoat, sheen) := selected_material_extensions material_index x in
  let! metallic := unit_value metallic_value "glb.json.materials.pbrMetallicRoughness" material_index in
  let! roughness := unit_value roughness_value "glb.json.materials.pbrMetallicRoughness" material_index in
  let m := with_specular (sp_factor specular) (sp_color_factor specular)
    (with_ior (op_ior optics) (op_dielectric_f0 optics)
       (with_emissive_strength strength (with_emissive emissive (asset_material_new (color_of color) metallic roughness)))) in
  let! m := with_anisotropy sin_cos (an_present anisotropy) (an_strength anisotropy) (an_rotation anisotropy) m in
  let m := with_sheen (sh_color_factor sheen) (sh_roughness_factor sheen) (with_clearcoat (cc_factor clearcoat) (cc_roughness_factor clearcoat) m) in
  let m := apply_double_sided root material_index (apply_unlit material_index (ep_unlit_materials x) m) in
  let! m := apply_alpha_coverage root material_index m in
  let transforms := default no_transforms (entry material_index (ep_texture_transforms x)) in
  apply_material_textures root material_index transforms specular anisotropy clearcoat sheen m.

End materials.

(** ** Generated tangents *)

(** A corner as [GeneratedTangentGeometry] shows it: position, normal and
    transformed texture coordinate. *)
Abbreviation Corner := (list f32 * list f32 * (f32 * f32))%type.

(** [generate_tangents] of bevy_mikktspace: the encoded tangents it sets, one
    per corner or none for that corner. *)
Class TangentGenerator := generate_tangents : list Corner → option (list (option (list f32))).

Definition GENERATED_TANGENT_GROUP_WORK_LIMIT : N := 268435456.
Definition GENERATED_TANGENT_DEGENERATE_SEARCH_LIMIT : N := 16777216.

Definition generated_tangent_work_diagnostic (mesh_index : N) : AssetDiagnostic :=
  mkDiagnostic AdCollectionLimitExceeded "glb.decoded.generated_tangent_work" (Some mesh_index).

Definition transformed_coordinate (t : AssetTextureTransform) (set : N) (v : AssetVertex) : outcome AssetDiagnostic (f32 * f32) :=
  let! coordinate := vertex_texture_coordinate v set in expect (apply_texture_transform t coordinate).

(** [generated_tangent_weld_key]. *)
Definition generated_tangent_weld_key (v : AssetVertex) (t : AssetTextureTransform) (set : N) : outcome AssetDiagnostic (list N) :=
  let! coordinate := transformed_coordinate t set v in
  Ok (vx_position v ++ vx_normal v ++ [coordinate.1; coordinate.2]).

(** [generated_tangent_position_key]. *)
Definition generated_tangent_position_key (v : AssetVertex) : list N :=
  (λ value, if f32_eqb value f32_zero then f32_zero else value) <$> vx_position v.

Definition cube (n : N) : option N := square ← checked_mul u64_max n n; checked_mul u64_max square n.

(** One vertex of the weld budget. *)
Definition weld_step (t : AssetTextureTransform) (set mesh_index : N) (state : gmap (list N) N * N) (v : AssetVertex)
    : outcome AssetDiagnostic (gmap (list N) N * N) :=
  let '(multiplicities, group_work) := state in
  let refused := generated_tangent_work_diagnostic mesh_index in
  let! key := generated_tangent_weld_key v t set in
  let n := default 0 (multiplicities !! key) in
  let! next := ok_or (checked_add u64_max n 1) refused in
  let! previous_cube := ok_or (cube n) refused in
  let! next_cube := ok_or (cube next) refused in
  let! group_work := ok_or (checked_add u64_max group_work (next_cube - previous_cube)) refused in
  do! guard_err (GENERATED_TANGENT_GROUP_WORK_LIMIT <? group_work) refused then
  Ok (<[key := next]> multiplicities, group_work).

(** The degenerate and the good faces. *)
Fixpoint count_faces (vertices : list AssetVertex) : N * N :=
  match vertices with
  | a :: b :: c :: rest =>
      let '(degenerate, good) := count_faces rest in
      let ka := generated_tangent_position_key a in
      let kb := generated_tangent_position_key b in
      let kc := generated_tangent_position_key c in
      if bool_decide (ka = kb) || bool_decide (kb = kc) || bool_decide (kc = ka) then (degenerate + 1, good) else (degenerate, good + 1)
  | _ => (0, 0)
  end.

(** [preflight_generated_tangent_work]; a count of faces fits a [u64]. *)
Definition preflight_generated_tangent_work (vertices : list AssetVertex) (t : AssetTextureTransform) (set mesh_index : N)
    : outcome AssetDiagnostic unit :=
  let! _ := out_fold (weld_step t set mesh_index) (∅, 0) vertices in
  let '(degenerate, good) := count_faces vertices in
  let! work := ok_or (pairs ← checked_mul u64_max degenerate good; checked_mul u64_max pairs 9) (generated_tangent_work_diagnostic mesh_index) in
  guard_err (GENERATED_TANGENT_DEGENERATE_SEARCH_LIMIT <? work) (generated_tangent_work_diagnostic mesh_index).

(** [GeneratedTangentGeometry::set_tangent]: only four finite values are kept. *)
Definition store_tangent (encoded : option (list f32)) (v : AssetVertex) : AssetVertex :=
  match encoded with
  | Some [x; y; z; w] =>
      match finite_f32_new x, finite_f32_new y, finite_f32_new z, finite_f32_new w with
      | Ok x, Ok y, Ok z, Ok w => set_tangent [x; y; z; w] v
      | _, _, _, _ => v
      end
  | _ => v
  end.

(** The tangents set, corner by corner; a corner without one keeps its own. *)
Fixpoint store_tangents (encoded : list (option (list f32))) (vertices : list AssetVertex) : list AssetVertex :=
  match encoded, vertices with
  | e :: encoded, v :: vertices => store_tangent e v :: store_tangents encoded vertices
  | _, vertices => vertices
  end.

(** The normalised tangent of a corner. *)
Definition finish_tangent (corner : nat) (v : AssetVertex) : outcome AssetDiagnostic AssetVertex :=
  let w := handedness v in
  do! guard_err (negb (f32_eqb w f32_minus_one || f32_eqb w f32_one))
    (mkDiagnostic AdInvalidTangent "glb.decoded.generated_tangents" (Some (stable_index corner))) then
  let! xyz := normalize_f64_vector AdInvalidTangent (f64_of_f32 <$> take 3 (vx_tangent v)) "glb.decoded.generated_tangents"
    (Some (stable_index corner)) in
  Ok (set_tangent (xyz ++ [w]) v).

Section meshes.
Context `{TangentGenerator} (sin_cos : f32 → f32 * f32).

(** [generate_missing_tangents]. *)
Definition generate_missing_tangents (vertices : list AssetVertex) (t : AssetTextureTransform) (set mesh_index : N)
    : outcome AssetDiagnostic (list AssetVertex) :=
  do! preflight_generated_tangent_work vertices t set mesh_index then
  let cleared := set_tangent (zeros 4) <$> vertices in
  let! corners := out_fold (λ corners v,
    let! coordinate := transformed_coordinate t set v in Ok (corners ++ [(vx_position v, vx_normal v, coordinate)])) [] cleared in
  let! encoded := ok_or (generate_tangents corners) (mkDiagnostic AdInvalidTangent "glb.decoded.generated_tangents" (Some mesh_index)) in
  let! vertices := out_fold (λ finished v, let! v := finish_tangent (length finished) v in Ok (finished ++ [v])) [] (store_tangents encoded cleared) in
  do! validate_triangle_tangent_handedness vertices "glb.decoded.generated_tangents" then
  Ok vertices.

(** [validate_anisotropy_tangent_space]. *)
Definition validate_anisotropy_tangent_space (m : AssetMaterial) (ls : VertexLayouts) (mesh_index : N) : outcome AssetDiagnostic unit :=
  guard_err (mt_anisotropy_present m && negb (has_role (mt_texture_roles m) (role_index RoleNormal))
             && (negb (is_some (vl_normals ls)) || negb (is_some (vl_tangents ls))))
    (mkDiagnostic AdInvalidTangent "glb.decoded.anisotropy_tangent_space" (Some mesh_index)).

(** [base != clearcoat]: the rows are compared as numbers. *)
Definition same_rows (a b : AssetTextureTransform) : bool :=
  forallb (λ p, f32_eqb p.1 p.2) (zip (a.1 ++ a.2) (b.1 ++ b.2)).

(** [generated_tangent_texture_source]. *)
Definition generated_tangent_texture_source (m : AssetMaterial) (mesh_index : N) : outcome AssetDiagnostic (AssetTextureTransform * N) :=
  match role_transform m RoleNormal, role_transform m RoleClearcoatNormal with
  | Some base, Some clearcoat =>
      if same_rows base.1 clearcoat.1 && (base.2 =? clearcoat.2) then Ok base
      else Err (mkDiagnostic AdUnsupportedFeature "glb.decoded.generated_tangent_space" (Some mesh_index))
  | Some source, None | None, Some source => Ok source
  | None, None => Panic
  end.

(** The roles whose textures need the first coordinate set. *)
Definition coordinate_roles : list AssetTextureRole :=
  [RoleBaseColor; RoleEmissive; RoleMetallicRoughness; RoleNormal; RoleClearcoat; RoleClearcoatRoughness; RoleClearcoatNormal].

(** [decode_mesh]: the mesh and the bytes decoded so far. *)
Definition decode_mesh (root : Root) (binary : bytes) (limits : AssetLimits) (mesh_index : N) (mesh : list Primitive) (decoded_bytes : N)
    (x : ExtensionPreflight) : outcome AssetDiagnostic (DecodedMesh * N) :=
  let! p := validated_primitive mesh limits mesh_index in
  let! ls := vertex_layouts root binary limits p (ep_mesh_quantization_required x) in
  do! guard_err (negb (default TRIANGLES (pr_mode p) =? TRIANGLES))
    (mkDiagnostic AdUnsupportedPrimitiveMode "glb.json.meshes[].primitives[].mode" (Some mesh_index)) then
  let! (indices, output_count) := output_layout root binary limits p (vl_positions ls) (vl_position_index ls) in
  do! guard_err (al_max_vertices_per_mesh limits <? output_count)
    (mkDiagnostic AdCollectionLimitExceeded "glb.decoded.vertices" (Some mesh_index)) then
  let! mesh_bytes := ok_or (checked_mul u64_max output_count ASSET_VERTEX_BYTES)
    (mkDiagnostic AdByteLimitExceeded "glb.decoded.mesh_bytes" (Some mesh_index)) in
  let! decoded_bytes := ok_or (checked_add u64_max decoded_bytes mesh_bytes) (mkDiagnostic AdByteLimitExceeded "glb.decoded.asset_bytes" None) in
  do! guard_err (al_max_asset_decoded_bytes limits <? decoded_bytes) (mkDiagnostic AdByteLimitExceeded "glb.decoded.asset_bytes" None) then
  do! validate_vertex_sources binary ls then
  let! vertices := decode_vertices binary ls indices output_count in
  do! validate_material_texture_coordinate_sets root p x (vl_texcoord_set_count ls) mesh_index then
  let! m := decode_material sin_cos root (pr_material p) x in
  do! validate_anisotropy_tangent_space m ls mesh_index then
  do! guard_err (existsb (λ role, has_role (mt_texture_roles m) (role_index role)) coordinate_roles && negb (is_some (vl_texcoords ls).1))
    (mkDiagnostic AdInvalidTexcoord "glb.json.meshes[].primitives[].attributes.TEXCOORD_0" (Some mesh_index)) then
  do! validate_transformed_texture_coordinates vertices m (selected_anisotropy_texture (pr_material p) x) mesh_index then
  do! guard_err (vl_has_unsupported_attributes ls)
    (mkDiagnostic AdUnsupportedFeature "glb.json.meshes[].primitives[].attributes" (Some mesh_index)) then
  let! vertices :=
    if (has_role (mt_texture_roles m) (role_index RoleNormal) || has_role (mt_texture_roles m) (role_index RoleClearcoatNormal))
       && (negb (is_some (vl_normals ls)) || negb (is_some (vl_tangents ls))) then
      let! (t, set) := generated_tangent_texture_source m mesh_index in
      generate_missing_tangents vertices t set mesh_index
    else Ok vertices in
  Ok (mkDecodedMesh vertices m, decoded_bytes).

End meshes.

(** ** Outcomes with a known panic

    [settles P Q m]: [m] returns a value in [P], or an error, or panics for the
    reason [Q]. *)
Definition settles {E A} (P : A → Prop) (Q : Prop) (m : outcome E A) : Prop :=
  match m with Ok a => P a | Err _ => True | Panic => Q | OutOfFuel => False end.

Section settles.
Context {E : Type}.

Lemma settles_bind {A B} (P : A → Prop) (P' : B → Prop) Q (m : outcome E A) f :
  settles P Q m → (∀ a, m = Ok a → P a → settles P' Q (f a)) → settles P' Q (out_bind m f).
Proof. destruct m; cbn; eauto. Qed.

Lemma settles_guard (P : unit → Prop) Q b (e : E) : (b = false → P tt) → settles P Q (guard_err b e).
Proof. destruct b; cbn; eauto. Qed.

Lemma settles_ok_or {A} (P : A → Prop) Q (o : option A) (e : E) : (∀ a, o = Some a → P a) → settles P Q (ok_or o e).
Proof. destruct o; cbn; eauto. Qed.

Lemma settles_normal {A} (P : A → Prop) Q (m : outcome E A) : normal m → (∀ a, m = Ok a → P a) → settles P Q m.
Proof. destruct m; cbn; eauto; done. Qed.

Lemma settles_weaken {A} (P P' : A → Prop) (Q Q' : Prop) (m : outcome E A) : settles P Q m → (∀ a, P a → P' a) → (Q → Q') → settles P' Q' m.
Proof. destruct m; cbn; eauto. Qed.

Lemma settles_map_err {E' A} (P : A → Prop) Q (f : E → E') (m : outcome E A) : settles P Q m → settles P Q (map_err f m).
Proof. by destruct m. Qed.

Lemma settles_fold {S A} (I : S → Prop) Q (f : S → A → outcome E S) l s :
  I s → (∀ s a, a ∈ l → I s → settles I Q (f s a)) → settles I Q (out_fold f s l).
Proof.
  revert s. induction l as [|a l IH]; intros s Hs Hf; cbn [out_fold]; [done|].
  eapply settles_bind; [apply Hf; [by left|done]|]. intros s' _ Hs'. apply IH; [done|]. intros; apply Hf; [by right|done].
Qed.

End settles.

(** ** Layouts of a primitive *)

(** A readable layout. *)
Definition laid (binary : bytes) (ex : AccessorExpectation) (l : AccessorLayout) : Prop := ∃ width, readable binary ex l width.

(** Such a layout of [n] elements. *)
Definition good_layout (binary : bytes) (ex : AccessorExpectation) (n : N) (l : AccessorLayout) : Prop :=
  laid binary ex l ∧ ly_count l = n.

Record layouts_ok (binary : bytes) (ls : VertexLayouts) : Prop := {
  vo_positions : good_layout binary ExPositions (ly_count (vl_positions ls)) (vl_positions ls);
  vo_normals : ∀ l, vl_normals ls = Some l → good_layout binary ExNormals (ly_count (vl_positions ls)) l;
  vo_tangents : ∀ l, vl_tangents ls = Some l → good_layout binary ExTangents (ly_count (vl_positions ls)) l;
  vo_texcoord_0 : ∀ l, (vl_texcoords ls).1 = Some l → good_layout binary ExTexcoords (ly_count (vl_positions ls)) l;
  vo_texcoord_1 : ∀ l, (vl_texcoords ls).2 = Some l → good_layout binary ExTexcoords (ly_count (vl_positions ls)) l;
  vo_colors : ∀ l, vl_colors ls = Some l → good_layout binary ExColors (ly_count (vl_positions ls)) l;
}.

Lemma accessor_layout_settles root binary index ex q Q :
  settles (laid binary ex) Q (accessor_layout root binary index ex q).
Proof.
  apply settles_normal; [apply accessor_layout_normal|]. intros l (a & v & width & Hl)%accessor_layout_ok.
  exists width. by eapply layout_readable.
Qed.

Lemma elem_of_indices_below n i : i ∈ indices_below n → i < n.
Proof. unfold indices_below. intros (k & -> & Hk%list_elem_of_In%in_seq)%list_elem_of_fmap. lia. Qed.

Lemma validate_each_settles {A} (read : bytes → AccessorLayout → N → outcome AssetDiagnostic A) binary l Q :
  (∀ i, i < ly_count l → settles (λ _, True) Q (read binary l i)) → settles (λ _, True) Q (validate_each read binary l).
Proof.
  intros Hr. unfold validate_each. apply settles_fold; [done|]. intros s i Hi%elem_of_indices_below _.
  eapply settles_bind; [by apply Hr|done].
Qed.

Section reads.
Context (binary : bytes) (l : AccessorLayout) (width : N) (Q : Prop).

Lemma position_settles i : readable binary ExPositions l width → i < ly_count l → settles (λ vs, length vs = 3%nat) Q (read_position binary l i).
Proof.
  intros Hl Hi. pose proof (rd_expected _ _ _ _ Hl) as Hn. cbn in Hn.
  pose proof (read_finite_shape _ _ _ _ Hl AdNonFiniteVertex i 3 "glb.binary.positions" Hi ltac:(lia)) as Hs.
  unfold read_position. by destruct (read_finite _ _ _ _ _ _).
Qed.

Lemma texcoord_settles i : readable binary ExTexcoords l width → i < ly_count l → settles (λ vs, length vs = 2%nat) Q (read_texcoord binary l i).
Proof.
  intros Hl Hi. pose proof (rd_expected _ _ _ _ Hl) as Hn. cbn in Hn.
  pose proof (read_finite_shape _ _ _ _ Hl AdInvalidTexcoord i 2 "glb.binary.texcoord_0" Hi ltac:(lia)) as Hs.
  unfold read_texcoord. by destruct (read_finite _ _ _ _ _ _).
Qed.

Lemma normal_settles i : readable binary ExNormals l width → i < ly_count l → settles (λ vs, length vs = 3%nat) Q (read_normal binary l i).
Proof.
  intros Hl Hi. pose proof (rd_expected _ _ _ _ Hl) as Hn. cbn in Hn.
  pose proof (read_normal_shape _ _ _ _ Hl i Hi ltac:(lia)) as Hs. by destruct (read_normal _ _ _).
Qed.

Lemma tangent_settles i : readable binary ExTangents l width → i < ly_count l → settles (λ vs, length vs = 4%nat) Q (read_tangent binary l i).
Proof.
  intros Hl Hi. pose proof (rd_expected _ _ _ _ Hl) as Hn. cbn in Hn.
  pose proof (read_tangent_shape _ _ _ _ Hl i Hi ltac:(lia)) as Hs. by destruct (read_tangent _ _ _).
Qed.

Lemma color_settles i : readable binary ExColors l width → i < ly_count l → settles (λ vs, length vs = 4%nat) Q (read_color_0 binary l i).
Proof. intros Hl Hi. pose proof (read_color_0_shape _ _ _ Hl i Hi) as Hs. by destruct (read_color_0 _ _ _). Qed.

Lemma bounds_settles ex : readable binary ex l width → settles (λ _, True) Q (validate_accessor_bounds binary l).
Proof.
  intros Hl. unfold validate_accessor_bounds. destruct (_ && _); [done|]. eapply settles_bind; [|intros [low high] _ _; by apply settles_guard].
  apply (settles_fold (λ _, True)); [done|]. intros [low high] [i c] Hic _. apply list_elem_of_bind in Hic as (i' & Hic & Hi%elem_of_indices_below).
  apply list_elem_of_fmap in Hic as (c' & [= -> ->] & Hc%list_elem_of_In%in_seq). cbn [extremes_step].
  rewrite (read_raw_component_ok _ _ _ _ Hl) by lia. done.
Qed.

End reads.

Section primitive_layouts.
Context (root : Root) (binary : bytes) (limits : AssetLimits).

Lemma sets_settles ex lay validate code location count_location positions sets Q :
  (∀ i, settles (laid binary ex) Q (lay i)) → (∀ l, laid binary ex l → settles (λ _, True) Q (validate l)) →
  settles (λ '(_, _, retained), ∀ k l, retained !! k = Some l → good_layout binary ex (ly_count positions) l) Q
    (out_fold (sets_step binary limits lay validate code location count_location positions) (0, ∅, ∅) sets).
Proof.
  intros Hlay Hval. eapply settles_weaken with (Q := Q); [apply (settles_fold (λ '(_, validated, retained),
    (∀ k l, validated !! k = Some l → laid binary ex l) ∧ ∀ k l, retained !! k = Some l → good_layout binary ex (ly_count positions) l))| |done].
  - split; intros k l; by rewrite lookup_empty.
  - intros [[expected_set validated] retained] [set_index index] _ [Hv Hr]. cbn [sets_step].
    eapply settles_bind; [by apply (settles_guard (λ _, True))|]. intros [] _ _.
    eapply (settles_bind (λ '(l, validated), laid binary ex l ∧ ∀ k l, validated !! k = Some l → laid binary ex l)).
    + unfold set_layout. destruct (validated !! index) as [l|] eqn:E; [cbn; eauto|]. eapply settles_bind; [apply Hlay|]. intros l _ Hl.
      eapply settles_bind; [by apply (settles_guard (λ _, True))|]. intros [] _ _. eapply settles_bind; [by apply Hval|]. intros [] _ _.
      pose proof Hl as [width Hw]. eapply settles_bind; [by eapply bounds_settles|]. intros [] _ _. cbn. split; [done|].
      intros k l'. rewrite lookup_insert_Some. intros [[_ <-]|[_ Hl']]; eauto.
    + intros [l validated'] _ [Hl Hv']. eapply settles_bind; [by apply (settles_guard (λ _, ly_count l = ly_count positions)); intros ?%negb_false_iff%N.eqb_eq|].
      intros [] _ Hc. cbn. split; [done|]. intros k l'. rewrite lookup_insert_Some. intros [[_ <-]|[_ Hl']]; [by split|eauto].
  - intros [[e v] r] [_ Hr]. exact Hr.
Qed.

Lemma semantic_sets_normal prefix code location attributes : normal (semantic_sets prefix code location attributes).
Proof.
  unfold semantic_sets. apply (out_fold_normal _ (λ _, True)); [|done|done]. intros [name index] sets _ _. cbn [fst snd]. solve_normal.
Qed.

Lemma texcoord_layouts_settles p positions q Q :
  settles (λ '(t0, t1, n, _), (∀ l, t0 = Some l → good_layout binary ExTexcoords (ly_count positions) l) ∧
    ∀ l, t1 = Some l → good_layout binary ExTexcoords (ly_count positions) l) Q (texcoord_layouts root binary limits p positions q).
Proof.
  unfold texcoord_layouts. eapply settles_bind; [apply (settles_normal (λ _, True)); [apply semantic_sets_normal|done]|]. intros sets _ _.
  eapply settles_bind; [apply (sets_settles ExTexcoords)|].
  - intros i. apply accessor_layout_settles.
  - intros l [width Hl]. apply validate_each_settles. intros i Hi. eapply settles_weaken; [by eapply (texcoord_settles _ _ _ Q)|done|done].
  - intros [[e v] r] _ Hr. cbn. split; intros l; apply Hr.
Qed.

Lemma color_layouts_settles p positions Q :
  settles (λ '(colors, _), ∀ l, colors = Some l → good_layout binary ExColors (ly_count positions) l) Q
    (color_layouts root binary limits p positions).
Proof.
  unfold color_layouts. eapply settles_bind; [apply (settles_normal (λ _, True)); [apply semantic_sets_normal|done]|]. intros sets _ _.
  eapply settles_bind; [apply (sets_settles ExColors)|].
  - intros i. apply settles_map_err, accessor_layout_settles.
  - intros l [width Hl]. apply validate_each_settles. intros i Hi. eapply settles_weaken; [by eapply (color_settles _ _ _ Q)|done|done].
  - intros [[e v] r] _ Hr. cbn. intros l; apply Hr.
Qed.

Lemma optional_attribute_settles p ex q Q :
  ex = ExNormals ∨ ex = ExTangents →
  settles (λ o, ∀ l, o = Some l → laid binary ex l) Q (optional_attribute_layout root binary limits p ex q).
Proof.
  intros Hex. unfold optional_attribute_layout.
  eapply (settles_bind (λ _, True)); [by destruct Hex as [-> | ->]|]. intros [semantic count_location] _ _.
  destruct (attribute _ _) as [index|]; [|done]. eapply settles_bind; [apply accessor_layout_settles|]. intros l _ Hl.
  eapply settles_bind; [by apply (settles_guard (λ _, True))|]. intros [] _ _. intros l' [= <-]. done.
Qed.

Lemma same_count_settles o positions code location Q :
  settles (λ _, ∀ l, o = Some l → ly_count l = ly_count positions) Q (same_count o positions code location).
Proof.
  destruct o as [l|]; [|done]. apply settles_guard. intros Hc%negb_false_iff%N.eqb_eq l' [= <-]. done.
Qed.

Lemma vertex_layouts_settles p q Q :
  is_some (attribute (pr_attributes p) "POSITION") = true →
  settles (layouts_ok binary) Q (vertex_layouts root binary limits p q).
Proof.
  intros Hp. unfold vertex_layouts. destruct (attribute _ _) as [position_index|]; [|done]. cbn [expect out_bind].
  eapply settles_bind; [apply accessor_layout_settles|]. intros positions _ Hpos.
  eapply settles_bind; [by apply (settles_guard (λ _, True))|]. intros [] _ _.
  eapply settles_bind; [apply optional_attribute_settles; by left|]. intros normals _ Hn.
  eapply settles_bind; [apply same_count_settles|]. intros [] _ Hnc.
  eapply settles_bind; [apply optional_attribute_settles; by right|]. intros tangents _ Ht.
  eapply settles_bind; [apply same_count_settles|]. intros [] _ Htc.
  eapply settles_bind; [apply texcoord_layouts_settles|]. intros [[[t0 t1] n] w] _ [H0 H1].
  eapply settles_bind; [apply color_layouts_settles|]. intros [colors wc] _ Hc.
  split; cbn [vl_positions vl_normals vl_tangents vl_texcoords vl_colors fst snd]; [by split|..]; intros l Hl; eauto; split; eauto.
Qed.

Lemma output_layout_settles p positions position_index Q :
  settles (λ '(indices, output_count), output_count mod 3 = 0 ∧
    match indices with
    | Some l => good_layout binary ExIndices output_count l
    | None => output_count = ly_count positions
    end) Q (output_layout root binary limits p positions position_index).
Proof.
  unfold output_layout. destruct (pr_indices p) as [index|].
  - eapply settles_bind; [apply accessor_layout_settles|]. intros l _ Hl.
    eapply settles_bind; [by apply (settles_guard (λ _, ly_count l mod 3 = 0)); intros [_ ?%negb_false_iff%N.eqb_eq]%orb_false_iff|].
    intros [] _ Hm. cbn. done.
  - eapply settles_bind; [by apply (settles_guard (λ _, ly_count positions mod 3 = 0)); intros ?%negb_false_iff%N.eqb_eq|].
    intros [] _ Hm. cbn. done.
Qed.

End primitive_layouts.

(** ** Vertices of a mesh *)

Lemma settles_all {A} (P : A → Prop) Q {E B} (f : list A → B → outcome E A) (xs : list B) acc :
  Forall P acc → (∀ acc x, x ∈ xs → settles P Q (f acc x)) →
  settles (λ r, Forall P r ∧ length r = (length acc + length xs)%nat) Q (out_fold (λ acc x, let! v := f acc x in Ok (acc ++ [v])) acc xs).
Proof.
  revert acc. induction xs as [|x xs IH]; intros acc Ha Hf; cbn [out_fold]; [split; [done|cbn; lia]|].
  eapply (settles_bind (λ r, Forall P r ∧ length r = S (length acc))).
  - eapply settles_bind; [apply Hf; by left|]. intros a _ Pa. cbn. split; [by apply Forall_app; repeat constructor|]. rewrite length_app. cbn. lia.
  - intros r _ [Hr Hl]. eapply settles_weaken; [apply IH; [done|]; intros; apply Hf; by right| |done].
    intros r' [Hr' Hl']. split; [done|]. cbn [length]. lia.
Qed.

Lemma settles_each {A E} (R : A → Prop) Q (f : A → outcome E unit) (xs : list A) :
  (∀ x, x ∈ xs → settles (λ _, R x) Q (f x)) → settles (λ _, ∀ x, x ∈ xs → R x) Q (out_fold (λ _ x, f x) tt xs).
Proof.
  induction xs as [|x xs IH]; intros Hf; cbn [out_fold]; [by intros x ?%not_elem_of_nil|].
  eapply settles_bind; [apply Hf; by left|]. intros [] _ Rx. eapply settles_weaken; [apply IH; intros; apply Hf; by right| |done].
  intros [] Hr y [->|Hy]%elem_of_cons; eauto.
Qed.

Section vertices.
Context (binary : bytes) (ls : VertexLayouts) (Hls : layouts_ok binary ls).

Lemma read_or_settles read def ex n l i Q :
  length def = n → (∀ l', l = Some l' → good_layout binary ex (ly_count (vl_positions ls)) l') → i < ly_count (vl_positions ls) →
  (∀ l' width, readable binary ex l' width → i < ly_count l' → settles (λ vs, length vs = n) Q (read l')) →
  settles (λ vs, length vs = n) Q (read_or read def l).
Proof.
  intros Hd Hl Hi Hr. destruct l as [l|]; [|done]. destruct (Hl l eq_refl) as [Hlaid Hc]. destruct Hlaid as [width Hw].
  eapply Hr; [done|]. by rewrite Hc.
Qed.

(** What the indices of a mesh are. *)
Definition indices_ok (indices : option AccessorLayout) (output_count : N) : Prop :=
  match indices with
  | Some l => good_layout binary ExIndices output_count l
  | None => output_count = ly_count (vl_positions ls)
  end.

Lemma decode_vertex_settles indices output_count i Q :
  indices_ok indices output_count → i < output_count → settles typed_vertex Q (decode_vertex binary ls indices i).
Proof.
  intros Hin Hi. unfold decode_vertex. eapply (settles_bind (λ _, True)).
  { destruct indices as [l|]; [|done]. destruct Hin as [[width Hl] Hc]. rewrite <-Hc in Hi.
    by destruct (read_index_ok _ _ _ _ Hl i eq_refl Hi) as [v ->]. }
  intros at_ _ _. eapply settles_bind; [apply (settles_guard (λ _, at_ < ly_count (vl_positions ls))); by intros ?%N.leb_gt|].
  intros [] _ Hat. eapply settles_bind; [destruct (vo_positions _ _ Hls) as [[width Hl] _]; by eapply position_settles|]. intros position _ Hp.
  eapply settles_bind; [eapply (read_or_settles _ _ ExNormals); [done|apply (vo_normals _ _ Hls)|done|intros; by eapply normal_settles]|]. intros normal _ Hn.
  eapply settles_bind; [eapply (read_or_settles _ _ ExTangents); [done|apply (vo_tangents _ _ Hls)|done|intros; by eapply tangent_settles]|]. intros tangent _ Ht.
  eapply settles_bind; [eapply (read_or_settles _ _ ExTexcoords); [done|apply (vo_texcoord_0 _ _ Hls)|done|intros; by eapply texcoord_settles]|]. intros texcoord_0 _ H0.
  eapply settles_bind; [eapply (read_or_settles _ _ ExTexcoords); [done|apply (vo_texcoord_1 _ _ Hls)|done|intros; by eapply texcoord_settles]|]. intros texcoord_1 _ H1.
  eapply settles_bind; [eapply (read_or_settles _ _ ExColors); [done|apply (vo_colors _ _ Hls)|done|intros; by eapply color_settles]|].
  intros color _ Hc. cbn. by split_and!.
Qed.

Lemma typed_set_normal normal v : length normal = 3%nat → typed_vertex v → typed_vertex (set_normal normal v).
Proof. intros Hn (?&?&?&?&?&?). unfold typed_vertex, set_normal. cbn [vx_position vx_normal vx_tangent vx_texcoord_0 vx_color_0 vx_texcoord_1]. split_and!; assumption. Qed.

Lemma with_face_normals_settles n vertices Q :
  (length vertices ≤ n)%nat → Forall typed_vertex vertices →
  settles (λ r, Forall typed_vertex r ∧ length r = length vertices) Q (with_face_normals vertices).
Proof.
  revert vertices. induction n as [|n IH]; intros vertices Hlen Hv; [by destruct vertices; [|cbn in Hlen; lia]|].
  destruct vertices as [|a [|b [|c rest]]]; [by split..|]. cbn [with_face_normals].
  apply Forall_cons in Hv as [Ha Hv]. apply Forall_cons in Hv as [Hb Hv]. apply Forall_cons in Hv as [Hc Hv].
  eapply (settles_bind (λ normal, length normal = 3%nat)).
  { unfold face_normal. set (vector := [_; _; _]). pose proof (normalize_shape AdInvalidNormal vector "glb.decoded.triangle_normal" None) as Hs.
    by destruct (normalize_f64_vector _ _ _ _). }
  intros normal _ Hn. eapply settles_bind; [apply IH; [cbn in Hlen; lia|done]|]. intros r _ [Hr Hrl]. cbn [settles].
  split; [|cbn [length]; by rewrite Hrl]. repeat (apply Forall_cons; split); [by apply typed_set_normal..|exact Hr].
Qed.

Lemma handedness_normal n triangle vertices location :
  (length vertices ≤ n)%nat → normal (validate_handedness_from triangle vertices location).
Proof.
  revert triangle vertices. induction n as [|n IH]; intros triangle vertices Hlen; [by destruct vertices; [|cbn in Hlen; lia]|].
  destruct vertices as [|a [|b [|c rest]]]; [exact I..|]. cbn [validate_handedness_from]. apply out_bind_normal; [apply guard_err_normal|].
  intros [] _. apply IH. cbn in Hlen. lia.
Qed.

Lemma decode_vertices_settles indices output_count Q :
  indices_ok indices output_count →
  settles (λ vertices, Forall typed_vertex vertices ∧ length vertices = N.to_nat output_count) Q
    (decode_vertices binary ls indices output_count).
Proof.
  intros Hin. unfold decode_vertices. eapply settles_bind; [apply (settles_all typed_vertex); [done|]|].
  { intros acc i Hi%elem_of_indices_below. by eapply decode_vertex_settles. }
  intros vertices _ [Hv Hl]. unfold indices_below in Hl. rewrite length_fmap, length_seq in Hl. cbn in Hl.
  eapply (settles_bind (λ r, Forall typed_vertex r ∧ length r = length vertices)).
  { destruct (vl_normals ls); [done|]. by eapply with_face_normals_settles. }
  intros r _ [Hr Hrl]. eapply (settles_bind (λ _, True)).
  { apply settles_normal; [|done]. destruct (vl_tangents ls); [|done]. by eapply handedness_normal. }
  intros [] _ _. cbn. split; [done|congruence].
Qed.

Lemma validate_optional_settles {A} (read : bytes → AccessorLayout → N → outcome AssetDiagnostic A) ex o Q :
  (∀ l, o = Some l → laid binary ex l) →
  (∀ l width i, readable binary ex l width → i < ly_count l → settles (λ _, True) Q (read binary l i)) →
  settles (λ _, True) Q (validate_optional (validate_each read) binary o).
Proof.
  intros Hl Hr. destruct o as [l|]; [|done]. destruct (Hl l eq_refl) as [width Hw].
  eapply settles_bind; [apply validate_each_settles; by eauto|]. intros [] _ _. by eapply bounds_settles.
Qed.

Lemma validate_vertex_sources_settles Q : settles (λ _, True) Q (validate_vertex_sources binary ls).
Proof.
  unfold validate_vertex_sources, validate_positions, validate_normals, validate_tangents.
  eapply settles_bind; [eapply (validate_optional_settles _ ExPositions)|intros [] _ _; eapply settles_bind; [eapply (validate_optional_settles _ ExNormals)|
    intros [] _ _; eapply (validate_optional_settles _ ExTangents)]].
  1: intros l [= <-]; apply (vo_positions _ _ Hls).
  2: intros l E; by apply (vo_normals _ _ Hls).
  3: intros l E; by apply (vo_tangents _ _ Hls).
  all: intros; eapply settles_weaken; [|done|done].
  - by eapply (position_settles _ _ _ Q).
  - by eapply (normal_settles _ _ _ Q).
  - by eapply (tangent_settles _ _ _ Q).
Qed.

End vertices.

(** ** Materials of a mesh *)

Lemma unit_value_normal value location index : normal (unit_value value location index).
Proof. unfold unit_value, unit_f32_new, float_value_new. solve_normal. Qed.

Lemma unit_values_normal values location index : normal (unit_values values location index).
Proof.
  unfold unit_values. apply (out_fold_normal _ (λ _, True)); [|done|done]. intros value acc _ _. unfold unit_f32_new, float_value_new. solve_normal.
Qed.

Lemma get_normal {A} (l : list A) index location : normal (get l index location).
Proof. unfold get. solve_normal. Qed.

Lemma texture_sampler_normal root texture_index : normal (root_texture_sampler root texture_index).
Proof.
  unfold root_texture_sampler, decode_sampler. apply out_bind_normal; [apply get_normal|]. intros t _. destruct (tex_sampler t) as [s|]; [|exact I].
  apply out_bind_normal; [apply get_normal|]. intros smp _. solve_normal.
Qed.

(** A builder that accepts the two retained coordinate sets. *)
Definition total_builder (build : Builder) : Prop := ∀ sampler t set m, set ≤ 1 → normal (build sampler t set m).

Lemma role_builder role : total_builder (with_role_texture role).
Proof. intros sampler t set m Hs. unfold with_role_texture. by rewrite (proj2 (N.leb_le _ _) Hs). Qed.

Lemma normal_builder scale : total_builder (with_normal_texture scale).
Proof. intros sampler t set m Hs. apply out_bind_normal; [by apply role_builder|done]. Qed.

Lemma clearcoat_normal_builder scale : total_builder (with_clearcoat_normal_texture scale).
Proof. intros sampler t set m Hs. apply out_bind_normal; [by apply role_builder|done]. Qed.

Lemma retained_set set : retained_texture_coordinate_set set ≤ 1.
Proof. unfold retained_texture_coordinate_set. destruct (set =? 1); lia. Qed.

Lemma core_texture_normal root build info t m : total_builder build → normal (apply_core_texture root build info t m).
Proof.
  intros Hb. destruct info as [[index tex_coord]|]; [|exact I]. apply out_bind_normal; [apply texture_sampler_normal|].
  intros sampler _. apply Hb, retained_set.
Qed.

Lemma pending_texture_normal root build info m : total_builder build → normal (apply_pending_texture root build info m).
Proof.
  intros Hb. destruct info as [info|]; [|exact I]. apply out_bind_normal; [apply texture_sampler_normal|]. intros sampler _. apply Hb, retained_set.
Qed.

Create HintDb builders.
#[export] Hint Resolve normal_builder clearcoat_normal_builder core_texture_normal pending_texture_normal unit_value_normal
  unit_values_normal get_normal : builders.
#[export] Hint Extern 1 (total_builder _) => apply role_builder : builders.

Lemma material_textures_normal root material_index t specular anisotropy clearcoat sheen m :
  normal (apply_material_textures root material_index t specular anisotropy clearcoat sheen m).
Proof.
  unfold apply_material_textures, apply_clearcoat_textures, apply_sheen_textures, apply_anisotropy_texture.
  repeat match goal with |- normal (out_bind _ _) => apply out_bind_normal; [|intros ? _] end; auto 3 with builders.
  match goal with |- normal (match ?o with Some _ => _ | None => _ end) => destruct o; [|exact I] end. apply out_bind_normal; [apply map_err_normal, finite_new_normal|]. auto 3 with builders.
Qed.

(** Sine and cosine of the rotations of a preflight are finite. *)
Definition rotations_finite (sin_cos : f32 → f32 * f32) (x : ExtensionPreflight) : Prop :=
  ∀ r, r = f32_zero ∨ r ∈ an_rotation <$> ep_material_anisotropy x →
    f32_is_finite (sin_cos r).1 = true ∧ f32_is_finite (sin_cos r).2 = true.

Lemma decode_material_normal sin_cos root material_index x : rotations_finite sin_cos x → normal (decode_material sin_cos root material_index x).
Proof.
  intros Hf. unfold decode_material.
  apply out_bind_normal; [unfold material_factors; destruct material_index; [apply out_bind_normal; [apply get_normal|done]|done]|].
  intros [[[color metallic] roughness] emissive] _. do 2 (apply out_bind_normal; [apply unit_values_normal|intros ? _]).
  unfold selected_material_extensions.
  apply out_bind_normal. { apply out_bind_normal; [|done]. destruct (entry _ _); [exact I|]. by vm_compute. }
  intros [[[[optics specular] anisotropy] clearcoat] sheen] Hx. do 2 (apply out_bind_normal; [apply unit_value_normal|intros ? _]).
  apply out_bind_normal.
  { unfold with_anisotropy. destruct (Hf (an_rotation anisotropy)) as [Hs Hc].
    { apply out_bind_ok in Hx as (o & _ & E). apply Ok_inj in E. injection E as _ _ <- _ _.
      unfold entry. destruct material_index as [i|]; [|by left]. cbn [mbind option_bind]. destruct (i <? _); [|by left].
      destruct (_ !! _) eqn:E; [|by left]. right. apply list_elem_of_fmap. eexists. split; [done|]. by eapply list_elem_of_lookup_2. }
    destruct (sin_cos _) as [sin cos]. cbn [fst snd] in Hs, Hc. by rewrite Hs, Hc. }
  intros m _. apply out_bind_normal.
  { unfold apply_alpha_coverage. destruct (entry material_index (rt_materials root)); [|exact I]. destruct (bool_decide _); [|exact I].
    apply out_bind_normal; [apply map_err_normal, finite_new_normal|done]. }
  intros m' _. apply material_textures_normal.
Qed.

(** ** Texture coordinates of a mesh *)

(** The coordinates of the set are there and their transforms are finite. *)
Definition transforms_all (t : AssetTextureTransform) (set : N) (vertices : list AssetVertex) : Prop :=
  ∀ v, v ∈ vertices → ∃ coordinate, transformed_coordinate t set v = Ok coordinate.

Lemma coordinate_known v set : set ≤ 1 → ∃ c, vertex_texture_coordinate v set = Ok c.
Proof.
  intros Hs. unfold vertex_texture_coordinate. destruct (N.eqb_spec set 0); [by eexists|]. destruct (N.eqb_spec set 1); [by eexists|]. lia.
Qed.

Lemma validate_transformed_settles vertices mesh_index t set (Q : Prop) :
  (1 < set → Q) → settles (λ _, transforms_all t set vertices) Q (validate_transformed vertices mesh_index (Some (t, set))).
Proof.
  intros HQ. unfold validate_transformed. apply settles_each. intros v _. destruct (N.le_gt_cases set 1) as [Hs|Hs].
  - destruct (coordinate_known v set Hs) as [c Hc]. unfold transformed_coordinate. rewrite Hc. cbn [out_bind]. apply settles_guard.
    intros Ha%negb_false_iff. destruct (apply_texture_transform t c) as [c'|]; [|done]. by exists c'.
  - unfold vertex_texture_coordinate. destruct (N.eqb_spec set 0); [lia|]. destruct (N.eqb_spec set 1); [lia|]. cbn. auto.
Qed.

Lemma role_transform_set m role t set : role_transform m role = Some (t, set) → set ≤ 1.
Proof.
  unfold role_transform, texture_coordinate_set. destruct (texture_transform _ _); [|done]. cbn [mbind option_bind].
  destruct (_ =? 0); [done|]. destruct (_ =? 0); intros [= _ <-]; lia.
Qed.

Lemma role_transform_has m role : has_role (mt_texture_roles m) (role_index role) = true → is_some (role_transform m role) = true.
Proof.
  intros Hr. unfold role_transform, texture_transform, texture_coordinate_set. rewrite Hr. cbn [mbind option_bind].
  unfold has_role in Hr. apply negb_true_iff in Hr. rewrite Hr. by case_match.
Qed.

Lemma validate_coordinates_settles vertices m anisotropy_texture mesh_index :
  settles (λ _, ∀ role t set, role ∈ transformed_roles → role_transform m role = Some (t, set) → transforms_all t set vertices)
    (∃ info, anisotropy_texture = Some info ∧ 1 < pt_texture_coordinate_set info)
    (validate_transformed_texture_coordinates vertices m anisotropy_texture mesh_index).
Proof.
  set (R := λ source : option (AssetTextureTransform * N), ∀ t set, source = Some (t, set) → transforms_all t set vertices).
  eapply settles_weaken; [apply (settles_each R)| |intros HQ; exact HQ].
  - intros [[t set]|] Hin; [|done]. eapply settles_weaken; [apply validate_transformed_settles; intros Hs; exact (conj Hs Hin)|by intros [] Ht t' set' [= <- <-]|].
    intros [Hs Hin']. apply elem_of_app in Hin' as [(role & E & _)%list_elem_of_fmap|E%list_elem_of_singleton].
    + symmetry in E. apply role_transform_set in E. lia.
    + destruct anisotropy_texture as [info|]; [|done]. injection E as -> ->. eauto.
  - intros [] Hr role t set Hrole E. apply (Hr (role_transform m role)); [|done]. apply elem_of_app. left. apply list_elem_of_fmap. eauto.
Qed.

(** ** Generated tangents of a mesh *)

Lemma typed_set_tangent tangent v : length tangent = 4%nat → typed_vertex v → typed_vertex (set_tangent tangent v).
Proof. intros Hn (?&?&?&?&?&?). unfold typed_vertex, set_tangent. cbn [vx_position vx_normal vx_tangent vx_texcoord_0 vx_color_0 vx_texcoord_1]. split_and!; assumption. Qed.

Lemma store_tangents_typed encoded vertices :
  Forall typed_vertex vertices → Forall typed_vertex (store_tangents encoded vertices) ∧ length (store_tangents encoded vertices) = length vertices.
Proof.
  revert vertices. induction encoded as [|e encoded IH]; intros [|v vertices] Hv; try done. cbn [store_tangents].
  apply Forall_cons in Hv as [Hv Hvs]. destruct (IH vertices Hvs) as [Ht Hl]. split; [|cbn [length]; by rewrite Hl]. apply Forall_cons. split; [|done].
  unfold store_tangent. destruct e as [[|x [|y [|z [|w [|]]]]]|]; try done.
  repeat (match goal with |- context [finite_f32_new ?v] => destruct (finite_f32_new v) end; try done). by apply typed_set_tangent.
Qed.

Lemma finish_tangent_settles corner v Q : typed_vertex v → settles typed_vertex Q (finish_tangent corner v).
Proof.
  intros Hv. unfold finish_tangent. eapply settles_bind; [by apply (settles_guard (λ _, True))|]. intros [] _ _.
  eapply (settles_bind (λ xyz, length xyz = 3%nat)); [|intros xyz _ Hx; apply typed_set_tangent; [by rewrite length_app, Hx|done]].
  set (vector := f64_of_f32 <$> _). pose proof (normalize_shape AdInvalidTangent vector "glb.decoded.generated_tangents" (Some (stable_index corner))) as Hs.
  destruct (normalize_f64_vector _ _ _ _); [|done..]. cbn [settles]. rewrite Hs. subst vector. rewrite length_fmap, length_take.
  destruct Hv as (_ & _ & -> & _). lia.
Qed.

Lemma preflight_settles vertices t set mesh_index Q :
  transforms_all t set vertices → settles (λ _, True) Q (preflight_generated_tangent_work vertices t set mesh_index).
Proof.
  intros Ht. unfold preflight_generated_tangent_work. eapply (settles_bind (λ _, True)).
  - apply settles_fold; [done|]. intros [multiplicities work] v Hv _. destruct (Ht v Hv) as [c Hc].
    apply settles_normal; [|done]. cbn [weld_step]. unfold generated_tangent_weld_key. rewrite Hc. cbn [out_bind]. solve_normal.
  - intros [multiplicities work] _ _. destruct (count_faces vertices) as [degenerate good].
    eapply (settles_bind (λ _, True)); [by apply settles_ok_or|]. intros w _ _. by apply settles_guard.
Qed.

Lemma generate_settles `{TangentGenerator} vertices t set mesh_index Q :
  Forall typed_vertex vertices → transforms_all t set vertices →
  settles (λ r, Forall typed_vertex r ∧ length r = length vertices) Q (generate_missing_tangents vertices t set mesh_index).
Proof.
  intros Hv Ht. unfold generate_missing_tangents. eapply settles_bind; [by apply preflight_settles|]. intros [] _ _.
  assert (Forall typed_vertex (set_tangent (zeros 4) <$> vertices)) as Hc.
  { apply Forall_fmap. eapply Forall_impl; [exact Hv|]. intros v Hv'. by apply typed_set_tangent. }
  eapply (settles_bind (λ _, True)).
  { apply settles_fold; [done|]. intros corners v Hin _. apply list_elem_of_fmap in Hin as (v0 & -> & Hin). destruct (Ht v0 Hin) as [c E].
    change (transformed_coordinate t set (set_tangent (zeros 4) v0)) with (transformed_coordinate t set v0). by rewrite E. }
  intros corners _ _. eapply (settles_bind (λ _, True)); [by apply settles_ok_or|]. intros encoded _ _.
  destruct (store_tangents_typed encoded _ Hc) as [Hs Hl]. rewrite length_fmap in Hl.
  eapply settles_bind; [apply (settles_all typed_vertex _ (λ finished v, finish_tangent (length finished) v)); [done|]|].
  { intros acc v Hin. apply finish_tangent_settles. by apply (proj1 (Forall_forall _ _) Hs). }
  intros r _ [Hr Hrl]. cbn [length Nat.add] in Hrl. eapply (settles_bind (λ _, True)).
  { apply settles_normal; [by eapply handedness_normal|done]. }
  intros [] _ _. cbn [settles]. split; [done|]. by rewrite Hrl, Hl.
Qed.

Lemma tangent_source_settles m mesh_index Q :
  has_role (mt_texture_roles m) (role_index RoleNormal) || has_role (mt_texture_roles m) (role_index RoleClearcoatNormal) = true →
  settles (λ source, ∃ role, role ∈ transformed_roles ∧ role_transform m role = Some source) Q (generated_tangent_texture_source m mesh_index).
Proof.
  intros Hr. assert (RoleNormal ∈ transformed_roles ∧ RoleClearcoatNormal ∈ transformed_roles) as [Hn Hc].
  { unfold transformed_roles. rewrite !elem_of_cons. split; tauto. }
  unfold generated_tangent_texture_source. pose proof (role_transform_has m RoleNormal) as H1. pose proof (role_transform_has m RoleClearcoatNormal) as H2.
  destruct (role_transform m RoleNormal) as [base|] eqn:E1, (role_transform m RoleClearcoatNormal) as [clearcoat|] eqn:E2.
  - destruct (_ && _); cbn [settles]; eauto.
  - cbn [settles]. eauto.
  - cbn [settles]. eauto.
  - apply orb_true_iff in Hr as [Hr|Hr]; [by specialize (H1 Hr)|by specialize (H2 Hr)].
Qed.

Lemma selected_coordinates_normal selected available mesh_index : normal (validate_selected_texture_coordinates selected available mesh_index).
Proof.
  unfold validate_selected_texture_coordinates. apply (out_fold_normal _ (λ _, True)); [|done|done]. intros set [] _ _. apply guard_err_normal.
Qed.

Lemma coordinate_sets_normal root p x available mesh_index : normal (validate_material_texture_coordinate_sets root p x available mesh_index).
Proof.
  unfold validate_material_texture_coordinate_sets.
  repeat (apply out_bind_normal; [apply selected_coordinates_normal|intros [] _]). apply selected_coordinates_normal.
Qed.

(** ** A mesh *)

(** The panic that is left: the anisotropy texture of the mesh's material
    selects a coordinate set beyond the two that vertices keep. *)
Definition wide_anisotropy (mesh : list Primitive) (x : ExtensionPreflight) : Prop :=
  ∃ p info, mesh = [p] ∧ selected_anisotropy_texture (pr_material p) x = Some info ∧ 1 < pt_texture_coordinate_set info.

Lemma validated_primitive_settles mesh limits mesh_index Q :
  settles (λ p, mesh = [p] ∧ is_some (attribute (pr_attributes p) "POSITION") = true) Q (validated_primitive mesh limits mesh_index).
Proof.
  unfold validated_primitive. destruct mesh as [|p [|p' mesh]]; [exact I| |exact I].
  eapply (settles_bind (λ _, True)); [by apply settles_guard|]. intros [] _ _.
  eapply (settles_bind (λ _, True)); [by apply settles_guard|]. intros [] _ _. cbn [head expect out_bind].
  eapply (settles_bind (λ _, True)); [by apply settles_guard|]. intros [] _ _.
  eapply (settles_bind (λ _, is_some (attribute (pr_attributes p) "POSITION") = true)).
  { apply settles_guard. by intros ?%negb_false_iff. }
  intros [] _ Hp. by split.
Qed.

Section mesh.
Context `{TangentGenerator} (sin_cos : f32 → f32 * f32) (root : Root) (binary : bytes) (limits : AssetLimits) (x : ExtensionPreflight).
Context (Hrot : rotations_finite sin_cos x).

(** What a decoded mesh is: whole triangles of vertices of the fixed shape,
    within the limits, charged to the bytes decoded so far. *)
Record mesh_decoded (before : N) (r : DecodedMesh * N) : Prop := {
  md_typed : Forall typed_vertex (dm_vertices r.1);
  md_triangles : N.of_nat (length (dm_vertices r.1)) mod 3 = 0;
  md_vertices : N.of_nat (length (dm_vertices r.1)) ≤ al_max_vertices_per_mesh limits;
  md_charge : r.2 = before + ASSET_VERTEX_BYTES * N.of_nat (length (dm_vertices r.1));
  md_bytes : r.2 ≤ al_max_asset_decoded_bytes limits;
}.

Lemma decode_mesh_settles mesh_index mesh before :
  settles (mesh_decoded before) (wide_anisotropy mesh x) (decode_mesh sin_cos root binary limits mesh_index mesh before x).
Proof.
  unfold decode_mesh. eapply settles_bind; [apply validated_primitive_settles|]. intros p _ [Hmesh Hp].
  eapply settles_bind; [by apply vertex_layouts_settles|]. intros ls _ Hls.
  eapply (settles_bind (λ _, True)); [by apply settles_guard|]. intros [] _ _.
  eapply settles_bind; [apply output_layout_settles|]. intros [indices output_count] _ [Hmod Hin].
  eapply (settles_bind (λ _, output_count ≤ al_max_vertices_per_mesh limits)); [apply settles_guard; by intros ?%N.ltb_ge|]. intros [] _ Hmax.
  eapply (settles_bind (λ bytes, bytes = output_count * ASSET_VERTEX_BYTES)); [apply settles_ok_or; by intros b [-> _]%checked_mul_ok|]. intros mesh_bytes _ Hmb.
  eapply (settles_bind (λ bytes, bytes = before + mesh_bytes)); [apply settles_ok_or; by intros b [-> _]%checked_add_Some|]. intros total _ Htotal.
  eapply (settles_bind (λ _, total ≤ al_max_asset_decoded_bytes limits)); [apply settles_guard; by intros ?%N.ltb_ge|]. intros [] _ Hbytes.
  eapply settles_bind; [by apply validate_vertex_sources_settles|]. intros [] _ _.
  eapply settles_bind; [by apply decode_vertices_settles|]. intros vertices _ [Hv Hlen].
  eapply (settles_bind (λ _, True)); [apply settles_normal; [apply coordinate_sets_normal|done]|]. intros [] _ _.
  eapply (settles_bind (λ _, True)); [apply settles_normal; [by apply decode_material_normal|done]|]. intros m _ _.
  eapply (settles_bind (λ _, True)); [by apply settles_guard|]. intros [] _ _.
  eapply (settles_bind (λ _, True)); [by apply settles_guard|]. intros [] _ _.
  eapply settles_bind; [eapply settles_weaken; [apply validate_coordinates_settles|intros a Ha; exact Ha|]|].
  { intros (info & Hi & Hw). exists p, info. by split_and!. }
  intros [] _ Hcoords. eapply (settles_bind (λ _, True)); [by apply settles_guard|]. intros [] _ _.
  eapply (settles_bind (λ r, Forall typed_vertex r ∧ length r = length vertices)).
  - destruct (_ && _) eqn:Hgen; [|done]. apply andb_true_iff in Hgen as [Hroles _].
    eapply settles_bind; [by apply tangent_source_settles|]. intros [t set] _ (role & Hrole & Ht). apply generate_settles; [done|by eapply Hcoords].
  - intros r _ [Hr Hrl]. cbn [settles]. assert (N.of_nat (length r) = output_count) as Hcount by lia.
    split; cbn [fst snd dm_vertices]; rewrite ?Hcount; try done. lia.
Qed.

End mesh.

(** Decoding a mesh ends: with whole triangles of vertices of the fixed
    shape, within the limits of the vertices and of the bytes, and charged
    exactly 72 bytes per vertex; or with a diagnostic; and it panics only for a
    material whose anisotropy texture selects a coordinate set beyond the second. *)
Theorem decode_mesh_sound `{TangentGenerator} sin_cos root binary limits x mesh_index mesh before :
  rotations_finite sin_cos x →
  match decode_mesh sin_cos root binary limits mesh_index mesh before x with
  | Ok r => mesh_decoded limits before r
  | Err _ => True
  | Panic => wide_anisotropy mesh x
  | OutOfFuel => False
  end.
Proof.
  intros Hrot. pose proof (decode_mesh_settles sin_cos root binary limits x Hrot mesh_index mesh before) as Hs.
  by destruct (decode_mesh sin_cos root binary limits mesh_index mesh before x).
Qed.

(** A triangle with normals, tangents and texture coordinates. *)
Definition triangle_floats : list f32 :=
  [f32_zero; f32_zero; f32_zero; f32_one; f32_zero; f32_zero; f32_zero; f32_one; f32_zero]
  ++ concat (replicate 3 [f32_zero; f32_zero; f32_one]) ++ concat (replicate 3 [f32_one; f32_zero; f32_zero; f32_one])
  ++ [f32_zero; f32_zero; f32_one; f32_zero; f32_zero; f32_one].
Definition triangle_binary : bytes := triangle_floats ≫= f32_to_le_bytes.

Definition triangle_mesh (sets : list (string * N)) : list Primitive :=
  [mkGlbPrimitive ([("NORMAL", 1); ("POSITION", 0); ("TANGENT", 2)] ++ sets) None (Some 0) None].
Definition two_sets : list (string * N) := [("TEXCOORD_0", 3); ("TEXCOORD_1", 3)].
Definition three_sets : list (string * N) := two_sets ++ [("TEXCOORD_2", 3)].

Definition triangle_root (sets : list (string * N)) : Root :=
  mkRoot "2.0" [mkGlbBuffer 144 None] [mkBufferView 0 0 36 None; mkBufferView 0 36 36 None; mkBufferView 0 72 48 None; mkBufferView 0 120 24 None]
    [mkAccessor 0 0 FLOAT 3 "VEC3" false None None; mkAccessor 1 0 FLOAT 3 "VEC3" false None None;
     mkAccessor 2 0 FLOAT 3 "VEC4" false None None; mkAccessor 3 0 FLOAT 3 "VEC2" false None None]
    [triangle_mesh sets] [mkGlbMaterial None None None None None None None] [mkGlbImage (Some 0) (Some "image/png") None] [] [mkGlbTexture None (Some 0)].

(** An anisotropy texture of a coordinate set. *)
Definition anisotropy_preflight (set : N) : ExtensionPreflight :=
  mkPreflight None false [] [] [] [] [mkAnisotropy true f32_zero f32_zero (Some (mkPendingTexture 0 set texture_transform_identity f32_one))] [] [] [].

Definition no_tangents : TangentGenerator := λ _, None.
Definition level : f32 → f32 * f32 := λ _, (f32_zero, f32_one).

Lemma level_finite x : rotations_finite level x.
Proof. intros r _. split; vm_compute; reflexivity. Qed.

Definition decode_triangle (sets : list (string * N)) (set : N) : outcome AssetDiagnostic (DecodedMesh * N) :=
  decode_mesh (H := no_tangents) level (triangle_root sets) triangle_binary asset_limits_default 0 (triangle_mesh sets) 0 (anisotropy_preflight set).

Lemma decode_mesh_sound_witness :
  ∃ r, decode_triangle two_sets 1 = Ok r ∧ mesh_decoded asset_limits_default 0 r ∧ r.2 = 216.
Proof.
  assert (is_ok (decode_triangle two_sets 1) = true) as Hok by (vm_compute; reflexivity).
  pose proof (decode_mesh_sound (H := no_tangents) level (triangle_root two_sets) triangle_binary asset_limits_default (anisotropy_preflight 1) 0
    (triangle_mesh two_sets) 0 (level_finite _)) as Hd. fold (decode_triangle two_sets 1) in Hd.
  assert (match decode_triangle two_sets 1 with Ok r => r.2 | _ => 0 end = 216) as H216 by (vm_compute; reflexivity).
  destruct (decode_triangle two_sets 1) as [r| | |]; try discriminate Hok. exists r. split; [reflexivity|]. split; [exact Hd|exact H216].
Defined.

(** The third coordinate set is there, so nothing refuses the anisotropy texture
    that selects it before [vertex_texture_coordinate] is reached. *)
Example wide_anisotropy_panics : decode_triangle three_sets 2 = Panic.
Proof. vm_compute. reflexivity. Qed.
