(* ===== verification/GlbAsset.v ===== *)
(** * GLB assets

    Decoding a whole GLB source of cogniform-assets/src/glb.rs: the header and
    the values of the document, the images with their PNG framing, the textures
    of the twelve roles, the meshes, and what is kept of them.  The png crate is
    the class [PngReader]; reading the JSON chunk into the document and the
    extension preflight is the class [GlbJson]. *)

From S2P Require Import Prelude Machine Ordering BTree Floats Values Components Messages Imagination Codec Compilation Hash Compiler World AssetTypes RenderScene Recovery Engine Observation Frame ScenePrepare Sums AssetStore RendererAssets LocalAssets Glb GlbMesh.

Open Scope N_scope.

(** A check over the elements of a list with their positions. *)
Definition each_indexed {A} (f : nat → A → outcome AssetDiagnostic unit) (l : list A) : outcome AssetDiagnostic unit :=
  out_enumerate (λ _ index a, f index a) tt 0 l.

(** ** The header and the values of the document *)

(** [validate_sampler_resources] with [validate_root_samplers]. *)
Definition validate_sampler_resources (root : Root) : outcome AssetDiagnostic unit :=
  do! guard_err (12 <? length (rt_samplers root))%nat (mkDiagnostic AdCollectionLimitExceeded "glb.json.samplers" None) then
  do! each_indexed (λ index s, let! _ := decode_sampler (stable_index index) s in Ok tt) (rt_samplers root) then
  each_indexed (λ index t,
    match tex_sampler t with
    | None => Ok tt
    | Some sampler =>
        let! _ := map_err (λ e, mkDiagnostic (ad_code e) (ad_location e) (Some (stable_index index)))
          (get (rt_samplers root) sampler "glb.json.textures[].sampler") in Ok tt
    end) (rt_textures root).

Definition limited (entries : list (bool * string)) : outcome AssetDiagnostic unit :=
  out_fold (λ _ e, guard_err e.1 (mkDiagnostic AdCollectionLimitExceeded e.2 None)) tt entries.

(** [validate_root_header]; [usize] has 64 bits, so the declared length fits. *)
Definition validate_root_header (root : Root) (binary : bytes) (limits : AssetLimits) : outcome AssetDiagnostic unit :=
  do! guard_err (negb (bool_decide (rt_version root = "2.0"))) (mkDiagnostic AdUnsupportedFeature "glb.json.asset.version" None) then
  let! declared_binary :=
    match rt_buffers root with
    | [] => Err (mkDiagnostic AdInvalidJson "glb.json.buffers" None)
    | [b] => do! guard_err (is_some (gb_uri b)) (mkDiagnostic AdUnsupportedFeature "glb.json.buffers" None) then Ok (gb_byte_length b)
    | _ => Err (mkDiagnostic AdUnsupportedFeature "glb.json.buffers" None)
    end in
  do! guard_err ((N.of_nat (length binary) <? declared_binary) || (3 <? N.of_nat (length binary) - declared_binary))
    (mkDiagnostic AdInvalidLength "glb.json.buffers[0].byteLength" (Some 0)) then
  do! limited [(al_max_meshes limits <? count (length (rt_meshes root)), "glb.json.meshes");
               (al_max_buffer_views limits <? count (length (rt_buffer_views root)), "glb.json.bufferViews");
               (al_max_accessors limits <? count (length (rt_accessors root)), "glb.json.accessors");
               (al_max_materials limits <? count (length (rt_materials root)), "glb.json.materials")] then
  limited [((12 <? length (rt_images root))%nat, "glb.json.images"); ((12 <? length (rt_samplers root))%nat, "glb.json.samplers");
           ((12 <? length (rt_textures root))%nat, "glb.json.textures")].

(** Each of the values is a unit value. *)
Definition validate_units (values : list f32) (location : string) (index : N) : outcome AssetDiagnostic unit :=
  let! _ := unit_values values location (Some index) in Ok tt.

(** [validate_material_values]. *)
Definition validate_material_values (root : Root) : outcome AssetDiagnostic unit :=
  each_indexed (λ material_index m,
    let index := stable_index material_index in
    do! match gmt_pbr_metallic_roughness m with
        | Some pbr =>
            do! validate_units (default [] (pbr_base_color pbr)) "glb.json.materials.baseColorFactor" index then
            validate_units (omap id [pbr_metallic pbr; pbr_roughness pbr]) "glb.json.materials.pbrMetallicRoughness" index
        | None => Ok tt
        end then
    do! match gmt_normal_texture m ≫= ni_scale with
        | Some scale =>
            let! _ := map_err (λ _, mkDiagnostic AdInvalidJson "glb.json.materials.normalTexture.scale" (Some index)) (finite_f32_new scale) in Ok tt
        | None => Ok tt
        end then
    validate_units (default [] (gmt_emissive m)) "glb.json.materials.emissiveFactor" index) (rt_materials root).

(** The references of the textures of an extension. *)
Definition validate_references {A} (root : Root) (location : string) (infos : A → list (option PendingTextureInfo)) (l : list A)
    : outcome AssetDiagnostic unit :=
  each_indexed (λ material_index a,
    out_fold (λ _ info,
      let! _ := map_err (λ e, mkDiagnostic (ad_code e) (ad_location e) (Some (stable_index material_index)))
        (get (rt_textures root) (pt_index info) location) in Ok tt) tt (omap id (infos a))) l.

(** [validate_deferred_extension_texture_references]. *)
Definition validate_deferred_extension_texture_references (root : Root) (x : ExtensionPreflight) : outcome AssetDiagnostic unit :=
  do! validate_references root "glb.json.materials.extensions.KHR_materials_specular.texture.index"
    (λ s, [sp_texture s; sp_color_texture s]) (ep_material_specular x) then
  do! validate_references root "glb.json.materials.extensions.KHR_materials_anisotropy.anisotropyTexture.index"
    (λ a, [an_texture a]) (ep_material_anisotropy x) then
  do! validate_references root "glb.json.materials.extensions.KHR_materials_clearcoat.texture.index"
    (λ c, [cc_texture c; cc_roughness_texture c; cc_normal_texture c]) (ep_material_clearcoat x) then
  validate_references root "glb.json.materials.extensions.KHR_materials_sheen.texture.index"
    (λ s, [sh_color_texture s; sh_roughness_texture s]) (ep_material_sheen x).

(** The first unsupported feature is the one that is reported. *)
Definition remember (unsupported : option AssetDiagnostic) (d : AssetDiagnostic) : option AssetDiagnostic :=
  match unsupported with Some _ => unsupported | None => Some d end.

(** [remember_unsupported] under a condition; the code is always the same. *)
Definition remember_if (b : bool) (location : string) (index : option N) (unsupported : option AssetDiagnostic) : option AssetDiagnostic :=
  if b then remember unsupported (mkDiagnostic AdUnsupportedFeature location index) else unsupported.

(** [validate_alpha_coverage]. *)
Definition validate_alpha_coverage (root : Root) : outcome AssetDiagnostic (option AssetDiagnostic) :=
  out_enumerate (λ unsupported material_index m,
    let index := Some (stable_index material_index) in
    let invalid := mkDiagnostic AdInvalidJson "glb.json.materials.alphaCutoff" index in
    do! guard_err (is_some (gmt_alpha_cutoff m) && negb (is_some (gmt_alpha_mode m))) invalid then
    do! match gmt_alpha_cutoff m with
        | Some cutoff =>
            let! cutoff := map_err (λ _, invalid) (finite_f32_new cutoff) in
            guard_err (f32_ltb cutoff f32_zero) invalid
        | None => Ok tt
        end then
    Ok (remember_if (match gmt_alpha_mode m with Some mode => negb (bool_decide (mode = "OPAQUE" ∨ mode = "MASK")) | None => false end)
          "glb.json.materials.alphaMode" index unsupported)) None 0 (rt_materials root).

(** ** PNG images *)

Definition PNG_SIGNATURE : bytes := [x89; x50; x4e; x47; x0d; x0a; x1a; x0a].
Definition PNG_IHDR_LENGTH : N := 13.
Definition PNG_IHDR : bytes := [x49; x48; x44; x52].
Definition PNG_IEND : bytes := [x00; x00; x00; x00; x49; x45; x4e; x44; xae; x42; x60; x82].
Definition PNG_RGB : N := 2.
Definition PNG_RGBA : N := 6.

(** What the crate reports and writes: [Info], the result of [next_frame] with
    the bytes it writes into the buffer, and the result of [finish]. *)
Inductive PngError : Type := PngLimitsExceeded | PngOtherError.
Inductive PngColorType : Type := PngRgb | PngRgba | PngOtherColor.

Record PngOutput := mkPngOutput {
  po_width : N;
  po_height : N;
  po_bit_depth : N;
  po_color_type : PngColorType;
  po_buffer_size : N;
  po_written : bytes;
}.

Record PngImage := mkPngImage {
  pi_animation_control : bool;
  pi_trns : bool;
  pi_output_buffer_size : option N;
  pi_next_frame : PngOutput + PngError;
  pi_finish : option PngError;
}.

(** [png::Decoder] with its limit, from [read_info] on. *)
Class PngReader := read_png : bytes → N → PngImage + PngError.

(** [read_be_u32]. *)
Definition read_be_u32 (b : bytes) (offset : N) : option N :=
  last ← usize_add offset 4;
  encoded ← get_range b offset last;
  Some (from_be_bytes encoded).

(** [image_diagnostic] and [png_diagnostic]. *)
Definition image_diagnostic (code : AssetDiagnosticCode) (image_index : N) : AssetDiagnostic :=
  mkDiagnostic code "glb.binary.image.png" (Some image_index).
Definition png_diagnostic (error : PngError) (image_index : N) : AssetDiagnostic :=
  image_diagnostic (match error with PngLimitsExceeded => AdByteLimitExceeded | PngOtherError => AdInvalidImage end) image_index.

(** [slice::ends_with]. *)
Definition ends_with (b suffix : bytes) : bool :=
  (length suffix <=? length b)%nat && bool_decide (drop (length b - length suffix) b = suffix).

(** [validate_png_framing]. *)
Definition validate_png_framing (b : bytes) (image_index : N) : outcome AssetDiagnostic unit :=
  guard_err ((length b <? 33)%nat || negb (bool_decide (get_range b 0 8 = Some PNG_SIGNATURE)) || negb (ends_with b PNG_IEND)
             || negb (bool_decide (read_be_u32 b 8 = Some PNG_IHDR_LENGTH)) || negb (bool_decide (get_range b 12 16 = Some PNG_IHDR)))
    (image_diagnostic AdInvalidImage image_index).

(** [validated_texture_size]. *)
Definition validated_texture_size (width height : N) (limits : AssetLimits) (image_index : N) : outcome AssetDiagnostic (N * N) :=
  do! guard_err ((al_max_texture_dimension_2d limits <? width) || (al_max_texture_dimension_2d limits <? height))
    (image_diagnostic AdCollectionLimitExceeded image_index) then
  let! pixels := ok_or (checked_mul u64_max width height) (image_diagnostic AdByteLimitExceeded image_index) in
  do! guard_err (al_max_texture_pixels limits <? pixels) (image_diagnostic AdCollectionLimitExceeded image_index) then
  let! rgba_bytes := ok_or (checked_mul u64_max pixels 4) (image_diagnostic AdByteLimitExceeded image_index) in
  do! guard_err ((al_max_texture_decoded_bytes limits <? rgba_bytes) || (al_max_asset_decoded_bytes limits <? rgba_bytes))
    (image_diagnostic AdByteLimitExceeded image_index) then
  Ok (pixels, rgba_bytes).

(** [validated_png_color]; the slice accesses may panic. *)
Definition validated_png_color (b : bytes) (image_index : N) : outcome AssetDiagnostic N :=
  let! bit_depth := expect (b !! 24%nat) in
  let! color_type := expect (b !! 25%nat) in
  let! rest := expect (get_range b 26 29) in
  do! guard_err (negb (Byte.to_N bit_depth =? 8) || negb (one_of (Byte.to_N color_type) [PNG_RGB; PNG_RGBA])
                 || negb (bool_decide (rest = [x00; x00; x00])))
    (image_diagnostic AdUnsupportedFeature image_index) then
  Ok (Byte.to_N color_type).

(** A zeroed buffer of [n] bytes after the crate has written into it. *)
Definition filled (n : N) (written : bytes) : bytes := take (N.to_nat n) (written ++ repeat x00 (N.to_nat n)).

(** The crate's result as a value or a diagnostic. *)
Definition png_result {A} (r : A + PngError) (image_index : N) : outcome AssetDiagnostic A :=
  match r with inl a => Ok a | inr error => Err (png_diagnostic error image_index) end.

Section png.
Context `{PngReader}.

(** [decode_png_pixels]. *)
Definition decode_png_pixels (b : bytes) (width height pixels color_type : N) (limits : AssetLimits) (image_index : N)
    : outcome AssetDiagnostic AssetTexture :=
  let! reader := png_result (read_png b (al_max_texture_decoder_bytes limits)) image_index in
  do! guard_err (pi_animation_control reader) (image_diagnostic AdUnsupportedFeature image_index) then
  do! guard_err (pi_trns reader) (image_diagnostic AdUnsupportedFeature image_index) then
  let channels := if color_type =? PNG_RGB then 3 else 4 in
  let! raw_bytes := ok_or (checked_mul u64_max pixels channels) (image_diagnostic AdByteLimitExceeded image_index) in
  do! guard_err (negb (bool_decide (pi_output_buffer_size reader = Some raw_bytes))) (image_diagnostic AdInvalidImage image_index) then
  let! output := png_result (pi_next_frame reader) image_index in
  let raw := filled raw_bytes (po_written output) in
  let color_ok := match po_color_type output with
                  | PngRgb => color_type =? PNG_RGB | PngRgba => negb (color_type =? PNG_RGB) | PngOtherColor => false end in
  do! guard_err (negb (po_width output =? width) || negb (po_height output =? height) || negb (po_bit_depth output =? 8) || negb color_ok
                 || negb (po_buffer_size output =? raw_bytes)) (image_diagnostic AdInvalidImage image_index) then
  do! match pi_finish reader with Some error => Err (png_diagnostic error image_index) | None => Ok tt end then
  let rgba8 := if color_type =? PNG_RGBA then raw else rgb ← chunks_exact 3 raw; rgb ++ [xff] in
  Ok (mkTexture width height rgba8).

(** [decode_png] with [decode_png_image]; a size of zero is refused. *)
Definition decode_png (b : bytes) (limits : AssetLimits) (image_index : N) : outcome AssetDiagnostic AssetTexture :=
  let non_zero (o : option N) := v ← o; if v =? 0 then None else Some v in
  do! validate_png_framing b image_index then
  let! width := ok_or (non_zero (read_be_u32 b 16)) (image_diagnostic AdInvalidImage image_index) in
  let! height := ok_or (non_zero (read_be_u32 b 20)) (image_diagnostic AdInvalidImage image_index) in
  let! (pixels, _) := validated_texture_size width height limits image_index in
  let! color_type := validated_png_color b image_index in
  decode_png_pixels b width height pixels color_type limits image_index.

(** ** Images *)

(** [image_view_bytes]. *)
Definition image_view_bytes (root : Root) (binary : bytes) (view_index : N) : outcome AssetDiagnostic (bytes * bool) :=
  let refused := mkDiagnostic AdInvalidBufferRange "glb.json.images[].bufferView" (Some view_index) in
  let! view := get (rt_buffer_views root) view_index "glb.json.bufferViews" in
  do! guard_err (negb (bv_buffer view =? 0)) refused then
  let! last := ok_or (usize_add (bv_byte_offset view) (bv_byte_length view)) refused in
  let! b := ok_or (get_range binary (bv_byte_offset view) last) refused in
  Ok (b, is_some (bv_byte_stride view)).

(** [checked_texture_bytes]. *)
Definition checked_texture_bytes (total decoded : N) (limits : AssetLimits) : outcome AssetDiagnostic N :=
  let refused := mkDiagnostic AdByteLimitExceeded "glb.decoded.asset_bytes" None in
  let! total := ok_or (checked_add u64_max total decoded) refused in
  do! guard_err (al_max_asset_decoded_bytes limits <? total) refused then
  Ok total.

(** [validate_root_image]: the texture and the unsupported feature so far. *)
Definition validate_root_image (root : Root) (binary : bytes) (limits : AssetLimits) (image_index : N) (image : GlbImage)
    (unsupported : option AssetDiagnostic) : outcome AssetDiagnostic (option AssetTexture * option AssetDiagnostic) :=
  if is_some (im_uri image) then
    do! guard_err (is_some (im_buffer_view image)) (mkDiagnostic AdInvalidJson "glb.json.images[]" (Some image_index)) then
    Ok (None, remember_if true "glb.json.images[]" (Some image_index) unsupported)
  else
    let! view_index := ok_or (im_buffer_view image) (mkDiagnostic AdInvalidJson "glb.json.images[].bufferView" (Some image_index)) in
    let! (b, has_stride) := image_view_bytes root binary view_index in
    let unsupported := remember_if has_stride "glb.json.images[].bufferView.byteStride" (Some view_index) unsupported in
    let! mime_type := ok_or (im_mime_type image) (mkDiagnostic AdInvalidJson "glb.json.images[].mimeType" (Some image_index)) in
    if negb (bool_decide (mime_type = "image/png")) then
      Ok (None, remember_if true "glb.json.images[]" (Some image_index) unsupported)
    else
      match decode_png b limits image_index with
      | Ok decoded => Ok (Some decoded, unsupported)
      | Err d => if permits_proxy (ad_code d) then Ok (None, remember unsupported d) else Err d
      | Panic => Panic
      | OutOfFuel => OutOfFuel
      end.

(** [u32::try_from(index).expect(...)]. *)
Definition bounded_index (index : nat) : outcome AssetDiagnostic N :=
  expect (if N.of_nat index <=? u32_max then Some (N.of_nat index) else None).

(** [validate_root_images]; the state is [(decoded_images, byte_len, unsupported)]. *)
Definition validate_root_images (root : Root) (binary : bytes) (limits : AssetLimits) (unsupported : option AssetDiagnostic)
    : outcome AssetDiagnostic (gmap N AssetTexture * N * option AssetDiagnostic) :=
  out_enumerate (λ state index image,
    let '(decoded_images, byte_len, unsupported) := state in
    let! image_index := bounded_index index in
    let! (decoded, unsupported) := validate_root_image root binary limits image_index image unsupported in
    match decoded with
    | Some t =>
        let! byte_len := checked_texture_bytes byte_len (texture_byte_len t) limits in
        Ok (<[image_index := t]> decoded_images, byte_len, unsupported)
    | None => Ok (decoded_images, byte_len, unsupported)
    end) (∅, 0, unsupported) 0 (rt_images root).

(** ** Textures *)

(** [validate_texture_sources]. *)
Definition validate_texture_sources (root : Root) : outcome AssetDiagnostic (gmap N N) :=
  out_enumerate (λ sources index t,
    let! texture_index := bounded_index index in
    let! source := ok_or (tex_source t) (mkDiagnostic AdInvalidJson "glb.json.textures[].source" (Some texture_index)) in
    let! _ := get (rt_images root) source "glb.json.images" in
    do! match tex_sampler t with
        | Some sampler => let! _ := get (rt_samplers root) sampler "glb.json.textures[].sampler" in Ok tt
        | None => Ok tt
        end then
    Ok (<[texture_index := source]> sources)) ∅ 0 (rt_textures root).

Record ValidatedTextureResources := mkResources {
  vr_texture_sources : gmap N N;
  vr_decoded_images : gmap N AssetTexture;
  vr_byte_len : N;
  vr_unsupported : option AssetDiagnostic;
}.

(** [validate_texture_resources]. *)
Definition validate_texture_resources (root : Root) (binary : bytes) (limits : AssetLimits)
    : outcome AssetDiagnostic ValidatedTextureResources :=
  let! sources := validate_texture_sources root in
  let referenced_samplers := list_to_set (C := gset N) (omap tex_sampler (rt_textures root)) in
  let unsupported := remember_if (negb (size referenced_samplers =? length (rt_samplers root))%nat) "glb.json.samplers" None None in
  let! (decoded_images, byte_len, unsupported) := validate_root_images root binary limits unsupported in
  Ok (mkResources sources decoded_images byte_len unsupported).

(** [shared_texture_index]: the one texture of a role. *)
Definition shared_texture_index (references : list N) (texture_count : nat) (location : string) (unsupported : option AssetDiagnostic)
    : outcome AssetDiagnostic (option N * option AssetDiagnostic) :=
  let indices := bset_iter (list_to_set references) in
  do! match find (λ index, N.of_nat texture_count <=? index) indices with
      | Some invalid => Err (mkDiagnostic AdInvalidBufferRange location (Some invalid))
      | None => Ok tt
      end then
  Ok (head indices, remember_if (1 <? length indices)%nat location None unsupported).

(** The textures that the materials give a role. *)
Definition role_references (root : Root) (x : ExtensionPreflight) (role : AssetTextureRole) : list N :=
  let core f := omap (λ m : GlbMaterial, f m) (rt_materials root) in
  let pending {A} (f : A → option PendingTextureInfo) (l : list A) := omap (λ a, pt_index <$> f a) l in
  match role with
  | RoleBaseColor => core (λ m, ti_index <$> base_color_info m)
  | RoleEmissive => core (λ m, ti_index <$> gmt_emissive_texture m)
  | RoleMetallicRoughness => core (λ m, ti_index <$> metallic_roughness_info m)
  | RoleNormal => core (λ m, ni_index <$> gmt_normal_texture m)
  | RoleSpecular => pending sp_texture (ep_material_specular x)
  | RoleSpecularColor => pending sp_color_texture (ep_material_specular x)
  | RoleClearcoat => pending cc_texture (ep_material_clearcoat x)
  | RoleClearcoatRoughness => pending cc_roughness_texture (ep_material_clearcoat x)
  | RoleClearcoatNormal => pending cc_normal_texture (ep_material_clearcoat x)
  | RoleSheenColor => pending sh_color_texture (ep_material_sheen x)
  | RoleSheenRoughness => pending sh_roughness_texture (ep_material_sheen x)
  | RoleAnisotropy => pending an_texture (ep_material_anisotropy x)
  end.

Definition role_location (role : AssetTextureRole) : string :=
  match role with
  | RoleBaseColor => "glb.json.materials.baseColorTexture"
  | RoleEmissive => "glb.json.materials.emissiveTexture"
  | RoleMetallicRoughness => "glb.json.materials.metallicRoughnessTexture"
  | RoleNormal => "glb.json.materials.normalTexture"
  | RoleSpecular => "glb.json.materials.extensions.KHR_materials_specular.specularTexture"
  | RoleSpecularColor => "glb.json.materials.extensions.KHR_materials_specular.specularColorTexture"
  | RoleClearcoat => "glb.json.materials.extensions.KHR_materials_clearcoat.clearcoatTexture"
  | RoleClearcoatRoughness => "glb.json.materials.extensions.KHR_materials_clearcoat.clearcoatRoughnessTexture"
  | RoleClearcoatNormal => "glb.json.materials.extensions.KHR_materials_clearcoat.clearcoatNormalTexture"
  | RoleSheenColor => "glb.json.materials.extensions.KHR_materials_sheen.sheenColorTexture"
  | RoleSheenRoughness => "glb.json.materials.extensions.KHR_materials_sheen.sheenRoughnessTexture"
  | RoleAnisotropy => "glb.json.materials.extensions.KHR_materials_anisotropy.anisotropyTexture"
  end.

(** The order in which [texture_role_indices] asks for the roles: normal before
    metallic-roughness. *)
Definition role_order : list AssetTextureRole :=
  [RoleBaseColor; RoleEmissive; RoleNormal; RoleMetallicRoughness; RoleSpecular; RoleSpecularColor; RoleClearcoat;
   RoleClearcoatRoughness; RoleClearcoatNormal; RoleSheenColor; RoleSheenRoughness; RoleAnisotropy].

(** [texture_role_indices]. *)
Definition texture_role_indices (root : Root) (x : ExtensionPreflight) (unsupported : option AssetDiagnostic)
    : outcome AssetDiagnostic ((AssetTextureRole → option N) * option AssetDiagnostic) :=
  out_fold (λ '(indices, unsupported) role,
    let! (index, unsupported) := shared_texture_index (role_references root x role) (length (rt_textures root))
      (role_location role +:+ ".index") unsupported in
    Ok (λ r, if decide (r = role) then index else indices r, unsupported)) (λ _, None, unsupported) role_order.

(** [validate_core_texture_coordinates] and [validate_pending_texture_coordinates]. *)
Definition coordinates_step (unsupported : option AssetDiagnostic) (entry : option N * string) : option AssetDiagnostic :=
  remember_if (match entry.1 with Some set => 1 <? set | None => false end) (entry.2 +:+ ".texCoord") None unsupported.

Definition core_coordinates (m : GlbMaterial) (t : MaterialTextureTransforms) : list (option N * string) :=
  [((λ info, effective_texture_coordinate_set (ti_tex_coord info) (tr_base_color t)) <$> base_color_info m, role_location RoleBaseColor);
   ((λ info, effective_texture_coordinate_set (ni_tex_coord info) (tr_normal t)) <$> gmt_normal_texture m, role_location RoleNormal);
   ((λ info, effective_texture_coordinate_set (ti_tex_coord info) (tr_emissive t)) <$> gmt_emissive_texture m, role_location RoleEmissive);
   ((λ info, effective_texture_coordinate_set (ti_tex_coord info) (tr_metallic_roughness t)) <$> metallic_roughness_info m,
    role_location RoleMetallicRoughness)].

Definition pending_coordinates {A} (l : list A) (material_index : nat) (fields : list ((A → option PendingTextureInfo) * AssetTextureRole))
    : list (option N * string) :=
  (λ f, (pt_texture_coordinate_set <$> (l !! material_index ≫= f.1), role_location f.2)) <$> fields.

(** [validate_texture_coordinates]. *)
Definition validate_texture_coordinates (root : Root) (x : ExtensionPreflight) (unsupported : option AssetDiagnostic) : option AssetDiagnostic :=
  foldl coordinates_step unsupported
    (e ← zip (seq 0 (length (rt_materials root))) (rt_materials root);
     core_coordinates e.2 (default no_transforms (ep_texture_transforms x !! e.1))
     ++ pending_coordinates (ep_material_specular x) e.1 [(sp_texture, RoleSpecular); (sp_color_texture, RoleSpecularColor)]
     ++ pending_coordinates (ep_material_anisotropy x) e.1 [(an_texture, RoleAnisotropy)]
     ++ pending_coordinates (ep_material_clearcoat x) e.1
          [(cc_texture, RoleClearcoat); (cc_roughness_texture, RoleClearcoatRoughness); (cc_normal_texture, RoleClearcoatNormal)]
     ++ pending_coordinates (ep_material_sheen x) e.1 [(sh_color_texture, RoleSheenColor); (sh_roughness_texture, RoleSheenRoughness)]).

Record DecodedTextures := mkDecodedTextures {
  dt_texture : AssetTextureRole → option AssetTexture;
  dt_byte_len : N;
  dt_unsupported : option AssetDiagnostic;
}.

Definition empty_decoded_textures (unsupported : option AssetDiagnostic) : DecodedTextures :=
  mkDecodedTextures (λ _, None) 0 unsupported.

(** [decode_textures]. *)
Definition decode_textures (root : Root) (binary : bytes) (limits : AssetLimits) (x : ExtensionPreflight) : outcome AssetDiagnostic DecodedTextures :=
  let! r := validate_texture_resources root binary limits in
  let! (role_indices, unsupported) := texture_role_indices root x (vr_unsupported r) in
  let referenced_textures := bset_iter (list_to_set (omap role_indices asset_roles)) in
  if (length referenced_textures =? 0)%nat && (length (rt_textures root) =? 0)%nat && (length (rt_images root) =? 0)%nat
  then Ok (empty_decoded_textures unsupported)
  else
    let unsupported := remember_if (length referenced_textures =? 0)%nat "glb.json.textures" None unsupported in
    let unsupported := validate_texture_coordinates root x unsupported in
    let unsupported := remember_if (negb (length referenced_textures =? length (rt_textures root))%nat) "glb.json.textures" None unsupported in
    let! images := out_fold (λ images index,
      let! source := expect (vr_texture_sources r !! index) in Ok (images ++ [source])) [] referenced_textures in
    let referenced_images := list_to_set (C := gset N) images in
    let unsupported := remember_if (negb (size referenced_images =? length (rt_images root))%nat) "glb.json.images" None unsupported in
    let role_texture role := index ← role_indices role; source ← vr_texture_sources r !! index; vr_decoded_images r !! source in
    Ok (mkDecodedTextures role_texture (vr_byte_len r) unsupported).

End png.

(** ** The asset *)

(** [validate_selected_texture_roles]: a retained texture is used by a mesh. *)
Definition validate_selected_texture_roles (meshes : list DecodedMesh) (textures : DecodedTextures) : outcome AssetDiagnostic unit :=
  match find (λ role, is_some (dt_texture textures role)
                      && negb (existsb (λ m, has_role (mt_texture_roles (dm_material m)) (role_index role)) meshes)) asset_roles with
  | Some role => Err (mkDiagnostic AdUnsupportedFeature (role_location role) None)
  | None => Ok tt
  end.

Definition no_unsupported (unsupported : option AssetDiagnostic) : outcome AssetDiagnostic unit :=
  match unsupported with Some d => Err d | None => Ok tt end.

(** Reading the JSON chunk: parsing, the extension preflight and the schema. *)
Class GlbJson := read_document : bytes → Root * ExtensionPreflight + AssetDiagnostic.

Section assets.
Context `{PngReader} `{TangentGenerator} `{GlbJson} (sin_cos : f32 → f32 * f32).

(** [validate_root]. *)
Definition validate_root (root : Root) (binary : bytes) (limits : AssetLimits) (x : ExtensionPreflight) : outcome AssetDiagnostic DecodedAsset :=
  do! validate_sampler_resources root then
  do! validate_root_header root binary limits then
  do! validate_material_values root then
  do! validate_deferred_extension_texture_references root x then
  let! alpha_unsupported := validate_alpha_coverage root in
  let! textures := decode_textures root binary limits x in
  let! (meshes, decoded_bytes) := out_enumerate (λ '(meshes, decoded_bytes) mesh_index mesh,
    let! (m, decoded_bytes) := decode_mesh sin_cos root binary limits (stable_index mesh_index) mesh decoded_bytes x in
    Ok (meshes ++ [m], decoded_bytes)) ([], dt_byte_len textures) 0 (rt_meshes root) in
  do! guard_err (length meshes =? 0)%nat (mkDiagnostic AdUnsupportedFeature "glb.json.meshes" None) then
  do! no_unsupported (dt_unsupported textures) then
  do! validate_selected_texture_roles meshes textures then
  do! no_unsupported alpha_unsupported then
  Ok (mkDecodedAsset meshes (dt_texture textures) decoded_bytes).

(** [decode_glb]. *)
Definition glb_decode (source : bytes) (limits : AssetLimits) : outcome AssetDiagnostic DecodedAsset :=
  let! (json, binary) := split_glb source limits in
  let! (root, x) := match read_document json with inl document => Ok document | inr d => Err d end in
  let! decoded := validate_root root binary limits x in
  do! no_unsupported (ep_unsupported x) then
  Ok decoded.

End assets.

(** ** Images are decoded exactly *)

(** A decoded image: four bytes per pixel, of a size within the limits. *)
Record texture_decoded (limits : AssetLimits) (t : AssetTexture) : Prop := {
  td_width : 0 < tx_width t ≤ al_max_texture_dimension_2d limits;
  td_height : 0 < tx_height t ≤ al_max_texture_dimension_2d limits;
  td_pixels : tx_width t * tx_height t ≤ al_max_texture_pixels limits;
  td_rgba8 : N.of_nat (length (tx_rgba8 t)) = 4 * (tx_width t * tx_height t);
  td_bytes : 4 * (tx_width t * tx_height t) ≤ al_max_texture_decoded_bytes limits;
  td_u64 : 4 * (tx_width t * tx_height t) ≤ u64_max;
}.

Lemma each_indexed_normal {A} (f : nat → A → outcome AssetDiagnostic unit) l : (∀ i a, normal (f i a)) → normal (each_indexed f l).
Proof.
  intros Hf. unfold each_indexed. generalize 0%nat as index. induction l as [|a l IH]; intros index; cbn [out_enumerate]; [done|].
  apply out_bind_normal; [apply Hf|]. intros [] _. apply IH.
Qed.

(** The state of an enumeration, by the number of elements visited. *)
Lemma settles_enumerate {St A} (I : nat → St → Prop) Q (f : St → nat → A → outcome AssetDiagnostic St) (l : list A) s index :
  I index s → (∀ s i a, l !! i = Some a → I (index + i)%nat s → settles (I (S (index + i))) Q (f s (index + i)%nat a)) →
  settles (I (index + length l)%nat) Q (out_enumerate f s index l).
Proof.
  revert s index. induction l as [|a l IH]; intros s index Hs Hf; cbn [out_enumerate length]; [by rewrite Nat.add_0_r|].
  eapply settles_bind.
  - pose proof (Hf s 0%nat a eq_refl) as H0. rewrite Nat.add_0_r in H0. by apply H0.
  - intros s' _ Hs'. rewrite <-Nat.add_succ_comm. apply IH; [done|].
    intros s1 i b Hb Hi. rewrite Nat.add_succ_comm in Hi |- *. by apply (Hf s1 (S i) b).
Qed.

Lemma filled_length n written : length (filled n written) = N.to_nat n.
Proof. unfold filled. rewrite length_take, length_app, repeat_length. lia. Qed.

Lemma rgb_length (chunks : list bytes) : Forall (λ c, length c = 3%nat) chunks →
  length (rgb ← chunks; rgb ++ [xff]) = (4 * length chunks)%nat.
Proof.
  induction 1 as [|c chunks Hc _ IH]; [done|]. change ((c :: chunks) ≫= ?f) with (f c ++ (chunks ≫= f)).
  rewrite !length_app, Hc, IH. cbn [length]. lia.
Qed.

Lemma expand_length raw n : length raw = (3 * n)%nat → length (rgb ← chunks_exact 3 raw; rgb ++ [xff]) = (4 * n)%nat.
Proof.
  intros Hl. rewrite rgb_length.
  - by rewrite (chunks_exact_length 3 raw n) by lia.
  - apply Forall_lookup. intros i c. rewrite chunks_exact_lookup by lia. case_decide; [|done]. intros [= <-].
    rewrite length_take, length_drop. lia.
Qed.

Lemma byte_at (b : bytes) i : (i < length b)%nat → ∃ v, b !! i = Some v.
Proof. intros Hi. by apply lookup_lt_is_Some_2. Qed.

Lemma png_color_settles b image_index Q : (33 ≤ length b)%nat →
  settles (λ c, c = PNG_RGB ∨ c = PNG_RGBA) Q (validated_png_color b image_index).
Proof.
  intros Hb. unfold validated_png_color.
  destruct (byte_at b 24) as [d ->]; [lia|]. destruct (byte_at b 25) as [c ->]; [lia|]. cbn [expect out_bind].
  assert (∃ r, get_range b 26 29 = Some r) as [r ->].
  { eexists. apply get_range_Some. split_and!; [done|lia|reflexivity]. }
  cbn [expect out_bind].
  eapply (settles_bind (λ _, Byte.to_N c = PNG_RGB ∨ Byte.to_N c = PNG_RGBA)); [|by intros [] _ Hc; cbn].
  apply settles_guard. intros [[_ Hc%negb_false_iff]%orb_false_iff _]%orb_false_iff.
  apply one_of_elem in Hc. rewrite !elem_of_cons in Hc. destruct Hc as [?|[?|?%not_elem_of_nil]]; auto; done.
Qed.

Lemma png_result_settles {A} (r : A + PngError) i Q : settles (λ _, True) Q (png_result r i).
Proof. by destruct r. Qed.

Section images.
Context `{PngReader} (limits : AssetLimits).

Lemma decode_png_settles b image_index Q : settles (texture_decoded limits) Q (decode_png b limits image_index).
Proof.
  unfold decode_png, validate_png_framing.
  eapply (settles_bind (λ _, (33 ≤ length b)%nat)).
  { apply settles_guard. intros [[[[Hl%Nat.ltb_ge _]%orb_false_iff _]%orb_false_iff _]%orb_false_iff _]%orb_false_iff. done. }
  intros [] _ Hb. eapply (settles_bind (λ w, 0 < w)).
  { apply settles_ok_or. intros w. destruct (read_be_u32 b 16) as [v|]; [|done]. cbn. destruct (N.eqb_spec v 0); [done|]. intros [= <-]. lia. }
  intros width _ Hw. eapply (settles_bind (λ h, 0 < h)).
  { apply settles_ok_or. intros h. destruct (read_be_u32 b 20) as [v|]; [|done]. cbn. destruct (N.eqb_spec v 0); [done|]. intros [= <-]. lia. }
  intros height _ Hh. eapply (settles_bind (λ '(pixels, _), ∃ t, tx_width t = width ∧ tx_height t = height ∧ pixels = width * height ∧ texture_decoded limits t)).
  { unfold validated_texture_size.
    eapply (settles_bind (λ _, width ≤ al_max_texture_dimension_2d limits ∧ height ≤ al_max_texture_dimension_2d limits)).
    { apply settles_guard. by intros [?%N.ltb_ge ?%N.ltb_ge]%orb_false_iff. }
    intros [] _ [Hwd Hhd]. eapply (settles_bind (λ pixels, pixels = width * height)); [apply settles_ok_or; by intros p [-> _]%checked_mul_ok|].
    intros pixels _ ->. eapply (settles_bind (λ _, width * height ≤ al_max_texture_pixels limits)); [apply settles_guard; by intros ?%N.ltb_ge|].
    intros [] _ Hpix. eapply (settles_bind (λ n, n = 4 * (width * height) ∧ n ≤ u64_max)).
    { apply settles_ok_or. intros n [-> ?]%checked_mul_ok. split; lia. }
    intros n _ [-> Hn]. eapply (settles_bind (λ _, 4 * (width * height) ≤ al_max_texture_decoded_bytes limits)).
    { apply settles_guard. by intros [?%N.ltb_ge _]%orb_false_iff. }
    intros [] _ Hbytes. cbn [settles]. exists (mkTexture width height (repeat x00 (N.to_nat (4 * (width * height))))).
    split_and!; try done. split; cbn [tx_width tx_height tx_rgba8]; try lia. rewrite repeat_length. lia. }
  intros [pixels n] _ (t & Htw & Hth & -> & Ht). eapply settles_bind; [by apply png_color_settles|]. intros color_type _ Hcolor.
  unfold decode_png_pixels. eapply settles_bind; [apply png_result_settles|]. intros reader _ _.
  eapply (settles_bind (λ _, True)); [by apply settles_guard|]. intros [] _ _. eapply (settles_bind (λ _, True)); [by apply settles_guard|]. intros [] _ _.
  set (channels := if color_type =? PNG_RGB then 3 else 4).
  eapply (settles_bind (λ raw, raw = width * height * channels)); [apply settles_ok_or; by intros r [-> _]%checked_mul_ok|]. intros raw_bytes _ ->.
  eapply (settles_bind (λ _, True)); [by apply settles_guard|]. intros [] _ _. eapply settles_bind; [apply png_result_settles|]. intros output _ _.
  eapply (settles_bind (λ _, True)); [by apply settles_guard|]. intros [] _ _.
  eapply (settles_bind (λ _, True)); [by destruct (pi_finish reader)|]. intros [] _ _. cbn [settles].
  destruct Ht as [? ? ? _ ? ?]. rewrite Htw, Hth in *. split; cbn [tx_width tx_height tx_rgba8]; try done.
  destruct Hcolor as [-> | ->]; cbn [N.eqb PNG_RGB PNG_RGBA Pos.eqb] in *; subst channels.
  - change (PNG_RGB =? PNG_RGBA) with false. change (PNG_RGB =? PNG_RGB) with true. cbv iota.
    rewrite (expand_length _ (N.to_nat (width * height))); [lia|]. rewrite filled_length. lia.
  - change (PNG_RGBA =? PNG_RGBA) with true. change (PNG_RGBA =? PNG_RGB) with false. cbv iota. rewrite filled_length. lia.
Qed.

Definition image_bytes (t : AssetTexture) : N := 4 * (tx_width t * tx_height t).

Lemma texture_byte_len_decoded t : texture_decoded limits t → texture_byte_len t = image_bytes t.
Proof. intros [_ _ _ Hl _ Hu]. unfold texture_byte_len. rewrite len_or_max_min, Hl. unfold image_bytes. lia. Qed.

(** The images decoded so far are valid and all charged. *)
Record images_decoded (visited : nat) (images : gmap N AssetTexture) (byte_len : N) : Prop := {
  id_visited : ∀ i t, images !! i = Some t → i < N.of_nat visited ∧ texture_decoded limits t;
  id_charge : byte_len = map_sum image_bytes images;
  id_bytes : byte_len ≤ al_max_asset_decoded_bytes limits;
}.

Context (root : Root) (binary : bytes).

Lemma root_image_settles image_index image unsupported Q :
  settles (λ '(decoded, _), ∀ t, decoded = Some t → texture_decoded limits t) Q
    (validate_root_image root binary limits image_index image unsupported).
Proof.
  unfold validate_root_image. destruct (is_some (im_uri image)).
  { eapply (settles_bind (λ _, True)); [by apply settles_guard|]. by intros [] _ _. }
  eapply (settles_bind (λ _, True)); [by apply settles_ok_or|]. intros view_index _ _.
  eapply (settles_bind (λ _, True)).
  { apply settles_normal; [|done]. unfold image_view_bytes. apply out_bind_normal; [apply get_normal|]. intros view _. solve_normal. }
  intros [b has_stride] _ _. eapply (settles_bind (λ _, True)); [by apply settles_ok_or|]. intros mime _ _.
  destruct (negb _); [done|]. pose proof (decode_png_settles b image_index Q) as Hp.
  destruct (decode_png b limits image_index) as [t|d| |]; cbn in *; [by intros ? [= <-]| |done..]. by destruct (permits_proxy _).
Qed.

Lemma bounded_index_settles index Q : (index ≤ 12)%nat → settles (λ i, i = N.of_nat index) Q (bounded_index index).
Proof. intros Hi. unfold bounded_index. rewrite (proj2 (N.leb_le _ _)); [done|]. unfold u32_max. lia. Qed.

Lemma root_images_settles unsupported Q : (length (rt_images root) ≤ 12)%nat →
  settles (λ '(images, byte_len, _), images_decoded (length (rt_images root)) images byte_len) Q
    (validate_root_images root binary limits unsupported).
Proof.
  intros Hlen. unfold validate_root_images.
  apply (settles_enumerate (λ visited '(images, byte_len, _), images_decoded visited images byte_len) Q _ (rt_images root) _ 0%nat).
  { split; [done|reflexivity|lia]. }
  intros [[images byte_len] u] i image Hi Him. pose proof (lookup_lt_Some _ _ _ Hi) as Hlt. cbn [Nat.add] in *.
  eapply settles_bind; [apply bounded_index_settles; lia|]. intros image_index _ ->.
  eapply settles_bind; [apply root_image_settles|]. intros [[t|] u'] _ Hd.
  2: { split; [|apply Him..]. intros j t Hj. apply (id_visited _ _ _ Him) in Hj as [? ?]. split; [lia|done]. }
  specialize (Hd t eq_refl). unfold checked_texture_bytes. rewrite (texture_byte_len_decoded t Hd).
  assert (images !! N.of_nat i = None) as Hnew.
  { destruct (images !! N.of_nat i) as [t'|] eqn:E; [|done]. apply (id_visited _ _ _ Him) in E as [? _]. lia. }
  eapply (settles_bind (λ n, n = byte_len + image_bytes t ∧ n ≤ al_max_asset_decoded_bytes limits)).
  { eapply (settles_bind (λ n, n = byte_len + image_bytes t)); [apply settles_ok_or; by intros n [-> _]%checked_add_Some|].
    intros n _ ->. eapply (settles_bind (λ _, byte_len + image_bytes t ≤ al_max_asset_decoded_bytes limits)); [apply settles_guard; by intros ?%N.ltb_ge|].
    by intros [] _ ?. }
  intros n _ [-> Hn]. split; [|rewrite map_sum_insert, (id_charge _ _ _ Him) by done; lia|done].
  intros j t'. rewrite lookup_insert_Some. intros [[<- <-]|[_ Hj]]; [split; [lia|done]|].
  apply (id_visited _ _ _ Him) in Hj as [? ?]. split; [lia|done].
Qed.

Lemma texture_sources_settles Q : (length (rt_textures root) ≤ 12)%nat →
  settles (λ sources, ∀ i, i < N.of_nat (length (rt_textures root)) → is_Some (sources !! i)) Q (validate_texture_sources root).
Proof.
  intros Hlen. unfold validate_texture_sources.
  apply (settles_enumerate (λ visited (sources : gmap N N), ∀ i, i < N.of_nat visited → is_Some (sources !! i)) Q _ (rt_textures root) _ 0%nat).
  { intros i Hi. lia. }
  intros sources i t Hi Hs. pose proof (lookup_lt_Some _ _ _ Hi) as Hlt. cbn [Nat.add] in *.
  eapply settles_bind; [apply bounded_index_settles; lia|]. intros index _ ->.
  eapply (settles_bind (λ _, True)); [by apply settles_ok_or|]. intros source _ _.
  eapply (settles_bind (λ _, True)); [apply settles_normal; [apply get_normal|done]|]. intros image _ _.
  eapply (settles_bind (λ _, True)).
  { destruct (tex_sampler t); [|done]. apply settles_normal; [|done]. apply out_bind_normal; [apply get_normal|done]. }
  intros [] _ _. cbn [settles]. intros j Hj. destruct (decide (j = N.of_nat i)) as [->|Hn].
  - rewrite lookup_insert_eq. eauto.
  - rewrite lookup_insert_ne by done. apply Hs. lia.
Qed.

Lemma shared_index_settles references n location unsupported Q :
  settles (λ '(index, _), ∀ i, index = Some i → i < N.of_nat n) Q (shared_texture_index references n location unsupported).
Proof.
  unfold shared_texture_index. set (indices := bset_iter (list_to_set references)).
  destruct (find (λ index, N.of_nat n <=? index) indices) as [bad|] eqn:Hfind; [done|]. cbn [out_bind settles].
  intros i Hi. apply N.nle_gt. intros Hle. destruct indices as [|j rest]; [done|]. injection Hi as ->.
  cbn [find] in Hfind. by rewrite (proj2 (N.leb_le _ _) Hle) in Hfind.
Qed.

Lemma role_indices_settles x unsupported Q :
  settles (λ '(indices, _), ∀ role i, indices role = Some i → i < N.of_nat (length (rt_textures root))) Q
    (texture_role_indices root x unsupported).
Proof.
  unfold texture_role_indices. apply settles_fold; [done|]. intros [indices u] role _ Hi.
  eapply settles_bind; [apply shared_index_settles|]. intros [index u'] _ Hindex. cbn [settles].
  intros r i. case_decide; [apply Hindex|apply Hi].
Qed.

(** The retained textures are decoded images. *)
Definition textures_decoded (textures : DecodedTextures) (images : gmap N AssetTexture) : Prop :=
  images_decoded (length (rt_images root)) images (dt_byte_len textures) ∧
  ∀ role t, dt_texture textures role = Some t → ∃ i, images !! i = Some t.

Lemma decode_textures_settles x Q : (length (rt_images root) ≤ 12)%nat → (length (rt_textures root) ≤ 12)%nat →
  settles (λ textures, ∃ images, textures_decoded textures images) Q (decode_textures root binary limits x).
Proof.
  intros Hni Hnt. unfold decode_textures.
  eapply (settles_bind (λ r, images_decoded (length (rt_images root)) (vr_decoded_images r) (vr_byte_len r) ∧
    ∀ i, i < N.of_nat (length (rt_textures root)) → is_Some (vr_texture_sources r !! i))).
  { unfold validate_texture_resources. eapply settles_bind; [by apply texture_sources_settles|]. intros sources _ Hs.
    eapply settles_bind; [by apply root_images_settles|]. by intros [[images byte_len] u] _ Hi. }
  intros r _ [Him Hs]. eapply settles_bind; [apply role_indices_settles|]. intros [indices u] _ Hix.
  destruct (_ && _).
  { cbn [settles]. exists ∅. split; [|done]. split; [done|reflexivity|cbn; lia]. }
  eapply (settles_bind (λ _, True)).
  { apply (settles_fold (λ _, True)); [done|]. intros acc i Hi _. apply elem_of_bset_iter in Hi.
    rewrite elem_of_list_to_set, list_elem_of_omap in Hi. destruct Hi as (role & _ & Hrole).
    destruct (Hs i (Hix _ _ Hrole)) as [source ->]. done. }
  intros image_list _ _. cbn [settles]. exists (vr_decoded_images r). split; [done|]. cbn [dt_texture].
  intros role t Ht. destruct (indices role) as [i|]; [|done]. cbn in Ht. destruct (vr_texture_sources r !! i) as [source|]; [|done].
  cbn in Ht. by exists source.
Qed.

End images.

(** ** Decoded assets *)

(** A decoded asset: whole triangles of vertices of the fixed shape, textures
    that are decoded images and that some mesh uses, and a size that is what the
    images and the vertices take, all within the limits. *)
Record asset_decoded (limits : AssetLimits) (d : DecodedAsset) : Prop := {
  dc_meshes : da_meshes d ≠ [] ∧ N.min u32_max (N.of_nat (length (da_meshes d))) ≤ al_max_meshes limits;
  dc_vertices : Forall (λ m, Forall typed_vertex (dm_vertices m) ∧ N.of_nat (length (dm_vertices m)) mod 3 = 0 ∧
    N.of_nat (length (dm_vertices m)) ≤ al_max_vertices_per_mesh limits) (da_meshes d);
  dc_textures : ∀ role t, da_texture d role = Some t →
    texture_decoded limits t ∧ ∃ m, m ∈ da_meshes d ∧ has_role (mt_texture_roles (dm_material m)) (role_index role) = true;
  dc_bytes : ∃ images : gmap N AssetTexture,
    (∀ role t, da_texture d role = Some t → ∃ i, images !! i = Some t) ∧
    da_byte_len d = map_sum image_bytes images + ASSET_VERTEX_BYTES * sumN (λ m, N.of_nat (length (dm_vertices m))) (da_meshes d);
  dc_limit : da_byte_len d ≤ al_max_asset_decoded_bytes limits;
}.

Lemma limited_settles entries Q : settles (λ _, Forall (λ e, e.1 = false) entries) Q (limited entries).
Proof.
  unfold limited. induction entries as [|e entries IH]; cbn [out_fold]; [constructor|].
  eapply (settles_bind (λ _, e.1 = false)); [by apply settles_guard|]. intros [] _ He.
  eapply settles_weaken; [apply IH|by constructor|done].
Qed.

Lemma root_header_settles root binary limits Q :
  settles (λ _, N.min u32_max (N.of_nat (length (rt_meshes root))) ≤ al_max_meshes limits ∧
    (length (rt_images root) ≤ 12)%nat ∧ (length (rt_textures root) ≤ 12)%nat) Q (validate_root_header root binary limits).
Proof.
  unfold validate_root_header. eapply (settles_bind (λ _, True)); [by apply settles_guard|]. intros [] _ _.
  eapply (settles_bind (λ _, True)).
  { destruct (rt_buffers root) as [|b [|? ?]]; [done| |done]. eapply (settles_bind (λ _, True)); [by apply settles_guard|]. by intros [] _ _. }
  intros declared _ _. eapply (settles_bind (λ _, True)); [by apply settles_guard|]. intros [] _ _.
  eapply settles_bind; [apply limited_settles|]. intros [] _ H1. apply Forall_cons_1 in H1 as [Hm%N.ltb_ge _].
  eapply settles_weaken; [apply limited_settles| |done]. intros [] H2. cbn [fst] in *.
  apply Forall_cons_1 in H2 as [Hi%Nat.ltb_ge H2]. apply Forall_cons_1 in H2 as [_ H2]. apply Forall_cons_1 in H2 as [Ht%Nat.ltb_ge _].
  unfold count in Hm. rewrite len_or_max_min in Hm. done.
Qed.

Lemma decode_sampler_normal i s : normal (decode_sampler i s).
Proof. unfold decode_sampler. solve_normal. Qed.

Lemma sampler_resources_normal root : normal (validate_sampler_resources root).
Proof.
  unfold validate_sampler_resources. apply out_bind_normal; [apply guard_err_normal|]. intros [] _.
  apply out_bind_normal; [apply each_indexed_normal; intros; apply out_bind_normal; [apply decode_sampler_normal|done]|]. intros [] _.
  apply each_indexed_normal. intros i t. destruct (tex_sampler t); [|done]. apply out_bind_normal; [apply map_err_normal, get_normal|done].
Qed.

Lemma units_normal values location index : normal (validate_units values location index).
Proof. unfold validate_units. apply out_bind_normal; [apply unit_values_normal|done]. Qed.

Lemma material_values_normal root : normal (validate_material_values root).
Proof.
  unfold validate_material_values. apply each_indexed_normal. intros i m.
  apply out_bind_normal; [destruct (gmt_pbr_metallic_roughness m); [|done]; apply out_bind_normal; [apply units_normal|]; intros; apply units_normal|].
  intros [] _. apply out_bind_normal; [|intros [] _; apply units_normal].
  destruct (gmt_normal_texture m ≫= ni_scale); [|done]. apply out_bind_normal; [apply map_err_normal, finite_new_normal|done].
Qed.

Lemma references_normal {A} root location (infos : A → list (option PendingTextureInfo)) l :
  normal (validate_references root location infos l).
Proof.
  unfold validate_references. apply each_indexed_normal. intros i a. apply (out_fold_normal _ (λ _, True)); [|done..].
  intros info [] _ _. apply out_bind_normal; [apply map_err_normal, get_normal|done].
Qed.

Lemma deferred_references_normal root x : normal (validate_deferred_extension_texture_references root x).
Proof. unfold validate_deferred_extension_texture_references. do 3 (apply out_bind_normal; [apply references_normal|intros [] _]). apply references_normal. Qed.

Lemma alpha_coverage_settles root Q : settles (λ _, True) Q (validate_alpha_coverage root).
Proof.
  unfold validate_alpha_coverage. apply (settles_enumerate (λ _ _, True) Q _ (rt_materials root) _ 0%nat); [done|].
  intros u i m _ _. eapply (settles_bind (λ _, True)); [by apply settles_guard|]. intros [] _ _.
  eapply (settles_bind (λ _, True)); [|by intros [] _ _]. destruct (gmt_alpha_cutoff m); [|done].
  eapply (settles_bind (λ _, True)); [apply settles_normal; [apply map_err_normal, finite_new_normal|done]|]. intros v _ _. by apply settles_guard.
Qed.

Lemma selected_roles_ok meshes textures role t :
  validate_selected_texture_roles meshes textures = Ok tt → dt_texture textures role = Some t →
  ∃ m, m ∈ meshes ∧ has_role (mt_texture_roles (dm_material m)) (role_index role) = true.
Proof.
  unfold validate_selected_texture_roles. intros Hv Ht. destruct (find _ asset_roles) eqn:Hf; [done|].
  pose proof (find_none _ _ Hf role (proj1 (list_elem_of_In _ _) (elem_of_asset_roles role))) as Hr. cbv beta in Hr.
  rewrite Ht in Hr. cbn [is_some andb] in Hr. apply negb_false_iff, existsb_exists in Hr as (m & Hm%list_elem_of_In & Hr). by exists m.
Qed.

Section assets_theorems.
Context `{PngReader} `{TangentGenerator} (sin_cos : f32 → f32 * f32) (limits : AssetLimits).

Definition mesh_fine (m : DecodedMesh) : Prop :=
  Forall typed_vertex (dm_vertices m) ∧ N.of_nat (length (dm_vertices m)) mod 3 = 0 ∧
  N.of_nat (length (dm_vertices m)) ≤ al_max_vertices_per_mesh limits.

(** Some mesh of the document has an anisotropy texture of a coordinate set
    beyond the second. *)
Definition wide_document (root : Root) (x : ExtensionPreflight) : Prop := ∃ mesh, mesh ∈ rt_meshes root ∧ wide_anisotropy mesh x.

Lemma meshes_settles root binary x before : rotations_finite sin_cos x → before ≤ al_max_asset_decoded_bytes limits →
  settles (λ '(meshes, bytes), length meshes = length (rt_meshes root) ∧ Forall mesh_fine meshes ∧
      bytes = before + ASSET_VERTEX_BYTES * sumN (λ m, N.of_nat (length (dm_vertices m))) meshes ∧
      bytes ≤ al_max_asset_decoded_bytes limits) (wide_document root x)
    (out_enumerate (λ '(meshes, decoded_bytes) mesh_index mesh,
      let! (m, decoded_bytes) := decode_mesh sin_cos root binary limits (stable_index mesh_index) mesh decoded_bytes x in
      Ok (meshes ++ [m], decoded_bytes)) ([], before) 0 (rt_meshes root)).
Proof.
  intros Hrot Hb.
  apply (settles_enumerate (λ n '(meshes, bytes), length meshes = n ∧ Forall mesh_fine meshes ∧
      bytes = before + ASSET_VERTEX_BYTES * sumN (λ m, N.of_nat (length (dm_vertices m))) meshes ∧
      bytes ≤ al_max_asset_decoded_bytes limits) (wide_document root x) _ (rt_meshes root) _ 0%nat).
  { split_and!; [done|constructor|cbn; lia|done]. }
  intros [meshes bytes] i mesh Hi (Hlen & Hall & Hbytes & _). pose proof (list_elem_of_lookup_2 _ _ _ Hi) as Hin.
  eapply settles_bind; [eapply settles_weaken; [by apply decode_mesh_settles|intros a Ha; exact Ha|intros Hw; by exists mesh]|].
  intros [m total] _ [Ht H3 Hv Hc Hl]. cbn [settles fst snd] in *. split_and!.
  - rewrite length_app. cbn [length]. lia.
  - apply Forall_app. split; [done|]. by repeat constructor.
  - rewrite sumN_app, Hc, Hbytes. cbn [sumN foldr]. unfold sumN. lia.
  - done.
Qed.

Lemma validate_root_settles root binary x : rotations_finite sin_cos x →
  settles (asset_decoded limits) (wide_document root x) (validate_root sin_cos root binary limits x).
Proof.
  intros Hrot. unfold validate_root.
  eapply (settles_bind (λ _, True)); [apply settles_normal; [apply sampler_resources_normal|done]|]. intros [] _ _.
  eapply settles_bind; [apply root_header_settles|]. intros [] _ (Hm & Hni & Hnt).
  eapply (settles_bind (λ _, True)); [apply settles_normal; [apply material_values_normal|done]|]. intros [] _ _.
  eapply (settles_bind (λ _, True)); [apply settles_normal; [apply deferred_references_normal|done]|]. intros [] _ _.
  eapply settles_bind; [apply alpha_coverage_settles|]. intros alpha _ _.
  eapply settles_bind; [by apply decode_textures_settles|]. intros textures _ (images & Him & Htex).
  eapply settles_bind; [apply meshes_settles; [done|apply Him]|]. intros [meshes bytes] _ (Hlen & Hall & Hbytes & Hlimit).
  eapply (settles_bind (λ _, meshes ≠ [])); [apply settles_guard; by destruct meshes|]. intros [] _ Hne.
  eapply (settles_bind (λ _, True)); [by destruct (dt_unsupported textures)|]. intros [] _ _.
  eapply (settles_bind (λ _, True)); [unfold validate_selected_texture_roles; by destruct (find _ _)|]. intros [] Hroles _.
  eapply (settles_bind (λ _, True)); [by destruct alpha|]. intros [] _ _. cbn [settles].
  split; cbn [da_meshes da_texture da_byte_len]; try done.
  - split; [done|]. by rewrite Hlen.
  - intros role t Ht. split; [destruct (Htex _ _ Ht) as [i Hi]; by apply (id_visited _ _ _ _ Him) in Hi as [_ ?]|].
    by eapply selected_roles_ok.
  - exists images. split; [done|]. by rewrite Hbytes, (id_charge _ _ _ _ Him).
Qed.

End assets_theorems.

Section decoder.
Context `{PngReader} `{TangentGenerator} `{GlbJson} (sin_cos : f32 → f32 * f32).

(** The rotations that the preflight admits have a finite sine and cosine. *)
Definition documents_finite : Prop := ∀ json root x, read_document json = inl (root, x) → rotations_finite sin_cos x.

Lemma glb_decode_settles source limits :
  documents_finite →
  settles (λ d, asset_decoded limits d ∧ ∃ json binary, source = glb_container json binary)
    (∃ json binary root x, source = glb_container json binary ∧ read_document json = inl (root, x) ∧ wide_document root x)
    (glb_decode sin_cos source limits).
Proof.
  intros Hfin. unfold glb_decode. pose proof (split_glb_normal source limits) as Hn.
  destruct (split_glb source limits) as [[json binary]|e| |] eqn:Hsplit; cbn [out_bind]; [|done..].
  apply split_glb_container in Hsplit as (Hsource & _).
  destruct (read_document json) as [[root x]|d] eqn:Hdoc; cbn [out_bind]; [|done].
  pose proof (validate_root_settles sin_cos limits root binary x (Hfin _ _ _ Hdoc)) as Hr.
  destruct (validate_root sin_cos root binary limits x) as [d|d| |]; cbn [out_bind settles] in *; [|done| |done].
  - destruct (ep_unsupported x); cbn [no_unsupported out_bind settles]; [done|]. split; [done|by exists json, binary].
  - by exists json, binary, root, x.
Qed.


(** The decoder as the asset store calls it; [otherwise] stands for the answer
    that a source never gets when decoding it panics. *)
Definition store_decoder (otherwise : AssetDiagnostic) : GlbDecoder := λ source limits,
  match glb_decode sin_cos source limits with
  | Ok decoded => inl decoded
  | Err diagnostic => inr diagnostic
  | Panic | OutOfFuel => inr otherwise
  end.

(** It keeps the promise that the store and the renderer rely on. *)
Lemma store_decoder_laws otherwise : documents_finite → @GlbDecoderLaws (store_decoder otherwise).
Proof.
  intros Hfin source limits d. unfold decode_glb, store_decoder. intros Hd.
  pose proof (glb_decode_settles source limits Hfin) as Hs.
  destruct (glb_decode sin_cos source limits) as [d'| | |]; [|done..]. injection Hd as ->.
  destruct Hs as [Hs _]. unfold typed_decoded. eapply Forall_impl; [apply (dc_vertices _ _ Hs)|]. by intros m [? _].
Qed.

End decoder.

(** ** A concrete source

    The triangle of [GlbMesh] with an image of one pixel as its anisotropy
    texture. *)
Definition pixel_png : bytes :=
  PNG_SIGNATURE ++ [x00; x00; x00; x0d] ++ PNG_IHDR ++ [x00; x00; x00; x01; x00; x00; x00; x01; x08; x06; x00; x00; x00; x1f; x15; xc4; x89]
  ++ PNG_IEND.

Definition pixel_reader : PngReader := λ _ _,
  inl (mkPngImage false false (Some 4) (inl (mkPngOutput 1 1 8 PngRgba 4 [x10; x20; x30; xff])) None).

Definition textured_root (sets : list (string * N)) : Root :=
  let r := triangle_root sets in
  mkRoot (rt_version r) [mkGlbBuffer 189 None] (rt_buffer_views r ++ [mkBufferView 0 144 45 None]) (rt_accessors r) (rt_meshes r) (rt_materials r)
    [mkGlbImage (Some 4) (Some "image/png") None] [] (rt_textures r).

Definition textured_json (sets : list (string * N)) (set : N) : GlbJson := λ _, inl (textured_root sets, anisotropy_preflight set).
Definition textured_source : bytes := glb_container [x7b; x7d; x20; x20] (triangle_binary ++ pixel_png ++ [x00; x00; x00]).

Definition decode_textured (sets : list (string * N)) (set : N) : outcome AssetDiagnostic DecodedAsset :=
  @glb_decode pixel_reader no_tangents (textured_json sets set) level textured_source asset_limits_default.

Lemma textured_finite sets set : @documents_finite (textured_json sets set) level.
Proof. intros json root x _. apply level_finite. Qed.


(** The same source with a third coordinate set that the anisotropy texture
    selects: the feature was noted as unsupported when the textures were
    examined, and the panic comes before the note is reported. *)
Example wide_source_panics : decode_textured three_sets 2 = Panic.
Proof. vm_compute. reflexivity. Qed.
