(* ===== verification/ObservationQueue.v ===== *)
(** * The observation queue

    [cogniform-engine/src/observation.rs]: permits that bound the outstanding
    requests, the two bounded channels around the readback worker, and the
    completion of one observation.  The worker thread is the relation
    [worker_step]; it interleaves with the operations of the owner at any point
    between them.  A worker that dies drops its job and the queued ones, and
    with them their permits. *)

From S2P Require Import Prelude Machine BTree Floats Values Components Messages MessageSpec WorldTypes Hierarchy Render World RenderScene Recovery Engine Gateway Observation Frame.

Open Scope N_scope.

(** ** Permits *)

(** An admission record; [oa_id] is the identity of its allocation. *)
Record ObservationAdmission := mkObservationAdmission {
  oa_id : nat;
  oa_reserved_at : N;
}.

(** A permit is known by its admission record. *)
Definition ObservationPermit : Type := nat.

Record ObservationSlots := mkSlots {
  os_capacity : N;
  os_in_use : N;
  os_pending : list ObservationAdmission;
  os_next : nat;
}.

(** [ObservationSlots::new]. *)
Definition slots_new (capacity : N) : ObservationSlots := mkSlots capacity 0 [] 0.

(** [ObservationSlots::acquire]; its assertion compares the counter with itself. *)
Definition slots_acquire (s : ObservationSlots) (reserved_at : N) : ObservationPermit * ObservationSlots :=
  (os_next s,
   mkSlots (os_capacity s) (os_in_use s + 1) (os_pending s ++ [mkObservationAdmission (os_next s) reserved_at]) (S (os_next s))).

(** [ObservationSlots::try_acquire], at a clock reading. *)
Definition try_acquire (s : ObservationSlots) (now : N) : option (ObservationPermit * ObservationSlots) :=
  if os_capacity s <=? os_in_use s then None else Some (slots_acquire s now).

(** [Vec::swap_remove]. *)
Definition swap_remove {A} (l : list A) (i : nat) : list A :=
  match last l with
  | None => l
  | Some x => take (length l - 1) (<[i := x]> l)
  end.

(** [<ObservationPermit as Drop>::drop]. *)
Definition permit_drop {F} (permit : ObservationPermit) (s : ObservationSlots) : outcome F ObservationSlots :=
  let! (position, _) := expect (list_find (λ a, oa_id a = permit) (os_pending s)) in
  do! debug_assert (0 <? os_in_use s) then
  Ok (mkSlots (os_capacity s) (os_in_use s - 1) (swap_remove (os_pending s) position) (os_next s)).

(** [ObservationSlots::status_at]. *)
Definition slots_status_at {F} (s : ObservationSlots) (sampled_at : N) : outcome F (N * option N) :=
  do! debug_assert (os_in_use s =? N.of_nat (length (os_pending s))) then
  Ok (os_in_use s, elapsed_micros sampled_at <$> iter_min (oa_reserved_at <$> os_pending s)).

(** [ObservationSlots::in_use]. *)
Definition slots_in_use {F} (s : ObservationSlots) : outcome F N :=
  do! debug_assert (os_in_use s =? N.of_nat (length (os_pending s))) then
  Ok (os_in_use s).

(** ** Completions *)

Record Observed := mkObserved {
  ob_metadata : ObservationMetadata;
  ob_payload : ObservationPayload;
}.

Inductive ObservationDelivery : Type :=
| OdCompleted (observation : Observed)
| OdFailed (observation_id : ObservationId) (error : ObservationError).

(** [ObservationDelivery::observation_id]. *)
Definition delivery_id (d : ObservationDelivery) : ObservationId :=
  match d with OdCompleted o => om_observation_id (ob_metadata o) | OdFailed id _ => id end.

Record ObservationJob := mkJob {
  oj_permit : ObservationPermit;
  oj_pending : PendingFrame;
  oj_request : ObservationRequest;
  oj_started_at : N;
}.

Record ObservationCompletion := mkCompletion {
  oc_permit : ObservationPermit;
  oc_request : ObservationRequest;
  oc_observed_at_unix_micros : N;
  oc_production_latency_micros : N;
  oc_frame : RenderedFrame + RendererError;
}.

(** The visible pixels of each entity. *)
Definition visibility_counts (ids : list (option StableEntityId)) : gmap N N :=
  foldl (λ counts id, match id with
                      | Some id => <[id := default 0 (counts !! id) + 1]> counts
                      | None => counts
                      end) ∅ ids.

(** [payload_for]. *)
Definition payload_for (kind : ObservationKind) (f : RenderedFrame) : ObservationPayload :=
  match kind with
  | Color => PColor (rf_color f)
  | Depth => PDepth (rf_depth f)
  | Normal => PNormal (rf_normals f)
  | EntityId => PEntityId (rf_stable_entity_ids f)
  | Visibility =>
      PVisibility ((λ p, mkVisibility p.1 p.2) <$> btree_iter (visibility_counts (rf_stable_entity_ids f)))
  end.

(** [complete_observation]; the permit is released by the caller here. *)
Definition complete_observation (c : ObservationCompletion) (latest_known_revision : SceneRevision)
    (limits : RuntimeLimits) : outcome ObservationError Observed :=
  let request := oc_request c in
  let! frame := match oc_frame c with inl f => Ok f | inr error => Err (ObsRenderer error) end in
  let source := rf_metadata frame in
  do! guard_err (negb (or_camera_id request =? fm_camera_id source))
    (CameraMismatch (or_camera_id request) (fm_camera_id source)) then
  do! guard_err (negb (or_scene_revision request =? fm_scene_revision source))
    (SourceRevisionMismatch (or_scene_revision request) (fm_scene_revision source)) then
  do! guard_err (latest_known_revision <? fm_scene_revision source)
    (SourceRevisionAhead (fm_scene_revision source) latest_known_revision) then
  let! dimensions :=
    if bool_decide (or_kind request = Visibility) then Ok None
    else
      let! width := expect (non_zero (rf_width frame)) in
      let! height := expect (non_zero (rf_height frame)) in
      Ok (Some (mkDimensions width height)) in
  let payload := payload_for (or_kind request) frame in
  let metadata := mkMetadata schema_v1 (or_observation_id request) (fm_scene_revision source) (fm_frame_id source)
    (fm_camera_id source) (or_kind request) dimensions (or_quality request) (oc_observed_at_unix_micros c)
    (oc_production_latency_micros c)
    (mkStaleness latest_known_revision (latest_known_revision - fm_scene_revision source)) in
  do! map_err Engine.InvalidMetadata (metadata_validate metadata limits) then
  Ok (mkObserved metadata payload).

(** ** The queue *)

Record ObservationQueue := mkObservationQueue {
  oq_slots : ObservationSlots;
  oq_limits : RuntimeLimits;
  oq_jobs : list ObservationJob;
  oq_active : option ObservationJob;
  oq_results : list ObservationCompletion;
  oq_worker : bool;
}.

Definition set_slots (s : ObservationSlots) (q : ObservationQueue) : ObservationQueue :=
  mkObservationQueue s (oq_limits q) (oq_jobs q) (oq_active q) (oq_results q) (oq_worker q).

(** Both channels hold as many messages as there are permits. *)
Definition channel_capacity (q : ObservationQueue) : nat := N.to_nat (os_capacity (oq_slots q)).

(** [ObservationQueue::new] after its bound and the start of the worker. *)
Definition observation_queue_start (capacity : N) (limits : RuntimeLimits) : ObservationQueue :=
  mkObservationQueue (slots_new capacity) limits [] None [] true.

(** A permit goes out of scope before the call returns. *)
Definition release {A} (permit : ObservationPermit) (q : ObservationQueue) (result : outcome ObservationError A)
    : ObservationQueue * outcome ObservationError A :=
  match permit_drop (F := ObservationError) permit (oq_slots q) with
  | Ok s => (set_slots s q, result)
  | _ => (q, Panic)
  end.

(** [ObservationQueue::try_reserve]. *)
Definition try_reserve (now : N) (q : ObservationQueue) : ObservationQueue * outcome ObservationError ObservationPermit :=
  match try_acquire (oq_slots q) now with
  | Some (permit, s) => (set_slots s q, Ok permit)
  | None => (q, Err (CapacityExceeded (os_capacity (oq_slots q))))
  end.

(** [ObservationQueue::submit_reserved]: [try_send] hands the job back when it
    fails, and the permit with it. *)
Definition submit_reserved (permit : ObservationPermit) (pending : PendingFrame) (request : ObservationRequest) (now : N)
    (q : ObservationQueue) : ObservationQueue * outcome ObservationError unit :=
  if negb (oq_worker q) then release permit q (Err WorkerUnavailable)
  else if (channel_capacity q <=? length (oq_jobs q))%nat then
    release permit q (Err (CapacityExceeded (os_capacity (oq_slots q))))
  else
    (mkObservationQueue (oq_slots q) (oq_limits q) (oq_jobs q ++ [mkJob permit pending request now]) (oq_active q)
       (oq_results q) (oq_worker q), Ok tt).

(** [ObservationQueue::try_submit]. *)
Definition try_submit (pending : PendingFrame) (request : ObservationRequest) (now : N) (q : ObservationQueue)
    : ObservationQueue * outcome ObservationError unit :=
  let source := pf_metadata pending in
  match
    (do! map_err InvalidRequest (observation_request_validate request (oq_limits q)) then
     do! guard_err (negb (or_camera_id request =? fm_camera_id source))
       (CameraMismatch (or_camera_id request) (fm_camera_id source)) then
     guard_err (negb (or_scene_revision request =? fm_scene_revision source))
       (SourceRevisionMismatch (or_scene_revision request) (fm_scene_revision source)))
  with
  | Ok _ =>
      let '(q, reserved) := try_reserve now q in
      match reserved with
      | Ok permit => submit_reserved permit pending request now q
      | Err error => (q, Err error)
      | _ => (q, Panic)
      end
  | Err error => (q, Err error)
  | _ => (q, Panic)
  end.

(** [ObservationQueue::try_receive_delivery]. *)
Definition try_receive_delivery (latest_known_revision : SceneRevision) (q : ObservationQueue)
    : ObservationQueue * outcome ObservationError (option ObservationDelivery) :=
  match oq_results q with
  | [] => (q, if oq_worker q then Ok None else Err WorkerUnavailable)
  | c :: results =>
      let q := mkObservationQueue (oq_slots q) (oq_limits q) (oq_jobs q) (oq_active q) results (oq_worker q) in
      let observation_id := or_observation_id (oc_request c) in
      release (oc_permit c) q
        match complete_observation c latest_known_revision (oq_limits q) with
        | Ok o => Ok (Some (OdCompleted o))
        | Err error => Ok (Some (OdFailed observation_id error))
        | Panic => Panic
        | OutOfFuel => OutOfFuel
        end
  end.

(** [ObservationQueue::try_receive]. *)
Definition try_receive (latest_known_revision : SceneRevision) (q : ObservationQueue)
    : ObservationQueue * outcome ObservationError (option Observed) :=
  let '(q, r) := try_receive_delivery latest_known_revision q in
  (q, let! d := r in
      match d with
      | Some (OdCompleted o) => Ok (Some o)
      | Some (OdFailed _ error) => Err error
      | None => Ok None
      end).

(** [ObservationQueue::status_at]. *)
Definition observation_status_at (q : ObservationQueue) (sampled_at : N) : outcome ObservationError (N * option N) :=
  slots_status_at (oq_slots q) sampled_at.

(** ** The worker *)

(** The completion of a job; [observed_at] and [latency] are saturated readings
    of the wall clock and of the job's age. *)
Definition completion_of (j : ObservationJob) (observed_at latency : N) (frame : RenderedFrame + RendererError)
    : ObservationCompletion :=
  mkCompletion (oj_permit j) (oj_request j) (N.min u64_max observed_at) (N.min u64_max latency) frame.

(** Dropping several jobs. *)
Definition drop_jobs (jobs : list ObservationJob) (s : ObservationSlots) : outcome ObservationError ObservationSlots :=
  out_fold (λ s j, permit_drop (oj_permit j) s) s jobs.

(** One step of [observation_worker]: it receives a job, it sends a completion
    once the results channel has room, or it dies while it reads a frame. *)
Inductive worker_step (q : ObservationQueue) : ObservationQueue → Prop :=
| ws_take j jobs :
    oq_worker q = true → oq_active q = None → oq_jobs q = j :: jobs →
    worker_step q (mkObservationQueue (oq_slots q) (oq_limits q) jobs (Some j) (oq_results q) true)
| ws_finish j observed_at latency frame :
    oq_worker q = true → oq_active q = Some j →
    match frame_read (oj_pending j) with Ok f => frame = inl f | Err e => frame = inr e | _ => False end →
    (length (oq_results q) < channel_capacity q)%nat →
    worker_step q (mkObservationQueue (oq_slots q) (oq_limits q) (oq_jobs q) None
      (oq_results q ++ [completion_of j observed_at latency frame]) true)
| ws_die j s :
    oq_worker q = true → oq_active q = Some j → drop_jobs (j :: oq_jobs q) (oq_slots q) = Ok s →
    worker_step q (mkObservationQueue s (oq_limits q) [] None (oq_results q) false).
