(* ===== verification/ObservationTheorems.v ===== *)
(** * Theorems on the observation queue

    The permits mirror the outstanding requests, whatever the worker does; the
    queue behaves as a first-in first-out list of requests whose suffix is lost
    when the worker dies; a live worker is never blocked; and a completed
    observation carries exactly what its request, its frame and the revision at
    delivery determine. *)

From S2P Require Import Prelude Machine BTree Floats Values Components Messages MessageSpec WorldTypes Hierarchy Render World SceneSpec WorldInvariant RenderScene Recovery Engine Gateway Observation Frame AssetTypes ScenePrepare ObservationQueue.

Open Scope N_scope.

Lemma out_bind_err {E A B} (m : outcome E A) (f : A → outcome E B) e :
  out_bind m f = Err e → m = Err e ∨ ∃ a, m = Ok a ∧ f a = Err e.
Proof. destruct m; cbn; [eauto|intros [= ->]; by left|done..]. Qed.

Lemma map_err_err {E F A} (f : E → F) (m : outcome E A) e : map_err f m = Err e → ∃ e', m = Err e' ∧ f e' = e.
Proof. destruct m; cbn; [done|intros [= <-]; eauto|done..]. Qed.

(** ** Permits *)

Lemma swap_remove_perm {A} (l : list A) i x : l !! i = Some x → l ≡ₚ x :: swap_remove l i.
Proof.
  intros Hi. unfold swap_remove. destruct l as [|y l _] using rev_ind; [done|]. rewrite last_snoc, length_app. cbn [length].
  replace (length l + 1 - 1)%nat with (length l) by lia. destruct (decide (i < length l)%nat) as [Hlt|Hge].
  - rewrite lookup_app_l in Hi by done. rewrite insert_app_l by done. rewrite take_app_length' by (by rewrite length_insert).
    assert (<[i := y]> l ≡ₚ y :: delete i l) as ->.
    { rewrite insert_take_drop by done. rewrite delete_take_drop. symmetry. apply Permutation_middle. }
    etrans; [symmetry; apply Permutation_cons_append|]. etrans; [|apply perm_swap]. constructor. by apply delete_Permutation.
  - rewrite lookup_app_r in Hi by lia. apply list_lookup_singleton_Some in Hi as [Hz ->].
    rewrite take_insert_ge by lia. rewrite take_app_length. symmetry. apply Permutation_cons_append.
Qed.

(** The slots hold the records of exactly the permits [ids]. *)
Record slots_ok (ids : list nat) (s : ObservationSlots) : Prop := {
  so_count : os_in_use s = N.of_nat (length (os_pending s));
  so_ids : oa_id <$> os_pending s ≡ₚ ids;
  so_once : NoDup ids;
  so_next : Forall (λ i, i < os_next s)%nat ids;
  so_bound : os_in_use s ≤ os_capacity s;
}.

Lemma slots_count ids s : slots_ok ids s → os_in_use s = N.of_nat (length ids).
Proof. intros Hs. rewrite (so_count _ _ Hs), <-(length_fmap oa_id), (Permutation_length (so_ids _ _ Hs)). done. Qed.

Lemma slots_ok_perm ids ids' s : ids ≡ₚ ids' → slots_ok ids s → slots_ok ids' s.
Proof. intros Hp [Hc Hi Ho Hn Hb]. split; try done; by rewrite <-Hp. Qed.

Lemma try_acquire_ok ids s now : slots_ok ids s →
  match try_acquire s now with
  | Some (p, s') => slots_ok (ids ++ [p]) s' ∧ os_capacity s' = os_capacity s ∧ N.of_nat (length ids) < os_capacity s
  | None => os_capacity s = N.of_nat (length ids)
  end.
Proof.
  intros Hs. pose proof (slots_count _ _ Hs) as Hc. unfold try_acquire.
  destruct (N.leb_spec (os_capacity s) (os_in_use s)) as [Hle|Hlt]; [pose proof (so_bound _ _ Hs); lia|].
  cbn [slots_acquire]. split; [|split; [done|lia]]. destruct Hs as [Hcount Hi Ho Hn Hb].
  split; cbn [os_in_use os_pending os_next os_capacity].
  - rewrite length_app. cbn [length]. lia.
  - by rewrite fmap_app, Hi.
  - apply NoDup_app. split_and!; [done| |apply NoDup_singleton]. intros i Hin ->%list_elem_of_singleton.
    rewrite Forall_forall in Hn. specialize (Hn _ Hin). lia.
  - apply Forall_app. split; [|repeat constructor]. eapply Forall_impl; [exact Hn|]. cbn. lia.
  - lia.
Qed.

Lemma permit_drop_ok {F} permit ids s : slots_ok (permit :: ids) s →
  ∃ s', permit_drop (F := F) permit s = Ok s' ∧ slots_ok ids s' ∧ os_capacity s' = os_capacity s.
Proof.
  intros Hs. pose proof (slots_count _ _ Hs) as Hc. destruct Hs as [Hcount Hi Ho Hn Hb]. unfold permit_drop.
  destruct (list_find (λ a, oa_id a = permit) (os_pending s)) as [[i a]|] eqn:Hf.
  2:{ exfalso. apply list_find_None in Hf. assert (permit ∈ oa_id <$> os_pending s) as Hin by (rewrite Hi; by left).
      apply list_elem_of_fmap in Hin as (a & -> & Hin). rewrite Forall_forall in Hf. by apply (Hf a). }
  apply list_find_Some in Hf as (Ha & <- & _). cbn [expect out_bind]. unfold debug_assert.
  rewrite (proj2 (N.ltb_lt _ _)) by (rewrite Hc; cbn [length]; lia). cbn [out_bind]. eexists. split; [reflexivity|].
  pose proof (swap_remove_perm _ _ _ Ha) as Hp. split; [|done]. split; cbn [os_in_use os_pending os_next os_capacity].
  - rewrite Hcount, (Permutation_length Hp). cbn [length]. lia.
  - apply (Permutation_cons_inv (a := oa_id a)). rewrite <-Hi, <-fmap_cons. symmetry. by apply fmap_Permutation.
  - by apply NoDup_cons in Ho as [_ ?].
  - by apply Forall_cons in Hn as [_ ?].
  - lia.
Qed.

(** ** The invariant *)

Definition job_permits (l : list ObservationJob) : list nat := oj_permit <$> l.

(** The permits of the messages in flight. *)
Definition permits (q : ObservationQueue) : list nat :=
  (oc_permit <$> oq_results q) ++ job_permits (option_list (oq_active q)) ++ job_permits (oq_jobs q).

(** The outstanding requests, first the one that will be delivered first. *)
Definition outstanding (q : ObservationQueue) : list ObservationRequest :=
  (oc_request <$> oq_results q) ++ (oj_request <$> option_list (oq_active q)) ++ (oj_request <$> oq_jobs q).

(** A job whose frame is the one its request asked for. *)
Record source_ok (request : ObservationRequest) (source : FrameMetadata) (width height : N) : Prop := {
  jo_camera : fm_camera_id source = or_camera_id request;
  jo_revision : fm_scene_revision source = or_scene_revision request;
  jo_width : 0 < width;
  jo_height : 0 < height;
}.

Definition job_ok (j : ObservationJob) : Prop :=
  let p := oj_pending j in
  source_ok (oj_request j) (pf_metadata p) (rl_width (pf_layout p)) (rl_height (pf_layout p)).

Definition completion_ok (c : ObservationCompletion) : Prop :=
  match oc_frame c with
  | inl f => source_ok (oc_request c) (rf_metadata f) (rf_width f) (rf_height f)
  | inr _ => True
  end.

(** [held] are the permits of the caller. *)
Record observations_ok (held : list nat) (q : ObservationQueue) : Prop := {
  oo_slots : slots_ok (held ++ permits q) (oq_slots q);
  oo_jobs : Forall job_ok (option_list (oq_active q) ++ oq_jobs q);
  oo_results : Forall completion_ok (oq_results q);
  oo_dead : oq_worker q = false → oq_jobs q = [] ∧ oq_active q = None;
}.

Lemma outstanding_permits q : length (outstanding q) = length (permits q).
Proof. unfold outstanding, permits, job_permits. by rewrite !length_app, !length_fmap. Qed.

Lemma observations_bound held q : observations_ok held q →
  N.of_nat (length held + length (outstanding q)) = os_in_use (oq_slots q) ∧
  (length held + length (outstanding q) ≤ channel_capacity q)%nat.
Proof.
  intros Hq. pose proof (slots_count _ _ (oo_slots _ _ Hq)) as Hc. pose proof (so_bound _ _ (oo_slots _ _ Hq)) as Hb.
  rewrite length_app in Hc. rewrite outstanding_permits. unfold channel_capacity. lia.
Qed.

Lemma start_ok capacity limits : observations_ok [] (observation_queue_start capacity limits).
Proof. split; try done; try by constructor. split; cbn; try done; [apply NoDup_nil_2|lia]. Qed.

(** Releasing a held permit. *)
Lemma release_ok {A} permit held q (r : outcome ObservationError A) : observations_ok (permit :: held) q →
  ∃ s, release permit q r = (set_slots s q, r) ∧ observations_ok held (set_slots s q) ∧
    os_capacity s = os_capacity (oq_slots q).
Proof.
  intros [Hs Hj Hr Hd]. destruct (permit_drop_ok (F := ObservationError) permit _ _ Hs) as (s & Hp & Hs' & Hcap).
  exists s. unfold release. rewrite Hp. split; [done|]. split; [|done]. by split.
Qed.

Lemma outstanding_set_slots s q : outstanding (set_slots s q) = outstanding q.
Proof. done. Qed.

(** ** The operations of the owner *)

Lemma try_reserve_ok now q : observations_ok [] q →
  let '(q', r) := try_reserve now q in
  outstanding q' = outstanding q ∧ oq_limits q' = oq_limits q ∧ oq_worker q' = oq_worker q ∧
  os_capacity (oq_slots q') = os_capacity (oq_slots q) ∧
  match r with
  | Ok p => observations_ok [p] q' ∧ (length (outstanding q) < channel_capacity q)%nat
  | Err e => e = CapacityExceeded (os_capacity (oq_slots q)) ∧ q' = q ∧ length (outstanding q) = channel_capacity q
  | _ => False
  end.
Proof.
  intros [Hs Hj Hr Hd]. unfold try_reserve. pose proof (try_acquire_ok _ _ now Hs) as Ha. rewrite outstanding_permits.
  unfold channel_capacity in *. cbn [app] in Ha. destruct (try_acquire (oq_slots q) now) as [[p s]|].
  - destruct Ha as (Hs' & Hcap & Hlt). split_and!; try done; [|lia]. split; try done.
    eapply slots_ok_perm; [|exact Hs']. by rewrite Permutation_app_comm.
  - split_and!; try done. lia.
Qed.

Lemma submit_reserved_ok permit pending request now q :
  observations_ok [permit] q → job_ok (mkJob permit pending request now) →
  let '(q', r) := submit_reserved permit pending request now q in
  observations_ok [] q' ∧ oq_limits q' = oq_limits q ∧ oq_worker q' = oq_worker q ∧
  os_capacity (oq_slots q') = os_capacity (oq_slots q) ∧
  r = (if oq_worker q then Ok tt else Err WorkerUnavailable) ∧
  outstanding q' = outstanding q ++ (if oq_worker q then [request] else []).
Proof.
  intros Hq Hjob. pose proof (observations_bound _ _ Hq) as [_ Hb]. unfold submit_reserved. destruct (oq_worker q) eqn:Hw; cbn [negb].
  - rewrite (proj2 (Nat.leb_gt _ _)).
    2:{ unfold outstanding in Hb. rewrite !length_app, !length_fmap in Hb. cbn [length] in Hb. lia. }
    split_and!; try done.
    + destruct Hq as [Hs Hj Hr Hd]. split; cbn [oq_slots oq_active oq_jobs oq_results oq_worker]; try done;
        [|by rewrite app_assoc; apply Forall_app; split; [|constructor]]. unfold permits, job_permits. cbn [oq_slots oq_results oq_active oq_jobs].
      eapply slots_ok_perm; [|exact Hs]. rewrite fmap_app. cbn [app fmap list_fmap oj_permit]. unfold permits, job_permits.
      rewrite !app_assoc. apply Permutation_cons_append.
    + unfold outstanding. cbn [oq_results oq_active oq_jobs]. rewrite fmap_app. by rewrite !app_assoc.
  - destruct (release_ok permit [] q (Err WorkerUnavailable : outcome ObservationError unit) Hq) as (s & -> & Hok & Hcap).
    split_and!; try done. by rewrite app_nil_r.
Qed.

Lemma try_submit_ok pending request now q :
  observations_ok [] q → 0 < rl_width (pf_layout pending) → 0 < rl_height (pf_layout pending) →
  let '(q', r) := try_submit pending request now q in
  observations_ok [] q' ∧ os_capacity (oq_slots q') = os_capacity (oq_slots q) ∧
  match r with
  | Ok _ => outstanding q' = outstanding q ++ [request] ∧ (length (outstanding q) < channel_capacity q)%nat ∧ oq_worker q = true
  | Err e => outstanding q' = outstanding q ∧
      (e = CapacityExceeded (os_capacity (oq_slots q)) → length (outstanding q) = channel_capacity q)
  | _ => False
  end.
Proof.
  intros Hq Hw Hh. unfold try_submit.
  match goal with |- context [match ?m with Ok _ => _ | _ => _ end] => set (checks := m) end.
  assert (normal checks) as Hn.
  { subst checks. apply out_bind_normal; [apply map_err_normal; unfold observation_request_validate, validate_schema; solve_normal|].
    intros _ _. apply out_bind_normal; [apply guard_err_normal|intros _ _; apply guard_err_normal]. }
  destruct checks as [[]|e| |] eqn:Hc; try done; subst checks.
  2:{ split_and!; try done. intros ->. exfalso. apply out_bind_err in Hc as [Hc|(? & _ & Hc)]; [by apply map_err_err in Hc as (? & _ & ?)|].
      apply out_bind_err in Hc as [Hc|(? & _ & Hc)]; by apply guard_err_err in Hc as [_ ?]. }
  apply out_bind_ok in Hc as ([] & _ & Hc). apply out_bind_ok in Hc as ([] & Hcam%guard_err_ok%negb_false_iff%N.eqb_eq & Hrev%guard_err_ok%negb_false_iff%N.eqb_eq).
  pose proof (try_reserve_ok now q Hq) as Hr. destruct (try_reserve now q) as [q1 r1]. destruct Hr as (Ho & Hl & Hwk & Hcap & Hr).
  destruct r1 as [p|e| |]; try done.
  - destruct Hr as [Hq1 Hlt]. pose proof (submit_reserved_ok p pending request now q1 Hq1) as Hs.
    destruct (submit_reserved p pending request now q1) as [q2 r2].
    destruct Hs as (Hq2 & _ & Hwk2 & Hcap2 & -> & Ho2); [by split; cbn|]. rewrite Hwk in *. split; [done|]. split; [congruence|].
    destruct (oq_worker q); [by rewrite Ho2, Ho|]. rewrite Ho2, Ho, app_nil_r. done.
  - destruct Hr as (-> & -> & Hlen). done.
Qed.

(** ** Deliveries *)

(** The envelope of an observation of a frame. *)
Definition observed_metadata (c : ObservationCompletion) (f : RenderedFrame) (latest : SceneRevision) : ObservationMetadata :=
  let r := oc_request c in
  mkMetadata schema_v1 (or_observation_id r) (or_scene_revision r) (fm_frame_id (rf_metadata f)) (or_camera_id r) (or_kind r)
    (if bool_decide (or_kind r = Visibility) then None else Some (mkDimensions (rf_width f) (rf_height f))) (or_quality r)
    (oc_observed_at_unix_micros c) (oc_production_latency_micros c) (mkStaleness latest (latest - or_scene_revision r)).

(** What the delivery of a completion is. *)
Definition delivered (latest : SceneRevision) (limits : RuntimeLimits) (c : ObservationCompletion) (d : ObservationDelivery) : Prop :=
  let id := or_observation_id (oc_request c) in
  match oc_frame c with
  | inr e => d = OdFailed id (ObsRenderer e)
  | inl f =>
      if latest <? or_scene_revision (oc_request c)
      then d = OdFailed id (SourceRevisionAhead (or_scene_revision (oc_request c)) latest)
      else match metadata_validate (observed_metadata c f latest) limits with
           | Ok _ => d = OdCompleted (mkObserved (observed_metadata c f latest) (payload_for (or_kind (oc_request c)) f))
           | Err e => d = OdFailed id (Engine.InvalidMetadata e)
           | _ => False
           end
  end.

Lemma delivered_id latest limits c d : delivered latest limits c d → delivery_id d = or_observation_id (oc_request c).
Proof.
  unfold delivered. destruct (oc_frame c); [|by intros ->]. destruct (_ <? _); [by intros ->|].
  destruct (metadata_validate _ _); try done; by intros ->.
Qed.

Lemma complete_delivered c latest limits : completion_ok c →
  match complete_observation c latest limits with
  | Ok o => delivered latest limits c (OdCompleted o)
  | Err e => delivered latest limits c (OdFailed (or_observation_id (oc_request c)) e)
  | _ => False
  end.
Proof.
  unfold completion_ok, complete_observation, delivered. destruct (oc_frame c) as [f|e]; [|done]. intros [Hcam Hrev Hw Hh].
  cbn [out_bind]. rewrite Hcam, Hrev, !N.eqb_refl. cbn [negb guard_err out_bind].
  destruct (latest <? or_scene_revision (oc_request c)); [done|]. cbn [guard_err out_bind].
  assert ((if bool_decide (or_kind (oc_request c) = Visibility) then Ok None
           else let! width := expect (non_zero (rf_width f)) in let! height := expect (non_zero (rf_height f)) in
                Ok (Some (mkDimensions width height)))
    = (Ok (if bool_decide (or_kind (oc_request c) = Visibility) then None else Some (mkDimensions (rf_width f) (rf_height f)))
       : outcome ObservationError (option ImageDimensions))) as ->.
  { case_bool_decide; [done|]. unfold non_zero. rewrite !(proj2 (N.eqb_neq _ _)) by lia. done. }
  cbn [out_bind]. fold (observed_metadata c f latest).
  pose proof (metadata_validate_normal (observed_metadata c f latest) limits) as Hn.
  destruct (metadata_validate (observed_metadata c f latest) limits); done.
Qed.

Lemma try_receive_ok latest q : observations_ok [] q →
  let '(q', r) := try_receive_delivery latest q in
  observations_ok [] q' ∧ os_capacity (oq_slots q') = os_capacity (oq_slots q) ∧ oq_worker q' = oq_worker q ∧
  oq_limits q' = oq_limits q ∧ oq_jobs q' = oq_jobs q ∧ oq_active q' = oq_active q ∧
  match oq_results q with
  | [] => q' = q ∧ r = (if oq_worker q then Ok None else Err WorkerUnavailable)
  | c :: results => oq_results q' = results ∧ ∃ d, r = Ok (Some d) ∧ delivered latest (oq_limits q) c d
  end.
Proof.
  intros [Hs Hj Hr Hd]. unfold try_receive_delivery. destruct (oq_results q) as [|c results] eqn:Hres.
  { split; [by split; rewrite ?Hres|]. done. }
  set (q1 := mkObservationQueue _ _ _ _ results _). cbn zeta. apply Forall_cons in Hr as [Hc Hr].
  assert (observations_ok [oc_permit c] q1) as Hq1.
  { split; try done. subst q1. eapply slots_ok_perm; [|exact Hs]. unfold permits. cbn [oq_results oq_active oq_jobs]. by rewrite Hres. }
  match goal with |- context [release _ _ ?r] => destruct (release_ok (oc_permit c) [] q1 r Hq1) as (s & -> & Hok & Hcap) end.
  split_and!; try done. pose proof (complete_delivered c latest (oq_limits q) Hc) as Hdel. subst q1. cbn [oq_limits].
  destruct (complete_observation c latest (oq_limits q)); try done; eauto.
Qed.

(** ** The worker *)

Lemma frame_read_fields p f : frame_read p = Ok f →
  rf_metadata f = pf_metadata p ∧ rf_width f = rl_width (pf_layout p) ∧ rf_height f = rl_height (pf_layout p).
Proof.
  unfold frame_read. intros Hf. do 9 (let x := fresh in apply out_bind_ok in Hf as (x & _ & Hf)). by apply Ok_inj in Hf as <-.
Qed.

Lemma drop_jobs_ok jobs ids s : slots_ok (job_permits jobs ++ ids) s →
  ∃ s', drop_jobs jobs s = Ok s' ∧ slots_ok ids s' ∧ os_capacity s' = os_capacity s.
Proof.
  unfold drop_jobs. revert s. induction jobs as [|j jobs IH]; intros s Hs; [by exists s|]. cbn [out_fold].
  destruct (permit_drop_ok (F := ObservationError) (oj_permit j) _ _ Hs) as (s1 & -> & Hs1 & Hc). cbn [out_bind].
  destruct (IH s1 Hs1) as (s' & Hd & Hs' & Hc'). exists s'. split_and!; [done..|congruence].
Qed.

(** The effect of a worker step: nothing is lost unless the worker dies. *)
Definition worker_effect (q q' : ObservationQueue) : Prop :=
  oq_limits q' = oq_limits q ∧ os_capacity (oq_slots q') = os_capacity (oq_slots q) ∧
  if oq_worker q' then oq_slots q' = oq_slots q ∧ outstanding q' = outstanding q ∧ (∃ more, oq_results q' = oq_results q ++ more)
  else oq_results q' = oq_results q ∧ outstanding q' = oc_request <$> oq_results q.

Lemma worker_step_ok q q' : observations_ok [] q → worker_step q q' → observations_ok [] q' ∧ worker_effect q q'.
Proof.
  intros [Hs Hj Hr Hd] [j jobs Hw Ha Hjobs|j observed_at latency frame Hw Ha Hf Hroom|j s Hw Ha Hdrop];
    unfold worker_effect, outstanding; unfold permits in Hs; rewrite Ha in Hs, Hj |- *;
    cbn [oq_slots oq_limits oq_jobs oq_active oq_results oq_worker].
  - rewrite Hjobs in Hs, Hj |- *. split; [by split|]. split_and!; try done. exists []. by rewrite app_nil_r.
  - apply Forall_cons in Hj as [Hjob Hj]. split; [split; try done|].
    + unfold permits. cbn [oq_results oq_active oq_jobs oq_slots]. rewrite fmap_app, <-app_assoc. exact Hs.
    + apply Forall_app. split; [done|]. constructor; [|done]. unfold completion_ok. cbn [completion_of oc_frame oc_request].
      destruct frame as [f|e]; [|done]. destruct (frame_read (oj_pending j)) as [f'|e| |] eqn:Hread; try done.
      injection Hf as <-. apply frame_read_fields in Hread as (Hm & Hwd & Hh). unfold job_ok in Hjob. by rewrite Hm, Hwd, Hh.
    + split_and!; try done; [by rewrite fmap_app, <-app_assoc|by eexists].
  - assert (slots_ok (job_permits (j :: oq_jobs q) ++ (oc_permit <$> oq_results q)) (oq_slots q)) as Hs'.
    { eapply slots_ok_perm; [|exact Hs]. cbn [app]. by rewrite Permutation_app_comm. }
    destruct (drop_jobs_ok _ _ _ Hs') as (s' & Hd' & Hok & Hcap). rewrite Hdrop in Hd'. apply Ok_inj in Hd' as <-.
    split; [|by rewrite !app_nil_r]. split; try done. unfold permits, job_permits.
    cbn [oq_results oq_active oq_jobs oq_slots option_list fmap list_fmap app]. by rewrite app_nil_r.
Qed.

(** ** First in, first out *)

(** What the owner and the worker do, and the list of requests they act on. *)
Inductive queue_event : Type :=
| Submitted (request : ObservationRequest) (result : outcome ObservationError unit)
| Received (result : outcome ObservationError (option ObservationDelivery))
| Progressed
| Died.

Inductive queue_step (q : ObservationQueue) : queue_event → ObservationQueue → Prop :=
| qe_submit pending request now q' r :
    0 < rl_width (pf_layout pending) → 0 < rl_height (pf_layout pending) →
    try_submit pending request now q = (q', r) → queue_step q (Submitted request r) q'
| qe_receive latest q' r : try_receive_delivery latest q = (q', r) → queue_step q (Received r) q'
| qe_worker q' : worker_step q q' → queue_step q (if oq_worker q' then Progressed else Died) q'.

Inductive fifo_step (capacity : nat) (l : list ObservationRequest) : queue_event → list ObservationRequest → Prop :=
| fs_accept request : (length l < capacity)%nat → fifo_step capacity l (Submitted request (Ok tt)) (l ++ [request])
| fs_refuse request e : fifo_step capacity l (Submitted request (Err e)) l
| fs_deliver request l' d : l = request :: l' → delivery_id d = or_observation_id request →
    fifo_step capacity l (Received (Ok (Some d))) l'
| fs_empty : fifo_step capacity l (Received (Ok None)) l
| fs_lost : l = [] → fifo_step capacity l (Received (Err WorkerUnavailable)) l
| fs_progress : fifo_step capacity l Progressed l
| fs_die l' : l' `prefix_of` l → fifo_step capacity l Died l'.

Inductive queue_run : ObservationQueue → list queue_event → ObservationQueue → Prop :=
| qr_nil q : queue_run q [] q
| qr_cons q ev q1 evs q2 : queue_step q ev q1 → queue_run q1 evs q2 → queue_run q (ev :: evs) q2.

Inductive fifo_run (capacity : nat) : list ObservationRequest → list queue_event → list ObservationRequest → Prop :=
| fr_nil l : fifo_run capacity l [] l
| fr_cons l ev l1 evs l2 : fifo_step capacity l ev l1 → fifo_run capacity l1 evs l2 → fifo_run capacity l (ev :: evs) l2.

Lemma queue_step_sim q ev q' : observations_ok [] q → queue_step q ev q' →
  observations_ok [] q' ∧ channel_capacity q' = channel_capacity q ∧
  fifo_step (channel_capacity q) (outstanding q) ev (outstanding q').
Proof.
  intros Hq [pending request now q1 r Hw Hh Hs|latest q1 r Hr|q1 Hw]; unfold channel_capacity.
  - pose proof (try_submit_ok pending request now q Hq Hw Hh) as Ht. rewrite Hs in Ht. destruct Ht as (Hq1 & -> & Ht).
    split_and!; [done..|]. destruct r as [[]|e| |]; try done.
    + destruct Ht as (-> & Hlt & _). by constructor.
    + destruct Ht as [-> _]. constructor.
  - pose proof (try_receive_ok latest q Hq) as Ht. rewrite Hr in Ht. destruct Ht as (Hq1 & -> & Hw & _ & Hjobs & Hact & Ht).
    split_and!; [done..|]. destruct (oq_results q) as [|c results] eqn:Hres.
    + destruct Ht as [-> ->]. destruct (oq_worker q) eqn:Hwk; [constructor|]. constructor.
      destruct (oo_dead _ _ Hq Hwk) as [Hj Ha]. unfold outstanding. by rewrite Hres, Hj, Ha.
    + destruct Ht as [Hres' (d & -> & Hd%delivered_id)]. econstructor; [|exact Hd]. unfold outstanding. by rewrite Hres, Hres', Hjobs, Hact.
  - destruct (worker_step_ok q q1 Hq Hw) as [Hq1 (_ & -> & He)]. split_and!; [done..|]. destruct (oq_worker q1).
    + destruct He as (_ & -> & _). constructor.
    + destruct He as [_ ->]. constructor. unfold outstanding. by eexists.
Qed.

Lemma queue_run_sim q evs q' : observations_ok [] q → queue_run q evs q' →
  observations_ok [] q' ∧ channel_capacity q' = channel_capacity q ∧
  fifo_run (channel_capacity q) (outstanding q) evs (outstanding q').
Proof.
  intros Hq Hr. induction Hr as [q|q ev q1 evs q2 Hs _ IH]; [by split_and!; [..|constructor]|].
  destruct (queue_step_sim q ev q1 Hq Hs) as (Hq1 & Hc1 & Hf). destruct (IH Hq1) as (Hq2 & Hc2 & Hrun).
  rewrite Hc1 in Hc2, Hrun. split_and!; [done..|]. by econstructor.
Qed.

(** C8. The observation queue refines a bounded first-in first-out list of
    requests: in every interleaving of submissions, polls and worker steps, a
    submission is accepted only below the capacity and then appends its
    request, a delivery always answers the oldest outstanding request, the
    worker's own steps change nothing unless it dies, which loses a suffix, and
    a poll reports the dead worker only when nothing is outstanding.  No step
    panics, and the permits in use are exactly the outstanding requests. *)
Theorem observation_queue_refines capacity limits evs q :
  queue_run (observation_queue_start capacity limits) evs q →
  fifo_run (N.to_nat capacity) [] evs (outstanding q) ∧
  (length (outstanding q) ≤ N.to_nat capacity)%nat ∧
  ∀ now, fst <$> out_ok (observation_status_at q now) = Some (N.of_nat (length (outstanding q))).
Proof.
  intros (Hq & Hc & Hf)%queue_run_sim; [|apply start_ok]. split; [done|].
  destruct (observations_bound _ _ Hq) as [Hu Hb]. rewrite Hc in Hb. split; [done|]. intros now.
  unfold observation_status_at, slots_status_at, debug_assert. rewrite (so_count _ _ (oo_slots _ _ Hq)), N.eqb_refl.
  cbn. f_equal. rewrite <-(so_count _ _ (oo_slots _ _ Hq)). by rewrite <-Hu.
Qed.

(** ** Progress *)

(** Once the device answers, the worker finishes every job. *)
Lemma worker_drains_active q : observations_ok [] q → oq_worker q = true →
  Forall (λ j, normal (frame_read (oj_pending j))) (option_list (oq_active q) ++ oq_jobs q) →
  ∃ q', rtc worker_step q q' ∧ observations_ok [] q' ∧ oq_worker q' = true ∧ oq_active q' = None ∧ oq_jobs q' = [] ∧
    outstanding q' = outstanding q ∧ ∃ more, oq_results q' = oq_results q ++ more.
Proof.
  intros Hq Hw Hn. remember (length (oq_jobs q) * 2 + length (option_list (oq_active q)))%nat as k eqn:Hk.
  revert q Hq Hw Hn Hk. induction (lt_wf k) as [k _ IH]. intros q Hq Hw Hn Hk.
  destruct (oq_active q) as [j|] eqn:Ha; [|destruct (oq_jobs q) as [|j jobs] eqn:Hj].
  - assert (∃ frame, match frame_read (oj_pending j) with Ok f => frame = inl f | Err e => frame = inr e | _ => False end) as [frame Hf].
    { cbn [option_list app] in Hn. apply Forall_cons in Hn as [Hn _]. destruct (frame_read (oj_pending j)); try done; by eexists. }
    pose proof (observations_bound _ _ Hq) as [_ Hb]. cbn [length] in Hb.
    assert (worker_step q (mkObservationQueue (oq_slots q) (oq_limits q) (oq_jobs q) None
      (oq_results q ++ [completion_of j 0 0 frame]) true)) as Hstep.
    { apply (ws_finish q j 0 0 frame Hw Ha Hf). unfold outstanding in Hb. rewrite Ha, !length_app, !length_fmap in Hb.
      change (option_list (Some j)) with [j] in Hb. cbn [length] in Hb. lia. }
    destruct (worker_step_ok _ _ Hq Hstep) as [Hq1 (_ & _ & _ & Ho1 & _)].
    destruct (IH (length (oq_jobs q) * 2)%nat ltac:(cbn in Hk; lia) _ Hq1) as (q' & Hrtc & Hq' & Hw' & Ha' & Hj' & Ho' & more & Hres); [done| |cbn; lia|].
    { cbn [oq_active oq_jobs option_list app] in *. by apply Forall_cons in Hn as [_ ?]. }
    exists q'. split_and!; try done; [by econstructor|by rewrite Ho', Ho1|]. cbn [oq_results] in Hres. rewrite <-app_assoc in Hres. by eexists.
  - exists q. split_and!; try done. exists []. by rewrite app_nil_r.
  - pose proof (ws_take q j jobs Hw Ha Hj) as Hstep. destruct (worker_step_ok _ _ Hq Hstep) as [Hq1 (_ & _ & _ & Ho1 & _)].
    destruct (IH (length jobs * 2 + 1)%nat ltac:(cbn in Hk; lia) _ Hq1) as (q' & Hrtc & Hq' & Hw' & Ha' & Hj' & Ho' & more & Hres); [done|done|by cbn; lia|].
    exists q'. split_and!; try done; [by econstructor|by rewrite Ho', Ho1|by eexists].
Qed.

(** Polls, one after the other. *)
Fixpoint receive_times (n : nat) (latest : SceneRevision) (q : ObservationQueue)
    : ObservationQueue * list (outcome ObservationError (option ObservationDelivery)) :=
  match n with
  | O => (q, [])
  | S n => let '(q, r) := try_receive_delivery latest q in let '(q, rs) := receive_times n latest q in (q, r :: rs)
  end.

Definition answers (r : ObservationRequest) (result : outcome ObservationError (option ObservationDelivery)) : Prop :=
  ∃ d, result = Ok (Some d) ∧ delivery_id d = or_observation_id r.

Lemma receive_all latest q : observations_ok [] q → oq_active q = None → oq_jobs q = [] →
  let '(q', rs) := receive_times (length (outstanding q)) latest q in
  observations_ok [] q' ∧ outstanding q' = [] ∧ Forall2 answers (outstanding q) rs.
Proof.
  intros Hq Ha Hj. assert (outstanding q = oc_request <$> oq_results q) as Ho by (unfold outstanding; rewrite Ha, Hj; apply app_nil_r).
  remember (oq_results q) as results eqn:Hres. rewrite Ho. clear Ho. revert q Hq Ha Hj Hres.
  induction results as [|c results IH]; intros q Hq Ha Hj Hres; cbn [fmap list_fmap length receive_times].
  { split_and!; try done. unfold outstanding. by rewrite Ha, Hj, <-Hres. }
  pose proof (try_receive_ok latest q Hq) as Ht. destruct (try_receive_delivery latest q) as [q1 r].
  destruct Ht as (Hq1 & _ & _ & _ & Hj1 & Ha1 & Ht). rewrite <-Hres in Ht. destruct Ht as (Hres1 & d & -> & Hd%delivered_id).
  specialize (IH q1 Hq1 ltac:(congruence) ltac:(congruence) (eq_sym Hres1)). cbn [fmap list_fmap] in IH.
  destruct (receive_times _ latest q1) as [q2 rs]. destruct IH as (Hq2 & Ho2 & Hrs). split_and!; try done.
  constructor; [by exists d|done].
Qed.

(** C18. Every accepted observation is answered: while the worker lives and the
    device answers each readback, the worker can finish all jobs without ever
    blocking on the results channel, and then one poll per outstanding request
    delivers them all, in the order of their submission, and leaves the queue
    empty. *)
Theorem observations_answered latest q :
  observations_ok [] q → oq_worker q = true →
  Forall (λ j, normal (frame_read (oj_pending j))) (option_list (oq_active q) ++ oq_jobs q) →
  ∃ q', rtc worker_step q q' ∧
    let '(q'', rs) := receive_times (length (outstanding q)) latest q' in
    outstanding q'' = [] ∧ Forall2 answers (outstanding q) rs.
Proof.
  intros Hq Hw Hn. destruct (worker_drains_active q Hq Hw Hn) as (q' & Hr & Hq' & _ & Ha & Hj & Ho & _). exists q'. split; [done|].
  pose proof (receive_all latest q' Hq' Ha Hj) as Hall. rewrite Ho in Hall. destruct (receive_times _ latest q') as [q'' rs].
  by destruct Hall as (_ & ? & ?).
Qed.

(** ** Payloads *)

(** What a decoded frame guarantees of its planes. *)
Record frame_sound (f : RenderedFrame) : Prop := {
  fs_color : length (rf_color f) = (N.to_nat (rf_width f) * N.to_nat (rf_height f))%nat;
  fs_depth : length (rf_depth f) = (N.to_nat (rf_width f) * N.to_nat (rf_height f))%nat;
  fs_normals : length (rf_normals f) = (N.to_nat (rf_width f) * N.to_nat (rf_height f))%nat;
  fs_ids : length (rf_stable_entity_ids f) = (N.to_nat (rf_width f) * N.to_nat (rf_height f))%nat;
  fs_depths : Forall (λ v, f32_is_finite v = true ∧ f32_leb f32_zero v && f32_leb v f32_one = true) (rf_depth f);
}.

Lemma plane_decodes_all {B} l mapped (decode : nat → bytes → outcome RendererError B) plane (P : B → Prop) :
  plane_decodes l mapped decode plane → (∀ i c b, decode i c = Ok b → P b) → Forall P plane.
Proof.
  intros [Hlen Hd] HP. apply Forall_lookup. intros i b Hb. pose proof (lookup_lt_Some _ _ _ Hb) as Hlt. rewrite Hlen in Hlt.
  apply plane_index in Hlt as (x & y & Hx & Hy & ->). destruct (Hd (N.of_nat x) (N.of_nat y) ltac:(lia) ltac:(lia)) as (b' & Hb' & Hdec).
  rewrite !Nat2N.id in Hb'. rewrite Hb in Hb'. injection Hb' as <-. by eapply HP.
Qed.

Lemma readback_frame_sound p f : readback_outcome p (Ok f) → frame_sound f.
Proof.
  intros (Hw & Hh & _ & _ & c & d & n & e & _ & _ & _ & _ & Hc & Hd & Hn & _ & He). split; rewrite ?Hw, ?Hh.
  - apply Hc.
  - apply Hd.
  - apply Hn.
  - apply He.
  - eapply plane_decodes_all; [exact Hd|]. intros i b v Hv. unfold read_depth in Hv.
    apply out_bind_ok in Hv as ([] & Hg%guard_err_ok & <-%Ok_inj). apply orb_false_iff in Hg as [H1%negb_false_iff H2%negb_false_iff]. done.
Qed.

Definition total (l : list N) : N := foldr N.add 0 l.

Lemma total_perm l l' : l ≡ₚ l' → total l = total l'.
Proof. unfold total. induction 1; cbn [foldr]; [done|congruence|lia|congruence]. Qed.

Lemma total_insert (m : gmap N N) k v : total (map_to_list (<[k := v]> m)).*2 = v + total (map_to_list (delete k m)).*2.
Proof.
  rewrite <-insert_delete_eq. rewrite (total_perm _ (v :: (map_to_list (delete k m)).*2)); [done|].
  change (v :: (map_to_list (delete k m)).*2) with ((k, v) :: map_to_list (delete k m)).*2. apply fmap_Permutation.
  apply map_to_list_insert, lookup_delete_eq.
Qed.

(** The visible pixels of all entities are the pixels that show an entity. *)
Lemma visibility_total ids (m : gmap N N) :
  map_Forall (λ _ n, 0 < n) m →
  let m' := foldl (λ counts id, match id with Some id => <[id := default 0 (counts !! id) + 1]> counts | None => counts end) m ids in
  map_Forall (λ _ n, 0 < n) m' ∧
  total (map_to_list m').*2 = total (map_to_list m).*2 + N.of_nat (length (omap id ids)).
Proof.
  revert m. induction ids as [|[i|] ids IH]; intros m Hm; cbn [foldl omap list_omap id length].
  - split; [done|lia].
  - destruct (IH (<[i := default 0 (m !! i) + 1]> m)) as [Hp ->]; [apply map_Forall_insert_2; [lia|done]|]. split; [done|].
    rewrite total_insert. destruct (m !! i) as [n|] eqn:Hi; cbn [default].
    + rewrite <-(insert_delete_id m i n Hi) at 2. rewrite total_insert, delete_delete_eq. cbn. lia.
    + rewrite fin_maps.delete_id by done. cbn. lia.
  - by apply IH.
Qed.

Lemma visibility_accepted (l : list (N * N)) previous sum i :
  StronglySorted N.lt l.*1 → (∀ p k, previous = Some p → k ∈ l.*1 → p < k) → Forall (λ kv, 0 < kv.2) l →
  sum + total l.*2 ≤ u64_max →
  ∃ last, out_enumerate visibility_step (previous, sum) i ((λ p, mkVisibility p.1 p.2) <$> l) = Ok (last, sum + total l.*2).
Proof.
  revert previous sum i. induction l as [|[k n] l IH]; intros previous sum i Hs Hp Hn Hb; cbn [fmap list_fmap out_enumerate total foldr fst snd] in *.
  { exists previous. by rewrite N.add_0_r. }
  apply StronglySorted_inv in Hs as [Hs Hk]. apply Forall_cons in Hn as [Hn0 Hn]. cbn [snd] in Hn0.
  change (foldr N.add 0 l.*2) with (total l.*2) in *.
  unfold visibility_step at 1. cbn [ev_visible_pixels ev_entity_id fst snd].
  rewrite (proj2 (N.eqb_neq n 0)) by lia. cbn [orb].
  assert (match previous with Some p => k <=? p | None => false end = false) as ->.
  { destruct previous as [p|]; [|done]. apply N.leb_gt, Hp; [done|by left]. }
  cbn [guard_err out_bind]. unfold checked_add. rewrite (proj2 (N.leb_le _ _)) by lia. cbn [ok_or out_bind].
  rewrite N.add_assoc. apply IH; [done| |done|lia]. intros p k' [= <-] Hin. rewrite Forall_forall in Hk. by apply Hk.
Qed.

Lemma visibility_values_ok f limits :
  frame_sound f → rf_width f * rf_height f ≤ max_observation_pixels limits ≤ u64_max →
  validate_values (payload_for Visibility f) limits = Ok tt.
Proof.
  intros Hf Hp. cbn [payload_for validate_values]. unfold visibility_counts.
  destruct (visibility_total (rf_stable_entity_ids f) ∅ (map_Forall_empty _)) as [Hpos Htot]. cbn zeta in Htot, Hpos.
  set (m := foldl _ ∅ _) in *. rewrite map_to_list_empty in Htot. cbn [fmap list_fmap total foldr] in Htot. rewrite N.add_0_l in Htot.
  assert (total (btree_iter m).*2 ≤ rf_width f * rf_height f) as Hle.
  { rewrite (total_perm _ (map_to_list m).*2) by (apply fmap_Permutation, btree_iter_perm). rewrite Htot.
    pose proof (fs_ids _ Hf) as Hlen. assert (length (omap id (rf_stable_entity_ids f)) ≤ length (rf_stable_entity_ids f))%nat as Ho.
    { clear. induction (rf_stable_entity_ids f) as [|[x|] l IH]; cbn in *; lia. }
    lia. }
  destruct (visibility_accepted (btree_iter m) None 0 0) as [last ->]; [..|cbn [out_bind]].
  - rewrite btree_iter_keys. apply btree_keys_sorted.
  - done.
  - apply Forall_forall. intros [k n] Hin%elem_of_btree_iter. by apply (Hpos k n).
  - lia.
  - rewrite N.add_0_l. by rewrite (proj2 (N.ltb_ge _ _)) by lia.
Qed.

(** What the envelope codec checks of a payload before it writes it, except the
    length of normals, which is not decided here.  A depth of negative zero is
    accepted by the readback and refused by the codec. *)
Definition payload_accepted (o : Observed) (limits : RuntimeLimits) (payload_limits : ObservationPayloadLimits) : Prop :=
  let kind := payload_kind (ob_payload o) in
  om_kind (ob_metadata o) = kind ∧
  ((kind = Visibility → item_count (ob_payload o) ≤ max_visibility_entries payload_limits) →
   validate_count (ob_metadata o) kind (item_count (ob_payload o)) limits payload_limits = Ok tt) ∧
  match ob_payload o with
  | PNormal _ => True
  | PDepth values => validate_values (ob_payload o) limits = Ok tt ↔ Forall (λ v, v ≠ f32_neg_zero) values
  | payload => validate_values payload limits = Ok tt
  end.

Lemma depth_values_ok f limits : frame_sound f →
  validate_values (PDepth (rf_depth f)) limits = Ok tt ↔ Forall (λ v, v ≠ f32_neg_zero) (rf_depth f).
Proof.
  intros Hf. cbn [validate_values]. rewrite out_enumerate_pure. pose proof (fs_depths _ Hf) as Hd. rewrite !Forall_forall in *.
  split; intros Ha v Hv; specialize (Ha v Hv); destruct (Hd v Hv) as [Hfin Hr]; unfold depth_rejected, canonical_f32 in *;
    rewrite Hfin, Hr in *; cbn [andb negb orb] in *.
  - intros ->. by rewrite N.eqb_refl in Ha.
  - by rewrite (proj2 (N.eqb_neq _ _)).
Qed.

Lemma payload_count f kind : frame_sound f → kind ≠ Visibility → rf_width f * rf_height f ≤ u64_max →
  item_count (payload_for kind f) = rf_width f * rf_height f.
Proof.
  intros [Hc Hd Hn Hi _] Hk Hu. unfold item_count. rewrite len_or_max_min.
  destruct kind; cbn [payload_for]; try done; rewrite ?Hc, ?Hd, ?Hn, ?Hi; lia.
Qed.

(** Completing an observation is exact.  The delivery of a completion whose
    frame was rendered for its request is determined: the renderer's error, a
    revision ahead of the caller's, an envelope the limits refuse, or the
    observation whose metadata repeats the request, the frame identity and the
    staleness at delivery and whose payload is the requested plane of the frame.
    Such an observation passes the checks of the payload codec (for a depth
    plane, exactly when no depth is negative zero), so local delivery and the
    wire agree on what a valid observation is. *)
Theorem observation_complete_exact c latest limits payload_limits :
  completion_ok c →
  match complete_observation c latest limits with
  | Ok o => delivered latest limits c (OdCompleted o) ∧
      ∀ f, oc_frame c = inl f → frame_sound f → rf_width f * rf_height f ≤ max_observation_pixels limits ≤ u64_max →
        payload_accepted o limits payload_limits
  | Err e => delivered latest limits c (OdFailed (or_observation_id (oc_request c)) e)
  | _ => False
  end.
Proof.
  intros Hc. pose proof (complete_delivered c latest limits Hc) as Hd.
  destruct (complete_observation c latest limits) as [o|e| |]; try done. split; [done|]. intros f Hf Hs Hp.
  unfold delivered in Hd. rewrite Hf in Hd. destruct (_ <? _); [done|].
  destruct (metadata_validate _ _); try done. injection Hd as ->. unfold payload_accepted. cbn [ob_metadata ob_payload].
  set (kind := or_kind (oc_request c)).
  assert (payload_kind (payload_for kind f) = kind) as Hk by (by destruct kind). rewrite Hk in *. split; [done|]. split.
  - intros Hv. unfold validate_count. case_bool_decide as Hvis; [by rewrite (proj2 (N.ltb_ge _ _)) by (by apply Hv)|].
    rewrite (payload_count f kind Hs Hvis ltac:(lia)). unfold observed_metadata. cbn [om_dimensions]. fold kind.
    rewrite bool_decide_false by done. cbn [ok_or out_bind]. unfold pixel_count. cbn [dim_width dim_height]. rewrite N.eqb_refl.
    cbn [negb guard_err out_bind]. by rewrite (proj2 (N.ltb_ge _ _)) by lia.
  - destruct kind; cbn [payload_for]; try done; [by apply depth_values_ok|by apply (visibility_values_ok f limits)].
Qed.

(** ** Witnesses *)

Definition sample_observation_request : ObservationRequest := mkObservationRequest schema_v1 11 3 7 Visibility Low.

(** One request on a queue of one slot, with its frame read back. *)
Definition sample_queue : ObservationQueue := (try_submit sample_pending sample_observation_request 5
  (observation_queue_start 1 runtime_limits_default)).1.

Definition sample_frame : RenderedFrame + RendererError :=
  match frame_read sample_pending with Ok f => inl f | Err e => inr e | _ => inr FrameIdOverflow end.

Definition sample_job : ObservationJob := mkJob 0%nat sample_pending sample_observation_request 5.

Definition sample_taken : ObservationQueue :=
  mkObservationQueue (oq_slots sample_queue) runtime_limits_default [] (Some sample_job) [] true.
Definition sample_finished : ObservationQueue :=
  mkObservationQueue (oq_slots sample_queue) runtime_limits_default [] None [completion_of sample_job 9 4 sample_frame] true.

Definition sample_delivery : ObservationDelivery :=
  OdCompleted (mkObserved (mkMetadata schema_v1 11 3 1 7 Visibility None Low 9 4 (mkStaleness 4 1)) (PVisibility [mkVisibility 9 1])).

Lemma sample_take_step : worker_step sample_queue sample_taken.
Proof. by apply (ws_take sample_queue sample_job []). Qed.

Lemma sample_finish_step : worker_step sample_taken sample_finished.
Proof. apply (ws_finish sample_taken sample_job 9 4 sample_frame); [done|done|vm_compute; reflexivity|vm_compute; lia]. Qed.

Lemma observation_queue_refines_witness :
  fifo_run 1 [] [Submitted sample_observation_request (Ok tt); Progressed; Progressed; Received (Ok (Some sample_delivery))] [].
Proof.
  assert (queue_run (observation_queue_start 1 runtime_limits_default)
    [Submitted sample_observation_request (Ok tt); Progressed; Progressed; Received (Ok (Some sample_delivery))]
    (try_receive_delivery 4 sample_finished).1) as Hrun.
  { eapply qr_cons; [apply (qe_submit _ sample_pending sample_observation_request 5 sample_queue (Ok tt)); [done|done|vm_compute; reflexivity]|].
    eapply qr_cons; [exact (qe_worker _ _ sample_take_step)|]. eapply qr_cons; [exact (qe_worker _ _ sample_finish_step)|].
    eapply qr_cons; [|apply qr_nil]. apply (qe_receive _ 4). vm_compute. reflexivity. }
  destruct (observation_queue_refines 1 runtime_limits_default _ _ Hrun) as [Hf _].
  assert (outstanding (try_receive_delivery 4 sample_finished).1 = []) as Ho by (vm_compute; reflexivity).
  rewrite Ho in Hf. exact Hf.
Defined.

Lemma observations_answered_witness :
  ∃ q', rtc worker_step sample_queue q' ∧
    let '(q'', rs) := receive_times 1 4 q' in outstanding q'' = [] ∧ Forall2 answers [sample_observation_request] rs.
Proof.
  apply (observations_answered 4 sample_queue).
  - pose proof (try_submit_ok sample_pending sample_observation_request 5 _ (start_ok 1 runtime_limits_default)) as Hs.
    unfold sample_queue. destruct (try_submit _ _ _ _) as [q' r]. apply Hs; done.
  - vm_compute. reflexivity.
  - change (option_list (oq_active sample_queue) ++ oq_jobs sample_queue) with [sample_job]. constructor; [|constructor].
    vm_compute. exact I.
Defined.

Lemma observation_complete_exact_witness :
  delivered 4 runtime_limits_default (completion_of sample_job 9 4 sample_frame) sample_delivery ∧
  ∃ o, sample_delivery = OdCompleted o ∧ payload_accepted o runtime_limits_default payload_limits_default.
Proof.
  assert (completion_ok (completion_of sample_job 9 4 sample_frame)) as Hok by (vm_compute; by split).
  pose proof (observation_complete_exact _ 4 runtime_limits_default payload_limits_default Hok) as Hc.
  destruct (complete_observation (completion_of sample_job 9 4 sample_frame) 4 runtime_limits_default) as [o|e| |] eqn:Ho;
    [|vm_compute in Ho; discriminate Ho..].
  assert (sample_delivery = OdCompleted o) as -> by (vm_compute in Ho; apply Ok_inj in Ho as <-; reflexivity).
  destruct Hc as [Hd Hp]. split; [exact Hd|]. exists o. split; [done|].
  destruct (frame_read sample_pending) as [f|e| |] eqn:Hf; [|vm_compute in Hf; discriminate Hf..].
  apply (Hp f).
  - cbn [completion_of oc_frame]. unfold sample_frame. by rewrite Hf.
  - apply (readback_frame_sound sample_pending). rewrite <-Hf.
    apply (readback_sound sample_pending 256 2 2); [done|done|vm_compute; reflexivity|by split|].
    split; cbn; intros b [= <-]; vm_compute; reflexivity.
  - apply frame_read_fields in Hf as (_ & -> & ->). vm_compute. split; discriminate.
Defined.
