(* ===== verification/Transport.v ===== *)
(** * Local stream frames

    [cogniform-local-transport] (lib.rs, codec.rs): bounded frames over a byte
    stream, each a fixed header with a digest, a control section and a bulk
    section.  Decoding a frame accepts exactly the bytes encoding writes, and
    reading from a stream agrees with decoding however the bytes arrive.

    A reader is the sequence of results its [read] calls give: bytes, an
    interruption, or a failure; its end is end-of-stream.  A writer is the
    sequence of results of its [write] calls. *)

From S2P Require Import Prelude Machine Floats Values Components Messages MessageSpec Codec Hash Sha256 Observation.

Open Scope N_scope.

Definition FRAME_MAGIC : bytes := bytes_of_string "COGLOC01".
Definition FRAME_VERSION_OFFSET : nat := length FRAME_MAGIC.
Definition FRAME_KIND_OFFSET : nat := FRAME_VERSION_OFFSET + 2.
Definition FRAME_RESERVED_OFFSET : nat := FRAME_KIND_OFFSET + 1.
Definition FRAME_CORRELATION_OFFSET : nat := FRAME_RESERVED_OFFSET + 1.
Definition FRAME_CONTROL_LENGTH_OFFSET : nat := FRAME_CORRELATION_OFFSET + 8.
Definition FRAME_BULK_LENGTH_OFFSET : nat := FRAME_CONTROL_LENGTH_OFFSET + 8.
Definition FRAME_DIGEST_OFFSET : nat := FRAME_BULK_LENGTH_OFFSET + 8.
Definition LOCAL_FRAME_VERSION : N := 1.
Definition LOCAL_FRAME_HEADER_BYTES : nat := FRAME_DIGEST_OFFSET + 32.

Inductive LocalFrameKind : Type := KControl | KObservation.

Inductive LocalFrame : Type :=
| FControl (correlation_id : N) (control : bytes)
| FObservation (correlation_id : N) (metadata : ObservationMetadata) (payload : ObservationPayload).

(** [LocalFrame::kind] and [LocalFrame::correlation_id]. *)
Definition frame_kind (f : LocalFrame) : LocalFrameKind :=
  match f with FControl _ _ => KControl | FObservation _ _ _ => KObservation end.
Definition correlation_id (f : LocalFrame) : N :=
  match f with FControl id _ | FObservation id _ _ => id end.

Record LocalFrameLimits := mkFrameLimits {
  max_frame_bytes : N;
  max_control_bytes : N;
  max_bulk_bytes : N;
}.
Definition frame_limits_default : LocalFrameLimits := mkFrameLimits 5242948 1048576 4194304.

Record LocalFrameConfig := mkFrameConfig {
  frame_limits : LocalFrameLimits;
  frame_runtime_limits : RuntimeLimits;
  frame_payload_limits : ObservationPayloadLimits;
}.
Definition frame_config_default : LocalFrameConfig :=
  mkFrameConfig frame_limits_default runtime_limits_default payload_limits_default.

Inductive LocalFrameSection : Type := SectionHeader | SectionControl | SectionBulk.
Inductive LocalFrameIoOperation : Type := ReadHeader | ReadControl | ReadBulk | WriteFrame.

(** [io::ErrorKind]: [WriteZero] is the one the source names. *)
Inductive ErrorKind : Type := WriteZero | OtherError (code : N).

Inductive LocalFrameError : Type :=
| EmptyControl
| FrameLimitExceeded (actual limit : N)
| ControlLimitExceeded (actual limit : N)
| BulkLimitExceeded (actual limit : N)
| LfSizeOverflow
| LfAllocationFailed
| LfTruncated (section : LocalFrameSection) (expected actual : N)
| LfTrailingBytes (expected actual : N)
| LfInvalidMagic
| LfUnsupportedVersion (found : N)
| LfUnsupportedKind (found : N)
| NonCanonicalHeader
| InvalidCorrelationId
| InvalidSectionLayout
| LfIntegrityMismatch
| InvalidObservationMetadata
| LfObservationEnvelope (error : ObservationEnvelopeError)
| LfIo (operation : LocalFrameIoOperation) (kind : ErrorKind).

Definition encode_frame_kind (kind : LocalFrameKind) : byte :=
  match kind with KControl => x01 | KObservation => x02 end.

Definition decode_frame_kind (encoded : byte) : outcome LocalFrameError LocalFrameKind :=
  match encoded with
  | x01 => Ok KControl
  | x02 => Ok KObservation
  | found => Err (LfUnsupportedKind (Byte.to_N found))
  end.

Record Header := mkHeader {
  hd_kind : LocalFrameKind;
  hd_correlation_id : N;
  hd_control_bytes : N;
  hd_bulk_bytes : N;
  hd_frame_bytes : N;
}.

Definition header_bytes_u64 : N := N.of_nat LOCAL_FRAME_HEADER_BYTES.

(** [validate_layout]. *)
Definition validate_layout (kind : LocalFrameKind) (control_bytes bulk_bytes : N) : outcome LocalFrameError unit :=
  match kind with
  | KControl =>
      if control_bytes =? 0 then Err EmptyControl
      else if negb (bulk_bytes =? 0) then Err InvalidSectionLayout else Ok tt
  | KObservation =>
      if (control_bytes =? 0) || (bulk_bytes =? 0) then Err InvalidSectionLayout else Ok tt
  end.

(** [validate_lengths]. *)
Definition validate_lengths (control_bytes bulk_bytes : N) (config : LocalFrameConfig) : outcome LocalFrameError N :=
  let control_limit := max_control_bytes (frame_limits config) in
  do! guard_err (control_limit <? control_bytes) (ControlLimitExceeded control_bytes control_limit) then
  let bulk_limit := max_bulk_bytes (frame_limits config) in
  do! guard_err (bulk_limit <? bulk_bytes) (BulkLimitExceeded bulk_bytes bulk_limit) then
  let! frame_bytes :=
    ok_or (size ← checked_add u64_max header_bytes_u64 control_bytes; checked_add u64_max size bulk_bytes)
      LfSizeOverflow in
  let frame_limit := max_frame_bytes (frame_limits config) in
  do! guard_err (frame_limit <? frame_bytes) (FrameLimitExceeded frame_bytes frame_limit) then
  Ok frame_bytes.

(** [append_header_prefix]. *)
Definition frame_prefix (kind : LocalFrameKind) (correlation control_bytes bulk_bytes : N) : bytes :=
  FRAME_MAGIC ++ to_be_bytes 2 LOCAL_FRAME_VERSION ++ [encode_frame_kind kind] ++ [x00]
  ++ to_be_bytes 8 correlation ++ to_be_bytes 8 control_bytes ++ to_be_bytes 8 bulk_bytes.

(** [parse_header] of the fixed header array. *)
Definition parse_header (encoded : bytes) (config : LocalFrameConfig) : outcome LocalFrameError Header :=
  let! magic := index_slice encoded 0 (length FRAME_MAGIC) in
  do! guard_err (negb (bool_decide (magic = FRAME_MAGIC))) LfInvalidMagic then
  let! version := be_at encoded FRAME_VERSION_OFFSET 2 in
  do! guard_err (negb (version =? LOCAL_FRAME_VERSION)) (LfUnsupportedVersion version) then
  let! kind_byte := expect (encoded !! FRAME_KIND_OFFSET) in
  let! kind := decode_frame_kind kind_byte in
  let! reserved := expect (encoded !! FRAME_RESERVED_OFFSET) in
  do! guard_err (negb (bool_decide (reserved = x00))) NonCanonicalHeader then
  let! correlation := be_at encoded FRAME_CORRELATION_OFFSET 8 in
  let! correlation := ok_or (non_zero correlation) InvalidCorrelationId in
  let! control_bytes := be_at encoded FRAME_CONTROL_LENGTH_OFFSET 8 in
  let! bulk_bytes := be_at encoded FRAME_BULK_LENGTH_OFFSET 8 in
  do! validate_layout kind control_bytes bulk_bytes then
  let! frame_bytes := validate_lengths control_bytes bulk_bytes config in
  Ok (mkHeader kind correlation control_bytes bulk_bytes frame_bytes).

Section frames.
Context `{Digest} `{JsonCodec ObservationMetadata}.

(** [integrity_digest]. *)
Definition frame_digest (prefix control bulk : bytes) : bytes := sha256 (prefix ++ control ++ bulk).

(** [encode_sections]. *)
Definition encode_sections (kind : LocalFrameKind) (correlation : N) (control bulk : bytes)
    (config : LocalFrameConfig) : outcome LocalFrameError bytes :=
  let control_bytes := len_or_max u64_max (length control) in
  let bulk_bytes := len_or_max u64_max (length bulk) in
  do! validate_layout kind control_bytes bulk_bytes then
  let! frame_bytes := validate_lengths control_bytes bulk_bytes config in
  let prefix := frame_prefix kind correlation control_bytes bulk_bytes in
  Ok (prefix ++ frame_digest prefix control bulk ++ control ++ bulk).

(** [encode_frame]. *)
Definition encode_frame (frame : LocalFrame) (config : LocalFrameConfig) : outcome LocalFrameError bytes :=
  match frame with
  | FControl correlation control => encode_sections KControl correlation control [] config
  | FObservation correlation metadata payload =>
      let! control := map_err (λ _, InvalidObservationMetadata) (encode metadata (frame_runtime_limits config)) in
      let! bulk := map_err LfObservationEnvelope
        (encode_payload metadata payload (frame_runtime_limits config) (frame_payload_limits config)) in
      encode_sections KObservation correlation control bulk config
  end.

(** [verify_digest]. *)
Definition verify_digest (header control bulk : bytes) : outcome LocalFrameError unit :=
  let! prefix := index_slice header 0 FRAME_DIGEST_OFFSET in
  guard_err (negb (bool_decide (frame_digest prefix control bulk = drop FRAME_DIGEST_OFFSET header))) LfIntegrityMismatch.

(** [decode_observation]. *)
Definition decode_observation (correlation : N) (control bulk : bytes) (config : LocalFrameConfig)
    : outcome LocalFrameError LocalFrame :=
  let! metadata := map_err (λ _, InvalidObservationMetadata) (decode control (frame_runtime_limits config)) in
  let! canonical := map_err (λ _, InvalidObservationMetadata) (encode metadata (frame_runtime_limits config)) in
  do! guard_err (negb (bool_decide (canonical = control))) InvalidObservationMetadata then
  let! payload := map_err LfObservationEnvelope
    (decode_payload metadata bulk (frame_runtime_limits config) (frame_payload_limits config)) in
  Ok (FObservation correlation metadata payload).

(** [decode_borrowed_body] and [decode_owned_body]. *)
Definition decode_body (header : Header) (control bulk : bytes) (config : LocalFrameConfig)
    : outcome LocalFrameError LocalFrame :=
  match hd_kind header with
  | KControl => Ok (FControl (hd_correlation_id header) control)
  | KObservation => decode_observation (hd_correlation_id header) control bulk config
  end.

(** The error of a frame shorter than its header declares. *)
Definition truncated_body (header : Header) (actual : N) : LocalFrameError :=
  let available_body := actual - header_bytes_u64 in
  if available_body <? hd_control_bytes header
  then LfTruncated SectionControl (hd_control_bytes header) available_body
  else LfTruncated SectionBulk (hd_bulk_bytes header) (available_body - hd_control_bytes header).

(** [decode_frame]. *)
Definition decode_frame (encoded : bytes) (config : LocalFrameConfig) : outcome LocalFrameError LocalFrame :=
  do! guard_err (length encoded <? LOCAL_FRAME_HEADER_BYTES)%nat
    (LfTruncated SectionHeader header_bytes_u64 (len_or_max u64_max (length encoded))) then
  let! header_bytes := index_slice encoded 0 LOCAL_FRAME_HEADER_BYTES in
  let! header := parse_header header_bytes config in
  let actual := len_or_max u64_max (length encoded) in
  do! guard_err (actual <? hd_frame_bytes header) (truncated_body header actual) then
  do! guard_err (hd_frame_bytes header <? actual) (LfTrailingBytes (hd_frame_bytes header) actual) then
  let! control := index_slice encoded LOCAL_FRAME_HEADER_BYTES (N.to_nat (hd_control_bytes header)) in
  let bulk := drop (LOCAL_FRAME_HEADER_BYTES + N.to_nat (hd_control_bytes header)) encoded in
  do! verify_digest header_bytes control bulk then
  decode_body header control bulk config.

(** ** Streams *)

Inductive ReadEvent : Type :=
| ReadData (data : bytes)
| ReadInterrupted
| ReadFailed (kind : ErrorKind).

Inductive fill_result : Type :=
| Filled (data : bytes)
| Ended (data : bytes)
| FillFailed (kind : ErrorKind).

(** The loop of [read_header] and [read_section]: read until [need] more bytes
    have arrived after [got].  A [read] gives at most as many bytes as it is
    asked for; the rest of an event stays in the stream. *)
Fixpoint fill (r : list ReadEvent) (need : nat) (got : bytes) : list ReadEvent * fill_result :=
  match need with
  | O => (r, Filled got)
  | _ =>
      match r with
      | [] => ([], Ended got)
      | ReadInterrupted :: r => fill r need got
      | ReadFailed kind :: r => (r, FillFailed kind)
      | ReadData data :: r =>
          if decide (data = []) then (r, Ended got)
          else if decide (need < length data)%nat
          then (ReadData (drop need data) :: r, Filled (got ++ take need data))
          else fill r (need - length data) (got ++ data)
      end
  end.

(** [read_header]. *)
Definition read_header (r : list ReadEvent) : list ReadEvent * outcome LocalFrameError (option bytes) :=
  let '(r, result) := fill r LOCAL_FRAME_HEADER_BYTES [] in
  (r, match result with
      | Filled data => Ok (Some data)
      | Ended [] => Ok None
      | Ended data => Err (LfTruncated SectionHeader header_bytes_u64 (N.of_nat (length data)))
      | FillFailed kind => Err (LfIo ReadHeader kind)
      end).

(** [read_section]. *)
Definition read_section (r : list ReadEvent) (len : nat) (section : LocalFrameSection)
    (operation : LocalFrameIoOperation) : list ReadEvent * outcome LocalFrameError bytes :=
  let '(r, result) := fill r len [] in
  (r, match result with
      | Filled data => Ok data
      | Ended data => Err (LfTruncated section (len_or_max u64_max len) (len_or_max u64_max (length data)))
      | FillFailed kind => Err (LfIo operation kind)
      end).

(** [read_frame]: the rest of the stream beside the result. *)
Definition read_frame (r : list ReadEvent) (config : LocalFrameConfig)
    : list ReadEvent * outcome LocalFrameError (option LocalFrame) :=
  let '(r, header_bytes) := read_header r in
  match header_bytes with
  | Ok None => (r, Ok None)
  | Ok (Some header_bytes) =>
      match parse_header header_bytes config with
      | Ok header =>
          let '(r, control) := read_section r (N.to_nat (hd_control_bytes header)) SectionControl ReadControl in
          match control with
          | Ok control =>
              let '(r, bulk) := read_section r (N.to_nat (hd_bulk_bytes header)) SectionBulk ReadBulk in
              (r, let! bulk := bulk in
                  do! verify_digest header_bytes control bulk then
                  let! frame := decode_body header control bulk config in
                  Ok (Some frame))
          | Err e => (r, Err e)
          | Panic => (r, Panic)
          | OutOfFuel => (r, OutOfFuel)
          end
      | Err e => (r, Err e)
      | Panic => (r, Panic)
      | OutOfFuel => (r, OutOfFuel)
      end
  | Err e => (r, Err e)
  | Panic => (r, Panic)
  | OutOfFuel => (r, OutOfFuel)
  end.

Inductive WriteEvent : Type :=
| Wrote (count : nat)
| WriteInterrupted
| WriteFailed (kind : ErrorKind).

(** [write_all] from offset [written]: what reached the stream, and the result.
    A writer that gives no further result has blocked; its run is the finite
    part seen so far, which [None] marks. *)
Fixpoint write_all (w : list WriteEvent) (encoded : bytes) (written : nat)
    : bytes * option (outcome LocalFrameError unit) :=
  if decide (written < length encoded)%nat then
    match w with
    | [] => (take written encoded, None)
    | WriteInterrupted :: w => write_all w encoded written
    | WriteFailed kind :: _ => (take written encoded, Some (Err (LfIo WriteFrame kind)))
    | Wrote O :: _ => (take written encoded, Some (Err (LfIo WriteFrame WriteZero)))
    | Wrote count :: w => write_all w encoded (written + Nat.min count (length encoded - written))
    end
  else (encoded, Some (Ok tt)).

(** [write_frame]. *)
Definition write_frame (w : list WriteEvent) (frame : LocalFrame) (config : LocalFrameConfig)
    : bytes * option (outcome LocalFrameError unit) :=
  match encode_frame frame config with
  | Ok encoded => write_all w encoded 0
  | Err e => ([], Some (Err e))
  | Panic => ([], Some Panic)
  | OutOfFuel => ([], Some OutOfFuel)
  end.

End frames.

(** ** Layout of a frame *)

Record frame_fields := mkFrameFields {
  ff_magic : bytes; ff_version : bytes; ff_kind : byte; ff_reserved : byte;
  ff_correlation : bytes; ff_control : bytes; ff_bulk : bytes; ff_digest : bytes;
}.

Definition ff_prefix (f : frame_fields) : bytes :=
  ff_magic f ++ ff_version f ++ [ff_kind f] ++ [ff_reserved f] ++ ff_correlation f ++ ff_control f ++ ff_bulk f.

Definition ff_sized (f : frame_fields) : Prop :=
  length (ff_magic f) = 8%nat ∧ length (ff_version f) = 2%nat ∧ length (ff_correlation f) = 8%nat ∧
  length (ff_control f) = 8%nat ∧ length (ff_bulk f) = 8%nat ∧ length (ff_digest f) = 32%nat.

Lemma ff_split (l : bytes) : length l = 68%nat → ∃ f, l = ff_prefix f ++ ff_digest f ∧ ff_sized f.
Proof.
  intros Hl. destruct (chunk_fields 8 60 l) as (magic & l1 & -> & ? & ?); [lia|].
  destruct (chunk_fields 2 58 l1) as (v & l2 & -> & ? & ?); [lia|].
  destruct l2 as [|k [|r l3]]; [cbn in *; lia..|]. cbn [length] in *.
  destruct (chunk_fields 8 48 l3) as (c & l4 & -> & ? & ?); [lia|].
  destruct (chunk_fields 8 40 l4) as (n & l5 & -> & ? & ?); [lia|].
  destruct (chunk_fields 8 32 l5) as (b & d & -> & ? & ?); [lia|].
  exists (mkFrameFields magic v k r c n b d). split; [|done]. unfold ff_prefix.
  cbn [ff_magic ff_version ff_kind ff_reserved ff_correlation ff_control ff_bulk ff_digest]. by rewrite <-!app_assoc.
Qed.

(** Headers as they are accepted: non-zero correlation, a layout of the kind,
    lengths within the limits. *)
Definition header_valid (config : LocalFrameConfig) (h : Header) : Prop :=
  0 < hd_correlation_id h ≤ u64_max ∧ hd_control_bytes h ≤ u64_max ∧ hd_bulk_bytes h ≤ u64_max ∧
  validate_layout (hd_kind h) (hd_control_bytes h) (hd_bulk_bytes h) = Ok tt ∧
  validate_lengths (hd_control_bytes h) (hd_bulk_bytes h) config = Ok (hd_frame_bytes h).

Definition header_prefix_of (h : Header) : bytes :=
  frame_prefix (hd_kind h) (hd_correlation_id h) (hd_control_bytes h) (hd_bulk_bytes h).

Lemma header_prefix_of_length h : length (header_prefix_of h) = 36%nat.
Proof. unfold header_prefix_of, frame_prefix. rewrite !length_app, !length_to_be_bytes. done. Qed.

Lemma decode_frame_kind_ok b kind : decode_frame_kind b = Ok kind ↔ b = encode_frame_kind kind.
Proof. split; [destruct b; try done; by intros <-%Ok_inj|]. intros ->. by destruct kind. Qed.

Lemma be_word_le l : length l = 8%nat → from_be_bytes l ≤ u64_max.
Proof.
  intros Hl. pose proof (from_be_bytes_lt l) as Hlt. rewrite Hl in Hlt. change (256 ^ N.of_nat 8) with (u64_max + 1) in Hlt. lia.
Qed.

(** The header fields as [parse_header] sees them. *)
Lemma parse_header_fields f config :
  ff_sized f →
  parse_header (ff_prefix f ++ ff_digest f) config =
  (do! guard_err (negb (bool_decide (ff_magic f = FRAME_MAGIC))) LfInvalidMagic then
   do! guard_err (negb (from_be_bytes (ff_version f) =? 1)) (LfUnsupportedVersion (from_be_bytes (ff_version f))) then
   let! kind := decode_frame_kind (ff_kind f) in
   do! guard_err (negb (bool_decide (ff_reserved f = x00))) NonCanonicalHeader then
   let! correlation := ok_or (non_zero (from_be_bytes (ff_correlation f))) InvalidCorrelationId in
   let control_bytes := from_be_bytes (ff_control f) in
   let bulk_bytes := from_be_bytes (ff_bulk f) in
   do! validate_layout kind control_bytes bulk_bytes then
   let! frame_bytes := validate_lengths control_bytes bulk_bytes config in
   Ok (mkHeader kind correlation control_bytes bulk_bytes frame_bytes)).
Proof.
  intros (Lm & Lv & Lc & Ln & Lb & Ld). unfold parse_header. change (length FRAME_MAGIC) with 8%nat.
  change FRAME_VERSION_OFFSET with 8%nat. change FRAME_KIND_OFFSET with 10%nat. change FRAME_RESERVED_OFFSET with 11%nat.
  change FRAME_CORRELATION_OFFSET with 12%nat. change FRAME_CONTROL_LENGTH_OFFSET with 20%nat.
  change FRAME_BULK_LENGTH_OFFSET with 28%nat. change LOCAL_FRAME_VERSION with 1.
  set (l := ff_prefix f ++ ff_digest f).
  assert (l = ff_magic f ++ ff_version f ++ ff_kind f :: ff_reserved f :: ff_correlation f ++ ff_control f ++ ff_bulk f ++ ff_digest f) as E.
  { unfold l, ff_prefix. by rewrite <-!app_assoc. }
  rewrite (index_slice_at l [] (ff_magic f) (ff_version f ++ ff_kind f :: ff_reserved f :: ff_correlation f ++ ff_control f ++ ff_bulk f ++ ff_digest f)) by done.
  rewrite (be_at_at l (ff_magic f) (ff_version f) (ff_kind f :: ff_reserved f :: ff_correlation f ++ ff_control f ++ ff_bulk f ++ ff_digest f)) by done.
  assert (l !! 10%nat = Some (ff_kind f) ∧ l !! 11%nat = Some (ff_reserved f)) as [E1 E2].
  { rewrite E, !app_assoc. split; rewrite lookup_app_r; rewrite length_app, Lm, Lv; done || lia. }
  rewrite E1, E2. cbn [expect out_bind].
  rewrite (be_at_at l (ff_magic f ++ ff_version f ++ [ff_kind f] ++ [ff_reserved f]) (ff_correlation f) (ff_control f ++ ff_bulk f ++ ff_digest f)) by
    (rewrite ?length_app, ?Lm, ?Lv, <-?app_assoc; done).
  rewrite (be_at_at l (ff_magic f ++ ff_version f ++ [ff_kind f] ++ [ff_reserved f] ++ ff_correlation f) (ff_control f) (ff_bulk f ++ ff_digest f)) by
    (rewrite ?length_app, ?Lm, ?Lv, ?Lc, <-?app_assoc; done).
  rewrite (be_at_at l (ff_magic f ++ ff_version f ++ [ff_kind f] ++ [ff_reserved f] ++ ff_correlation f ++ ff_control f) (ff_bulk f) (ff_digest f)) by
    (rewrite ?length_app, ?Lm, ?Lv, ?Lc, ?Ln, <-?app_assoc; done).
  reflexivity.
Qed.

Lemma parse_header_ok l config h :
  length l = 68%nat →
  parse_header l config = Ok h ↔ header_valid config h ∧ take FRAME_DIGEST_OFFSET l = header_prefix_of h.
Proof.
  intros Hl. destruct (ff_split l Hl) as (f & -> & Hf). rewrite parse_header_fields by done.
  destruct Hf as (Lm & Lv & Lc & Ln & Lb & Ld).
  rewrite take_app_length' by (unfold ff_prefix; rewrite !length_app, Lm, Lv, Lc, Ln, Lb; done).
  unfold header_valid, header_prefix_of, frame_prefix. split.
  - intros Hp. inv_ok. repeat match goal with x : () |- _ => destruct x end. subst h.
    cbn [hd_correlation_id hd_control_bytes hd_bulk_bytes hd_kind hd_frame_bytes].
    repeat match goal with
    | H : negb (bool_decide _) = false |- _ => apply negb_false_iff, bool_decide_eq_true in H
    | H : negb (_ =? _) = false |- _ => apply negb_false_iff, N.eqb_eq in H
    | H : decode_frame_kind _ = Ok _ |- _ => apply decode_frame_kind_ok in H
    end.
    rename select (non_zero _ = _) into Hnz. unfold non_zero in Hnz.
    destruct (N.eqb_spec (from_be_bytes (ff_correlation f)) 0); [done|]. injection Hnz as <-.
    pose proof (be_word_le _ Lc). pose proof (be_word_le _ Ln). pose proof (be_word_le _ Lb).
    split; [split_and!; done || lia|]. unfold ff_prefix. rewrite !be_bytes_back by done.
    rename select (from_be_bytes (ff_version f) = 1) into Hv. change LOCAL_FRAME_VERSION with 1.
    rewrite <-Hv, be_bytes_back by done. congruence.
  - intros [((Hc0 & Hc) & Hn & Hb & Hlay & Hlen) He]. unfold ff_prefix in He.
    apply app_inj_1 in He as [-> He]; [|by rewrite Lm]. apply app_inj_1 in He as [-> He]; [|by rewrite Lv].
    apply app_inj_1 in He as [Hk He]; [|done]. apply app_inj_1 in He as [Hr He]; [|done].
    injection Hk as ->. injection Hr as ->.
    apply app_inj_1 in He as [-> He]; [|by rewrite Lc, length_to_be_bytes].
    apply app_inj_1 in He as [-> He]; [|by rewrite Ln, length_to_be_bytes]. rewrite He.
    rewrite !from_to_be_bytes by (done || by apply u64_bytes). rewrite bool_decide_true by done.
    change LOCAL_FRAME_VERSION with 1. cbn [negb guard_err out_bind N.eqb Pos.eqb].
    rewrite (proj2 (decode_frame_kind_ok _ (hd_kind h)) eq_refl). cbn [out_bind].
    rewrite bool_decide_true by done. cbn [negb guard_err out_bind].
    unfold non_zero. rewrite (proj2 (N.eqb_neq _ _)) by lia. cbn [ok_or out_bind]. rewrite Hlay. cbn [out_bind].
    rewrite Hlen. by destruct h.
Qed.

Lemma validate_lengths_ok control bulk config fb :
  validate_lengths control bulk config = Ok fb ↔
  control ≤ max_control_bytes (frame_limits config) ∧ bulk ≤ max_bulk_bytes (frame_limits config) ∧
  fb = 68 + control + bulk ∧ fb ≤ u64_max ∧ fb ≤ max_frame_bytes (frame_limits config).
Proof.
  unfold validate_lengths. change header_bytes_u64 with 68. split.
  - intros Hv. inv_ok. subst. repeat match goal with H : (_ <? _) = false |- _ => apply N.ltb_ge in H end.
    rename select (_ ≫= _ = Some _) into Hs. apply bind_Some in Hs as (s & Hs & Hfb).
    apply checked_add_Some in Hs as [-> ?], Hfb as [? ?]. subst. split_and!; lia.
  - intros (Hc & Hb & -> & Hu & Hf). rewrite (proj2 (N.ltb_ge _ _) Hc), (proj2 (N.ltb_ge _ _) Hb). cbn [guard_err out_bind].
    rewrite (proj2 (checked_add_Some u64_max 68 control (68 + control))) by (split; [done|lia]). cbn [mbind option_bind].
    rewrite (proj2 (checked_add_Some u64_max (68 + control) bulk (68 + control + bulk))) by (split; [done|lia]).
    cbn [ok_or out_bind]. by rewrite (proj2 (N.ltb_ge _ _) Hf).
Qed.

Section framed.
Context `{Digest} `{JsonCodec ObservationMetadata}.

(** [e] is the frame of header [h] with these sections. *)
Definition framed (config : LocalFrameConfig) (h : Header) (control bulk e : bytes) : Prop :=
  header_valid config h ∧ hd_control_bytes h = N.of_nat (length control) ∧ hd_bulk_bytes h = N.of_nat (length bulk) ∧
  e = header_prefix_of h ++ frame_digest (header_prefix_of h) control bulk ++ control ++ bulk.

Lemma framed_length config h control bulk e :
  framed config h control bulk e → N.of_nat (length e) = hd_frame_bytes h ∧ hd_frame_bytes h ≤ u64_max ∧
  length e = (68 + length control + length bulk)%nat.
Proof.
  intros ((_ & _ & _ & _ & Hl) & Hc & Hb & ->). apply validate_lengths_ok in Hl as (_ & _ & Hfb & Hu & _).
  unfold frame_digest. rewrite !length_app, header_prefix_of_length, sha256_length. split_and!; lia.
Qed.

(** The header of a frame, and what comes after it. *)
Lemma framed_split config h control bulk e :
  framed config h control bulk e →
  ∃ hb, e = hb ++ control ++ bulk ∧ length hb = 68%nat ∧ parse_header hb config = Ok h ∧
    verify_digest hb control bulk = Ok tt.
Proof.
  intros (Hv & Hc & Hb & ->). exists (header_prefix_of h ++ frame_digest (header_prefix_of h) control bulk).
  assert (length (header_prefix_of h ++ frame_digest (header_prefix_of h) control bulk) = 68%nat) as Hlen.
  { unfold frame_digest. by rewrite length_app, header_prefix_of_length, sha256_length. }
  split; [by rewrite <-app_assoc|]. split; [done|]. split.
  - apply parse_header_ok; [done|]. split; [done|]. by rewrite take_app_length' by by rewrite header_prefix_of_length.
  - unfold verify_digest.
    rewrite (index_slice_at _ [] (header_prefix_of h) (frame_digest (header_prefix_of h) control bulk))
      by (rewrite ?header_prefix_of_length; done).
    cbn [out_bind]. rewrite drop_app_length' by by rewrite header_prefix_of_length.
    by rewrite bool_decide_true by done.
Qed.

(** Conversely, a header that parses and whose digest verifies frames its sections. *)
Lemma framed_join config h hb control bulk :
  length hb = 68%nat → parse_header hb config = Ok h → verify_digest hb control bulk = Ok tt →
  hd_control_bytes h = N.of_nat (length control) → hd_bulk_bytes h = N.of_nat (length bulk) →
  framed config h control bulk (hb ++ control ++ bulk).
Proof.
  intros Hl Hp Hd Hc Hb. apply parse_header_ok in Hp as [Hv Ht]; [|done]. unfold framed. split_and!; [done..|].
  unfold verify_digest in Hd. apply out_bind_ok in Hd as (prefix & Hpre & Hd).
  unfold index_slice, slice_get in Hpre. rewrite decide_True in Hpre by (change FRAME_DIGEST_OFFSET with 36%nat; lia).
  cbn [expect] in Hpre. rewrite drop_0, Ht in Hpre. apply Ok_inj in Hpre as <-.
  apply guard_err_ok, negb_false_iff, bool_decide_eq_true in Hd. rewrite Hd, !app_assoc. do 2 f_equal.
  by rewrite <-Ht, take_drop.
Qed.

Lemma decode_frame_ok e config f :
  N.of_nat (length e) ≤ u64_max →
  decode_frame e config = Ok f ↔ ∃ h control bulk, framed config h control bulk e ∧ decode_body h control bulk config = Ok f.
Proof.
  intros Hlen. unfold decode_frame. rewrite len_or_max_min, N.min_r by done. split.
  - change LOCAL_FRAME_HEADER_BYTES with 68%nat. intros Hd. inv_ok. repeat match goal with x : () |- _ => destruct x end.
    repeat match goal with H : (_ <? _) = false |- _ => apply N.ltb_ge in H end.
    rename select ((_ <? _)%nat = false) into Hge. apply Nat.ltb_ge in Hge.
    rename select (parse_header _ _ = _) into Hp. rename select (verify_digest _ _ _ = _) into Hv.
    match goal with H : index_slice e 0 _ = Ok ?x |- _ => rename H into Hh, x into hb end.
    match goal with H : index_slice e 68 _ = Ok ?x |- _ => rename H into Hc, x into control end.
    match type of Hp with _ = Ok ?x => rename x into h end.
    destruct (index_slice_split _ _ _ _ Hh) as [He Lh]. destruct (index_slice_split _ _ _ _ Hc) as [He2 Lc].
    rewrite drop_0 in He. cbn [Nat.add] in He. rewrite He2 in He.
    set (bulk := drop (68 + N.to_nat (hd_control_bytes h)) e) in *.
    pose proof Hp as Hp'. apply parse_header_ok in Hp' as [(_ & _ & _ & _ & Hvl) _]; [|done].
    apply validate_lengths_ok in Hvl as (_ & _ & Hfb & _).
    exists h, control, bulk. split; [|done]. rewrite He. apply framed_join; [done..|lia|].
    apply (f_equal length) in He. rewrite !length_app, Lh, Lc in He. lia.
  - intros (h & control & bulk & Hf & Hb). destruct (framed_length _ _ _ _ _ Hf) as (Hfl & _ & He).
    destruct (framed_split _ _ _ _ _ Hf) as (hb & -> & Lh & Hp & Hv). destruct Hf as (_ & Hc & Hbk & _).
    rewrite (proj2 (Nat.ltb_ge _ _)) by (change LOCAL_FRAME_HEADER_BYTES with 68%nat; lia). cbn [guard_err out_bind].
    rewrite (index_slice_at _ [] hb (control ++ bulk)) by done. cbn [out_bind]. rewrite Hp. cbn [out_bind].
    rewrite Hfl, N.ltb_irrefl. cbn [guard_err out_bind]. rewrite Hc, Nat2N.id.
    rewrite (index_slice_at _ hb control bulk) by done. cbn [out_bind].
    assert (drop (LOCAL_FRAME_HEADER_BYTES + length control) (hb ++ control ++ bulk) = bulk) as ->.
    { rewrite app_assoc, drop_app_length'; [done|]. by rewrite length_app, Lh. }
    rewrite Hv. done.
Qed.

Lemma encode_sections_ok kind correlation control bulk config e :
  0 < correlation ≤ u64_max →
  encode_sections kind correlation control bulk config = Ok e ↔
  ∃ h, hd_kind h = kind ∧ hd_correlation_id h = correlation ∧ framed config h control bulk e.
Proof.
  intros Hcor. unfold encode_sections, framed, header_valid, header_prefix_of. rewrite !len_or_max_min. split.
  - intros He. inv_ok. repeat match goal with x : () |- _ => destruct x end. rename select (validate_lengths _ _ _ = _) into Hl.
    pose proof Hl as Hl'. apply validate_lengths_ok in Hl' as (_ & _ & Hfb & Hu & _).
    match type of Hl with _ = Ok ?fb =>
      exists (mkHeader kind correlation (N.of_nat (length control)) (N.of_nat (length bulk)) fb) end.
    cbn [hd_correlation_id hd_control_bytes hd_bulk_bytes hd_kind hd_frame_bytes].
    rewrite !N.min_r in * by lia. split_and!; done || lia || by subst.
  - intros ([k c cb bb fb] & <- & <- & (_ & Hcb & Hbb & Hlay & Hlen) & Hc & Hb & ->).
    cbn [hd_correlation_id hd_control_bytes hd_bulk_bytes hd_kind hd_frame_bytes] in *. subst cb bb.
    rewrite !N.min_r by done. rewrite Hlay. cbn [out_bind]. by rewrite Hlen.
Qed.

End framed.

(** ** Streams *)

Definition event_clean (ev : ReadEvent) : Prop :=
  match ev with ReadData d => d ≠ [] | ReadInterrupted => True | ReadFailed _ => False end.
Definition event_bytes (ev : ReadEvent) : bytes := match ev with ReadData d => d | _ => [] end.

(** [delivers r s]: the reader gives the bytes [s] in some division, possibly
    interrupted, and then ends. *)
Definition delivers (r : list ReadEvent) (s : bytes) : Prop :=
  Forall event_clean r ∧ mjoin (event_bytes <$> r) = s.

Lemma delivers_cons ev r s :
  delivers (ev :: r) s ↔ event_clean ev ∧ ∃ s', s = event_bytes ev ++ s' ∧ delivers r s'.
Proof.
  unfold delivers. rewrite Forall_cons, fmap_cons. change (mjoin (event_bytes ev :: (event_bytes <$> r)))
    with (event_bytes ev ++ mjoin (event_bytes <$> r)). split.
  - intros [[Hc Hr] <-]. split; [done|]. by eexists.
  - by intros (Hc & s' & -> & Hr & <-).
Qed.

Lemma fill_delivers r need got s :
  delivers r s →
  (need ≤ length s → ∃ r', fill r need got = (r', Filled (got ++ take need s)) ∧ delivers r' (drop need s))%nat ∧
  (length s < need → ∃ r', fill r need got = (r', Ended (got ++ s)))%nat.
Proof.
  revert need got s. induction r as [|ev r IH]; intros need got s Hd.
  { assert (s = []) as -> by by destruct Hd as [_ <-]. destruct need as [|need]; cbn.
    - split; [intros _; exists []; by rewrite app_nil_r|lia].
    - split; [lia|]. intros _. exists []. by rewrite app_nil_r. }
  destruct need as [|need].
  { split; [|lia]. intros _. exists (ev :: r). cbn [fill]. by rewrite take_0, app_nil_r, drop_0. }
  apply delivers_cons in Hd as (Hc & s' & -> & Hd). destruct ev as [d| |k]; [| |done]; cbn [fill event_bytes app].
  - cbn in Hc. rewrite decide_False by done. rewrite length_app. case_decide as Hlt.
    + split; [|lia]. intros _. exists (ReadData (drop (S need) d) :: r).
      rewrite take_app_le, drop_app_le by lia. split; [done|]. apply delivers_cons. cbn [event_clean event_bytes].
      split; [|by exists s']. intros Hn%(f_equal length). rewrite length_drop in Hn. cbn in Hn. lia.
    + destruct (IH (S need - length d)%nat (got ++ d) s' Hd) as [IH1 IH2]. split.
      * intros Hle. destruct IH1 as (r' & Hf & Hr'); [lia|]. exists r'. rewrite Hf, take_app_ge, drop_app_ge by lia.
        by rewrite <-app_assoc.
      * intros Hlt'. destruct IH2 as (r' & Hf); [lia|]. exists r'. by rewrite Hf, <-app_assoc.
  - by apply IH.
Qed.

Section claims.
Context `{Digest} `{JsonCodecLaws ObservationMetadata}.

(** Frames a caller can hold: a non-zero correlation, well-typed pixels. *)
Definition typed_local_frame (f : LocalFrame) : Prop :=
  0 < correlation_id f ≤ u64_max ∧
  match f with FControl _ _ => True | FObservation _ _ payload => typed_payload payload end.

Lemma decode_body_ok config h control bulk f :
  nesting_room ObservationMetadata (frame_runtime_limits config) →
  header_valid config h → hd_control_bytes h = N.of_nat (length control) → hd_bulk_bytes h = N.of_nat (length bulk) →
  decode_body h control bulk config = Ok f ↔
  typed_local_frame f ∧ correlation_id f = hd_correlation_id h ∧ frame_kind f = hd_kind h ∧
  match f with
  | FControl _ c => c = control ∧ bulk = []
  | FObservation _ m p =>
      encode m (frame_runtime_limits config) = Ok control ∧
      encode_payload m p (frame_runtime_limits config) (frame_payload_limits config) = Ok bulk
  end.
Proof.
  intros Hroom (Hcor & _ & Hbu & Hlay & _) Hc Hb. unfold decode_body, decode_observation, typed_local_frame.
  destruct (hd_kind h) eqn:Hk; cbn [validate_layout] in Hlay.
  - assert (bulk = []) as ->.
    { destruct (hd_control_bytes h =? 0); [done|]. destruct (N.eqb_spec (hd_bulk_bytes h) 0) as [E|]; [|done].
      rewrite Hb in E. destruct bulk; [done|]. cbn in E. lia. }
    split; [by intros <-%Ok_inj|]. destruct f as [c d|]; [|by intros (_ & _ & ? & _)].
    intros (_ & Hcid & _ & -> & _). cbn in Hcid. by subst c.
  - split.
    + intros Hd. inv_ok. repeat match goal with x : () |- _ => destruct x end. subst f.
      cbn [correlation_id frame_kind]. rename select (negb _ = false) into Hcan.
      apply negb_false_iff, bool_decide_eq_true in Hcan as ->. rename select (decode_payload _ _ _ _ = _) into Hp.
      apply decode_payload_ok in Hp as [? ?]; [|by rewrite <-Hb]. split_and!; done || apply Hcor.
    + destruct f as [|c m p]; [by intros (_ & _ & ? & _)|]. intros ([_ Ht] & Hcid & _ & Hm & Hp). cbn in Hcid. subst c.
      rewrite (decode_encode m _ control) by done. cbn [map_err out_bind]. rewrite Hm. cbn [map_err out_bind].
      rewrite bool_decide_true by done. cbn [negb guard_err out_bind].
      rewrite (proj2 (decode_payload_ok m bulk _ _ p ltac:(rewrite <-Hb; done))) by done. done.
Qed.

Lemma encode_frame_ok f config e :
  nesting_room ObservationMetadata (frame_runtime_limits config) →
  typed_local_frame f ∧ encode_frame f config = Ok e ↔
  ∃ h control bulk, framed config h control bulk e ∧ decode_body h control bulk config = Ok f.
Proof.
  intros Hroom. split.
  - intros [Ht He]. destruct f as [c d|c m p]; cbn [encode_frame] in He.
    + apply encode_sections_ok in He as (h & Hk & Hc & Hf); [|apply Ht]. exists h, d, []. split; [done|].
      destruct Hf as (Hv & ? & ? & _). by apply decode_body_ok.
    + apply out_bind_ok in He as (control & Hm%map_err_ok & He). apply out_bind_ok in He as (bulk & Hp%map_err_ok & He).
      apply encode_sections_ok in He as (h & Hk & Hc & Hf); [|apply Ht]. exists h, control, bulk. split; [done|].
      destruct Hf as (Hv & ? & ? & _). by apply decode_body_ok.
  - intros (h & control & bulk & Hf & Hd). pose proof Hf as (Hv & Hc & Hb & _).
    apply decode_body_ok in Hd as (Ht & Hcid & Hk & Hx); [|done..]. split; [done|].
    destruct f as [c d|c m p]; cbn [encode_frame correlation_id frame_kind] in *.
    + destruct Hx as [-> ->]. apply encode_sections_ok; [apply Ht|]. by exists h.
    + destruct Hx as [Hm Hp]. rewrite Hm. cbn [map_err out_bind]. rewrite Hp. cbn [map_err out_bind].
      apply encode_sections_ok; [apply Ht|]. by exists h.
Qed.

Lemma decode_encode_frame f config e :
  nesting_room ObservationMetadata (frame_runtime_limits config) → N.of_nat (length e) ≤ u64_max →
  decode_frame e config = Ok f ↔ typed_local_frame f ∧ encode_frame f config = Ok e.
Proof. intros Hroom Hlen. by rewrite decode_frame_ok, encode_frame_ok. Qed.

Lemma encode_frame_length f config e :
  nesting_room ObservationMetadata (frame_runtime_limits config) → typed_local_frame f →
  encode_frame f config = Ok e → N.of_nat (length e) ≤ u64_max ∧ e ≠ [].
Proof.
  intros Hroom Ht He. destruct (proj1 (encode_frame_ok f config e Hroom) (conj Ht He)) as (h & c & b & Hf & _).
  apply framed_length in Hf as (? & ? & Hl). split; [lia|]. intros ->. cbn in Hl. lia.
Qed.

(** Reading one frame off a stream that starts with it. *)
Lemma read_frame_delivers r config h control bulk e rest f :
  framed config h control bulk e → decode_body h control bulk config = Ok f → delivers r (e ++ rest) →
  ∃ r', read_frame r config = (r', Ok (Some f)) ∧ delivers r' rest.
Proof.
  intros Hf Hd Hr. destruct (framed_split _ _ _ _ _ Hf) as (hb & -> & Lh & Hp & Hv). destruct Hf as (_ & Hc & Hb & _).
  rewrite <-!app_assoc in Hr. unfold read_frame, read_header, read_section.
  destruct (proj1 (fill_delivers r LOCAL_FRAME_HEADER_BYTES [] _ Hr)) as (r1 & E1 & Hr1).
  { rewrite length_app, Lh. change LOCAL_FRAME_HEADER_BYTES with 68%nat. lia. }
  rewrite take_app_length' in E1 by done. rewrite drop_app_length' in Hr1 by done. rewrite E1. cbn [app]. rewrite Hp.
  rewrite Hc, Hb, !Nat2N.id.
  destruct (proj1 (fill_delivers r1 (length control) [] _ Hr1)) as (r2 & E2 & Hr2); [rewrite length_app; lia|].
  rewrite take_app_length in E2. rewrite drop_app_length in Hr2. rewrite E2. cbn [app].
  destruct (proj1 (fill_delivers r2 (length bulk) [] _ Hr2)) as (r3 & E3 & Hr3); [rewrite length_app; lia|].
  rewrite take_app_length in E3. rewrite drop_app_length in Hr3. rewrite E3. cbn [app out_bind].
  rewrite Hv. cbn [out_bind]. rewrite Hd. cbn [out_bind]. by exists r3.
Qed.

(** A stream that ends inside a frame. *)
Lemma read_frame_truncated r config h control bulk e s t :
  framed config h control bulk e → e = s ++ t → s ≠ [] → t ≠ [] → delivers r s →
  ∃ section expected actual r', read_frame r config = (r', Err (LfTruncated section expected actual)).
Proof.
  intros Hf He Hs Ht Hr. destruct (framed_split _ _ _ _ _ Hf) as (hb & He' & Lh & Hp & Hv).
  destruct Hf as (_ & Hc & Hb & _). unfold read_frame, read_header, read_section.
  assert (length s < length e)%nat as Hlt. { rewrite He, length_app. destruct t; [done|]. cbn. lia. }
  assert (s = take (length s) (hb ++ control ++ bulk)) as Hsp.
  { rewrite <-He', He. by rewrite take_app_length. }
  destruct (fill_delivers r LOCAL_FRAME_HEADER_BYTES [] s Hr) as [F1 F2].
  change LOCAL_FRAME_HEADER_BYTES with 68%nat in *.
  destruct (decide (68 ≤ length s)%nat) as [Hge|Hsh].
  2: { destruct F2 as (r1 & ->); [lia|]. cbn [app]. destruct s; [done|]. by eexists _, _, _, _. }
  destruct (F1 Hge) as (r1 & -> & Hr1). cbn [app].
  rewrite Hsp, take_take, Nat.min_l, <-Lh, take_app_length, Hp by lia.
  rewrite Hc, Hb, !Nat2N.id. rewrite Hsp in Hr1. rewrite <-Lh in Hr1. rewrite skipn_firstn_comm, drop_app_length in Hr1.
  assert (length e = 68 + length control + length bulk)%nat as Le. { rewrite He', !length_app, Lh. lia. }
  set (n := (length s - length hb)%nat) in *.
  destruct (fill_delivers r1 (length control) [] _ Hr1) as [G1 G2].
  rewrite length_take, length_app in G1, G2.
  destruct (decide (length control ≤ n)%nat) as [Hge2|Hsh2].
  2: { destruct G2 as (r2 & ->); [lia|]. by eexists _, _, _, _. }
  destruct G1 as (r2 & -> & Hr2); [lia|]. cbn [app].
  destruct (fill_delivers r2 (length bulk) [] _ Hr2) as [_ G3].
  rewrite length_drop, length_take, length_app in G3. destruct G3 as (r3 & ->); [lia|]. by eexists _, _, _, _.
Qed.

(** ** No panics *)

Lemma fill_length r need got r' d : fill r need got = (r', Filled d) → length d = (length got + need)%nat.
Proof.
  revert need got. induction r as [|ev r IH]; intros need got; destruct need as [|need]; cbn [fill];
    try (intros [= _ <-]; lia).
  destruct ev as [data| |k]; [|apply IH|done]. case_decide; [done|]. case_decide as Hlt.
  - intros [= _ <-]. rewrite length_app, length_take. lia.
  - intros Hf%IH. rewrite length_app in Hf. lia.
Qed.

Lemma validate_layout_normal kind c b : normal (validate_layout kind c b).
Proof. destruct kind; cbn [validate_layout]; by repeat case_match. Qed.

Lemma validate_lengths_normal c b config : normal (validate_lengths c b config).
Proof.
  unfold validate_lengths. do 2 (apply out_bind_normal; [apply guard_err_normal|intros _ _]).
  apply out_bind_normal; [apply ok_or_normal|intros ? _]. apply out_bind_normal; [apply guard_err_normal|done].
Qed.

Lemma parse_header_normal l config : length l = 68%nat → normal (parse_header l config).
Proof.
  intros Hl. destruct (ff_split l Hl) as (f & -> & Hf). rewrite parse_header_fields by done.
  do 2 (apply out_bind_normal; [apply guard_err_normal|intros _ _]).
  apply out_bind_normal; [by destruct (ff_kind f)|intros kind _].
  apply out_bind_normal; [apply guard_err_normal|intros _ _].
  apply out_bind_normal; [apply ok_or_normal|intros c _].
  apply out_bind_normal; [apply validate_layout_normal|intros _ _].
  apply out_bind_normal; [apply validate_lengths_normal|done].
Qed.

Lemma verify_digest_normal hb control bulk : length hb = 68%nat → normal (verify_digest hb control bulk).
Proof.
  intros Hl. unfold verify_digest. apply out_bind_normal; [|intros; apply guard_err_normal].
  apply index_slice_normal. change FRAME_DIGEST_OFFSET with 36%nat. lia.
Qed.

Lemma decode_body_normal h control bulk config :
  N.of_nat (length bulk) ≤ u64_max → normal (decode_body h control bulk config).
Proof.
  intros Hb. unfold decode_body, decode_observation. destruct (hd_kind h); [done|].
  apply out_bind_normal; [apply map_err_normal, decode_normal|intros m _].
  apply out_bind_normal; [apply map_err_normal, encode_normal|intros c _].
  apply out_bind_normal; [apply guard_err_normal|intros _ _].
  apply out_bind_normal; [by apply map_err_normal, decode_payload_normal|done].
Qed.

Lemma decode_frame_normal e config : N.of_nat (length e) ≤ u64_max → normal (decode_frame e config).
Proof.
  intros Hlen. unfold decode_frame. change LOCAL_FRAME_HEADER_BYTES with 68%nat. rewrite len_or_max_min, N.min_r by done.
  apply out_bind_normal; [apply guard_err_normal|]. intros [] Hge%guard_err_ok%Nat.ltb_ge.
  apply out_bind_normal; [apply index_slice_normal; lia|]. intros hb [_ Lh]%index_slice_split.
  apply out_bind_normal; [by apply parse_header_normal|]. intros h Hp.
  apply parse_header_ok in Hp as [(_ & _ & _ & _ & Hl) _]; [|done]. apply validate_lengths_ok in Hl as (_ & _ & Hfb & _).
  apply out_bind_normal; [apply guard_err_normal|]. intros [] Hfb1%guard_err_ok%N.ltb_ge.
  apply out_bind_normal; [apply guard_err_normal|]. intros [] Hfb2%guard_err_ok%N.ltb_ge.
  apply out_bind_normal; [apply index_slice_normal; lia|]. intros control _.
  apply out_bind_normal; [by apply verify_digest_normal|intros _ _]. apply decode_body_normal. rewrite length_drop. lia.
Qed.

Lemma encode_frame_normal f config : normal (encode_frame f config).
Proof.
  assert (∀ k c a b, normal (encode_sections k c a b config)) as Hs.
  { intros. unfold encode_sections. apply out_bind_normal; [apply validate_layout_normal|intros _ _].
    apply out_bind_normal; [apply validate_lengths_normal|done]. }
  destruct f as [c d|c m p]; cbn [encode_frame]; [apply Hs|].
  apply out_bind_normal; [apply map_err_normal, encode_normal|intros ? _].
  apply out_bind_normal; [apply map_err_normal, encode_payload_normal|intros ? _]. apply Hs.
Qed.

(** Whatever a reader gives, reading a frame returns. *)
Lemma read_frame_normal r config : normal (read_frame r config).2.
Proof.
  unfold read_frame, read_header, read_section.
  destruct (fill r LOCAL_FRAME_HEADER_BYTES []) as [r1 res] eqn:E1. destruct res as [hb|d|k]; [|by destruct d|done].
  apply fill_length in E1. change (length [] + LOCAL_FRAME_HEADER_BYTES)%nat with 68%nat in E1.
  pose proof (parse_header_normal hb config E1) as Hn. destruct (parse_header hb config) as [h|e| |] eqn:Ep; try done.
  destruct (fill r1 (N.to_nat (hd_control_bytes h)) []) as [r2 res]. destruct res as [control|d|k]; try done.
  destruct (fill r2 (N.to_nat (hd_bulk_bytes h)) []) as [r3 res] eqn:E3. destruct res as [bulk|d|k]; try done.
  apply fill_length in E3. cbn [snd out_bind length Nat.add] in *.
  apply out_bind_normal; [by apply verify_digest_normal|intros _ _].
  apply parse_header_ok in Ep as [(_ & _ & Hb & _) _]; [|done].
  apply out_bind_normal; [apply decode_body_normal; lia|done].
Qed.

(** ** Writers *)

(** What reaches the stream is a prefix of the frame, and all of it on success. *)
Lemma write_all_prefix w encoded written :
  (written ≤ length encoded)%nat →
  let '(out, result) := write_all w encoded written in
  out `prefix_of` encoded ∧ match result with
    | Some (Ok _) => out = encoded
    | Some (Err e) => ∃ kind, e = LfIo WriteFrame kind
    | Some Panic | Some OutOfFuel => False
    | None => True end.
Proof.
  revert written. induction w as [|ev w IH]; intros written Hw; cbn [write_all]; case_decide as Hlt; try done.
  - split; [apply prefix_take|done].
  - destruct ev as [[|count]| |k].
    + split; [apply prefix_take|by eexists].
    + apply IH. lia.
    + by apply IH.
    + split; [apply prefix_take|by eexists].
Qed.

(** A writer that keeps accepting bytes takes the whole frame. *)
Definition accepts (ev : WriteEvent) : Prop :=
  match ev with Wrote (S _) | WriteInterrupted => True | _ => False end.
Definition accepted (w : list WriteEvent) : nat :=
  foldr (λ ev n, match ev with Wrote (S _) => S n | _ => n end) 0%nat w.

Lemma write_all_complete w encoded written :
  Forall accepts w → (length encoded ≤ written + accepted w)%nat →
  write_all w encoded written = (encoded, Some (Ok tt)).
Proof.
  intros Hw. revert written. induction Hw as [|ev w Hev _ IH]; intros written Hle; cbn [write_all]; case_decide as Hlt; try done.
  - cbn in Hle. lia.
  - destruct ev as [[|count]| |k]; cbn in Hev; try done; cbn [accepted foldr] in Hle; fold (accepted w) in Hle.
    + apply IH. lia.
    + by apply IH.
Qed.

(** Successive successful reads. *)
Inductive reads (config : LocalFrameConfig) : list ReadEvent → list LocalFrame → list ReadEvent → Prop :=
| reads_nil r : reads config r [] r
| reads_cons r r1 r2 f fs :
    read_frame r config = (r1, Ok (Some f)) → reads config r1 fs r2 → reads config r (f :: fs) r2.

(** A frame with its encoding. *)
Definition encodes (config : LocalFrameConfig) (f : LocalFrame) (e : bytes) : Prop :=
  typed_local_frame f ∧ encode_frame f config = Ok e.

Lemma reads_delivers config fs es rest r :
  nesting_room ObservationMetadata (frame_runtime_limits config) →
  Forall2 (encodes config) fs es → delivers r (mjoin es ++ rest) →
  ∃ r', reads config r fs r' ∧ delivers r' rest.
Proof.
  intros Hroom Hes. revert r. induction Hes as [|f e fs es Hf _ IH]; intros r Hr.
  - exists r. split; [constructor|done].
  - apply encode_frame_ok in Hf as (h & c & b & Hf & Hd); [|done].
    change (mjoin (e :: es)) with (e ++ mjoin es) in Hr. rewrite <-app_assoc in Hr.
    destruct (read_frame_delivers r config h c b e _ f Hf Hd Hr) as (r1 & E1 & Hr1).
    destruct (IH r1 Hr1) as (r2 & E2 & Hr2). exists r2. split; [by econstructor|done].
Qed.

(** The frame codec: decoding accepts exactly the bytes encoding writes and
    gives the frame back, and neither direction panics on any input. *)
Theorem frame_codec_exact (config : LocalFrameConfig) (encoded : bytes) :
  nesting_room ObservationMetadata (frame_runtime_limits config) → N.of_nat (length encoded) ≤ u64_max →
  (∀ f, decode_frame encoded config = Ok f ↔ typed_local_frame f ∧ encode_frame f config = Ok encoded) ∧
  normal (decode_frame encoded config) ∧ ∀ f, normal (encode_frame f config).
Proof.
  intros Hroom Hlen. split_and!.
  - intros f. by apply decode_encode_frame.
  - by apply decode_frame_normal.
  - intros f. apply encode_frame_normal.
Qed.

(** C33. Frames over a stream: however a reader divides or interrupts the bytes of a
    sequence of encoded frames, reading gives exactly those frames in order;
    then a stream that is over gives none, and one that stops inside a further
    frame gives a truncation error.  A writer that keeps accepting bytes
    receives each encoding whole, and any writer receives a prefix of it. *)
Theorem frame_stream_exact (config : LocalFrameConfig) (fs : list LocalFrame) (es : list bytes)
    (r : list ReadEvent) (rest : bytes) :
  nesting_room ObservationMetadata (frame_runtime_limits config) →
  Forall2 (encodes config) fs es → delivers r (mjoin es ++ rest) →
  (∃ r', reads config r fs r' ∧
     (rest = [] → ∃ r'', read_frame r' config = (r'', Ok None)) ∧
     (∀ f t, encodes config f (rest ++ t) → rest ≠ [] → t ≠ [] →
        ∃ section expected actual r'', read_frame r' config = (r'', Err (LfTruncated section expected actual)))) ∧
  (∀ f e w, encodes config f e →
     (write_frame w f config).1 `prefix_of` e ∧
     (Forall accepts w → (length e ≤ accepted w)%nat → write_frame w f config = (e, Some (Ok tt)))).
Proof.
  intros Hroom Hes Hr. split.
  - destruct (reads_delivers config fs es rest r Hroom Hes Hr) as (r' & Hreads & Hr'). exists r'. split; [done|]. split.
    + intros ->. unfold read_frame, read_header.
      destruct (proj2 (fill_delivers r' LOCAL_FRAME_HEADER_BYTES [] [] Hr')) as (r2 & ->); [cbn; lia|]. by eexists.
    + intros f t Hf Hne Ht. apply encode_frame_ok in Hf as (h & c & b & Hf & _); [|done].
      by eapply read_frame_truncated.
  - intros f e w [_ He]. unfold write_frame. rewrite He. split; [|intros; by apply write_all_complete].
    pose proof (write_all_prefix w e 0 ltac:(lia)) as Hp. by destruct (write_all w e 0) as [out res]; destruct Hp.
Qed.

End claims.

(** ** Sample frames *)

#[local] Existing Instance metadata_codec.
#[local] Existing Instance metadata_codec_laws.
#[local] Existing Instance sha256_instance.

Definition sample_frames : list LocalFrame :=
  [FControl 7 (bytes_of_string "hello"); FObservation 8 sample_metadata sample_pixels].

Definition frame_bytes (f : LocalFrame) : bytes :=
  default [] (out_ok (encode_frame f frame_config_default)).

Definition sample_stream : list bytes := Eval vm_compute in frame_bytes <$> sample_frames.

Lemma frame_nesting_room : nesting_room ObservationMetadata (frame_runtime_limits frame_config_default).
Proof. split; vm_compute; [discriminate|reflexivity]. Qed.

Lemma sample_encodes : Forall2 (encodes frame_config_default) sample_frames sample_stream.
Proof.
  repeat constructor; vm_compute; try reflexivity; try discriminate.
Qed.

Lemma frame_codec_exact_witness :
  decode_frame (frame_bytes (FControl 7 (bytes_of_string "hello"))) frame_config_default
  = Ok (FControl 7 (bytes_of_string "hello")).
Proof.
  destruct (frame_codec_exact frame_config_default (frame_bytes (FControl 7 (bytes_of_string "hello")))) as [Hx _].
  { exact frame_nesting_room. }
  { vm_compute. discriminate. }
  apply (proj2 (Hx (FControl 7 (bytes_of_string "hello")))).
  split; [split; [split; vm_compute; [reflexivity|discriminate]|exact I]|vm_compute; reflexivity].
Defined.

(** The two frames, one byte at a time and with an interruption in between. *)
Definition sample_reader : list ReadEvent :=
  ReadInterrupted :: ((λ b, ReadData [b]) <$> mjoin sample_stream).

Lemma frame_stream_exact_witness :
  ∃ r', reads frame_config_default sample_reader sample_frames r' ∧
    ∃ r'', read_frame r' frame_config_default = (r'', Ok None).
Proof.
  destruct (frame_stream_exact frame_config_default sample_frames sample_stream sample_reader []) as [(r' & Hr & Hn & _) _].
  - exact frame_nesting_room.
  - exact sample_encodes.
  - split; [|vm_compute; reflexivity]. unfold sample_reader. constructor; [exact I|].
    apply Forall_fmap, Forall_true. intros b Hb. discriminate Hb.
  - exists r'. exact (conj Hr (Hn eq_refl)).
Defined.
