(* ===== verification/SessionLimits.v ===== *)
(** * Limits of a local session

    [LocalSessionLimits] of [cogniform-local-session/src/message.rs]: the receive
    limits two peers exchange, their consistency, and their negotiation.
    Consistent limits form a meet semilattice under [limits_fit]: negotiation
    never fails on them and gives the greatest limits both peers accept. *)

From S2P Require Import Prelude Machine Floats Values Components Messages MessageSpec Imagination Codec Compilation Hash Sha256 Observation Transport.

Open Scope N_scope.

Inductive LocalSessionValidationKind : Type :=
| SvUnsupportedVersion
| SvInvalidLimits
| SvInvalidProtocolValue
| SvInvalidPatchAdmission
| SvInvalidPatchCompletion
| SvInvalidVersionVariant
| SvInvalidCompilationLimits
| SvInvalidImaginationAdmission
| SvInvalidImaginationCompletion
| SvInvalidCompilationResult.

#[export] Instance LocalSessionValidationKind_eq_dec : EqDecision LocalSessionValidationKind.
Proof. solve_decision. Defined.

Record LocalSessionValidationError := mkSessionError {
  sve_kind : LocalSessionValidationKind;
  sve_field : string;
  sve_protocol_error : option ValidationError;
}.

(** [LocalSessionValidationError::new], [::protocol] and [invalid_limits]. *)
Definition session_error (kind : LocalSessionValidationKind) (field : string) : LocalSessionValidationError :=
  mkSessionError kind field None.
Definition session_protocol_error (field : string) (error : ValidationError) : LocalSessionValidationError :=
  mkSessionError SvInvalidProtocolValue field (Some error).
Definition invalid_limits (field : string) : LocalSessionValidationError := session_error SvInvalidLimits field.

Record LocalSessionLimits := mkSessionLimits {
  sl_max_frame_bytes : N;
  sl_max_control_message_bytes : N;
  sl_max_bulk_bytes : N;
  sl_max_observation_envelope_bytes : N;
  sl_max_visibility_entries : N;
  sl_runtime_limits : RuntimeLimits;
}.

(** [LocalSessionLimits::validate]. *)
Definition limits_validate (l : LocalSessionLimits) : outcome LocalSessionValidationError unit :=
  let! frame_body := ok_or (checked_sub (sl_max_frame_bytes l) header_bytes_u64)
    (invalid_limits "limits.max_frame_bytes") in
  do! guard_err ((frame_body <? sl_max_control_message_bytes l)
                 || (max_encoded_bytes (sl_runtime_limits l) <? sl_max_control_message_bytes l))
    (invalid_limits "limits.max_control_message_bytes") then
  do! guard_err (frame_body <? sl_max_bulk_bytes l) (invalid_limits "limits.max_bulk_bytes") then
  do! guard_err (sl_max_bulk_bytes l <? sl_max_observation_envelope_bytes l)
    (invalid_limits "limits.max_observation_envelope_bytes") then
  guard_err (max_components (sl_runtime_limits l) <? max_components_per_entity (sl_runtime_limits l))
    (invalid_limits "limits.runtime_limits.max_components_per_entity").

(** [LocalSessionLimits::from_config]. *)
Definition limits_from_config (config : LocalFrameConfig) : outcome LocalSessionValidationError LocalSessionLimits :=
  let! frame_body := ok_or (checked_sub (max_frame_bytes (frame_limits config)) header_bytes_u64)
    (invalid_limits "limits.max_frame_bytes") in
  let effective_control := N.min (N.min frame_body (max_control_bytes (frame_limits config)))
    (max_encoded_bytes (frame_runtime_limits config)) in
  let! max_control_message_bytes := ok_or (non_zero effective_control)
    (invalid_limits "limits.max_control_message_bytes") in
  let effective_bulk := N.min frame_body (max_bulk_bytes (frame_limits config)) in
  let! max_bulk_bytes := ok_or (non_zero effective_bulk) (invalid_limits "limits.max_bulk_bytes") in
  let! max_observation_envelope_bytes :=
    ok_or (non_zero (N.min effective_bulk (max_envelope_bytes (frame_payload_limits config))))
      (invalid_limits "limits.max_observation_envelope_bytes") in
  let limits := mkSessionLimits (max_frame_bytes (frame_limits config)) max_control_message_bytes max_bulk_bytes
    max_observation_envelope_bytes (max_visibility_entries (frame_payload_limits config)) (frame_runtime_limits config) in
  do! limits_validate limits then
  Ok limits.

(** [intersect_runtime_limits]. *)
Definition intersect_runtime_limits (left right : RuntimeLimits) : RuntimeLimits :=
  let components := N.min (max_components left) (max_components right) in
  {|
    max_encoded_bytes := N.min (max_encoded_bytes left) (max_encoded_bytes right);
    max_decoded_bytes := N.min (max_decoded_bytes left) (max_decoded_bytes right);
    max_json_nesting_depth := N.min (max_json_nesting_depth left) (max_json_nesting_depth right);
    max_operations := N.min (max_operations left) (max_operations right);
    max_components := components;
    max_components_per_entity :=
      N.min (N.min (max_components_per_entity left) (max_components_per_entity right)) components;
    max_text_bytes := N.min (max_text_bytes left) (max_text_bytes right);
    max_diagnostics := N.min (max_diagnostics left) (max_diagnostics right);
    max_queue_capacity := N.min (max_queue_capacity left) (max_queue_capacity right);
    max_imagination_entities := N.min (max_imagination_entities left) (max_imagination_entities right);
    max_imagination_relations := N.min (max_imagination_relations left) (max_imagination_relations right);
    max_imagination_constraints := N.min (max_imagination_constraints left) (max_imagination_constraints right);
    max_query_entities := N.min (max_query_entities left) (max_query_entities right);
    max_observation_width := N.min (max_observation_width left) (max_observation_width right);
    max_observation_height := N.min (max_observation_height left) (max_observation_height right);
    max_observation_pixels := N.min (max_observation_pixels left) (max_observation_pixels right);
  |}.

(** [LocalSessionLimits::intersect]. *)
Definition limits_intersect (self other : LocalSessionLimits) : outcome LocalSessionValidationError LocalSessionLimits :=
  do! limits_validate self then
  do! limits_validate other then
  let runtime_limits := intersect_runtime_limits (sl_runtime_limits self) (sl_runtime_limits other) in
  let max_frame_bytes := N.min (sl_max_frame_bytes self) (sl_max_frame_bytes other) in
  let! frame_body := ok_or (checked_sub max_frame_bytes header_bytes_u64) (invalid_limits "limits.max_frame_bytes") in
  let max_bulk_bytes := N.min (sl_max_bulk_bytes self) (sl_max_bulk_bytes other) in
  let! body := ok_or (non_zero frame_body) (invalid_limits "limits.max_control_message_bytes") in
  let limits := mkSessionLimits max_frame_bytes
    (N.min (N.min (N.min (sl_max_control_message_bytes self) (sl_max_control_message_bytes other))
       (max_encoded_bytes runtime_limits)) body)
    max_bulk_bytes
    (N.min (N.min (sl_max_observation_envelope_bytes self) (sl_max_observation_envelope_bytes other)) max_bulk_bytes)
    (N.min (sl_max_visibility_entries self) (sl_max_visibility_entries other)) runtime_limits in
  do! limits_validate limits then
  Ok limits.

(** [LocalSessionLimits::negotiate]. *)
Definition limits_negotiate (self : LocalSessionLimits) (local_config : LocalFrameConfig)
    : outcome LocalSessionValidationError LocalSessionLimits :=
  do! limits_validate self then
  let! local := limits_from_config local_config in
  limits_intersect self local.

(** [LocalSessionLimits::to_frame_config]. *)
Definition to_frame_config (l : LocalSessionLimits) : outcome LocalSessionValidationError LocalFrameConfig :=
  do! limits_validate l then
  Ok (mkFrameConfig
        (mkFrameLimits (sl_max_frame_bytes l) (sl_max_control_message_bytes l) (sl_max_bulk_bytes l))
        (sl_runtime_limits l)
        (mkPayloadLimits (sl_max_observation_envelope_bytes l) (sl_max_visibility_entries l))).

(** The comparison of [fits_within_config]. *)
Definition limits_fit (l available : LocalSessionLimits) : bool :=
  (sl_max_frame_bytes l <=? sl_max_frame_bytes available)
  && (sl_max_control_message_bytes l <=? sl_max_control_message_bytes available)
  && (sl_max_bulk_bytes l <=? sl_max_bulk_bytes available)
  && (sl_max_observation_envelope_bytes l <=? sl_max_observation_envelope_bytes available)
  && (sl_max_visibility_entries l <=? sl_max_visibility_entries available)
  && runtime_limits_fit (sl_runtime_limits l) (sl_runtime_limits available).

(** [LocalSessionLimits::fits_within_config]. *)
Definition fits_within_config (l : LocalSessionLimits) (config : LocalFrameConfig)
    : outcome LocalSessionValidationError unit :=
  let! available := limits_from_config config in
  guard_err (negb (limits_fit l available)) (invalid_limits "message.hello.effective_limits").

(** [validate_compilation_limits]. *)
Definition validate_compilation_limits (limits : CompilationLimits) : outcome LocalSessionValidationError unit :=
  guard_err (max_components (cl_patch_limits limits) <? max_components_per_entity (cl_patch_limits limits))
    (session_error SvInvalidCompilationLimits "compilation_limits.patch_limits.max_components_per_entity").

(** [intersect_compilation_limits]. *)
Definition intersect_compilation_limits (left right : CompilationLimits)
    : outcome LocalSessionValidationError CompilationLimits :=
  do! validate_compilation_limits left then
  do! validate_compilation_limits right then
  let limits := {|
    cl_max_encoded_bytes := N.min (cl_max_encoded_bytes left) (cl_max_encoded_bytes right);
    cl_max_decoded_bytes := N.min (cl_max_decoded_bytes left) (cl_max_decoded_bytes right);
    cl_max_json_nesting_depth := N.min (cl_max_json_nesting_depth left) (cl_max_json_nesting_depth right);
    cl_max_text_bytes := N.min (cl_max_text_bytes left) (cl_max_text_bytes right);
    cl_max_decisions := N.min (cl_max_decisions left) (cl_max_decisions right);
    cl_max_unresolved_constraints := N.min (cl_max_unresolved_constraints left) (cl_max_unresolved_constraints right);
    cl_patch_limits := intersect_runtime_limits (cl_patch_limits left) (cl_patch_limits right);
  |} in
  do! validate_compilation_limits limits then
  Ok limits.

(** ** Consistent limits *)

Definition rt_consistent (r : RuntimeLimits) : Prop := max_components_per_entity r ≤ max_components r.

(** Positive fields, as their [NonZero] types ensure, and the relations
    [limits_validate] checks. *)
Record consistent (l : LocalSessionLimits) : Prop := {
  con_frame : header_bytes_u64 + sl_max_control_message_bytes l ≤ sl_max_frame_bytes l;
  con_control : 0 < sl_max_control_message_bytes l ≤ max_encoded_bytes (sl_runtime_limits l);
  con_bulk : 0 < sl_max_bulk_bytes l ∧ header_bytes_u64 + sl_max_bulk_bytes l ≤ sl_max_frame_bytes l;
  con_envelope : 0 < sl_max_observation_envelope_bytes l ≤ sl_max_bulk_bytes l;
  con_components : rt_consistent (sl_runtime_limits l);
}.

Definition positive_limits (l : LocalSessionLimits) : Prop :=
  0 < sl_max_control_message_bytes l ∧ 0 < sl_max_bulk_bytes l ∧ 0 < sl_max_observation_envelope_bytes l.

Lemma limits_validate_ok l : positive_limits l → limits_validate l = Ok tt ↔ consistent l.
Proof.
  intros (Hc & Hb & He). unfold limits_validate. split.
  - intros Hv. apply out_bind_ok in Hv as (body & Hbody%ok_or_ok%checked_sub_Some & Hv).
    apply out_bind_ok in Hv as (_ & H1%guard_err_ok & Hv). apply out_bind_ok in Hv as (_ & H2%guard_err_ok%N.ltb_ge & Hv).
    apply out_bind_ok in Hv as (_ & H3%guard_err_ok%N.ltb_ge & Hv). apply guard_err_ok, N.ltb_ge in Hv.
    apply orb_false_iff in H1 as [H1%N.ltb_ge H4%N.ltb_ge]. split; unfold rt_consistent; lia.
  - intros [Hf Hcc [_ Hbb] Hen Hcomp].
    rewrite (proj2 (checked_sub_Some _ _ (sl_max_frame_bytes l - header_bytes_u64))) by lia. cbn [ok_or out_bind].
    rewrite (proj2 (N.ltb_ge _ (sl_max_control_message_bytes l))), (proj2 (N.ltb_ge _ (sl_max_control_message_bytes l))) by lia.
    cbn [orb guard_err out_bind]. rewrite (proj2 (N.ltb_ge _ (sl_max_bulk_bytes l))) by lia. cbn [guard_err out_bind].
    rewrite (proj2 (N.ltb_ge _ _)) by lia. cbn [guard_err out_bind]. by rewrite (proj2 (N.ltb_ge _ _) Hcomp).
Qed.

Lemma consistent_positive l : consistent l → positive_limits l.
Proof. intros [? ? ? ? ?]. unfold positive_limits. lia. Qed.

Lemma limits_validate_consistent l : consistent l → limits_validate l = Ok tt.
Proof. intros Hc. by apply limits_validate_ok; [apply consistent_positive|]. Qed.

(** ** The order of limits *)

Ltac fit_spec :=
  repeat match goal with
  | H : runtime_limits_fit _ _ = true |- _ => unfold runtime_limits_fit in H; rewrite !andb_true_iff, !N.leb_le in H
  | H : limits_fit _ _ = true |- _ => unfold limits_fit in H; rewrite !andb_true_iff, !N.leb_le in H
  | H : compilation_limits_fit _ _ = true |- _ => unfold compilation_limits_fit in H; rewrite !andb_true_iff, !N.leb_le in H
  end;
  unfold limits_fit, compilation_limits_fit, runtime_limits_fit; rewrite ?andb_true_iff, ?N.leb_le.

Lemma rt_fit_refl r : runtime_limits_fit r r = true.
Proof. fit_spec. split_and!; lia. Qed.

Lemma rt_fit_trans a b c : runtime_limits_fit a b = true → runtime_limits_fit b c = true → runtime_limits_fit a c = true.
Proof. intros Hab Hbc. fit_spec. split_and!; lia. Qed.

Lemma rt_fit_meet_l a b : runtime_limits_fit (intersect_runtime_limits a b) a = true.
Proof. fit_spec. cbn. split_and!; lia. Qed.

Lemma rt_meet_comm a b : intersect_runtime_limits a b = intersect_runtime_limits b a.
Proof. unfold intersect_runtime_limits. f_equal; lia. Qed.

Lemma rt_fit_meet_r a b : runtime_limits_fit (intersect_runtime_limits a b) b = true.
Proof. rewrite rt_meet_comm. apply rt_fit_meet_l. Qed.

Lemma rt_meet_greatest d a b :
  rt_consistent d → runtime_limits_fit d a = true → runtime_limits_fit d b = true →
  runtime_limits_fit d (intersect_runtime_limits a b) = true.
Proof. unfold rt_consistent. intros Hd Ha Hb. fit_spec. cbn. split_and!; lia. Qed.

Lemma rt_meet_consistent a b : rt_consistent (intersect_runtime_limits a b).
Proof. unfold rt_consistent. cbn. lia. Qed.

Lemma limits_fit_split a b :
  limits_fit a b = true ↔
  (sl_max_frame_bytes a ≤ sl_max_frame_bytes b ∧ sl_max_control_message_bytes a ≤ sl_max_control_message_bytes b ∧
   sl_max_bulk_bytes a ≤ sl_max_bulk_bytes b ∧
   sl_max_observation_envelope_bytes a ≤ sl_max_observation_envelope_bytes b ∧
   sl_max_visibility_entries a ≤ sl_max_visibility_entries b) ∧
  runtime_limits_fit (sl_runtime_limits a) (sl_runtime_limits b) = true.
Proof. unfold limits_fit. rewrite !andb_true_iff, !N.leb_le. tauto. Qed.

(** The limits negotiation chooses. *)
Definition limits_meet (a b : LocalSessionLimits) : LocalSessionLimits :=
  mkSessionLimits (N.min (sl_max_frame_bytes a) (sl_max_frame_bytes b))
    (N.min (sl_max_control_message_bytes a) (sl_max_control_message_bytes b))
    (N.min (sl_max_bulk_bytes a) (sl_max_bulk_bytes b))
    (N.min (sl_max_observation_envelope_bytes a) (sl_max_observation_envelope_bytes b))
    (N.min (sl_max_visibility_entries a) (sl_max_visibility_entries b))
    (intersect_runtime_limits (sl_runtime_limits a) (sl_runtime_limits b)).

Lemma limits_meet_consistent a b : consistent a → consistent b → consistent (limits_meet a b).
Proof.
  intros [? ? ? ? ?] [? ? ? ? ?]. unfold limits_meet. split; cbn; [lia..|apply rt_meet_consistent].
Qed.

Lemma limits_intersect_meet a b : consistent a → consistent b → limits_intersect a b = Ok (limits_meet a b).
Proof.
  intros Ha Hb. unfold limits_intersect. rewrite !limits_validate_consistent by done. cbn [out_bind].
  pose proof (limits_meet_consistent a b Ha Hb) as Hm. destruct Ha as [? ? ? ? ?], Hb as [? ? ? ? ?].
  rewrite (proj2 (checked_sub_Some _ _ (N.min (sl_max_frame_bytes a) (sl_max_frame_bytes b) - header_bytes_u64))) by lia.
  cbn [ok_or out_bind]. unfold non_zero. rewrite (proj2 (N.eqb_neq _ 0)) by lia. cbn [ok_or out_bind].
  match goal with |- context [mkSessionLimits ?f ?c ?u ?e ?v ?r] =>
    replace (mkSessionLimits f c u e v r) with (limits_meet a b) end.
  { by rewrite limits_validate_consistent. }
  unfold limits_meet. f_equal; [|lia]. cbn. lia.
Qed.

Lemma limits_from_config_consistent config l :
  limits_from_config config = Ok l → consistent l ∧ sl_runtime_limits l = frame_runtime_limits config.
Proof.
  unfold limits_from_config. intros Hl. inv_ok. subst l. repeat match goal with
  | H : non_zero ?v = Some ?w |- _ => unfold non_zero in H; destruct (N.eqb_spec v 0); [done|]; injection H as <- end.
  split; [|done]. match goal with x : () |- _ => destruct x end.
  apply limits_validate_ok; [|done]. unfold positive_limits. cbn. lia.
Qed.

(** Negotiated limits as a frame configuration, and back. *)
Lemma to_frame_config_ok l : consistent l → ∃ config, to_frame_config l = Ok config ∧ limits_from_config config = Ok l ∧
  frame_runtime_limits config = sl_runtime_limits l.
Proof.
  intros Hl. unfold to_frame_config. rewrite limits_validate_consistent by done. eexists. split; [done|]. split; [|done].
  unfold limits_from_config. cbn. pose proof Hl as [? ? ? ? ?].
  rewrite (proj2 (checked_sub_Some _ _ (sl_max_frame_bytes l - header_bytes_u64))) by lia. cbn [ok_or out_bind].
  rewrite (N.min_l (N.min _ _)), !N.min_r by lia. unfold non_zero.
  rewrite (proj2 (N.eqb_neq (sl_max_control_message_bytes l) 0)), (proj2 (N.eqb_neq (sl_max_bulk_bytes l) 0)) by lia.
  cbn [ok_or out_bind]. rewrite (proj2 (N.eqb_neq (sl_max_observation_envelope_bytes l) 0)) by lia. cbn [ok_or out_bind].
  destruct l. cbn in *. by rewrite limits_validate_consistent.
Qed.

(** Negotiation: for consistent limits of both peers, the intersection
    always exists, is consistent, does not depend on who proposes, fits both
    peers, is at least every consistent limit that fits both, and is described
    exactly by the frame configuration it is converted to. *)
Theorem negotiation_greatest (client : LocalSessionLimits) (config : LocalFrameConfig) (local : LocalSessionLimits) :
  consistent client → limits_from_config config = Ok local →
  ∃ chosen, limits_negotiate client config = Ok chosen ∧ limits_intersect local client = Ok chosen ∧
    consistent chosen ∧ limits_fit chosen client = true ∧ fits_within_config chosen config = Ok tt ∧
    (∀ l, consistent l → limits_fit l client = true → limits_fit l local = true → limits_fit l chosen = true) ∧
    ∃ frame_config, to_frame_config chosen = Ok frame_config ∧ limits_from_config frame_config = Ok chosen.
Proof.
  intros Hc Hl. destruct (limits_from_config_consistent config local Hl) as [Hlc _].
  pose proof (limits_meet_consistent client local Hc Hlc) as Hm. exists (limits_meet client local). split_and!.
  - unfold limits_negotiate. rewrite limits_validate_consistent by done. cbn [out_bind]. rewrite Hl. cbn [out_bind].
    by apply limits_intersect_meet.
  - rewrite limits_intersect_meet by done. f_equal. unfold limits_meet. f_equal; [lia..|apply rt_meet_comm].
  - done.
  - apply limits_fit_split. cbn. split; [lia|apply rt_fit_meet_l].
  - unfold fits_within_config. rewrite Hl. cbn [out_bind].
    rewrite (proj2 (limits_fit_split (limits_meet client local) local)); [done|]. cbn. split; [lia|apply rt_fit_meet_r].
  - intros l Hlc' [Ha Ha']%limits_fit_split [Hb Hb']%limits_fit_split. apply limits_fit_split. cbn.
    split; [lia|]. apply rt_meet_greatest; [apply Hlc'|done..].
  - destruct (to_frame_config_ok _ Hm) as (fc & ? & ? & _). by exists fc.
Qed.

Definition sample_session_limits : LocalSessionLimits :=
  mkSessionLimits 4096 2048 1024 512 16 runtime_limits_default.

Lemma negotiation_greatest_witness :
  ∃ chosen, limits_negotiate sample_session_limits frame_config_default = Ok chosen ∧ limits_fit chosen sample_session_limits = true.
Proof.
  destruct (negotiation_greatest sample_session_limits frame_config_default
    (mkSessionLimits 5242948 1048576 4194304 4194304 4096 runtime_limits_default)) as (c & H1 & _ & _ & H2 & _).
  - split; vm_compute; repeat split; discriminate.
  - vm_compute. reflexivity.
  - exists c. exact (conj H1 H2).
Defined.
