(* ===== verification/Session.v ===== *)
(** * Messages of a local session

    [cogniform-local-session] (message.rs, codec.rs): the versioned control
    messages of both directions, their validation, and the canonical codec that
    carries them in control frames.  The serde serialiser of a message is a
    parameter, as for compilation results ([SessionJson]). *)

From S2P Require Import Prelude Machine Ordering Floats Values Components Messages MessageSpec Imagination ImaginationSpec Codec Compilation Ecs WorldTypes Hierarchy Render World SceneSpec Hash Sha256 Compiler CompilerPlans CompilerReport CompilerOutcome Query Observation Transport SessionLimits CompilerTheorems.

Open Scope N_scope.

Definition LOCAL_SESSION_SCHEMA_VERSION : N := 1.
Definition LOCAL_SESSION_SCHEMA_VERSION_V2 : N := 2.

(** ** Messages *)

Record ClientHello := mkClientHello {
  ch_receive_limits : LocalSessionLimits;
  ch_compilation_receive_limits : option CompilationLimits;
}.

Inductive LocalSessionClientKind : Type :=
| CHello (hello : ClientHello)
| CSubmitPatch (patch : ScenePatch)
| CSubmitImagination (imagination : ImaginationEnvelope)
| CQuery (query : SceneQuery)
| CRequestObservation (request : ObservationRequest)
| CClose.

Record LocalSessionClientMessage := mkClientMessage {
  cm_schema_version : N;
  cm_message : LocalSessionClientKind;
}.

Record ServerHello := mkServerHello {
  sh_effective_limits : LocalSessionLimits;
  sh_effective_compilation_limits : option CompilationLimits;
}.

Inductive PatchAdmissionStatus : Type :=
| PaQueued
| PaAlreadyQueued
| PaSuperseded (superseded_idempotency_key : IdempotencyKey)
| PaDropped
| PaReplayed (receipt : ApplyReceipt).

Record PatchAdmission := mkPatchAdmission {
  pa_idempotency_key : IdempotencyKey;
  pa_status : PatchAdmissionStatus;
}.

Record ImaginationCompletion := mkImaginationCompletion {
  ic_imagination_id : ImaginationId;
  ic_idempotency_key : IdempotencyKey;
  ic_compilation : CompilationResult;
  ic_receipt : option ApplyReceipt;
}.

Inductive ImaginationAdmissionStatus : Type :=
| IaQueued
| IaAlreadyQueued
| IaSuperseded (superseded_idempotency_key : IdempotencyKey)
| IaDropped
| IaReplayed (completion : ImaginationCompletion).

Record ImaginationAdmission := mkImaginationAdmission {
  ia_imagination_id : ImaginationId;
  ia_idempotency_key : IdempotencyKey;
  ia_status : ImaginationAdmissionStatus;
}.

Record ObservationReference := mkObservationReference {
  oref_observation_id : ObservationId;
  oref_scene_revision : SceneRevision;
}.

Inductive SessionFailureCode : Type :=
| FcInvalidMessage
| FcUnsupportedVersion
| FcProtocolState
| FcLimitExceeded
| FcRevisionMismatch
| FcCapacityExceeded
| FcCommandRejected
| FcQueryRejected
| FcObservationRejected
| FcServiceUnavailable
| FcInternal.

Inductive LocalSessionServerKind : Type :=
| SHello (hello : ServerHello)
| SPatchAdmission (admission : PatchAdmission)
| SPatchCompleted (receipt : ApplyReceipt)
| SImaginationAdmission (admission : ImaginationAdmission)
| SImaginationCompleted (completion : ImaginationCompletion)
| SQueryResult (result : SceneQueryResult)
| SObservationAccepted (reference : ObservationReference)
| SObservationPending (reference : ObservationReference)
| SFailure (code : SessionFailureCode)
| SClosed.

Record LocalSessionServerMessage := mkServerMessage {
  sm_schema_version : N;
  sm_message : LocalSessionServerKind;
}.

(** ** Validation *)

(** [validate_version] and [require_v2]. *)
Definition validate_version (version : N) : outcome LocalSessionValidationError unit :=
  if (version =? LOCAL_SESSION_SCHEMA_VERSION) || (version =? LOCAL_SESSION_SCHEMA_VERSION_V2) then Ok tt
  else Err (session_error SvUnsupportedVersion "schema_version").

Definition require_v2 (version : N) (field : string) : outcome LocalSessionValidationError unit :=
  if version =? LOCAL_SESSION_SCHEMA_VERSION_V2 then Ok tt else Err (session_error SvInvalidVersionVariant field).

(** [validate_client_hello]. *)
Definition validate_client_hello (version : N) (hello : ClientHello) : outcome LocalSessionValidationError unit :=
  match ch_compilation_receive_limits hello with
  | None =>
      if version =? LOCAL_SESSION_SCHEMA_VERSION then Ok tt
      else Err (session_error SvInvalidVersionVariant "message.hello.compilation_receive_limits")
  | Some limits =>
      if version =? LOCAL_SESSION_SCHEMA_VERSION_V2 then
        do! validate_compilation_limits limits then
        guard_err (negb (runtime_limits_fit (cl_patch_limits limits) (sl_runtime_limits (ch_receive_limits hello))))
          (session_error SvInvalidCompilationLimits "message.hello.compilation_receive_limits.patch_limits")
      else Err (session_error SvInvalidVersionVariant "message.hello.compilation_receive_limits")
  end.

(** [validate_server_hello]. *)
Definition validate_server_hello (version : N) (hello : ServerHello) (available : CompilationLimits)
    : outcome LocalSessionValidationError unit :=
  match sh_effective_compilation_limits hello with
  | None =>
      if version =? LOCAL_SESSION_SCHEMA_VERSION then Ok tt
      else Err (session_error SvInvalidVersionVariant "message.hello.effective_compilation_limits")
  | Some limits =>
      if version =? LOCAL_SESSION_SCHEMA_VERSION_V2 then
        do! validate_compilation_limits limits then
        guard_err (negb (compilation_limits_fit limits available
                         && runtime_limits_fit (cl_patch_limits limits) (sl_runtime_limits (sh_effective_limits hello))))
          (session_error SvInvalidCompilationLimits "message.hello.effective_compilation_limits")
      else Err (session_error SvInvalidVersionVariant "message.hello.effective_compilation_limits")
  end.

(** [PatchAdmission::validate]. *)
Definition patch_admission_validate (a : PatchAdmission) (limits : RuntimeLimits)
    : outcome LocalSessionValidationError unit :=
  match pa_status a with
  | PaSuperseded superseded =>
      guard_err (superseded =? pa_idempotency_key a)
        (session_error SvInvalidPatchAdmission
           "message.patch_admission.status.superseded.superseded_idempotency_key")
  | PaReplayed receipt =>
      do! map_err (session_protocol_error "message.patch_admission.status.replayed.receipt")
        (receipt_validate receipt limits) then
      guard_err (negb (bool_decide (receipt_status receipt = IdempotentReplay))
                 || negb (receipt_idempotency_key receipt =? pa_idempotency_key a))
        (session_error SvInvalidPatchAdmission "message.patch_admission.status.replayed.receipt")
  | _ => Ok tt
  end.

Definition invalid_imagination_completion (field : string) : LocalSessionValidationError :=
  session_error SvInvalidImaginationCompletion field.

Section messages.
Context `{ResultJson}.

(** [ImaginationCompletion::validate]. *)
Definition imagination_completion_validate (c : ImaginationCompletion) (runtime_limits : RuntimeLimits)
    (compilation_limits : CompilationLimits) (expected_status : ApplyStatus)
    : outcome LocalSessionValidationError unit :=
  do! map_err (λ _, session_error SvInvalidCompilationResult "message.imagination_completed.compilation")
    (result_encode (ic_compilation c) compilation_limits) then
  do! guard_err (negb (cr_imagination_id (ic_compilation c) =? ic_imagination_id c))
    (invalid_imagination_completion "message.imagination_completed.imagination_id") then
  match cr_patch (ic_compilation c), ic_receipt c with
  | Some patch, Some receipt =>
      do! map_err (session_protocol_error "message.imagination_completed.receipt")
        (receipt_validate receipt runtime_limits) then
      let operation_count := len_or_max u32_max (length (patch_operations patch)) in
      guard_err (negb (bool_decide (receipt_status receipt = expected_status))
                 || negb (ic_idempotency_key c =? patch_idempotency_key patch)
                 || negb (receipt_idempotency_key receipt =? ic_idempotency_key c)
                 || negb (receipt_transaction_id receipt =? patch_transaction_id patch)
                 || negb (receipt_previous_revision receipt =? cr_scene_revision (ic_compilation c))
                 || negb (patch_base_revision patch =? cr_scene_revision (ic_compilation c))
                 || negb (receipt_operation_count receipt =? operation_count))
        (invalid_imagination_completion "message.imagination_completed.receipt")
  | None, None => Ok tt
  | _, _ => Err (invalid_imagination_completion "message.imagination_completed.receipt")
  end.

(** [ImaginationAdmission::validate]. *)
Definition imagination_admission_validate (a : ImaginationAdmission) (runtime_limits : RuntimeLimits)
    (compilation_limits : CompilationLimits) : outcome LocalSessionValidationError unit :=
  match ia_status a with
  | IaSuperseded superseded =>
      guard_err (superseded =? ia_idempotency_key a)
        (session_error SvInvalidImaginationAdmission
           "message.imagination_admission.status.superseded.superseded_idempotency_key")
  | IaReplayed completion =>
      do! guard_err (negb (ic_imagination_id completion =? ia_imagination_id a)
                     || negb (ic_idempotency_key completion =? ia_idempotency_key a))
        (session_error SvInvalidImaginationAdmission "message.imagination_admission.status.replayed.completion") then
      imagination_completion_validate completion runtime_limits compilation_limits IdempotentReplay
  | _ => Ok tt
  end.

(** [<LocalSessionClientMessage as SessionValidate>::validate]. *)
Definition client_validate (m : LocalSessionClientMessage) (config : LocalFrameConfig)
    (compilation_limits : option CompilationLimits) : outcome LocalSessionValidationError unit :=
  do! validate_version (cm_schema_version m) then
  let limits := frame_runtime_limits config in
  match cm_message m with
  | CHello hello =>
      do! limits_validate (ch_receive_limits hello) then
      validate_client_hello (cm_schema_version m) hello
  | CSubmitPatch patch =>
      map_err (session_protocol_error "message.submit_patch.patch") (patch_validate patch limits)
  | CSubmitImagination imagination =>
      do! require_v2 (cm_schema_version m) "message.submit_imagination" then
      map_err (session_protocol_error "message.submit_imagination.imagination") (imagination_validate imagination limits)
  | CQuery query => map_err (session_protocol_error "message.query.query") (query_validate query limits)
  | CRequestObservation request =>
      map_err (session_protocol_error "message.request_observation.request") (observation_request_validate request limits)
  | CClose => Ok tt
  end.

(** Messages that need negotiated compilation limits in version two. *)
Definition requires_compilation_limits (m : LocalSessionServerKind) : bool :=
  match m with
  | SHello _ | SImaginationCompleted _ => true
  | SImaginationAdmission a => match ia_status a with IaReplayed _ => true | _ => false end
  | _ => false
  end.

(** [<LocalSessionServerMessage as SessionValidate>::validate]. *)
Definition server_validate (m : LocalSessionServerMessage) (config : LocalFrameConfig)
    (compilation_limits : option CompilationLimits) : outcome LocalSessionValidationError unit :=
  do! validate_version (sm_schema_version m) then
  do! guard_err ((sm_schema_version m =? LOCAL_SESSION_SCHEMA_VERSION_V2)
                 && negb (is_some compilation_limits) && requires_compilation_limits (sm_message m))
    (session_error SvInvalidCompilationLimits "message.version_two.explicit_compilation_limits") then
  let limits := frame_runtime_limits config in
  let compilation_limits := default (for_runtime_limits limits) compilation_limits in
  do! validate_compilation_limits compilation_limits then
  match sm_message m with
  | SHello hello =>
      do! limits_validate (sh_effective_limits hello) then
      do! fits_within_config (sh_effective_limits hello) config then
      validate_server_hello (sm_schema_version m) hello compilation_limits
  | SPatchAdmission admission => patch_admission_validate admission limits
  | SPatchCompleted receipt =>
      do! map_err (session_protocol_error "message.patch_completed.receipt") (receipt_validate receipt limits) then
      guard_err (negb (bool_decide (receipt_status receipt = Applied)))
        (session_error SvInvalidPatchCompletion "message.patch_completed.receipt.status")
  | SImaginationAdmission admission =>
      do! require_v2 (sm_schema_version m) "message.imagination_admission" then
      imagination_admission_validate admission limits compilation_limits
  | SImaginationCompleted completion =>
      do! require_v2 (sm_schema_version m) "message.imagination_completed" then
      imagination_completion_validate completion limits compilation_limits Applied
  | SQueryResult result =>
      map_err (session_protocol_error "message.query_result.result") (query_result_validate result limits)
  | SObservationAccepted _ | SObservationPending _ | SFailure _ | SClosed => Ok tt
  end.

End messages.

(** ** Codec *)

Inductive LocalSessionError : Type :=
| LsInvalidConfig
| LsMessageLimitExceeded (actual limit : N)
| LsNestingLimitExceeded (actual limit : N)
| LsMalformedJson (category : JsonErrorCategory) (line column : N)
| LsInvalidMessage (error : LocalSessionValidationError)
| LsNonCanonicalMessage
| LsWrongDirection
| LsWrongFrameKind
| LsAllocationFailed
| LsSerializationFailed.

(** [serde_json] for one message type: the writes [to_writer] makes, whether it
    then fails by itself, and the parser of a slice. *)
Class SessionJson (T : Type) := {
  sj_writes : T → list bytes;
  sj_fails : T → bool;
  sj_parse : bytes → outcome JsonError T;
}.

(** [enforce_size]. *)
Definition session_enforce_size (actual : nat) (limit : N) : outcome LocalSessionError unit :=
  let actual := len_or_max u64_max actual in
  guard_err (limit <? actual) (LsMessageLimitExceeded actual limit).

(** [enforce_nesting] of this crate, the same scanner with its own error. *)
Definition session_enforce_nesting (encoded : bytes) (limits : RuntimeLimits) : outcome LocalSessionError unit :=
  match out_fold (nesting_step (max_json_nesting_depth limits)) (mkScan 0 false false) encoded with
  | Ok _ => Ok tt
  | Err (NestingLimitExceeded actual limit) => Err (LsNestingLimitExceeded actual limit)
  | Err _ | Panic => Panic
  | OutOfFuel => OutOfFuel
  end.

(** [effective_message_limit]. *)
Definition effective_message_limit (config : LocalFrameConfig) : outcome LocalSessionError N :=
  let! body := ok_or (checked_sub (max_frame_bytes (frame_limits config)) header_bytes_u64) LsInvalidConfig in
  let limit := N.min (N.min body (max_control_bytes (frame_limits config)))
    (max_encoded_bytes (frame_runtime_limits config)) in
  if limit =? 0 then Err LsInvalidConfig else Ok limit.

(** [preflight]. *)
Definition session_preflight (encoded : bytes) (config : LocalFrameConfig) : outcome LocalSessionError N :=
  let! limit := effective_message_limit config in
  do! session_enforce_size (length encoded) limit then
  do! session_enforce_nesting encoded (frame_runtime_limits config) then
  Ok limit.

(** [<BoundedWriter as Write>::write] and [BoundedWriter::push_lf]; allocation succeeds. *)
Definition session_bounded_write (limit : N) (written chunk : bytes) : outcome LocalSessionError bytes :=
  let actual := sat_add64 (len_or_max u64_max (length written)) (len_or_max u64_max (length chunk)) in
  do! guard_err (limit <? actual) (LsMessageLimitExceeded (sat_add64 actual 1) (sat_add64 limit 1)) then
  Ok (written ++ chunk).

Definition session_push_lf (written : bytes) (complete_limit : N) : outcome LocalSessionError bytes :=
  do! session_enforce_size (length written + 1) complete_limit then
  Ok (written ++ [x0a]).

Section codec.
Context {T : Type} `{SessionJson T} (session_validate : T → LocalFrameConfig → option CompilationLimits →
  outcome LocalSessionValidationError unit).

(** [encode_validated]. *)
Definition session_encode_validated (value : T) (limit : N) : outcome LocalSessionError bytes :=
  let! written := out_fold (session_bounded_write (limit - 1)) [] (sj_writes value) in
  do! guard_err (sj_fails value) LsSerializationFailed then
  session_push_lf written limit.

(** [encode]. *)
Definition session_encode (value : T) (config : LocalFrameConfig) (compilation_limits : option CompilationLimits)
    : outcome LocalSessionError bytes :=
  do! map_err LsInvalidMessage (session_validate value config compilation_limits) then
  let! limit := effective_message_limit config in
  let! encoded := session_encode_validated value limit in
  do! session_enforce_nesting encoded (frame_runtime_limits config) then
  Ok encoded.

(** [decode]. *)
Definition session_decode (encoded : bytes) (config : LocalFrameConfig) (compilation_limits : option CompilationLimits)
    : outcome LocalSessionError T :=
  let! limit := session_preflight encoded config in
  let! value := map_err (λ e, LsMalformedJson (je_category e) (je_line e) (je_column e)) (sj_parse encoded) in
  do! map_err LsInvalidMessage (session_validate value config compilation_limits) then
  let! canonical := session_encode_validated value limit in
  do! guard_err (negb (bool_decide (canonical = encoded))) LsNonCanonicalMessage then
  Ok value.

(** [decode_client_message] and [decode_server_message]: the wrong direction first. *)
Definition decode_direction {U : Type} `{SessionJson U} (encoded : bytes) (config : LocalFrameConfig)
    (compilation_limits : option CompilationLimits) : outcome LocalSessionError T :=
  do! session_preflight encoded config then
  do! guard_err (is_ok (sj_parse (T:=U) encoded)) LsWrongDirection then
  session_decode encoded config compilation_limits.

(** ** The codec is exact *)

(** What the codec relies on of the serialiser: a valid message that is written
    without a failure parses back when a newline follows it and does not parse
    as a message of the other direction, and parsing returns. *)
Class SessionJsonLaws (U : Type) `{SessionJson U} : Prop := {
  sj_round_trip : ∀ v config cl, session_validate v config cl = Ok tt → sj_fails v = false →
    sj_parse (mjoin (sj_writes v) ++ [x0a]) = Ok v;
  sj_parse_normal : ∀ b, normal (sj_parse (T:=T) b);
  sj_directed : ∀ v config cl, session_validate v config cl = Ok tt → sj_fails v = false →
    is_ok (sj_parse (T:=U) (mjoin (sj_writes v) ++ [x0a])) = false;
}.

Lemma session_writes_ok limit l w0 w1 :
  out_fold (session_bounded_write limit) w0 l = Ok w1 → w1 = w0 ++ mjoin l.
Proof.
  revert w0. induction l as [|c l IH]; intros w0; cbn [out_fold]; [intros <-%Ok_inj; by rewrite app_nil_r|].
  intros (w2 & Hw2 & Hrest)%out_bind_ok. unfold session_bounded_write in Hw2.
  apply out_bind_ok in Hw2 as ([] & _ & [= <-]). apply IH in Hrest as ->. by rewrite <-app_assoc.
Qed.

Lemma session_encode_validated_ok v limit b :
  session_encode_validated v limit = Ok b →
  b = mjoin (sj_writes v) ++ [x0a] ∧ sj_fails v = false ∧ session_enforce_size (length b) limit = Ok tt.
Proof.
  unfold session_encode_validated. intros He. apply out_bind_ok in He as (w & Hw & He).
  apply out_bind_ok in He as ([] & Hf%guard_err_ok & He). unfold session_push_lf in He.
  apply out_bind_ok in He as ([] & Hs & <-%Ok_inj).
  apply session_writes_ok in Hw. cbn [app] in Hw. subst w. split_and!; [done..|]. by rewrite length_app.
Qed.

Lemma session_encode_ok v config cl b :
  session_encode v config cl = Ok b ↔
  session_validate v config cl = Ok tt ∧ ∃ limit, effective_message_limit config = Ok limit ∧
    session_encode_validated v limit = Ok b ∧ session_enforce_nesting b (frame_runtime_limits config) = Ok tt.
Proof.
  unfold session_encode. split.
  - intros He. inv_ok. repeat match goal with x : () |- _ => destruct x end. subst. split; [done|]. by eexists.
  - intros (Hv & limit & Hl & He & Hn). rewrite Hv. cbn [map_err out_bind]. rewrite Hl. cbn [out_bind]. rewrite He.
    cbn [out_bind]. by rewrite Hn.
Qed.

(** Decoding accepts exactly what encoding writes. *)
Lemma session_decode_exact {U : Type} `{SessionJsonLaws U} v config cl b :
  decode_direction (U:=U) b config cl = Ok v ↔ session_encode v config cl = Ok b.
Proof.
  rewrite session_encode_ok. unfold decode_direction, session_decode, session_preflight. split.
  - intros Hd. inv_ok. repeat match goal with x : () |- _ => destruct x end. subst v.
    rename select (negb (bool_decide _) = false) into Hc. apply negb_false_iff, bool_decide_eq_true in Hc. subst.
    repeat match goal with H1 : effective_message_limit config = Ok ?a, H2 : effective_message_limit config = Ok ?b |- _ =>
      rewrite H1 in H2; apply Ok_inj in H2; subst end.
    split; [done|]. by eexists.
  - intros (Hv & limit & Hl & He & Hn). rewrite Hl. cbn [out_bind].
    destruct (session_encode_validated_ok v limit b He) as (Hb & Hf & Hs). rewrite Hs. cbn [out_bind]. rewrite Hn. cbn [out_bind].
    rewrite Hb at 1. rewrite (sj_directed _ _ _ Hv Hf). cbn [guard_err out_bind]. rewrite Hb at 1. rewrite (sj_round_trip _ _ _ Hv Hf).
    cbn [map_err out_bind]. rewrite Hv. cbn [map_err out_bind]. rewrite He. cbn [out_bind].
    by rewrite bool_decide_true by done.
Qed.

(** A message that encodes fits in a control frame of its configuration. *)
Lemma session_message_fits `{Digest} `{JsonCodec ObservationMetadata} v config cl b correlation :
  max_frame_bytes (frame_limits config) ≤ u64_max → session_encode v config cl = Ok b →
  is_ok (encode_frame (FControl correlation b) config) = true.
Proof.
  intros Hmax (_ & limit & Hl & He & _)%session_encode_ok.
  apply session_encode_validated_ok in He as (Hb & _ & Hs). unfold session_enforce_size in Hs. apply guard_err_ok, N.ltb_ge in Hs.
  unfold effective_message_limit in Hl. apply out_bind_ok in Hl as (body & Hbody%ok_or_ok%checked_sub_Some & Hl).
  destruct (_ =? 0); [done|]. apply Ok_inj in Hl. rewrite len_or_max_min in Hs. change header_bytes_u64 with 68 in *.
  unfold encode_frame, encode_sections. rewrite !len_or_max_min. cbn [length].
  rewrite N.min_r by lia. unfold validate_layout.
  rewrite (proj2 (N.eqb_neq (N.of_nat (length b)) 0)) by (rewrite Hb, length_app; cbn; lia).
  cbn [negb]. change (N.min u64_max (N.of_nat 0)) with 0. cbn [N.eqb negb out_bind].
  rewrite (proj2 (validate_lengths_ok (N.of_nat (length b)) 0 config (68 + N.of_nat (length b) + 0))); [done|].
  split_and!; lia || done.
Qed.

End codec.

(** ** The two directions *)

Section directions.
Context `{ResultJson} `{SessionJson LocalSessionClientMessage} `{SessionJson LocalSessionServerMessage}.

Definition encode_client_message (m : LocalSessionClientMessage) (config : LocalFrameConfig)
    (compilation_limits : option CompilationLimits) : outcome LocalSessionError bytes :=
  session_encode client_validate m config compilation_limits.

Definition decode_client_message (encoded : bytes) (config : LocalFrameConfig)
    (compilation_limits : option CompilationLimits) : outcome LocalSessionError LocalSessionClientMessage :=
  decode_direction client_validate (U:=LocalSessionServerMessage) encoded config compilation_limits.

Definition encode_server_message (m : LocalSessionServerMessage) (config : LocalFrameConfig)
    (compilation_limits : option CompilationLimits) : outcome LocalSessionError bytes :=
  session_encode server_validate m config compilation_limits.

Definition decode_server_message (encoded : bytes) (config : LocalFrameConfig)
    (compilation_limits : option CompilationLimits) : outcome LocalSessionError LocalSessionServerMessage :=
  decode_direction server_validate (U:=LocalSessionClientMessage) encoded config compilation_limits.

Definition client_control_frame (correlation : N) (m : LocalSessionClientMessage) (config : LocalFrameConfig)
    (compilation_limits : option CompilationLimits) : outcome LocalSessionError LocalFrame :=
  let! encoded := encode_client_message m config compilation_limits in Ok (FControl correlation encoded).

Definition decode_client_control_frame (frame : LocalFrame) (config : LocalFrameConfig)
    (compilation_limits : option CompilationLimits) : outcome LocalSessionError (N * LocalSessionClientMessage) :=
  match frame with
  | FControl correlation encoded =>
      let! message := decode_client_message encoded config compilation_limits in Ok (correlation, message)
  | FObservation _ _ _ => Err LsWrongFrameKind
  end.

Definition server_control_frame (correlation : N) (m : LocalSessionServerMessage) (config : LocalFrameConfig)
    (compilation_limits : option CompilationLimits) : outcome LocalSessionError LocalFrame :=
  let! encoded := encode_server_message m config compilation_limits in Ok (FControl correlation encoded).

Definition decode_server_control_frame (frame : LocalFrame) (config : LocalFrameConfig)
    (compilation_limits : option CompilationLimits) : outcome LocalSessionError (N * LocalSessionServerMessage) :=
  match frame with
  | FControl correlation encoded =>
      let! message := decode_server_message encoded config compilation_limits in Ok (correlation, message)
  | FObservation _ _ _ => Err LsWrongFrameKind
  end.

End directions.

(** ** No panics *)

Lemma query_result_validate_normal r limits : normal (query_result_validate r limits).
Proof.
  unfold query_result_validate. apply out_bind_normal; [unfold validate_schema; by destruct (_ =? _)|]. intros _ _.
  apply out_bind_normal; [apply guard_err_normal|]. intros _ _.
  apply out_bind_normal; [|intros [[? ?] ?] _; solve_normal].
  apply (out_fold_normal _ (λ _, True)); [|done..]. intros e [[? ?] ?] _ _. unfold result_entity_step. solve_normal.
  apply (out_fold_normal _ (λ _, True)); [|done..]. intros c [[? ?] ?] _ _. unfold result_component_step. solve_normal.
  apply component_validate_normal.
Qed.

Lemma validate_compilation_limits_normal l : normal (validate_compilation_limits l).
Proof. apply guard_err_normal. Qed.

Lemma limits_validate_normal l : normal (limits_validate l).
Proof. unfold limits_validate. solve_normal. Qed.

#[local] Hint Resolve query_result_validate_normal validate_compilation_limits_normal limits_validate_normal
  patch_validate_normal imagination_validate_normal query_validate_normal observation_request_validate_normal
  receipt_validate_normal : outcome.

Lemma limits_from_config_normal c : normal (limits_from_config c).
Proof. unfold limits_from_config. solve_normal. Qed.

Lemma validate_version_normal v : normal (validate_version v).
Proof. unfold validate_version. solve_normal. Qed.
Lemma require_v2_normal v f : normal (require_v2 v f).
Proof. unfold require_v2. solve_normal. Qed.

#[local] Hint Resolve limits_from_config_normal validate_version_normal require_v2_normal : outcome.

Lemma client_validate_normal m config cl : normal (client_validate m config cl).
Proof. unfold client_validate, validate_client_hello. solve_normal. Qed.

Lemma result_encode_normal `{ResultJson} `{Digest} r limits : normal (result_encode r limits).
Proof.
  unfold result_encode. apply out_bind_normal; [apply map_err_normal, result_validate_normal|]. intros _ _.
  apply encode_validated_normal.
Qed.

Lemma imagination_completion_validate_normal `{ResultJson} `{Digest} c rl cl st :
  normal (imagination_completion_validate c rl cl st).
Proof.
  unfold imagination_completion_validate. apply out_bind_normal; [apply map_err_normal, result_encode_normal|]. intros _ _.
  solve_normal.
Qed.

Lemma server_validate_normal `{ResultJson} `{Digest} m config cl : normal (server_validate m config cl).
Proof.
  unfold server_validate. apply out_bind_normal; [apply validate_version_normal|]. intros _ _.
  apply out_bind_normal; [apply guard_err_normal|]. intros _ _.
  apply out_bind_normal; [apply validate_compilation_limits_normal|]. intros _ _.
  destruct (sm_message m) as [hello|a| |a| | | | | |]; unfold fits_within_config, validate_server_hello,
    patch_admission_validate, imagination_admission_validate; solve_normal.
  all: apply imagination_completion_validate_normal.
Qed.

Lemma session_enforce_nesting_normal b limits : normal (session_enforce_nesting b limits).
Proof.
  unfold session_enforce_nesting.
  pose proof (nesting_scan_normal (max_json_nesting_depth limits) (mkScan 0 false false) b) as Hn.
  destruct (out_fold _ _ _) as [|e| |] eqn:He; try done. by apply nesting_scan_errors in He as (? & ? & ->).
Qed.

Lemma effective_message_limit_normal config : normal (effective_message_limit config).
Proof. unfold effective_message_limit. solve_normal. Qed.

#[local] Hint Resolve session_enforce_nesting_normal effective_message_limit_normal : outcome.

Section normals.
Context {T : Type} `{SessionJson T} (session_validate : T → LocalFrameConfig → option CompilationLimits →
  outcome LocalSessionValidationError unit).
Hypothesis validate_returns : ∀ v config cl, normal (session_validate v config cl).

Lemma session_encode_validated_normal (v : T) limit : normal (session_encode_validated v limit).
Proof.
  unfold session_encode_validated, session_push_lf, session_enforce_size. solve_normal.
  apply (out_fold_normal _ (λ _, True)); [|done..]. intros c w _ _. unfold session_bounded_write. solve_normal.
Qed.
#[local] Hint Resolve session_encode_validated_normal : outcome.

Lemma session_encode_normal v config cl : normal (session_encode session_validate v config cl).
Proof. unfold session_encode. solve_normal. Qed.

Lemma decode_direction_normal {U : Type} `{SessionJson U} b config cl :
  (∀ b, normal (sj_parse (T:=T) b)) → normal (decode_direction session_validate (U:=U) b config cl).
Proof.
  intros Hp. unfold decode_direction, session_decode, session_preflight, session_enforce_size. solve_normal.
Qed.

End normals.

Section claims.
Context `{Digest} `{ResultJson} `{!JsonCodec ObservationMetadata} `{!JsonCodecLaws ObservationMetadata}.
Context `{SessionJson LocalSessionClientMessage} `{SessionJson LocalSessionServerMessage}.
Context `{!SessionJsonLaws client_validate LocalSessionServerMessage}.
Context `{!SessionJsonLaws server_validate LocalSessionClientMessage}.

(** C32. Session messages: in both directions decoding accepts exactly the bytes
    encoding writes and gives the message back, and neither panics; a message
    that encodes always fits a frame of its configuration, and the framed bytes
    decode to the same frame and the same message. *)
Theorem session_codec_exact (config : LocalFrameConfig) (limits : option CompilationLimits) :
  max_frame_bytes (frame_limits config) ≤ u64_max →
  nesting_room ObservationMetadata (frame_runtime_limits config) →
  (∀ b m, decode_client_message b config limits = Ok m ↔ encode_client_message m config limits = Ok b) ∧
  (∀ b m, decode_server_message b config limits = Ok m ↔ encode_server_message m config limits = Ok b) ∧
  (∀ b m n, normal (decode_client_message b config limits) ∧ normal (encode_client_message m config limits) ∧
     normal (decode_server_message b config limits) ∧ normal (encode_server_message n config limits)) ∧
  (∀ correlation m f, 0 < correlation ≤ u64_max → server_control_frame correlation m config limits = Ok f →
     ∃ e, encode_frame f config = Ok e ∧ decode_frame e config = Ok f ∧
       decode_server_control_frame f config limits = Ok (correlation, m)) ∧
  (∀ correlation m f, 0 < correlation ≤ u64_max → client_control_frame correlation m config limits = Ok f →
     ∃ e, encode_frame f config = Ok e ∧ decode_frame e config = Ok f ∧
       decode_client_control_frame f config limits = Ok (correlation, m)).
Proof.
  intros Hmax Hroom.
  assert (∀ correlation b, 0 < correlation ≤ u64_max → is_ok (encode_frame (FControl correlation b) config) = true →
    ∃ e, encode_frame (FControl correlation b) config = Ok e ∧ decode_frame e config = Ok (FControl correlation b)) as Hframe.
  { intros c b Hc Hok. destruct (encode_frame (FControl c b) config) as [e| | |] eqn:He; try done. exists e. split; [done|].
    apply decode_encode_frame; [done| |by split; [split|]].
    by apply (encode_frame_length (FControl c b) config e Hroom); [split|]. }
  split_and!.
  - intros b m. exact (session_decode_exact client_validate m config limits b).
  - intros b m. exact (session_decode_exact server_validate m config limits b).
  - intros b m n. split_and!.
    + apply decode_direction_normal; [intros; apply client_validate_normal|].
      apply (sj_parse_normal client_validate (U:=LocalSessionServerMessage)).
    + apply session_encode_normal. intros; apply client_validate_normal.
    + apply decode_direction_normal; [intros; apply server_validate_normal|].
      apply (sj_parse_normal server_validate (U:=LocalSessionClientMessage)).
    + apply session_encode_normal. intros; apply server_validate_normal.
  - intros c m f Hc Hf. unfold server_control_frame in Hf. apply out_bind_ok in Hf as (b & Hb & <-%Ok_inj).
    destruct (Hframe c b Hc) as (e & He & Hd); [exact (session_message_fits server_validate m config limits b c Hmax Hb)|]. exists e. split_and!; [done..|].
    cbn [decode_server_control_frame].
    apply (session_decode_exact server_validate m config limits b) in Hb. unfold decode_server_message. by rewrite Hb.
  - intros c m f Hc Hf. unfold client_control_frame in Hf. apply out_bind_ok in Hf as (b & Hb & <-%Ok_inj).
    destruct (Hframe c b Hc) as (e & He & Hd); [exact (session_message_fits client_validate m config limits b c Hmax Hb)|]. exists e. split_and!; [done..|].
    cbn [decode_client_control_frame].
    apply (session_decode_exact client_validate m config limits b) in Hb. unfold decode_client_message. by rewrite Hb.
Qed.

End claims.

(** ** A sample session

    The orderly close of both versions: the serialiser writes these messages as
    the fixtures of the crate's tests have them and fails on any other. *)

Definition session_text (version : N) (body : string) : bytes :=
  json_text (if version =? 1 then "{'schema_version':1,'message':{'" else "{'schema_version':2,'message':{'")
  ++ bytes_of_string body ++ json_text "':{}}}".

Definition session_table {T : Type} (body : string) (make : N → T) (encoded : bytes) : outcome JsonError T :=
  if decide (encoded = session_text 1 body ++ [x0a]) then Ok (make 1)
  else if decide (encoded = session_text 2 body ++ [x0a]) then Ok (make 2)
  else Err (mkJsonError JSyntax 1 1).

#[local] Instance sample_client_json : SessionJson LocalSessionClientMessage := {|
  sj_writes m := [session_text (cm_schema_version m) "close"];
  sj_fails m := negb (match cm_message m with CClose => true | _ => false end);
  sj_parse := session_table "close" (λ v, mkClientMessage v CClose);
|}.

#[local] Instance sample_server_json : SessionJson LocalSessionServerMessage := {|
  sj_writes m := [session_text (sm_schema_version m) "closed"];
  sj_fails m := negb (match sm_message m with SClosed => true | _ => false end);
  sj_parse := session_table "closed" (λ v, mkServerMessage v SClosed);
|}.

Lemma session_table_normal {T} body (make : N → T) b : normal (session_table body make b).
Proof. unfold session_table. by repeat case_decide. Qed.

Lemma validate_version_cases v : validate_version v = Ok tt → v = 1 ∨ v = 2.
Proof.
  unfold validate_version, LOCAL_SESSION_SCHEMA_VERSION, LOCAL_SESSION_SCHEMA_VERSION_V2.
  destruct (N.eqb_spec v 1); [by left|]. destruct (N.eqb_spec v 2); [by right|done].
Qed.

#[local] Existing Instances sample_result_json metadata_codec metadata_codec_laws sha256_instance.

#[local] Instance sample_client_laws : SessionJsonLaws client_validate LocalSessionServerMessage.
Proof.
  split; [|apply session_table_normal|].
  all: intros [v k] config cl Hv Hf; apply out_bind_ok in Hv as ([] & Hv%validate_version_cases & _).
  all: destruct k; try discriminate Hf; cbn in Hv; destruct Hv as [->| ->]; vm_compute; reflexivity.
Qed.

#[local] Instance sample_server_laws : SessionJsonLaws server_validate LocalSessionClientMessage.
Proof.
  split; [|apply session_table_normal|].
  all: intros [v k] config cl Hv Hf; apply out_bind_ok in Hv as ([] & Hv%validate_version_cases & _).
  all: destruct k; try discriminate Hf; cbn in Hv; destruct Hv as [->| ->]; vm_compute; reflexivity.
Qed.

Lemma session_codec_exact_witness :
  decode_client_message (session_text 1 "close" ++ [x0a]) frame_config_default None = Ok (mkClientMessage 1 CClose).
Proof.
  destruct (session_codec_exact frame_config_default None) as [Hc _]; [vm_compute; discriminate|exact frame_nesting_room|].
  apply Hc. vm_compute. reflexivity.
Defined.
