(* ===== verification/Executor.v ===== *)
(** * The local session executor

    [cogniform-local-executor] (executor.rs, error.rs): the caller-driven state
    machine that serves one session.  It decodes client frames, admits commands
    and observations to a service, and answers with correlated frames.  The
    service is the class [SessionService], the trait of the source; a method
    that takes [&mut self] is an [exec] computation, whose state on an error is
    the one the failing statement left. *)

From S2P Require Import Prelude Machine Ordering Floats Values Components Messages MessageSpec Imagination ImaginationSpec Codec Compilation Ecs WorldTypes Hierarchy Render World SceneSpec Hash Compiler CompilerReport CompilerOutcome Recovery Engine Query Gateway Observation Transport SessionLimits Session.

Open Scope N_scope.

Definition MAX_OUTPUT_FRAMES_PER_CALL : nat := 2.

(** ** Configuration, phases and errors *)

Record LocalExecutorConfig := mkExecutorConfig {
  xc_receive_config : LocalFrameConfig;
  xc_compilation_limits : CompilationLimits;
  xc_max_live_correlations : N;
  xc_max_output_frames_per_call : N;
}.

(** [LocalExecutorConfig::default]. *)
Definition executor_config_default : LocalExecutorConfig :=
  mkExecutorConfig frame_config_default (for_runtime_limits runtime_limits_default) 1024
    (N.of_nat MAX_OUTPUT_FRAMES_PER_CALL).

Inductive LocalExecutorPhase : Type := PhaseAwaitingHello | PhaseActive | PhaseClosed.

Record LocalExecutorStatus := mkExecutorStatus {
  xs_phase : LocalExecutorPhase;
  xs_live_correlations : N;
  xs_live_correlation_capacity : N;
  xs_max_output_frames_per_call : N;
  xs_pending_patches : N;
  xs_pending_imaginations : N;
  xs_pending_observations : N;
}.

Inductive LocalExecutorError : Type :=
| XInvalidConfig (reason : string)
| XServiceNotQuiescent (commands observations : N)
| XOutputRejected
| XStateInvariant (reason : string).

(** What the session negotiated. *)
Record Negotiated := mkNegotiated {
  ng_schema_version : N;
  ng_limits : LocalSessionLimits;
  ng_compilation_limits : option CompilationLimits;
  ng_frame_config : LocalFrameConfig;
}.

Inductive SessionState : Type :=
| AwaitingHello
| Active (n : Negotiated)
| Closed (n : Negotiated).

Record SessionOutputContext := mkContext {
  cx_schema_version : N;
  cx_frame_config : LocalFrameConfig;
  cx_compilation_limits : option CompilationLimits;
}.

(** ** Pending work *)

Record SubmittedImagination := mkSubmitted {
  si_imagination_id : ImaginationId;
  si_transaction_id : TransactionId;
  si_idempotency_key : IdempotencyKey;
  si_base_revision : SceneRevision;
}.

#[export] Instance SubmittedImagination_eq_dec : EqDecision SubmittedImagination.
Proof. solve_decision. Defined.

(** [SubmittedImagination::from_envelope]. *)
Definition from_envelope (i : ImaginationEnvelope) : SubmittedImagination :=
  mkSubmitted (im_imagination_id i) (im_transaction_id i) (im_idempotency_key i) (im_base_revision i).

Inductive PendingCommandKind : Type :=
| PkPatch
| PkImagination (submitted : SubmittedImagination).

#[export] Instance PendingCommandKind_eq_dec : EqDecision PendingCommandKind.
Proof. solve_decision. Defined.
#[export] Instance LocalExecutorPhase_eq_dec : EqDecision LocalExecutorPhase.
Proof. solve_decision. Defined.

Record PendingCommand := mkPendingCommand {
  pc_correlation_id : N;
  pc_kind : PendingCommandKind;
}.

Record PendingObservation := mkPendingObservation {
  po_correlation_id : N;
  po_scene_revision : SceneRevision;
}.

(** [observation_reference]. *)
Definition observation_reference (r : ObservationRequest) : ObservationReference :=
  mkObservationReference (or_observation_id r) (or_scene_revision r).

(** ** The service *)

Record ServiceSnapshot := mkServiceSnapshot {
  sn_command_depth : N;
  sn_outstanding_observations : N;
}.

Inductive ServiceObservationDelivery : Type :=
| SdCompleted (metadata : ObservationMetadata) (payload : ObservationPayload)
| SdFailed (observation_id : ObservationId) (code : SessionFailureCode).

(** [ServiceObservationDelivery::observation_id]. *)
Definition delivery_observation_id (d : ServiceObservationDelivery) : ObservationId :=
  match d with SdCompleted m _ => om_observation_id m | SdFailed id _ => id end.

(** The trait [SessionService]. *)
Class SessionService (S : Type) := {
  ss_runtime_limits : S → RuntimeLimits;
  ss_command_capacity : S → N;
  ss_observation_capacity : S → N;
  ss_observation_dimensions : S → N * N;
  ss_snapshot : S → ServiceSnapshot;
  ss_configure_compilation_limits : CompilationLimits → S → S * outcome SessionFailureCode unit;
  ss_submit_patch : ScenePatch → S → S * outcome SessionFailureCode GatewayAdmission;
  ss_submit_imagination : ImaginationEnvelope → S → S * outcome SessionFailureCode GatewayAdmission;
  ss_process_next : S → S * outcome SessionFailureCode (option GatewayResponse);
  ss_query : SceneQuery → S → outcome SessionFailureCode SceneQueryResult;
  ss_request_observation : ObservationRequest → S → S * outcome SessionFailureCode unit;
  ss_poll_observation : S → S * outcome SessionFailureCode (option ServiceObservationDelivery);
}.

(** [classify_session_error]. *)
Definition classify_session_error (e : LocalSessionError) : SessionFailureCode :=
  match e with
  | LsInvalidConfig | LsMessageLimitExceeded _ _ | LsNestingLimitExceeded _ _ | LsAllocationFailed => FcLimitExceeded
  | LsInvalidMessage error =>
      if bool_decide (sve_kind error = SvUnsupportedVersion) then FcUnsupportedVersion else FcInvalidMessage
  | LsMalformedJson _ _ _ | LsNonCanonicalMessage | LsWrongDirection | LsWrongFrameKind | LsSerializationFailed =>
      FcInvalidMessage
  end.

(** [ensure_admission_key]. *)
Definition ensure_admission_key (submitted admitted : IdempotencyKey) : outcome LocalExecutorError unit :=
  guard_err (negb (submitted =? admitted))
    (XStateInvariant "gateway admission identity did not match submitted command").

(** ** Output frames *)

Section output.
Context `{Digest} `{ResultJson} `{!JsonCodec ObservationMetadata}.
Context `{SessionJson LocalSessionClientMessage} `{SessionJson LocalSessionServerMessage}.

(** [control_frame_for]. *)
Definition control_frame_for (correlation_id : N) (message : LocalSessionServerKind) (schema_version : N)
    (frame_config : LocalFrameConfig) (compilation_limits : option CompilationLimits)
    : outcome LocalExecutorError LocalFrame :=
  let! frame := map_err (λ _, XOutputRejected)
    (server_control_frame correlation_id (mkServerMessage schema_version message) frame_config compilation_limits) in
  do! map_err (λ _, XOutputRejected) (encode_frame frame frame_config) then
  Ok frame.

(** [control_frame_for_context]. *)
Definition control_frame_for_context (correlation_id : N) (message : LocalSessionServerKind)
    (context : SessionOutputContext) : outcome LocalExecutorError LocalFrame :=
  control_frame_for correlation_id message (cx_schema_version context) (cx_frame_config context)
    (cx_compilation_limits context).

(** [failure_frame_for]. *)
Definition failure_frame_for (correlation_id : N) (code : SessionFailureCode) (context : SessionOutputContext)
    : outcome LocalExecutorError LocalFrame :=
  control_frame_for_context correlation_id (SFailure code) context.

(** [control_or_limit_failure_for]. *)
Definition control_or_limit_failure_for (correlation_id : N) (message : LocalSessionServerKind)
    (context : SessionOutputContext) : outcome LocalExecutorError LocalFrame :=
  match control_frame_for_context correlation_id message context with
  | Err XOutputRejected => failure_frame_for correlation_id FcLimitExceeded context
  | result => result
  end.

(** [single_failure_for], [single_failure] with [failure_frame] and [control_frame]. *)
Definition single_failure_for (correlation_id : N) (code : SessionFailureCode) (context : SessionOutputContext)
    : outcome LocalExecutorError (list LocalFrame) :=
  let! frame := failure_frame_for correlation_id code context in Ok [frame].

Definition single_failure (correlation_id : N) (code : SessionFailureCode) (frame_config : LocalFrameConfig)
    : outcome LocalExecutorError (list LocalFrame) :=
  let! frame := control_frame_for correlation_id (SFailure code) LOCAL_SESSION_SCHEMA_VERSION frame_config None in
  Ok [frame].

(** [patch_admission_frame]. *)
Definition patch_admission_frame (correlation_id : N) (key : IdempotencyKey) (status : PatchAdmissionStatus)
    (context : SessionOutputContext) : outcome LocalExecutorError LocalFrame :=
  control_frame_for_context correlation_id (SPatchAdmission (mkPatchAdmission key status)) context.

(** [imagination_admission_frame]. *)
Definition imagination_admission_frame (correlation_id : N) (imagination_id : ImaginationId) (key : IdempotencyKey)
    (status : ImaginationAdmissionStatus) (context : SessionOutputContext) : outcome LocalExecutorError LocalFrame :=
  control_or_limit_failure_for correlation_id
    (SImaginationAdmission (mkImaginationAdmission imagination_id key status)) context.

(** [imagination_completion]. *)
Definition imagination_completion (submitted : SubmittedImagination) (compilation : CompilationResult)
    (receipt : option ApplyReceipt) (expected_status : ApplyStatus) (service_compilation_limits : CompilationLimits)
    (context : SessionOutputContext) : outcome LocalExecutorError ImaginationCompletion :=
  do! guard_err (negb (is_some (cx_compilation_limits context)))
    (XStateInvariant "imagination completion had no negotiated compilation limits") then
  do! map_err (λ _, XStateInvariant "service produced an invalid compilation result")
    (result_encode compilation service_compilation_limits) then
  do! guard_err (negb (cr_imagination_id compilation =? si_imagination_id submitted))
    (XStateInvariant "processed imagination identity did not match local order") then
  do! guard_err (negb (cr_scene_revision compilation =? si_base_revision submitted))
    (XStateInvariant "processed imagination revision did not match submitted work") then
  do! match cr_patch compilation, receipt with
  | Some patch, Some receipt =>
      guard_err (negb ((patch_idempotency_key patch =? si_idempotency_key submitted)
                       && (patch_transaction_id patch =? si_transaction_id submitted)
                       && (receipt_idempotency_key receipt =? si_idempotency_key submitted)
                       && bool_decide (receipt_status receipt = expected_status)))
        (XStateInvariant "processed imagination result and receipt roles were inconsistent")
  | None, None => Ok tt
  | _, _ => Err (XStateInvariant "processed imagination result and receipt roles were inconsistent")
  end then
  Ok (mkImaginationCompletion (si_imagination_id submitted) (si_idempotency_key submitted) compilation receipt).

End output.

(** ** The session core *)

Record SessionCore (S : Type) := mkCore {
  co_service : S;
  co_config : LocalExecutorConfig;
  co_state : SessionState;
  co_live_correlations : gset N;
  co_command_correlations : gmap N PendingCommand;
  co_command_order : list IdempotencyKey;
  co_observation_correlations : gmap N PendingObservation;
  co_observation_order : list ObservationId;
  co_observation_pending_reported : gset N;
}.
Arguments mkCore {_}.
Arguments co_service {_}.
Arguments co_config {_}.
Arguments co_state {_}.
Arguments co_live_correlations {_}.
Arguments co_command_correlations {_}.
Arguments co_command_order {_}.
Arguments co_observation_correlations {_}.
Arguments co_observation_order {_}.
Arguments co_observation_pending_reported {_}.

Definition set_service {S} (s : S) (c : SessionCore S) : SessionCore S :=
  mkCore s (co_config c) (co_state c) (co_live_correlations c) (co_command_correlations c) (co_command_order c)
    (co_observation_correlations c) (co_observation_order c) (co_observation_pending_reported c).
Definition set_state {S} (state : SessionState) (c : SessionCore S) : SessionCore S :=
  mkCore (co_service c) (co_config c) state (co_live_correlations c) (co_command_correlations c) (co_command_order c)
    (co_observation_correlations c) (co_observation_order c) (co_observation_pending_reported c).
Definition set_live {S} (live : gset N) (c : SessionCore S) : SessionCore S :=
  mkCore (co_service c) (co_config c) (co_state c) live (co_command_correlations c) (co_command_order c)
    (co_observation_correlations c) (co_observation_order c) (co_observation_pending_reported c).
Definition set_commands {S} (commands : gmap N PendingCommand) (order : list IdempotencyKey) (c : SessionCore S)
    : SessionCore S :=
  mkCore (co_service c) (co_config c) (co_state c) (co_live_correlations c) commands order
    (co_observation_correlations c) (co_observation_order c) (co_observation_pending_reported c).
Definition set_observations {S} (observations : gmap N PendingObservation) (order : list ObservationId)
    (reported : gset N) (c : SessionCore S) : SessionCore S :=
  mkCore (co_service c) (co_config c) (co_state c) (co_live_correlations c) (co_command_correlations c)
    (co_command_order c) observations order reported.

(** Computations on the core: on an error the state is kept as it is. *)
Definition exec (S A : Type) : Type := SessionCore S → SessionCore S * outcome LocalExecutorError A.

Definition exec_bind {S A B} (m : exec S A) (k : A → exec S B) : exec S B := λ c,
  let '(c, r) := m c in
  match r with Ok a => k a c | Err e => (c, Err e) | Panic => (c, Panic) | OutOfFuel => (c, OutOfFuel) end.
Definition lift {S A} (o : outcome LocalExecutorError A) : exec S A := λ c, (c, o).
Definition gets {S A} (f : SessionCore S → A) : exec S A := λ c, (c, Ok (f c)).
Definition modify {S} (f : SessionCore S → SessionCore S) : exec S unit := λ c, (f c, Ok tt).

(** A call of the service; its typed failure is a value. *)
Definition call {S A} (op : S → S * outcome SessionFailureCode A) : exec S (A + SessionFailureCode) := λ c,
  let '(s, r) := op (co_service c) in
  (set_service s c, match r with Ok a => Ok (inl a) | Err e => Ok (inr e) | Panic => Panic | OutOfFuel => OutOfFuel end).

Declare Scope exec_scope.
Open Scope exec_scope.

Notation "'run!' x ':=' m 'in' k" := (exec_bind m (λ x, k))
  (at level 10, x pattern, m at level 100, k at level 200) : exec_scope.
Notation "'then!' m 'in' k" := (exec_bind m (λ _, k))
  (at level 10, m at level 100, k at level 200) : exec_scope.

(** [Iterator::position] of a key. *)
Definition position (key : N) (l : list N) : option nat := fst <$> list_find (λ k, k = key) l.

Section core.
Context `{Digest} `{ResultJson} `{!JsonCodec ObservationMetadata}.
Context `{SessionJson LocalSessionClientMessage} `{SessionJson LocalSessionServerMessage}.
Context {S : Type} `{!SessionService S}.
Implicit Types c : SessionCore S.

(** [SessionCore::new]. *)
Definition executor_new (service : S) (config : LocalExecutorConfig) : outcome LocalExecutorError (SessionCore S) :=
  let! configured_limits := map_err (λ _, XInvalidConfig "receive limits are inconsistent")
    (limits_from_config (xc_receive_config config)) in
  let service_runtime_limits := ss_runtime_limits service in
  let service_limits := mkSessionLimits (sl_max_frame_bytes configured_limits)
    (N.min (sl_max_control_message_bytes configured_limits) (max_encoded_bytes service_runtime_limits))
    (sl_max_bulk_bytes configured_limits) (sl_max_observation_envelope_bytes configured_limits)
    (sl_max_visibility_entries configured_limits) service_runtime_limits in
  let! effective_local_limits := map_err (λ _, XInvalidConfig "service and receive limits are inconsistent")
    (limits_intersect configured_limits service_limits) in
  let! receive_config := map_err (λ _, XInvalidConfig "effective local receive limits are inconsistent")
    (to_frame_config effective_local_limits) in
  let! compilation_limits := map_err (λ _, XInvalidConfig "compilation limits are inconsistent")
    (let! limits := intersect_compilation_limits (xc_compilation_limits config)
       (for_runtime_limits service_runtime_limits) in
     intersect_compilation_limits limits (for_runtime_limits (sl_runtime_limits effective_local_limits))) in
  let! max_live := expect (non_zero (N.min (xc_max_live_correlations config)
    (max_queue_capacity (frame_runtime_limits receive_config)))) in
  do! guard_err (negb (xc_max_output_frames_per_call config =? N.of_nat MAX_OUTPUT_FRAMES_PER_CALL))
    (XInvalidConfig "output frame capacity must match the protocol maximum") then
  let snapshot := ss_snapshot service in
  do! guard_err (negb (sn_command_depth snapshot =? 0) || negb (sn_outstanding_observations snapshot =? 0))
    (XServiceNotQuiescent (sn_command_depth snapshot) (sn_outstanding_observations snapshot)) then
  do! guard_err ((max_queue_capacity service_runtime_limits <? ss_command_capacity service)
                 || (max_queue_capacity service_runtime_limits <? ss_observation_capacity service))
    (XInvalidConfig "service capacity exceeds its runtime queue bound") then
  let! service_correlation_capacity :=
    ok_or (checked_add u32_max (ss_command_capacity service) (ss_observation_capacity service))
      (XInvalidConfig "combined service capacity overflowed") in
  let! max_live := ok_or (non_zero (N.min max_live service_correlation_capacity))
    (XInvalidConfig "combined service capacity is zero") in
  Ok (mkCore service
        (mkExecutorConfig receive_config compilation_limits max_live (xc_max_output_frames_per_call config))
        AwaitingHello ∅ ∅ [] ∅ [] ∅).

(** [current_frame_config], [current_output_context], [negotiated_limits] and
    [negotiated_compilation_limits]. *)
Definition current_frame_config c : LocalFrameConfig :=
  match co_state c with
  | AwaitingHello => xc_receive_config (co_config c)
  | Active n | Closed n => ng_frame_config n
  end.

Definition current_output_context c : SessionOutputContext :=
  match co_state c with
  | AwaitingHello => mkContext LOCAL_SESSION_SCHEMA_VERSION (xc_receive_config (co_config c)) None
  | Active n | Closed n => mkContext (ng_schema_version n) (ng_frame_config n) (ng_compilation_limits n)
  end.

Definition negotiated_limits c : option LocalSessionLimits :=
  match co_state c with AwaitingHello => None | Active n | Closed n => Some (ng_limits n) end.

Definition negotiated_compilation_limits c : option CompilationLimits :=
  match co_state c with AwaitingHello => None | Active n | Closed n => ng_compilation_limits n end.

(** [SessionCore::status]. *)
Definition executor_status c : LocalExecutorStatus := {|
  xs_phase := match co_state c with
              | AwaitingHello => PhaseAwaitingHello | Active _ => PhaseActive | Closed _ => PhaseClosed end;
  xs_live_correlations := count (size (co_live_correlations c));
  xs_live_correlation_capacity := xc_max_live_correlations (co_config c);
  xs_max_output_frames_per_call := xc_max_output_frames_per_call (co_config c);
  xs_pending_patches := count (size (filter (λ kp, pc_kind kp.2 = PkPatch) (co_command_correlations c)));
  xs_pending_imaginations := count (size (filter (λ kp, pc_kind kp.2 ≠ PkPatch) (co_command_correlations c)));
  xs_pending_observations := count (length (co_observation_order c));
|}.

(** [LocalSessionExecutor::into_service]: the service, or the executor back. *)
Definition into_service c : S + SessionCore S :=
  if bool_decide (xs_phase (executor_status c) = PhaseClosed) && (xs_live_correlations (executor_status c) =? 0)
  then inl (co_service c) else inr c.

(** [live_capacity_reached]. *)
Definition live_capacity_reached c : bool :=
  xc_max_live_correlations (co_config c) <=? count (size (co_live_correlations c)).

(** [reserve_correlation]. *)
Definition reserve_correlation (correlation_id : N) : exec S unit := λ c,
  if live_capacity_reached c then (c, Err (XStateInvariant "live correlation reservation failed"))
  else if bool_decide (correlation_id ∈ co_live_correlations c)
  then (c, Err (XStateInvariant "live correlation reservation failed"))
  else (set_live ({[correlation_id]} ∪ co_live_correlations c) c, Ok tt).

(** [release_correlation]. *)
Definition release_correlation (correlation_id : N) : exec S unit := λ c,
  if bool_decide (correlation_id ∈ co_live_correlations c)
  then (set_live (co_live_correlations c ∖ {[correlation_id]}) c, Ok tt)
  else (c, Err (XStateInvariant "terminal correlation was not live")).

(** The insertion of a pending command under a fresh key at the end of the order. *)
Definition push_command (key : IdempotencyKey) (pending : PendingCommand) : exec S unit :=
  modify (λ c, set_commands (<[key := pending]> (co_command_correlations c)) (co_command_order c ++ [key]) c).

(** [handle_supersession] and [handle_imagination_supersession]: the two methods
    differ in the admission frame, the pending record and the error texts. *)
Definition handle_supersession_with (correlation_id : N) (key superseded : IdempotencyKey)
    (admitted : outcome LocalExecutorError LocalFrame) (pending : PendingCommand)
    (no_correlation no_order : string) (context : SessionOutputContext) : exec S (list LocalFrame) :=
  run! commands := gets co_command_correlations in
  run! old_correlation := lift (ok_or (pc_correlation_id <$> commands !! superseded) (XStateInvariant no_correlation)) in
  run! rejected := lift (failure_frame_for old_correlation FcCommandRejected context) in
  run! admitted := lift admitted in
  run! order := gets co_command_order in
  run! index := lift (ok_or (position superseded order) (XStateInvariant no_order)) in
  then! modify (λ c, set_commands (delete superseded (co_command_correlations c)) (<[index := key]> (co_command_order c)) c) in
  then! release_correlation old_correlation in
  then! reserve_correlation correlation_id in
  then! modify (λ c, set_commands (<[key := pending]> (co_command_correlations c)) (co_command_order c) c) in
  lift (Ok [rejected; admitted]).

Definition handle_supersession (correlation_id : N) (key superseded : IdempotencyKey) (context : SessionOutputContext)
    : exec S (list LocalFrame) :=
  handle_supersession_with correlation_id key superseded
    (patch_admission_frame correlation_id key (PaSuperseded superseded) context)
    (mkPendingCommand correlation_id PkPatch)
    "superseded patch had no live correlation" "superseded patch was absent from local order" context.

Definition handle_imagination_supersession (correlation_id : N) (submitted : SubmittedImagination)
    (key superseded : IdempotencyKey) (context : SessionOutputContext) : exec S (list LocalFrame) :=
  handle_supersession_with correlation_id key superseded
    (imagination_admission_frame correlation_id (si_imagination_id submitted) key (IaSuperseded superseded) context)
    (mkPendingCommand correlation_id (PkImagination submitted))
    "superseded command had no live correlation" "superseded command was absent from local order" context.

(** The early refusal of [submit_patch] and [submit_imagination]. *)
Definition submission_blocked c : bool :=
  live_capacity_reached c
  && (sn_command_depth (ss_snapshot (co_service c)) <? ss_command_capacity (co_service c)).

Definition beyond_capacity c : bool :=
  ss_command_capacity (co_service c) <=? count (length (co_command_order c)).

(** [submit_patch]. *)
Definition submit_patch (correlation_id : N) (patch : ScenePatch) (context : SessionOutputContext)
    : exec S (list LocalFrame) :=
  run! blocked := gets submission_blocked in
  if blocked : bool then lift (single_failure_for correlation_id FcCapacityExceeded context) else
  let submitted_key := patch_idempotency_key patch in
  run! admission := call (ss_submit_patch patch) in
  match admission with
  | inr code => lift (single_failure_for correlation_id code context)
  | inl (Queued key) =>
      then! lift (ensure_admission_key submitted_key key) in
      run! full := gets beyond_capacity in
      then! lift (guard_err full (XStateInvariant "service queued a patch beyond its declared capacity")) in
      run! output := lift (patch_admission_frame correlation_id key PaQueued context) in
      then! reserve_correlation correlation_id in
      then! push_command key (mkPendingCommand correlation_id PkPatch) in
      lift (Ok [output])
  | inl (AlreadyQueued key) =>
      then! lift (ensure_admission_key submitted_key key) in
      run! commands := gets co_command_correlations in
      then! lift (guard_err (negb (bool_decide (pc_kind <$> commands !! key = Some PkPatch)))
        (XStateInvariant "already-queued patch had no live correlation")) in
      run! output := lift (patch_admission_frame correlation_id key PaAlreadyQueued context) in
      lift (Ok [output])
  | inl (Dropped key) =>
      then! lift (ensure_admission_key submitted_key key) in
      run! output := lift (patch_admission_frame correlation_id key PaDropped context) in
      lift (Ok [output])
  | inl (Replayed (PatchApplied receipt)) =>
      then! lift (ensure_admission_key submitted_key (receipt_idempotency_key receipt)) in
      run! output := lift (control_or_limit_failure_for correlation_id
        (SPatchAdmission (mkPatchAdmission (receipt_idempotency_key receipt) (PaReplayed receipt))) context) in
      lift (Ok [output])
  | inl (Replayed (ImaginationProcessed _ _)) =>
      lift (Err (XStateInvariant "patch admission replayed a non-patch response"))
  | inl (Superseded key superseded) =>
      then! lift (ensure_admission_key submitted_key key) in
      handle_supersession correlation_id key superseded context
  end.

(** [handle_imagination_replay]. *)
Definition handle_imagination_replay (correlation_id : N) (submitted : SubmittedImagination) (response : GatewayResponse)
    (context : SessionOutputContext) : exec S (list LocalFrame) := λ c,
  match response with
  | PatchApplied _ => (c, Err (XStateInvariant "imagination admission replayed a non-imagination response"))
  | ImaginationProcessed compilation receipt =>
      match imagination_completion submitted compilation receipt IdempotentReplay
        (for_runtime_limits (ss_runtime_limits (co_service c))) context with
      | Ok completion =>
          lift (let! frame := imagination_admission_frame correlation_id (si_imagination_id submitted)
                  (si_idempotency_key submitted) (IaReplayed completion) context in
                Ok [frame]) c
      | Err (XStateInvariant _) => lift (single_failure_for correlation_id FcInternal context) c
      | Err error => (c, Err error)
      | Panic => (c, Panic)
      | OutOfFuel => (c, OutOfFuel)
      end
  end.

(** [handle_imagination_admission]. *)
Definition handle_imagination_admission (correlation_id : N) (submitted : SubmittedImagination)
    (admission : GatewayAdmission) (context : SessionOutputContext) : exec S (list LocalFrame) :=
  match admission with
  | Queued key =>
      then! lift (ensure_admission_key (si_idempotency_key submitted) key) in
      run! full := gets beyond_capacity in
      then! lift (guard_err full (XStateInvariant "service queued an imagination beyond its declared capacity")) in
      run! output := lift (imagination_admission_frame correlation_id (si_imagination_id submitted) key IaQueued context) in
      then! reserve_correlation correlation_id in
      then! push_command key (mkPendingCommand correlation_id (PkImagination submitted)) in
      lift (Ok [output])
  | AlreadyQueued key =>
      then! lift (ensure_admission_key (si_idempotency_key submitted) key) in
      run! commands := gets co_command_correlations in
      then! lift (guard_err (negb (bool_decide (pc_kind <$> commands !! key = Some (PkImagination submitted))))
        (XStateInvariant "already-queued imagination had no matching live correlation")) in
      run! output := lift (imagination_admission_frame correlation_id (si_imagination_id submitted) key IaAlreadyQueued context) in
      lift (Ok [output])
  | Dropped key =>
      then! lift (ensure_admission_key (si_idempotency_key submitted) key) in
      run! output := lift (imagination_admission_frame correlation_id (si_imagination_id submitted) key IaDropped context) in
      lift (Ok [output])
  | Replayed response => handle_imagination_replay correlation_id submitted response context
  | Superseded key superseded =>
      then! lift (ensure_admission_key (si_idempotency_key submitted) key) in
      handle_imagination_supersession correlation_id submitted key superseded context
  end.

(** [submit_imagination]. *)
Definition submit_imagination (correlation_id : N) (imagination : ImaginationEnvelope) (context : SessionOutputContext)
    : exec S (list LocalFrame) :=
  if negb (cx_schema_version context =? LOCAL_SESSION_SCHEMA_VERSION_V2) || negb (is_some (cx_compilation_limits context))
  then lift (single_failure_for correlation_id FcUnsupportedVersion context) else
  run! blocked := gets submission_blocked in
  if blocked : bool then lift (single_failure_for correlation_id FcCapacityExceeded context) else
  run! admission := call (ss_submit_imagination imagination) in
  match admission with
  | inr code => lift (single_failure_for correlation_id code context)
  | inl admission => handle_imagination_admission correlation_id (from_envelope imagination) admission context
  end.

(** [query]. *)
Definition session_query (correlation_id : N) (query : SceneQuery) (context : SessionOutputContext)
    : exec S (list LocalFrame) := λ c,
  match ss_query query (co_service c) with
  | Ok result =>
      lift (let! frame := control_or_limit_failure_for correlation_id (SQueryResult result) context in Ok [frame]) c
  | Err code => lift (single_failure_for correlation_id code context) c
  | Panic => (c, Panic)
  | OutOfFuel => (c, OutOfFuel)
  end.

(** The dimension check of [request_observation]. *)
Definition dimensions_exceed (dimensions : N * N) (limits : RuntimeLimits) : bool :=
  let '(width, height) := dimensions in
  let pixels := N.min u64_max (width * height) in
  (max_observation_width limits <? width) || (max_observation_height limits <? height)
  || (max_observation_pixels limits <? pixels).

(** [request_observation]. *)
Definition request_observation (correlation_id : N) (request : ObservationRequest) (context : SessionOutputContext)
    : exec S (list LocalFrame) :=
  run! full := gets (λ c, live_capacity_reached c
    || (ss_observation_capacity (co_service c) <=? count (length (co_observation_order c)))) in
  if full : bool then lift (single_failure_for correlation_id FcCapacityExceeded context) else
  run! known := gets (λ c, is_some (co_observation_correlations c !! or_observation_id request)) in
  if known : bool then lift (single_failure_for correlation_id FcObservationRejected context) else
  run! exceeding := gets (λ c, dimensions_exceed (ss_observation_dimensions (co_service c))
    (frame_runtime_limits (cx_frame_config context))) in
  if exceeding : bool then lift (single_failure_for correlation_id FcLimitExceeded context) else
  run! output := lift (control_frame_for_context correlation_id (SObservationAccepted (observation_reference request)) context) in
  run! requested := call (ss_request_observation request) in
  match requested with
  | inr code => lift (single_failure_for correlation_id code context)
  | inl _ =>
      then! reserve_correlation correlation_id in
      then! modify (λ c, set_observations
        (<[or_observation_id request := mkPendingObservation correlation_id (or_scene_revision request)]>
           (co_observation_correlations c))
        (co_observation_order c ++ [or_observation_id request]) (co_observation_pending_reported c) c) in
      lift (Ok [output])
  end.

(** [close]. *)
Definition session_close (correlation_id : N) (context : SessionOutputContext) : exec S (list LocalFrame) :=
  run! busy := gets (λ c, let snapshot := ss_snapshot (co_service c) in
    negb (bool_decide (co_live_correlations c = ∅)) || negb (bool_decide (co_command_order c = []))
    || negb (bool_decide (co_observation_order c = [])) || negb (sn_command_depth snapshot =? 0)
    || negb (sn_outstanding_observations snapshot =? 0)) in
  if busy : bool then lift (single_failure_for correlation_id FcProtocolState context) else
  run! output := lift (control_frame_for_context correlation_id SClosed context) in
  run! limits := gets negotiated_limits in
  run! limits := lift (ok_or limits (XStateInvariant "close was handled outside the active state")) in
  then! modify (set_state (Closed (mkNegotiated (cx_schema_version context) limits (cx_compilation_limits context)
    (cx_frame_config context)))) in
  lift (Ok [output]).

(** The message [advance_command] makes of a processed command. *)
Definition command_message (key : IdempotencyKey) (kind : PendingCommandKind)
    (response : option GatewayResponse + SessionFailureCode) (service_compilation_limits : CompilationLimits)
    (context : SessionOutputContext) : outcome LocalExecutorError LocalSessionServerKind :=
  match response with
  | inr code => Ok (SFailure code)
  | inl None => Err (XStateInvariant "service omitted an ordered command response")
  | inl (Some response) =>
      match kind, response with
      | PkPatch, PatchApplied receipt =>
          if (receipt_idempotency_key receipt =? key) && bool_decide (receipt_status receipt = Applied)
          then Ok (SPatchCompleted receipt)
          else Err (XStateInvariant "processed patch receipt did not match local order")
      | PkImagination submitted, ImaginationProcessed compilation receipt =>
          let! completion := imagination_completion submitted compilation receipt Applied
            service_compilation_limits context in
          Ok (SImaginationCompleted completion)
      | PkPatch, ImaginationProcessed _ _ | PkImagination _, PatchApplied _ =>
          Err (XStateInvariant "processed command kind did not match local order")
      end
  end.

(** Broken service promises are reported as an internal failure. *)
Definition internal_failure (message : outcome LocalExecutorError LocalSessionServerKind)
    : outcome LocalExecutorError LocalSessionServerKind :=
  match message with Err (XStateInvariant _) => Ok (SFailure FcInternal) | message => message end.

(** [advance_command]. *)
Definition advance_command (context : SessionOutputContext) : exec S (option LocalFrame) := λ c,
  match co_command_order c with
  | [] => (c, Ok None)
  | key :: order =>
      match co_command_correlations c !! key with
      | None => (set_commands (co_command_correlations c) order c,
                 Err (XStateInvariant "ordered command had no live correlation"))
      | Some pending =>
          (run! limits := gets (λ c, for_runtime_limits (ss_runtime_limits (co_service c))) in
           run! response := call ss_process_next in
           run! message := lift (internal_failure (command_message key (pc_kind pending) response limits context)) in
           run! output := lift (control_or_limit_failure_for (pc_correlation_id pending) message context) in
           then! release_correlation (pc_correlation_id pending) in
           lift (Ok (Some output)))
          (set_commands (delete key (co_command_correlations c)) order c)
      end
  end.

(** [release_observation]. *)
Definition release_observation (observation_id : ObservationId) (correlation_id : N) : exec S unit :=
  then! modify (λ c, set_observations (delete observation_id (co_observation_correlations c)) (co_observation_order c)
    (co_observation_pending_reported c ∖ {[observation_id]}) c) in
  run! order := gets co_observation_order in
  run! index := lift (ok_or (position observation_id order)
    (XStateInvariant "completed observation was absent from local order")) in
  then! modify (λ c, set_observations (co_observation_correlations c) (delete index (co_observation_order c))
    (co_observation_pending_reported c) c) in
  release_correlation correlation_id.

(** [observation_delivery_frame]. *)
Definition observation_delivery_frame (delivery : ServiceObservationDelivery) (context : SessionOutputContext)
    : exec S LocalFrame :=
  let observation_id := delivery_observation_id delivery in
  run! observations := gets co_observation_correlations in
  run! correlation_id := lift (ok_or (po_correlation_id <$> observations !! observation_id)
    (XStateInvariant "observation completion had no live correlation")) in
  run! output := lift
    match delivery with
    | SdCompleted metadata payload =>
        let frame := FObservation correlation_id metadata payload in
        match encode_frame frame (cx_frame_config context) with
        | Ok _ => Ok frame
        | Err _ => failure_frame_for correlation_id FcLimitExceeded context
        | Panic => Panic
        | OutOfFuel => OutOfFuel
        end
    | SdFailed _ code => failure_frame_for correlation_id code context
    end in
  then! release_observation observation_id correlation_id in
  lift (Ok output).

(** The observation part of [advance]: at most one frame. *)
Definition advance_observation (context : SessionOutputContext) : exec S (list LocalFrame) :=
  run! polled := call ss_poll_observation in
  match polled with
  | inl (Some delivery) => run! frame := observation_delivery_frame delivery context in lift (Ok [frame])
  | inl None => λ c,
      match list_find (λ id, id ∉ co_observation_pending_reported c) (co_observation_order c) with
      | None => (c, Ok [])
      | Some (_, observation_id) =>
          (run! pending := lift (expect (co_observation_correlations c !! observation_id)) in
           run! frame := lift (control_frame_for_context (po_correlation_id pending)
             (SObservationPending (mkObservationReference observation_id (po_scene_revision pending))) context) in
           then! modify (λ c, set_observations (co_observation_correlations c) (co_observation_order c)
             ({[observation_id]} ∪ co_observation_pending_reported c) c) in
           lift (Ok [frame])) c
      end
  | inr code => λ c,
      (run! observation_id := lift (expect (co_observation_order c !! 0%nat)) in
       run! pending := lift (expect (co_observation_correlations c !! observation_id)) in
       run! frame := lift (failure_frame_for (po_correlation_id pending) code context) in
       then! release_observation observation_id (po_correlation_id pending) in
       lift (Ok [frame])) c
  end.

(** [advance]. *)
Definition advance : exec S (list LocalFrame) := λ c,
  match co_state c with
  | AwaitingHello | Closed _ => (c, Ok [])
  | Active _ =>
      let context := current_output_context c in
      (run! command := advance_command context in
       let output := match command with Some frame => [frame] | None => [] end in
       run! idle := gets (λ c, bool_decide (co_observation_order c = [])) in
       if idle : bool then lift (Ok output) else
       run! frames := advance_observation context in
       lift (Ok (output ++ frames))) c
  end.

(** [handle_hello]. *)
Definition handle_hello (correlation_id schema_version : N) (message : LocalSessionClientKind)
    (decode_config : LocalFrameConfig) : exec S (list LocalFrame) :=
  let pre_session_context := mkContext schema_version decode_config None in
  match message with
  | CHello hello => λ c,
      match limits_negotiate (ch_receive_limits hello) (xc_receive_config (co_config c)) with
      | Err _ => lift (single_failure_for correlation_id FcLimitExceeded pre_session_context) c
      | Panic => (c, Panic)
      | OutOfFuel => (c, OutOfFuel)
      | Ok limits =>
          (run! frame_config := lift (map_err (λ _, XInvalidConfig "negotiated limits are inconsistent")
             (to_frame_config limits)) in
           let finish (compilation_limits : option CompilationLimits) :=
             run! output := lift (control_frame_for correlation_id (SHello (mkServerHello limits compilation_limits))
               schema_version frame_config compilation_limits) in
             then! modify (set_state (Active (mkNegotiated schema_version limits compilation_limits frame_config))) in
             lift (Ok [output]) in
           if schema_version =? LOCAL_SESSION_SCHEMA_VERSION_V2 then
             match ch_compilation_receive_limits hello with
             | None => lift (single_failure_for correlation_id FcInvalidMessage pre_session_context)
             | Some advertised =>
                 match intersect_compilation_limits advertised (xc_compilation_limits (co_config c)) with
                 | Err _ => lift (single_failure_for correlation_id FcLimitExceeded pre_session_context)
                 | Panic => lift Panic
                 | OutOfFuel => lift OutOfFuel
                 | Ok compilation_limits =>
                     run! configured := call (ss_configure_compilation_limits compilation_limits) in
                     match configured with
                     | inr code => lift (single_failure_for correlation_id code
                         (mkContext schema_version frame_config (Some compilation_limits)))
                     | inl _ => finish (Some compilation_limits)
                     end
                 end
             end
           else finish None) c
      end
  | _ => lift (single_failure_for correlation_id FcProtocolState pre_session_context)
  end.

(** [handle_active]. *)
Definition handle_active (correlation_id schema_version : N) (message : LocalSessionClientKind)
    : exec S (list LocalFrame) :=
  run! context := gets current_output_context in
  if negb (schema_version =? cx_schema_version context)
  then lift (single_failure_for correlation_id FcUnsupportedVersion context) else
  run! live := gets co_live_correlations in
  if bool_decide (correlation_id ∈ live)
  then lift (single_failure_for correlation_id FcProtocolState context) else
  match message with
  | CHello _ => lift (single_failure_for correlation_id FcProtocolState context)
  | CSubmitPatch patch => submit_patch correlation_id patch context
  | CSubmitImagination imagination => submit_imagination correlation_id imagination context
  | CQuery query => session_query correlation_id query context
  | CRequestObservation request => request_observation correlation_id request context
  | CClose => session_close correlation_id context
  end.

(** [handle_frame]. *)
Definition handle_frame (frame : LocalFrame) : exec S (list LocalFrame) := λ c,
  let correlation := correlation_id frame in
  let decode_config := current_frame_config c in
  match decode_client_control_frame frame decode_config (negotiated_compilation_limits c) with
  | Err error =>
      let code := classify_session_error error in
      match co_state c with
      | AwaitingHello => lift (single_failure correlation code decode_config) c
      | Active _ | Closed _ => lift (single_failure_for correlation code (current_output_context c)) c
      end
  | Panic => (c, Panic)
  | OutOfFuel => (c, OutOfFuel)
  | Ok (_, message) =>
      match co_state c with
      | AwaitingHello => handle_hello correlation (cm_schema_version message) (cm_message message) decode_config c
      | Active _ => handle_active correlation (cm_schema_version message) (cm_message message) c
      | Closed _ => lift (single_failure_for correlation FcProtocolState (current_output_context c)) c
      end
  end.

End core.
