(* ===== verification/ExecutorFrames.v ===== *)
(** * Output frames of the executor

    Which output frames always fit.  Server hellos are the largest of the small
    messages ([small_message]), so a session whose hello fitted its negotiated
    bounds can always answer with a small message; a large answer that does not
    fit is replaced by a small failure. *)

From S2P Require Import Prelude Machine Ordering Floats Values Components Messages MessageSpec Imagination ImaginationSpec Codec Compilation Ecs WorldTypes Hierarchy Render World SceneSpec Hash Compiler CompilerReport CompilerOutcome Recovery Engine Query Gateway Observation Transport SessionLimits Session Executor.

Open Scope N_scope.

(** Messages of a bounded size: no receipt, compilation or query result in them. *)
Definition small_message (k : LocalSessionServerKind) : bool :=
  match k with
  | SPatchAdmission a => match pa_status a with PaReplayed _ => false | _ => true end
  | SImaginationAdmission a => match ia_status a with IaReplayed _ => false | _ => true end
  | SObservationAccepted _ | SObservationPending _ | SFailure _ | SClosed => true
  | SHello _ | SPatchCompleted _ | SImaginationCompleted _ | SQueryResult _ => false
  end.

(** What the types of a reference guarantee. *)
Definition typed_reference (r : ObservationReference) : Prop :=
  typed_id (oref_observation_id r) ∧ oref_scene_revision r ≤ u64_max.

(** Validity of a small message in a version. *)
Definition small_valid (version : N) (k : LocalSessionServerKind) : Prop :=
  match k with
  | SPatchAdmission a => typed_id (pa_idempotency_key a) ∧
      match pa_status a with PaSuperseded old => typed_id old ∧ old ≠ pa_idempotency_key a | _ => True end
  | SImaginationAdmission a => version = LOCAL_SESSION_SCHEMA_VERSION_V2 ∧ typed_id (ia_imagination_id a) ∧
      typed_id (ia_idempotency_key a) ∧
      match ia_status a with IaSuperseded old => typed_id old ∧ old ≠ ia_idempotency_key a | _ => True end
  | SObservationAccepted r | SObservationPending r => typed_reference r
  | _ => True
  end.

(** The text of a message. *)
Definition server_text `{SessionJson LocalSessionServerMessage} (version : N) (k : LocalSessionServerKind) : bytes :=
  mjoin (sj_writes (mkServerMessage version k)) ++ [x0a].

(** What the executor relies on of the serialiser: a small message of well-typed values is written
    whenever a hello is, in no more bytes and with no deeper nesting. *)
Class SessionJsonSizes `{SessionJson LocalSessionServerMessage} : Prop := {
  sj_small_writes : ∀ version hello k, small_message k = true → small_valid version k →
    sj_fails (mkServerMessage version (SHello hello)) = false → sj_fails (mkServerMessage version k) = false;
  sj_small_length : ∀ version hello k, small_message k = true → small_valid version k →
    (length (server_text version k) ≤ length (server_text version (SHello hello)))%nat;
  sj_small_nesting : ∀ version hello k limits, small_message k = true → small_valid version k →
    session_enforce_nesting (server_text version (SHello hello)) limits = Ok tt →
    session_enforce_nesting (server_text version k) limits = Ok tt;
}.

Section frames.
Context `{Digest} `{ResultJson} `{!JsonCodec ObservationMetadata}.
Context `{SessionJson LocalSessionClientMessage} `{SessionJson LocalSessionServerMessage}.
Context `{!SessionJsonLaws server_validate LocalSessionClientMessage} `{!SessionJsonSizes}.

(** A context in which a hello fits. *)
Definition context_ok (context : SessionOutputContext) : Prop :=
  max_frame_bytes (frame_limits (cx_frame_config context)) ≤ u64_max ∧
  ∃ hello b, encode_server_message (mkServerMessage (cx_schema_version context) (SHello hello))
    (cx_frame_config context) (cx_compilation_limits context) = Ok b.

(** The frame carries the message, for the correlation. *)
Definition emits (context : SessionOutputContext) (correlation : N) (k : LocalSessionServerKind) (f : LocalFrame) : Prop :=
  correlation_id f = correlation ∧ is_ok (encode_frame f (cx_frame_config context)) = true ∧
  decode_server_control_frame f (cx_frame_config context) (cx_compilation_limits context)
  = Ok (correlation, mkServerMessage (cx_schema_version context) k).

Lemma session_writes_fit limit l w :
  (length (w ++ mjoin l) < N.to_nat u64_max)%nat → N.of_nat (length (w ++ mjoin l)) ≤ limit →
  out_fold (session_bounded_write limit) w l = Ok (w ++ mjoin l).
Proof.
  revert w. induction l as [|x l IH]; intros w Hu Hl; cbn [out_fold]; [by rewrite app_nil_r|].
  change (mjoin (x :: l)) with (x ++ mjoin l) in *. rewrite app_assoc in *. unfold session_bounded_write at 1.
  pose proof Hl as Hl'. rewrite length_app in Hu, Hl'.
  rewrite !len_or_max_min. unfold sat_add64, sat_add. rewrite length_app in Hu, Hl'.
  rewrite (proj2 (N.ltb_ge _ _)) by lia. cbn [guard_err out_bind]. apply IH; [|done].
  rewrite !length_app. lia.
Qed.

Lemma server_message_text version k config cl b :
  encode_server_message (mkServerMessage version k) config cl = Ok b → b = server_text version k.
Proof.
  intros (_ & limit & _ & He & _)%(session_encode_ok server_validate). by apply session_encode_validated_ok in He as [-> _].
Qed.

(** Whatever a hello fits in, a valid small message fits in. *)
Lemma small_encodes version hello k config cl b :
  max_frame_bytes (frame_limits config) ≤ u64_max →
  encode_server_message (mkServerMessage version (SHello hello)) config cl = Ok b →
  small_message k = true → small_valid version k → server_validate (mkServerMessage version k) config cl = Ok tt →
  ∃ b', encode_server_message (mkServerMessage version k) config cl = Ok b'.
Proof.
  intros Hmax Hb Hs Hsv Hv. pose proof (server_message_text _ _ _ _ _ Hb) as Ht.
  apply (session_encode_ok server_validate) in Hb as (_ & limit & Hl & He & Hn).
  apply session_encode_validated_ok in He as (_ & Hf & Hz). subst b.
  exists (server_text version k). apply (session_encode_ok server_validate). split; [done|]. exists limit.
  split; [done|]. split; [|by eapply sj_small_nesting].
  pose proof (sj_small_length version hello k Hs Hsv) as Hlen. unfold session_enforce_size in Hz. apply guard_err_ok, N.ltb_ge in Hz.
  rewrite len_or_max_min in Hz. unfold effective_message_limit in Hl.
  apply out_bind_ok in Hl as (body & Hbody%ok_or_ok%checked_sub_Some & Hl). destruct (_ =? 0); [done|].
  apply Ok_inj in Hl. change header_bytes_u64 with 68 in *. unfold server_text in *. rewrite !length_app in Hlen. rewrite length_app in Hz. cbn [length] in *.
  unfold session_encode_validated. rewrite session_writes_fit; cbn [app]; [|lia..].
  cbn [out_bind]. rewrite (sj_small_writes version hello k Hs Hsv Hf). cbn [guard_err out_bind].
  unfold session_push_lf, session_enforce_size. rewrite len_or_max_min.
  rewrite (proj2 (N.ltb_ge _ _)) by lia. done.
Qed.

(** A context that admits a hello admits every valid small message. *)
Lemma small_validates version hello k config cl :
  server_validate (mkServerMessage version (SHello hello)) config cl = Ok tt →
  small_message k = true → small_valid version k → server_validate (mkServerMessage version k) config cl = Ok tt.
Proof.
  unfold server_validate. cbn [sm_schema_version sm_message]. intros Hv Hs Hk.
  apply out_bind_ok in Hv as ([] & -> & Hv). cbn [out_bind]. apply out_bind_ok in Hv as ([] & _ & Hv).
  apply out_bind_ok in Hv as ([] & Hc & _).
  assert (requires_compilation_limits k = false) as ->.
  { destruct k as [| | |[? ? []]| | | | | |]; try done. }
  rewrite andb_false_r. cbn [guard_err out_bind]. rewrite Hc. cbn [out_bind].
  destruct k as [|[key []]| |[id key []]| | | | | |]; try done; cbn in Hk |- *.
  - destruct Hk as (_ & _ & Hne). by rewrite (proj2 (N.eqb_neq _ _)).
  - by destruct Hk as [-> _].
  - by destruct Hk as [-> _].
  - destruct Hk as (-> & _ & _ & _ & Hne). cbn. by rewrite (proj2 (N.eqb_neq _ _)).
  - by destruct Hk as [-> _].
Qed.

Lemma encoded_frame_emits context correlation k b :
  max_frame_bytes (frame_limits (cx_frame_config context)) ≤ u64_max →
  encode_server_message (mkServerMessage (cx_schema_version context) k) (cx_frame_config context)
    (cx_compilation_limits context) = Ok b →
  control_frame_for_context correlation k context = Ok (FControl correlation b) ∧
  emits context correlation k (FControl correlation b).
Proof.
  intros Hmax Hb.
  pose proof (session_message_fits server_validate _ _ _ b correlation Hmax Hb) as Hfit.
  unfold control_frame_for_context, control_frame_for, server_control_frame. rewrite Hb. cbn [out_bind map_err].
  split; [destruct (encode_frame _ _) eqn:He; try done|]. split; [done|]. split; [done|]. cbn [decode_server_control_frame].
  apply (session_decode_exact server_validate) in Hb. unfold decode_server_message. by rewrite Hb.
Qed.

(** Small valid messages are always sent. *)
Lemma small_frame context correlation k :
  context_ok context → small_message k = true → small_valid (cx_schema_version context) k →
  ∃ f, control_frame_for_context correlation k context = Ok f ∧ emits context correlation k f.
Proof.
  intros (Hmax & hello & b & Hb) Hs Hk.
  pose proof (proj1 (proj1 (session_encode_ok server_validate _ _ _ _) Hb)) as Hv.
  destruct (small_encodes _ _ k _ _ _ Hmax Hb Hs Hk) as [b' Hb']; [by eapply small_validates|].
  destruct (encoded_frame_emits context correlation k b' Hmax Hb'). eauto.
Qed.

Lemma failure_frame context correlation code :
  context_ok context → ∃ f, failure_frame_for correlation code context = Ok f ∧ emits context correlation (SFailure code) f.
Proof. intros Hc. by apply small_frame. Qed.

Lemma single_failure_ok context correlation code :
  context_ok context → ∃ f, single_failure_for correlation code context = Ok [f] ∧ emits context correlation (SFailure code) f.
Proof.
  intros Hc. destruct (failure_frame context correlation code Hc) as (f & Hf & He). exists f. split; [|done].
  unfold single_failure_for. by rewrite Hf.
Qed.

Lemma encode_server_normal m config cl : normal (encode_server_message m config cl).
Proof. apply (session_encode_normal server_validate). intros. apply server_validate_normal. Qed.

(** A frame either carries its message or is rejected. *)
Lemma control_frame_cases correlation k version config cl :
  control_frame_for correlation k version config cl = Err XOutputRejected ∨
  ∃ b, control_frame_for correlation k version config cl = Ok (FControl correlation b) ∧
    encode_server_message (mkServerMessage version k) config cl = Ok b.
Proof.
  unfold control_frame_for, server_control_frame. pose proof (encode_server_normal (mkServerMessage version k) config cl) as Hn.
  destruct (encode_server_message _ _ _) as [b|e| |]; try done; [|by left]. cbn [out_bind map_err].
  pose proof (encode_frame_normal (FControl correlation b) config) as Hf.
  destruct (encode_frame _ _) as [e|e| |]; try done; [right; by exists b|by left].
Qed.

(** A message too large for the session is replaced by a failure. *)
Lemma limited_frame context correlation k :
  context_ok context →
  ∃ f k', control_or_limit_failure_for correlation k context = Ok f ∧ emits context correlation k' f ∧
    (k' = k ∨ k' = SFailure FcLimitExceeded).
Proof.
  intros Hc. unfold control_or_limit_failure_for, control_frame_for_context.
  destruct (control_frame_cases correlation k (cx_schema_version context) (cx_frame_config context)
    (cx_compilation_limits context)) as [Hr|(b & Hr & Hb)]; rewrite Hr.
  - destruct (failure_frame context correlation FcLimitExceeded Hc) as (f & Hf & He). exists f, (SFailure FcLimitExceeded). auto.
  - exists (FControl correlation b), k. split; [done|]. split; [|by left]. by apply encoded_frame_emits; [apply Hc|].
Qed.

(** Imagination admissions that are small are sent as they are. *)
Lemma small_imagination_frame context correlation id key status :
  context_ok context → small_message (SImaginationAdmission (mkImaginationAdmission id key status)) = true →
  small_valid (cx_schema_version context) (SImaginationAdmission (mkImaginationAdmission id key status)) →
  ∃ f, imagination_admission_frame correlation id key status context = Ok f ∧
    emits context correlation (SImaginationAdmission (mkImaginationAdmission id key status)) f.
Proof.
  intros Hc Hs Hk. destruct (small_frame context correlation _ Hc Hs Hk) as (f & Hf & He). exists f. split; [|done].
  unfold imagination_admission_frame, control_or_limit_failure_for. by rewrite Hf.
Qed.

End frames.
