(* ===== verification/ExecutorInvariant.v ===== *)
(** * The invariant of the executor

    [SessionServiceLaws] states what a service promises the executor: its
    command queue and its outstanding observations as abstract lists, and how
    each call changes them.  [session_ok] says that the executor's bookkeeping
    mirrors these lists and that live correlations, one per pending command or
    observation, stay within their bound. *)

From S2P Require Import Prelude Machine Ordering Floats Values Components Messages MessageSpec Imagination ImaginationSpec Codec Compilation Ecs WorldTypes Hierarchy Render World SceneSpec Hash Compiler CompilerReport CompilerOutcome Recovery Engine Query Gateway GatewayInvariant Observation Transport SessionLimits Session Executor ExecutorFrames.

Open Scope N_scope.

(** ** What a service promises *)

(** The abstract state of a service. *)
Class ServiceView (S : Type) := {
  sv_ok : S → Prop;
  sv_queue : S → list GatewayCommand;
  sv_outstanding : S → list ObservationId;
}.

Section laws.
Context {S : Type} `{!SessionService S} `{!ServiceView S}.
Implicit Types s : S.

(** Bounds a service never changes. *)
Record same_bounds s s' : Prop := {
  sb_limits : ss_runtime_limits s' = ss_runtime_limits s;
  sb_commands : ss_command_capacity s' = ss_command_capacity s;
  sb_observations : ss_observation_capacity s' = ss_observation_capacity s;
  sb_dimensions : ss_observation_dimensions s' = ss_observation_dimensions s;
}.

(** A step that keeps the queue and may lose, but not invent, observations. *)
Record quiet s s' : Prop := {
  qs_ok : sv_ok s';
  qs_bounds : same_bounds s s';
  qs_queue : sv_queue s' = sv_queue s;
  qs_outstanding : sv_outstanding s' ⊆ sv_outstanding s;
}.

(** The queue after a submission, by its answer. *)
Definition admits s (cmd : GatewayCommand) s' (r : outcome SessionFailureCode GatewayAdmission) : Prop :=
  match r with
  | Ok (Queued k) => k = command_key cmd ∧ sv_queue s' = sv_queue s ++ [cmd]
  | Ok (AlreadyQueued k) => k = command_key cmd ∧ sv_queue s' = sv_queue s
  | Ok (Superseded k old) => k = command_key cmd ∧ ∃ i e, sv_queue s !! i = Some e ∧ command_key e = old ∧ old ≠ k ∧
      sv_queue s' = <[i := cmd]> (sv_queue s)
  | Ok (Dropped k) => k = command_key cmd ∧ sv_queue s' = sv_queue s
  | Ok (Replayed _) | Err _ => sv_queue s' = sv_queue s
  | _ => False
  end.

(** The effect of a submission: the observations stay exactly as they are. *)
Definition submits s (cmd : GatewayCommand) s' (r : outcome SessionFailureCode GatewayAdmission) : Prop :=
  sv_ok s' ∧ same_bounds s s' ∧ sv_outstanding s' = sv_outstanding s ∧ admits s cmd s' r.

(** The observations after a poll: a delivery answers the oldest one. *)
Definition polls s s' (r : outcome SessionFailureCode (option ServiceObservationDelivery)) : Prop :=
  match r with
  | Ok (Some d) => sv_outstanding s = delivery_observation_id d :: sv_outstanding s'
  | Ok None => sv_outstanding s' = sv_outstanding s
  | _ => sv_outstanding s = [] ∧ sv_outstanding s' = []
  end.

(** Each call changes the two lists exactly as its answer says; the identity of
    a request is one that is not outstanding. *)
Class SessionServiceLaws : Prop := {
  sv_snapshot : ∀ s, sv_ok s → ss_snapshot s =
    mkServiceSnapshot (N.of_nat (length (sv_queue s))) (N.of_nat (length (sv_outstanding s)));
  sv_depth : ∀ s, sv_ok s → N.of_nat (length (sv_queue s)) ≤ ss_command_capacity s ≤ u32_max;
  sv_keys : ∀ s, sv_ok s → NoDup (command_key <$> sv_queue s);
  sv_distinct : ∀ s, sv_ok s → NoDup (sv_outstanding s);
  sv_observations : ∀ s, sv_ok s → ss_observation_capacity s ≤ u32_max;
  sv_configure : ∀ s cl, sv_ok s → let '(s', r) := ss_configure_compilation_limits cl s in
    quiet s s' ∧ sv_outstanding s' = sv_outstanding s ∧ normal r;
  sv_submit_patch : ∀ s p, sv_ok s → typed_command (GPatch p) →
    let '(s', r) := ss_submit_patch p s in submits s (GPatch p) s' r;
  sv_submit_imagination : ∀ s i, sv_ok s → typed_command (GImagination i) →
    let '(s', r) := ss_submit_imagination i s in submits s (GImagination i) s' r;
  sv_process : ∀ s, sv_ok s → let '(s', r) := ss_process_next s in
    sv_ok s' ∧ same_bounds s s' ∧ sv_queue s' = tail (sv_queue s) ∧ sv_outstanding s' = sv_outstanding s ∧ normal r;
  sv_query : ∀ s q, sv_ok s → normal (ss_query q s);
  sv_request : ∀ s q, sv_ok s → or_observation_id q ∉ sv_outstanding s → let '(s', r) := ss_request_observation q s in
    sv_ok s' ∧ same_bounds s s' ∧ sv_queue s' = sv_queue s ∧ normal r ∧
    sv_outstanding s' = sv_outstanding s ++ (if is_ok r then [or_observation_id q] else []);
  sv_poll : ∀ s, sv_ok s → let '(s', r) := ss_poll_observation s in
    sv_ok s' ∧ same_bounds s s' ∧ sv_queue s' = sv_queue s ∧ normal r ∧ polls s s' r;
}.

End laws.
Arguments SessionServiceLaws S {_ _}.

Lemma eq_incl {A} (l k : list A) : l = k → l ⊆ k.
Proof. by intros ->. Qed.

(** ** Pending commands *)

Definition kind_of (cmd : GatewayCommand) : PendingCommandKind :=
  match cmd with GPatch _ => PkPatch | GImagination i => PkImagination (from_envelope i) end.

(** The records of a queue whose commands have the correlations of a list. *)
Definition tracks (commands : gmap N PendingCommand) (queue : list GatewayCommand) (cs : list N) : Prop :=
  Forall2 (λ cmd x, commands !! command_key cmd = Some (mkPendingCommand x (kind_of cmd))) queue cs ∧
  dom commands = list_to_set (command_key <$> queue).

Definition tracks_observations (observations : gmap N PendingObservation) (order : list ObservationId) (os : list N) : Prop :=
  Forall2 (λ id x, po_correlation_id <$> observations !! id = Some x) order os ∧ dom observations = list_to_set order.

Lemma tracking_ext {A} (key : A → N) (commands commands' : gmap N PendingCommand) (kind : A → PendingCommandKind) queue cs :
  Forall2 (λ cmd x, commands !! key cmd = Some (mkPendingCommand x (kind cmd))) queue cs →
  (∀ cmd, cmd ∈ queue → commands' !! key cmd = commands !! key cmd) →
  Forall2 (λ cmd x, commands' !! key cmd = Some (mkPendingCommand x (kind cmd))) queue cs.
Proof.
  induction 1 as [|cmd x queue cs Hc Hq IH]; intros Hext; constructor.
  - rewrite Hext; [done|by left].
  - apply IH. intros c Hin. apply Hext. by right.
Qed.

Lemma elem_of_keys cmd (queue : list GatewayCommand) : cmd ∈ queue → command_key cmd ∈ command_key <$> queue.
Proof. intros Hin. apply list_elem_of_fmap. eauto. Qed.

Lemma tracks_snoc commands queue cs cmd x :
  tracks commands queue cs → command_key cmd ∉ command_key <$> queue →
  tracks (<[command_key cmd := mkPendingCommand x (kind_of cmd)]> commands) (queue ++ [cmd]) (cs ++ [x]).
Proof.
  intros [Hq Hd] Hn. split.
  - apply Forall2_app; [|repeat constructor; by rewrite lookup_insert_eq].
    eapply tracking_ext; [done|]. intros c Hin%elem_of_keys. rewrite lookup_insert_ne; [done|]. by intros Heq; rewrite <-Heq in Hin.
  - rewrite dom_insert_L, Hd, fmap_app, list_to_set_app_L. cbn. set_solver.
Qed.

Lemma tracks_tail commands cmd queue x cs :
  tracks commands (cmd :: queue) (x :: cs) → NoDup (command_key <$> cmd :: queue) →
  tracks (delete (command_key cmd) commands) queue cs.
Proof.
  intros [Hq Hd] [Hn Hnd]%NoDup_cons. apply Forall2_cons in Hq as [_ Hq]. split.
  - eapply tracking_ext; [done|]. intros c Hin%elem_of_keys. rewrite lookup_delete_ne; [done|]. by intros Heq; rewrite <-Heq in Hin.
  - rewrite dom_delete_L, Hd. cbn. apply set_eq. intros k. rewrite elem_of_difference, elem_of_union, !elem_of_singleton, elem_of_list_to_set.
    split; [intros [[?|?] ?]; done|]. intros Hk. split; [by right|]. by intros ->.
Qed.

Lemma NoDup_insert_fresh (queue : list GatewayCommand) i e cmd :
  queue !! i = Some e → command_key e ≠ command_key cmd → NoDup (command_key <$> <[i := cmd]> queue) →
  command_key cmd ∉ command_key <$> queue.
Proof.
  intros He Hne Hnd Hin. apply list_elem_of_fmap in Hin as (e' & Hk & (j & Hj)%list_elem_of_lookup_1).
  assert (i ≠ j) by (intros ->; congruence). rewrite NoDup_alt in Hnd. apply H, (Hnd i j (command_key cmd)).
  - by rewrite list_lookup_fmap, list_lookup_insert_eq by (by eapply lookup_lt_Some).
  - rewrite list_lookup_fmap, list_lookup_insert_ne by done. by rewrite Hj; cbn; rewrite <-Hk.
Qed.

Lemma tracks_replace commands queue cs i e cmd x :
  tracks commands queue cs → queue !! i = Some e → NoDup (command_key <$> queue) → command_key cmd ∉ command_key <$> queue →
  tracks (<[command_key cmd := mkPendingCommand x (kind_of cmd)]> (delete (command_key e) commands))
    (<[i := cmd]> queue) (<[i := x]> cs).
Proof.
  intros [Hq Hd] He Hnd Hn. pose proof (Forall2_length _ _ _ Hq) as Hlen. split.
  - apply Forall2_same_length_lookup. split; [by rewrite !length_insert|]. intros j c y.
    destruct (decide (j = i)) as [->|Hj].
    + rewrite !list_lookup_insert_eq by (apply lookup_lt_Some in He; lia). intros [= <-] [= <-]. by rewrite lookup_insert_eq.
    + rewrite !list_lookup_insert_ne by done. intros Hc Hy.
      rewrite lookup_insert_ne. 2:{ intros Heq. apply Hn. rewrite Heq. apply elem_of_keys. by eapply list_elem_of_lookup_2. }
      rewrite lookup_delete_ne. 2:{ intros Heq. apply Hj. eapply NoDup_lookup; [exact Hnd|rewrite list_lookup_fmap, Hc; done|].
        by rewrite list_lookup_fmap, He; cbn; rewrite Heq. }
      exact (Forall2_lookup_lr _ _ _ _ _ _ Hq Hc Hy).
  - rewrite dom_insert_L, dom_delete_L, Hd. apply set_eq. intros k.
    rewrite elem_of_union, elem_of_difference, !elem_of_singleton, !elem_of_list_to_set, !list_elem_of_fmap. split.
    + intros [->|[(c & -> & (j & Hj)%list_elem_of_lookup_1) Hne]].
      * exists cmd. split; [done|]. apply list_elem_of_lookup. exists i. apply list_lookup_insert_eq. by eapply lookup_lt_Some.
      * exists c. split; [done|]. apply list_elem_of_lookup. exists j. rewrite list_lookup_insert_ne; [done|]. intros ->. congruence.
    + intros (c & -> & (j & Hj)%list_elem_of_lookup_1). destruct (decide (j = i)) as [->|Hji].
      * rewrite list_lookup_insert_eq in Hj by (by eapply lookup_lt_Some). left. by injection Hj as ->.
      * rewrite list_lookup_insert_ne in Hj by done. right. split; [exists c; split; [done|by eapply list_elem_of_lookup_2]|].
        intros Heq. apply Hji. eapply NoDup_lookup; [exact Hnd|rewrite list_lookup_fmap, Hj; done|]. by rewrite list_lookup_fmap, He; cbn; rewrite Heq.
Qed.

(** ** Pending observations *)

Lemma tracks_observations_snoc observations order os id x rev :
  tracks_observations observations order os → id ∉ order →
  tracks_observations (<[id := mkPendingObservation x rev]> observations) (order ++ [id]) (os ++ [x]).
Proof.
  intros [Hq Hd] Hn. split.
  - apply Forall2_app; [|repeat constructor; by rewrite lookup_insert_eq].
    clear Hd. induction Hq as [|i y order os Hy _ IH]; constructor.
    + rewrite lookup_insert_ne; [done|]. intros ->. apply Hn. by left.
    + apply IH. intros Hin. apply Hn. by right.
  - rewrite dom_insert_L, Hd, list_to_set_app_L. cbn. set_solver.
Qed.

Lemma tracks_observations_delete observations order os i id :
  tracks_observations observations order os → order !! i = Some id → NoDup order →
  tracks_observations (delete id observations) (delete i order) (delete i os).
Proof.
  intros [Hq Hd] Hi Hnd. split.
  - rewrite !delete_take_drop. rewrite <-(take_drop_middle order i id Hi) in Hnd, Hq.
    destruct (Forall2_lookup_l _ _ _ _ _ Hq (list_lookup_middle (take i order) (drop (Datatypes.S i) order) id i ltac:(rewrite length_take_le; [done|apply lookup_lt_Some in Hi; lia]))) as (x & Hx & _).
    rewrite <-(take_drop_middle os i x Hx) in Hq. apply Forall2_app_inv in Hq as [Hl Hr].
    2:{ rewrite !length_take. apply lookup_lt_Some in Hi, Hx. lia. }
    apply Forall2_cons in Hr as [_ Hr]. apply NoDup_app in Hnd as (_ & Hnl & Hnr). apply NoDup_cons in Hnr as [Hnr _].
    assert (∀ l os', Forall2 (λ id x, po_correlation_id <$> observations !! id = Some x) l os' → id ∉ l →
      Forall2 (λ id' x, po_correlation_id <$> delete id observations !! id' = Some x) l os') as Hext.
    { induction 1 as [|j y l os' Hy _ IH]; intros Hn; constructor.
      - rewrite lookup_delete_ne; [done|]. intros ->. apply Hn. by left.
      - apply IH. intros Hin. apply Hn. by right. }
    apply Forall2_app; apply Hext; try done. intros Hin. apply (Hnl id Hin). by left.
  - rewrite dom_delete_L, Hd. apply set_eq. intros k. rewrite elem_of_difference, elem_of_singleton, !elem_of_list_to_set.
    rewrite delete_take_drop. rewrite <-(take_drop_middle order i id Hi) in Hnd |- * at 1. rewrite !elem_of_app, elem_of_cons.
    apply NoDup_app in Hnd as (_ & Hnl & Hnr). apply NoDup_cons in Hnr as [Hnr _]. split; [naive_solver|].
    intros [Hk|Hk]; (split; [by auto|]); intros ->; [apply (Hnl id Hk); by left|done].
Qed.

Lemma position_unique (l : list N) i k : l !! i = Some k → NoDup l → position k l = Some i.
Proof.
  intros Hi Hnd. unfold position. destruct (list_find (λ x, x = k) l) as [[j y]|] eqn:Hf.
  - apply list_find_Some in Hf as (Hj & -> & _). cbn. f_equal. by eapply NoDup_lookup.
  - exfalso. apply list_find_None in Hf. rewrite Forall_lookup in Hf. by apply (Hf i k).
Qed.

(** ** The invariant *)

Section invariant.
Context `{Digest} `{ResultJson} `{!JsonCodec ObservationMetadata}.
Context `{SessionJson LocalSessionClientMessage} `{SessionJson LocalSessionServerMessage}.
Context {S : Type} `{!SessionService S} `{!ServiceView S} `{!SessionServiceLaws S}.
Implicit Types c : SessionCore S.

Definition context_of (n : Negotiated) : SessionOutputContext :=
  mkContext (ng_schema_version n) (ng_frame_config n) (ng_compilation_limits n).

(** The phases: nothing is pending before the hello; a closed session left a
    quiescent service. *)
Definition phase_ok c : Prop :=
  match co_state c with
  | AwaitingHello => co_command_order c = [] ∧ co_observation_order c = []
  | Active n => context_ok (context_of n)
  | Closed n => context_ok (context_of n) ∧ co_command_order c = [] ∧ co_observation_order c = []
  end.

(** Correlations [cs] of the queued commands and [os] of the observations. *)
Record session_inv c (cs os : list N) : Prop := {
  si_service : sv_ok (co_service c);
  si_order : co_command_order c = command_key <$> sv_queue (co_service c);
  si_typed : Forall typed_id (co_command_order c);
  si_commands : tracks (co_command_correlations c) (sv_queue (co_service c)) cs;
  si_observations : tracks_observations (co_observation_correlations c) (co_observation_order c) os;
  si_references : map_Forall (λ id p, typed_reference (mkObservationReference id (po_scene_revision p))) (co_observation_correlations c);
  si_observations_once : NoDup (co_observation_order c);
  si_observations_bound : N.of_nat (length (co_observation_order c)) ≤ ss_observation_capacity (co_service c);
  si_reported : co_observation_pending_reported c ⊆ list_to_set (co_observation_order c);
  si_outstanding : sv_outstanding (co_service c) ⊆ co_observation_order c;
  si_live : co_live_correlations c = list_to_set (cs ++ os);
  si_once : NoDup (cs ++ os);
  si_bound : N.of_nat (length (cs ++ os)) ≤ xc_max_live_correlations (co_config c);
  si_capacity : xc_max_live_correlations (co_config c) ≤ u32_max;
  si_frame : max_frame_bytes (frame_limits (xc_receive_config (co_config c))) ≤ u64_max;
  si_phase : phase_ok c;
}.

Definition session_ok c : Prop := ∃ cs os, session_inv c cs os.

Lemma live_size c cs os : session_inv c cs os → size (co_live_correlations c) = length (cs ++ os).
Proof. intros Hi. rewrite (si_live _ _ _ Hi). apply size_list_to_set, (si_once _ _ _ Hi). Qed.

Lemma live_reached c cs os : session_inv c cs os →
  live_capacity_reached c = (xc_max_live_correlations (co_config c) <=? N.of_nat (length (cs ++ os))).
Proof.
  intros Hi. unfold live_capacity_reached, count. rewrite (live_size _ _ _ Hi), len_or_max_min.
  pose proof (si_bound _ _ _ Hi). pose proof (si_capacity _ _ _ Hi). by rewrite N.min_r by lia.
Qed.

(** The service changed without touching the queue. *)
Lemma service_quiet c cs os s' :
  session_inv c cs os → quiet (co_service c) s' → session_inv (set_service s' c) cs os.
Proof.
  intros Hi [Hok Hb Hq Ho]. destruct Hi.
  split; cbn [co_service co_command_order co_command_correlations co_observation_correlations co_observation_order
    co_observation_pending_reported co_live_correlations co_config set_service]; try done.
  - by rewrite Hq.
  - by rewrite Hq.
  - by rewrite (sb_observations _ _ Hb).
  - etrans; [exact Ho|done].
Qed.

Definition push c s' (cmd : GatewayCommand) (x : N) : SessionCore S :=
  set_commands (<[command_key cmd := mkPendingCommand x (kind_of cmd)]> (co_command_correlations c))
    (co_command_order c ++ [command_key cmd]) (set_live ({[x]} ∪ co_live_correlations c) (set_service s' c)).

(** A command was appended to the queue. *)
Lemma push_inv c cs os s' cmd x n :
  session_inv c cs os → co_state c = Active n → sv_ok s' → same_bounds (co_service c) s' →
  sv_outstanding s' ⊆ sv_outstanding (co_service c) → sv_queue s' = sv_queue (co_service c) ++ [cmd] →
  typed_id (command_key cmd) →
  x ∉ co_live_correlations c → N.of_nat (length (cs ++ os)) < xc_max_live_correlations (co_config c) →
  session_inv (push c s' cmd x) (cs ++ [x]) os.
Proof.
  intros Hi Hst Hok Hb Ho Hq Hty Hx Hlt.
  pose proof (sv_keys _ Hok) as Hk. rewrite Hq, fmap_app in Hk. apply NoDup_app in Hk as (_ & Hk & _).
  rewrite (si_live _ _ _ Hi), elem_of_list_to_set in Hx. pose proof (si_once _ _ _ Hi) as Hn. pose proof Hi as Hi0.
  assert ((cs ++ [x]) ++ os ≡ₚ x :: cs ++ os) as Hperm by (rewrite <-app_assoc; symmetry; apply Permutation_middle).
  destruct Hi. split; cbn [push co_service co_command_order co_command_correlations co_observation_correlations
    co_observation_order co_observation_pending_reported co_live_correlations co_config set_service set_live set_commands]; try done.
  - by rewrite Hq, fmap_app, si_order0.
  - apply Forall_app. split; [done|by constructor].
  - rewrite Hq. apply tracks_snoc; [done|]. intros Hin. apply (Hk _ Hin). by left.
  - by rewrite (sb_observations _ _ Hb).
  - by etrans.
  - rewrite si_live0. apply set_eq. intros y. rewrite elem_of_union, elem_of_singleton, !elem_of_list_to_set, Hperm, elem_of_cons.
    done.
  - rewrite Hperm. by constructor.
  - rewrite (Permutation_length Hperm). cbn [length]. lia.
  - unfold phase_ok in *. cbn [push co_state co_command_order co_observation_order set_commands set_live set_service]. by rewrite Hst in si_phase0 |- *.
Qed.

Definition replace c s' (i : nat) (old : IdempotencyKey) (y : N) (cmd : GatewayCommand) (x : N) : SessionCore S :=
  set_commands (<[command_key cmd := mkPendingCommand x (kind_of cmd)]> (delete old (co_command_correlations c)))
    (<[i := command_key cmd]> (co_command_order c))
    (set_live ({[x]} ∪ (co_live_correlations c ∖ {[y]})) (set_service s' c)).

(** A queued command was superseded in place. *)
Lemma replace_inv c cs os s' i e y cmd x n :
  session_inv c cs os → co_state c = Active n → sv_ok s' → same_bounds (co_service c) s' →
  sv_outstanding s' ⊆ sv_outstanding (co_service c) → sv_queue (co_service c) !! i = Some e → cs !! i = Some y →
  command_key e ≠ command_key cmd → sv_queue s' = <[i := cmd]> (sv_queue (co_service c)) →
  typed_id (command_key cmd) → x ∉ co_live_correlations c →
  session_inv (replace c s' i (command_key e) y cmd x) (<[i := x]> cs) os.
Proof.
  intros Hi Hst Hok Hb Ho He Hy Hne Hq Hty Hx.
  pose proof (sv_keys _ Hok) as Hk. rewrite Hq in Hk. pose proof (sv_keys _ (si_service _ _ _ Hi)) as Hk0.
  pose proof (NoDup_insert_fresh _ _ _ _ He Hne Hk) as Hfresh.
  rewrite (si_live _ _ _ Hi), elem_of_list_to_set in Hx. pose proof (si_once _ _ _ Hi) as Hn.
  assert (cs ≡ₚ y :: delete i cs) as Hcs by (by apply delete_Permutation).
  assert (<[i := x]> cs ≡ₚ x :: delete i cs) as Hcs'.
  { rewrite insert_take_drop by (by eapply lookup_lt_Some). rewrite delete_take_drop. symmetry. apply Permutation_middle. }
  assert (cs ++ os ≡ₚ y :: delete i cs ++ os) as Hl by (rewrite Hcs at 1; done).
  assert (<[i := x]> cs ++ os ≡ₚ x :: delete i cs ++ os) as Hl' by (by rewrite Hcs').
  rewrite Hl in Hn, Hx. apply NoDup_cons in Hn as [Hny Hn]. apply not_elem_of_cons in Hx as [Hxy Hx].
  destruct Hi. split; cbn [replace co_service co_command_order co_command_correlations co_observation_correlations
    co_observation_order co_observation_pending_reported co_live_correlations co_config set_service set_live set_commands]; try done.
  - by rewrite Hq, list_fmap_insert, si_order0.
  - by apply Forall_insert.
  - rewrite Hq. by apply tracks_replace.
  - by rewrite (sb_observations _ _ Hb).
  - by etrans.
  - rewrite si_live0. apply set_eq. intros z.
    rewrite elem_of_union, elem_of_difference, !elem_of_singleton, !elem_of_list_to_set, Hl, Hl', !elem_of_cons.
    split; [naive_solver|]. intros [->|Hz]; [by left|]. right. split; [by right|]. by intros ->.
  - rewrite Hl'. by constructor.
  - by rewrite length_app, length_insert, <-length_app.
  - unfold phase_ok in *. cbn [replace co_state co_command_order co_observation_order set_commands set_live set_service]. by rewrite Hst in si_phase0 |- *.
Qed.

Definition pop c s' (cmd : GatewayCommand) (x : N) (order : list IdempotencyKey) : SessionCore S :=
  set_live (co_live_correlations c ∖ {[x]})
    (set_service s' (set_commands (delete (command_key cmd) (co_command_correlations c)) order c)).

(** The head of the queue was processed. *)
Lemma pop_inv c cs os s' cmd q x n :
  session_inv c (x :: cs) os → co_state c = Active n → sv_ok s' → same_bounds (co_service c) s' →
  sv_outstanding s' ⊆ sv_outstanding (co_service c) → sv_queue (co_service c) = cmd :: q → sv_queue s' = q →
  session_inv (pop c s' cmd x (command_key <$> q)) cs os.
Proof.
  intros Hi Hst Hok Hb Ho Hq Hq'. pose proof (sv_keys _ (si_service _ _ _ Hi)) as Hk0.
  pose proof (si_once _ _ _ Hi) as Hn. cbn [app] in Hn. apply NoDup_cons in Hn as [Hnx Hn].
  destruct Hi. split; cbn [pop co_service co_command_order co_command_correlations co_observation_correlations
    co_observation_order co_observation_pending_reported co_live_correlations co_config set_service set_live set_commands]; try done.
  - by rewrite Hq'.
  - rewrite si_order0, Hq in si_typed0. by apply Forall_cons in si_typed0 as [_ ?].
  - rewrite Hq', Hq in *. by eapply tracks_tail.
  - by rewrite (sb_observations _ _ Hb).
  - by etrans.
  - rewrite si_live0. apply set_eq. intros z. rewrite elem_of_difference, elem_of_singleton, !elem_of_list_to_set. cbn [app].
    rewrite elem_of_cons. split; [naive_solver|]. intros Hz. split; [by right|]. by intros ->.
  - cbn [app length] in si_bound0. lia.
  - unfold phase_ok in *. cbn [pop co_state co_command_order co_observation_order set_commands set_live set_service]. by rewrite Hst in si_phase0 |- *.
Qed.

Definition observe c s' (r : ObservationRequest) (x : N) : SessionCore S :=
  set_observations (<[or_observation_id r := mkPendingObservation x (or_scene_revision r)]> (co_observation_correlations c))
    (co_observation_order c ++ [or_observation_id r]) (co_observation_pending_reported c)
    (set_live ({[x]} ∪ co_live_correlations c) (set_service s' c)).

(** An observation was admitted. *)
Lemma observe_inv c cs os s' r x n :
  session_inv c cs os → co_state c = Active n → sv_ok s' → same_bounds (co_service c) s' →
  sv_queue s' = sv_queue (co_service c) → sv_outstanding s' ⊆ or_observation_id r :: sv_outstanding (co_service c) →
  typed_reference (observation_reference r) → or_observation_id r ∉ co_observation_order c →
  N.of_nat (length (co_observation_order c)) < ss_observation_capacity (co_service c) →
  x ∉ co_live_correlations c → N.of_nat (length (cs ++ os)) < xc_max_live_correlations (co_config c) →
  session_inv (observe c s' r x) cs (os ++ [x]).
Proof.
  intros Hi Hst Hok Hb Hq Ho Hty Hid Hcap Hx Hlt.
  rewrite (si_live _ _ _ Hi), elem_of_list_to_set in Hx. pose proof (si_once _ _ _ Hi) as Hn.
  assert (cs ++ os ++ [x] ≡ₚ x :: cs ++ os) as Hperm by (rewrite app_assoc, Permutation_app_comm; done).
  destruct Hi. split; cbn [observe co_service co_command_order co_command_correlations co_observation_correlations
    co_observation_order co_observation_pending_reported co_live_correlations co_config set_service set_live set_observations]; try done.
  - by rewrite Hq.
  - by rewrite Hq.
  - by apply tracks_observations_snoc.
  - by apply map_Forall_insert_2.
  - apply NoDup_app. split_and!; [done| |apply NoDup_singleton]. intros z Hz Hz'%list_elem_of_singleton. by subst z.
  - rewrite length_app, (sb_observations _ _ Hb). cbn [length]. lia.
  - rewrite list_to_set_app_L. set_solver.
  - intros z Hz%Ho. apply elem_of_cons in Hz as [->|Hz]; apply elem_of_app; [right; by left|left; by apply si_outstanding0].
  - rewrite si_live0. apply set_eq. intros y. by rewrite elem_of_union, elem_of_singleton, !elem_of_list_to_set, Hperm, elem_of_cons.
  - rewrite Hperm. by constructor.
  - rewrite (Permutation_length Hperm). cbn [length]. lia.
  - unfold phase_ok in *. cbn [observe co_state co_command_order co_observation_order set_observations set_live set_service].
    by rewrite Hst in si_phase0 |- *.
Qed.

Definition retire c s' (i : nat) (id : ObservationId) (x : N) : SessionCore S :=
  set_live (co_live_correlations c ∖ {[x]})
    (set_observations (delete id (co_observation_correlations c)) (delete i (co_observation_order c))
       (co_observation_pending_reported c ∖ {[id]}) (set_service s' c)).

(** An observation was answered. *)
Lemma retire_inv c cs os s' i id x n :
  session_inv c cs os → co_state c = Active n → sv_ok s' → same_bounds (co_service c) s' →
  sv_queue s' = sv_queue (co_service c) → sv_outstanding s' ⊆ filter (λ id', id' ≠ id) (sv_outstanding (co_service c)) →
  co_observation_order c !! i = Some id → os !! i = Some x →
  session_inv (retire c s' i id x) cs (delete i os).
Proof.
  intros Hi Hst Hok Hb Hq Ho Hid Hx. pose proof (si_once _ _ _ Hi) as Hn.
  assert (cs ++ os ≡ₚ x :: cs ++ delete i os) as Hperm.
  { rewrite (delete_Permutation os i x Hx) at 1. symmetry. apply Permutation_middle. }
  rewrite Hperm in Hn. apply NoDup_cons in Hn as [Hnx Hn].
  assert (co_observation_order c ≡ₚ id :: delete i (co_observation_order c)) as Hord by (by apply delete_Permutation).
  destruct Hi. pose proof si_observations_once0 as Hoo. rewrite Hord in Hoo. apply NoDup_cons in Hoo as [Hni Hoo].
  split; cbn [retire co_service co_command_order co_command_correlations co_observation_correlations
    co_observation_order co_observation_pending_reported co_live_correlations co_config set_service set_live set_observations]; try done.
  - by rewrite Hq.
  - by rewrite Hq.
  - by apply tracks_observations_delete.
  - by apply map_Forall_delete.
  - rewrite (sb_observations _ _ Hb). rewrite (Permutation_length Hord) in si_observations_bound0. cbn [length] in *. lia.
  - intros z [Hz Hne]%elem_of_difference. apply si_reported0 in Hz. rewrite elem_of_list_to_set, Hord, elem_of_cons in Hz.
    rewrite elem_of_list_to_set. destruct Hz as [->|]; [|done]. by rewrite elem_of_singleton in Hne.
  - intros z [Hne Hz]%Ho%list_elem_of_filter. apply si_outstanding0 in Hz. rewrite Hord, elem_of_cons in Hz. by destruct Hz.
  - rewrite si_live0. apply set_eq. intros z. rewrite elem_of_difference, elem_of_singleton, !elem_of_list_to_set, Hperm, elem_of_cons.
    split; [naive_solver|]. intros Hz. split; [by right|]. by intros ->.
  - rewrite (Permutation_length Hperm) in si_bound0. cbn [length] in *. lia.
  - unfold phase_ok in *. cbn [retire co_state co_command_order co_observation_order set_observations set_live set_service].
    by rewrite Hst in si_phase0 |- *.
Qed.

(** A pending observation was reported. *)
Lemma report_inv c cs os id :
  session_inv c cs os → id ∈ co_observation_order c →
  session_inv (set_observations (co_observation_correlations c) (co_observation_order c)
    ({[id]} ∪ co_observation_pending_reported c) c) cs os.
Proof.
  intros Hi Hid. destruct Hi. split; try done.
  cbn [co_observation_pending_reported co_observation_order set_observations].
  intros z [->%elem_of_singleton|Hz]%elem_of_union; [by apply elem_of_list_to_set|by apply si_reported0].
Qed.

(** The session is opened and closed. *)
Lemma state_inv c cs os st : session_inv c cs os → phase_ok (set_state st c) → session_inv (set_state st c) cs os.
Proof. intros Hi Hp. destruct Hi. by split. Qed.

End invariant.
