(* ===== verification/ExecutorSteps.v ===== *)
(** * Operations of the executor

    What each operation of an active session does: it answers with frames that
    fit the negotiated bounds, keeps the invariant, and opens and closes
    correlations as its frames say. *)

From S2P Require Import Prelude Machine Ordering Floats Values Components Messages MessageSpec Imagination ImaginationSpec Codec Compilation Ecs WorldTypes Hierarchy Render World SceneSpec Hash Compiler CompilerReport CompilerOutcome Recovery Engine Query Gateway GatewayInvariant Observation Transport SessionLimits Session Executor ExecutorFrames ExecutorInvariant.

Open Scope N_scope.

(** ** Frames and correlations *)

(** Messages that end a pending correlation, and messages that open one. *)
Definition final_kind (k : LocalSessionServerKind) : bool :=
  match k with SPatchCompleted _ | SImaginationCompleted _ | SFailure _ => true | _ => false end.

Definition opening_kind (k : LocalSessionServerKind) : bool :=
  match k with
  | SPatchAdmission a => match pa_status a with PaQueued | PaSuperseded _ => true | _ => false end
  | SImaginationAdmission a => match ia_status a with IaQueued | IaSuperseded _ => true | _ => false end
  | SObservationAccepted _ => true
  | _ => false
  end.

Section steps.
Context `{Digest} `{ResultJson} `{!JsonCodec ObservationMetadata}.
Context `{SessionJson LocalSessionClientMessage} `{SessionJson LocalSessionServerMessage}.
Context `{!SessionJsonLaws server_validate LocalSessionClientMessage} `{!SessionJsonSizes}.
Context {S : Type} `{!SessionService S} `{!ServiceView S} `{!SessionServiceLaws S}.
Implicit Types c : SessionCore S.
Implicit Types context : SessionOutputContext.

(** A frame as the client reads it. *)
Definition frame_is (p : LocalSessionServerKind → bool) (observation : bool) context (f : LocalFrame) : bool :=
  match f with
  | FObservation _ _ _ => observation
  | FControl _ _ =>
      match decode_server_control_frame f (cx_frame_config context) (cx_compilation_limits context) with
      | Ok (_, m) => p (sm_message m)
      | _ => false
      end
  end.
Definition final context (f : LocalFrame) : bool := frame_is final_kind true context f.
Definition opening context (f : LocalFrame) : bool := frame_is opening_kind false context f.

(** The live correlations after some frames: those without a final frame, and
    the ones an admission opened. *)
Definition discipline context (live : gset N) (frames : list LocalFrame) (live' : gset N) : Prop :=
  ∀ x, x ∈ live' ↔
    (x ∈ live ∧ ¬ ∃ f, f ∈ frames ∧ correlation_id f = x ∧ final context f = true) ∨
    (∃ f, f ∈ frames ∧ correlation_id f = x ∧ opening context f = true).

(** The frame can be framed under the negotiated bounds. *)
Definition sendable context (f : LocalFrame) : Prop := is_ok (encode_frame f (cx_frame_config context)) = true.

Lemma emits_frame context x k f :
  emits context x k f →
  correlation_id f = x ∧ sendable context f ∧ final context f = final_kind k ∧ opening context f = opening_kind k.
Proof.
  intros (Hc & He & Hd). unfold final, opening, frame_is. destruct f; [|by cbn in Hd]. rewrite Hd. done.
Qed.

(** The answer to a request. *)
Record answered context c (x : N) (frames : list LocalFrame) c' : Prop := {
  an_ok : session_ok c';
  an_config : co_config c' = co_config c;
  an_sendable : Forall (sendable context) frames;
  an_live : discipline context (co_live_correlations c) frames (co_live_correlations c');
  an_count : (1 ≤ length frames ≤ MAX_OUTPUT_FRAMES_PER_CALL)%nat;
  an_to : ∃ f, last frames = Some f ∧ correlation_id f = x;
}.

Lemma answered_now context c x k f c' :
  emits context x k f → opening_kind k = false → x ∉ co_live_correlations c →
  session_ok c' → co_config c' = co_config c → co_live_correlations c' = co_live_correlations c →
  answered context c x [f] c'.
Proof.
  intros (Hx & Hs & Hf & Ho)%emits_frame Hk Hn Hok Hcfg Hl. rewrite Hk in Ho. split; try done.
  - by constructor.
  - intros y. rewrite Hl. setoid_rewrite list_elem_of_singleton. split.
    + intros Hy. left. split; [done|]. intros (? & -> & Heq & _). by rewrite <-Heq, Hx in Hy.
    + intros [[Hy _]|(? & -> & _ & Hop)]; [done|]. by rewrite Ho in Hop.
  - unfold MAX_OUTPUT_FRAMES_PER_CALL. cbn. lia.
  - by exists f.
Qed.

Lemma answered_open context c x k f c' :
  emits context x k f → opening_kind k = true → x ∉ co_live_correlations c →
  session_ok c' → co_config c' = co_config c → co_live_correlations c' = {[x]} ∪ co_live_correlations c →
  answered context c x [f] c'.
Proof.
  intros (Hx & Hs & Hf & Ho)%emits_frame Hk Hn Hok Hcfg Hl. rewrite Hk in Ho. split; try done.
  - by constructor.
  - intros y. rewrite Hl, elem_of_union, elem_of_singleton. setoid_rewrite list_elem_of_singleton. split.
    + intros [->|Hy]; [right; by exists f|]. left. split; [done|]. intros (? & -> & Heq & _). by rewrite <-Heq, Hx in Hy.
    + intros [[Hy _]|(? & -> & <- & _)]; [by right|by left].
  - unfold MAX_OUTPUT_FRAMES_PER_CALL. cbn. lia.
  - by exists f.
Qed.

Lemma answered_replace context c x y k k' f g c' :
  emits context y k f → final_kind k = true → emits context x k' g → opening_kind k' = true →
  x ∉ co_live_correlations c → y ∈ co_live_correlations c →
  session_ok c' → co_config c' = co_config c → co_live_correlations c' = {[x]} ∪ (co_live_correlations c ∖ {[y]}) →
  answered context c x [f; g] c'.
Proof.
  intros (Hfy & Hfs & Hff & Hfo)%emits_frame Hk (Hgx & Hgs & Hgf & Hgo)%emits_frame Hk' Hn Hy Hok Hcfg Hl.
  rewrite Hk in Hff. rewrite Hk' in Hgo.
  assert (opening_kind k = false) as Hko by (by destruct k). rewrite Hko in Hfo. split; try done.
  - by repeat constructor.
  - intros z. rewrite Hl, elem_of_union, elem_of_difference, !elem_of_singleton.
    setoid_rewrite elem_of_cons. setoid_rewrite list_elem_of_singleton. split.
    + intros [->|[Hz Hzy]]; [right; exists g; auto|]. left. split; [done|].
      intros (h & [->| ->] & Heq & _); [by rewrite <-Heq, Hfy in Hzy|by rewrite <-Heq, Hgx in Hz].
    + intros [[Hz Hnf]|(h & [->| ->] & Heq & Hop)].
      * right. split; [done|]. intros ->. apply Hnf. exists f. auto.
      * by rewrite Hfo in Hop.
      * left. by rewrite <-Heq.
  - unfold MAX_OUTPUT_FRAMES_PER_CALL. cbn. lia.
  - by exists g.
Qed.

(** ** Submissions *)

(** An answer about another command: another kind under the key, or another
    command's result. *)
Definition foreign c (cmd : GatewayCommand) (a : GatewayAdmission) : Prop :=
  match a with
  | AlreadyQueued k => pc_kind <$> co_command_correlations c !! k ≠ Some (kind_of cmd)
  | Replayed response =>
      match cmd, response with
      | GPatch p, PatchApplied receipt => receipt_idempotency_key receipt ≠ patch_idempotency_key p
      | GImagination _, ImaginationProcessed _ _ => False
      | _, _ => True
      end
  | _ => False
  end.

(** A submission is answered, or refused because the service answered about
    another command. *)
Definition submission_answered context c x cmd (submitted : S * outcome SessionFailureCode GatewayAdmission) c' r : Prop :=
  (∃ frames, r = Ok frames ∧ answered context c x frames c') ∨
  (∃ reason s' a, r = Err (XStateInvariant reason) ∧ submitted = (s', Ok a) ∧ foreign c cmd a ∧
     c' = set_service s' c ∧ session_ok c').

Lemma reserve_ok c cs os x :
  session_inv c cs os → x ∉ co_live_correlations c → N.of_nat (length (cs ++ os)) < xc_max_live_correlations (co_config c) →
  reserve_correlation x c = (set_live ({[x]} ∪ co_live_correlations c) c, Ok tt).
Proof.
  intros Hi Hx Hlt. unfold reserve_correlation. rewrite (live_reached _ _ _ Hi), (proj2 (N.leb_gt _ _)) by lia.
  by rewrite bool_decide_false.
Qed.

Lemma release_correlation_ok c x :
  x ∈ co_live_correlations c → release_correlation x c = (set_live (co_live_correlations c ∖ {[x]}) c, Ok tt).
Proof. intros Hx. unfold release_correlation. by rewrite bool_decide_true. Qed.

Lemma tracked_lookup c cs os i e :
  session_inv c cs os → sv_queue (co_service c) !! i = Some e →
  ∃ x, cs !! i = Some x ∧ co_command_correlations c !! command_key e = Some (mkPendingCommand x (kind_of e)) ∧
    x ∈ co_live_correlations c.
Proof.
  intros Hi He. destruct (si_commands _ _ _ Hi) as [Hq _].
  destruct (Forall2_lookup_l _ _ _ _ _ Hq He) as (x & Hx & Hp). exists x. split_and!; [done..|].
  rewrite (si_live _ _ _ Hi), elem_of_list_to_set. apply elem_of_app. left. by eapply list_elem_of_lookup_2.
Qed.

(** Superseding a queued command. *)
Lemma supersession_ok c cs os s' i e y cmd x n admitted g texta textb :
  let context := context_of n in
  session_inv c cs os → co_state c = Active n → context_ok context →
  sv_queue (co_service c) !! i = Some e → cs !! i = Some y → x ∉ co_live_correlations c →
  admitted = Ok g →
  ∃ f, emits context y (SFailure FcCommandRejected) f ∧
    handle_supersession_with x (command_key cmd) (command_key e) admitted (mkPendingCommand x (kind_of cmd))
      texta textb context (set_service s' c) = (replace c s' i (command_key e) y cmd x, Ok [f; g]).
Proof.
  intros context Hi Hst Hctx He Hy Hx ->. destruct (tracked_lookup _ _ _ _ _ Hi He) as (y' & Hy' & Hp & Hlive).
  rewrite Hy in Hy'. injection Hy' as <-. destruct (failure_frame context y FcCommandRejected Hctx) as (f & Hf & Hem).
  exists f. split; [done|]. unfold handle_supersession_with.
  cbn [exec_bind gets lift set_service co_command_correlations]. rewrite Hp. cbn [fmap option_fmap option_map ok_or pc_correlation_id].
  rewrite Hf. cbn [exec_bind lift gets co_command_order set_service].
  rewrite (position_unique (co_command_order c) i (command_key e)).
  2:{ rewrite (si_order _ _ _ Hi), list_lookup_fmap, He. done. }
  2:{ rewrite (si_order _ _ _ Hi). apply sv_keys, (si_service _ _ _ Hi). }
  cbn [ok_or exec_bind modify]. unfold exec_bind. rewrite release_correlation_ok by done.
  cbn [set_live set_commands set_service co_live_correlations]. unfold reserve_correlation, live_capacity_reached, count.
  cbn [co_live_correlations co_config set_live set_commands set_service]. rewrite len_or_max_min.
  rewrite size_difference by (by apply singleton_subseteq_l). rewrite (live_size _ _ _ Hi), size_singleton.
  pose proof (si_bound _ _ _ Hi). pose proof (si_capacity _ _ _ Hi).
  assert (0 < length (cs ++ os))%nat by (rewrite length_app; apply lookup_lt_Some in Hy; lia).
  rewrite (proj2 (N.leb_gt _ _)) by lia. rewrite bool_decide_false by set_solver. reflexivity.
Qed.

Lemma reserve_service_ok c cs os s' x :
  session_inv c cs os → x ∉ co_live_correlations c → N.of_nat (length (cs ++ os)) < xc_max_live_correlations (co_config c) →
  reserve_correlation x (set_service s' c) = (set_live ({[x]} ∪ co_live_correlations c) (set_service s' c), Ok tt).
Proof.
  intros Hi Hx Hlt. pose proof (reserve_ok c cs os x Hi Hx Hlt) as Hr. unfold reserve_correlation, live_capacity_reached in *.
  cbn [set_service co_config co_live_correlations] in *. destruct (_ <=? _); [done|]. by rewrite bool_decide_false.
Qed.

Lemma order_length c cs os : session_inv c cs os → length (co_command_order c) = length (sv_queue (co_service c)).
Proof. intros Hi. by rewrite (si_order _ _ _ Hi), length_fmap. Qed.

(** Room in the queue means room for a correlation, unless the submission was
    blocked. *)
Lemma unblocked_room c cs os :
  session_inv c cs os → submission_blocked c = false →
  N.of_nat (length (sv_queue (co_service c))) < ss_command_capacity (co_service c) →
  N.of_nat (length (cs ++ os)) < xc_max_live_correlations (co_config c).
Proof.
  intros Hi Hb Hlt. unfold submission_blocked in Hb. rewrite (live_reached _ _ _ Hi), (sv_snapshot _ (si_service _ _ _ Hi)) in Hb.
  cbn [sn_command_depth] in Hb. rewrite (proj2 (N.ltb_lt _ _)), andb_true_r in Hb by done. by apply N.leb_gt in Hb.
Qed.

Lemma queued_room c cs os s' cmd :
  session_inv c cs os → sv_ok s' → same_bounds (co_service c) s' → sv_queue s' = sv_queue (co_service c) ++ [cmd] →
  N.of_nat (length (sv_queue (co_service c))) < ss_command_capacity (co_service c) ∧
  beyond_capacity (set_service s' c) = false.
Proof.
  intros Hi Hok Hb Hq. pose proof (sv_depth _ Hok) as Hd. rewrite Hq, length_app, (sb_commands _ _ Hb) in Hd. cbn [length] in Hd.
  split; [lia|]. unfold beyond_capacity, count. cbn [set_service co_service co_command_order].
  rewrite (order_length _ _ _ Hi), len_or_max_min, (sb_commands _ _ Hb). apply N.leb_gt. lia.
Qed.

Lemma submits_quiet c s' : sv_ok s' → same_bounds (co_service c) s' →
  sv_outstanding s' ⊆ sv_outstanding (co_service c) → sv_queue s' = sv_queue (co_service c) → quiet (co_service c) s'.
Proof. by split. Qed.

(** A failure, or any message that opens nothing, on an unchanged queue. *)
Lemma quiet_answer context c cs os s' x k f :
  session_inv c cs os → quiet (co_service c) s' → emits context x k f → opening_kind k = false →
  x ∉ co_live_correlations c → answered context c x [f] (set_service s' c).
Proof. intros Hi Hq He Hk Hx. eapply answered_now; try done. exists cs, os. by apply service_quiet. Qed.

Lemma quiet_refl s : sv_ok s → quiet s s.
Proof. by intros. Qed.

Lemma set_service_id c : set_service (co_service c) c = c.
Proof. by destruct c. Qed.

Lemma same_answer context c cs os x k f :
  session_inv c cs os → emits context x k f → opening_kind k = false → x ∉ co_live_correlations c →
  answered context c x [f] c.
Proof. intros Hi He Hk Hx. eapply answered_now; try done. by exists cs, os. Qed.

(** The queue grew by a command. *)
Lemma queued_answer c cs os s' cmd x n k f :
  session_inv c cs os → co_state c = Active n → sv_ok s' → same_bounds (co_service c) s' →
  sv_outstanding s' ⊆ sv_outstanding (co_service c) → sv_queue s' = sv_queue (co_service c) ++ [cmd] →
  typed_id (command_key cmd) → x ∉ co_live_correlations c → submission_blocked c = false →
  emits (context_of n) x k f → opening_kind k = true →
  (then! reserve_correlation x in
   then! push_command (command_key cmd) (mkPendingCommand x (kind_of cmd)) in
   lift (Ok [f])) (set_service s' c) = (push c s' cmd x, Ok [f]) ∧
  answered (context_of n) c x [f] (push c s' cmd x).
Proof.
  intros Hi Hst Hok Hb Ho Hq Hty Hx Hbl He Hk. destruct (queued_room _ _ _ _ _ Hi Hok Hb Hq) as [Hlt _].
  pose proof (unblocked_room _ _ _ Hi Hbl Hlt) as Hroom. split.
  - unfold exec_bind. by rewrite (reserve_service_ok _ _ _ _ _ Hi Hx Hroom).
  - eapply answered_open; try done. exists (cs ++ [x]), os. by eapply push_inv.
Qed.

Lemma superseded_answer c cs os s' i e cmd x n k g texta textb :
  session_inv c cs os → co_state c = Active n → sv_ok s' → same_bounds (co_service c) s' →
  sv_outstanding s' ⊆ sv_outstanding (co_service c) → sv_queue (co_service c) !! i = Some e →
  command_key e ≠ command_key cmd → sv_queue s' = <[i := cmd]> (sv_queue (co_service c)) →
  typed_id (command_key cmd) → x ∉ co_live_correlations c → context_ok (context_of n) → emits (context_of n) x k g → opening_kind k = true →
  ∃ c' frames, handle_supersession_with x (command_key cmd) (command_key e) (Ok g) (mkPendingCommand x (kind_of cmd))
    texta textb (context_of n) (set_service s' c) = (c', Ok frames) ∧ answered (context_of n) c x frames c'.
Proof.
  intros Hi Hst Hok Hb Ho He Hne Hq Hty Hx Hctx Hem Hk. destruct (tracked_lookup _ _ _ _ _ Hi He) as (y & Hy & _ & Hlive).
  destruct (supersession_ok c cs os s' i e y cmd x n (Ok g) g texta textb Hi Hst Hctx He Hy Hx eq_refl) as (f & Hf & Heq).
  eexists _, _. split; [exact Heq|]. eapply answered_replace; [exact Hf|done|exact Hem|done..| |done|done].
  exists (<[i := x]> cs), os. by eapply replace_inv.
Qed.

Lemma queued_typed c cs os i e : session_inv c cs os → sv_queue (co_service c) !! i = Some e → typed_id (command_key e).
Proof.
  intros Hi He. pose proof (si_typed _ _ _ Hi) as Ht. rewrite (si_order _ _ _ Hi), Forall_fmap, Forall_lookup in Ht. by apply (Ht i e).
Qed.

Lemma ensure_same key : ensure_admission_key key key = Ok tt.
Proof. unfold ensure_admission_key. by rewrite N.eqb_refl. Qed.

Lemma active_context c cs os n : session_inv c cs os → co_state c = Active n →
  context_ok (context_of n) ∧ current_output_context c = context_of n.
Proof.
  intros Hi Hst. pose proof (si_phase _ _ _ Hi) as Hp. unfold phase_ok, current_output_context in *. by rewrite Hst in *.
Qed.

(** A small reply, a failure and a reply that may be limited, on an unchanged queue. *)
Lemma small_reply c cs os s' x n k :
  session_inv c cs os → context_ok (context_of n) → quiet (co_service c) s' → x ∉ co_live_correlations c →
  small_message k = true → small_valid (ng_schema_version n) k → opening_kind k = false →
  ∃ f, control_frame_for_context x k (context_of n) = Ok f ∧ answered (context_of n) c x [f] (set_service s' c).
Proof.
  intros Hi Hctx Hq Hx Hs Hv Hk. destruct (small_frame (context_of n) x k Hctx Hs Hv) as (f & Hf & He).
  exists f. split; [done|]. by eapply quiet_answer.
Qed.

Lemma failure_reply c cs os s' x n code :
  session_inv c cs os → context_ok (context_of n) → quiet (co_service c) s' → x ∉ co_live_correlations c →
  ∃ f, single_failure_for x code (context_of n) = Ok [f] ∧ answered (context_of n) c x [f] (set_service s' c).
Proof.
  intros Hi Hctx Hq Hx. destruct (single_failure_ok (context_of n) x code Hctx) as (f & Hf & He).
  exists f. split; [done|]. by eapply quiet_answer.
Qed.

Lemma limited_reply c cs os s' x n k :
  session_inv c cs os → context_ok (context_of n) → quiet (co_service c) s' → x ∉ co_live_correlations c →
  opening_kind k = false →
  ∃ f, control_or_limit_failure_for x k (context_of n) = Ok f ∧ answered (context_of n) c x [f] (set_service s' c).
Proof.
  intros Hi Hctx Hq Hx Hk. destruct (limited_frame (context_of n) x k Hctx) as (f & k' & Hf & He & Hk').
  exists f. split; [done|]. eapply quiet_answer; [done..| |done]. by destruct Hk' as [->| ->].
Qed.

(** One step of a computation whose result is known. *)
Ltac exec_step := unfold exec_bind at 1; cbn [lift gets modify guard_err set_service co_command_correlations].

Lemma submit_patch_spec c cs os n x p :
  session_inv c cs os → co_state c = Active n → context_ok (context_of n) →
  x ∉ co_live_correlations c → typed_command (GPatch p) → typed_id (patch_idempotency_key p) →
  let '(c', r) := submit_patch x p (context_of n) c in
  submission_answered (context_of n) c x (GPatch p) (ss_submit_patch p (co_service c)) c' r.
Proof.
  intros Hi Hst Hctx Hx Ht Hty. unfold submit_patch. exec_step. destruct (submission_blocked c) eqn:Hbl.
  { destruct (failure_reply c cs os _ x n FcCapacityExceeded Hi Hctx (quiet_refl _ (si_service _ _ _ Hi)) Hx) as (f & Hf & Ha).
    cbn [lift]. rewrite Hf. rewrite set_service_id in Ha. left. by exists [f]. }
  exec_step. unfold call. pose proof (sv_submit_patch _ p (si_service _ _ _ Hi) Ht) as Hsub.
  destruct (ss_submit_patch p (co_service c)) as [s' r]. destruct Hsub as (Hok & Hb & Ho%eq_incl & Hr). unfold admits in Hr.
  change (patch_idempotency_key p) with (command_key (GPatch p)) in *.
  assert (sv_queue s' = sv_queue (co_service c) → quiet (co_service c) s') as Hquiet by (by intros; apply submits_quiet).
  assert (sv_queue s' = sv_queue (co_service c) → session_ok (set_service s' c)) as Hkeep.
  { intros Hq. exists cs, os. by apply service_quiet, Hquiet. }
  destruct r as [[k|k|k old|k|[receipt|compilation receipt]]|code| |]; try done.
  - destruct Hr as [-> Hq]. exec_step. rewrite ensure_same. exec_step.
    rewrite (proj2 (queued_room _ _ _ _ _ Hi Hok Hb Hq)). exec_step.
    destruct (small_frame (context_of n) x (SPatchAdmission (mkPatchAdmission (command_key (GPatch p)) PaQueued)) Hctx eq_refl (conj Hty I)) as (f & Hf & He).
    unfold patch_admission_frame. exec_step. rewrite Hf.
    destruct (queued_answer c cs os s' (GPatch p) x n _ f Hi Hst Hok Hb Ho Hq Hty Hx Hbl He eq_refl) as [Heq Ha].
    cbn [kind_of] in Heq. rewrite Heq. left. by exists [f].
  - destruct Hr as [-> Hq]. exec_step. rewrite ensure_same. exec_step. case_bool_decide as Hk; cbn [negb]; exec_step.
    + destruct (small_reply c cs os s' x n (SPatchAdmission (mkPatchAdmission (command_key (GPatch p)) PaAlreadyQueued)))
        as (f & Hf & Ha); try exact (conj Hty I); auto. unfold patch_admission_frame. exec_step. rewrite Hf. left. by exists [f].
    + right. eexists _, s', _. split_and!; by auto.
  - destruct Hr as (-> & i & e & He & <- & Hne & Hq). exec_step. rewrite ensure_same.
    destruct (small_frame (context_of n) x (SPatchAdmission (mkPatchAdmission (command_key (GPatch p)) (PaSuperseded (command_key e)))) Hctx eq_refl
      (conj Hty (conj (queued_typed _ _ _ _ _ Hi He) Hne))) as (f & Hf & Hem).
    unfold handle_supersession, patch_admission_frame. rewrite Hf.
    destruct (superseded_answer c cs os s' i e (GPatch p) x n _ f "superseded patch had no live correlation"
      "superseded patch was absent from local order" Hi Hst Hok Hb Ho He Hne Hq Hty Hx Hctx Hem eq_refl) as (c' & frames & Heq & Ha).
    cbn [kind_of] in Heq. rewrite Heq. left. by exists frames.
  - destruct Hr as [-> Hq]. exec_step. rewrite ensure_same.
    destruct (small_reply c cs os s' x n (SPatchAdmission (mkPatchAdmission (command_key (GPatch p)) PaDropped)))
      as (f & Hf & Ha); try exact (conj Hty I); auto. unfold patch_admission_frame. exec_step. rewrite Hf. left. by exists [f].
  - exec_step. unfold ensure_admission_key.
    destruct (N.eqb_spec (command_key (GPatch p)) (receipt_idempotency_key receipt)) as [Hk|Hk]; cbn [negb guard_err].
    + destruct (limited_reply c cs os s' x n (SPatchAdmission (mkPatchAdmission (receipt_idempotency_key receipt) (PaReplayed receipt))))
        as (f & Hf & Ha); try exact I; auto. exec_step. rewrite Hf. left. by exists [f].
    + right. eexists _, s', _. split_and!; auto. cbn [foreign]. intros He. by apply Hk.
  - right. eexists _, s', _. split_and!; by auto.
  - destruct (failure_reply c cs os s' x n code) as (f & Hf & Ha); try exact I; auto. cbn [lift]. rewrite Hf. left. by exists [f].
Qed.

Lemma imagination_completion_cases submitted compilation receipt status cl context :
  (∃ completion, imagination_completion submitted compilation receipt status cl context = Ok completion) ∨
  ∃ reason, imagination_completion submitted compilation receipt status cl context = Err (XStateInvariant reason).
Proof.
  unfold imagination_completion. pose proof (result_encode_normal compilation cl) as Hn.
  destruct (is_some _); cbn [negb guard_err out_bind]; [|eauto]. destruct (result_encode _ _); try done; cbn [map_err out_bind]; [|eauto].
  destruct (_ =? _); cbn [negb guard_err out_bind]; [|eauto]. destruct (_ =? _); cbn [negb guard_err out_bind]; [|eauto].
  destruct (cr_patch compilation), receipt; cbn [out_bind]; try (by eauto).
  destruct (negb _); cbn [guard_err out_bind]; eauto.
Qed.

Lemma imagination_replay_spec c cs os s' n x submitted response :
  session_inv c cs os → context_ok (context_of n) → quiet (co_service c) s' → x ∉ co_live_correlations c →
  (∃ frames, handle_imagination_replay x submitted response (context_of n) (set_service s' c) = (set_service s' c, Ok frames) ∧
     answered (context_of n) c x frames (set_service s' c)) ∨
  ∃ reason receipt, response = PatchApplied receipt ∧
    handle_imagination_replay x submitted response (context_of n) (set_service s' c) = (set_service s' c, Err (XStateInvariant reason)).
Proof.
  intros Hi Hctx Hq Hx. destruct response as [receipt|compilation receipt]; [right; by eexists _, receipt|]. left.
  unfold handle_imagination_replay. cbn [co_service set_service].
  destruct (imagination_completion_cases submitted compilation receipt IdempotentReplay
    (for_runtime_limits (ss_runtime_limits s')) (context_of n)) as [[completion Hc]|[reason Hc]]; rewrite Hc.
  - destruct (limited_reply c cs os s' x n (SImaginationAdmission (mkImaginationAdmission (si_imagination_id submitted)
      (si_idempotency_key submitted) (IaReplayed completion)))) as (f & Hf & Ha); try exact I; auto.
    unfold imagination_admission_frame. rewrite Hf. by exists [f].
  - destruct (failure_reply c cs os s' x n FcInternal) as (f & Hf & Ha); try exact I; auto. unfold lift. rewrite Hf. by exists [f].
Qed.

Lemma imagination_admission_spec c cs os s' n x i a :
  session_inv c cs os → co_state c = Active n → context_ok (context_of n) →
  ng_schema_version n = LOCAL_SESSION_SCHEMA_VERSION_V2 → submission_blocked c = false →
  typed_id (im_imagination_id i) → typed_id (im_idempotency_key i) →
  x ∉ co_live_correlations c → submits (co_service c) (GImagination i) s' (Ok a) →
  let '(c', r) := handle_imagination_admission x (from_envelope i) a (context_of n) (set_service s' c) in
  submission_answered (context_of n) c x (GImagination i) (s', Ok a) c' r.
Proof.
  intros Hi Hst Hctx Hver Hbl Htid Hty Hx (Hok & Hb & Ho%eq_incl & Hr). unfold admits in Hr.
  assert (sv_queue s' = sv_queue (co_service c) → quiet (co_service c) s') as Hquiet by (by intros; apply submits_quiet).
  assert (sv_queue s' = sv_queue (co_service c) → session_ok (set_service s' c)) as Hkeep.
  { intros Hq. exists cs, os. by apply service_quiet, Hquiet. }
  unfold handle_imagination_admission. change (si_idempotency_key (from_envelope i)) with (command_key (GImagination i)).
  set (id := si_imagination_id (from_envelope i)). set (key := command_key (GImagination i)) in *.
  destruct a as [k|k|k old|k|response].
  - destruct Hr as [-> Hq]. exec_step. rewrite ensure_same. exec_step.
    rewrite (proj2 (queued_room _ _ _ _ _ Hi Hok Hb Hq)). exec_step.
    destruct (small_imagination_frame (context_of n) x id key IaQueued Hctx eq_refl (conj Hver (conj Htid (conj Hty I)))) as (f & Hf & He).
    exec_step. rewrite Hf.
    destruct (queued_answer c cs os s' (GImagination i) x n _ f Hi Hst Hok Hb Ho Hq Hty Hx Hbl He eq_refl) as [Heq Ha].
    cbn [kind_of] in Heq. fold key in Heq. rewrite Heq. left. by exists [f].
  - destruct Hr as [-> Hq]. exec_step. rewrite ensure_same. exec_step. case_bool_decide as Hk; cbn [negb]; exec_step.
    + destruct (small_imagination_frame (context_of n) x id key IaAlreadyQueued Hctx eq_refl (conj Hver (conj Htid (conj Hty I)))) as (f & Hf & He).
      exec_step. rewrite Hf. left. exists [f]. split; [done|]. eapply quiet_answer; eauto.
    + right. eexists _, s', _. split_and!; by auto.
  - destruct Hr as (-> & j & e & He & <- & Hne & Hq). exec_step. rewrite ensure_same.
    destruct (small_imagination_frame (context_of n) x id key (IaSuperseded (command_key e)) Hctx eq_refl
      (conj Hver (conj Htid (conj Hty (conj (queued_typed _ _ _ _ _ Hi He) Hne))))) as (f & Hf & Hem).
    unfold handle_imagination_supersession. fold id. rewrite Hf.
    destruct (superseded_answer c cs os s' j e (GImagination i) x n _ f "superseded command had no live correlation"
      "superseded command was absent from local order" Hi Hst Hok Hb Ho He Hne Hq Hty Hx Hctx Hem eq_refl) as (c' & frames & Heq & Ha).
    cbn [kind_of] in Heq. fold key in Heq. rewrite Heq. left. by exists frames.
  - destruct Hr as [-> Hq]. exec_step. rewrite ensure_same.
    destruct (small_imagination_frame (context_of n) x id key IaDropped Hctx eq_refl (conj Hver (conj Htid (conj Hty I)))) as (f & Hf & He).
    exec_step. rewrite Hf. left. exists [f]. split; [done|]. eapply quiet_answer; eauto.
  - destruct (imagination_replay_spec c cs os s' n x (from_envelope i) response Hi Hctx (Hquiet Hr) Hx)
      as [(frames & -> & Ha)|(reason & receipt & -> & ->)]; [left; by exists frames|].
    right. exists reason, s', (Replayed (PatchApplied receipt)). split_and!; by auto.
Qed.

Lemma submit_imagination_spec c cs os n x i :
  session_inv c cs os → co_state c = Active n → context_ok (context_of n) →
  x ∉ co_live_correlations c → typed_command (GImagination i) →
  typed_id (im_imagination_id i) → typed_id (im_idempotency_key i) →
  let '(c', r) := submit_imagination x i (context_of n) c in
  submission_answered (context_of n) c x (GImagination i) (ss_submit_imagination i (co_service c)) c' r.
Proof.
  intros Hi Hst Hctx Hx Ht Htid Hty. unfold submit_imagination. cbn [context_of cx_schema_version cx_compilation_limits].
  fold (context_of n).
  assert (∀ code, ∃ f, single_failure_for x code (context_of n) = Ok [f] ∧ answered (context_of n) c x [f] c) as Hfail.
  { intros code. destruct (failure_reply c cs os _ x n code Hi Hctx (quiet_refl _ (si_service _ _ _ Hi)) Hx) as (f & Hf & Ha).
    rewrite set_service_id in Ha. by exists f. }
  destruct (N.eqb_spec (ng_schema_version n) LOCAL_SESSION_SCHEMA_VERSION_V2) as [Hver|Hver]; cbn [negb orb].
  2:{ destruct (Hfail FcUnsupportedVersion) as (f & Hf & Ha). cbn [lift]. rewrite Hf. left. by exists [f]. }
  destruct (is_some (ng_compilation_limits n)); cbn [negb].
  2:{ destruct (Hfail FcUnsupportedVersion) as (f & Hf & Ha). cbn [lift]. rewrite Hf. left. by exists [f]. }
  exec_step. destruct (submission_blocked c) eqn:Hbl.
  { destruct (Hfail FcCapacityExceeded) as (f & Hf & Ha). cbn [lift]. rewrite Hf. left. by exists [f]. }
  exec_step. unfold call. pose proof (sv_submit_imagination _ i (si_service _ _ _ Hi) Ht) as Hsub.
  destruct (ss_submit_imagination i (co_service c)) as [s' [a|code| |]]; try by destruct Hsub as (_ & _ & _ & []).
  - by eapply imagination_admission_spec.
  - destruct Hsub as (Hok & Hb & Ho%eq_incl & Hq). destruct (failure_reply c cs os s' x n code) as (f & Hf & Ha); try done.
    cbn [lift]. rewrite Hf. left. by exists [f].
Qed.

(** ** Queries, observations and the close *)

Lemma session_query_spec c cs os n x q :
  session_inv c cs os → context_ok (context_of n) → x ∉ co_live_correlations c →
  ∃ frames, session_query x q (context_of n) c = (c, Ok frames) ∧ answered (context_of n) c x frames c.
Proof.
  intros Hi Hctx Hx. pose proof (quiet_refl _ (si_service _ _ _ Hi)) as Hq. unfold session_query.
  pose proof (sv_query _ q (si_service _ _ _ Hi)) as Hn. destruct (ss_query q (co_service c)) as [result|code| |]; try done.
  - destruct (limited_reply c cs os _ x n (SQueryResult result) Hi Hctx Hq Hx eq_refl) as (f & Hf & Ha).
    rewrite set_service_id in Ha. unfold lift. rewrite Hf. by exists [f].
  - destruct (failure_reply c cs os _ x n code Hi Hctx Hq Hx) as (f & Hf & Ha). rewrite set_service_id in Ha.
    unfold lift. rewrite Hf. by exists [f].
Qed.

Lemma request_observation_spec c cs os n x q :
  session_inv c cs os → co_state c = Active n → context_ok (context_of n) → x ∉ co_live_correlations c →
  typed_reference (observation_reference q) →
  ∃ c' frames, request_observation x q (context_of n) c = (c', Ok frames) ∧ answered (context_of n) c x frames c'.
Proof.
  intros Hi Hst Hctx Hx Hty.
  assert (∀ code, ∃ c' frames, (c, single_failure_for x code (context_of n)) = (c', Ok frames) ∧ answered (context_of n) c x frames c') as Hfail.
  { intros code. destruct (failure_reply c cs os _ x n code Hi Hctx (quiet_refl _ (si_service _ _ _ Hi)) Hx) as (f & Hf & Ha).
    rewrite set_service_id in Ha. exists c, [f]. by rewrite Hf. }
  unfold request_observation. exec_step. rewrite (live_reached _ _ _ Hi).
  destruct (N.leb_spec (xc_max_live_correlations (co_config c)) (N.of_nat (length (cs ++ os)))) as [|Hlt]; [apply Hfail|]. cbn [orb].
  pose proof (sv_observations _ (si_service _ _ _ Hi)) as Hu. pose proof (si_observations_bound _ _ _ Hi) as Hob.
  unfold count. rewrite len_or_max_min.
  destruct (N.leb_spec (ss_observation_capacity (co_service c)) (N.min u32_max (N.of_nat (length (co_observation_order c))))) as [|Hcap]; [apply Hfail|].
  exec_step. destruct (is_some (co_observation_correlations c !! or_observation_id q)) eqn:Hknown; [apply Hfail|].
  exec_step. destruct (dimensions_exceed _ _); [apply Hfail|].
  destruct (small_frame (context_of n) x (SObservationAccepted (observation_reference q)) Hctx eq_refl Hty) as (f & Hf & He).
  assert (or_observation_id q ∉ co_observation_order c) as Hnew.
  { destruct (si_observations _ _ _ Hi) as [_ Hd]. intros Hin. destruct (co_observation_correlations c !! or_observation_id q) eqn:Hl; [done|].
    apply not_elem_of_dom in Hl. apply Hl. rewrite Hd. by apply elem_of_list_to_set. }
  exec_step. rewrite Hf. exec_step. unfold call.
  pose proof (sv_request _ q (si_service _ _ _ Hi) (λ Hin, Hnew (si_outstanding _ _ _ Hi _ Hin))) as Hreq.
  destruct (ss_request_observation q (co_service c)) as [s' r]. destruct Hreq as (Hok & Hb & Hq & Hn & Ho).
  assert (sv_outstanding s' ⊆ (if is_ok r then [or_observation_id q] else []) ++ sv_outstanding (co_service c)) as Ho'.
  { rewrite Ho. intros z. rewrite !elem_of_app. tauto. }
  clear Ho. rename Ho' into Ho. destruct r as [[]|code| |]; try done.
  - unfold exec_bind. rewrite (reserve_service_ok _ _ _ _ _ Hi Hx Hlt). cbn [modify lift]. eexists _, _. split; [reflexivity|].
    eapply answered_open; try done. exists cs, (os ++ [x]). eapply (observe_inv c cs os s' q x n); try done; lia.
  - destruct (failure_reply c cs os s' x n code) as (g & Hg & Ha); try done. cbn [lift]. rewrite Hg. by eexists _, [g].
Qed.

Lemma session_close_spec c cs os n x :
  session_inv c cs os → co_state c = Active n → context_ok (context_of n) → x ∉ co_live_correlations c →
  ∃ c' frames, session_close x (context_of n) c = (c', Ok frames) ∧ answered (context_of n) c x frames c' ∧
    (c' = c ∨ c' = set_state (Closed n) c ∧ sv_queue (co_service c) = [] ∧ sv_outstanding (co_service c) = [] ∧
       ∃ f, frames = [f] ∧ emits (context_of n) x SClosed f).
Proof.
  intros Hi Hst Hctx Hx. unfold session_close. exec_step.
  set (busy := _ || _) at 1. destruct busy eqn:Hbusy.
  { destruct (failure_reply c cs os _ x n FcProtocolState Hi Hctx (quiet_refl _ (si_service _ _ _ Hi)) Hx) as (f & Hf & Ha).
    rewrite set_service_id in Ha. unfold lift. rewrite Hf. exists c, [f]. auto. }
  subst busy. rewrite (sv_snapshot _ (si_service _ _ _ Hi)) in Hbusy. cbn [sn_command_depth sn_outstanding_observations] in Hbusy.
  rewrite !orb_false_iff, !negb_false_iff, !bool_decide_eq_true, !N.eqb_eq in Hbusy. destruct Hbusy as ((((Hl & Hco) & Hoo) & Hd) & Hout).
  destruct (small_frame (context_of n) x SClosed Hctx eq_refl I) as (f & Hf & He). exec_step. rewrite Hf. exec_step.
  unfold negotiated_limits. rewrite Hst. exec_step. cbn [ok_or]. exec_step.
  replace (Closed _) with (Closed n) by (by destruct n). eexists _, [f]. split; [done|]. split.
  - eapply answered_now; try done. exists cs, os. apply state_inv; [done|]. split; [done|by split].
  - right. split; [done|]. split; [by apply nil_length_inv; lia|]. split; [apply nil_length_inv; lia|]. eauto.
Qed.

(** ** Advancing *)

(** What an advance sends: frames for live correlations only. *)
Record advanced context c (frames : list LocalFrame) c' : Prop := {
  ad_ok : session_ok c';
  ad_config : co_config c' = co_config c;
  ad_state : co_state c' = co_state c;
  ad_sendable : Forall (sendable context) frames;
  ad_correlated : Forall (λ f, correlation_id f ∈ co_live_correlations c ∧ opening context f = false) frames;
  ad_live : discipline context (co_live_correlations c) frames (co_live_correlations c');
}.

Lemma advanced_nil context c c' :
  session_ok c' → co_config c' = co_config c → co_state c' = co_state c →
  co_live_correlations c' = co_live_correlations c → advanced context c [] c'.
Proof.
  intros Hok Hcfg Hst Hl. split; try done. intros x. rewrite Hl. split.
  - intros Hx. left. split; [done|]. by intros (f & []%not_elem_of_nil & _).
  - by intros [[? _]|(f & []%not_elem_of_nil & _)].
Qed.

(** One frame: it ends its correlation exactly when it is final. *)
Lemma advanced_one context c f c' :
  session_ok c' → co_config c' = co_config c → co_state c' = co_state c → sendable context f →
  correlation_id f ∈ co_live_correlations c → opening context f = false →
  co_live_correlations c' = (if final context f then co_live_correlations c ∖ {[correlation_id f]} else co_live_correlations c) →
  advanced context c [f] c'.
Proof.
  intros Hok Hcfg Hst Hs Hin Ho Hl. split; try done; try by constructor. intros x. rewrite Hl.
  setoid_rewrite list_elem_of_singleton. destruct (final context f) eqn:Hf.
  - rewrite elem_of_difference, elem_of_singleton. split.
    + intros [Hx Hne]. left. split; [done|]. by intros (? & -> & <- & _).
    + intros [[Hx Hn]|(? & -> & _ & ?)]; [|congruence]. split; [done|]. intros ->. apply Hn. by exists f.
  - split.
    + intros Hx. left. split; [done|]. intros (? & -> & _ & ?). congruence.
    + intros [[Hx Hn]|(? & -> & _ & ?)]; [done|congruence].
Qed.

Lemma advanced_app context c c1 c2 fs gs :
  advanced context c fs c1 → advanced context c1 gs c2 → advanced context c (fs ++ gs) c2.
Proof.
  intros [_ Hc1 Hs1 Hsd1 Hco1 Hl1] [Hok Hc2 Hs2 Hsd2 Hco2 Hl2]. unfold discipline in Hl1, Hl2. rewrite Forall_forall in Hco1, Hco2.
  assert (∀ x, x ∈ co_live_correlations c1 ↔ x ∈ co_live_correlations c ∧
    ¬ ∃ f, f ∈ fs ∧ correlation_id f = x ∧ final context f = true) as H1'.
  { intros x. rewrite Hl1. split; [|by left]. intros [?|(f & Hf & _ & Hop)]; [done|]. destruct (Hco1 f Hf). congruence. }
  split; try congruence; try done.
  - by apply Forall_app.
  - apply Forall_forall. intros f [Hf|Hf]%elem_of_app; [by apply Hco1|]. destruct (Hco2 f Hf) as [Hin Hop].
    by apply H1' in Hin as [Hin _].
  - intros x. rewrite (Hl2 x), H1'. split.
    + intros [[[Hx Hn1] Hn2]|(f & Hf & _ & Hop)]; [|by destruct (Hco2 f Hf); congruence].
      left. split; [done|]. intros (f & [Hf|Hf]%elem_of_app & Hrest); [apply Hn1|apply Hn2]; eauto.
    + intros [[Hx Hn]|(f & [Hf|Hf]%elem_of_app & _ & Hop)];
        [|destruct (Hco1 f Hf); congruence|destruct (Hco2 f Hf); congruence].
      left. split; [split; [done|]|]; intros (f & Hf & Hrest); apply Hn; exists f; rewrite elem_of_app; auto.
Qed.

Lemma command_message_final key kind response cl context :
  ∃ k, internal_failure (command_message key kind response cl context) = Ok k ∧ final_kind k = true.
Proof.
  destruct response as [[response|]|code]; cbn [command_message internal_failure]; [|eauto..].
  destruct kind as [|submitted], response as [receipt|compilation receipt]; [| |by eauto|].
  - destruct (_ && _); cbn [internal_failure]; eauto.
  - eauto.
  - destruct (imagination_completion_cases submitted compilation receipt Applied cl context) as [[? ->]|[? ->]]; cbn; eauto.
Qed.

(** The head of the queue is processed and answered. *)
Lemma advance_command_spec c cmd q x cs os n :
  session_inv c (x :: cs) os → co_state c = Active n → context_ok (context_of n) → sv_queue (co_service c) = cmd :: q →
  let '(s', r) := ss_process_next (co_service c) in
  ∃ f k, advance_command (context_of n) c = (pop c s' cmd x (command_key <$> q), Ok (Some f)) ∧
    emits (context_of n) x k f ∧ final_kind k = true ∧ session_inv (pop c s' cmd x (command_key <$> q)) cs os ∧
    (k = SFailure FcLimitExceeded ∨ ∃ response,
       internal_failure (command_message (command_key cmd) (kind_of cmd) response
         (for_runtime_limits (ss_runtime_limits (co_service c))) (context_of n)) = Ok k ∧
       match r with Ok a => response = inl a | Err code => response = inr code | _ => False end).
Proof.
  intros Hi Hst Hctx Hq. pose proof (sv_process _ (si_service _ _ _ Hi)) as Hp.
  destruct (ss_process_next (co_service c)) as [s' r] eqn:Hpn. destruct Hp as (Hok & Hb & Hq' & Ho%eq_incl & Hn). rewrite Hq in Hq'. cbn [tail] in Hq'.
  destruct (si_commands _ _ _ Hi) as [Htr _]. rewrite Hq in Htr. apply Forall2_cons in Htr as [Hlk _].
  assert (∃ response, (match r with Ok a => Ok (inl a) | Err e => Ok (inr e) | Panic => Panic | OutOfFuel => OutOfFuel end
      : outcome LocalExecutorError (option GatewayResponse + SessionFailureCode)) = Ok response ∧
    match r with Ok a => response = inl a | Err code => response = inr code | _ => False end) as (response & Hr & Hresp).
  { destruct r; try done; eauto. }
  destruct (command_message_final (command_key cmd) (kind_of cmd) response (for_runtime_limits (ss_runtime_limits (co_service c)))
    (context_of n)) as (m & Hm & Hfin).
  destruct (limited_frame (context_of n) x m Hctx) as (f & k & Hf & He & Hk).
  exists f, k. split_and!; [|done|by destruct Hk as [->| ->]|by eapply pop_inv|destruct Hk as [->| ->]; [right; eauto|by left]].
  unfold advance_command. rewrite (si_order _ _ _ Hi), Hq, fmap_cons, Hlk. cbn [pc_kind pc_correlation_id].
  exec_step. cbn [set_commands co_service]. exec_step. unfold call. cbn [set_commands co_service]. rewrite Hpn, Hr.
  exec_step. rewrite Hm. exec_step. rewrite Hf. unfold exec_bind. rewrite release_correlation_ok; [done|].
  cbn [set_commands set_service co_live_correlations]. rewrite (si_live _ _ _ Hi). set_solver.
Qed.

Lemma observed_lookup c cs os i id :
  session_inv c cs os → co_observation_order c !! i = Some id →
  ∃ x rev, os !! i = Some x ∧ co_observation_correlations c !! id = Some (mkPendingObservation x rev) ∧ x ∈ co_live_correlations c.
Proof.
  intros Hi Hid. destruct (si_observations _ _ _ Hi) as [Hq _].
  destruct (Forall2_lookup_l _ _ _ _ _ Hq Hid) as (x & Hx & Hp). apply fmap_Some in Hp as ([y rev] & Hp & ->). exists y, rev.
  split_and!; [done..|]. rewrite (si_live _ _ _ Hi), elem_of_list_to_set. apply elem_of_app. right. by eapply list_elem_of_lookup_2.
Qed.

Lemma release_observation_ok c cs os s' i id x :
  session_inv c cs os → co_observation_order c !! i = Some id → x ∈ co_live_correlations c →
  release_observation id x (set_service s' c) = (retire c s' i id x, Ok tt).
Proof.
  intros Hi Hid Hx. unfold release_observation. exec_step. unfold exec_bind at 1.
  cbn [gets set_observations set_service co_observation_order].
  rewrite (position_unique _ _ _ Hid (si_observations_once _ _ _ Hi)). cbn [ok_or]. exec_step. exec_step.
  by rewrite release_correlation_ok.
Qed.

Lemma delivery_frame_ok c cs os s' i id n d :
  session_inv c cs os → context_ok (context_of n) → co_observation_order c !! i = Some id → delivery_observation_id d = id →
  ∃ f x, observation_delivery_frame d (context_of n) (set_service s' c) = (retire c s' i id x, Ok f) ∧ os !! i = Some x ∧
    x ∈ co_live_correlations c ∧ correlation_id f = x ∧ sendable (context_of n) f ∧ final (context_of n) f = true ∧
    opening (context_of n) f = false.
Proof.
  intros Hi Hctx Hid Hd. destruct (observed_lookup _ _ _ _ _ Hi Hid) as (x & rev & Hx & Hlk & Hlive).
  assert (∀ code, ∃ f, failure_frame_for x code (context_of n) = Ok f ∧ correlation_id f = x ∧ sendable (context_of n) f ∧
    final (context_of n) f = true ∧ opening (context_of n) f = false) as Hfail.
  { intros code. destruct (failure_frame (context_of n) x code Hctx) as (f & Hf & (? & ? & ? & ?)%emits_frame). by exists f. }
  unfold observation_delivery_frame. exec_step. rewrite Hd. cbn [co_observation_correlations set_service]. rewrite Hlk. exec_step.
  cbn [fmap option_fmap option_map ok_or po_correlation_id].
  set (out := match d with SdCompleted _ _ => _ | SdFailed _ _ => _ end).
  assert (∃ f, out = Ok f ∧ correlation_id f = x ∧ sendable (context_of n) f ∧ final (context_of n) f = true ∧
    opening (context_of n) f = false) as (f & Hout & Hf).
  { subst out. destruct d as [m p|id' code]; [|apply Hfail].
    pose proof (encode_frame_normal (FObservation x m p) (cx_frame_config (context_of n))) as Hn.
    destruct (encode_frame _ _) as [e|e| |] eqn:He; try done. eexists. split; [done|].
    split_and!; try done. unfold sendable. by rewrite He. }
  rewrite Hout. exec_step. unfold exec_bind. rewrite (release_observation_ok c cs os s' i id x Hi Hid Hlive). by exists f, x.
Qed.

(** At most one observation is answered or reported. *)
Lemma advance_observation_spec c cs os n :
  session_inv c cs os → co_state c = Active n → context_ok (context_of n) → co_observation_order c ≠ [] →
  ∃ c' frames, advance_observation (context_of n) c = (c', Ok frames) ∧ advanced (context_of n) c frames c' ∧
    (length frames ≤ 1)%nat ∧ co_command_order c' = co_command_order c ∧
    co_command_correlations c' = co_command_correlations c.
Proof.
  intros Hi Hst Hctx Hne. unfold advance_observation. exec_step. unfold call.
  pose proof (sv_poll _ (si_service _ _ _ Hi)) as Hp. destruct (ss_poll_observation (co_service c)) as [s' r].
  destruct Hp as (Hok & Hb & Hq & Hn & Ho). destruct r as [[d|]|code| |]; try done.
  - assert (sv_outstanding s' ⊆ filter (λ id', id' ≠ delivery_observation_id d) (sv_outstanding (co_service c))) as Ho'.
    { pose proof (sv_distinct _ (si_service _ _ _ Hi)) as Hd. cbn [polls] in Ho. rewrite Ho in Hd |- *. apply NoDup_cons in Hd as [Hd _].
      intros z Hz. apply list_elem_of_filter. split; [by intros ->|by right]. }
    assert (delivery_observation_id d ∈ sv_outstanding (co_service c)) as Hin by (cbn [polls] in Ho; rewrite Ho; by left).
    clear Ho. rename Ho' into Ho. apply (si_outstanding _ _ _ Hi) in Hin as (i & Hid)%list_elem_of_lookup_1.
    destruct (delivery_frame_ok c cs os s' i _ n d Hi Hctx Hid eq_refl) as (f & x & Hf & Hx & Hlive & Hcx & Hs & Hfin & Hop).
    unfold exec_bind. rewrite Hf. eexists _, [f]. split; [done|]. split; [|split; [cbn; lia|done]].
    apply advanced_one; rewrite ?Hfin, ?Hcx; try done. exists cs, (delete i os). by eapply retire_inv.
  - assert (session_inv (set_service s' c) cs os) as Hi' by (apply service_quiet; [done|by split; try done; apply eq_incl]).
    destruct (list_find _ _) as [[i id]|] eqn:Hfind.
    2:{ eexists _, []. split; [done|]. split; [|split; [cbn; lia|done]]. apply advanced_nil; try done. by exists cs, os. }
    apply list_find_Some in Hfind as (Hid & _ & _). destruct (observed_lookup _ _ _ _ _ Hi' Hid) as (x & rev & Hx & Hlk & Hlive).
    rewrite Hlk. exec_step. cbn [expect].
    destruct (small_frame (context_of n) x (SObservationPending (mkObservationReference id rev)) Hctx eq_refl
      (si_references _ _ _ Hi' _ _ Hlk)) as (f & Hf & He).
    cbn [po_correlation_id po_scene_revision]. exec_step. rewrite Hf. exec_step. eexists _, [f]. split; [done|]. split; [|split; [cbn; lia|done]].
    apply emits_frame in He as (Hcx & Hs & Hfin & Hop). apply advanced_one; rewrite ?Hfin, ?Hcx; try done.
    exists cs, os. apply report_inv; [done|]. by eapply list_elem_of_lookup_2.
  - destruct (co_observation_order c) as [|id order] eqn:Hord; [done|].
    assert (co_observation_order c !! 0%nat = Some id) as Hid by (by rewrite Hord).
    destruct (observed_lookup _ _ _ _ _ Hi Hid) as (x & rev & Hx & Hlk & Hlive).
    cbn [co_observation_order set_service]. rewrite Hord. exec_step. cbn [lookup list_lookup expect].
    change (co_observation_correlations (set_service s' c)) with (co_observation_correlations c). rewrite Hlk.
    exec_step. cbn [expect po_correlation_id]. destruct (failure_frame (context_of n) x code Hctx) as (f & Hf & He).
    exec_step. rewrite Hf. unfold exec_bind. rewrite (release_observation_ok c cs os s' 0 id x Hi Hid Hlive).
    eexists _, [f]. split; [done|]. split; [|split; [cbn; lia|done]]. apply emits_frame in He as (Hcx & Hs & Hfin & Hop).
    apply advanced_one; rewrite ?Hfin, ?Hcx; try done. exists cs, (delete 0%nat os). eapply retire_inv; try done.
    destruct Ho as [_ Ho]. rewrite Ho. intros z []%not_elem_of_nil.
Qed.
End steps.
