(* ===== verification/ExecutorTheorems.v ===== *)
(** * Theorems on the executor

    Reachable executors satisfy their invariant; an active session answers
    every frame within its bounds and opens and closes correlations as its
    answers say; advancing drains the admitted commands in order; the phases
    follow hello, service and close. *)

From S2P Require Import Prelude Machine Ordering Floats Values Components Messages MessageSpec Imagination ImaginationSpec Codec Compilation Ecs WorldTypes Hierarchy Render World SceneSpec Hash Compiler CompilerReport CompilerOutcome Recovery Engine Query Gateway GatewayInvariant Observation Transport SessionLimits Session Executor ExecutorFrames ExecutorInvariant ExecutorSteps.

Open Scope N_scope.

(** What the types of a decoded message guarantee. *)
Definition typed_client_message (m : LocalSessionClientMessage) : Prop :=
  match cm_message m with
  | CSubmitPatch p => typed_command (GPatch p) ∧ typed_id (patch_idempotency_key p)
  | CSubmitImagination i => typed_command (GImagination i) ∧ typed_id (im_imagination_id i) ∧ typed_id (im_idempotency_key i)
  | CRequestObservation q => typed_reference (observation_reference q)
  | _ => True
  end.

(** Deserialisation goes through the validating constructors. *)
Class ClientJsonTyped `{SessionJson LocalSessionClientMessage} : Prop :=
  sj_client_typed : ∀ b m, sj_parse b = Ok m → typed_client_message m.

(** What the types of a configuration guarantee. *)
Record typed_executor_config (config : LocalExecutorConfig) : Prop := {
  te_live : 0 < xc_max_live_correlations config ≤ u32_max;
  te_queue : 0 < max_queue_capacity (frame_runtime_limits (xc_receive_config config));
  te_frame : max_frame_bytes (frame_limits (xc_receive_config config)) ≤ u64_max;
}.

Section theorems.
Context `{Digest} `{ResultJson} `{!JsonCodec ObservationMetadata}.
Context `{SessionJson LocalSessionClientMessage} `{SessionJson LocalSessionServerMessage}.
Context `{!SessionJsonLaws client_validate LocalSessionServerMessage}.
Context `{!SessionJsonLaws server_validate LocalSessionClientMessage} `{!SessionJsonSizes} `{!ClientJsonTyped}.
Context {S : Type} `{!SessionService S} `{!ServiceView S} `{!SessionServiceLaws S}.
Implicit Types c : SessionCore S.

(** ** Creation *)

Lemma intersect_frame l l' m : limits_intersect l l' = Ok m →
  limits_validate m = Ok tt ∧ sl_max_frame_bytes m ≤ sl_max_frame_bytes l ∧ sl_max_frame_bytes m ≤ sl_max_frame_bytes l' ∧
  sl_runtime_limits m = intersect_runtime_limits (sl_runtime_limits l) (sl_runtime_limits l').
Proof.
  intros Hm. unfold limits_intersect in Hm. inv_ok. repeat match goal with x : () |- _ => destruct x end. subst m.
  cbn [sl_max_frame_bytes sl_runtime_limits]. split_and!; [done|lia..|done].
Qed.

Lemma from_config_frame config l : limits_from_config config = Ok l →
  sl_max_frame_bytes l = max_frame_bytes (frame_limits config) ∧ sl_runtime_limits l = frame_runtime_limits config.
Proof. intros Hl. unfold limits_from_config in Hl. inv_ok. by subst l. Qed.

Lemma negotiated_config_ok l : limits_validate l = Ok tt →
  ∃ config, to_frame_config l = Ok config ∧ max_frame_bytes (frame_limits config) = sl_max_frame_bytes l ∧
    frame_runtime_limits config = sl_runtime_limits l.
Proof. intros Hv. unfold to_frame_config. rewrite Hv. by eexists. Qed.

Lemma negotiate_ok l config m : limits_negotiate l config = Ok m →
  limits_validate m = Ok tt ∧ sl_max_frame_bytes m ≤ max_frame_bytes (frame_limits config).
Proof.
  intros Hm. unfold limits_negotiate in Hm. apply out_bind_ok in Hm as ([] & _ & Hm).
  apply out_bind_ok in Hm as (local & [Hf _]%from_config_frame & (? & _ & ? & _)%intersect_frame). by rewrite <-Hf.
Qed.

Lemma executor_new_ok s config c :
  sv_ok s → typed_executor_config config → executor_new s config = Ok c →
  session_ok c ∧ co_state c = AwaitingHello ∧ co_service c = s.
Proof.
  intros Hs [Hl Hq Hf] Hn. unfold executor_new in Hn.
  apply out_bind_ok in Hn as (configured & (Hcf & _)%map_err_ok%from_config_frame & Hn).
  apply out_bind_ok in Hn as (effective & (Hv & Hle & _ & Hrt)%map_err_ok%intersect_frame & Hn).
  destruct (negotiated_config_ok effective Hv) as (receive & Hrc & Hrf & _). rewrite Hrc in Hn. cbn [map_err out_bind] in Hn.
  inv_ok. repeat match goal with x : () |- _ => destruct x end. subst c. split; [|done].
  rename select (orb (negb (sn_command_depth _ =? 0)) _ = false) into Hsn.
  rewrite (sv_snapshot _ Hs) in Hsn. cbn [sn_command_depth sn_outstanding_observations] in Hsn.
  apply orb_false_iff in Hsn as [Hd%negb_false_iff%N.eqb_eq Ho%negb_false_iff%N.eqb_eq].
  assert (sv_queue s = []) as Hq0 by (apply nil_length_inv; lia).
  assert (sv_outstanding s = []) as Ho0 by (apply nil_length_inv; lia).
  exists [], []. split; cbn [co_service co_command_order co_command_correlations co_observation_correlations co_observation_order
    co_observation_pending_reported co_live_correlations co_config xc_max_live_correlations xc_receive_config app length]; try done.
  all: try apply NoDup_nil_2.
  - by rewrite Hq0.
  - rewrite Hq0. split; [constructor|]. by rewrite dom_empty_L.
  - cbn [length]. lia.
  - by rewrite Ho0.
  - cbn [length]. lia.
  - repeat match goal with Hx : non_zero _ = Some _ |- _ => unfold non_zero in Hx; destruct (_ =? 0); simplify_eq end. lia.
  - rewrite Hrf. lia.
Qed.

Lemma limits_negotiate_normal l config : normal (limits_negotiate l config).
Proof.
  unfold limits_negotiate, limits_intersect. apply out_bind_normal; [apply limits_validate_normal|intros _ _].
  apply out_bind_normal; [apply limits_from_config_normal|intros local _]. solve_normal; apply limits_validate_normal.
Qed.

Lemma intersect_compilation_normal l l' : normal (intersect_compilation_limits l l').
Proof. unfold intersect_compilation_limits. solve_normal; apply validate_compilation_limits_normal. Qed.

(** ** The hello *)

Lemma await_context c cs os : session_inv c cs os → co_state c = AwaitingHello →
  co_command_order c = [] ∧ co_observation_order c = [] ∧ cs = [] ∧ os = [].
Proof.
  intros Hi Hst. pose proof (si_phase _ _ _ Hi) as Hp. unfold phase_ok in Hp. rewrite Hst in Hp. destruct Hp as [Hco Hoo].
  split_and!; [done..| |].
  - destruct (si_commands _ _ _ Hi) as [Hq _]. pose proof (si_order _ _ _ Hi) as Ho. rewrite Hco in Ho.
    symmetry in Ho. apply fmap_nil_inv in Ho. rewrite Ho in Hq. by inversion Hq.
  - destruct (si_observations _ _ _ Hi) as [Hq _]. rewrite Hoo in Hq. by inversion Hq.
Qed.

(** The answer to a frame before the session is open. *)
Definition greeted c (x : N) c' (r : outcome LocalExecutorError (list LocalFrame)) : Prop :=
  session_ok c' ∧ co_config c' = co_config c ∧ co_live_correlations c' = co_live_correlations c ∧
  ((r = Err XOutputRejected ∧ co_state c' = AwaitingHello) ∨
   ∃ f, r = Ok [f] ∧ correlation_id f = x ∧
     match co_state c' with
     | AwaitingHello => True
     | Active n => emits (context_of n) x (SHello (mkServerHello (ng_limits n) (ng_compilation_limits n))) f
     | Closed _ => False
     end).

Lemma failure_greeted c x code context :
  session_ok c → co_state c = AwaitingHello →
  let '(c', r) := lift (single_failure_for x code context) c in greeted c x c' r.
Proof.
  intros Hok Hst. cbn [lift]. unfold single_failure_for, failure_frame_for, control_frame_for_context.
  split_and!; try done. destruct (control_frame_cases x (SFailure code) (cx_schema_version context) (cx_frame_config context)
    (cx_compilation_limits context)) as [->|(b & -> & _)]; [by left|].
  right. eexists. split_and!; [done..|]. by rewrite Hst.
Qed.

Lemma finish_hello c cs os x version limits cl config :
  session_inv c cs os → co_state c = AwaitingHello → max_frame_bytes (frame_limits config) ≤ u64_max →
  let '(c', r) := (run! output := lift (control_frame_for x (SHello (mkServerHello limits cl)) version config cl) in
     then! modify (set_state (Active (mkNegotiated version limits cl config))) in lift (Ok [output])) c in
  greeted c x c' r.
Proof.
  intros Hi Hst Hmax. unfold exec_bind at 1. cbn [lift].
  destruct (control_frame_cases x (SHello (mkServerHello limits cl)) version config cl) as [->|(b & -> & Hb)].
  - split_and!; try done; [by exists cs, os|by left].
  - unfold exec_bind. cbn [modify lift].
    destruct (await_context c cs os Hi Hst) as (Hco & Hoo & -> & ->).
    split_and!; try done.
    + exists [], []. apply state_inv; [done|]. unfold phase_ok. cbn [co_state set_state]. split; [done|]. by eexists _, b.
    + right. eexists. split_and!; [done..|]. cbn [co_state set_state].
      apply (encoded_frame_emits (context_of (mkNegotiated version limits cl config)) x _ b Hmax Hb).
Qed.

Lemma handle_hello_spec c x version m :
  session_ok c → co_state c = AwaitingHello →
  let '(c', r) := handle_hello x version m (xc_receive_config (co_config c)) c in greeted c x c' r.
Proof.
  intros Hok Hst. destruct m as [hello| | | | |]; try by apply failure_greeted. destruct Hok as (cs & os & Hi).
  cbn [handle_hello]. set (ctx := mkContext _ _ None).
  destruct (limits_negotiate _ _) as [limits|e| |] eqn:Hneg.
  2:{ apply failure_greeted; [by exists cs, os|done]. }
  2,3: pose proof (limits_negotiate_normal (ch_receive_limits hello) (xc_receive_config (co_config c))) as Hn; by rewrite Hneg in Hn.
  destruct (negotiate_ok _ _ _ Hneg) as [Hv Hle]. destruct (negotiated_config_ok limits Hv) as (config & Hcfg & Hmf & _).
  assert (max_frame_bytes (frame_limits config) ≤ u64_max) as Hmax by (pose proof (si_frame _ _ _ Hi); lia).
  unfold exec_bind at 1. cbn [lift]. rewrite Hcfg. cbn [map_err].
  destruct (version =? LOCAL_SESSION_SCHEMA_VERSION_V2); [|by eapply finish_hello].
  destruct (ch_compilation_receive_limits hello) as [advertised|]; [|apply failure_greeted; [by exists cs, os|done]].
  destruct (intersect_compilation_limits advertised _) as [cl|e| |] eqn:Hint.
  2:{ apply failure_greeted; [by exists cs, os|done]. }
  2,3: pose proof (intersect_compilation_normal advertised (xc_compilation_limits (co_config c))) as Hn; by rewrite Hint in Hn.
  unfold exec_bind at 1, call. pose proof (sv_configure _ cl (si_service _ _ _ Hi)) as Hc.
  destruct (ss_configure_compilation_limits cl (co_service c)) as [s' r]. destruct Hc as (Hq & _ & Hr).
  assert (session_inv (set_service s' c) cs os) as Hi' by (by apply service_quiet).
  destruct r as [[]|code| |]; try done.
  - exact (finish_hello (set_service s' c) cs os x version limits (Some cl) config Hi' Hst Hmax).
  - exact (failure_greeted (set_service s' c) x code (mkContext version config (Some cl))
      (ex_intro _ cs (ex_intro _ os Hi')) Hst).
Qed.

(** ** Frames of an open session *)

Lemma decoded_typed f config cl x m : decode_client_control_frame f config cl = Ok (x, m) →
  x = correlation_id f ∧ typed_client_message m.
Proof.
  destruct f as [y b|]; [|done]. cbn [decode_client_control_frame]. intros Hd. apply out_bind_ok in Hd as (m' & Hd & [= <- <-]).
  split; [done|]. unfold decode_client_message, decode_direction, session_decode in Hd.
  apply out_bind_ok in Hd as (? & _ & Hd). apply out_bind_ok in Hd as (? & _ & Hd). apply out_bind_ok in Hd as (? & _ & Hd).
  apply out_bind_ok in Hd as (v & Hp%map_err_ok & Hd). inv_ok. subst v. by eapply sj_client_typed.
Qed.

Lemma client_frame_normal f config cl : normal (decode_client_control_frame f config cl).
Proof.
  destruct f as [y b|]; [|done]. cbn [decode_client_control_frame]. apply out_bind_normal; [|done].
  apply (decode_direction_normal client_validate); [intros; apply client_validate_normal|].
  apply (sj_parse_normal client_validate (U:=LocalSessionServerMessage)).
Qed.

(** The submission a message makes. *)
Definition submission_of (s : S) (m : LocalSessionClientKind)
    : option (GatewayCommand * (S * outcome SessionFailureCode GatewayAdmission)) :=
  match m with
  | CSubmitPatch p => Some (GPatch p, ss_submit_patch p s)
  | CSubmitImagination i => Some (GImagination i, ss_submit_imagination i s)
  | _ => None
  end.

(** A request is answered; only a submission whose service answered about
    another command is refused, and then only the service has changed. *)
Definition request_answered context c (x : N) (m : LocalSessionClientKind) c' r : Prop :=
  (∃ frames, r = Ok frames ∧ answered context c x frames c') ∨
  (∃ cmd submitted, submission_of (co_service c) m = Some (cmd, submitted) ∧ submission_answered context c x cmd submitted c' r).

Lemma answered_failure context c cs os x code n :
  context = context_of n → session_inv c cs os → context_ok context → x ∉ co_live_correlations c →
  ∃ f, single_failure_for x code context = Ok [f] ∧ answered context c x [f] c.
Proof.
  intros -> Hi Hctx Hx. destruct (failure_reply c cs os _ x n code Hi Hctx (quiet_refl _ (si_service _ _ _ Hi)) Hx) as (f & Hf & Ha).
  rewrite set_service_id in Ha. by exists f.
Qed.

Lemma handle_active_spec c cs os n x version m :
  session_inv c cs os → co_state c = Active n → x ∉ co_live_correlations c →
  typed_client_message (mkClientMessage version m) →
  let '(c', r) := handle_active x version m c in request_answered (context_of n) c x m c' r.
Proof.
  intros Hi Hst Hx Ht. destruct (active_context _ _ _ _ Hi Hst) as [Hctx Hcur].
  assert (∀ code, let '(c', r) := lift (single_failure_for x code (context_of n)) c in
    request_answered (context_of n) c x m c' r) as Hfail.
  { intros code. destruct (answered_failure _ c cs os x code n eq_refl Hi Hctx Hx) as (f & Hf & Ha).
    cbn [lift]. rewrite Hf. left. by exists [f]. }
  unfold handle_active. unfold exec_bind at 1. cbn [gets]. rewrite Hcur.
  destruct (negb _); [apply Hfail|]. unfold exec_bind at 1. cbn [gets]. rewrite bool_decide_false by done.
  destruct m as [hello|p|i|q|q|]; [apply Hfail|..].
  - pose proof (submit_patch_spec c cs os n x p Hi Hst Hctx Hx (proj1 Ht) (proj2 Ht)) as Hs.
    destruct (submit_patch _ _ _ _) as [c' r]. right. by eexists _, _.
  - pose proof (submit_imagination_spec c cs os n x i Hi Hst Hctx Hx (proj1 Ht) (proj1 (proj2 Ht)) (proj2 (proj2 Ht))) as Hs.
    destruct (submit_imagination _ _ _ _) as [c' r]. right. by eexists _, _.
  - destruct (session_query_spec c cs os n x q Hi Hctx Hx) as (frames & -> & Ha). left. by exists frames.
  - destruct (request_observation_spec c cs os n x q Hi Hst Hctx Hx Ht) as (c' & frames & -> & Ha). left. by exists frames.
  - destruct (session_close_spec c cs os n x Hi Hst Hctx Hx) as (c' & frames & -> & Ha & _). left. by exists frames.
Qed.

Lemma handle_frame_active c cs os n f :
  session_inv c cs os → co_state c = Active n → correlation_id f ∉ co_live_correlations c →
  let '(c', r) := handle_frame f c in
  (∃ frames, r = Ok frames ∧ answered (context_of n) c (correlation_id f) frames c') ∨
  (∃ m, decode_client_control_frame f (ng_frame_config n) (ng_compilation_limits n) = Ok (correlation_id f, m) ∧
     request_answered (context_of n) c (correlation_id f) (cm_message m) c' r).
Proof.
  intros Hi Hst Hx. destruct (active_context _ _ _ _ Hi Hst) as [Hctx Hcur]. unfold handle_frame.
  assert (current_frame_config c = ng_frame_config n) as Hfc by (unfold current_frame_config; by rewrite Hst).
  assert (negotiated_compilation_limits c = ng_compilation_limits n) as Hcl by (unfold negotiated_compilation_limits; by rewrite Hst).
  rewrite Hfc, Hcl. pose proof (client_frame_normal f (ng_frame_config n) (ng_compilation_limits n)) as Hn.
  destruct (decode_client_control_frame _ _ _) as [[y m]|e| |] eqn:Hd; try done; rewrite Hst.
  - destruct (decoded_typed _ _ _ _ _ Hd) as [-> Ht].
    pose proof (handle_active_spec c cs os n (correlation_id f) (cm_schema_version m) (cm_message m) Hi Hst Hx Ht) as Hs.
    destruct (handle_active _ _ _ _) as [c' r]. right. by exists m.
  - rewrite Hcur. destruct (answered_failure _ c cs os (correlation_id f) (classify_session_error e) n eq_refl Hi Hctx Hx) as (g & Hf & Ha).
    cbn [lift]. rewrite Hf. left. by exists [g].
Qed.

(** A frame that reuses a live correlation is refused without any effect. *)
Lemma handle_frame_reused c cs os n f :
  session_inv c cs os → co_state c = Active n → correlation_id f ∈ co_live_correlations c →
  ∃ g code, handle_frame f c = (c, Ok [g]) ∧ emits (context_of n) (correlation_id f) (SFailure code) g.
Proof.
  intros Hi Hst Hx. destruct (active_context _ _ _ _ Hi Hst) as [Hctx Hcur]. unfold handle_frame.
  assert (∀ code0, ∃ g code, (c, single_failure_for (correlation_id f) code0 (context_of n)) = (c, Ok [g]) ∧
    emits (context_of n) (correlation_id f) (SFailure code) g) as Hfail.
  { intros code. destruct (single_failure_ok (context_of n) (correlation_id f) code Hctx) as (g & -> & He). eauto. }
  pose proof (client_frame_normal f (current_frame_config c) (negotiated_compilation_limits c)) as Hn.
  destruct (decode_client_control_frame _ _ _) as [[y m]|e| |]; try done; rewrite Hst.
  - unfold handle_active. unfold exec_bind at 1. cbn [gets]. rewrite Hcur. destruct (negb _); [apply Hfail|].
    unfold exec_bind at 1. cbn [gets]. rewrite bool_decide_true by done. apply Hfail.
  - rewrite Hcur. apply Hfail.
Qed.

Lemma handle_frame_closed c cs os n f :
  session_inv c cs os → co_state c = Closed n →
  ∃ g code, handle_frame f c = (c, Ok [g]) ∧ emits (context_of n) (correlation_id f) (SFailure code) g.
Proof.
  intros Hi Hst. pose proof (si_phase _ _ _ Hi) as Hp. unfold phase_ok in Hp. rewrite Hst in Hp. destruct Hp as [Hctx _].
  assert (current_output_context c = context_of n) as Hcur by (unfold current_output_context; by rewrite Hst).
  assert (∀ code0, ∃ g code, (c, single_failure_for (correlation_id f) code0 (context_of n)) = (c, Ok [g]) ∧
    emits (context_of n) (correlation_id f) (SFailure code) g) as Hfail.
  { intros code. destruct (single_failure_ok (context_of n) (correlation_id f) code Hctx) as (g & -> & He). eauto. }
  unfold handle_frame. pose proof (client_frame_normal f (current_frame_config c) (negotiated_compilation_limits c)) as Hn.
  destruct (decode_client_control_frame _ _ _) as [[y m]|e| |]; try done; rewrite Hst, Hcur; apply Hfail.
Qed.

Lemma handle_frame_awaiting c cs os f :
  session_inv c cs os → co_state c = AwaitingHello →
  let '(c', r) := handle_frame f c in greeted c (correlation_id f) c' r.
Proof.
  intros Hi Hst. assert (session_ok c) as Hok by (by exists cs, os). unfold handle_frame.
  assert (current_frame_config c = xc_receive_config (co_config c)) as Hfc by (unfold current_frame_config; by rewrite Hst).
  rewrite Hfc. pose proof (client_frame_normal f (xc_receive_config (co_config c)) (negotiated_compilation_limits c)) as Hn.
  destruct (decode_client_control_frame _ _ _) as [[y m]|e| |]; try done; rewrite Hst; [by apply handle_hello_spec|].
  exact (failure_greeted c (correlation_id f) (classify_session_error e)
    (mkContext LOCAL_SESSION_SCHEMA_VERSION (xc_receive_config (co_config c)) None) Hok Hst).
Qed.

(** ** Advancing *)

Lemma final_not_opening context f : final context f = true → opening context f = false.
Proof.
  unfold final, opening, frame_is. destruct f; [|done]. destruct (decode_server_control_frame _ _ _) as [[? m]|e| |]; try done.
  by destruct (sm_message m).
Qed.

Lemma advance_command_advanced c cs os n :
  session_inv c cs os → co_state c = Active n → context_ok (context_of n) →
  ∃ c' o, advance_command (context_of n) c = (c', Ok o) ∧
    advanced (context_of n) c (option_list o) c' ∧ co_command_order c' = tail (co_command_order c) ∧
    co_observation_order c' = co_observation_order c ∧
    match co_command_order c with
    | [] => o = None ∧ c' = c
    | key :: _ => ∃ f p, o = Some f ∧ co_command_correlations c !! key = Some p ∧
        correlation_id f = pc_correlation_id p ∧ final (context_of n) f = true ∧
        ∀ key', key' ≠ key → co_command_correlations c' !! key' = co_command_correlations c !! key'
    end.
Proof.
  intros Hi Hst Hctx. destruct (sv_queue (co_service c)) as [|cmd q] eqn:Hq.
  - pose proof (si_order _ _ _ Hi) as Ho. rewrite Hq in Ho. unfold advance_command. rewrite Ho. exists c, None.
    split; [done|]. split; [apply advanced_nil; try done; by exists cs, os|]. by rewrite ?Ho.
  - destruct (si_commands _ _ _ Hi) as [Htr _]. rewrite Hq in Htr. destruct cs as [|x cs]; [by inversion Htr|].
    apply Forall2_cons in Htr as [Hlk _]. pose proof (advance_command_spec c cmd q x cs os n Hi Hst Hctx Hq) as Hs.
    destruct (ss_process_next (co_service c)) as [s' r]. destruct Hs as (f & k & Heq & (Hcx & Hsd & Hf & _)%emits_frame & Hk & Hi' & _).
    rewrite Hk in Hf. eexists _, (Some f). split; [exact Heq|]. split.
    { apply advanced_one; rewrite ?Hf, ?Hcx; try done; [by exists cs, os| |by apply final_not_opening].
      rewrite (si_live _ _ _ Hi). set_solver. }
    rewrite (si_order _ _ _ Hi), Hq, fmap_cons. split_and!; [done..|]. exists f, (mkPendingCommand x (kind_of cmd)).
    split_and!; try done. intros key' Hne. cbn [pop set_live set_service set_commands co_command_correlations]. by rewrite lookup_delete_ne.
Qed.

(** The frames of an advance: the answer of the processed command, and at most
    one frame about an observation. *)
Definition command_answered context c (frames : list LocalFrame) : Prop :=
  match co_command_order c with
  | [] => (length frames ≤ 1)%nat
  | key :: _ => ∃ f rest p, frames = f :: rest ∧ (length rest ≤ 1)%nat ∧ co_command_correlations c !! key = Some p ∧
      correlation_id f = pc_correlation_id p ∧ final context f = true
  end.

Lemma advance_active c cs os n :
  session_inv c cs os → co_state c = Active n →
  ∃ c' frames, advance c = (c', Ok frames) ∧ advanced (context_of n) c frames c' ∧
    co_command_order c' = tail (co_command_order c) ∧ command_answered (context_of n) c frames ∧
    ∀ key, key ∈ co_command_order c' → co_command_correlations c' !! key = co_command_correlations c !! key.
Proof.
  intros Hi Hst. destruct (active_context _ _ _ _ Hi Hst) as [Hctx Hcur].
  destruct (advance_command_advanced c cs os n Hi Hst Hctx) as (c1 & o & Ho & Ha & Hord & Hobs & Hcmd).
  unfold advance. rewrite Hst. rewrite Hcur. unfold exec_bind at 1. rewrite Ho. unfold exec_bind at 1. cbn [gets].
  assert (match o with Some frame => [frame] | None => [] end = option_list o) as -> by (by destruct o).
  assert (∀ key, key ∈ co_command_order c1 → co_command_correlations c1 !! key = co_command_correlations c !! key) as Hkeep.
  { intros key. rewrite Hord. destruct (co_command_order c) as [|k0 order] eqn:Hoc; [by destruct Hcmd as [_ ->]|].
    intros Hin. destruct Hcmd as (f & p & _ & _ & _ & _ & Hother). apply Hother. cbn [tail] in Hin. intros ->.
    pose proof (sv_keys _ (si_service _ _ _ Hi)) as Hnd. rewrite <-(si_order _ _ _ Hi), Hoc in Hnd. apply NoDup_cons in Hnd as [Hnd _].
    done. }
  assert (∀ rest, (length rest ≤ 1)%nat → command_answered (context_of n) c (option_list o ++ rest)) as Hans.
  { intros rest Hr. unfold command_answered. destruct (co_command_order c) as [|k0 order]; [by destruct Hcmd as [-> _]|].
    destruct Hcmd as (f & p & -> & Hp & Hcx & Hf & _). by exists f, rest, p. }
  case_bool_decide as Hidle.
  { eexists _, _. cbn [lift]. split; [reflexivity|]. split_and!; try done. rewrite <-(app_nil_r (option_list o)). apply Hans. cbn. lia. }
  destruct (ad_ok _ _ _ _ Ha) as (cs1 & os1 & Hi1). pose proof (ad_state _ _ _ _ Ha) as Hst1. rewrite Hst in Hst1.
  destruct (advance_observation_spec c1 cs1 os1 n Hi1 Hst1 Hctx Hidle) as (c2 & frames & Hf & Ha2 & Hlen & Hco2 & Hcc2).
  unfold exec_bind. rewrite Hf. eexists _, _. cbn [lift]. split; [reflexivity|]. split_and!.
  - by eapply advanced_app.
  - by rewrite Hco2.
  - by apply Hans.
  - intros key. rewrite Hco2, Hcc2. apply Hkeep.
Qed.

(** ** Reachable executors *)

(** Executors reached from a new one by frames and advances, with any number of
    steps of the service's own threads in between. *)
Inductive executor_runs : SessionCore S → Prop :=
| er_new s config c : sv_ok s → typed_executor_config config → executor_new s config = Ok c → executor_runs c
| er_frame c f c' r : executor_runs c → handle_frame f c = (c', r) → executor_runs c'
| er_advance c c' r : executor_runs c → advance c = (c', r) → executor_runs c'
| er_service c s' : executor_runs c → quiet (co_service c) s' → executor_runs (set_service s' c).

(** A refused submission changes nothing but the service. *)
Definition refused c (f : LocalFrame) (n : Negotiated) c' (r : outcome LocalExecutorError (list LocalFrame)) : Prop :=
  ∃ m cmd s' a reason,
    decode_client_control_frame f (ng_frame_config n) (ng_compilation_limits n) = Ok (correlation_id f, m) ∧
    submission_of (co_service c) (cm_message m) = Some (cmd, (s', Ok a)) ∧ foreign c cmd a ∧
    r = Err (XStateInvariant reason) ∧ c' = set_service s' c ∧ session_ok c'.

Lemma handle_frame_fresh c cs os n f :
  session_inv c cs os → co_state c = Active n → correlation_id f ∉ co_live_correlations c →
  let '(c', r) := handle_frame f c in
  (∃ frames, r = Ok frames ∧ answered (context_of n) c (correlation_id f) frames c') ∨ refused c f n c' r.
Proof.
  intros Hi Hst Hx. pose proof (handle_frame_active c cs os n f Hi Hst Hx) as Hs. destruct (handle_frame f c) as [c' r].
  destruct Hs as [?|(m & Hd & [?|(cmd & submitted & Hsub & [?|(reason & s' & a & -> & -> & Hf & -> & Hok)])])]; [by left..|].
  right. by exists m, cmd, s', a, reason.
Qed.

Lemma handle_frame_session_ok c f c' r : session_ok c → handle_frame f c = (c', r) → session_ok c'.
Proof.
  intros Hok Heq. pose proof Hok as (cs & os & Hi). destruct (co_state c) as [|n|n] eqn:Hst.
  - pose proof (handle_frame_awaiting c cs os f Hi Hst) as Hs. rewrite Heq in Hs. apply Hs.
  - destruct (decide (correlation_id f ∈ co_live_correlations c)) as [Hx|Hx].
    + destruct (handle_frame_reused c cs os n f Hi Hst Hx) as (g & code & Hs & _). rewrite Heq in Hs. by injection Hs as -> _.
    + pose proof (handle_frame_fresh c cs os n f Hi Hst Hx) as Hs. rewrite Heq in Hs.
      destruct Hs as [(frames & _ & Ha)|(m & cmd & s' & a & reason & _ & _ & _ & _ & _ & ?)]; [apply (an_ok _ _ _ _ _ Ha)|done].
  - destruct (handle_frame_closed c cs os n f Hi Hst) as (g & code & Hs & _). rewrite Heq in Hs. by injection Hs as -> _.
Qed.

Lemma advance_total c : session_ok c →
  ∃ c' frames, advance c = (c', Ok frames) ∧ session_ok c' ∧ (length frames ≤ MAX_OUTPUT_FRAMES_PER_CALL)%nat ∧
    match co_state c with
    | Active n => advanced (context_of n) c frames c' ∧ co_command_order c' = tail (co_command_order c) ∧
        command_answered (context_of n) c frames ∧
        ∀ key, key ∈ co_command_order c' → co_command_correlations c' !! key = co_command_correlations c !! key
    | _ => c' = c ∧ frames = []
    end.
Proof.
  intros Hok. pose proof Hok as (cs & os & Hi). unfold MAX_OUTPUT_FRAMES_PER_CALL. destruct (co_state c) as [|n|n] eqn:Hst.
  1,3: exists c, []; unfold advance; rewrite Hst; (split_and!; [done|done|cbn; lia|done|done]).
  destruct (advance_active c cs os n Hi Hst) as (c' & frames & Heq & Ha & Ho & Hans & Hkeep).
  exists c', frames. split; [done|]. split; [apply (ad_ok _ _ _ _ Ha)|]. split; [|done].
  unfold command_answered in Hans. destruct (co_command_order c); [lia|]. destruct Hans as (f & rest & p & -> & ? & _). cbn. lia.
Qed.

(** C7. Every executor reached from a quiescent service keeps its bookkeeping in
    step with the service: the local order is the service's queue, each pending
    command and observation has exactly one live correlation, no correlation is
    shared, the live set never exceeds its bound, every outstanding observation
    is known, nothing is pending before the hello, and a closed session is idle. *)
Theorem executor_reachable_ok c : executor_runs c → session_ok c.
Proof.
  induction 1 as [s config c Hs Ht Hn|c f c' r _ IH Hf|c c' r _ IH Ha|c s' _ (cs & os & Hi) Hq].
  - by eapply executor_new_ok.
  - by eapply handle_frame_session_ok.
  - destruct (advance_total c IH) as (c2 & frames & Heq & Hok & _). rewrite Ha in Heq. by injection Heq as -> _.
  - exists cs, os. by apply service_quiet.
Qed.

(** C2. An active session answers every frame.  A frame whose correlation is
    still live is refused with a failure and no effect.  Any other frame gets
    one or two frames, all within the negotiated bounds, the last one for its
    own correlation, and the live correlations change exactly as the frames say:
    admissions open, completions and failures close.  The executor never
    panics; it returns an error only when the service answers a submission with
    another command's entry or result, and then only the service has moved. *)
Theorem executor_answers c n f :
  session_ok c → co_state c = Active n →
  let '(c', r) := handle_frame f c in
  (correlation_id f ∈ co_live_correlations c →
     c' = c ∧ ∃ g code, r = Ok [g] ∧ emits (context_of n) (correlation_id f) (SFailure code) g) ∧
  (correlation_id f ∉ co_live_correlations c →
     (∃ frames, r = Ok frames ∧ answered (context_of n) c (correlation_id f) frames c') ∨ refused c f n c' r).
Proof.
  intros (cs & os & Hi) Hst. destruct (decide (correlation_id f ∈ co_live_correlations c)) as [Hx|Hx].
  - destruct (handle_frame_reused c cs os n f Hi Hst Hx) as (g & code & -> & He). split; [|done]. eauto.
  - pose proof (handle_frame_fresh c cs os n f Hi Hst Hx) as Hs. by destruct (handle_frame f c) as [c' r].
Qed.

(** Advancing always succeeds with at most two frames, for live correlations
    only, within the negotiated bounds; a frame closes its correlation exactly
    when it is final, and outside an active session nothing happens. *)
Theorem executor_advances c :
  session_ok c →
  ∃ c' frames, advance c = (c', Ok frames) ∧ session_ok c' ∧ (length frames ≤ MAX_OUTPUT_FRAMES_PER_CALL)%nat ∧
    match co_state c with
    | Active n => advanced (context_of n) c frames c' ∧ co_command_order c' = tail (co_command_order c)
    | _ => c' = c ∧ frames = []
    end.
Proof.
  intros (c' & frames & Heq & Hok & Hlen & Hst)%advance_total. exists c', frames. split_and!; try done.
  destruct (co_state c); [done| |done]. by destruct Hst as (? & ? & _).
Qed.

(** [advance], [k] times. *)
Fixpoint advance_times (k : nat) (c : SessionCore S) : SessionCore S * list (outcome LocalExecutorError (list LocalFrame)) :=
  match k with
  | O => (c, [])
  | Datatypes.S k => let '(c, r) := advance c in let '(c, rs) := advance_times k c in (c, r :: rs)
  end.

Definition answers_command context c (key : IdempotencyKey) (r : outcome LocalExecutorError (list LocalFrame)) : Prop :=
  ∃ f rest p, r = Ok (f :: rest) ∧ co_command_correlations c !! key = Some p ∧
    correlation_id f = pc_correlation_id p ∧ final context f = true.

(** C16. As many advances as there are pending commands drain them: the k-th
    advance answers the k-th admitted command with a final frame for its
    correlation, and afterwards no command is pending. *)
Theorem executor_drains c n :
  session_ok c → co_state c = Active n →
  let '(c', rs) := advance_times (length (co_command_order c)) c in
  session_ok c' ∧ co_state c' = Active n ∧ co_command_order c' = [] ∧ co_command_correlations c' = ∅ ∧
  Forall2 (answers_command (context_of n) c) (co_command_order c) rs.
Proof.
  remember (co_command_order c) as order eqn:Ho. revert c Ho. induction order as [|key order IH]; intros c Ho Hok Hst; cbn [length advance_times].
  - split_and!; try done. destruct Hok as (cs & os & Hi). destruct (si_commands _ _ _ Hi) as [_ Hd].
    rewrite <-(si_order _ _ _ Hi), <-Ho in Hd. by apply dom_empty_iff_L.
  - destruct (advance_total c Hok) as (c1 & frames & Heq & Hok1 & _ & Hs). rewrite Hst in Hs.
    destruct Hs as (Ha & Ho1 & Hans & Hkeep). rewrite Heq. pose proof (ad_state _ _ _ _ Ha) as Hst1. rewrite Hst in Hst1.
    rewrite <-Ho in Ho1. cbn [tail] in Ho1. specialize (IH c1 (eq_sym Ho1) Hok1 Hst1). destruct (advance_times _ c1) as [c' rs].
    destruct IH as (Hok' & Hst' & Ho' & Hc' & Hrs). split_and!; try done. constructor.
    + unfold command_answered in Hans. rewrite <-Ho in Hans. destruct Hans as (f & rest & p & -> & _ & ? & ? & ?). by exists f, rest, p.
    + rewrite Ho1 in Hkeep. clear -Hrs Hkeep. induction Hrs as [|k r order rs (f & rest & p & -> & Hp & Hrest) _ IH]; constructor.
      * exists f, rest, p. split_and!; try apply Hrest; [done|]. rewrite <-Hkeep; [done|by left].
      * apply IH. intros key Hin. apply Hkeep. by right.
Qed.

(** C17. The life of a session: before the hello every frame is answered by one
    frame or rejected, admits nothing, and opens the session only together with
    a hello frame that the client can read; a close that succeeds leaves an idle
    service, which can then be taken out; a closed session answers everything
    with failures and never changes. *)
Theorem executor_lifecycle c :
  session_ok c →
  match co_state c with
  | AwaitingHello => ∀ f, let '(c', r) := handle_frame f c in greeted c (correlation_id f) c' r
  | Active n => ∀ x, x ∉ co_live_correlations c → ∃ c' frames, session_close x (context_of n) c = (c', Ok frames) ∧
      (c' = c ∨ c' = set_state (Closed n) c ∧ into_service c' = inl (co_service c) ∧
         sv_queue (co_service c) = [] ∧ sv_outstanding (co_service c) = [] ∧ ∃ f, frames = [f] ∧ emits (context_of n) x SClosed f)
  | Closed n => ∀ f, ∃ g code, handle_frame f c = (c, Ok [g]) ∧ emits (context_of n) (correlation_id f) (SFailure code) g
  end.
Proof.
  intros (cs & os & Hi). destruct (co_state c) as [|n|n] eqn:Hst.
  - intros f. by eapply handle_frame_awaiting.
  - intros x Hx. destruct (active_context _ _ _ _ Hi Hst) as [Hctx _].
    destruct (session_close_spec c cs os n x Hi Hst Hctx Hx) as (c' & frames & Heq & Ha & Hc). exists c', frames. split; [done|].
    destruct Hc as [?|(-> & Hq & Ho & Hf)]; [by left|]. right. split_and!; try done.
    destruct (an_ok _ _ _ _ _ Ha) as (cs' & os' & Hi'). unfold into_service, executor_status. cbn [xs_phase xs_live_correlations].
    cbn [co_state set_state]. rewrite bool_decide_true by done. rewrite (live_size _ _ _ Hi').
    destruct (si_commands _ _ _ Hi') as [Htr _]. cbn [co_service set_state] in Htr. rewrite Hq in Htr. inversion Htr; subst.
    destruct (si_phase _ _ _ Hi') as (_ & _ & Hoo). destruct (si_observations _ _ _ Hi') as [Hto _]. rewrite Hoo in Hto.
    by inversion Hto; subst.
  - intros f. by eapply handle_frame_closed.
Qed.

End theorems.
