(* ===== verification/Service.v ===== *)
(** * The local service

    [cogniform-engine/src/service.rs] with the observation part of [engine.rs]
    and the classification of its errors by the session executor: a gateway, the
    observation queue of its engine, and the recovery and revert of the whole.
    The queue, a field of the engine in the code, and the renderer's assets, a
    field of the renderer, are kept beside the gateway.  [ServiceEnvironment]
    holds what the next call reads from outside: clocks, backend and device
    answers. *)

From S2P Require Import Prelude Machine Ordering BTree Floats Values Components Messages MessageSpec Imagination ImaginationSpec Codec Compilation Ecs WorldTypes Hierarchy Render World SceneSpec Hash Compiler Replay ReplayLogs Recorded RenderScene Recovery Engine Procedural Query Gateway Observation Frame AssetTypes ScenePrepare ObservationQueue AssetStore RendererAssets LocalAssets Session Executor.

Open Scope N_scope.

Record LocalServiceConfig := mkServiceConfig {
  lc_engine : EngineConfig;
  lc_gateway : GatewayConfig;
  lc_asset_store : AssetStoreConfig;
}.

(** [LocalServiceConfig::new]. *)
Definition service_config_new (width height : N) : LocalServiceConfig :=
  mkServiceConfig (engine_config_new width height) gateway_config_default asset_store_config_default.

Inductive LocalRevertError : Type :=
| TargetIsCurrent (revision : SceneRevision)
| NotQuiescent (command_depth outstanding_observations pending_asset_imports pending_asset_uploads : N).

Inductive LocalServiceError : Type :=
| SvAsset (error : AssetError)
| SvProcedure (error : ProcedureError)
| SvRevert (error : LocalRevertError)
| SvGateway (error : GatewayError)
| SvEngine (error : EngineError).

(** [LocalServiceError::is_patch_rejected_without_mutation]. *)
Definition is_patch_rejected_without_mutation (e : LocalServiceError) : bool :=
  match e with SvGateway (GwEngine (EngWorldApply _)) => true | _ => false end.

(** [GatewayError::is_compilation_limit_exceeded]. *)
Definition is_compilation_limit_exceeded (e : GatewayError) : bool :=
  match e with
  | GwCompiler (InvalidCompilationResult error) =>
      match cve_kind error with
      | CvDecisionLimitExceeded | CvUnresolvedLimitExceeded | CvTextLimitExceeded | CvDecodedSizeLimitExceeded
      | CvInvalidPatch => true
      | _ => false
      end
  | GwCompiler (InvalidCompilationEncoding (CompEncodedSizeExceeded _ _ | CompNestingLimitExceeded _ _)) => true
  | _ => false
  end.

(** ** Failure codes of the session *)

Inductive ServiceOperation : Type := OpCommand | OpQuery | OpObservation.

(** [default_failure]. *)
Definition default_failure (operation : ServiceOperation) : SessionFailureCode :=
  match operation with
  | OpCommand => FcCommandRejected
  | OpQuery => FcQueryRejected
  | OpObservation => FcObservationRejected
  end.

(** [classify_observation_error]. *)
Definition classify_observation_error (e : ObservationError) : SessionFailureCode :=
  match e with
  | RequestRevisionMismatch _ _ => FcRevisionMismatch
  | CapacityExceeded _ => FcCapacityExceeded
  | WorkerUnavailable | WorkerStartFailed _ | ObsRenderer _ => FcServiceUnavailable
  | InvalidRequest _ | SourceRevisionAhead _ _ | SourceRevisionMismatch _ _ | CameraMismatch _ _
  | Engine.InvalidMetadata _ => FcObservationRejected
  end.

(** [classify_engine_error]. *)
Definition classify_engine_error (e : EngineError) (operation : ServiceOperation) : SessionFailureCode :=
  match e with
  | EngObservation error => classify_observation_error error
  | EngRenderer _ | EngSceneUpdate _ => FcServiceUnavailable
  | EngWorldApply _ => default_failure operation
  | EngInvalidConfig _ | RecoveryFrameBehindReplay _ _ | EngReplayConfig _ | EngReplayRevision _ | EngReplayRecord _
  | EngReplay _ | EngWorldExtraction _ | EngWorldInvariant _ => FcInternal
  end.

(** [classify_gateway_error]. *)
Definition classify_gateway_error (e : GatewayError) (operation : ServiceOperation) : SessionFailureCode :=
  if is_compilation_limit_exceeded e then FcLimitExceeded else
  match e with
  | GwCommandCapacityExceeded _ | GwIdempotencyCapacityExceeded | GwQueryResultCapacityExceeded _ _ => FcCapacityExceeded
  | GwQueryRevisionMismatch _ _ => FcRevisionMismatch
  | GwEngine error => classify_engine_error error operation
  | GwInvalidConfig _ | GwCompiler _ | GwWorldView _ => FcInternal
  | GwInvalidCommand _ | GwInvalidCommandEncoding _ | GwIdempotencyConflict _ | GwInvalidQueryResult _ =>
      default_failure operation
  end.

(** [classify_service_error]. *)
Definition classify_service_error (operation : ServiceOperation) (e : LocalServiceError) : SessionFailureCode :=
  match e with
  | SvGateway error => classify_gateway_error error operation
  | SvEngine error => classify_engine_error error operation
  | SvAsset _ | SvProcedure _ | SvRevert _ => default_failure operation
  end.

(** ** The service *)

(** What the next call reads from outside the model. *)
Record ServiceEnvironment := mkEnvironment {
  env_backend : Backend;
  env_tan : f64 → f64;
  env_gpu : GpuReadback;
  env_now : N;
  env_clock : N * N;
}.

(** [HeadlessRenderer::submit_scene]: preparation, then the submission. *)
Definition submit_scene (env : ServiceEnvironment) (assets : LocalAssets) (r : HeadlessRenderer) (camera_id : StableEntityId)
    : outcome RendererError (PendingFrame * HeadlessRenderer) :=
  let config := hr_config r in
  let! prepared := scene_prepare (env_tan env) (hr_scene r) camera_id (rcf_width config) (rcf_height config)
    (rcf_max_draws_per_frame config) (resolve_asset assets) in
  let! (frame_id, r') := submit_prepared (env_backend env) r in
  Ok (mkPendingFrame (hr_readback_layout r)
        (mkFrameMetadata frame_id (rn_revision (hr_scene r)) camera_id (rn_generation (hr_scene r)))
        (ps_id_lookup prepared) (env_gpu env), r').

Record ProcedureSubmission := mkProcedureSubmission {
  psub_admission : GatewayAdmission;
  psub_entity_ids : list StableEntityId;
}.

Record LocalRevertReceipt := mkRevertReceipt {
  rr_previous_revision : SceneRevision;
  rr_target_revision : SceneRevision;
  rr_removed_replay_entries : N;
  rr_next_frame_id : FrameId;
  rr_cleared_completed_results : N;
  rr_cleared_asset_records : N;
  rr_cleared_cpu_asset_bytes : N;
  rr_cleared_resident_asset_meshes : N;
  rr_cleared_gpu_asset_bytes : N;
}.

Record LocalServiceStatus := mkServiceStatus {
  st_scene_revision : SceneRevision;
  st_renderer_revision : SceneRevision;
  st_command_queue : GatewayQueueStats;
  st_completed_results : N;
  st_outstanding_observations : N;
  st_oldest_outstanding_observation_age_micros : option N;
  st_observation_capacity : N;
  st_replay_entries : N;
  st_replay_bytes : N;
}.

Section service.
Context `{Digest} `{ResultJson} `{!JsonCodec ScenePatch} `{!JsonCodec ImaginationEnvelope}.
Context {W E : Type} `{EqDecision E} `{!EntityStore W E}.

(** [CogniformEngine::request_observation]: the engine and the queue change. *)
Definition engine_request_observation (env : ServiceEnvironment) (assets : LocalAssets) (request : ObservationRequest)
    (e : CogniformEngine W E) (q : ObservationQueue)
    : CogniformEngine W E * ObservationQueue * outcome EngineError unit :=
  let world := rw_world (eng_world e) in
  match
    (do! map_err InvalidRequest (observation_request_validate request (runtime_limits (config world))) then
     guard_err (negb (or_scene_revision request =? revision world))
       (RequestRevisionMismatch (or_scene_revision request) (revision world)))
  with
  | Ok _ =>
      let '(q, reserved) := try_reserve (env_now env) q in
      match reserved with
      | Ok permit =>
          match submit_scene env assets (eng_renderer e) (or_camera_id request) with
          | Ok (pending, renderer) =>
              let '(q, result) := submit_reserved permit pending request (env_now env) q in
              (mkEngine (eng_world e) renderer, q, map_err EngObservation result)
          | Err error =>
              let '(q, result) := release permit q (Err (ObsRenderer error) : outcome ObservationError unit) in
              (e, q, match result with Panic => Panic | _ => Err (EngRenderer error) end)
          | Panic => (e, q, Panic)
          | OutOfFuel => (e, q, OutOfFuel)
          end
      | Err error => (e, q, Err (EngObservation error))
      | _ => (e, q, Panic)
      end
  | Err error => (e, q, Err (EngObservation error))
  | _ => (e, q, Panic)
  end.

Record LocalService := mkLocalService {
  lv_config : LocalServiceConfig;
  lv_gateway : LocalGateway W E;
  lv_observations : ObservationQueue;
  lv_assets : LocalAssets;
  lv_env : ServiceEnvironment;
}.

Definition set_gateway (g : LocalGateway W E) (s : LocalService) : LocalService :=
  mkLocalService (lv_config s) g (lv_observations s) (lv_assets s) (lv_env s).
Definition set_engine (e : CogniformEngine W E) (g : LocalGateway W E) : LocalGateway W E :=
  mkGateway e (gw_compiler g) (gw_queue g) (gw_completed g) (gw_idempotency_capacity g) (gw_limits g).
Definition set_queue (q : ObservationQueue) (s : LocalService) : LocalService :=
  mkLocalService (lv_config s) (lv_gateway s) q (lv_assets s) (lv_env s).
Definition set_assets (x : LocalAssets) (s : LocalService) : LocalService :=
  mkLocalService (lv_config s) (lv_gateway s) (lv_observations s) x (lv_env s).
Definition set_env (env : ServiceEnvironment) (s : LocalService) : LocalService :=
  mkLocalService (lv_config s) (lv_gateway s) (lv_observations s) (lv_assets s) env.

Definition lv_engine (s : LocalService) : CogniformEngine W E := gw_engine (lv_gateway s).
Definition lv_world (s : LocalService) : AuthoritativeWorld W E := rw_world (eng_world (lv_engine s)).

(** [LocalService::new]. *)
Definition service_new (c : LocalServiceConfig) (env : ServiceEnvironment) : outcome LocalServiceError LocalService :=
  do! map_err SvEngine (engine_validate_config (lc_engine c)) then
  do! map_err SvGateway (gateway_validate_config (lc_gateway c) (runtime_limits (ec_world (lc_engine c)))
    (max_idempotency_records (ec_world (lc_engine c)))) then
  let! engine := map_err SvEngine (engine_new (env_backend env) (lc_engine c)) in
  let! gateway := map_err SvGateway (gateway_new engine (lc_gateway c)) in
  Ok (mkLocalService c gateway
        (observation_queue_start (ec_observation_capacity (lc_engine c)) (runtime_limits (ec_world (lc_engine c))))
        (local_assets_new (lc_asset_store c)) env).

(** [LocalService::restore]. *)
Definition service_restore (c : LocalServiceConfig) (recovery : EngineRecoveryPoint) (clocks : nat → N * N)
    (env : ServiceEnvironment) : outcome LocalServiceError LocalService :=
  do! map_err SvEngine (engine_validate_config (lc_engine c)) then
  do! map_err SvGateway (gateway_validate_config (lc_gateway c) (runtime_limits (ec_world (lc_engine c)))
    (max_idempotency_records (ec_world (lc_engine c)))) then
  let! world := map_err SvEngine (prepare_restore (W:=W) (E:=E) (lc_engine c) recovery clocks) in
  let available_world_records := max_idempotency_records (config (rw_world world))
    - len_or_max u32_max (size (idempotency_records (rw_world world))) in
  do! map_err SvGateway (gateway_validate_config (lc_gateway c) (runtime_limits (ec_world (lc_engine c)))
    available_world_records) then
  let! engine := map_err SvEngine (restore_prepared (env_backend env) (lc_engine c) (rp_next_frame_id recovery) world) in
  let! gateway := map_err SvGateway (gateway_new engine (lc_gateway c)) in
  Ok (mkLocalService c gateway
        (observation_queue_start (ec_observation_capacity (lc_engine c)) (runtime_limits (ec_world (lc_engine c))))
        (local_assets_new (lc_asset_store c)) env).

(** [LocalService::status]. *)
Definition service_status (s : LocalService) : outcome LocalServiceError LocalServiceStatus :=
  let sampled_at := env_now (lv_env s) in
  let e := lv_engine s in
  let! (outstanding_observations, oldest) :=
    map_err (λ error, SvEngine (EngObservation error)) (observation_status_at (lv_observations s) sampled_at) in
  let log := rw_log (eng_world e) in
  Ok (mkServiceStatus (revision (lv_world s)) (rn_revision (hr_scene (eng_renderer e)))
        (queue_stats_at (gw_queue (lv_gateway s)) sampled_at) (count (size (gw_completed (lv_gateway s))))
        outstanding_observations oldest (os_capacity (oq_slots (lv_observations s)))
        (count (length (log_entries log))) (log_encoded_bytes log)).

(** [LocalService::submit_patch] and [submit_imagination]. *)
Definition service_submit (c : GatewayCommand) (s : LocalService) : LocalService * outcome LocalServiceError GatewayAdmission :=
  let '(g, r) := submit (lv_gateway s) c (env_now (lv_env s)) in
  (set_gateway g s, map_err SvGateway r).

(** [LocalService::submit_procedure]. *)
Definition service_submit_procedure (request : ProcedureRequest) (s : LocalService)
    : LocalService * outcome LocalServiceError ProcedureSubmission :=
  match execute request (runtime_limits (config (lv_world s))) with
  | Ok artifact =>
      let '(s, r) := service_submit (GPatch (art_patch artifact)) s in
      (s, let! admission := r in Ok (mkProcedureSubmission admission (art_entity_ids artifact)))
  | Err error => (s, Err (SvProcedure error))
  | Panic => (s, Panic)
  | OutOfFuel => (s, OutOfFuel)
  end.

(** [LocalService::configure_compilation_limits]. *)
Definition service_configure (cl : CompilationLimits) (s : LocalService) : LocalService * outcome LocalServiceError unit :=
  match configure_compilation_limits (lv_gateway s) cl with
  | Ok g => (set_gateway g s, Ok tt)
  | Err error => (s, Err (SvGateway error))
  | Panic => (s, Panic)
  | OutOfFuel => (s, OutOfFuel)
  end.

(** [LocalService::process_next]. *)
Definition service_process_next (s : LocalService) : LocalService * outcome LocalServiceError (option GatewayResponse) :=
  let '(g, r) := process_next (lv_gateway s) (env_clock (lv_env s)) in
  (set_gateway g s, map_err SvGateway r).

(** [LocalService::query]. *)
Definition service_query (q : SceneQuery) (s : LocalService) : outcome LocalServiceError SceneQueryResult :=
  map_err SvGateway (gateway_query (lv_gateway s) q).

(** [LocalService::request_observation]. *)
Definition service_request_observation (request : ObservationRequest) (s : LocalService)
    : LocalService * outcome LocalServiceError unit :=
  let '(e, q, r) := engine_request_observation (lv_env s) (lv_assets s) request (lv_engine s) (lv_observations s) in
  (set_gateway (set_engine e (lv_gateway s)) (set_queue q s), map_err SvEngine r).

(** [LocalService::try_receive_observation_delivery]. *)
Definition service_receive_delivery (s : LocalService) : LocalService * outcome LocalServiceError (option ObservationDelivery) :=
  let '(q, r) := try_receive_delivery (revision (lv_world s)) (lv_observations s) in
  (set_queue q s, map_err (λ error, SvEngine (EngObservation error)) r).

(** The errors of the asset calls, as the service reports them. *)
Definition service_asset_error (e : LocalAssetError) : LocalServiceError :=
  match e with LaStore error => SvAsset error | LaRenderer error => SvEngine (EngRenderer error) end.

(** [LocalService::asset_status]. *)
Definition service_asset_status (s : LocalService) : outcome LocalServiceError LocalAssetStatus :=
  map_err service_asset_error (asset_status (lv_assets s) (env_now (lv_env s))).

(** An asset call keeps the assets it returns. *)
Definition keep_assets {A} (s : LocalService) (r : outcome LocalAssetError (A * LocalAssets)) : LocalService * outcome LocalServiceError A :=
  match r with
  | Ok (a, x) => (set_assets x s, Ok a)
  | Err error => (s, Err (service_asset_error error))
  | Panic => (s, Panic)
  | OutOfFuel => (s, OutOfFuel)
  end.

(** [LocalService::enqueue_asset_source]. *)
Definition service_enqueue_asset_source `{GlbDecoder} (expected : ContentHash) (source : bytes) (s : LocalService)
    : LocalService * outcome LocalServiceError AssetAdmission :=
  let '(x, r) := enqueue_asset_source expected source (env_now (lv_env s)) (lv_assets s) in
  (set_assets x s, map_err service_asset_error r).

(** [LocalService::process_next_asset_import]. *)
Definition service_process_asset_import `{GlbDecoder} (s : LocalService)
    : LocalService * outcome LocalServiceError (option AssetProcessOutcome) :=
  keep_assets s (process_next_asset_import (lv_assets s)).

(** [LocalService::enqueue_asset_upload]. *)
Definition service_enqueue_asset_upload (key : AssetMeshKey) (s : LocalService)
    : LocalService * outcome LocalServiceError AssetUploadAdmission :=
  keep_assets s (enqueue_asset_upload (hr_config (eng_renderer (lv_engine s))) key (env_now (lv_env s)) (lv_assets s)).

(** [LocalService::process_next_asset_upload]. *)
Definition service_process_asset_upload (s : LocalService) : LocalService * outcome LocalServiceError (option AssetUploadOutcome) :=
  keep_assets s (process_next_asset_upload (lv_assets s)).

(** [LocalService::evict_asset]. *)
Definition service_evict_asset (hash : ContentHash) (s : LocalService) : LocalService * outcome LocalServiceError LocalAssetEvictionOutcome :=
  keep_assets s (evict_asset hash (lv_assets s)).

(** [LocalService::recovery_point_at_revision]. *)
Definition service_recovery_point_at (s : LocalService) (r : SceneRevision) : outcome LocalServiceError EngineRecoveryPoint :=
  map_err SvEngine (recovery_point_at_revision (lv_engine s) r).

(** [LocalService::revert_to_revision]; the service is replaced only on success. *)
Definition revert_to_revision (r : SceneRevision) (clocks : nat → N * N) (s : LocalService)
    : LocalService * outcome LocalServiceError LocalRevertReceipt :=
  let result :=
    let! status := service_status s in
    do! guard_err (r =? st_scene_revision status) (SvRevert (TargetIsCurrent r)) then
    let! recovery := service_recovery_point_at s r in
    let! assets := service_asset_status s in
    do! guard_err (negb (gqs_depth (st_command_queue status) =? 0) || negb (st_outstanding_observations status =? 0)
                   || negb (ast_pending_imports (la_store assets) =? 0) || negb (rs_pending_uploads (la_renderer assets) =? 0))
      (SvRevert (NotQuiescent (gqs_depth (st_command_queue status)) (st_outstanding_observations status)
         (ast_pending_imports (la_store assets)) (rs_pending_uploads (la_renderer assets)))) then
    let receipt := mkRevertReceipt (st_scene_revision status) r (st_scene_revision status - r) (rp_next_frame_id recovery)
      (st_completed_results status) (ast_records (la_store assets)) (ast_resident_cpu_bytes (la_store assets)) (rs_resident_meshes (la_renderer assets))
      (rs_resident_bytes (la_renderer assets)) in
    let! replacement := service_restore (lv_config s) recovery clocks (lv_env s) in
    let! replaced := service_status replacement in
    do! debug_assert (st_scene_revision replaced =? r) then
    do! debug_assert (st_renderer_revision replaced =? r) then
    Ok (replacement, receipt) in
  match result with
  | Ok (replacement, receipt) => (replacement, Ok receipt)
  | Err error => (s, Err error)
  | Panic => (s, Panic)
  | OutOfFuel => (s, OutOfFuel)
  end.

(** ** The service of a session *)

(** [impl SessionService for LocalService]. *)
Definition classified {A} (operation : ServiceOperation) (p : LocalService * outcome LocalServiceError A)
    : LocalService * outcome SessionFailureCode A :=
  (p.1, map_err (classify_service_error operation) p.2).

Definition service_delivery (d : ObservationDelivery) : ServiceObservationDelivery :=
  match d with
  | OdCompleted o => SdCompleted (ob_metadata o) (ob_payload o)
  | OdFailed id error => SdFailed id (classify_observation_error error)
  end.

Definition service_poll (s : LocalService) : LocalService * outcome LocalServiceError (option ServiceObservationDelivery) :=
  let '(s, r) := service_receive_delivery s in
  (s, let! d := r in Ok (service_delivery <$> d)).

#[export] Instance local_service_session : SessionService LocalService := {|
  ss_runtime_limits := λ s, runtime_limits (config (lv_world s));
  ss_command_capacity := λ s, gc_command_capacity (lc_gateway (lv_config s));
  ss_observation_capacity := λ s, os_capacity (oq_slots (lv_observations s));
  ss_observation_dimensions := λ s,
    let config := hr_config (eng_renderer (lv_engine s)) in (rcf_width config, rcf_height config);
  ss_snapshot := λ s, mkServiceSnapshot (queue_depth (gw_queue (lv_gateway s))) (os_in_use (oq_slots (lv_observations s)));
  ss_configure_compilation_limits := λ cl s, classified OpCommand (service_configure cl s);
  ss_submit_patch := λ p s, classified OpCommand (service_submit (GPatch p) s);
  ss_submit_imagination := λ i s, classified OpCommand (service_submit (GImagination i) s);
  ss_process_next := λ s, classified OpCommand (service_process_next s);
  ss_query := λ q s, map_err (classify_service_error OpQuery) (service_query q s);
  ss_request_observation := λ q s, classified OpObservation (service_request_observation q s);
  ss_poll_observation := λ s, classified OpObservation (service_poll s);
|}.

(** Between calls the environment moves and the worker works. *)
Inductive service_step (s : LocalService) : LocalService → Prop :=
| sv_environment env : service_step s (set_env env s)
| sv_worker q : worker_step (lv_observations s) q → service_step s (set_queue q s).

End service.
Arguments LocalService : clear implicits.
