(* ===== verification/ServiceTheorems.v ===== *)
(** * The local service keeps the promises of a session's service

    [service_ok] is the invariant of the service: its gateway and its
    observation queue are sound and the identities of the outstanding
    observations are distinct.  Under it the service satisfies
    [SessionServiceLaws], so every theorem about the session executor holds of
    the executor over this service.  The last part is the revert to an earlier
    revision. *)

From S2P Require Import Prelude Machine Ordering BTree Floats Values Components Messages MessageSpec Imagination ImaginationSpec Codec Compilation Ecs WorldTypes Hierarchy Render World SceneSpec CommitRefine PreflightRefine WorldInvariant WorldApply Extraction WorldTheorems Hash Sha256 Compiler CompilerReport CompilerOutcome CompilerApply CompilerTheorems Replay ReplayCodec ReplayLogs Recorded RecordedReplay ReplayWitness RenderScene Recovery Engine EngineSync EngineTheorems Query Gateway GatewayInvariant GatewayTheorems Observation Frame AssetTypes ScenePrepare AssetStore RendererAssets LocalAssets ObservationQueue ObservationTheorems Session Executor ExecutorInvariant Service.

Open Scope N_scope.

Section theorems.
Context `{Digest} `{ResultJson} `{!JsonCodec ScenePatch} `{!JsonCodecLaws ScenePatch} `{!JsonCodec ImaginationEnvelope}.
Context {W E : Type} `{EqDecision E} `{!EntityStore W E} `{!EntityStoreLaws W E}.
Implicit Types g : LocalGateway W E.
Implicit Types e : CogniformEngine W E.
Implicit Types s : LocalService W E.

(** ** The invariant *)

Definition outstanding_ids (q : ObservationQueue) : list ObservationId := or_observation_id <$> outstanding q.

Definition positive_target (r : HeadlessRenderer) : Prop :=
  0 < rl_width (hr_readback_layout r) ∧ 0 < rl_height (hr_readback_layout r).

Record service_ok s : Prop := {
  lo_gateway : gateway_ok (lv_gateway s);
  lo_queue : observations_ok [] (lv_observations s);
  lo_capacity : cq_capacity (gw_queue (lv_gateway s)) = gc_command_capacity (lc_gateway (lv_config s));
  lo_observations : os_capacity (oq_slots (lv_observations s)) ≤ u32_max;
  lo_target : positive_target (eng_renderer (lv_engine s));
  lo_asset_config : assets_config_ok (hr_config (eng_renderer (lv_engine s)));
  lo_assets : local_assets_ok (hr_config (eng_renderer (lv_engine s))) (lv_assets s);
}.

#[export] Instance local_service_view : ServiceView (LocalService W E) := {|
  sv_ok := λ s, service_ok s ∧ NoDup (outstanding_ids (lv_observations s));
  sv_queue := λ s, cm_command <$> cq_entries (gw_queue (lv_gateway s));
  sv_outstanding := λ s, outstanding_ids (lv_observations s);
|}.

(** ** What never changes *)

(** The parts of an engine, and of a gateway, that no operation changes. *)
Record engine_fixed e e' : Prop := {
  ef_config : hr_config (eng_renderer e') = hr_config (eng_renderer e);
  ef_layout : hr_readback_layout (eng_renderer e') = hr_readback_layout (eng_renderer e);
  ef_world : rw_world_config (eng_world e') = rw_world_config (eng_world e);
  ef_replay : log_config (rw_log (eng_world e')) = log_config (rw_log (eng_world e));
}.

Record gateway_fixed g g' : Prop := {
  gf_limits : gw_limits g' = gw_limits g;
  gf_capacity : cq_capacity (gw_queue g') = cq_capacity (gw_queue g);
  gf_engine : engine_fixed (gw_engine g) (gw_engine g');
}.

Lemma gateway_fixed_refl g : gateway_fixed g g.
Proof. done. Qed.

Lemma service_limits s : service_ok s → ss_runtime_limits s = gw_limits (lv_gateway s).
Proof.
  intros Hs. pose proof (lo_gateway _ Hs) as Hg. cbn [ss_runtime_limits local_service_session].
  rewrite (go_limits _ Hg). f_equal. apply world_config_eq, Hg.
Qed.

(** An operation on a sound service that leaves the fixed parts alone keeps the
    invariant and the bounds, if the two queues stay sound. *)
Lemma service_moves s g q env :
  service_ok s → gateway_ok g → gateway_fixed (lv_gateway s) g →
  observations_ok [] q → os_capacity (oq_slots q) = os_capacity (oq_slots (lv_observations s)) →
  let s' := mkLocalService (lv_config s) g q (lv_assets s) env in service_ok s' ∧ same_bounds s s'.
Proof.
  intros Hs Hg [Hl Hc [Hcfg Hlay _ _]] Hq Hcap s'. assert (service_ok s') as Hs'.
  { split; cbn; try done; [rewrite Hc; exact (lo_capacity _ Hs)|rewrite Hcap; exact (lo_observations _ Hs)|..].
    - pose proof (lo_target _ Hs) as [? ?]. unfold positive_target, lv_engine. cbn. by rewrite Hlay.
    - unfold lv_engine. cbn. rewrite Hcfg. exact (lo_asset_config _ Hs).
    - unfold lv_engine. cbn. rewrite Hcfg. exact (lo_assets _ Hs). }
  split; [done|]. split; [rewrite (service_limits _ Hs'), (service_limits _ Hs); exact Hl| | |]; cbn; [done|done|].
  unfold lv_engine. cbn. by rewrite Hcfg.
Qed.

(** Only the gateway moves. *)
Lemma gateway_moves s g :
  service_ok s → gateway_ok g → gateway_fixed (lv_gateway s) g →
  service_ok (set_gateway g s) ∧ same_bounds s (set_gateway g s).
Proof. intros Hs Hg Hf. apply (service_moves s g (lv_observations s) (lv_env s)); try done; apply Hs. Qed.

(** ** Commands *)

Lemma service_depth s : service_ok s →
  queue_depth (gw_queue (lv_gateway s)) = N.of_nat (length (sv_queue s)).
Proof. intros Hs. cbn. rewrite length_fmap. apply queue_depth_exact, Hs. Qed.

Lemma queue_admit_capacity q r room : cq_capacity (queue_admit q r room).1 = cq_capacity q.
Proof. unfold queue_admit. repeat case_match; done. Qed.

Lemma submit_fixed g c now : gateway_fixed g (submit g c now).1.
Proof.
  unfold submit. destruct (out_bind _ _) as [a| | |]; [|apply gateway_fixed_refl..]. unfold gateway_admit.
  destruct (gw_completed g !! record_key a); [apply gateway_fixed_refl|].
  pose proof (queue_admit_capacity (gw_queue g) a (count (size (gw_completed g)) + queue_depth (gw_queue g) <? gw_idempotency_capacity g)) as Hc.
  destruct (queue_admit _ _ _) as [q r]. by split.
Qed.

(** A submission on the list of queued commands. *)
Definition commands_effect (queue : list GatewayCommand) (c : GatewayCommand) (queue' : list GatewayCommand)
    (r : outcome GatewayError GatewayAdmission) : Prop :=
  match r with
  | Ok (Queued k) => k = command_key c ∧ queue' = queue ++ [c]
  | Ok (AlreadyQueued k) => k = command_key c ∧ queue' = queue
  | Ok (Superseded k old) => k = command_key c ∧ ∃ i x, queue !! i = Some x ∧ command_key x = old ∧ old ≠ k ∧
      queue' = <[i := c]> queue
  | Ok (Dropped k) => k = command_key c ∧ queue' = queue
  | Ok (Replayed _) | Err _ => queue' = queue
  | _ => False
  end.

Lemma admitted_commands q r room q' result :
  admitted q r room q' result →
  commands_effect (cm_command <$> cq_entries q) (cm_command r) (cm_command <$> cq_entries q') result.
Proof.
  destruct result as [[k|k|k old|k|resp]|[]| |]; cbn; try done.
  - intros (-> & -> & _). by rewrite fmap_app.
  - intros (-> & -> & _). done.
  - intros (-> & Hne & i & x & key & Hx & <- & _ & _ & ->). split; [done|]. exists i, (cm_command x).
    rewrite list_lookup_fmap, Hx, list_fmap_insert. done.
  - intros (-> & -> & _). done.
  - by intros (_ & _ & -> & _).
  - by intros (_ & -> & _).
  - by intros (_ & -> & _).
Qed.

Lemma submission_commands g c now g' r :
  submission g c now g' r →
  commands_effect (cm_command <$> cq_entries (gw_queue g)) c (cm_command <$> cq_entries (gw_queue g')) r.
Proof.
  unfold submission. intros Hs.
  assert (g' = g ∧ (∃ error, r = Err error) ∨ ∃ rec, cm_command rec = c ∧ admission g rec g' r) as [[-> [error ->]]|(rec & <- & Ha)].
  { destruct (match c with GPatch _ => _ | GImagination _ => _ end); [|destruct Hs as [-> ->]; eauto|..].
    all: destruct (command_record_new c (gw_limits g) now) as [rec|error| |] eqn:Hr; try done; [|destruct Hs as [-> ->]; eauto].
    all: right; exists rec; split; [by eapply command_record_command|done]. }
  - done.
  - destruct Ha as (_ & _ & Ha). destruct (gw_completed g !! record_key rec) as [done|].
    + destruct Ha as [-> ->]. by case_decide.
    + by eapply admitted_commands.
Qed.

Lemma service_submit_sim s c :
  service_ok s → typed_command c →
  let '(s', r) := classified OpCommand (service_submit c s) in
  service_ok s' ∧ same_bounds s s' ∧ lv_observations s' = lv_observations s ∧ admits s c s' r.
Proof.
  intros Hs Hc. unfold service_submit, classified.
  pose proof (submit_sim (lv_gateway s) c (env_now (lv_env s)) (lo_gateway _ Hs) Hc) as Hsim.
  pose proof (submit_fixed (lv_gateway s) c (env_now (lv_env s))) as Hf.
  destruct (submit (lv_gateway s) c (env_now (lv_env s))) as [g r]. destruct Hsim as [Hg Hsim%submission_commands]. cbn [fst snd].
  destruct (gateway_moves s g Hs Hg Hf) as [Hs' Hb]. split; [done|]. split; [done|]. split; [done|].
  by destruct r as [[]| | |].
Qed.

(** Processing changes no configuration, whatever it returns. *)
Definition recorded_fixed (rw rw' : RecordedWorld W E) : Prop :=
  rw_world_config rw' = rw_world_config rw ∧ log_config (rw_log rw') = log_config (rw_log rw).

Lemma recorded_fixed_trans x y z : recorded_fixed x y → recorded_fixed y z → recorded_fixed x z.
Proof. unfold recorded_fixed. intuition congruence. Qed.

Lemma world_apply_fixed p f clock rw : recorded_fixed rw (world_apply p f clock rw).1.
Proof. rewrite world_apply_eq. by destruct (apply_patch _ _ _ _) as [[? ?]| | |]. Qed.

Lemma recorded_apply_fixed rw p f clock : recorded_fixed rw (recorded_apply_patch rw p f clock).1.
Proof.
  unfold recorded_apply_patch. destruct (is_some _); [apply world_apply_fixed|].
  repeat (apply (mut_bind_keeps recorded_fixed); [apply recorded_fixed_trans|first [apply world_apply_fixed|by split]|intros ? ? _]). by split.
Qed.

Lemma engine_fixed_trans e1 e2 e3 : engine_fixed e1 e2 → engine_fixed e2 e3 → engine_fixed e1 e3.
Proof. intros [] []. split; congruence. Qed.

Lemma engine_fixed_refl e : engine_fixed e e.
Proof. by split. Qed.

Lemma engine_apply_fixed e p clock : engine_fixed e (engine_apply_patch e p clock).1.
Proof.
  unfold engine_apply_patch. apply (mut_bind_keeps engine_fixed); [apply engine_fixed_trans|apply engine_fixed_refl|intros f e1 _].
  apply (mut_bind_keeps engine_fixed); [apply engine_fixed_trans| |intros receipt e2 _].
  { unfold mut_in, mut_err. pose proof (recorded_apply_fixed (eng_world e1) p f clock) as [Hw Hl].
    destruct (recorded_apply_patch _ _ _ _) as [rw r]. cbn in *. by split. }
  destruct (bool_decide _); [apply engine_fixed_refl|].
  apply (mut_bind_keeps engine_fixed); [apply engine_fixed_trans| |intros x e3 _].
  { unfold mut_in, mut_last, recorded_take_render_extraction. destruct (take_render_extraction _) as [[x w]| | |]; by split. }
  apply (mut_bind_keeps engine_fixed); [apply engine_fixed_trans| |intros summary e4 _].
  { unfold mut_in, mut_last, apply_extraction. destruct (render_scene_apply _ _) as [[su sc]| | |]; by split. }
  repeat (apply (mut_bind_keeps engine_fixed); [apply engine_fixed_trans|apply engine_fixed_refl|intros ? ? _]). apply engine_fixed_refl.
Qed.

Lemma run_command_fixed cfg e c clock : engine_fixed e (run_command cfg e c clock).1.
Proof.
  assert (∀ e p, engine_fixed e (mut_err GwEngine (λ e, engine_apply_patch e p clock) e).1) as Ha.
  { intros e0 p. unfold mut_err. pose proof (engine_apply_fixed e0 p clock). by destruct (engine_apply_patch _ _ _). }
  destruct c as [p|i]; cbn [run_command].
  - apply (mut_bind_keeps engine_fixed); [apply engine_fixed_trans|apply Ha|intros ? ? _]. apply engine_fixed_refl.
  - do 2 (apply (mut_bind_keeps engine_fixed); [apply engine_fixed_trans|apply engine_fixed_refl|intros ? ? _]).
    destruct (cr_patch _) as [p|]; [|apply engine_fixed_refl].
    apply (mut_bind_keeps engine_fixed); [apply engine_fixed_trans|apply Ha|intros ? ? _]. apply engine_fixed_refl.
Qed.

Lemma process_fixed g clock : gateway_fixed g (process_next g clock).1.
Proof.
  unfold process_next, queue_pop_front. destruct (cq_entries (gw_queue g)) as [|r rest]; [apply gateway_fixed_refl|].
  pose proof (run_command_fixed (gw_compiler g) (gw_engine g) (cm_command r) clock) as Hr.
  destruct (run_command _ _ _ _) as [e [response|error| |]]; cbn [fst] in Hr; [case_match|..]; by split.
Qed.

Lemma service_process_sim s : service_ok s →
  let '(s', r) := classified OpCommand (service_process_next s) in
  service_ok s' ∧ same_bounds s s' ∧ sv_queue s' = tail (sv_queue s) ∧ lv_observations s' = lv_observations s ∧ normal r.
Proof.
  intros Hs. unfold service_process_next, classified.
  pose proof (process_sim (lv_gateway s) (env_clock (lv_env s)) (lo_gateway _ Hs)) as Hsim.
  pose proof (process_fixed (lv_gateway s) (env_clock (lv_env s))) as Hf.
  destruct (process_next _ _) as [g r]. destruct Hsim as [Hg Hp]. cbn [fst snd].
  destruct (gateway_moves s g Hs Hg Hf) as [Hs' Hb]. split; [done|]. split; [done|].
  unfold processed in Hp. cbn [sv_queue local_service_view set_gateway lv_gateway lv_observations].
  destruct (cq_entries (gw_queue (lv_gateway s))) as [|rec rest] eqn:He; [destruct Hp as [-> ->]; by rewrite He|].
  destruct Hp as [-> Hp]. split; [done|]. split; [done|]. by destruct r as [[]| | |].
Qed.

Lemma service_configure_sim s cl : service_ok s →
  let '(s', r) := classified OpCommand (service_configure cl s) in
  service_ok s' ∧ same_bounds s s' ∧ sv_queue s' = sv_queue s ∧ lv_observations s' = lv_observations s ∧ normal r.
Proof.
  intros Hs. unfold service_configure, classified.
  assert (normal (configure_compilation_limits (lv_gateway s) cl)) as Hn.
  { unfold configure_compilation_limits. do 2 (apply out_bind_normal; [apply guard_err_normal|intros _ _]). done. }
  assert (same_bounds s s) as Hb by done.
  destruct (configure_compilation_limits (lv_gateway s) cl) as [g|error| |] eqn:Hc; try done; cbn [fst snd map_err].
  pose proof (gateway_step_ok _ _ (lo_gateway _ Hs) (gs_configure _ _ _ Hc)) as Hg.
  unfold configure_compilation_limits in Hc. apply out_bind_ok in Hc as (_ & _ & Hc). apply out_bind_ok in Hc as (_ & _ & <-%Ok_inj).
  destruct (gateway_moves s _ Hs Hg) as [Hs' Hb']; [by split|done].
Qed.

(** ** Queries *)

Lemma service_query_normal s q : service_ok s → normal (map_err (classify_service_error OpQuery) (service_query q s)).
Proof.
  intros Hs. unfold service_query. do 2 apply map_err_normal. unfold gateway_query.
  apply out_bind_normal; [apply map_err_normal, query_validate_normal|intros _ _].
  pose proof (cs_world _ _ (sh_consumable _ _ (eo_shown _ (go_engine _ (lo_gateway _ Hs))))) as Hrw.
  apply out_bind_normal; [by rewrite (snapshot_sim _ (proj1 (ri_world _ Hrw)))|intros snap _]. unfold execute_query.
  do 2 (apply out_bind_normal; [apply guard_err_normal|intros _ _]).
  apply out_bind_normal; [apply map_err_normal, query_result_validate_normal|done].
Qed.

(** ** Observations *)

Lemma submit_prepared_normal be r : normal (submit_prepared be r).
Proof.
  unfold submit_prepared. apply out_bind_normal; [unfold backend_call; by destruct (be_readback be)|intros _ _].
  apply out_bind_normal; [|done]. apply map_err_normal. unfold frame_id_new. by destruct (non_zero _).
Qed.

Lemma submit_scene_sim env assets e camera :
  engine_ok e →
  match submit_scene env assets (eng_renderer e) camera with
  | Ok (pending, r) => ∃ frame, engine_submit_frame (env_backend env) e = Ok (frame, mkEngine (eng_world e) r) ∧
      engine_fixed e (mkEngine (eng_world e) r) ∧
      pf_layout pending = hr_readback_layout (eng_renderer e) ∧ fm_camera_id (pf_metadata pending) = camera ∧
      fm_scene_revision (pf_metadata pending) = revision (rw_world (eng_world e))
  | Err _ => True
  | _ => False
  end.
Proof.
  intros He. unfold submit_scene. pose proof (cs_scene _ _ (sh_consumable _ _ (eo_shown _ He))) as Hsc.
  pose proof (scene_prepare_normal (env_tan env) _ camera (rcf_width (hr_config (eng_renderer e))) (rcf_height (hr_config (eng_renderer e)))
    (rcf_max_draws_per_frame (hr_config (eng_renderer e))) (resolve_asset assets) Hsc) as Hn.
  destruct (scene_prepare _ _ _ _ _ _ _) as [prepared| | |]; try done. cbn [out_bind].
  unfold engine_submit_frame. pose proof (submit_prepared_normal (env_backend env) (eng_renderer e)) as Hsn.
  destruct (submit_prepared (env_backend env) (eng_renderer e)) as [[frame r]|error| |] eqn:Hs;
    cbn [out_bind map_err]; try done.
  exists frame. split; [done|]. unfold submit_prepared in Hs. apply out_bind_ok in Hs as (_ & _ & Hs).
  apply out_bind_ok in Hs as (f & _ & Hs). apply Ok_inj in Hs as [= _ <-]. cbn. split_and!; try done.
  apply (sh_revision _ _ (eo_shown _ He)).
Qed.

(** The engine and the queue after a request. *)
Lemma engine_request_sim env assets request e q :
  engine_ok e → observations_ok [] q → positive_target (eng_renderer e) →
  let '(e', q', r) := engine_request_observation env assets request e q in
  (e' = e ∨ ∃ frame, engine_submit_frame (env_backend env) e = Ok (frame, e') ∧ engine_fixed e e') ∧
  observations_ok [] q' ∧ os_capacity (oq_slots q') = os_capacity (oq_slots q) ∧ normal r ∧
  outstanding q' = outstanding q ++ (if is_ok r then [request] else []).
Proof.
  intros He Hq [Hw Hh]. unfold engine_request_observation. set (v := out_bind _ _).
  assert (∀ u, v = Ok u → or_scene_revision request = revision (rw_world (eng_world e))) as Hrev.
  { intros u Hv. apply out_bind_ok in Hv as (_ & _ & Hv). apply guard_err_ok in Hv. by apply negb_false_iff, N.eqb_eq in Hv. }
  assert (normal v) as Hnv.
  { apply out_bind_normal; [apply map_err_normal, observation_request_validate_normal|intros _ _; apply guard_err_normal]. }
  destruct v as [u|error| |]; try done; [|by split_and!; [left|..|by rewrite app_nil_r]].
  specialize (Hrev u eq_refl). pose proof (try_reserve_ok (env_now env) q Hq) as Hr.
  destruct (try_reserve (env_now env) q) as [q1 [permit|error| |]]; destruct Hr as (Ho & Hl & Hwk & Hcap & Hr); try done.
  - destruct Hr as [Hq1 _]. pose proof (submit_scene_sim env assets e (or_camera_id request) He) as Hsub.
    destruct (submit_scene env assets (eng_renderer e) (or_camera_id request)) as [[pending r]|error| |]; try done.
    + destruct Hsub as (frame & Hf & Hfix & Hpl & Hcam & Hsr).
      assert (job_ok (mkJob permit pending request (env_now env))) as Hj by (split; cbn; rewrite ?Hpl; congruence || done).
      pose proof (submit_reserved_ok permit pending request (env_now env) q1 Hq1 Hj) as Hs.
      destruct (submit_reserved _ _ _ _ _) as [q2 r2]. destruct Hs as (Hq2 & _ & _ & Hcap2 & -> & Ho2).
      split; [right; eauto|]. split; [done|]. split; [congruence|]. rewrite Ho2, Ho. by destruct (oq_worker q1).
    + destruct (release_ok permit [] q1 (Err (ObsRenderer error) : outcome ObservationError unit) Hq1) as (sl & -> & Hq2 & Hcap2).
      split; [by left|]. split; [done|]. split; [cbn; congruence|]. split; [done|]. by rewrite outstanding_set_slots, Ho, app_nil_r.
  - destruct Hr as (_ & -> & _). by split_and!; [left|..|by rewrite app_nil_r].
Qed.

Lemma service_request_sim s request : service_ok s →
  let '(s', r) := classified OpObservation (service_request_observation request s) in
  service_ok s' ∧ same_bounds s s' ∧ sv_queue s' = sv_queue s ∧ normal r ∧
  sv_outstanding s' = sv_outstanding s ++ (if is_ok r then [or_observation_id request] else []).
Proof.
  intros Hs. unfold service_request_observation, classified.
  pose proof (engine_request_sim (lv_env s) (lv_assets s) request (lv_engine s) (lv_observations s) (go_engine _ (lo_gateway _ Hs))
    (lo_queue _ Hs) (lo_target _ Hs)) as Hsim.
  destruct (engine_request_observation _ _ _ _ _) as [[e q] r]. destruct Hsim as (He & Hq & Hcap & Hn & Ho). cbn [fst snd].
  assert (gateway_ok (set_engine e (lv_gateway s)) ∧ gateway_fixed (lv_gateway s) (set_engine e (lv_gateway s))) as [Hg Hf].
  { destruct He as [->|(frame & Hfr & Hfix)].
    - split; [|by split]. unfold set_engine, lv_engine. destruct (lo_gateway _ Hs). by split.
    - split; [|by split]. eapply gateway_step_ok; [apply Hs|]. by eapply gs_frame. }
  assert (outstanding_ids q = outstanding_ids (lv_observations s) ++ (if is_ok r then [or_observation_id request] else [])) as Hids.
  { unfold outstanding_ids. rewrite Ho, fmap_app. by destruct r. }
  destruct (service_moves s (set_engine e (lv_gateway s)) q (lv_env s) Hs Hg Hf Hq Hcap) as [Hs' Hb].
  split; [done|]. split; [done|]. split; [done|]. split; [by do 2 apply map_err_normal|].
  cbn [sv_outstanding local_service_view set_gateway set_queue lv_observations]. rewrite Hids. by destruct r.
Qed.

Lemma service_poll_sim s : service_ok s →
  let '(s', r) := classified OpObservation (service_poll s) in
  service_ok s' ∧ same_bounds s s' ∧ sv_queue s' = sv_queue s ∧ normal r ∧ polls s s' r.
Proof.
  intros Hs. unfold service_poll, service_receive_delivery, classified.
  pose proof (try_receive_ok (revision (lv_world s)) (lv_observations s) (lo_queue _ Hs)) as Hr.
  destruct (try_receive_delivery _ _) as [q r]. destruct Hr as (Hq & Hcap & Hw & Hl & Hj & Ha & Hr). cbn [fst snd].
  assert (match oq_results (lv_observations s) with
          | [] => outstanding q = outstanding (lv_observations s) ∧
              (oq_worker (lv_observations s) = false → outstanding (lv_observations s) = [])
          | c :: _ => outstanding (lv_observations s) = oc_request c :: outstanding q
          end) as Ho.
  { destruct (oq_results (lv_observations s)) as [|c results] eqn:He.
    - destruct Hr as [-> _]. split; [done|]. intros [Hj' Ha']%(oo_dead _ _ (lo_queue _ Hs)).
      unfold outstanding. by rewrite He, Hj', Ha'.
    - destruct Hr as [Hres _]. unfold outstanding. by rewrite He, Hres, Hj, Ha. }
  destruct (service_moves s (lv_gateway s) q (lv_env s) Hs (lo_gateway _ Hs) (gateway_fixed_refl _) Hq Hcap) as [Hs' Hb].
  split; [done|]. split; [done|]. split; [done|]. unfold polls. cbn [sv_outstanding local_service_view set_queue lv_observations].
  unfold outstanding_ids. destruct (oq_results (lv_observations s)) as [|c results].
  - destruct Hr as [_ ->], Ho as [Ho Hdead]. rewrite Ho. destruct (oq_worker (lv_observations s)); cbn; [done|]. by rewrite Hdead.
  - destruct Hr as (_ & d & -> & Hd%delivered_id). rewrite Ho. cbn. split; [done|]. f_equal. rewrite <-Hd. by destruct d.
Qed.

(** ** The promises *)

Lemma outstanding_fits s : service_ok s → os_in_use (oq_slots (lv_observations s)) = N.of_nat (length (sv_outstanding s)).
Proof.
  intros Hs. destruct (observations_bound _ _ (lo_queue _ Hs)) as [Hb _]. cbn [length Nat.add] in Hb.
  cbn. unfold outstanding_ids. by rewrite length_fmap.
Qed.

#[export] Instance local_service_laws : SessionServiceLaws (LocalService W E).
Proof.
  split; intros s.
  - intros [Hs _]. cbn [ss_snapshot local_service_session]. by rewrite service_depth, outstanding_fits.
  - intros [Hs _]. pose proof (go_queue _ (lo_gateway _ Hs)) as [Hd Hc _ _ _]. cbn. rewrite length_fmap, <-(lo_capacity _ Hs). done.
  - intros [Hs _]. pose proof (go_queue _ (lo_gateway _ Hs)) as [_ _ Hk _ _]. cbn. by rewrite <-list_fmap_compose.
  - by intros [_ Hids].
  - intros [Hs _]. exact (lo_observations _ Hs).
  - intros cl [Hs Hids]. pose proof (service_configure_sim s cl Hs) as Hc. cbn [ss_configure_compilation_limits local_service_session].
    destruct (classified OpCommand (service_configure cl s)) as [s' r]. destruct Hc as (Hs' & Hb & Hq & Ho & Hn).
    split_and!; [|by cbn; rewrite Ho|done]. split; [split; [done|by rewrite Ho]|done|done|apply eq_incl; by cbn; rewrite Ho].
  - intros p [Hs Hids] Ht. pose proof (service_submit_sim s (GPatch p) Hs Ht) as Hc. cbn [ss_submit_patch local_service_session].
    destruct (classified OpCommand (service_submit (GPatch p) s)) as [s' r]. destruct Hc as (Hs' & Hb & Ho & Ha).
    split; [split; [done|by rewrite Ho]|]. split_and!; [done|by cbn; rewrite Ho|done].
  - intros i [Hs Hids] Ht. pose proof (service_submit_sim s (GImagination i) Hs Ht) as Hc. cbn [ss_submit_imagination local_service_session].
    destruct (classified OpCommand (service_submit (GImagination i) s)) as [s' r]. destruct Hc as (Hs' & Hb & Ho & Ha).
    split; [split; [done|by rewrite Ho]|]. split_and!; [done|by cbn; rewrite Ho|done].
  - intros [Hs Hids]. pose proof (service_process_sim s Hs) as Hp. cbn [ss_process_next local_service_session].
    destruct (classified OpCommand (service_process_next s)) as [s' r]. destruct Hp as (Hs' & Hb & Hq & Ho & Hn).
    split; [split; [done|by rewrite Ho]|]. split_and!; [done|done|by cbn; rewrite Ho|done].
  - intros q [Hs _]. exact (service_query_normal s q Hs).
  - intros q [Hs Hids] Hnew. pose proof (service_request_sim s q Hs) as Hr. cbn [ss_request_observation local_service_session].
    destruct (classified OpObservation (service_request_observation q s)) as [s' r]. destruct Hr as (Hs' & Hb & Hq & Hn & Ho).
    split; [|done]. split; [done|]. change (NoDup (sv_outstanding s')). rewrite Ho. apply NoDup_app. split; [done|].
    destruct (is_ok r); [|split; [by intros x _ ?%not_elem_of_nil|apply NoDup_nil_2]].
    split; [|apply NoDup_singleton]. by intros x Hx ->%list_elem_of_singleton.
  - intros [Hs Hids]. pose proof (service_poll_sim s Hs) as Hp. cbn [ss_poll_observation local_service_session].
    change (NoDup (sv_outstanding s)) in Hids.
    destruct (classified OpObservation (service_poll s)) as [s' r]. destruct Hp as (Hs' & Hb & Hq & Hn & Ho).
    split; [|done]. split; [done|]. change (NoDup (sv_outstanding s')). unfold polls in Ho.
    destruct r as [[d|]| | |]; [|by rewrite Ho|destruct Ho as [_ ->]; apply NoDup_nil_2..]. rewrite Ho in Hids. by apply NoDup_cons in Hids as [_ ?].
Qed.

(** Between calls the worker may die with the requests it has not answered. *)
Lemma service_step_keeps s s' : service_ok s → service_step s s' →
  service_ok s' ∧ same_bounds s s' ∧ sv_queue s' = sv_queue s ∧ sv_outstanding s' `prefix_of` sv_outstanding s.
Proof.
  intros Hs [env|q Hw].
  - destruct (service_moves s (lv_gateway s) (lv_observations s) env Hs (lo_gateway _ Hs) (gateway_fixed_refl _)
      (lo_queue _ Hs) eq_refl) as [? ?]. by split_and!.
  - destruct (worker_step_ok _ _ (lo_queue _ Hs) Hw) as [Hq (Hl & Hcap & He)].
    assert (outstanding q `prefix_of` outstanding (lv_observations s)) as [more Hp].
    { destruct (oq_worker q); destruct He as [_ He]; [by destruct He as [-> _]|]. rewrite He. by eexists. }
    destruct (service_moves s (lv_gateway s) q (lv_env s) Hs (lo_gateway _ Hs) (gateway_fixed_refl _) Hq Hcap) as [? ?].
    split_and!; try done. exists (or_observation_id <$> more). cbn. unfold outstanding_ids. by rewrite Hp, fmap_app.
Qed.

Lemma service_step_quiet s s' : sv_ok s → service_step s s' → quiet s s'.
Proof.
  intros [Hs Hids] Hst. destruct (service_step_keeps s s' Hs Hst) as (Hs' & Hb & Hq & [more Hm]). change (NoDup (sv_outstanding s)) in Hids.
  split; [split; [done|]|done|done|].
  - change (NoDup (sv_outstanding s')). rewrite Hm in Hids. by apply NoDup_app in Hids as (? & _ & _).
  - rewrite Hm. intros x Hx. apply elem_of_app. by left.
Qed.

(** C4. The local service refines the abstract service the session executor is
    proved against: its command queue and its outstanding observations are two
    lists that each call changes exactly as its answer says.  A submission
    appends, replaces or leaves the queue; processing takes the head; neither
    touches the observations.  An accepted request with a new identity appends
    it and a refused one changes nothing; a delivery answers and removes exactly
    the oldest one, and a poll that fails leaves none because none was left.
    Bounds never change and no call panics.  Between calls, whatever its worker
    and its environment do, the queue stays and the observations lose at most a
    tail. *)
Theorem local_service_promises :
  SessionServiceLaws (LocalService W E) ∧
  ∀ s s' : LocalService W E, sv_ok s → service_step s s' → quiet s s' ∧ sv_outstanding s' `prefix_of` sv_outstanding s.
Proof.
  split; [exact local_service_laws|]. intros s s' Hs Hst. split; [by apply service_step_quiet|]. by apply service_step_keeps; [apply Hs|].
Qed.

End theorems.
