(* ===== verification/ServiceRevert.v ===== *)
(** * Starting, restoring and reverting the local service

    A service is sound from its start, and stays so through every operation,
    through the steps of its worker and through a revert to an earlier revision,
    whose result is described exactly. *)

From S2P Require Import Prelude Machine Ordering BTree Floats Values Components Messages MessageSpec Imagination ImaginationSpec Codec Compilation Ecs WorldTypes Hierarchy Render World SceneSpec CommitRefine PreflightRefine WorldInvariant WorldApply Extraction WorldTheorems Hash Sha256 Compiler CompilerReport CompilerOutcome CompilerApply CompilerTheorems Replay ReplayCodec ReplayLogs Recorded RecordedReplay ReplayWitness RenderScene Recovery Engine EngineSync EngineTheorems Procedural Query Gateway GatewayInvariant GatewayTheorems Observation Frame AssetTypes ScenePrepare AssetStore RendererAssets LocalAssets ObservationQueue ObservationTheorems Session Executor ExecutorInvariant Service ServiceTheorems.

Open Scope N_scope.

Section theorems.
Context `{Digest} `{ResultJson} `{!JsonCodec ScenePatch} `{!JsonCodecLaws ScenePatch} `{!JsonCodec ImaginationEnvelope}.
Context {W E : Type} `{EqDecision E} `{!EntityStore W E} `{!EntityStoreLaws W E} `{GlbDecoderLaws}.
Implicit Types g : LocalGateway W E.
Implicit Types e : CogniformEngine W E.
Implicit Types s : LocalService W E.

(** ** Starting *)

Record service_config_ok (c : LocalServiceConfig) : Prop := {
  sc_engine : engine_config_ok (lc_engine c);
  sc_compilable : compilable (runtime_limits (ec_world (lc_engine c)));
  sc_room : nesting_room ScenePatch (runtime_limits (ec_world (lc_engine c)));
  sc_idempotency : gc_idempotency_capacity (lc_gateway c) ≤ u32_max;
  sc_observations : ec_observation_capacity (lc_engine c) ≤ u32_max;
  sc_assets : assets_config_ok (ec_renderer (lc_engine c));
  sc_store : store_config_ok (lc_asset_store c);
}.

(** A renderer has its configuration and a target that is not empty. *)
Definition built_from (c : RendererConfig) (r : HeadlessRenderer) : Prop := positive_target r ∧ hr_config r = c.

Lemma renderer_new_target be c f r : renderer_new_with_next_frame_id be c f = Ok r → built_from c r.
Proof.
  intros Hr. unfold renderer_new_with_next_frame_id in Hr. apply out_bind_ok in Hr as ([] & Hv & Hr).
  apply out_bind_ok in Hr as (l & Hl & Hr). apply out_bind_ok in Hr as ([] & _ & <-%Ok_inj).
  unfold renderer_validate_config in Hv. apply out_bind_ok in Hv as ([] & Hz%guard_err_ok & _).
  apply orb_false_iff in Hz as [Hw%N.eqb_neq Hh%N.eqb_neq].
  unfold readback_layout_new in Hl. apply out_bind_ok in Hl as (? & _ & Hl). apply out_bind_ok in Hl as (? & _ & Hl).
  apply out_bind_ok in Hl as (? & _ & <-%Ok_inj). unfold built_from, positive_target. cbn. split; [lia|done].
Qed.

Lemma engine_new_target be c e : engine_new be c = Ok e → built_from (ec_renderer c) (eng_renderer e).
Proof.
  intros Hn. unfold engine_new in Hn. apply out_bind_ok in Hn as ([] & _ & Hn). apply out_bind_ok in Hn as (w & _ & Hn).
  apply out_bind_ok in Hn as (r & Hr%map_err_ok & Hn). apply out_bind_ok in Hn as ([] & _ & <-%Ok_inj). by eapply renderer_new_target.
Qed.

Lemma restore_prepared_target be c f (w : RecordedWorld W E) e :
  restore_prepared be c f w = Ok e → built_from (ec_renderer c) (eng_renderer e).
Proof.
  intros Hr. unfold restore_prepared in Hr. apply out_bind_ok in Hr as (r & Hn%map_err_ok & Hr). apply renderer_new_target in Hn.
  apply out_bind_ok in Hr as ([w' r'] & Hx & Hr). apply out_bind_ok in Hr as ([] & _ & <-%Ok_inj). cbn [eng_renderer].
  destruct (negb _); [|by apply Ok_inj in Hx as [= _ <-]].
  apply out_bind_ok in Hx as ([x w1] & _ & Hx). apply out_bind_ok in Hx as ([su r1] & Ha%map_err_ok & Hx).
  apply out_bind_ok in Hx as ([] & _ & Hx). apply Ok_inj in Hx as [= _ <-].
  unfold apply_extraction in Ha. apply out_bind_ok in Ha as ([su' sc] & _ & Ha). by apply Ok_inj in Ha as [= _ <-].
Qed.

(** A sound engine and its gateway make a sound service. *)
Lemma service_assembled c e g env :
  service_config_ok c → engine_ok e → rw_world_config (eng_world e) = ec_world (lc_engine c) →
  built_from (ec_renderer (lc_engine c)) (eng_renderer e) →
  gateway_new e (lc_gateway c) = Ok g →
  let s := mkLocalService c g
    (observation_queue_start (ec_observation_capacity (lc_engine c)) (runtime_limits (ec_world (lc_engine c))))
    (local_assets_new (lc_asset_store c)) env in
  service_ok s ∧ gw_engine g = e ∧ sv_queue s = [] ∧ sv_outstanding s = [] ∧ gw_completed g = ∅.
Proof.
  intros [Hc Hl Hroom Hi Hob Has Hst] He Hcfg [Ht Hrc] Hg s. rewrite <-Hcfg in Hl, Hroom.
  pose proof (gateway_new_ok e (lc_gateway c) g He Hl Hroom Hi Hg) as Hok.
  unfold gateway_new in Hg. apply out_bind_ok in Hg as ([] & _ & <-%Ok_inj).
  split; [|done]. split; cbn; rewrite ?Hrc; try done; [apply start_ok|by apply local_assets_new_ok].
Qed.

(** A service runs under its configuration. *)
Record configured (c : LocalServiceConfig) s : Prop := {
  cg_config : lv_config s = c;
  cg_valid : engine_validate_config (lc_engine c) = Ok tt;
  cg_world : rw_world_config (eng_world (lv_engine s)) = ec_world (lc_engine c);
  cg_replay : log_config (rw_log (eng_world (lv_engine s))) = ec_replay (lc_engine c);
}.

Lemma configured_fixed c s s' : configured c s → lv_config s' = lv_config s → engine_fixed (lv_engine s) (lv_engine s') → configured c s'.
Proof. intros [Hc Hv Hw Hr] Hc' [_ _ Hw' Hr']. split; congruence. Qed.

Lemma service_new_ok c env s : service_config_ok c → service_new c env = Ok s →
  service_ok s ∧ configured c s.
Proof.
  intros Hc Hn. unfold service_new in Hn. apply out_bind_ok in Hn as ([] & Hv%map_err_ok & Hn).
  apply out_bind_ok in Hn as ([] & _ & Hn).
  apply out_bind_ok in Hn as (e & He%map_err_ok & Hn). apply out_bind_ok in Hn as (g & Hg%map_err_ok & <-%Ok_inj).
  assert (rw_world_config (eng_world e) = ec_world (lc_engine c) ∧ log_config (rw_log (eng_world e)) = ec_replay (lc_engine c)) as [Hcfg Hrc].
  { unfold engine_new, recorded_new in He. inv_ok. by subst. }
  destruct (service_assembled c e g env Hc) as (Hs & Hge & _); try done.
  - by eapply engine_new_sim; [apply Hc|].
  - by eapply engine_new_target.
  - split; [done|]. split; try done; unfold lv_engine; cbn; by rewrite Hge.
Qed.

Lemma service_restore_ok c recovery clocks env s :
  service_config_ok c → typed_frame (rp_next_frame_id recovery) → (∀ b p, json_from_slice b = Ok p → typed_patch p) →
  service_restore c recovery clocks env = Ok s →
  service_ok s ∧ configured c s.
Proof.
  intros Hc Hf Htyped Hr. unfold service_restore in Hr. apply out_bind_ok in Hr as ([] & Hv%map_err_ok & Hr).
  apply out_bind_ok in Hr as ([] & _ & Hr).
  apply out_bind_ok in Hr as (rw & Hp%map_err_ok & Hr). apply out_bind_ok in Hr as ([] & _ & Hr).
  apply out_bind_ok in Hr as (e & He%map_err_ok & Hr). apply out_bind_ok in Hr as (g & Hg%map_err_ok & <-%Ok_inj).
  destruct (prepare_restore_inv _ _ _ _ (sc_engine _ Hc) Htyped Hp) as (Hrw & Hcfg & Hs & Hle & Hgen & Hcap & Hfr & _ & Hrc).
  pose proof (restore_prepared_sim (env_backend env) (lc_engine c) (rp_next_frame_id recovery) rw (cfg_entities _ (sc_engine _ Hc)) Hf Hrw) as Hsim.
  rewrite Hcfg in Hsim. specialize (Hsim Hcap Hs Hle Hgen Hfr). rewrite He in Hsim. destruct Hsim as [Hok Hrd].
  pose proof (rd_config _ _ _ Hrd) as Hcfg'. rewrite Hcfg in Hcfg'.
  destruct (service_assembled c e g env Hc) as (Hsok & Hge & _); try done; [by eapply restore_prepared_target|].
  split; [done|]. split; try done; unfold lv_engine; cbn; rewrite Hge; [done|]. by rewrite (rd_log _ _ _ Hrd).
Qed.

(** ** Reverting *)

(** Every prefix of a history is the history of some world. *)
Lemma history_prefix wc l (w : AuthoritativeWorld W E) n : history wc l w → ∃ w', history wc (take n l) w'.
Proof.
  induction 1 as [|l w p f clock receipt w' en Hh IH Hp Hn Ha Hr|l w x w' Hh IH Hx].
  - rewrite take_nil. exists (world_new wc). constructor.
  - destruct (decide (n ≤ length l)%nat) as [Hle|Hgt]; [by rewrite take_app_le|].
    exists w'. rewrite take_ge by (rewrite length_app; cbn; lia). by eapply history_apply.
  - done.
Qed.

Lemma touched_prefix n l : touched (take n l) ⊆ touched l.
Proof. rewrite <-(take_drop n l) at 2. unfold touched. rewrite fmap_app, union_list_app_L. set_solver. Qed.

(** Histories of the same log end in the same scene. *)
Lemma history_scene wc l (w w' : AuthoritativeWorld W E) :
  sound_config wc → history wc l w → history wc l w' → N.of_nat (length l) ≤ u32_max →
  N.of_nat (size (touched l)) ≤ max_pending_render_changes wc → abs_scene w = abs_scene w'.
Proof.
  intros Hwc Hw Hw' Hlen Ht.
  destruct (history_replays _ _ _ (λ _, (0, 0)) Hwc Hw Hlen Ht) as (v & Hv & Htw & _).
  destruct (history_replays _ _ _ (λ _, (0, 0)) Hwc Hw' Hlen Ht) as (v' & Hv' & Htw' & _).
  assert (v = v') as <- by congruence. rewrite <-(tw_scene _ _ Htw). apply Htw'.
Qed.

(** The recorded world at an earlier revision. *)
Lemma recorded_prefix (rw : RecordedWorld W E) n : rwinv rw →
  ∃ w, rwinv (mkRecorded w (rw_world_config rw) (log_prefix (rw_log rw) (take n (log_entries (rw_log rw))))).
Proof.
  intros [Hc Hrc Hl Hh]. destruct (history_prefix _ _ _ n Hh) as [w Hw]. exists w.
  split; cbn [rw_world_config rw_log rw_world log_prefix log_entries log_config]; try done.
  eapply log_prefix_ok; [done|]. symmetry. apply take_drop.
Qed.

(** What a revert leaves. *)
Record reverted s (r : SceneRevision) (receipt : LocalRevertReceipt) s' : Prop := {
  rv_ok : service_ok s';
  rv_config : configured (lv_config s) s';
  rv_older : r < revision (lv_world s);
  rv_revision : revision (lv_world s') = r;
  rv_log : rw_log (eng_world (lv_engine s'))
    = log_prefix (rw_log (eng_world (lv_engine s))) (take (N.to_nat r) (log_entries (rw_log (eng_world (lv_engine s)))));
  rv_scene : ∀ w, history (rw_world_config (eng_world (lv_engine s)))
      (take (N.to_nat r) (log_entries (rw_log (eng_world (lv_engine s))))) w →
    abs_scene (lv_world s') = abs_scene w;
  rv_frame : hr_next_frame_id (eng_renderer (lv_engine s')) = hr_next_frame_id (eng_renderer (lv_engine s));
  rv_idle : sv_queue s = [] ∧ sv_outstanding s = [] ∧ as_pending (lx_store (lv_assets s)) = [] ∧ ra_pending (lx_renderer (lv_assets s)) = [];
  rv_assets : lv_assets s' = local_assets_new (lc_asset_store (lv_config s));
  rv_empty : sv_queue s' = [] ∧ sv_outstanding s' = [] ∧ gw_completed (lv_gateway s') = ∅;
  rv_receipt : receipt = mkRevertReceipt (revision (lv_world s)) r (revision (lv_world s) - r)
    (hr_next_frame_id (eng_renderer (lv_engine s))) (N.of_nat (size (gw_completed (lv_gateway s))))
    (len_or_max u32_max (size (as_records (lx_store (lv_assets s))))) (as_resident_cpu_bytes (lx_store (lv_assets s)))
    (len_or_max u32_max (size (ra_resident (lx_renderer (lv_assets s))))) (ra_resident_bytes (lx_renderer (lv_assets s)));
}.

Lemma gateway_validate_cases c limits available :
  match gateway_validate_config c limits available with Ok _ => True | Err (GwInvalidConfig _) => True | _ => False end.
Proof. unfold gateway_validate_config, guard_err. repeat case_match; simplify_eq/=; try done; repeat case_match; done. Qed.

(** Restoring the first [r] entries of the log of a sound service. *)
Lemma service_restore_prefix s r f clocks :
  service_ok s → service_config_ok (lv_config s) → configured (lv_config s) s →
  typed_frame f → Forall (λ en, en_estimated_visible_frame en ≤ f) (log_entries (rw_log (eng_world (lv_engine s)))) →
  (N.to_nat r ≤ length (log_entries (rw_log (eng_world (lv_engine s)))))%nat →
  N.of_nat (size (touched (log_entries (rw_log (eng_world (lv_engine s)))))) ≤ max_pending_render_changes (ec_world (lc_engine (lv_config s))) →
  let log := rw_log (eng_world (lv_engine s)) in
  let l := take (N.to_nat r) (log_entries log) in
  match service_restore (lv_config s) (mkRecoveryPoint (stream l) f) clocks (lv_env s) with
  | Ok s' => service_ok s' ∧ configured (lv_config s) s' ∧ revision (lv_world s') = r ∧ rw_log (eng_world (lv_engine s')) = log_prefix log l ∧
      (∀ w, history (rw_world_config (eng_world (lv_engine s))) l w → abs_scene (lv_world s') = abs_scene w) ∧
      hr_next_frame_id (eng_renderer (lv_engine s')) = f ∧
      sv_queue s' = [] ∧ sv_outstanding s' = [] ∧ gw_completed (lv_gateway s') = ∅ ∧
      lv_assets s' = local_assets_new (lc_asset_store (lv_config s))
  | Err (SvEngine (EngRenderer _)) | Err (SvEngine (EngObservation _)) | Err (SvGateway (GwInvalidConfig _)) => True
  | _ => False
  end.
Proof.
  intros Hs Hc [_ Hv Hw Hr] Hf Hframes Hle Htouch log l.
  pose proof (cs_world _ _ (sh_consumable _ _ (eo_shown _ (go_engine _ (lo_gateway _ Hs))))) as Hrw.
  change (gw_engine (lv_gateway s)) with (lv_engine s) in Hrw.
  destruct (recorded_prefix _ (N.to_nat r) Hrw) as [w0 Hrw0]. fold log l in Hrw0.
  assert (N.of_nat (size (touched l)) ≤ max_pending_render_changes (ec_world (lc_engine (lv_config s)))) as Ht.
  { etrans; [|exact Htouch]. pose proof (subseteq_size _ _ (touched_prefix (N.to_nat r) (log_entries log))) as Hsub.
    fold l in Hsub. unfold log in Hsub. lia. }
  destruct (prepare_restore_recorded (lc_engine (lv_config s)) _ f clocks Hrw0 (sc_engine _ Hc) Hv Hw Hr (Forall_take _ _ _ Hframes) Ht)
    as (rw' & Hp & Hrw' & Hl & Hcfg & Hsync & Hlast & Hgen & Hsc & Hrev & _).
  unfold service_restore. rewrite Hv. cbn [map_err out_bind].
  pose proof (gateway_validate_cases (lc_gateway (lv_config s)) (runtime_limits (ec_world (lc_engine (lv_config s))))) as Hgv.
  pose proof (Hgv (max_idempotency_records (ec_world (lc_engine (lv_config s))))) as Hg1.
  destruct (gateway_validate_config _ _ (max_idempotency_records _)) as [[]|[]| |]; try done. cbn [map_err out_bind].
  change (stream l) with (stream (log_entries (rw_log (mkRecorded w0 (rw_world_config (eng_world (lv_engine s))) (log_prefix log l))))).
  rewrite Hp. cbn [map_err out_bind rp_next_frame_id]. set (available := _ - _). specialize (Hgv available).
  destruct (gateway_validate_config _ _ available) as [[]|[]| |]; try done. cbn [map_err out_bind].
  pose proof (restore_prepared_sim (env_backend (lv_env s)) (lc_engine (lv_config s)) f rw' (cfg_entities _ (sc_engine _ Hc)) Hf Hrw') as Hsim.
  rewrite Hcfg, Hl in Hsim. specialize (Hsim (validated_capacity _ _ Hv) Hsync Hlast Hgen (Forall_take _ _ _ Hframes)).
  destruct (restore_prepared _ _ f rw') as [e'|[]| |] eqn:He; try done. destruct Hsim as [Hok [Hl' Hc' Hs' Hr' Hi' Hf']]. cbn [map_err out_bind].
  destruct (gateway_new e' (lc_gateway (lv_config s))) as [g|error| |] eqn:Hg.
  2-4: unfold gateway_new in Hg; pose proof (gateway_validate_cases (lc_gateway (lv_config s))
         (runtime_limits (config (rw_world (eng_world e')))) (max_idempotency_records (config (rw_world (eng_world e'))) - idempotency_record_count e')) as Hgc;
       destruct (gateway_validate_config _ _ _) as [|[]| |]; simplify_eq/=; done.
  cbn [map_err out_bind]. rewrite Hcfg in Hc'.
  destruct (service_assembled (lv_config s) e' g (lv_env s) Hc Hok Hc' (restore_prepared_target _ _ _ _ _ He) Hg) as (Hsv & Hge & Hempty).
  set (s' := mkLocalService _ g _ _ _) in *. assert (lv_engine s' = e') as Hse by exact Hge. unfold lv_world. rewrite Hse.
  pose proof (cs_world _ _ (sh_consumable _ _ (eo_shown _ Hok))) as Hrwe.
  assert (length l = N.to_nat r) as Hlen by exact (length_take_le _ _ Hle).
  split_and!; try done; try by destruct Hempty as (? & ? & ?).
  - split; try done; rewrite Hse; [done|]. by rewrite Hl', Hl.
  - rewrite Hr', Hrev. pose proof (ri_history _ Hrw0) as Hh. apply history_inv in Hh as (_ & _ & Hh & _); [|apply Hrw0].
    cbn [rw_world rw_log log_entries log_prefix] in *. rewrite Hh, Hlen. lia.
  - by rewrite Hl', Hl.
  - intros w Hh. rewrite Hs', Hsc. eapply history_scene; [apply Hrw|exact (ri_history _ Hrw0)|exact Hh| |by rewrite Hw].
    pose proof (ri_replay_config _ Hrw) as ([_ Hme] & _). pose proof (lo_count _ _ (ri_log _ Hrw)) as Hcount.
    change (rw_log (eng_world (lv_engine s))) with log in Hcount, Hme, Hle.
    change (N.of_nat (length l) ≤ u32_max). rewrite Hlen. lia.
Qed.

Lemma len_or_max_nil {A} (l : list A) : len_or_max u32_max (length l) = 0 → l = [].
Proof. rewrite len_or_max_min. intros Hz. apply nil_length_inv. unfold u32_max in Hz. lia. Qed.

(** The status of a sound service. *)
Lemma service_status_ok s : service_ok s →
  ∃ st, service_status s = Ok st ∧ st_scene_revision st = revision (lv_world s) ∧ st_renderer_revision st = revision (lv_world s) ∧
    gqs_depth (st_command_queue st) = N.of_nat (length (sv_queue s)) ∧
    st_outstanding_observations st = N.of_nat (length (sv_outstanding s)) ∧
    st_completed_results st = N.of_nat (size (gw_completed (lv_gateway s))).
Proof.
  intros Hs. unfold service_status, observation_status_at, slots_status_at, debug_assert.
  pose proof (so_count _ _ (oo_slots _ _ (lo_queue _ Hs))) as Hc. rewrite <-Hc, N.eqb_refl. cbn [out_bind map_err].
  eexists. split; [done|]. cbn [st_scene_revision st_renderer_revision st_command_queue st_outstanding_observations st_completed_results].
  split_and!; try done.
  - apply (sh_revision _ _ (eo_shown _ (go_engine _ (lo_gateway _ Hs)))).
  - by apply service_depth.
  - by apply outstanding_fits.
  - apply completed_count, Hs.
Qed.

Lemma recovery_prefix s r : service_ok s →
  let log := rw_log (eng_world (lv_engine s)) in
  let f := hr_next_frame_id (eng_renderer (lv_engine s)) in
  service_recovery_point_at s r
  = (if revision (lv_world s) <? r then Err (SvEngine (EngReplayRevision (mkRevisionError r (revision (lv_world s)))))
     else if f =? 0 then Err (SvEngine (EngRenderer FrameIdOverflow))
     else Ok (mkRecoveryPoint (stream (take (N.to_nat r) (log_entries log))) f)) ∧
  (r ≤ revision (lv_world s) → (N.to_nat r ≤ length (log_entries log))%nat).
Proof.
  intros Hs log f. pose proof (cs_world _ _ (sh_consumable _ _ (eo_shown _ (go_engine _ (lo_gateway _ Hs))))) as Hrw.
  change (gw_engine (lv_gateway s)) with (lv_engine s) in Hrw.
  pose proof (to_bytes_through_revision_ok _ log r (ri_replay_config _ Hrw) (ri_log _ Hrw)) as Hb.
  assert (last_revision log = revision (lv_world s)) as Hlast.
  { destruct (chained_last_rev _ (lo_chained _ _ (ri_log _ Hrw))) as [Hl _].
    change (last_rev (log_entries (rw_log (eng_world (lv_engine s))))) with (last_revision log) in Hl.
    destruct (history_inv _ _ _ (ri_config _ Hrw) (ri_history _ Hrw)) as (_ & _ & Hr & _). unfold lv_world. by rewrite Hr. }
  rewrite Hlast in Hb. unfold service_recovery_point_at, recovery_point_at_revision. fold log.
  destruct (N.ltb_spec (revision (lv_world s)) r) as [Hlt|Hle].
  - rewrite Hb. split; [done|lia].
  - destruct Hb as (Hn & -> & _). split; [|done]. cbn [map_err out_bind]. unfold next_frame_id, frame_id_new, non_zero. fold f.
    by destruct (f =? 0).
Qed.


(** ** Reachable services *)

(** The services a configuration can lead to. *)
Inductive service_runs (c : LocalServiceConfig) : LocalService W E → Prop :=
| sr_new env s : service_new c env = Ok s → service_runs c s
| sr_restore recovery clocks env s :
    typed_frame (rp_next_frame_id recovery) → service_restore c recovery clocks env = Ok s → service_runs c s
| sr_between s s' : service_runs c s → service_step s s' → service_runs c s'
| sr_configure s cl : service_runs c s → service_runs c (service_configure cl s).1
| sr_submit s cmd : service_runs c s → typed_command cmd → service_runs c (service_submit cmd s).1
| sr_procedure s request grid : service_runs c s → typed_request request grid → service_runs c (service_submit_procedure request s).1
| sr_process s : service_runs c s → service_runs c (service_process_next s).1
| sr_request s q : service_runs c s → service_runs c (service_request_observation q s).1
| sr_poll s : service_runs c s → service_runs c (service_receive_delivery s).1
| sr_revert s r clocks : service_runs c s → service_runs c (revert_to_revision r clocks s).1
| sr_source s expected source : service_runs c s → service_runs c (service_enqueue_asset_source expected source s).1
| sr_import s : service_runs c s → service_runs c (service_process_asset_import s).1
| sr_upload s key : service_runs c s → service_runs c (service_enqueue_asset_upload key s).1
| sr_upload_next s : service_runs c s → service_runs c (service_process_asset_upload s).1
| sr_evict s hash : service_runs c s → service_runs c (service_evict_asset hash s).1.

(** A procedure submits its patch or changes nothing. *)
Lemma service_submit_procedure_cases s request grid :
  typed_request request grid →
  (service_submit_procedure request s).1 = s ∨
  ∃ p, typed_patch p ∧ (service_submit_procedure request s).1 = (service_submit (GPatch p) s).1.
Proof.
  intros Hr. unfold service_submit_procedure. destruct (execute _ _) as [a| | |] eqn:He; [|by left..].
  right. exists (art_patch a). split; [by eapply execute_typed|]. by destruct (service_submit _ s).
Qed.

Lemma configure_fixed s cl :
  lv_config (service_configure cl s).1 = lv_config s ∧ engine_fixed (lv_engine s) (lv_engine (service_configure cl s).1).
Proof.
  unfold service_configure. destruct (configure_compilation_limits _ _) as [g| | |] eqn:Hc; [|by split..]. cbn [fst].
  unfold configure_compilation_limits in Hc. do 2 apply out_bind_ok in Hc as ([] & _ & Hc). apply Ok_inj in Hc as <-. by split.
Qed.

Lemma request_fixed s q : service_ok s → engine_fixed (lv_engine s) (lv_engine (service_request_observation q s).1).
Proof.
  intros Hs. unfold service_request_observation.
  pose proof (engine_request_sim (lv_env s) (lv_assets s) q (lv_engine s) (lv_observations s) (go_engine _ (lo_gateway _ Hs))
    (lo_queue _ Hs) (lo_target _ Hs)) as Hsim.
  destruct (engine_request_observation _ _ _ _ _) as [[e q'] r]. destruct Hsim as [[->|(frame & _ & Hf)] _]; [by split|exact Hf].
Qed.

Lemma revert_ok c s r clocks :
  service_config_ok c → (∀ b p, json_from_slice b = Ok p → typed_patch p) → service_ok s → configured c s →
  service_ok (revert_to_revision r clocks s).1 ∧ configured c (revert_to_revision r clocks s).1.
Proof.
  intros Hc Htyped Hs Hcfg. unfold revert_to_revision. destruct (out_bind _ _) as [[s' receipt]| | |] eqn:Hr; try done. cbn [fst].
  apply out_bind_ok in Hr as (st & _ & Hr). apply out_bind_ok in Hr as ([] & _ & Hr).
  apply out_bind_ok in Hr as (recovery & Hp & Hr). apply out_bind_ok in Hr as (assets & _ & Hr). apply out_bind_ok in Hr as ([] & _ & Hr).
  apply out_bind_ok in Hr as (s1 & Hres & Hr). apply out_bind_ok in Hr as (st1 & _ & Hr).
  do 2 apply out_bind_ok in Hr as ([] & _ & Hr). apply Ok_inj in Hr as [= <- _].
  rewrite (cg_config _ _ Hcfg) in Hres. eapply service_restore_ok; [done| |done|exact Hres].
  rewrite (proj1 (recovery_prefix s r Hs)) in Hp. destruct (_ <? r); [done|].
  destruct (N.eqb_spec (hr_next_frame_id (eng_renderer (lv_engine s))) 0) as [?|Hz]; [done|]. apply Ok_inj in Hp as <-.
  pose proof (eo_frame _ (go_engine _ (lo_gateway _ Hs))) as Hf. unfold typed_frame. cbn [rp_next_frame_id].
  change (gw_engine (lv_gateway s)) with (lv_engine s) in Hf. lia.
Qed.

Lemma submit_keeps c s cmd :
  service_ok s → configured c s → typed_command cmd →
  service_ok (service_submit cmd s).1 ∧ configured c (service_submit cmd s).1.
Proof.
  intros Hs Hcfg Ht. pose proof (service_submit_sim s cmd Hs Ht) as Hsim.
  pose proof (submit_fixed (lv_gateway s) cmd (env_now (lv_env s))) as Hf.
  unfold service_submit in *. destruct (submit _ _ _) as [g r]. split; [apply Hsim|].
  eapply configured_fixed; [done|done|apply Hf].
Qed.

(** The asset calls move only the assets. *)
Lemma set_assets_ok c s x :
  service_ok s → configured c s → local_assets_ok (hr_config (eng_renderer (lv_engine s))) x →
  service_ok (set_assets x s) ∧ configured c (set_assets x s).
Proof. intros [] [] Hx. done. Qed.

Lemma enqueue_source_keeps c s expected source :
  service_ok s → configured c s →
  service_ok (service_enqueue_asset_source expected source s).1 ∧ configured c (service_enqueue_asset_source expected source s).1.
Proof.
  intros Hs Hcfg. unfold service_enqueue_asset_source.
  pose proof (enqueue_source_ok _ _ expected source (env_now (lv_env s)) (lo_assets _ Hs)) as Hx.
  destruct (enqueue_asset_source _ _ _ _) as [x r]. by apply set_assets_ok.
Qed.

Lemma keep_assets_ok {A} c s (r : outcome LocalAssetError (A * LocalAssets)) :
  service_ok s → configured c s →
  match r with Ok (_, x) => local_assets_ok (hr_config (eng_renderer (lv_engine s))) x | _ => True end →
  service_ok (keep_assets s r).1 ∧ configured c (keep_assets s r).1.
Proof. intros Hs Hcfg Hx. destruct r as [[a x]| | |]; [|done..]. by apply set_assets_ok. Qed.

(** C9. Every service that a configuration leads to, through any interleaving of
    calls, asset calls, worker steps, worker deaths and reverts, is sound:
    commands and observations stay within their capacities, no idempotency key
    is queued twice, the renderer shows the revision of the world, and the asset
    store and the device agree. *)
Theorem service_reachable c s :
  service_config_ok c → (∀ b p, json_from_slice b = Ok p → typed_patch p) → service_runs c s →
  service_ok s ∧ rn_revision (hr_scene (eng_renderer (lv_engine s))) = revision (lv_world s) ∧
  N.of_nat (length (sv_queue s)) ≤ gc_command_capacity (lc_gateway c) ∧ NoDup (command_key <$> sv_queue s) ∧
  N.of_nat (length (sv_outstanding s)) ≤ os_capacity (oq_slots (lv_observations s)).
Proof.
  intros Hc Htyped Hr. assert (service_ok s ∧ configured c s) as [Hs Hcfg].
  { induction Hr as [env s Hn|recovery clocks env s Hf Hr|s s' _ [IH Hcfg] Hst|s cl _ [IH Hcfg]|s cmd _ [IH Hcfg] Ht|s request grid _ [IH Hcfg] Hreq|s _ [IH Hcfg]
      |s q _ [IH Hcfg]|s _ [IH Hcfg]|s r clocks _ [IH Hcfg]|s expected source _ [IH Hcfg]|s _ [IH Hcfg]|s key _ [IH Hcfg]|s _ [IH Hcfg]|s hash _ [IH Hcfg]].
    - by eapply service_new_ok.
    - by eapply service_restore_ok.
    - split; [by apply (service_step_keeps s)|]. eapply configured_fixed; [done|..]; by destruct Hst.
    - pose proof (service_configure_sim s cl IH) as Hsim. pose proof (configure_fixed s cl) as [Hl Hf].
      split; [apply Hsim|by eapply configured_fixed].
    - by apply submit_keeps.
    - destruct (service_submit_procedure_cases s request grid Hreq) as [->|(p & Hp & ->)]; [done|by apply submit_keeps].
    - pose proof (service_process_sim s IH) as Hsim. pose proof (process_fixed (lv_gateway s) (env_clock (lv_env s))) as Hf.
      unfold service_process_next in *. destruct (process_next _ _) as [g r]. split; [apply Hsim|].
      eapply configured_fixed; [done|done|apply Hf].
    - pose proof (service_request_sim s q IH) as Hsim. split; [apply Hsim|]. eapply configured_fixed; [done|..|by apply request_fixed].
      unfold service_request_observation. by destruct (engine_request_observation _ _ _ _ _) as [[? ?] ?].
    - pose proof (service_poll_sim s IH) as Hsim. unfold service_poll in Hsim. unfold service_receive_delivery in *.
      destruct (try_receive_delivery _ _) as [q r]. split; [apply Hsim|]. by eapply configured_fixed.
    - by apply revert_ok.
    - by apply enqueue_source_keeps.
    - apply keep_assets_ok; [done..|]. destruct (process_import_ok _ _ (lo_assets _ IH)) as (o & x & -> & Hx & _). exact Hx.
    - apply keep_assets_ok; [done..|]. pose proof (enqueue_upload_ok _ (lo_asset_config _ IH) _ key (env_now (lv_env s)) (lo_assets _ IH)) as Hu.
      destruct (enqueue_asset_upload _ _ _ _) as [[a x]| | |]; [apply Hu|done..].
    - apply keep_assets_ok; [done..|]. destruct (process_upload_ok _ (lo_asset_config _ IH) _ (lo_assets _ IH)) as (o & x & -> & Hx & _). exact Hx.
    - apply keep_assets_ok; [done..|]. destruct (evict_asset_ok _ (lo_asset_config _ IH) _ hash (lo_assets _ IH)) as (o & x & -> & Hx & _). exact Hx. }
  pose proof (go_queue _ (lo_gateway _ Hs)) as [Hd _ Hk _ _]. destruct (observations_bound _ _ (lo_queue _ Hs)) as [Ho Hb].
  split; [done|]. split; [apply (sh_revision _ _ (eo_shown _ (go_engine _ (lo_gateway _ Hs))))|].
  rewrite <-(cg_config _ _ Hcfg), <-(lo_capacity _ Hs). cbn [sv_queue sv_outstanding local_service_view].
  rewrite length_fmap, <-list_fmap_compose. split; [done|]. split; [done|].
  unfold outstanding_ids. rewrite length_fmap. unfold channel_capacity in Hb. cbn [length] in Hb. lia.
Qed.

End theorems.
