(* ===== verification/ExecutorWitness.v ===== *)
(** * A sample session

    A local service behind the session executor, with a serialiser that
    satisfies every hypothesis of the executor's theorems: small messages of
    well-typed values are written as fixed-width hexadecimal fields, and the
    hello, patch, observation request and close of a short session as table
    entries.  Each theorem about the executor and the service is applied to a
    state of this session. *)

From S2P Require Import Prelude Machine Ordering BTree Floats Values Components Messages MessageSpec Imagination ImaginationSpec Codec Compilation Ecs WorldTypes Hierarchy Render World SceneSpec CommitRefine PreflightRefine WorldInvariant WorldApply Extraction WorldTheorems Hash Sha256 Compiler CompilerReport CompilerOutcome CompilerApply CompilerTheorems Replay ReplayCodec ReplayLogs Recorded RecordedReplay ReplayWitness RenderScene Recovery Engine EngineSync EngineTheorems Query Gateway GatewayInvariant GatewayTheorems Observation Frame AssetTypes ScenePrepare AssetStore RendererAssets LocalAssets ObservationQueue ObservationTheorems Transport SessionLimits Session Executor ExecutorFrames ExecutorInvariant ExecutorSteps ExecutorTheorems Service ServiceTheorems ServiceRevert.

Open Scope N_scope.

#[local] Instance RuntimeLimits_eq_dec : EqDecision RuntimeLimits.
Proof. solve_decision. Defined.
#[local] Instance CompilationLimits_eq_dec : EqDecision CompilationLimits.
Proof. solve_decision. Defined.
#[local] Instance LocalSessionLimits_eq_dec : EqDecision LocalSessionLimits.
Proof. solve_decision. Defined.
#[local] Instance ClientHello_eq_dec : EqDecision ClientHello.
Proof. solve_decision. Defined.
#[local] Instance ServerHello_eq_dec : EqDecision ServerHello.
Proof. solve_decision. Defined.
#[local] Instance ObservationRequest_eq_dec : EqDecision ObservationRequest.
Proof. solve_decision. Defined.
#[local] Instance DiagnosticSeverity_eq_dec : EqDecision DiagnosticSeverity.
Proof. solve_decision. Defined.
#[local] Instance Diagnostic_eq_dec : EqDecision Diagnostic.
Proof. solve_decision. Defined.
#[local] Instance ApplyTiming_eq_dec : EqDecision ApplyTiming.
Proof. solve_decision. Defined.
#[local] Instance ApplyReceipt_eq_dec : EqDecision ApplyReceipt.
Proof. solve_decision. Defined.

(** ** Small messages as fields *)

Definition failure_code_number (c : SessionFailureCode) : N :=
  match c with
  | FcInvalidMessage => 1 | FcUnsupportedVersion => 2 | FcProtocolState => 3 | FcLimitExceeded => 4
  | FcRevisionMismatch => 5 | FcCapacityExceeded => 6 | FcCommandRejected => 7 | FcQueryRejected => 8
  | FcObservationRejected => 9 | FcServiceUnavailable => 10 | FcInternal => 11
  end.

Definition failure_code_of (n : N) : SessionFailureCode :=
  match n with
  | 1 => FcInvalidMessage | 2 => FcUnsupportedVersion | 3 => FcProtocolState | 4 => FcLimitExceeded
  | 5 => FcRevisionMismatch | 6 => FcCapacityExceeded | 7 => FcCommandRejected | 8 => FcQueryRejected
  | 9 => FcObservationRejected | 10 => FcServiceUnavailable | _ => FcInternal
  end.

Definition small_fields (k : LocalSessionServerKind) : option (list N) :=
  match k with
  | SPatchAdmission (mkPatchAdmission key PaQueued) => Some [1; key; 1; 1]
  | SPatchAdmission (mkPatchAdmission key PaAlreadyQueued) => Some [2; key; 1; 1]
  | SPatchAdmission (mkPatchAdmission key (PaSuperseded old)) => Some [3; key; old; 1]
  | SPatchAdmission (mkPatchAdmission key PaDropped) => Some [4; key; 1; 1]
  | SImaginationAdmission (mkImaginationAdmission id key IaQueued) => Some [5; id; key; 1]
  | SImaginationAdmission (mkImaginationAdmission id key IaAlreadyQueued) => Some [6; id; key; 1]
  | SImaginationAdmission (mkImaginationAdmission id key (IaSuperseded old)) => Some [7; id; key; old]
  | SImaginationAdmission (mkImaginationAdmission id key IaDropped) => Some [8; id; key; 1]
  | SObservationAccepted (mkObservationReference id revision) => Some [9; id; revision + 1; 1]
  | SObservationPending (mkObservationReference id revision) => Some [10; id; revision + 1; 1]
  | SFailure code => Some [11; failure_code_number code; 1; 1]
  | SClosed => Some [12; 1; 1; 1]
  | _ => None
  end.

Definition of_fields (l : list N) : option LocalSessionServerKind :=
  match l with
  | [1; key; _; _] => Some (SPatchAdmission (mkPatchAdmission key PaQueued))
  | [2; key; _; _] => Some (SPatchAdmission (mkPatchAdmission key PaAlreadyQueued))
  | [3; key; old; _] => Some (SPatchAdmission (mkPatchAdmission key (PaSuperseded old)))
  | [4; key; _; _] => Some (SPatchAdmission (mkPatchAdmission key PaDropped))
  | [5; id; key; _] => Some (SImaginationAdmission (mkImaginationAdmission id key IaQueued))
  | [6; id; key; _] => Some (SImaginationAdmission (mkImaginationAdmission id key IaAlreadyQueued))
  | [7; id; key; old] => Some (SImaginationAdmission (mkImaginationAdmission id key (IaSuperseded old)))
  | [8; id; key; _] => Some (SImaginationAdmission (mkImaginationAdmission id key IaDropped))
  | [9; id; next; _] => Some (SObservationAccepted (mkObservationReference id (next - 1)))
  | [10; id; next; _] => Some (SObservationPending (mkObservationReference id (next - 1)))
  | [11; code; _; _] => Some (SFailure (failure_code_of code))
  | [12; _; _; _] => Some SClosed
  | _ => None
  end.

Definition typed_field (x : N) : bool := (0 <? x) && (x <=? u128_max).

Definition fields_text (l : list N) : bytes := mjoin (opaque_id_fmt <$> l).

(** Fields of 32 digits. *)
Fixpoint text_fields (n : nat) (b : bytes) : option (list N) :=
  match n with
  | O => match b with [] => Some [] | _ => None end
  | S n => x ← out_ok (opaque_id_from_str (take 32 b)); l ← text_fields n (drop 32 b); Some (x :: l)
  end.

Lemma small_fields_spec k l : small_fields k = Some l → length l = 4%nat ∧ of_fields l = Some k.
Proof.
  destruct k as [h|[key []]|r|[i key []]|c|r|[id rev]|[id rev]|[]|]; intros [= <-]; (split; [done|]); cbn; do 3 f_equal; lia || done.
Qed.

Lemma text_fields_text l : Forall (λ x, typed_field x = true) l → text_fields (length l) (fields_text l) = Some l.
Proof.
  induction 1 as [|x l Hx Hl IH]; [done|]. unfold typed_field in Hx. apply andb_true_iff in Hx as [H1%N.ltb_lt H2%N.leb_le].
  assert (length (opaque_id_fmt x) = 32%nat) as Hlen by apply length_hex_pad.
  cbn [length text_fields]. change (fields_text (x :: l)) with (opaque_id_fmt x ++ fields_text l).
  rewrite take_app_length', drop_app_length' by done.
  rewrite (proj2 (opaque_id_text (opaque_id_fmt x) x)) by done. cbn. by rewrite IH.
Qed.

Lemma fields_text_length l : length (fields_text l) = (32 * length l)%nat.
Proof.
  induction l as [|x l IH]; [done|]. change (fields_text (x :: l)) with (opaque_id_fmt x ++ fields_text l).
  rewrite length_app, IH. unfold opaque_id_fmt. rewrite length_hex_pad. cbn. lia.
Qed.

(** ** The messages of the session *)

Definition sample_limits : LocalSessionLimits := Eval vm_compute in
  match limits_from_config frame_config_default with
  | Ok l => l
  | _ => mkSessionLimits 0 0 0 0 0 runtime_limits_default
  end.

Definition sample_client_hello : ClientHello := mkClientHello sample_limits None.
Definition sample_server_hello : ServerHello := mkServerHello sample_limits None.
Definition sample_request : ObservationRequest := mkObservationRequest schema_v1 21 0 7 Color Low.

Definition client_line (m : LocalSessionClientMessage) : option bytes :=
  if negb (cm_schema_version m =? 1) then None else
  match cm_message m with
  | CHello h => if decide (h = sample_client_hello) then Some (bytes_of_string "{hello}") else None
  | CSubmitPatch p => if decide (p = sample_patch) then Some (bytes_of_string "{patch}") else None
  | CRequestObservation q => if decide (q = sample_request) then Some (bytes_of_string "{observe}") else None
  | CClose => Some (bytes_of_string "{close}")
  | _ => None
  end.

Definition client_parse (b : bytes) : outcome JsonError LocalSessionClientMessage :=
  if decide (b = bytes_of_string "{hello}" ++ [x0a]) then Ok (mkClientMessage 1 (CHello sample_client_hello))
  else if decide (b = bytes_of_string "{patch}" ++ [x0a]) then Ok (mkClientMessage 1 (CSubmitPatch sample_patch))
  else if decide (b = bytes_of_string "{observe}" ++ [x0a]) then Ok (mkClientMessage 1 (CRequestObservation sample_request))
  else if decide (b = bytes_of_string "{close}" ++ [x0a]) then Ok (mkClientMessage 1 CClose)
  else Err (mkJsonError JSyntax 1 1).

#[local] Instance client_json : SessionJson LocalSessionClientMessage := {|
  sj_writes m := [default [] (client_line m)];
  sj_fails m := negb (is_some (client_line m));
  sj_parse := client_parse;
|}.

(** A version digit, then the fields; a hello is as long as four fields. *)
Definition version_digit (version : N) : byte := if version =? 1 then x31 else x32.
Definition hello_body : bytes := repeat x68 128.
Definition completed_body : bytes := repeat x70 128.

Definition server_body (k : LocalSessionServerKind) : bytes :=
  match small_fields k with
  | Some l => fields_text l
  | None => match k with SPatchCompleted _ => completed_body | _ => hello_body end
  end.

Definition server_fails (m : LocalSessionServerMessage) : bool :=
  match small_fields (sm_message m) with
  | Some l => negb (forallb typed_field l)
  | None => match sm_message m with
            | SHello h => negb ((sm_schema_version m =? 1) && bool_decide (h = sample_server_hello))
            | SPatchCompleted r => negb ((sm_schema_version m =? 1) && bool_decide (r = sample_receipt))
            | _ => true
            end
  end.

Definition server_parse (b : bytes) : outcome JsonError LocalSessionServerMessage :=
  let refused := Err (mkJsonError JSyntax 1 1) in
  match b with
  | digit :: body =>
      let version := if decide (digit = x31) then 1 else 2 in
      if bool_decide (digit ∈ [x31; x32]) && bool_decide (last body = Some x0a) then
        let body := take (length body - 1) body in
        if decide (body = hello_body) then Ok (mkServerMessage version (SHello sample_server_hello))
        else if decide (body = completed_body) then Ok (mkServerMessage version (SPatchCompleted sample_receipt))
        else match (l ← text_fields 4 body; of_fields l) with
             | Some k => Ok (mkServerMessage version k)
             | None => refused
             end
      else refused
  | [] => refused
  end.

#[local] Instance server_json : SessionJson LocalSessionServerMessage := {|
  sj_writes m := [version_digit (sm_schema_version m) :: server_body (sm_message m)];
  sj_fails := server_fails;
  sj_parse := server_parse;
|}.

(** ** The laws of the serialiser *)

#[local] Existing Instances sample_result_json metadata_codec metadata_codec_laws sha256_instance sample_codec sample_codec_laws.

Lemma client_line_parses m line : client_line m = Some line → client_parse (line ++ [x0a]) = Ok m ∧ head line = Some x7b.
Proof.
  destruct m as [v k]. unfold client_line. cbn [cm_schema_version cm_message].
  destruct (N.eqb_spec v 1) as [->|?]; cbn [negb]; [|done].
  destruct k as [h|p|i|q|q|]; try done; try case_decide; intros [= <-]; subst; (split; [|done]); vm_compute; reflexivity.
Qed.

Lemma small_parses v l k : v = 1 ∨ v = 2 → Forall (λ x, typed_field x = true) l → small_fields k = Some l →
  server_parse (version_digit v :: fields_text l ++ [x0a]) = Ok (mkServerMessage v k).
Proof.
  intros Hv Ht Hk. apply small_fields_spec in Hk as [Hl Hk]. pose proof (text_fields_text _ Ht) as Htext. rewrite Hl in Htext.
  unfold server_parse. rewrite (bool_decide_true (last _ = _)) by (by rewrite last_snoc).
  assert (take (length (fields_text l ++ [x0a]) - 1) (fields_text l ++ [x0a]) = fields_text l) as ->.
  { rewrite length_app. cbn [length]. rewrite Nat.add_sub. by apply take_app_length. }
  assert (fields_text l ≠ hello_body) as Hne1 by (intros Heq; rewrite Heq in Htext; vm_compute in Htext; done).
  assert (fields_text l ≠ completed_body) as Hne2 by (intros Heq; rewrite Heq in Htext; vm_compute in Htext; done).
  rewrite (decide_False _ _ Hne1), (decide_False _ _ Hne2), Htext. cbn [mbind option_bind]. rewrite Hk.
  by destruct Hv as [->| ->].
Qed.

Lemma server_parse_normal b : normal (server_parse b).
Proof. unfold server_parse. destruct b; [done|]. repeat case_match; done. Qed.

Lemma server_text_parses m config cl : server_validate m config cl = Ok tt → server_fails m = false →
  server_parse (version_digit (sm_schema_version m) :: server_body (sm_message m) ++ [x0a]) = Ok m.
Proof.
  destruct m as [v k]. intros Hv Hf. apply out_bind_ok in Hv as ([] & Hv%validate_version_cases & _). cbn [sm_schema_version sm_message] in *.
  unfold server_fails, server_body in *. cbn [sm_schema_version sm_message] in *.
  destruct (small_fields k) as [l|] eqn:Hk.
  - apply negb_false_iff in Hf. apply small_parses; [done| |done]. apply Forall_forall. intros x Hx.
    rewrite forallb_forall in Hf. by apply Hf, list_elem_of_In.
  - destruct k as [h|a|r|a|c|r|r|r|code|]; try done; apply negb_false_iff, andb_true_iff in Hf as [->%N.eqb_eq ->%bool_decide_eq_true];
      vm_compute; reflexivity.
Qed.

Lemma client_parse_head b : head b ≠ Some x7b → is_ok (client_parse b) = false.
Proof. intros Hh. unfold client_parse. repeat case_decide; try done; subst; by destruct Hh. Qed.

#[local] Instance client_json_laws : SessionJsonLaws client_validate LocalSessionServerMessage.
Proof.
  split.
  - intros m config cl _ Hf. cbn in Hf |- *. destruct (client_line m) as [line|] eqn:Hl; [|done]. cbn. rewrite app_nil_r.
    by apply client_line_parses.
  - intros b. cbn. unfold client_parse. by repeat case_decide.
  - intros m config cl _ Hf. cbn in Hf |- *. destruct (client_line m) as [line|] eqn:Hl; [|done]. cbn. rewrite app_nil_r.
    destruct (client_line_parses _ _ Hl) as [_ Hh]. destruct line as [|b line]; [done|]. injection Hh as ->. done.
Qed.

#[local] Instance server_json_laws : SessionJsonLaws server_validate LocalSessionClientMessage.
Proof.
  split.
  - intros m config cl Hv Hf. cbn. rewrite app_nil_r. by eapply server_text_parses.
  - exact server_parse_normal.
  - intros m config cl _ _. apply client_parse_head. cbn. unfold version_digit. by destruct (_ =? 1).
Qed.

Lemma small_fields_typed version k : small_message k = true → small_valid version k →
  ∃ l, small_fields k = Some l ∧ forallb typed_field l = true.
Proof.
  assert (∀ x, typed_id x → typed_field x = true) as Hid.
  { intros x [H1 H2]. unfold typed_field. apply andb_true_iff. split; [by apply N.ltb_lt|by apply N.leb_le]. }
  assert (∀ x, x ≤ u64_max → typed_field (x + 1) = true) as Hrev.
  { intros x Hx. apply Hid. unfold typed_id, u64_max, u128_max in *. lia. }
  destruct k as [h|[key []]|r|[i key []]|c|r|[id rev]|[id rev]|[]|]; try done; cbn; intros _ Hv; (eexists; split; [reflexivity|]); cbn [forallb].
  all: unfold typed_reference in Hv; cbn in Hv; rewrite !andb_true_iff; split_and!; try done.
  all: try (apply Hid; tauto). all: apply Hrev; tauto.
Qed.

(** Text without quotes and brackets. *)
Definition plain_byte (b : byte) : bool :=
  negb (bool_decide (b = b_quote)) && negb (is_open b) && negb (is_close b).

Lemma plain_nesting limits b : forallb plain_byte b = true → session_enforce_nesting b limits = Ok tt.
Proof.
  intros Hp. unfold session_enforce_nesting.
  assert (out_fold (nesting_step (max_json_nesting_depth limits)) (mkScan 0 false false) b = Ok (mkScan 0 false false)) as ->; [|done].
  induction b as [|x b IH]; [done|]. cbn [forallb] in Hp. apply andb_true_iff in Hp as [Hx Hp].
  unfold plain_byte in Hx. rewrite !andb_true_iff, !negb_true_iff in Hx. destruct Hx as [[H1 H2] H3].
  cbn [out_fold nesting_step sc_in_string]. rewrite H1, H2, H3. by apply IH.
Qed.

Lemma lower_hex_plain b : is_lower_hex b = true → plain_byte b = true.
Proof. destruct b; vm_compute; congruence. Qed.

Lemma fields_plain l : forallb plain_byte (fields_text l) = true.
Proof.
  induction l as [|x l IH]; [done|]. change (fields_text (x :: l)) with (opaque_id_fmt x ++ fields_text l).
  rewrite forallb_app, IH, andb_true_r. apply forallb_forall. intros b Hb. apply lower_hex_plain.
  pose proof (hex_pad_lower 32 x) as Hx. rewrite forallb_forall in Hx. by apply Hx.
Qed.

#[local] Instance server_json_sizes : SessionJsonSizes.
Proof.
  split; intros version hello k.
  - intros Hs Hv _. destruct (small_fields_typed _ _ Hs Hv) as (l & Hl & Ht). cbn. unfold server_fails. cbn [sm_message]. rewrite Hl.
    by rewrite Ht.
  - intros Hs Hv. destruct (small_fields_typed _ _ Hs Hv) as (l & Hl & _). unfold server_text. cbn. unfold server_body. rewrite Hl.
    rewrite !app_nil_r, !length_app, fields_text_length, (proj1 (small_fields_spec _ _ Hl)). cbn. lia.
  - intros limits Hs Hv _. destruct (small_fields_typed _ _ Hs Hv) as (l & Hl & _). apply plain_nesting. unfold server_text. cbn.
    unfold server_body. rewrite Hl, app_nil_r, forallb_app, fields_plain. unfold version_digit. by destruct (_ =? 1).
Qed.

Lemma sample_patch_key : typed_id (patch_idempotency_key sample_patch).
Proof. split; vm_compute; done. Qed.

#[local] Instance client_json_typed : ClientJsonTyped.
Proof.
  intros b m. cbn [sj_parse client_json]. unfold client_parse. repeat case_decide; intros Hm; try done; apply Ok_inj in Hm as <-; cbn; try done.
  split; [exact sample_patch_typed|exact sample_patch_key].
Qed.

(** ** The service *)

#[local] Instance imagination_codec : JsonCodec ImaginationEnvelope :=
  {| json_to_vec _ := Some (bytes_of_string "{}"); json_from_slice _ := Ok sample_imagination |}.

#[local] Existing Instances sample_decoder sample_decoder_laws.

Abbreviation slot_service := (LocalService SlotStore.store (N * N)).

Definition sample_environment : ServiceEnvironment :=
  mkEnvironment sample_backend (λ x, x) (pf_gpu sample_pending) 3 (5, 6).

Definition sample_service_config : LocalServiceConfig := service_config_new 64 64.

Definition sample_service : slot_service :=
  mkLocalService sample_service_config sample_gateway0
    (observation_queue_start (ec_observation_capacity sample_engine_config) runtime_limits_default)
    (local_assets_new asset_store_config_default) sample_environment.

Lemma sample_service_new : service_new sample_service_config sample_environment = Ok sample_service.
Proof. vm_compute. reflexivity. Qed.

Lemma sample_service_config_ok : service_config_ok sample_service_config.
Proof.
  split; [exact sample_engine_config_ok|exact default_limits_compilable|exact sample_room|vm_compute; discriminate|vm_compute; discriminate
    |exact sample_assets_config|exact sample_store_config].
Qed.

Lemma sample_service_ok : service_ok sample_service.
Proof. exact (proj1 (service_new_ok _ _ _ sample_service_config_ok sample_service_new)). Qed.

(** It has no outstanding observation. *)
Lemma sample_service_view : sv_ok sample_service.
Proof. split; [exact sample_service_ok|apply NoDup_nil_2]. Qed.

(** ** The session *)

Definition frame_of (correlation : N) (line : string) : LocalFrame := FControl correlation (bytes_of_string line ++ [x0a]).

Definition core0 : SessionCore slot_service :=
  match executor_new sample_service executor_config_default with
  | Ok c => c
  | _ => mkCore sample_service executor_config_default AwaitingHello ∅ ∅ [] ∅ [] ∅
  end.
Definition core1 : SessionCore slot_service := (handle_frame (frame_of 1 "{hello}") core0).1.
Definition core2 : SessionCore slot_service := (handle_frame (frame_of 2 "{patch}") core1).1.
Definition core3 : SessionCore slot_service := (advance core2).1.
Definition core4 : SessionCore slot_service := (handle_frame (frame_of 4 "{close}") core3).1.

Lemma core0_new : executor_new sample_service executor_config_default = Ok core0.
Proof. vm_compute. reflexivity. Qed.

Lemma sample_executor_config : typed_executor_config executor_config_default.
Proof. split; [split|..]; vm_compute; done. Qed.

Lemma core0_ok : session_ok core0.
Proof. exact (proj1 (executor_new_ok _ _ _ sample_service_view sample_executor_config core0_new)). Qed.

Lemma core1_ok : session_ok core1.
Proof. exact (handle_frame_session_ok _ _ _ _ core0_ok (surjective_pairing _)). Qed.

Lemma core2_ok : session_ok core2.
Proof. exact (handle_frame_session_ok _ _ _ _ core1_ok (surjective_pairing _)). Qed.

Lemma core3_ok : session_ok core3.
Proof.
  destruct (advance_total core2 core2_ok) as (c & frames & Heq & Hok & _). unfold core3. by rewrite Heq.
Qed.

Lemma core4_ok : session_ok core4.
Proof. exact (handle_frame_session_ok _ _ _ _ core3_ok (surjective_pairing _)). Qed.

Definition sample_negotiated : Negotiated :=
  match co_state core1 with
  | Active n => n
  | _ => mkNegotiated 1 sample_limits None frame_config_default
  end.

Lemma core1_active : co_state core1 = Active sample_negotiated.
Proof. vm_compute. reflexivity. Qed.

Lemma core2_active : co_state core2 = Active sample_negotiated.
Proof. vm_compute. reflexivity. Qed.

(** ** Witnesses *)

Lemma executor_reachable_ok_witness : session_ok core2.
Proof.
  apply (executor_reachable_ok core2). eapply er_frame; [|apply surjective_pairing]. eapply er_frame; [|apply surjective_pairing].
  exact (er_new _ _ _ sample_service_view sample_executor_config core0_new).
Defined.

Lemma executor_answers_witness :
  ∃ frames, handle_frame (frame_of 2 "{patch}") core1 = (core2, Ok frames) ∧ answered (context_of sample_negotiated) core1 2 frames core2.
Proof.
  pose proof (executor_answers core1 sample_negotiated (frame_of 2 "{patch}") core1_ok core1_active) as Ha.
  assert (is_ok (handle_frame (frame_of 2 "{patch}") core1).2 = true) as Hok by (vm_compute; reflexivity).
  unfold core2. destruct (handle_frame (frame_of 2 "{patch}") core1) as [c r]. destruct Ha as [_ Ha].
  assert (correlation_id (frame_of 2 "{patch}") ∉ co_live_correlations core1) as Hn.
  { intros Hin. apply (bool_decide_eq_true_2 _) in Hin. vm_compute in Hin. discriminate. }
  destruct (Ha Hn) as [(frames & -> & Hf)|(m & cmd & s' & a & reason & _ & _ & _ & -> & _)]; [|discriminate Hok].
  exists frames. split; [reflexivity|exact Hf].
Defined.

Lemma executor_advances_witness :
  ∃ frames, advance core2 = (core3, Ok frames) ∧ (length frames ≤ 2)%nat ∧ advanced (context_of sample_negotiated) core2 frames core3.
Proof.
  destruct (executor_advances core2 core2_ok) as (c & frames & Heq & _ & Hlen & Ha). rewrite core2_active in Ha.
  exists frames. unfold core3. rewrite Heq. split; [reflexivity|]. split; [exact Hlen|exact (proj1 Ha)].
Defined.

Lemma executor_drains_witness :
  co_command_order core2 = [8] ∧ co_command_order (advance_times 1 core2).1 = [] ∧ length (advance_times 1 core2).2 = 1%nat.
Proof.
  assert (co_command_order core2 = [8]) as Ho by (vm_compute; reflexivity). split; [exact Ho|].
  pose proof (executor_drains core2 sample_negotiated core2_ok core2_active) as Hd. rewrite Ho in Hd. cbn [length] in Hd.
  destruct (advance_times 1 core2) as [c rs]. destruct Hd as (_ & _ & Hc & _ & Hr). split; [exact Hc|].
  apply Forall2_length in Hr. symmetry. exact Hr.
Defined.

Lemma executor_lifecycle_witness :
  ∃ g code n, handle_frame (frame_of 5 "{hello}") core4 = (core4, Ok [g]) ∧ emits (context_of n) 5 (SFailure code) g.
Proof.
  pose proof (executor_lifecycle core4 core4_ok) as Hl.
  assert ((match co_state core4 with Closed _ => true | _ => false end) = true) as Hst by (vm_compute; reflexivity).
  destruct (co_state core4) as [|n|n]; [discriminate Hst|discriminate Hst|].
  destruct (Hl (frame_of 5 "{hello}")) as (g & code & Heq & He). exists g, code, n. split; [exact Heq|exact He].
Defined.

(** The service after the sample patch. *)
Definition sample_service1 : slot_service := (service_submit (GPatch sample_patch) sample_service).1.
Definition sample_service2 : slot_service := (service_process_next sample_service1).1.

Lemma sample_service1_ok : service_ok sample_service1.
Proof. exact (proj1 (service_submit_sim sample_service (GPatch sample_patch) sample_service_ok sample_patch_typed)). Qed.

Lemma sample_service1_view : sv_ok sample_service1.
Proof. split; [exact sample_service1_ok|apply NoDup_nil_2]. Qed.

Lemma sample_service2_ok : service_ok sample_service2.
Proof. exact (proj1 (service_process_sim sample_service1 sample_service1_ok)). Qed.

Lemma sample_service2_configured : configured sample_service_config sample_service2.
Proof. split; vm_compute; reflexivity. Qed.

Lemma local_service_promises_witness :
  quiet sample_service1 (set_env sample_environment sample_service1) ∧
  sv_queue sample_service2 = tail (sv_queue sample_service1) ∧ sv_queue sample_service1 = [GPatch sample_patch].
Proof.
  destruct (local_service_promises (W:=SlotStore.store) (E:=N * N)) as [Hlaws Hquiet]. split; [|split].
  - apply Hquiet; [exact sample_service1_view|apply sv_environment].
  - exact (proj1 (proj2 (proj2 (sv_process (SessionServiceLaws:=Hlaws) sample_service1 sample_service1_view)))).
  - vm_compute. reflexivity.
Defined.

Lemma service_reachable_witness : service_ok sample_service1.
Proof.
  apply (service_reachable sample_service_config sample_service1 sample_service_config_ok sample_codec_typed).
  apply sr_submit; [|exact sample_patch_typed]. exact (sr_new _ _ _ sample_service_new).
Defined.

